(* ===== verification/_CoqProject ===== *)
-Q . S2P
Prelude.v
StateMachine.v
JsValue.v
Graph.v
IrelSyntax.v
IrelLexer.v
IrelParser.v
IrelTypes.v
IrelEval.v
StaticValidation.v
Cycles.v
RuntimeStore.v
RuntimeStoreProps.v
Rbac.v
FlowControl.v
JsText.v
HumanTask.v
ExtractMerge.v
Interpreter.v
InterpreterProps.v
InterpreterRuns.v
Translate.v
TranslateProps.v
Schedule.v
Database.v
Settlement.v
InitFailure.v
Driver.v
DriverProps.v
DriverRuns.v
DriverEnds.v
SiteCircuit.v
Sweepers.v
SweeperProps.v
TimeoutProps.v
Gateway.v
GatewayProps.v
LlmIdempotency.v
GatewayReplay.v
CodexSse.v
Leases.v
LeaseProps.v
WorkerCircuit.v
WorkerRuns.v
WorkerProps.v
ResumeTokens.v
WorkerResume.v
ResumeProps.v
ErrorCatalog.v
ApiShared.v
AuditLog.v
AuditProps.v
NetworkGuard.v
NetworkGuardProps.v
ApiStore.v
ApiRuns.v
ApiCreate.v
ApiTasks.v
ApiProps.v
ApiEffects.v
ApiCommands.v
ApiTaskProps.v
Triggers.v
Webhooks.v
TriggerCommands.v
StmtLogic.v
TriggerProps.v
TriggerOutcome.v
TriggerCommandProps.v
HandoffParse.v
Handoffs.v
HandoffProps.v
HandoffFate.v
DeliveryPorts.v
HandoffJobs.v
SinkDelivery.v
SinkDeliveryProps.v
