(* ===== verification/Prelude.v ===== *)
(** * Verification of the enterprise RPA platform

    The platform runs browser automations.  A scenario (a graph of nodes with
    conditions in the expression language IREL) is validated and compiled when
    it is saved; a worker then executes it as a run, which may be suspended for
    a human task, resumed, aborted or dead-lettered; every state change is made
    by compare-and-set and emits events through a transactional outbox.  This
    library models the parts of the TypeScript sources that decide these
    questions and proves that they are correct.

    ** The files

    - [Prelude] (this file): results of code that may throw, optional flags,
      lemmas on lists of pushed values, case-analysis tactics.
    - [StateMachine]: [ts/state-machine-types.ts] and [codegen/transitions.ts].
      The class [Machine] is the interface the store relies on: a transition
      function whose refusals name the entity, the state and the event.
      States, events, guards and side-effect commands are inductive types and
      records with the source's constructors; [transitionRun],
      [transitionWorkitem] and [transitionHumanTask] are functions to [result],
      an [IllegalTransition] being the [Err] case.
    - [JsValue]: the fragment of ECMAScript the other files compute with:
      binary64 numbers, strings, JSON values, property reads.
    - [Graph]: the worklist traversals [reachableFrom]
      ([codegen/static-validation.ts]) and [isAncestor]
      ([codegen/irel-compile.ts]), proved equal to reachability.
    - [IrelSyntax], [IrelLexer], [IrelParser], [IrelTypes], [IrelEval]:
      [codegen/irel-compile.ts], the compiler and evaluator of IREL, in the
      order data, tokenizer, parser, type checker, evaluator.
    - [StaticValidation]: [codegen/static-validation.ts], the rules V1 to V13
      and the compilation of a scenario; it calls [compileIrelExpression].
    - [Cycles]: the correctness of its search for illegal cycles (Tarjan's
      algorithm).
    - [RuntimeStore]: [runtime/fake-store.ts], the in-memory implementation of
      the storage contract of [ts/runtime-contract.ts] (rows and
      compare-and-set, outbox and relay, browser and credential leases, resume
      tokens, dead letters, the worker's [handle]); it calls the transition
      functions of [StateMachine].  One record [store] holds the class's
      fields, one definition models each method.
    - [RuntimeStoreProps]: the store's invariants and theorems.
    - [Rbac]: [ts/rbac-policy.ts].
    - [JsText]: the string methods and the printing of numbers and JSON the
      runtime files use.
    - [FlowControl] (with the node outputs), [HumanTask], [ExtractMerge], [Interpreter]:
      the interpreter of [app/src/runtime] ([flow-control.ts],
      [ir-interpreter-node-output.ts], [ir-interpreter-human-task.ts] with its
      timeout policy and resume scope, [extract-result-merge.ts],
      [ir-interpreter.ts]).  The interpreter is a program in a state and error
      monad [M]; its state [TraversalState] has the local variables of
      [runScenario]; the executor, the page-state resolver and the pause
      request are functions on a host state, fields of [InterpreterDeps].
      [InterpreterProps] holds its program logic (weakest preconditions and the
      step relation [tick] of its state changes), [InterpreterRuns] the theorems.
    - [Translate]: [ir-translate.ts] and the URL resolution of
      [site-resolution.ts], from the saved document and its compiled conditions
      to what the interpreter runs; [TranslateProps] joins the validator, the
      translation and the interpreter.
    - [Schedule]: [run-trigger-schedule.ts], cron expressions.
    - [Database]: the tables of one tenant, transactions on them, and the
      transitions of [run-transition.ts], [workitem-transition.ts],
      [human-task-transition.ts] with [outbox.ts]; they call [StateMachine].
    - [Settlement], [InitFailure]: [workitem-settlement.ts] and
      [run-init-failure.ts].
    - [Driver]: [run-step-driver.ts] with its suspension and artifact parts and
      [challenge-suspension-port.ts]: a run from its claim to its end.  A
      program of type [D] acts on a [World]: the tables, the interference of
      other users before each transaction, the log of committed transactions,
      and the host (browser, stores, codec).  [DriverProps], [DriverRuns] and
      [DriverEnds] hold the logic of transactions, the safety theorems and the
      progress theorem.
    - [SiteCircuit]: [site-circuit.ts], the circuit breaker of a site.
    - [Sweepers]: [app/src/worker/runtime-worker-workitem-checkout.ts] and
      [runtime-worker-human-task-timeout.ts]: checkouts, and the jobs that take
      back expired checkouts and settle overdue human tasks.  [SweeperProps] and
      [TimeoutProps] specify them; the latter also shows what happens to a run
      whose workitem is taken back.
    - [Gateway]: [app/src/gateway/llm-gateway.ts] with its gate, validator and
      audit records: one call of a language model.  A program of type [G] acts on
      a host and a log of what it handed to its ports, so that the theorems of
      [GatewayProps] speak of what was sent.  [LlmIdempotency] has the two stores
      of calls ([pg-llm-call-idempotency-store.ts] and [gateway/idempotency.ts]);
      the class [LawfulStore] states what a store promises to the gateway, both
      are instances, and [GatewayReplay] proves the gateway against it.
      [CodexSse] models the SSE transport and adapter ([codex-sse-transport.ts],
      [codex-sse-adapter.ts]).
    - [Leases]: [app/src/worker/runtime-worker-credential-lease.ts],
      [runtime-worker-browser-lease.ts], the lease and circuit statements of
      [runtime-worker-run-support.ts] and of the sweeper in [runtime-worker.ts]:
      transactions [LTx] on the tables of leases, workers and sites beside the
      tables of [Database].  [LeaseProps] has the theorems over all
      interleavings ([lease_step]), [WorkerCircuit] those of a worker's circuit,
      its Module [LeaseSample] a concrete tenant.
    - [WorkerRuns]: [runtime-worker-run-drive.ts] (the jobs run_claim and
      run_abort), the lease sweeper, [pg-browser-lease-plan-resolver.ts] and
      [site-page-state-config.ts]: programs [L] on the world of the driver and the
      leases; [WorkerProps] has their theorems.
    - [ResumeTokens]: [resume-token-codec.ts], [session-restorer.ts] and the
      parsing of [runtime-worker-parse.ts]; [WorkerResume]:
      [runtime-worker-run-resume.ts]; [ResumeProps] has their theorems and,
      in the Module [WorkerSample], concrete runs of the jobs.
    - [ErrorCatalog]: [ts/error-catalog.ts], [codegen/error-middleware.ts] and the
      error boundary [app/src/runtime/errors.ts].
    - [AuditLog]: the audit log, its three writers and its verification
      ([audit-record-hash.ts], [security-audit.ts], [appendGovernanceAudit] of
      [role-assignments.ts], [runtime-worker-lifecycle-audit.ts]); [AuditProps]
      has its theorems.
    - [ApiShared], [ApiStore]: what the request handlers of [app/src/api] share:
      recognisers, the tables of a tenant ([Api]), transactions ([Stmt]) and
      handlers ([Act]), the idempotency keys ([idempotency.ts]), the skeleton of a
      command ([command.ts]) and the job queue ([run-queue.ts]).
    - [ApiRuns] ([server-abort-run.ts], [server-resume-run.ts]), [ApiCreate]
      ([server-create-run.ts] with the governance of AI), [ApiTasks]
      ([human-tasks.ts], [human-tasks-command.ts], [human-task-form-schema.ts],
      [rbac.ts], [dlq.ts]): the commands; they call [Database] and [StateMachine].
    - [ApiProps], [ApiEffects], [ApiCommands], [ApiTaskProps]: their theorems;
      Module [ApiSample] of the last: a concrete tenant.

    - [NetworkGuard]: [app/src/executor/browser-network-guard.ts], the guard that
      decides every request of a run's browser.  Asynchronous code is a [Proc] that
      stops at its awaits; [step] answers one call or delivers one event of the
      browser, and the trace lists what was received, sent and answered.
      [NetworkGuardProps] has the theorems over all traces.
    - [Triggers]: [app/src/worker/run-trigger-scheduler.ts]; [Webhooks]:
      [api/webhook-triggers.ts] and [webhook-trigger-auth.ts]; [TriggerCommands]:
      [api/run-triggers.ts] with [run-triggers-parse.ts].  They create runs by
      [createRunInTx] of [ApiCreate] and read the clock of [Schedule].
      [StmtLogic] is a Hoare logic of transactions among others that respect an
      invariant ([polite]); [TriggerProps], [TriggerOutcome] and
      [TriggerCommandProps] have the theorems, Module [TriggerSample] a concrete tenant.
    - [HandoffParse], [Handoffs]: integration hand-offs, that is
      [api/integration-handoffs-parse.ts], [integration-handoffs-store.ts],
      [integration-handoffs.ts] and [runtime/integration-handoff-dispatch.ts] with
      [redacted-error-code.ts].  [HandoffProps] has the system of commands, callbacks
      and dispatchers ([hstep]) with its invariant, [HandoffFate] what becomes of an
      attempt and the refinement of the system by the code, [HandoffJobs] the handler
      of the job composed with its port, and in Module [HandoffSample] a concrete tenant.
    - [DeliveryPorts]: the ports that call external endpoints
      ([integration-handoff-dispatch-port.ts], [ops-notification-webhook-port.ts],
      [sink-delivery-port.ts]); one loop, given the rules of each port.
    - [SinkDelivery]: [runtime/pipeline/sink-delivery.ts] and the handler of its job;
      [SinkDeliveryProps] has the system of its statements ([kstep]) and the theorems,
      Module [SinkSample] a concrete tenant.

    ** What the theorems show

    State machines: the functions are the design tables; over all traces of
    transitions, a run emits exactly one terminal event, can always be brought
    to an end, stays aborted once aborted, alternates suspensions and
    resumptions and completes only after its outputs were flushed; dead letters
    of a workitem balance operator replays; human tasks cannot wait for ever.

    IREL: the tokenizer loses and invents nothing and reads back what is
    printed; the parser accepts exactly the grammar of [ir-expression.md] and
    ends on every input; an accepted expression evaluates, in any scope whose
    values have the declared types, to a value of its type or fails for a
    missing field, an overflow or a bad date; it reads only outputs of earlier
    nodes; a rejection carries a diagnostic except in one stated case; the
    value does not depend on the host as far as [Date.parse] does not.

    Scenarios: what [compileScenarioStatic] accepts is well formed (the fields
    of the record [well_formed]), keeps all its branches, has only sound
    conditions, and covers the human decisions when V13 raises no warning.  The
    search for illegal cycles reports exactly the strongly connected components
    with a cycle and no loop node, so every cycle of an accepted scenario is in
    the component of a bounded loop.

    Store: [step] has one constructor per method that changes the store (its
    comment names the two uses of fixture methods it leaves out), so the
    theorems about [reachable] stores hold for every interleaving of calls:
    events are delivered at most once and a large enough batch drains the
    outbox, browser leases are exclusive, an abandoned workitem has an open dead
    letter and can be replayed; further theorems give the behaviour of
    compare-and-set, credential leases and resume tokens.

    Interpreter: every run ends within its step budget, loops within their
    bounds; branches are chosen by priority; a security failure is final; a
    committed side effect is never repeated by self-healing; a suspension can be
    resumed; extract results are merged without losing a row; and a scenario the
    validator accepted runs without structural failure (which joins the two
    ends of the system: what is checked when a scenario is saved is what the
    worker relies on).

    Driver: whatever other users of the database do, every committed transaction
    is one step of the state machines with its events and the settlement of the
    workitem; a result is what was committed; and while nobody else touches the
    run, driving it always reaches an end or a suspension.  Setup failures are
    bounded, settlements are specified on every branch, the circuit breaker is
    its unpruned reference, the next fire time of a schedule is the least one.

    Deadlines: the sweeps change exactly the rows whose deadline has passed and
    settle what depends on them, the timer of a checkout counts exactly the time
    its run was not suspended; but a run that outlives its checkout cannot end.

    Gateway: only content that passed the redaction boundary and the audit log
    reaches a backend, in first tries, retries, fallback and repair; the number
    of calls is bounded; a completed call is answered from the store and never
    made again, reservations are exclusive and none is left open; the frames of
    a stream do not depend on how the network cuts it, and a stream ends once,
    within its budget and time.

    Leases: over all interleavings of their operations a credential is used by
    at most as many runs as its policy allows, and one session of a browser
    identity is open at a time unless a drain claim is handed back (which can
    open a second one); credentials are acquired all or none; the circuit of a
    worker is its specification over all histories.

    Jobs: a claim takes the run, its lease and its credentials together or
    nothing; an abort that has claimed its lease is decided by its deadline; the
    token stored at a suspension is accepted at the resume and its signature
    alone decides whether the run goes on.  Three defects are theorems: a run
    that is refused at its resume leaves its workitem processing for good, a run
    with a second lease cannot be aborted, and a worker is isolated because of
    leases nobody released.

    Commands: over all interleavings of requests, expiries and crashes a command
    takes effect once per key ([sys_step]); each command settles its key and its
    other writes together or changes nothing; an accepted abort holds against
    every race; a resolved task wakes its run, and only its assignee resolves it;
    the key of a failed command is specified on every branch.  Two defects are
    theorems: a task can be escalated once only, and a replayed dead letter can be
    replayed again.

    Audit: what the writers write verifies; a verified log is fixed by its last
    hash, up to collisions of the digest on its rows; a prefix of a log verifies
    too (a truncated log is not noticed), and an upper-case correlation id breaks
    the chain.

    Browser network: a request goes on only if its host is allowed and its record
    was written, every paused request is decided exactly once, and a violation is
    held exactly when something alarming was seen.  That WebSocket handshakes are
    not stopped, and that a session registered during the installation is not
    guarded, are theorems too.

    Triggers: the ledger of fires has one entry per trigger and instant or event,
    active runs stay within the limit against every interference that respects
    the locks; a due trigger always moves to the first instant of its expression
    after its base, unless its time has a fraction of a millisecond, when it stops
    for good; triggers stay well formed, except in a race of resume and
    scheduler; a webhook has an effect only when its signature verifies.

    Hand-offs: over all interleavings, with dispatchers that vanish, no attempt is
    sent twice, attempts are numbered without gaps and bounded, a waiting attempt has
    its job; a job with the port of the code leaves its attempt recorded unless the
    secret does not resolve.  Defects proved: such an attempt is stranded for good, an
    acceptance overwrites a callback that came first, and a hand-off can be dispatched
    twice.

    Deliveries: the ports send only over https, to hosts allowed by name, through
    every redirect; the attempts of a record at a sink are numbered without gaps, end
    exactly once with their event, are always recorded, and carry one key, which is
    not always that of one record only (a colon in a schema).

    Access control: the inverted table the middleware reads is the policy, and
    privileges grow along the roles, with the sensitive actions reserved.

    ** Fuel and bounds

    The parser's descent has fuel [8 * length + 8] and never exhausts it
    ([parse_enough_fuel]).  The worklist loops of [Graph] have as fuel one more
    than the number of edges (plus the stack), which the potential [pending]
    shows to be enough.  Tarjan's recursion has as fuel one more than the
    number of nodes, enough for every graph.  Printing a hexadecimal number has
    one more than the number.  The interpreter's traversal and its
    self-healing have as fuel one more than the step budget, which every
    iteration spends ([runScenario_terminates]).  The search for the next fire
    time recurses on the binary digits of the number of minutes of five years.
    Everything else is structurally recursive.  Numbers are IEEE-754 doubles where the source computes with them.

    ** What is assumed

    Strings are sequences of 8-bit code units.  Records are association lists
    in the order of [Object.entries], nodes have distinct keys, and reads are of
    own properties.  Instants are milliseconds; ISO texts are their printed
    form.  [Date.parse] and HMAC-SHA256 are arguments of the definitions that
    use them.  Each store method is atomic, as JavaScript methods without
    [await] on external work are; [relayOutboxBatch] is also decomposed into
    its publish and mark steps.  A scenario has passed its JSON Schema, so
    [path], [when] and [cmd_ref] are strings where they are read.

    In the runtime, error messages are dropped where only the code of an error
    is observed; step budgets are integers; JSON values are trees without
    sharing; case folding is of ASCII letters; the jitter of a backoff is a
    rational number.  [Intl.DateTimeFormat], [URL], [RegExp], the executor and
    all ports are parameters.  A transaction is a function on the tables that
    commits its result or none, other transactions happen between two of them
    (the rows are read [FOR UPDATE]), and a failed connection rolls back.
    Timestamps of one transaction are equal, as [now()] is in PostgreSQL.
    Identifiers of [randomUUID] are an argument; the theorem that needs them
    unused says so.  What other workers do to the leases between two
    transactions of a job, the heartbeat included, is interference.  The
    streams of a backend are finite lists of turns; [JSON.parse] is any parser;
    the precision of the numeric and jsonb columns is a parameter.

    In the handlers, others commit before each transaction and, inside one, at
    the points where it has read and not yet written ([interleave], READ
    COMMITTED); [Date.now()] and [now()] are one clock; a uuid column stores lower
    case and a jsonb column the value; the tables are those of the principal's
    tenant; authentication and the pre-handler that authorises the route have
    passed; the queue can enqueue resumptions.  [new URL], the formats of the time
    zones, the microseconds of a timestamptz text, the HMAC of a webhook and the
    message of a database error are parameters.

    The ports and [fetch] are functions of the requests made so far; a status of HTTP
    is between 100 and 599; a dispatcher draws its lease token in the transaction that
    claims.  Jobs name rows by the text of their uuid columns.

    ** What is not modelled

    The JSON Schemas are checked by a library; the executors drive a browser; the web
    console, the adapters of other model backends, the stores of artifacts and secrets
    and the metrics are I/O.  Of the HTTP API the handlers that read or report, and
    those of scenarios, releases, approvals and role assignments (but for the audit
    entry of the last), are left out, and so are authentication and the pre-handler
    that authorises a route; of the worker the lifecycle of artifacts, notifications
    (but for their port) and offboarding.  They store and list documents, or repeat
    the patterns modelled here: a command under an idempotency key, a job that claims,
    calls a port and records.  Fixtures, tests, scripts and the in-memory ports for
    tests have no counterpart. *)

From stdpp Require Import base strings list gmap pretty.
From Stdlib Require Import ZArith Lia.

(** ** Results of code that may throw *)

Inductive result (E A : Type) : Type :=
| Ok (a : A)
| Err (e : E).
Arguments Ok {E A} a.
Arguments Err {E A} e.

#[export] Instance result_ret {E} : MRet (result E) := λ A a, Ok a.
#[export] Instance result_bind {E} : MBind (result E) :=
  λ A B f m, match m with Ok a => f a | Err e => Err e end.

Definition is_ok {E A} (r : result E A) : bool :=
  match r with Ok _ => true | Err _ => false end.

#[export] Instance result_eq_dec {E A} `{EqDecision E, EqDecision A} :
  EqDecision (result E A).
Proof. solve_decision. Defined.

Lemma result_bind_Ok {E A B} (m : result E A) (f : A → result E B) b :
  (m ≫= f) = Ok b ↔ ∃ a, m = Ok a ∧ f a = Ok b.
Proof. destruct m; simpl; naive_solver. Qed.

Lemma result_bind_Err {E A B} (m : result E A) (f : A → result E B) e :
  (m ≫= f) = Err e ↔ m = Err e ∨ ∃ a, m = Ok a ∧ f a = Err e.
Proof. destruct m; simpl; naive_solver. Qed.

(** ** JavaScript truth values of optional flags

    A guard field of type [boolean | undefined] is an [option bool];
    [if (g.field)] holds exactly for [Some true]. *)

Definition truthy (b : option bool) : bool :=
  match b with Some true => true | _ => false end.

Lemma truthy_true b : truthy b = true ↔ b = Some true.
Proof. destruct b as [[]|]; simpl; naive_solver. Qed.

(** ** Lists of pushed values *)

Lemma concat_map_nil {A B} (f : A → list B) l : concat (map f l) = [] ↔ ∀ x, x ∈ l → f x = [].
Proof.
  induction l as [|x l IH]; simpl; [set_solver|]. rewrite app_nil, IH. split.
  - intros [H1 H2] y [->|Hy]%elem_of_cons; auto.
  - intros H. split; [apply H; by left|]. intros y Hy. apply H. by right.
Qed.

Lemma sublist_map {A B} (f : A → B) l k : sublist l k → sublist (map f l) (map f k).
Proof. induction 1; simpl; by constructor. Qed.

(** ** Strings *)

Lemma str_app_assoc (a b c : string) : (a +:+ b) +:+ c = a +:+ b +:+ c.
Proof. induction a as [|x a IH]; [done|]. exact (f_equal (String x) IH). Qed.

Lemma str_app_nil_r (a : string) : a +:+ EmptyString = a.
Proof. induction a as [|x a IH]; [done|]. exact (f_equal (String x) IH). Qed.

Lemma str_length_app (a b : string) : String.length (a +:+ b) = String.length a + String.length b.
Proof. induction a as [|x a IH]; [done|]. exact (f_equal S IH). Qed.

(** ** Tactics *)

(** Case analysis on the matches and conditionals of the hypotheses or goal. *)
Ltac break :=
  match goal with
  | H : context [match ?x with _ => _ end] |- _ =>
      lazymatch x with context [match _ with _ => _ end] => fail | _ => destruct x eqn:? end
  | |- context [match ?x with _ => _ end] =>
      lazymatch x with context [match _ with _ => _ end] => fail | _ => destruct x eqn:? end
  end.

Ltac break_hyp H :=
  repeat (match type of H with
          | context [match ?x with _ => _ end] =>
              lazymatch x with
              | context [match _ with _ => _ end] => fail
              | _ => destruct x eqn:?
              end
          end; try discriminate H).
