(* ===== verification/StateMachine.v ===== *)
(** * State machines of runs, workitems and human tasks

    Models [ts/state-machine-types.ts] (states, events, guards, side-effect
    commands) and [codegen/transitions.ts] (the three transition functions).
    A thrown [IllegalTransition] is the [Err] case of [result].  Section
    [Tables] states the transition tables of the design document
    ([state-machine.md], rows R1..R28, W1..W11, H1..H8) as inductive relations
    and the functions are proved to implement exactly these tables.  The rest
    of the file proves safety and liveness of traces of transitions. *)

From stdpp Require Import base strings list gmap.
From S2P Require Import Prelude.

(** ** States *)

Inductive RunState :=
| run_queued | run_claimed | run_running | run_suspending | run_suspended
| run_resume_requested | run_resuming | run_completing | run_completed
| run_aborting | run_cancelled | run_failed_business | run_failed_system.

Definition RUN_TERMINAL : list RunState :=
  [run_completed; run_cancelled; run_failed_business; run_failed_system].

Inductive WorkitemState :=
| wi_new | wi_processing | wi_successful | wi_retry
| wi_failed_business | wi_failed_system | wi_abandoned.

Definition WORKITEM_TERMINAL : list WorkitemState :=
  [wi_successful; wi_failed_business; wi_abandoned].

Inductive HumanTaskState :=
| ht_open | ht_assigned | ht_in_progress | ht_resolved | ht_expired
| ht_cancelled | ht_escalated.

Definition HUMANTASK_TERMINAL : list HumanTaskState :=
  [ht_resolved; ht_expired; ht_cancelled].

Inductive HumanTaskKind := k_approval | k_validation | k_exception | k_captcha | k_mfa.

#[export] Instance RunState_eq_dec : EqDecision RunState.
Proof. solve_decision. Defined.
#[export] Instance WorkitemState_eq_dec : EqDecision WorkitemState.
Proof. solve_decision. Defined.
#[export] Instance HumanTaskState_eq_dec : EqDecision HumanTaskState.
Proof. solve_decision. Defined.
#[export] Instance HumanTaskKind_eq_dec : EqDecision HumanTaskKind.
Proof. solve_decision. Defined.

(** ** Events *)

(** [challengeKind] is ["captcha" | "mfa"] and [humanTaskKind] of
    [human_task_required] is ["approval" | "validation" | "exception"]. *)
Inductive ChallengeKind := ck_captcha | ck_mfa.
Inductive HumanTaskNodeKind := hk_approval | hk_validation | hk_exception.

Inductive RunEvent :=
| ev_worker_claimed
| ev_run_started
| ev_init_failed
| ev_step_challenge_detected (challengeKind : option ChallengeKind)
| ev_human_task_required (humanTaskKind : option HumanTaskNodeKind)
| ev_operator_pause_requested
| ev_abort_requested
| ev_last_node_success
| ev_unrecoverable_exception
| ev_business_exception
| ev_security_exception
| ev_bookmark_saved
| ev_bookmark_failed
| ev_human_task_resolved
| ev_human_task_expired
| ev_human_task_escalated
| ev_restore_ok
| ev_restore_failed
| ev_finalize_ok
| ev_finalize_failed
| ev_drain_ok
| ev_drain_timeout.

Inductive WorkitemEvent :=
| wev_checkout | wev_run_succeeded | wev_business_exception | wev_system_exception
| wev_checkout_expired | wev_run_suspended | wev_run_resumed | wev_manual_replay.

Inductive HumanTaskEvent :=
| hev_assign | hev_start | hev_resolve | hev_timeout | hev_escalate | hev_cancel.

#[export] Instance ChallengeKind_eq_dec : EqDecision ChallengeKind.
Proof. solve_decision. Defined.
#[export] Instance HumanTaskNodeKind_eq_dec : EqDecision HumanTaskNodeKind.
Proof. solve_decision. Defined.
#[export] Instance RunEvent_eq_dec : EqDecision RunEvent.
Proof. solve_decision. Defined.
#[export] Instance WorkitemEvent_eq_dec : EqDecision WorkitemEvent.
Proof. solve_decision. Defined.
#[export] Instance HumanTaskEvent_eq_dec : EqDecision HumanTaskEvent.
Proof. solve_decision. Defined.

(** ** Guards: the pre-evaluated guard columns *)

Inductive ExceptionClass := ex_business | ex_system | ex_challenge | ex_security.
#[export] Instance ExceptionClass_eq_dec : EqDecision ExceptionClass.
Proof. solve_decision. Defined.

Record RunGuard := mkRunGuard {
  leaseAcquired : option bool;
  initOk : option bool;
  initFailBelowThreshold : option bool;
  flowTerminalReached : option bool;
  exceptionClass : option ExceptionClass;
  resumeTokenIssued : option bool;
  humanTaskValid : option bool;
  restoreOk : option bool;
  loginBypassPossible : option bool;
  finalizeOk : option bool;
  drainTimedOut : option bool;
  bookmarkCancelable : option bool
}.

Record WorkitemGuard := mkWorkitemGuard {
  uniqueReferenceFree : option bool;
  sinkPolicyMet : option bool;
  attemptsBelowMax : option bool;
  backoffElapsed : option bool;
  operatorAuthorized : option bool
}.

Inductive OnTimeout := ot_fail | ot_escalate.
#[export] Instance OnTimeout_eq_dec : EqDecision OnTimeout.
Proof. solve_decision. Defined.

Record HumanTaskGuard := mkHumanTaskGuard { onTimeout : option OnTimeout }.

(** The empty guard object [{}]. *)
Definition run_guard_empty : RunGuard :=
  mkRunGuard None None None None None None None None None None None None.
Definition workitem_guard_empty : WorkitemGuard :=
  mkWorkitemGuard None None None None None.
Definition human_task_guard_empty : HumanTaskGuard := mkHumanTaskGuard None.

(** ** Side effects *)

Inductive EventEnvelopeType :=
| run_created_e | run_started_e | run_suspended_e | run_resume_requested_e | run_resumed_e
| run_cancelled_e | run_completed_e | run_failed_business_e | run_failed_system_e
| step_started_e | step_completed_e | step_verify_failed_e
| llm_stream_started_e | llm_stream_completed_e | llm_stream_aborted_e
| challenge_detected_e | challenge_resolved_e
| human_task_created_e | human_task_resolved_e | human_task_expired_e | human_task_escalated_e
| workitem_completed_e | workitem_dead_lettered_e
| pipeline_stage_completed_e | sink_delivered_e | sink_dead_lettered_e
| site_circuit_opened_e | site_circuit_closed_e.
#[export] Instance EventEnvelopeType_eq_dec : EqDecision EventEnvelopeType.
Proof. solve_decision. Defined.

Inductive EntityKind := e_run | e_workitem | e_human_task.
#[export] Instance EntityKind_eq_dec : EqDecision EntityKind.
Proof. solve_decision. Defined.

Inductive LeaseKind := l_browser | l_credential.
#[export] Instance LeaseKind_eq_dec : EqDecision LeaseKind.
Proof. solve_decision. Defined.

Inductive SideEffectCmd :=
| emitEvent (event : EventEnvelopeType)
| setField (entity : EntityKind) (field : string)
| requeue (* backoff: true *)
| openCircuit
| evaluateDeadLetter
| createDeadLetter
| createHumanTask (humanTaskKind : HumanTaskKind)
| startBookmark
| issueResumeToken
| sseClose
| browserDrain
| releaseLease (lease : LeaseKind)
| killLease (lease : LeaseKind)
| restoreSession
| flushArtifacts
| finalizeOutputs
| usageFlush
| resetStepLoopCounters
| pauseCheckoutTimer
| resumeCheckoutTimer
| reassignAssignee
| captureFailureScreenshot
| consistencyRecovery
| rejectCommand (code : string) (httpStatus : nat)
| notify (channel : option string).
#[export] Instance SideEffectCmd_eq_dec : EqDecision SideEffectCmd.
Proof. solve_decision. Defined.

Record TransitionResult (S : Type) := mkTransition { next : S; sideEffects : list SideEffectCmd }.
Arguments mkTransition {S} _ _.
Arguments next {S} _.
Arguments sideEffects {S} _.

(** ** String forms, as they occur in errors and in idempotency keys *)

Definition RunState_str (s : RunState) : string :=
  match s with
  | run_queued => "queued" | run_claimed => "claimed" | run_running => "running"
  | run_suspending => "suspending" | run_suspended => "suspended"
  | run_resume_requested => "resume_requested" | run_resuming => "resuming"
  | run_completing => "completing" | run_completed => "completed"
  | run_aborting => "aborting" | run_cancelled => "cancelled"
  | run_failed_business => "failed_business" | run_failed_system => "failed_system"
  end.

Definition WorkitemState_str (s : WorkitemState) : string :=
  match s with
  | wi_new => "new" | wi_processing => "processing" | wi_successful => "successful"
  | wi_retry => "retry" | wi_failed_business => "failed_business"
  | wi_failed_system => "failed_system" | wi_abandoned => "abandoned"
  end.

Definition HumanTaskState_str (s : HumanTaskState) : string :=
  match s with
  | ht_open => "open" | ht_assigned => "assigned" | ht_in_progress => "in_progress"
  | ht_resolved => "resolved" | ht_expired => "expired" | ht_cancelled => "cancelled"
  | ht_escalated => "escalated"
  end.

Definition RunEvent_type (e : RunEvent) : string :=
  match e with
  | ev_worker_claimed => "worker.claimed" | ev_run_started => "run.started"
  | ev_init_failed => "init_failed" | ev_step_challenge_detected _ => "step.challenge_detected"
  | ev_human_task_required _ => "human_task_required"
  | ev_operator_pause_requested => "operator_pause_requested"
  | ev_abort_requested => "abort_requested" | ev_last_node_success => "last_node_success"
  | ev_unrecoverable_exception => "unrecoverable_exception"
  | ev_business_exception => "business_exception" | ev_security_exception => "security_exception"
  | ev_bookmark_saved => "bookmark_saved" | ev_bookmark_failed => "bookmark_failed"
  | ev_human_task_resolved => "human_task.resolved" | ev_human_task_expired => "human_task.expired"
  | ev_human_task_escalated => "human_task.escalated" | ev_restore_ok => "restore_ok"
  | ev_restore_failed => "restore_failed" | ev_finalize_ok => "finalize_ok"
  | ev_finalize_failed => "finalize_failed" | ev_drain_ok => "drain_ok"
  | ev_drain_timeout => "drain_timeout"
  end.

Definition WorkitemEvent_type (e : WorkitemEvent) : string :=
  match e with
  | wev_checkout => "checkout" | wev_run_succeeded => "run_succeeded"
  | wev_business_exception => "business_exception" | wev_system_exception => "system_exception"
  | wev_checkout_expired => "checkout_expired" | wev_run_suspended => "run_suspended"
  | wev_run_resumed => "run_resumed" | wev_manual_replay => "manual_replay"
  end.

Definition HumanTaskEvent_type (e : HumanTaskEvent) : string :=
  match e with
  | hev_assign => "assign" | hev_start => "start" | hev_resolve => "resolve"
  | hev_timeout => "timeout" | hev_escalate => "escalate" | hev_cancel => "cancel"
  end.

Definition EventEnvelopeType_str (e : EventEnvelopeType) : string :=
  match e with
  | run_created_e => "run.created" | run_started_e => "run.started"
  | run_suspended_e => "run.suspended" | run_resume_requested_e => "run.resume_requested"
  | run_resumed_e => "run.resumed" | run_cancelled_e => "run.cancelled"
  | run_completed_e => "run.completed" | run_failed_business_e => "run.failed_business"
  | run_failed_system_e => "run.failed_system" | step_started_e => "step.started"
  | step_completed_e => "step.completed" | step_verify_failed_e => "step.verify.failed"
  | llm_stream_started_e => "llm.stream.started" | llm_stream_completed_e => "llm.stream.completed"
  | llm_stream_aborted_e => "llm.stream.aborted" | challenge_detected_e => "challenge.detected"
  | challenge_resolved_e => "challenge.resolved" | human_task_created_e => "human_task.created"
  | human_task_resolved_e => "human_task.resolved" | human_task_expired_e => "human_task.expired"
  | human_task_escalated_e => "human_task.escalated" | workitem_completed_e => "workitem.completed"
  | workitem_dead_lettered_e => "workitem.dead_lettered"
  | pipeline_stage_completed_e => "pipeline.stage.completed" | sink_delivered_e => "sink.delivered"
  | sink_dead_lettered_e => "sink.dead_lettered" | site_circuit_opened_e => "site.circuit_opened"
  | site_circuit_closed_e => "site.circuit_closed"
  end.

(** The exception [IllegalTransition(entity, state, event)]. *)
Record IllegalTransition := mkIllegal { ill_entity : EntityKind; ill_state : string; ill_event : string }.

(** ** Helpers of [transitions.ts] *)

Abbreviation outcome S := (result IllegalTransition (TransitionResult S)).

Definition r {S} (next : S) (effects : list SideEffectCmd) : outcome S :=
  Ok (mkTransition next effects).

Definition requireBool (entity : EntityKind) (state event : string) (value : option bool)
  : result IllegalTransition bool :=
  match value with
  | Some b => Ok b
  | None => Err (mkIllegal entity state event)
  end.

Definition challengeKind_task (k : option ChallengeKind) : HumanTaskKind :=
  match k with Some ck_mfa => k_mfa | Some ck_captcha => k_captcha | None => k_captcha end.

Definition nodeKind_task (k : option HumanTaskNodeKind) : HumanTaskKind :=
  match k with
  | Some hk_approval => k_approval
  | Some hk_validation => k_validation
  | Some hk_exception => k_exception
  | None => k_exception
  end.

(** ** [transitionRun], one definition per case of its [switch] *)

Definition run_illegal (cur : RunState) (ev : RunEvent) : outcome RunState :=
  Err (mkIllegal e_run (RunState_str cur) (RunEvent_type ev)).

Definition run_from_queued (ev : RunEvent) (g : RunGuard) : outcome RunState :=
  match ev with
  | ev_worker_claimed =>
      if truthy (leaseAcquired g)
      then r run_claimed [setField e_run "worker_id"]
      else run_illegal run_queued ev
  | _ => run_illegal run_queued ev
  end.

Definition run_from_claimed (ev : RunEvent) (g : RunGuard) : outcome RunState :=
  match ev with
  | ev_run_started =>
      if truthy (initOk g)
      then r run_running [emitEvent run_started_e]
      else run_illegal run_claimed ev
  | ev_init_failed =>
      b ← requireBool e_run (RunState_str run_claimed) (RunEvent_type ev) (initFailBelowThreshold g);
      if (b : bool)
      then r run_queued [requeue]
      else r run_failed_system [openCircuit; evaluateDeadLetter; emitEvent run_failed_system_e]
  | _ => run_illegal run_claimed ev
  end.

Definition run_from_running (ev : RunEvent) (g : RunGuard) : outcome RunState :=
  match ev with
  | ev_step_challenge_detected k =>
      r run_suspending [createHumanTask (challengeKind_task k); startBookmark]
  | ev_human_task_required k =>
      r run_suspending [createHumanTask (nodeKind_task k); startBookmark]
  | ev_operator_pause_requested => r run_suspending [startBookmark]
  | ev_abort_requested => r run_aborting [sseClose; browserDrain]
  | ev_last_node_success =>
      if truthy (flowTerminalReached g)
      then r run_completing [finalizeOutputs]
      else run_illegal run_running ev
  | ev_unrecoverable_exception =>
      if decide (exceptionClass g = Some ex_system)
      then r run_failed_system
             [captureFailureScreenshot; evaluateDeadLetter; emitEvent run_failed_system_e]
      else run_illegal run_running ev
  | ev_business_exception =>
      if decide (exceptionClass g = Some ex_business)
      then r run_failed_business [emitEvent run_failed_business_e]
      else run_illegal run_running ev
  | ev_security_exception =>
      if decide (exceptionClass g = Some ex_security)
      then r run_aborting [sseClose; browserDrain; notify None]
      else run_illegal run_running ev
  | _ => run_illegal run_running ev
  end.

Definition run_from_suspending (ev : RunEvent) (g : RunGuard) : outcome RunState :=
  match ev with
  | ev_bookmark_saved =>
      if truthy (resumeTokenIssued g)
      then r run_suspended [issueResumeToken; releaseLease l_browser; emitEvent run_suspended_e]
      else run_illegal run_suspending ev
  | ev_bookmark_failed =>
      r run_failed_system [consistencyRecovery; emitEvent run_failed_system_e]
  | ev_abort_requested =>
      if truthy (bookmarkCancelable g)
      then r run_aborting [sseClose; browserDrain]
      else run_illegal run_suspending ev
  | _ => run_illegal run_suspending ev
  end.

Definition run_from_suspended (ev : RunEvent) (g : RunGuard) : outcome RunState :=
  match ev with
  | ev_human_task_resolved =>
      if truthy (humanTaskValid g)
      then r run_resume_requested [emitEvent run_resume_requested_e]
      else run_illegal run_suspended ev
  | ev_human_task_expired =>
      r run_failed_business [evaluateDeadLetter; notify None; emitEvent run_failed_business_e]
  | ev_human_task_escalated => r run_suspended [reassignAssignee]
  | ev_abort_requested => r run_aborting []
  | _ => run_illegal run_suspended ev
  end.

Definition run_from_resume_requested (ev : RunEvent) (g : RunGuard) : outcome RunState :=
  match ev with
  | ev_worker_claimed =>
      if truthy (leaseAcquired g)
      then r run_resuming [restoreSession]
      else run_illegal run_resume_requested ev
  | ev_abort_requested => r run_aborting []
  | _ => run_illegal run_resume_requested ev
  end.

Definition run_from_resuming (ev : RunEvent) (g : RunGuard) : outcome RunState :=
  match ev with
  | ev_restore_ok =>
      if truthy (restoreOk g)
      then r run_running [emitEvent run_resumed_e]
      else run_illegal run_resuming ev
  | ev_restore_failed =>
      b ← requireBool e_run (RunState_str run_resuming) (RunEvent_type ev) (loginBypassPossible g);
      if (b : bool)
      then r run_running [emitEvent run_resumed_e]
      else r run_failed_system [emitEvent run_failed_system_e]
  | ev_abort_requested => r run_aborting [sseClose; browserDrain]
  | _ => run_illegal run_resuming ev
  end.

Definition run_from_completing (ev : RunEvent) (g : RunGuard) : outcome RunState :=
  match ev with
  | ev_finalize_ok =>
      if truthy (finalizeOk g)
      then r run_completed
             [flushArtifacts; finalizeOutputs; usageFlush; emitEvent run_completed_e]
      else run_illegal run_completing ev
  | ev_finalize_failed =>
      r run_failed_system [consistencyRecovery; emitEvent run_failed_system_e]
  | ev_abort_requested => r run_completing [rejectCommand "RUN_ALREADY_TERMINAL" 409]
  | _ => run_illegal run_completing ev
  end.

Definition run_from_aborting (ev : RunEvent) (g : RunGuard) : outcome RunState :=
  match ev with
  | ev_drain_ok => r run_cancelled [releaseLease l_browser; emitEvent run_cancelled_e]
  | ev_drain_timeout => r run_cancelled [killLease l_browser; emitEvent run_cancelled_e]
  | _ => run_illegal run_aborting ev
  end.

Definition transitionRun (cur : RunState) (ev : RunEvent) (g : RunGuard) : outcome RunState :=
  match cur with
  | run_queued => run_from_queued ev g
  | run_claimed => run_from_claimed ev g
  | run_running => run_from_running ev g
  | run_suspending => run_from_suspending ev g
  | run_suspended => run_from_suspended ev g
  | run_resume_requested => run_from_resume_requested ev g
  | run_resuming => run_from_resuming ev g
  | run_completing => run_from_completing ev g
  | run_aborting => run_from_aborting ev g
  | run_completed | run_cancelled | run_failed_business | run_failed_system =>
      run_illegal cur ev
  end.

(** ** [transitionWorkitem] *)

Definition wi_illegal (cur : WorkitemState) (ev : WorkitemEvent) : outcome WorkitemState :=
  Err (mkIllegal e_workitem (WorkitemState_str cur) (WorkitemEvent_type ev)).

Definition wi_attempts_branch (ev : WorkitemEvent) (g : WorkitemGuard) : outcome WorkitemState :=
  b ← requireBool e_workitem (WorkitemState_str wi_processing) (WorkitemEvent_type ev)
        (attemptsBelowMax g);
  if (b : bool)
  then r wi_retry []
  else r wi_abandoned [createDeadLetter; emitEvent workitem_dead_lettered_e].

Definition wi_from_processing (ev : WorkitemEvent) (g : WorkitemGuard) : outcome WorkitemState :=
  match ev with
  | wev_run_succeeded =>
      if truthy (sinkPolicyMet g)
      then r wi_successful [emitEvent workitem_completed_e]
      else wi_illegal wi_processing ev
  | wev_business_exception => r wi_failed_business []
  | wev_system_exception => wi_attempts_branch ev g
  | wev_checkout_expired => wi_attempts_branch ev g
  | wev_run_suspended => r wi_processing [pauseCheckoutTimer]
  | wev_run_resumed => r wi_processing [resumeCheckoutTimer]
  | _ => wi_illegal wi_processing ev
  end.

Definition transitionWorkitem (cur : WorkitemState) (ev : WorkitemEvent) (g : WorkitemGuard)
  : outcome WorkitemState :=
  match cur with
  | wi_new =>
      match ev with
      | wev_checkout =>
          if truthy (uniqueReferenceFree g)
          then r wi_processing
                 [setField e_workitem "checked_out_by"; setField e_workitem "checked_out_at"]
          else wi_illegal cur ev
      | _ => wi_illegal cur ev
      end
  | wi_processing => wi_from_processing ev g
  | wi_retry =>
      match ev with
      | wev_checkout =>
          if truthy (backoffElapsed g)
          then r wi_processing
                 [resetStepLoopCounters; setField e_workitem "checked_out_by";
                  setField e_workitem "checked_out_at"]
          else wi_illegal cur ev
      | _ => wi_illegal cur ev
      end
  | wi_abandoned =>
      match ev with
      | wev_manual_replay =>
          if truthy (operatorAuthorized g)
          then r wi_new [setField e_workitem "attempts"]
          else wi_illegal cur ev
      | _ => wi_illegal cur ev
      end
  | wi_successful | wi_failed_business | wi_failed_system => wi_illegal cur ev
  end.

(** ** [transitionHumanTask] *)

Definition ht_illegal (cur : HumanTaskState) (ev : HumanTaskEvent) : outcome HumanTaskState :=
  Err (mkIllegal e_human_task (HumanTaskState_str cur) (HumanTaskEvent_type ev)).

Definition timeoutBranch (cur : HumanTaskState) (g : HumanTaskGuard) : outcome HumanTaskState :=
  match onTimeout g with
  | Some ot_fail => r ht_expired [emitEvent human_task_expired_e]
  | Some ot_escalate => r ht_escalated [emitEvent human_task_escalated_e]
  | None => Err (mkIllegal e_human_task (HumanTaskState_str cur) "timeout")
  end.

Definition ht_escalation : outcome HumanTaskState :=
  r ht_escalated [emitEvent human_task_escalated_e; reassignAssignee].

Definition ht_from (cur : HumanTaskState) (ev : HumanTaskEvent) (g : HumanTaskGuard)
  : outcome HumanTaskState :=
  match cur with
  | ht_open =>
      match ev with
      | hev_assign => r ht_assigned [setField e_human_task "assignee"]
      | hev_timeout => timeoutBranch cur g
      | hev_escalate => ht_escalation
      | _ => ht_illegal cur ev
      end
  | ht_assigned =>
      match ev with
      | hev_start => r ht_in_progress []
      | hev_timeout => timeoutBranch cur g
      | hev_escalate => ht_escalation
      | _ => ht_illegal cur ev
      end
  | ht_in_progress =>
      match ev with
      | hev_resolve => r ht_resolved [emitEvent human_task_resolved_e]
      | hev_timeout => timeoutBranch cur g
      | hev_escalate => ht_escalation
      | _ => ht_illegal cur ev
      end
  | ht_escalated =>
      match ev with
      | hev_assign => r ht_assigned [reassignAssignee; setField e_human_task "assignee"]
      | hev_timeout => r ht_expired [emitEvent human_task_expired_e]
      | _ => ht_illegal cur ev
      end
  | ht_resolved | ht_expired | ht_cancelled => ht_illegal cur ev
  end.

Definition transitionHumanTask (cur : HumanTaskState) (ev : HumanTaskEvent) (g : HumanTaskGuard)
  : outcome HumanTaskState :=
  match ev with
  | hev_cancel =>
      match cur with
      | ht_open | ht_assigned | ht_in_progress | ht_escalated => r ht_cancelled []
      | _ => ht_illegal cur ev
      end
  | _ => ht_from cur ev g
  end.

(** ** The transition tables of the design document *)

Section Tables.

(** Rows R1..R28 of the run table: current state, event, guard column, next
  state.  R5b is the operator pause row. *)
Inductive run_row : string → RunState → RunEvent → RunGuard → RunState → Prop :=
| R1 g : leaseAcquired g = Some true → run_row "R1" run_queued ev_worker_claimed g run_claimed
| R2 g : initOk g = Some true → run_row "R2" run_claimed ev_run_started g run_running
| R3a g : initFailBelowThreshold g = Some true →
  run_row "R3a" run_claimed ev_init_failed g run_queued
| R3b g : initFailBelowThreshold g = Some false →
  run_row "R3b" run_claimed ev_init_failed g run_failed_system
| R4 k g : run_row "R4" run_running (ev_step_challenge_detected k) g run_suspending
| R5 k g : run_row "R5" run_running (ev_human_task_required k) g run_suspending
| R5b g : run_row "R5b" run_running ev_operator_pause_requested g run_suspending
| R6 g : run_row "R6" run_running ev_abort_requested g run_aborting
| R7 g : flowTerminalReached g = Some true →
  run_row "R7" run_running ev_last_node_success g run_completing
| R8 g : exceptionClass g = Some ex_system →
  run_row "R8" run_running ev_unrecoverable_exception g run_failed_system
| R9 g : exceptionClass g = Some ex_business →
  run_row "R9" run_running ev_business_exception g run_failed_business
| R10 g : exceptionClass g = Some ex_security →
  run_row "R10" run_running ev_security_exception g run_aborting
| R11 g : resumeTokenIssued g = Some true →
  run_row "R11" run_suspending ev_bookmark_saved g run_suspended
| R12 g : run_row "R12" run_suspending ev_bookmark_failed g run_failed_system
| R13 g : humanTaskValid g = Some true →
  run_row "R13" run_suspended ev_human_task_resolved g run_resume_requested
| R14 g : run_row "R14" run_suspended ev_human_task_expired g run_failed_business
| R15 g : run_row "R15" run_suspended ev_human_task_escalated g run_suspended
| R16 g : run_row "R16" run_suspended ev_abort_requested g run_aborting
| R17 g : leaseAcquired g = Some true →
  run_row "R17" run_resume_requested ev_worker_claimed g run_resuming
| R18 g : restoreOk g = Some true → run_row "R18" run_resuming ev_restore_ok g run_running
| R19 g : loginBypassPossible g = Some true →
  run_row "R19" run_resuming ev_restore_failed g run_running
| R20 g : loginBypassPossible g = Some false →
  run_row "R20" run_resuming ev_restore_failed g run_failed_system
| R21 g : finalizeOk g = Some true → run_row "R21" run_completing ev_finalize_ok g run_completed
| R22 g : run_row "R22" run_completing ev_finalize_failed g run_failed_system
| R23 g : run_row "R23" run_aborting ev_drain_ok g run_cancelled
| R24 g : run_row "R24" run_aborting ev_drain_timeout g run_cancelled
| R25 g : run_row "R25" run_completing ev_abort_requested g run_completing
| R26 g : bookmarkCancelable g = Some true →
  run_row "R26" run_suspending ev_abort_requested g run_aborting
| R27 g : run_row "R27" run_resuming ev_abort_requested g run_aborting
| R28 g : run_row "R28" run_resume_requested ev_abort_requested g run_aborting.

Inductive wi_row : string → WorkitemState → WorkitemEvent → WorkitemGuard → WorkitemState → Prop :=
| W1 g : uniqueReferenceFree g = Some true → wi_row "W1" wi_new wev_checkout g wi_processing
| W2 g : sinkPolicyMet g = Some true → wi_row "W2" wi_processing wev_run_succeeded g wi_successful
| W3 g : wi_row "W3" wi_processing wev_business_exception g wi_failed_business
| W4 g : attemptsBelowMax g = Some true → wi_row "W4" wi_processing wev_system_exception g wi_retry
| W5 g : attemptsBelowMax g = Some false →
  wi_row "W5" wi_processing wev_system_exception g wi_abandoned
| W6 g : attemptsBelowMax g = Some true → wi_row "W6" wi_processing wev_checkout_expired g wi_retry
| W7 g : attemptsBelowMax g = Some false →
  wi_row "W7" wi_processing wev_checkout_expired g wi_abandoned
| W8 g : backoffElapsed g = Some true → wi_row "W8" wi_retry wev_checkout g wi_processing
| W9 g : wi_row "W9" wi_processing wev_run_suspended g wi_processing
| W10 g : operatorAuthorized g = Some true → wi_row "W10" wi_abandoned wev_manual_replay g wi_new
| W11 g : wi_row "W11" wi_processing wev_run_resumed g wi_processing.

Definition ht_active (s : HumanTaskState) : Prop :=
s = ht_open ∨ s = ht_assigned ∨ s = ht_in_progress.

Inductive ht_row : string → HumanTaskState → HumanTaskEvent → HumanTaskGuard → HumanTaskState → Prop :=
| H1 g : ht_row "H1" ht_open hev_assign g ht_assigned
| H2 g : ht_row "H2" ht_assigned hev_start g ht_in_progress
| H3 g : ht_row "H3" ht_in_progress hev_resolve g ht_resolved
| H4a s g : ht_active s → onTimeout g = Some ot_fail → ht_row "H4a" s hev_timeout g ht_expired
| H4b s g : ht_active s → onTimeout g = Some ot_escalate → ht_row "H4b" s hev_timeout g ht_escalated
| H5 s g : ht_active s → ht_row "H5" s hev_escalate g ht_escalated
| H6 g : ht_row "H6" ht_escalated hev_assign g ht_assigned
| H7 s g : ht_active s ∨ s = ht_escalated → ht_row "H7" s hev_cancel g ht_cancelled
| H8 g : ht_row "H8" ht_escalated hev_timeout g ht_expired.

End Tables.

(** ** The interface of a state machine *)

(** What the rest of the system relies on in a state machine: a transition
    function, and that a refusal names the entity, the state and the event. *)
Class Machine (S E G : Type) := {
  machine_entity : EntityKind;
  state_str : S → string;
  event_type : E → string;
  transition : S → E → G → outcome S;
  transition_error : ∀ s ev g e, transition s ev g = Err e →
    e = mkIllegal machine_entity (state_str s) (event_type ev)
}.

#[export, refine] Instance run_machine : Machine RunState RunEvent RunGuard :=
  { machine_entity := e_run; state_str := RunState_str; event_type := RunEvent_type;
    transition := transitionRun }.
Proof.
  intros s ev g e H. destruct s, ev; simpl in H; unfold run_from_running, requireBool, run_illegal, r,
    mbind, result_bind in H; break_hyp H; by inversion H.
Defined.

#[export, refine] Instance workitem_machine : Machine WorkitemState WorkitemEvent WorkitemGuard :=
  { machine_entity := e_workitem; state_str := WorkitemState_str; event_type := WorkitemEvent_type;
    transition := transitionWorkitem }.
Proof.
  intros s ev g e H. destruct s, ev; simpl in H; unfold wi_attempts_branch, requireBool, wi_illegal, r,
    mbind, result_bind in H; break_hyp H; by inversion H.
Defined.

#[export, refine] Instance human_task_machine : Machine HumanTaskState HumanTaskEvent HumanTaskGuard :=
  { machine_entity := e_human_task; state_str := HumanTaskState_str; event_type := HumanTaskEvent_type;
    transition := transitionHumanTask }.
Proof.
  intros s ev g e H. destruct s, ev; simpl in H; unfold timeoutBranch, ht_illegal, r in H;
    break_hyp H; by inversion H.
Defined.

Create HintDb machine discriminated.
#[export] Hint Constructors run_row wi_row ht_row : machine.
#[export] Hint Unfold ht_active : machine.

(** Turn the boolean guard tests of the code into the guard columns. *)
Ltac guards :=
  repeat match goal with
  | H : truthy _ = true |- _ => apply truthy_true in H
  | H : truthy _ = false |- _ => clear H
  | H : requireBool _ _ _ ?v = _ |- _ => unfold requireBool in H; destruct v as [[]|] eqn:?; try discriminate H
  | H : context [decide ?P] |- _ => destruct (decide P); try discriminate H
  end.

Ltac inj_ok H := inversion H; subst; try clear H.

(** Unfold a successful transition into its cases. *)
Ltac run_cases H :=
  unfold transition, run_machine, transitionRun, run_from_queued, run_from_claimed, run_from_running,
    run_from_suspending, run_from_suspended, run_from_resume_requested,
    run_from_resuming, run_from_completing, run_from_aborting, run_illegal, r,
    mbind, result_bind in H;
  break_hyp H; guards; try discriminate H; inj_ok H.

Ltac wi_cases H :=
  unfold transition, workitem_machine, transitionWorkitem, wi_from_processing, wi_attempts_branch, wi_illegal, r,
    mbind, result_bind in H;
  break_hyp H; guards; try discriminate H; inj_ok H.

Ltac ht_cases H :=
  unfold transitionHumanTask, ht_from, timeoutBranch, ht_escalation, ht_illegal, r in H;
  break_hyp H; guards; try discriminate H; inj_ok H.

Lemma run_row_ok row cur ev g nxt :
  run_row row cur ev g nxt → ∃ effs, transitionRun cur ev g = Ok (mkTransition nxt effs).
Proof.
  destruct 1; eexists; simpl; unfold run_from_running, r;
    repeat match goal with H : _ = Some _ |- _ => rewrite H end; reflexivity.
Qed.

Lemma run_ok_row cur ev g nxt effs :
  transitionRun cur ev g = Ok (mkTransition nxt effs) → ∃ row, run_row row cur ev g nxt.
Proof.
  intros H. run_cases H; eexists; eauto with machine.
Qed.

Lemma wi_row_ok row cur ev g nxt :
  wi_row row cur ev g nxt → ∃ effs, transitionWorkitem cur ev g = Ok (mkTransition nxt effs).
Proof.
  destruct 1; eexists; simpl; unfold wi_attempts_branch, r; simpl;
    repeat match goal with H : _ = Some _ |- _ => rewrite H end; reflexivity.
Qed.

Lemma wi_ok_row cur ev g nxt effs :
  transitionWorkitem cur ev g = Ok (mkTransition nxt effs) → ∃ row, wi_row row cur ev g nxt.
Proof. intros H. wi_cases H; eexists; eauto with machine. Qed.

Lemma ht_row_ok row cur ev g nxt :
  ht_row row cur ev g nxt → ∃ effs, transitionHumanTask cur ev g = Ok (mkTransition nxt effs).
Proof.
  destruct 1; unfold ht_active in *; destruct_or?; subst; eexists; simpl;
    unfold timeoutBranch; try match goal with H : _ = Some _ |- _ => rewrite H end; reflexivity.
Qed.

Lemma ht_ok_row cur ev g nxt effs :
  transitionHumanTask cur ev g = Ok (mkTransition nxt effs) → ∃ row, ht_row row cur ev g nxt.
Proof. intros H. ht_cases H; eexists; eauto 6 with machine. Qed.

Lemma outcome_next {S} (o : outcome S) nxt :
  (∃ effs, o = Ok (mkTransition nxt effs)) ↔ ∃ t, o = Ok t ∧ next t = nxt.
Proof.
  split; [naive_solver|]. intros ([] & -> & <-). eauto.
Qed.

(** ** Traces *)

Section Traces.
Context {S E G : Type} `{Machine S E G}.

(** One accepted transition, whatever event and guard caused it, and sequences
    of them with the commands they issued in order. *)
Definition mstep (s : S) (effs : list SideEffectCmd) (s' : S) : Prop :=
  ∃ ev g, transition s ev g = Ok (mkTransition s' effs).

Inductive trace (s0 : S) : list SideEffectCmd → S → Prop :=
| tr_refl : trace s0 [] s0
| tr_step effs s e s' : trace s0 effs s → mstep s e s' → trace s0 (effs ++ e) s'.

Lemma trace_trans s0 e0 s1 : trace s0 e0 s1 →
  ∀ e1 s2, trace s1 e1 s2 → trace s0 (e0 ++ e1) s2.
Proof.
  intros H0 e1 s2. induction 1; [by rewrite app_nil_r|].
  rewrite app_assoc. by econstructor.
Qed.

(** A list of events with explicit guards drives a machine. *)
Fixpoint script (s : S) (l : list (E * G)) : result IllegalTransition (S * list SideEffectCmd) :=
  match l with
  | [] => Ok (s, [])
  | (ev, g) :: l' =>
      t ← transition s ev g;
      '(s', effs) ← script (next t) l';
      Ok (s', sideEffects t ++ effs)
  end.

Lemma script_trace l : ∀ s s' effs, script s l = Ok (s', effs) → trace s effs s'.
Proof.
  induction l as [|[ev g] l IH]; simpl; intros s s' effs Hs.
  - injection Hs as <- <-. constructor.
  - apply result_bind_Ok in Hs as ([s1 e1] & H1 & Hs).
    apply result_bind_Ok in Hs as ([s2 e2] & H2 & [= <- <-]).
    eapply (trace_trans _ (e1) s1); [|by apply IH].
    rewrite <- (app_nil_l e1). eapply tr_step; [constructor|]. exists ev, g. exact H1.
Qed.
End Traces.

#[export] Hint Constructors trace : machine.

(** Number of commands satisfying a decidable predicate. *)
Definition count_cmd (P : SideEffectCmd → Prop) `{∀ c, Decision (P c)} (l : list SideEffectCmd) : nat :=
  length (filter P l).

Lemma count_cmd_app (P : SideEffectCmd → Prop) `{∀ c, Decision (P c)} l1 l2 :
  count_cmd P (l1 ++ l2) = count_cmd P l1 + count_cmd P l2.
Proof. unfold count_cmd. by rewrite filter_app, length_app. Qed.

(** The event announcing each terminal run state. *)
Definition terminal_event (s : RunState) : option EventEnvelopeType :=
  match s with
  | run_completed => Some run_completed_e
  | run_cancelled => Some run_cancelled_e
  | run_failed_business => Some run_failed_business_e
  | run_failed_system => Some run_failed_system_e
  | _ => None
  end.

Definition terminal_events : list EventEnvelopeType :=
  [run_completed_e; run_cancelled_e; run_failed_business_e; run_failed_system_e].

Definition is_terminal_emit (c : SideEffectCmd) : Prop :=
  match c with emitEvent e => e ∈ terminal_events | _ => False end.
#[export] Instance is_terminal_emit_dec c : Decision (is_terminal_emit c).
Proof. destruct c; simpl; apply _. Defined.

(** The commands a step issues that announce a terminal state. *)
Lemma run_step_terminal_emit s effs s' :
  mstep s effs s' →
  filter is_terminal_emit effs =
    match terminal_event s' with Some e => [emitEvent e] | None => [] end.
Proof. intros (ev & g & H). run_cases H; reflexivity. Qed.

Lemma run_step_from_nonterminal s effs s' : mstep s effs s' → terminal_event s = None.
Proof. intros (ev & g & H). run_cases H; reflexivity. Qed.

Lemma run_trace_terminal s0 effs s :
  terminal_event s0 = None → trace s0 effs s →
  filter is_terminal_emit effs =
    match terminal_event s with Some e => [emitEvent e] | None => [] end.
Proof.
  intros H0. induction 1 as [|effs s e s' Ht IH Hs].
  - by rewrite H0.
  - rewrite filter_app, IH, (run_step_terminal_emit _ _ _ Hs).
    by rewrite (run_step_from_nonterminal _ _ _ Hs).
Qed.

(** Suspension and resumption events of a run. *)
Definition is_emit (e : EventEnvelopeType) (c : SideEffectCmd) : Prop := c = emitEvent e.
#[export] Instance is_emit_dec e c : Decision (is_emit e c).
Proof. unfold is_emit. apply _. Defined.

Definition emits (e : EventEnvelopeType) (l : list SideEffectCmd) : nat := count_cmd (is_emit e) l.

(** The run is parked: it was suspended and has not been resumed since. *)
Definition run_parked (s : RunState) : bool :=
  match s with run_suspended | run_resume_requested | run_resuming => true | _ => false end.

(** States in which every suspension has been matched by a resumption. *)
Definition run_unparked (s : RunState) : bool :=
  match s with
  | run_queued | run_claimed | run_running | run_suspending | run_completing | run_completed => true
  | _ => false
  end.

Lemma run_step_park s effs s' n m :
  mstep s effs s' →
  (run_parked s = true → n = S m) → (run_unparked s = true → n = m) → m ≤ n ≤ S m →
  let n' := n + emits run_suspended_e effs in
  let m' := m + emits run_resumed_e effs in
  (run_parked s' = true → n' = S m') ∧ (run_unparked s' = true → n' = m') ∧ m' ≤ n' ≤ S m'.
Proof.
  intros (ev & g & H) Hp Hu Hb. run_cases H; simpl in *;
    unfold emits, count_cmd; simpl; repeat split; intros; try discriminate;
    try specialize (Hp eq_refl); try specialize (Hu eq_refl); lia.
Qed.

Definition is_replay (c : SideEffectCmd) : Prop := c = setField e_workitem "attempts".
#[export] Instance is_replay_dec c : Decision (is_replay c).
Proof. unfold is_replay. apply _. Defined.
Definition is_create_dlq (c : SideEffectCmd) : Prop := c = createDeadLetter.
#[export] Instance is_create_dlq_dec c : Decision (is_create_dlq c).
Proof. unfold is_create_dlq. apply _. Defined.

Lemma wi_step_counts s effs s' :
  mstep s effs s' → s ≠ wi_failed_system →
  s' ≠ wi_failed_system ∧
  (if decide (s = wi_abandoned) then 1 else 0) + count_cmd is_create_dlq effs
    = count_cmd is_replay effs + (if decide (s' = wi_abandoned) then 1 else 0) ∧
  emits workitem_dead_lettered_e effs = count_cmd is_create_dlq effs.
Proof. intros (ev & g & H) Hs. wi_cases H; simpl; split_and!; done || reflexivity. Qed.

(** The guard under which every guarded row of the run table fires. *)
Definition run_guard_all (cls : ExceptionClass) (b : bool) : RunGuard :=
  mkRunGuard (Some true) (Some true) (Some b) (Some true) (Some cls) (Some true)
    (Some true) (Some true) (Some b) (Some true) (Some true) (Some true).

(** A script that leads each state to a terminal one. *)
Definition run_exit (s : RunState) : list (RunEvent * RunGuard) :=
  let g := run_guard_all ex_business false in
  match s with
  | run_queued => [(ev_worker_claimed, g); (ev_init_failed, g)]
  | run_claimed => [(ev_init_failed, g)]
  | run_running | run_suspending | run_suspended | run_resume_requested | run_resuming =>
      [(ev_abort_requested, g); (ev_drain_ok, g)]
  | run_completing => [(ev_finalize_ok, g)]
  | run_aborting => [(ev_drain_ok, g)]
  | _ => []
  end.

Lemma run_exit_terminal s :
  ∃ s' effs, script s (run_exit s) = Ok (s', effs) ∧ s' ∈ RUN_TERMINAL.
Proof. destruct s; vm_compute; do 2 eexists; (split; [reflexivity|]); set_solver. Qed.

(** What a run has done, by the state it is in: whether [run.started] was emitted. *)
Definition run_has_started (s : RunState) : bool :=
  match s with
  | run_queued | run_claimed | run_failed_system => false
  | _ => true
  end.

Lemma run_trace_started effs s :
  trace run_queued effs s → run_has_started s = true → emitEvent run_started_e ∈ effs.
Proof.
  induction 1 as [|effs s e s' Ht IH (ev & g & H)]; [done|].
  intros Hs. rewrite elem_of_app.
  run_cases H; simpl in *; try (left; apply IH; done); try discriminate; right; set_solver.
Qed.

(** ** Properties *)


(** Along every trace of a run from [queued], the terminal events
    ([run.completed], [run.cancelled], [run.failed_business],
    [run.failed_system]) are emitted exactly once if the run has ended, and
    then it is the event of its end state, and never while it is live. *)
Theorem run_terminal_event_once effs s :
  trace run_queued effs s →
  filter is_terminal_emit effs =
    match terminal_event s with Some e => [emitEvent e] | None => [] end ∧
  (s ∈ RUN_TERMINAL ↔ is_Some (terminal_event s)).
Proof.
  intros H. split; [by apply (run_trace_terminal run_queued)|].
  destruct s; unfold RUN_TERMINAL; simpl; split; intros Hx;
    first [by eexists | set_solver | by destruct Hx].
Qed.

Lemma run_terminal_event_once_witness :
  trace run_queued [setField e_run "worker_id"; openCircuit; evaluateDeadLetter;
                        emitEvent run_failed_system_e] run_failed_system ∧
  filter is_terminal_emit [setField e_run "worker_id"; openCircuit; evaluateDeadLetter;
                           emitEvent run_failed_system_e] = [emitEvent run_failed_system_e].
Proof.
  assert (H : trace run_queued [setField e_run "worker_id"; openCircuit; evaluateDeadLetter;
                emitEvent run_failed_system_e] run_failed_system)
    by (eapply (script_trace (run_exit run_queued)); reflexivity).
  split; [exact H|]. exact (proj1 (run_terminal_event_once _ _ H)).
Defined.

(** A live run can always be brought to an end: from every non-terminal
    state some sequence of events, with guards the runtime can supply, is
    accepted and ends in a terminal state; and a terminal state accepts no
    event under any guard. *)
Theorem run_no_deadlock s :
  (s ∉ RUN_TERMINAL → ∃ effs s', trace s effs s' ∧ s' ∈ RUN_TERMINAL) ∧
  (s ∈ RUN_TERMINAL → ∀ ev g, transitionRun s ev g =
     Err (mkIllegal e_run (RunState_str s) (RunEvent_type ev))).
Proof.
  split.
  - intros _. destruct (run_exit_terminal s) as (s' & effs & H & Ht).
    exists effs, s'. split; [by eapply script_trace|done].
  - intros H ev g. unfold RUN_TERMINAL in H.
    repeat (apply elem_of_cons in H as [->|H]; [reflexivity|]). by apply not_elem_of_nil in H.
Qed.

Lemma run_no_deadlock_witness :
  transitionRun run_completed ev_abort_requested run_guard_empty =
    Err (mkIllegal e_run "completed" "abort_requested").
Proof. apply (proj2 (run_no_deadlock run_completed)). set_solver. Defined.

(** Abort is final: once [abort_requested] is accepted into [aborting],
    every continuation stays in [aborting] or is [cancelled], never completed
    or failed.  It is accepted in every started, live state, except that
    [suspending] needs a cancelable bookmark and [completing] keeps its state
    and answers [RUN_ALREADY_TERMINAL] (finalisation wins). *)
Theorem run_abort_final :
  (∀ effs s, trace run_aborting effs s → s = run_aborting ∨ s = run_cancelled) ∧
  (∀ s g, s ∈ [run_running; run_suspended; run_resume_requested; run_resuming] →
     ∃ effs, transitionRun s ev_abort_requested g = Ok (mkTransition run_aborting effs)) ∧
  (∀ g, is_ok (transitionRun run_suspending ev_abort_requested g) = truthy (bookmarkCancelable g)) ∧
  (∀ g, transitionRun run_completing ev_abort_requested g =
     Ok (mkTransition run_completing [rejectCommand "RUN_ALREADY_TERMINAL" 409])).
Proof.
  split_and!.
  - induction 1 as [|effs s e s' Ht [->| ->] (ev & g & H)]; [by left| |];
      run_cases H; auto.
  - intros s g H.
    repeat (apply elem_of_cons in H as [->|H]; [eexists; reflexivity|]). by apply not_elem_of_nil in H.
  - intros g. simpl. by destruct (truthy _).
  - reflexivity.
Qed.

(** Suspensions and resumptions alternate: along a trace from [queued] the
    number of [run.suspended] events equals the number of [run.resumed]
    events, plus one exactly while the run is parked (suspended, waiting to
    resume or resuming). *)
Theorem run_suspend_resume_balance effs s :
  trace run_queued effs s →
  (run_parked s = true → emits run_suspended_e effs = S (emits run_resumed_e effs)) ∧
  (run_unparked s = true → emits run_suspended_e effs = emits run_resumed_e effs) ∧
  emits run_resumed_e effs ≤ emits run_suspended_e effs ≤ S (emits run_resumed_e effs).
Proof.
  induction 1 as [|effs s e s' Ht IH Hs].
  - repeat split; (done || reflexivity || (unfold emits, count_cmd; simpl; lia)).
  - destruct IH as (Hp & Hu & Hb).
    unfold emits. rewrite !count_cmd_app. exact (run_step_park _ _ _ _ _ Hs Hp Hu Hb).
Qed.

Lemma run_suspend_resume_balance_witness :
  trace run_queued
    [setField e_run "worker_id"; emitEvent run_started_e; startBookmark; issueResumeToken;
     releaseLease l_browser; emitEvent run_suspended_e] run_suspended ∧
  emits run_suspended_e
    [setField e_run "worker_id"; emitEvent run_started_e; startBookmark; issueResumeToken;
     releaseLease l_browser; emitEvent run_suspended_e] = 1.
Proof.
  assert (H : trace run_queued
    [setField e_run "worker_id"; emitEvent run_started_e; startBookmark; issueResumeToken;
     releaseLease l_browser; emitEvent run_suspended_e] run_suspended).
  { apply (script_trace
      [(ev_worker_claimed, run_guard_all ex_system true); (ev_run_started, run_guard_all ex_system true);
       (ev_operator_pause_requested, run_guard_all ex_system true);
       (ev_bookmark_saved, run_guard_all ex_system true)]). reflexivity. }
  split; [exact H|].
  exact (proj1 (run_suspend_resume_balance _ _ H) eq_refl).
Defined.

(** A run is [completed] only after it was started and its outputs were
    flushed: every trace from [queued] to [completed] contains [run.started]
    and ends with the flush of artifacts, outputs and usage followed by
    [run.completed]. *)
Theorem run_completed_after_finalize effs :
  trace run_queued effs run_completed →
  ∃ pre, effs = pre ++ [flushArtifacts; finalizeOutputs; usageFlush; emitEvent run_completed_e] ∧
         emitEvent run_started_e ∈ pre.
Proof.
  intros H. inversion H as [|pre s e s' Ht (ev & g & Hs) E1 E2]; subst.
  run_cases Hs. exists pre. split; [done|]. by apply (run_trace_started _ _ Ht).
Qed.

Lemma run_completed_after_finalize_witness :
  ∃ pre, [setField e_run "worker_id"; emitEvent run_started_e; finalizeOutputs; flushArtifacts;
          finalizeOutputs; usageFlush; emitEvent run_completed_e] =
         pre ++ [flushArtifacts; finalizeOutputs; usageFlush; emitEvent run_completed_e] ∧
         emitEvent run_started_e ∈ pre.
Proof.
  apply run_completed_after_finalize.
  apply (script_trace
      [(ev_worker_claimed, run_guard_all ex_system true); (ev_run_started, run_guard_all ex_system true);
       (ev_last_node_success, run_guard_all ex_system true);
       (ev_finalize_ok, run_guard_all ex_system true)]). reflexivity.
Defined.

(** Dead letters of a workitem: along every trace from [new], the number of
    dead letters created equals the number of operator replays plus one while
    the item is [abandoned]; each creation comes with its
    [workitem.dead_lettered] event; and the declared state [failed_system] is
    never entered. *)
Theorem workitem_dead_letter_balance effs s :
  trace wi_new effs s →
  s ≠ wi_failed_system ∧
  count_cmd is_create_dlq effs =
    count_cmd is_replay effs + (if decide (s = wi_abandoned) then 1 else 0) ∧
  emits workitem_dead_lettered_e effs = count_cmd is_create_dlq effs.
Proof.
  induction 1 as [|effs s e s' Ht (Hf & Hc & He) Hs]; [done|].
  destruct (wi_step_counts _ _ _ Hs Hf) as (Hf' & Hc' & He').
  unfold emits in *. rewrite !count_cmd_app. split_and!; [done|lia|lia].
Qed.

Lemma workitem_dead_letter_balance_witness :
  let effs := [setField e_workitem "checked_out_by"; setField e_workitem "checked_out_at"] ++
              [createDeadLetter; emitEvent workitem_dead_lettered_e] in
  count_cmd is_create_dlq effs = count_cmd is_replay effs + 1.
Proof.
  assert (H : trace wi_new
    (([] ++ [setField e_workitem "checked_out_by"; setField e_workitem "checked_out_at"]) ++
     [createDeadLetter; emitEvent workitem_dead_lettered_e]) wi_abandoned).
  { apply (tr_step _ _ wi_processing); [apply (tr_step _ [] wi_new); [constructor|]|].
    - exists wev_checkout, (mkWorkitemGuard (Some true) None None None None). reflexivity.
    - exists wev_system_exception, (mkWorkitemGuard None None (Some false) None None). reflexivity. }
  exact (proj1 (proj2 (workitem_dead_letter_balance _ _ H))).
Defined.

(** Human tasks cannot wait for ever: a timeout of an open, assigned or
    started task is either rejected for want of a policy, or expires the task,
    or escalates it, and the next timeout of an escalated task expires it
    whatever the policy. *)
Theorem human_task_timeout_bounded s g :
  ht_active s →
  match transitionHumanTask s hev_timeout g with
  | Err e => onTimeout g = None ∧ e = mkIllegal e_human_task (HumanTaskState_str s) "timeout"
  | Ok t =>
      (next t = ht_expired ∨
       (next t = ht_escalated ∧
        ∀ g', transitionHumanTask (next t) hev_timeout g' =
                Ok (mkTransition ht_expired [emitEvent human_task_expired_e])))
  end.
Proof.
  intros [-> | [-> | ->]]; simpl; unfold timeoutBranch;
    destruct (onTimeout g) as [[]|]; simpl; auto.
Qed.

Lemma human_task_timeout_bounded_witness :
  ht_active ht_in_progress ∧
  match transitionHumanTask ht_in_progress hev_timeout (mkHumanTaskGuard (Some ot_escalate)) with
  | Ok t => next t = ht_escalated
  | Err _ => False
  end.
Proof.
  assert (H : ht_active ht_in_progress) by (right; right; reflexivity).
  split; [exact H|].
  pose proof (human_task_timeout_bounded ht_in_progress (mkHumanTaskGuard (Some ot_escalate)) H) as Hx.
  simpl in Hx |- *. destruct Hx as [Hx|[Hx _]]; [discriminate|exact Hx].
Defined.
