(* ===== verification/JsValue.v ===== *)
(** * JavaScript values

    The fragment of ECMAScript the modelled modules compute with: IEEE-754
    binary64 numbers (the executable specification [SpecFloat] of the Standard
    Library at precision 53, exponent bound 1024), strings as sequences of
    8-bit code units, and JSON-shaped values ([unknown] in the sources) with
    records as association lists in insertion order and [undefined] as the
    absence of a value.  Property reads are own-property reads: names
    inherited from [Object.prototype] are outside the model. *)

From stdpp Require Import base strings list gmap.
From Stdlib Require Import ZArith SpecFloat Ascii.
From S2P Require Import Prelude.

(** ** Numbers *)

Abbreviation jsnum := spec_float.

#[export] Instance spec_float_eq_dec : EqDecision spec_float.
Proof. solve_decision. Defined.

Definition num_add (x y : jsnum) : jsnum := SFadd 53 1024 x y.
Definition num_sub (x y : jsnum) : jsnum := SFsub 53 1024 x y.
Definition num_neg (x : jsnum) : jsnum := SFopp x.
(** [===] on numbers: NaN differs from itself, the two zeros are equal. *)
Definition num_eqb (x y : jsnum) : bool := SFeqb x y.
Definition num_ltb (x y : jsnum) : bool := SFltb x y.
Definition num_leb (x y : jsnum) : bool := SFleb x y.

(** [Number.isFinite]. *)
Definition num_is_finite (x : jsnum) : bool :=
  match x with S754_zero _ | S754_finite _ _ _ => true | _ => false end.

(** [Number.isInteger]. *)
Definition num_is_integer (x : jsnum) : bool :=
  match x with
  | S754_zero _ => true
  | S754_finite _ m e =>
      if (0 <=? e)%Z then true else (Zpos m mod (2 ^ (- e)) =? 0)%Z
  | _ => false
  end.

(** The binary64 number nearest to an integer. *)
Definition num_of_Z (z : Z) : jsnum := binary_normalize 53 1024 z 0 false.

(** The integer value of an integral binary64 number. *)
Definition num_to_Z (x : jsnum) : option Z :=
  match x with
  | S754_zero _ => Some 0%Z
  | S754_finite s m e =>
      if num_is_integer x
      then Some ((if s then -1 else 1) * (if (0 <=? e)%Z then Zpos m * 2 ^ e else Zpos m / 2 ^ (- e)))%Z
      else None
  | _ => None
  end.

(** ** Characters and decimal literals *)

Definition code (c : ascii) : nat := nat_of_ascii c.
Definition in_range (lo hi : nat) (c : ascii) : bool := (lo <=? code c) && (code c <=? hi).

Definition is_digit_char (c : ascii) : bool := in_range 48 57 c.
Definition is_lower_char (c : ascii) : bool := in_range 97 122 c.
Definition is_upper_char (c : ascii) : bool := in_range 65 90 c.

(** The value of a decimal digit string, and [Number(text)] for text of the
    form [digits] or [digits.digits]: the correctly rounded quotient. *)
Fixpoint digits_value (acc : Z) (s : string) : Z :=
  match s with
  | EmptyString => acc
  | String c s' => digits_value (10 * acc + (Z.of_nat (code c) - 48)) s'
  end.

Fixpoint split_dot (s : string) : string * option string :=
  match s with
  | EmptyString => (EmptyString, None)
  | String c s' =>
      if Ascii.eqb c "."%char then (EmptyString, Some s')
      else let '(a, b) := split_dot s' in (String c a, b)
  end.

Definition num_quotient (m d : Z) : jsnum :=
  match m, d with
  | Zpos m, Zpos d => SFdiv 53 1024 (S754_finite false m 0) (S754_finite false d 0)
  | _, _ => S754_zero false
  end.

Definition num_of_decimal (s : string) : jsnum :=
  let '(ip, fp) := split_dot s in
  let frac := default EmptyString fp in
  num_quotient (digits_value 0 (ip +:+ frac)) (10 ^ Z.of_nat (String.length frac)).

Example num_of_decimal_0_1 :
  num_of_decimal "0.1" = S754_finite false 7205759403792794 (-56).
Proof. vm_compute. reflexivity. Qed.
Example num_of_decimal_12 : num_eqb (num_of_decimal "12.50") (num_sub (num_of_Z 13) (num_of_decimal "0.5")) = true.
Proof. vm_compute. reflexivity. Qed.

(** ** Strings *)

Definition string_in (s : string) (l : list string) : bool := bool_decide (s ∈ l).

(** [Array.prototype.join(".")]. *)
Fixpoint join (sep : string) (l : list string) : string :=
  match l with
  | [] => EmptyString
  | [s] => s
  | s :: l' => s +:+ sep +:+ join sep l'
  end.

(** [value.startsWith(prefix)] and [value.includes(needle)]. *)
Definition starts_with (prefix value : string) : bool := String.prefix prefix value.

Fixpoint str_includes (needle value : string) : bool :=
  starts_with needle value ||
  match value with
  | EmptyString => false
  | String _ value' => str_includes needle value'
  end.

Fixpoint string_exists (p : ascii → bool) (s : string) : bool :=
  match s with
  | EmptyString => false
  | String c s' => p c || string_exists p s'
  end.

(** ** JSON-shaped values *)

Inductive json :=
| JNull
| JBool (b : bool)
| JNum (x : jsnum)
| JStr (s : string)
| JArr (l : list json)
| JObj (fields : list (string * json)).

(** Induction that reaches the elements of arrays and records. *)
Lemma json_nested_ind (P : json → Prop) :
  P JNull → (∀ b, P (JBool b)) → (∀ x, P (JNum x)) → (∀ s, P (JStr s)) →
  (∀ l, Forall P l → P (JArr l)) → (∀ f, Forall (λ p, P p.2) f → P (JObj f)) → ∀ v, P v.
Proof.
  intros H1 H2 H3 H4 H5 H6. fix IH 1. intros [| | | |l|f]; [done|by auto..| |].
  - apply H5. induction l as [|v l IHl]; constructor; [apply IH|exact IHl].
  - apply H6. induction f as [|[k v] f IHf]; constructor; [apply IH|exact IHf].
Qed.

(** Association lists in insertion order (records, [Map]s). *)
Fixpoint alookup {A} (k : string) (l : list (string * A)) : option A :=
  match l with
  | [] => None
  | (k', a) :: l' => if decide (k = k') then Some a else alookup k l'
  end.

(** [m.set(k, a)]: replaces in place, appends a new key. *)
Fixpoint aset {A} (k : string) (a : A) (l : list (string * A)) : list (string * A) :=
  match l with
  | [] => [(k, a)]
  | (k', b) :: l' => if decide (k = k') then (k, a) :: l' else (k', b) :: aset k a l'
  end.

(** [isRecord(value)] with the record's fields. *)
Definition as_record (v : option json) : option (list (string * json)) :=
  match v with Some (JObj l) => Some l | _ => None end.
Definition isRecord (v : option json) : bool :=
  match v with Some (JObj _) => true | _ => false end.

Definition as_array (v : option json) : option (list json) :=
  match v with Some (JArr l) => Some l | _ => None end.
Definition as_string (v : option json) : option string :=
  match v with Some (JStr s) => Some s | _ => None end.
Definition as_number (v : option json) : option jsnum :=
  match v with Some (JNum x) => Some x | _ => None end.

(** Reading a property of an [unknown] that is known to be a record. *)
Definition prop (k : string) (v : option json) : option json :=
  match v with Some (JObj l) => alookup k l | _ => None end.

Lemma alookup_elem {A} k (l : list (string * A)) a : alookup k l = Some a → (k, a) ∈ l.
Proof.
  induction l as [|[k' b] l IH]; simpl; [done|]. case_decide; set_solver.
Qed.

Lemma alookup_None {A} k (l : list (string * A)) : alookup k l = None ↔ k ∉ l.*1.
Proof.
  induction l as [|[k' b] l IH]; simpl; [set_solver|].
  case_decide; [set_solver|]. rewrite IH, not_elem_of_cons. tauto.
Qed.

Lemma alookup_is_Some {A} k (l : list (string * A)) : is_Some (alookup k l) ↔ k ∈ l.*1.
Proof.
  destruct (alookup k l) eqn:E.
  - split; [|eauto]. intros _. apply alookup_elem in E. apply list_elem_of_fmap. by exists (k, a).
  - apply alookup_None in E. split; [by intros [??]|done].
Qed.

Lemma alookup_aset {A} k k' (a : A) l :
  alookup k (aset k' a l) = if decide (k = k') then Some a else alookup k l.
Proof.
  induction l as [|[k'' b] l IH]; simpl; [done|].
  repeat case_decide; subst; simpl; repeat case_decide; congruence || done.
Qed.

Lemma elem_alookup {A} k (l : list (string * A)) a :
  NoDup l.*1 → (k, a) ∈ l → alookup k l = Some a.
Proof.
  induction l as [|[k' b] l IH]; simpl; [set_solver|].
  intros [Hn Hd]%NoDup_cons [[= -> ->]|H]%elem_of_cons; case_decide; try done.
  - subst. exfalso. apply Hn, list_elem_of_fmap. by exists (k', a).
  - by apply IH.
Qed.

Lemma aset_keys {A} k (a : A) l : (aset k a l).*1 = if decide (k ∈ l.*1) then l.*1 else l.*1 ++ [k].
Proof.
  induction l as [|[k' b] l IH]; [done|].
  change (((k', b) :: l).*1) with (k' :: l.*1). cbn [aset].
  destruct (decide (k = k')) as [->|E].
  - rewrite decide_True by (by left). done.
  - change (((k', b) :: aset k a l).*1) with (k' :: (aset k a l).*1). rewrite IH.
    destruct (decide (k ∈ l.*1)) as [H|H].
    + rewrite decide_True by (by right). done.
    + rewrite decide_False by (rewrite elem_of_cons; tauto). done.
Qed.

Lemma aset_NoDup {A} k (a : A) l : NoDup l.*1 → NoDup (aset k a l).*1.
Proof.
  intros H. rewrite aset_keys. case_decide as E; [done|]. apply NoDup_app.
  split_and!; [done| |apply NoDup_singleton]. intros x Hx ->%list_elem_of_singleton. done.
Qed.

(** The entries of an association list after an update. *)
Lemma elem_aset {A} k k' (a b : A) l : NoDup l.*1 →
  (k', b) ∈ aset k a l ↔ (k' = k ∧ b = a) ∨ (k' ≠ k ∧ (k', b) ∈ l).
Proof.
  intros Hd. assert (Hd' := aset_NoDup k a l Hd).
  assert (Hl : ∀ (m : list (string * A)), NoDup m.*1 → (k', b) ∈ m ↔ alookup k' m = Some b).
  { intros m Hm. split; [by apply elem_alookup|apply alookup_elem]. }
  rewrite !Hl, alookup_aset by done. case_decide; naive_solver.
Qed.

(** ** The order of numbers

    Except for NaN, [<] and [===] are the strict order and the equality of a
    lexicographic rank (sign class, exponent, mantissa). *)

Definition num_rank (x : jsnum) : Z * Z * Z :=
  match x with
  | S754_nan | S754_zero _ => (0, 0, 0)%Z
  | S754_infinity true => (-2, 0, 0)%Z
  | S754_infinity false => (2, 0, 0)%Z
  | S754_finite true m e => (-1, - e, - Zpos m)%Z
  | S754_finite false m e => (1, e, Zpos m)%Z
  end.

Definition rank_lt (a b : Z * Z * Z) : Prop :=
  let '(a1, a2, a3) := a in
  let '(b1, b2, b3) := b in
  (a1 < b1 ∨ a1 = b1 ∧ (a2 < b2 ∨ a2 = b2 ∧ a3 < b3))%Z.

Lemma num_compare_rank x y : x ≠ S754_nan → y ≠ S754_nan →
  match SFcompare x y with
  | Some Lt => rank_lt (num_rank x) (num_rank y)
  | Some Gt => rank_lt (num_rank y) (num_rank x)
  | Some Eq => num_rank x = num_rank y
  | None => False
  end.
Proof.
  intros Hx Hy. unfold rank_lt.
  destruct x as [sx|[]| |[] mx ex], y as [sy|[]| |[] my ey]; simpl in *; try done; try lia;
    destruct (Z.compare_spec ex ey); subst; try lia;
    fold (Pos.compare mx my); destruct (Pos.compare_spec mx my); subst; simpl; try done; lia.
Qed.

Lemma num_ltb_rank x y : x ≠ S754_nan → y ≠ S754_nan →
  num_ltb x y = true ↔ rank_lt (num_rank x) (num_rank y).
Proof.
  intros Hx Hy. pose proof (num_compare_rank x y Hx Hy) as H. unfold num_ltb, SFltb.
  destruct (SFcompare x y) as [[]|]; try done;
    destruct (num_rank x) as [[??]?], (num_rank y) as [[??]?]; unfold rank_lt in *; simplify_eq; split; try done; lia.
Qed.

Lemma num_eqb_rank x y : x ≠ S754_nan → y ≠ S754_nan →
  num_eqb x y = true ↔ num_rank x = num_rank y.
Proof.
  intros Hx Hy. pose proof (num_compare_rank x y Hx Hy) as H. unfold num_eqb, SFeqb.
  destruct (SFcompare x y) as [[]|]; try done;
    destruct (num_rank x) as [[??]?], (num_rank y) as [[??]?]; unfold rank_lt in *;
    split; try done; intros; simplify_eq; lia.
Qed.

Lemma rank_lt_trans a b c : rank_lt a b → rank_lt b c → rank_lt a c.
Proof. destruct a as [[??]?], b as [[??]?], c as [[??]?]. unfold rank_lt. lia. Qed.

Lemma rank_trichotomy a b : rank_lt a b ∨ a = b ∨ rank_lt b a.
Proof.
  destruct a as [[a1 a2] a3], b as [[b1 b2] b3]. unfold rank_lt.
  destruct (decide ((a1, a2, a3) = (b1, b2, b3))) as [|H]; [auto|].
  assert (¬ (a1 = b1 ∧ a2 = b2 ∧ a3 = b3)%Z) by (intros (-> & -> & ->); done). lia.
Qed.

Lemma rank_lt_irrefl a : ¬ rank_lt a a.
Proof. destruct a as [[??]?]. unfold rank_lt. lia. Qed.
