(* ===== verification/Graph.v ===== *)
(** * Graph traversals

    The worklist traversals of [codegen/irel-compile.ts] ([isAncestor]) and
    [codegen/static-validation.ts] ([reachableFrom]) over a
    [Map<string, string[]>], modelled as an association list in insertion
    order.  A JavaScript array used as a stack is a list whose head is the end
    of the array, so [pop] takes the head and [push(...xs)] puts the reverse
    of [xs] in front.  Loops carry fuel; the potential of a worklist bounds
    the number of iterations, so the fuel chosen is always enough. *)

From stdpp Require Import base strings list gmap relations.
From S2P Require Import Prelude JsValue.

Abbreviation graph := (list (string * list string)).

(** [graph.get(n) ?? []]. *)
Definition succs (g : graph) (n : string) : list string := default [] (alookup n g).

Definition edge (g : graph) (a b : string) : Prop := b ∈ succs g a.
Definition reaches (g : graph) : string → string → Prop := rtc (edge g).

Definition push_all (xs stack : list string) : list string := rev xs ++ stack.

(** ** The worklist loop *)

Fixpoint reach_loop (fuel : nat) (g : graph) (stack : list string) (seen : gset string)
  : option (gset string) :=
  match stack with
  | [] => Some seen
  | n :: stack' =>
      match fuel with
      | O => None
      | S fuel' =>
          if decide (n ∈ seen) then reach_loop fuel' g stack' seen
          else reach_loop fuel' g (push_all (succs g n) stack') ({[n]} ∪ seen)
      end
  end.

(** Number of edge entries. *)
Definition edge_count (g : graph) : nat := sum_list (map (λ e, length e.2) g).

Definition reachableFrom (start : string) (g : graph) : gset string :=
  default ∅ (reach_loop (S (edge_count g)) g [start] ∅).

(** ** Termination *)

(** Edges of the nodes not seen yet. *)
Definition pending (g : graph) (seen : gset string) : nat :=
  sum_list (map (λ e, if decide (e.1 ∈ seen) then 0 else length e.2) g).

Lemma pending_empty g : pending g ∅ = edge_count g.
Proof.
  unfold pending, edge_count. induction g as [|[k l] g IH]; simpl; [done|].
  rewrite decide_False by set_solver. lia.
Qed.

Lemma pending_mono g n seen : pending g ({[n]} ∪ seen) ≤ pending g seen.
Proof.
  unfold pending. induction g as [|[k l] g IH]; simpl; [lia|].
  repeat case_decide; try lia. set_solver.
Qed.

Lemma pending_visit g n seen :
  n ∉ seen → pending g ({[n]} ∪ seen) + length (succs g n) ≤ pending g seen.
Proof.
  intros Hn. unfold pending, succs. induction g as [|[k l] g IH]; simpl; [lia|].
  pose proof (pending_mono g n seen) as Hm. unfold pending in Hm.
  destruct (decide (n = k)) as [<-|Hne]; simpl.
  - rewrite decide_True by set_solver. rewrite decide_False by done. lia.
  - repeat case_decide; try set_solver; lia.
Qed.

Lemma reach_loop_enough fuel g : ∀ stack seen,
  length stack + pending g seen ≤ fuel → is_Some (reach_loop fuel g stack seen).
Proof.
  induction fuel as [|fuel IH]; intros [|n stack] seen H; simpl in *; eauto; [lia|].
  case_decide as Hn.
  - apply IH. lia.
  - apply IH. unfold push_all. rewrite length_app, length_rev.
    pose proof (pending_visit g n seen Hn). lia.
Qed.

(** ** Correctness *)

(** Seen nodes are closed up to the worklist. *)
Definition closed_upto (g : graph) (seen : gset string) (stack : list string) : Prop :=
  ∀ a b, a ∈ seen → edge g a b → b ∈ seen ∨ b ∈ stack.

Lemma elem_push_all x xs stack : x ∈ push_all xs stack ↔ x ∈ xs ∨ x ∈ stack.
Proof. unfold push_all. rewrite elem_of_app, !list_elem_of_In, <- in_rev. done. Qed.

Lemma reach_loop_spec fuel g : ∀ stack seen out,
  reach_loop fuel g stack seen = Some out →
  closed_upto g seen stack →
  (∀ x, x ∈ seen ∨ x ∈ stack → x ∈ out) ∧
  closed_upto g out [] ∧
  (∀ P : string → Prop, (∀ a b, P a → edge g a b → P b) →
     (∀ x, x ∈ seen ∨ x ∈ stack → P x) → ∀ x, x ∈ out → P x).
Proof.
  induction fuel as [|fuel IH]; intros [|n stack] seen out H Hc; simpl in H; try discriminate.
  1,2: injection H as <-; split_and!; [set_solver|done|naive_solver].
  case_decide as Hn.
  - destruct (IH _ _ _ H) as (H1 & H2 & H3).
    + intros a b Ha Hb. destruct (Hc a b Ha Hb) as [?|[->|?]%elem_of_cons]; auto.
    + split_and!; [|done|intros P Hcl Hx; apply H3; set_solver].
      intros x [?|[->|?]%elem_of_cons]; auto.
  - destruct (IH _ _ _ H) as (H1 & H2 & H3).
    + intros a b [->%elem_of_singleton|Ha]%elem_of_union Hb.
      * right. apply elem_push_all. by left.
      * destruct (Hc a b Ha Hb) as [?|[->|?]%elem_of_cons];
          [left; apply elem_of_union; by right|left; apply elem_of_union; left; by apply elem_of_singleton|].
        right. apply elem_push_all. by right.
    + split_and!; [|done|].
      * intros x Hx. apply H1. rewrite elem_push_all, elem_of_union, elem_of_singleton.
        rewrite elem_of_cons in Hx. tauto.
      * intros P Hcl Hx. apply H3; [done|]. intros x.
        rewrite elem_of_union, elem_of_singleton, elem_push_all.
        assert (P n) as Pn by (apply Hx; right; apply elem_of_cons; by left).
        intros [[->|?]|[?|?]]; [done|by apply Hx; left|by eapply Hcl|].
        apply Hx; right; apply elem_of_cons; by right.
Qed.

Lemma reachableFrom_Some start g :
  ∃ out, reach_loop (S (edge_count g)) g [start] ∅ = Some out ∧ reachableFrom start g = out.
Proof.
  destruct (reach_loop_enough (S (edge_count g)) g [start] ∅) as [out H].
  { simpl. rewrite pending_empty. lia. }
  exists out. unfold reachableFrom. by rewrite H.
Qed.

Lemma closed_reaches g (X : gset string) a b :
  closed_upto g X [] → a ∈ X → reaches g a b → b ∈ X.
Proof.
  intros Hc Ha. induction 1 as [|a c b Hac _ IH]; [done|].
  apply IH. destruct (Hc a c Ha Hac) as [?|?%elem_of_nil]; done.
Qed.

(** The nodes collected are exactly those reachable from the start. *)
Lemma reachableFrom_correct start g n : n ∈ reachableFrom start g ↔ reaches g start n.
Proof.
  destruct (reachableFrom_Some start g) as (out & H & ->).
  destruct (reach_loop_spec _ _ _ _ _ H) as (H1 & H2 & H3); [by intros a b ?%elem_of_empty|].
  split.
  - apply H3.
    + intros a b Ha Hb. eapply rtc_r; eauto.
    + intros x [?%elem_of_empty|[->|?%elem_of_nil]%elem_of_cons]; [done|constructor|done].
  - apply closed_reaches; [done|]. apply H1. set_solver.
Qed.

(** ** [isAncestor]: search of the reversed graph *)

(** [reverse.set(target, incoming.concat(from))] for every edge, in order. *)
Definition add_incoming (from : string) (rev : graph) (target : string) : graph :=
  aset target (succs rev target ++ [from]) rev.
Definition reverse_graph (g : graph) : graph :=
  fold_left (λ rv e, fold_left (add_incoming e.1) e.2 rv) g [].

Fixpoint ancestor_loop (fuel : nat) (rv : graph) (candidate : string)
    (stack : list string) (seen : gset string) : option bool :=
  match stack with
  | [] => Some false
  | n :: stack' =>
      match fuel with
      | O => None
      | S fuel' =>
          if decide (n = candidate) then Some true
          else if decide (n ∈ seen) then ancestor_loop fuel' rv candidate stack' seen
          else ancestor_loop fuel' rv candidate (push_all (succs rv n) stack') ({[n]} ∪ seen)
      end
  end.

Definition isAncestor (candidate current : string) (g : graph) : bool :=
  let rv := reverse_graph g in
  let stack := push_all (succs rv current) [] in
  default false (ancestor_loop (length stack + edge_count rv) rv candidate stack ∅).

Lemma succs_aset k xs g n : succs (aset k xs g) n = if decide (n = k) then xs else succs g n.
Proof. unfold succs. rewrite alookup_aset. by case_decide. Qed.

Lemma add_incoming_edges from targets : ∀ rv a b,
  edge (fold_left (add_incoming from) targets rv) a b ↔
  edge rv a b ∨ (a ∈ targets ∧ b = from).
Proof.
  unfold edge. induction targets as [|t targets IH]; intros rv a b; simpl; [set_solver|].
  rewrite IH. unfold add_incoming. rewrite succs_aset. case_decide; set_solver.
Qed.

Lemma reverse_fold_edges g : ∀ rv a b,
  edge (fold_left (λ rv e, fold_left (add_incoming e.1) e.2 rv) g rv) a b ↔
  edge rv a b ∨ ∃ targets, (b, targets) ∈ g ∧ a ∈ targets.
Proof.
  induction g as [|[from targets] g IH]; intros rv a b; simpl.
  - set_solver.
  - rewrite IH, add_incoming_edges. simpl. split.
    + intros [[?|[? ->]]|(ts & ? & ?)]; [by left| |]; right.
      * exists targets. set_solver.
      * exists ts. set_solver.
    + intros [?|(ts & [[= -> ->]|?]%elem_of_cons & ?)]; [by left; left|left; right; done|].
      right. eauto.
Qed.

Lemma reverse_graph_edge g a b : NoDup g.*1 → edge (reverse_graph g) a b ↔ edge g b a.
Proof.
  intros Hd. unfold reverse_graph. rewrite reverse_fold_edges. unfold edge, succs. simpl.
  split.
  - intros [?%elem_of_nil|(ts & Hin & Ha)]; [done|]. by rewrite (elem_alookup _ _ _ Hd Hin).
  - intros Ha. right. destruct (alookup b g) as [ts|] eqn:E; simpl in Ha; [|by apply elem_of_nil in Ha].
    exists ts. split; [by apply alookup_elem|done].
Qed.

Lemma ancestor_loop_enough fuel rv c : ∀ stack seen,
  length stack + pending rv seen ≤ fuel → is_Some (ancestor_loop fuel rv c stack seen).
Proof.
  induction fuel as [|fuel IH]; intros [|n stack] seen H; simpl in *; eauto; [lia|].
  case_decide; [eauto|]. case_decide as Hn; apply IH; [lia|].
  unfold push_all. rewrite length_app, length_rev.
  pose proof (pending_visit rv n seen Hn). lia.
Qed.

Lemma ancestor_loop_sound fuel rv c : ∀ stack seen,
  ancestor_loop fuel rv c stack seen = Some true → ∃ x, x ∈ stack ∧ reaches rv x c.
Proof.
  induction fuel as [|fuel IH]; intros [|n stack] seen H; simpl in H; try discriminate.
  case_decide as Hn; [subst; exists c; split; [set_solver|constructor]|].
  case_decide.
  - destruct (IH _ _ H) as (x & ? & ?). exists x. set_solver.
  - destruct (IH _ _ H) as (x & [?|?]%elem_push_all & ?).
    + exists n. split; [set_solver|]. eapply rtc_l; eauto.
    + exists x. set_solver.
Qed.

Lemma ancestor_loop_complete fuel rv c : ∀ stack seen,
  ancestor_loop fuel rv c stack seen = Some false →
  closed_upto rv seen stack → c ∉ seen →
  ∃ X : gset string, closed_upto rv X [] ∧ c ∉ X ∧ ∀ x, x ∈ seen ∨ x ∈ stack → x ∈ X.
Proof.
  induction fuel as [|fuel IH]; intros [|n stack] seen H Hc Hs; simpl in H; try discriminate.
  1,2: exists seen; split_and!; [done|done|set_solver].
  case_decide as Hn; [discriminate|]. case_decide as Hin.
  - destruct (IH _ _ H) as (X & H1 & H2 & H3).
    + intros a b Ha Hb. destruct (Hc a b Ha Hb) as [?|[->|?]%elem_of_cons]; auto.
    + done.
    + exists X. split_and!; [done|done|]. intros x [?|[->|?]%elem_of_cons]; auto.
  - destruct (IH _ _ H) as (X & H1 & H2 & H3).
    + intros a b [->%elem_of_singleton|Ha]%elem_of_union Hb.
      * right. apply elem_push_all. by left.
      * destruct (Hc a b Ha Hb) as [?|[->|?]%elem_of_cons];
          [left; apply elem_of_union; by right|left; apply elem_of_union; left; by apply elem_of_singleton|].
        right. apply elem_push_all. by right.
    + set_solver.
    + exists X. split_and!; [done|done|]. intros x Hx. apply H3.
      rewrite elem_push_all, elem_of_union, elem_of_singleton. rewrite elem_of_cons in Hx. tauto.
Qed.

Lemma reverse_reaches g a b : NoDup g.*1 → reaches (reverse_graph g) a b ↔ reaches g b a.
Proof.
  intros Hd. split.
  - induction 1 as [|a c b Hac _ IH]; [constructor|].
    eapply rtc_r; [exact IH|]. by rewrite reverse_graph_edge in Hac.
  - induction 1 as [|a c b Hac _ IH]; [constructor|].
    eapply rtc_r; [exact IH|]. by rewrite reverse_graph_edge.
Qed.

Lemma tc_last (R : relation string) a b : tc R a b → ∃ c, rtc R a c ∧ R c b.
Proof.
  induction 1 as [a b H|a c b H _ (d & Hr & Hd)]; [exists a; split; [constructor|done]|].
  exists d. split; [by eapply rtc_l|done].
Qed.

(** [isAncestor] decides whether [current] is reachable from [candidate] by a
    path of at least one edge. *)
Lemma isAncestor_correct candidate current g :
  NoDup g.*1 → isAncestor candidate current g = true ↔ tc (edge g) candidate current.
Proof.
  intros Hd. unfold isAncestor.
  set (rv := reverse_graph g). set (stack := push_all (succs rv current) []).
  destruct (ancestor_loop_enough (length stack + edge_count rv) rv candidate stack ∅) as [b Hb].
  { by rewrite pending_empty. }
  rewrite Hb. simpl. split.
  - intros ->. destruct (ancestor_loop_sound _ _ _ _ _ Hb) as (x & Hx & Hr).
    apply elem_push_all in Hx as [Hx|?%elem_of_nil]; [|done].
    unfold rv in Hr. rewrite reverse_reaches in Hr by done.
    eapply tc_rtc_l; [exact Hr|]. apply tc_once. by apply (reverse_graph_edge g current x Hd).
  - intros Ht. destruct b; [done|exfalso].
    destruct (ancestor_loop_complete _ _ _ _ _ Hb) as (X & HX & Hc & Hin); [by intros a b ?%elem_of_empty|set_solver|].
    apply Hc. apply tc_last in Ht as (x & Hr & He).
    eapply (closed_reaches rv); [done| |by apply (reverse_reaches g x candidate Hd)].
    apply Hin. right. apply elem_push_all. left. by apply (reverse_graph_edge g current x Hd).
Qed.
