(* ===== verification/IrelSyntax.v ===== *)
(** * IREL: types, diagnostics, tokens and syntax trees

    The data declarations of [codegen/irel-compile.ts] and the helpers of its
    last section that work on them (source locations, type lists). *)

From stdpp Require Import base strings list gmap pretty.
From Stdlib Require Import Ascii.
From S2P Require Import Prelude JsValue Graph.

(** ** Allowed names *)

Definition IREL_ALLOWED_FLAGS : list string :=
  ["flags.no_next_page"; "flags.cursor_reached"; "flags.login_required"; "flags.blocked";
   "flags.not_found"; "flags.no_review_message_visible"; "flags.reviews_visible"].

Definition IREL_ALLOWED_NODE_FIELDS : list string :=
  ["row_count"; "status"; "extracted_ref"; "tier"; "http_status"; "http_ok"].

Definition IREL_DECISION_VALUES : list string := ["approve"; "reject"; "correct"; "retry"].

(** ** Types and values *)

Inductive IRELTypeAtom := t_int | t_number | t_string | t_boolean | t_null.
#[export] Instance IRELTypeAtom_eq_dec : EqDecision IRELTypeAtom.
Proof. solve_decision. Defined.

Abbreviation irel_type := (list IRELTypeAtom).

Inductive IRELValue :=
| VNum (x : jsnum)
| VStr (s : string)
| VBool (b : bool)
| VNull.
#[export] Instance IRELValue_eq_dec : EqDecision IRELValue.
Proof. solve_decision. Defined.

(** [left === right]. *)
Definition strict_eq (v w : IRELValue) : bool :=
  match v, w with
  | VNum x, VNum y => num_eqb x y
  | VStr s, VStr t => bool_decide (s = t)
  | VBool a, VBool b => Bool.eqb a b
  | VNull, VNull => true
  | _, _ => false
  end.

Definition atom_name (a : IRELTypeAtom) : string :=
  match a with
  | t_int => "int" | t_number => "number" | t_string => "string"
  | t_boolean => "boolean" | t_null => "null"
  end.

Definition formatType (t : irel_type) : string :=
  match t with [] => "<invalid>" | _ => join "|" (map atom_name t) end.

(** [uniqueTypes]: the atoms present, in the fixed order. *)
Definition type_order : irel_type := [t_int; t_number; t_string; t_boolean; t_null].
Definition uniqueTypes (atoms : irel_type) : irel_type := filter (λ a, a ∈ atoms) type_order.
Definition typeOf (atoms : irel_type) : irel_type := uniqueTypes atoms.

Definition is_numeric_atom (a : IRELTypeAtom) : bool :=
  match a with t_int | t_number => true | _ => false end.
Definition isNumeric (t : irel_type) : bool :=
  match t with [] => false | _ => forallb is_numeric_atom t end.
Definition isExactly (t : irel_type) (a : IRELTypeAtom) : bool := bool_decide (t = [a]).
Definition includes (t : irel_type) (a : IRELTypeAtom) : bool := bool_decide (a ∈ t).

Definition canCompareEquality (left right : irel_type) : bool :=
  if isExactly left t_null || isExactly right t_null then true
  else if isNumeric left && isNumeric right then true
  else existsb (λ a, negb (bool_decide (a = t_null)) && includes right a) left.

Definition isAssignable (actual expected : irel_type) : bool :=
  match actual, expected with
  | _, [] | [], _ => false
  | _, _ =>
      if forallb is_numeric_atom expected && isNumeric actual then true
      else forallb (includes expected) actual
  end.

(** ** Diagnostics *)

Inductive IRELCompileErrorCode :=
| IREL_PARSE_ERROR | IREL_UNKNOWN_VARIABLE | IREL_UNKNOWN_FUNCTION | IREL_TYPE_ERROR
| IREL_FORWARD_REF | IREL_SCOPE_VIOLATION.
#[export] Instance IRELCompileErrorCode_eq_dec : EqDecision IRELCompileErrorCode.
Proof. solve_decision. Defined.

Definition errorCode_str (c : IRELCompileErrorCode) : string :=
  match c with
  | IREL_PARSE_ERROR => "IREL_PARSE_ERROR" | IREL_UNKNOWN_VARIABLE => "IREL_UNKNOWN_VARIABLE"
  | IREL_UNKNOWN_FUNCTION => "IREL_UNKNOWN_FUNCTION" | IREL_TYPE_ERROR => "IREL_TYPE_ERROR"
  | IREL_FORWARD_REF => "IREL_FORWARD_REF" | IREL_SCOPE_VIOLATION => "IREL_SCOPE_VIOLATION"
  end.

Inductive DiagReason :=
| irel_parse_error | unknown_variable | unknown_flag | unknown_node_field | unknown_function
| irel_type_error | forward_ref | loop_scope_violation | params_schema_type_invalid.
#[export] Instance DiagReason_eq_dec : EqDecision DiagReason.
Proof. solve_decision. Defined.

Definition reason_str (r : DiagReason) : string :=
  match r with
  | irel_parse_error => "irel_parse_error" | unknown_variable => "unknown_variable"
  | unknown_flag => "unknown_flag" | unknown_node_field => "unknown_node_field"
  | unknown_function => "unknown_function" | irel_type_error => "irel_type_error"
  | forward_ref => "forward_ref" | loop_scope_violation => "loop_scope_violation"
  | params_schema_type_invalid => "params_schema_type_invalid"
  end.

Record IRELSourceLocation := mkLoc { loc_offset : nat; loc_line : nat; loc_column : nat }.

Record IRELCompileDiagnostic := mkDiag {
  d_code : IRELCompileErrorCode;
  d_reason : DiagReason;
  d_detail : string;
  d_location : option IRELSourceLocation
}.

(** [diagnostic(code, reason, detail)] without a location. *)
Definition diagnostic (c : IRELCompileErrorCode) (r : DiagReason) (detail : string)
  : IRELCompileDiagnostic := mkDiag c r detail None.

(** Line and column after the first [n] characters. *)
Fixpoint locate (n : nat) (source : string) (line column : nat) : nat * nat :=
  match n, source with
  | S n', String c s' =>
      if Ascii.eqb c "010"%char then locate n' s' (S line) 1 else locate n' s' line (S column)
  | _, _ => (line, column)
  end.

Definition sourceLocation (source : string) (pos : nat) : IRELSourceLocation :=
  let offset := Nat.min pos (String.length source) in
  let '(line, column) := locate offset source 1 1 in mkLoc offset line column.

Definition parseDiagnostic (source : string) (pos : nat) (message : string) : IRELCompileDiagnostic :=
  let l := sourceLocation source pos in
  mkDiag IREL_PARSE_ERROR irel_parse_error
    (message +:+ " at line " +:+ pretty (loc_line l) +:+ ", column " +:+ pretty (loc_column l) +:+
     " (offset " +:+ pretty (loc_offset l) +:+ ")") (Some l).

(** ** Tokens *)

Inductive SymbolValue :=
| s_or | s_and | s_eq | s_ne | s_ge | s_le | s_gt | s_lt | s_plus | s_minus | s_not
| s_lparen | s_rparen | s_comma | s_dot.
#[export] Instance SymbolValue_eq_dec : EqDecision SymbolValue.
Proof. solve_decision. Defined.

Definition symbol_str (s : SymbolValue) : string :=
  match s with
  | s_or => "||" | s_and => "&&" | s_eq => "==" | s_ne => "!=" | s_ge => ">=" | s_le => "<="
  | s_gt => ">" | s_lt => "<" | s_plus => "+" | s_minus => "-" | s_not => "!"
  | s_lparen => "(" | s_rparen => ")" | s_comma => "," | s_dot => "."
  end.

(** [isSymbol(value)], with the symbol it is. *)
Definition isSymbol (value : string) : option SymbolValue :=
  list_find (λ s, symbol_str s = value)
    [s_or; s_and; s_eq; s_ne; s_ge; s_le; s_gt; s_lt; s_plus; s_minus; s_not;
     s_lparen; s_rparen; s_comma; s_dot] ≫= λ p, Some p.2.

Inductive Token :=
| T_identifier (value : string) (pos : nat)
| T_number (value : string) (pos : nat)
| T_string (value : string) (pos : nat)
| T_boolean (value : bool) (pos : nat)
| T_null (pos : nat)
| T_symbol (value : SymbolValue) (pos : nat)
| T_eof (pos : nat).

Definition token_pos (t : Token) : nat :=
  match t with
  | T_identifier _ p | T_number _ p | T_string _ p | T_boolean _ p
  | T_null p | T_symbol _ p | T_eof p => p
  end.

(** ** Syntax trees; [grouped] is [grouped === true] *)

Inductive AddOp := op_add | op_sub.
Inductive CompareOp := op_eq | op_ne | op_gt | op_ge | op_lt | op_le.
Inductive LogicalOp := op_and | op_or.
#[export] Instance AddOp_eq_dec : EqDecision AddOp.
Proof. solve_decision. Defined.
#[export] Instance CompareOp_eq_dec : EqDecision CompareOp.
Proof. solve_decision. Defined.
#[export] Instance LogicalOp_eq_dec : EqDecision LogicalOp.
Proof. solve_decision. Defined.

Definition addop_str (o : AddOp) : string := match o with op_add => "+" | op_sub => "-" end.
Definition compareop_str (o : CompareOp) : string :=
  match o with
  | op_eq => "==" | op_ne => "!=" | op_gt => ">" | op_ge => ">=" | op_lt => "<" | op_le => "<="
  end.
Definition logicalop_str (o : LogicalOp) : string := match o with op_and => "&&" | op_or => "||" end.

Inductive IRELNode :=
| NLiteral (valueType : IRELTypeAtom) (value : IRELValue) (grouped : bool)
| NVariable (path : list string) (grouped : bool)
| NCall (name : string) (args : list IRELNode) (grouped : bool)
| NUnary (expr : IRELNode) (grouped : bool)
| NBinary (op : AddOp) (left right : IRELNode) (grouped : bool)
| NCompare (op : CompareOp) (left right : IRELNode) (grouped : bool)
| NLogical (op : LogicalOp) (left right : IRELNode) (grouped : bool).

(** Induction with a hypothesis for every argument of a call. *)
Fixpoint IRELNode_rect' (P : IRELNode → Prop)
    (Hlit : ∀ t v g, P (NLiteral t v g)) (Hvar : ∀ p g, P (NVariable p g))
    (Hcall : ∀ n args g, Forall P args → P (NCall n args g))
    (Hun : ∀ e g, P e → P (NUnary e g))
    (Hbin : ∀ o l r g, P l → P r → P (NBinary o l r g))
    (Hcmp : ∀ o l r g, P l → P r → P (NCompare o l r g))
    (Hlog : ∀ o l r g, P l → P r → P (NLogical o l r g)) (n : IRELNode) : P n :=
  let rec := IRELNode_rect' P Hlit Hvar Hcall Hun Hbin Hcmp Hlog in
  match n with
  | NLiteral t v g => Hlit t v g
  | NVariable p g => Hvar p g
  | NCall m args g => Hcall m args g
      ((fix go l : Forall P l :=
          match l with [] => Forall_nil_2 P | x :: l' => Forall_cons_2 P x l' (rec x) (go l') end) args)
  | NUnary e g => Hun e g (rec e)
  | NBinary o l r g => Hbin o l r g (rec l) (rec r)
  | NCompare o l r g => Hcmp o l r g (rec l) (rec r)
  | NLogical o l r g => Hlog o l r g (rec l) (rec r)
  end.

Definition markGrouped (n : IRELNode) : IRELNode :=
  match n with
  | NLiteral t v _ => NLiteral t v true
  | NVariable p _ => NVariable p true
  | NCall m a _ => NCall m a true
  | NUnary e _ => NUnary e true
  | NBinary o l r _ => NBinary o l r true
  | NCompare o l r _ => NCompare o l r true
  | NLogical o l r _ => NLogical o l r true
  end.

Definition isUngroupedLogical (n : IRELNode) (op : LogicalOp) : bool :=
  match n with NLogical o _ _ g => bool_decide (o = op) && negb g | _ => false end.

Definition isUngroupedCompare (n : IRELNode) : bool :=
  match n with NCompare _ _ _ g => negb g | _ => false end.

(** ** Compile context *)

Record HumanTaskNodeMeta := mkHumanTaskMeta { correctionFields : list (string * irel_type) }.

Record IRELCompileContext := mkContext {
  currentNodeId : string;
  nodeIds : list string;
  ctx_graph : graph;
  paramsSchema : option (list (string * json));
  additionalPriorNodeIds : option (list string);
  allowLoopScope : option bool;
  expectedType : option IRELTypeAtom;
  humanTaskNodes : option (list (string * HumanTaskNodeMeta))
}.

(** ** Facts on types *)

Lemma elem_type_order a : a ∈ type_order.
Proof. destruct a; unfold type_order; set_solver. Qed.

Lemma elem_uniqueTypes a t : a ∈ uniqueTypes t ↔ a ∈ t.
Proof.
  unfold uniqueTypes. rewrite list_elem_of_filter. split; [tauto|].
  intros; split; [done|apply elem_type_order].
Qed.

Lemma includes_true t a : includes t a = true ↔ a ∈ t.
Proof. unfold includes. by rewrite bool_decide_eq_true. Qed.

Lemma isExactly_true t a : isExactly t a = true ↔ t = [a].
Proof. unfold isExactly. by rewrite bool_decide_eq_true. Qed.

Lemma isNumeric_elem t : isNumeric t = true → ∀ a, a ∈ t → is_numeric_atom a = true.
Proof.
  destruct t as [|b t]; [discriminate|]. unfold isNumeric.
  rewrite forallb_forall. intros H a Ha. apply H. by apply list_elem_of_In.
Qed.

Lemma isSymbol_spec value s : isSymbol value = Some s ↔ symbol_str s = value.
Proof.
  split.
  - unfold isSymbol. destruct (list_find _ _) as [[i x]|] eqn:E; simpl; [|done].
    intros [= <-]. by apply list_find_Some in E as (_ & ? & _).
  - intros <-. by destruct s.
Qed.

Lemma markGrouped_not_compare n : isUngroupedCompare (markGrouped n) = false.
Proof. by destruct n. Qed.

Lemma markGrouped_not_logical n op : isUngroupedLogical (markGrouped n) op = false.
Proof. destruct n; simpl; try done. by rewrite andb_false_r. Qed.
