(* ===== verification/IrelLexer.v ===== *)
(** * IREL: the tokenizer

    Models [tokenize] of [codegen/irel-compile.ts] with its character classes.
    The loop over the index [i] is a recursion on the remaining input; a token
    of [n] characters makes the recursion skip the other [n - 1], so no fuel
    is needed.  The specification [laid_out] says that a text is an alternation
    of blanks and token texts at the recorded positions. *)

From stdpp Require Import base strings list gmap pretty.
From Stdlib Require Import Ascii.
From S2P Require Import Prelude JsValue IrelSyntax.

#[local] Arguments String.append !_ _ / : simpl nomatch.

(** ** Character classes *)

Definition isIdentifierStart (c : ascii) : bool :=
  is_lower_char c || is_upper_char c || Ascii.eqb c "_"%char.
Definition isIdentifierPart (c : ascii) : bool :=
  isIdentifierStart c || is_digit_char c.
Definition isDigit (c : ascii) : bool := is_digit_char c.

(** Space, tab, carriage return, line feed. *)
Definition is_blank (c : ascii) : bool :=
  existsb (Ascii.eqb c) [" "%char; "009"%char; "013"%char; "010"%char].

Definition dquote : ascii := "034"%char.
(** A character a string literal may not contain: backslash or a line end. *)
Definition is_forbidden (c : ascii) : bool :=
  existsb (Ascii.eqb c) ["\"%char; "010"%char; "013"%char].

(** ** Scanning *)

Fixpoint take_while (p : ascii → bool) (s : string) : string :=
  match s with
  | String c s' => if p c then String c (take_while p s') else EmptyString
  | EmptyString => EmptyString
  end.

Fixpoint drop_while (p : ascii → bool) (s : string) : string :=
  match s with
  | String c s' => if p c then drop_while p s' else s
  | EmptyString => EmptyString
  end.

(** [input.slice(start, readNumber(input, start))]. *)
Definition readNumber (s : string) : string :=
  let ip := take_while isDigit s in
  match drop_while isDigit s with
  | String d (String c _ as fs) =>
      if Ascii.eqb d "."%char && isDigit c then ip +:+ String d (take_while isDigit fs) else ip
  | _ => ip
  end.

(** The body of a string literal, up to its closing quote. *)
Inductive scan := ScanForbidden | ScanOpen | ScanClosed (value : string).

Fixpoint scan_string (s : string) : scan :=
  match s with
  | EmptyString => ScanOpen
  | String c s' =>
      if is_forbidden c then ScanForbidden
      else if Ascii.eqb c dquote then ScanClosed EmptyString
      else match scan_string s' with ScanClosed v => ScanClosed (String c v) | x => x end
  end.

Definition word_token (value : string) (pos : nat) : Token :=
  if decide (value = "true") then T_boolean true pos
  else if decide (value = "false") then T_boolean false pos
  else if decide (value = "null") then T_null pos
  else T_identifier value pos.

(** One iteration of the loop at a non-empty rest [s] of [input]: a blank, a
    token and its length, or a diagnostic. *)
Inductive lexed := L_blank | L_token (t : Token) (n : nat) | L_error (d : IRELCompileDiagnostic).

Definition first_char (s : string) : string :=
  match s with String c _ => String c EmptyString | EmptyString => EmptyString end.
Definition first_two (s : string) : string :=
  match s with
  | String c (String d _) => String c (String d EmptyString)
  | _ => first_char s
  end.

Definition lex_at (input s : string) (i : nat) : lexed :=
  match s with
  | EmptyString => L_blank
  | String c s' =>
      if is_blank c then L_blank
      else if isIdentifierStart c then
        let v := String c (take_while isIdentifierPart s') in
        L_token (word_token v i) (String.length v)
      else if isDigit c then
        let v := readNumber s in L_token (T_number v i) (String.length v)
      else if Ascii.eqb c dquote then
        match scan_string s' with
        | ScanForbidden =>
            L_error (parseDiagnostic input i "string literals may not contain escapes or newlines")
        | ScanOpen => L_error (parseDiagnostic input i "unterminated string literal")
        | ScanClosed v => L_token (T_string v i) (2 + String.length v)
        end
      else
        match isSymbol (first_two s) with
        | Some sym => L_token (T_symbol sym i) 2
        | None =>
            match isSymbol (first_char s) with
            | Some sym => L_token (T_symbol sym i) 1
            | None => L_error (parseDiagnostic input i ("unexpected character '" +:+ first_char s +:+ "'"))
            end
        end
  end.

Fixpoint tokenize_from (input s : string) (skip i : nat) : result IRELCompileDiagnostic (list Token) :=
  match s with
  | EmptyString => Ok [T_eof (String.length input)]
  | String c s' =>
      match skip with
      | S k => tokenize_from input s' k (S i)
      | O =>
          match lex_at input s i with
          | L_blank => tokenize_from input s' 0 (S i)
          | L_token t n => ts ← tokenize_from input s' (n - 1) (S i); Ok (t :: ts)
          | L_error d => Err d
          end
      end
  end.

Definition tokenize (input : string) : result IRELCompileDiagnostic (list Token) :=
  tokenize_from input input 0 0.

Example tokenize_ex :
  tokenize "a.b>=1.5&&!(x)" =
  Ok [T_identifier "a" 0; T_symbol s_dot 1; T_identifier "b" 2; T_symbol s_ge 3; T_number "1.5" 5;
      T_symbol s_and 8; T_symbol s_not 10; T_symbol s_lparen 11; T_identifier "x" 12;
      T_symbol s_rparen 13; T_eof 14].
Proof. vm_compute. reflexivity. Qed.

(** ** Specification *)

Fixpoint str_forall (p : ascii → bool) (s : string) : bool :=
  match s with EmptyString => true | String c s' => p c && str_forall p s' end.

(** The text of a token. *)
Definition token_text (t : Token) : string :=
  match t with
  | T_identifier v _ | T_number v _ => v
  | T_string v _ => String dquote (v +:+ String dquote EmptyString)
  | T_boolean b _ => if b then "true" else "false"
  | T_null _ => "null"
  | T_symbol s _ => symbol_str s
  | T_eof _ => EmptyString
  end.

Definition is_word (v : string) : bool :=
  match v with
  | String c v' => isIdentifierStart c && str_forall isIdentifierPart v'
  | EmptyString => false
  end.

(** [digits] or [digits.digits]. *)
Definition nonempty_digits (s : string) : bool :=
  match s with EmptyString => false | _ => str_forall isDigit s end.
Definition is_number_text (v : string) : bool :=
  match split_dot v with
  | (ip, None) => nonempty_digits ip
  | (ip, Some fp) => nonempty_digits ip && nonempty_digits fp
  end.

Definition reserved_words : list string := ["true"; "false"; "null"].

Definition token_valid (t : Token) : bool :=
  match t with
  | T_identifier v _ => is_word v && negb (string_in v reserved_words)
  | T_number v _ => is_number_text v
  | T_string v _ => str_forall (λ c, negb (is_forbidden c) && negb (Ascii.eqb c dquote)) v
  | T_eof _ => false
  | _ => true
  end.

Inductive laid_out : string → nat → list Token → Prop :=
| lo_end ws i : str_forall is_blank ws = true → laid_out ws i []
| lo_token ws t rest i ts :
    str_forall is_blank ws = true → token_valid t = true →
    token_pos t = i + String.length ws →
    laid_out rest (token_pos t + String.length (token_text t)) ts →
    laid_out (ws +:+ token_text t +:+ rest) i (t :: ts).

(** Equality up to positions. *)
Definition erase_pos (t : Token) : Token :=
  match t with
  | T_identifier v _ => T_identifier v 0
  | T_number v _ => T_number v 0
  | T_string v _ => T_string v 0
  | T_boolean b _ => T_boolean b 0
  | T_null _ => T_null 0
  | T_symbol s _ => T_symbol s 0
  | T_eof _ => T_eof 0
  end.

(** Token texts separated by single spaces. *)
Definition render (ts : list Token) : string := join " " (map token_text ts).

(** ** Lemmas on scanning *)

Fixpoint str_drop (n : nat) (s : string) : string :=
  match n, s with
  | S n', String _ s' => str_drop n' s'
  | _, _ => s
  end.

Lemma str_drop_app a b : str_drop (String.length a) (a +:+ b) = b.
Proof. induction a as [|c a IH]; [by destruct b|exact IH]. Qed.

Lemma take_drop_while p s : s = take_while p s +:+ drop_while p s.
Proof. induction s as [|c s IH]; simpl; [done|]. destruct (p c); simpl; [by f_equal|done]. Qed.

Lemma take_while_forall p s : str_forall p (take_while p s) = true.
Proof. induction s as [|c s IH]; simpl; [done|]. destruct (p c) eqn:E; simpl; [by rewrite E|done]. Qed.

(** A rest that does not continue a token: empty or a blank first. *)
Definition stops (p : ascii → bool) (s : string) : bool :=
  match s with EmptyString => true | String c _ => negb (p c) end.

Lemma take_while_app p a s : str_forall p a = true → stops p s = true → take_while p (a +:+ s) = a.
Proof.
  induction a as [|c a IH]; simpl.
  - destruct s as [|c s]; simpl; [done|]. by destruct (p c).
  - intros [-> H]%andb_true_iff Hs. by rewrite IH.
Qed.

Lemma drop_while_app p a s : str_forall p a = true → stops p s = true → drop_while p (a +:+ s) = s.
Proof.
  induction a as [|c a IH]; simpl.
  - destruct s as [|c s]; simpl; [done|]. by destruct (p c).
  - intros [-> H]%andb_true_iff Hs. by rewrite IH.
Qed.

Lemma char_forall (P : ascii → bool) : (∀ c, P c = true) ↔
  (forallb (λ n, P (ascii_of_nat n)) (seq 0 256) = true).
Proof.
  rewrite forallb_forall. split; [intros H n _; apply H|].
  intros H c. rewrite <- (ascii_nat_embedding c). apply H, in_seq.
  pose proof (nat_ascii_bounded c). lia.
Qed.

(** The classes a first character selects are disjoint. *)
Lemma start_classes c : isIdentifierStart c = true →
  is_blank c = false ∧ isDigit c = false ∧ Ascii.eqb c dquote = false.
Proof.
  assert (H : ∀ c, implb (isIdentifierStart c)
     (negb (is_blank c) && negb (isDigit c) && negb (Ascii.eqb c dquote)) = true)
    by (apply char_forall; vm_compute; reflexivity).
  intros Hc. specialize (H c). rewrite Hc in H. simpl in H.
  destruct (is_blank c), (isDigit c), (Ascii.eqb c dquote); naive_solver.
Qed.

Lemma digit_classes c : isDigit c = true →
  is_blank c = false ∧ isIdentifierStart c = false ∧ Ascii.eqb c "."%char = false.
Proof.
  assert (H : ∀ c, implb (isDigit c)
     (negb (is_blank c) && negb (isIdentifierStart c) && negb (Ascii.eqb c "."%char)) = true)
    by (apply char_forall; vm_compute; reflexivity).
  intros Hc. specialize (H c). rewrite Hc in H. simpl in H.
  destruct (is_blank c), (isIdentifierStart c), (Ascii.eqb c "."%char); naive_solver.
Qed.

Lemma scan_closed s v : scan_string s = ScanClosed v →
  str_forall (λ c, negb (is_forbidden c) && negb (Ascii.eqb c dquote)) v = true ∧
  ∃ rest, s = v +:+ String dquote rest.
Proof.
  revert v. induction s as [|c s IH]; intros v; simpl; [done|].
  destruct (is_forbidden c) eqn:Ef; [done|].
  destruct (Ascii.eqb c dquote) eqn:Eq.
  - intros [= <-]. split; [done|]. apply Ascii.eqb_eq in Eq as ->. by exists s.
  - destruct (scan_string s) as [| |w]; [done|done|]. intros [= <-].
    destruct (IH w eq_refl) as (H & rest & ->). simpl. rewrite Ef, Eq, H. eauto.
Qed.

Lemma scan_app v rest :
  str_forall (λ c, negb (is_forbidden c) && negb (Ascii.eqb c dquote)) v = true →
  scan_string (v +:+ String dquote rest) = ScanClosed v.
Proof.
  induction v as [|c v IH]; simpl; [done|].
  destruct (is_forbidden c), (Ascii.eqb c dquote); simpl; try done. intros H. by rewrite IH.
Qed.

(** ** Number texts *)

Lemma split_dot_digits ip rest : str_forall isDigit ip = true →
  split_dot (ip +:+ rest) =
    (let '(a, b) := split_dot rest in (ip +:+ a, b)).
Proof.
  induction ip as [|c ip IH]; simpl; [by destruct (split_dot rest)|].
  intros [Hc H]%andb_true_iff. destruct (digit_classes c Hc) as (_ & _ & ->).
  rewrite IH by done. by destruct (split_dot rest).
Qed.

Lemma split_dot_only_digits ip : str_forall isDigit ip = true → split_dot ip = (ip, None).
Proof.
  intros H. rewrite <- (str_app_nil_r ip) at 1. rewrite split_dot_digits by done. simpl.
  by rewrite str_app_nil_r.
Qed.

Lemma split_dot_eq s : s = match split_dot s with
  | (ip, None) => ip | (ip, Some fp) => ip +:+ String "."%char fp end.
Proof.
  induction s as [|c s IH]; simpl; [done|].
  destruct (Ascii.eqb c "."%char) eqn:E; [by apply Ascii.eqb_eq in E as ->|].
  destruct (split_dot s) as [a [b|]]; simpl; by f_equal.
Qed.

Lemma readNumber_prefix s : ∃ rest, s = readNumber s +:+ rest.
Proof.
  unfold readNumber. pose proof (take_drop_while isDigit s) as E.
  set (a := take_while isDigit s) in *. set (b := drop_while isDigit s) in *.
  destruct b as [|d [|c fs]]; try (by eexists).
  destruct (Ascii.eqb d "."%char && isDigit c); [|by eexists].
  exists (drop_while isDigit (String c fs)). rewrite E at 1.
  rewrite str_app_assoc. f_equal. cbn [String.append]. f_equal. apply take_drop_while.
Qed.

Lemma readNumber_valid s : match s with String c _ => isDigit c | _ => false end = true →
  is_number_text (readNumber s) = true.
Proof.
  intros Hs. unfold readNumber.
  assert (Hd := take_while_forall isDigit s).
  assert (Hne : take_while isDigit s ≠ EmptyString).
  { destruct s as [|c s]; [done|]. simpl. by rewrite Hs. }
  set (a := take_while isDigit s) in *.
  assert (Hint : is_number_text a = true).
  { unfold is_number_text. rewrite split_dot_only_digits by done. by destruct a. }
  destruct (drop_while isDigit s) as [|d [|c fs]]; try done.
  destruct (Ascii.eqb d "."%char && isDigit c) eqn:E; [|done].
  apply andb_true_iff in E as [->%Ascii.eqb_eq Hc].
  unfold is_number_text. rewrite split_dot_digits by done.
  cbn [split_dot]. rewrite Ascii.eqb_refl. rewrite str_app_nil_r.
  apply andb_true_iff. split; [by destruct a|].
  cbn [take_while]. rewrite Hc. simpl. by rewrite Hc, take_while_forall.
Qed.

Lemma nonempty_digits_forall s : nonempty_digits s = true → str_forall isDigit s = true.
Proof. by destruct s. Qed.

Lemma readNumber_app v rest : is_number_text v = true → stops isDigit rest = true →
  stops (Ascii.eqb "."%char) rest = true → readNumber (v +:+ rest) = v.
Proof.
  unfold is_number_text. pose proof (split_dot_eq v) as E.
  destruct (split_dot v) as [ip [fp|]]; intros H Hr Hdot; subst v.
  - apply andb_true_iff in H as [Hi Hf].
    apply nonempty_digits_forall in Hi.
    unfold readNumber. rewrite str_app_assoc.
    rewrite take_while_app, drop_while_app by done.
    destruct fp as [|c fp]; [done|]. simpl in Hf |- *.
    apply andb_true_iff in Hf as [Hc Hf].
    rewrite Hc. simpl. by rewrite take_while_app.
  - apply nonempty_digits_forall in H.
    unfold readNumber. rewrite take_while_app, drop_while_app by done.
    destruct rest as [|d [|c fs]]; try done.
    unfold stops in Hdot. apply negb_true_iff in Hdot. by rewrite (Ascii.eqb_sym d), Hdot.
Qed.

(** ** Soundness of one step *)

Lemma word_token_spec v i : is_word v = true →
  token_valid (word_token v i) = true ∧ token_text (word_token v i) = v ∧
  token_pos (word_token v i) = i.
Proof.
  intros Hv. unfold word_token. repeat case_decide; subst; try done.
  simpl. split_and!; try done. rewrite Hv. simpl. apply negb_true_iff.
  unfold string_in, reserved_words. apply bool_decide_eq_false. set_solver.
Qed.

Lemma first_two_symbol s sym : isSymbol (first_two s) = Some sym → 0 < String.length s →
  ∃ rest, s = symbol_str sym +:+ rest ∧ str_drop 2 s = rest.
Proof.
  rewrite isSymbol_spec. intros H Hl.
  destruct s as [|c [|d s]]; simpl in *; [lia| |].
  - exists EmptyString. rewrite H. split; [by rewrite str_app_nil_r|done].
  - exists s. rewrite H. split; [done|by destruct s].
Qed.

Lemma first_char_symbol s sym : isSymbol (first_char s) = Some sym → 0 < String.length s →
  ∃ rest, s = symbol_str sym +:+ rest ∧ str_drop 1 s = rest.
Proof.
  rewrite isSymbol_spec. intros H Hl.
  destruct s as [|c s]; simpl in *; [lia|]. exists s. rewrite H. split; [done|by destruct s].
Qed.

Lemma lex_at_token input s i t n : lex_at input s i = L_token t n →
  token_valid t = true ∧ token_pos t = i ∧ 0 < n ∧
  ∃ rest, s = token_text t +:+ rest ∧ str_drop n s = rest.
Proof.
  unfold lex_at. destruct s as [|c s]; [done|].
  destruct (is_blank c); [done|]. destruct (isIdentifierStart c) eqn:Es.
  { set (v := String c (take_while isIdentifierPart s)). intros [= <- <-].
    destruct (word_token_spec v i) as (H1 & H2 & H3).
    { simpl. by rewrite Es, take_while_forall. }
    rewrite H2. split_and!; [done|done|simpl; lia|].
    exists (drop_while isIdentifierPart s).
    assert (E : String c s = v +:+ drop_while isIdentifierPart s)
      by (unfold v; simpl; f_equal; apply take_drop_while).
    split; [done|]. rewrite E. apply str_drop_app. }
  destruct (isDigit c) eqn:Ed.
  { intros [= <- <-]. destruct (readNumber_prefix (String c s)) as [rest E].
    assert (Hv := readNumber_valid (String c s) Ed).
    split_and!; [done|done| |].
    - destruct (readNumber (String c s)); simpl; [done|lia].
    - exists rest. split; [done|]. rewrite E at 2. apply str_drop_app. }
  destruct (Ascii.eqb c dquote) eqn:Eq.
  { destruct (scan_string s) as [| |v] eqn:Esc; [done|done|]. intros [= <- <-].
    apply Ascii.eqb_eq in Eq as ->. apply scan_closed in Esc as (Hv & rest & ->).
    split_and!; [done|done|lia|]. exists rest. split; [simpl; by rewrite str_app_assoc|].
    change (str_drop (S (String.length v)) (v +:+ String dquote rest) = rest).
    assert (E := str_drop_app (v +:+ String dquote EmptyString) rest).
    rewrite str_length_app, str_app_assoc in E. simpl in E.
    by rewrite Nat.add_comm in E. }
  destruct (isSymbol (first_two _)) as [sym|] eqn:E2.
  { intros [= <- <-]. apply first_two_symbol in E2 as (rest & ? & ?); [|simpl; lia].
    split_and!; [done|done|lia|]. eauto. }
  destruct (isSymbol (first_char _)) as [sym|] eqn:E1; [|done].
  intros [= <- <-]. apply first_char_symbol in E1 as (rest & ? & ?); [|simpl; lia].
  split_and!; [done|done|lia|]. eauto.
Qed.

Lemma lex_at_blank input c s i : lex_at input (String c s) i = L_blank → is_blank c = true.
Proof.
  unfold lex_at. destruct (is_blank c); [done|].
  repeat (case_match; try done).
Qed.

Lemma tokenize_from_skip input s : ∀ n i,
  tokenize_from input s n i = tokenize_from input (str_drop n s) 0 (i + n).
Proof.
  induction s as [|c s IH]; intros [|n] i; try done.
  - by rewrite Nat.add_0_r.
  - simpl. rewrite IH. f_equal. lia.
Qed.

Lemma laid_out_blank c s i ts : is_blank c = true → laid_out s (S i) ts → laid_out (String c s) i ts.
Proof.
  intros Hc Hl. remember (S i) as j eqn:Ej.
  destruct Hl as [ws j H|ws t rest j ts H Hv Hp Hr]; subst j.
  - constructor. simpl. by rewrite Hc.
  - apply (lo_token (String c ws)); simpl; [by rewrite Hc|done|lia|done].
Qed.

Lemma str_drop_length n s : String.length (str_drop n s) = String.length s - n.
Proof. revert s; induction n as [|n IH]; intros [|c s]; simpl; try done. Qed.

Lemma tokenize_from_sound input k : ∀ s i ts, String.length s ≤ k →
  tokenize_from input s 0 i = Ok ts →
  ∃ ts0, ts = ts0 ++ [T_eof (String.length input)] ∧ laid_out s i ts0.
Proof.
  induction k as [|k IH]; intros s i ts Hk H.
  { destruct s; simpl in *; [|lia]. injection H as <-. exists []. split; [done|by constructor]. }
  destruct s as [|c s]; [simpl in H; injection H as <-; exists []; split; [done|by constructor]|].
  cbn [tokenize_from] in H. destruct (lex_at input (String c s) i) as [|t n|d] eqn:E; [| |done].
  - apply IH in H as (ts0 & -> & Hl); [|simpl in Hk; lia].
    exists ts0. split; [done|]. eauto using laid_out_blank, lex_at_blank.
  - apply result_bind_Ok in H as (ts' & H & [= <-]).
    apply lex_at_token in E as (Hv & Hp & Hn & rest & Es & Ed).
    rewrite tokenize_from_skip in H.
    replace (str_drop (n - 1) s) with rest in H
      by (destruct n; [lia|]; simpl in Ed |- *; by rewrite Nat.sub_0_r).
    assert (Hlen : String.length (token_text t) + String.length rest = S (String.length s))
      by (rewrite <- str_length_app, <- Es; done).
    assert (Hrest : String.length rest = S (String.length s) - n)
      by (rewrite <- Ed, str_drop_length; done).
    destruct rest as [|d rest].
    { simpl in H. injection H as <-. exists [t]. split; [done|].
      rewrite Es. apply (lo_token EmptyString); try done; [simpl; lia|by constructor]. }
    apply IH in H as (ts0 & -> & Hl); [|simpl in *; lia].
    exists (t :: ts0). split; [done|]. rewrite Es.
    apply (lo_token EmptyString); try done; [simpl; lia|].
    replace (token_pos t + _) with (S i + (n - 1)); [done|]. simpl in *. lia.
Qed.

(** ** Completeness on rendered tokens *)

(** What may follow a token text in a rendering. *)
Definition separated (rest : string) : Prop :=
  rest = EmptyString ∨ ∃ r, rest = String " "%char r.

Lemma separated_stops p rest : p " "%char = false → separated rest → stops p rest = true.
Proof. intros Hp [->|[r ->]]; unfold stops; [done|]. by rewrite Hp. Qed.

Lemma lex_at_word input v rest i : is_word v = true → separated rest →
  lex_at input (v +:+ rest) i = L_token (word_token v i) (String.length v).
Proof.
  destruct v as [|c v]; [done|]. simpl. intros [Hc Hv]%andb_true_iff Hr.
  destruct (start_classes c Hc) as (-> & _). rewrite Hc.
  by rewrite take_while_app by (done || by apply separated_stops).
Qed.

Lemma lex_at_number input v rest i : is_number_text v = true → separated rest →
  lex_at input (v +:+ rest) i = L_token (T_number v i) (String.length v).
Proof.
  intros Hv Hr. assert (E : readNumber (v +:+ rest) = v)
    by (apply readNumber_app; [done|by apply separated_stops..]).
  assert (Hd : match v with String c _ => isDigit c | _ => false end = true).
  { clear E. unfold is_number_text in Hv. destruct v as [|c v]; [done|]. simpl in Hv.
    destruct (Ascii.eqb c "."%char); [done|].
    destruct (split_dot v) as [a [b|]]; simpl in Hv.
    - by apply andb_true_iff in Hv as [[? _]%andb_true_iff _].
    - by apply andb_true_iff in Hv as [? _]. }
  destruct v as [|c v]; [done|]. destruct (digit_classes c Hd) as (Hb & Hi & _).
  unfold lex_at. cbn [String.append] in E |- *. by rewrite Hb, Hi, Hd, E.
Qed.

Lemma lex_at_symbol input sym rest i : separated rest →
  ∃ n, lex_at input (symbol_str sym +:+ rest) i = L_token (T_symbol sym i) n ∧
       0 < n ∧ str_drop n (symbol_str sym +:+ rest) = rest.
Proof.
  intros [->|[r ->]].
  - exists 2. destruct sym; (split; [vm_compute; reflexivity|split; [lia|reflexivity]]).
  - destruct sym;
      first [exists 2; split; [vm_compute; reflexivity|split; [lia|by destruct r]]
            |exists 1; split; [vm_compute; reflexivity|split; [lia|done]]].
Qed.

Lemma lex_at_text input t rest i : token_valid t = true → separated rest →
  ∃ t' n, lex_at input (token_text t +:+ rest) i = L_token t' n ∧ erase_pos t' = erase_pos t ∧
          0 < n ∧ str_drop n (token_text t +:+ rest) = rest.
Proof.
  intros Hv Hr. destruct t as [v p|v p|v p|b p|p|sym p|p]; simpl in Hv |- *; [| | | | | |done].
  - apply andb_true_iff in Hv as [Hw Hn].
    exists (word_token v i), (String.length v). rewrite lex_at_word by done.
    split_and!; [done| |by destruct v; [|simpl; lia]|apply str_drop_app].
    unfold string_in in Hn. apply negb_true_iff, bool_decide_eq_false in Hn.
    unfold word_token, reserved_words in *. repeat case_decide; subst; set_solver.
  - exists (T_number v i), (String.length v). rewrite lex_at_number by done.
    split_and!; [done|done|by destruct v; [|simpl; lia]|apply str_drop_app].
  - exists (T_string v i), (2 + String.length v).
    rewrite str_app_assoc. cbn [String.append]. rewrite scan_app by done.
    split_and!; [done|done|lia|].
    assert (E := str_drop_app (v +:+ String dquote EmptyString) rest).
    rewrite str_length_app, str_app_assoc, Nat.add_comm in E. exact E.
  - exists (T_boolean b i), (String.length (if b then "true" else "false")).
    rewrite lex_at_word by (done || by destruct b).
    split_and!; [by destruct b|done|destruct b; simpl; lia|apply str_drop_app].
  - exists (T_null i), 4. split; [exact (lex_at_word input "null" rest i eq_refl Hr)|].
    split_and!; [done|lia|]. apply (str_drop_app "null").
  - destruct (lex_at_symbol input sym rest i Hr) as (n & H1 & H2 & H3). eauto 10.
Qed.

Lemma tokenize_from_text input t rest i : token_valid t = true → separated rest →
  ∃ t' j, erase_pos t' = erase_pos t ∧
    tokenize_from input (token_text t +:+ rest) 0 i =
      (ts ← tokenize_from input rest 0 j; Ok (t' :: ts)).
Proof.
  intros Hv Hr. destruct (lex_at_text input t rest i Hv Hr) as (t' & n & E & Ht & Hn & Hd).
  destruct (token_text t +:+ rest) as [|c s] eqn:Es; [done|].
  exists t', (S i + (n - 1)). split; [done|]. cbn [tokenize_from]. rewrite E.
  rewrite tokenize_from_skip. destruct n as [|n]; [lia|]. simpl in Hd |- *.
  by rewrite Nat.sub_0_r, Hd.
Qed.

Lemma tokenize_from_render input ts : Forall (λ t, token_valid t = true) ts → ∀ i,
  ∃ ts', tokenize_from input (render ts) 0 i = Ok (ts' ++ [T_eof (String.length input)]) ∧
         map erase_pos ts' = map erase_pos ts.
Proof.
  induction 1 as [|t ts Hv _ IH]; intros i; [by exists []|].
  unfold render in *. destruct ts as [|t2 ts].
  - destruct (tokenize_from_text input t EmptyString i Hv) as (t' & j & Ht & E); [by left|].
    rewrite str_app_nil_r in E. exists [t']. simpl. rewrite E. simpl. by rewrite Ht.
  - set (rest := join " " (map token_text (t2 :: ts))) in *.
    change (join " " (map token_text (t :: t2 :: ts))) with (token_text t +:+ String " " rest).
    destruct (tokenize_from_text input t (String " " rest) i Hv) as (t' & j & Ht & ->);
      [right; by eexists|].
    destruct (IH (S j)) as (ts' & E & Hts). exists (t' :: ts').
    cbn [tokenize_from lex_at]. change (is_blank " ") with true. cbn iota. rewrite E.
    simpl. by rewrite Ht, Hts.
Qed.

(** ** Properties *)

(** The tokenizer is sound: when [tokenize] succeeds, its tokens end with
    the end-of-input token and the input is exactly blanks and the texts of
    the other tokens, each one a legal lexeme standing at its recorded
    position; no character is lost, invented or mis-positioned. *)
Theorem tokenize_sound input ts :
  tokenize input = Ok ts →
  ∃ ts0, ts = ts0 ++ [T_eof (String.length input)] ∧ laid_out input 0 ts0.
Proof. intros H. by eapply tokenize_from_sound. Qed.

Lemma tokenize_sound_witness :
  ∃ ts0, [T_identifier "a" 1; T_symbol s_ge 2; T_number "1.5" 5; T_eof 8] =
           ts0 ++ [T_eof (String.length " a>= 1.5")] ∧ laid_out " a>= 1.5" 0 ts0.
Proof. apply (tokenize_sound " a>= 1.5"). vm_compute. reflexivity. Defined.

(** Print / lex round trip: any list of legal tokens printed with single
    spaces between them is read back by [tokenize] as the same tokens (up to
    their positions) followed by the end of input.  In particular [tokenize]
    accepts every such text. *)
Theorem tokenize_render ts :
  Forall (λ t, token_valid t = true) ts →
  ∃ ts', tokenize (render ts) = Ok (ts' ++ [T_eof (String.length (render ts))]) ∧
         map erase_pos ts' = map erase_pos ts.
Proof. intros H. by apply tokenize_from_render. Qed.

Lemma tokenize_render_witness :
  ∃ ts', tokenize (render [T_identifier "x" 0; T_symbol s_lt 0; T_string "q" 0]) =
           Ok (ts' ++ [T_eof (String.length (render [T_identifier "x" 0; T_symbol s_lt 0; T_string "q" 0]))]) ∧
         map erase_pos ts' = map erase_pos [T_identifier "x" 0; T_symbol s_lt 0; T_string "q" 0].
Proof. apply tokenize_render. repeat constructor; vm_compute; reflexivity. Defined.
