(* ===== verification/IrelParser.v ===== *)
(** * IREL: the parser

    Models class [Parser] of [codegen/irel-compile.ts] (recursive descent over
    the token array).  The parser state [index] is represented by the tokens
    from that index on.  The methods call each other recursively, so they are
    one mutual fixpoint on a fuel; [PFuel] is the value of a parser that ran
    out of it and [parse] supplies a fuel for which this never happens
    ([parse_enough_fuel]).  The specification is the grammar of
    [ir-expression.md], section 1, with its two ambiguity guards. *)

From stdpp Require Import base strings list gmap.
From Stdlib Require Import Ascii.
From S2P Require Import Prelude JsValue IrelSyntax IrelLexer.

(** ** The parser *)

(** A thrown [ParseError], or no fuel lhs. *)
Inductive perr := PE (d : IRELCompileDiagnostic) | PFuel.

Abbreviation pres A := (result perr (A * list Token)).

Definition compare_of_symbol (s : SymbolValue) : option CompareOp :=
  match s with
  | s_eq => Some op_eq | s_ne => Some op_ne | s_gt => Some op_gt | s_ge => Some op_ge
  | s_lt => Some op_lt | s_le => Some op_le | _ => None
  end.
Definition add_of_symbol (s : SymbolValue) : option AddOp :=
  match s with s_plus => Some op_add | s_minus => Some op_sub | _ => None end.

(** [match(...values)] for the three sets of symbols the methods pass: the
    operator matched, its position ([previous().pos]) and the tokens after it. *)
Definition match_symbol {A} (f : SymbolValue → option A) (ts : list Token)
  : option (A * nat * list Token) :=
  match ts with
  | T_symbol s p :: ts' => match f s with Some a => Some (a, p, ts') | None => None end
  | _ => None
  end.
Definition only (s s' : SymbolValue) : option unit := if decide (s = s') then Some tt else None.

Definition numeric_literal (text : string) (v : jsnum) : IRELNode :=
  NLiteral (if str_includes "." text then t_number else t_int) (VNum v) false.

Section Parser.
(** The source text and the position of the last token. *)
Context (source : string) (eof_pos : nat).

Definition peek (ts : list Token) : Token :=
  match ts with t :: _ => t | [] => T_eof eof_pos end.

Definition perror {A} (pos : nat) (message : string) : result perr A :=
  Err (PE (parseDiagnostic source pos message)).

Definition consume (value : SymbolValue) (message : string) (ts : list Token)
  : result perr (list Token) :=
  match match_symbol (only value) ts with
  | Some (_, _, ts') => Ok ts'
  | None => perror (token_pos (peek ts)) message
  end.

Definition consumeIdentifier (message : string) (ts : list Token) : pres string :=
  match ts with
  | T_identifier v _ :: ts' => Ok (v, ts')
  | _ => perror (token_pos (peek ts)) message
  end.

(** [while (this.match(".")) path.push(...)]. *)
Fixpoint pathLoop (ts : list Token) : pres (list string) :=
  match ts with
  | T_symbol s_dot _ :: ts1 =>
      match ts1 with
      | T_identifier v _ :: ts2 => '(path, rest) ← pathLoop ts2; Ok (v :: path, rest)
      | _ => perror (token_pos (peek ts1)) "expected identifier after '.'"
      end
  | _ => Ok ([], ts)
  end.

Fixpoint parseOr (n : nat) (ts : list Token) : pres IRELNode :=
  match n with
  | O => Err PFuel
  | S n => '(lhs, ts1) ← parseAnd n ts; orLoop n lhs ts1
  end
with orLoop (n : nat) (lhs : IRELNode) (ts : list Token) : pres IRELNode :=
  match n with
  | O => Err PFuel
  | S n =>
      match match_symbol (only s_or) ts with
      | None => Ok (lhs, ts)
      | Some (_, pos, ts1) =>
          if isUngroupedLogical lhs op_and
          then perror pos "mixed && and || requires explicit parentheses"
          else
            '(rhs, ts2) ← parseAnd n ts1;
            if isUngroupedLogical rhs op_and
            then perror pos "mixed && and || requires explicit parentheses"
            else orLoop n (NLogical op_or lhs rhs false) ts2
      end
  end
with parseAnd (n : nat) (ts : list Token) : pres IRELNode :=
  match n with
  | O => Err PFuel
  | S n => '(lhs, ts1) ← parseNot n ts; andLoop n lhs ts1
  end
with andLoop (n : nat) (lhs : IRELNode) (ts : list Token) : pres IRELNode :=
  match n with
  | O => Err PFuel
  | S n =>
      match match_symbol (only s_and) ts with
      | None => Ok (lhs, ts)
      | Some (_, _, ts1) =>
          '(rhs, ts2) ← parseNot n ts1; andLoop n (NLogical op_and lhs rhs false) ts2
      end
  end
with parseNot (n : nat) (ts : list Token) : pres IRELNode :=
  match n with
  | O => Err PFuel
  | S n =>
      match match_symbol (only s_not) ts with
      | None => parseComparison n ts
      | Some (_, pos, ts1) =>
          '(expr, ts2) ← parseComparison n ts1;
          if isUngroupedCompare expr
          then perror pos "! with a comparison requires explicit parentheses"
          else Ok (NUnary expr false, ts2)
      end
  end
with parseComparison (n : nat) (ts : list Token) : pres IRELNode :=
  match n with
  | O => Err PFuel
  | S n =>
      '(lhs, ts1) ← parseAdditive n ts;
      match match_symbol compare_of_symbol ts1 with
      | None => Ok (lhs, ts1)
      | Some (op, _, ts2) =>
          '(rhs, ts3) ← parseAdditive n ts2;
          match match_symbol compare_of_symbol ts3 with
          | Some (_, pos, _) => perror pos "chained comparisons are not allowed"
          | None => Ok (NCompare op lhs rhs false, ts3)
          end
      end
  end
with parseAdditive (n : nat) (ts : list Token) : pres IRELNode :=
  match n with
  | O => Err PFuel
  | S n => '(lhs, ts1) ← parsePrimary n ts; addLoop n lhs ts1
  end
with addLoop (n : nat) (lhs : IRELNode) (ts : list Token) : pres IRELNode :=
  match n with
  | O => Err PFuel
  | S n =>
      match match_symbol add_of_symbol ts with
      | None => Ok (lhs, ts)
      | Some (op, _, ts1) =>
          '(rhs, ts2) ← parsePrimary n ts1; addLoop n (NBinary op lhs rhs false) ts2
      end
  end
with parsePrimary (n : nat) (ts : list Token) : pres IRELNode :=
  match n with
  | O => Err PFuel
  | S n =>
      match ts with
      | T_number v _ :: ts1 => Ok (numeric_literal v (num_of_decimal v), ts1)
      | T_string v _ :: ts1 => Ok (NLiteral t_string (VStr v) false, ts1)
      | T_boolean b _ :: ts1 => Ok (NLiteral t_boolean (VBool b) false, ts1)
      | T_null _ :: ts1 => Ok (NLiteral t_null VNull false, ts1)
      | T_symbol s_minus pos :: ts1 =>
          match ts1 with
          | T_number v _ :: ts2 => Ok (numeric_literal v (num_neg (num_of_decimal v)), ts2)
          | _ => perror pos "unary - is only allowed on numeric literals"
          end
      | T_identifier _ _ :: _ => parseIdentifierPrimary n ts
      | T_symbol s_lparen _ :: ts1 =>
          '(expr, ts2) ← parseOr n ts1;
          ts3 ← consume s_rparen "expected ')' after expression" ts2;
          Ok (markGrouped expr, ts3)
      | _ => perror (token_pos (peek ts)) "expected expression"
      end
  end
with parseIdentifierPrimary (n : nat) (ts : list Token) : pres IRELNode :=
  match n with
  | O => Err PFuel
  | S n =>
      '(name, ts1) ← consumeIdentifier "expected identifier" ts;
      match match_symbol (only s_lparen) ts1 with
      | Some (_, _, ts2) =>
          '(args, ts3) ← (match match_symbol (only s_rparen) ts2 with
                          | Some _ => Ok ([], ts2)
                          | None => argsLoop n ts2
                          end);
          ts4 ← consume s_rparen "expected ')' after function arguments" ts3;
          Ok (NCall name args false, ts4)
      | None =>
          '(path, ts2) ← pathLoop ts1;
          Ok (NVariable (name :: path) false, ts2)
      end
  end
with argsLoop (n : nat) (ts : list Token) : pres (list IRELNode) :=
  match n with
  | O => Err PFuel
  | S n =>
      '(arg, ts1) ← parseOr n ts;
      match match_symbol (only s_comma) ts1 with
      | None => Ok ([arg], ts1)
      | Some (_, _, ts2) => '(args, ts3) ← argsLoop n ts2; Ok (arg :: args, ts3)
      end
  end.

Definition parse_fuel (ts : list Token) : nat := 8 * length ts + 8.

Definition parse (ts : list Token) : result perr IRELNode :=
  '(ast, rest) ← parseOr (parse_fuel ts) ts;
  match peek rest with
  | T_eof _ => Ok ast
  | token => perror (token_pos token) "unexpected trailing token"
  end.
End Parser.

Definition last_pos (ts : list Token) : nat :=
  match last ts with Some t => token_pos t | None => 0 end.

Definition parseIrelExpression (expression : string) : result perr IRELNode :=
  match tokenize expression with
  | Err d => Err (PE d)
  | Ok tokens => parse expression (last_pos tokens) tokens
  end.

Example parse_ex :
  parseIrelExpression "!(a.b == -1) && len(x) > 2" =
  Ok (NLogical op_and
       (NUnary (NCompare op_eq (NVariable ["a"; "b"] false)
                  (NLiteral t_int (VNum (num_neg (num_of_Z 1))) false) true) false)
       (NCompare op_gt (NCall "len" [NVariable ["x"] false] false)
          (NLiteral t_int (VNum (num_of_Z 2)) false) false) false).
Proof. vm_compute. reflexivity. Qed.

(** ** The grammar

    [or_expr], [and_expr], [not_expr], [comparison], [additive], [primary] and
    [arg_list] of the EBNF, relating token lists to syntax trees.  The guards
    of the parenthesis rule are premises of [g_or] and [g_not]. *)

Inductive g_path : list Token → list string → Prop :=
| g_path_nil : g_path [] []
| g_path_cons p q v ts path :
    g_path ts path → g_path (T_symbol s_dot p :: T_identifier v q :: ts) (v :: path).

Inductive g_or_expr : list Token → IRELNode → Prop :=
| g_or_one ts e : g_and_expr ts e → g_or_expr ts e
| g_or ts1 p ts2 l r :
    g_or_expr ts1 l → g_and_expr ts2 r →
    isUngroupedLogical l op_and = false → isUngroupedLogical r op_and = false →
    g_or_expr (ts1 ++ T_symbol s_or p :: ts2) (NLogical op_or l r false)
with g_and_expr : list Token → IRELNode → Prop :=
| g_and_one ts e : g_not_expr ts e → g_and_expr ts e
| g_and ts1 p ts2 l r :
    g_and_expr ts1 l → g_not_expr ts2 r →
    g_and_expr (ts1 ++ T_symbol s_and p :: ts2) (NLogical op_and l r false)
with g_not_expr : list Token → IRELNode → Prop :=
| g_not_one ts e : g_comparison ts e → g_not_expr ts e
| g_not p ts e :
    g_comparison ts e → isUngroupedCompare e = false →
    g_not_expr (T_symbol s_not p :: ts) (NUnary e false)
with g_comparison : list Token → IRELNode → Prop :=
| g_comparison_one ts e : g_additive ts e → g_comparison ts e
| g_compare ts1 s op p ts2 l r :
    g_additive ts1 l → compare_of_symbol s = Some op → g_additive ts2 r →
    g_comparison (ts1 ++ T_symbol s p :: ts2) (NCompare op l r false)
with g_additive : list Token → IRELNode → Prop :=
| g_additive_one ts e : g_primary ts e → g_additive ts e
| g_add ts1 s op p ts2 l r :
    g_additive ts1 l → add_of_symbol s = Some op → g_primary ts2 r →
    g_additive (ts1 ++ T_symbol s p :: ts2) (NBinary op l r false)
with g_primary : list Token → IRELNode → Prop :=
| g_number v p : g_primary [T_number v p] (numeric_literal v (num_of_decimal v))
| g_minus v p q :
    g_primary [T_symbol s_minus p; T_number v q] (numeric_literal v (num_neg (num_of_decimal v)))
| g_string v p : g_primary [T_string v p] (NLiteral t_string (VStr v) false)
| g_boolean b p : g_primary [T_boolean b p] (NLiteral t_boolean (VBool b) false)
| g_null p : g_primary [T_null p] (NLiteral t_null VNull false)
| g_variable v p ts path :
    g_path ts path → g_primary (T_identifier v p :: ts) (NVariable (v :: path) false)
| g_call0 v p q r :
    g_primary [T_identifier v p; T_symbol s_lparen q; T_symbol s_rparen r] (NCall v [] false)
| g_call v p q ts args r :
    g_arg_list ts args →
    g_primary (T_identifier v p :: T_symbol s_lparen q :: ts ++ [T_symbol s_rparen r])
      (NCall v args false)
| g_group p ts e q :
    g_or_expr ts e →
    g_primary (T_symbol s_lparen p :: ts ++ [T_symbol s_rparen q]) (markGrouped e)
with g_arg_list : list Token → list IRELNode → Prop :=
| g_arg_one ts e : g_or_expr ts e → g_arg_list ts [e]
| g_arg_cons ts1 e p ts2 args :
    g_or_expr ts1 e → g_arg_list ts2 args →
    g_arg_list (ts1 ++ T_symbol s_comma p :: ts2) (e :: args).

Scheme g_or_mut := Minimality for g_or_expr Sort Prop
  with g_and_mut := Minimality for g_and_expr Sort Prop
  with g_not_mut := Minimality for g_not_expr Sort Prop
  with g_comparison_mut := Minimality for g_comparison Sort Prop
  with g_additive_mut := Minimality for g_additive Sort Prop
  with g_primary_mut := Minimality for g_primary Sort Prop
  with g_arg_list_mut := Minimality for g_arg_list Sort Prop.
Combined Scheme grammar_ind from g_or_mut, g_and_mut, g_not_mut, g_comparison_mut,
  g_additive_mut, g_primary_mut, g_arg_list_mut.

(** ** Helper lemmas *)

Lemma match_symbol_Some {A} (f : SymbolValue → option A) ts a p ts' :
  match_symbol f ts = Some (a, p, ts') ↔ ∃ s, ts = T_symbol s p :: ts' ∧ f s = Some a.
Proof.
  split.
  - destruct ts as [|[] ts]; simpl; try done. destruct (f value) eqn:E; [|done].
    intros [= -> -> ->]. eauto.
  - intros (s & -> & H). simpl. by rewrite H.
Qed.

Lemma only_Some s s' u : only s s' = Some u → s' = s.
Proof. unfold only. by case_decide. Qed.

Lemma match_only_Some s ts u p ts' :
  match_symbol (only s) ts = Some (u, p, ts') → ts = T_symbol s p :: ts'.
Proof. intros (s' & -> & ->%only_Some)%match_symbol_Some. done. Qed.

Lemma grammar_nonempty :
  (∀ ts e, g_or_expr ts e → ts ≠ []) ∧ (∀ ts e, g_and_expr ts e → ts ≠ []) ∧
  (∀ ts e, g_not_expr ts e → ts ≠ []) ∧ (∀ ts e, g_comparison ts e → ts ≠ []) ∧
  (∀ ts e, g_additive ts e → ts ≠ []) ∧ (∀ ts e, g_primary ts e → ts ≠ []) ∧
  (∀ ts l, g_arg_list ts l → ts ≠ []).
Proof. apply grammar_ind; intros; try done; by apply app_cons_not_nil || (by destruct ts1). Qed.

Section Soundness.
Context (source : string) (eof_pos : nat).
Abbreviation pOr := (parseOr source eof_pos).
Abbreviation pAnd := (parseAnd source eof_pos).
Abbreviation pNot := (parseNot source eof_pos).
Abbreviation pCmp := (parseComparison source eof_pos).
Abbreviation pAdd := (parseAdditive source eof_pos).
Abbreviation pPrim := (parsePrimary source eof_pos).

Lemma consume_Ok s m ts ts' :
  consume source eof_pos s m ts = Ok ts' → ∃ p, ts = T_symbol s p :: ts'.
Proof.
  unfold consume. destruct (match_symbol _ ts) as [[[u p] ts1]|] eqn:E; [|done].
  intros [= <-]. apply match_only_Some in E. eauto.
Qed.

Lemma pathLoop_sound k : ∀ ts path rest, length ts ≤ k →
  pathLoop source eof_pos ts = Ok (path, rest) → ∃ pre, ts = pre ++ rest ∧ g_path pre path.
Proof.
  assert (Hend : ∀ ts path rest, Ok (E:=perr) ([] : list string, ts) = Ok (path, rest) →
    ∃ pre, ts = pre ++ rest ∧ g_path pre path).
  { intros ts path rest [= <- ->]. exists []. split; [done|constructor]. }
  induction k as [|k IH]; intros ts path rest Hk H.
  { destruct ts; [|simpl in Hk; lia]. by apply Hend. }
  destruct ts as [|[| | | | |[] p|] ts]; try (by apply Hend in H).
  destruct ts as [|[v q| | | | | |] ts]; try done.
  apply result_bind_Ok in H as ([path' rest'] & H & [= <- ->]).
  apply IH in H as (pre & -> & Hg); [|simpl in Hk; lia].
  exists (T_symbol s_dot p :: T_identifier v q :: pre). split; [done|by constructor].
Qed.

(** Soundness of every method at a fuel. *)
Record sound_at (n : nat) : Prop := {
  snd_or : ∀ ts e rest, pOr n ts = Ok (e, rest) → ∃ pre, ts = pre ++ rest ∧ g_or_expr pre e;
  snd_orLoop : ∀ pre0 l ts e rest, g_or_expr pre0 l → orLoop source eof_pos n l ts = Ok (e, rest) →
    ∃ pre, ts = pre ++ rest ∧ g_or_expr (pre0 ++ pre) e;
  snd_and : ∀ ts e rest, pAnd n ts = Ok (e, rest) → ∃ pre, ts = pre ++ rest ∧ g_and_expr pre e;
  snd_andLoop : ∀ pre0 l ts e rest, g_and_expr pre0 l →
    andLoop source eof_pos n l ts = Ok (e, rest) →
    ∃ pre, ts = pre ++ rest ∧ g_and_expr (pre0 ++ pre) e;
  snd_not : ∀ ts e rest, pNot n ts = Ok (e, rest) → ∃ pre, ts = pre ++ rest ∧ g_not_expr pre e;
  snd_cmp : ∀ ts e rest, pCmp n ts = Ok (e, rest) → ∃ pre, ts = pre ++ rest ∧ g_comparison pre e;
  snd_add : ∀ ts e rest, pAdd n ts = Ok (e, rest) → ∃ pre, ts = pre ++ rest ∧ g_additive pre e;
  snd_addLoop : ∀ pre0 l ts e rest, g_additive pre0 l →
    addLoop source eof_pos n l ts = Ok (e, rest) →
    ∃ pre, ts = pre ++ rest ∧ g_additive (pre0 ++ pre) e;
  snd_prim : ∀ ts e rest, pPrim n ts = Ok (e, rest) → ∃ pre, ts = pre ++ rest ∧ g_primary pre e;
  snd_ident : ∀ ts e rest, parseIdentifierPrimary source eof_pos n ts = Ok (e, rest) →
    ∃ pre, ts = pre ++ rest ∧ g_primary pre e;
  snd_args : ∀ ts l rest, argsLoop source eof_pos n ts = Ok (l, rest) →
    ∃ pre, ts = pre ++ rest ∧ g_arg_list pre l }.
Arguments snd_or {n}. Arguments snd_orLoop {n}. Arguments snd_and {n}.
Arguments snd_andLoop {n}. Arguments snd_not {n}. Arguments snd_cmp {n}.
Arguments snd_add {n}. Arguments snd_addLoop {n}. Arguments snd_prim {n}.
Arguments snd_ident {n}. Arguments snd_args {n}.

(** [m ≫= f = Ok _] with [m] giving a pair. *)
Ltac bind_pair H x y Hm := apply result_bind_Ok in H as ([x y] & Hm & H).

Lemma orLoop_sound_S n : sound_at n → ∀ pre0 l ts e rest,
  g_or_expr pre0 l → orLoop source eof_pos (S n) l ts = Ok (e, rest) →
  ∃ pre, ts = pre ++ rest ∧ g_or_expr (pre0 ++ pre) e.
Proof.
  intros IH pre0 l ts e rest Hl H. simpl in H.
  destruct (match_symbol _ ts) as [[[u p] ts1]|] eqn:E.
  - apply match_only_Some in E as ->. destruct (isUngroupedLogical l op_and) eqn:E1; [done|].
    bind_pair H r ts2 Hr. apply (snd_and IH) in Hr as (pre1 & -> & Hr).
    destruct (isUngroupedLogical r op_and) eqn:E2; [done|].
    apply (snd_orLoop IH (pre0 ++ T_symbol s_or p :: pre1)) in H as (pre2 & -> & Hg);
      [|by constructor].
    exists (T_symbol s_or p :: pre1 ++ pre2). rewrite <- app_assoc in Hg.
    split; [simpl; by rewrite <- app_assoc|exact Hg].
  - injection H as <- <-. exists []. by rewrite app_nil_r.
Qed.

Lemma andLoop_sound_S n : sound_at n → ∀ pre0 l ts e rest,
  g_and_expr pre0 l → andLoop source eof_pos (S n) l ts = Ok (e, rest) →
  ∃ pre, ts = pre ++ rest ∧ g_and_expr (pre0 ++ pre) e.
Proof.
  intros IH pre0 l ts e rest Hl H. simpl in H.
  destruct (match_symbol _ ts) as [[[u p] ts1]|] eqn:E.
  - apply match_only_Some in E as ->.
    bind_pair H r ts2 Hr. apply (snd_not IH) in Hr as (pre1 & -> & Hr).
    apply (snd_andLoop IH (pre0 ++ T_symbol s_and p :: pre1)) in H as (pre2 & -> & Hg);
      [|by constructor].
    exists (T_symbol s_and p :: pre1 ++ pre2). rewrite <- app_assoc in Hg.
    split; [simpl; by rewrite <- app_assoc|exact Hg].
  - injection H as <- <-. exists []. by rewrite app_nil_r.
Qed.

Lemma addLoop_sound_S n : sound_at n → ∀ pre0 l ts e rest,
  g_additive pre0 l → addLoop source eof_pos (S n) l ts = Ok (e, rest) →
  ∃ pre, ts = pre ++ rest ∧ g_additive (pre0 ++ pre) e.
Proof.
  intros IH pre0 l ts e rest Hl H. simpl in H.
  destruct (match_symbol _ ts) as [[[op p] ts1]|] eqn:E.
  - apply match_symbol_Some in E as (s & -> & Hs).
    bind_pair H r ts2 Hr. apply (snd_prim IH) in Hr as (pre1 & -> & Hr).
    apply (snd_addLoop IH (pre0 ++ T_symbol s p :: pre1)) in H as (pre2 & -> & Hg);
      [|by econstructor].
    exists (T_symbol s p :: pre1 ++ pre2). rewrite <- app_assoc in Hg.
    split; [simpl; by rewrite <- app_assoc|exact Hg].
  - injection H as <- <-. exists []. by rewrite app_nil_r.
Qed.

Lemma comparison_sound_S n : sound_at n → ∀ ts e rest,
  pCmp (S n) ts = Ok (e, rest) → ∃ pre, ts = pre ++ rest ∧ g_comparison pre e.
Proof.
  intros IH ts e rest H. simpl in H. bind_pair H l ts1 Hl.
  apply (snd_add IH) in Hl as (pre1 & -> & Hl).
  destruct (match_symbol _ ts1) as [[[op p] ts2]|] eqn:E.
  - apply match_symbol_Some in E as (s & -> & Hs). bind_pair H r ts3 Hr.
    apply (snd_add IH) in Hr as (pre2 & -> & Hr).
    destruct (match_symbol _ ts3) as [[[? ?] ?]|]; [done|]. injection H as <- <-.
    exists (pre1 ++ T_symbol s p :: pre2). split; [by rewrite <- app_assoc|by econstructor].
  - injection H as <- <-. exists pre1. split; [done|by constructor].
Qed.

Lemma primary_sound_S n : sound_at n → ∀ ts e rest,
  pPrim (S n) ts = Ok (e, rest) → ∃ pre, ts = pre ++ rest ∧ g_primary pre e.
Proof.
  intros IH ts e rest H. cbn [parsePrimary] in H.
  destruct ts as [|[v p|v p|v p|b p|p|s p|p] ts]; try done.
  - by apply (snd_ident IH).
  - injection H as <- <-. exists [T_number v p]. split; [done|constructor].
  - injection H as <- <-. exists [T_string v p]. split; [done|constructor].
  - injection H as <- <-. exists [T_boolean b p]. split; [done|constructor].
  - injection H as <- <-. exists [T_null p]. split; [done|constructor].
  - destruct s; try done.
    + destruct ts as [|[| v q| | | | |] ts]; try done. injection H as <- <-.
      exists [T_symbol s_minus p; T_number v q]. split; [done|constructor].
    + bind_pair H e0 ts2 He. apply (snd_or IH) in He as (pre & -> & He).
      apply result_bind_Ok in H as (ts3 & [q ->]%consume_Ok & [= <- ->]).
      exists (T_symbol s_lparen p :: pre ++ [T_symbol s_rparen q]).
      split; [simpl; by rewrite <- app_assoc|by constructor].
Qed.

Lemma identifier_sound_S n : sound_at n → ∀ ts e rest,
  parseIdentifierPrimary source eof_pos (S n) ts = Ok (e, rest) →
  ∃ pre, ts = pre ++ rest ∧ g_primary pre e.
Proof.
  intros IH ts e rest H. cbn [parseIdentifierPrimary] in H. bind_pair H v ts1 Hv.
  destruct ts as [|[w p| | | | | |] ts]; try done. injection Hv as <- <-.
  destruct (match_symbol _ ts) as [[[u q] ts2]|] eqn:E.
  - apply match_only_Some in E as ->. bind_pair H args ts3 Ha.
    apply result_bind_Ok in H as (ts4 & [r ->]%consume_Ok & [= <- ->]).
    destruct (match_symbol _ ts2) as [x|] eqn:E2.
    + injection Ha as <- ->. exists [T_identifier w p; T_symbol s_lparen q; T_symbol s_rparen r].
      split; [done|constructor].
    + apply (snd_args IH) in Ha as (pre & -> & Ha).
      exists (T_identifier w p :: T_symbol s_lparen q :: pre ++ [T_symbol s_rparen r]).
      split; [simpl; by rewrite <- app_assoc|by constructor].
  - bind_pair H path ts2 Hp. injection H as <- <-.
    eapply pathLoop_sound in Hp as (pre & -> & Hg); [|done].
    exists (T_identifier w p :: pre). split; [done|by constructor].
Qed.

Lemma args_sound_S n : sound_at n → ∀ ts l rest,
  argsLoop source eof_pos (S n) ts = Ok (l, rest) → ∃ pre, ts = pre ++ rest ∧ g_arg_list pre l.
Proof.
  intros IH ts l rest H. simpl in H. bind_pair H e ts1 He.
  apply (snd_or IH) in He as (pre & -> & He).
  destruct (match_symbol _ ts1) as [[[u p] ts2]|] eqn:E.
  - apply match_only_Some in E as ->. bind_pair H args ts3 Ha.
    apply (snd_args IH) in Ha as (pre2 & -> & Ha). injection H as <- <-.
    exists (pre ++ T_symbol s_comma p :: pre2). split; [by rewrite <- app_assoc|by constructor].
  - injection H as <- <-. exists pre. split; [done|by constructor].
Qed.

Lemma parser_sound n : sound_at n.
Proof.
  induction n as [|n IH]; [by split|].
  split; eauto using orLoop_sound_S, andLoop_sound_S, addLoop_sound_S, comparison_sound_S,
    primary_sound_S, identifier_sound_S, args_sound_S.
  - intros ts e rest H. simpl in H. bind_pair H l ts1 Hl.
    apply (snd_and IH) in Hl as (pre1 & -> & Hl).
    apply (snd_orLoop IH pre1) in H as (pre2 & -> & ?); [|by constructor].
    exists (pre1 ++ pre2). split; [by rewrite <- app_assoc|done].
  - intros ts e rest H. simpl in H. bind_pair H l ts1 Hl.
    apply (snd_not IH) in Hl as (pre1 & -> & Hl).
    apply (snd_andLoop IH pre1) in H as (pre2 & -> & ?); [|by constructor].
    exists (pre1 ++ pre2). split; [by rewrite <- app_assoc|done].
  - intros ts e rest H. simpl in H.
    destruct (match_symbol _ ts) as [[[u p] ts1]|] eqn:E.
    + apply match_only_Some in E as ->. bind_pair H e0 ts2 He.
      apply (snd_cmp IH) in He as (pre & -> & He).
      destruct (isUngroupedCompare e0) eqn:Eu; [done|]. injection H as <- <-.
      exists (T_symbol s_not p :: pre). split; [done|by constructor].
    + apply (snd_cmp IH) in H as (pre & -> & He). exists pre. split; [done|by constructor].
  - intros ts e rest H. simpl in H. bind_pair H l ts1 Hl.
    apply (snd_prim IH) in Hl as (pre1 & -> & Hl).
    apply (snd_addLoop IH pre1) in H as (pre2 & -> & ?); [|by constructor].
    exists (pre1 ++ pre2). split; [by rewrite <- app_assoc|done].
Qed.
End Soundness.

(** ** Fuel: [8 * length + 8] is enough *)

Section Fuel.
Context (source : string) (eof_pos : nat).
Abbreviation no_fuel m := (m ≠ Err PFuel).

Lemma bind_no_fuel {A B} (m : pres A) (f : A * list Token → pres B) :
  no_fuel m → (∀ a ts, m = Ok (a, ts) → no_fuel (f (a, ts))) → no_fuel (m ≫= f).
Proof. destruct m as [[a ts]|e]; simpl; [by intros _ H; apply H|congruence]. Qed.

Lemma perror_no_fuel {A} pos msg : no_fuel (perror source pos msg : result perr A).
Proof. done. Qed.

Lemma consume_bind_no_fuel {B} s m ts (f : list Token → pres B) :
  (∀ ts', no_fuel (f ts')) → no_fuel (consume source eof_pos s m ts ≫= f).
Proof. intros Hf. unfold consume. by destruct (match_symbol _ ts) as [[[??]?]|]; simpl. Qed.

Lemma pathLoop_no_fuel k : ∀ ts, length ts ≤ k → no_fuel (pathLoop source eof_pos ts).
Proof.
  induction k as [|k IH]; intros ts Hk; [destruct ts; [done|simpl in Hk; lia]|].
  destruct ts as [|[| | | | |[] p|] ts]; try done. destruct ts as [|[v q| | | | | |] ts]; try done.
  simpl. apply bind_no_fuel; [apply IH; simpl in Hk; lia|done].
Qed.

Lemma app_shorter (pre rest : list Token) : pre ≠ [] → length rest < length (pre ++ rest).
Proof. destruct pre; [done|]. rewrite length_app. simpl. lia. Qed.

(** Each method consumes a token before it hands over. *)
Lemma shorter_or n ts e rest : parseOr source eof_pos n ts = Ok (e, rest) → length rest < length ts.
Proof. intros (pre & -> & Hg)%parser_sound. apply app_shorter. by apply grammar_nonempty in Hg. Qed.
Lemma shorter_and n ts e rest : parseAnd source eof_pos n ts = Ok (e, rest) → length rest < length ts.
Proof. intros (pre & -> & Hg)%parser_sound. apply app_shorter. by apply grammar_nonempty in Hg. Qed.
Lemma shorter_not n ts e rest : parseNot source eof_pos n ts = Ok (e, rest) → length rest < length ts.
Proof. intros (pre & -> & Hg)%parser_sound. apply app_shorter. by apply grammar_nonempty in Hg. Qed.
Lemma shorter_add n ts e rest : parseAdditive source eof_pos n ts = Ok (e, rest) → length rest < length ts.
Proof. intros (pre & -> & Hg)%parser_sound. apply app_shorter. by apply grammar_nonempty in Hg. Qed.
Lemma shorter_prim n ts e rest : parsePrimary source eof_pos n ts = Ok (e, rest) → length rest < length ts.
Proof. intros (pre & -> & Hg)%parser_sound. apply app_shorter. by apply grammar_nonempty in Hg. Qed.
Lemma match_symbol_shorter {A} (f : SymbolValue → option A) ts a p ts' :
  match_symbol f ts = Some (a, p, ts') → length ts = S (length ts').
Proof. intros (s & -> & _)%match_symbol_Some. done. Qed.

Record fuel_at (n : nat) : Prop := {
  fu_or : ∀ ts, 8 * length ts + 7 ≤ n → no_fuel (parseOr source eof_pos n ts);
  fu_orLoop : ∀ l ts, 8 * length ts + 1 ≤ n → no_fuel (orLoop source eof_pos n l ts);
  fu_and : ∀ ts, 8 * length ts + 6 ≤ n → no_fuel (parseAnd source eof_pos n ts);
  fu_andLoop : ∀ l ts, 8 * length ts + 1 ≤ n → no_fuel (andLoop source eof_pos n l ts);
  fu_not : ∀ ts, 8 * length ts + 5 ≤ n → no_fuel (parseNot source eof_pos n ts);
  fu_cmp : ∀ ts, 8 * length ts + 4 ≤ n → no_fuel (parseComparison source eof_pos n ts);
  fu_add : ∀ ts, 8 * length ts + 3 ≤ n → no_fuel (parseAdditive source eof_pos n ts);
  fu_addLoop : ∀ l ts, 8 * length ts + 1 ≤ n → no_fuel (addLoop source eof_pos n l ts);
  fu_prim : ∀ ts, 8 * length ts + 2 ≤ n → no_fuel (parsePrimary source eof_pos n ts);
  fu_ident : ∀ ts, 8 * length ts + 1 ≤ n → no_fuel (parseIdentifierPrimary source eof_pos n ts);
  fu_args : ∀ ts, 8 * length ts + 8 ≤ n → no_fuel (argsLoop source eof_pos n ts) }.
Arguments fu_or {n}. Arguments fu_orLoop {n}. Arguments fu_and {n}.
Arguments fu_andLoop {n}. Arguments fu_not {n}. Arguments fu_cmp {n}.
Arguments fu_add {n}. Arguments fu_addLoop {n}. Arguments fu_prim {n}.
Arguments fu_ident {n}. Arguments fu_args {n}.

Ltac lengths :=
  repeat match goal with
         | H : match_symbol _ _ = Some _ |- _ => apply match_symbol_shorter in H
         | H : parseOr _ _ _ _ = Ok _ |- _ => apply shorter_or in H
         | H : parseAnd _ _ _ _ = Ok _ |- _ => apply shorter_and in H
         | H : parseNot _ _ _ _ = Ok _ |- _ => apply shorter_not in H
         | H : parseAdditive _ _ _ _ = Ok _ |- _ => apply shorter_add in H
         | H : parsePrimary _ _ _ _ = Ok _ |- _ => apply shorter_prim in H
         end; simpl in *; lia.
Ltac matched := match goal with
  | |- context [match_symbol ?f ?ts] => destruct (match_symbol f ts) as [[[? ?] ?]|] eqn:?
  end.

Lemma primary_fuel_S n : fuel_at n → ∀ ts, 8 * length ts + 2 ≤ S n →
  no_fuel (parsePrimary source eof_pos (S n) ts).
Proof.
  intros IH ts Hn. cbn [parsePrimary].
  destruct ts as [|[v p|v p|v p|b p|p|[] p|p] ts]; try done.
  - apply (fu_ident IH). lengths.
  - by destruct ts as [|[] ts].
  - apply bind_no_fuel; [apply (fu_or IH); lengths|]. intros a ts1 _.
    by apply consume_bind_no_fuel.
Qed.

Lemma identifier_fuel_S n : fuel_at n → ∀ ts, 8 * length ts + 1 ≤ S n →
  no_fuel (parseIdentifierPrimary source eof_pos (S n) ts).
Proof.
  intros IH ts Hn. cbn [parseIdentifierPrimary].
  destruct ts as [|[v p| | | | | |] ts]; try done. simpl. matched.
  - apply bind_no_fuel; [matched; [done|apply (fu_args IH); lengths]|].
    intros a ts1 _. by apply consume_bind_no_fuel.
  - apply bind_no_fuel; [by eapply pathLoop_no_fuel|done].
Qed.

Lemma parser_fuel n : fuel_at n.
Proof.
  induction n as [|n IH]; [split; intros; lia|].
  split; eauto using primary_fuel_S, identifier_fuel_S; intros; simpl.
  - apply bind_no_fuel; [apply (fu_and IH); lengths|]. intros a ts1 H1. apply (fu_orLoop IH). lengths.
  - matched; [|done]. destruct (isUngroupedLogical l op_and); [done|].
    apply bind_no_fuel; [apply (fu_and IH); lengths|]. intros r ts2 H2.
    destruct (isUngroupedLogical r op_and); [done|]. apply (fu_orLoop IH). lengths.
  - apply bind_no_fuel; [apply (fu_not IH); lengths|]. intros a ts1 H1. apply (fu_andLoop IH). lengths.
  - matched; [|done].
    apply bind_no_fuel; [apply (fu_not IH); lengths|]. intros r ts2 H2. apply (fu_andLoop IH). lengths.
  - matched; [|apply (fu_cmp IH); lengths].
    apply bind_no_fuel; [apply (fu_cmp IH); lengths|]. intros r ts2 H2.
    by destruct (isUngroupedCompare r).
  - apply bind_no_fuel; [apply (fu_add IH); lengths|]. intros a ts1 H1. matched; [|done].
    apply bind_no_fuel; [apply (fu_add IH); lengths|]. intros r ts2 H2. by matched.
  - apply bind_no_fuel; [apply (fu_prim IH); lengths|]. intros a ts1 H1. apply (fu_addLoop IH). lengths.
  - matched; [|done].
    apply bind_no_fuel; [apply (fu_prim IH); lengths|]. intros r ts2 H2. apply (fu_addLoop IH). lengths.
  - apply bind_no_fuel; [apply (fu_or IH); lengths|]. intros a ts1 H1. matched; [|done].
    apply bind_no_fuel; [apply (fu_args IH); lengths|done].
Qed.

Lemma parse_enough_fuel ts : no_fuel (parse source eof_pos ts).
Proof.
  unfold parse. assert (H := fu_or (parser_fuel (parse_fuel ts)) ts).
  destruct (parseOr _ _ _ ts) as [[e rest]|err]; simpl in *.
  - destruct (peek eof_pos rest); done.
  - intros [= ->]. apply H; [unfold parse_fuel; lia|done].
Qed.
End Fuel.

(** ** Completeness *)

(** The first token is not one of the given symbols. *)
Definition follow (l : list SymbolValue) (rest : list Token) : Prop :=
  match rest with T_symbol s _ :: _ => s ∉ l | _ => True end.

Definition F_prim := [s_dot; s_lparen].
Definition F_add := s_plus :: s_minus :: F_prim.
Definition F_cmp := s_eq :: s_ne :: s_gt :: s_ge :: s_lt :: s_le :: F_add.
Definition F_and := s_and :: F_cmp.
Definition F_or := s_or :: F_and.
Definition F_arg := s_comma :: F_or.

Lemma follow_weaken l l' rest : l ⊆ l' → follow l' rest → follow l rest.
Proof. unfold follow. destruct rest as [|[] rest]; set_solver. Qed.

Lemma follow_no_match {A} (f : SymbolValue → option A) l rest :
  (∀ s a, f s = Some a → s ∈ l) → follow l rest → match_symbol f rest = None.
Proof.
  intros Hf Hr. destruct (match_symbol f rest) as [[[a p] ts]|] eqn:E; [|done].
  apply match_symbol_Some in E as (s & -> & H). destruct Hr. eauto.
Qed.

Lemma compare_in_F s op : compare_of_symbol s = Some op → s ∈ F_cmp.
Proof. destruct s; simpl; try done; intros _; unfold F_cmp; set_solver. Qed.
Lemma add_in_F s op : add_of_symbol s = Some op → s ∈ F_add.
Proof. destruct s; simpl; try done; intros _; unfold F_add; set_solver. Qed.

(** First symbols of the syntactic categories. *)
Definition begins (l : list SymbolValue) (ts : list Token) : Prop :=
  match ts with T_symbol s _ :: _ => s ∈ l | [] => False | _ => True end.

Lemma begins_app l ts ts' : begins l ts → begins l (ts ++ ts').
Proof. destruct ts as [|[] ts]; done. Qed.

Lemma begins_not s l ts : s ∉ l → begins l ts → match_symbol (only s) ts = None.
Proof.
  intros Hs. destruct ts as [|[] ts]; simpl; try done. unfold only. case_decide; [by subst|done].
Qed.

Definition B_cmp := [s_minus; s_lparen].
Definition B_or := s_not :: B_cmp.

Lemma grammar_begins :
  (∀ ts e, g_or_expr ts e → begins B_or ts) ∧ (∀ ts e, g_and_expr ts e → begins B_or ts) ∧
  (∀ ts e, g_not_expr ts e → begins B_or ts) ∧ (∀ ts e, g_comparison ts e → begins B_cmp ts) ∧
  (∀ ts e, g_additive ts e → begins B_cmp ts) ∧ (∀ ts e, g_primary ts e → begins B_cmp ts) ∧
  (∀ ts l, g_arg_list ts l → begins B_or ts).
Proof.
  apply grammar_ind; intros; eauto using begins_app; simpl; unfold B_or, B_cmp in *;
    try done; try set_solver.
  destruct ts as [|[] ts]; simpl in *; try done. set_solver.
Qed.

Section Completeness.
Context (source : string) (eof_pos : nat).

(** The value [v], unless the fuel ran out. *)
Definition gives {A} (m : pres A) (v : pres A) : Prop := m = Err PFuel ∨ m = v.

Lemma gives_bind {A B} (m : pres A) a ts (f : A * list Token → pres B) v :
  gives m (Ok (a, ts)) → gives (f (a, ts)) v → gives (m ≫= f) v.
Proof. intros [->| ->] H; [by left|exact H]. Qed.

Lemma addLoop_stop m e rest : follow F_add rest →
  gives (addLoop source eof_pos m e rest) (Ok (e, rest)).
Proof.
  destruct m; [by left|]. right. simpl.
  by rewrite (follow_no_match _ F_add) by eauto using add_in_F.
Qed.
Lemma andLoop_stop m e rest : follow F_and rest →
  gives (andLoop source eof_pos m e rest) (Ok (e, rest)).
Proof.
  destruct m; [by left|]. right. simpl. rewrite (follow_no_match _ F_and); [done| |done].
  intros s u ->%only_Some. unfold F_and. set_solver.
Qed.
Lemma orLoop_stop m e rest : follow F_or rest →
  gives (orLoop source eof_pos m e rest) (Ok (e, rest)).
Proof.
  destruct m; [by left|]. right. simpl. rewrite (follow_no_match _ F_or); [done| |done].
  intros s u ->%only_Some. unfold F_or. set_solver.
Qed.

Definition C_prim ts e := ∀ n rest, follow F_prim rest →
  gives (parsePrimary source eof_pos n (ts ++ rest)) (Ok (e, rest)).
Definition C_add ts e := ∀ n rest, follow F_prim rest →
  ∃ m, gives (parseAdditive source eof_pos n (ts ++ rest)) (addLoop source eof_pos m e rest).
Definition C_cmp ts e := ∀ n rest, follow F_cmp rest →
  gives (parseComparison source eof_pos n (ts ++ rest)) (Ok (e, rest)).
Definition C_not ts e := ∀ n rest, follow F_cmp rest →
  gives (parseNot source eof_pos n (ts ++ rest)) (Ok (e, rest)).
Definition C_and ts e := ∀ n rest, follow F_cmp rest →
  ∃ m, gives (parseAnd source eof_pos n (ts ++ rest)) (andLoop source eof_pos m e rest).
Definition C_or ts e := ∀ n rest, follow F_and rest →
  ∃ m, gives (parseOr source eof_pos n (ts ++ rest)) (orLoop source eof_pos m e rest).
Definition C_args ts l := ∀ n rest, follow F_arg rest →
  gives (argsLoop source eof_pos n (ts ++ rest)) (Ok (l, rest)).

Lemma gives_trans {A} (m1 m2 v : pres A) : gives m1 m2 → gives m2 v → gives m1 v.
Proof. intros [->| ->] H; [by left|exact H]. Qed.

Lemma C_add_stop ts e n rest : C_add ts e → follow F_add rest →
  gives (parseAdditive source eof_pos n (ts ++ rest)) (Ok (e, rest)).
Proof.
  intros H Hr. destruct (H n rest) as [m Hm].
  { eapply follow_weaken; [|done]. unfold F_add. set_solver. }
  eapply gives_trans; [done|by apply addLoop_stop].
Qed.
Lemma C_and_stop ts e n rest : C_and ts e → follow F_and rest →
  gives (parseAnd source eof_pos n (ts ++ rest)) (Ok (e, rest)).
Proof.
  intros H Hr. destruct (H n rest) as [m Hm].
  { eapply follow_weaken; [|done]. unfold F_and. set_solver. }
  eapply gives_trans; [done|by apply andLoop_stop].
Qed.
Lemma C_or_stop ts e n rest : C_or ts e → follow F_or rest →
  gives (parseOr source eof_pos n (ts ++ rest)) (Ok (e, rest)).
Proof.
  intros H Hr. destruct (H n rest) as [m Hm].
  { eapply follow_weaken; [|done]. unfold F_or. set_solver. }
  eapply gives_trans; [done|by apply orLoop_stop].
Qed.

Lemma bind_gives {A B} (m m' : pres A) (f : A * list Token → pres B) v :
  gives m m' → gives (m' ≫= f) v → gives (m ≫= f) v.
Proof. intros [->| ->] H; [by left|exact H]. Qed.

Lemma follow_sym s p ts l : s ∉ l → follow l (T_symbol s p :: ts).
Proof. done. Qed.

Ltac not_in := unfold F_arg, F_or, F_and, F_cmp, F_add, F_prim; set_solver.

Lemma complete_or ts1 p ts2 l r : C_or ts1 l → C_and ts2 r →
  isUngroupedLogical l op_and = false → isUngroupedLogical r op_and = false →
  C_or (ts1 ++ T_symbol s_or p :: ts2) (NLogical op_or l r false).
Proof.
  intros H1 H2 Hl Hr n rest Hf. rewrite <- app_assoc. simpl.
  destruct (H1 n (T_symbol s_or p :: ts2 ++ rest)) as [m Hm]; [apply follow_sym; not_in|].
  destruct m as [|m]; [exists 0; eapply gives_trans; [done|by left]|].
  exists m. eapply gives_trans; [done|]. simpl. rewrite Hl.
  eapply gives_bind; [by apply C_and_stop|]. simpl. rewrite Hr. by right.
Qed.

Lemma complete_and ts1 p ts2 l r : C_and ts1 l → C_not ts2 r →
  C_and (ts1 ++ T_symbol s_and p :: ts2) (NLogical op_and l r false).
Proof.
  intros H1 H2 n rest Hf. rewrite <- app_assoc. simpl.
  destruct (H1 n (T_symbol s_and p :: ts2 ++ rest)) as [m Hm]; [apply follow_sym; not_in|].
  destruct m as [|m]; [exists 0; eapply gives_trans; [done|by left]|].
  exists m. eapply gives_trans; [done|]. simpl.
  eapply gives_bind; [by apply H2|]. by right.
Qed.

Lemma complete_add ts1 s op p ts2 l r : C_add ts1 l → add_of_symbol s = Some op → C_prim ts2 r →
  C_add (ts1 ++ T_symbol s p :: ts2) (NBinary op l r false).
Proof.
  intros H1 Hs H2 n rest Hf. rewrite <- app_assoc. simpl.
  destruct (H1 n (T_symbol s p :: ts2 ++ rest)) as [m Hm].
  { apply follow_sym. destruct s; try done; not_in. }
  destruct m as [|m]; [exists 0; eapply gives_trans; [done|by left]|].
  exists m. eapply gives_trans; [done|]. simpl. rewrite Hs.
  eapply gives_bind; [by apply H2|]. by right.
Qed.

Lemma complete_or_one ts e : C_and ts e → C_or ts e.
Proof.
  intros H n rest Hf. destruct n as [|n]; [exists 0; by left|]. exists n. simpl.
  eapply gives_bind; [by apply C_and_stop|]. by right.
Qed.
Lemma complete_and_one ts e : C_not ts e → C_and ts e.
Proof.
  intros H n rest Hf. destruct n as [|n]; [exists 0; by left|]. exists n. simpl.
  eapply gives_bind; [by apply H|]. by right.
Qed.
Lemma complete_add_one ts e : C_prim ts e → C_add ts e.
Proof.
  intros H n rest Hf. destruct n as [|n]; [exists 0; by left|]. exists n. simpl.
  eapply gives_bind; [by apply H|]. by right.
Qed.

Lemma complete_not_one ts e : g_comparison ts e → C_cmp ts e → C_not ts e.
Proof.
  intros Hg H n rest Hf. destruct n as [|n]; [by left|]. simpl.
  apply grammar_begins in Hg. rewrite (begins_not _ B_cmp); [by apply H| |by apply begins_app].
  unfold B_cmp. set_solver.
Qed.
Lemma complete_not p ts e : C_cmp ts e → isUngroupedCompare e = false →
  C_not (T_symbol s_not p :: ts) (NUnary e false).
Proof.
  intros H He n rest Hf. destruct n as [|n]; [by left|]. simpl.
  eapply gives_bind; [by apply H|]. simpl. rewrite He. by right.
Qed.

Lemma complete_cmp_one ts e : C_add ts e → C_cmp ts e.
Proof.
  intros H n rest Hf. destruct n as [|n]; [by left|]. simpl.
  eapply gives_bind; [apply C_add_stop; [done|]|].
  - eapply follow_weaken; [|done]. not_in.
  - simpl. rewrite (follow_no_match _ F_cmp) by eauto using compare_in_F. by right.
Qed.
Lemma complete_compare ts1 s op p ts2 l r : C_add ts1 l → compare_of_symbol s = Some op →
  C_add ts2 r → C_cmp (ts1 ++ T_symbol s p :: ts2) (NCompare op l r false).
Proof.
  intros H1 Hs H2 n rest Hf. destruct n as [|n]; [by left|]. rewrite <- app_assoc. simpl.
  eapply gives_bind; [apply C_add_stop; [done|]|].
  { apply follow_sym. destruct s; try done; not_in. }
  simpl. rewrite Hs. eapply gives_bind; [apply C_add_stop; [done|]|].
  { eapply follow_weaken; [|done]. not_in. }
  simpl. rewrite (follow_no_match _ F_cmp) by eauto using compare_in_F. by right.
Qed.

Lemma pathLoop_complete ts path rest : g_path ts path → follow F_prim rest →
  pathLoop source eof_pos (ts ++ rest) = Ok (path, rest).
Proof.
  induction 1 as [|p q v ts path Hg IH]; intros Hf; simpl.
  - destruct rest as [|[| | | | |[] ?|] rest]; try done. destruct Hf. not_in.
  - by rewrite (IH Hf).
Qed.

Lemma complete_variable v p ts path : g_path ts path →
  C_prim (T_identifier v p :: ts) (NVariable (v :: path) false).
Proof.
  intros Hg [|[|n]] rest Hf; [by left..|]. right. simpl.
  assert (E : match_symbol (only s_lparen) (ts ++ rest) = None).
  { destruct Hg; [|done]. apply (follow_no_match _ F_prim); [|done].
    intros s u ->%only_Some. not_in. }
  rewrite E. by erewrite pathLoop_complete.
Qed.

Lemma complete_call v p q ts args r : g_arg_list ts args → C_args ts args →
  C_prim (T_identifier v p :: T_symbol s_lparen q :: ts ++ [T_symbol s_rparen r])
    (NCall v args false).
Proof.
  intros Hg H [|[|n]] rest Hf; [by left..|]. simpl.
  rewrite <- app_assoc. simpl. apply grammar_begins in Hg.
  rewrite (begins_not _ B_or); [|unfold B_or, B_cmp; set_solver|by apply begins_app].
  eapply gives_bind; [apply H; apply follow_sym; not_in|]. by right.
Qed.

Lemma complete_group p ts e q : C_or ts e →
  C_prim (T_symbol s_lparen p :: ts ++ [T_symbol s_rparen q]) (markGrouped e).
Proof.
  intros H [|n] rest Hf; [by left|]. simpl. rewrite <- app_assoc. simpl.
  eapply gives_bind; [apply C_or_stop; [done|apply follow_sym; not_in]|]. by right.
Qed.

Lemma complete_arg_one ts e : C_or ts e → C_args ts [e].
Proof.
  intros H [|n] rest Hf; [by left|]. simpl.
  eapply gives_bind; [apply C_or_stop; [done|]|].
  - eapply follow_weaken; [|done]. not_in.
  - simpl. rewrite (follow_no_match _ F_arg); [by right| |done].
    intros s u ->%only_Some. not_in.
Qed.
Lemma complete_arg_cons ts1 e p ts2 args : C_or ts1 e → C_args ts2 args →
  C_args (ts1 ++ T_symbol s_comma p :: ts2) (e :: args).
Proof.
  intros H1 H2 [|n] rest Hf; [by left|]. simpl. rewrite <- app_assoc. simpl.
  eapply gives_bind; [apply C_or_stop; [done|apply follow_sym; not_in]|]. simpl.
  eapply gives_bind; [by apply H2|]. by right.
Qed.

Lemma parser_complete :
  (∀ ts e, g_or_expr ts e → C_or ts e) ∧ (∀ ts e, g_and_expr ts e → C_and ts e) ∧
  (∀ ts e, g_not_expr ts e → C_not ts e) ∧ (∀ ts e, g_comparison ts e → C_cmp ts e) ∧
  (∀ ts e, g_additive ts e → C_add ts e) ∧ (∀ ts e, g_primary ts e → C_prim ts e) ∧
  (∀ ts l, g_arg_list ts l → C_args ts l).
Proof.
  apply grammar_ind; eauto using complete_or, complete_and, complete_add, complete_or_one,
    complete_and_one, complete_add_one, complete_not_one, complete_not, complete_cmp_one,
    complete_compare, complete_variable, complete_call, complete_group, complete_arg_one,
    complete_arg_cons.
  1-5: intros; intros [|n] rest Hf; [by left|by right].
  intros v p q r [|[|n]] rest Hf; [by left..|by right].
Qed.
End Completeness.

(** ** Facts on the grammar *)

Definition is_eof (t : Token) : bool := match t with T_eof _ => true | _ => false end.
Abbreviation no_eof ts := (Forall (λ t, is_eof t = false) ts).

Lemma g_path_no_eof ts path : g_path ts path → no_eof ts.
Proof. induction 1; repeat constructor; done. Qed.

Lemma grammar_no_eof :
  (∀ ts e, g_or_expr ts e → no_eof ts) ∧ (∀ ts e, g_and_expr ts e → no_eof ts) ∧
  (∀ ts e, g_not_expr ts e → no_eof ts) ∧ (∀ ts e, g_comparison ts e → no_eof ts) ∧
  (∀ ts e, g_additive ts e → no_eof ts) ∧ (∀ ts e, g_primary ts e → no_eof ts) ∧
  (∀ ts l, g_arg_list ts l → no_eof ts).
Proof.
  apply grammar_ind; intros; try done; rewrite ?Forall_cons, ?Forall_app, ?Forall_cons;
    eauto 8 using g_path_no_eof.
Qed.

(** Positions do not matter. *)
Abbreviation same_tokens ts ts' := (map erase_pos ts = map erase_pos ts').

Lemma same_cons t ts ts' : same_tokens ts' (t :: ts) →
  ∃ t' ts1, ts' = t' :: ts1 ∧ erase_pos t' = erase_pos t ∧ same_tokens ts1 ts.
Proof. destruct ts' as [|t' ts1]; [done|]. intros [= E H]. eauto. Qed.

Lemma same_app ts1 ts2 ts' : same_tokens ts' (ts1 ++ ts2) →
  ∃ a b, ts' = a ++ b ∧ same_tokens a ts1 ∧ same_tokens b ts2.
Proof. rewrite map_app. intros (a & b & -> & Ha & Hb)%map_eq_app. eauto. Qed.

Lemma erase_symbol t s p : erase_pos t = erase_pos (T_symbol s p) → ∃ q, t = T_symbol s q.
Proof. destruct t; try done. intros [= ->]. eauto. Qed.
Lemma erase_identifier t v p : erase_pos t = erase_pos (T_identifier v p) → ∃ q, t = T_identifier v q.
Proof. destruct t; try done. intros [= ->]. eauto. Qed.

Ltac inv_same :=
  repeat match goal with
    | H : same_tokens ?x [] |- _ => apply map_eq_nil in H; subst x
    | H : same_tokens _ (_ :: _) |- _ => apply same_cons in H as (? & ? & -> & ? & ?)
    | H : same_tokens _ (_ ++ _) |- _ => apply same_app in H as (? & ? & -> & ? & ?)
    | H : erase_pos _ = erase_pos (T_symbol _ _) |- _ => apply erase_symbol in H as [? ->]
    | H : erase_pos _ = erase_pos (T_identifier _ _) |- _ => apply erase_identifier in H as [? ->]
    end.

Lemma g_path_erase ts path : g_path ts path → ∀ ts', same_tokens ts' ts → g_path ts' path.
Proof. induction 1; intros ts' E; inv_same; constructor; eauto. Qed.

Lemma grammar_erase :
  (∀ ts e, g_or_expr ts e → ∀ ts', same_tokens ts' ts → g_or_expr ts' e) ∧
  (∀ ts e, g_and_expr ts e → ∀ ts', same_tokens ts' ts → g_and_expr ts' e) ∧
  (∀ ts e, g_not_expr ts e → ∀ ts', same_tokens ts' ts → g_not_expr ts' e) ∧
  (∀ ts e, g_comparison ts e → ∀ ts', same_tokens ts' ts → g_comparison ts' e) ∧
  (∀ ts e, g_additive ts e → ∀ ts', same_tokens ts' ts → g_additive ts' e) ∧
  (∀ ts e, g_primary ts e → ∀ ts', same_tokens ts' ts → g_primary ts' e) ∧
  (∀ ts l, g_arg_list ts l → ∀ ts', same_tokens ts' ts → g_arg_list ts' l).
Proof.
  apply grammar_ind; intros; inv_same; try (econstructor; eauto using g_path_erase; fail).
  all: match goal with H : erase_pos ?t = _ |- _ => destruct t; try discriminate H end;
       simpl in *; simplify_eq; constructor.
Qed.

(** ** Errors are located parse diagnostics *)

Section Errors.
Context (source : string) (eof_pos : nat).

Definition located {A} (m : result perr A) : Prop :=
  match m with Err (PE d) => ∃ pos msg, d = parseDiagnostic source pos msg | _ => True end.

Lemma located_bind {A B} (m : result perr A) (f : A → result perr B) :
  located m → (∀ a, located (f a)) → located (m ≫= f).
Proof. destruct m as [a|[]]; simpl; auto. Qed.

Lemma located_perror {A} pos msg : located (perror source pos msg : result perr A).
Proof. simpl. eauto. Qed.

Lemma located_consume s msg ts : located (consume source eof_pos s msg ts).
Proof. unfold consume. destruct (match_symbol _ ts) as [[[??]?]|]; [done|apply located_perror]. Qed.

Lemma located_pathLoop k : ∀ ts, length ts ≤ k → located (pathLoop source eof_pos ts).
Proof.
  induction k as [|k IH]; intros ts Hk; [destruct ts; [done|simpl in Hk; lia]|].
  destruct ts as [|[| | | | |[] p|] ts]; try done.
  destruct ts as [|[v q| | | | | |] ts]; try apply located_perror.
  simpl. apply located_bind; [apply IH; simpl in Hk; lia|by intros [? ?]].
Qed.

Ltac locate_step := repeat first
  [ done | apply located_perror | apply located_consume | eapply located_pathLoop; reflexivity
  | solve [eauto]
  | apply located_bind; [|intros ?]
  | match goal with |- located (match ?x with _ => _ end) => destruct x end ].

Lemma parser_located n :
  (∀ ts, located (parseOr source eof_pos n ts)) ∧ (∀ l ts, located (orLoop source eof_pos n l ts)) ∧
  (∀ ts, located (parseAnd source eof_pos n ts)) ∧ (∀ l ts, located (andLoop source eof_pos n l ts)) ∧
  (∀ ts, located (parseNot source eof_pos n ts)) ∧
  (∀ ts, located (parseComparison source eof_pos n ts)) ∧
  (∀ ts, located (parseAdditive source eof_pos n ts)) ∧
  (∀ l ts, located (addLoop source eof_pos n l ts)) ∧
  (∀ ts, located (parsePrimary source eof_pos n ts)) ∧
  (∀ ts, located (parseIdentifierPrimary source eof_pos n ts)) ∧
  (∀ ts, located (argsLoop source eof_pos n ts)).
Proof.
  induction n as [|n IH]; [split_and!; intros; exact I|]. destruct_and! IH.
  split_and!; intros; simpl; unfold consumeIdentifier; locate_step.
Qed.

Lemma parse_located ts : located (parse source eof_pos ts).
Proof.
  unfold parse. apply located_bind; [apply parser_located|]. intros [e rest].
  destruct (peek eof_pos rest); done || apply located_perror.
Qed.
End Errors.

Lemma lex_at_error input s i d : lex_at input s i = L_error d → ∃ pos msg, d = parseDiagnostic input pos msg.
Proof.
  unfold lex_at. intros H. repeat (case_match; try discriminate H); injection H as <-; eauto.
Qed.

Lemma tokenize_from_error input s : ∀ k i d, tokenize_from input s k i = Err d →
  ∃ pos msg, d = parseDiagnostic input pos msg.
Proof.
  induction s as [|c s IH]; intros k i d; [done|]. cbn [tokenize_from].
  destruct k; [|apply IH]. destruct (lex_at input _ i) eqn:E; [apply IH| |].
  - intros [H|(? & _ & ?)]%result_bind_Err; [by eapply IH|done].
  - intros [= <-]. by apply lex_at_error in E.
Qed.

Lemma laid_out_no_eof s i ts : laid_out s i ts → no_eof ts.
Proof. induction 1 as [|ws t rest i ts H1 Hv]; constructor; [by destruct t|done]. Qed.

(** ** Properties *)

Lemma parse_complete_tokens source eof_pos ts p e :
  g_or_expr ts e → parse source eof_pos (ts ++ [T_eof p]) = Ok e.
Proof.
  intros Hg. assert (Hf := parse_enough_fuel source eof_pos (ts ++ [T_eof p])).
  unfold parse in *. set (n := parse_fuel _) in *.
  destruct (C_or_stop source eof_pos ts e n [T_eof p]) as [H|H]; try rewrite H in *; try done.
  by apply parser_complete.
Qed.

Lemma parse_sound_tokens source eof_pos ts p e : no_eof ts →
  parse source eof_pos (ts ++ [T_eof p]) = Ok e → g_or_expr ts e.
Proof.
  intros Hts. unfold parse. intros ([ast rest] & (pre & E & Hg)%parser_sound & H)%result_bind_Ok.
  assert (Hpre : no_eof pre) by (by apply grammar_no_eof in Hg).
  simpl in H. destruct rest as [|t rest]; simpl in H.
  - rewrite app_nil_r in E. subst pre. apply Forall_app in Hpre as [_ Hp].
    by apply Forall_cons in Hp as [? _].
  - destruct t; try done. injection H as ->.
    assert (ts = pre) as ->; [|done]. clear Hg.
    revert pre Hpre E. induction Hts as [|t ts Ht Hts IH]; intros pre Hpre E.
    + destruct pre as [|t' pre]; [done|]. injection E as <- _. by apply Forall_cons in Hpre as [? _].
    + destruct pre as [|t' pre]; [injection E as -> _; done|].
      injection E as <- E. apply Forall_cons in Hpre as [_ Hpre]. f_equal. by apply IH.
Qed.

(** C23. The parser accepts exactly the documented language: a token list (as
    the tokenizer delivers it, one end-of-input token last) is parsed to the
    tree [e] if and only if the grammar of [ir-expression.md] derives [e] from
    the tokens, the parenthesis rule for [!] and for mixed [&&] / [||]
    included; hence trailing input and ambiguous mixes are always refused, and
    the tree is unique. *)
Theorem parse_iff_grammar source eof_pos ts p e :
  no_eof ts →
  parse source eof_pos (ts ++ [T_eof p]) = Ok e ↔ g_or_expr ts e.
Proof.
  intros Hts. split; [by apply parse_sound_tokens|apply parse_complete_tokens].
Qed.

Lemma parse_iff_grammar_witness :
  parse "!a" 2 ([T_symbol s_not 0; T_identifier "a" 1] ++ [T_eof 2]) =
    Ok (NUnary (NVariable ["a"] false) false) ↔
  g_or_expr [T_symbol s_not 0; T_identifier "a" 1] (NUnary (NVariable ["a"] false) false).
Proof. apply parse_iff_grammar. repeat constructor. Defined.

Lemma parseIrel_derivation input e : parseIrelExpression input = Ok e →
  ∃ ts, laid_out input 0 ts ∧ g_or_expr ts e.
Proof.
  unfold parseIrelExpression. destruct (tokenize input) as [ts|d] eqn:Et; [|done].
  destruct (tokenize_from_sound input (String.length input) input 0 ts) as (ts0 & -> & Hl); [done..|].
  intros E. exists ts0. split; [done|].
  eapply parse_sound_tokens; [by eapply laid_out_no_eof|done].
Qed.

Lemma parseIrel_error input err : parseIrelExpression input = Err err →
  ∃ d, err = PE d ∧ d_code d = IREL_PARSE_ERROR ∧
       ∃ l, d_location d = Some l ∧ loc_offset l ≤ String.length input.
Proof.
  intros H. assert (∃ pos msg, err = PE (parseDiagnostic input pos msg)) as (pos & msg & ->).
  { unfold parseIrelExpression in H. destruct (tokenize input) as [ts|d] eqn:Et.
    - assert (Hloc := parse_located input (last_pos ts) ts).
      assert (Hfuel := parse_enough_fuel input (last_pos ts) ts).
      rewrite H in Hloc, Hfuel. destruct err; [|done]. destruct Hloc as (pos & msg & ->). eauto.
    - injection H as <-. apply tokenize_from_error in Et as (pos & msg & ->). eauto. }
  eexists. split; [done|]. split; [done|]. eexists. split; [reflexivity|].
  unfold sourceLocation. destruct (locate _ _ _ _). simpl. lia.
Qed.

(** [parseIrelExpression] is total: on every input the descent ends (the
    fuel is never exhausted) with a tree or a diagnostic.  An accepted input is
    laid out as the tokens of a derivation of the tree, at their positions and
    with nothing else but blanks; a refusal is an [IREL_PARSE_ERROR] whose
    location is an offset of the input. *)
Theorem parseIrelExpression_total input :
  match parseIrelExpression input with
  | Ok e => ∃ ts, laid_out input 0 ts ∧ g_or_expr ts e
  | Err (PE d) => d_code d = IREL_PARSE_ERROR ∧
                  ∃ l, d_location d = Some l ∧ loc_offset l ≤ String.length input
  | Err PFuel => False
  end.
Proof.
  destruct (parseIrelExpression input) as [e|err] eqn:E; [by apply parseIrel_derivation|].
  apply parseIrel_error in E as (d & -> & H). exact H.
Qed.

(** Print / parse round trip: the text of any derivation of the grammar
    (legal tokens with single spaces between them) is parsed back to its
    syntax tree. *)
Theorem parse_render ts e :
  g_or_expr ts e → Forall (λ t, token_valid t = true) ts →
  parseIrelExpression (render ts) = Ok e.
Proof.
  intros Hg Hv. destruct (tokenize_from_render (render ts) ts Hv 0) as (ts' & E & Hts).
  unfold parseIrelExpression, tokenize. rewrite E. apply parse_complete_tokens.
  by eapply grammar_erase.
Qed.

Lemma parse_render_witness :
  parseIrelExpression (render [T_identifier "a" 0; T_symbol s_lt 0; T_number "2" 0]) =
  Ok (NCompare op_lt (NVariable ["a"] false) (numeric_literal "2" (num_of_decimal "2")) false).
Proof.
  apply parse_render.
  - do 3 constructor. apply (g_compare [T_identifier "a" 0] s_lt op_lt 0 [T_number "2" 0]);
      repeat constructor.
  - repeat constructor; vm_compute; reflexivity.
Defined.
