(* ===== verification/IrelTypes.v ===== *)
(** * IREL: the type checker and the compile entry points

    Models [typeCheck], [typeCheckCall], [resolveVariable],
    [resolveNodeVariable], [resolveNodeFieldType], [resolveParamVariable], the
    JSON Schema inference and [typeCheckIrelExpression],
    [validateParamsSchemaForIrel], [compileIrelExpression] of
    [codegen/irel-compile.ts].  A check returns its [TypeResult] ([None] is
    [{ ok: false }]) with the diagnostics it pushes, in order. *)

From stdpp Require Import base strings list gmap pretty.
From Stdlib Require Import Ascii.
From S2P Require Import Prelude JsValue Graph IrelSyntax IrelLexer IrelParser.

(** ** Checks as writers of diagnostics *)

Abbreviation checked := (option irel_type * list IRELCompileDiagnostic)%type.

Definition okType (t : irel_type) : checked := (Some t, []).
Definition failWith (c : IRELCompileErrorCode) (r : DiagReason) (detail : string) : checked :=
  (None, [diagnostic c r detail]).

Definition type_error (detail : string) : checked := failWith IREL_TYPE_ERROR irel_type_error detail.
Definition unknown (r : DiagReason) (detail : string) : checked := failWith IREL_UNKNOWN_VARIABLE r detail.

(** Two operands are checked in order; when both have a type, [f] continues. *)
Definition operands (left right : checked) (f : irel_type → irel_type → checked) : checked :=
  let ds := left.2 ++ right.2 in
  match left.1, right.1 with
  | Some l, Some r => let '(t, ds') := f l r in (t, ds ++ ds')
  | _, _ => (None, ds)
  end.

(** ** JSON Schema inference *)

Definition literalType (value : option json) : option IRELTypeAtom :=
  match value with
  | Some JNull => Some t_null
  | Some (JStr _) => Some t_string
  | Some (JBool _) => Some t_boolean
  | Some (JNum x) => Some (if num_is_integer x then t_int else t_number)
  | _ => None
  end.

Definition schemaTypeAtom (typeName : string) : option irel_type :=
  if decide (typeName = "integer") then Some (typeOf [t_int])
  else if decide (typeName = "number") then Some (typeOf [t_number])
  else if decide (typeName = "string") then Some (typeOf [t_string])
  else if decide (typeName = "boolean") then Some (typeOf [t_boolean])
  else if decide (typeName = "null") then Some (typeOf [t_null])
  else None.

Definition inferPrimitiveSchemaType (schema : list (string * json)) : option irel_type :=
  match literalType (alookup "const" schema) with
  | Some a => Some (typeOf [a])
  | None =>
      match as_array (alookup "enum" schema) with
      | Some values =>
          atoms ← mapM (λ v, literalType (Some v)) values; Some (uniqueTypes atoms)
      | None =>
          match alookup "type" schema with
          | Some (JStr rawType) => schemaTypeAtom rawType
          | Some (JArr entries) =>
              atoms ← mapM (λ e, match e with JStr s => schemaTypeAtom s | _ => None end) entries;
              Some (uniqueTypes (concat atoms))
          | _ => None
          end
      end
  end.

Definition schemaCanBeObject (schema : list (string * json)) : bool :=
  match alookup "type" schema with
  | None => true
  | Some (JStr s) => bool_decide (s = "object")
  | Some _ => false
  end.

Definition readProperties (schema : list (string * json)) : list (string * json) :=
  default [] (as_record (alookup "properties" schema)).

(** ** Variables *)

Definition CURSOR_FIELDS : list (string * irel_type) :=
  [("last_review_id", typeOf [t_string; t_null])].

(** The loop of [resolveParamVariable]; [walked] are the segments already
    walked and [whole] the full path, for the messages. *)
Fixpoint paramLoop (whole walked path : list string) (schema : list (string * json)) : checked :=
  match path with
  | [] => unknown unknown_variable "empty params path"
  | part :: rest =>
      let here := walked ++ [part] in
      match as_record (alookup part (readProperties schema)) with
      | None => unknown unknown_variable ("params." +:+ join "." here +:+ " is not declared in params_schema")
      | Some child =>
          match rest with
          | [] =>
              match inferPrimitiveSchemaType child with
              | Some inferred => okType inferred
              | None => failWith IREL_TYPE_ERROR params_schema_type_invalid
                  ("params." +:+ join "." whole +:+ " must have a deterministic scalar JSON Schema type")
              end
          | _ =>
              if schemaCanBeObject child then paramLoop whole here rest child
              else failWith IREL_TYPE_ERROR params_schema_type_invalid
                ("params." +:+ join "." here +:+ " must be an object schema for nested params access")
          end
      end
  end.

Definition resolveParamVariable (path : list string) (paramsSchema : option (list (string * json))) : checked :=
  match path with
  | [] => unknown unknown_variable "params namespace requires a property path"
  | _ =>
      match paramsSchema with
      | None => unknown unknown_variable
          ("params." +:+ join "." path +:+ " is not declared because params_schema is absent")
      | Some schema =>
          if schemaCanBeObject schema then paramLoop path [] path schema
          else failWith IREL_TYPE_ERROR params_schema_type_invalid
            "params_schema must be an object schema for params.* references"
      end
  end.

Definition resolveNodeFieldType (nodeId field : string) (path : list string)
    (context : IRELCompileContext) : checked :=
  let full := join "." path in
  if string_in field IREL_ALLOWED_NODE_FIELDS then
    if negb (bool_decide (length path = 3)) then
      unknown unknown_node_field
        ("node output field '" +:+ field +:+ "' takes no sub-path, got '" +:+ full +:+ "'")
    else if string_in field ["row_count"; "http_status"] then okType (typeOf [t_int])
    else if string_in field ["http_ok"] then okType (typeOf [t_boolean])
    else okType (typeOf [t_string])
  else
    let humanTaskMeta := m ← humanTaskNodes context; alookup nodeId m in
    if decide (field = "decision") then
      match humanTaskMeta with
      | None => unknown unknown_node_field
          ("node." +:+ nodeId +:+ ".decision is only available on an @human_task owning node")
      | Some _ =>
          if negb (bool_decide (length path = 3)) then
            unknown unknown_node_field ("node.<id>.decision takes no sub-path, got '" +:+ full +:+ "'")
          else okType (typeOf [t_string])
      end
    else if decide (field = "correction") then
      match humanTaskMeta with
      | None => unknown unknown_node_field
          ("node." +:+ nodeId +:+ ".correction is only available on an @human_task owning node")
      | Some meta =>
          match path with
          | [_; _; _; key] =>
              match alookup key (correctionFields meta) with
              | None => unknown unknown_node_field
                  ("unknown business_form_v1 correction field '" +:+ key +:+ "' on node." +:+ nodeId)
              | Some correctionType => okType correctionType
              end
          | _ => unknown unknown_node_field
              ("node.<id>.correction requires a single business_form_v1 field key, got '" +:+ full +:+ "'")
          end
      end
    else unknown unknown_node_field ("unknown node output field '" +:+ field +:+ "'").

Definition resolveNodeVariable (path : list string) (context : IRELCompileContext) : checked :=
  match path with
  | _ :: nodeId :: field :: _ =>
      match resolveNodeFieldType nodeId field path context with
      | (None, ds) => (None, ds)
      | (Some fieldType, ds) =>
          if negb (string_in nodeId (nodeIds context)) then
            unknown unknown_variable ("unknown node reference '" +:+ nodeId +:+ "'")
          else if negb (match additionalPriorNodeIds context with Some l => string_in nodeId l | None => false end) &&
                  (bool_decide (nodeId = currentNodeId context) ||
                   negb (isAncestor nodeId (currentNodeId context) (ctx_graph context)))
          then failWith IREL_FORWARD_REF forward_ref
                 ("node '" +:+ nodeId +:+ "' is not a prior dependency of '" +:+ currentNodeId context +:+ "'")
          else (Some fieldType, ds)
      end
  | _ => unknown unknown_variable
      ("node references must be node.<id>.<field>, got '" +:+ join "." path +:+ "'")
  end.

Definition resolveVariable (path : list string) (context : IRELCompileContext) : checked :=
  let full := join "." path in
  match path with
  | [] => unknown unknown_variable "empty variable path"
  | namespace :: tail =>
      if decide (namespace = "flags") then
        if bool_decide (length path = 2) && string_in full IREL_ALLOWED_FLAGS
        then okType (typeOf [t_boolean])
        else unknown unknown_flag ("unknown flag '" +:+ full +:+ "'")
      else if decide (namespace = "loop") then
        if negb (truthy (allowLoopScope context)) then
          failWith IREL_SCOPE_VIOLATION loop_scope_violation
            ("loop scope is not available at node '" +:+ currentNodeId context +:+ "'")
        else match tail with
             | [f] => if string_in f ["iteration"; "page_count"] then okType (typeOf [t_int])
                      else unknown unknown_variable ("unknown loop variable '" +:+ full +:+ "'")
             | _ => unknown unknown_variable ("unknown loop variable '" +:+ full +:+ "'")
             end
      else if decide (namespace = "cursor") then
        match tail with
        | [f] => match alookup f CURSOR_FIELDS with
                 | Some t => okType t
                 | None => unknown unknown_variable ("unknown cursor variable '" +:+ full +:+ "'")
                 end
        | _ => unknown unknown_variable ("unknown cursor variable '" +:+ full +:+ "'")
        end
      else if decide (namespace = "node") then resolveNodeVariable path context
      else if decide (namespace = "params") then resolveParamVariable tail (paramsSchema context)
      else unknown unknown_variable ("unknown variable namespace '" +:+ namespace +:+ "'")
  end.

(** ** Calls *)

Definition wrongArity (name : string) (expected actual : nat) : checked :=
  type_error (name +:+ " expects " +:+ pretty expected +:+ " arguments, got " +:+ pretty actual).

Fixpoint expectArgsLoop (name : string) (i : nat) (actual expected : list irel_type)
    (returnType : IRELTypeAtom) : checked :=
  match actual, expected with
  | a :: actual', e :: expected' =>
      if isAssignable a e then expectArgsLoop name (S i) actual' expected' returnType
      else type_error (name +:+ " argument " +:+ pretty (S i) +:+ " expects " +:+ formatType e +:+
                       ", got " +:+ formatType a)
  | _, _ => okType (typeOf [returnType])
  end.

Definition expectArgs (name : string) (actual expected : list irel_type)
    (returnType : IRELTypeAtom) : checked :=
  if bool_decide (length actual = length expected)
  then expectArgsLoop name 0 actual expected returnType
  else wrongArity name (length expected) (length actual).

Definition without_null (t : irel_type) : irel_type := filter (λ a, a ≠ t_null) t.

Definition typeCheckCoalesce (argTypes : list irel_type) : checked :=
  match argTypes with
  | [first; second] =>
      if negb (includes first t_null) then
        type_error ("coalesce first argument must include null, got " +:+ formatType first)
      else
        match without_null first with
        | [] => okType second
        | firstWithoutNull =>
            if isAssignable second firstWithoutNull then okType firstWithoutNull
            else type_error ("coalesce fallback must match " +:+ formatType firstWithoutNull +:+
                             ", got " +:+ formatType second)
        end
  | _ => wrongArity "coalesce" 2 (length argTypes)
  end.

(** [typeCheckCall] on the results of its arguments. *)
Definition typeCheckCall (name : string) (args : list checked) : checked :=
  let argTypes := map (λ r, default [] r.1) args in
  let ds := concat (map snd args) in
  if existsb (λ t, bool_decide (t = [])) argTypes then (None, ds)
  else
    let '(t, ds') :=
      if decide (name = "len") then expectArgs name argTypes [typeOf [t_string]] t_int
      else if decide (name = "is_null") then
        if bool_decide (length argTypes = 1) then okType (typeOf [t_boolean])
        else wrongArity name 1 (length argTypes)
      else if decide (name = "coalesce") then typeCheckCoalesce argTypes
      else if string_in name ["date_before"; "date_after"; "starts_with"; "contains"] then
        expectArgs name argTypes [typeOf [t_string]; typeOf [t_string]] t_boolean
      else failWith IREL_UNKNOWN_FUNCTION unknown_function ("unknown function '" +:+ name +:+ "'")
    in (t, ds ++ ds').

(** ** Expressions *)

Definition typeCheckUnary (inner : checked) : checked :=
  match inner with
  | (None, ds) => (None, ds)
  | (Some t, ds) =>
      let '(r, ds') := if isExactly t t_boolean then okType (typeOf [t_boolean])
                       else type_error ("! requires boolean, got " +:+ formatType t) in
      (r, ds ++ ds')
  end.

Definition typeCheckBinary (op : AddOp) (l r : irel_type) : checked :=
  if isNumeric l && isNumeric r
  then okType (if includes l t_number || includes r t_number then typeOf [t_number] else typeOf [t_int])
  else type_error (addop_str op +:+ " requires numeric operands, got " +:+ formatType l +:+ " and " +:+ formatType r).

Definition is_equality (op : CompareOp) : bool := match op with op_eq | op_ne => true | _ => false end.

Definition typeCheckCompare (op : CompareOp) (l r : irel_type) : checked :=
  if is_equality op then
    if canCompareEquality l r then okType (typeOf [t_boolean])
    else type_error (compareop_str op +:+ " requires compatible operands, got " +:+ formatType l +:+ " and " +:+ formatType r)
  else if isNumeric l && isNumeric r then okType (typeOf [t_boolean])
  else type_error (compareop_str op +:+ " requires numeric operands, got " +:+ formatType l +:+ " and " +:+ formatType r).

Definition typeCheckLogical (op : LogicalOp) (l r : irel_type) : checked :=
  if isExactly l t_boolean && isExactly r t_boolean then okType (typeOf [t_boolean])
  else type_error (logicalop_str op +:+ " requires boolean operands, got " +:+ formatType l +:+ " and " +:+ formatType r).

Fixpoint typeCheck (context : IRELCompileContext) (ast : IRELNode) : checked :=
  match ast with
  | NLiteral valueType _ _ => okType (typeOf [valueType])
  | NVariable path _ => resolveVariable path context
  | NCall name args _ => typeCheckCall name (map (typeCheck context) args)
  | NUnary expr _ => typeCheckUnary (typeCheck context expr)
  | NBinary op l r _ =>
      operands (typeCheck context l) (typeCheck context r) (typeCheckBinary op)
  | NCompare op l r _ =>
      operands (typeCheck context l) (typeCheck context r) (typeCheckCompare op)
  | NLogical op l r _ =>
      operands (typeCheck context l) (typeCheck context r) (typeCheckLogical op)
  end.

(** ** Entry points *)

Definition typeCheckIrelExpression (ast : IRELNode) (context : IRELCompileContext)
  : result (list IRELCompileDiagnostic) irel_type :=
  match typeCheck context ast with
  | (None, diagnostics) => Err diagnostics
  | (Some t, diagnostics) =>
      let diagnostics' :=
        match expectedType context with
        | Some e =>
            if isExactly t e then diagnostics
            else diagnostics ++ [diagnostic IREL_TYPE_ERROR irel_type_error
                   ("expression must return " +:+ atom_name e +:+ ", got " +:+ formatType t)]
        | None => diagnostics
        end in
      match diagnostics' with [] => Ok t | _ => Err diagnostics' end
  end.

Definition validateParamsSchemaForIrel (schema : option (list (string * json)))
  : option IRELCompileDiagnostic :=
  match schema with
  | None => None
  | Some s =>
      if schemaCanBeObject s then None
      else Some (diagnostic IREL_TYPE_ERROR params_schema_type_invalid
             "params_schema must be an object schema for deterministic params.* type inference")
  end.

Record IRELCompiledExpression := mkCompiled { c_ast : IRELNode; c_type : irel_type }.

Definition compileIrelExpression (expression : string) (context : IRELCompileContext)
  : result (list IRELCompileDiagnostic) IRELCompiledExpression :=
  match parseIrelExpression expression with
  | Err (PE d) => Err [d]
  | Err PFuel => Err []
  | Ok ast =>
      match typeCheckIrelExpression ast context with
      | Ok t => Ok (mkCompiled ast t)
      | Err ds => Err ds
      end
  end.
