(* ===== verification/IrelEval.v ===== *)
(** * IREL: the evaluator, and type soundness

    Models [evaluateIrelExpression], [evaluateIrelBooleanExpression] and their
    helpers of [codegen/irel-compile.ts].  Every [IRELRuntimeMissingError] is
    a value of [RuntimeError], with its message.  [Date.parse] belongs to the
    host and is a parameter ([None] is NaN).  The theorems connect the
    evaluator with the type checker. *)

From stdpp Require Import base strings list gmap pretty.
From Stdlib Require Import Ascii ZArith.
From S2P Require Import Prelude JsValue Graph IrelSyntax IrelLexer IrelParser IrelTypes.

(** ** Scope and errors *)

Record IRELScope := mkScope {
  sc_params : option (list (string * json));
  sc_node : option (list (string * json));
  sc_cursor : option (list (string * json));
  sc_flags : option (list (string * json));
  sc_loop : option (list (string * json))
}.

Inductive RuntimeError :=
| E_path_required (label : string)
| E_missing (label : string)
| E_not_scalar (label : string)
| E_node_path (label : string)
| E_namespace (namespace : string)
| E_expected (expected : IRELTypeAtom) (detail : string) (got : IRELValue)
| E_function (name : string)
| E_arity (name : string) (expected actual : nat)
| E_date_offset (detail value : string)
| E_date_iso (detail : string).

Definition runtimeTypeOf (v : IRELValue) : IRELTypeAtom :=
  match v with
  | VNull => t_null
  | VNum x => if num_is_integer x then t_int else t_number
  | VStr _ => t_string
  | VBool _ => t_boolean
  end.

(** The message of the thrown [IRELRuntimeMissingError]. *)
Definition error_message (e : RuntimeError) : string :=
  match e with
  | E_path_required label => label +:+ " requires a property path"
  | E_missing label => label +:+ " is missing from runtime scope"
  | E_not_scalar label => label +:+ " is not a scalar IREL runtime value"
  | E_node_path label => "invalid compiled node path '" +:+ label +:+ "'"
  | E_namespace n => "unknown compiled variable namespace '" +:+ n +:+ "'"
  | E_expected a detail got =>
      detail +:+ " must be " +:+ atom_name a +:+ ", got " +:+ atom_name (runtimeTypeOf got)
  | E_function name => "unknown compiled function '" +:+ name +:+ "'"
  | E_arity name expected actual =>
      name +:+ " expected " +:+ pretty expected +:+ " arguments, got " +:+ pretty actual
  | E_date_offset detail value =>
      detail +:+ " datetime '" +:+ value +:+
      "' requires an explicit UTC offset ('Z' or ±HH:MM) for deterministic comparison"
  | E_date_iso detail => detail +:+ " must be an ISO-8601 string"
  end.

Abbreviation ev := (result RuntimeError).

(** ** Reading the scope *)

Fixpoint walkPath (current : option json) (path : list string) (label : string) : ev json :=
  match path with
  | [] => match current with Some v => Ok v | None => Err (E_missing label) end
  | part :: path' =>
      match as_record current with
      | None => Err (E_missing label)
      | Some fields =>
          match alookup part fields with
          | None => Err (E_missing label)
          | Some v => walkPath (Some v) path' label
          end
      end
  end.

Definition readRuntimePath (root : option json) (path : list string) (label : string) : ev json :=
  match path with
  | [] => Err (E_path_required label)
  | _ => walkPath root path label
  end.

Definition toRuntimeValue (value : json) (label : string) : ev IRELValue :=
  match value with
  | JNull => Ok VNull
  | JStr s => Ok (VStr s)
  | JBool b => Ok (VBool b)
  | JNum x => if num_is_finite x then Ok (VNum x) else Err (E_not_scalar label)
  | _ => Err (E_not_scalar label)
  end.

Definition obj (o : option (list (string * json))) : option json := JObj <$> o.

Definition readValue (root : option json) (path : list string) (label : string) : ev IRELValue :=
  v ← readRuntimePath root path label; toRuntimeValue v label.

Definition resolveRuntimeVariable (path : list string) (scope : IRELScope) : ev IRELValue :=
  let label := join "." path in
  match path with
  | [] => Err (E_namespace "<empty>")
  | namespace :: tail =>
      if decide (namespace = "params") then readValue (obj (sc_params scope)) tail label
      else if decide (namespace = "node") then
        match tail with
        | nodeId :: fieldPath =>
            if negb (bool_decide (length path = 3) || bool_decide (length path = 4))
            then Err (E_node_path label)
            else
              nodeOutput ← readRuntimePath (obj (sc_node scope)) [nodeId] ("node." +:+ nodeId);
              if isRecord (Some nodeOutput) then readValue (Some nodeOutput) fieldPath label
              else Err (E_missing ("node." +:+ nodeId))
        | [] => Err (E_node_path label)
        end
      else if decide (namespace = "cursor") then readValue (obj (sc_cursor scope)) tail label
      else if decide (namespace = "flags") then readValue (obj (sc_flags scope)) tail label
      else if decide (namespace = "loop") then readValue (obj (sc_loop scope)) tail label
      else Err (E_namespace namespace)
  end.

(** ** Operand checks *)

Definition expectRuntimeBoolean (v : IRELValue) (detail : string) : ev bool :=
  match v with VBool b => Ok b | _ => Err (E_expected t_boolean detail v) end.
Definition expectRuntimeNumber (v : IRELValue) (detail : string) : ev jsnum :=
  match v with
  | VNum x => if num_is_finite x then Ok x else Err (E_expected t_number detail v)
  | _ => Err (E_expected t_number detail v)
  end.
Definition expectRuntimeString (v : IRELValue) (detail : string) : ev string :=
  match v with VStr s => Ok s | _ => Err (E_expected t_string detail v) end.

(** [/[tT]/.test(value)] and [/(?:[zZ]|[+-]\d{2}:?\d{2})$/.test(value)]. *)
Definition has_time (value : string) : bool :=
  string_exists (λ c, Ascii.eqb c "t"%char || Ascii.eqb c "T"%char) value.

Definition is_sign (c : ascii) : bool := Ascii.eqb c "+"%char || Ascii.eqb c "-"%char.
Definition has_offset (value : string) : bool :=
  match rev (String.list_ascii_of_string value) with
  | c1 :: l =>
      Ascii.eqb c1 "z"%char || Ascii.eqb c1 "Z"%char ||
      match l with
      | c2 :: c3 :: c4 :: c5 :: l' =>
          isDigit c1 && isDigit c2 &&
          ((isDigit c3 && isDigit c4 && is_sign c5) ||
           (Ascii.eqb c3 ":"%char && isDigit c4 && isDigit c5 &&
            match l' with c6 :: _ => is_sign c6 | [] => false end))
      | _ => false
      end
  | [] => false
  end.

Section Eval.
(** [Date.parse]: milliseconds, [None] for NaN. *)
Context (date_parse : string → option Z).

Definition runtimeDateMillis (v : ev IRELValue) (detail : string) : ev Z :=
  v ← v; value ← expectRuntimeString v detail;
  if has_time value && negb (has_offset value) then Err (E_date_offset detail value)
  else match date_parse value with Some millis => Ok millis | None => Err (E_date_iso detail) end.

Definition requireRuntimeArity (name : string) (args : list (ev IRELValue)) (expected : nat) : ev unit :=
  if bool_decide (length args = expected) then Ok tt else Err (E_arity name expected (length args)).

(** Argument [i] of a call whose arity was checked. *)
Definition arg (name : string) (args : list (ev IRELValue)) (i : nat) : ev IRELValue :=
  match args !! i with Some v => v | None => Err (E_arity name (S i) (length args)) end.

(** [evaluateCall] on the values of its argument expressions. *)
Definition evaluateCall (name : string) (args : list (ev IRELValue)) : ev IRELValue :=
  if decide (name = "len") then
    _ ← requireRuntimeArity name args 1;
    v ← arg name args 0; s ← expectRuntimeString v "len argument 1";
    Ok (VNum (num_of_Z (Z.of_nat (String.length s))))
  else if decide (name = "is_null") then
    _ ← requireRuntimeArity name args 1;
    v ← arg name args 0; Ok (VBool (strict_eq v VNull))
  else if decide (name = "coalesce") then
    _ ← requireRuntimeArity name args 2;
    first ← arg name args 0;
    if strict_eq first VNull then arg name args 1 else Ok first
  else if decide (name = "date_before") then
    _ ← requireRuntimeArity name args 2;
    a ← runtimeDateMillis (arg name args 0) "date_before argument 1";
    b ← runtimeDateMillis (arg name args 1) "date_before argument 2";
    Ok (VBool (a <? b)%Z)
  else if decide (name = "date_after") then
    _ ← requireRuntimeArity name args 2;
    a ← runtimeDateMillis (arg name args 0) "date_after argument 1";
    b ← runtimeDateMillis (arg name args 1) "date_after argument 2";
    Ok (VBool (b <? a)%Z)
  else if decide (name = "starts_with") then
    _ ← requireRuntimeArity name args 2;
    v ← arg name args 0; value ← expectRuntimeString v "starts_with argument 1";
    w ← arg name args 1; prefix ← expectRuntimeString w "starts_with argument 2";
    Ok (VBool (starts_with prefix value))
  else if decide (name = "contains") then
    _ ← requireRuntimeArity name args 2;
    v ← arg name args 0; value ← expectRuntimeString v "contains argument 1";
    w ← arg name args 1; needle ← expectRuntimeString w "contains argument 2";
    Ok (VBool (str_includes needle value))
  else Err (E_function name).

Definition compare_numbers (op : CompareOp) (x y : jsnum) : bool :=
  match op with
  | op_gt => num_ltb y x | op_ge => num_leb y x | op_lt => num_ltb x y | _ => num_leb x y
  end.

Definition evaluateCompare (op : CompareOp) (l r : ev IRELValue) : ev IRELValue :=
  v ← l; w ← r;
  match op with
  | op_eq => Ok (VBool (strict_eq v w))
  | op_ne => Ok (VBool (negb (strict_eq v w)))
  | _ =>
      x ← expectRuntimeNumber v (compareop_str op +:+ " left operand");
      y ← expectRuntimeNumber w (compareop_str op +:+ " right operand");
      Ok (VBool (compare_numbers op x y))
  end.

Definition evaluateLogical (op : LogicalOp) (l r : ev IRELValue) : ev IRELValue :=
  v ← l; a ← expectRuntimeBoolean v (logicalop_str op +:+ " left operand");
  w ← r; b ← expectRuntimeBoolean w (logicalop_str op +:+ " right operand");
  Ok (VBool (match op with op_or => a || b | op_and => a && b end)).

Definition evaluateBinary (op : AddOp) (l r : ev IRELValue) : ev IRELValue :=
  v ← l; x ← expectRuntimeNumber v (addop_str op +:+ " left operand");
  w ← r; y ← expectRuntimeNumber w (addop_str op +:+ " right operand");
  Ok (VNum (match op with op_add => num_add x y | op_sub => num_sub x y end)).

Definition evaluateUnary (v : ev IRELValue) : ev IRELValue :=
  v ← v; b ← expectRuntimeBoolean v "! operand"; Ok (VBool (negb b)).

Fixpoint evaluateIrelExpression (scope : IRELScope) (ast : IRELNode) : ev IRELValue :=
  match ast with
  | NLiteral _ value _ => Ok value
  | NVariable path _ => resolveRuntimeVariable path scope
  | NCall name args _ => evaluateCall name (map (evaluateIrelExpression scope) args)
  | NUnary e _ => evaluateUnary (evaluateIrelExpression scope e)
  | NBinary op l r _ =>
      evaluateBinary op (evaluateIrelExpression scope l) (evaluateIrelExpression scope r)
  | NCompare op l r _ =>
      evaluateCompare op (evaluateIrelExpression scope l) (evaluateIrelExpression scope r)
  | NLogical op l r _ =>
      evaluateLogical op (evaluateIrelExpression scope l) (evaluateIrelExpression scope r)
  end.

Definition evaluateIrelBooleanExpression (ast : IRELNode) (scope : IRELScope) : ev bool :=
  v ← evaluateIrelExpression scope ast; expectRuntimeBoolean v "expression result".
End Eval.

Example eval_ex :
  (ast ← match parseIrelExpression "len(params.q) + 1 >= 4 && !flags.blocked" with
         | Ok a => Ok a | Err _ => Err (E_function "parse") end;
   evaluateIrelBooleanExpression (λ _, None) ast
     (mkScope (Some [("q", JStr "abc")]) None None (Some [("blocked", JBool false)]) None)) = Ok true.
Proof. vm_compute. reflexivity. Qed.

(** ** Typing of values *)

(** Numbers inhabit both numeric atoms. *)
Definition value_atom (v : IRELValue) (a : IRELTypeAtom) : bool :=
  match v, a with
  | VNum _, t_int | VNum _, t_number => true
  | VStr _, t_string => true
  | VBool _, t_boolean => true
  | VNull, t_null => true
  | _, _ => false
  end.

Definition has_type (v : IRELValue) (t : irel_type) : Prop := ∃ a, a ∈ t ∧ value_atom v a = true.

(** Literal nodes carry a value of their [valueType]. *)
Fixpoint literals_ok (ast : IRELNode) : bool :=
  match ast with
  | NLiteral t v _ => value_atom v t
  | NVariable _ _ => true
  | NCall _ args _ => forallb literals_ok args
  | NUnary e _ => literals_ok e
  | NBinary _ l r _ | NCompare _ l r _ | NLogical _ l r _ => literals_ok l && literals_ok r
  end.

(** The value at a path of nested records. *)
Fixpoint lookup_path (current : option json) (path : list string) : option json :=
  match path with [] => current | part :: path' => lookup_path (prop part current) path' end.

(** The scope as one record of its five namespaces. *)
Definition scope_root (scope : IRELScope) (namespace : string) : option json :=
  if decide (namespace = "params") then obj (sc_params scope)
  else if decide (namespace = "node") then obj (sc_node scope)
  else if decide (namespace = "cursor") then obj (sc_cursor scope)
  else if decide (namespace = "flags") then obj (sc_flags scope)
  else if decide (namespace = "loop") then obj (sc_loop scope)
  else None.

Definition json_has_type (j : json) (t : irel_type) : Prop :=
  ∃ v, toRuntimeValue j EmptyString = Ok v ∧ has_type v t.

(** Every variable with a static type that the scope does hold has a value of
    this type.  It need not hold it: fields are projected when they exist. *)
Definition conforms (context : IRELCompileContext) (scope : IRELScope) : Prop :=
  ∀ namespace tail t ds j,
    resolveVariable (namespace :: tail) context = (Some t, ds) →
    lookup_path (scope_root scope namespace) tail = Some j → json_has_type j t.

(** The failures a well-typed expression may still have: a field the scope
    does not hold, a number outside the finite range, an unusable date. *)
Definition benign (e : RuntimeError) : Prop :=
  match e with
  | E_missing _ | E_date_offset _ _ | E_date_iso _ => True
  | E_expected t_number _ (VNum x) => num_is_finite x = false
  | _ => False
  end.

Definition good (r : ev IRELValue) (t : irel_type) : Prop :=
  match r with Ok v => has_type v t | Err e => benign e end.

(** ** Lemmas on values *)

Lemma has_type_singleton v a : has_type v [a] ↔ value_atom v a = true.
Proof.
  unfold has_type. split; [|eexists; split; [by left|done]].
  intros (b & ->%list_elem_of_singleton & H). done.
Qed.

Lemma has_type_typeOf v a : has_type v (typeOf [a]) ↔ value_atom v a = true.
Proof.
  rewrite <- has_type_singleton. unfold has_type, typeOf.
  by setoid_rewrite elem_uniqueTypes.
Qed.

Lemma has_type_boolean v t : isExactly t t_boolean = true → has_type v t → ∃ b, v = VBool b.
Proof. intros ->%isExactly_true H%has_type_singleton. destruct v; try done. eauto. Qed.

Lemma has_type_numeric v t : isNumeric t = true → has_type v t → ∃ x, v = VNum x.
Proof.
  intros Ht (a & Ha & Hv). apply (isNumeric_elem _ Ht) in Ha. destruct v, a; try done; eauto.
Qed.

Lemma has_type_number v t : isNumeric t = true → (∃ x, v = VNum x) → has_type v t.
Proof.
  intros Ht [x ->]. destruct t as [|a t]; [done|]. exists a. split; [by left|].
  apply (isNumeric_elem _ Ht a); by left.
Qed.

Lemma has_type_assignable v t e : isAssignable t e = true → has_type v t → has_type v e.
Proof.
  unfold isAssignable. destruct t as [|a t]; [by destruct e|]. destruct e as [|b e]; [done|].
  destruct (forallb is_numeric_atom (b :: e) && isNumeric (a :: t)) eqn:E.
  - apply andb_true_iff in E as [He Ht]. intros _ Hv.
    apply has_type_number; [exact He|]. by apply (has_type_numeric _ (a :: t)).
  - rewrite forallb_forall. intros H (c & Hc & Hv). exists c. split; [|done].
    apply includes_true, H. by apply list_elem_of_In.
Qed.

Lemma assignable_string v t : isAssignable t (typeOf [t_string]) = true → has_type v t →
  ∃ s, v = VStr s.
Proof.
  intros Ht Hv. assert (H := has_type_assignable _ _ _ Ht Hv).
  apply has_type_typeOf in H. destruct v; try done. eauto.
Qed.

(** ** Variables *)

Lemma walkPath_lookup path : ∀ current label, walkPath current path label =
  match lookup_path current path with Some j => Ok j | None => Err (E_missing label) end.
Proof.
  induction path as [|part path IH]; intros current label; simpl; [by destruct current|].
  assert (E : ∀ p, lookup_path None p = None) by (induction p; done).
  destruct current as [[]|]; simpl; rewrite ?E; try done.
  destruct (alookup part fields); rewrite ?E; auto.
Qed.

Lemma toRuntimeValue_label j l l' v : toRuntimeValue j l = Ok v → toRuntimeValue j l' = Ok v.
Proof. destruct j; simpl; try done. by destruct (num_is_finite x). Qed.

Lemma readValue_good root path label t : path ≠ [] →
  (∀ j, lookup_path root path = Some j → json_has_type j t) → good (readValue root path label) t.
Proof.
  intros Hp H. unfold readValue, readRuntimePath. destruct path as [|part path]; [done|].
  rewrite walkPath_lookup. destruct (lookup_path root (part :: path)) as [j|]; simpl; [|done].
  destruct (H j eq_refl) as (v & Hv & Ht). by rewrite (toRuntimeValue_label _ _ label _ Hv).
Qed.

(** The paths the checker accepts have the shapes the evaluator reads. *)
Lemma resolveNodeFieldType_length n f path ctx t ds :
  resolveNodeFieldType n f path ctx = (Some t, ds) → length path = 3 ∨ length path = 4.
Proof.
  unfold resolveNodeFieldType. intros H.
  repeat (case_match; try discriminate H); simplify_eq/=; auto;
    try (left; by eapply bool_decide_eq_true_1, negb_false_iff).
Qed.

Lemma resolveVariable_good ctx scope path t ds :
  resolveVariable path ctx = (Some t, ds) → conforms ctx scope →
  good (resolveRuntimeVariable path scope) t.
Proof.
  intros H Hc. destruct path as [|ns tail]; [done|].
  assert (Hj : ∀ j, lookup_path (scope_root scope ns) tail = Some j → json_has_type j t)
    by (intros j; by eapply Hc).
  unfold resolveVariable in H. unfold resolveRuntimeVariable, scope_root in *.
  destruct (decide (ns = "flags")) as [->|]; [|destruct (decide (ns = "loop")) as [->|];
    [|destruct (decide (ns = "cursor")) as [->|]; [|destruct (decide (ns = "node")) as [->|];
    [|destruct (decide (ns = "params")) as [->|]; [|done]]]]]; simpl in Hj |- *.
  - apply readValue_good; [by destruct tail|done].
  - apply readValue_good; [|done]. destruct (negb _); [done|]. by destruct tail.
  - apply readValue_good; [by destruct tail|done].
  - unfold resolveNodeVariable in H. destruct tail as [|nodeId [|field tail]]; [done|done|].
    destruct (resolveNodeFieldType _ _ _ _) as [[t'|] ds'] eqn:E; [|done].
    apply resolveNodeFieldType_length in E. simpl in E.
    assert (t' = t) as -> by (repeat (case_match; try discriminate H); congruence).
    rewrite (proj2 (negb_false_iff _)); cycle 1.
    { apply orb_true_iff. rewrite !bool_decide_eq_true. simpl. lia. }
    destruct (sc_node scope) as [nodes|]; [|done]. simpl in Hj |- *.
    destruct (alookup nodeId nodes) as [out|]; [|done]. simpl.
    destruct out; try done. by apply readValue_good.
  - apply readValue_good; [|done]. by destruct tail.
Qed.

(** ** Operators and calls *)

Lemma good_bind {A} (m : ev A) (P : A → Prop) (f : A → ev IRELValue) t :
  match m with Ok a => P a | Err e => benign e end →
  (∀ a, P a → good (f a) t) → good (m ≫= f) t.
Proof. destruct m; simpl; auto. Qed.

Lemma good_value (m : ev IRELValue) t0 (f : IRELValue → ev IRELValue) t :
  good m t0 → (∀ v, has_type v t0 → good (f v) t) → good (m ≫= f) t.
Proof. apply good_bind. Qed.

Lemma good_boolean b : good (Ok (VBool b)) (typeOf [t_boolean]).
Proof. simpl. by apply has_type_typeOf. Qed.

Lemma number_good (x : jsnum) detail :
  match expectRuntimeNumber (VNum x) detail with Ok _ => True | Err e => benign e end.
Proof. simpl. by destruct (num_is_finite x) eqn:E. Qed.

Lemma unary_good m t r ds : good m t → typeCheckUnary (Some t, ds) = (Some r, ds) →
  good (evaluateUnary m) r.
Proof.
  intros Hm H. simpl in H. destruct (isExactly t t_boolean) eqn:E; [|done]. injection H as <- _.
  eapply good_value; [done|]. intros v Hv. destruct (has_type_boolean _ _ E Hv) as [b ->].
  apply good_boolean.
Qed.

Lemma binary_good op m1 m2 l r t ds : good m1 l → good m2 r →
  typeCheckBinary op l r = (Some t, ds) → good (evaluateBinary op m1 m2) t.
Proof.
  intros H1 H2 H. unfold typeCheckBinary in H. destruct (isNumeric l && isNumeric r) eqn:E; [|done].
  apply andb_true_iff in E as [El Er]. unfold evaluateBinary.
  eapply good_value; [done|]. intros v Hv. destruct (has_type_numeric _ _ El Hv) as [x ->].
  eapply good_bind; [apply number_good|]. intros x' _.
  eapply good_value; [done|]. intros w Hw. destruct (has_type_numeric _ _ Er Hw) as [y ->].
  eapply good_bind; [apply number_good|]. intros y' _.
  injection H as <- _. simpl. destruct (includes l t_number || includes r t_number); by apply has_type_typeOf.
Qed.

Lemma compare_good op m1 m2 l r t ds : good m1 l → good m2 r →
  typeCheckCompare op l r = (Some t, ds) → good (evaluateCompare op m1 m2) t.
Proof.
  intros H1 H2 H. unfold evaluateCompare.
  assert (t = typeOf [t_boolean]) as ->.
  { unfold typeCheckCompare, okType in H. repeat (case_match; try discriminate H); congruence. }
  eapply good_value; [done|]. intros v Hv. eapply good_value; [done|]. intros w Hw.
  assert (Hn : is_equality op = false → isNumeric l = true ∧ isNumeric r = true).
  { intros E. unfold typeCheckCompare in H. rewrite E in H.
    destruct (isNumeric l && isNumeric r) eqn:E2; [by apply andb_true_iff in E2|done]. }
  destruct op; try apply good_boolean; destruct Hn as [El Er]; try done;
    destruct (has_type_numeric _ _ El Hv) as [x ->]; destruct (has_type_numeric _ _ Er Hw) as [y ->];
    (eapply good_bind; [apply number_good|]; intros x' _);
    (eapply good_bind; [apply number_good|]; intros y' _); apply good_boolean.
Qed.

Lemma logical_good op m1 m2 l r t ds : good m1 l → good m2 r →
  typeCheckLogical op l r = (Some t, ds) → good (evaluateLogical op m1 m2) t.
Proof.
  intros H1 H2 H. unfold typeCheckLogical in H.
  destruct (isExactly l t_boolean && isExactly r t_boolean) eqn:E; [|done].
  apply andb_true_iff in E as [El Er]. injection H as <- _. unfold evaluateLogical.
  eapply good_value; [done|]. intros v Hv. destruct (has_type_boolean _ _ El Hv) as [a ->]. simpl.
  eapply good_value; [done|]. intros w Hw. destruct (has_type_boolean _ _ Er Hw) as [b ->].
  apply good_boolean.
Qed.

Section Calls.
Context (date_parse : string → option Z).

Lemma expectArgs_spec name actual expected a t ds : expectArgs name actual expected a = (Some t, ds) →
  t = typeOf [a] ∧ Forall2 (λ x y, isAssignable x y = true) actual expected.
Proof.
  unfold expectArgs. case_bool_decide as Hl; [|done]. generalize 0 as i. revert expected Hl.
  induction actual as [|x actual IH]; intros [|y expected] Hl i; simpl in *; try lia.
  - intros [= <- _]. by split.
  - destruct (isAssignable x y) eqn:E; [|done]. intros H.
    apply IH in H as [-> HF]; [|lia]. split; [done|by constructor].
Qed.

Lemma date_good m t detail : good m t → isAssignable t (typeOf [t_string]) = true →
  match runtimeDateMillis date_parse m detail with Ok _ => True | Err e => benign e end.
Proof.
  intros Hm Ht. unfold runtimeDateMillis. destruct m as [v|e]; [|exact Hm].
  destruct (assignable_string _ _ Ht Hm) as [s ->]. simpl.
  destruct (has_time s && negb (has_offset s)); [done|]. by destruct (date_parse s).
Qed.

Lemma string_good m t detail (f : string → ev IRELValue) r : good m t →
  isAssignable t (typeOf [t_string]) = true → (∀ s, good (f s) r) →
  good (v ← m; s ← expectRuntimeString v detail; f s) r.
Proof.
  intros Hm Ht Hf. eapply good_value; [done|]. intros v Hv.
  destruct (assignable_string _ _ Ht Hv) as [s ->]. apply Hf.
Qed.

Lemma coalesce_good m1 m2 a b t ds : good m1 a → good m2 b →
  typeCheckCoalesce [a; b] = (Some t, ds) →
  good (first ← m1; if strict_eq first VNull then m2 else Ok first) t.
Proof.
  intros H1 H2 H. simpl in H. destruct (negb (includes a t_null)); [done|].
  eapply good_value; [done|]. intros v (x & Hx & Hv).
  assert (Hkeep : strict_eq v VNull = false → x ∈ without_null a).
  { intros Hn. apply list_elem_of_filter. split; [|done]. intros ->. by destruct v. }
  destruct (without_null a) as [|y l] eqn:E.
  - injection H as <- _. destruct (strict_eq v VNull) eqn:Ev; [done|].
    exfalso. by apply not_elem_of_nil in Hkeep.
  - destruct (isAssignable b (y :: l)) eqn:Ea; [|done]. injection H as <- _.
    destruct (strict_eq v VNull) eqn:Ev.
    + destruct m2 as [w|]; simpl in *; [|done]. by eapply has_type_assignable.
    + exists x. split; [by apply Hkeep|done].
Qed.

Lemma call_good name args types t ds : Forall2 good args types → Forall (λ t, t ≠ []) types →
  typeCheckCall name (map (λ t, (Some t, [])) types) = (Some t, ds) →
  good (evaluateCall date_parse name args) t.
Proof.
  intros Hargs Hne H. unfold typeCheckCall in H.
  replace (map (λ r : checked, default [] r.1) (map (λ t, (Some t, [])) types)) with types in H
    by (clear; induction types; simpl; congruence).
  destruct (existsb _ types) eqn:Ee; [done|]. clear Ee Hne.
  assert (Hlen := Forall2_length _ _ _ Hargs). unfold evaluateCall, requireRuntimeArity.
  destruct (decide (name = "len")) as [->|].
  { destruct (expectArgs _ _ _ _) as [[t'|] ds'] eqn:E; [|done].
    apply expectArgs_spec in E as [-> HF]. injection H as <- _. inv HF. inv Hargs.
    inv select (Forall2 _ _ []). inv select (Forall2 _ _ []). simpl.
    eapply string_good; [done..|]. intros s. by apply has_type_typeOf. }
  destruct (decide (name = "is_null")) as [->|].
  { destruct types as [|ty [|]]; try done. inv Hargs. inv select (Forall2 _ _ []). simpl.
    injection H as <- _. eapply good_value; [done|]. intros v _. apply good_boolean. }
  destruct (decide (name = "coalesce")) as [->|].
  { destruct (typeCheckCoalesce types) as [[t'|] ds'] eqn:E; [|done]. injection H as <- _.
    destruct types as [|a [|b [|]]]; try done. inv Hargs. inv select (Forall2 _ _ [b]).
    inv select (Forall2 _ _ []). simpl. by eapply coalesce_good. }
  destruct (string_in name _) eqn:En; [|done].
  destruct (expectArgs _ _ _ _) as [[t'|] ds'] eqn:E; [|done].
  apply expectArgs_spec in E as [-> HF]. injection H as <- _.
  inv HF. inv select (Forall2 _ _ [_]). inv select (Forall2 _ _ []).
  inv Hargs. inv select (Forall2 _ _ [_]). inv select (Forall2 _ _ []). simpl.
  unfold string_in in En. apply bool_decide_eq_true in En.
  repeat case_decide; subst; try (by eapply string_good; [done..|]; intros s;
    eapply string_good; [done..|]; intros s'; apply good_boolean).
  1,2: eapply good_bind; [by eapply date_good|]; intros a _;
       eapply good_bind; [by eapply date_good|]; intros b _; apply good_boolean.
  exfalso. rewrite !elem_of_cons in En. set_solver.
Qed.
End Calls.

(** ** Soundness *)

Lemma typeCheckCall_types name args t ds : typeCheckCall name args = (Some t, ds) →
  ∃ types, map fst args = map Some types ∧ Forall (λ t, t ≠ []) types ∧
    ∃ ds', typeCheckCall name (map (λ t, (Some t, [])) types) = (Some t, ds').
Proof.
  unfold typeCheckCall. destruct (existsb _ _) eqn:E; [done|].
  assert (Hall : ∀ r, r ∈ args → ∃ ty, r.1 = Some ty ∧ ty ≠ []).
  { intros r Hr. destruct (bool_decide (default [] r.1 = [])) eqn:Er.
    - exfalso. apply not_true_iff_false in E. apply E, existsb_exists.
      exists (default [] r.1). split; [|done]. apply in_map_iff. exists r. split; [done|by apply list_elem_of_In].
    - apply bool_decide_eq_false in Er. destruct r.1 as [ty|]; [by eauto|done]. }
  intros H. exists (map (λ r, default [] r.1) args). split; [|split].
  - clear H E. induction args as [|[r d] args IH]; simpl; [done|].
    destruct (Hall (r, d)) as (ty & Hty & _); [by left|]. simpl in *. subst. f_equal.
    apply IH. intros r Hr. apply Hall. by right.
  - apply Forall_forall. intros ty (r & -> & Hr)%list_elem_of_fmap.
    destruct (Hall r Hr) as (ty' & -> & ?). done.
  - assert (Em : ∀ l : list irel_type,
      map (λ r : checked, default [] r.1) (map (λ t, (Some t, [])) l) = l)
      by (induction l; simpl; congruence).
    rewrite Em, E. match type of H with (let '(_, _) := ?x in _) = _ => destruct x as [t' ds'] eqn:Ex end.
    injection H as <- _. eexists. reflexivity.
Qed.

Lemma operands_Some m1 m2 f t ds : operands m1 m2 f = (Some t, ds) →
  ∃ l r d1 d2 d3, m1 = (Some l, d1) ∧ m2 = (Some r, d2) ∧ f l r = (Some t, d3).
Proof.
  unfold operands. destruct m1 as [[l|] d1], m2 as [[r|] d2]; simpl; try done.
  destruct (f l r) as [t' d3] eqn:E. intros [= <- _]. eauto 10.
Qed.

Lemma eval_good date_parse ctx scope : conforms ctx scope → ∀ ast t ds,
  literals_ok ast = true → typeCheck ctx ast = (Some t, ds) →
  good (evaluateIrelExpression date_parse scope ast) t.
Proof.
  intros Hc. induction ast as [ty v g|p g|n args g IH|e g IH|o l r g IHl IHr|o l r g IHl IHr|o l r g IHl IHr]
    using IRELNode_rect'; intros t ds Hl H; simpl in Hl, H |- *.
  - injection H as <- _. by apply has_type_typeOf.
  - by eapply resolveVariable_good.
  - apply typeCheckCall_types in H as (types & Ht & Hne & ds' & H).
    eapply call_good; [|done|done]. clear H Hne.
    revert types Ht. induction IH as [|a args Ha _ IHargs]; intros [|ty types] Ht; try done.
    simpl in *. apply andb_true_iff in Hl as [Hla Hl]. injection Ht as Hty Ht.
    constructor; [|by apply IHargs]. destruct (typeCheck ctx a) as [r d] eqn:E. simpl in Hty. subst.
    by eapply Ha.
  - destruct (typeCheck ctx e) as [[te|] d] eqn:E; [|done].
    eapply (unary_good _ te _ []); [by eapply IH|]. simpl in *.
    destruct (isExactly te t_boolean); [|done]. simpl in *. congruence.
  - apply andb_true_iff in Hl as [H1 H2].
    apply operands_Some in H as (tl & tr & d1 & d2 & d3 & E1 & E2 & H). eapply binary_good; eauto.
  - apply andb_true_iff in Hl as [H1 H2].
    apply operands_Some in H as (tl & tr & d1 & d2 & d3 & E1 & E2 & H). eapply compare_good; eauto.
  - apply andb_true_iff in Hl as [H1 H2].
    apply operands_Some in H as (tl & tr & d1 & d2 & d3 & E1 & E2 & H). eapply logical_good; eauto.
Qed.

Lemma markGrouped_literals e : literals_ok (markGrouped e) = literals_ok e.
Proof. by destruct e. Qed.

Lemma grammar_literals :
  (∀ ts e, g_or_expr ts e → literals_ok e = true) ∧ (∀ ts e, g_and_expr ts e → literals_ok e = true) ∧
  (∀ ts e, g_not_expr ts e → literals_ok e = true) ∧ (∀ ts e, g_comparison ts e → literals_ok e = true) ∧
  (∀ ts e, g_additive ts e → literals_ok e = true) ∧ (∀ ts e, g_primary ts e → literals_ok e = true) ∧
  (∀ ts l, g_arg_list ts l → forallb literals_ok l = true).
Proof.
  apply grammar_ind; intros; simpl; rewrite ?markGrouped_literals; try done;
    try (apply andb_true_iff; auto); by destruct (str_includes "." v).
Qed.

Lemma parse_literals_ok input ast : parseIrelExpression input = Ok ast → literals_ok ast = true.
Proof.
  intros H. assert (Ht := parseIrel_derivation input ast H). destruct Ht as (ts & _ & Hg).
  by apply grammar_literals in Hg.
Qed.

(** ** Variables of an expression *)

Fixpoint variables (ast : IRELNode) : list (list string) :=
  match ast with
  | NLiteral _ _ _ => []
  | NVariable path _ => [path]
  | NCall _ args _ => concat (map variables args)
  | NUnary e _ => variables e
  | NBinary _ l r _ | NCompare _ l r _ | NLogical _ l r _ => variables l ++ variables r
  end.

(** An accepted expression has only accepted variables. *)
Lemma typeCheck_variables ctx ast : ∀ t ds, typeCheck ctx ast = (Some t, ds) →
  ∀ path, path ∈ variables ast → ∃ t' ds', resolveVariable path ctx = (Some t', ds').
Proof.
  assert (Hop : ∀ f l r t ds path,
    (∀ t ds, typeCheck ctx l = (Some t, ds) → ∀ path, path ∈ variables l →
       ∃ t' ds', resolveVariable path ctx = (Some t', ds')) →
    (∀ t ds, typeCheck ctx r = (Some t, ds) → ∀ path, path ∈ variables r →
       ∃ t' ds', resolveVariable path ctx = (Some t', ds')) →
    operands (typeCheck ctx l) (typeCheck ctx r) f = (Some t, ds) → path ∈ variables l ++ variables r →
    ∃ t' ds', resolveVariable path ctx = (Some t', ds')).
  { intros f l r t ds path Hl Hr H Hp.
    apply operands_Some in H as (tl & tr & d1 & d2 & d3 & E1 & E2 & _).
    apply elem_of_app in Hp as [Hp|Hp]; eauto. }
  induction ast as [ty v g|p g|n args g IH|e g IH|o l r g IHl IHr|o l r g IHl IHr|o l r g IHl IHr]
    using IRELNode_rect'; intros t ds H path Hp; simpl in H, Hp; eauto.
  - by apply not_elem_of_nil in Hp.
  - apply list_elem_of_singleton in Hp as ->. eauto.
  - apply typeCheckCall_types in H as (types & Ht & _). 
    apply list_elem_of_In, in_concat in Hp as (vs & Hvs%list_elem_of_In & Hp%list_elem_of_In).
    apply list_elem_of_fmap in Hvs as (a & -> & Ha). rewrite Forall_forall in IH.
    assert (Hin : (typeCheck ctx a).1 ∈ map Some types).
    { rewrite <- Ht, map_map. apply list_elem_of_fmap. by exists a. }
    apply list_elem_of_fmap in Hin as (ty & Hty & _).
    destruct (typeCheck ctx a) as [r d] eqn:E. simpl in Hty. subst. eauto.
  - destruct (typeCheck ctx e) as [[te|] d] eqn:E; [|done]. eauto.
Qed.

Lemma compile_inv expression ctx c : compileIrelExpression expression ctx = Ok c →
  parseIrelExpression expression = Ok (c_ast c) ∧
  typeCheck ctx (c_ast c) = (Some (c_type c), []) ∧
  (∀ e, expectedType ctx = Some e → c_type c = [e]).
Proof.
  unfold compileIrelExpression, typeCheckIrelExpression.
  destruct (parseIrelExpression expression) as [ast|[]]; [|done|done].
  destruct (typeCheck ctx ast) as [[t|] ds] eqn:Et; [|done].
  destruct (expectedType ctx) as [e|].
  - destruct (isExactly t e) eqn:E.
    + destruct ds; [|done]. intros [= <-]. simpl. apply isExactly_true in E. split_and!; [done..|].
      by intros e' [= <-].
    + by destruct ds.
  - destruct ds; [|done]. by intros [= <-].
Qed.

Lemma boolean_good date_parse ast scope :
  good (evaluateIrelExpression date_parse scope ast) [t_boolean] →
  match evaluateIrelBooleanExpression date_parse ast scope with Ok _ => True | Err e => benign e end.
Proof.
  unfold evaluateIrelBooleanExpression. destruct (evaluateIrelExpression _ _ _) as [v|e]; [|done].
  simpl. intros H%has_type_singleton. by destruct v.
Qed.

(** ** Rejections carry a diagnostic *)

Lemma resolveVariable_diagnosed path ctx ds : resolveVariable path ctx = (None, ds) → ds ≠ [].
Proof.
  assert (Hf : ∀ n f p d, resolveNodeFieldType n f p ctx = (None, d) → d ≠ []).
  { intros n f p d. unfold resolveNodeFieldType, okType, unknown, failWith.
    intros H. repeat (case_match; try discriminate H); congruence. }
  assert (Hp : ∀ whole q walked s d, paramLoop whole walked q s = (None, d) → d ≠ []).
  { intros whole q. induction q as [|part q IH]; intros walked s d; [by intros [= <-]|].
    cbn [paramLoop]. unfold okType, unknown, failWith. intros H.
    repeat (case_match; try discriminate H); eauto; congruence. }
  unfold resolveVariable, resolveNodeVariable, resolveParamVariable, okType, unknown, failWith.
  intros H. repeat (case_match; try discriminate H); simplify_eq; eauto.
Qed.

(** Only a variable can have the empty type. *)
Lemma typeCheckCall_nonempty name args ds : typeCheckCall name args ≠ (Some [], ds).
Proof.
  intros (types & _ & Hne & ds' & H)%typeCheckCall_types. unfold typeCheckCall in H.
  replace (map (λ r : checked, default [] r.1) (map (λ t, (Some t, [])) types)) with types in H
    by (clear; induction types; simpl; congruence).
  destruct (existsb _ types); [done|].
  assert (Hexp : ∀ e a, (expectArgs name types e a).1 ≠ Some []).
  { intros e a. destruct (expectArgs name types e a) as [[t|] d] eqn:E; [|done].
    apply expectArgs_spec in E as [-> _]. by destruct a. }
  assert (Hco : (typeCheckCoalesce types).1 ≠ Some []).
  { destruct types as [|a [|b [|]]]; try done. simpl. destruct (negb _); [done|].
    rewrite !Forall_cons in Hne. destruct (without_null a) as [|y l]; simpl; [naive_solver|].
    by destruct (isAssignable b (y :: l)). }
  match type of H with (let '(_, _) := ?x in _) = _ => assert (Hx : x.1 ≠ Some []) end.
  { clear H; repeat case_match; try done; apply Hexp. }
  match type of H with (let '(_, _) := ?x in _) = _ => destruct x as [t' d'] end.
  simpl in Hx. congruence.
Qed.

Lemma typeCheck_empty ctx ast ds : typeCheck ctx ast = (Some [], ds) →
  ∃ path g, ast = NVariable path g.
Proof.
  destruct ast as [ty v g|p g|n args g|e g|o l r g|o l r g|o l r g]; simpl; eauto.
  - by destruct ty.
  - by intros H%typeCheckCall_nonempty.
  - destruct (typeCheck ctx e) as [[t|] d]; simpl; [|done]. by destruct (isExactly t t_boolean).
  - intros (tl & tr & d1 & d2 & d3 & _ & _ & H)%operands_Some. unfold typeCheckBinary in H.
    destruct (isNumeric tl && isNumeric tr); [|done].
    by destruct (includes tl t_number || includes tr t_number).
  - intros (tl & tr & d1 & d2 & d3 & _ & _ & H)%operands_Some. unfold typeCheckCompare in H.
    repeat (case_match; try discriminate H).
  - intros (tl & tr & d1 & d2 & d3 & _ & _ & H)%operands_Some. unfold typeCheckLogical in H.
    repeat (case_match; try discriminate H).
Qed.

Lemma operands_diagnosed m1 m2 f ds : operands m1 m2 f = (None, ds) →
  (∀ l r d, f l r = (None, d) → d ≠ []) →
  ds ≠ [] ∨ m1 = (None, []) ∨ m2 = (None, []).
Proof.
  unfold operands. destruct m1 as [[l|] d1], m2 as [[r|] d2]; simpl; intros H Hf.
  - destruct (f l r) as [t d3] eqn:E. injection H as -> <-. left. apply Hf in E.
    intros Hnil. by apply app_eq_nil in Hnil as [_ ?].
  - injection H as <-. destruct d1, d2; auto.
  - injection H as <-. destruct d1, d2; auto.
  - injection H as <-. destruct d1, d2; auto.
Qed.

Lemma typeCheckCall_diagnosed name args ds : typeCheckCall name args = (None, ds) →
  ds ≠ [] ∨ ∃ r, r ∈ args ∧ (r = (None, []) ∨ r.1 = Some []).
Proof.
  unfold typeCheckCall. destruct (existsb _ _) eqn:E.
  - intros [= <-]. apply existsb_exists in E as (ty & Hin & Hty).
    apply in_map_iff in Hin as (r & Hr & Hin). apply bool_decide_eq_true in Hty. subst ty.
    destruct r as [[ty|] [|d dr]] eqn:Er; simpl in Hty.
    1,2: subst ty; right; eexists; (split; [by apply list_elem_of_In|by right]).
    + right. eexists. split; [by apply list_elem_of_In|by left].
    + left. intros Hnil. apply concat_nil_Forall in Hnil. rewrite List.Forall_forall in Hnil.
      by specialize (Hnil (d :: dr) (in_map snd _ _ Hin)).
  - match goal with |- (let '(_, _) := ?x in _) = _ → _ => assert (Hx : ∀ d, x = (None, d) → d ≠ []) end.
    { unfold typeCheckCoalesce, expectArgs, wrongArity, type_error, failWith, okType.
      assert (Hl : ∀ a e i r d, expectArgsLoop name i a e r = (None, d) → d ≠ []).
      { induction a as [|x a IH]; intros [|y e] i r d; simpl; try done.
        unfold type_error, failWith. destruct (isAssignable x y); [apply IH|congruence]. }
      intros d H. repeat (case_match; try discriminate H); eauto; congruence. }
    match goal with |- (let '(_, _) := ?x in _) = _ → _ => destruct x as [t d] eqn:Ex end.
    intros [= -> <-]. left. intros Hnil. apply app_eq_nil in Hnil as [_ ->]. by apply (Hx []).
Qed.

(** ** Properties *)

Lemma compiled_sound date_parse expression ctx c scope :
  compileIrelExpression expression ctx = Ok c → conforms ctx scope →
  good (evaluateIrelExpression date_parse scope (c_ast c)) (c_type c) ∧
  (expectedType ctx = Some t_boolean →
   match evaluateIrelBooleanExpression date_parse (c_ast c) scope with
   | Ok _ => True | Err e => benign e end).
Proof.
  intros (Hp & Ht & He)%compile_inv Hc. apply parse_literals_ok in Hp.
  assert (Hg := eval_good date_parse ctx scope Hc _ _ _ Hp Ht). split; [exact Hg|].
  intros E. rewrite (He _ E) in Hg. by apply boolean_good.
Qed.


Definition flag_context : IRELCompileContext :=
  mkContext "n" ["n"] [] None None None (Some t_boolean) None.


(** No expression reads the output of a node that may not have run: in an
    accepted expression every [node.<id>.*] names a node of the scenario that
    is either an explicitly granted prior node or a strict predecessor of the
    current node along the edges of the graph (and never the current node
    itself by that route); every flag is one of the closed registry, and loop
    variables occur only where loop scope is granted. *)
Theorem compiled_references_are_prior expression ctx c :
  NoDup (ctx_graph ctx).*1 → compileIrelExpression expression ctx = Ok c →
  ∀ ns tail, ns :: tail ∈ variables (c_ast c) →
    (ns = "node" → ∃ id rest, tail = id :: rest ∧ id ∈ nodeIds ctx ∧
       ((∃ l, additionalPriorNodeIds ctx = Some l ∧ id ∈ l) ∨
        (id ≠ currentNodeId ctx ∧ tc (edge (ctx_graph ctx)) id (currentNodeId ctx)))) ∧
    (ns = "flags" → join "." (ns :: tail) ∈ IREL_ALLOWED_FLAGS) ∧
    (ns = "loop" → allowLoopScope ctx = Some true).
Proof.
  intros Hnd (_ & Ht & _)%compile_inv ns tail Hv.
  destruct (typeCheck_variables _ _ _ _ Ht _ Hv) as (t & ds & H). split_and!; intros ->.
  - simpl in H. destruct tail as [|id [|field rest]]; try done.
    exists id, (field :: rest). split; [done|].
    destruct (resolveNodeFieldType _ _ _ _) as [[ft|] d]; [|done].
    destruct (negb (string_in id (nodeIds ctx))) eqn:E1; [done|].
    apply negb_false_iff, bool_decide_eq_true in E1. split; [done|].
    match type of H with (if ?b then _ else _) = _ => destruct b eqn:E2; [done|] end.
    apply andb_false_iff in E2 as [E2|E2].
    + apply negb_false_iff in E2. destruct (additionalPriorNodeIds ctx) as [l|]; [|done].
      left. exists l. split; [done|]. by apply bool_decide_eq_true in E2.
    + right. apply orb_false_iff in E2 as [E3 E4]. apply bool_decide_eq_false in E3.
      apply negb_false_iff in E4. split; [done|]. by apply isAncestor_correct.
  - cbn [resolveVariable] in H. rewrite decide_True in H by done.
    match type of H with (if ?b then _ else _) = _ => destruct b eqn:E; [|done] end.
    apply andb_true_iff in E as [_ E]. by apply bool_decide_eq_true in E.
  - cbn [resolveVariable] in H. rewrite decide_False in H by done. rewrite decide_True in H by done.
    destruct (negb (truthy (allowLoopScope ctx))) eqn:E; [done|].
    by apply negb_false_iff, truthy_true in E.
Qed.

Lemma compiled_references_are_prior_witness :
  let ctx := mkContext "b" ["a"; "b"] [("a", ["b"]); ("b", [])] None None None None None in
  ∃ id rest, ["a"; "row_count"] = id :: rest ∧ id ∈ nodeIds ctx ∧
    ((∃ l, additionalPriorNodeIds ctx = Some l ∧ id ∈ l) ∨
     (id ≠ currentNodeId ctx ∧ tc (edge (ctx_graph ctx)) id (currentNodeId ctx))).
Proof.
  set (ctx := mkContext "b" ["a"; "b"] [("a", ["b"]); ("b", [])] None None None None None).
  apply (compiled_references_are_prior "node.a.row_count" ctx
           (mkCompiled (NVariable ["node"; "a"; "row_count"] false) [t_int])) with (ns := "node").
  - apply NoDup_cons. split; [set_solver|]. apply NoDup_singleton.
  - vm_compute. reflexivity.
  - by left.
  - reflexivity.
Defined.

(** No variable of the expression has the empty static type. *)
Definition inhabited_variables (ctx : IRELCompileContext) (ast : IRELNode) : Prop :=
  ∀ path, path ∈ variables ast → ∀ ds, resolveVariable path ctx ≠ (Some [], ds).

Definition diagnosed (ctx : IRELCompileContext) (ast : IRELNode) : Prop :=
  inhabited_variables ctx ast → ∀ ds, typeCheck ctx ast = (None, ds) → ds ≠ [].

Lemma operator_diagnosed ctx l r f ds : diagnosed ctx l → diagnosed ctx r →
  (∀ path, path ∈ variables l ++ variables r → ∀ ds, resolveVariable path ctx ≠ (Some [], ds)) →
  (∀ tl tr d, f tl tr = (None, d) → d ≠ []) →
  operands (typeCheck ctx l) (typeCheck ctx r) f = (None, ds) → ds ≠ [].
Proof.
  intros Hl Hr Hv Hf H. apply operands_diagnosed in H as [H|[H|H]]; [done|exfalso..|done].
  - eapply Hl; eauto. intros path Hp. apply Hv, elem_of_app. by left.
  - eapply Hr; eauto. intros path Hp. apply Hv, elem_of_app. by right.
Qed.

Lemma typeCheck_diagnosed ctx ast : diagnosed ctx ast.
Proof.
  induction ast as [ty v g|p g|n args g IH|e g IH|o l r g IHl IHr|o l r g IHl IHr|o l r g IHl IHr]
    using IRELNode_rect'; intros Hv ds H; unfold inhabited_variables in Hv; simpl in Hv, H.
  - done.
  - by eapply resolveVariable_diagnosed.
  - apply typeCheckCall_diagnosed in H as [H|(r & Hr & Hbad)]; [done|]. exfalso.
    apply list_elem_of_fmap in Hr as (a & -> & Ha).
    assert (Hva : inhabited_variables ctx a).
    { intros path Hp. apply Hv, list_elem_of_In, in_concat. exists (variables a).
      split; [apply in_map; by apply list_elem_of_In|by apply list_elem_of_In]. }
    rewrite Forall_forall in IH. destruct Hbad as [Hbad|Hbad]; [by eapply (IH a Ha)|].
    destruct (typeCheck ctx a) as [r d] eqn:E. simpl in Hbad. subst r.
    destruct (typeCheck_empty _ _ _ E) as (path & g' & ->). eapply Hva; [|exact E].
    by apply list_elem_of_singleton.
  - destruct (typeCheck ctx e) as [[te|] d] eqn:E; simpl in H; [|by eapply IH; [|congruence]].
    destruct (isExactly te t_boolean); [done|]. injection H as <-. by destruct d.
  - eapply operator_diagnosed; [exact IHl|exact IHr|done| |done].
    intros tl tr d. unfold typeCheckBinary. case_match; [done|by intros [= <-]].
  - eapply operator_diagnosed; [exact IHl|exact IHr|done| |done].
    intros tl tr d. unfold typeCheckCompare. repeat case_match; done || by intros [= <-].
  - eapply operator_diagnosed; [exact IHl|exact IHr|done| |done].
    intros tl tr d. unfold typeCheckLogical. case_match; [done|by intros [= <-]].
Qed.

Lemma rejection_nonempty expression ctx ds :
  compileIrelExpression expression ctx = Err ds →
  (∀ ast, parseIrelExpression expression = Ok ast → inhabited_variables ctx ast) → ds ≠ [].
Proof.
  unfold compileIrelExpression. destruct (parseIrelExpression expression) as [ast|err] eqn:Ep.
  - unfold typeCheckIrelExpression. destruct (typeCheck ctx ast) as [[t|] d] eqn:Et.
    + match goal with |- context [match ?x with [] => _ | _ => _ end] => destruct x; [done|] end.
      by intros [= <-].
    + intros [= <-] Hv. eapply typeCheck_diagnosed; [|done]. by apply Hv.
  - apply parseIrel_error in Ep as (d & -> & _). by intros [= <-].
Qed.

(** A rejected expression comes with at least one diagnostic, provided no
    variable in it has an empty static type.  The callers of the compiler only
    forward the diagnostics, so an empty list would accept the expression. *)
Theorem rejection_is_diagnosed expression ctx ds :
  compileIrelExpression expression ctx = Err ds →
  (∀ ast, parseIrelExpression expression = Ok ast → inhabited_variables ctx ast) →
  ds ≠ [].
Proof. apply rejection_nonempty. Qed.

Lemma rejection_is_diagnosed_witness :
  [diagnostic IREL_UNKNOWN_VARIABLE unknown_flag "unknown flag 'flags.x'"] ≠ [].
Proof.
  apply (rejection_is_diagnosed "flags.x" flag_context); [vm_compute; reflexivity|].
  intros ast H. vm_compute in H. injection H as <-. intros path Hp ds.
  simpl in Hp. apply list_elem_of_singleton in Hp as ->. vm_compute. discriminate.
Defined.

(** The proviso is needed: a parameter declared with an empty [enum] has
    the empty type, and a call on it is rejected with no diagnostic at all. *)
Theorem empty_enum_rejected_silently :
  let schema := [("properties", JObj [("mode", JObj [("enum", JArr [])])])] in
  let ctx := mkContext "n" ["n"] [] (Some schema) None None (Some t_boolean) None in
  compileIrelExpression "is_null(params.mode)" ctx = Err [].
Proof. vm_compute. reflexivity. Qed.

(** Evaluation is the same on every host: two implementations of
    [Date.parse] that agree on the texts without a time part and on those with
    an explicit offset give the same value for every expression and scope,
    because a date with a time part and no offset is refused before it is
    parsed. *)
Theorem evaluation_host_independent parse1 parse2 scope ast :
  (∀ s, has_time s = false ∨ has_offset s = true → parse1 s = parse2 s) →
  evaluateIrelExpression parse1 scope ast = evaluateIrelExpression parse2 scope ast.
Proof.
  intros Hagree.
  assert (Hd : ∀ m detail, runtimeDateMillis parse1 m detail = runtimeDateMillis parse2 m detail).
  { intros [v|e] detail; [|done]. destruct v; try done. unfold runtimeDateMillis. simpl.
    destruct (has_time s) eqn:E1; simpl; [destruct (has_offset s) eqn:E2; simpl; [|done]|];
      rewrite Hagree by auto; done. }
  assert (Hcall : ∀ n args, evaluateCall parse1 n args = evaluateCall parse2 n args).
  { intros n args. unfold evaluateCall. by rewrite !Hd. }
  clear Hagree Hd. induction ast as [| |n args g IH|e g IH|o l r g IHl IHr|o l r g IHl IHr|o l r g IHl IHr]
    using IRELNode_rect'; cbn [evaluateIrelExpression]; [done|done| |by rewrite IH|..];
    [|by rewrite IHl, IHr..].
  rewrite Hcall, (map_ext_Forall _ (evaluateIrelExpression parse2 scope) IH). done.
Qed.

Lemma evaluation_host_independent_witness :
  let ast := NCall "date_before" [NLiteral t_string (VStr "2024-01-01") false;
                                  NLiteral t_string (VStr "2024-01-02T00:00Z") false] false in
  let p := λ s, if decide (s = "2024-01-01") then Some 0%Z else Some 1%Z in
  let q := λ s, if has_time s && negb (has_offset s) then None
                else if decide (s = "2024-01-01") then Some 0%Z else Some 1%Z in
  evaluateIrelExpression p (mkScope None None None None None) ast =
  evaluateIrelExpression q (mkScope None None None None None) ast.
Proof.
  intros ast p q. apply evaluation_host_independent.
  intros s [H|H]; unfold p, q; rewrite H; [done|]. by rewrite andb_false_r.
Defined.
