(* ===== verification/StaticValidation.v ===== *)
(** * Static validation of scenarios

    Models [codegen/static-validation.ts]: the checks V1 to V13 that a
    scenario passes before it is saved or promoted, and the compilation of its
    IREL expressions.  A node is the record that [validateIR] accepted, with
    fields read as the code reads them; [ir_nodes] lists the nodes in the order
    of [Object.entries].  Each validator returns the issues it pushes, in
    order.  Reads of [path], [when] and [cmd_ref] rely on the JSON Schema
    having made them strings. *)

From stdpp Require Import base strings list gmap pretty.
From Stdlib Require Import Ascii ZArith Sorted.
From S2P Require Import Prelude JsValue Graph IrelSyntax IrelLexer IrelParser IrelTypes IrelEval.

(** ** Data *)

Abbreviation fields := (list (string * json)).

Record IRScenario := mkScenario {
  ir_start : string;
  ir_nodes : list (string * fields);
  ir_params_schema : option fields;
  ir_meta_ir_version : option string;
  ir_meta_version : jsnum
}.

Inductive IRValidationRule :=
| V1 | V2 | V3 | V4 | V5 | V6 | V7 | V8 | V9 | V10 | V11 | V12 | V13.
Inductive IssueCode := IR_SCHEMA_INVALID | IR_EXPRESSION_COMPILE_ERROR.
#[export] Instance IRValidationRule_eq_dec : EqDecision IRValidationRule.
Proof. solve_decision. Defined.
#[export] Instance IssueCode_eq_dec : EqDecision IssueCode.
Proof. solve_decision. Defined.

Record ValidationIssue := mkIssue {
  i_rule : IRValidationRule;
  i_reason : string;
  i_code : IssueCode;
  i_detail : string;
  i_node : option string
}.

Definition issue (rule : IRValidationRule) (reason : string) (code : IssueCode) (detail : string)
    (nodeId : option string) : ValidationIssue := mkIssue rule reason code detail nodeId.

Definition expressionIssue (d : IRELCompileDiagnostic) (nodeId : option string) : ValidationIssue :=
  issue (if decide (d_reason d = unknown_node_field) then V9 else V8)
    (reason_str (d_reason d)) IR_EXPRESSION_COMPILE_ERROR
    (errorCode_str (d_code d) +:+ ": " +:+ d_detail d) nodeId.

Record ValidationReport := mkReport { errors : list ValidationIssue; warnings : list ValidationIssue }.

Inductive TargetRefKind :=
| k_node | k_handler_return | k_loop_body | k_loop_exit | k_fallback_entry
| k_end_no_data | k_invalid_reserved_handler.
#[export] Instance TargetRefKind_eq_dec : EqDecision TargetRefKind.
Proof. solve_decision. Defined.

Record TargetRef := mkRef {
  ref_kind : TargetRefKind;
  ref_target : option string;
  ref_label : string;
  ref_reason : option string
}.

Record CompiledOnBranchAst := mkOnBranch { ob_when : IRELNode; ob_target : option json; ob_priority : jsnum }.
Record CompiledLoopAst := mkLoop {
  lp_until : IRELNode; lp_body_target : string; lp_exit_target : string; lp_max_iterations : jsnum }.
Record CompiledFallbackTierAst := mkTier {
  ft_tier : string; ft_entry_node : string; ft_advance_when : option IRELNode }.
Record CompiledNodeAst := mkNodeAst {
  cn_on : option (list CompiledOnBranchAst);
  cn_loop : option CompiledLoopAst;
  cn_fallback_chain : option (list CompiledFallbackTierAst);
  cn_empty_result_allowed : option (list IRELNode)
}.

(** ** Constants *)

Definition END_NO_DATA_TARGET : string := "@end_no_data".
Definition RETURNING_RESERVED_HANDLERS : list string := ["@challenge"; "@human_task"].
Definition BROWSER_PRODUCT_EXCLUDED_ACTIONS : list string := ["file"; "shell"].
Definition MAX_LOOP_ITERATIONS : Z := 10000.
Definition TIER_ORDER : list (string * Z) := [("T0", 0%Z); ("T1", 1%Z); ("T2", 2%Z); ("T3", 3%Z)].
Definition VALUE_PATH_ROOTS : list string := ["extracted"; "node"].
Definition BUSINESS_FORM_FIELD_TYPE : list (string * irel_type) :=
  [("text", [t_string]); ("textarea", [t_string]); ("date", [t_string]); ("select", [t_string]);
   ("number", [t_number]); ("boolean", [t_boolean])].

(** ** Reading a node *)

Definition onBranchesOf (node : fields) : list json := default [] (as_array (alookup "on" node)).
Definition fallbackChainOf (node : fields) : list json :=
  default [] (as_array (alookup "fallback_chain" node)).
Definition loopOf (node : fields) : option fields := as_record (alookup "loop" node).
Definition isLoopNode (node : option fields) : bool :=
  match node with Some n => match loopOf n with Some _ => true | None => false end | None => false end.

(** [node.verify?.criteria ?? []] and [node.what ?? []]. *)
Definition criteriaOf (node : fields) : list json :=
  default [] (as_array (prop "criteria" (alookup "verify" node))).
Definition whatOf (node : fields) : list json := default [] (as_array (alookup "what" node)).

Definition str_prop (k : string) (v : json) : option string := as_string (prop k (Some v)).

Definition readTargetRef (value : option json) (label : string) : TargetRef :=
  match value with
  | Some (JStr s) =>
      if decide (s = END_NO_DATA_TARGET) then mkRef k_end_no_data (Some s) label None
      else if string_in s RETURNING_RESERVED_HANDLERS then
        mkRef k_invalid_reserved_handler (Some s) label (Some "reserved_handler_call_shape_invalid")
      else mkRef k_node (Some s) label None
  | Some (JObj l) =>
      match as_string (alookup "handler" l) with
      | Some handler =>
          if decide (handler = END_NO_DATA_TARGET) then
            mkRef k_invalid_reserved_handler (Some END_NO_DATA_TARGET) label
              (Some (match alookup "return_node" l with
                     | Some _ => "end_no_data_return_node_forbidden"
                     | None => "end_no_data_handler_call_invalid"
                     end))
          else if string_in handler RETURNING_RESERVED_HANDLERS then
            match as_string (alookup "return_node" l) with
            | Some return_node => mkRef k_handler_return (Some return_node) (label +:+ ".return_node") None
            | None => mkRef k_invalid_reserved_handler (Some handler) label (Some "handler_return_node_missing")
            end
          else mkRef k_invalid_reserved_handler None label (Some "reserved_handler_unknown")
      | None => mkRef k_invalid_reserved_handler None label (Some "reserved_handler_unknown")
      end
  | _ => mkRef k_invalid_reserved_handler None label (Some "target_shape_invalid")
  end.

Definition readNodeTargetRef (value : option json) (label : string) (kind : TargetRefKind) : TargetRef :=
  match as_string value with
  | Some s => mkRef kind (Some s) label None
  | None => mkRef k_invalid_reserved_handler None label (Some "target_shape_invalid")
  end.

Definition isNodeEdge (ref : TargetRef) : bool :=
  match ref_kind ref with
  | k_node | k_handler_return | k_loop_body | k_loop_exit | k_fallback_entry => true
  | _ => false
  end.

Definition targetRefsOf (node : fields) : list TargetRef :=
  match alookup "next" node with Some v => [readTargetRef (Some v) "next"] | None => [] end ++
  map (λ b, readTargetRef (prop "target" (Some b)) "on[].target") (onBranchesOf node) ++
  map (λ t, readNodeTargetRef (prop "entry_node" (Some t)) "fallback_chain[].entry_node" k_fallback_entry)
    (fallbackChainOf node) ++
  match loopOf node with
  | Some l => [readNodeTargetRef (alookup "body_target" l) "loop.body_target" k_loop_body;
               readNodeTargetRef (alookup "exit_target" l) "loop.exit_target" k_loop_exit]
  | None => []
  end.

Definition edgeTargetsOf (node : fields) : list string :=
  concat (map (λ r, if isNodeEdge r then match ref_target r with Some t => [t] | None => [] end else [])
    (targetRefsOf node)).

Definition buildGraph (ir : IRScenario) : graph := map (λ '(id, n), (id, edgeTargetsOf n)) (ir_nodes ir).

(** ** V1, V6, V7 *)

Definition validateTargets (nodeId : string) (node : fields) (nodeIds : list string) : list ValidationIssue :=
  concat (map (λ ref,
    if decide (ref_kind ref = k_invalid_reserved_handler) then
      [issue V1 (default "reserved_handler_call_shape_invalid" (ref_reason ref)) IR_SCHEMA_INVALID
         (ref_label ref +:+ " must use a closed handler-call object with handler, input, and return_node; @end_no_data is terminal and has no return_node")
         (Some nodeId)]
    else if isNodeEdge ref && negb (match ref_target ref with Some t => string_in t nodeIds | None => false end) then
      [issue V1 "target_not_found" IR_SCHEMA_INVALID
         (ref_label ref +:+ " '" +:+ default "<missing>" (ref_target ref) +:+ "' does not exist") (Some nodeId)]
    else []) (targetRefsOf node)).

Definition validateOnBranchReservedHandler (nodeId : string) (node : fields) : list ValidationIssue :=
  concat (map (λ b,
    if isRecord (prop "target" (Some b)) then
      [issue V1 "on_branch_reserved_handler_unsupported" IR_SCHEMA_INVALID
         "on[].target reservedHandlerCall(@challenge/@human_task) is unsupported on an on[] branch; use 'next' for a returning handler call or a node-id/@end_no_data string target"
         (Some nodeId)]
    else []) (onBranchesOf node)).

(** Membership in a [Set<number>] (SameValueZero). *)
Definition is_nan (x : jsnum) : bool := match x with SpecFloat.S754_nan => true | _ => false end.
Definition same_number (x y : jsnum) : bool := num_eqb x y || (is_nan x && is_nan y).

(** The text of an integral number; the schema makes [priority] an integer. *)
Definition num_text (x : jsnum) : string :=
  match num_to_Z x with Some z => pretty z | None => "NaN" end.

Fixpoint duplicatePriorities (nodeId : string) (seen : list jsnum) (branches : list json)
  : list ValidationIssue :=
  match branches with
  | [] => []
  | b :: branches' =>
      match as_number (prop "priority" (Some b)) with
      | None => duplicatePriorities nodeId seen branches'
      | Some p =>
          (if existsb (same_number p) seen
           then [issue V6 "duplicate_priority" IR_SCHEMA_INVALID ("duplicate on[] priority " +:+ num_text p) (Some nodeId)]
           else []) ++ duplicatePriorities nodeId (p :: seen) branches'
      end
  end.

Definition validateOnPriorities (nodeId : string) (node : fields) : list ValidationIssue :=
  duplicatePriorities nodeId [] (onBranchesOf node).

Definition hasEmptyResultWitness (node : fields) : bool :=
  existsb (λ c, bool_decide (str_prop "type" c = Some "empty_result_allowed")) (criteriaOf node).

Definition reachesEndNoData (node : fields) : bool :=
  existsb (λ r, bool_decide (ref_kind r = k_end_no_data)) (targetRefsOf node).

Definition validateEndNoDataWitness (nodeId : string) (node : fields) : list ValidationIssue :=
  let terminalSuccessEmpty := bool_decide (as_string (alookup "terminal" node) = Some "success_empty") in
  if (reachesEndNoData node || terminalSuccessEmpty) && negb (hasEmptyResultWitness node)
  then [issue V7 "empty_result_without_witness" IR_SCHEMA_INVALID
          "@end_no_data/success_empty requires empty_result_allowed witness" (Some nodeId)]
  else [].

(** ** V11, V12 *)

Fixpoint fallbackLoop (previous : Z) (seen : list string) (chain : list json) : bool :=
  match chain with
  | [] => true
  | t :: chain' =>
      match str_prop "tier" t with
      | None => fallbackLoop previous seen chain'
      | Some tier =>
          match alookup tier TIER_ORDER with
          | None => false
          | Some order =>
              if string_in tier seen || (order <=? previous)%Z then false
              else fallbackLoop order (tier :: seen) chain'
          end
      end
  end.

Definition validateFallbackChain (nodeId : string) (node : fields) : list ValidationIssue :=
  if fallbackLoop (-1) [] (fallbackChainOf node) then []
  else [issue V11 "fallback_chain_invalid" IR_SCHEMA_INVALID "fallback_chain tiers must be unique and monotonic T0→T3" (Some nodeId)].

(** The tiers with a [tier] and an [entry_node]. *)
Definition fallbackTiers (node : fields) : list (string * string) :=
  omap (λ t, tier ← str_prop "tier" t; entry ← str_prop "entry_node" t; Some (tier, entry))
    (fallbackChainOf node).

Definition sideEffectOf (ir : IRScenario) (nodeId : string) : option json :=
  n ← alookup nodeId (ir_nodes ir); alookup "side_effect" n.

Definition mutating (ir : IRScenario) (nodeId : string) : bool :=
  match sideEffectOf ir nodeId with
  | Some se => negb (bool_decide (as_string (prop "kind" (Some se)) = Some "read_only"))
  | None => false
  end.

Definition hasIdempotencyKey (ir : IRScenario) (nodeId : string) : bool :=
  match as_string (prop "idempotency_key" (sideEffectOf ir nodeId)) with
  | Some key => negb (bool_decide (key = EmptyString))
  | None => false
  end.

Definition validateFallbackIdempotency (nodeId : string) (node : fields) (ir : IRScenario)
  : list ValidationIssue :=
  let tiers := fallbackTiers node in
  if existsb (λ t, mutating ir t.2) tiers then
    concat (map (λ t,
      if hasIdempotencyKey ir t.2 then []
      else [issue V12 "fallback_side_effect_idempotency_missing" IR_SCHEMA_INVALID
              ("fallback_chain tier '" +:+ t.1 +:+ "' entry_node '" +:+ t.2 +:+
               "' requires side_effect.idempotency_key (non-read_only fallback re-executes tiers; §4)")
              (Some nodeId)]) tiers)
  else [].

(** ** V10 *)

(** [VALUE_PATH_RE]: identifiers separated by dots; [part] tells whether an
    identifier is already open. *)
Fixpoint value_path_re (part : bool) (s : string) : bool :=
  match s with
  | EmptyString => part
  | String c s' =>
      if part then
        if isIdentifierPart c then value_path_re true s'
        else if Ascii.eqb c "."%char then value_path_re false s' else false
      else if isIdentifierStart c then value_path_re true s' else false
  end.

Definition validateValuePaths (nodeId : string) (node : fields) : list ValidationIssue :=
  concat (map (λ c,
    if decide (str_prop "type" c = Some "value_match") then
      match str_prop "path" c with
      | None => []
      | Some path =>
          if negb (value_path_re false path) then
            [issue V10 "invalid_value_path" IR_SCHEMA_INVALID ("invalid value_match.path '" +:+ path +:+ "'") (Some nodeId)]
          else
            let root := (split_dot path).1 in
            if string_in root VALUE_PATH_ROOTS then []
            else [issue V10 "invalid_value_path" IR_SCHEMA_INVALID
                    ("value_match.path '" +:+ path +:+ "' root '" +:+ root +:+ "' must be 'extracted' or 'node.<id>'")
                    (Some nodeId)]
      end
    else []) (criteriaOf node)).

(** ** Human-task owners (V9) *)

Definition correctionFieldsOf (input : fields) : list (string * irel_type) :=
  match as_record (alookup "result_schema" input) with
  | Some schema =>
      if decide (as_string (alookup "version" schema) = Some "business_form_v1") then
        foldl (λ acc f,
          match as_record (Some f) with
          | None => acc
          | Some _ =>
              match str_prop "key" f, str_prop "type" f with
              | Some key, Some ty =>
                  match alookup ty BUSINESS_FORM_FIELD_TYPE with
                  | Some irelType => aset key irelType acc
                  | None => acc
                  end
              | _, _ => acc
              end
          end) [] (default [] (as_array (alookup "fields" schema)))
      else []
  | None => []
  end.

Definition buildHumanTaskNodes (ir : IRScenario) : list (string * HumanTaskNodeMeta) :=
  omap (λ '(nodeId, node),
    next ← as_record (alookup "next" node);
    if decide (as_string (alookup "handler" next) = Some "@human_task") then
      Some (nodeId, mkHumanTaskMeta (correctionFieldsOf (default [] (as_record (alookup "input" next)))))
    else None) (ir_nodes ir).

(** ** V8: expressions *)

Section Expressions.
Context (ir : IRScenario) (nodeIds : list string) (g : graph)
        (humanTasks : list (string * HumanTaskNodeMeta)).

Definition compileBooleanExpression (nodeId expression : string)
    (additionalPrior : option (list string)) (allowLoop : option bool)
  : option IRELNode * list ValidationIssue :=
  match compileIrelExpression expression
          (mkContext nodeId nodeIds g (ir_params_schema ir) additionalPrior allowLoop
             (Some t_boolean) (Some humanTasks)) with
  | Ok c => (Some (c_ast c), [])
  | Err ds => (None, map (λ d, expressionIssue d (Some nodeId)) ds)
  end.

Definition compileOnBranches (nodeId : string) (branches : list json)
  : list CompiledOnBranchAst * list ValidationIssue :=
  foldl (λ '(on, errs) b,
    match str_prop "when" b with
    | None => (on, errs)
    | Some expression =>
        let '(compiled, es) := compileBooleanExpression nodeId expression None None in
        match compiled, as_number (prop "priority" (Some b)) with
        | Some w, Some p => (on ++ [mkOnBranch w (prop "target" (Some b)) p], errs ++ es)
        | _, _ => (on, errs ++ es)
        end
    end) ([], []) branches.

Definition compileLoop (nodeId : string) (node : fields)
  : option CompiledLoopAst * list ValidationIssue :=
  match loopOf node with
  | None => (None, [])
  | Some l =>
      match as_string (alookup "until" l) with
      | None => (None, [])
      | Some expression =>
          let '(compiled, es) := compileBooleanExpression nodeId expression None (Some true) in
          (u ← compiled; body ← as_string (alookup "body_target" l);
           exit ← as_string (alookup "exit_target" l); m ← as_number (alookup "max_iterations" l);
           Some (mkLoop u body exit m), es)
      end
  end.

(** [prior] collects the entry nodes of the tiers read so far. *)
Fixpoint compileFallback (nodeId : string) (prior : list string) (chain : list json)
  : list CompiledFallbackTierAst * list ValidationIssue :=
  match chain with
  | [] => ([], [])
  | t :: chain' =>
      let prior' := match str_prop "entry_node" t with Some e => prior ++ [e] | None => prior end in
      let '(rest, errs) := compileFallback nodeId prior' chain' in
      match str_prop "tier" t, str_prop "entry_node" t with
      | Some tier, Some entry =>
          let '(advance, es) :=
            match str_prop "advance_when" t with
            | Some expression => compileBooleanExpression nodeId expression (Some prior') None
            | None => (None, [])
            end in
          (mkTier tier entry advance :: rest, es ++ errs)
      | _, _ => (rest, errs)
      end
  end.

Definition compileWitnesses (nodeId : string) (criteria : list json)
  : list IRELNode * list ValidationIssue :=
  foldl (λ '(ws, errs) c,
    if decide (str_prop "type" c = Some "empty_result_allowed") then
      match str_prop "when" c with
      | None => (ws, errs)
      | Some expression =>
          let '(compiled, es) := compileBooleanExpression nodeId expression None None in
          (match compiled with Some w => ws ++ [w] | None => ws end, errs ++ es)
      end
    else (ws, errs)) ([], []) criteria.

Definition nonempty {A} (l : list A) : option (list A) := match l with [] => None | _ => Some l end.

Definition validateExpressions (nodeId : string) (node : fields)
  : option CompiledNodeAst * list ValidationIssue :=
  let '(on, e1) := compileOnBranches nodeId (onBranchesOf node) in
  let '(loop, e2) := compileLoop nodeId node in
  let '(chain, e3) := compileFallback nodeId [] (fallbackChainOf node) in
  let '(ws, e4) := compileWitnesses nodeId (criteriaOf node) in
  let compiled := mkNodeAst (nonempty on) loop (nonempty chain) (nonempty ws) in
  (match on, loop, chain, ws with
   | [], None, [], [] => None
   | _, _, _, _ => Some compiled
   end, e1 ++ e2 ++ e3 ++ e4).
End Expressions.

(** ** V8: actions *)

Definition validateSignedCommands (nodeId : string) (node : fields) (signed : option (list string))
  : list ValidationIssue :=
  concat (map (λ a,
    if decide (str_prop "action" a = Some "shell") then
      match signed with
      | None => [issue V8 "shell_cmd_registry_unavailable" IR_SCHEMA_INVALID
                   "shell cmd_ref requires signed command registry at save/promote boundary" (Some nodeId)]
      | Some refs =>
          let cmd := default EmptyString (str_prop "cmd_ref" a) in
          if string_in cmd refs then []
          else [issue V8 "shell_cmd_unregistered" IR_SCHEMA_INVALID ("shell cmd_ref '" +:+ cmd +:+ "' is not registered") (Some nodeId)]
      end
    else []) (whatOf node)).

Definition validateBrowserProductActions (nodeId : string) (node : fields) : list ValidationIssue :=
  concat (map (λ a,
    match str_prop "action" a with
    | Some action =>
        if string_in action BROWSER_PRODUCT_EXCLUDED_ACTIONS then
          [issue V8 "unsupported_browser_product_action" IR_SCHEMA_INVALID
             ("action '" +:+ action +:+ "' is outside browser product mode; use api_call for supported server-side HTTP integration")
             (Some nodeId)]
        else []
    | None => []
    end) (whatOf node)).

(** ** V4: the loop contract *)

Definition valid_max_iterations (v : option json) : bool :=
  match as_number v with
  | Some x => num_is_integer x && num_leb (num_of_Z 1) x && num_leb x (num_of_Z MAX_LOOP_ITERATIONS)
  | None => false
  end.

Definition validateLoopContract (nodeId : string) (node : fields) : list ValidationIssue :=
  match loopOf node with
  | None => []
  | Some l =>
      match as_string (alookup "body_target" l), as_string (alookup "exit_target" l) with
      | Some _, Some _ => []
      | _, _ => [issue V4 "loop_target_invalid" IR_SCHEMA_INVALID "loop requires body_target and exit_target node ids" (Some nodeId)]
      end ++
      if valid_max_iterations (alookup "max_iterations" l) then []
      else [issue V4 "loop_max_iterations_unbounded" IR_SCHEMA_INVALID "loop.max_iterations must be between 1 and 10000" (Some nodeId)]
  end.

(** ** V13: decision branches *)

Definition isLiteralTrue (ast : IRELNode) : bool :=
  match ast with NLiteral t_boolean (VBool true) _ => true | _ => false end.

Definition decisionVarNodeId (ast : IRELNode) (ht : list (string * HumanTaskNodeMeta)) : option string :=
  match ast with
  | NVariable [ns; nodeId; field] _ =>
      if bool_decide (ns = "node") && bool_decide (field = "decision") then
        match alookup nodeId ht with Some _ => Some nodeId | None => None end
      else None
  | _ => None
  end.

Definition stringLiteralValue (ast : IRELNode) : option string :=
  match ast with NLiteral t_string (VStr s) _ => Some s | _ => None end.

Definition bareDecisionEquality (ast : IRELNode) (ht : list (string * HumanTaskNodeMeta))
  : option (string * string) :=
  match ast with
  | NCompare op_eq l r _ =>
      match decisionVarNodeId l ht, stringLiteralValue r with
      | Some n, Some lit => Some (n, lit)
      | _, _ =>
          match decisionVarNodeId r ht, stringLiteralValue l with
          | Some n, Some lit => Some (n, lit)
          | _, _ => None
          end
      end
  | _ => None
  end.

(** Adding to a [Set] kept in insertion order. *)
Definition set_add (s : string) (l : list string) : list string := if string_in s l then l else l ++ [s].

(** [walkIrel]: the nodes of a tree in visiting order. *)
Fixpoint walkIrel (ast : IRELNode) : list IRELNode :=
  ast :: match ast with
         | NUnary e _ => walkIrel e
         | NBinary _ l r _ | NCompare _ l r _ | NLogical _ l r _ => walkIrel l ++ walkIrel r
         | NCall _ args _ => concat (map walkIrel args)
         | _ => []
         end.

Definition decisionRefsIn (ast : IRELNode) (ht : list (string * HumanTaskNodeMeta)) : list string :=
  foldl (λ refs n, match decisionVarNodeId n ht with Some id => set_add id refs | None => refs end)
    [] (walkIrel ast).

Record decision_state := mkDecisionState {
  ds_covered : list (string * list string);
  ds_impure : list string;
  ds_referenced : list string;
  ds_catch_all : bool
}.

Definition decisionStep (ht : list (string * HumanTaskNodeMeta)) (st : decision_state)
    (branch : CompiledOnBranchAst) : decision_state :=
  let w := ob_when branch in
  if isLiteralTrue w then
    mkDecisionState (ds_covered st) (ds_impure st) (ds_referenced st) true
  else
    match bareDecisionEquality w ht with
    | Some (n, lit) =>
        mkDecisionState (aset n (set_add lit (default [] (alookup n (ds_covered st)))) (ds_covered st))
          (ds_impure st) (set_add n (ds_referenced st)) (ds_catch_all st)
    | None =>
        foldl (λ st n, mkDecisionState (ds_covered st) (set_add n (ds_impure st))
                         (set_add n (ds_referenced st)) (ds_catch_all st))
          st (decisionRefsIn w ht)
    end.

Definition validateDecisionBranchCompleteness (nodeId : string) (compiledNode : CompiledNodeAst)
    (ht : list (string * HumanTaskNodeMeta)) : list ValidationIssue :=
  match cn_on compiledNode with
  | None => []
  | Some branches =>
      let st := foldl (decisionStep ht) (mkDecisionState [] [] [] false) branches in
      if ds_catch_all st then []
      else
        concat (map (λ n,
          if string_in n (ds_impure st) then []
          else
            let literals := default [] (alookup n (ds_covered st)) in
            match filter (λ v, v ∉ literals) IREL_DECISION_VALUES with
            | [] => []
            | missing =>
                [issue V13 "decision_branch_incomplete" IR_SCHEMA_INVALID
                   ("on[] branches on node." +:+ n +:+ ".decision do not cover decision value(s) [" +:+
                    join ", " missing +:+
                    "] and no catch-all branch exists; resume on an uncovered human decision would raise IR_NO_BRANCH_MATCHED and stick the run")
                   (Some nodeId)]
            end) (ds_referenced st))
  end.

(** ** V4: cycles (Tarjan's components) *)

Record tarjan := mkTarjan {
  tj_index : list (string * nat);
  tj_lowlink : list (string * nat);
  tj_stack : list string;
  tj_onStack : list string;
  tj_next : nat;
  tj_illegal : list string
}.

Definition tj_lookup (m : list (string * nat)) (n : string) : nat := default 0 (alookup n m).

(** The [do ... while] that pops a component; the stack has its top first. *)
Fixpoint popComponent (nodeId : string) (stack : list string) : list string * list string :=
  match stack with
  | [] => ([], [])
  | c :: stack' =>
      if decide (c = nodeId) then ([c], stack')
      else let '(component, rest) := popComponent nodeId stack' in (c :: component, rest)
  end.

Section Cycles.
Context (g : graph) (nodes : list (string * fields)).

Definition cyclic (component : list string) : bool :=
  bool_decide (1 < length component) || existsb (λ id, string_in id (succs g id)) component.

Definition closeComponent (nodeId : string) (st : tarjan) : tarjan :=
  if decide (tj_lookup (tj_lowlink st) nodeId = tj_lookup (tj_index st) nodeId) then
    let '(component, rest) := popComponent nodeId (tj_stack st) in
    let illegal :=
      if cyclic component && negb (existsb (λ id, isLoopNode (alookup id nodes)) component)
      then match component with c :: _ => set_add c (tj_illegal st) | [] => tj_illegal st end
      else tj_illegal st in
    mkTarjan (tj_index st) (tj_lowlink st) rest
      (filter (λ id, id ∉ component) (tj_onStack st)) (tj_next st) illegal
  else st.

Definition setLow (nodeId : string) (low : nat) (st : tarjan) : tarjan :=
  mkTarjan (tj_index st)
    (aset nodeId (Nat.min (tj_lookup (tj_lowlink st) nodeId) low) (tj_lowlink st))
    (tj_stack st) (tj_onStack st) (tj_next st) (tj_illegal st).

Definition enter (nodeId : string) (st : tarjan) : tarjan :=
  mkTarjan (aset nodeId (tj_next st) (tj_index st)) (aset nodeId (tj_next st) (tj_lowlink st))
    (nodeId :: tj_stack st) (nodeId :: tj_onStack st) (S (tj_next st)) (tj_illegal st).

Definition indexed (st : tarjan) (n : string) : bool :=
  match alookup n (tj_index st) with Some _ => true | None => false end.
Definition in_graph (n : string) : bool := match alookup n g with Some _ => true | None => false end.

(** The loop over the successors of [nodeId]; [call] is the recursive call. *)
Fixpoint visitNexts (call : string → tarjan → option tarjan) (nodeId : string) (nexts : list string)
    (st : tarjan) : option tarjan :=
  match nexts with
  | [] => Some st
  | next :: nexts' =>
      if negb (in_graph next) then visitNexts call nodeId nexts' st
      else if negb (indexed st next) then
        st1 ← call next st;
        visitNexts call nodeId nexts' (setLow nodeId (tj_lookup (tj_lowlink st1) next) st1)
      else if string_in next (tj_onStack st) then
        visitNexts call nodeId nexts' (setLow nodeId (tj_lookup (tj_index st) next) st)
      else visitNexts call nodeId nexts' st
  end.

(** [None] when the depth of the recursion exceeds the fuel. *)
Fixpoint strongConnect (fuel : nat) (nodeId : string) (st : tarjan) : option tarjan :=
  match fuel with
  | O => None
  | S fuel =>
      st' ← visitNexts (strongConnect fuel) nodeId (succs g nodeId) (enter nodeId st);
      Some (closeComponent nodeId st')
  end.

Fixpoint tarjanLoop (fuel : nat) (keys : list string) (st : tarjan) : option tarjan :=
  match keys with
  | [] => Some st
  | n :: keys' =>
      if indexed st n then tarjanLoop fuel keys' st
      else st' ← strongConnect fuel n st; tarjanLoop fuel keys' st'
  end.

Definition findIllegalCycles : option (list string) :=
  tj_illegal <$> tarjanLoop (S (length g)) g.*1 (mkTarjan [] [] [] [] 0 []).
End Cycles.

(** ** V3, V4, V5 and the whole compilation *)

Definition hasReachableTerminal (ir : IRScenario) (reachable : gset string) : bool :=
  existsb (λ '(id, node),
    bool_decide (id ∈ reachable) &&
    (match alookup "terminal" node with Some _ => true | None => false end || reachesEndNoData node))
    (ir_nodes ir).

Definition validateLoopExitReachability (ir : IRScenario) (g : graph) (nodeIds : list string)
    (reachable : gset string) : list ValidationIssue :=
  concat (map (λ '(nodeId, node),
    match loopOf node with
    | None => []
    | Some l =>
        match as_string (alookup "exit_target" l) with
        | None => []
        | Some exit =>
            if bool_decide (nodeId ∈ reachable) && string_in exit nodeIds &&
               negb (bool_decide (exit ∈ reachableFrom nodeId g))
            then [issue V4 "loop_exit_unreachable" IR_SCHEMA_INVALID
                    ("loop.exit_target '" +:+ exit +:+ "' is not reachable from loop node '" +:+ nodeId +:+ "'")
                    (Some nodeId)]
            else []
        end
    end) (ir_nodes ir)).

(** The body of the loop over the nodes: errors, warnings, compiled node. *)
Definition validateNode (ir : IRScenario) (signed : option (list string)) (nodeIds : list string)
    (g : graph) (ht : list (string * HumanTaskNodeMeta)) (nodeId : string) (node : fields)
  : list ValidationIssue * list ValidationIssue * option CompiledNodeAst :=
  let '(compiled, exprErrors) := validateExpressions ir nodeIds g ht nodeId node in
  (validateTargets nodeId node nodeIds ++ validateOnBranchReservedHandler nodeId node ++
   validateOnPriorities nodeId node ++ validateFallbackChain nodeId node ++
   validateFallbackIdempotency nodeId node ir ++ validateValuePaths nodeId node ++ exprErrors ++
   validateBrowserProductActions nodeId node ++ validateSignedCommands nodeId node signed ++
   validateLoopContract nodeId node,
   validateEndNoDataWitness nodeId node ++
   match compiled with
   | Some c => validateDecisionBranchCompleteness nodeId c ht
   | None => []
   end,
   compiled).

Record CompiledScenarioAst := mkScenarioAst {
  ca_ir_version : string;
  ca_scenario_version : jsnum;
  ca_nodes : list (string * CompiledNodeAst)
}.

Definition compileScenarioStatic (ir : IRScenario) (signed : option (list string))
  : ValidationReport * option CompiledScenarioAst :=
  let nodeIds := (ir_nodes ir).*1 in
  let startErrors :=
    if string_in (ir_start ir) nodeIds then []
    else [issue V2 "start_not_found" IR_SCHEMA_INVALID ("start node '" +:+ ir_start ir +:+ "' does not exist") None] in
  let schemaErrors :=
    match validateParamsSchemaForIrel (ir_params_schema ir) with
    | Some d => [expressionIssue d None]
    | None => []
    end in
  let g := buildGraph ir in
  let ht := buildHumanTaskNodes ir in
  let perNode := map (λ '(id, n), (id, validateNode ir signed nodeIds g ht id n)) (ir_nodes ir) in
  let reachable := reachableFrom (ir_start ir) g in
  let terminalErrors :=
    if string_in (ir_start ir) nodeIds && negb (hasReachableTerminal ir reachable)
    then [issue V3 "no_reachable_terminal" IR_SCHEMA_INVALID "no terminal or @end_no_data is reachable from start" None] else [] in
  let unreachable :=
    concat (map (λ id, if decide (id ∈ reachable) then []
      else [issue V5 "unreachable_node" IR_SCHEMA_INVALID ("node '" +:+ id +:+ "' is not reachable from start") (Some id)]) nodeIds) in
  let cycles :=
    map (λ id, issue V4 "illegal_cycle" IR_SCHEMA_INVALID ("cycle reaches '" +:+ id +:+ "' without a loop node") (Some id))
      (default [] (findIllegalCycles g (ir_nodes ir))) in
  let errs := startErrors ++ schemaErrors ++ concat (map (λ '(_, (e, _, _)), e) perNode) ++
              validateLoopExitReachability ir g nodeIds reachable ++ terminalErrors ++ cycles in
  let warns := concat (map (λ '(_, (_, w, _)), w) perNode) ++ unreachable in
  let compiledNodes := omap (λ '(id, (_, _, c)), c ← c; Some (id, c)) perNode in
  (mkReport errs warns,
   match errs with
   | [] => Some (mkScenarioAst (default "1.x" (ir_meta_ir_version ir)) (ir_meta_version ir) compiledNodes)
   | _ => None
   end).

Definition validateScenarioStatic (ir : IRScenario) (signed : option (list string)) : ValidationReport :=
  (compileScenarioStatic ir signed).1.

Example compile_ex :
  let ir := mkScenario "a"
    [("a", [("on", JArr [JObj [("when", JStr "flags.blocked"); ("target", JStr "b"); ("priority", JNum (num_of_Z 1))];
                         JObj [("when", JStr "true"); ("target", JStr "b"); ("priority", JNum (num_of_Z 2))]])]);
     ("b", [("terminal", JStr "success")])] None None (num_of_Z 1) in
  (compileScenarioStatic ir None).1 = mkReport [] [].
Proof. vm_compute. reflexivity. Qed.

(** ** Termination of the cycle search *)

Section Termination.
Context (g : graph) (nodes : list (string * fields)).

(** The nodes not yet visited. *)
Definition unvisited (st : tarjan) : nat := length (filter (λ n, indexed st n = false) g.*1).

Definition grows (st st' : tarjan) : Prop := ∀ m, indexed st m = true → indexed st' m = true.

Lemma filter_length_le {A} (P Q : A → Prop) `{∀ x, Decision (P x), ∀ x, Decision (Q x)} l :
  (∀ x, P x → Q x) → length (filter P l) ≤ length (filter Q l).
Proof.
  intros HPQ. induction l as [|x l IH]; [done|]. rewrite !filter_cons.
  repeat case_decide; simpl; try lia. exfalso. auto.
Qed.

Lemma filter_length_lt {A} (P Q : A → Prop) `{∀ x, Decision (P x), ∀ x, Decision (Q x)} l y :
  (∀ x, P x → Q x) → y ∈ l → Q y → ¬ P y → length (filter P l) < length (filter Q l).
Proof.
  intros HPQ Hy HQ HP. induction l as [|x l IH]; [by apply not_elem_of_nil in Hy|].
  rewrite !filter_cons. apply elem_of_cons in Hy as [<-|Hy].
  - rewrite decide_False, decide_True by done. simpl.
    assert (length (filter P l) ≤ length (filter Q l)) by (by apply filter_length_le). lia.
  - specialize (IH Hy). repeat case_decide; simpl; try lia. exfalso. auto.
Qed.

Lemma not_indexed_dec st n : indexed st n ≠ true ↔ indexed st n = false.
Proof. apply not_true_iff_false. Qed.

Lemma unvisited_grows st st' : grows st st' → unvisited st' ≤ unvisited st.
Proof.
  intros H. apply filter_length_le. intros n. rewrite <- !not_indexed_dec. auto.
Qed.

Lemma indexed_enter n st m : indexed (enter n st) m = bool_decide (m = n) || indexed st m.
Proof.
  unfold indexed, enter. simpl. rewrite alookup_aset.
  case_decide; [by rewrite bool_decide_eq_true_2|by rewrite bool_decide_eq_false_2].
Qed.

Lemma in_graph_elem n : in_graph g n = true ↔ n ∈ g.*1.
Proof.
  unfold in_graph. rewrite <- alookup_is_Some. destruct (alookup n g); split; try done; eauto.
Qed.

Lemma unvisited_enter n st : in_graph g n = true → indexed st n = false →
  unvisited (enter n st) < unvisited st.
Proof.
  intros Hg%in_graph_elem Hn. apply (filter_length_lt _ _ _ n); [|done|done|].
  - intros m. rewrite indexed_enter. destruct (indexed st m); [|done]. by rewrite orb_true_r.
  - rewrite indexed_enter, bool_decide_eq_true_2 by done. done.
Qed.

Lemma indexed_close n st m : indexed (closeComponent g nodes n st) m = indexed st m.
Proof. unfold closeComponent. case_decide; [|done]. by destruct (popComponent n (tj_stack st)). Qed.

Lemma strongConnect_total fuel : ∀ n st, in_graph g n = true → indexed st n = false →
  unvisited st ≤ fuel →
  ∃ st', strongConnect g nodes fuel n st = Some st' ∧ grows st st' ∧ indexed st' n = true.
Proof.
  induction fuel as [|fuel IH]; intros n st Hg Hn Hu.
  { assert (H := unvisited_enter n st Hg Hn). lia. }
  assert (H := unvisited_enter n st Hg Hn).
  assert (H0 : unvisited (enter n st) ≤ fuel) by lia.
  assert (H1 : grows st (enter n st)).
  { intros m Hm. by rewrite indexed_enter, Hm, orb_true_r. }
  assert (H2 : indexed (enter n st) n = true)
    by (by rewrite indexed_enter, bool_decide_eq_true_2).
  cbn [strongConnect].
  assert (Hvisit : ∀ nexts s, unvisited s ≤ fuel →
    ∃ s', visitNexts g (strongConnect g nodes fuel) n nexts s = Some s' ∧ grows s s').
  { induction nexts as [|next nexts IHn]; intros s Hs; cbn [visitNexts].
    { exists s. split; [done|by intros m]. }
    destruct (in_graph g next) eqn:Eg; simpl; [|by apply IHn].
    destruct (indexed s next) eqn:Ei; simpl.
    - destruct (string_in next (tj_onStack s)); [|by apply IHn].
      destruct (IHn (setLow n (tj_lookup (tj_index s) next) s) Hs) as (s' & ? & ?). by exists s'.
    - destruct (IH next s Eg Ei Hs) as (s1 & -> & Hgr & _). simpl.
      destruct (IHn (setLow n (tj_lookup (tj_lowlink s1) next) s1)) as (s' & -> & Hgr').
      { change (unvisited s1 ≤ fuel). apply unvisited_grows in Hgr. lia. }
      exists s'. split; [done|]. intros m Hm. apply Hgr'. by apply Hgr. }
  destruct (Hvisit (succs g n) (enter n st) H0) as (s' & -> & Hgr). simpl.
  eexists. split; [done|]. split; [|rewrite indexed_close; by apply Hgr].
  intros m Hm. rewrite indexed_close. by apply Hgr, H1.
Qed.

Lemma unvisited_le st : unvisited st ≤ length g.
Proof. unfold unvisited. etrans; [apply length_filter|]. by rewrite length_fmap. Qed.

Lemma tarjanLoop_total keys : ∀ st, keys ⊆ g.*1 →
  ∃ st', tarjanLoop g nodes (S (length g)) keys st = Some st'.
Proof.
  induction keys as [|n keys IH]; intros st Hk; cbn [tarjanLoop]; [eauto|].
  assert (Hks : keys ⊆ g.*1) by (intros x Hx; apply Hk; by right).
  destruct (indexed st n) eqn:E; [by apply IH|].
  destruct (strongConnect_total (S (length g)) n st) as (st' & -> & _); [|done| |by apply IH].
  - apply in_graph_elem, Hk. by left.
  - assert (H := unvisited_le st). lia.
Qed.

(** The search always ends, for any graph. *)
Lemma findIllegalCycles_total : is_Some (findIllegalCycles g nodes).
Proof.
  unfold findIllegalCycles.
  destruct (tarjanLoop_total g.*1 (mkTarjan [] [] [] [] 0 [])) as [st ->]; [done|]. by eexists.
Qed.
End Termination.

(** ** What an accepted scenario satisfies *)

Definition is_terminal (node : fields) : bool :=
  match alookup "terminal" node with Some _ => true | None => false end || reachesEndNoData node.

Definition prioritiesOf (node : fields) : list jsnum :=
  omap (λ b, as_number (prop "priority" (Some b))) (onBranchesOf node).

Definition tiersOf (node : fields) : list string := omap (str_prop "tier") (fallbackChainOf node).

Record well_formed (ir : IRScenario) : Prop := {
  wf_start : ir_start ir ∈ (ir_nodes ir).*1;
  wf_targets : ∀ id n, (id, n) ∈ ir_nodes ir →
    ∀ r, r ∈ targetRefsOf n →
      (isNodeEdge r = true ∧ ∃ t, ref_target r = Some t ∧ t ∈ (ir_nodes ir).*1) ∨
      ref_kind r = k_end_no_data;
  wf_reachable : ∀ id, reaches (buildGraph ir) (ir_start ir) id → id ∈ (ir_nodes ir).*1;
  wf_terminal : ∃ id n, (id, n) ∈ ir_nodes ir ∧ reaches (buildGraph ir) (ir_start ir) id ∧
    is_terminal n = true;
  wf_branches : ∀ id n, (id, n) ∈ ir_nodes ir →
    ForallOrdPairs (λ p q, same_number q p = false) (prioritiesOf n) ∧
    ∀ b, b ∈ onBranchesOf n → ∃ s, prop "target" (Some b) = Some (JStr s);
  wf_loops : ∀ id n l, (id, n) ∈ ir_nodes ir → loopOf n = Some l →
    (∃ body, as_string (alookup "body_target" l) = Some body ∧ body ∈ (ir_nodes ir).*1) ∧
    (∃ exit, as_string (alookup "exit_target" l) = Some exit ∧ exit ∈ (ir_nodes ir).*1) ∧
    (∃ x, as_number (alookup "max_iterations" l) = Some x ∧ num_is_integer x = true ∧
          num_leb (num_of_Z 1) x = true ∧ num_leb x (num_of_Z MAX_LOOP_ITERATIONS) = true);
  wf_fallback : ∀ id n, (id, n) ∈ ir_nodes ir →
    (∃ orders, map (λ t, alookup t TIER_ORDER) (tiersOf n) = map Some orders ∧
               StronglySorted Z.lt orders) ∧
    ((∃ t, t ∈ fallbackTiers n ∧ mutating ir t.2 = true) →
     ∀ t, t ∈ fallbackTiers n → hasIdempotencyKey ir t.2 = true);
  wf_actions : ∀ id n a, (id, n) ∈ ir_nodes ir → a ∈ whatOf n →
    str_prop "action" a ≠ Some "shell" ∧ str_prop "action" a ≠ Some "file";
  wf_value_paths : ∀ id n c path, (id, n) ∈ ir_nodes ir → c ∈ criteriaOf n →
    str_prop "type" c = Some "value_match" → str_prop "path" c = Some path →
    value_path_re false path = true ∧ (split_dot path).1 ∈ VALUE_PATH_ROOTS }.

(** ** The validators, one by one *)

Lemma validateTargets_nil id n ids : validateTargets id n ids = [] →
  ∀ r, r ∈ targetRefsOf n →
    (isNodeEdge r = true ∧ ∃ t, ref_target r = Some t ∧ t ∈ ids) ∨ ref_kind r = k_end_no_data.
Proof.
  unfold validateTargets. rewrite concat_map_nil. intros H r Hr. specialize (H r Hr). simpl in H.
  case_decide as Hk; [done|]. destruct (isNodeEdge r) eqn:E.
  - left. split; [done|]. simpl in H. destruct (ref_target r) as [t|]; [|done].
    destruct (string_in t ids) eqn:Ei; [|done]. apply bool_decide_eq_true in Ei. eauto.
  - right. unfold isNodeEdge in E. by destruct (ref_kind r).
Qed.

Lemma edgeTargetsOf_elem n t : t ∈ edgeTargetsOf n ↔
  ∃ r, r ∈ targetRefsOf n ∧ isNodeEdge r = true ∧ ref_target r = Some t.
Proof.
  unfold edgeTargetsOf. rewrite list_elem_of_In, in_concat. setoid_rewrite in_map_iff. split.
  - intros (l & (r & <- & Hr%list_elem_of_In) & Ht). exists r. split; [done|].
    destruct (isNodeEdge r); [|done]. destruct (ref_target r) as [u|]; [|done].
    destruct Ht as [->|[]]. done.
  - intros (r & Hr & He & Ht). eexists. split; [exists r; split; [done|by apply list_elem_of_In]|].
    rewrite He, Ht. by left.
Qed.

Lemma duplicatePriorities_nil id bs : ∀ seen, duplicatePriorities id seen bs = [] →
  ForallOrdPairs (λ p q, same_number q p = false) (omap (λ b, as_number (prop "priority" (Some b))) bs) ∧
  ∀ p q, p ∈ seen → q ∈ omap (λ b, as_number (prop "priority" (Some b))) bs → same_number q p = false.
Proof.
  induction bs as [|b bs IH]; intros seen H; cbn [duplicatePriorities omap list_omap] in H |- *.
  { split; [constructor|]. intros p q _ Hq. by apply not_elem_of_nil in Hq. }
  destruct (as_number (prop "priority" (Some b))) as [p|]; [|by apply IH].
  apply app_nil in H as [Hd H]. destruct (existsb (same_number p) seen) eqn:E; [done|].
  apply IH in H as [H1 H2]. split.
  - constructor; [|done]. apply List.Forall_forall. intros q Hq. apply H2; [by left|by apply list_elem_of_In].
  - intros p' q Hp Hq. apply elem_of_cons in Hq as [->|Hq]; [|apply H2; [by right|done]].
    apply not_true_iff_false. intros Hs. apply not_true_iff_false in E. apply E.
    apply existsb_exists. exists p'. split; [by apply list_elem_of_In|done].
Qed.

Lemma validateFallbackChain_nil id n : validateFallbackChain id n = [] →
  ∃ orders, map (λ t, alookup t TIER_ORDER) (tiersOf n) = map Some orders ∧ StronglySorted Z.lt orders.
Proof.
  unfold validateFallbackChain, tiersOf. destruct (fallbackLoop _ _ _) eqn:E; [|done]. intros _.
  assert (Hgen : ∀ chain previous seen, fallbackLoop previous seen chain = true →
    ∃ orders, map (λ t, alookup t TIER_ORDER) (omap (str_prop "tier") chain) = map Some orders ∧
      StronglySorted Z.lt orders ∧ Forall (Z.lt previous) orders).
  { clear. induction chain as [|t chain IH]; intros previous seen H; [by exists []; repeat constructor|].
    cbn [fallbackLoop omap list_omap] in H |- *.
    destruct (str_prop "tier" t) as [tier|]; [|by eapply IH].
    cbn [map]. destruct (alookup tier TIER_ORDER) as [order|] eqn:Eo; [|done].
    destruct (string_in tier seen || (order <=? previous)%Z) eqn:Ec; [done|].
    apply orb_false_iff in Ec as [_ Ec%Z.leb_gt].
    apply IH in H as (orders & Hm & Hs & Hf). exists (order :: orders).
    split; [cbn [map]; by rewrite Hm|]. split; [by constructor|].
    constructor; [done|]. eapply Forall_impl; [done|]. simpl. lia. }
  destruct (Hgen _ _ _ E) as (orders & ? & ? & _). eauto.
Qed.

Lemma validateFallbackIdempotency_nil id n ir : validateFallbackIdempotency id n ir = [] →
  (∃ t, t ∈ fallbackTiers n ∧ mutating ir t.2 = true) →
  ∀ t, t ∈ fallbackTiers n → hasIdempotencyKey ir t.2 = true.
Proof.
  unfold validateFallbackIdempotency. intros H (t & Ht & Hm) u Hu.
  assert (E : existsb (λ t, mutating ir t.2) (fallbackTiers n) = true).
  { apply existsb_exists. exists t. split; [by apply list_elem_of_In|done]. }
  rewrite E, concat_map_nil in H. specialize (H u Hu). simpl in H.
  by destruct (hasIdempotencyKey ir u.2).
Qed.

Lemma validateBrowserProductActions_nil id n : validateBrowserProductActions id n = [] →
  ∀ a, a ∈ whatOf n → str_prop "action" a ≠ Some "shell" ∧ str_prop "action" a ≠ Some "file".
Proof.
  unfold validateBrowserProductActions. rewrite concat_map_nil. intros H a Ha. specialize (H a Ha).
  simpl in H. split; intros E; rewrite E in H; done.
Qed.

Lemma validateLoopContract_nil id n l : validateLoopContract id n = [] → loopOf n = Some l →
  is_Some (as_string (alookup "body_target" l)) ∧ is_Some (as_string (alookup "exit_target" l)) ∧
  valid_max_iterations (alookup "max_iterations" l) = true.
Proof.
  unfold validateLoopContract. intros H E. rewrite E in H. apply app_nil in H as [H1 H2].
  destruct (as_string (alookup "body_target" l)), (as_string (alookup "exit_target" l)); try done.
  destruct (valid_max_iterations _); [|done]. eauto.
Qed.

Lemma validateOnBranchReservedHandler_nil id n ids :
  validateOnBranchReservedHandler id n = [] → validateTargets id n ids = [] →
  ∀ b, b ∈ onBranchesOf n → ∃ s, prop "target" (Some b) = Some (JStr s).
Proof.
  unfold validateOnBranchReservedHandler. rewrite concat_map_nil. intros H Ht b Hb.
  specialize (H b Hb). cbv beta in H.
  assert (Hr : readTargetRef (prop "target" (Some b)) "on[].target" ∈ targetRefsOf n).
  { unfold targetRefsOf. apply elem_of_app. right. apply elem_of_app. left.
    apply list_elem_of_fmap. by exists b. }
  apply (validateTargets_nil _ _ _ Ht) in Hr.
  destruct (prop "target" (Some b)) as [[]|]; eauto; simpl in H; try discriminate H;
    destruct Hr as [[Hr _]|Hr]; by vm_compute in Hr.
Qed.

Lemma validateValuePaths_nil id n : validateValuePaths id n = [] → ∀ c path, c ∈ criteriaOf n →
  str_prop "type" c = Some "value_match" → str_prop "path" c = Some path →
  value_path_re false path = true ∧ (split_dot path).1 ∈ VALUE_PATH_ROOTS.
Proof.
  unfold validateValuePaths. rewrite concat_map_nil. intros H c path Hc Ht Hp. specialize (H c Hc).
  simpl in H. rewrite decide_True, Hp in H by done. destruct (value_path_re false path); [|done].
  simpl in H. destruct (string_in (split_dot path).1 VALUE_PATH_ROOTS) eqn:E; [|done].
  split; [done|]. by apply bool_decide_eq_true in E.
Qed.

(** ** Assembling *)

(** The per-node errors of a scenario without errors. *)
Lemma compile_errors_nil ir signed ast rep : compileScenarioStatic ir signed = (rep, Some ast) →
  rep = mkReport [] (warnings rep) ∧
  ir_start ir ∈ (ir_nodes ir).*1 ∧
  hasReachableTerminal ir (reachableFrom (ir_start ir) (buildGraph ir)) = true ∧
  ca_nodes ast = omap (λ '(id, n),
    c ← (validateExpressions ir (ir_nodes ir).*1 (buildGraph ir) (buildHumanTaskNodes ir) id n).1;
    Some (id, c)) (ir_nodes ir) ∧
  (∀ id n, (id, n) ∈ ir_nodes ir →
     (validateNode ir signed (ir_nodes ir).*1 (buildGraph ir) (buildHumanTaskNodes ir) id n).1.1 = []).
Proof.
  unfold compileScenarioStatic. set (perNode := map _ (ir_nodes ir)).
  match goal with |- (mkReport ?e ?w, _) = _ → _ => set (errs := e); set (warns := w) end.
  destruct errs as [|x errs'] eqn:Eerr; [|done]. intros [= <- <-].
  unfold errs in Eerr. clear errs.
  apply app_nil in Eerr as [Hs Eerr]. apply app_nil in Eerr as [_ Eerr].
  apply app_nil in Eerr as [Hn Eerr]. apply app_nil in Eerr as [_ Eerr]. apply app_nil in Eerr as [Ht _].
  assert (Hstart : string_in (ir_start ir) (ir_nodes ir).*1 = true) by (by destruct (string_in _ _)).
  rewrite Hstart in Ht. simpl in Ht. split_and!.
  - done.
  - by apply bool_decide_eq_true in Hstart.
  - by destruct (hasReachableTerminal _ _).
  - simpl. unfold perNode. clear. generalize ((ir_nodes ir).*1) as ids.
    induction (ir_nodes ir) as [|[id n] l IH]; intros ids; [done|].
    cbn [map omap list_omap]. unfold validateNode at 1.
    destruct (validateExpressions _ _ _ _ _ _) as [[c|] es] eqn:E; cbn [mbind option_bind fst].
    + f_equal. apply IH.
    + apply IH.
  - intros id n Hin. rewrite concat_map_nil in Hn.
    specialize (Hn (id, validateNode ir signed (ir_nodes ir).*1 (buildGraph ir) (buildHumanTaskNodes ir) id n)).
    destruct (validateNode _ _ _ _ _ _ _) as [[e w] c] eqn:Ev. simpl. apply Hn.
    apply list_elem_of_fmap. exists (id, n). split; [by rewrite Ev|done].
Qed.

Lemma validateNode_nil ir signed ids g ht id n : (validateNode ir signed ids g ht id n).1.1 = [] →
  validateTargets id n ids = [] ∧ validateOnBranchReservedHandler id n = [] ∧
  validateOnPriorities id n = [] ∧ validateFallbackChain id n = [] ∧
  validateFallbackIdempotency id n ir = [] ∧ validateValuePaths id n = [] ∧
  (validateExpressions ir ids g ht id n).2 = [] ∧
  validateBrowserProductActions id n = [] ∧ validateSignedCommands id n signed = [] ∧
  validateLoopContract id n = [].
Proof.
  unfold validateNode. destruct (validateExpressions _ _ _ _ _ _) as [c es]. simpl.
  rewrite !app_nil. tauto.
Qed.

Lemma succs_buildGraph ir a t : t ∈ succs (buildGraph ir) a →
  ∃ n, (a, n) ∈ ir_nodes ir ∧ t ∈ edgeTargetsOf n.
Proof.
  unfold succs, buildGraph. induction (ir_nodes ir) as [|[id n] l IH]; simpl.
  - intros Ht. by apply not_elem_of_nil in Ht.
  - case_decide as E.
    + subst. intros Ht. exists n. split; [by left|done].
    + intros (n' & ? & ?)%IH. exists n'. split; [by right|done].
Qed.

Lemma loop_refs n l : loopOf n = Some l →
  readNodeTargetRef (alookup "body_target" l) "loop.body_target" k_loop_body ∈ targetRefsOf n ∧
  readNodeTargetRef (alookup "exit_target" l) "loop.exit_target" k_loop_exit ∈ targetRefsOf n.
Proof.
  intros E. unfold targetRefsOf. rewrite E. rewrite !elem_of_app. split; do 3 right; set_solver.
Qed.

Lemma loop_target_known ids id n v label k s :
  validateTargets id n ids = [] → readNodeTargetRef v label k ∈ targetRefsOf n → k ≠ k_end_no_data →
  as_string v = Some s → s ∈ ids.
Proof.
  intros H Hr Hk Hs. apply (validateTargets_nil _ _ _ H) in Hr. unfold readNodeTargetRef in Hr.
  rewrite Hs in Hr. simpl in Hr. destruct Hr as [(_ & t & [= <-] & ?)|?]; done.
Qed.

Lemma compiled_well_formed ir signed rep ast :
  compileScenarioStatic ir signed = (rep, Some ast) → well_formed ir.
Proof.
  intros (_ & Hstart & Hterm & _ & Hn)%compile_errors_nil.
  assert (Hnode : ∀ id n, (id, n) ∈ ir_nodes ir → _) by (intros id n Hin; exact (validateNode_nil _ _ _ _ _ _ _ (Hn id n Hin))).
  assert (Hclosed : ∀ id, reaches (buildGraph ir) (ir_start ir) id → id ∈ (ir_nodes ir).*1).
  { intros id Hr. apply (rtc_ind_r (λ id, id ∈ (ir_nodes ir).*1) (ir_start ir)) in Hr; [done|done|].
    clear id Hr. intros a b _ Hab _. apply succs_buildGraph in Hab as (n & Hin & Ht).
    apply edgeTargetsOf_elem in Ht as (r & Hr' & He & Ht).
    destruct (Hnode _ _ Hin) as (H1 & _). apply (validateTargets_nil _ _ _ H1) in Hr' as [(_ & t & E & ?)|E].
    - congruence.
    - unfold isNodeEdge in He. by rewrite E in He. }
  split; try done.
  - intros id n Hin. destruct (Hnode _ _ Hin) as (H1 & _). by eapply validateTargets_nil.
  - apply existsb_exists in Hterm as ([id n] & Hin%list_elem_of_In & [Hr Ht]%andb_true_iff).
    exists id, n. split; [done|]. split; [|done]. apply bool_decide_eq_true in Hr.
    by apply reachableFrom_correct.
  - intros id n Hin. destruct (Hnode _ _ Hin) as (H1 & H2 & H3 & _). split.
    + by apply duplicatePriorities_nil in H3 as [? _].
    + by eapply validateOnBranchReservedHandler_nil.
  - intros id n l Hin Hl. destruct (Hnode _ _ Hin) as (H1 & _ & _ & _ & _ & _ & _ & _ & _ & H2).
    destruct (validateLoopContract_nil _ _ _ H2 Hl) as ([b Hb] & [e He] & Hm).
    destruct (loop_refs _ _ Hl) as [Rb Re]. split_and!.
    + exists b. split; [done|]. by eapply (loop_target_known _ _ _ _ _ k_loop_body).
    + exists e. split; [done|]. by eapply (loop_target_known _ _ _ _ _ k_loop_exit).
    + unfold valid_max_iterations in Hm. destruct (as_number _) as [x|]; [|done].
      rewrite !andb_true_iff in Hm. exists x. tauto.
  - intros id n Hin. destruct (Hnode _ _ Hin) as (_ & _ & _ & H4 & H5 & _). split.
    + by eapply validateFallbackChain_nil.
    + by eapply validateFallbackIdempotency_nil.
  - intros id n a Hin. destruct (Hnode _ _ Hin) as (_ & _ & _ & _ & _ & _ & _ & H & _).
    by eapply validateBrowserProductActions_nil.
  - intros id n c path Hin. destruct (Hnode _ _ Hin) as (_ & _ & _ & _ & _ & H & _).
    by eapply validateValuePaths_nil.
Qed.

(** ** Decision branches *)

Lemma elem_set_add x s l : x ∈ set_add s l ↔ x = s ∨ x ∈ l.
Proof.
  unfold set_add, string_in. case_bool_decide as H.
  - split; [by right|]. by intros [->|?].
  - rewrite elem_of_app, list_elem_of_singleton. tauto.
Qed.

Section Decisions.
Context (ht : list (string * HumanTaskNodeMeta)).

Definition covers (b : CompiledOnBranchAst) (n v : string) : Prop :=
  bareDecisionEquality (ob_when b) ht = Some (n, v).

(** What a state of the scan says about the branches scanned. *)
Record decision_inv (bs : list CompiledOnBranchAst) (st : decision_state) : Prop := {
  di_covered : ∀ n v, v ∈ default [] (alookup n (ds_covered st)) → ∃ b, b ∈ bs ∧ covers b n v;
  di_impure : ∀ n, n ∈ ds_impure st → ∃ b, b ∈ bs ∧ bareDecisionEquality (ob_when b) ht = None ∧
                     n ∈ decisionRefsIn (ob_when b) ht;
  di_referenced : ∀ b n v, b ∈ bs → covers b n v → n ∈ ds_referenced st ∨ isLiteralTrue (ob_when b) = true;
  di_catch_all : ds_catch_all st = true → ∃ b, b ∈ bs ∧ isLiteralTrue (ob_when b) = true }.

Lemma foldl_impure l : ∀ st, let st' := foldl (λ st n, mkDecisionState (ds_covered st)
    (set_add n (ds_impure st)) (set_add n (ds_referenced st)) (ds_catch_all st)) st l in
  ds_covered st' = ds_covered st ∧ ds_catch_all st' = ds_catch_all st ∧
  (∀ n, n ∈ ds_impure st' ↔ n ∈ l ∨ n ∈ ds_impure st) ∧
  (∀ n, n ∈ ds_referenced st → n ∈ ds_referenced st').
Proof.
  induction l as [|x l IH]; intros st; simpl.
  - split_and!; try done. intros n. split; [by right|].
    by intros [?%not_elem_of_nil|?].
  - destruct (IH (mkDecisionState (ds_covered st) (set_add x (ds_impure st))
      (set_add x (ds_referenced st)) (ds_catch_all st))) as (-> & -> & H3 & H4).
    split_and!; try done.
    + intros n. rewrite H3. simpl. rewrite elem_set_add, elem_of_cons. tauto.
    + intros n Hn. apply H4. simpl. apply elem_set_add. by right.
Qed.

Lemma decisionStep_inv bs st b : decision_inv bs st → decision_inv (bs ++ [b]) (decisionStep ht st b).
Proof.
  intros [H1 H2 H3 H4].
  assert (Hold : ∀ x : CompiledOnBranchAst, x ∈ bs → x ∈ bs ++ [b]) by (intros; apply elem_of_app; by left).
  assert (Hnew : b ∈ bs ++ [b]) by (apply elem_of_app; right; by left).
  assert (Hsplit : ∀ x, x ∈ bs ++ [b] → x ∈ bs ∨ x = b).
  { intros x [?|?%list_elem_of_singleton]%elem_of_app; auto. }
  unfold decisionStep. destruct (isLiteralTrue (ob_when b)) eqn:El.
  { split; simpl; naive_solver. }
  destruct (bareDecisionEquality (ob_when b) ht) as [[m w]|] eqn:Eb.
  - split; simpl.
    + intros n v. rewrite alookup_aset. case_decide as En; [subst|naive_solver].
      simpl. rewrite elem_set_add. intros [->|Hv]; [|naive_solver]. by exists b.
    + naive_solver.
    + intros x n v [Hx| ->]%Hsplit Hc.
      * destruct (H3 x n v Hx Hc); [left; apply elem_set_add; by right|by right].
      * left. apply elem_set_add. left. unfold covers in Hc. congruence.
    + naive_solver.
  - destruct (foldl_impure (decisionRefsIn (ob_when b) ht) st) as (E1 & E2 & E3 & E4).
    split.
    + intros n v. rewrite E1. naive_solver.
    + intros n. rewrite E3. naive_solver.
    + intros x n v [Hx| ->]%Hsplit Hc; [|unfold covers in Hc; congruence].
      destruct (H3 x n v Hx Hc); [left; by apply E4|by right].
    + rewrite E2. naive_solver.
Qed.

Lemma decision_scan bs : decision_inv bs (foldl (decisionStep ht) (mkDecisionState [] [] [] false) bs).
Proof.
  induction bs as [|b bs IH] using rev_ind.
  - split; simpl; try done; intros; by (exfalso; eapply not_elem_of_nil).
  - rewrite foldl_snoc. by apply decisionStep_inv.
Qed.
End Decisions.

Lemma literal_true_eval date_parse ast scope : isLiteralTrue ast = true →
  evaluateIrelBooleanExpression date_parse ast scope = Ok true.
Proof. by destruct ast as [[] [| |[]|] ?| | | | | |]. Qed.

Lemma decision_variable_eval date_parse ast ht n v scope : decisionVarNodeId ast ht = Some n →
  lookup_path (scope_root scope "node") [n; "decision"] = Some (JStr v) →
  evaluateIrelExpression date_parse scope ast = Ok (VStr v).
Proof.
  destruct ast as [|path g| | | | |]; try done. simpl. destruct path as [|ns [|id [|f [|]]]]; try done.
  destruct (bool_decide (ns = "node") && bool_decide (f = "decision")) eqn:E; [|done].
  apply andb_true_iff in E as [->%bool_decide_eq_true ->%bool_decide_eq_true].
  destruct (alookup id ht); [|done]. intros [= ->]. unfold scope_root. simpl.
  destruct (sc_node scope) as [nodes|]; simpl; [|done].
  destruct (alookup n nodes) as [[]|]; simpl; try done.
  unfold readValue, readRuntimePath. rewrite walkPath_lookup. simpl. by intros ->.
Qed.

Lemma string_literal_eval date_parse ast v scope : stringLiteralValue ast = Some v →
  evaluateIrelExpression date_parse scope ast = Ok (VStr v).
Proof. destruct ast as [[] []| | | | | |]; try done. by intros [= ->]. Qed.

Lemma covers_eval date_parse ht ast n v scope : bareDecisionEquality ast ht = Some (n, v) →
  lookup_path (scope_root scope "node") [n; "decision"] = Some (JStr v) →
  evaluateIrelBooleanExpression date_parse ast scope = Ok true.
Proof.
  intros H Hs. destruct ast as [| | | | |[] l r g|]; try done. cbn [bareDecisionEquality] in H.
  assert (Hlr : evaluateIrelExpression date_parse scope l = Ok (VStr v) ∧
                evaluateIrelExpression date_parse scope r = Ok (VStr v)).
  { destruct (decisionVarNodeId l ht) as [a|] eqn:E1, (stringLiteralValue r) as [x|] eqn:E2;
      [injection H as <- <-; eauto using decision_variable_eval, string_literal_eval|..];
    (destruct (decisionVarNodeId r ht) as [b|] eqn:E3; [|done]);
    (destruct (stringLiteralValue l) as [y|] eqn:E4; [|done]); injection H as <- <-;
      eauto using decision_variable_eval, string_literal_eval. }
  destruct Hlr as [El Er]. unfold evaluateIrelBooleanExpression. cbn [evaluateIrelExpression].
  rewrite El, Er. simpl. by rewrite bool_decide_eq_true_2.
Qed.

(** ** Compiled conditions *)

#[local] Arguments prop : simpl never.

Section Conditions.
Context (ir : IRScenario).
Abbreviation ids := ((ir_nodes ir).*1).
Abbreviation g := (buildGraph ir).
Abbreviation ht := (buildHumanTaskNodes ir).

Definition node_context (id : string) (prior : option (list string)) (loop : option bool)
  : IRELCompileContext :=
  mkContext id ids g (ir_params_schema ir) prior loop (Some t_boolean) (Some ht).

(** Evaluation never meets a type error. *)
Definition condition_sound (ctx : IRELCompileContext) (w : IRELNode) : Prop :=
  ∀ date_parse scope, conforms ctx scope →
    match evaluateIrelBooleanExpression date_parse w scope with Ok _ => True | Err e => benign e end.

Lemma compileBoolean_sound id e prior loop w es :
  compileBooleanExpression ir ids g ht id e prior loop = (Some w, es) →
  condition_sound (node_context id prior loop) w.
Proof.
  unfold compileBooleanExpression. fold (node_context id prior loop).
  destruct (compileIrelExpression e (node_context id prior loop)) as [c|] eqn:E; [|done].
  intros [= <- _] dp scope Hc. by apply (compiled_sound dp _ _ _ _ E Hc).
Qed.

(** No parameter of the scenario has an empty type. *)
Definition inhabited_params : Prop :=
  ∀ id prior loop path ds, resolveVariable path (node_context id prior loop) ≠ (Some [], ds).

Lemma compileBoolean_Some id e prior loop : inhabited_params →
  (compileBooleanExpression ir ids g ht id e prior loop).2 = [] →
  ∃ w, compileBooleanExpression ir ids g ht id e prior loop = (Some w, []).
Proof.
  intros Hp. unfold compileBooleanExpression. fold (node_context id prior loop).
  destruct (compileIrelExpression e (node_context id prior loop)) as [c|ds] eqn:E; [by eauto|].
  intros H%map_eq_nil. apply rejection_nonempty in E; [done|].
  intros ast _ path _ ds'. apply Hp.
Qed.

Definition on_entry (b : json) : option (option json * jsnum) :=
  _ ← str_prop "when" b; p ← as_number (prop "priority" (Some b)); Some (prop "target" (Some b), p).

Lemma compileOnBranches_spec id bs :
  let r := compileOnBranches ir ids g ht id bs in
  (∀ b, b ∈ r.1 → condition_sound (node_context id None None) (ob_when b)) ∧
  (inhabited_params → r.2 = [] →
   map (λ b, (ob_target b, ob_priority b)) r.1 = omap on_entry bs).
Proof.
  unfold compileOnBranches. induction bs as [|b bs IH] using rev_ind.
  { split; [|done]. intros b Hb. by apply not_elem_of_nil in Hb. }
  rewrite foldl_snoc. destruct (foldl _ _ bs) as [on errs]. destruct IH as [IH1 IH2].
  rewrite omap_app. simpl. unfold on_entry at 2.
  destruct (str_prop "when" b) as [e|]; simpl; [|by rewrite app_nil_r].
  destruct (compileBooleanExpression _ _ _ _ id e None None) as [w es] eqn:E.
  assert (Hkeep : inhabited_params → es = [] → ∃ w', w = Some w').
  { intros Hp ->. destruct (compileBoolean_Some id e None None Hp) as [w' Hw]; [by rewrite E|].
    rewrite E in Hw. injection Hw as ->. eauto. }
  destruct w as [w|], (as_number (prop "priority" (Some b))) as [p|]; simpl in *.
  - split.
    + intros x [Hx| ->%list_elem_of_singleton]%elem_of_app; [by apply IH1|].
      by eapply compileBoolean_sound.
    + intros Hp [He ->]%app_nil. by rewrite map_app, IH2.
  - split; [done|]. intros Hp [He ->]%app_nil. by rewrite app_nil_r, IH2.
  - split; [done|]. intros Hp [He Hes]%app_nil. by destruct (Hkeep Hp Hes).
  - split; [done|]. intros Hp [He Hes]%app_nil. by destruct (Hkeep Hp Hes).
Qed.

Lemma compileLoop_sound id n l es : compileLoop ir ids g ht id n = (Some l, es) →
  condition_sound (node_context id None (Some true)) (lp_until l).
Proof.
  unfold compileLoop. destruct (loopOf n) as [f|]; [|done].
  destruct (as_string (alookup "until" f)) as [e|]; [|done].
  destruct (compileBooleanExpression _ _ _ _ id e None (Some true)) as [[w|] es'] eqn:E; [|done].
  simpl. destruct (as_string (alookup "body_target" f)); [|done]. simpl.
  destruct (as_string (alookup "exit_target" f)); [|done]. simpl.
  destruct (as_number (alookup "max_iterations" f)); [|done].
  intros [= <- _]. by eapply compileBoolean_sound.
Qed.

Lemma compileFallback_sound id chain : ∀ prior t w,
  t ∈ (compileFallback ir ids g ht id prior chain).1 → ft_advance_when t = Some w →
  ∃ prior', condition_sound (node_context id (Some prior') None) w.
Proof.
  induction chain as [|x chain IH]; intros prior t w Ht Hw; simpl in Ht.
  { by apply not_elem_of_nil in Ht. }
  set (prior' := match str_prop "entry_node" x with Some e => prior ++ [e] | None => prior end) in *.
  specialize (IH prior' t w). destruct (compileFallback _ _ _ _ id prior' chain) as [rest errs].
  destruct (str_prop "tier" x) as [tier|]; [|by apply IH].
  destruct (str_prop "entry_node" x) as [entry|]; [|by apply IH].
  destruct (str_prop "advance_when" x) as [e|].
  - destruct (compileBooleanExpression _ _ _ _ id e (Some prior') None) as [adv es] eqn:E.
    apply elem_of_cons in Ht as [->|Ht]; [|by apply IH].
    simpl in Hw. subst. exists prior'. by eapply compileBoolean_sound.
  - apply elem_of_cons in Ht as [->|Ht]; [done|by apply IH].
Qed.

Lemma compileWitnesses_sound id cs w : w ∈ (compileWitnesses ir ids g ht id cs).1 →
  condition_sound (node_context id None None) w.
Proof.
  unfold compileWitnesses. induction cs as [|c cs IH] using rev_ind.
  { intros Hw. by apply not_elem_of_nil in Hw. }
  rewrite foldl_snoc. destruct (foldl _ _ cs) as [ws errs]. simpl in *.
  case_decide; [|done]. destruct (str_prop "when" c) as [e|]; [|done].
  destruct (compileBooleanExpression _ _ _ _ id e None None) as [[x|] es] eqn:E; simpl; [|done].
  intros [Hw| ->%list_elem_of_singleton]%elem_of_app; [by apply IH|by eapply compileBoolean_sound].
Qed.

Lemma nonempty_Some {A} (l l' : list A) : nonempty l = Some l' → l = l'.
Proof. destruct l; simpl; congruence. Qed.

(** The parts of a compiled node. *)
Lemma validateExpressions_inv id n c es :
  validateExpressions ir ids g ht id n = (Some c, es) →
  cn_on c = nonempty (compileOnBranches ir ids g ht id (onBranchesOf n)).1 ∧
  cn_loop c = (compileLoop ir ids g ht id n).1 ∧
  cn_fallback_chain c = nonempty (compileFallback ir ids g ht id [] (fallbackChainOf n)).1 ∧
  cn_empty_result_allowed c = nonempty (compileWitnesses ir ids g ht id (criteriaOf n)).1.
Proof.
  unfold validateExpressions.
  destruct (compileOnBranches _ _ _ _ _ _) as [on e1], (compileLoop _ _ _ _ _ _) as [lp e2],
    (compileFallback _ _ _ _ _ _ _) as [ch e3], (compileWitnesses _ _ _ _ _ _) as [ws e4].
  intros [= H _]. destruct on, lp, ch, ws; by simplify_eq/=.
Qed.
End Conditions.

(** ** Properties *)

Definition sample : IRScenario :=
  mkScenario "a"
    [("a", [("on", JArr [JObj [("when", JStr "flags.blocked"); ("target", JStr "b"); ("priority", JNum (num_of_Z 1))];
                         JObj [("when", JStr "true"); ("target", JStr "b"); ("priority", JNum (num_of_Z 2))]])]);
     ("b", [("terminal", JStr "success")])] None None (num_of_Z 1).

Definition sample_ast : CompiledScenarioAst :=
  mkScenarioAst "1.x" (num_of_Z 1)
    [("a", mkNodeAst (Some [mkOnBranch (NVariable ["flags"; "blocked"] false) (Some (JStr "b")) (num_of_Z 1);
                            mkOnBranch (NLiteral t_boolean (VBool true) false) (Some (JStr "b")) (num_of_Z 2)])
             None None None)].

(** C4. A scenario the static validator compiles is well formed: the start node
    exists, every target resolves to a node (or is [@end_no_data]), execution
    from the start can only reach nodes of the scenario and can reach a
    terminal, branch priorities are distinct and branch targets are plain
    names, loops have existing targets and an iteration bound between 1 and
    10000, fallback tiers strictly ascend and are all idempotent as soon as
    one of them mutates, no [shell] or [file] action occurs and value paths
    are rooted. *)
Theorem accepted_scenario_well_formed ir signed rep ast :
  compileScenarioStatic ir signed = (rep, Some ast) →
  errors rep = [] ∧ well_formed ir.
Proof.
  intros H. split; [|by eapply compiled_well_formed].
  by apply compile_errors_nil in H as (-> & _).
Qed.

Lemma accepted_scenario_well_formed_witness :
  errors (mkReport [] []) = [] ∧ well_formed sample.
Proof.
  apply (accepted_scenario_well_formed sample None (mkReport [] []) sample_ast).
  vm_compute. reflexivity.
Defined.

(** The conditions of an accepted scenario cannot fail with a type error
    at run time: every compiled branch, loop, fallback and witness condition,
    evaluated in a scope that conforms to the types of its node, yields a
    boolean, or fails for a missing field, an overflow or a bad date. *)
Theorem accepted_conditions_sound ir signed rep ast id c :
  compileScenarioStatic ir signed = (rep, Some ast) → (id, c) ∈ ca_nodes ast →
  (∀ bs b, cn_on c = Some bs → b ∈ bs →
     condition_sound (node_context ir id None None) (ob_when b)) ∧
  (∀ l, cn_loop c = Some l → condition_sound (node_context ir id None (Some true)) (lp_until l)) ∧
  (∀ ts t w, cn_fallback_chain c = Some ts → t ∈ ts → ft_advance_when t = Some w →
     ∃ prior, condition_sound (node_context ir id (Some prior) None) w) ∧
  (∀ ws w, cn_empty_result_allowed c = Some ws → w ∈ ws →
     condition_sound (node_context ir id None None) w).
Proof.
  intros (_ & _ & _ & Hca & _)%compile_errors_nil Hin. rewrite Hca in Hin.
  apply list_elem_of_omap in Hin as ([id' n] & Hn & E).
  destruct (validateExpressions _ _ _ _ id' n) as [[c'|] es] eqn:Ev; [|done]. injection E as -> ->.
  apply validateExpressions_inv in Ev as (E1 & E2 & E3 & E4).
  rewrite E1, E2, E3, E4. split_and!.
  - intros bs b <-%nonempty_Some. apply compileOnBranches_spec.
  - intros l Hl. destruct (compileLoop _ _ _ _ id n) as [x es'] eqn:El. simpl in Hl. subst.
    by eapply compileLoop_sound.
  - intros ts t w <-%nonempty_Some. apply compileFallback_sound.
  - intros ws w <-%nonempty_Some. apply compileWitnesses_sound.
Qed.

Lemma accepted_conditions_sound_witness :
  let c := mkNodeAst (Some [mkOnBranch (NVariable ["flags"; "blocked"] false) (Some (JStr "b")) (num_of_Z 1);
                            mkOnBranch (NLiteral t_boolean (VBool true) false) (Some (JStr "b")) (num_of_Z 2)])
             None None None in
  (∀ bs b, cn_on c = Some bs → b ∈ bs →
     condition_sound (node_context sample "a" None None) (ob_when b)) ∧
  (∀ l, cn_loop c = Some l → condition_sound (node_context sample "a" None (Some true)) (lp_until l)) ∧
  (∀ ts t w, cn_fallback_chain c = Some ts → t ∈ ts → ft_advance_when t = Some w →
     ∃ prior, condition_sound (node_context sample "a" (Some prior) None) w) ∧
  (∀ ws w, cn_empty_result_allowed c = Some ws → w ∈ ws →
     condition_sound (node_context sample "a" None None) w).
Proof.
  intros c. apply (accepted_conditions_sound sample None (mkReport [] []) sample_ast).
  - vm_compute. reflexivity.
  - by left.
Defined.

(** No branch is lost: when no variable of the scenario has an empty type,
    the compiled node of every node of an accepted scenario has one entry for
    each [on] branch with a condition and a priority, in order, with the same
    target and priority. *)
Theorem accepted_keeps_branches ir signed rep ast id n :
  compileScenarioStatic ir signed = (rep, Some ast) → inhabited_params ir → (id, n) ∈ ir_nodes ir →
  ∃ on, map (λ b, (ob_target b, ob_priority b)) on = omap on_entry (onBranchesOf n) ∧
        (on ≠ [] → ∃ c, (id, c) ∈ ca_nodes ast ∧ cn_on c = Some on).
Proof.
  intros (_ & _ & _ & Hca & Hn)%compile_errors_nil Hp Hin.
  assert (Hv := validateNode_nil _ _ _ _ _ _ _ (Hn _ _ Hin)). destruct Hv as (_ & _ & _ & _ & _ & _ & He & _).
  destruct (validateExpressions ir (ir_nodes ir).*1 (buildGraph ir) (buildHumanTaskNodes ir) id n)
    as [c es] eqn:Ev. simpl in He. subst es.
  assert (Hon : (compileOnBranches ir (ir_nodes ir).*1 (buildGraph ir) (buildHumanTaskNodes ir) id
                   (onBranchesOf n)).2 = []).
  { unfold validateExpressions in Ev.
    destruct (compileOnBranches _ _ _ _ _ _) as [? ?], (compileLoop _ _ _ _ _ _) as [? ?],
      (compileFallback _ _ _ _ _ _ _) as [? ?], (compileWitnesses _ _ _ _ _ _) as [? ?].
    injection Ev as _ Ev. by apply app_nil in Ev as [? _]. }
  eexists. split; [by apply compileOnBranches_spec|]. intros Hne.
  destruct c as [c|].
  - exists c. split.
    + rewrite Hca. apply list_elem_of_omap. exists (id, n). split; [done|]. by rewrite Ev.
    + apply validateExpressions_inv in Ev as (-> & _).
      by destruct (compileOnBranches _ _ _ _ _ _).1.
  - unfold validateExpressions in Ev.
    destruct (compileOnBranches _ _ _ _ _ _) as [[|] ?], (compileLoop _ _ _ _ _ _) as [[] ?],
      (compileFallback _ _ _ _ _ _ _) as [[] ?], (compileWitnesses _ _ _ _ _ _) as [[] ?]; done.
Qed.

(** Without a parameter schema no variable has an empty type. *)
Lemma no_schema_inhabited ir : ir_params_schema ir = None → buildHumanTaskNodes ir = [] →
  inhabited_params ir.
Proof.
  intros Hs Hh id prior loop path ds. unfold resolveVariable, resolveNodeVariable,
    resolveNodeFieldType, resolveParamVariable, okType, unknown, failWith, node_context. simpl.
  rewrite Hs, Hh. intros H. repeat (case_match; simplify_eq/=; try discriminate).
Qed.

Lemma accepted_keeps_branches_witness :
  ∃ on, map (λ b, (ob_target b, ob_priority b)) on =
          [(Some (JStr "b"), num_of_Z 1); (Some (JStr "b"), num_of_Z 2)] ∧
        (on ≠ [] → ∃ c, ("a", c) ∈ ca_nodes sample_ast ∧ cn_on c = Some on).
Proof.
  apply (accepted_keeps_branches sample None (mkReport [] []) sample_ast "a"
    [("on", JArr [JObj [("when", JStr "flags.blocked"); ("target", JStr "b"); ("priority", JNum (num_of_Z 1))];
                  JObj [("when", JStr "true"); ("target", JStr "b"); ("priority", JNum (num_of_Z 2))]])]).
  - vm_compute. reflexivity.
  - by apply no_schema_inhabited.
  - by left.
Defined.

(** Decision coverage (V13): when a node's branches raise no V13 warning,
    test the decision of a human task by plain equality and in no other way,
    then every possible human decision makes at least one branch condition
    true; resuming on it cannot dead-end for lack of a branch. *)
Theorem decisions_are_covered nodeId c ht bs b0 n v0 v scope date_parse :
  validateDecisionBranchCompleteness nodeId c ht = [] → cn_on c = Some bs →
  b0 ∈ bs → bareDecisionEquality (ob_when b0) ht = Some (n, v0) →
  (∀ b, b ∈ bs → bareDecisionEquality (ob_when b) ht = None → n ∉ decisionRefsIn (ob_when b) ht) →
  v ∈ IREL_DECISION_VALUES →
  lookup_path (scope_root scope "node") [n; "decision"] = Some (JStr v) →
  ∃ b, b ∈ bs ∧ evaluateIrelBooleanExpression date_parse (ob_when b) scope = Ok true.
Proof.
  unfold validateDecisionBranchCompleteness. intros H E Hb0 Hc Hpure Hv Hs. rewrite E in H.
  destruct (decision_scan ht bs) as [I1 I2 I3 I4].
  set (st := foldl (decisionStep ht) _ bs) in *.
  destruct (ds_catch_all st) eqn:Eca.
  { destruct (I4 eq_refl) as (b & Hb & Hl). exists b. split; [done|]. by apply literal_true_eval. }
  destruct (I3 b0 n v0 Hb0 Hc) as [Hr|Hl]; [|exists b0; split; [done|by apply literal_true_eval]].
  rewrite concat_map_nil in H. specialize (H n Hr). cbv beta in H.
  destruct (string_in n (ds_impure st)) eqn:Ei.
  { apply bool_decide_eq_true, I2 in Ei as (b & Hb & Hn & Hin). by destruct (Hpure b Hb Hn). }
  destruct (filter _ IREL_DECISION_VALUES) as [|x l] eqn:Ef; [|done].
  destruct (decide (v ∈ default [] (alookup n (ds_covered st)))) as [Hin|Hin].
  - destruct (I1 n v Hin) as (b & Hb & Hcov). exists b. split; [done|]. by eapply covers_eval.
  - exfalso. apply (not_elem_of_nil v). rewrite <- Ef. apply list_elem_of_filter. done.
Qed.

Lemma decisions_are_covered_witness :
  let ht := [("h", mkHumanTaskMeta [])] in
  let eq v := NCompare op_eq (NVariable ["node"; "h"; "decision"] false) (NLiteral t_string (VStr v) false) false in
  let bs := map (λ v, mkOnBranch (eq v) None (num_of_Z 1)) IREL_DECISION_VALUES in
  let scope := mkScope None (Some [("h", JObj [("decision", JStr "retry")])]) None None None in
  ∃ b, b ∈ bs ∧ evaluateIrelBooleanExpression (λ _, None) (ob_when b) scope = Ok true.
Proof.
  intros ht eq bs scope.
  apply (decisions_are_covered "x" (mkNodeAst (Some bs) None None None) ht bs
           (mkOnBranch (eq "approve") None (num_of_Z 1)) "h" "approve" "retry").
  - vm_compute. reflexivity.
  - reflexivity.
  - by left.
  - reflexivity.
  - intros b Hb. unfold bs in Hb. apply list_elem_of_fmap in Hb as (v & -> & _). done.
  - unfold IREL_DECISION_VALUES. set_solver.
  - reflexivity.
Defined.

(** The V4 check looks at strongly connected components, not at cycles: a
    scenario with a cycle [b -> c -> b] that contains no loop node is accepted
    as soon as the component also contains one, although the rule allows a
    cycle only when a loop node lies on it. *)
Theorem loop_free_cycle_accepted :
  let node next := [("next", JStr next)] in
  let branch t p := JObj [("when", JStr "flags.blocked"); ("target", JStr t); ("priority", JNum (num_of_Z p))] in
  let ir := mkScenario "a"
    [("a", [("loop", JObj [("until", JStr "flags.blocked"); ("body_target", JStr "b");
                           ("exit_target", JStr "end"); ("max_iterations", JNum (num_of_Z 3))])]);
     ("b", node "c");
     ("c", [("on", JArr [branch "b" 1%Z; branch "a" 2%Z])]);
     ("end", [("terminal", JStr "success")])] None None (num_of_Z 1) in
  errors (validateScenarioStatic ir None) = [] ∧
  edge (buildGraph ir) "b" "c" ∧ edge (buildGraph ir) "c" "b" ∧
  isLoopNode (alookup "b" (ir_nodes ir)) = false ∧ isLoopNode (alookup "c" (ir_nodes ir)) = false.
Proof.
  split_and!; try reflexivity.
  - apply list_elem_of_In. left. reflexivity.
  - apply list_elem_of_In. left. reflexivity.
Qed.
