(* ===== verification/Cycles.v ===== *)
(** * Correctness of the cycle search

    [findIllegalCycles] of [codegen/static-validation.ts] is Tarjan's algorithm
    with a check of every component it closes.  This file proves that it
    reports exactly the strongly connected components that contain a cycle and
    no loop node.  The invariant [inv] is stated over the list [G] of the nodes
    on the recursion path, which the code keeps implicitly in the call stack. *)

From stdpp Require Import base strings list gmap relations.
From Stdlib Require Import Sorted.
From S2P Require Import Prelude JsValue Graph IrelSyntax StaticValidation.

Section Tarjan.
Context (g : graph) (nodes : list (string * fields)).

Abbreviation num st x := (tj_lookup (tj_index st) x).
Abbreviation low st x := (tj_lookup (tj_lowlink st) x).

(** Two nodes of the same strongly connected component. *)
Definition mutual (a b : string) : Prop := reaches g a b ∧ reaches g b a.

Definition on_cycle (n : string) : Prop := tc (edge g) n n.

(** A node on a cycle whose component has no loop node. *)
Definition illegal_node (n : string) : Prop :=
  on_cycle n ∧ ∀ m, mutual n m → isLoopNode (alookup m nodes) = false.

(** A node whose component has been closed. *)
Definition popped (st : tarjan) (x : string) : Prop := indexed st x = true ∧ x ∉ tj_stack st.

Record inv (G : list string) (st : tarjan) : Prop := {
  iv_onStack : ∀ x, x ∈ tj_onStack st ↔ x ∈ tj_stack st;
  iv_indexed : ∀ x, x ∈ tj_stack st → indexed st x = true;
  iv_graph : ∀ x, indexed st x = true → in_graph g x = true;
  iv_num : ∀ x, indexed st x = true → num st x < tj_next st;
  iv_sorted : StronglySorted (λ a b, num st b < num st a) (tj_stack st);
  iv_gray : ∀ x, x ∈ G → x ∈ tj_stack st;
  iv_down : ∀ x y, x ∈ tj_stack st → y ∈ tj_stack st → num st x ≤ num st y → reaches g x y;
  iv_up : ∀ y, y ∈ tj_stack st → ∃ x, x ∈ G ∧ num st x ≤ num st y ∧ reaches g y x;
  iv_black : ∀ x y, indexed st x = true → x ∉ G → edge g x y → in_graph g y = true → indexed st y = true;
  iv_closed : ∀ x y, popped st x → edge g x y → in_graph g y = true → popped st y;
  iv_complete : ∀ n, popped st n → illegal_node n → ∃ r, r ∈ tj_illegal st ∧ mutual n r;
  iv_sound : ∀ r, r ∈ tj_illegal st → popped st r ∧ illegal_node r }.

(** Nodes already visited keep their numbers. *)
Definition ext (st st' : tarjan) : Prop :=
  tj_next st ≤ tj_next st' ∧
  ∀ m, indexed st m = true →
    indexed st' m = true ∧ num st' m = num st m ∧ low st' m = low st m.

(** The low link of [n] against the stack [S] below it: a lower bound for the
    edges out of [T] (and the nodes [done] of [n]), attained on [S] or [n]. *)
Record low_spec (n : string) (T S done : list string) (st : tarjan) : Prop := {
  ls_edges : ∀ c y, c ∈ T → edge g c y → y ∈ S → low st n ≤ num st y;
  ls_done : ∀ y, y ∈ done → y ∈ S → low st n ≤ num st y;
  ls_le : low st n ≤ num st n;
  ls_witness : low st n = num st n ∨ ∃ y, y ∈ S ∧ low st n = num st y ∧ reaches g n y }.

(** ** Lookups in the two tables *)

Lemma num_enter n st x : num (enter n st) x = if decide (x = n) then tj_next st else num st x.
Proof. unfold tj_lookup, enter. simpl. rewrite alookup_aset. by case_decide. Qed.

Lemma low_enter n st x : low (enter n st) x = if decide (x = n) then tj_next st else low st x.
Proof. unfold tj_lookup, enter. simpl. rewrite alookup_aset. by case_decide. Qed.

Lemma low_setLow n v st x :
  low (setLow n v st) x = if decide (x = n) then Nat.min (low st n) v else low st x.
Proof. unfold tj_lookup, setLow. simpl. rewrite alookup_aset. by case_decide. Qed.

Lemma inv_setLow G n v st : inv G st → inv G (setLow n v st).
Proof. intros []. by split. Qed.

Lemma ext_refl st : ext st st.
Proof. by split. Qed.

Lemma ext_trans st1 st2 st3 : ext st1 st2 → ext st2 st3 → ext st1 st3.
Proof.
  intros [H1 E1] [H2 E2]. split; [lia|]. intros m Hm. destruct (E1 m Hm) as (K1 & K2 & K3).
  destruct (E2 m K1) as (? & ? & ?). split_and!; congruence.
Qed.

(** ** The stack *)

Lemma sorted_app_lt {A} (R : A → A → Prop) l1 l2 x y :
  StronglySorted R (l1 ++ l2) → x ∈ l1 → y ∈ l2 → R x y.
Proof.
  induction l1 as [|z l1 IH]; simpl; [by intros _ ?%not_elem_of_nil|].
  intros [H1 H2]%StronglySorted_inv [->|Hx]%elem_of_cons Hy; [|by apply IH].
  rewrite Forall_forall in H2. apply H2, elem_of_app. by right.
Qed.

Lemma sorted_app_r {A} (R : A → A → Prop) l1 l2 : StronglySorted R (l1 ++ l2) → StronglySorted R l2.
Proof. induction l1 as [|z l1 IH]; [done|]. intros [? _]%StronglySorted_inv. auto. Qed.

(** Numbers above and below a node on the stack. *)
Lemma stack_order G st T n S : inv G st → tj_stack st = T ++ n :: S →
  (∀ c, c ∈ T → num st n < num st c) ∧ (∀ y, y ∈ S → num st y < num st n) ∧ n ∉ T ∧ n ∉ S ∧
  (∀ x, x ∈ T → x ∉ S).
Proof.
  intros Hinv E. pose proof (iv_sorted G st Hinv) as Hs. rewrite E in Hs.
  assert (H1 : ∀ c, c ∈ T → num st n < num st c).
  { intros c Hc. apply (sorted_app_lt _ _ _ c n Hs Hc). by left. }
  assert (H2 : ∀ y, y ∈ S → num st y < num st n).
  { apply sorted_app_r, StronglySorted_inv in Hs as [_ Hf]. by rewrite Forall_forall in Hf. }
  split_and!; try done.
  - intros Hn%H1. lia.
  - intros Hn%H2. lia.
  - intros x Hx%H1 Hy%H2. lia.
Qed.

Lemma popComponent_app n T S : n ∉ T → popComponent n (T ++ n :: S) = (T ++ [n], S).
Proof.
  induction T as [|c T IH]; simpl; [by rewrite decide_True|].
  intros [Hne Hn]%not_elem_of_cons. rewrite decide_False by done. by rewrite IH.
Qed.

(** ** Reachability and closed components *)

Lemma edge_in_graph x y : edge g x y → in_graph g x = true.
Proof.
  unfold edge, succs, in_graph. destruct (alookup x g); [done|]. simpl. by intros ?%not_elem_of_nil.
Qed.

Lemma closed_in_graph (P : string → Prop) x y :
  (∀ a b, P a → edge g a b → in_graph g b = true → P b) →
  P x → reaches g x y → in_graph g y = true → P y.
Proof.
  intros HP Hp Hr. revert Hp. induction Hr as [|x z y Hxz Hzy IH]; [done|]. intros Hp Hy.
  apply IH; [|done]. apply (HP x z Hp Hxz).
  destruct Hzy as [|z w y Hzw _]; [done|by eapply edge_in_graph].
Qed.

Lemma mutual_in_graph x y : mutual x y → in_graph g x = true → in_graph g y = true.
Proof. intros [_ Hr] Hx. destruct Hr; [done|by eapply edge_in_graph]. Qed.

Lemma tc_rtc_inv x y : tc (edge g) x y → ∃ z, edge g x z ∧ reaches g z y.
Proof.
  destruct 1 as [x y H|x z y H H']; [exists y|exists z]; split; [done..|by apply tc_rtc].
Qed.

Lemma mutual_trans x y z : mutual x y → mutual y z → mutual x z.
Proof. intros [] []. split; etrans; eauto. Qed.

Lemma mutual_sym x y : mutual x y → mutual y x.
Proof. by intros []. Qed.

Lemma illegal_mutual x y : mutual x y → illegal_node x → illegal_node y.
Proof.
  intros Hm [Hc Hl]. split; [|intros m Hm'; apply Hl; by eapply mutual_trans].
  destruct Hm as [Hxy Hyx]. unfold on_cycle in *.
  eapply tc_rtc_l; [done|]. eapply tc_rtc_r; done.
Qed.

(** ** Entering a node *)

Lemma enter_inv G n st : inv G st → indexed st n = false → in_graph g n = true →
  (∀ x, x ∈ G → reaches g x n) → inv (n :: G) (enter n st).
Proof.
  intros Hinv Hn Hg HG.
  assert (Hne : ∀ x, indexed st x = true → x ≠ n) by (intros x Hx ->; congruence).
  assert (HS : ∀ x, x ∈ tj_stack st → x ≠ n) by (intros x Hx; by apply Hne, (iv_indexed G st Hinv)).
  assert (Hnum : ∀ x, x ∈ tj_stack st → num (enter n st) x = num st x)
    by (intros x Hx; rewrite num_enter, decide_False; auto).
  assert (Hlt : ∀ x, x ∈ tj_stack st → num st x < tj_next st)
    by (intros x Hx; by apply (iv_num G st Hinv), (iv_indexed G st Hinv)).
  assert (Hix : ∀ x, indexed (enter n st) x = true ↔ x = n ∨ indexed st x = true)
    by (intros x; by rewrite indexed_enter, orb_true_iff, bool_decide_eq_true).
  assert (Hp : ∀ x, popped (enter n st) x ↔ popped st x).
  { intros x. unfold popped. rewrite Hix. simpl. rewrite not_elem_of_cons. naive_solver. }
  assert (Hnn : num (enter n st) n = tj_next st) by (by rewrite num_enter, decide_True).
  split.
  - intros x. simpl. by rewrite !elem_of_cons, (iv_onStack G st Hinv).
  - intros x. simpl. rewrite elem_of_cons, Hix. intros [->|Hx]; [by left|right]. by apply (iv_indexed G st Hinv).
  - intros x. rewrite Hix. intros [->|Hx]; [done|by apply (iv_graph G st Hinv)].
  - intros x. rewrite Hix, num_enter. simpl. intros Hx. case_decide; [lia|].
    destruct Hx as [?|Hx]; [done|]. apply (iv_num G st Hinv) in Hx. lia.
  - change (tj_stack (enter n st)) with (n :: tj_stack st).
    constructor; [|apply Forall_forall; intros y Hy; cbv beta; rewrite Hnn, Hnum by done; by apply Hlt].
    pose proof (iv_sorted G st Hinv) as Hs. revert Hnum. clear - Hs.
    induction Hs as [|a l Hs IH Hf]; intros Hnum; constructor.
    + apply IH. intros x Hx. apply Hnum. by right.
    + rewrite Forall_forall in *. intros y Hy. rewrite !Hnum; [by apply Hf|by left|by right].
  - intros x [->|Hx]%elem_of_cons; [by left|right]. by apply (iv_gray G st Hinv).
  - intros x y. change (tj_stack (enter n st)) with (n :: tj_stack st).
    intros [->|Hx]%elem_of_cons [->|Hy]%elem_of_cons Hle; [done|..].
    + rewrite Hnn, Hnum in Hle by done. apply Hlt in Hy. lia.
    + destruct (iv_up G st Hinv x Hx) as (z & Hz & _ & Hr). etrans; [done|by apply HG].
    + rewrite !Hnum in Hle by done. by apply (iv_down G st Hinv).
  - intros y. change (tj_stack (enter n st)) with (n :: tj_stack st). intros [->|Hy]%elem_of_cons.
    + exists n. split_and!; [by left|lia|done].
    + destruct (iv_up G st Hinv y Hy) as (z & Hz & Hle & Hr). exists z.
      rewrite !Hnum by (done || by apply (iv_gray G st Hinv)). split_and!; [by right|done|done].
  - intros x y. rewrite !Hix, not_elem_of_cons. intros [->|Hx] [Hxn HxG] Hxy Hy; [done|].
    right. by apply (iv_black G st Hinv x).
  - intros x y. rewrite !Hp. apply Hinv.
  - intros x. rewrite Hp. apply Hinv.
  - intros x Hx. rewrite Hp. by apply Hinv.
Qed.

Lemma ext_enter n st : indexed st n = false → ext st (enter n st).
Proof.
  intros Hn. split; [simpl; lia|]. intros m Hm.
  rewrite indexed_enter, num_enter, low_enter, Hm, orb_true_r.
  rewrite !decide_False by congruence. done.
Qed.

Lemma ext_setLow st0 n v st : ext st0 st → indexed st0 n = false → ext st0 (setLow n v st).
Proof.
  intros [H1 H2] Hn. split; [done|]. intros m Hm. destruct (H2 m Hm) as (? & ? & ?).
  split_and!; try done. rewrite low_setLow, decide_False; congruence.
Qed.

(** ** The specification of a call and of the loop inside it *)

Record connected (G : list string) (n : string) (st st' : tarjan) : Prop := {
  cn_inv : inv G st';
  cn_ext : ext st st';
  cn_indexed : indexed st' n = true;
  cn_num : num st' n = tj_next st;
  cn_stack : ∃ T, tj_stack st' = T ++ tj_stack st ∧ (∀ c, c ∈ T → indexed st c = false) ∧
    low_spec n T (tj_stack st) [] st' }.

(** The loop over the successors of [n], entered in [st0]: [done] are the
    successors already handled and [T] the nodes pushed since. *)
Record visiting (G : list string) (n : string) (st0 : tarjan) (done T : list string) (st : tarjan) : Prop := {
  vs_fresh : indexed st0 n = false;
  vs_path : ∀ x, x ∈ G → x ∈ tj_stack st0;
  vs_inv : inv (n :: G) st;
  vs_ext : ext st0 st;
  vs_indexed : indexed st n = true;
  vs_num : num st n = tj_next st0;
  vs_stack : tj_stack st = T ++ n :: tj_stack st0;
  vs_new : ∀ c, c ∈ T → indexed st0 c = false;
  vs_succs : ∀ y, y ∈ done → in_graph g y = true → indexed st y = true;
  vs_low : low_spec n T (tj_stack st0) done st }.

Lemma visiting_start G n st : inv G st → indexed st n = false → in_graph g n = true →
  (∀ x, x ∈ G → reaches g x n) → visiting G n st [] [] (enter n st).
Proof.
  intros Hinv Hn Hg HG.
  assert (Hnn : num (enter n st) n = tj_next st) by (by rewrite num_enter, decide_True).
  assert (Hl : low (enter n st) n = tj_next st) by (by rewrite low_enter, decide_True).
  split; [done|by apply Hinv|by apply enter_inv|by apply ext_enter| |done|done|by intros ? ?%not_elem_of_nil..|].
  - by rewrite indexed_enter, bool_decide_eq_true_2.
  - split; [by intros ?? ?%not_elem_of_nil|by intros ? ?%not_elem_of_nil|lia|left; congruence].
Qed.

(** A smaller bound is still a bound, and is attained if it comes from the stack. *)
Lemma low_spec_setLow n T1 T S done st v next : low_spec n T S done st →
  (∀ c y, c ∈ T1 → edge g c y → y ∈ S → v ≤ num st y) → (next ∈ S → v ≤ num st next) →
  (num st n ≤ v ∨ ∃ y, y ∈ S ∧ v = num st y ∧ reaches g n y) →
  low_spec n (T1 ++ T) S (done ++ [next]) (setLow n v st).
Proof.
  intros [H1 H2 H3 H4] HT Hv Hw.
  assert (El : low (setLow n v st) n = Nat.min (low st n) v) by (by rewrite low_setLow, decide_True).
  split; rewrite ?El; simpl.
  - intros c y [Hc|Hc]%elem_of_app Hcy Hy.
    + specialize (HT c y Hc Hcy Hy). lia.
    + specialize (H1 c y Hc Hcy Hy). lia.
  - intros y [Hy| ->%list_elem_of_singleton]%elem_of_app HS.
    + specialize (H2 y Hy HS). lia.
    + specialize (Hv HS). lia.
  - lia.
  - destruct (decide (low st n ≤ v)) as [Hle|Hle].
    + rewrite Nat.min_l by done. done.
    + rewrite Nat.min_r by lia. destruct Hw as [Hw|Hw]; [lia|by right].
Qed.

Lemma low_spec_ext n T S done st st1 : low_spec n T S done st → low st1 n = low st n →
  num st1 n = num st n → (∀ y, y ∈ S → num st1 y = num st y) → low_spec n T S done st1.
Proof.
  intros [H1 H2 H3 H4] El En ES. split; rewrite ?El, ?En; try done.
  - intros c y Hc Hcy Hy. rewrite ES by done. eauto.
  - intros y Hy HS. rewrite ES by done. eauto.
  - destruct H4 as [?|(y & Hy & Ey & Hr)]; [by left|right]. exists y. by rewrite ES.
Qed.

Lemma low_spec_skip n T S done st next : low_spec n T S done st → next ∉ S →
  low_spec n T S (done ++ [next]) st.
Proof.
  intros [H1 H2 H3 H4] Hn. split; try done.
  intros y [Hy| ->%list_elem_of_singleton]%elem_of_app HS; [by apply H2|done].
Qed.

(** A successor outside the graph, or in a closed component. *)
Lemma visiting_skip G n st0 done T st next : visiting G n st0 done T st →
  (in_graph g next = true → indexed st next = true ∧ next ∉ tj_stack st) →
  visiting G n st0 (done ++ [next]) T st.
Proof.
  intros [H0 HG H1 H2 H3 H4 H5 H6 H7 H8] Hn.
  assert (Hs : next ∉ tj_stack st0).
  { intros Hin. destruct (Hn) as [_ Hns].
    - apply (iv_graph _ _ H1), (iv_indexed _ _ H1). rewrite H5. apply elem_of_app. right. by right.
    - apply Hns. rewrite H5. apply elem_of_app. right. by right. }
  split; try done; [|by apply low_spec_skip].
  intros y [Hy| ->%list_elem_of_singleton]%elem_of_app Hg; [by apply H7|by apply Hn].
Qed.

(** A successor on the stack. *)
Lemma visiting_back G n st0 done T st next : visiting G n st0 done T st → edge g n next →
  next ∈ tj_stack st → visiting G n st0 (done ++ [next]) T (setLow n (num st next) st).
Proof.
  intros [H0 HG H1 H2 H3 H4 H5 H6 H7 H8] He Hs.
  destruct (stack_order _ _ _ _ _ H1 H5) as (O1 & O2 & _).
  split; try done; [by apply inv_setLow|by apply ext_setLow| |].
  - intros y [Hy| ->%list_elem_of_singleton]%elem_of_app Hg; [by apply H7|by apply (iv_indexed _ _ H1)].
  - apply (low_spec_setLow n []); [done|by intros ?? ?%not_elem_of_nil|done|]. rewrite H5 in Hs.
    apply elem_of_app in Hs as [Hs|[->|Hs]%elem_of_cons].
    + left. apply O1 in Hs. lia.
    + by left.
    + right. exists next. split_and!; try done. by apply rtc_once.
Qed.

(** A successor visited by a recursive call. *)
Lemma visiting_call G n st0 done T st next st1 : visiting G n st0 done T st → edge g n next →
  indexed st next = false → connected (n :: G) next st st1 →
  ∃ T1, visiting G n st0 (done ++ [next]) (T1 ++ T) (setLow n (low st1 next) st1).
Proof.
  intros [H0 HG H1 H2 H3 H4 H5 H6 H7 H8] He Hn [K1 [K2 K2'] K3 K4 (T1 & K5 & K6 & K7)].
  assert (Hsub : ∀ y, y ∈ tj_stack st0 → y ∈ tj_stack st).
  { intros y Hy. rewrite H5. apply elem_of_app. right. by right. }
  assert (Hnum : ∀ y, indexed st y = true → num st1 y = num st y) by (intros y Hy; by apply K2').
  assert (HS : ∀ y, y ∈ tj_stack st → num st1 y = num st y)
    by (intros y Hy; by apply Hnum, (iv_indexed _ _ H1)).
  assert (Hlow : low st1 n = low st n) by (by apply K2').
  destruct (stack_order _ _ _ _ _ H1 H5) as (O1 & O2 & _).
  exists T1. split.
  - done.
  - done.
  - by apply inv_setLow.
  - apply ext_setLow; [|done]. by eapply ext_trans.
  - by apply K2'.
  - change (num st1 n = tj_next st0). by rewrite Hnum.
  - change (tj_stack st1 = (T1 ++ T) ++ n :: tj_stack st0). by rewrite K5, H5, app_assoc.
  - intros c [Hc|Hc]%elem_of_app; [|by apply H6]. apply K6 in Hc.
    destruct (indexed st0 c) eqn:E; [|done]. apply H2 in E as [E _]. congruence.
  - intros y [Hy| ->%list_elem_of_singleton]%elem_of_app Hg; [|done]. by apply K2', H7.
  - apply low_spec_setLow.
    + apply (low_spec_ext _ _ _ _ st); auto.
    + intros c y Hc Hcy Hy. by apply (ls_edges _ _ _ _ _ K7 c y Hc Hcy), Hsub.
    + intros Hin%Hsub%(iv_indexed _ _ H1). congruence.
    + destruct (ls_witness _ _ _ _ _ K7) as [E|(y & Hy & Ey & Hr)].
      * left. rewrite E, K4, Hnum by done. pose proof (iv_num _ _ H1 n H3). lia.
      * rewrite Ey. rewrite H5 in Hy. apply elem_of_app in Hy as [Hy|[->|Hy]%elem_of_cons].
        -- left. rewrite !HS by (rewrite H5; set_solver). apply O1 in Hy. lia.
        -- by left.
        -- right. exists y. split_and!; [done|done|]. by eapply rtc_l.
Qed.

(** ** Leaving a node *)

(** The node is not the root of its component: it stays on the stack. *)
Lemma leave_open G n st0 T st : visiting G n st0 (succs g n) T st → low st n ≠ num st n →
  connected G n st0 st.
Proof.
  intros [H0 HG H1 H2 H3 H4 H5 H6 H7 H8] Hlow.
  destruct (stack_order _ _ _ _ _ H1 H5) as (O1 & O2 & O3 & O4 & O5).
  destruct (ls_witness _ _ _ _ _ H8) as [?|(z & Hz & _ & Hnz)]; [done|].
  split; try done.
  - destruct H1 as [K1 K2 K3 K4 K5 K6 K7 K8 K9 K10 K11 K12]. split; try done.
    + intros x Hx. apply K6. by right.
    + intros y Hy. destruct (K8 y Hy) as (x & [->|Hx]%elem_of_cons & Hle & Hr); [|by exists x].
      destruct (K8 z) as (x & [->|Hx]%elem_of_cons & Hle' & Hr').
      * rewrite H5. apply elem_of_app. right. by right.
      * apply O2 in Hz. lia.
      * exists x. split_and!; [done|apply O2 in Hz; lia|].
        etrans; [done|]. by etrans.
    + intros x y Hx HxG Hxy Hy. destruct (decide (x = n)) as [->|Hne]; [by apply H7|].
      apply (K9 x); [done|by apply not_elem_of_cons|done|done].
  - exists (T ++ [n]). split; [by rewrite <- app_assoc|]. split.
    + intros c [Hc| ->%list_elem_of_singleton]%elem_of_app; [by apply H6|done].
    + destruct H8 as [L1 L2 L3 L4]. split; try done; [|by intros ? ?%not_elem_of_nil].
      intros c y [Hc| ->%list_elem_of_singleton]%elem_of_app Hcy Hy; [by eapply L1|by apply L2].
Qed.

Section Component.
Context (G : list string) (n : string) (st0 : tarjan) (T : list string) (st : tarjan).
Context (Hv : visiting G n st0 (succs g n) T st) (Hroot : low st n = num st n).

Let comp : list string := T ++ [n].

Lemma comp_elem c : c ∈ comp ↔ c ∈ tj_stack st ∧ c ∉ tj_stack st0.
Proof.
  destruct (stack_order _ _ _ _ _ (vs_inv _ _ _ _ _ _ Hv) (vs_stack _ _ _ _ _ _ Hv)) as (O1 & O2 & O3 & O4 & O5).
  unfold comp. rewrite (vs_stack _ _ _ _ _ _ Hv). set_solver.
Qed.

(** All nodes of the component are mutually reachable with its root ... *)
Lemma comp_mutual c : c ∈ comp → mutual n c.
Proof.
  intros Hc. pose proof Hv as [H0 HG H1 H2 H3 H4 H5 H6 H7 H8].
  destruct (stack_order _ _ _ _ _ H1 H5) as (O1 & O2 & O3 & O4 & O5).
  assert (Hns : n ∈ tj_stack st) by (apply (iv_gray _ _ H1); by left).
  assert (Hle : num st n ≤ num st c)
    by (apply elem_of_app in Hc as [Hc| ->%list_elem_of_singleton]; [by apply O1 in Hc; lia|done]).
  apply comp_elem in Hc as [Hc _]. split; [by apply (iv_down _ _ H1)|].
  destruct (iv_up _ _ H1 c Hc) as (x & [->|Hx]%elem_of_cons & _ & Hr); [done|].
  etrans; [done|].
  apply (iv_down _ _ H1); [apply (iv_gray _ _ H1); by right|done|]. apply HG, O2 in Hx. lia.
Qed.

(** ... no edge leaves it towards the rest of the stack ... *)
Lemma comp_closed c y : popped st c ∨ c ∈ comp → edge g c y → in_graph g y = true →
  popped st y ∨ y ∈ comp.
Proof.
  pose proof Hv as [H0 HG H1 H2 H3 H4 H5 H6 H7 H8].
  destruct (stack_order _ _ _ _ _ H1 H5) as (O1 & O2 & O3 & O4 & O5).
  intros [Hp|Hc] Hcy Hy; [left; by eapply (iv_closed _ _ H1)|].
  assert (Hix : indexed st y = true).
  { apply elem_of_app in Hc as [Hc| ->%list_elem_of_singleton]; [|by apply H7].
    apply (iv_black _ _ H1 c); [apply (iv_indexed _ _ H1); rewrite H5; set_solver| |done|done].
    intros [->|Hx]%elem_of_cons; [done|]. apply (O5 c Hc). by apply HG. }
  destruct (decide (y ∈ tj_stack st)) as [Hs|Hs]; [|by left].
  right. apply comp_elem. split; [done|]. intros Hy0.
  assert (low st n ≤ num st y).
  { apply elem_of_app in Hc as [Hc| ->%list_elem_of_singleton];
      [by eapply (ls_edges _ _ _ _ _ H8 c)|by apply (ls_done _ _ _ _ _ H8)]. }
  apply O2 in Hy0. lia.
Qed.

(** ... and it is the whole strongly connected component of its root. *)
Lemma comp_complete z : mutual n z → z ∈ comp.
Proof.
  intros Hm. pose proof Hv as [H0 HG H1 H2 H3 H4 H5 H6 H7 H8].
  assert (Hz : in_graph g z = true) by (by eapply mutual_in_graph, (iv_graph _ _ H1)).
  assert (Hn : n ∈ comp) by (apply elem_of_app; right; by left).
  destruct (closed_in_graph (λ x, popped st x ∨ x ∈ comp) n z) as [Hp|?]; auto.
  - intros a b. apply comp_closed.
  - apply Hm.
  - exfalso. destruct (closed_in_graph (popped st) z n) as [_ Hns]; try done.
    + apply (iv_closed _ _ H1).
    + apply Hm.
    + by apply (iv_graph _ _ H1).
    + apply Hns, (iv_gray _ _ H1). by left.
Qed.

Lemma comp_cyclic : cyclic g comp = true ↔ on_cycle n.
Proof.
  unfold cyclic. rewrite orb_true_iff, bool_decide_eq_true, existsb_exists. split.
  - intros [Hlen|(c & Hc%list_elem_of_In & He)].
    + assert (∃ c, c ∈ comp ∧ c ≠ n) as (c & Hc & Hne).
      { pose proof (vs_stack _ _ _ _ _ _ Hv) as E.
        destruct (stack_order _ _ _ _ _ (vs_inv _ _ _ _ _ _ Hv) E) as (_ & _ & O3 & _).
        unfold comp in *. destruct T as [|c T']; [simpl in Hlen; lia|]. exists c. set_solver. }
      destruct (comp_mutual c Hc) as [[->|Hnc]%rtc_tc Hcn]; [done|]. by eapply tc_rtc_r.
    + apply bool_decide_eq_true in He. destruct (comp_mutual c Hc) as [Hnc Hcn].
      eapply tc_rtc_l; [done|]. eapply tc_rtc_r; [|done]. by apply tc_once.
  - intros (z & He & Hr)%tc_rtc_inv. assert (Hz : z ∈ comp).
    { apply comp_complete. split; [by apply rtc_once|done]. }
    destruct (decide (z = n)) as [->|Hne].
    + right. exists n. split; [by apply list_elem_of_In|by apply bool_decide_eq_true].
    + left. unfold comp in *. apply elem_of_app in Hz as [Hz|Hz%list_elem_of_singleton]; [|done].
      destruct T; [by apply not_elem_of_nil in Hz|]. rewrite length_app. simpl. lia.
Qed.

Lemma comp_illegal :
  cyclic g comp && negb (existsb (λ id, isLoopNode (alookup id nodes)) comp) = true ↔ illegal_node n.
Proof.
  rewrite andb_true_iff, negb_true_iff, comp_cyclic. unfold illegal_node.
  rewrite <- not_true_iff_false, existsb_exists. split.
  - intros [Hc Hl]. split; [done|]. intros m Hm%comp_complete. apply not_true_iff_false. intros Hm'.
    apply Hl. exists m. split; [by apply list_elem_of_In|done].
  - intros [Hc Hl]. split; [done|]. intros (m & Hm%list_elem_of_In & Hm').
    by rewrite (Hl m (comp_mutual m Hm)) in Hm'.
Qed.

(** The state after the component was taken off the stack. *)
Definition closed_state (illegal : list string) : tarjan :=
  mkTarjan (tj_index st) (tj_lowlink st) (tj_stack st0)
    (filter (λ id, id ∉ comp) (tj_onStack st)) (tj_next st) illegal.

Lemma popped_closed illegal x : popped (closed_state illegal) x ↔ popped st x ∨ x ∈ comp.
Proof.
  assert (Hsub : ∀ y, y ∈ tj_stack st0 → y ∈ tj_stack st)
    by (rewrite (vs_stack _ _ _ _ _ _ Hv); set_solver).
  unfold popped. change (indexed (closed_state illegal) x) with (indexed st x). simpl.
  rewrite comp_elem. split.
  - intros [Hi Hx]. destruct (decide (x ∈ tj_stack st)); auto.
  - intros [[Hi Hx]|[Hx Hx0]]; (split; [|auto]); [done|].
    by apply (iv_indexed _ _ (vs_inv _ _ _ _ _ _ Hv)).
Qed.

Lemma leave_root illegal :
  (∀ r, r ∈ illegal → r ∈ tj_illegal st ∨ r ∈ comp ∧ illegal_node n) →
  (∀ r, r ∈ tj_illegal st → r ∈ illegal) → (illegal_node n → ∃ r, r ∈ comp ∧ r ∈ illegal) →
  connected G n st0 (closed_state illegal).
Proof.
  intros Hnew Hold Hadd. pose proof Hv as [H0 HG H1 H2 H3 H4 H5 H6 H7 H8].
  destruct (stack_order _ _ _ _ _ H1 H5) as (O1 & O2 & O3 & O4 & O5).
  assert (Hsub : ∀ y, y ∈ tj_stack st0 → y ∈ tj_stack st) by (rewrite H5; set_solver).
  split; [|done|done|done|].
  - split.
    + intros x. simpl. rewrite list_elem_of_filter, (iv_onStack _ _ H1), comp_elem.
      destruct (decide (x ∈ tj_stack st0)); naive_solver.
    + intros x Hx. by apply (iv_indexed _ _ H1), Hsub.
    + apply H1.
    + apply H1.
    + pose proof (iv_sorted _ _ H1) as Hs. rewrite H5 in Hs.
      by apply sorted_app_r, StronglySorted_inv in Hs as [Hs _].
    + done.
    + intros x y Hx Hy. apply (iv_down _ _ H1); by apply Hsub.
    + intros y Hy. destruct (iv_up _ _ H1 y) as (x & [->|Hx]%elem_of_cons & Hle & Hr);
        [by apply Hsub|apply O2 in Hy; lia|by exists x].
    + intros x y Hx HxG Hxy Hy. destruct (decide (x = n)) as [->|Hne]; [by apply H7|].
      apply (iv_black _ _ H1 x); [done|by apply not_elem_of_cons|done|done].
    + intros x y. rewrite !popped_closed. apply comp_closed.
    + intros x [Hp|Hc]%popped_closed Hx.
      * destruct (iv_complete _ _ H1 x Hp Hx) as (r & Hr & Hm). exists r. split; [by apply Hold|done].
      * assert (Hm := comp_mutual x Hc).
        destruct Hadd as (r & Hr & Hi); [by eapply illegal_mutual, Hx; apply mutual_sym|].
        exists r. split; [done|]. eapply mutual_trans; [by apply mutual_sym|by apply comp_mutual].
    + intros r. rewrite popped_closed. intros [Hr|[Hr Hn]]%Hnew.
      * destruct (iv_sound _ _ H1 r Hr). auto.
      * split; [by right|]. by eapply illegal_mutual, Hn; apply comp_mutual.
  - exists []. split_and!; [done|by intros ? ?%not_elem_of_nil|].
    split; [by intros ?? ?%not_elem_of_nil|by intros ? ?%not_elem_of_nil|by apply (ls_le _ _ _ _ _ H8)|by left].
Qed.

Lemma leave_component : connected G n st0 (closeComponent g nodes n st).
Proof.
  unfold closeComponent. rewrite decide_True by done.
  pose proof (vs_stack _ _ _ _ _ _ Hv) as E. rewrite E.
  destruct (stack_order _ _ _ _ _ (vs_inv _ _ _ _ _ _ Hv) E) as (_ & _ & O3 & _).
  rewrite popComponent_app by done. fold comp.
  apply leave_root.
  - intros r. destruct (cyclic g comp && _) eqn:Ec; [|by left]. apply comp_illegal in Ec.
    destruct comp as [|c rest]; [by left|]. rewrite elem_set_add. intros [->|Hr]; [right|by left].
    split; [by left|done].
  - intros r Hr. destruct (cyclic g comp && _); [|done]. destruct comp; [done|].
    rewrite elem_set_add. by right.
  - intros Hn%comp_illegal. rewrite Hn. destruct comp as [|c rest] eqn:Ecomp.
    + by apply app_nil in Ecomp as [_ ?].
    + exists c. rewrite elem_set_add. split; [by left|by left].
Qed.
End Component.

(** ** The search *)

Lemma visitNexts_spec G n st0 call : (∀ x, x ∈ G → reaches g x n) →
  (∀ next st st1, inv (n :: G) st → indexed st next = false → in_graph g next = true →
     (∀ x, x ∈ n :: G → reaches g x next) → call next st = Some st1 → connected (n :: G) next st st1) →
  ∀ nexts done T st st', (∀ y, y ∈ nexts → edge g n y) →
    visiting G n st0 done T st → visitNexts g call n nexts st = Some st' →
    ∃ T', visiting G n st0 (done ++ nexts) T' st'.
Proof.
  intros HG Hcall. induction nexts as [|next nexts IH]; intros done T st st' He Hvis H; cbn [visitNexts] in H.
  { injection H as <-. exists T. by rewrite app_nil_r. }
  assert (Hne : edge g n next) by (apply He; by left).
  assert (He' : ∀ y, y ∈ nexts → edge g n y) by (intros y Hy; apply He; by right).
  change (next :: nexts) with ([next] ++ nexts). rewrite app_assoc.
  destruct (in_graph g next) eqn:Eg; simpl in H.
  2: { eapply IH; [done| |done]. apply visiting_skip; [done|congruence]. }
  destruct (indexed st next) eqn:Ei; simpl in H.
  - destruct (string_in next (tj_onStack st)) eqn:Es.
    + eapply IH; [done| |done]. apply visiting_back; [done|done|].
      apply bool_decide_eq_true in Es. by apply (iv_onStack _ _ (vs_inv _ _ _ _ _ _ Hvis)).
    + eapply IH; [done| |done]. apply visiting_skip; [done|]. intros _. split; [done|].
      apply bool_decide_eq_false in Es. by rewrite <- (iv_onStack _ _ (vs_inv _ _ _ _ _ _ Hvis)).
  - destruct (call next st) as [st1|] eqn:Ec; [|done]. simpl in H.
    destruct (visiting_call G n st0 done T st next st1) as (T1 & Hv1); try done.
    + apply Hcall; try done; [apply Hvis|].
      intros x [->|Hx]%elem_of_cons; [by apply rtc_once|]. eapply rtc_r; [by apply HG|done].
    + by eapply IH.
Qed.

Lemma strongConnect_spec fuel : ∀ G n st st', inv G st → indexed st n = false → in_graph g n = true →
  (∀ x, x ∈ G → reaches g x n) → strongConnect g nodes fuel n st = Some st' → connected G n st st'.
Proof.
  induction fuel as [|fuel IH]; intros G n st st' Hinv Hn Hg HG H; [done|]. cbn [strongConnect] in H.
  destruct (visitNexts g (strongConnect g nodes fuel) n (succs g n) (enter n st)) as [st1|] eqn:E; [|done].
  injection H as <-.
  destruct (visitNexts_spec G n st (strongConnect g nodes fuel)) with
    (nexts := succs g n) (done := @nil string) (T := @nil string) (st := enter n st) (st' := st1)
    as (T & Hv); try done.
  - intros next s1 s2 Hi Hx Hgx Hr Hc. by eapply IH.
  - by apply visiting_start.
  - destruct (decide (low st1 n = num st1 n)) as [El|El].
    + by eapply leave_component.
    + unfold closeComponent. rewrite decide_False by done. by eapply leave_open.
Qed.

Lemma inv_start : inv [] (mkTarjan [] [] [] [] 0 []).
Proof.
  split; simpl; try done; try (by intros ? ?%not_elem_of_nil); try (by intros ?? ?%not_elem_of_nil).
  - constructor.
  - by intros ?? [? _].
  - by intros ? [? _].
Qed.

Lemma tarjanLoop_spec fuel keys : ∀ st st', keys ⊆ g.*1 → inv [] st →
  tarjanLoop g nodes fuel keys st = Some st' →
  inv [] st' ∧ (∀ x, indexed st x = true → indexed st' x = true) ∧ (∀ x, x ∈ keys → indexed st' x = true).
Proof.
  induction keys as [|n keys IH]; intros st st' Hk Hinv H; cbn [tarjanLoop] in H.
  { injection H as <-. split_and!; try done. by intros ? ?%not_elem_of_nil. }
  assert (Hks : keys ⊆ g.*1) by (intros x Hx; apply Hk; by right).
  destruct (indexed st n) eqn:Ei.
  - destruct (IH _ _ Hks Hinv H) as (H1 & H2 & H3). split_and!; try done.
    intros x [->|Hx]%elem_of_cons; auto.
  - destruct (strongConnect g nodes fuel n st) as [st1|] eqn:Ec; [|done]. simpl in H.
    destruct (strongConnect_spec fuel [] n st st1) as [K1 [_ K2] K3 _ _]; try done.
    { apply in_graph_elem, Hk. by left. }
    { by intros ? ?%not_elem_of_nil. }
    destruct (IH _ _ Hks K1 H) as (H1 & H2 & H3). split_and!; try done.
    + intros x Hx. by apply H2, K2.
    + intros x [->|Hx]%elem_of_cons; auto.
Qed.

(** The search ends, and reports one node of every strongly connected
    component that has a cycle and no loop node, and nothing else. *)
Lemma findIllegalCycles_spec : ∃ illegal, findIllegalCycles g nodes = Some illegal ∧
  (∀ r, r ∈ illegal → illegal_node r) ∧
  (∀ n, illegal_node n → ∃ r, r ∈ illegal ∧ mutual n r).
Proof.
  destruct (findIllegalCycles_total g nodes) as [illegal Hf]. exists illegal. split; [done|].
  unfold findIllegalCycles in Hf.
  destruct (tarjanLoop g nodes (S (length g)) g.*1 (mkTarjan [] [] [] [] 0 [])) as [st|] eqn:E; [|done].
  injection Hf as <-. destruct (tarjanLoop_spec _ _ _ _ (reflexivity g.*1) inv_start E) as (Hinv & _ & Hall).
  split; [intros r Hr; by apply (iv_sound _ _ Hinv)|].
  intros n Hn. apply (iv_complete _ _ Hinv); [|done]. split.
  - apply Hall, in_graph_elem. destruct Hn as [(z & He & _)%tc_rtc_inv _]. by eapply edge_in_graph.
  - intros (x & Hx & _)%(iv_up _ _ Hinv). by apply not_elem_of_nil in Hx.
Qed.
End Tarjan.

(** A scenario that compiles has no illegal cycle. *)
Lemma compiled_no_illegal ir signed rep ast : compileScenarioStatic ir signed = (rep, Some ast) →
  findIllegalCycles (buildGraph ir) (ir_nodes ir) = Some [].
Proof.
  unfold compileScenarioStatic. set (perNode := map _ (ir_nodes ir)).
  match goal with |- (mkReport ?e ?w, _) = _ → _ => set (errs := e); set (warns := w) end.
  destruct errs as [|x errs'] eqn:Eerr; [|done]. intros _. unfold errs in Eerr. clear errs.
  do 5 (apply app_nil in Eerr as [_ Eerr]). apply map_eq_nil in Eerr.
  destruct (findIllegalCycles_total (buildGraph ir) (ir_nodes ir)) as [l E].
  rewrite E in Eerr |- *. simpl in Eerr. unfold Datatypes.id in Eerr. by subst.
Qed.

(** On a cycle that is not illegal there is a loop node. *)
Lemma legal_cycle_loop g nodes n : findIllegalCycles g nodes = Some [] → on_cycle g n →
  ∃ m node, mutual g n m ∧ (m, node) ∈ nodes ∧ is_Some (loopOf node).
Proof.
  intros E Hc.
  destruct (decide (Exists (λ p, (p.1 ∈ reachableFrom n g ∧ n ∈ reachableFrom p.1 g) ∧
                                 isLoopNode (alookup p.1 nodes) = true) nodes)) as [H|H].
  - apply Exists_exists in H as ([m x] & _ & [H1 H2] & H3). simpl in *.
    rewrite reachableFrom_correct in H1, H2. unfold isLoopNode in H3.
    destruct (alookup m nodes) as [node|] eqn:El; [|done]. exists m, node.
    split; [done|]. split; [by apply alookup_elem|]. by destruct (loopOf node).
  - exfalso. destruct (findIllegalCycles_spec g nodes) as (l & E' & _ & Hl).
    rewrite E in E'. injection E' as <-.
    destruct (Hl n) as (r & Hr & _); [|by apply not_elem_of_nil in Hr].
    split; [done|]. intros m [Hm1 Hm2]. apply not_true_iff_false. intros Hloop. apply H, Exists_exists.
    destruct (alookup m nodes) as [node|] eqn:El; [|by unfold isLoopNode in Hloop].
    exists (m, node). split; [by apply alookup_elem|]. simpl. rewrite El, !reachableFrom_correct. done.
Qed.

(** ** Properties *)

(** The cycle search is exact: for every graph the recursion ends, every
    reported node lies on a cycle in a strongly connected component without a
    loop node, and of every such component a node is reported. *)
Theorem findIllegalCycles_exact g nodes : ∃ illegal,
  findIllegalCycles g nodes = Some illegal ∧
  (∀ r, r ∈ illegal → illegal_node g nodes r) ∧
  (∀ n, illegal_node g nodes n → ∃ r, r ∈ illegal ∧ mutual g n r).
Proof. apply findIllegalCycles_spec. Qed.

(** Cycles of an accepted scenario are under the control of a loop: from
    every node on a cycle of the graph of an accepted scenario one can reach,
    and be reached from, a loop node, whose iterations the loop contract
    bounds. *)
Theorem accepted_cycles_have_loops ir signed rep ast n :
  compileScenarioStatic ir signed = (rep, Some ast) → on_cycle (buildGraph ir) n →
  ∃ m node l x, mutual (buildGraph ir) n m ∧ (m, node) ∈ ir_nodes ir ∧ loopOf node = Some l ∧
    as_number (alookup "max_iterations" l) = Some x ∧
    num_is_integer x = true ∧ num_leb (num_of_Z 1) x = true ∧
    num_leb x (num_of_Z MAX_LOOP_ITERATIONS) = true.
Proof.
  intros Hc Hn.
  destruct (legal_cycle_loop _ _ n (compiled_no_illegal _ _ _ _ Hc) Hn) as (m & node & Hm & Hin & [l Hl]).
  destruct (wf_loops ir (compiled_well_formed _ _ _ _ Hc) m node l Hin Hl) as (_ & _ & x & Hx & Hb).
  by exists m, node, l, x.
Qed.

(** A loop around one node, for the witness. *)
Definition looping : IRScenario :=
  mkScenario "a"
    [("a", [("loop", JObj [("until", JStr "flags.blocked"); ("body_target", JStr "b");
                           ("exit_target", JStr "end"); ("max_iterations", JNum (num_of_Z 3))])]);
     ("b", [("next", JStr "a")]); ("end", [("terminal", JStr "success")])] None None (num_of_Z 1).

Lemma accepted_cycles_have_loops_witness :
  ∃ m node l x, mutual (buildGraph looping) "b" m ∧ (m, node) ∈ ir_nodes looping ∧ loopOf node = Some l ∧
    as_number (alookup "max_iterations" l) = Some x ∧
    num_is_integer x = true ∧ num_leb (num_of_Z 1) x = true ∧
    num_leb x (num_of_Z MAX_LOOP_ITERATIONS) = true.
Proof.
  destruct (compileScenarioStatic looping None) as [rep [ast|]] eqn:E.
  - apply (accepted_cycles_have_loops looping None rep ast "b").
    + exact E.
    + apply (tc_l _ _ "a"); [|apply tc_once]; vm_compute; by left.
  - vm_compute in E. discriminate E.
Defined.
