(* ===== verification/RuntimeStore.v ===== *)
(** * The runtime store

    Models [runtime/fake-store.ts], the in-memory implementation of the
    storage contract of [ts/runtime-contract.ts]: rows of runs, workitems and
    human tasks advanced by compare-and-set on the state machines, the
    transactional outbox and its relay, browser and credential leases, signed
    resume tokens and dead letters.  Every method is a function from a store
    to a store and a result; a method that throws returns [Err] and changes
    nothing.  Instants are milliseconds (the ISO strings of the source are
    their textual form, [iso_of_ms]); a [Map] that is only read by key is a
    [gmap], one whose [values()] are iterated is a list in insertion order.
    HMAC-SHA256 (node:crypto) is a parameter. *)

From stdpp Require Import base strings list gmap pretty.
From Stdlib Require Import Ascii ZArith.
From S2P Require Import Prelude StateMachine JsValue.

#[local] Arguments String.append !_ _ / : simpl nomatch.

(** ** Identifiers, instants and texts *)

(** [n.toString(16)]. *)
Definition hex_digit (d : nat) : ascii :=
  ascii_of_nat (if d <? 10 then 48 + d else 87 + d).
Fixpoint hex_loop (fuel n : nat) (acc : string) : string :=
  match fuel with
  | O => acc
  | S fuel =>
      let acc' := String (hex_digit (n mod 16)) acc in
      if n <? 16 then acc' else hex_loop fuel (n / 16) acc'
  end.
Definition to_hex (n : nat) : string := hex_loop (S n) n EmptyString.

Fixpoint zeros (n : nat) : string :=
  match n with O => EmptyString | S n => String "0"%char (zeros n) end.
Definition padStart (width : nat) (s : string) : string := zeros (width - String.length s) +:+ s.

(** [nextId()] at a value of [sequence]. *)
Definition id_of_sequence (sequence : nat) : string :=
  "00000000-0000-4000-8000-" +:+ padStart 12 (to_hex sequence).

Example id_of_sequence_ex : id_of_sequence 26 = "00000000-0000-4000-8000-00000000001a".
Proof. vm_compute. reflexivity. Qed.

(** [new Date(ms).toISOString()]: civil date of a day number, then the clock. *)
Definition pad2 (z : Z) : string := if (z <? 10)%Z then "0" +:+ pretty z else pretty z.
Definition pad3 (z : Z) : string := if (z <? 100)%Z then "0" +:+ pad2 z else pretty z.
Definition pad4 (z : Z) : string := if (z <? 1000)%Z then "0" +:+ pad3 z else pretty z.
Definition pad6 (z : Z) : string :=
  if (z <? 100000)%Z then "0" +:+ (if (z <? 10000)%Z then "0" +:+ pad4 z else pretty z) else pretty z.

Definition civil (days : Z) : Z * Z * Z :=
  let z := (days + 719468)%Z in
  let era := (z / 146097)%Z in
  let doe := (z mod 146097)%Z in
  let yoe := ((doe - doe / 1460 + doe / 36524 - doe / 146096) / 365)%Z in
  let doy := (doe - (365 * yoe + yoe / 4 - yoe / 100))%Z in
  let mp := ((5 * doy + 2) / 153)%Z in
  let d := (doy - (153 * mp + 2) / 5 + 1)%Z in
  let m := (if mp <? 10 then mp + 3 else mp - 9)%Z in
  let y := (yoe + era * 400 + (if m <=? 2 then 1 else 0))%Z in
  (y, m, d).

Definition iso_of_ms (ms : Z) : string :=
  let '(y, m, d) := civil (ms / 86400000) in
  let t := (ms mod 86400000)%Z in
  let year := if (0 <=? y)%Z && (y <=? 9999)%Z then pad4 y
              else if (y <? 0)%Z then "-" +:+ pad6 (- y) else "+" +:+ pad6 y in
  year +:+ "-" +:+ pad2 m +:+ "-" +:+ pad2 d +:+ "T" +:+ pad2 (t / 3600000) +:+ ":" +:+
  pad2 (t / 60000 mod 60) +:+ ":" +:+ pad2 (t / 1000 mod 60) +:+ "." +:+ pad3 (t mod 1000) +:+ "Z".

Example iso_of_ms_ex : iso_of_ms 1781308800000 = "2026-06-13T00:00:00.000Z" ∧
  iso_of_ms 951782400123 = "2000-02-29T00:00:00.123Z".
Proof. split; vm_compute; reflexivity. Qed.

(** ** Keys *)

Definition entityKey (tenantId id : string) : string := tenantId +:+ ":" +:+ id.
Definition tenantScopedKey (tenantId idempotencyKey : string) : string :=
  tenantId +:+ ":" +:+ idempotencyKey.
Definition credentialPolicyKey (tenantId credentialRef siteProfileId : string) : string :=
  tenantId +:+ ":" +:+ credentialRef +:+ ":" +:+ siteProfileId.
Definition credentialLeaseKey (policyKey : string) (slotNo : nat) : string :=
  policyKey +:+ ":" +:+ pretty slotNo.

(** ** Rows *)

Record ResumeTokenEnvelope := mkToken {
  tk_runId : string;
  tk_resumeNodeId : string;
  tk_pageStateRef : string;
  tk_loopContext : option (nat * nat);
  tk_issuedAt : Z;
  tk_expiresAt : Z;
  tk_kid : string;
  tk_hmac : string
}.

Record RunRow := mkRunRow {
  rr_tenantId : string; rr_id : string; rr_status : RunState; rr_correlationId : string;
  rr_workitemId : option string; rr_workerId : option string; rr_attempts : nat;
  rr_resumeToken : option ResumeTokenEnvelope;
  rr_createdAt : Z; rr_updatedAt : Z; rr_endedAt : option Z
}.

Record WorkitemRow := mkWorkitemRow {
  wr_tenantId : string; wr_id : string; wr_status : WorkitemState; wr_correlationId : string;
  wr_connectorId : string; wr_uniqueReference : string; wr_attempts : nat;
  wr_checkedOutBy : option string; wr_checkedOutAt : option Z; wr_checkoutExpiresAt : option Z;
  wr_checkoutPausedAt : option Z; wr_createdAt : Z; wr_updatedAt : Z
}.

Record HumanTaskRow := mkHumanTaskRow {
  hr_tenantId : string; hr_id : string; hr_runId : string; hr_state : HumanTaskState;
  hr_kind : HumanTaskKind; hr_correlationId : string; hr_onTimeout : OnTimeout;
  hr_assignee : option string; hr_createdAt : Z; hr_updatedAt : Z
}.

Record OutboxEventDraft := mkDraft {
  dr_eventId : string; dr_eventType : EventEnvelopeType; dr_eventVersion : nat;
  dr_tenantId : string; dr_runId : option string; dr_workitemId : option string;
  dr_correlationId : string; dr_orderingKey : string; dr_occurredAt : Z;
  dr_idempotencyKey : string; dr_payloadSchemaRef : string; dr_payload : json
}.

Record OutboxRow := mkOutboxRow {
  or_draft : OutboxEventDraft; or_publishedAt : option Z; or_createdAt : Z
}.

Inductive BrowserLeaseState := bl_reserved | bl_active | bl_draining | bl_expired.
Inductive CredentialLeaseStatus := cl_active | cl_released | cl_expired.
Inductive LeaseIsolation := iso_browser | iso_context | iso_page.
Inductive LeaseCleanupPolicy := clear_all | preserve_session | preserve_downloads.
#[export] Instance BrowserLeaseState_eq_dec : EqDecision BrowserLeaseState.
Proof. solve_decision. Defined.
#[export] Instance CredentialLeaseStatus_eq_dec : EqDecision CredentialLeaseStatus.
Proof. solve_decision. Defined.

Record BrowserLease := mkBrowserLease {
  b_id : string; b_tenantId : string; b_siteProfileId : string; b_browserIdentityId : string;
  b_runId : option string; b_ownerWorkerId : string; b_isolation : LeaseIsolation;
  b_state : BrowserLeaseState; b_cleanupPolicy : LeaseCleanupPolicy;
  b_heartbeatAt : Z; b_expiresAt : Z
}.

Record CredentialLease := mkCredentialLease {
  c_tenantId : string; c_credentialRef : string; c_siteProfileId : string; c_slotNo : nat;
  c_runId : string; c_workitemId : option string; c_status : CredentialLeaseStatus;
  c_lockedUntil : Z; c_acquiredAt : Z
}.

Record DeadLetterRecord := mkDeadLetter {
  dl_id : string; dl_tenantId : string; dl_workitemId : option string; dl_runId : option string;
  dl_reasonCode : string; dl_evidenceRef : option string; dl_replayable : bool;
  dl_createdAt : Z; dl_replayedAt : option Z
}.

Record store := mkStore {
  nowMs : Z;
  sequence : nat;
  runs : gmap string RunRow;
  workitems : gmap string WorkitemRow;
  humanTasks : gmap string HumanTaskRow;
  outbox : gmap string OutboxRow;
  outboxOrder : list string;
  outboxIdempotency : gmap string string;
  deliveredIdempotency : gset string;
  browserLeases : list (string * BrowserLease);
  credentialPolicies : gmap string nat;
  credentialLeases : list (string * CredentialLease);
  deadLetters : list (string * DeadLetterRecord);
  publishedEvents : list OutboxRow
}.

(** [RuntimeFakeOptions] with the constructor's defaults filled in. *)
Record options := mkOptions {
  opt_resumeKid : string;
  opt_resumeSigningKey : string;
  opt_defaultCredentialMaxConcurrency : nat
}.
Definition default_options : options := mkOptions "fixture-kid" "fixture-resume-hmac-key" 1.

Definition new_store (now : Z) : store :=
  mkStore now 1 ∅ ∅ ∅ ∅ [] ∅ ∅ [] ∅ [] [] [].

(** Field updates. *)
Definition with_now (f : Z → Z) (s : store) : store :=
  mkStore (f (nowMs s)) (sequence s) (runs s) (workitems s) (humanTasks s) (outbox s) (outboxOrder s)
    (outboxIdempotency s) (deliveredIdempotency s) (browserLeases s) (credentialPolicies s)
    (credentialLeases s) (deadLetters s) (publishedEvents s).
Definition with_sequence (f : nat → nat) (s : store) : store :=
  mkStore (nowMs s) (f (sequence s)) (runs s) (workitems s) (humanTasks s) (outbox s) (outboxOrder s)
    (outboxIdempotency s) (deliveredIdempotency s) (browserLeases s) (credentialPolicies s)
    (credentialLeases s) (deadLetters s) (publishedEvents s).
Definition with_runs (f : gmap string RunRow → gmap string RunRow) (s : store) : store :=
  mkStore (nowMs s) (sequence s) (f (runs s)) (workitems s) (humanTasks s) (outbox s) (outboxOrder s)
    (outboxIdempotency s) (deliveredIdempotency s) (browserLeases s) (credentialPolicies s)
    (credentialLeases s) (deadLetters s) (publishedEvents s).
Definition with_workitems (f : gmap string WorkitemRow → gmap string WorkitemRow) (s : store) : store :=
  mkStore (nowMs s) (sequence s) (runs s) (f (workitems s)) (humanTasks s) (outbox s) (outboxOrder s)
    (outboxIdempotency s) (deliveredIdempotency s) (browserLeases s) (credentialPolicies s)
    (credentialLeases s) (deadLetters s) (publishedEvents s).
Definition with_humanTasks (f : gmap string HumanTaskRow → gmap string HumanTaskRow) (s : store) : store :=
  mkStore (nowMs s) (sequence s) (runs s) (workitems s) (f (humanTasks s)) (outbox s) (outboxOrder s)
    (outboxIdempotency s) (deliveredIdempotency s) (browserLeases s) (credentialPolicies s)
    (credentialLeases s) (deadLetters s) (publishedEvents s).
Definition with_outbox (f : gmap string OutboxRow → gmap string OutboxRow) (order : list string → list string)
    (keys : gmap string string → gmap string string) (s : store) : store :=
  mkStore (nowMs s) (sequence s) (runs s) (workitems s) (humanTasks s) (f (outbox s)) (order (outboxOrder s))
    (keys (outboxIdempotency s)) (deliveredIdempotency s) (browserLeases s) (credentialPolicies s)
    (credentialLeases s) (deadLetters s) (publishedEvents s).
Definition with_delivery (delivered : gset string → gset string)
    (published : list OutboxRow → list OutboxRow) (s : store) : store :=
  mkStore (nowMs s) (sequence s) (runs s) (workitems s) (humanTasks s) (outbox s) (outboxOrder s)
    (outboxIdempotency s) (delivered (deliveredIdempotency s)) (browserLeases s) (credentialPolicies s)
    (credentialLeases s) (deadLetters s) (published (publishedEvents s)).
Definition with_browserLeases (f : list (string * BrowserLease) → list (string * BrowserLease)) (s : store) : store :=
  mkStore (nowMs s) (sequence s) (runs s) (workitems s) (humanTasks s) (outbox s) (outboxOrder s)
    (outboxIdempotency s) (deliveredIdempotency s) (f (browserLeases s)) (credentialPolicies s)
    (credentialLeases s) (deadLetters s) (publishedEvents s).
Definition with_credentialPolicies (f : gmap string nat → gmap string nat) (s : store) : store :=
  mkStore (nowMs s) (sequence s) (runs s) (workitems s) (humanTasks s) (outbox s) (outboxOrder s)
    (outboxIdempotency s) (deliveredIdempotency s) (browserLeases s) (f (credentialPolicies s))
    (credentialLeases s) (deadLetters s) (publishedEvents s).
Definition with_credentialLeases (f : list (string * CredentialLease) → list (string * CredentialLease)) (s : store) : store :=
  mkStore (nowMs s) (sequence s) (runs s) (workitems s) (humanTasks s) (outbox s) (outboxOrder s)
    (outboxIdempotency s) (deliveredIdempotency s) (browserLeases s) (credentialPolicies s)
    (f (credentialLeases s)) (deadLetters s) (publishedEvents s).
Definition with_deadLetters (f : list (string * DeadLetterRecord) → list (string * DeadLetterRecord)) (s : store) : store :=
  mkStore (nowMs s) (sequence s) (runs s) (workitems s) (humanTasks s) (outbox s) (outboxOrder s)
    (outboxIdempotency s) (deliveredIdempotency s) (browserLeases s) (credentialPolicies s)
    (credentialLeases s) (f (deadLetters s)) (publishedEvents s).

Definition isExpired (s : store) (value : Z) : bool := (value <? nowMs s)%Z.
Definition msUntil (s : store) (value : Z) : Z := Z.max 0 (value - nowMs s).
Definition advanceMs (ms : Z) (s : store) : store := with_now (λ t, (t + ms)%Z) s.

(** ** Seeding *)

Definition seedRun (tenantId id : string) (status : option RunState) (correlationId workitemId : option string)
    (attempts : option nat) (s : store) : store :=
  with_runs <[entityKey tenantId id :=
    mkRunRow tenantId id (default run_queued status) (default id correlationId) workitemId None
      (default 0 attempts) None (nowMs s) (nowMs s) None]> s.

Definition seedWorkitem (tenantId id : string) (status : option WorkitemState)
    (correlationId connectorId uniqueReference : option string) (attempts : option nat) (s : store) : store :=
  with_workitems <[entityKey tenantId id :=
    mkWorkitemRow tenantId id (default wi_new status) (default id correlationId)
      (default "fixture-connector" connectorId) (default id uniqueReference) (default 0 attempts)
      None None None None (nowMs s) (nowMs s)]> s.

Definition seedHumanTask (tenantId id runId : string) (state : option HumanTaskState)
    (kind : option HumanTaskKind) (correlationId : option string) (timeout : option OnTimeout) (s : store) : store :=
  with_humanTasks <[entityKey tenantId id :=
    mkHumanTaskRow tenantId id runId (default ht_open state) (default k_exception kind)
      (default runId correlationId) (default ot_fail timeout) None (nowMs s) (nowMs s)]> s.

(** ** The outbox *)

Definition EVENT_PAYLOAD_SCHEMA_REFS (e : EventEnvelopeType) : string :=
  "events/" +:+ EventEnvelopeType_str e +:+ "@1".

Definition TENANT_EVENT_TYPES : list EventEnvelopeType :=
  [run_created_e; run_started_e; run_suspended_e; run_resume_requested_e; run_resumed_e;
   run_cancelled_e; run_completed_e; run_failed_business_e; run_failed_system_e;
   step_started_e; step_completed_e; step_verify_failed_e;
   llm_stream_started_e; llm_stream_completed_e; llm_stream_aborted_e;
   challenge_detected_e; challenge_resolved_e;
   human_task_created_e; human_task_resolved_e; human_task_expired_e; human_task_escalated_e;
   workitem_completed_e; workitem_dead_lettered_e;
   pipeline_stage_completed_e; sink_delivered_e; sink_dead_lettered_e;
   site_circuit_opened_e; site_circuit_closed_e].

Record entity_ref := mkEntity { en_kind : EntityKind; en_tenantId : string; en_id : string }.

Definition EntityKind_str (k : EntityKind) : string :=
  match k with e_run => "run" | e_workitem => "workitem" | e_human_task => "human_task" end.

Inductive entity_row := R_run (row : RunRow) | R_workitem (row : WorkitemRow) | R_human_task (row : HumanTaskRow).

Definition row_correlationId (row : entity_row) : string :=
  match row with
  | R_run x => rr_correlationId x | R_workitem x => wr_correlationId x | R_human_task x => hr_correlationId x
  end.

Definition runIdFor (e : entity_ref) (row : entity_row) : option string :=
  match row with
  | R_run _ => Some (en_id e) | R_human_task x => Some (hr_runId x) | R_workitem _ => None
  end.
Definition workitemIdFor (e : entity_ref) (row : entity_row) : option string :=
  match row with
  | R_workitem _ => Some (en_id e) | R_run x => rr_workitemId x | R_human_task _ => None
  end.
Definition orderingKeyFor (e : entity_ref) (row : entity_row) : string :=
  match row with R_human_task x => hr_runId x | _ => en_id e end.

(** The events among the side effects, each with its index. *)
Definition emitted (effects : list SideEffectCmd) : list EventEnvelopeType :=
  omap (λ c, match c with emitEvent e => Some e | _ => None end) effects.

Definition event_key (e : entity_ref) (transitionEvent : string) (index : nat) (ev : EventEnvelopeType) : string :=
  join ":" [EntityKind_str (en_kind e); en_id e; transitionEvent; EventEnvelopeType_str ev; pretty index].

Definition draft_for (now : Z) (seq : nat) (e : entity_ref) (row : entity_row) (transitionEvent : string)
    (index : nat) (ev : EventEnvelopeType) : OutboxEventDraft :=
  mkDraft (id_of_sequence (seq + index)) ev 1 (en_tenantId e) (runIdFor e row) (workitemIdFor e row)
    (row_correlationId row) (orderingKeyFor e row) now (event_key e transitionEvent index ev)
    (EVENT_PAYLOAD_SCHEMA_REFS ev) (JObj []).

Definition outboxDraftsForTransition (e : entity_ref) (row : entity_row) (transitionEvent : string)
    (effects : list SideEffectCmd) (s : store) : store * list OutboxEventDraft :=
  let drafts := imap (draft_for (nowMs s) (sequence s) e row transitionEvent) (emitted effects) in
  (with_sequence (λ n, n + length drafts) s, drafts).

Definition draft_key (d : OutboxEventDraft) : string := tenantScopedKey (dr_tenantId d) (dr_idempotencyKey d).

Definition appendDraft (s : store) (d : OutboxEventDraft) : store :=
  with_outbox <[dr_eventId d := mkOutboxRow d None (nowMs s)]> (λ l, l ++ [dr_eventId d])
    <[draft_key d := dr_eventId d]> s.

Definition appendStep (acc : store * list OutboxEventDraft) (d : OutboxEventDraft)
  : store * list OutboxEventDraft :=
  let '(s, inserted) := acc in
  match outboxIdempotency s !! draft_key d with
  | Some _ => (s, inserted)
  | None => (appendDraft s d, inserted ++ [d])
  end.

Definition appendOutboxDrafts (drafts : list OutboxEventDraft) (s : store) : store * list OutboxEventDraft :=
  foldl appendStep (s, []) drafts.

(** Rows in order, for [getOutboxRows] and [pollUnpublished]. *)
Definition getOutboxRows (s : store) : list OutboxRow := omap (λ id, outbox s !! id) (outboxOrder s).

Definition pollUnpublished (limit : nat) (s : store) : list OutboxRow :=
  take limit (filter (λ r, or_publishedAt r = None) (getOutboxRows s)).

Definition validate (payloadSchemaRef : string) (payload : json) : bool :=
  existsb (λ e, bool_decide (EVENT_PAYLOAD_SCHEMA_REFS e = payloadSchemaRef)) TENANT_EVENT_TYPES &&
  match payload with JObj [] => true | _ => false end.

Inductive OutboxPublishResult :=
| pub_published (eventId : string)
| pub_duplicate (eventId idempotencyKey : string)
| pub_failed (eventId : string) (retryable : bool) (reason : string).

Definition publish (row : OutboxRow) (s : store) : store * OutboxPublishResult :=
  let d := or_draft row in
  if negb (bool_decide (dr_payloadSchemaRef d = EVENT_PAYLOAD_SCHEMA_REFS (dr_eventType d))) then
    (s, pub_failed (dr_eventId d) false "event_type and payload_schema_ref mismatch")
  else if negb (validate (dr_payloadSchemaRef d) (dr_payload d)) then
    (s, pub_failed (dr_eventId d) false "payload_schema_ref or placeholder payload shape rejected")
  else if decide (draft_key d ∈ deliveredIdempotency s) then
    (s, pub_duplicate (dr_eventId d) (dr_idempotencyKey d))
  else (with_delivery (λ k, {[draft_key d]} ∪ k) (λ l, l ++ [row]) s, pub_published (dr_eventId d)).

Definition markPublished (eventId : string) (publishedAt : Z) (s : store) : store :=
  match outbox s !! eventId with
  | Some (mkOutboxRow d None c) =>
      with_outbox <[eventId := mkOutboxRow d (Some publishedAt) c]> id id s
  | _ => s
  end.

Definition relayRow (s : store) (row : OutboxRow) : store * OutboxPublishResult :=
  let '(s', res) := publish row s in
  (match res with
   | pub_published id | pub_duplicate id _ => markPublished id (nowMs s') s'
   | pub_failed _ _ _ => s'
   end, res).

Definition relayStep (acc : store * list OutboxPublishResult) (row : OutboxRow)
  : store * list OutboxPublishResult :=
  let '(s, results) := acc in let '(s', r) := relayRow s row in (s', results ++ [r]).

Definition relayOutboxBatch (limit : nat) (s : store) : store * (list OutboxRow * list OutboxPublishResult) :=
  let rows := pollUnpublished limit s in
  let '(s', results) := foldl relayStep (s, []) rows in
  (s', (rows, results)).

(** ** Compare-and-set on the state machines *)

Inductive StateMachineCasResult (S : Type) :=
| applied (next : S) (sideEffects : list SideEffectCmd) (outbox : list OutboxEventDraft)
| cas_miss (latestState : option S).
Arguments applied {S}.
Arguments cas_miss {S}.

Definition run_ends (st : RunState) : bool := bool_decide (st ∈ RUN_TERMINAL).

(** The row after [applyRun]: new status and [applyRunSideEffects]. *)
Definition run_after (now : Z) (event : RunEvent) (nxt : RunState) (row : RunRow) : RunRow :=
  mkRunRow (rr_tenantId row) (rr_id row) nxt (rr_correlationId row) (rr_workitemId row) (rr_workerId row)
    (if bool_decide (event = ev_init_failed) && bool_decide (nxt = run_queued)
     then S (rr_attempts row) else rr_attempts row)
    (rr_resumeToken row) (rr_createdAt row) now
    (if run_ends nxt then Some now else rr_endedAt row).

Definition applyRun (tenantId id : string) (current : RunState) (event : RunEvent)
    (transition : TransitionResult RunState) (s : store) : store * StateMachineCasResult RunState :=
  match runs s !! entityKey tenantId id with
  | None => (s, cas_miss None)
  | Some row =>
      if decide (rr_status row = current) then
        let '(s1, drafts) := outboxDraftsForTransition (mkEntity e_run tenantId id) (R_run row)
                               (RunEvent_type event) (sideEffects transition) s in
        let '(s2, inserted) := appendOutboxDrafts drafts s1 in
        (with_runs <[entityKey tenantId id := run_after (nowMs s) event (next transition) row]> s2,
         applied (next transition) (sideEffects transition) inserted)
      else (s, cas_miss (Some (rr_status row)))
  end.

(** [applyWorkitemSideEffects] with the new status. *)
Definition workitem_after (now : Z) (event : WorkitemEvent) (nxt : WorkitemState) (row : WorkitemRow) : WorkitemRow :=
  let bump := (bool_decide (event = wev_system_exception) || bool_decide (event = wev_checkout_expired)) &&
              (bool_decide (nxt = wi_retry) || bool_decide (nxt = wi_abandoned)) in
  let replayed := bool_decide (event = wev_manual_replay) && bool_decide (nxt = wi_new) in
  let paused :=
    match event with
    | wev_run_suspended => Some now
    | wev_run_resumed => None
    | _ => if replayed then None else wr_checkoutPausedAt row
    end in
  mkWorkitemRow (wr_tenantId row) (wr_id row) nxt (wr_correlationId row) (wr_connectorId row)
    (wr_uniqueReference row)
    (if replayed then 0 else if bump then S (wr_attempts row) else wr_attempts row)
    (wr_checkedOutBy row)
    (if replayed then None else wr_checkedOutAt row)
    (if replayed then None else wr_checkoutExpiresAt row)
    paused (wr_createdAt row) now.

Definition open_for (tenantId workitemId : string) (rec : DeadLetterRecord) : bool :=
  bool_decide (dl_tenantId rec = tenantId) && bool_decide (dl_workitemId rec = Some workitemId) &&
  bool_decide (dl_replayedAt rec = None).

Definition createDlqForSideEffect (row : WorkitemRow) (effects : list SideEffectCmd) (s : store) : store :=
  if negb (existsb (λ c, bool_decide (c = createDeadLetter)) effects) then s
  else if existsb (λ p, open_for (wr_tenantId row) (wr_id row) p.2) (deadLetters s) then s
  else
    let newId := id_of_sequence (sequence s) in
    with_deadLetters
      (aset newId (mkDeadLetter newId (wr_tenantId row) (Some (wr_id row)) None "DEAD_LETTER" None true (nowMs s) None))
      (with_sequence S s).

Definition applyWorkitem (tenantId id : string) (current : WorkitemState) (event : WorkitemEvent)
    (transition : TransitionResult WorkitemState) (s : store) : store * StateMachineCasResult WorkitemState :=
  match workitems s !! entityKey tenantId id with
  | None => (s, cas_miss None)
  | Some row =>
      if decide (wr_status row = current) then
        let '(s1, drafts) := outboxDraftsForTransition (mkEntity e_workitem tenantId id) (R_workitem row)
                               (WorkitemEvent_type event) (sideEffects transition) s in
        let '(s2, inserted) := appendOutboxDrafts drafts s1 in
        let row' := workitem_after (nowMs s) event (next transition) row in
        (createDlqForSideEffect row' (sideEffects transition)
           (with_workitems <[entityKey tenantId id := row']> s2),
         applied (next transition) (sideEffects transition) inserted)
      else (s, cas_miss (Some (wr_status row)))
  end.

Definition human_task_after (now : Z) (event : HumanTaskEvent) (nxt : HumanTaskState) (row : HumanTaskRow) : HumanTaskRow :=
  mkHumanTaskRow (hr_tenantId row) (hr_id row) (hr_runId row) nxt (hr_kind row) (hr_correlationId row)
    (hr_onTimeout row)
    (if decide (event = hev_assign) then Some (default "fixture-assignee" (hr_assignee row)) else hr_assignee row)
    (hr_createdAt row) now.

Definition applyHumanTask (tenantId id : string) (current : HumanTaskState) (event : HumanTaskEvent)
    (transition : TransitionResult HumanTaskState) (s : store) : store * StateMachineCasResult HumanTaskState :=
  match humanTasks s !! entityKey tenantId id with
  | None => (s, cas_miss None)
  | Some row =>
      if decide (hr_state row = current) then
        let '(s1, drafts) := outboxDraftsForTransition (mkEntity e_human_task tenantId id) (R_human_task row)
                               (HumanTaskEvent_type event) (sideEffects transition) s in
        let '(s2, inserted) := appendOutboxDrafts drafts s1 in
        (with_humanTasks <[entityKey tenantId id := human_task_after (nowMs s) event (next transition) row]> s2,
         applied (next transition) (sideEffects transition) inserted)
      else (s, cas_miss (Some (hr_state row)))
  end.

(** The [apply...Event] methods: look up, run the state machine, then CAS. *)
Definition applyRunEvent (tenantId id : string) (event : RunEvent) (guard : option RunGuard)
    (expectedState : option RunState) (s : store)
  : result IllegalTransition (store * StateMachineCasResult RunState) :=
  match runs s !! entityKey tenantId id with
  | None => Ok (s, cas_miss None)
  | Some row =>
      let current := default (rr_status row) expectedState in
      t ← transitionRun current event (default run_guard_empty guard);
      Ok (applyRun tenantId id current event t s)
  end.

Definition applyWorkitemEvent (tenantId id : string) (event : WorkitemEvent) (guard : option WorkitemGuard)
    (expectedState : option WorkitemState) (s : store)
  : result IllegalTransition (store * StateMachineCasResult WorkitemState) :=
  match workitems s !! entityKey tenantId id with
  | None => Ok (s, cas_miss None)
  | Some row =>
      let current := default (wr_status row) expectedState in
      t ← transitionWorkitem current event (default workitem_guard_empty guard);
      Ok (applyWorkitem tenantId id current event t s)
  end.

Definition applyHumanTaskEvent (tenantId id : string) (event : HumanTaskEvent) (guard : option HumanTaskGuard)
    (expectedState : option HumanTaskState) (s : store)
  : result IllegalTransition (store * StateMachineCasResult HumanTaskState) :=
  match humanTasks s !! entityKey tenantId id with
  | None => Ok (s, cas_miss None)
  | Some row =>
      let current := default (hr_state row) expectedState in
      t ← transitionHumanTask current event (default human_task_guard_empty guard);
      Ok (applyHumanTask tenantId id current event t s)
  end.

(** ** Browser leases *)

Inductive LeaseAcquireResult (L : Type) := acquired (lease : L) | deferred (retryAfterMs : Z).
Arguments acquired {L}.
Arguments deferred {L}.
Inductive LeaseRenewResult := renewed (until : Z) | lost (reason : string).

Definition lease_held (st : BrowserLeaseState) : bool :=
  match st with bl_reserved | bl_active => true | _ => false end.

Definition set_browser (st : BrowserLeaseState) (heartbeat expires : Z) (l : BrowserLease) : BrowserLease :=
  mkBrowserLease (b_id l) (b_tenantId l) (b_siteProfileId l) (b_browserIdentityId l) (b_runId l)
    (b_ownerWorkerId l) (b_isolation l) st (b_cleanupPolicy l) heartbeat expires.

(** The lease is for this tenant, site and browser identity. *)
Definition lease_for (tenantId siteProfileId browserIdentityId : string) (l : BrowserLease) : bool :=
  bool_decide (b_tenantId l = tenantId) && bool_decide (b_siteProfileId l = siteProfileId) &&
  bool_decide (b_browserIdentityId l = browserIdentityId).

Definition find_held (tenantId siteProfileId browserIdentityId : string) (ls : list (string * BrowserLease))
  : option (string * BrowserLease) :=
  List.find (λ p, lease_for tenantId siteProfileId browserIdentityId p.2 && lease_held (b_state p.2)) ls.

Definition acquireBrowser (tenantId runId siteProfileId browserIdentityId workerId : string)
    (isolation : LeaseIsolation) (cleanupPolicy : LeaseCleanupPolicy) (ttlMs : Z) (s : store)
  : store * LeaseAcquireResult BrowserLease :=
  let grant (s : store) :=
    let newId := id_of_sequence (sequence s) in
    let lease := mkBrowserLease newId tenantId siteProfileId browserIdentityId (Some runId) workerId isolation
                   bl_active cleanupPolicy (nowMs s) (nowMs s + ttlMs)%Z in
    (with_browserLeases (aset newId lease) (with_sequence S s), acquired lease) in
  match find_held tenantId siteProfileId browserIdentityId (browserLeases s) with
  | Some (key, active) =>
      if negb (isExpired s (b_expiresAt active)) then (s, deferred (msUntil s (b_expiresAt active)))
      else grant (with_browserLeases
                    (aset key (set_browser bl_expired (b_heartbeatAt active) (b_expiresAt active) active)) s)
  | None => grant s
  end.

Definition renewBrowser (tenantId leaseId workerId : string) (ttlMs : Z) (s : store) : store * LeaseRenewResult :=
  let fail := (s, lost "lease missing, owned by another worker, drained, or expired") in
  match alookup leaseId (browserLeases s) with
  | None => fail
  | Some l =>
      if bool_decide (b_tenantId l = tenantId) && bool_decide (b_ownerWorkerId l = workerId) &&
         lease_held (b_state l) && negb (isExpired s (b_expiresAt l))
      then (with_browserLeases (aset leaseId (set_browser bl_active (nowMs s) (nowMs s + ttlMs)%Z l)) s,
            renewed (nowMs s + ttlMs)%Z)
      else fail
  end.

Inductive DrainReason := run_cancelled_r | run_completed_r | run_suspended_r | sweeper_r.

Definition drainBrowser (tenantId leaseId workerId : string) (reason : DrainReason) (s : store) : store :=
  match alookup leaseId (browserLeases s) with
  | None => s
  | Some l =>
      if bool_decide (b_tenantId l = tenantId) && bool_decide (b_ownerWorkerId l = workerId) then
        with_browserLeases (aset leaseId
          (set_browser (match reason with sweeper_r => bl_expired | _ => bl_draining end)
             (b_heartbeatAt l) (nowMs s) l)) s
      else s
  end.

(** ** Credential leases *)

Definition setCredentialMaxConcurrency (tenantId credentialRef siteProfileId : string) (maxConcurrency : nat)
    (s : store) : store :=
  with_credentialPolicies <[credentialPolicyKey tenantId credentialRef siteProfileId := maxConcurrency]> s.

Definition set_credential (st : CredentialLeaseStatus) (until : Z) (l : CredentialLease) : CredentialLease :=
  mkCredentialLease (c_tenantId l) (c_credentialRef l) (c_siteProfileId l) (c_slotNo l) (c_runId l)
    (c_workitemId l) st until (c_acquiredAt l).

(** A slot that is taken: an active lease that has not expired. *)
Definition slot_taken (s : store) (key : string) : bool :=
  match alookup key (credentialLeases s) with
  | Some l => bool_decide (c_status l = cl_active) && negb (isExpired s (c_lockedUntil l))
  | None => false
  end.

(** The loop over the slots [slotNo .. slotNo + n - 1]: the first free one. *)
Fixpoint free_slot (s : store) (policyKey : string) (slotNo n : nat) : option nat :=
  match n with
  | O => None
  | S n =>
      if slot_taken s (credentialLeaseKey policyKey slotNo) then free_slot s policyKey (S slotNo) n
      else Some slotNo
  end.

Definition maxConcurrency_of (opts : options) (s : store) (policyKey : string) : nat :=
  default (opt_defaultCredentialMaxConcurrency opts) (credentialPolicies s !! policyKey).

Definition acquireCredential (opts : options) (tenantId runId : string) (workitemId : option string)
    (credentialRef siteProfileId : string) (lockedUntil : Z) (s : store)
  : store * LeaseAcquireResult CredentialLease :=
  let policyKey := credentialPolicyKey tenantId credentialRef siteProfileId in
  match free_slot s policyKey 0 (maxConcurrency_of opts s policyKey) with
  | None => (s, deferred 1)
  | Some slotNo =>
      let lease := mkCredentialLease tenantId credentialRef siteProfileId slotNo runId workitemId cl_active
                     lockedUntil (nowMs s) in
      (with_credentialLeases (aset (credentialLeaseKey policyKey slotNo) lease) s, acquired lease)
  end.

Definition releaseCredential (tenantId credentialRef siteProfileId : string) (slotNo : nat) (s : store) : store :=
  let key := credentialLeaseKey (credentialPolicyKey tenantId credentialRef siteProfileId) slotNo in
  match alookup key (credentialLeases s) with
  | Some l => with_credentialLeases (aset key (set_credential cl_released (c_lockedUntil l) l)) s
  | None => s
  end.

Definition renewCredential (tenantId credentialRef siteProfileId : string) (slotNo : nat) (runId : string)
    (lockedUntil : Z) (s : store) : store * LeaseRenewResult :=
  let key := credentialLeaseKey (credentialPolicyKey tenantId credentialRef siteProfileId) slotNo in
  let fail := (s, lost "credential lease missing, released, owned by another run, or expired") in
  match alookup key (credentialLeases s) with
  | None => fail
  | Some l =>
      if bool_decide (c_status l = cl_active) && bool_decide (c_runId l = runId) &&
         negb (isExpired s (c_lockedUntil l))
      then (with_credentialLeases (aset key (set_credential cl_active lockedUntil l)) s, renewed lockedUntil)
      else fail
  end.

Definition sweep_browser (sweepMs : Z) (l : BrowserLease) : bool :=
  lease_held (b_state l) && (b_expiresAt l <? sweepMs)%Z.
Definition sweep_credential (sweepMs : Z) (l : CredentialLease) : bool :=
  bool_decide (c_status l = cl_active) && (c_lockedUntil l <? sweepMs)%Z.

Definition expire_browser (l : BrowserLease) : BrowserLease :=
  set_browser bl_expired (b_heartbeatAt l) (b_expiresAt l) l.
Definition expire_credential (l : CredentialLease) : CredentialLease :=
  set_credential cl_expired (c_lockedUntil l) l.

Definition sweepExpired (sweepMs : Z) (s : store) : store * (list BrowserLease * list CredentialLease) :=
  (with_browserLeases (map (λ p, (p.1, if sweep_browser sweepMs p.2 then expire_browser p.2 else p.2)))
     (with_credentialLeases
        (map (λ p, (p.1, if sweep_credential sweepMs p.2 then expire_credential p.2 else p.2))) s),
   (omap (λ p, if sweep_browser sweepMs p.2 then Some (expire_browser p.2) else None) (browserLeases s),
    omap (λ p, if sweep_credential sweepMs p.2 then Some (expire_credential p.2) else None) (credentialLeases s))).

(** ** Stable JSON *)

(** [JSON.stringify] of a string. *)
Definition json_escape (c : ascii) : string :=
  let n := nat_of_ascii c in
  if Ascii.eqb c "034"%char then String "\"%char (String "034"%char EmptyString)
  else if Ascii.eqb c "\"%char then "\\"
  else if n =? 8 then "\b" else if n =? 9 then "\t" else if n =? 10 then "\n"
  else if n =? 12 then "\f" else if n =? 13 then "\r"
  else if n <? 32 then "\u" +:+ padStart 4 (to_hex n)
  else String c EmptyString.
Fixpoint escape_all (s : string) : string :=
  match s with EmptyString => EmptyString | String c s' => json_escape c +:+ escape_all s' end.
Definition json_string (s : string) : string :=
  String "034"%char (escape_all s +:+ String "034"%char EmptyString).

(** [JSON.stringify] of an integral number. *)
Definition json_number (x : jsnum) : string :=
  match num_to_Z x with Some z => pretty z | None => "null" end.

(** [keys.sort()]: insertion by code units. *)
Fixpoint insert_key {A} (p : string * A) (l : list (string * A)) : list (string * A) :=
  match l with
  | [] => [p]
  | q :: l' => match String.compare p.1 q.1 with Gt => q :: insert_key p l' | _ => p :: l end
  end.
Definition sort_keys {A} (l : list (string * A)) : list (string * A) := foldr insert_key [] l.

Fixpoint stableJson (v : json) : string :=
  match v with
  | JNull => "null"
  | JBool b => if b then "true" else "false"
  | JNum x => json_number x
  | JStr s => json_string s
  | JArr l => "[" +:+ join "," (map stableJson l) +:+ "]"
  | JObj fields =>
      "{" +:+ join "," (map (λ p, json_string p.1 +:+ ":" +:+ p.2)
                          (sort_keys (map (λ p, (p.1, stableJson p.2)) fields))) +:+ "}"
  end.

(** ** Resume tokens *)

Definition json_of_nat (n : nat) : json := JNum (num_of_Z (Z.of_nat n)).

(** [omitHmac(token)] as the record that is signed. *)
Definition unsigned_token (t : ResumeTokenEnvelope) : json :=
  JObj ([("runId", JStr (tk_runId t)); ("resumeNodeId", JStr (tk_resumeNodeId t));
         ("pageStateRef", JStr (tk_pageStateRef t))] ++
        match tk_loopContext t with
        | Some (i, p) => [("loopContext", JObj [("iteration", json_of_nat i); ("pageCount", json_of_nat p)])]
        | None => []
        end ++
        [("issuedAt", JStr (iso_of_ms (tk_issuedAt t))); ("expiresAt", JStr (iso_of_ms (tk_expiresAt t)));
         ("kid", JStr (tk_kid t))]).

Inductive ResumeTokenVerification :=
| token_valid_r (token : ResumeTokenEnvelope)
| token_expired (reason : string)
| token_invalid (reason : string).

Section Tokens.
(** [createHmac("sha256", key).update(message).digest("base64url")]. *)
Context (hmac : string → string → string) (opts : options).

Definition sign (t : ResumeTokenEnvelope) : string :=
  hmac (opt_resumeSigningKey opts) (stableJson (unsigned_token t)).

(** [issue(input)]; the [kid] and [hmac] of [t] are replaced. *)
Definition issue (t : ResumeTokenEnvelope) : ResumeTokenEnvelope :=
  let with_kid h := mkToken (tk_runId t) (tk_resumeNodeId t) (tk_pageStateRef t) (tk_loopContext t)
                      (tk_issuedAt t) (tk_expiresAt t) (opt_resumeKid opts) h in
  with_kid (sign (with_kid EmptyString)).

Definition verify (t : ResumeTokenEnvelope) (s : store) : ResumeTokenVerification :=
  if negb (bool_decide (tk_hmac t = sign t)) then token_invalid "resume token hmac mismatch"
  else if isExpired s (tk_expiresAt t) then token_expired "resume token expired"
  else token_valid_r t.

Definition set_token (t : ResumeTokenEnvelope) (now : Z) (row : RunRow) : RunRow :=
  mkRunRow (rr_tenantId row) (rr_id row) (rr_status row) (rr_correlationId row) (rr_workitemId row)
    (rr_workerId row) (rr_attempts row) (Some t) (rr_createdAt row) now (rr_endedAt row).

Definition save (tenantId runId : string) (t : ResumeTokenEnvelope) (s : store) : result string store :=
  match runs s !! entityKey tenantId runId with
  | None => Err ("run not found for resume token: " +:+ runId)
  | Some row => Ok (with_runs <[entityKey tenantId runId := set_token t (nowMs s) row]> s)
  end.

Inductive ResumeTokenRecovery := recovered (token : ResumeTokenEnvelope) | not_recovered (v : ResumeTokenVerification).

Definition recover (tenantId runId : string) (s : store) : ResumeTokenRecovery :=
  match runs s !! entityKey tenantId runId ≫= rr_resumeToken with
  | None => not_recovered (token_invalid "resume token missing")
  | Some t =>
      match verify t s with
      | token_valid_r t' =>
          if decide (tk_runId t' = runId) then recovered t'
          else not_recovered (token_invalid "resume token run mismatch")
      | v => not_recovered v
      end
  end.
End Tokens.

(** ** Dead letters *)

Definition create (tenantId : string) (workitemId runId : option string) (reasonCode : string)
    (evidenceRef : option string) (s : store) : store * DeadLetterRecord :=
  let newId := id_of_sequence (sequence s) in
  let rec := mkDeadLetter newId tenantId workitemId runId reasonCode evidenceRef true (nowMs s) None in
  (with_deadLetters (aset newId rec) (with_sequence S s), rec).

Inductive DeadLetterReplayResult :=
| replayed (workitemId : string)
| not_replayable (reason : string)
| conflict (reason : string).

Definition set_replayed (now : Z) (rec : DeadLetterRecord) : DeadLetterRecord :=
  mkDeadLetter (dl_id rec) (dl_tenantId rec) (dl_workitemId rec) (dl_runId rec) (dl_reasonCode rec)
    (dl_evidenceRef rec) (dl_replayable rec) (dl_createdAt rec) (Some now).

(** A string that is present and not empty, as [if (!x)] tests it. *)
Definition truthy_string (o : option string) : option string :=
  match o with Some EmptyString => None | _ => o end.

Definition operator_guard : WorkitemGuard := mkWorkitemGuard None None None None (Some true).

Definition replay (tenantId deadLetterId : string) (s : store)
  : result IllegalTransition (store * DeadLetterReplayResult) :=
  match alookup deadLetterId (deadLetters s) with
  | Some rec =>
      if bool_decide (dl_tenantId rec = tenantId) && dl_replayable rec && bool_decide (dl_replayedAt rec = None) then
        match truthy_string (dl_workitemId rec) with
        | None => Ok (s, not_replayable "dead letter has no workitem")
        | Some wid =>
            match workitems s !! entityKey tenantId wid with
            | Some w =>
                if decide (wr_status w = wi_abandoned) then
                  '(s', res) ← applyWorkitemEvent tenantId wid wev_manual_replay (Some operator_guard) (Some wi_abandoned) s;
                  match res with
                  | applied _ _ _ =>
                      Ok (with_deadLetters (aset deadLetterId (set_replayed (nowMs s') rec)) s', replayed wid)
                  | cas_miss _ => Ok (s', conflict "manual_replay CAS miss")
                  end
                else Ok (s, conflict "workitem is not abandoned")
            | None => Ok (s, conflict "workitem is not abandoned")
            end
        end
      else Ok (s, not_replayable "dead letter is missing or closed")
  | None => Ok (s, not_replayable "dead letter is missing or closed")
  end.

(** ** The worker *)

Inductive RuntimeWorkerJob :=
| job_outbox_relay
| job_lease_sweeper
| job_dlq_replay (tenantId deadLetterId : option string)
| job_unsupported (kind : string).

Inductive RuntimeJobResult := job_completed (emittedEvents : list string) | job_failed (code : string).

Definition emitted_event (r : OutboxPublishResult) : option string :=
  match r with pub_published id | pub_duplicate id _ => Some id | pub_failed _ _ _ => None end.

Definition handle (job : RuntimeWorkerJob) (s : store) : result IllegalTransition (store * RuntimeJobResult) :=
  match job with
  | job_outbox_relay =>
      let '(s', (_, results)) := relayOutboxBatch 100 s in Ok (s', job_completed (omap emitted_event results))
  | job_lease_sweeper => Ok ((sweepExpired (nowMs s) s).1, job_completed [])
  | job_dlq_replay tenant deadLetter =>
      match truthy_string tenant, truthy_string deadLetter with
      | Some tenantId, Some deadLetterId =>
          '(s', res) ← replay tenantId deadLetterId s;
          Ok (s', match res with
                  | replayed _ => job_completed []
                  | not_replayable _ => job_failed "DEAD_LETTER"
                  | conflict _ => job_failed "WORKITEM_CHECKOUT_CONFLICT"
                  end)
      | _, _ => Ok (s, job_failed "RESOURCE_NOT_FOUND")
      end
  | job_unsupported _ => Ok (s, job_failed "IR_EXPRESSION_RUNTIME")
  end.
