(* ===== verification/RuntimeStoreProps.v ===== *)
(** * Properties of the runtime store

    Invariants of the stores reachable by the methods of
    [runtime/fake-store.ts], one section per part of the store: identifiers,
    the outbox and its relay, compare-and-set, leases, resume tokens and dead
    letters.  [step] has one constructor per method that changes the store, so
    a sequence of steps is any interleaving of calls; the calls inside
    [relayOutboxBatch] (publish a row, mark it) are separate steps. *)

From stdpp Require Import base strings list gmap pretty.
From Stdlib Require Import Ascii ZArith.
From S2P Require Import Prelude StateMachine JsValue RuntimeStore.

#[local] Arguments String.append !_ _ / : simpl nomatch.

(** ** Identifiers are fresh *)

Definition hex_val (c : ascii) : nat :=
  let n := nat_of_ascii c in if n <? 58 then n - 48 else n - 87.
Fixpoint hex_decode (acc : nat) (s : string) : nat :=
  match s with EmptyString => acc | String c s' => hex_decode (acc * 16 + hex_val c) s' end.

Lemma hex_val_digit d : d < 16 → hex_val (hex_digit d) = d.
Proof.
  intros H. do 16 (destruct d as [|d]; [reflexivity|]). lia.
Qed.

Lemma hex_loop_decode fuel : ∀ n acc, n < fuel →
  hex_decode 0 (hex_loop fuel n acc) = hex_decode n acc.
Proof.
  induction fuel as [|fuel IH]; intros n acc Hn; [lia|].
  cbn [hex_loop]. assert (Hm : n mod 16 < 16) by (apply Nat.mod_upper_bound; lia).
  destruct (n <? 16) eqn:E.
  - apply Nat.ltb_lt in E. cbn [hex_decode]. rewrite hex_val_digit by done.
    by rewrite Nat.mod_small.
  - apply Nat.ltb_ge in E. assert (n / 16 < n) by (apply Nat.div_lt; lia).
    rewrite IH by lia. cbn [hex_decode]. rewrite hex_val_digit by done.
    f_equal. rewrite Nat.mul_comm. symmetry. apply Nat.div_mod_eq.
Qed.

Lemma hex_decode_zeros k s : hex_decode 0 (zeros k +:+ s) = hex_decode 0 s.
Proof. induction k as [|k IH]; [done|exact IH]. Qed.

Lemma id_of_sequence_inj m n : id_of_sequence m = id_of_sequence n → m = n.
Proof.
  unfold id_of_sequence. intros H. simplify_eq/=.
  assert (E : ∀ k, hex_decode 0 (padStart 12 (to_hex k)) = k).
  { intros k. unfold padStart, to_hex. rewrite hex_decode_zeros, hex_loop_decode by lia. done. }
  rewrite <- (E m), <- (E n). by f_equal.
Qed.

(** The identifiers below a sequence number. *)
Definition issued (n : nat) (id : string) : Prop := ∃ k, k < n ∧ id = id_of_sequence k.

Lemma issued_mono m n id : m ≤ n → issued m id → issued n id.
Proof. intros ? (k & ? & ->). exists k. split; [lia|done]. Qed.

Lemma issued_fresh n k : n ≤ k → ¬ issued n (id_of_sequence k).
Proof. intros Hk (j & Hj & E%id_of_sequence_inj). lia. Qed.

(** ** Steps *)

(** One constructor per method that changes the store.  [manual] says whether
    operators call [create] of the dead-letter service themselves.  Two uses of
    the fixture methods are left out: seeding a workitem that is already
    abandoned, and calling [appendOutboxDrafts] with drafts the store did not
    make. *)
Inductive step (manual : bool) : store → store → Prop :=
| step_advance s ms : step manual s (advanceMs ms s)
| step_seed_run s t id st c w a : step manual s (seedRun t id st c w a s)
| step_seed_workitem s t id st c k u a : st ≠ Some wi_abandoned →
    step manual s (seedWorkitem t id st c k u a s)
| step_seed_human_task s t id r st k c o : step manual s (seedHumanTask t id r st k c o s)
| step_run s t id ev g ex s' res : applyRunEvent t id ev g ex s = Ok (s', res) → step manual s s'
| step_workitem s t id ev g ex s' res :
    applyWorkitemEvent t id ev g ex s = Ok (s', res) → step manual s s'
| step_human_task s t id ev g ex s' res :
    applyHumanTaskEvent t id ev g ex s = Ok (s', res) → step manual s s'
| step_publish s row : step manual s (publish row s).1
| step_mark s id at_ : step manual s (markPublished id at_ s)
| step_acquire_browser s t r p i w iso cl ttl : step manual s (acquireBrowser t r p i w iso cl ttl s).1
| step_renew_browser s t l w ttl : step manual s (renewBrowser t l w ttl s).1
| step_drain_browser s t l w reason : step manual s (drainBrowser t l w reason s)
| step_max s t c p n : step manual s (setCredentialMaxConcurrency t c p n s)
| step_acquire_credential s opts t r w c p u : step manual s (acquireCredential opts t r w c p u s).1
| step_release_credential s t c p n : step manual s (releaseCredential t c p n s)
| step_renew_credential s t c p n r u : step manual s (renewCredential t c p n r u s).1
| step_sweep s ms : step manual s (sweepExpired ms s).1
| step_save s t id tk s' : save t id tk s = Ok s' → step manual s s'
| step_create s t w r c e : manual = true → step manual s (create t w r c e s).1
| step_replay s t id s' res : replay t id s = Ok (s', res) → step manual s s'.

(** Stores reachable from an empty one. *)
Definition reachable (manual : bool) (s : store) : Prop := ∃ now, rtc (step manual) (new_store now) s.

(** A relayed batch, and with it every job of the worker, is a sequence of steps. *)
Lemma relay_steps m limit s : rtc (step m) s (relayOutboxBatch limit s).1.
Proof.
  unfold relayOutboxBatch. generalize (pollUnpublished limit s) as rows. intros rows.
  assert (H : ∀ res s, rtc (step m) s (foldl relayStep (s, res) rows).1).
  { induction rows as [|row rows IH]; intros res s0; [done|]. cbn [foldl relayStep].
    unfold relayRow. destruct (publish row s0) as [s1 r1] eqn:E.
    eapply rtc_l; [apply (step_publish m s0 row)|]. rewrite E. simpl.
    destruct r1; [eapply rtc_l; [apply step_mark|]..|]; apply IH. }
  specialize (H [] s). by destruct (foldl relayStep (s, []) rows).
Qed.

Lemma handle_steps m job s s' r : handle job s = Ok (s', r) → rtc (step m) s s'.
Proof.
  destruct job; simpl; try by intros [= <- _].
  - intros H. pose proof (relay_steps m 100 s) as Hr.
    destruct (relayOutboxBatch 100 s) as [s1 [rows results]]. by injection H as <- _.
  - intros [= <- _]. eapply rtc_once, (step_sweep m s).
  - destruct (truthy_string tenantId) as [t|], (truthy_string deadLetterId) as [d|];
      try by intros [= <- _].
    intros ([s1 r1] & H1 & [= <- _])%result_bind_Ok. by eapply rtc_once, step_replay.
Qed.

Lemma reachable_ind_inv m (P : store → Prop) :
  (∀ now, P (new_store now)) → (∀ s s', P s → step m s s' → P s') → ∀ s, reachable m s → P s.
Proof.
  intros H0 Hs s [now Hr]. apply (rtc_ind_r P (new_store now)) in Hr; eauto.
Qed.

(** ** The outbox *)

Record outbox_inv (s : store) : Prop := {
  oi_row : ∀ id row, outbox s !! id = Some row →
    dr_eventId (or_draft row) = id ∧ issued (sequence s) id ∧
    outboxIdempotency s !! draft_key (or_draft row) = Some id ∧
    dr_payloadSchemaRef (or_draft row) = EVENT_PAYLOAD_SCHEMA_REFS (dr_eventType (or_draft row)) ∧
    dr_payload (or_draft row) = JObj [];
  oi_key : ∀ k id, outboxIdempotency s !! k = Some id →
    ∃ row, outbox s !! id = Some row ∧ draft_key (or_draft row) = k;
  oi_order : NoDup (outboxOrder s) ∧ ∀ id, id ∈ outboxOrder s ↔ is_Some (outbox s !! id);
  oi_delivered : NoDup (map (λ r, draft_key (or_draft r)) (publishedEvents s)) ∧
    ∀ k, k ∈ deliveredIdempotency s ↔ k ∈ map (λ r, draft_key (or_draft r)) (publishedEvents s) }.

(** The fields the outbox invariant talks about, with a growing sequence. *)
Definition same_outbox (s s' : store) : Prop :=
  sequence s ≤ sequence s' ∧ outbox s' = outbox s ∧ outboxOrder s' = outboxOrder s ∧
  outboxIdempotency s' = outboxIdempotency s ∧ deliveredIdempotency s' = deliveredIdempotency s ∧
  publishedEvents s' = publishedEvents s.

Lemma outbox_inv_same s s' : same_outbox s s' → outbox_inv s → outbox_inv s'.
Proof.
  intros (Hs & E1 & E2 & E3 & E4 & E5) [H1 H2 H3 H4].
  split; rewrite ?E1, ?E2, ?E3, ?E4, ?E5; try done.
  intros id row Hr. destruct (H1 id row Hr) as (? & ? & ?). split_and!; try tauto.
  eapply issued_mono; eauto.
Qed.

Lemma appendDraft_inv s d : outbox_inv s → issued (sequence s) (dr_eventId d) →
  outbox s !! dr_eventId d = None → outboxIdempotency s !! draft_key d = None →
  dr_payloadSchemaRef d = EVENT_PAYLOAD_SCHEMA_REFS (dr_eventType d) → dr_payload d = JObj [] →
  outbox_inv (appendDraft s d).
Proof.
  intros [H1 H2 [H3 H3'] H4] Hi Hn Hk Hp Hb. split; simpl.
  - intros id row. rewrite lookup_insert_Some. intros [[<- <-]|[Hne Hr]]; simpl.
    + split_and!; try done. by rewrite lookup_insert_eq.
    + destruct (H1 id row Hr) as (? & ? & Hkey & ?). split_and!; try tauto.
      rewrite lookup_insert_ne; [done|]. intros E. rewrite <- E in Hkey. congruence.
  - intros k id. rewrite lookup_insert_Some. intros [[<- <-]|[Hne Hr]].
    + eexists. rewrite lookup_insert_eq. done.
    + destruct (H2 k id Hr) as (row & ? & ?). exists row. split; [|done].
      rewrite lookup_insert_ne; [done|]. intros <-. congruence.
  - split.
    + apply NoDup_app. split_and!; [done| |apply NoDup_singleton].
      intros x Hx ->%list_elem_of_singleton. apply H3' in Hx as [? ?]. congruence.
    + intros id. rewrite elem_of_app, list_elem_of_singleton, H3'.
      destruct (decide (id = dr_eventId d)) as [->|Hne].
      * rewrite lookup_insert_eq. split; [eauto|by right].
      * rewrite lookup_insert_ne by done. tauto.
  - done.
Qed.

(** Appending drafts whose identifiers are issued, new and distinct. *)
Lemma appendOutboxDrafts_inv drafts s : outbox_inv s →
  NoDup (map dr_eventId drafts) →
  (∀ d, d ∈ drafts → issued (sequence s) (dr_eventId d) ∧ outbox s !! dr_eventId d = None ∧
     dr_payloadSchemaRef d = EVENT_PAYLOAD_SCHEMA_REFS (dr_eventType d) ∧ dr_payload d = JObj []) →
  outbox_inv (appendOutboxDrafts drafts s).1.
Proof.
  unfold appendOutboxDrafts. generalize (@nil OutboxEventDraft) as ins. revert s.
  induction drafts as [|d drafts IH]; intros s ins Hinv Hnd Hd; [done|].
  cbn [foldl appendStep]. apply NoDup_cons in Hnd as [Hnotin Hnd].
  destruct (Hd d) as (Hi & Hn & Hp & Hb); [by left|].
  destruct (outboxIdempotency s !! draft_key d) eqn:Ek.
  - apply IH; [done|done|]. intros d' Hd'. apply Hd. by right.
  - apply IH; [by apply appendDraft_inv|done|]. intros d' Hd'.
    destruct (Hd d') as (? & ? & ?); [by right|]. split_and!; try tauto. simpl.
    rewrite lookup_insert_ne; [done|]. intros E. apply Hnotin. rewrite E.
    apply list_elem_of_fmap. by exists d'.
Qed.

Lemma appendOutboxDrafts_frame drafts s : let s' := (appendOutboxDrafts drafts s).1 in
  nowMs s' = nowMs s ∧ sequence s' = sequence s ∧ runs s' = runs s ∧ workitems s' = workitems s ∧
  humanTasks s' = humanTasks s ∧ browserLeases s' = browserLeases s ∧
  credentialPolicies s' = credentialPolicies s ∧ credentialLeases s' = credentialLeases s ∧
  deadLetters s' = deadLetters s ∧ deliveredIdempotency s' = deliveredIdempotency s ∧
  publishedEvents s' = publishedEvents s.
Proof.
  unfold appendOutboxDrafts. generalize (@nil OutboxEventDraft) as ins. revert s.
  induction drafts as [|d drafts IH]; intros s ins; [done|]. cbn [foldl appendStep].
  destruct (outboxIdempotency s !! draft_key d); [apply IH|]. apply (IH (appendDraft s d)).
Qed.

(** What appending records: the new rows come last, known keys stay, and
    afterwards every draft's key is known, by a new row unless it was before. *)
Lemma appendStep_spec drafts : ∀ s ins0, ∃ s' ins,
  foldl appendStep (s, ins0) drafts = (s', ins0 ++ ins) ∧
  outboxOrder s' = outboxOrder s ++ map dr_eventId ins ∧ (∀ d, d ∈ ins → d ∈ drafts) ∧
  (∀ k id, outboxIdempotency s !! k = Some id → outboxIdempotency s' !! k = Some id) ∧
  (∀ d, d ∈ drafts → is_Some (outboxIdempotency s' !! draft_key d) ∧
     (outboxIdempotency s !! draft_key d = None → ∃ d', d' ∈ ins ∧ draft_key d' = draft_key d)).
Proof.
  induction drafts as [|d drafts IH]; intros s ins0.
  { exists s, []. split_and!; rewrite ?app_nil_r; try done; by intros d ?%not_elem_of_nil. }
  cbn [foldl appendStep]. destruct (outboxIdempotency s !! draft_key d) as [id0|] eqn:Ek.
  - destruct (IH s ins0) as (s' & ins & E & Ho & Hin & Hk & Hd). exists s', ins.
    split_and!; try done; [intros d' ?; right; by apply Hin|].
    intros d' [->|Hd']%elem_of_cons; [|by apply Hd]. split; [eauto|congruence].
  - destruct (IH (appendDraft s d) (ins0 ++ [d])) as (s' & ins & E & Ho & Hin & Hk & Hd).
    exists s', (d :: ins). split_and!.
    + by rewrite E, <- app_assoc.
    + by rewrite Ho; simpl; rewrite <- app_assoc.
    + intros d' [->|Hd']%elem_of_cons; [by left|right; by apply Hin].
    + intros k id Hs. apply Hk. simpl. rewrite lookup_insert_ne; [done|congruence].
    + intros d' Hd'. destruct (decide (draft_key d' = draft_key d)) as [Eq|Hne].
      * rewrite Eq. split; [|intros _; exists d; split; [by left|done]].
        exists (dr_eventId d). apply Hk. simpl. apply lookup_insert_eq.
      * apply elem_of_cons in Hd' as [->|Hd']; [done|]. destruct (Hd d' Hd') as [H1 H2].
        split; [done|]. intros Hn. destruct H2 as (d2 & ? & ?); [|exists d2; split; [by right|done]].
        simpl. by rewrite lookup_insert_ne.
Qed.

(** The store after the events of a transition were recorded. *)
Definition emit (e : entity_ref) (row : entity_row) (ev : string) (effects : list SideEffectCmd) (s : store) : store :=
  let '(s1, drafts) := outboxDraftsForTransition e row ev effects s in (appendOutboxDrafts drafts s1).1.

Lemma emit_frame e row ev effects s : let s' := emit e row ev effects s in
  nowMs s' = nowMs s ∧ sequence s ≤ sequence s' ∧ runs s' = runs s ∧ workitems s' = workitems s ∧
  humanTasks s' = humanTasks s ∧ browserLeases s' = browserLeases s ∧
  credentialPolicies s' = credentialPolicies s ∧ credentialLeases s' = credentialLeases s ∧
  deadLetters s' = deadLetters s ∧ deliveredIdempotency s' = deliveredIdempotency s ∧
  publishedEvents s' = publishedEvents s.
Proof.
  unfold emit, outboxDraftsForTransition. set (drafts := imap _ _).
  destruct (appendOutboxDrafts_frame drafts (with_sequence (λ n, n + length drafts) s))
    as (-> & -> & -> & -> & -> & -> & -> & -> & -> & -> & ->).
  simpl. split_and!; try done. lia.
Qed.

Lemma imap_draft_elem now seq e row ev l d :
  d ∈ imap (draft_for now seq e row ev) l → ∃ i x, i < length l ∧ d = draft_for now seq e row ev i x.
Proof.
  intros (i & Hi)%list_elem_of_lookup. rewrite list_lookup_imap in Hi.
  destruct (l !! i) as [x|] eqn:E; [|done]. injection Hi as <-.
  exists i, x. split; [by apply lookup_lt_Some in E|done].
Qed.

Lemma imap_draft_ids_NoDup now seq e row ev l :
  NoDup (map dr_eventId (imap (draft_for now seq e row ev) l)).
Proof.
  apply NoDup_alt. intros i j x Hi Hj.
  change (map dr_eventId ?l) with (dr_eventId <$> l) in *.
  rewrite list_lookup_fmap, list_lookup_imap in Hi, Hj.
  destruct (l !! i) as [a|]; [|done]. destruct (l !! j) as [b|]; [|done].
  injection Hi as Hi. injection Hj as Hj. rewrite <- Hi in Hj.
  apply id_of_sequence_inj in Hj. lia.
Qed.

Lemma emit_inv e row ev effects s : outbox_inv s → outbox_inv (emit e row ev effects s).
Proof.
  intros Hinv. unfold emit, outboxDraftsForTransition. set (drafts := imap _ _).
  assert (Hs : same_outbox s (with_sequence (λ n, n + length drafts) s))
    by (split_and!; simpl; [lia|done..]).
  apply appendOutboxDrafts_inv.
  - by apply (outbox_inv_same s).
  - apply imap_draft_ids_NoDup.
  - intros d Hd. assert (Hlen : length drafts = length (emitted effects)) by apply length_imap.
    apply imap_draft_elem in Hd as (i & x & Hi & ->). simpl. split_and!; try done.
    + exists (sequence s + i). split; [lia|done].
    + destruct (outbox s !! id_of_sequence (sequence s + i)) as [r|] eqn:E; [|done]. exfalso.
      destruct (oi_row s Hinv _ _ E) as (_ & Hiss & _). eapply issued_fresh; [|done]. lia.
Qed.

Lemma publish_inv row s : outbox_inv s → outbox_inv (publish row s).1.
Proof.
  intros [H1 H2 H3 [H4 H5]]. unfold publish.
  destruct (negb (bool_decide _)); [by split|]. destruct (negb (validate _ _)); [by split|].
  case_decide as Hk; [by split|]. split; try done. simpl. split.
  - rewrite map_app. apply NoDup_app. split_and!; [done| |apply NoDup_singleton].
    intros x Hx. simpl. rewrite list_elem_of_singleton. intros ->. by apply Hk, H5.
  - intros k. rewrite map_app, elem_of_app, elem_of_union, elem_of_singleton. simpl.
    rewrite list_elem_of_singleton, H5. tauto.
Qed.

Lemma markPublished_inv id t s : outbox_inv s → outbox_inv (markPublished id t s).
Proof.
  intros [H1 H2 [H3 H3'] H4]. unfold markPublished.
  destruct (outbox s !! id) as [[d [p|] c]|] eqn:E; try by split.
  destruct (H1 _ _ E) as (K1 & K2 & K3 & K4 & K5). simpl in *. split; simpl.
  - intros id' row. rewrite lookup_insert_Some. intros [[<- <-]|[Hne Hr]]; [done|by apply H1].
  - intros k id' Hr. destruct (H2 k id' Hr) as (row & Hrow & Hkey).
    destruct (decide (id' = id)) as [->|Hne].
    + rewrite E in Hrow. injection Hrow as <-. eexists. by rewrite lookup_insert_eq.
    + exists row. by rewrite lookup_insert_ne.
  - split; [done|]. intros id'. unfold Datatypes.id. rewrite H3'.
    destruct (decide (id' = id)) as [->|Hne].
    + rewrite lookup_insert_eq, E. split; eauto.
    + by rewrite lookup_insert_ne.
  - done.
Qed.

(** The [apply] methods are an emission followed by updates of other fields. *)
Lemma applyRun_shape t id cur ev tr s :
  (applyRun t id cur ev tr s).1 = s ∨
  ∃ row, runs s !! entityKey t id = Some row ∧ rr_status row = cur ∧
    (applyRun t id cur ev tr s).1 =
      with_runs <[entityKey t id := run_after (nowMs s) ev (next tr) row]>
        (emit (mkEntity e_run t id) (R_run row) (RunEvent_type ev) (sideEffects tr) s).
Proof.
  unfold applyRun. destruct (runs s !! entityKey t id) as [row|]; [|by left].
  case_decide as Hc; [|by left]. right. exists row. split_and!; try done. unfold emit.
  destruct (outboxDraftsForTransition _ _ _ _ s) as [s1 drafts].
  by destruct (appendOutboxDrafts drafts s1).
Qed.

Lemma applyWorkitem_shape t id cur ev tr s :
  (applyWorkitem t id cur ev tr s).1 = s ∨
  ∃ row, workitems s !! entityKey t id = Some row ∧ wr_status row = cur ∧
    (applyWorkitem t id cur ev tr s).1 =
      let row' := workitem_after (nowMs s) ev (next tr) row in
      createDlqForSideEffect row' (sideEffects tr)
        (with_workitems <[entityKey t id := row']>
          (emit (mkEntity e_workitem t id) (R_workitem row) (WorkitemEvent_type ev) (sideEffects tr) s)).
Proof.
  unfold applyWorkitem. destruct (workitems s !! entityKey t id) as [row|]; [|by left].
  case_decide as Hc; [|by left]. right. exists row. split_and!; try done. unfold emit.
  destruct (outboxDraftsForTransition _ _ _ _ s) as [s1 drafts].
  by destruct (appendOutboxDrafts drafts s1).
Qed.

Lemma applyHumanTask_shape t id cur ev tr s :
  (applyHumanTask t id cur ev tr s).1 = s ∨
  ∃ row, humanTasks s !! entityKey t id = Some row ∧ hr_state row = cur ∧
    (applyHumanTask t id cur ev tr s).1 =
      with_humanTasks <[entityKey t id := human_task_after (nowMs s) ev (next tr) row]>
        (emit (mkEntity e_human_task t id) (R_human_task row) (HumanTaskEvent_type ev) (sideEffects tr) s).
Proof.
  unfold applyHumanTask. destruct (humanTasks s !! entityKey t id) as [row|]; [|by left].
  case_decide as Hc; [|by left]. right. exists row. split_and!; try done. unfold emit.
  destruct (outboxDraftsForTransition _ _ _ _ s) as [s1 drafts].
  by destruct (appendOutboxDrafts drafts s1).
Qed.

Lemma createDlq_outbox row effects s : same_outbox s (createDlqForSideEffect row effects s).
Proof. unfold createDlqForSideEffect. repeat case_match; split_and!; simpl; try done; lia. Qed.

Lemma applyRunEvent_inv (P : store → Prop) t id ev g ex s s' res :
  applyRunEvent t id ev g ex s = Ok (s', res) → P s →
  (∀ cur tr, transitionRun cur ev (default run_guard_empty g) = Ok tr →
     P (applyRun t id cur ev tr s).1) → P s'.
Proof.
  unfold applyRunEvent. destruct (runs s !! entityKey t id) as [row|]; [|by intros [= <- _]].
  intros (tr & Htr & [= H])%result_bind_Ok HP Hstep. specialize (Hstep _ _ Htr). by rewrite H in Hstep.
Qed.
Lemma applyWorkitemEvent_inv (P : store → Prop) t id ev g ex s s' res :
  applyWorkitemEvent t id ev g ex s = Ok (s', res) → P s →
  (∀ cur tr, transitionWorkitem cur ev (default workitem_guard_empty g) = Ok tr →
     P (applyWorkitem t id cur ev tr s).1) → P s'.
Proof.
  unfold applyWorkitemEvent. destruct (workitems s !! entityKey t id) as [row|]; [|by intros [= <- _]].
  intros (tr & Htr & [= H])%result_bind_Ok HP Hstep. specialize (Hstep _ _ Htr). by rewrite H in Hstep.
Qed.
Lemma applyHumanTaskEvent_inv (P : store → Prop) t id ev g ex s s' res :
  applyHumanTaskEvent t id ev g ex s = Ok (s', res) → P s →
  (∀ cur tr, transitionHumanTask cur ev (default human_task_guard_empty g) = Ok tr →
     P (applyHumanTask t id cur ev tr s).1) → P s'.
Proof.
  unfold applyHumanTaskEvent. destruct (humanTasks s !! entityKey t id) as [row|]; [|by intros [= <- _]].
  intros (tr & Htr & [= H])%result_bind_Ok HP Hstep. specialize (Hstep _ _ Htr). by rewrite H in Hstep.
Qed.

(** ** Browser leases *)

Record browser_inv (s : store) : Prop := {
  bi_keys : NoDup (browserLeases s).*1;
  bi_ids : ∀ k, k ∈ (browserLeases s).*1 → issued (sequence s) k;
  bi_exclusive : ∀ k1 l1 k2 l2,
    (k1, l1) ∈ browserLeases s → (k2, l2) ∈ browserLeases s →
    lease_held (b_state l1) = true → lease_held (b_state l2) = true →
    lease_for (b_tenantId l1) (b_siteProfileId l1) (b_browserIdentityId l1) l2 = true → k1 = k2 }.

Lemma lease_for_true t p i l : lease_for t p i l = true ↔
  b_tenantId l = t ∧ b_siteProfileId l = p ∧ b_browserIdentityId l = i.
Proof. unfold lease_for. rewrite !andb_true_iff, !bool_decide_eq_true. tauto. Qed.

Lemma find_held_Some t p i ls k l : find_held t p i ls = Some (k, l) →
  (k, l) ∈ ls ∧ lease_for t p i l = true ∧ lease_held (b_state l) = true.
Proof.
  intros H. apply find_some in H as [Hin H]. apply andb_true_iff in H as [? ?].
  split; [by apply list_elem_of_In|done].
Qed.

Lemma find_held_None t p i ls : find_held t p i ls = None →
  ∀ k l, (k, l) ∈ ls → lease_for t p i l = true → lease_held (b_state l) = false.
Proof.
  intros H k l Hin%list_elem_of_In Hf. assert (E := find_none _ _ H _ Hin).
  simpl in E. by rewrite Hf in E.
Qed.

(** Replacing a lease by one for the same browser that is held only if the old
    one was. *)
Lemma browser_inv_update s key l l' : browser_inv s → (key, l) ∈ browserLeases s →
  (b_tenantId l', b_siteProfileId l', b_browserIdentityId l') =
    (b_tenantId l, b_siteProfileId l, b_browserIdentityId l) →
  (lease_held (b_state l') = true → lease_held (b_state l) = true) →
  browser_inv (with_browserLeases (aset key l') s).
Proof.
  intros [H1 H2 H3] Hin [= E1 E2 E3] Hheld.
  assert (Hkey : key ∈ (browserLeases s).*1) by (apply list_elem_of_fmap; by exists (key, l)).
  split; simpl; [by apply aset_NoDup| |].
  - intros k. rewrite aset_keys, decide_True by done. apply H2.
  - intros k1 l1 k2 l2. rewrite !elem_aset by done.
    intros [[-> ->]|[Hn1 Hin1]] [[-> ->]|[Hn2 Hin2]] Hh1 Hh2; [done|..]; rewrite lease_for_true.
    + intros (F1 & F2 & F3). apply (H3 key l k2 l2); auto. rewrite lease_for_true. split_and!; congruence.
    + intros (F1 & F2 & F3). apply (H3 k1 l1 key l); auto. rewrite lease_for_true. split_and!; congruence.
    + intros (F1 & F2 & F3). apply (H3 k1 l1 k2 l2); auto. by rewrite lease_for_true.
Qed.

(** Granting a lease for a browser nobody holds. *)
Lemma browser_inv_grant s l : browser_inv s →
  (∀ k l', (k, l') ∈ browserLeases s →
     lease_for (b_tenantId l) (b_siteProfileId l) (b_browserIdentityId l) l' = true →
     lease_held (b_state l') = false) →
  browser_inv (with_browserLeases (aset (id_of_sequence (sequence s)) l) (with_sequence S s)).
Proof.
  intros [H1 H2 H3] Hfree. set (newId := id_of_sequence (sequence s)).
  assert (Hnew : newId ∉ (browserLeases s).*1).
  { intros Hin%H2. by eapply issued_fresh. }
  split; simpl; [by apply aset_NoDup| |].
  - intros k. rewrite aset_keys, decide_False by done.
    intros [Hk| ->%list_elem_of_singleton]%elem_of_app.
    + apply (issued_mono (sequence s)); [lia|by apply H2].
    + exists (sequence s). split; [lia|done].
  - intros k1 l1 k2 l2. rewrite !elem_aset by done.
    intros [[-> ->]|[Hn1 Hin1]] [[-> ->]|[Hn2 Hin2]] Hh1 Hh2; [done|..]; intros Hf.
    + by rewrite (Hfree k2 l2) in Hh2.
    + apply lease_for_true in Hf as (F1 & F2 & F3).
      rewrite (Hfree k1 l1) in Hh1; [done|done|]. by rewrite lease_for_true.
    + by apply (H3 k1 l1 k2 l2).
Qed.

Lemma acquireBrowser_inv t r p i w iso cl ttl s : browser_inv s →
  browser_inv (acquireBrowser t r p i w iso cl ttl s).1.
Proof.
  intros Hinv. unfold acquireBrowser.
  destruct (find_held t p i (browserLeases s)) as [[key act]|] eqn:E.
  - apply find_held_Some in E as (Hin & Hf & Hh). apply lease_for_true in Hf as (F1 & F2 & F3).
    destruct (negb (isExpired s (b_expiresAt act))); [done|].
    apply (browser_inv_grant (with_browserLeases (aset key (expire_browser act)) s)).
    + by eapply browser_inv_update.
    + simpl. intros k l'. rewrite elem_aset by apply Hinv. intros [[-> ->]|[Hn Hk]] Hf'; [done|].
      destruct (lease_held (b_state l')) eqn:Eh; [|done]. exfalso. apply Hn. symmetry.
      apply lease_for_true in Hf' as (G1 & G2 & G3).
      apply (bi_exclusive s Hinv key act k l'); try done. rewrite lease_for_true. split_and!; congruence.
  - apply (browser_inv_grant s _ Hinv). simpl. intros k l' Hin Hf. by eapply find_held_None.
Qed.

Lemma renewBrowser_inv t l w ttl s : browser_inv s → browser_inv (renewBrowser t l w ttl s).1.
Proof.
  intros Hinv. unfold renewBrowser. destruct (alookup l (browserLeases s)) as [x|] eqn:E; [|done].
  match goal with |- context [if ?b then _ else _] => destruct b eqn:Eb end; [|done].
  apply alookup_elem in E. eapply browser_inv_update; [done|done|done|]. intros _.
  rewrite !andb_true_iff in Eb. tauto.
Qed.

Lemma drainBrowser_inv t l w reason s : browser_inv s → browser_inv (drainBrowser t l w reason s).
Proof.
  intros Hinv. unfold drainBrowser. destruct (alookup l (browserLeases s)) as [x|] eqn:E; [|done].
  case_match; [|done]. apply alookup_elem in E. eapply browser_inv_update; [done|done|done|].
  simpl. by destruct reason.
Qed.

Lemma sweep_browser_inv ms s : browser_inv s → browser_inv (sweepExpired ms s).1.
Proof.
  intros [H1 H2 H3]. simpl.
  set (f := λ p : string * BrowserLease, (p.1, if sweep_browser ms p.2 then expire_browser p.2 else p.2)).
  assert (Ek : (map f (browserLeases s)).*1 = (browserLeases s).*1).
  { clear. induction (browserLeases s) as [|[k l] ls IH]; simpl; [done|]. by f_equal. }
  split; simpl; rewrite ?Ek; [done|done|].
  intros k1 l1 k2 l2 ([? x1] & [= -> ->] & Hin1)%list_elem_of_fmap ([? x2] & [= -> ->] & Hin2)%list_elem_of_fmap.
  simpl. destruct (sweep_browser ms x1), (sweep_browser ms x2); simpl; try done. by apply H3.
Qed.

(** ** Dead letters *)

(** An open letter is unique per workitem unless operators create letters. *)
Record dead_letter_inv (m : bool) (s : store) : Prop := {
  di_keys : NoDup (deadLetters s).*1;
  di_ids : ∀ k, k ∈ (deadLetters s).*1 → issued (sequence s) k;
  di_replayable : ∀ k rec, (k, rec) ∈ deadLetters s → dl_replayable rec = true;
  di_single : m = false → ∀ t w k1 r1 k2 r2,
    (k1, r1) ∈ deadLetters s → (k2, r2) ∈ deadLetters s →
    open_for t w r1 = true → open_for t w r2 = true → k1 = k2;
  di_rows : ∀ key row, workitems s !! key = Some row → key = entityKey (wr_tenantId row) (wr_id row);
  di_abandoned : ∀ key row, workitems s !! key = Some row → wr_status row = wi_abandoned →
    ∃ k rec, (k, rec) ∈ deadLetters s ∧ open_for (wr_tenantId row) (wr_id row) rec = true }.

Definition same_letters (s s' : store) : Prop :=
  sequence s ≤ sequence s' ∧ deadLetters s' = deadLetters s ∧ workitems s' = workitems s.

Lemma dead_letter_inv_same m s s' : same_letters s s' → dead_letter_inv m s → dead_letter_inv m s'.
Proof.
  intros (Hs & E1 & E2) [H1 H2 H3 H4 H5 H6]. split; rewrite ?E1, ?E2; try done.
  intros k Hk. eapply issued_mono; eauto.
Qed.

Lemma open_for_true t w rec : open_for t w rec = true ↔
  dl_tenantId rec = t ∧ dl_workitemId rec = Some w ∧ dl_replayedAt rec = None.
Proof. unfold open_for. rewrite !andb_true_iff, !bool_decide_eq_true. tauto. Qed.

(** A new row that is not abandoned, or has an open dead letter. *)
Lemma dead_letter_inv_row m s key row : dead_letter_inv m s →
  key = entityKey (wr_tenantId row) (wr_id row) →
  (wr_status row = wi_abandoned →
   ∃ k rec, (k, rec) ∈ deadLetters s ∧ open_for (wr_tenantId row) (wr_id row) rec = true) →
  dead_letter_inv m (with_workitems <[key := row]> s).
Proof.
  intros [H1 H2 H3 H4 H5 H6] Hkey Hab. split; simpl; try done.
  - intros key' row'. rewrite lookup_insert_Some. intros [[<- <-]|[_ Hr]]; [done|by apply H5].
  - intros key' row'. rewrite lookup_insert_Some. intros [[<- <-]|[_ Hr]]; [done|by eapply H6].
Qed.

(** [createDlqForSideEffect] with a [createDeadLetter] command leaves the
    workitem with one open dead letter. *)
Lemma createDlq_open row effects s : existsb (λ c, bool_decide (c = createDeadLetter)) effects = true →
  NoDup (deadLetters s).*1 →
  ∃ k rec, (k, rec) ∈ deadLetters (createDlqForSideEffect row effects s) ∧
    open_for (wr_tenantId row) (wr_id row) rec = true.
Proof.
  unfold createDlqForSideEffect. intros -> Hnd. simpl.
  destruct (existsb _ (deadLetters s)) eqn:E.
  - apply existsb_exists in E as ([k rec] & Hin & Ho). exists k, rec.
    split; [by apply list_elem_of_In|done].
  - eexists _, _. simpl. split; [rewrite elem_aset by done; by left|]. by apply open_for_true.
Qed.

Lemma createDlq_elem row effects s k rec : (k, rec) ∈ deadLetters s →
  (∀ k, k ∈ (deadLetters s).*1 → issued (sequence s) k) → NoDup (deadLetters s).*1 →
  (k, rec) ∈ deadLetters (createDlqForSideEffect row effects s).
Proof.
  intros Hin Hids Hnd. unfold createDlqForSideEffect. repeat case_match; try done. simpl.
  rewrite elem_aset by done. right. split; [|done]. intros ->.
  assert (Hk : id_of_sequence (sequence s) ∈ (deadLetters s).*1)
    by (apply list_elem_of_fmap; by exists (id_of_sequence (sequence s), rec)).
  apply Hids in Hk. by eapply issued_fresh.
Qed.

(** Dead letters alone: what [createDlqForSideEffect] preserves. *)
Lemma createDlq_letters (m : bool) row effects s :
  NoDup (deadLetters s).*1 → (∀ k, k ∈ (deadLetters s).*1 → issued (sequence s) k) →
  (∀ k rec, (k, rec) ∈ deadLetters s → dl_replayable rec = true) →
  (m = false → ∀ t w k1 r1 k2 r2, (k1, r1) ∈ deadLetters s → (k2, r2) ∈ deadLetters s →
     open_for t w r1 = true → open_for t w r2 = true → k1 = k2) →
  let s' := createDlqForSideEffect row effects s in
  NoDup (deadLetters s').*1 ∧ (∀ k, k ∈ (deadLetters s').*1 → issued (sequence s') k) ∧
  (∀ k rec, (k, rec) ∈ deadLetters s' → dl_replayable rec = true) ∧
  (m = false → ∀ t w k1 r1 k2 r2, (k1, r1) ∈ deadLetters s' → (k2, r2) ∈ deadLetters s' →
     open_for t w r1 = true → open_for t w r2 = true → k1 = k2).
Proof.
  intros Hnd Hids Hrep Hone. unfold createDlqForSideEffect.
  destruct (negb _); [done|]. destruct (existsb _ (deadLetters s)) eqn:E; [done|]. simpl.
  set (newId := id_of_sequence (sequence s)).
  assert (Hnew : newId ∉ (deadLetters s).*1) by (intros Hin%Hids; by eapply issued_fresh).
  assert (Hfree : ∀ k rec, (k, rec) ∈ deadLetters s → open_for (wr_tenantId row) (wr_id row) rec = false).
  { intros k rec Hin. apply not_true_iff_false. intros Ho. apply not_true_iff_false in E. apply E.
    apply existsb_exists. exists (k, rec). split; [by apply list_elem_of_In|done]. }
  split_and!.
  - by apply aset_NoDup.
  - intros k. rewrite aset_keys, decide_False by done.
    intros [Hk| ->%list_elem_of_singleton]%elem_of_app.
    + apply (issued_mono (sequence s)); [lia|by apply Hids].
    + exists (sequence s). split; [lia|done].
  - intros k rec. rewrite elem_aset by done. intros [[_ ->]|[_ ?]]; [done|by eapply Hrep].
  - intros Hm t w k1 r1 k2 r2. rewrite !elem_aset by done.
    intros [[-> ->]|[Hn1 Hin1]] [[-> ->]|[Hn2 Hin2]] Ho1 Ho2; [done|..].
    + exfalso. apply open_for_true in Ho1 as (<- & [= <-] & _). simpl in Ho2.
      by rewrite (Hfree k2 r2) in Ho2.
    + exfalso. apply open_for_true in Ho2 as (<- & [= <-] & _). simpl in Ho1.
      by rewrite (Hfree k1 r1) in Ho1.
    + by eapply Hone.
Qed.

(** Every transition into [abandoned] asks for a dead letter. *)
Lemma abandoned_creates_letter cur ev g tr : transitionWorkitem cur ev g = Ok tr →
  next tr = wi_abandoned → existsb (λ c, bool_decide (c = createDeadLetter)) (sideEffects tr) = true.
Proof.
  unfold transitionWorkitem, wi_from_processing, wi_attempts_branch, wi_illegal, requireBool, r.
  intros H Hn. repeat (case_match; simpl in H; try discriminate H);
    injection H as <-; (discriminate Hn || reflexivity).
Qed.

Lemma applyWorkitem_letters m t id cur ev g tr s : dead_letter_inv m s →
  transitionWorkitem cur ev g = Ok tr → dead_letter_inv m (applyWorkitem t id cur ev tr s).1.
Proof.
  intros Hinv Htr. destruct (applyWorkitem_shape t id cur ev tr s) as [->|(row & Hrow & _ & ->)]; [done|].
  simpl. set (row' := workitem_after (nowMs s) ev (next tr) row).
  set (e := mkEntity e_workitem t id).
  destruct (emit_frame e (R_workitem row) (WorkitemEvent_type ev) (sideEffects tr) s)
    as (_ & Hseq & _ & Hw & _ & _ & _ & _ & Hd & _).
  set (s1 := emit e (R_workitem row) (WorkitemEvent_type ev) (sideEffects tr) s) in *.
  assert (Hinv1 : dead_letter_inv m s1) by (apply (dead_letter_inv_same m s); [by split_and!|done]).
  assert (Hkey : entityKey t id = entityKey (wr_tenantId row') (wr_id row')) by exact (di_rows _ s Hinv _ _ Hrow).
  set (s2 := with_workitems <[entityKey t id := row']> s1).
  destruct (createDlq_letters m row' (sideEffects tr) s2) as (K1 & K2 & K3 & K4); try apply Hinv1.
  assert (Hws : workitems (createDlqForSideEffect row' (sideEffects tr) s2) = <[entityKey t id := row']> (workitems s1)).
  { unfold createDlqForSideEffect. repeat case_match; done. }
  split; try done.
  - intros key r0. rewrite Hws, lookup_insert_Some.
    intros [[<- <-]|[_ Hr]]; [done|by apply (di_rows _ s1 Hinv1)].
  - intros key r0. rewrite Hws, lookup_insert_Some. intros [[<- <-]|[_ Hr]] Hab.
    + apply createDlq_open; [|apply Hinv1]. by eapply abandoned_creates_letter.
    + destruct (di_abandoned _ s1 Hinv1 _ _ Hr Hab) as (k & rec & Hin & Ho). exists k, rec.
      split; [|done]. apply createDlq_elem; [done|apply Hinv1..].
Qed.

(** What a successful replay does. *)
Lemma replay_shape t id s s' res : replay t id s = Ok (s', res) →
  s' = s ∨
  ∃ rec wid row tr,
    alookup id (deadLetters s) = Some rec ∧ dl_tenantId rec = t ∧ dl_workitemId rec = Some wid ∧
    workitems s !! entityKey t wid = Some row ∧ wr_status row = wi_abandoned ∧
    transitionWorkitem wi_abandoned wev_manual_replay operator_guard = Ok tr ∧
    (s' = (applyWorkitem t wid wi_abandoned wev_manual_replay tr s).1 ∨
     s' = with_deadLetters (aset id (set_replayed (nowMs (applyWorkitem t wid wi_abandoned wev_manual_replay tr s).1) rec))
            (applyWorkitem t wid wi_abandoned wev_manual_replay tr s).1 ∧ res = replayed wid).
Proof.
  unfold replay. destruct (alookup id (deadLetters s)) as [rec|]; [|intros [= <- _]; by left].
  destruct (bool_decide (dl_tenantId rec = t) && dl_replayable rec && bool_decide (dl_replayedAt rec = None)) eqn:E;
    [|intros [= <- _]; by left].
  destruct (truthy_string (dl_workitemId rec)) as [wid|] eqn:Ew; [|intros [= <- _]; by left].
  destruct (workitems s !! entityKey t wid) as [row|] eqn:Er; [|intros [= <- _]; by left].
  destruct (decide (wr_status row = wi_abandoned)) as [Ha|Ha]; [|intros [= <- _]; by left].
  intros ([s1 r1] & H1 & H2)%result_bind_Ok. unfold applyWorkitemEvent in H1. rewrite Er in H1.
  apply result_bind_Ok in H1 as (tr & Htr & [= Happ]). right. exists rec, wid, row, tr.
  rewrite !andb_true_iff, !bool_decide_eq_true in E. destruct E as [[Et _] _].
  assert (Hs1 : s1 = (applyWorkitem t wid wi_abandoned wev_manual_replay tr s).1)
    by (simpl in Happ; by rewrite Happ).
  split_and!; try done.
  - destruct (dl_workitemId rec) as [w|]; [|done]. simpl in Ew. by destruct w.
  - rewrite <- Hs1. destruct r1; injection H2 as <- <-; auto.
Qed.

Lemma manual_replay_new tr : transitionWorkitem wi_abandoned wev_manual_replay operator_guard = Ok tr →
  tr = mkTransition wi_new [setField e_workitem "attempts"].
Proof. simpl. by intros [= <-]. Qed.

(** The store after the workitem half of a replay. *)
Lemma replay_workitem t wid row s tr : workitems s !! entityKey t wid = Some row →
  wr_status row = wi_abandoned →
  transitionWorkitem wi_abandoned wev_manual_replay operator_guard = Ok tr →
  let s1 := (applyWorkitem t wid wi_abandoned wev_manual_replay tr s).1 in
  deadLetters s1 = deadLetters s ∧ sequence s ≤ sequence s1 ∧
  workitems s1 = <[entityKey t wid := workitem_after (nowMs s) wev_manual_replay wi_new row]> (workitems s) ∧
  (applyWorkitem t wid wi_abandoned wev_manual_replay tr s).2 =
     applied wi_new [setField e_workitem "attempts"] [] ∧ nowMs s1 = nowMs s.
Proof.
  intros Hrow Hab ->%manual_replay_new. unfold applyWorkitem. rewrite Hrow, decide_True by done.
  unfold outboxDraftsForTransition. simpl. split_and!; try done. lia.
Qed.

Lemma replay_letters m t id s s' res : dead_letter_inv m s → replay t id s = Ok (s', res) → dead_letter_inv m s'.
Proof.
  intros Hinv H. apply replay_shape in H as [->|(rec & wid & row & tr & Hl & Ht & Hw & Hrow & Hab & Htr & Hs)]; [done|].
  assert (Hinv1 := applyWorkitem_letters m t wid wi_abandoned wev_manual_replay _ tr s Hinv Htr).
  destruct Hs as [->|[-> _]]; [done|].
  destruct (replay_workitem t wid row s tr Hrow Hab Htr) as (Ed & _ & Ew & _).
  set (s1 := (applyWorkitem t wid wi_abandoned wev_manual_replay tr s).1) in *.
  assert (Hin : (id, rec) ∈ deadLetters s1) by (rewrite Ed; by apply alookup_elem).
  assert (Hkey : id ∈ (deadLetters s1).*1) by (apply list_elem_of_fmap; by exists (id, rec)).
  destruct Hinv1 as [H1 H2 H3 H4 H5 H6]. split; simpl.
  - by apply aset_NoDup.
  - intros k. rewrite aset_keys, decide_True by done. apply H2.
  - intros k r0. rewrite elem_aset by done. intros [[-> ->]|[_ ?]]; [|by eapply H3].
    simpl. by eapply (H3 id rec).
  - intros Hm t' w k1 r1 k2 r2. rewrite !elem_aset by done.
    intros [[-> ->]|[Hn1 Hin1]] [[-> ->]|[Hn2 Hin2]] Ho1 Ho2; [done|..];
      [by apply open_for_true in Ho1 as (_ & _ & ?)|by apply open_for_true in Ho2 as (_ & _ & ?)|by eapply H4].
  - done.
  - intros key r0 Hr Habr. destruct (H6 key r0 Hr Habr) as (k & rc & Hk & Ho).
    exists k, rc. rewrite elem_aset by done. split; [|done]. right. split; [|done]. intros ->.
    assert (rc = rec) as ->.
    { apply (elem_alookup _ _ _ H1) in Hk. apply (elem_alookup _ _ _ H1) in Hin. congruence. }
    apply open_for_true in Ho as (Ht' & Hw' & _).
    assert (key = entityKey t wid) as ->.
    { rewrite (H5 key r0 Hr). congruence. }
    rewrite Ew, lookup_insert_eq in Hr. injection Hr as <-. done.
Qed.

(** ** All invariants together *)

Record store_inv (m : bool) (s : store) : Prop := {
  si_outbox : outbox_inv s; si_browser : browser_inv s; si_letters : dead_letter_inv m s }.

Definition same_leases (s s' : store) : Prop :=
  sequence s ≤ sequence s' ∧ browserLeases s' = browserLeases s.

Lemma browser_inv_same s s' : same_leases s s' → browser_inv s → browser_inv s'.
Proof.
  intros (Hs & E) [H1 H2 H3]. split; rewrite ?E; try done.
  intros k Hk. eapply issued_mono; eauto.
Qed.

(** Replaying an open letter of an abandoned workitem, and replaying it again. *)
Lemma replay_open m s row id rec : dead_letter_inv m s →
  let t := wr_tenantId row in let w := wr_id row in
  workitems s !! entityKey t w = Some row → wr_status row = wi_abandoned → w ≠ EmptyString →
  (id, rec) ∈ deadLetters s → open_for t w rec = true →
  ∃ s' row', replay t id s = Ok (s', replayed w) ∧
    workitems s' !! entityKey t w = Some row' ∧ wr_status row' = wi_new ∧ wr_attempts row' = 0 ∧
    wr_checkoutExpiresAt row' = None ∧
    replay t id s' = Ok (s', not_replayable "dead letter is missing or closed").
Proof.
  intros Hr t w Hrow Hab Hne Hin (Ht & Hw & Hopen)%open_for_true.
  assert (Hl := elem_alookup _ _ _ (di_keys _ s Hr) Hin).
  set (tr := mkTransition wi_new [setField e_workitem "attempts"]).
  destruct (replay_workitem t w row s tr Hrow Hab eq_refl) as (Ed & _ & Ew & Eres & Enow).
  set (s1 := (applyWorkitem t w wi_abandoned wev_manual_replay tr s).1) in *.
  exists (with_deadLetters (aset id (set_replayed (nowMs s1) rec)) s1),
         (workitem_after (nowMs s) wev_manual_replay wi_new row).
  split; [|split_and!; try done].
  - unfold replay. rewrite Hl, Ht, (di_replayable _ s Hr _ _ Hin), Hopen, Hw.
    rewrite !bool_decide_eq_true_2 by done.
    assert (Etr : truthy_string (Some w) = Some w) by (revert Hne; unfold w; by destruct (wr_id row)).
    simpl andb. cbv iota. rewrite Etr.
    rewrite Hrow, decide_True by done. unfold applyWorkitemEvent. rewrite Hrow.
    change (transitionWorkitem (default (wr_status row) (Some wi_abandoned)) wev_manual_replay
              (default workitem_guard_empty (Some operator_guard))) with (Ok (E := IllegalTransition) tr).
    assert (Ea : applyWorkitem t w wi_abandoned wev_manual_replay tr s =
                 (s1, applied wi_new [setField e_workitem "attempts"] []))
      by (unfold s1; rewrite <- Eres; by destruct (applyWorkitem _ _ _ _ _ s)).
    cbn [mbind result_bind default from_option]. unfold Datatypes.id. by rewrite Ea.
  - simpl. by rewrite Ew, lookup_insert_eq.
  - unfold replay. simpl. rewrite alookup_aset, decide_True by done. simpl. by rewrite andb_false_r.
Qed.

(** A letter created by an operator. *)
Lemma create_letters t w r c e s : dead_letter_inv true s → dead_letter_inv true (create t w r c e s).1.
Proof.
  intros [H1 H2 H3 _ H5 H6]. unfold create. simpl. set (newId := id_of_sequence (sequence s)).
  assert (Hnew : newId ∉ (deadLetters s).*1) by (intros Hin%H2; by eapply issued_fresh).
  split; simpl; try done.
  - by apply aset_NoDup.
  - intros k. rewrite aset_keys, decide_False by done.
    intros [Hk| ->%list_elem_of_singleton]%elem_of_app.
    + apply (issued_mono (sequence s)); [lia|by apply H2].
    + exists (sequence s). split; [lia|done].
  - intros k rec. rewrite elem_aset by done. intros [[_ ->]|[_ ?]]; [done|by eapply H3].
  - intros key row Hr Hab. destruct (H6 key row Hr Hab) as (k & rec & Hin & Ho). exists k, rec.
    rewrite elem_aset by done. split; [|done]. right. split; [|done]. intros ->. apply Hnew.
    apply list_elem_of_fmap. by exists (newId, rec).
Qed.

(** A change outside the three parts. *)
Lemma store_inv_same m s s' : same_outbox s s' → same_leases s s' → same_letters s s' →
  store_inv m s → store_inv m s'.
Proof.
  intros Ho Hl Hd [H1 H2 H3].
  split; eauto using outbox_inv_same, browser_inv_same, dead_letter_inv_same.
Qed.

Ltac frame := split_and!; simpl; reflexivity || lia.

Lemma new_store_inv m now : store_inv m (new_store now).
Proof.
  assert (Hnil : ∀ (A : Type) (x : A), x ∉ []) by (intros A x; apply not_elem_of_nil).
  split.
  - split; simpl; try (intros ??; by rewrite lookup_empty).
    + split; [constructor|]. intros id. rewrite lookup_empty. split; [by intros ?%Hnil|by intros [? ?]].
    + split; [constructor|]. intros k. split; [by intros ?%elem_of_empty|by intros ?%Hnil].
  - split; simpl; [constructor|by intros ? ?%Hnil|by intros ???? ?%Hnil].
  - split; simpl; [constructor|by intros ? ?%Hnil|by intros ?? ?%Hnil|by intros ??????? ?%Hnil|..];
      intros ??; by rewrite lookup_empty.
Qed.

Lemma run_step_inv m t id cur ev tr s : store_inv m s → store_inv m (applyRun t id cur ev tr s).1.
Proof.
  intros Hinv. destruct (applyRun_shape t id cur ev tr s) as [->|(row & _ & _ & ->)]; [done|].
  set (e := mkEntity e_run t id).
  destruct (emit_frame e (R_run row) (RunEvent_type ev) (sideEffects tr) s)
    as (_ & Hseq & _ & Hw & _ & Hb & _ & _ & Hd & _).
  eapply (store_inv_same _ (emit e (R_run row) (RunEvent_type ev) (sideEffects tr) s)); [frame..|].
  split; [by apply emit_inv, Hinv|eapply browser_inv_same, Hinv; by split|].
  eapply dead_letter_inv_same, Hinv. by split_and!.
Qed.

Lemma human_task_step_inv m t id cur ev tr s : store_inv m s → store_inv m (applyHumanTask t id cur ev tr s).1.
Proof.
  intros Hinv. destruct (applyHumanTask_shape t id cur ev tr s) as [->|(row & _ & _ & ->)]; [done|].
  set (e := mkEntity e_human_task t id).
  destruct (emit_frame e (R_human_task row) (HumanTaskEvent_type ev) (sideEffects tr) s)
    as (_ & Hseq & _ & Hw & _ & Hb & _ & _ & Hd & _).
  eapply (store_inv_same _ (emit e (R_human_task row) (HumanTaskEvent_type ev) (sideEffects tr) s)); [frame..|].
  split; [by apply emit_inv, Hinv|eapply browser_inv_same, Hinv; by split|].
  eapply dead_letter_inv_same, Hinv. by split_and!.
Qed.

Lemma workitem_step_inv m t id cur ev g tr s : store_inv m s → transitionWorkitem cur ev g = Ok tr →
  store_inv m (applyWorkitem t id cur ev tr s).1.
Proof.
  intros Hinv Htr. split; [..|by eapply applyWorkitem_letters; [apply Hinv|]].
  all: destruct (applyWorkitem_shape t id cur ev tr s) as [->|(row & _ & _ & ->)]; [by apply Hinv|]; simpl.
  all: set (e := mkEntity e_workitem t id);
    destruct (emit_frame e (R_workitem row) (WorkitemEvent_type ev) (sideEffects tr) s)
      as (_ & Hseq & _ & Hw & _ & Hb & _ & _ & Hd & _).
  - eapply outbox_inv_same; [apply createDlq_outbox|].
    eapply (outbox_inv_same (emit e (R_workitem row) (WorkitemEvent_type ev) (sideEffects tr) s)); [frame|].
    by apply emit_inv, Hinv.
  - eapply browser_inv_same, Hinv. unfold createDlqForSideEffect.
    repeat case_match; split; simpl; try done; lia.
Qed.

Lemma replay_inv m t id s s' res : store_inv m s → replay t id s = Ok (s', res) → store_inv m s'.
Proof.
  intros Hinv H. assert (Hl := replay_letters m t id s s' res (si_letters _ s Hinv) H).
  apply replay_shape in H as [->|(rec & wid & row & tr & _ & _ & _ & _ & _ & Htr & Hs)]; [done|].
  assert (H1 := workitem_step_inv m t wid wi_abandoned wev_manual_replay _ tr s Hinv Htr).
  destruct Hs as [->|[-> _]]; [done|]. split; [..|done].
  - eapply outbox_inv_same, (si_outbox _ _ H1). frame.
  - eapply browser_inv_same, (si_browser _ _ H1). frame.
Qed.

Lemma publish_frame row s : same_leases s (publish row s).1 ∧ same_letters s (publish row s).1.
Proof. unfold publish. repeat case_match; split; frame. Qed.

Lemma mark_frame id t s : same_leases s (markPublished id t s) ∧ same_letters s (markPublished id t s).
Proof. unfold markPublished. repeat case_match; split; frame. Qed.

Lemma step_inv m s s' : store_inv m s → step m s s' → store_inv m s'.
Proof.
  intros Hinv Hstep. destruct Hstep.
  - eapply store_inv_same; [frame..|done].
  - eapply store_inv_same; [frame..|done].
  - split; [by eapply outbox_inv_same, Hinv; frame|by eapply browser_inv_same, Hinv; frame|].
    apply dead_letter_inv_row; [apply Hinv|done|]. simpl. by destruct st as [[]|].
  - eapply store_inv_same; [frame..|done].
  - eapply (applyRunEvent_inv (store_inv m)); [done|done|]. intros. by apply run_step_inv.
  - eapply (applyWorkitemEvent_inv (store_inv m)); [done|done|]. intros. by eapply workitem_step_inv.
  - eapply (applyHumanTaskEvent_inv (store_inv m)); [done|done|]. intros. by apply human_task_step_inv.
  - destruct (publish_frame row s). split; [by apply publish_inv, Hinv|..];
      eauto using browser_inv_same, dead_letter_inv_same, si_browser, si_letters.
  - destruct (mark_frame id at_ s). split; [by apply markPublished_inv, Hinv|..];
      eauto using browser_inv_same, dead_letter_inv_same, si_browser, si_letters.
  - split; [|by apply acquireBrowser_inv, Hinv|];
      [eapply outbox_inv_same, Hinv|eapply dead_letter_inv_same, Hinv];
      unfold acquireBrowser; repeat case_match; frame.
  - split; [|by apply renewBrowser_inv, Hinv|];
      [eapply outbox_inv_same, Hinv|eapply dead_letter_inv_same, Hinv];
      unfold renewBrowser; repeat case_match; frame.
  - split; [|by apply drainBrowser_inv, Hinv|];
      [eapply outbox_inv_same, Hinv|eapply dead_letter_inv_same, Hinv];
      unfold drainBrowser; repeat case_match; frame.
  - eapply store_inv_same; [frame..|done].
  - eapply store_inv_same, Hinv; unfold acquireCredential; case_match; frame.
  - eapply store_inv_same, Hinv; unfold releaseCredential; case_match; frame.
  - eapply store_inv_same, Hinv; unfold renewCredential; repeat case_match; frame.
  - split; [eapply outbox_inv_same, Hinv; frame|by apply sweep_browser_inv, Hinv|].
    eapply dead_letter_inv_same, Hinv. frame.
  - unfold save in *. case_match; simplify_eq. eapply store_inv_same; [frame..|done].
  - subst. split; [by eapply outbox_inv_same, Hinv; frame|by eapply browser_inv_same, Hinv; frame|].
    apply create_letters, Hinv.
  - by eapply replay_inv.
Qed.

Lemma reachable_inv m s : reachable m s → store_inv m s.
Proof. apply reachable_ind_inv; [apply new_store_inv|eauto using step_inv]. Qed.

(** ** The relay *)

Definition publishable (r : OutboxRow) : Prop :=
  dr_payloadSchemaRef (or_draft r) = EVENT_PAYLOAD_SCHEMA_REFS (dr_eventType (or_draft r)) ∧
  dr_payload (or_draft r) = JObj [].

Lemma event_type_listed e : e ∈ TENANT_EVENT_TYPES.
Proof. destruct e; apply list_elem_of_In; simpl; tauto. Qed.

Lemma publishable_valid r : publishable r → validate (dr_payloadSchemaRef (or_draft r)) (dr_payload (or_draft r)) = true.
Proof.
  intros [E1 E2]. unfold validate. rewrite E1, E2. apply andb_true_iff. split; [|done].
  apply existsb_exists. exists (dr_eventType (or_draft r)).
  split; [apply list_elem_of_In, event_type_listed|by apply bool_decide_eq_true].
Qed.

Lemma publish_publishable r s : publishable r →
  let k := draft_key (or_draft r) in
  publish r s =
    if decide (k ∈ deliveredIdempotency s)
    then (s, pub_duplicate (dr_eventId (or_draft r)) (dr_idempotencyKey (or_draft r)))
    else (with_delivery (λ ks, {[k]} ∪ ks) (λ l, l ++ [r]) s, pub_published (dr_eventId (or_draft r))).
Proof.
  intros Hp. unfold publish. rewrite publishable_valid by done. destruct Hp as [E _].
  by rewrite bool_decide_eq_true_2.
Qed.

(** Relaying a row that the outbox holds marks it and delivers its key. *)
Lemma relayRow_spec r s : publishable r →
  let s' := (relayRow s r).1 in
  outboxOrder s' = outboxOrder s ∧ draft_key (or_draft r) ∈ deliveredIdempotency s' ∧
  deliveredIdempotency s ⊆ deliveredIdempotency s' ∧
  emitted_event (relayRow s r).2 = Some (dr_eventId (or_draft r)) ∧
  (∀ id row, outbox s' !! id = Some row → or_publishedAt row = None →
     outbox s !! id = Some row ∧ id ≠ dr_eventId (or_draft r)) ∧
  (∀ id, is_Some (outbox s' !! id) ↔ is_Some (outbox s !! id)).
Proof.
  intros Hp. unfold relayRow. rewrite publish_publishable by done.
  set (k := draft_key (or_draft r)). set (eid := dr_eventId (or_draft r)).
  assert (Hmark : ∀ s0 t, let s' := markPublished eid t s0 in
    outboxOrder s' = outboxOrder s0 ∧ deliveredIdempotency s' = deliveredIdempotency s0 ∧
    (∀ id row, outbox s' !! id = Some row → or_publishedAt row = None →
       outbox s0 !! id = Some row ∧ id ≠ eid) ∧
    (∀ id, is_Some (outbox s' !! id) ↔ is_Some (outbox s0 !! id))).
  { intros s0 t. unfold markPublished. destruct (outbox s0 !! eid) as [[d [p|] c]|] eqn:E; simpl.
    - split_and!; try done. intros id row Hr Hn. split; [done|]. intros ->. rewrite E in Hr. by injection Hr as <-.
    - split_and!; try done.
      + intros id row. rewrite lookup_insert_Some. intros [[<- <-]|[? ?]]; [done|auto].
      + intros id. destruct (decide (id = eid)) as [->|]; [rewrite lookup_insert_eq, E; split; eauto|].
        by rewrite lookup_insert_ne.
    - split_and!; try done. intros id row Hr Hn. split; [done|]. intros ->. by rewrite E in Hr. }
  destruct (decide (k ∈ deliveredIdempotency s)) as [Hk|Hk]; simpl.
  - destruct (Hmark s (nowMs s)) as (-> & -> & ? & ?). by split_and!.
  - destruct (Hmark (with_delivery (λ ks, {[k]} ∪ ks) (λ l, l ++ [r]) s) (nowMs s)) as (-> & -> & ? & ?).
    simpl. split_and!; try done; set_solver.
Qed.

Lemma relay_loop rows : ∀ s res, Forall publishable rows →
  let out := foldl relayStep (s, res) rows in
  outboxOrder out.1 = outboxOrder s ∧
  (∀ r, r ∈ rows → draft_key (or_draft r) ∈ deliveredIdempotency out.1) ∧
  deliveredIdempotency s ⊆ deliveredIdempotency out.1 ∧
  omap emitted_event out.2 = omap emitted_event res ++ map (λ r, dr_eventId (or_draft r)) rows ∧
  (∀ id row, outbox out.1 !! id = Some row → or_publishedAt row = None →
     outbox s !! id = Some row ∧ id ∉ map (λ r, dr_eventId (or_draft r)) rows) ∧
  (∀ id, is_Some (outbox out.1 !! id) ↔ is_Some (outbox s !! id)).
Proof.
  induction rows as [|r rows IH]; intros s res Hp; simpl.
  { split_and!; try done; [set_solver|by rewrite app_nil_r|set_solver]. }
  apply Forall_cons in Hp as [Hr Hp]. destruct (relayRow_spec r s Hr) as (R1 & R2 & R3 & R4 & R5 & R6).
  destruct (relayRow s r) as [s1 r1]. simpl in *.
  destruct (IH s1 (res ++ [r1]) Hp) as (I1 & I2 & I3 & I4 & I5 & I6).
  split_and!.
  - congruence.
  - intros r' [->|Hr']%elem_of_cons; [by apply I3|by apply I2].
  - set_solver.
  - rewrite I4, omap_app. simpl. rewrite R4. simpl. by rewrite <- app_assoc.
  - intros id row Ho Hn. destruct (I5 id row Ho Hn) as [Ho1 Hni]. destruct (R5 id row Ho1 Hn) as [Ho2 Hne].
    split; [done|]. rewrite not_elem_of_cons. done.
  - intros id. by rewrite I6.
Qed.

Lemma getOutboxRows_elem s r : outbox_inv s → r ∈ getOutboxRows s ↔
  outbox s !! dr_eventId (or_draft r) = Some r.
Proof.
  intros [H1 H2 [H3 H3'] _]. unfold getOutboxRows. rewrite list_elem_of_omap. split.
  - intros (id & _ & Hr). by destruct (H1 id r Hr) as [-> _].
  - intros Hr. exists (dr_eventId (or_draft r)). split; [apply H3'; eauto|done].
Qed.

(** ** Properties *)

(** C16. The outbox delivers at most once: in every reachable store, whatever the
    interleaving of transitions, relays, publications and marks, no tenant-scoped
    idempotency key was published twice, no two outbox rows share a key, and
    the rows in order are exactly the recorded rows, each listed once under
    its own event id. *)
Theorem outbox_at_most_once m s :
  reachable m s →
  NoDup (map (λ r, draft_key (or_draft r)) (publishedEvents s)) ∧
  (∀ id1 id2 r1 r2, outbox s !! id1 = Some r1 → outbox s !! id2 = Some r2 →
     draft_key (or_draft r1) = draft_key (or_draft r2) → id1 = id2) ∧
  NoDup (outboxOrder s) ∧
  (∀ r, r ∈ getOutboxRows s ↔ outbox s !! dr_eventId (or_draft r) = Some r).
Proof.
  intros Hr%reachable_inv%si_outbox. split_and!.
  - apply Hr.
  - intros id1 id2 r1 r2 H1 H2 Hk. destruct (oi_row s Hr _ _ H1) as (_ & _ & K1 & _).
    destruct (oi_row s Hr _ _ H2) as (_ & _ & K2 & _). rewrite Hk in K1. congruence.
  - apply Hr.
  - intros r. by apply getOutboxRows_elem.
Qed.

(** A run claimed and started by a worker, for the witnesses. *)
Definition guard_all : RunGuard :=
  mkRunGuard (Some true) (Some true) (Some true) (Some true) None (Some true) (Some true) (Some true)
    None (Some true) None None.
Definition store_of (r : result IllegalTransition (store * StateMachineCasResult RunState)) (s : store) : store :=
  match r with Ok (s', _) => s' | Err _ => s end.
Definition ex0 : store := seedRun "t" "r" None None None None (new_store 0).
Definition ex1 : store := store_of (applyRunEvent "t" "r" ev_worker_claimed (Some guard_all) None ex0) ex0.
Definition ex2 : store := store_of (applyRunEvent "t" "r" ev_run_started (Some guard_all) None ex1) ex1.

Lemma ex2_reachable : reachable true ex2.
Proof.
  exists 0%Z. eapply rtc_l; [apply (step_seed_run _ _ "t" "r" None None None None)|].
  eapply rtc_l; [eapply (step_run _ _ "t" "r" ev_worker_claimed (Some guard_all) None ex1); vm_compute; reflexivity|].
  eapply rtc_l; [eapply (step_run _ _ "t" "r" ev_run_started (Some guard_all) None ex2); vm_compute; reflexivity|].
  apply rtc_refl.
Qed.

Lemma outbox_at_most_once_witness :
  NoDup (map (λ r, draft_key (or_draft r)) (publishedEvents ex2)) ∧
  (∀ id1 id2 r1 r2, outbox ex2 !! id1 = Some r1 → outbox ex2 !! id2 = Some r2 →
     draft_key (or_draft r1) = draft_key (or_draft r2) → id1 = id2) ∧
  NoDup (outboxOrder ex2) ∧
  (∀ r, r ∈ getOutboxRows ex2 ↔ outbox ex2 !! dr_eventId (or_draft r) = Some r).
Proof. apply (outbox_at_most_once true ex2). exact ex2_reachable. Defined.

(** The relay makes progress: in every reachable store, one batch whose
    limit covers the unpublished rows leaves no unpublished row behind, fails
    on none of them and has delivered the key of each. *)
Theorem relay_drains_outbox m s limit :
  reachable m s → length (filter (λ r, or_publishedAt r = None) (getOutboxRows s)) ≤ limit →
  let '(s', (rows, results)) := relayOutboxBatch limit s in
  filter (λ r, or_publishedAt r = None) (getOutboxRows s') = [] ∧
  omap emitted_event results = map (λ r, dr_eventId (or_draft r)) rows ∧
  length results = length rows ∧
  (∀ r, r ∈ getOutboxRows s → or_publishedAt r = None →
     r ∈ rows ∧ draft_key (or_draft r) ∈ deliveredIdempotency s').
Proof.
  intros Hr%reachable_inv%si_outbox Hlen. unfold relayOutboxBatch, pollUnpublished.
  rewrite take_ge by done. set (rows := filter _ (getOutboxRows s)).
  assert (Hrows : ∀ r, r ∈ rows ↔ or_publishedAt r = None ∧ outbox s !! dr_eventId (or_draft r) = Some r).
  { intros r. unfold rows. by rewrite list_elem_of_filter, getOutboxRows_elem. }
  assert (Hp : Forall publishable rows).
  { apply Forall_forall. intros r [_ H]%Hrows. destruct (oi_row s Hr _ _ H) as (_ & _ & _ & ? & ?). done. }
  assert (Hlres : ∀ rs s0 res, length (foldl relayStep (s0, res) rs).2 = length res + length rs).
  { clear. induction rs as [|r rs IH]; intros s0 res; simpl; [lia|].
    destruct (relayRow s0 r) as [s1 r1]. rewrite IH, length_app. simpl. lia. }
  destruct (relay_loop rows s [] Hp) as (I1 & I2 & _ & I4 & I5 & I6). specialize (Hlres rows s []).
  destruct (foldl relayStep (s, []) rows) as [s' results]. simpl in *. split_and!; try done.
  - apply elem_of_nil_inv. intros r [Hn Hin]%list_elem_of_filter.
    unfold getOutboxRows in Hin. apply list_elem_of_omap in Hin as (id & _ & Ho).
    destruct (I5 id r Ho Hn) as [Hs Hni]. apply Hni. apply list_elem_of_fmap. exists r.
    destruct (oi_row s Hr _ _ Hs) as [E _]. split; [done|]. apply Hrows. by rewrite E.
  - intros r Hin Hn. apply getOutboxRows_elem in Hin; [|done].
    assert (r ∈ rows) by (by apply Hrows). split; [done|by apply I2].
Qed.

Lemma relay_drains_outbox_witness :
  let '(s', (rows, results)) := relayOutboxBatch 100 ex2 in
  filter (λ r, or_publishedAt r = None) (getOutboxRows s') = [] ∧
  omap emitted_event results = map (λ r, dr_eventId (or_draft r)) rows ∧
  length results = length rows ∧
  (∀ r, r ∈ getOutboxRows ex2 → or_publishedAt r = None →
     r ∈ rows ∧ draft_key (or_draft r) ∈ deliveredIdempotency s').
Proof. apply (relay_drains_outbox true ex2 100); [exact ex2_reachable|vm_compute; lia]. Defined.

(** Browser leases are exclusive: in every reachable store, under any
    interleaving of acquisitions, renewals, drains and sweeps, at most one
    lease on a browser identity (per tenant and site profile) is reserved or
    active. *)
Theorem browser_lease_exclusive m s k1 l1 k2 l2 :
  reachable m s → (k1, l1) ∈ browserLeases s → (k2, l2) ∈ browserLeases s →
  lease_held (b_state l1) = true → lease_held (b_state l2) = true →
  b_tenantId l1 = b_tenantId l2 → b_siteProfileId l1 = b_siteProfileId l2 →
  b_browserIdentityId l1 = b_browserIdentityId l2 → (k1, l1) = (k2, l2).
Proof.
  intros Hr%reachable_inv%si_browser Hin1 Hin2 Hh1 Hh2 E1 E2 E3.
  assert (k1 = k2) as ->.
  { apply (bi_exclusive s Hr k1 l1 k2 l2); try done. by rewrite lease_for_true. }
  apply (elem_alookup _ _ _ (bi_keys s Hr)) in Hin1, Hin2. congruence.
Qed.

Definition ex_lease : store := (acquireBrowser "t" "r" "p" "i" "w" iso_browser clear_all 10 (new_store 0)).1.

Lemma browser_lease_exclusive_witness :
  let k := id_of_sequence 1 in
  let l := mkBrowserLease k "t" "p" "i" (Some "r") "w" iso_browser bl_active clear_all 0 10 in (k, l) = (k, l).
Proof.
  intros k l. apply (browser_lease_exclusive true ex_lease).
  - exists 0%Z. eapply rtc_l; [apply (step_acquire_browser _ _ "t" "r" "p" "i" "w" iso_browser clear_all 10)|].
    apply rtc_refl.
  - by left.
  - by left.
  - reflexivity.
  - reflexivity.
  - reflexivity.
  - reflexivity.
  - reflexivity.
Defined.

(** Dead letters: in every reachable store an abandoned workitem has
    an open dead letter, the only one unless operators create letters by hand,
    and replaying any open letter of the workitem succeeds: the workitem is
    [new] again with no attempts and no checkout, the letter is closed, and a
    second replay of it is refused without any change. *)
Theorem abandoned_workitem_replayable m s key row :
  reachable m s → workitems s !! key = Some row → wr_status row = wi_abandoned → wr_id row ≠ EmptyString →
  let open id := ∃ rec, (id, rec) ∈ deadLetters s ∧ open_for (wr_tenantId row) (wr_id row) rec = true in
  (∃ id, open id ∧ (m = false → ∀ id', open id' → id' = id)) ∧
  (∀ id, open id → ∃ s' row',
     replay (wr_tenantId row) id s = Ok (s', replayed (wr_id row)) ∧
     workitems s' !! key = Some row' ∧ wr_status row' = wi_new ∧ wr_attempts row' = 0 ∧
     wr_checkoutExpiresAt row' = None ∧
     replay (wr_tenantId row) id s' = Ok (s', not_replayable "dead letter is missing or closed")).
Proof.
  intros Hr%reachable_inv%si_letters Hrow Hab Hne open. split.
  - destruct (di_abandoned _ s Hr _ _ Hrow Hab) as (id & rec & Hin & Ho).
    exists id. split; [by exists rec|]. intros Hm id' (rec' & Hin' & Ho').
    by eapply (di_single _ s Hr Hm).
  - intros id (rec & Hin & Ho). assert (Hkey := di_rows _ s Hr _ _ Hrow). subst key.
    by apply (replay_open m s row id rec).
Qed.

(** The workitem ["w"] of tenant ["t"], checked out once and out of attempts. *)
Definition wi_guard : WorkitemGuard := mkWorkitemGuard (Some true) None (Some false) None None.
Definition exw0 : store := seedWorkitem "t" "w" None None None None None (new_store 0).
Definition exw1 : store :=
  match applyWorkitemEvent "t" "w" wev_checkout (Some wi_guard) None exw0 with Ok (s, _) => s | Err _ => exw0 end.
Definition exw2 : store :=
  match applyWorkitemEvent "t" "w" wev_system_exception (Some wi_guard) None exw1 with Ok (s, _) => s | Err _ => exw1 end.
Definition exw_row : WorkitemRow :=
  mkWorkitemRow "t" "w" wi_abandoned "w" "fixture-connector" "w" 1 None None None None 0 0.

Lemma exw2_reachable : reachable false exw2.
Proof.
  exists 0%Z. eapply rtc_l; [by apply (step_seed_workitem _ _ "t" "w" None None None None None)|].
  eapply rtc_l; [eapply (step_workitem _ _ "t" "w" wev_checkout (Some wi_guard) None exw1); vm_compute; reflexivity|].
  eapply rtc_l; [eapply (step_workitem _ _ "t" "w" wev_system_exception (Some wi_guard) None exw2); vm_compute; reflexivity|].
  apply rtc_refl.
Qed.

Lemma abandoned_workitem_replayable_witness :
  ∃ id, (∃ rec, (id, rec) ∈ deadLetters exw2 ∧ open_for "t" "w" rec = true) ∧
    ∃ s' row', replay "t" id exw2 = Ok (s', replayed "w") ∧
      workitems s' !! "t:w" = Some row' ∧ wr_status row' = wi_new ∧ wr_attempts row' = 0 ∧
      wr_checkoutExpiresAt row' = None ∧
      replay "t" id s' = Ok (s', not_replayable "dead letter is missing or closed").
Proof.
  destruct (abandoned_workitem_replayable false exw2 "t:w" exw_row exw2_reachable) as [[id [Ho _]] H].
  - vm_compute. reflexivity.
  - reflexivity.
  - discriminate.
  - exists id. split; [exact Ho|exact (H id Ho)].
Defined.

(** Compare-and-set on runs: [applyRunEvent] throws exactly when the state
    machine forbids the event in the expected state; otherwise a row in
    another state is a miss that reports the latest state and changes nothing,
    and a row in the expected state moves to the state the machine prescribes
    and leaves all other runs and all other entities alone. The events of the
    transition are recorded in the same call: the new rows are appended to the
    outbox in order, and every event's key is known afterwards, by one of the
    new rows unless it was known before. *)
Theorem applyRunEvent_cas t id ev g ex s row :
  runs s !! entityKey t id = Some row →
  let current := default (rr_status row) ex in
  match transitionRun current ev (default run_guard_empty g) with
  | Err e => applyRunEvent t id ev g ex s = Err e
  | Ok tr =>
      if decide (rr_status row = current) then
        ∃ s' row' drafts,
          applyRunEvent t id ev g ex s = Ok (s', applied (next tr) (sideEffects tr) drafts) ∧
          runs s' = <[entityKey t id := row']> (runs s) ∧ rr_status row' = next tr ∧
          (rr_endedAt row' = if run_ends (next tr) then Some (nowMs s) else rr_endedAt row) ∧
          workitems s' = workitems s ∧ humanTasks s' = humanTasks s ∧
          browserLeases s' = browserLeases s ∧ credentialLeases s' = credentialLeases s ∧
          deadLetters s' = deadLetters s ∧ publishedEvents s' = publishedEvents s ∧
          outboxOrder s' = outboxOrder s ++ map dr_eventId drafts ∧
          (∀ i e, emitted (sideEffects tr) !! i = Some e →
             let key := tenantScopedKey t (event_key (mkEntity e_run t id) (RunEvent_type ev) i e) in
             is_Some (outboxIdempotency s' !! key) ∧
             (outboxIdempotency s !! key = None → ∃ d, d ∈ drafts ∧ draft_key d = key))
      else applyRunEvent t id ev g ex s = Ok (s, cas_miss (Some (rr_status row)))
  end.
Proof.
  intros Hrow current. unfold applyRunEvent. rewrite Hrow. fold current.
  destruct (transitionRun current ev (default run_guard_empty g)) as [tr|e]; [|done].
  cbn [mbind result_bind]. unfold applyRun. rewrite Hrow. case_decide as Hc; [|done].
  set (e := mkEntity e_run t id).
  destruct (emit_frame e (R_run row) (RunEvent_type ev) (sideEffects tr) s)
    as (E1 & _ & E2 & E3 & E4 & E5 & _ & E6 & E7 & _ & E8). unfold emit in *.
  unfold outboxDraftsForTransition in *. set (drafts := imap _ _) in *.
  set (s1 := with_sequence _ s) in *. unfold appendOutboxDrafts in *.
  destruct (appendStep_spec drafts s1 []) as (s2 & ins & Ea & Eo & _ & _ & Hd).
  rewrite Ea in *. simpl in *.
  eexists _, _, ins. split; [done|]. simpl. rewrite E2. split_and!; try done.
  intros i x Hi. apply (Hd (draft_for (nowMs s) (sequence s) e (R_run row) (RunEvent_type ev) i x)).
  apply list_elem_of_lookup. exists i. unfold drafts. by rewrite list_lookup_imap, Hi.
Qed.

Lemma applyRunEvent_cas_witness :
  ∃ s' row' drafts,
    applyRunEvent "t" "r" ev_run_started (Some guard_all) None ex1 =
      Ok (s', applied run_running [emitEvent run_started_e] drafts) ∧
    runs s' = <[entityKey "t" "r" := row']> (runs ex1) ∧ rr_status row' = run_running ∧
    rr_endedAt row' = None ∧ publishedEvents s' = publishedEvents ex1 ∧
    ∃ d, d ∈ drafts ∧ draft_key d = "t:run:r:run.started:run.started:0".
Proof.
  pose proof (applyRunEvent_cas "t" "r" ev_run_started (Some guard_all) None ex1
           (mkRunRow "t" "r" run_claimed "r" None None 0 None 0 0 None) eq_refl)
    as (s' & row' & drafts & H1 & H2 & H3 & H4 & _ & _ & _ & _ & _ & H5 & _ & H6).
  exists s', row', drafts. split_and!; try done.
  destruct (H6 0 run_started_e eq_refl) as [_ H]. apply H. reflexivity.
Defined.

(** No silent refusal: when one of the three [apply] methods throws, the
    row exists and the error names the kind of entity, the expected state (the
    row's own state when none is given) and the event. *)
Theorem apply_errors_named t id s :
  (∀ ev g ex e, applyRunEvent t id ev g ex s = Err e →
     ∃ row, runs s !! entityKey t id = Some row ∧
       e = mkIllegal e_run (RunState_str (default (rr_status row) ex)) (RunEvent_type ev)) ∧
  (∀ ev g ex e, applyWorkitemEvent t id ev g ex s = Err e →
     ∃ row, workitems s !! entityKey t id = Some row ∧
       e = mkIllegal e_workitem (WorkitemState_str (default (wr_status row) ex)) (WorkitemEvent_type ev)) ∧
  (∀ ev g ex e, applyHumanTaskEvent t id ev g ex s = Err e →
     ∃ row, humanTasks s !! entityKey t id = Some row ∧
       e = mkIllegal e_human_task (HumanTaskState_str (default (hr_state row) ex)) (HumanTaskEvent_type ev)).
Proof.
  unfold applyRunEvent, applyWorkitemEvent, applyHumanTaskEvent.
  split_and!; intros ev g ex e; destruct (_ !! entityKey t id) as [row|]; try done;
    intros [He|(tr & _ & ?)]%result_bind_Err; try done; exists row; (split; [done|]).
  - exact (transition_error (Machine := run_machine) _ _ _ _ He).
  - exact (transition_error (Machine := workitem_machine) _ _ _ _ He).
  - exact (transition_error (Machine := human_task_machine) _ _ _ _ He).
Qed.

(** Of two workers that decided on the same state of a workitem, one wins:
    after the first transition was applied and changed the state, the second
    is a CAS miss that reports the new state and leaves the store as it is. *)
Theorem cas_single_winner t id current ev1 ev2 tr1 tr2 s s1 effects drafts :
  applyWorkitem t id current ev1 tr1 s = (s1, applied (next tr1) effects drafts) →
  next tr1 ≠ current →
  applyWorkitem t id current ev2 tr2 s1 = (s1, cas_miss (Some (next tr1))).
Proof.
  intros H Hne. unfold applyWorkitem in H.
  destruct (workitems s !! entityKey t id) as [row|] eqn:Er; [|done]. case_decide as Hc; [|done].
  destruct (outboxDraftsForTransition _ _ _ _ s) as [s0 ds].
  destruct (appendOutboxDrafts ds s0) as [s2 ins]. injection H as <- _.
  set (row' := workitem_after (nowMs s) ev1 (next tr1) row).
  assert (Hw : workitems (createDlqForSideEffect row' (sideEffects tr1)
      (with_workitems <[entityKey t id:=row']> s2)) !! entityKey t id = Some row').
  { unfold createDlqForSideEffect. repeat case_match; simpl; by rewrite lookup_insert_eq. }
  unfold applyWorkitem. rewrite Hw.
  destruct (decide (wr_status row' = current)) as [E|]; [|done]. exfalso. by apply Hne.
Qed.

Lemma cas_single_winner_witness :
  let tr := mkTransition wi_processing [setField e_workitem "checked_out_by"; setField e_workitem "checked_out_at"] in
  applyWorkitem "t" "w" wi_new wev_checkout tr exw1 = (exw1, cas_miss (Some wi_processing)).
Proof.
  intros tr. apply (cas_single_winner "t" "w" wi_new wev_checkout wev_checkout tr tr exw0 exw1
    [setField e_workitem "checked_out_by"; setField e_workitem "checked_out_at"] []).
  - vm_compute. reflexivity.
  - discriminate.
Defined.

(** ** Credential leases and resume tokens *)

Lemma free_slot_Some s p slot n i : free_slot s p slot n = Some i →
  slot ≤ i < slot + n ∧ slot_taken s (credentialLeaseKey p i) = false ∧
  ∀ j, slot ≤ j < i → slot_taken s (credentialLeaseKey p j) = true.
Proof.
  revert slot. induction n as [|n IH]; intros slot; simpl; [done|].
  destruct (slot_taken s (credentialLeaseKey p slot)) eqn:E.
  - intros (H1 & H2 & H3)%IH. split_and!; try lia; [done|]. intros j Hj.
    destruct (decide (j = slot)) as [->|]; [done|]. apply H3. lia.
  - intros [= <-]. split_and!; [lia|lia|done|intros j Hj; lia].
Qed.

Lemma free_slot_None s p slot n : free_slot s p slot n = None →
  ∀ j, slot ≤ j < slot + n → slot_taken s (credentialLeaseKey p j) = true.
Proof.
  revert slot. induction n as [|n IH]; intros slot; simpl; [intros _ j Hj; lia|].
  destruct (slot_taken s (credentialLeaseKey p slot)) eqn:E; [|done].
  intros H j Hj. destruct (decide (j = slot)) as [->|]; [done|]. eapply IH; [done|lia].
Qed.

(** Credential leases respect the concurrency limit: an acquisition gets
    the lowest free slot below the limit of its policy and only that slot
    changes, so no live lease is ever overwritten; it is deferred exactly when
    every slot below the limit holds a live lease, and then nothing changes. *)
Theorem acquireCredential_spec opts t r w c p until s :
  let pk := credentialPolicyKey t c p in
  let m := maxConcurrency_of opts s pk in
  match acquireCredential opts t r w c p until s with
  | (s', acquired l) =>
      c_slotNo l < m ∧ c_runId l = r ∧ c_status l = cl_active ∧
      slot_taken s (credentialLeaseKey pk (c_slotNo l)) = false ∧
      (∀ j, j < c_slotNo l → slot_taken s (credentialLeaseKey pk j) = true) ∧
      alookup (credentialLeaseKey pk (c_slotNo l)) (credentialLeases s') = Some l ∧
      (∀ k, k ≠ credentialLeaseKey pk (c_slotNo l) →
         alookup k (credentialLeases s') = alookup k (credentialLeases s))
  | (s', deferred _) =>
      s' = s ∧ ∀ j, j < m → slot_taken s (credentialLeaseKey pk j) = true
  end.
Proof.
  simpl. unfold acquireCredential.
  destruct (free_slot _ _ _ _) as [i|] eqn:E; simpl.
  - apply free_slot_Some in E as (H1 & H2 & H3). split_and!; try done; [lia| | |].
    + intros j Hj. apply H3. lia.
    + by rewrite alookup_aset, decide_True.
    + intros k Hk. by rewrite alookup_aset, decide_False.
  - split; [done|]. intros j Hj. eapply free_slot_None; [done|lia].
Qed.

(** Resume tokens round trip: an issued token saved for its run is
    recovered unchanged until it expires, for any HMAC function; strictly
    after its expiry it is reported as expired, and a stored token whose signature
    does not match is never recovered. *)
Theorem resume_token_recovery hmac opts t id row tok s :
  runs s !! entityKey t id = Some row →
  ∃ s', save t id tok s = Ok s' ∧
    (tok = issue hmac opts tok → tk_runId tok = id →
     (isExpired s (tk_expiresAt tok) = false → recover hmac opts t id s' = recovered tok) ∧
     (isExpired s (tk_expiresAt tok) = true →
      recover hmac opts t id s' = not_recovered (token_expired "resume token expired"))) ∧
    (tk_hmac tok ≠ sign hmac opts tok →
     recover hmac opts t id s' = not_recovered (token_invalid "resume token hmac mismatch")).
Proof.
  intros Hrow. unfold save. rewrite Hrow. eexists. split; [done|].
  unfold recover. simpl. rewrite lookup_insert_eq. simpl. unfold verify. split.
  - intros Hiss Hid. assert (Hs : tk_hmac tok = sign hmac opts tok).
    { rewrite Hiss at 1. rewrite Hiss. done. }
    rewrite bool_decide_eq_true_2 by done. simpl.
    change (isExpired (with_runs _ s) (tk_expiresAt tok)) with (isExpired s (tk_expiresAt tok)).
    split; intros ->; [|done]. by rewrite decide_True.
  - intros Hs. by rewrite bool_decide_eq_false_2.
Qed.

Lemma resume_token_recovery_witness :
  let hmac := λ k m, (k +:+ m) in
  let tok := issue hmac default_options (mkToken "r" "node" "page" (Some (2, 3)) 0 1000 "k" EmptyString) in
  ∃ s', save "t" "r" tok ex0 = Ok s' ∧
    (tok = issue hmac default_options tok → tk_runId tok = "r" →
     (isExpired ex0 (tk_expiresAt tok) = false → recover hmac default_options "t" "r" s' = recovered tok) ∧
     (isExpired ex0 (tk_expiresAt tok) = true →
      recover hmac default_options "t" "r" s' = not_recovered (token_expired "resume token expired"))) ∧
    (tk_hmac tok ≠ sign hmac default_options tok →
     recover hmac default_options "t" "r" s' = not_recovered (token_invalid "resume token hmac mismatch")).
Proof.
  intros hmac tok. apply (resume_token_recovery hmac default_options "t" "r"
    (mkRunRow "t" "r" run_queued "r" None None 0 None 0 0 None)).
  reflexivity.
Defined.

(** ** Repeated suspensions *)

(** Apply a list of events to the run ["r"], collecting what each one inserted
    in the outbox. *)
Fixpoint drive (evs : list RunEvent) (s : store) : option (store * list (list EventEnvelopeType)) :=
  match evs with
  | [] => Some (s, [])
  | ev :: evs' =>
      match applyRunEvent "t" "r" ev (Some guard_all) None s with
      | Ok (s', applied _ _ drafts) =>
          '(s'', l) ← drive evs' s'; Some (s'', map dr_eventType drafts :: l)
      | _ => None
      end
  end.

(** The idempotency key of an event does not tell apart two occurrences of
    the same transition: when a run is suspended and resumed a second time,
    both transitions are applied, but their [run.suspended],
    [run.resume_requested] and [run.resumed] events are taken for duplicates
    of the first ones and are not recorded. *)
Theorem second_suspension_events_dropped :
  let once := [ev_operator_pause_requested; ev_bookmark_saved; ev_human_task_resolved;
               ev_worker_claimed; ev_restore_ok] in
  snd <$> drive (once ++ once) ex2 =
    Some [[]; [run_suspended_e]; [run_resume_requested_e]; []; [run_resumed_e];
          []; []; []; []; []] ∧
  (s ← fst <$> drive (once ++ once) ex2; rr_status <$> (runs s !! "t:r")) = Some run_running.
Proof. split; vm_compute; reflexivity. Qed.
