(* ===== verification/Rbac.v ===== *)
(** * Role-based access control

    Models [ts/rbac-policy.ts]: the actions of every role, the inverted table
    that the middleware consults, and the two decision functions.  Actions are
    the strings of the closed union [RbacAction]. *)

From stdpp Require Import base strings list gmap.
From S2P Require Import Prelude JsValue.

Inductive Role := viewer | operator | reviewer | approver | admin.
#[export] Instance Role_eq_dec : EqDecision Role.
Proof. solve_decision. Defined.

Definition viewer_actions : list string :=
  ["run.read"; "workitem.read"; "human_task.read"; "principal.read"; "artifact.read"; "site.read";
   "gateway_policy.read"; "scenario.read"; "scenario_release.read"; "trigger.read";
   "ops_alert.read"; "automation_idea.read"; "connector.read"; "document_job.read"; "audit.read";
   "ai_governance.read"].

Definition operator_actions : list string :=
  ["run.read"; "run.create"; "site.create"; "site.update"; "session.capture"; "workitem.read";
   "human_task.read"; "principal.read"; "artifact.read"; "site.read"; "gateway_policy.read";
   "run.abort"; "run.rerun"; "run.resume"; "run.pause"; "run.prioritize"; "human_task.assign";
   "human_task.start"; "dlq.replay"; "sink_dlq.replay"; "scenario.read"; "scenario.create";
   "scenario.update"; "scenario_release.read"; "scenario_release.submit"; "trigger.read";
   "trigger.manage"; "ops_alert.read"; "ops_alert.ack"; "automation_idea.read";
   "automation_idea.manage"; "connector.read"; "integration.handoff"; "document_job.read";
   "document_job.manage"; "audit.read"; "ai_governance.read"].

Definition reviewer_actions : list string :=
  ["run.read"; "run.create"; "site.create"; "site.update"; "session.capture"; "workitem.read";
   "human_task.read"; "principal.read"; "artifact.read"; "site.read"; "gateway_policy.read";
   "run.abort"; "run.rerun"; "run.resume"; "run.pause"; "run.prioritize"; "human_task.assign";
   "human_task.escalate"; "human_task.start"; "dlq.replay"; "sink_dlq.replay";
   "human_task.resolve.validation"; "human_task.resolve.exception"; "human_task.resolve.captcha";
   "human_task.resolve.mfa"; "scenario.read"; "scenario.create"; "scenario.update";
   "scenario_release.read"; "scenario_release.submit"; "trigger.read"; "trigger.manage";
   "ops_alert.read"; "ops_alert.ack"; "automation_idea.read"; "automation_idea.manage";
   "connector.read"; "integration.handoff"; "document_job.read"; "document_job.manage";
   "audit.read"; "ai_governance.read"].

Definition approver_actions : list string :=
  ["run.read"; "run.create"; "site.create"; "site.update"; "session.capture"; "workitem.read";
   "human_task.read"; "principal.read"; "artifact.read"; "site.read"; "gateway_policy.read";
   "run.abort"; "run.rerun"; "run.resume"; "run.pause"; "run.prioritize"; "human_task.assign";
   "human_task.escalate"; "human_task.start"; "dlq.replay"; "sink_dlq.replay";
   "human_task.resolve.validation"; "human_task.resolve.exception"; "human_task.resolve.captcha";
   "human_task.resolve.mfa"; "human_task.resolve.approval"; "node_policy.approve"; "site.approve";
   "approval.decide"; "scenario.read"; "scenario.create"; "scenario.update";
   "scenario.promote.approve"; "scenario.certify"; "scenario_release.read";
   "scenario_release.submit"; "trigger.read"; "trigger.manage"; "ops_alert.read"; "ops_alert.ack";
   "automation_idea.read"; "automation_idea.manage"; "automation_idea.approve"; "connector.read";
   "integration.handoff"; "document_job.read"; "document_job.manage"; "audit.read";
   "ai_governance.read"].

Definition admin_actions : list string :=
  ["run.read"; "run.create"; "site.create"; "site.update"; "session.capture"; "workitem.read";
   "human_task.read"; "principal.read"; "artifact.read"; "site.read"; "gateway_policy.read";
   "run.abort"; "run.rerun"; "run.resume"; "run.pause"; "run.prioritize"; "human_task.assign";
   "human_task.escalate"; "human_task.start"; "dlq.replay"; "sink_dlq.replay";
   "human_task.resolve.validation"; "human_task.resolve.exception"; "human_task.resolve.captcha";
   "human_task.resolve.mfa"; "human_task.resolve.approval"; "node_policy.approve"; "site.approve";
   "approval.decide"; "secret.resolve"; "credential.manage"; "worker_pool.manage";
   "connector.enable"; "gateway_policy.edit"; "network_policy.edit"; "scim.sync";
   "principal.manage"; "rbac.grant"; "scenario.read"; "scenario.create"; "scenario.update";
   "scenario.promote"; "scenario.promote.approve"; "scenario.certify"; "scenario_release.read";
   "scenario_release.submit"; "scenario_release.approve"; "scenario_release.deploy";
   "scenario_release.rollback"; "trigger.read"; "trigger.manage"; "ops_alert.read";
   "ops_alert.ack"; "ops_alert.deliver"; "ops_readiness.manage"; "automation_idea.read";
   "automation_idea.manage"; "automation_idea.approve"; "connector.read"; "integration.handoff";
   "document_job.read"; "document_job.manage"; "audit.read"; "audit.verify"; "tenant_data.export";
   "tenant_data.purge.request"; "tenant_data.purge.approve"; "ai_governance.read";
   "ai_governance.manage"].

Definition RBAC_ROLE_ACTIONS (role : Role) : list string :=
  match role with
  | viewer => viewer_actions
  | operator => operator_actions
  | reviewer => reviewer_actions
  | approver => approver_actions
  | admin => admin_actions
  end.

Definition ALL_RBAC_ACTIONS : list string :=
  ["run.read"; "run.create"; "run.abort"; "run.rerun"; "run.resume"; "run.pause";
   "run.prioritize"; "trigger.read"; "trigger.manage"; "ops_alert.read"; "ops_alert.ack";
   "ops_alert.deliver"; "ops_readiness.manage"; "automation_idea.read"; "automation_idea.manage";
   "automation_idea.approve"; "document_job.read"; "document_job.manage"; "audit.read";
   "audit.verify"; "tenant_data.export"; "tenant_data.purge.request"; "tenant_data.purge.approve";
   "ai_governance.read"; "ai_governance.manage"; "workitem.read"; "human_task.read";
   "principal.read"; "human_task.assign"; "human_task.escalate"; "human_task.start";
   "human_task.resolve.validation"; "human_task.resolve.exception"; "human_task.resolve.captcha";
   "human_task.resolve.mfa"; "human_task.resolve.approval"; "node_policy.approve"; "dlq.replay";
   "sink_dlq.replay"; "scenario.create"; "scenario.read"; "scenario.update"; "scenario.promote";
   "scenario.promote.approve"; "scenario.certify"; "scenario_release.read";
   "scenario_release.submit"; "scenario_release.approve"; "scenario_release.deploy";
   "scenario_release.rollback"; "artifact.read"; "site.read"; "site.approve"; "site.create";
   "site.update"; "approval.decide"; "session.capture"; "secret.resolve"; "credential.manage";
   "worker_pool.manage"; "connector.read"; "connector.enable"; "integration.handoff";
   "gateway_policy.read"; "gateway_policy.edit"; "network_policy.edit"; "scim.sync";
   "principal.manage"; "rbac.grant"].

(** [Object.keys(RBAC_ROLE_ACTIONS)]. *)
Definition ROLES : list Role := [viewer; operator; reviewer; approver; admin].

(** [out[action].push(role)]; the key exists for every listed action. *)
Definition push_role (out : list (string * list Role)) (action : string) (role : Role)
  : list (string * list Role) :=
  match alookup action out with
  | Some roles => aset action (roles ++ [role]) out
  | None => out
  end.

Definition push_actions (role : Role) (out : list (string * list Role)) (actions : list string)
  : list (string * list Role) :=
  foldl (λ out action, push_role out action role) out actions.

Definition invertRoleActions : list (string * list Role) :=
  foldl (λ out role, push_actions role out (RBAC_ROLE_ACTIONS role))
    (map (λ action, (action, [])) ALL_RBAC_ACTIONS) ROLES.

Definition RBAC_ALLOWED_ROLES (action : string) : list Role :=
  default [] (alookup action invertRoleActions).

Definition roleAllowsAction (role : Role) (action : string) : bool :=
  string_in action (RBAC_ROLE_ACTIONS role).

Definition rolesAllowAction (roles : list Role) (action : string) : bool :=
  existsb (λ role, roleAllowsAction role action) roles.

(** ** The inverted table *)

Lemma elem_ROLES role : role ∈ ROLES.
Proof. apply list_elem_of_In. destruct role; simpl; tauto. Qed.

Lemma push_role_lookup out action role a :
  alookup a (push_role out action role) =
    if decide (a = action) then (λ rs, rs ++ [role]) <$> alookup a out else alookup a out.
Proof.
  unfold push_role. destruct (alookup action out) as [rs|] eqn:E.
  - rewrite alookup_aset. case_decide; [subst; by rewrite E|done].
  - case_decide; [subst; by rewrite E|done].
Qed.

(** Pushing the actions of a role appends it to the entries of its actions. *)
Lemma push_actions_elem role actions : ∀ out a x,
  (∃ rs, alookup a (push_actions role out actions) = Some rs ∧ x ∈ rs) ↔
  (∃ rs, alookup a out = Some rs ∧ (x ∈ rs ∨ (a ∈ actions ∧ x = role))).
Proof.
  unfold push_actions. induction actions as [|b actions IH]; intros out a x; cbn [foldl].
  - setoid_rewrite elem_of_nil. naive_solver.
  - rewrite IH. setoid_rewrite elem_of_cons. rewrite push_role_lookup.
    case_decide as E; [|naive_solver]. subst. destruct (alookup b out) as [rs|]; simpl.
    + split; intros (rs' & [= <-] & H); (eexists; split; [reflexivity|]);
        rewrite elem_of_app, list_elem_of_singleton in *; tauto.
    + naive_solver.
Qed.

Lemma invert_elem rs0 : ∀ out a x,
  (∃ rs, alookup a (foldl (λ out role, push_actions role out (RBAC_ROLE_ACTIONS role)) out rs0) = Some rs ∧ x ∈ rs) ↔
  (∃ rs, alookup a out = Some rs ∧ (x ∈ rs ∨ (x ∈ rs0 ∧ a ∈ RBAC_ROLE_ACTIONS x))).
Proof.
  induction rs0 as [|r rs0 IH]; intros out a x; cbn [foldl].
  - setoid_rewrite elem_of_nil. naive_solver.
  - rewrite IH. setoid_rewrite elem_of_cons. split.
    + intros (rs & Hl & H). assert (Hp := push_actions_elem r (RBAC_ROLE_ACTIONS r) out a x).
      destruct H as [H|[H1 H2]].
      * destruct (proj1 Hp) as (rs' & ? & H'); [eauto|]. exists rs'. split; [done|].
        destruct H' as [?|[? ->]]; auto.
      * destruct (alookup a out) as [rs'|] eqn:E; [exists rs'; auto|]. exfalso.
        assert (Hnone : alookup a (push_actions r out (RBAC_ROLE_ACTIONS r)) = None).
        { clear -E. unfold push_actions. revert out E. induction (RBAC_ROLE_ACTIONS r) as [|b l IH];
            intros out E; [done|]. cbn [foldl]. apply IH. rewrite push_role_lookup, E. by case_decide. }
        congruence.
    + intros (rs & Hl & H).
      assert (Hsome : is_Some (alookup a (push_actions r out (RBAC_ROLE_ACTIONS r)))).
      { unfold push_actions. revert out Hl. generalize rs at 1 as rs1. clear H.
        induction (RBAC_ROLE_ACTIONS r) as [|b l IHl]; intros rs1 out Hl; [by eexists|]. cbn [foldl].
        destruct (decide (a = b)) as [->|Hne]; eapply IHl; rewrite push_role_lookup;
          [rewrite decide_True, Hl by done|rewrite decide_False by done]; simpl; eauto. }
      destruct Hsome as [rs' Hrs']. exists rs'. split; [done|].
      destruct H as [H|[[Ex|H1] H2]]; [|rewrite Ex in H2|by right]; left.
      all: destruct (proj2 (push_actions_elem r (RBAC_ROLE_ACTIONS r) out a x)) as (rs2 & ? & ?);
        [exists rs; split; [done|]; tauto|congruence].
Qed.

(** ** Properties *)

(** The inverted table is the policy: for every listed action the roles the
    middleware finds in [RBAC_ALLOWED_ROLES] are exactly those that
    [roleAllowsAction] accepts; every action a role has is listed, and the
    list has no duplicates. *)
Theorem allowed_roles_iff role action :
  (role ∈ RBAC_ALLOWED_ROLES action ↔ roleAllowsAction role action = true) ∧
  (roleAllowsAction role action = true → action ∈ ALL_RBAC_ACTIONS) ∧
  NoDup ALL_RBAC_ACTIONS.
Proof.
  assert (Hall : ∀ r a, roleAllowsAction r a = true → a ∈ ALL_RBAC_ACTIONS).
  { assert (H : ∀ r, Forall (λ a, a ∈ ALL_RBAC_ACTIONS) (RBAC_ROLE_ACTIONS r))
      by (intros []; apply (bool_decide_unpack _); vm_compute; exact I).
    intros r a Ha%bool_decide_eq_true. specialize (H r). rewrite Forall_forall in H. auto. }
  split; [|split; [apply Hall|apply (bool_decide_unpack _); vm_compute; exact I]].
  assert (Hin : role ∈ RBAC_ALLOWED_ROLES action ↔
    ∃ rs, alookup action invertRoleActions = Some rs ∧ role ∈ rs).
  { unfold RBAC_ALLOWED_ROLES. destruct (alookup action invertRoleActions); simpl; [naive_solver|].
    split; [by intros ?%not_elem_of_nil|naive_solver]. }
  rewrite Hin. unfold invertRoleActions. rewrite invert_elem. split.
  - intros (rs & Hl & [H|[_ H]]); [|by apply bool_decide_eq_true].
    apply alookup_elem, list_elem_of_fmap in Hl as (b & [= _ ->] & _). by apply not_elem_of_nil in H.
  - intros H. assert (Ha := Hall _ _ H). apply bool_decide_eq_true in H.
    assert (Hk : action ∈ (map (λ a, (a, @nil Role)) ALL_RBAC_ACTIONS).*1).
    { apply list_elem_of_fmap. exists (action, @nil Role). split; [done|].
      apply list_elem_of_fmap. by exists action. }
    apply alookup_is_Some in Hk as [rs Hrs]. exists rs. split; [exact Hrs|]. right.
    split; [apply elem_ROLES|done].
Qed.

Definition role_rank (role : Role) : nat :=
  match role with viewer => 0 | operator => 1 | reviewer => 2 | approver => 3 | admin => 4 end.

Lemma actions_subset r1 r2 : role_rank r1 ≤ role_rank r2 →
  Forall (λ a, a ∈ RBAC_ROLE_ACTIONS r2) (RBAC_ROLE_ACTIONS r1).
Proof.
  intros H. destruct r1, r2; simpl in H; try (exfalso; lia);
    apply (bool_decide_unpack _); vm_compute; exact I.
Qed.

Lemma rolesAllowAction_true roles action :
  rolesAllowAction roles action = true ↔ ∃ r, r ∈ roles ∧ action ∈ RBAC_ROLE_ACTIONS r.
Proof.
  unfold rolesAllowAction. rewrite existsb_exists. setoid_rewrite <- list_elem_of_In.
  unfold roleAllowsAction, string_in. by setoid_rewrite bool_decide_eq_true.
Qed.

(** Actions reserved to the administrator. *)
Definition admin_only : list string :=
  ["secret.resolve"; "credential.manage"; "principal.manage"; "rbac.grant"; "network_policy.edit";
   "gateway_policy.edit"; "scenario.promote"; "scenario_release.deploy"; "tenant_data.purge.approve"].

(** Privileges grow along viewer, operator, reviewer, approver, admin;
    resolving secrets, managing credentials and principals, granting roles,
    editing network and gateway policies, promoting and deploying scenarios
    and approving a purge need the admin role among the caller's roles, and
    resolving an approval task needs approver or admin. *)
Theorem role_hierarchy action roles :
  (∀ r1 r2, role_rank r1 ≤ role_rank r2 →
     roleAllowsAction r1 action = true → roleAllowsAction r2 action = true) ∧
  (action ∈ admin_only → rolesAllowAction roles action = bool_decide (admin ∈ roles)) ∧
  (action = "human_task.resolve.approval" →
   rolesAllowAction roles action = bool_decide (approver ∈ roles ∨ admin ∈ roles)).
Proof.
  assert (Honly : ∀ r, r ≠ admin → Forall (λ a, a ∉ RBAC_ROLE_ACTIONS r) admin_only)
    by (intros [] Hr; try done; apply (bool_decide_unpack _); vm_compute; exact I).
  assert (Hadmin : Forall (λ a, a ∈ RBAC_ROLE_ACTIONS admin) admin_only)
    by (apply (bool_decide_unpack _); vm_compute; exact I).
  assert (Happ : ∀ r, bool_decide ("human_task.resolve.approval" ∈ RBAC_ROLE_ACTIONS r) =
                      bool_decide (r = approver ∨ r = admin))
    by (intros []; vm_compute; reflexivity).
  split_and!.
  - intros r1 r2 Hr%actions_subset Ha%bool_decide_eq_true. rewrite Forall_forall in Hr.
    apply bool_decide_eq_true. auto.
  - intros Ha. rewrite Forall_forall in Hadmin. apply eq_bool_prop_intro.
    rewrite !Is_true_true, rolesAllowAction_true, bool_decide_eq_true. split; [|eauto].
    intros (r & Hr & Hin). destruct (decide (r = admin)) as [->|Hne]; [done|].
    specialize (Honly r Hne). rewrite Forall_forall in Honly. by destruct (Honly action).
  - intros ->. apply eq_bool_prop_intro.
    rewrite !Is_true_true, rolesAllowAction_true, bool_decide_eq_true.
    assert (Hiff : ∀ r, "human_task.resolve.approval" ∈ RBAC_ROLE_ACTIONS r ↔ r = approver ∨ r = admin).
    { intros r. specialize (Happ r). split; intros H.
      - apply (bool_decide_unpack _). rewrite <- Happ. by apply bool_decide_pack.
      - apply (bool_decide_unpack _). rewrite Happ. by apply bool_decide_pack. }
    split.
    + intros (r & Hr & [->| ->]%Hiff); auto.
    + intros [Hr|Hr]; eexists; (split; [exact Hr|]); apply Hiff; auto.
Qed.
