(* ===== verification/FlowControl.v ===== *)
(** * Flow control and node outputs of the interpreter

    Models [app/src/runtime/flow-control.ts]: the choice of an [on[]] branch
    from compiled conditions and the evaluation of a single condition.  The
    [Error]s thrown are values of [FlowError].

    [sort((a, b) => b.priority - a.priority)] is a stable insertion sort whose
    comparison is the sign of the difference: positive exactly when the left
    priority is smaller, and neither positive nor negative when one of them
    is NaN. *)

From stdpp Require Import base strings list gmap sorting.
From Stdlib Require Import ZArith SpecFloat.
From S2P Require Import Prelude JsValue IrelSyntax IrelEval.

Record CompiledOnBranch (T : Type) := mkBranch {
  br_when : IRELNode;
  br_target : T;
  br_priority : jsnum
}.
Arguments mkBranch {T} _ _ _.
Arguments br_when {T} _.
Arguments br_target {T} _.
Arguments br_priority {T} _.

Inductive FlowError :=
| NoBranchMatched (nodeId : string)
| DuplicatePriority (nodeId : string) (priority : jsnum)
| RuntimeMissing (e : RuntimeError).

#[export] Instance jsnum_inhabited : Inhabited jsnum := populate S754_nan.

Section Select.
Context {T : Type} (date_parse : string → option Z).
Implicit Types b : CompiledOnBranch T.

Fixpoint insert_branch b (l : list (CompiledOnBranch T)) : list (CompiledOnBranch T) :=
  match l with
  | [] => [b]
  | c :: l' => if num_ltb (br_priority b) (br_priority c) then c :: insert_branch b l' else b :: l
  end.

Definition sort_branches (l : list (CompiledOnBranch T)) : list (CompiledOnBranch T) :=
  foldr insert_branch [] l.

(** The first loop of [selectOnBranch]: equal neighbours. *)
Fixpoint adjacent_duplicate (ordered : list (CompiledOnBranch T)) : option jsnum :=
  match ordered with
  | b :: (c :: _) as rest =>
      if num_eqb (br_priority c) (br_priority b) then Some (br_priority c) else adjacent_duplicate rest
  | _ => None
  end.

(** Its second loop: the first branch whose condition holds. *)
Fixpoint first_true (nodeId : string) (scope : IRELScope) (ordered : list (CompiledOnBranch T))
  : result FlowError T :=
  match ordered with
  | [] => Err (NoBranchMatched nodeId)
  | b :: rest =>
      match evaluateIrelBooleanExpression date_parse (br_when b) scope with
      | Ok true => Ok (br_target b)
      | Ok false => first_true nodeId scope rest
      | Err e => Err (RuntimeMissing e)
      end
  end.

Definition selectOnBranch (nodeId : string) (branches : list (CompiledOnBranch T)) (scope : IRELScope)
  : result FlowError T :=
  let ordered := sort_branches branches in
  match adjacent_duplicate ordered with
  | Some p => Err (DuplicatePriority nodeId p)
  | None => first_true nodeId scope ordered
  end.

Definition evaluateCondition (condition : IRELNode) (scope : IRELScope) : result FlowError bool :=
  match evaluateIrelBooleanExpression date_parse condition scope with
  | Ok b => Ok b
  | Err e => Err (RuntimeMissing e)
  end.

(** ** The sort *)

(** Priorities that are numbers, and descending order. *)
Definition numeric b : Prop := br_priority b ≠ S754_nan.
Definition rank b : Z * Z * Z := num_rank (br_priority b).
Definition above b c : Prop := ¬ rank_lt (rank b) (rank c).

Lemma insert_branch_perm b l : insert_branch b l ≡ₚ b :: l.
Proof.
  induction l as [|c l IH]; simpl; [done|]. destruct (num_ltb _ _); [|done].
  rewrite IH. apply Permutation_swap.
Qed.

Lemma sort_branches_perm l : sort_branches l ≡ₚ l.
Proof. induction l as [|b l IH]; simpl; [done|]. by rewrite insert_branch_perm, IH. Qed.

Lemma insert_branch_sorted b l : numeric b → Forall numeric l →
  StronglySorted above l → StronglySorted above (insert_branch b l).
Proof.
  intros Hb Hl. induction 1 as [|c l Hs IH Hc]; simpl; [by repeat constructor|].
  apply Forall_cons in Hl as [Hnc Hl]. specialize (IH Hl).
  destruct (num_ltb _ _) eqn:E.
  - constructor; [done|]. rewrite insert_branch_perm. constructor; [|done].
    apply num_ltb_rank in E; [|done..]. unfold above. intros E'.
    by apply (rank_lt_irrefl (rank b)), (rank_lt_trans _ (rank c)).
  - assert (Hbc : above b c).
    { unfold above. intros E'. apply num_ltb_rank in E'; [|done..]. unfold rank in *. congruence. }
    constructor; [by constructor|]. constructor; [done|].
    eapply Forall_impl; [done|]. intros d Hcd E'. unfold above in *.
    destruct (rank_trichotomy (rank b) (rank c)) as [?|[Heq|?]]; [done|by rewrite Heq in *|].
    by apply Hcd, (rank_lt_trans _ (rank b)).
Qed.

Lemma sort_branches_sorted l : Forall numeric l → StronglySorted above (sort_branches l).
Proof.
  induction 1 as [|b l Hb Hl IH]; simpl; [constructor|].
  apply insert_branch_sorted; [done|by rewrite sort_branches_perm|done].
Qed.

(** No two branches, at different positions, share a priority. *)
Definition distinct_priorities (l : list (CompiledOnBranch T)) : Prop := NoDup (map rank l).

Lemma adjacent_duplicate_None l : Forall numeric l → StronglySorted above l →
  adjacent_duplicate l = None ↔ distinct_priorities l.
Proof.
  unfold distinct_priorities. induction l as [|b [|c l] IH]; intros Hn Hs.
  - split; [constructor|done].
  - split; [intros _; apply NoDup_singleton|done].
  - apply Forall_cons in Hn as [Hb Hn]. apply StronglySorted_inv in Hs as [Hs Hbl].
    specialize (IH Hn Hs). cbn [adjacent_duplicate].
    apply Forall_cons in Hn as [Hc Hn]. destruct (num_eqb _ _) eqn:E.
    + apply num_eqb_rank in E; [|done..]. split; [done|]. intros Hd.
      apply NoDup_cons in Hd as [Hd _]. exfalso. apply Hd, elem_of_cons. left. symmetry. exact E.
    + rewrite IH. change (map rank (b :: c :: l)) with (rank b :: map rank (c :: l)). rewrite NoDup_cons. split; [|by intros [_ ?]]. intros Hd. split; [|done].
      intros Hin. apply list_elem_of_In, in_map_iff in Hin as (d & Hd' & Hin%list_elem_of_In).
      assert (Hne : rank b ≠ rank c).
      { intros Heq. rewrite (proj2 (num_eqb_rank _ _ Hc Hb)) in E by (symmetry; exact Heq). done. }
      assert (Hcd : above c d ∨ d = c).
      { apply elem_of_cons in Hin as [->|Hin]; [by right|left].
        apply StronglySorted_inv in Hs as [_ Hs]. by eapply Forall_forall in Hs. }
      destruct Hcd as [Hcd| ->]; [|by rewrite Hd' in Hne].
      unfold above in Hcd. rewrite Hd' in Hcd.
      apply Forall_cons in Hbl as [Hbc _]. unfold above in Hbc.
      destruct (rank_trichotomy (rank b) (rank c)) as [?|[?|?]]; done.
Qed.

(** A strictly descending order is unique. *)
Lemma sorted_branches_unique l l' : distinct_priorities l →
  StronglySorted above l → StronglySorted above l' → l ≡ₚ l' → l = l'.
Proof.
  unfold distinct_priorities. revert l'. induction l as [|b l IH]; intros l' Hd Hs Hs' Hp.
  { by apply Permutation_nil_l in Hp. }
  destruct l' as [|c l']; [by apply Permutation_nil_r in Hp|].
  assert (Hbc : b = c).
  { apply StronglySorted_inv in Hs as [_ Hb]. apply StronglySorted_inv in Hs' as [_ Hc].
    assert (Hb' : b ∈ c :: l') by (rewrite <-Hp; by left).
    assert (Hc' : c ∈ b :: l) by (rewrite Hp; by left).
    apply elem_of_cons in Hb' as [?|Hb']; [done|]. apply elem_of_cons in Hc' as [?|Hc']; [done|].
    rewrite Forall_forall in Hb, Hc. specialize (Hb c Hc'). specialize (Hc b Hb'). unfold above in *.
    destruct (rank_trichotomy (rank b) (rank c)) as [?|[Heq|?]]; [done| |done].
    apply NoDup_cons in Hd as [Hd _]. destruct Hd. rewrite Heq.
    apply list_elem_of_In, in_map, list_elem_of_In, Hc'. }
  subst c. f_equal. apply Permutation_cons_inv in Hp.
  apply StronglySorted_inv in Hs as [Hs _]. apply StronglySorted_inv in Hs' as [Hs' _].
  apply NoDup_cons in Hd as [_ Hd]. by apply IH.
Qed.

Lemma first_true_spec nodeId scope l : StronglySorted above l →
  let holds b := evaluateIrelBooleanExpression date_parse (br_when b) scope in
  match first_true nodeId scope l with
  | Ok t => ∃ b, b ∈ l ∧ br_target b = t ∧ holds b = Ok true ∧
      ∀ c, c ∈ l → rank_lt (rank b) (rank c) → holds c = Ok false
  | Err (NoBranchMatched n) => n = nodeId ∧ ∀ c, c ∈ l → holds c = Ok false
  | Err (RuntimeMissing e) => ∃ b, b ∈ l ∧ holds b = Err e ∧
      ∀ c, c ∈ l → rank_lt (rank b) (rank c) → holds c = Ok false
  | Err (DuplicatePriority _ _) => False
  end.
Proof.
  intros Hs holds. induction Hs as [|b l Hs IH Hb]; simpl.
  { split; [done|]. intros c Hc. by apply not_elem_of_nil in Hc. }
  assert (Htop : ∀ c, c ∈ b :: l → rank_lt (rank b) (rank c) → holds c = Ok false).
  { intros c [->|Hc]%elem_of_cons Hlt; [by apply rank_lt_irrefl in Hlt|].
    by destruct (proj1 (Forall_forall _ _) Hb c Hc). }
  destruct (evaluateIrelBooleanExpression _ _ _) as [[]|e] eqn:E.
  - exists b. split_and!; [by left|done|done|exact Htop].
  - destruct (first_true _ _ _) as [t|[n|n p|e]].
    + destruct IH as (c & Hc & Ht & Hh & Hall). exists c. split_and!; [by right|done|done|].
      intros d [->|Hd]%elem_of_cons Hlt; [done|by apply Hall].
    + destruct IH as [-> Hall]. split; [done|]. intros c [->|Hc]%elem_of_cons; [done|by apply Hall].
    + done.
    + destruct IH as (c & Hc & He & Hall). exists c. split_and!; [by right|done|].
      intros d [->|Hd]%elem_of_cons Hlt; [done|by apply Hall].
  - exists b. split_and!; [by left|done|exact Htop].
Qed.

(** The result of the selection, by the order of priorities alone. *)
Lemma selectOnBranch_ok nodeId branches scope :
  Forall numeric branches → distinct_priorities branches →
  selectOnBranch nodeId branches scope = first_true nodeId scope (sort_branches branches) ∧
  StronglySorted above (sort_branches branches).
Proof.
  intros Hn Hd. assert (Hs := sort_branches_sorted _ Hn). split; [|done]. unfold selectOnBranch.
  rewrite (proj2 (adjacent_duplicate_None (sort_branches branches) ltac:(by rewrite sort_branches_perm) Hs));
    [done|]. unfold distinct_priorities. by rewrite sort_branches_perm.
Qed.

Lemma selectOnBranch_duplicate nodeId branches scope :
  Forall numeric branches → ¬ distinct_priorities branches →
  ∃ p, selectOnBranch nodeId branches scope = Err (DuplicatePriority nodeId p).
Proof.
  intros Hn Hd. assert (Hs := sort_branches_sorted _ Hn). unfold selectOnBranch.
  destruct (adjacent_duplicate _) as [p|] eqn:E; [by eauto|]. exfalso. apply Hd.
  apply adjacent_duplicate_None in E; [|by rewrite sort_branches_perm|done].
  unfold distinct_priorities in *. by rewrite sort_branches_perm in E.
Qed.
End Select.

(** ** Properties *)

(** Branch selection chooses by priority alone.  When the priorities are
    numbers and pairwise different, [selectOnBranch] returns the target of the
    branch of the highest priority whose condition is true, provided every
    branch above it evaluates to false; it throws [IR_NO_BRANCH_MATCHED]
    exactly when every condition is false; a condition that cannot be
    evaluated is thrown when every branch above it is false, never taken for
    false.  When two priorities are equal it throws without evaluating any
    condition. *)
Theorem selectOnBranch_spec {T} date_parse nodeId (branches : list (CompiledOnBranch T)) scope :
  Forall numeric branches →
  let holds b := evaluateIrelBooleanExpression date_parse (br_when b) scope in
  let higher_false b := ∀ c, c ∈ branches →
    num_ltb (br_priority b) (br_priority c) = true → holds c = Ok false in
  (distinct_priorities branches →
   match selectOnBranch date_parse nodeId branches scope with
   | Ok t => ∃ b, b ∈ branches ∧ br_target b = t ∧ holds b = Ok true ∧ higher_false b
   | Err (NoBranchMatched n) => n = nodeId ∧ ∀ c, c ∈ branches → holds c = Ok false
   | Err (RuntimeMissing e) => ∃ b, b ∈ branches ∧ holds b = Err e ∧ higher_false b
   | Err (DuplicatePriority _ _) => False
   end) ∧
  (¬ distinct_priorities branches →
   ∃ p, selectOnBranch date_parse nodeId branches scope = Err (DuplicatePriority nodeId p)).
Proof.
  intros Hn holds higher_false. split; [|by apply selectOnBranch_duplicate]. intros Hd.
  destruct (selectOnBranch_ok date_parse nodeId branches scope Hn Hd) as [-> Hs].
  pose proof (first_true_spec date_parse nodeId scope _ Hs) as H. simpl in H.
  assert (Hhf : ∀ b, b ∈ branches →
    (∀ c, c ∈ sort_branches branches → rank_lt (rank b) (rank c) → holds c = Ok false) → higher_false b).
  { intros b Hb Hall c Hc Hlt. apply Hall; [by rewrite sort_branches_perm|].
    rewrite Forall_forall in Hn. apply num_ltb_rank in Hlt; auto; by apply Hn. }
  destruct (first_true _ _ _ _) as [t|[n|n p|e]].
  - destruct H as (b & Hb & ? & ? & ?). rewrite sort_branches_perm in Hb. exists b. auto.
  - destruct H as [-> H]. split; [done|]. intros c Hc. apply H. by rewrite sort_branches_perm.
  - done.
  - destruct H as (b & Hb & ? & ?). rewrite sort_branches_perm in Hb. exists b. auto.
Qed.

Definition two_branches : list (CompiledOnBranch string) :=
  [mkBranch (NLiteral t_boolean (VBool true) false) "low" (num_of_Z 1);
   mkBranch (NVariable ["flags"; "blocked"] false) "high" (num_of_Z 2)].

Lemma two_branches_numeric : Forall numeric two_branches ∧ distinct_priorities two_branches.
Proof.
  split; [repeat constructor; done|]. unfold distinct_priorities.
  apply (bool_decide_eq_true_1 (NoDup (map rank two_branches))). vm_compute. reflexivity.
Qed.

Lemma selectOnBranch_spec_witness :
  let scope := mkScope None None None (Some [("blocked", JBool true)]) None in
  selectOnBranch (λ _, None) "n" two_branches scope = Ok "high" ∧
  ∃ b, b ∈ two_branches ∧ br_target b = "high" ∧
       evaluateIrelBooleanExpression (λ _, None) (br_when b) scope = Ok true.
Proof.
  intros scope. assert (E : selectOnBranch (λ _, None) "n" two_branches scope = Ok "high") by (vm_compute; reflexivity).
  split; [exact E|].
  pose proof (proj1 (selectOnBranch_spec (λ _, None) "n" two_branches scope (proj1 two_branches_numeric))
    (proj2 two_branches_numeric)) as H.
  rewrite E in H. destruct H as (b & Hb & Ht & Hh & _). eauto.
Defined.

(** The order in which a scenario lists the branches of a node does not
    matter: any permutation of branches with distinct numeric priorities
    selects the same target or throws the same error. *)
Theorem selectOnBranch_order_irrelevant {T} date_parse nodeId (l l' : list (CompiledOnBranch T)) scope :
  Forall numeric l → distinct_priorities l → l ≡ₚ l' →
  selectOnBranch date_parse nodeId l scope = selectOnBranch date_parse nodeId l' scope.
Proof.
  intros Hn Hd Hp.
  assert (Hn' : Forall numeric l') by (by rewrite <-Hp).
  assert (Hd' : distinct_priorities l') by (unfold distinct_priorities in *; by rewrite <-Hp).
  destruct (selectOnBranch_ok date_parse nodeId l scope Hn Hd) as [-> Hs].
  destruct (selectOnBranch_ok date_parse nodeId l' scope Hn' Hd') as [-> Hs'].
  f_equal. apply sorted_branches_unique; [|done|done|by rewrite !sort_branches_perm].
  unfold distinct_priorities. by rewrite sort_branches_perm.
Qed.

Lemma selectOnBranch_order_irrelevant_witness :
  let scope := mkScope None None None (Some [("blocked", JBool true)]) None in
  selectOnBranch (λ _, None) "n" two_branches scope =
  selectOnBranch (λ _, None) "n" (reverse two_branches) scope.
Proof.
  intros scope. apply selectOnBranch_order_irrelevant.
  - apply two_branches_numeric.
  - apply two_branches_numeric.
  - symmetry. apply reverse_Permutation.
Defined.

(** ** Step results and node outputs

    Models the data of [ts/core-types.ts] the interpreter reads, the projection
    of step results into the IREL scope, the mapping between step statuses and
    terminals and the resolution of [value_from_node] of
    [app/src/runtime/ir-interpreter-node-output.ts].

    An exception is a value of [Thrown], one constructor per [throw] site, and
    [thrown_code] is its error code; the text of its message is not modelled. *)

Abbreviation fields := (list (string * json)).

(** ** Core types *)

Inductive StepStatus :=
| success | failed_business | failed_system | failed_challenge
| failed_security | uncertain | skipped | suspended.

#[export] Instance StepStatus_eq_dec : EqDecision StepStatus.
Proof. solve_decision. Defined.

Definition status_str (s : StepStatus) : string :=
  match s with
  | success => "success" | failed_business => "failed_business"
  | failed_system => "failed_system" | failed_challenge => "failed_challenge"
  | failed_security => "failed_security" | uncertain => "uncertain"
  | skipped => "skipped" | suspended => "suspended"
  end.

Inductive ExceptionClass := class_business | class_system | class_challenge | class_security.

Record ClassifiedException := mkException { ex_class : ExceptionClass; ex_code : string }.

Record SideEffect := mkSideEffect { se_kind : string; se_committed : bool }.

Record HttpResponseSnapshot := mkHttp {
  http_status : jsnum;
  http_ok : bool;
  http_contentType : string;
  http_finalUrl : string;
  http_redirected : bool;
  http_redirectLocation : option string;
  http_body : option json;
  http_bodyTruncated : bool
}.

Record StepResult := mkStepResult {
  sr_action : string;
  sr_status : StepStatus;
  sr_output : option json;
  sr_extracted : option json;
  sr_pageStateAfter : string;
  sr_artifacts : list string;
  sr_sideEffect : option SideEffect;
  sr_exception : option ClassifiedException;
  sr_challenge : option string
}.

(** ** Errors *)

Inductive Thrown :=
| LoopLimit
| UnknownNode (nodeId : string)
| ValueFromNodeShape
| ValueFromNodeUnresolved (node key : string)
| ChallengeKindUnsupported (stepId : string) (detected : option string)
| StatusUnsupported (stepId : string) (status : StepStatus)
| HandlerUnsupported (handler nodeId : string)
| HumanTaskInvalid (nodeId field : string)
| SessionRegistrationRequired (nodeId : string)
| FlowThrown (e : FlowError)
| JsTypeError
| HostThrown (message : string)
| OutOfFuel.

(** The [code] property of the thrown error, where it has one. *)
Definition thrown_code (e : Thrown) : option string :=
  match e with
  | LoopLimit => Some "IR_LOOP_LIMIT"
  | UnknownNode _ | ValueFromNodeShape | ValueFromNodeUnresolved _ _ | HumanTaskInvalid _ _ =>
      Some "IR_SCHEMA_INVALID"
  | ChallengeKindUnsupported _ _ | StatusUnsupported _ _ => Some "EXECUTOR_STATUS_UNSUPPORTED"
  | HandlerUnsupported _ _ => Some "RESERVED_HANDLER_UNSUPPORTED"
  | SessionRegistrationRequired _ => Some "SESSION_REGISTRATION_REQUIRED"
  | FlowThrown (NoBranchMatched _) => Some "IR_NO_BRANCH_MATCHED"
  | FlowThrown (RuntimeMissing _) => Some "IREL_RUNTIME_MISSING"
  | FlowThrown (DuplicatePriority _ _) | JsTypeError | HostThrown _ | OutOfFuel => None
  end.

(** ** Node outputs *)

Record NodeOutput := mkNodeOutput {
  no_status : option StepStatus;
  no_row_count : option jsnum;
  no_extracted_ref : option string;
  no_http_status : option jsnum;
  no_http_ok : option bool;
  no_http_body : option json;
  no_tier : option string;
  no_decision : option string;
  no_correction : option fields
}.

Definition status_output (s : StepStatus) : NodeOutput :=
  mkNodeOutput (Some s) None None None None None None None None.

(** [{ ...out, tier }]. *)
Definition with_tier (tier : option string) (out : NodeOutput) : NodeOutput :=
  match tier with
  | None => out
  | Some t => mkNodeOutput (no_status out) (no_row_count out) (no_extracted_ref out)
                (no_http_status out) (no_http_ok out) (no_http_body out) (Some t)
                (no_decision out) (no_correction out)
  end.

(** The record the IREL scope sees: only the present fields. *)
Definition node_json (o : NodeOutput) : json :=
  let field {A} (k : string) (f : A → json) (v : option A) : fields :=
    match v with Some a => [(k, f a)] | None => [] end in
  JObj (field "status" (λ s, JStr (status_str s)) (no_status o) ++
        field "row_count" JNum (no_row_count o) ++
        field "extracted_ref" JStr (no_extracted_ref o) ++
        field "http_status" JNum (no_http_status o) ++
        field "http_ok" JBool (no_http_ok o) ++
        field "http_body" id (no_http_body o) ++
        field "tier" JStr (no_tier o) ++
        field "decision" JStr (no_decision o) ++
        field "correction" JObj (no_correction o)).

Definition as_bool (v : option json) : option bool :=
  match v with Some (JBool b) => Some b | _ => None end.

Definition httpResponseFromStep (res : StepResult) : option HttpResponseSnapshot :=
  if decide (sr_action res ≠ "api_call") then None else
  let out k := prop k (sr_output res) in
  status ← as_number (out "status");
  ok ← as_bool (out "ok");
  contentType ← as_string (out "contentType");
  finalUrl ← as_string (out "finalUrl");
  bodyTruncated ← as_bool (out "bodyTruncated");
  Some (mkHttp status ok contentType finalUrl (truthy (as_bool (out "redirected")))
          (as_string (out "redirectLocation")) (out "body") bodyTruncated).

Definition projectNodeOutput (res : StepResult) : NodeOutput :=
  if decide (sr_action res = "api_call") then
    match httpResponseFromStep res with
    | Some http => mkNodeOutput (Some (sr_status res)) None None (Some (http_status http))
                     (Some (http_ok http)) (http_body http) None None None
    | None => status_output (sr_status res)
    end
  else if decide (sr_action res ≠ "extract") then status_output (sr_status res)
  else mkNodeOutput (Some (sr_status res)) (as_number (prop "rowCount" (sr_output res)))
         (head (sr_artifacts res)) None None None None None None.

(** ** Statuses and terminals *)

Definition failureTerminal (status : StepStatus) : option string :=
  match status with
  | failed_business => Some "fail_business"
  | failed_security => Some "fail_security"
  | failed_system => Some "fail_system"
  | _ => None
  end.

Definition terminalToStatus (terminal : string) : StepStatus :=
  if decide (terminal = "fail_business") then failed_business
  else if decide (terminal = "fail_security") then failed_security
  else if decide (terminal = "fail_system") then failed_system
  else success.

Definition FAILURE_TERMINALS : list string := ["fail_business"; "fail_system"; "fail_security"].
Definition isFailureTerminal (terminal : string) : bool := string_in terminal FAILURE_TERMINALS.

(** ** [act.value_from_node] *)

Definition resolveActionValueFromNode (action : json) (nodeScope : list (string * NodeOutput))
  : result Thrown json :=
  match action with
  | JObj a =>
      if decide (as_string (alookup "type" a) ≠ Some "act") then Ok action else
      match alookup "valueFromNode" a with
      | None => Ok action
      | Some JNull => Err JsTypeError
      | Some vfn =>
          match as_string (prop "node" (Some vfn)), as_string (prop "key" (Some vfn)) with
          | Some node, Some key =>
              match as_string (owner ← alookup node nodeScope;
                               correction ← no_correction owner; alookup key correction) with
              | Some v => Ok (JObj (aset "value" (JStr v) a))
              | None => Err (ValueFromNodeUnresolved node key)
              end
          | _, _ => Err ValueFromNodeShape
          end
      end
  | _ => Ok action
  end.

(** ** Facts *)

Lemma failureTerminal_status s t : failureTerminal s = Some t → terminalToStatus t = s ∧ isFailureTerminal t = true.
Proof. destruct s; simpl; intros [= <-]; by vm_compute. Qed.

Lemma failureTerminal_security s t : failureTerminal s = Some t → t = "fail_security" ↔ s = failed_security.
Proof. destruct s; simpl; intros [= <-]; naive_solver. Qed.
