(* ===== verification/JsText.v ===== *)
(** * Text operations of JavaScript

    The [String.prototype] methods the runtime modules use, on strings of
    8-bit code units: white space, [trim], [split], case folding (of ASCII
    letters) and the regular expression [/^\d+$/]; and the text of a number
    and of a JSON value. *)

From stdpp Require Import base strings list pretty.
From Stdlib Require Import Ascii ZArith SpecFloat.
From S2P Require Import Prelude JsValue IrelLexer.

(** [\s]: tab, line feed, vertical tab, form feed, carriage return, space and
    no-break space. *)
Definition is_space (c : ascii) : bool := in_range 9 13 c || in_range 32 32 c || in_range 160 160 c.

Definition trim_start (s : string) : string := drop_while is_space s.
Fixpoint trim_end (s : string) : string :=
  match s with
  | EmptyString => EmptyString
  | String c s' =>
      match trim_end s' with
      | EmptyString => if is_space c then EmptyString else String c EmptyString
      | t => String c t
      end
  end.
Definition trim (s : string) : string := trim_end (trim_start s).

(** [s.trim().length === 0]. *)
Definition blank (s : string) : bool := bool_decide (trim s = EmptyString).

(** [s.split(sep)] for a one-character separator: never empty. *)
Fixpoint split_on (sep : ascii) (s : string) : list string :=
  match s with
  | EmptyString => [EmptyString]
  | String c s' =>
      if Ascii.eqb c sep then EmptyString :: split_on sep s'
      else match split_on sep s' with
           | w :: ws => String c w :: ws
           | [] => [String c EmptyString]
           end
  end.

(** [s.split(/\s+/)]: a maximal run of white space is one separator. *)
Fixpoint split_spaces_aux (in_run : bool) (s : string) : list string :=
  match s with
  | EmptyString => [EmptyString]
  | String c s' =>
      if is_space c then
        if in_run then split_spaces_aux true s' else EmptyString :: split_spaces_aux true s'
      else match split_spaces_aux false s' with
           | w :: ws => String c w :: ws
           | [] => [String c EmptyString]
           end
  end.
Definition split_spaces (s : string) : list string := split_spaces_aux false s.

Definition lower_char (c : ascii) : ascii := if is_upper_char c then ascii_of_nat (code c + 32) else c.
Definition upper_char (c : ascii) : ascii := if is_lower_char c then ascii_of_nat (code c - 32) else c.
Fixpoint map_string (f : ascii → ascii) (s : string) : string :=
  match s with EmptyString => EmptyString | String c s' => String (f c) (map_string f s') end.
Definition toLowerCase (s : string) : string := map_string lower_char s.
Definition toUpperCase (s : string) : string := map_string upper_char s.

Fixpoint string_forall (p : ascii → bool) (s : string) : bool :=
  match s with EmptyString => true | String c s' => p c && string_forall p s' end.

(** [/^\d+$/.test(s)]. *)
Definition all_digits (s : string) : bool :=
  negb (bool_decide (s = EmptyString)) && string_forall is_digit_char s.

Fixpoint drop_chars (n : nat) (s : string) : string :=
  match n, s with S n', String _ s' => drop_chars n' s' | _, _ => s end.

Definition is_word_char (c : ascii) : bool := is_digit_char c || is_lower_char c || is_upper_char c || Ascii.eqb c "_".

(** Some suffix of the text that starts a word satisfies the test. *)
Fixpoint at_word (test : string → bool) (after_word : bool) (s : string) : bool :=
  match s with
  | EmptyString => false
  | String c s' => negb after_word && test s || at_word test (is_word_char c) s'
  end.
Fixpoint anywhere (test : string → bool) (s : string) : bool :=
  match s with EmptyString => false | String _ s' => test s || anywhere test s' end.

(** [Number.MAX_SAFE_INTEGER]. *)
Definition MAX_SAFE_INTEGER : Z := 9007199254740991.

Example trim_ex : trim "  a b  " = "a b". Proof. reflexivity. Qed.
Example split_on_ex : split_on "," "1,,2" = ["1"; ""; "2"]. Proof. reflexivity. Qed.
Example split_spaces_ex : split_spaces "0 */5   * * 1" = ["0"; "*/5"; "*"; "*"; "1"].
Proof. reflexivity. Qed.

Lemma split_on_nonempty sep s : split_on sep s ≠ [].
Proof. destruct s as [|c s]; simpl; [done|]. destruct (Ascii.eqb c sep); [done|]. by destruct (split_on sep s). Qed.

Lemma digits_value_nonneg s : ∀ acc, (0 <= acc)%Z → string_forall is_digit_char s = true →
  (0 <= digits_value acc s)%Z.
Proof.
  induction s as [|c s IH]; intros acc Ha H; cbn [digits_value]; [done|].
  cbn [string_forall] in H. apply andb_true_iff in H as [Hc H]. apply IH; [|done].
  unfold is_digit_char, in_range in Hc. apply andb_true_iff in Hc as [Hc _]. apply Nat.leb_le in Hc. lia.
Qed.

(** ** Decimal texts of numbers *)

Lemma digits_value_pretty_go x : ∀ s, digits_value 0 (pretty_N_go x s) = digits_value (Z.of_N x) s.
Proof.
  induction (N.lt_wf_0 x) as [x _ IH]. intros s.
  destruct (decide (0 < x)%N) as [Hx|Hx].
  - rewrite pretty_N_go_step by done. rewrite IH by (apply N.div_lt; lia). cbn [digits_value].
    f_equal. assert (Hm := N.mod_lt x 10 ltac:(done)). assert (Hd := N.div_mod x 10 ltac:(done)).
    set (r := (x `mod` 10)%N) in *. replace (Z.of_nat (code (pretty_N_char r))) with (Z.of_N r + 48)%Z; [lia|].
    destruct r as [|r]; [done|]. do 4 (try destruct r as [r|r|]); try done; lia.
  - assert (x = 0%N) as -> by lia. by rewrite pretty_N_go_0.
Qed.

Lemma digits_value_pretty (n : N) : digits_value 0 (pretty n) = Z.of_N n.
Proof.
  unfold pretty, pretty_N. case_decide as E; [by subst|]. by rewrite digits_value_pretty_go.
Qed.

Lemma pretty_go_digits x : ∀ s, string_forall is_digit_char s = true →
  string_forall is_digit_char (pretty_N_go x s) = true.
Proof.
  induction (N.lt_wf_0 x) as [x _ IH]. intros s Hs.
  destruct (decide (0 < x)%N) as [Hx|Hx].
  - rewrite pretty_N_go_step by done. apply IH; [apply N.div_lt; lia|]. cbn [string_forall].
    rewrite Hs, andb_true_r. unfold pretty_N_char. by repeat case_match.
  - assert (x = 0%N) as -> by lia. by rewrite pretty_N_go_0.
Qed.

Lemma pretty_digits (n : N) : string_forall is_digit_char (pretty n) = true.
Proof. unfold pretty, pretty_N. case_decide; [done|]. by apply pretty_go_digits. Qed.

Lemma pretty_nonempty (n : N) : pretty n ≠ EmptyString.
Proof.
  intros H. assert (Hn := digits_value_pretty n). rewrite H in Hn. simpl in Hn. assert (n = 0%N) as -> by lia. done.
Qed.

Lemma digits_prefix (w rest : string) : string_forall is_digit_char w = true →
  take_while is_digit_char (w +:+ rest) = w +:+ take_while is_digit_char rest ∧
  drop_while is_digit_char (w +:+ rest) = drop_while is_digit_char rest.
Proof.
  induction w as [|c w IH]; [done|]. cbn [string_forall]. intros [Hc Hw]%andb_true_iff.
  destruct (IH Hw) as [IH1 IH2]. change (String c w +:+ rest) with (String c (w +:+ rest)).
  cbn [take_while drop_while]. by rewrite Hc, IH1, IH2.
Qed.

Lemma take_while_pretty (n : N) rest :
  take_while is_digit_char (pretty n +:+ rest) = pretty n +:+ take_while is_digit_char rest.
Proof. apply digits_prefix, pretty_digits. Qed.

Lemma drop_while_pretty (n : N) rest :
  drop_while is_digit_char (pretty n +:+ rest) = drop_while is_digit_char rest.
Proof. apply digits_prefix, pretty_digits. Qed.

Lemma app_empty_r (s : string) : s +:+ EmptyString = s.
Proof. induction s as [|c s IH]; [done|]. change (String c (s +:+ EmptyString) = String c s). by rewrite IH. Qed.

Lemma digit_not_space c : is_digit_char c = true → is_space c = false.
Proof.
  unfold is_digit_char, is_space, in_range. rewrite !andb_true_iff, !Nat.leb_le. intros [??].
  rewrite !orb_false_iff, !andb_false_iff, !Nat.leb_gt. lia.
Qed.

Lemma trim_start_pretty (n : N) rest : trim_start (pretty n +:+ rest) = pretty n +:+ rest.
Proof.
  assert (H := pretty_digits n). assert (H' := pretty_nonempty n). destruct (pretty n) as [|c s]; [done|].
  cbn [string_forall] in H. apply andb_true_iff in H as [Hc _].
  change (drop_while is_space (String c (s +:+ rest)) = String c (s +:+ rest)). cbn [drop_while].
  by rewrite digit_not_space.
Qed.

(** ** The text of a number

    [Number::toString] of ECMAScript (the shortest decimal digits that read back
    as the number, in positional or exponent notation) and [JSON.stringify]
    without indentation, as used by the result merging of
    [app/src/runtime/extract-result-merge.ts]. *)

(** ** Numbers *)

Fixpoint repeat_char (c : ascii) (n : nat) : string :=
  match n with O => EmptyString | S n' => String c (repeat_char c n') end.

Definition dec (z : Z) : string := pretty z.

(** The least [k] from [k] on with [num * 10^k >= den]. *)
Fixpoint leading_zeros (fuel : nat) (k : Z) (num den : Z) : Z :=
  match fuel with
  | O => k
  | S fuel' => if (den <=? num * 10 ^ k)%Z then k else leading_zeros fuel' (k + 1) num den
  end.

(** [n] with [10^(n-1) <= num/den < 10^n]. *)
Definition decimal_exponent (num den : Z) : Z :=
  if (den <=? num)%Z then Z.of_nat (String.length (dec (num / den)))
  else 1 - leading_zeros 330 1 num den.

(** The [k]-digit integer nearest to [(num/den) * 10^(k-n)]. *)
Definition nearest (num den n k : Z) : Z :=
  let '(a, b) := if (n <=? k)%Z then (num * 10 ^ (k - n), den)%Z else (num, den * 10 ^ (n - k))%Z in
  ((2 * a + b) / (2 * b))%Z.

Definition reads_back (x : jsnum) (s n k : Z) : bool :=
  num_eqb (if (k <=? n)%Z then num_quotient (s * 10 ^ (n - k)) 1 else num_quotient s (10 ^ (k - n))) x.

Fixpoint shortest (fuel : nat) (x : jsnum) (num den n k : Z) : Z * Z * Z :=
  let s := nearest num den n k in
  match fuel with
  | O => (s, n, k)
  | S fuel' => if reads_back x s n k then (s, n, k) else shortest fuel' x num den n (k + 1)
  end.

Definition format_decimal (s n k : Z) : string :=
  let ds := dec s in
  if (k <=? n)%Z && (n <=? 21)%Z then ds +:+ repeat_char "0" (Z.to_nat (n - k))
  else if (0 <? n)%Z && (n <=? 21)%Z then
    String.substring 0 (Z.to_nat n) ds +:+ "." +:+ String.substring (Z.to_nat n) (String.length ds) ds
  else if (-6 <? n)%Z && (n <=? 0)%Z then "0." +:+ repeat_char "0" (Z.to_nat (- n)) +:+ ds
  else
    let e := (if (0 <=? n - 1)%Z then "e+" else "e-") +:+ dec (Z.abs (n - 1)) in
    if (k =? 1)%Z then ds +:+ e
    else String.substring 0 1 ds +:+ "." +:+ String.substring 1 (String.length ds) ds +:+ e.

Definition positive_text (m : positive) (e : Z) : string :=
  let '(num, den) := if (0 <=? e)%Z then (Zpos m * 2 ^ e, 1)%Z else (Zpos m, 2 ^ (- e))%Z in
  let '(s, n, k) := shortest 16 (S754_finite false m e) num den (decimal_exponent num den) 1 in
  if (s =? 10 ^ k)%Z then format_decimal (10 ^ (k - 1)) (n + 1) k else format_decimal s n k.

(** [String(x)]. *)
Definition num_to_string (x : jsnum) : string :=
  match x with
  | S754_nan => "NaN"
  | S754_zero _ => "0"
  | S754_infinity s => if s then "-Infinity" else "Infinity"
  | S754_finite s m e => (if s then "-" else EmptyString) +:+ positive_text m e
  end.

Example num_to_string_ex :
  num_to_string (num_of_decimal "0.1") = "0.1" ∧ num_to_string (num_of_decimal "123.456") = "123.456" ∧
  num_to_string (num_of_Z 100) = "100" ∧ num_to_string (num_of_Z (10 ^ 21)) = "1e+21" ∧
  num_to_string (num_of_Z (-42)) = "-42" ∧ num_to_string (S754_finite false 1 (-1074)) = "5e-324" ∧
  num_to_string (S754_finite false 9007199254740991 971) = "1.7976931348623157e+308" ∧
  num_to_string (num_of_decimal "0.000001") = "0.000001" ∧ num_to_string (num_of_decimal "0.00000015") = "1.5e-7".
Proof. by vm_compute. Qed.

(** ** JSON text *)

Definition hex_char (n : nat) : ascii := ascii_of_nat (if n <? 10 then 48 + n else 87 + n).

Definition quote_char (c : ascii) : string :=
  let n := code c in
  if n =? 34 then "\" +:+ String c EmptyString
  else if n =? 92 then "\\"
  else if n =? 8 then "\b" else if n =? 12 then "\f" else if n =? 10 then "\n"
  else if n =? 13 then "\r" else if n =? 9 then "\t"
  else if n <? 32 then "\u00" +:+ String (hex_char (n / 16)) (String (hex_char (n mod 16)) EmptyString)
  else String c EmptyString.

Fixpoint quote_body (s : string) : string :=
  match s with EmptyString => EmptyString | String c s' => quote_char c +:+ quote_body s' end.

Definition quote (s : string) : string :=
  String "034" EmptyString +:+ quote_body s +:+ String "034" EmptyString.

Fixpoint json_text (v : json) : string :=
  match v with
  | JNull => "null"
  | JBool b => if b then "true" else "false"
  | JNum x => if num_is_finite x then num_to_string x else "null"
  | JStr s => quote s
  | JArr l => "[" +:+ join "," (map json_text l) +:+ "]"
  | JObj fields => "{" +:+ join "," (map (λ '(k, w), quote k +:+ ":" +:+ json_text w) fields) +:+ "}"
  end.

Example json_text_ex :
  json_text (JObj [("a", JArr [JNum (num_of_Z 1); JNull]); ("b", JStr "x")]) =
  "{" +:+ quote "a" +:+ ":[1,null]," +:+ quote "b" +:+ ":" +:+ quote "x" +:+ "}".
Proof. by vm_compute. Qed.
