(* ===== verification/HumanTask.v ===== *)
(** * Human tasks: timeouts, inputs and resolved outputs

    Models [app/src/runtime/human-task-timeout-policy.ts], the parsing of the
    [@human_task] input of [ir-interpreter-human-task.ts] and the projection of
    resolved tasks into the IREL scope of [human-task-resume-scope.ts].

    Durations are integers.  [Number(digits)] and [amount * factor] are exact
    below 2^53 and at least 2^53 otherwise, so the [Number.isSafeInteger]
    guards accept exactly the integers up to [MAX_SAFE_INTEGER]. *)

From stdpp Require Import base strings list pretty.
From Stdlib Require Import Ascii ZArith.
From S2P Require Import Prelude JsValue IrelSyntax IrelLexer FlowControl JsText.

(** ** Timeout policy *)

Definition HUMAN_TASK_DEFAULT_TIMEOUT_MS : Z := 30 * 60 * 1000.
Definition HUMAN_TASK_MIN_TIMEOUT_MS : Z := 1000.
Definition HUMAN_TASK_MAX_TIMEOUT_MS : Z := 30 * 24 * 60 * 60 * 1000.

Definition unit_factor (unit : string) : option Z :=
  alookup unit [("ms", 1); ("s", 1000); ("m", 60000); ("h", 60 * 60000); ("d", 24 * 60 * 60000)]%Z.

(** The match of [/^\s*(\d+)\s*(ms|s|m|h|d)\s*$/i]: the digits and the unit in
    lower case.  What follows the digits starts with white space or a letter,
    so the longest run of digits is the only choice. *)
Definition duration_match (value : string) : option (string * string) :=
  let s := trim_start value in
  let digits := take_while is_digit_char s in
  let unit := toLowerCase (trim (drop_while is_digit_char s)) in
  if bool_decide (digits = EmptyString) then None
  else match unit_factor unit with Some _ => Some (digits, unit) | None => None end.

Definition timeout_in_bounds (ms : Z) : bool :=
  (ms <=? MAX_SAFE_INTEGER)%Z && (HUMAN_TASK_MIN_TIMEOUT_MS <=? ms)%Z && (ms <=? HUMAN_TASK_MAX_TIMEOUT_MS)%Z.

Definition parseHumanTaskTimeoutMs (value : string) : option Z :=
  '(digits, unit) ← duration_match value;
  let amount := digits_value 0 digits in
  if (MAX_SAFE_INTEGER <? amount)%Z || (amount <=? 0)%Z then None else
  let ms := (amount * default 0 (unit_factor unit))%Z in
  if timeout_in_bounds ms then Some ms else None.

Inductive timeout_error := TimeoutOutOfBounds (label : string).

(** On integers. *)
Definition assertHumanTaskTimeoutMs (value : Z) (label : string) : result timeout_error () :=
  if timeout_in_bounds value then Ok tt else Err (TimeoutOutOfBounds label).

Example timeout_ex : parseHumanTaskTimeoutMs " 30 Min" = None ∧ parseHumanTaskTimeoutMs " 90 M " = Some 5400000%Z ∧
  parseHumanTaskTimeoutMs "31d" = None ∧ parseHumanTaskTimeoutMs "999ms" = None.
Proof. by vm_compute. Qed.

(** ** The input of a task *)

Inductive HumanTaskKind := k_approval | k_validation | k_exception.
Inductive OnTimeout := ot_fail | ot_escalate.

Record HumanTaskInput := mkHumanTaskInput {
  hti_kind : HumanTaskKind;
  hti_assigneeRole : string;
  hti_onTimeout : OnTimeout;
  hti_timeoutMs : option Z;
  hti_payload : option fields;
  hti_resultSchema : option fields;
  hti_artifactRefs : option (list string)
}.

(** [map] of a function that may throw: the first exception wins. *)
Definition collect {E A B} (f : A → result E B) : list A → result E (list B) :=
  fix go l := match l with
              | [] => Ok []
              | a :: l' => b ← f a; bs ← go l'; Ok (b :: bs)
              end.

Section Input.
Context (nodeId : string).

Definition bad {A} (field : string) : result Thrown A := Err (HumanTaskInvalid nodeId field).

Definition optionalRecordInput (value : option json) (field : string) : result Thrown (option fields) :=
  match value with
  | None => Ok None
  | Some (JObj l) => Ok (Some l)
  | Some _ => bad field
  end.

Definition optionalStringArrayInput (value : option json) (field : string)
  : result Thrown (option (list string)) :=
  match value with
  | None => Ok None
  | Some (JArr l) =>
      match mapM (λ v, s ← as_string (Some v); if decide (s = EmptyString) then None else Some s) l with
      | Some ss => Ok (Some ss)
      | None => bad field
      end
  | Some _ => bad field
  end.

Context (params : option fields).

Definition is_scalar (v : json) : bool :=
  match v with JStr _ | JNum _ | JBool _ => true | _ => false end.

Fixpoint resolvePayloadParams (value : json) : result Thrown json :=
  match value with
  | JArr l => rs ← collect resolvePayloadParams l; Ok (JArr rs)
  | JObj rec =>
      match rec with
      | [(k, JStr pk)] =>
          if decide (k = "from_param") then
            match params ≫= alookup pk with
            | Some pv => if is_scalar pv then Ok pv else bad "payload"
            | None => bad "payload"
            end
          else Ok value
      | _ =>
          rs ← collect (λ '(k, v), r ← resolvePayloadParams v; Ok (k, r)) rec;
          Ok (JObj rs)
      end
  | _ => Ok value
  end.

Definition parseKind (v : option json) : result Thrown HumanTaskKind :=
  match v with
  | None => Ok k_exception
  | Some (JStr s) =>
      if decide (s = "approval") then Ok k_approval
      else if decide (s = "validation") then Ok k_validation
      else if decide (s = "exception") then Ok k_exception
      else bad "kind"
  | Some _ => bad "kind"
  end.

Definition parseOnTimeout (v : option json) : result Thrown OnTimeout :=
  match v with
  | None => Ok ot_fail
  | Some (JStr s) =>
      if decide (s = "fail") then Ok ot_fail
      else if decide (s = "escalate") then Ok ot_escalate
      else bad "on_timeout"
  | Some _ => bad "on_timeout"
  end.

Definition parseTimeout (v : option json) : result Thrown (option Z) :=
  match v with
  | None => Ok None
  | Some (JStr s) =>
      match parseHumanTaskTimeoutMs s with Some ms => Ok (Some ms) | None => bad "timeout" end
  | Some _ => bad "timeout"
  end.

Definition parseHumanTaskInput (input : fields) : result Thrown HumanTaskInput :=
  kind ← parseKind (alookup "kind" input);
  role ← match as_string (alookup "assignee_role" input) with
         | Some r => if blank r then bad "assignee_role" else Ok r
         | None => bad "assignee_role"
         end;
  onTimeout ← parseOnTimeout (alookup "on_timeout" input);
  timeoutMs ← parseTimeout (alookup "timeout" input);
  payloadRaw ← optionalRecordInput (alookup "payload" input) "payload";
  payload ← match payloadRaw with
            | Some p => r ← collect (λ '(k, v), r ← resolvePayloadParams v; Ok (k, r)) p; Ok (Some r)
            | None => Ok None
            end;
  resultSchema ← optionalRecordInput (alookup "result_schema" input) "result_schema";
  artifactRefs ← optionalStringArrayInput (alookup "artifact_refs" input) "artifact_refs";
  Ok (mkHumanTaskInput kind role onTimeout timeoutMs payload resultSchema artifactRefs).
End Input.

(** ** Resolved tasks as node outputs *)

Record ResolvedHumanTaskRow := mkResolvedRow { row_node_id : string; row_result : json }.

Definition humanTaskNodeOutput (r : json) : option NodeOutput :=
  match as_record (Some r) with
  | Some f =>
      d ← as_string (alookup "decision" f);
      if string_in d IREL_DECISION_VALUES
      then Some (mkNodeOutput None None None None None None None (Some d) (as_record (alookup "corrections" f)))
      else None
  | None => None
  end.

(** [delete outputs[k]]. *)
Definition adelete {A} (k : string) (l : list (string * A)) : list (string * A) :=
  filter (λ p, p.1 ≠ k) l.

(** The loop of [loadResolvedHumanTaskNodeOutputs] over the rows of its query,
    which are in ascending order of resolution. *)
Definition loadResolvedHumanTaskNodeOutputs (rows : list ResolvedHumanTaskRow) : list (string * NodeOutput) :=
  foldl (λ outputs row,
    match humanTaskNodeOutput (row_result row) with
    | Some out => aset (row_node_id row) out outputs
    | None => adelete (row_node_id row) outputs
    end) [] rows.

(** ** Facts *)

Lemma timeout_in_bounds_iff ms : timeout_in_bounds ms = true ↔
  (HUMAN_TASK_MIN_TIMEOUT_MS <= ms <= HUMAN_TASK_MAX_TIMEOUT_MS)%Z.
Proof.
  unfold timeout_in_bounds, HUMAN_TASK_MIN_TIMEOUT_MS, HUMAN_TASK_MAX_TIMEOUT_MS, MAX_SAFE_INTEGER.
  rewrite !andb_true_iff, !Z.leb_le. lia.
Qed.

Lemma collect_Ok {E A B} (f : A → result E B) l rs :
  collect f l = Ok rs ↔ Forall2 (λ a b, f a = Ok b) l rs.
Proof.
  revert rs. induction l as [|a l IH]; intros rs; simpl.
  - split; [by intros [= <-]|intros H; by apply Forall2_nil_inv_l in H as ->].
  - rewrite result_bind_Ok. split.
    + intros (b & Hb & H). apply result_bind_Ok in H as (bs & Hbs & [= <-]).
      constructor; [done|by apply IH].
    + intros H. apply Forall2_cons_inv_l in H as (b & bs & Hb & Hbs & ->).
      exists b. split; [done|]. apply IH in Hbs. fold (collect f l). rewrite Hbs. done.
Qed.

Lemma alookup_adelete {A} k k' (l : list (string * A)) :
  alookup k (adelete k' l) = if decide (k = k') then None else alookup k l.
Proof.
  induction l as [|[k'' a] l IH]; unfold adelete in *; simpl; [by case_decide|].
  rewrite filter_cons. repeat case_decide; simpl in *; repeat case_decide; subst; try done.
Qed.

(** The duration text of a number of units. *)
Definition duration_text (n : N) (unit : string) : string := pretty n +:+ unit.

Lemma unit_factor_text u f : unit_factor u = Some f →
  toLowerCase (trim u) = u ∧ take_while is_digit_char u = EmptyString ∧ drop_while is_digit_char u = u ∧ (0 < f)%Z.
Proof.
  unfold unit_factor. simpl. repeat case_decide; subst; intros [= <-]; vm_compute; by split_and!.
Qed.

Lemma parse_duration_text n u f : unit_factor u = Some f →
  parseHumanTaskTimeoutMs (duration_text n u) =
    if timeout_in_bounds (Z.of_N n * f) then Some (Z.of_N n * f)%Z else None.
Proof.
  intros Hu. destruct (unit_factor_text _ _ Hu) as (Hl & Ht & Hd & Hf).
  unfold parseHumanTaskTimeoutMs, duration_match, duration_text.
  rewrite trim_start_pretty, take_while_pretty, drop_while_pretty, Ht, Hd, Hl, Hu, app_empty_r by done.
  rewrite bool_decide_false by apply pretty_nonempty. cbn [mbind option_bind].
  rewrite digits_value_pretty, Hu. cbn [default].
  destruct ((MAX_SAFE_INTEGER <? Z.of_N n)%Z || (Z.of_N n <=? 0)%Z) eqn:E; [|done].
  destruct (timeout_in_bounds _) eqn:Eb; [|done]. apply timeout_in_bounds_iff in Eb.
  unfold HUMAN_TASK_MIN_TIMEOUT_MS, HUMAN_TASK_MAX_TIMEOUT_MS, MAX_SAFE_INTEGER in *.
  apply orb_true_iff in E as [E%Z.ltb_lt|E%Z.leb_le]; nia.
Qed.

Lemma parse_timeout_bounds v ms : parseHumanTaskTimeoutMs v = Some ms →
  (HUMAN_TASK_MIN_TIMEOUT_MS <= ms <= HUMAN_TASK_MAX_TIMEOUT_MS)%Z.
Proof.
  unfold parseHumanTaskTimeoutMs. intros H. apply bind_Some in H as ([digits unit] & _ & H).
  destruct (_ || _); [done|]. destruct (timeout_in_bounds _) eqn:E; [|done].
  injection H as <-. by apply timeout_in_bounds_iff.
Qed.

Lemma parseHumanTaskInput_valid nodeId params input h :
  parseHumanTaskInput nodeId params input = Ok h →
  blank (hti_assigneeRole h) = false ∧
  ∀ ms, hti_timeoutMs h = Some ms → (HUMAN_TASK_MIN_TIMEOUT_MS <= ms <= HUMAN_TASK_MAX_TIMEOUT_MS)%Z.
Proof.
  unfold parseHumanTaskInput. intros H.
  repeat (let x := fresh "x" in let Hx := fresh "Hx" in
          apply result_bind_Ok in H as (x & Hx & H)).
  injection H as <-. simpl. split.
  - destruct (as_string _) as [r|]; [|done]. destruct (blank r) eqn:E; [done|]. by simplify_eq.
  - intros ms ->. unfold parseTimeout in *. destruct (alookup "timeout" input) as [[]|]; try done.
    destruct (parseHumanTaskTimeoutMs _) eqn:E; [|done]. simplify_eq. by eapply parse_timeout_bounds.
Qed.

Lemma load_lookup rows id :
  alookup id (loadResolvedHumanTaskNodeOutputs rows) =
  (row ← last (filter (λ r, row_node_id r = id) rows); humanTaskNodeOutput (row_result row)).
Proof.
  unfold loadResolvedHumanTaskNodeOutputs. induction rows as [|row rows IH] using rev_ind; [done|].
  rewrite foldl_snoc, filter_app, last_app. rewrite filter_cons, filter_nil.
  destruct (humanTaskNodeOutput (row_result row)) as [out|] eqn:E.
  - rewrite alookup_aset. repeat case_decide; subst; try done; simpl; by rewrite ?E.
  - rewrite alookup_adelete. repeat case_decide; subst; try done; simpl; by rewrite ?E.
Qed.

(** ** Properties *)

(** Timeouts of human tasks are bounded.  A duration text is accepted with
    a value between one second and thirty days and with no other; the text of
    [n] units is accepted exactly when its value is within these bounds, and
    then denotes [n] times the unit. *)
Theorem human_task_timeout_bounds :
  (∀ v ms, parseHumanTaskTimeoutMs v = Some ms → (1000 <= ms <= 2592000000)%Z) ∧
  (∀ n u f ms, unit_factor u = Some f →
     parseHumanTaskTimeoutMs (duration_text n u) = Some ms ↔
     ms = (Z.of_N n * f)%Z ∧ (1000 <= ms <= 2592000000)%Z) ∧
  (∀ ms label, assertHumanTaskTimeoutMs ms label = Ok tt ↔ (1000 <= ms <= 2592000000)%Z).
Proof.
  split_and!.
  - intros v ms H. by apply parse_timeout_bounds in H.
  - intros n u f ms Hu. rewrite (parse_duration_text n u f Hu).
    destruct (timeout_in_bounds _) eqn:E.
    + apply timeout_in_bounds_iff in E. split; [|by intros [-> _]]. by intros [= <-].
    + split; [done|]. intros [-> Hb]. apply not_true_iff_false in E. by destruct E; apply timeout_in_bounds_iff.
  - intros ms label. unfold assertHumanTaskTimeoutMs. destruct (timeout_in_bounds ms) eqn:E.
    + apply timeout_in_bounds_iff in E. done.
    + split; [done|]. intros Hb. apply not_true_iff_false in E. by destruct E; apply timeout_in_bounds_iff.
Qed.

(** On resume, a node's human decision is that of its latest resolved task:
    a malformed latest result hides the earlier ones instead of reviving
    them, and a decision is always one of the closed vocabulary. *)
Theorem latest_resolution_wins rows id :
  alookup id (loadResolvedHumanTaskNodeOutputs rows) =
    (row ← last (filter (λ r, row_node_id r = id) rows); humanTaskNodeOutput (row_result row)) ∧
  ∀ out, alookup id (loadResolvedHumanTaskNodeOutputs rows) = Some out →
    ∃ d, no_decision out = Some d ∧ d ∈ IREL_DECISION_VALUES ∧ no_status out = None.
Proof.
  split; [apply load_lookup|]. intros out. rewrite load_lookup.
  intros (row & _ & H)%bind_Some. unfold humanTaskNodeOutput in H.
  destruct (as_record _) as [f|]; [|done]. apply bind_Some in H as (d & _ & H).
  destruct (string_in d IREL_DECISION_VALUES) eqn:E; [|done]. injection H as <-.
  apply bool_decide_eq_true in E. eauto.
Qed.
