(* ===== verification/ExtractMerge.v ===== *)
(** * Merging extracted records

    Models [app/src/runtime/extract-result-merge.ts]: finding the array of
    records in an extract output, and merging the outputs of several pages
    with duplicates removed by a natural key or by content.

    Outputs are JSON trees: no object occurs twice in one output, so the
    [WeakSet] guard against cycles never fires.  Records have no integer
    index as a key, so that the order of [Object.keys] is that of insertion. *)

From stdpp Require Import base strings list sets.
From Stdlib Require Import Ascii ZArith.
From S2P Require Import Prelude JsValue FlowControl JsText.

Record MergedExtractResult := mkMerged {
  mr_records : list json;
  mr_pageCount : nat;
  mr_inputCount : nat;
  mr_duplicateCount : nat;
  mr_naturalKeys : list string
}.

Definition DEFAULT_NATURAL_KEYS : list string :=
  ["BBSCTT_ID"; "bbscttId"; "noticeId"; "SEQ"; "seq"; "id"; "ID"; "no"; "NO"].

Definition ARRAY_CONTAINER_KEYS : list string :=
  ["records"; "rows"; "items"; "data"; "list"; "results"; "result"; "grid"].

(** The first result of a loop whose body may return. *)
Fixpoint first_some {A B} (f : A → option B) (l : list A) : option B :=
  match l with
  | [] => None
  | a :: l' => match f a with Some b => Some b | None => first_some f l' end
  end.

(** [below] is the number of levels left: [depth > 3] is [below = 0]. *)
Fixpoint findRecordArray (below : nat) (value : json) : option (list json) :=
  match value with
  | JArr l => Some l
  | JObj f =>
      match below with
      | O => None
      | S below' =>
          let nested child := match child with JObj _ => findRecordArray below' child | _ => None end in
          match first_some (λ key, child ← alookup key f;
                              match child with JArr l => Some l | _ => nested child end)
                  ARRAY_CONTAINER_KEYS with
          | Some l => Some l
          | None =>
              match first_some (λ '(_, child), match child with JArr l => Some l | _ => None end) f with
              | Some l => Some l
              | None =>
                  match first_some (λ '(_, child), nested child) f with
                  | Some l => Some l
                  | None => Some (match f with [] => [] | _ => [value] end)
                  end
              end
          end
      end
  | _ => None
  end.

Definition recordsFromExtractOutput (output : json) : list json := default [] (findRecordArray 4 output).

Definition isNaturalKeyValue (v : json) : bool :=
  match v with
  | JStr s => negb (blank s)
  | JNum x => num_is_finite x
  | JBool _ => true
  | _ => false
  end.

(** [String(value)] of a natural key value. *)
Definition key_text (v : json) : string :=
  match v with
  | JStr s => s
  | JNum x => num_to_string x
  | JBool b => if b then "true" else "false"
  | _ => EmptyString
  end.

(** [Object.keys(value).sort()] with the values. *)
Fixpoint insert_key (p : string * json) (l : fields) : fields :=
  match l with
  | [] => [p]
  | q :: l' => if String.leb p.1 q.1 then p :: l else q :: insert_key p l'
  end.
Definition sort_keys (l : fields) : fields := foldr insert_key [] l.

Fixpoint normalizeForStableStringify (v : json) : json :=
  match v with
  | JArr l => JArr (map normalizeForStableStringify l)
  | JObj f => JObj (sort_keys (map (λ '(k, w), (k, normalizeForStableStringify w)) f))
  | _ => v
  end.

Definition stableStringify (v : json) : string := json_text (normalizeForStableStringify v).

Definition dedupeKey (record : json) (naturalKeys : list string) : string :=
  let natural :=
    match record with
    | JObj f =>
        first_some (λ k, v ← alookup k f;
                      if isNaturalKeyValue v then Some (k +:+ ":" +:+ key_text v) else None) naturalKeys
    | _ => None
    end in
  match natural with Some key => key | None => "json:" +:+ stableStringify record end.

(** The state of the loops of [mergeExtractOutputs]. *)
Record merge_state := mkMergeState {
  ms_records : list json;
  ms_seen : list string;
  ms_inputCount : nat;
  ms_duplicateCount : nat
}.

Definition merge_record (naturalKeys : list string) (st : merge_state) (record : json) : merge_state :=
  let key := dedupeKey record naturalKeys in
  if string_in key (ms_seen st)
  then mkMergeState (ms_records st) (ms_seen st) (S (ms_inputCount st)) (S (ms_duplicateCount st))
  else mkMergeState (ms_records st ++ [record]) (key :: ms_seen st) (S (ms_inputCount st)) (ms_duplicateCount st).

Definition mergeExtractOutputs (outputs : list json) (options : option (list string)) : MergedExtractResult :=
  let naturalKeys := default DEFAULT_NATURAL_KEYS options in
  let st := foldl (λ st output, foldl (merge_record naturalKeys) st (recordsFromExtractOutput output))
              (mkMergeState [] [] 0 0) outputs in
  mkMerged (ms_records st) (length outputs) (ms_inputCount st) (ms_duplicateCount st) naturalKeys.

Example merge_ex :
  let row i := JObj [("id", JNum (num_of_Z (Z.of_nat i))); ("t", JStr "x")] in
  let m := mergeExtractOutputs [JObj [("rows", JArr [row 1; row 2])]; JArr [row 2; row 3]] None in
  mr_records m = [row 1; row 2; row 3] ∧ mr_inputCount m = 4 ∧ mr_duplicateCount m = 1.
Proof. by vm_compute. Qed.

(** ** The loop *)

Section Merge.
Context (naturalKeys : list string).
Abbreviation key := (λ r, dedupeKey r naturalKeys).

(** The rows that are the first of their key. *)
Fixpoint firsts (seen : list string) (rows : list json) : list json :=
  match rows with
  | [] => []
  | r :: rows' =>
      if string_in (key r) seen then firsts seen rows' else r :: firsts (key r :: seen) rows'
  end.

Lemma merge_fold rows : ∀ st, let st' := foldl (merge_record naturalKeys) st rows in
  ms_records st' = ms_records st ++ firsts (ms_seen st) rows ∧
  ms_inputCount st' = ms_inputCount st + length rows ∧
  ms_inputCount st' + length (ms_records st) + ms_duplicateCount st =
    ms_inputCount st + length (ms_records st') + ms_duplicateCount st'.
Proof.
  induction rows as [|r rows IH]; intros st; simpl.
  - rewrite app_nil_r. split_and!; [done|lia|lia].
  - specialize (IH (merge_record naturalKeys st r)). simpl in IH. destruct IH as (IH1 & IH2 & IH3).
    unfold merge_record in IH1, IH2, IH3 |- *. destruct (string_in _ _); simpl in *.
    + split_and!; [done|lia|lia].
    + rewrite length_app in IH3. simpl in IH3. split_and!; [by rewrite IH1, <-app_assoc|lia|lia].
Qed.

Lemma fold_concat outputs : ∀ st,
  foldl (λ st output, foldl (merge_record naturalKeys) st (recordsFromExtractOutput output)) st outputs =
  foldl (merge_record naturalKeys) st (concat (map recordsFromExtractOutput outputs)).
Proof. induction outputs as [|o outputs IH]; intros st; simpl; [done|]. by rewrite IH, foldl_app. Qed.

Lemma firsts_sublist rows : ∀ seen, sublist (firsts seen rows) rows.
Proof.
  induction rows as [|r rows IH]; intros seen; simpl; [constructor|].
  destruct (string_in _ _); [by apply sublist_cons|by apply sublist_skip].
Qed.

Lemma firsts_keys rows : ∀ seen,
  NoDup (map key (firsts seen rows)) ∧
  (∀ r, r ∈ firsts seen rows → key r ∉ seen) ∧
  (∀ r, r ∈ rows → key r ∈ seen ∨ ∃ r', r' ∈ firsts seen rows ∧ key r' = key r).
Proof.
  induction rows as [|r rows IH]; intros seen; simpl; [split_and!; [constructor|set_solver..]|].
  destruct (string_in (key r) seen) eqn:E.
  - destruct (IH seen) as (H1 & H2 & H3). apply bool_decide_eq_true in E. split_and!; [done..|].
    intros x [->|Hx]%elem_of_cons; [by left|by apply H3].
  - destruct (IH (key r :: seen)) as (H1 & H2 & H3). apply bool_decide_eq_false in E. split_and!.
    + cbn [map]. apply NoDup_cons. split; [|done].
      intros (r' & Hk & Hr'%list_elem_of_In)%list_elem_of_In%in_map_iff.
      apply (H2 r' Hr'). rewrite Hk. by left.
    + intros x [->|Hx]%elem_of_cons; [done|]. specialize (H2 x Hx). set_solver.
    + intros x [->|Hx]%elem_of_cons; [right; exists r; set_solver|].
      destruct (H3 x Hx) as [[->|Hin]%elem_of_cons|(r' & Hr' & Hk)]; [|by left|].
      * right. exists r. set_solver.
      * right. exists r'. set_solver.
Qed.

(** A kept row is the first of the list with its key. *)
Lemma firsts_first rows : ∀ seen r, r ∈ firsts seen rows →
  ∃ before after, rows = before ++ r :: after ∧ ∀ x, x ∈ before → key x ≠ key r.
Proof.
  induction rows as [|r0 rows IH]; intros seen r; simpl; [by intros ?%not_elem_of_nil|].
  destruct (string_in (key r0) seen) eqn:E.
  - intros Hr. assert (Hk := proj1 (proj2 (firsts_keys rows seen)) r Hr).
    apply bool_decide_eq_true in E. apply IH in Hr as (b & a & -> & Hb).
    exists (r0 :: b), a. split; [done|]. intros x [->|Hx]%elem_of_cons; [|by apply Hb].
    intros Heq. by rewrite Heq in E.
  - intros [->|Hr]%elem_of_cons; [exists [], rows; set_solver|].
    assert (Hk := proj1 (proj2 (firsts_keys rows (key r0 :: seen))) r Hr).
    apply IH in Hr as (b & a & -> & Hb).
    exists (r0 :: b), a. split; [done|]. intros x [->|Hx]%elem_of_cons; [|by apply Hb].
    intros Heq. apply Hk. rewrite <-Heq. by left.
Qed.

Lemma firsts_id rows : ∀ seen, NoDup (map key rows) → (∀ r, r ∈ rows → key r ∉ seen) → firsts seen rows = rows.
Proof.
  induction rows as [|r rows IH]; intros seen Hd Hs; simpl; [done|].
  apply NoDup_cons in Hd as [Hn Hd]. unfold string_in.
  rewrite bool_decide_eq_false_2 by (apply Hs; by left). f_equal. apply IH; [done|].
  intros x Hx [Heq|Hin]%elem_of_cons; [|by eapply Hs; [right|]].
  apply Hn. rewrite <-Heq. by apply list_elem_of_In, (in_map key), list_elem_of_In.
Qed.
End Merge.

Lemma merge_eq outputs options :
  let naturalKeys := default DEFAULT_NATURAL_KEYS options in
  let rows := concat (map recordsFromExtractOutput outputs) in
  let m := mergeExtractOutputs outputs options in
  mr_records m = firsts naturalKeys [] rows ∧ mr_inputCount m = length rows ∧
  mr_inputCount m = length (mr_records m) + mr_duplicateCount m ∧ mr_pageCount m = length outputs.
Proof.
  intros naturalKeys rows m. unfold m, mergeExtractOutputs. rewrite fold_concat. simpl.
  destruct (merge_fold naturalKeys rows (mkMergeState [] [] 0 0)) as (H1 & H2 & H3).
  split_and!; [exact H1|exact H2| |done]. cbn [ms_records ms_inputCount ms_duplicateCount length] in *. unfold naturalKeys, rows in *. cbn [mr_inputCount mr_records mr_duplicateCount] in *. lia.
Qed.

(** ** Properties *)

(** Merging the extract outputs of a run keeps, in the order of the pages,
    exactly the first row of every key: the kept rows are rows of the pages in
    their order, no two of them share a key, every row's key is kept, and what
    is dropped is counted as a duplicate, so that no row is lost silently. *)
Theorem mergeExtractOutputs_spec outputs options :
  let key r := dedupeKey r (default DEFAULT_NATURAL_KEYS options) in
  let rows := concat (map recordsFromExtractOutput outputs) in
  let m := mergeExtractOutputs outputs options in
  sublist (mr_records m) rows ∧
  NoDup (map key (mr_records m)) ∧
  (∀ r, r ∈ rows → ∃ r', r' ∈ mr_records m ∧ key r' = key r) ∧
  (∀ r, r ∈ mr_records m → ∃ before after, rows = before ++ r :: after ∧ ∀ x, x ∈ before → key x ≠ key r) ∧
  mr_inputCount m = length rows ∧
  mr_inputCount m = length (mr_records m) + mr_duplicateCount m ∧
  mr_pageCount m = length outputs.
Proof.
  intros key rows m. destruct (merge_eq outputs options) as (Hr & Hi & Hc & Hp).
  fold m in Hr, Hi, Hc, Hp. rewrite Hr in Hc |- *.
  destruct (firsts_keys (default DEFAULT_NATURAL_KEYS options) rows []) as (H1 & _ & H3).
  split_and!; [apply firsts_sublist|done| | |done|done|done].
  - intros r Hin. destruct (H3 r Hin) as [H|H]; [by apply not_elem_of_nil in H|done].
  - intros r. apply firsts_first.
Qed.

(** Merging is idempotent: merging the merged records again, as one page,
    returns the same records and counts no duplicate. *)
Theorem mergeExtractOutputs_idempotent outputs options :
  let m := mergeExtractOutputs outputs options in
  let m' := mergeExtractOutputs [JArr (mr_records m)] options in
  mr_records m' = mr_records m ∧ mr_duplicateCount m' = 0 ∧ mr_inputCount m' = length (mr_records m).
Proof.
  intros m m'. destruct (merge_eq outputs options) as (Hr & _).
  assert (Hrows : concat (map recordsFromExtractOutput [JArr (mr_records m)]) = mr_records m).
  { cbn [map concat]. apply app_nil_r. }
  destruct (merge_eq [JArr (mr_records m)] options) as (Hr' & Hi' & Hc' & _).
  rewrite Hrows in Hr', Hi'. fold m in Hr. fold m' in Hr', Hi', Hc'.
  assert (Hid : mr_records m' = mr_records m).
  { rewrite Hr'. apply firsts_id; [|set_solver].
    rewrite Hr. apply firsts_keys. }
  rewrite Hid, Hi' in Hc'. split_and!; [done|lia|done].
Qed.
