(* ===== verification/Interpreter.v ===== *)
(** * The scenario interpreter

    Models [app/src/runtime/ir-interpreter-types.ts] and
    [app/src/runtime/ir-interpreter.ts]: the traversal of a compiled scenario,
    with its actions, verification and self-healing, loops, fallback tiers,
    human tasks and suspension.

    The executor, the page-state resolver and the pause request are code
    outside the interpreter: they are the fields of [InterpreterDeps], functions
    of a world [W] that may change it and may throw.  The traversal is a state
    monad with exceptions over [TraversalState]; spans are not modelled.

    The step budget is an integer: loop bounds are integers between 1 and 10000
    ([validateLoopContract]) and [maxSteps] is an operator's integer. *)

From stdpp Require Import base strings list gmap pretty.
From Stdlib Require Import ZArith SpecFloat.
From S2P Require Import Prelude JsValue IrelSyntax IrelEval FlowControl HumanTask ExtractMerge.

(** ** The compiled scenario *)

Inductive ReservedHandler := h_challenge | h_human_task.

Record FallbackTier := mkFallbackTier {
  tier_name : string;
  tier_entryNode : string;
  tier_advanceWhen : option IRELNode
}.

Inductive NodeFlow :=
| FlowTerminal (terminal : string)
| FlowNext (target : string)
| FlowOn (branches : list (CompiledOnBranch string))
| FlowLoop (until : IRELNode) (bodyTarget exitTarget : string) (maxIterations : jsnum)
| FlowFallback (tiers : list FallbackTier)
| FlowReservedHandler (handler : ReservedHandler) (input : fields) (returnNode : string).

Record NodeVerify := mkVerify { nv_criteria : list json; nv_onFail : string; nv_maxSelfHeal : Z }.

Record ScenarioNode := mkNode {
  sn_what : list json;
  sn_flow : NodeFlow;
  sn_verify : option NodeVerify
}.

Record CompiledScenario := mkCompiledScenario { cs_start : string; cs_nodes : list (string * ScenarioNode) }.

(** ** Contexts and results *)

(** [ps_rest] and [rc_run] hold the fields the interpreter passes on unread. *)
Record PageState := mkPageState {
  ps_structuralHash : string;
  ps_flags : list (string * bool);
  ps_rest : json
}.

Record RunContext := mkCtx {
  rc_nodeId : string;
  rc_attempt : Z;
  rc_pageState : PageState;
  rc_lastHttpResponse : option HttpResponseSnapshot;
  rc_selfHealRetry : option bool;
  rc_run : json
}.

Definition ctx_node (nodeId : string) (c : RunContext) : RunContext :=
  mkCtx nodeId (rc_attempt c) (rc_pageState c) (rc_lastHttpResponse c) (rc_selfHealRetry c) (rc_run c).
Definition ctx_page (ps : PageState) (c : RunContext) : RunContext :=
  mkCtx (rc_nodeId c) (rc_attempt c) ps (rc_lastHttpResponse c) (rc_selfHealRetry c) (rc_run c).
Definition ctx_http (h : HttpResponseSnapshot) (c : RunContext) : RunContext :=
  mkCtx (rc_nodeId c) (rc_attempt c) (rc_pageState c) (Some h) (rc_selfHealRetry c) (rc_run c).
Definition ctx_retry (attempt : Z) (c : RunContext) : RunContext :=
  mkCtx (rc_nodeId c) attempt (rc_pageState c) (rc_lastHttpResponse c) (Some true) (rc_run c).

Inductive VerifyStatus := v_pass | v_fail_det | v_fail_vlm | v_uncertain.
#[export] Instance VerifyStatus_eq_dec : EqDecision VerifyStatus.
Proof. solve_decision. Defined.

Record VerifyResult := mkVerifyResult {
  vr_status : VerifyStatus;
  vr_failedCriteria : list string;
  vr_recommendation : string
}.

Record OperatorPauseDecision := mkPause { pauseRequestId : string; pause_reason : option string }.

Record SuspendBase := mkSuspendBase {
  su_stepId : string;
  su_resumeNodeId : string;
  su_attempt : Z;
  su_pageStateRef : string;
  su_exception : option ClassifiedException
}.

Inductive ChallengeKind := ch_captcha | ch_mfa.

Inductive SuspendContext :=
| ChallengeSuspend (base : SuspendBase) (kind : ChallengeKind)
| HumanTaskSuspend (base : SuspendBase) (nodeId : string) (input : HumanTaskInput)
| OperatorPauseSuspend (base : SuspendBase) (pause : OperatorPauseDecision).

Definition suspend_base (s : SuspendContext) : SuspendBase :=
  match s with ChallengeSuspend b _ | HumanTaskSuspend b _ _ | OperatorPauseSuspend b _ => b end.

Record InterpreterStep := mkStep { is_nodeId : string; is_action : string; is_status : StepStatus }.

Record ExtractResultPage := mkPage {
  ep_nodeId : string; ep_stepId : string; ep_output : json; ep_artifactRef : option string }.

(** What the interpreter calls; a thrown host error is its message. *)
Record InterpreterDeps (W : Type) := mkDeps {
  d_execute : string → json → RunContext → W → W * result string StepResult;
  d_verify : json → RunContext → W → W * result string VerifyResult;
  d_resolvePageState : RunContext → W → W * result string PageState;
  d_pauseRequested : option (RunContext → W → W * result string (option OperatorPauseDecision));
  d_params : option fields;
  d_maxSteps : option Z;
  d_startNode : option string;
  d_resumeNodeOutputs : option (list (string * NodeOutput))
}.
Arguments mkDeps {W} _ _ _ _ _ _ _ _.
Arguments d_execute {W} _ _ _ _ _.
Arguments d_verify {W} _ _ _ _.
Arguments d_resolvePageState {W} _ _ _.
Arguments d_pauseRequested {W} _.
Arguments d_params {W} _.
Arguments d_maxSteps {W} _.
Arguments d_startNode {W} _.
Arguments d_resumeNodeOutputs {W} _.

Record ScenarioOutcome := mkOutcome {
  oc_terminal : string;
  oc_visited : list string;
  oc_steps : list InterpreterStep;
  oc_artifacts : list string;
  oc_extractPages : option (list ExtractResultPage);
  oc_mergedExtract : option MergedExtractResult;
  oc_suspend : option SuspendContext;
  oc_failureReason : option string
}.

Definition DEFAULT_MAX_STEPS : Z := 200.

(** The state all sub-traversals share, and the world the host code changes. *)
Record TraversalState (W : Type) := mkState {
  ts_world : W;
  ts_nodeScope : list (string * NodeOutput);
  ts_loopState : list (string * Z);
  ts_visited : list string;
  ts_steps : list InterpreterStep;
  ts_artifacts : list string;
  ts_extractPages : list ExtractResultPage;
  ts_budget : Z;
  ts_suspendBox : option SuspendContext;
  ts_failureBox : option ClassifiedException
}.
Arguments mkState {W} _ _ _ _ _ _ _ _ _ _.
Arguments ts_world {W} _.
Arguments ts_nodeScope {W} _.
Arguments ts_loopState {W} _.
Arguments ts_visited {W} _.
Arguments ts_steps {W} _.
Arguments ts_artifacts {W} _.
Arguments ts_extractPages {W} _.
Arguments ts_budget {W} _.
Arguments ts_suspendBox {W} _.
Arguments ts_failureBox {W} _.

(** ** State with exceptions *)

Definition M (W A : Type) : Type := TraversalState W → TraversalState W * result Thrown A.

#[export] Instance M_ret {W} : MRet (M W) := λ A a s, (s, Ok a).
#[export] Instance M_bind {W} : MBind (M W) := λ A B f m s,
  match m s with (s', Ok a) => f a s' | (s', Err e) => (s', Err e) end.

Section Monad.
Context {W : Type}.
Definition throw {A} (e : Thrown) : M W A := λ s, (s, Err e).
Definition lift {A} (r : result Thrown A) : M W A := λ s, (s, r).
Definition lift_flow {A} (r : result FlowError A) : M W A :=
  lift (match r with Ok a => Ok a | Err e => Err (FlowThrown e) end).
Definition gets {A} (f : TraversalState W → A) : M W A := λ s, (s, Ok (f s)).

(** A call of host code. *)
Definition host {A} (f : W → W * result string A) : M W A := λ s,
  let '(w, r) := f (ts_world s) in
  (mkState w (ts_nodeScope s) (ts_loopState s) (ts_visited s) (ts_steps s) (ts_artifacts s)
     (ts_extractPages s) (ts_budget s) (ts_suspendBox s) (ts_failureBox s),
   match r with Ok a => Ok a | Err m => Err (HostThrown m) end).

Definition set_nodeScope (x : list (string * NodeOutput)) : M W () := λ s,
  (mkState (ts_world s) x (ts_loopState s) (ts_visited s) (ts_steps s) (ts_artifacts s)
     (ts_extractPages s) (ts_budget s) (ts_suspendBox s) (ts_failureBox s), Ok tt).
Definition set_loopState (x : list (string * Z)) : M W () := λ s,
  (mkState (ts_world s) (ts_nodeScope s) x (ts_visited s) (ts_steps s) (ts_artifacts s)
     (ts_extractPages s) (ts_budget s) (ts_suspendBox s) (ts_failureBox s), Ok tt).
Definition push_visited (x : string) : M W () := λ s,
  (mkState (ts_world s) (ts_nodeScope s) (ts_loopState s) (ts_visited s ++ [x]) (ts_steps s) (ts_artifacts s)
     (ts_extractPages s) (ts_budget s) (ts_suspendBox s) (ts_failureBox s), Ok tt).
Definition push_step (x : InterpreterStep) (artifacts : list string) : M W () := λ s,
  (mkState (ts_world s) (ts_nodeScope s) (ts_loopState s) (ts_visited s) (ts_steps s ++ [x])
     (ts_artifacts s ++ artifacts) (ts_extractPages s) (ts_budget s) (ts_suspendBox s) (ts_failureBox s), Ok tt).
Definition push_page (x : ExtractResultPage) : M W () := λ s,
  (mkState (ts_world s) (ts_nodeScope s) (ts_loopState s) (ts_visited s) (ts_steps s) (ts_artifacts s)
     (ts_extractPages s ++ [x]) (ts_budget s) (ts_suspendBox s) (ts_failureBox s), Ok tt).
Definition set_budget (x : Z) : M W () := λ s,
  (mkState (ts_world s) (ts_nodeScope s) (ts_loopState s) (ts_visited s) (ts_steps s) (ts_artifacts s)
     (ts_extractPages s) x (ts_suspendBox s) (ts_failureBox s), Ok tt).
Definition set_suspend (x : SuspendContext) : M W () := λ s,
  (mkState (ts_world s) (ts_nodeScope s) (ts_loopState s) (ts_visited s) (ts_steps s) (ts_artifacts s)
     (ts_extractPages s) (ts_budget s) (Some x) (ts_failureBox s), Ok tt).
Definition set_failure (x : option ClassifiedException) : M W () := λ s,
  (mkState (ts_world s) (ts_nodeScope s) (ts_loopState s) (ts_visited s) (ts_steps s) (ts_artifacts s)
     (ts_extractPages s) (ts_budget s) (ts_suspendBox s)
     (match x with Some e => Some e | None => ts_failureBox s end), Ok tt).
End Monad.

(** ** The interpreter *)

Inductive WhatOutcome :=
| WhatDone (last : option StepResult) (committed : bool) (execCtx : RunContext)
| WhatReturn (terminal : string).

Inductive NodeOutcome :=
| NodeDone (last : option StepResult)
| NodeReturn (terminal : string).

Section Interpreter.
Context {W : Type} (date_parse : string → option Z) (scenario : CompiledScenario) (deps : InterpreterDeps W).

Definition nodeScopeRef (scope : list (string * NodeOutput)) : fields :=
  map (λ '(k, o), (k, node_json o)) scope.

Definition flag_fields (ps : PageState) : fields := map (λ '(k, b), (k, JBool b)) (ps_flags ps).

(** The scope of [on[]] and [advance_when]; [loop] adds its own namespace. *)
Definition irel_scope (ps : PageState) (scope : list (string * NodeOutput)) (loop : option fields) : IRELScope :=
  mkScope (d_params deps) (Some (nodeScopeRef scope)) None (Some (flag_fields ps)) loop.

Definition collectExtractPage (nodeId stepId : string) (res : StepResult) : M W () :=
  if decide (sr_action res ≠ "extract" ∨ sr_status res ≠ success) then mret tt else
  match (match sr_extracted res with Some x => Some x | None => sr_output res end) with
  | None => mret tt
  | Some output => push_page (mkPage nodeId stepId output (head (sr_artifacts res)))
  end.

Fixpoint runNodeVerify_loop (criteria : list json) (ctx : RunContext) (last : VerifyResult) : M W VerifyResult :=
  match criteria with
  | [] => mret last
  | criterion :: rest =>
      vr ← host (d_verify deps criterion ctx);
      if decide (vr_status vr = v_pass) then runNodeVerify_loop rest ctx vr else mret vr
  end.
Definition runNodeVerify (criteria : list json) (ctx : RunContext) : M W VerifyResult :=
  runNodeVerify_loop criteria ctx (mkVerifyResult v_pass [] "continue").

Definition record_output (nodeId : string) (tier : option string) (res : StepResult) : M W () :=
  scope ← gets ts_nodeScope;
  set_nodeScope (aset nodeId (with_tier tier (projectNodeOutput res)) scope).

(** [res.sideEffect?.committed === true && res.sideEffect.kind !== "read_only"]. *)
Definition commits (res : StepResult) : bool :=
  match sr_sideEffect res with
  | Some se => se_committed se && negb (bool_decide (se_kind se = "read_only"))
  | None => false
  end.

Definition step_id (nodeId : string) (k : nat) : string := nodeId +:+ "." +:+ pretty k.

Definition challenge_kind (detected : option string) : option ChallengeKind :=
  if decide (detected = Some "captcha") then Some ch_captcha
  else if decide (detected = Some "mfa") then Some ch_mfa else None.

(** The [for (k ...)] loop over [node.what]. *)
Fixpoint runWhat (nodeId : string) (tier : option string) (k : nat) (actions : list json)
    (last : option StepResult) (committed : bool) (execCtx : RunContext) : M W WhatOutcome :=
  match actions with
  | [] => mret (WhatDone last committed execCtx)
  | action :: actions' =>
      let stepId := step_id nodeId k in
      scope ← gets ts_nodeScope;
      dispatchAction ← lift (resolveActionValueFromNode action scope);
      res ← host (d_execute deps stepId dispatchAction execCtx);
      _ ← push_step (mkStep nodeId (sr_action res) (sr_status res)) (sr_artifacts res);
      let execCtx' := match httpResponseFromStep res with Some h => ctx_http h execCtx | None => execCtx end in
      if decide (sr_status res = success) then
        _ ← collectExtractPage nodeId stepId res;
        runWhat nodeId tier (S k) actions' (Some res) (committed || commits res) execCtx'
      else
        _ ← record_output nodeId tier res;
        match failureTerminal (sr_status res) with
        | Some term => _ ← set_failure (sr_exception res); mret (WhatReturn term)
        | None =>
            if decide (sr_status res = suspended) then
              match challenge_kind (sr_challenge res) with
              | None => throw (ChallengeKindUnsupported stepId (sr_challenge res))
              | Some kind =>
                  _ ← set_suspend (ChallengeSuspend
                        (mkSuspendBase stepId nodeId (rc_attempt execCtx') (sr_pageStateAfter res)
                           (sr_exception res)) kind);
                  mret (WhatReturn "suspend")
              end
            else throw (StatusUnsupported stepId (sr_status res))
        end
  end.

(** The self-heal loop around the actions and the verification of a node. *)
Fixpoint selfHeal (fuel : nat) (nodeId : string) (node : ScenarioNode) (tier : option string)
    (ctx execCtx : RunContext) (selfHealCount : Z) : M W NodeOutcome :=
  match fuel with
  | O => throw OutOfFuel
  | S fuel' =>
      out ← runWhat nodeId tier 0 (sn_what node) None false execCtx;
      match out with
      | WhatReturn terminal => mret (NodeReturn terminal)
      | WhatDone last committed execCtx' =>
          _ ← match last with Some res => record_output nodeId tier res | None => mret tt end;
          match sn_verify node with
          | None => mret (NodeDone last)
          | Some verify =>
              verdict ← runNodeVerify (nv_criteria verify) execCtx';
              if decide (vr_status verdict = v_pass) then mret (NodeDone last) else
              remaining ← gets ts_budget;
              if bool_decide (nv_onFail verify = "self_heal") && negb committed &&
                 (selfHealCount <? nv_maxSelfHeal verify)%Z && (0 <? remaining)%Z
              then
                _ ← set_budget (remaining - 1);
                selfHeal fuel' nodeId node tier ctx
                  (ctx_retry (rc_attempt ctx + (selfHealCount + 1)) ctx) (selfHealCount + 1)
              else mret (NodeReturn "fail_business")
          end
      end
  end.

(** The tiers of a fallback node: [sub] runs the sub-traversal of a tier. *)
Fixpoint runTiers (sub : FallbackTier → M W string) (ctx : RunContext) (tiers : list FallbackTier)
  : M W (FallbackTier * string) :=
  match tiers with
  | [] => throw JsTypeError
  | tier :: rest =>
      tierTerminal ← sub tier;
      if decide (tierTerminal = "fail_security") then mret (tier, tierTerminal) else
      match rest with
      | [] => mret (tier, tierTerminal)
      | _ =>
          advance ← match tier_advanceWhen tier with
                    | Some condition =>
                        ps ← host (d_resolvePageState deps ctx);
                        scope ← gets ts_nodeScope;
                        lift_flow (evaluateCondition date_parse condition (irel_scope ps scope None))
                    | None => mret (isFailureTerminal tierTerminal)
                    end;
          if (advance : bool) then runTiers sub ctx rest else mret (tier, tierTerminal)
      end
  end.

Definition page_ref (ctx : RunContext) : string := "ps_" +:+ ps_structuralHash (rc_pageState ctx).

(** The [@human_task] case of a reserved handler. *)
Definition suspendForHuman (nodeId : string) (input : fields) (returnNode : string) (ctx : RunContext)
    (last : option StepResult) : M W string :=
  ht ← lift (parseHumanTaskInput nodeId (d_params deps) input);
  let pageRef := match last with Some res => sr_pageStateAfter res | None => page_ref ctx end in
  _ ← set_suspend (HumanTaskSuspend
        (mkSuspendBase (nodeId +:+ ".@human_task") returnNode (rc_attempt ctx) pageRef None) nodeId ht);
  mret "suspend".

(** The choice of an [on[]] target, with the reclassification of an unhandled
    login page. *)
Definition chooseBranch (nodeId : string) (branches : list (CompiledOnBranch string)) (ps : PageState)
    (scope : list (string * NodeOutput)) : result Thrown string :=
  match selectOnBranch date_parse nodeId branches (irel_scope ps scope None) with
  | Ok target => Ok target
  | Err (NoBranchMatched n) =>
      if decide (alookup "login_required" (ps_flags ps) = Some true)
      then Err (SessionRegistrationRequired nodeId) else Err (FlowThrown (NoBranchMatched n))
  | Err e => Err (FlowThrown e)
  end.

(** One turn of the [for (;;)] of [traverse]; [next] is what follows it: the
    next turn, or the recursive call of a fallback tier. *)
Definition turn (next : string → RunContext → option string → M W string)
    (nodeId : string) (initialCtx : RunContext) (currentTier : option string) : M W string :=
  remaining ← gets ts_budget;
  if (remaining <=? 0)%Z then throw LoopLimit else
  _ ← set_budget (remaining - 1);
  if decide (nodeId = "@end_no_data") then mret "success_empty" else
  match alookup nodeId (cs_nodes scenario) with
  | None => throw (UnknownNode nodeId)
  | Some node =>
      _ ← push_visited nodeId;
      let ctx := ctx_node nodeId initialCtx in
      pause ← match d_pauseRequested deps with Some f => host (f ctx) | None => mret None end;
      match pause with
      | Some p =>
          _ ← set_suspend (OperatorPauseSuspend
                (mkSuspendBase (nodeId +:+ ".operator_pause") nodeId (rc_attempt ctx) (page_ref ctx) None) p);
          mret "suspend"
      | None =>
          healBudget ← gets ts_budget;
          out ← selfHeal (S (Z.to_nat healBudget)) nodeId node currentTier ctx ctx 0;
          match out with
          | NodeReturn terminal => mret terminal
          | NodeDone last =>
              match sn_flow node with
              | FlowTerminal terminal => mret terminal
              | FlowNext target => next target ctx currentTier
              | FlowLoop until bodyTarget exitTarget maxIterations =>
                  ps ← host (d_resolvePageState deps ctx);
                  iterations ← gets ts_loopState;
                  scope ← gets ts_nodeScope;
                  let ctx' := ctx_page ps ctx in
                  let iteration := default 0%Z (alookup nodeId iterations) in
                  let it := JNum (num_of_Z iteration) in
                  stop ← lift_flow (evaluateCondition date_parse until
                           (irel_scope ps scope (Some [("iteration", it); ("page_count", it)])));
                  if (stop : bool) || num_leb maxIterations (num_of_Z iteration) then
                    _ ← set_loopState (adelete nodeId iterations);
                    next exitTarget ctx' currentTier
                  else
                    _ ← set_loopState (aset nodeId (iteration + 1)%Z iterations);
                    next bodyTarget ctx' currentTier
              | FlowFallback tiers =>
                  adopted ← runTiers (λ tier, next (tier_entryNode tier) ctx (Some (tier_name tier)))
                              ctx tiers;
                  scope ← gets ts_nodeScope;
                  _ ← set_nodeScope (aset nodeId
                        (with_tier (Some (tier_name adopted.1)) (status_output (terminalToStatus adopted.2))) scope);
                  mret adopted.2
              | FlowReservedHandler h_challenge _ _ => throw (HandlerUnsupported "@challenge" nodeId)
              | FlowReservedHandler h_human_task input returnNode =>
                  suspendForHuman nodeId input returnNode ctx last
              | FlowOn branches =>
                  ps ← host (d_resolvePageState deps ctx);
                  scope ← gets ts_nodeScope;
                  target ← lift (chooseBranch nodeId branches ps scope);
                  next target (ctx_page ps ctx) currentTier
              end
          end
      end
  end.

Fixpoint traverse (fuel : nat) : string → RunContext → option string → M W string :=
  match fuel with
  | O => λ _ _ _, throw OutOfFuel
  | S fuel' => turn (traverse fuel')
  end.

(** [maxSteps ?? DEFAULT_MAX_STEPS + allowance]. *)
Definition allowance : Z :=
  let nodeCount := Z.of_nat (length (cs_nodes scenario)) in
  foldr (λ '(_, n) acc,
    (acc + match sn_flow n with
           | FlowLoop _ _ _ maxIterations => default 0 (num_to_Z maxIterations) * nodeCount
           | FlowFallback tiers => Z.of_nat (length tiers) * nodeCount
           | _ => 0
           end)%Z) 0%Z (cs_nodes scenario).

Definition step_budget : Z := default (DEFAULT_MAX_STEPS + allowance)%Z (d_maxSteps deps).

Definition initial_state (w : W) : TraversalState W :=
  mkState w (default [] (d_resumeNodeOutputs deps)) [] [] [] [] [] step_budget None None.

Definition outcome_of (s : TraversalState W) (terminal : string) : ScenarioOutcome :=
  let pages := match ts_extractPages s with [] => None | ps => Some ps end in
  mkOutcome terminal (ts_visited s) (ts_steps s) (ts_artifacts s) pages
    (ps ← pages; Some (mergeExtractOutputs (map ep_output ps) None))
    (ts_suspendBox s) (ex_code <$> ts_failureBox s).

Definition runScenario (initialCtx : RunContext) (w : W) : W * result Thrown ScenarioOutcome :=
  let start := default (cs_start scenario) (d_startNode deps) in
  match traverse (S (Z.to_nat step_budget)) start initialCtx None (initial_state w) with
  | (s, Ok terminal) => (ts_world s, Ok (outcome_of s terminal))
  | (s, Err e) => (ts_world s, Err e)
  end.
End Interpreter.
