(* ===== verification/InterpreterProps.v ===== *)
(** * Properties of the interpreter

    Every change a traversal makes to the shared state is one of the atomic
    steps of [tick] ([traverse_ticks]); invariants of the state follow by
    induction on the steps.  The same proof shows that the fuel of the model is
    enough: the interpreter terminates for every scenario and every host. *)

From stdpp Require Import base strings list gmap pretty relations sets.
From Stdlib Require Import ZArith SpecFloat.
From S2P Require Import Prelude JsValue IrelSyntax IrelEval FlowControl JsText HumanTask ExtractMerge Interpreter.

(** ** Weakest preconditions *)

Section Wp.
Context {W : Type}.
Implicit Types s : TraversalState W.

Definition wp {A} (m : M W A) s (Q : TraversalState W → result Thrown A → Prop) : Prop :=
  let '(s', r) := m s in Q s' r.

Lemma wp_intro {A} (m : M W A) s (Q : TraversalState W → result Thrown A → Prop) s' r :
  m s = (s', r) → wp m s Q → Q s' r.
Proof. unfold wp. by intros ->. Qed.

Lemma wp_mono {A} (m : M W A) s (P Q : TraversalState W → result Thrown A → Prop) :
  (∀ s' r, P s' r → Q s' r) → wp m s P → wp m s Q.
Proof. unfold wp. destruct (m s). auto. Qed.

Lemma wp_and {A} (m : M W A) s (P Q : TraversalState W → result Thrown A → Prop) :
  wp m s P → wp m s Q → wp m s (λ s' r, P s' r ∧ Q s' r).
Proof. unfold wp. destruct (m s). auto. Qed.

Lemma wp_bind {A B} (m : M W A) (k : A → M W B) s (Q : TraversalState W → result Thrown B → Prop) :
  wp m s (λ s' r, match r with Ok a => wp (k a) s' Q | Err e => Q s' (Err e) end) →
  wp (m ≫= k) s Q.
Proof. unfold wp, mbind, M_bind. destruct (m s) as [s' []]; done. Qed.

Lemma wp_host {A} (f : W → W * result string A) s (Q : TraversalState W → result Thrown A → Prop) :
  (∀ w r, Q (mkState w (ts_nodeScope s) (ts_loopState s) (ts_visited s) (ts_steps s) (ts_artifacts s)
              (ts_extractPages s) (ts_budget s) (ts_suspendBox s) (ts_failureBox s))
            (match r with Ok a => Ok a | Err m => Err (HostThrown m) end)) →
  wp (host f) s Q.
Proof. unfold wp, host. destruct (f (ts_world s)) as [w r]. intros H. exact (H w r). Qed.
End Wp.

(** ** Atomic steps *)

Section Ticks.
Context {W : Type} (scenario : CompiledScenario).
Implicit Types s : TraversalState W.

(** Where a suspended run resumes: at the node it was visiting, or at the
    return node of the human task it visits, whose input is valid. *)
Definition resumable (visited : list string) (c : SuspendContext) : Prop :=
  match c with
  | ChallengeSuspend b _ | OperatorPauseSuspend b _ => su_resumeNodeId b ∈ visited
  | HumanTaskSuspend b n h =>
      n ∈ visited ∧
      (∃ node input, alookup n (cs_nodes scenario) = Some node ∧
         sn_flow node = FlowReservedHandler h_human_task input (su_resumeNodeId b)) ∧
      blank (hti_assigneeRole h) = false ∧
      ∀ ms, hti_timeoutMs h = Some ms → (HUMAN_TASK_MIN_TIMEOUT_MS <= ms <= HUMAN_TASK_MAX_TIMEOUT_MS)%Z
  end.

Inductive tick : TraversalState W → TraversalState W → Prop :=
| tick_host w w' ns ls vs ss ar ps b su fa :
    tick (mkState w ns ls vs ss ar ps b su fa) (mkState w' ns ls vs ss ar ps b su fa)
| tick_output n o w ns ls vs ss ar ps b su fa :
    tick (mkState w ns ls vs ss ar ps b su fa) (mkState w (aset n o ns) ls vs ss ar ps b su fa)
| tick_spend w ns ls vs ss ar ps b su fa : (0 < b)%Z →
    tick (mkState w ns ls vs ss ar ps b su fa) (mkState w ns ls vs ss ar ps (b - 1) su fa)
| tick_visit n w ns ls vs ss ar ps b su fa : (0 < b)%Z → n ∈ (cs_nodes scenario).*1 →
    tick (mkState w ns ls vs ss ar ps b su fa) (mkState w ns ls (vs ++ [n]) ss ar ps (b - 1) su fa)
| tick_step st arts w ns ls vs ss ar ps b su fa : is_nodeId st ∈ vs →
    tick (mkState w ns ls vs ss ar ps b su fa) (mkState w ns ls vs (ss ++ [st]) (ar ++ arts) ps b su fa)
| tick_page p w ns ls vs ss ar ps b su fa :
    tick (mkState w ns ls vs ss ar ps b su fa) (mkState w ns ls vs ss ar (ps ++ [p]) b su fa)
| tick_suspend c w ns ls vs ss ar ps b su fa : resumable vs c →
    tick (mkState w ns ls vs ss ar ps b su fa) (mkState w ns ls vs ss ar ps b (Some c) fa)
| tick_failure e w ns ls vs ss ar ps b su fa :
    tick (mkState w ns ls vs ss ar ps b su fa) (mkState w ns ls vs ss ar ps b su (Some e))
| tick_iterate n node until body exit max w ns ls vs ss ar ps b su fa :
    alookup n (cs_nodes scenario) = Some node → sn_flow node = FlowLoop until body exit max →
    num_leb max (num_of_Z (default 0%Z (alookup n ls))) = false →
    tick (mkState w ns ls vs ss ar ps b su fa)
         (mkState w ns (aset n (default 0 (alookup n ls) + 1)%Z ls) vs ss ar ps b su fa)
| tick_exit n w ns ls vs ss ar ps b su fa :
    tick (mkState w ns ls vs ss ar ps b su fa) (mkState w ns (adelete n ls) vs ss ar ps b su fa).

Abbreviation ticks := (rtc tick).

Lemma ticks_budget s s' : ticks s s' → (ts_budget s' <= ts_budget s)%Z.
Proof. induction 1 as [|s s' s'' H _ IH]; [lia|]. destruct H; simpl in *; lia. Qed.

Lemma ticks_visited s s' : ticks s s' → ts_visited s `prefix_of` ts_visited s'.
Proof.
  induction 1 as [|s s' s'' H _ IH]; [done|]. destruct H; simpl in *; try done.
  etrans; [|done]. by apply prefix_app_r.
Qed.

Lemma ticks_elem n s s' : ticks s s' → n ∈ ts_visited s → n ∈ ts_visited s'.
Proof. intros [vs ->]%ticks_visited Hn. apply elem_of_app. by left. Qed.
End Ticks.

Arguments wp : simpl never.
#[export] Hint Resolve rtc_refl : core.

Section Traversal.
Context {W : Type} (date_parse : string → option Z) (scenario : CompiledScenario) (deps : InterpreterDeps W).
Implicit Types s : TraversalState W.
Abbreviation ticks := (rtc (tick (W:=W) scenario)).

(** The effect of a computation is a sequence of atomic steps, and it does not
    run out of fuel. *)
Definition tame {A} s (s' : TraversalState W) (r : result Thrown A) : Prop :=
  ticks s s' ∧ r ≠ Err OutOfFuel.

Lemma tame_bind {A B} (m : M W A) (k : A → M W B) s :
  wp m s (tame s) → (∀ s' a, ticks s s' → wp (k a) s' (tame s')) → wp (m ≫= k) s (tame s).
Proof.
  intros Hm Hk. apply wp_bind. eapply wp_mono; [|exact Hm]. intros s' [a|e] [Ht Hf].
  - eapply wp_mono; [|by apply Hk]. intros s'' r [Ht' Hf']. split; [by etrans|done].
  - split; [done|]. congruence.
Qed.

Lemma tame_ret {A} s (a : A) : wp (mret a) s (tame s).
Proof. by split. Qed.
Lemma tame_throw {A} s e : e ≠ OutOfFuel → wp (throw (A:=A) e) s (tame s).
Proof. split; [done|]. congruence. Qed.
Lemma tame_lift {A} s (r : result Thrown A) : r ≠ Err OutOfFuel → wp (lift r) s (tame s).
Proof. by split. Qed.
Lemma tame_lift_flow {A} s (r : result FlowError A) : wp (lift_flow r) s (tame s).
Proof. split; [done|]. by destruct r. Qed.
Lemma tame_gets {A} s (f : TraversalState W → A) : wp (gets f) s (tame s).
Proof. by split. Qed.
Lemma tame_host {A} s (f : W → W * result string A) : wp (host f) s (tame s).
Proof.
  apply wp_host. intros w r. split; [|by destruct r]. destruct s. apply rtc_once. constructor.
Qed.
Lemma tame_suspend s c : resumable scenario (ts_visited s) c → wp (set_suspend c) s (tame s).
Proof. intros H. split; [|done]. destruct s. apply rtc_once. by constructor. Qed.
Lemma tame_failure s e : wp (set_failure e) s (tame s).
Proof. split; [|done]. destruct s, e; simpl; [|done]. apply rtc_once. constructor. Qed.
Lemma tame_page s p : wp (push_page p) s (tame s).
Proof. split; [|done]. destruct s. apply rtc_once. constructor. Qed.
Lemma tame_step s st arts : is_nodeId st ∈ ts_visited s → wp (push_step st arts) s (tame s).
Proof. intros H. split; [|done]. destruct s. apply rtc_once. by constructor. Qed.

(** A read of the node scope followed by its update. *)
Lemma tame_output {A} s n o (k : M W A) :
  (∀ s', ticks s s' → wp k s' (tame s')) →
  wp (scope ← gets ts_nodeScope; _ ← set_nodeScope (aset n o scope); k) s (tame s).
Proof.
  intros Hk. apply wp_bind, wp_bind. simpl. unfold wp at 1 2. simpl.
  destruct s. eapply wp_mono; [|apply Hk, rtc_once, (tick_output _ n o)]. simpl.
  intros s' r [Ht Hf]. split; [|done]. eapply rtc_l; [|exact Ht]. constructor.
Qed.

(** Spending one unit of the budget. *)
Lemma tame_spend {A} s (k : M W A) : (0 < ts_budget s)%Z →
  (∀ s', ticks s s' → ts_budget s' = (ts_budget s - 1)%Z → wp k s' (tame s')) →
  wp (_ ← set_budget (ts_budget s - 1); k) s (tame s).
Proof.
  intros Hb Hk. apply wp_bind. unfold wp at 1. cbn [set_budget].
  set (s' := mkState _ _ _ _ _ _ _ (ts_budget s - 1) _ _).
  assert (Hs : ticks s s') by (subst s'; destruct s; apply rtc_once; by constructor).
  eapply wp_mono; [|by apply Hk]. intros s'' r [Ht Hf]. split; [by etrans|done].
Qed.

Lemma tame_record s n t res : wp (record_output n t res) s (tame s).
Proof.
  unfold record_output. apply wp_bind. unfold wp at 1. simpl. split; [|done].
  destruct s. apply rtc_once. constructor.
Qed.

Hint Resolve tame_ret tame_throw tame_lift_flow tame_gets tame_host tame_failure tame_page
  tame_record : tame.

Lemma tame_collect s n k res : wp (collectExtractPage n k res) s (tame s).
Proof. unfold collectExtractPage. case_decide; [auto with tame|]. by repeat case_match; auto with tame. Qed.

Lemma tame_verify criteria ctx : ∀ s last, wp (runNodeVerify_loop deps criteria ctx last) s (tame s).
Proof.
  induction criteria as [|c criteria IH]; intros s last; cbn [runNodeVerify_loop]; [auto with tame|].
  apply tame_bind; [auto with tame|]. intros s' vr _. case_decide; auto with tame.
Qed.

Lemma resolveAction_no_fuel a scope : resolveActionValueFromNode a scope ≠ Err OutOfFuel.
Proof. unfold resolveActionValueFromNode. by repeat case_match. Qed.

Hint Resolve tame_collect tame_verify resolveAction_no_fuel tame_lift : tame.

Lemma tame_runWhat n t actions : ∀ k last com ctx s, n ∈ ts_visited s →
  wp (runWhat deps n t k actions last com ctx) s (tame s).
Proof.
  induction actions as [|a actions IH]; intros k last com ctx s Hn; cbn [runWhat]; [auto with tame|].
  apply tame_bind; [auto with tame|]. intros s1 scope H1.
  apply tame_bind; [auto with tame|]. intros s2 action H2.
  apply tame_bind; [auto with tame|]. intros s3 res H3.
  assert (Hn3 : n ∈ ts_visited s3) by (eapply ticks_elem; [|exact Hn]; by do 2 (etrans; [eassumption|])).
  apply tame_bind; [by apply tame_step|]. intros s4 _ H4.
  case_decide.
  - apply tame_bind; [auto with tame|]. intros s5 _ H5.
    apply IH. eapply ticks_elem; [|exact Hn3]. by etrans.
  - apply tame_bind; [auto with tame|]. intros s5 _ H5. destruct (failureTerminal _) as [term|].
    + apply tame_bind; auto with tame.
    + case_decide; [|by apply tame_throw]. destruct (challenge_kind _); [|by apply tame_throw].
      apply tame_bind; [|auto with tame]. apply tame_suspend. eapply ticks_elem; [|exact Hn3]. by etrans.
Qed.

Lemma tame_selfHeal n node t ctx fuel : ∀ ctx' count s, n ∈ ts_visited s → (ts_budget s < Z.of_nat fuel)%Z →
  (0 < fuel)%nat → wp (selfHeal deps fuel n node t ctx ctx' count) s (tame s).
Proof.
  induction fuel as [|fuel IH]; intros ctx' count s Hn Hb Hf; [lia|]. cbn [selfHeal].
  apply tame_bind; [by apply tame_runWhat|]. intros s1 [last com ctx1|term] H1; [|auto with tame].
  apply tame_bind; [destruct last; auto with tame|]. intros s2 _ H2.
  destruct (sn_verify node) as [v|]; [|auto with tame].
  apply tame_bind; [unfold runNodeVerify; auto with tame|]. intros s3 verdict H3. case_decide; [auto with tame|].
  assert (H03 : ticks s s3) by (do 2 (etrans; [eassumption|]); done).
  apply wp_bind. unfold wp at 1. cbn [gets].
  destruct (_ && (0 <? ts_budget s3)%Z) eqn:E; [|auto with tame].
  apply andb_true_iff in E as [_ E%Z.ltb_lt]. assert (Hle := ticks_budget _ _ _ H03).
  apply tame_spend; [done|]. intros s4 H4 Hb4.
  apply IH; [|lia|lia]. eapply ticks_elem; [|exact Hn]. by etrans.
Qed.

Lemma tame_runTiers sub ctx tiers : ∀ s,
  (∀ tier s', ticks s s' → wp (sub tier) s' (tame s')) →
  wp (runTiers date_parse deps sub ctx tiers) s (tame s).
Proof.
  induction tiers as [|tier rest IH]; intros s Hsub; cbn [runTiers]; [by apply tame_throw|].
  apply tame_bind; [by apply Hsub|]. intros s1 term H1. case_decide; [auto with tame|].
  destruct rest as [|tier' rest]; [auto with tame|].
  apply tame_bind.
  { destruct (tier_advanceWhen tier); [|auto with tame].
    apply tame_bind; [auto with tame|]. intros s2 ps H2.
    apply tame_bind; [auto with tame|]. intros s3 sc H3. auto with tame. }
  intros s2 [] H2; [|auto with tame]. apply IH. intros tier0 s' H'. apply Hsub.
  etrans; [exact H1|]. by etrans.
Qed.

Lemma collect_no_fuel {A B} (f : A → result Thrown B) l :
  (∀ a, a ∈ l → f a ≠ Err OutOfFuel) → collect f l ≠ Err OutOfFuel.
Proof.
  induction l as [|a l IH]; intros H; [done|].
  change (collect f (a :: l)) with (b ← f a; bs ← collect f l; Ok (b :: bs)). intros Hf.
  apply result_bind_Err in Hf as [Hf|(b & _ & Hf)]; [by apply (H a); [left|]|].
  apply result_bind_Err in Hf as [Hf|(bs & _ & Hf)]; [|done].
  apply IH; [|done]. intros x Hx. apply H. by right.
Qed.

Lemma resolvePayload_no_fuel n params v : resolvePayloadParams n params v ≠ Err OutOfFuel.
Proof.
  induction v as [| | | |l IH|f IH] using json_nested_ind; try done.
  - cbn [resolvePayloadParams]. intros [Hf|(rs & _ & Hf)]%result_bind_Err; [|done].
    revert Hf. apply collect_no_fuel. rewrite Forall_forall in IH. auto.
  - assert (Hc : (rs ← collect (λ '(k, v), r ← resolvePayloadParams n params v; Ok (k, r)) f; Ok (JObj rs)) ≠
                 Err OutOfFuel).
    { intros [Hf|(rs & _ & Hf)]%result_bind_Err; [|done]. revert Hf. apply collect_no_fuel.
      intros [k v] Hin [Hf|(r & _ & Hf)]%result_bind_Err; [|done].
      rewrite Forall_forall in IH. by apply (IH _ Hin). }
    cbn [resolvePayloadParams]. destruct f as [|[k []] [|]]; try exact Hc. by repeat case_match.
Qed.

Lemma parseHumanTaskInput_no_fuel n params input : parseHumanTaskInput n params input ≠ Err OutOfFuel.
Proof.
  unfold parseHumanTaskInput, parseKind, parseOnTimeout, parseTimeout, optionalRecordInput,
    optionalStringArrayInput, bad.
  intros H. repeat (apply result_bind_Err in H as [H|(? & _ & H)]); try by (repeat case_match).
  destruct x3 as [p|]; [|done]. apply result_bind_Err in H as [H|(? & _ & H)]; [|done].
  revert H. apply collect_no_fuel. intros [k v] _ [Hf|(r & _ & Hf)]%result_bind_Err; [|done].
  by apply resolvePayload_no_fuel in Hf.
Qed.

Lemma chooseBranch_no_fuel n bs ps sc : chooseBranch date_parse deps n bs ps sc ≠ Err OutOfFuel.
Proof. unfold chooseBranch. by repeat case_match. Qed.

Lemma tame_visit {A} s n (k : M W A) : (0 < ts_budget s)%Z → n ∈ (cs_nodes scenario).*1 →
  (∀ s', ticks s s' → ts_budget s' = (ts_budget s - 1)%Z → n ∈ ts_visited s' → wp k s' (tame s')) →
  wp (_ ← set_budget (ts_budget s - 1); _ ← push_visited n; k) s (tame s).
Proof.
  intros Hb Hn Hk. apply wp_bind. unfold wp at 1. cbn [set_budget]. apply wp_bind. unfold wp at 1.
  cbn [push_visited]. set (s' := mkState _ _ _ _ _ _ _ _ _ _).
  assert (Hs : ticks s s') by (subst s'; destruct s; apply rtc_once; by constructor).
  eapply wp_mono; [|apply Hk; [done|done|]]; [|subst s'; simpl; set_solver].
  intros s'' r [Ht Hf]. split; [by etrans|done].
Qed.

(** The update of a loop counter, read from the same state. *)
Lemma tame_loop {A} s f (k : M W A) :
  (∀ s', ticks s s' → wp k s' (tame s')) →
  (∀ (w : W) ns vs ss ar ps b su fa,
     tick scenario (mkState w ns (ts_loopState s) vs ss ar ps b su fa)
       (mkState w ns (f (ts_loopState s)) vs ss ar ps b su fa)) →
  wp (_ ← set_loopState (f (ts_loopState s)); k) s (tame s).
Proof.
  intros Hk Hf. apply wp_bind. unfold wp at 1. cbn [set_loopState]. set (s' := mkState _ _ _ _ _ _ _ _ _ _).
  assert (Hs : ticks s s') by (subst s'; destruct s; apply rtc_once; by apply Hf).
  eapply wp_mono; [|by apply Hk]. intros s'' r [Ht ?]. split; [by etrans|done].
Qed.

Hint Resolve chooseBranch_no_fuel parseHumanTaskInput_no_fuel : tame.

Theorem traverse_tame fuel : ∀ n ctx tier s, (0 < fuel)%nat → (ts_budget s < Z.of_nat fuel)%Z →
  wp (traverse date_parse scenario deps fuel n ctx tier) s (tame s).
Proof.
  induction fuel as [|fuel IH]; intros n ctx tier s Hf Hb; [lia|]. cbn [traverse]. unfold turn.
  apply wp_bind. unfold wp at 1. cbn [gets]. destruct (ts_budget s <=? 0)%Z eqn:E; [by apply tame_throw|].
  apply Z.leb_gt in E.
  assert (IH' : ∀ n ctx tier s1, ticks s s1 → (ts_budget s1 <= ts_budget s - 1)%Z →
    wp (traverse date_parse scenario deps fuel n ctx tier) s1 (tame s1)).
  { intros. apply IH; lia. }
  clear IH. case_decide.
  { apply tame_spend; auto with tame. }
  destruct (alookup n (cs_nodes scenario)) as [node|] eqn:En.
  2:{ apply tame_spend; [done|]. intros. by apply tame_throw. }
  apply tame_visit; [done|by apply alookup_is_Some|]. intros s1 H1 Hb1 Hn1.
  assert (IH : ∀ n ctx tier s', ticks s1 s' →
    wp (traverse date_parse scenario deps fuel n ctx tier) s' (tame s')).
  { intros n' ctx' tier' s' H'. apply IH'; [by etrans|]. apply ticks_budget in H'. lia. }
  clear IH'. apply tame_bind; [destruct (d_pauseRequested deps); auto with tame|].
  intros s2 [p|] H2.
  { apply tame_bind; [|auto with tame]. apply tame_suspend. by eapply ticks_elem. }
  apply wp_bind. unfold wp at 1. cbn [gets].
  apply tame_bind.
  { apply tame_selfHeal; [by eapply ticks_elem|lia|lia]. }
  intros s3 [last|term] H3; [|auto with tame].
  assert (H13 : ticks s1 s3) by (by etrans). clear H2 H3.
  assert (IH' : ∀ n ctx tier s', ticks s3 s' →
    wp (traverse date_parse scenario deps fuel n ctx tier) s' (tame s')).
  { intros. apply IH. by etrans. }
  clear IH. destruct (sn_flow node) as [t|t|bs|until body exit max|tiers|[] input ret] eqn:Efl.
  - auto with tame.
  - auto.
  - apply tame_bind; [auto with tame|]. intros s4 ps H4. apply tame_bind; [auto with tame|]. intros s5 sc H5.
    apply tame_bind; [auto with tame|]. intros s6 target H6. apply IH'. etrans; [exact H4|]. by etrans.
  - apply tame_bind; [auto with tame|]. intros s4 ps H4.
    apply wp_bind. unfold wp at 1. cbn [gets]. apply wp_bind. unfold wp at 1. cbn [gets].
    apply wp_bind. unfold wp at 1. cbn [lift_flow lift].
    destruct (evaluateCondition _ _ _) as [stop|e]; [|by split].
    destruct (stop || _) eqn:Es.
    + apply (tame_loop s4 (adelete n)); [|intros; constructor]. intros s5 H5. apply IH'. by etrans.
    + apply (tame_loop s4 (λ l, aset n (default 0 (alookup n l) + 1)%Z l)).
      * intros s5 H5. apply IH'. by etrans.
      * intros. econstructor; [done..|]. by apply orb_false_iff in Es as [_ ?].
  - apply tame_bind.
    { apply tame_runTiers. intros tier' s' H'. by apply IH'. }
    intros s4 [a t] H4. apply tame_output. auto with tame.
  - by apply tame_throw.
  - unfold suspendForHuman. apply wp_bind. unfold wp at 1. cbn [lift].
    destruct (parseHumanTaskInput n (d_params deps) input) as [h|e] eqn:Eh.
    2:{ split; [done|]. intros [= ->]. by apply parseHumanTaskInput_no_fuel in Eh. }
    apply parseHumanTaskInput_valid in Eh. apply tame_bind; [|auto with tame].
    apply tame_suspend. split; [by eapply ticks_elem|]. split; [by eauto|done].
Qed.
End Traversal.

(** ** Security failures stop the run *)

Section Security.
Context {W : Type} (date_parse : string → option Z) (scenario : CompiledScenario) (deps : InterpreterDeps W).
Implicit Types s : TraversalState W.

Definition insecure (st : InterpreterStep) : Prop := is_status st = failed_security.
Definition no_sec s : Prop := Forall (λ st, ¬ insecure st) (ts_steps s).
Definition sec_last s : Prop :=
  ∃ pre st, ts_steps s = pre ++ [st] ∧ Forall (λ st, ¬ insecure st) pre ∧ insecure st.

(** No security failure so far, or it was the last step and the result stops. *)
Definition sec {A} (stop : A → Prop) s (r : result Thrown A) : Prop :=
  no_sec s ∨ sec_last s ∧ ∃ a, r = Ok a ∧ stop a.

Definition quiet {A} (m : M W A) : Prop := ∀ s s' r, m s = (s', r) → ts_steps s' = ts_steps s.

Lemma quiet_wp {A} (m : M W A) s : quiet m → wp m s (λ s' _, ts_steps s' = ts_steps s).
Proof. intros H. unfold wp. destruct (m s) eqn:E. by eapply H. Qed.

Lemma quiet_bind {A B} (m : M W A) (k : A → M W B) : quiet m → (∀ a, quiet (k a)) → quiet (m ≫= k).
Proof.
  intros Hm Hk s s' r. unfold mbind, M_bind. destruct (m s) as [s1 [a|e]] eqn:E; intros H.
  - apply Hk in H. apply Hm in E. congruence.
  - apply Hm in E. by simplify_eq.
Qed.

Lemma quiet_host {A} (f : W → W * result string A) : quiet (host f).
Proof. intros s s' r. unfold host. destruct (f _). by intros [= <- _]. Qed.
Lemma quiet_record n t res : quiet (record_output n t res : M W _).
Proof. intros s s' r [= <- _]. done. Qed.
Lemma quiet_collect n k res : quiet (collectExtractPage n k res : M W _).
Proof. intros s s' r. unfold collectExtractPage. repeat case_match; by intros [= <- _]. Qed.
Lemma quiet_ret {A} (a : A) : quiet (mret a : M W _).
Proof. intros s s' r [= <- _]. done. Qed.
Lemma quiet_lift {A} (x : result Thrown A) : quiet (lift x : M W _).
Proof. intros s s' r [= <- _]. done. Qed.
Lemma quiet_lift_flow {A} (x : result FlowError A) : quiet (lift_flow x : M W _).
Proof. intros s s' r [= <- _]. done. Qed.
Lemma quiet_gets {A} (f : TraversalState W → A) : quiet (gets f).
Proof. intros s s' r [= <- _]. done. Qed.
Lemma quiet_throw {A} e : quiet (throw e : M W A).
Proof. intros s s' r [= <- _]. done. Qed.
Lemma quiet_suspend c : quiet (set_suspend c : M W _).
Proof. intros s s' r [= <- _]. done. Qed.
Lemma quiet_failure e : quiet (set_failure e : M W _).
Proof. intros s s' r [= <- _]. done. Qed.
Lemma quiet_budget b : quiet (set_budget b : M W _).
Proof. intros s s' r [= <- _]. done. Qed.
Lemma quiet_visited n : quiet (push_visited n : M W _).
Proof. intros s s' r [= <- _]. done. Qed.
Lemma quiet_scope x : quiet (set_nodeScope x : M W _).
Proof. intros s s' r [= <- _]. done. Qed.
Lemma quiet_loop x : quiet (set_loopState x : M W _).
Proof. intros s s' r [= <- _]. done. Qed.

Hint Resolve quiet_bind quiet_host quiet_record quiet_collect quiet_ret quiet_lift quiet_lift_flow quiet_gets
  quiet_throw quiet_suspend quiet_failure quiet_budget quiet_visited quiet_scope quiet_loop : quiet.

Lemma quiet_verify criteria ctx last : quiet (runNodeVerify_loop deps criteria ctx last).
Proof.
  revert last. induction criteria as [|c cs IH]; intros last; cbn [runNodeVerify_loop]; [auto with quiet|].
  apply quiet_bind; [auto with quiet|]. intros vr. case_decide; auto with quiet.
Qed.
Hint Resolve quiet_verify : quiet.

Lemma sec_quiet {A} (m : M W A) s stop : quiet m → no_sec s → wp m s (sec stop).
Proof.
  intros H Hs. eapply wp_mono; [|by apply quiet_wp]. intros s' r Heq. left. unfold no_sec. by rewrite Heq.
Qed.

Lemma sec_bind {A B} (m : M W A) (k : A → M W B) stopA stopB s :
  wp m s (sec stopA) → (∀ s' a, no_sec s' → wp (k a) s' (sec stopB)) →
  (∀ s' a, sec_last s' → stopA a → wp (k a) s' (sec stopB)) → wp (m ≫= k) s (sec stopB).
Proof.
  intros Hm Hk Hl. apply wp_bind. eapply wp_mono; [|exact Hm]. intros s' [a|e] [Hs|(Hs & a' & Ha & Hst)].
  - by apply Hk.
  - injection Ha as <-. by apply Hl.
  - by left.
  - done.
Qed.

(** The common case: the first computation issues no step. *)
Lemma sec_bind_quiet {A B} (m : M W A) (k : A → M W B) stop s : quiet m → no_sec s →
  (∀ s' a, no_sec s' → wp (k a) s' (sec stop)) → wp (m ≫= k) s (sec stop).
Proof. intros Hm Hs Hk. by apply (sec_bind m k (λ _, False)); [apply sec_quiet| |]. Qed.

Lemma sec_stop {A} s (a : A) (stop : A → Prop) : sec_last s → stop a → wp (mret a) s (sec stop).
Proof. intros Hs Ha. right. eauto. Qed.

Lemma sec_runWhat n t actions : ∀ k last com ctx s, no_sec s →
  wp (runWhat deps n t k actions last com ctx) s (sec (λ o, o = WhatReturn "fail_security")).
Proof.
  induction actions as [|a actions IH]; intros k last com ctx s Hs; cbn [runWhat]; [apply sec_quiet; auto with quiet|].
  do 2 (apply sec_bind_quiet; [auto with quiet|done|]; clear s Hs; intros s ? Hs).
  apply sec_bind_quiet; [auto with quiet|done|]; clear s Hs; intros s res Hs.
  destruct (decide (sr_status res = failed_security)) as [E|E].
  - rewrite E. rewrite decide_False by done. cbn [failureTerminal].
    assert (Hq : quiet (_ ← record_output n t res; _ ← set_failure (sr_exception res); mret (WhatReturn "fail_security")))
      by (auto with quiet).
    apply wp_bind. unfold wp at 1. cbn [push_step]. set (s' := mkState _ _ _ _ _ _ _ _ _ _).
    assert (Hl : sec_last s') by (by eexists _, _).
    apply wp_mono with (P := λ s'' r, ts_steps s'' = ts_steps s' ∧ r = Ok (WhatReturn "fail_security")).
    2:{ apply wp_and; [by apply quiet_wp|reflexivity]. }
    intros s'' r [Heq ->]. right. split; [unfold sec_last; by rewrite Heq|eauto].
  - apply wp_bind. unfold wp at 1. cbn [push_step]. set (s' := mkState _ _ _ _ _ _ _ _ _ _).
    assert (Hs' : no_sec s').
    { unfold no_sec in *. subst s'. cbn [ts_steps]. apply Forall_app. split; [done|]. by repeat constructor. }
    case_decide; [apply sec_bind_quiet; [auto with quiet|done|]; intros; by apply IH|].
    apply sec_bind_quiet; [auto with quiet|done|]. intros s1 _ Hs1.
    destruct (failureTerminal _); [apply sec_quiet; auto with quiet|].
    case_decide; [|apply sec_quiet; auto with quiet].
    destruct (challenge_kind _); apply sec_quiet; auto with quiet.
Qed.

Lemma sec_selfHeal n node t ctx fuel : ∀ ctx' count s, no_sec s →
  wp (selfHeal deps fuel n node t ctx ctx' count) s (sec (λ o, o = NodeReturn "fail_security")).
Proof.
  induction fuel as [|fuel IH]; intros ctx' count s Hs; cbn [selfHeal]; [apply sec_quiet; auto with quiet|].
  eapply sec_bind; [by apply sec_runWhat| |].
  2:{ intros s1 ? Hl ->. by apply sec_stop. }
  intros s1 [last com ctx1|term] Hs1; [|apply sec_quiet; auto with quiet].
  apply sec_bind_quiet; [destruct last; auto with quiet|done|]. intros s2 _ Hs2.
  destruct (sn_verify node) as [v|]; [|apply sec_quiet; auto with quiet].
  apply sec_bind_quiet; [unfold runNodeVerify; auto with quiet|done|]. intros s3 verdict Hs3.
  case_decide; [apply sec_quiet; auto with quiet|].
  apply sec_bind_quiet; [auto with quiet|done|]. intros s4 b Hs4.
  destruct (_ && _); [|apply sec_quiet; auto with quiet].
  apply sec_bind_quiet; [auto with quiet|done|]. intros. by apply IH.
Qed.

Lemma sec_runTiers sub ctx tiers : ∀ s,
  (∀ tier s', no_sec s' → wp (sub tier) s' (sec (λ t, t = "fail_security"))) → no_sec s →
  wp (runTiers date_parse deps sub ctx tiers) s (sec (λ p, p.2 = "fail_security")).
Proof.
  induction tiers as [|tier rest IH]; intros s Hsub Hs; cbn [runTiers]; [apply sec_quiet; auto with quiet|].
  eapply sec_bind; [by apply Hsub| |].
  2:{ intros s1 ? Hl ->. rewrite decide_True by done. by apply sec_stop. }
  intros s1 term Hs1. case_decide; [apply sec_quiet; auto with quiet|].
  destruct rest as [|tier' rest]; [apply sec_quiet; auto with quiet|].
  apply sec_bind_quiet; [destruct (tier_advanceWhen tier); auto with quiet|done|].
  intros s2 [] Hs2; [|apply sec_quiet; auto with quiet]. by apply IH.
Qed.

Lemma sec_traverse fuel : ∀ n ctx tier s, no_sec s →
  wp (traverse date_parse scenario deps fuel n ctx tier) s (sec (λ t, t = "fail_security")).
Proof.
  induction fuel as [|fuel IH]; intros n ctx tier s Hs; cbn [traverse]; [apply sec_quiet; auto with quiet|]. unfold turn.
  apply sec_bind_quiet; [auto with quiet|done|]. clear s Hs. intros s b Hs.
  destruct (b <=? 0)%Z; [apply sec_quiet; auto with quiet|].
  apply sec_bind_quiet; [auto with quiet|done|]. clear s Hs. intros s _ Hs.
  case_decide; [apply sec_quiet; auto with quiet|].
  destruct (alookup n (cs_nodes scenario)) as [node|]; [|apply sec_quiet; auto with quiet].
  apply sec_bind_quiet; [auto with quiet|done|]. clear s Hs. intros s _ Hs.
  apply sec_bind_quiet; [destruct (d_pauseRequested deps); auto with quiet|done|]. clear s Hs.
  intros s [p|] Hs; [apply sec_quiet; auto with quiet|].
  apply sec_bind_quiet; [auto with quiet|done|]. clear s Hs. intros s hb Hs.
  eapply sec_bind; [by apply sec_selfHeal| |].
  2:{ intros s1 ? Hl ->. by apply sec_stop. }
  clear s Hs. intros s [last|term] Hs; [|apply sec_quiet; auto with quiet].
  destruct (sn_flow node) as [t|t|bs|until body exit max|tiers|[] input ret].
  - apply sec_quiet; auto with quiet.
  - by apply IH.
  - do 3 (apply sec_bind_quiet; [auto with quiet|done|]; clear s Hs; intros s ? Hs). by apply IH.
  - do 4 (apply sec_bind_quiet; [auto with quiet|done|]; clear s Hs; intros s ? Hs).
    destruct (_ || _); (apply sec_bind_quiet; [auto with quiet|done|]); intros; by apply IH.
  - eapply sec_bind.
    + apply sec_runTiers; [|done]. intros. by apply IH.
    + intros s1 p Hs1. apply sec_quiet; auto 6 with quiet.
    + intros s1 [a t] Hl Ht. simpl in Ht. subst t. right. split; [exact Hl|eauto].
  - apply sec_quiet; auto with quiet.
  - apply sec_quiet; [|done]. unfold suspendForHuman. auto 6 with quiet.
Qed.
End Security.

(** ** More fuel changes nothing *)

Section Fuel.
Context {W : Type} (date_parse : string → option Z) (scenario : CompiledScenario) (deps : InterpreterDeps W).

Definition approx {A} (m m' : M W A) : Prop := ∀ s, (m s).2 ≠ Err OutOfFuel → m' s = m s.

Lemma approx_refl {A} (m : M W A) : approx m m.
Proof. done. Qed.

Lemma approx_bind {A B} (m m' : M W A) (k k' : A → M W B) :
  approx m m' → (∀ a, approx (k a) (k' a)) → approx (m ≫= k) (m' ≫= k').
Proof.
  intros Hm Hk s. unfold mbind, M_bind. specialize (Hm s). destruct (m s) as [s1 [a|e]] eqn:E; simpl in *.
  - intros H. rewrite Hm by done. by apply Hk.
  - intros H. rewrite Hm; [done|congruence].
Qed.

Lemma approx_runTiers sub sub' ctx tiers : (∀ t, approx (sub t) (sub' t)) →
  approx (runTiers date_parse deps sub ctx tiers) (runTiers date_parse deps sub' ctx tiers).
Proof.
  intros Hs. induction tiers as [|tier rest IH]; cbn [runTiers]; [apply approx_refl|].
  apply approx_bind; [apply Hs|]. intros term. case_decide; [apply approx_refl|].
  destruct rest; [apply approx_refl|]. apply approx_bind; [apply approx_refl|].
  intros []; [apply IH|apply approx_refl].
Qed.

Lemma traverse_step fuel : ∀ n ctx tier,
  approx (traverse date_parse scenario deps fuel n ctx tier) (traverse date_parse scenario deps (S fuel) n ctx tier).
Proof.
  induction fuel as [|fuel IH]; intros n ctx tier; [by intros s|].
  change (approx (turn date_parse scenario deps (traverse date_parse scenario deps fuel) n ctx tier)
                 (turn date_parse scenario deps (traverse date_parse scenario deps (S fuel)) n ctx tier)).
  generalize dependent (traverse date_parse scenario deps (S fuel)). intros next IH. unfold turn.
  apply approx_bind; [apply approx_refl|]. intros b. case_match; [apply approx_refl|].
  apply approx_bind; [apply approx_refl|]. intros _. case_decide; [apply approx_refl|].
  destruct (alookup n (cs_nodes scenario)) as [node|]; [|apply approx_refl].
  do 2 (apply approx_bind; [apply approx_refl|]; intros ?). case_match; [apply approx_refl|].
  do 2 (apply approx_bind; [apply approx_refl|]; intros ?). case_match; [|apply approx_refl].
  destruct (sn_flow node) as [t|t|bs|until body exit max|tiers|[] input ret].
  - apply approx_refl.
  - apply IH.
  - do 3 (apply approx_bind; [apply approx_refl|]; intros ?). apply IH.
  - do 4 (apply approx_bind; [apply approx_refl|]; intros ?).
    case_match; (apply approx_bind; [apply approx_refl|]; intros ?); apply IH.
  - apply approx_bind; [|intros ?; apply approx_refl]. apply approx_runTiers. intros. apply IH.
  - apply approx_refl.
  - apply approx_refl.
Qed.

Lemma traverse_more fuel fuel' n ctx tier s : fuel ≤ fuel' →
  (traverse date_parse scenario deps fuel n ctx tier s).2 ≠ Err OutOfFuel →
  traverse date_parse scenario deps fuel' n ctx tier s = traverse date_parse scenario deps fuel n ctx tier s.
Proof.
  induction 1 as [|fuel' _ IH]; intros H; [done|]. specialize (IH H).
  rewrite <-IH. apply traverse_step. by rewrite IH.
Qed.
End Fuel.

(** ** Invariants of the steps *)

Section Invariants.
Context {W : Type} (scenario : CompiledScenario).
Implicit Types s : TraversalState W.
Abbreviation ticks := (rtc (tick (W:=W) scenario)).

Lemma ticks_invariant (P : TraversalState W → Prop) :
  (∀ s s', tick scenario s s' → P s → P s') → ∀ s s', ticks s s' → P s → P s'.
Proof. intros H s s'. induction 1; eauto. Qed.

(** Every visit is paid for by the budget. *)
Definition paid (total : Z) s : Prop :=
  (Z.of_nat (length (ts_visited s)) + ts_budget s <= total)%Z ∧ ((0 <= ts_budget s)%Z ∨ ts_visited s = []).

Lemma paid_tick total s s' : tick scenario s s' → paid total s → paid total s'.
Proof.
  unfold paid. destruct 1; intros [Hp1 Hp2]; simpl in *; rewrite ?length_app; simpl;
    (split; [lia|first [done|left; lia]]).
Qed.

(** Visited nodes exist, and steps and suspensions belong to visited nodes. *)
Record located s : Prop := {
  loc_visited : ∀ n, n ∈ ts_visited s → n ∈ (cs_nodes scenario).*1;
  loc_steps : ∀ st, st ∈ ts_steps s → is_nodeId st ∈ ts_visited s;
  loc_suspend : ∀ c, ts_suspendBox s = Some c → resumable scenario (ts_visited s) c
}.

Lemma resumable_app vs n c : resumable scenario vs c → resumable scenario (vs ++ [n]) c.
Proof. destruct c; simpl; rewrite !elem_of_app; naive_solver. Qed.

Lemma located_tick s s' : tick scenario s s' → located s → located s'.
Proof.
  destruct 1; intros [L1 L2 L3]; split; simpl in *; try done.
  - set_solver.
  - set_solver.
  - intros c Hc. by apply resumable_app, L3.
  - set_solver.
  - naive_solver.
Qed.

(** A loop counter belongs to a loop and never passes its bound. *)
Definition counters_ok s : Prop := ∀ n it, alookup n (ts_loopState s) = Some it →
  (1 <= it)%Z ∧ ∃ node until body exit max, alookup n (cs_nodes scenario) = Some node ∧
    sn_flow node = FlowLoop until body exit max ∧
    ∀ N, (1 <= N)%Z → num_leb max (num_of_Z N) = true → (it <= N)%Z.

Lemma counters_tick s s' : tick scenario s s' → counters_ok s → counters_ok s'.
Proof.
  unfold counters_ok. destruct 1 as [| | | | | | | |n node until body exit max w ns ls vs ss ar ps b su fa En Ef Hmax|n];
    intros Hok m it; simpl in *; auto.
  - rewrite alookup_aset. case_decide as E; [|by apply Hok]. subst m. intros [= <-].
    assert (Hc : (0 <= default 0 (alookup n ls))%Z ∧
      ∀ N, (1 <= N)%Z → num_leb max (num_of_Z N) = true → (default 0 (alookup n ls) <= N)%Z).
    { destruct (alookup n ls) as [it|] eqn:El; simpl; [|split; lia].
      destruct (Hok n it El) as (Hit & node' & u' & b' & e' & max' & En' & Ef' & HN).
      rewrite En in En'. injection En' as <-. rewrite Ef in Ef'. injection Ef' as <- <- <- <-.
      split; [lia|exact HN]. }
    destruct Hc as [Hc1 Hc2]. split; [lia|]. exists node, until, body, exit, max. split_and!; [done|done|].
    intros N HN Hle. specialize (Hc2 N HN Hle).
    destruct (decide (default 0%Z (alookup n ls) = N)) as [Heq|]; [|lia]. rewrite Heq in Hmax. congruence.
  - rewrite alookup_adelete. case_decide; [done|]. by apply Hok.
Qed.
End Invariants.

Lemma initial_invariants {W} scenario (deps : InterpreterDeps W) w :
  let s := initial_state scenario deps w in
  paid (step_budget scenario deps) s ∧ located scenario s ∧ counters_ok scenario s.
Proof.
  simpl. split_and!; [|split; simpl; [set_solver|set_solver|done]|done].
  unfold paid. simpl. split; [lia|by right].
Qed.

(** The invariants hold of every state a run passes through or ends in. *)
Lemma run_invariants {W} scenario (deps : InterpreterDeps W) w s :
  rtc (tick scenario) (initial_state scenario deps w) s →
  paid (step_budget scenario deps) s ∧ located scenario s ∧ counters_ok scenario s.
Proof.
  intros H. destruct (initial_invariants scenario deps w) as (H1 & H2 & H3). split_and!.
  - by eapply ticks_invariant; [apply paid_tick| |].
  - by eapply ticks_invariant; [apply located_tick| |].
  - by eapply ticks_invariant; [apply counters_tick| |].
Qed.

Section Runs.
Context {W : Type} (date_parse : string → option Z) (scenario : CompiledScenario) (deps : InterpreterDeps W).

Definition run_state (ctx : RunContext) (w : W) : TraversalState W * result Thrown string :=
  traverse date_parse scenario deps (S (Z.to_nat (step_budget scenario deps)))
    (default (cs_start scenario) (d_startNode deps)) ctx None (initial_state scenario deps w).

Lemma run_tame ctx w : tame scenario (initial_state scenario deps w) (run_state ctx w).1 (run_state ctx w).2.
Proof.
  unfold run_state.
  pose proof (traverse_tame date_parse scenario deps (S (Z.to_nat (step_budget scenario deps)))
    (default (cs_start scenario) (d_startNode deps)) ctx None (initial_state scenario deps w)) as H.
  unfold wp in H. destruct (traverse _ _ _ _ _ _ _ _) as [s r]. apply H; [lia|].
  unfold initial_state. cbn [ts_budget]. lia.
Qed.

Lemma runScenario_run_state ctx w :
  runScenario date_parse scenario deps ctx w =
  (ts_world (run_state ctx w).1,
   match (run_state ctx w).2 with
   | Ok t => Ok (outcome_of (run_state ctx w).1 t)
   | Err e => Err e
   end).
Proof. unfold runScenario, run_state. by destruct (traverse _ _ _ _ _ _ _ _) as [s [t|e]]. Qed.

Lemma runScenario_Ok ctx w w' oc : runScenario date_parse scenario deps ctx w = (w', Ok oc) →
  ∃ s t, run_state ctx w = (s, Ok t) ∧ oc = outcome_of s t ∧
         rtc (tick scenario) (initial_state scenario deps w) s.
Proof.
  rewrite runScenario_run_state. assert (Ht := run_tame ctx w).
  destruct (run_state ctx w) as [s [t|e]]; simpl in *; [|done]. intros [= <- <-].
  exists s, t. split_and!; [done|done|apply Ht].
Qed.
End Runs.

(** ** What the host sees *)

Section Worlds.
Context {W : Type} (date_parse : string → option Z) (scenario : CompiledScenario) (deps : InterpreterDeps W).
Context (R : relation W) `{!PreOrder R}.
Context (R_execute : ∀ stepId a ctx w, R w (d_execute deps stepId a ctx w).1)
  (R_verify : ∀ c ctx w, R w (d_verify deps c ctx w).1)
  (R_resolve : ∀ ctx w, R w (d_resolvePageState deps ctx w).1)
  (R_pause : ∀ f ctx w, d_pauseRequested deps = Some f → R w (f ctx w).1).

(** The interpreter changes the world only through calls of the host. *)
Definition keeps {A} (m : M W A) : Prop := ∀ s, R (ts_world s) (ts_world (m s).1).

Lemma keeps_bind {A B} (m : M W A) (k : A → M W B) : keeps m → (∀ a, keeps (k a)) → keeps (m ≫= k).
Proof.
  intros Hm Hk s. specialize (Hm s). unfold mbind, M_bind. destruct (m s) as [s' [a|e]]; [|exact Hm].
  etrans; [exact Hm|apply Hk].
Qed.
Lemma keeps_same {A} (m : M W A) : (∀ s, ts_world (m s).1 = ts_world s) → keeps m.
Proof. intros H s. by rewrite H. Qed.
Lemma keeps_host {A} (f : W → W * result string A) : (∀ w, R w (f w).1) → keeps (host f).
Proof. intros H s. specialize (H (ts_world s)). unfold host. by destruct (f (ts_world s)). Qed.

Hint Resolve keeps_bind keeps_host : keeps.
Hint Extern 1 (keeps _) => apply keeps_same; reflexivity : keeps.

Lemma keeps_record n t res : keeps (record_output n t res).
Proof. unfold record_output. auto with keeps. Qed.
Lemma keeps_collect n k res : keeps (collectExtractPage n k res).
Proof. unfold collectExtractPage. repeat case_match; auto with keeps. Qed.
Lemma keeps_verify criteria ctx : ∀ last, keeps (runNodeVerify_loop deps criteria ctx last).
Proof.
  induction criteria as [|c cs IH]; intros last; cbn [runNodeVerify_loop]; [auto with keeps|].
  apply keeps_bind; [auto with keeps|]. intros vr. case_decide; auto with keeps.
Qed.
Hint Resolve keeps_record keeps_collect keeps_verify : keeps.

Lemma keeps_runWhat n t actions : ∀ k last com ctx, keeps (runWhat deps n t k actions last com ctx).
Proof.
  induction actions as [|a actions IH]; intros k last com ctx; cbn [runWhat]; [auto with keeps|].
  apply keeps_bind; [auto with keeps|]. intros scope.
  apply keeps_bind; [auto with keeps|]. intros action.
  apply keeps_bind; [auto with keeps|]. intros res.
  apply keeps_bind; [auto with keeps|]. intros _. case_decide; [auto with keeps|].
  apply keeps_bind; [auto with keeps|]. intros _. repeat case_match; auto with keeps.
Qed.
Hint Resolve keeps_runWhat : keeps.

Lemma keeps_selfHeal n node t ctx fuel : ∀ ctx' count, keeps (selfHeal deps fuel n node t ctx ctx' count).
Proof.
  induction fuel as [|fuel IH]; intros ctx' count; cbn [selfHeal]; [auto with keeps|].
  apply keeps_bind; [auto with keeps|]. intros [last com ctx1|term]; [|auto with keeps].
  apply keeps_bind; [destruct last; auto with keeps|]. intros _.
  destruct (sn_verify node); [|auto with keeps].
  apply keeps_bind; [unfold runNodeVerify; auto with keeps|]. intros verdict. case_decide; [auto with keeps|].
  apply keeps_bind; [auto with keeps|]. intros b. case_match; auto with keeps.
Qed.
Hint Resolve keeps_selfHeal : keeps.

Lemma keeps_runTiers sub ctx tiers : (∀ tier, keeps (sub tier)) → keeps (runTiers date_parse deps sub ctx tiers).
Proof.
  intros Hsub. induction tiers as [|tier rest IH]; cbn [runTiers]; [auto with keeps|].
  apply keeps_bind; [auto|]. intros term. case_decide; [auto with keeps|]. destruct rest; [auto with keeps|].
  apply keeps_bind; [destruct (tier_advanceWhen tier); auto with keeps|]. intros []; auto with keeps.
Qed.

Lemma keeps_traverse fuel : ∀ n ctx tier, keeps (traverse date_parse scenario deps fuel n ctx tier).
Proof.
  induction fuel as [|fuel IH]; intros n ctx tier; cbn [traverse]; [auto with keeps|]. unfold turn.
  apply keeps_bind; [auto with keeps|]. intros b. case_match; [auto with keeps|].
  apply keeps_bind; [auto with keeps|]. intros _. case_decide; [auto with keeps|].
  case_match; [|auto with keeps].
  apply keeps_bind; [auto with keeps|]. intros _.
  apply keeps_bind; [destruct (d_pauseRequested deps) eqn:E; eauto with keeps|]. intros [p|]; [auto with keeps|].
  apply keeps_bind; [auto with keeps|]. intros hb. apply keeps_bind; [auto with keeps|].
  intros [last|term]; [|auto with keeps].
  case_match; unfold suspendForHuman; try auto with keeps.
  - apply keeps_bind; [auto with keeps|]. intros ps. apply keeps_bind; [auto with keeps|]. intros it.
    apply keeps_bind; [auto with keeps|]. intros sc. apply keeps_bind; [auto with keeps|]. intros stop.
    case_match; auto with keeps.
  - apply keeps_bind; [apply keeps_runTiers; auto|]. auto with keeps.
  - case_match; auto with keeps.
Qed.

Lemma runScenario_world ctx w : R w (runScenario date_parse scenario deps ctx w).1.
Proof.
  rewrite runScenario_run_state. exact (keeps_traverse _ _ _ _ (initial_state scenario deps w)).
Qed.
End Worlds.
