(* ===== verification/InterpreterRuns.v ===== *)
(** * Runs of the interpreter

    The properties of whole runs: termination, bounds on visits, loops and
    retries, the finality of security failures, and what a suspended run
    carries. *)

From stdpp Require Import base strings list gmap pretty relations sets.
From Stdlib Require Import ZArith SpecFloat.
From S2P Require Import Prelude JsValue IrelSyntax IrelEval FlowControl JsText HumanTask ExtractMerge Interpreter InterpreterProps.

(** ** Suspension *)

Section Suspend.
Context {W : Type} (date_parse : string → option Z) (scenario : CompiledScenario) (deps : InterpreterDeps W).
Implicit Types s : TraversalState W.

(** A result that suspends comes with a context. *)
Definition boxed {A} (p : A → Prop) s (r : result Thrown A) : Prop :=
  ∀ a, r = Ok a → p a → is_Some (ts_suspendBox s).

Lemma boxed_bind {A B} (m : M W A) (k : A → M W B) p q s :
  wp m s (boxed p) → (∀ s' a, (p a → is_Some (ts_suspendBox s')) → wp (k a) s' (boxed q)) →
  wp (m ≫= k) s (boxed q).
Proof.
  intros Hm Hk. apply wp_bind. eapply wp_mono; [|exact Hm]. intros s' [a|e] H; [|done].
  apply Hk. by apply H.
Qed.

Lemma boxed_bind_any {A B} (m : M W A) (k : A → M W B) q s :
  (∀ s' a, wp (k a) s' (boxed q)) → wp (m ≫= k) s (boxed q).
Proof.
  intros Hk. apply (boxed_bind m k (λ _, False)); [|by intros]. unfold wp. destruct (m s). by intros a _ [].
Qed.

Lemma boxed_ret {A} (a : A) (p : A → Prop) s : ¬ p a → wp (mret a) s (boxed p).
Proof. intros Hn b [= <-]. done. Qed.
Lemma boxed_throw {A} (e : Thrown) (p : A → Prop) s : wp (throw e) s (boxed p).
Proof. by intros b [=]. Qed.
Lemma boxed_suspend {A} (a : A) c p s : wp (_ ← set_suspend c; mret a) s (boxed p).
Proof. intros b _ _. simpl. eauto. Qed.

Lemma boxed_runWhat n t actions : ∀ k last com ctx s,
  wp (runWhat deps n t k actions last com ctx) s (boxed (λ o, o = WhatReturn "suspend")).
Proof.
  induction actions as [|a actions IH]; intros k last com ctx s; cbn [runWhat]; [by apply boxed_ret|].
  do 4 (apply boxed_bind_any; intros ? ?). case_decide; (apply boxed_bind_any; intros ? ?); [apply IH|].
  destruct (failureTerminal _) as [term|] eqn:E.
  - apply boxed_bind_any. intros ? ?. apply boxed_ret. intros [= ->].
    by destruct (sr_status _).
  - case_decide; [|apply boxed_throw]. destruct (challenge_kind _); [|apply boxed_throw]. apply boxed_suspend.
Qed.

Lemma boxed_selfHeal n node t ctx fuel : ∀ ctx' count s,
  wp (selfHeal deps fuel n node t ctx ctx' count) s (boxed (λ o, o = NodeReturn "suspend")).
Proof.
  induction fuel as [|fuel IH]; intros ctx' count s; cbn [selfHeal]; [apply boxed_throw|].
  eapply boxed_bind; [apply boxed_runWhat|]. intros s1 [last com ctx1|term] H1.
  2:{ intros o [= <-] [= ->]. by apply H1. }
  apply boxed_bind_any; intros ? ?. destruct (sn_verify node) as [v|]; [|by apply boxed_ret].
  apply boxed_bind_any; intros ? ?. case_decide; [by apply boxed_ret|].
  apply boxed_bind_any; intros ? ?. destruct (_ && _); [|by apply boxed_ret].
  apply boxed_bind_any; intros ? ?. apply IH.
Qed.

Lemma boxed_runTiers sub ctx tiers : ∀ s,
  (∀ tier s', wp (sub tier) s' (boxed (λ t, t = "suspend"))) →
  wp (runTiers date_parse deps sub ctx tiers) s (boxed (λ p, p.2 = "suspend")).
Proof.
  induction tiers as [|tier rest IH]; intros s Hsub; cbn [runTiers]; [apply boxed_throw|].
  eapply boxed_bind; [apply Hsub|]. intros s1 term H1. case_decide as E; [by apply boxed_ret; rewrite E|].
  destruct rest as [|tier' rest]; [by intros p [= <-] Hp; apply H1|].
  assert (Hadv : ∀ s1, wp (match tier_advanceWhen tier with
      | Some condition =>
          ps ← host (d_resolvePageState deps ctx); scope ← gets ts_nodeScope;
          lift_flow (evaluateCondition date_parse condition (irel_scope deps ps scope None))
      | None => mret (isFailureTerminal term) end) s1 (λ s2 _, ts_suspendBox s2 = ts_suspendBox s1)).
  { intros s2. destruct (tier_advanceWhen tier); [|done]. apply wp_bind, wp_host. intros w [ps|m]; [|done].
    apply wp_bind. unfold wp at 1. done. }
  apply wp_bind. eapply wp_mono; [|apply Hadv]. intros s2 [[]|e] H2; [by apply IH| |done].
  intros p [= <-] Hp. rewrite H2. by apply H1.
Qed.

(** No node is declared to end with the terminal that only the interpreter
    produces. *)
Definition no_suspend_terminal : Prop :=
  ∀ n node, alookup n (cs_nodes scenario) = Some node → sn_flow node ≠ FlowTerminal "suspend".

Lemma boxed_traverse fuel : no_suspend_terminal → ∀ n ctx tier s,
  wp (traverse date_parse scenario deps fuel n ctx tier) s (boxed (λ t, t = "suspend")).
Proof.
  intros Hterm. induction fuel as [|fuel IH]; intros n ctx tier s; cbn [traverse]; [apply boxed_throw|]. unfold turn.
  apply boxed_bind_any; intros ? ?. case_match; [apply boxed_throw|].
  apply boxed_bind_any; intros ? ?. case_decide; [by apply boxed_ret|].
  destruct (alookup n (cs_nodes scenario)) as [node|] eqn:En; [|apply boxed_throw].
  do 2 (apply boxed_bind_any; intros ? ?). case_match; [apply boxed_suspend|].
  apply boxed_bind_any; intros ? ?. eapply boxed_bind; [apply boxed_selfHeal|].
  intros s1 [last|term] Hbox; [|by intros t [= <-] Ht; apply Hbox; rewrite Ht].
  destruct (sn_flow node) as [t|t|bs|until body exit max|tiers|[] input ret] eqn:Ef.
  - apply boxed_ret. intros ->. by apply (Hterm n node).
  - apply IH.
  - do 3 (apply boxed_bind_any; intros ? ?). apply IH.
  - do 4 (apply boxed_bind_any; intros ? ?). case_match; (apply boxed_bind_any; intros ? ?); apply IH.
  - eapply boxed_bind; [by apply boxed_runTiers|]. intros s2 [ad te] Hb. intros t' [= <-] Ht. by apply Hb.
  - apply boxed_throw.
  - unfold suspendForHuman. apply boxed_bind_any; intros ? ?. apply boxed_suspend.
Qed.
End Suspend.

(** ** Self-healing *)

Section SelfHeal.
Context {W : Type} (deps : InterpreterDeps W).
Implicit Types s : TraversalState W.

Abbreviation count s := (length (ts_steps s)).

Lemma runWhat_steps n t actions : ∀ k last com ctx s,
  wp (runWhat deps n t k actions last com ctx) s (λ s' _, count s ≤ count s' ≤ count s + length actions).
Proof.
  induction actions as [|a actions IH]; intros k last com ctx s; cbn [runWhat].
  { unfold wp; simpl. lia. }
  apply wp_bind. unfold wp at 1. cbn [gets]. apply wp_bind. unfold wp at 1. cbn [lift].
  destruct (resolveActionValueFromNode _ _); [|simpl; lia].
  apply wp_bind, wp_host. intros w [res|m]; [|simpl; lia].
  apply wp_bind. unfold wp at 1. cbn [push_step]. set (s1 := mkState _ _ _ _ _ _ _ _ _ _).
  assert (Hc : count s1 = S (count s)) by (subst s1; simpl; rewrite length_app; simpl; lia). clearbody s1.
  case_decide.
  - apply wp_bind. eapply wp_mono; [|apply quiet_wp, quiet_collect]. intros s2 [u|e] H2.
    + eapply wp_mono; [|apply IH]. intros s3 r H3. simpl in *. rewrite H2 in H3. lia.
    + simpl. rewrite H2. lia.
  - eapply wp_mono; [|apply quiet_wp].
    + intros s2 r H2. simpl in *. rewrite H2. lia.
    + apply quiet_bind; [apply quiet_record|]. intros ?.
      repeat case_match; auto using quiet_bind, quiet_failure, quiet_ret, quiet_throw, quiet_suspend.
Qed.

(** The number of further attempts a node may make. *)
Definition attempts_left (node : ScenarioNode) (selfHealCount : Z) : nat :=
  match sn_verify node with Some v => Z.to_nat (nv_maxSelfHeal v - selfHealCount) | None => 0 end.

Lemma selfHeal_steps n node t ctx fuel : ∀ ctx' i s,
  wp (selfHeal deps fuel n node t ctx ctx' i) s
    (λ s' _, count s' ≤ count s + S (attempts_left node i) * length (sn_what node)).
Proof.
  induction fuel as [|fuel IH]; intros ctx' i s; cbn [selfHeal]; [unfold wp; simpl; lia|].
  apply wp_bind. eapply wp_mono; [|apply runWhat_steps].
  intros s1 [[last com ctx1|term]|e] H1; [|unfold wp; simpl; lia|simpl; lia].
  assert (Hq : quiet (match last with Some res => record_output n t res | None => mret tt end : M W ()))
    by (destruct last; auto using quiet_record, quiet_ret).
  apply wp_bind. eapply wp_mono; [|by apply quiet_wp]. intros s2 [[]|e] H2; [|simpl; rewrite H2; lia].
  destruct (sn_verify node) as [v|] eqn:Ev; [|unfold wp; simpl; rewrite H2; lia].
  apply wp_bind. eapply wp_mono; [|apply quiet_wp, quiet_verify].
  intros s3 [verdict|e] H3; [|simpl; rewrite H3, H2; lia].
  case_decide; [unfold wp; simpl; rewrite H3, H2; lia|].
  apply wp_bind. unfold wp at 1. cbn [gets].
  destruct (_ && (0 <? ts_budget s3)%Z) eqn:E; [|unfold wp; simpl; rewrite H3, H2; lia].
  apply andb_true_iff in E as [E _]. apply andb_true_iff in E as [_ E%Z.ltb_lt].
  apply wp_bind. unfold wp at 1. cbn [set_budget].
  eapply wp_mono; [|apply IH]. intros s4 r H4. cbn [ts_steps] in H4. rewrite H3, H2 in H4.
  unfold attempts_left in *. rewrite Ev in *.
  replace (Z.to_nat (nv_maxSelfHeal v - i)) with (S (Z.to_nat (nv_maxSelfHeal v - (i + 1)))) by lia. lia.
Qed.

(** After a pass that committed a side effect, the node issues no further step. *)
Lemma selfHeal_committed n node t ctx fuel ctx' i s s1 last ctx1 :
  runWhat deps n t 0 (sn_what node) None false ctx' s = (s1, Ok (WhatDone last true ctx1)) →
  wp (selfHeal deps (S fuel) n node t ctx ctx' i) s (λ s' _, ts_steps s' = ts_steps s1).
Proof.
  intros Hw. cbn [selfHeal]. apply wp_bind. unfold wp at 1. rewrite Hw.
  assert (Hq : quiet (match last with Some res => record_output n t res | None => mret tt end : M W ()))
    by (destruct last; auto using quiet_record, quiet_ret).
  apply wp_bind. eapply wp_mono; [|by apply quiet_wp]. intros s2 [[]|e] H2; [|done].
  destruct (sn_verify node) as [v|]; [|by unfold wp].
  apply wp_bind. eapply wp_mono; [|apply quiet_wp, quiet_verify]. intros s3 [verdict|e] H3; [|congruence].
  case_decide; [unfold wp; simpl; congruence|]. apply wp_bind. unfold wp at 1. cbn [gets].
  rewrite andb_false_r. unfold wp. simpl. congruence.
Qed.
End SelfHeal.

(** ** A concrete host *)

Definition demo_page : PageState := mkPageState "h0" [] JNull.
Definition demo_ctx : RunContext := mkCtx "" 1 demo_page None None JNull.

Definition step_ok (se : option SideEffect) : StepResult :=
  mkStepResult "act" success None None "ps_h0" [] se None None.
Definition step_failed (st : StepStatus) (code : string) : StepResult :=
  mkStepResult "act" st None None "ps_h0" [] None (Some (mkException class_business code)) None.
Definition step_captcha : StepResult :=
  mkStepResult "act" suspended None None "ps_h0" [] None None (Some "captcha").

(** The results of the steps by identifier; verification fails at nodes named
    in [unverified]; the world counts the executed steps. *)
Definition demo_deps (results : list (string * StepResult)) (unverified : list string) : InterpreterDeps nat :=
  mkDeps (λ stepId _ _ w, (S w, Ok (default (step_ok None) (alookup stepId results))))
    (λ _ ctx w, (w, Ok (mkVerifyResult (if string_in (rc_nodeId ctx) unverified then v_fail_det else v_pass) [] "continue")))
    (λ ctx w, (w, Ok (rc_pageState ctx))) None None None None None.

Definition demo_act : json := JObj [("type", JStr "act")].
Definition lit_true : IRELNode := NLiteral t_boolean (VBool true) false.
Definition lit_false : IRELNode := NLiteral t_boolean (VBool false) false.

(** A loop with two iterations around a fallback between two tiers. *)
Definition demo_scenario : CompiledScenario :=
  mkCompiledScenario "l"
    [("l", mkNode [] (FlowLoop lit_false "b" "f" (num_of_Z 2)) None);
     ("b", mkNode [demo_act] (FlowNext "l") (Some (mkVerify [JNull] "self_heal" 2)));
     ("f", mkNode [] (FlowFallback [mkFallbackTier "T0" "t0" None; mkFallbackTier "T1" "t1" None]) None);
     ("t0", mkNode [demo_act] (FlowTerminal "success") None);
     ("t1", mkNode [demo_act] (FlowTerminal "success") None)].

Abbreviation demo_run results unverified := (runScenario (λ _, None) demo_scenario (demo_deps results unverified) demo_ctx 0).

(** ** Properties *)

(** C15. The interpreter terminates for every scenario, host and starting node:
    a run always ends with an outcome or a thrown error of the source, never
    by exhausting the fuel of the model, and a larger fuel gives the same
    result, so the fuel is not observable. *)
Theorem runScenario_terminates {W} date_parse scenario (deps : InterpreterDeps W) ctx w :
  (runScenario date_parse scenario deps ctx w).2 ≠ Err OutOfFuel ∧
  ∀ start fuel, S (Z.to_nat (step_budget scenario deps)) ≤ fuel →
    traverse date_parse scenario deps fuel start ctx None (initial_state scenario deps w) =
    traverse date_parse scenario deps (S (Z.to_nat (step_budget scenario deps))) start ctx None
      (initial_state scenario deps w).
Proof.
  split.
  - rewrite runScenario_run_state. destruct (run_tame date_parse scenario deps ctx w) as [_ H].
    destruct (run_state _ _ _ ctx w) as [s [t|e]]; simpl in *; congruence.
  - intros start fuel Hle. apply traverse_more; [done|].
    pose proof (traverse_tame date_parse scenario deps (S (Z.to_nat (step_budget scenario deps)))
      start ctx None (initial_state scenario deps w)) as H.
    unfold wp in H. destruct (traverse _ _ _ _ _ _ _ _) as [s r]. apply H; [lia|].
    unfold initial_state. cbn [ts_budget]. lia.
Qed.

(** A run visits at most as many nodes as its step budget; every visited
    node is a node of the scenario, and every executed step belongs to a
    visited node. *)
Theorem visits_within_budget {W} date_parse scenario (deps : InterpreterDeps W) ctx w w' oc :
  runScenario date_parse scenario deps ctx w = (w', Ok oc) →
  (Z.of_nat (length (oc_visited oc)) <= Z.max 0 (step_budget scenario deps))%Z ∧
  (∀ n, n ∈ oc_visited oc → n ∈ (cs_nodes scenario).*1) ∧
  (∀ st, st ∈ oc_steps oc → is_nodeId st ∈ oc_visited oc).
Proof.
  intros (s & t & _ & -> & Ht)%runScenario_Ok.
  destruct (run_invariants _ _ _ _ Ht) as ((Hp1 & Hp2) & [L1 L2 _] & _). simpl. split_and!; [|done|done].
  destruct Hp2 as [Hp2|Hp2]; [lia|rewrite Hp2; simpl; lia].
Qed.

Lemma visits_within_budget_witness :
  let oc := mkOutcome "success" ["l"; "b"; "l"; "b"; "l"; "f"; "t0"]
    [mkStep "b" "act" success; mkStep "b" "act" success; mkStep "t0" "act" success] [] None None None None in
  demo_run [] [] = (3, Ok oc) ∧ (Z.of_nat (length (oc_visited oc)) <= 220)%Z.
Proof.
  intros oc. assert (H : demo_run [] [] = (3, Ok oc)) by (vm_compute; reflexivity). split; [exact H|].
  exact (proj1 (visits_within_budget _ _ _ _ _ _ _ H)).
Defined.

(** A loop never runs past its bound.  In every state a run passes through
    (all its state changes are steps of [tick]) the counter of a loop is at
    least one, belongs to a loop node, and is at most every [N] that the
    declared [max_iterations] does not exceed; so for a validated scenario at
    most 10000. *)
Theorem loop_iterations_bounded {W} date_parse scenario (deps : InterpreterDeps W) ctx w :
  rtc (tick scenario) (initial_state scenario deps w) (run_state date_parse scenario deps ctx w).1 ∧
  ∀ s n it, rtc (tick scenario) (initial_state scenario deps w) s →
    alookup n (ts_loopState s) = Some it →
    (1 <= it)%Z ∧ ∃ node until body exit max, alookup n (cs_nodes scenario) = Some node ∧
      sn_flow node = FlowLoop until body exit max ∧
      ∀ N, (1 <= N)%Z → num_leb max (num_of_Z N) = true → (it <= N)%Z.
Proof.
  split; [apply run_tame|]. intros s n it Ht Hn.
  by destruct (run_invariants _ _ _ _ Ht) as (_ & _ & H); apply H.
Qed.

(** C36. A security failure ends the run at once: if any step reports
    [failed_security], it is the last step that is executed, whatever fallback
    tiers or retries the scenario has left, and the outcome is
    [fail_security]. *)
Theorem security_failure_is_final {W} date_parse scenario (deps : InterpreterDeps W) ctx w w' oc st :
  runScenario date_parse scenario deps ctx w = (w', Ok oc) →
  st ∈ oc_steps oc → is_status st = failed_security →
  oc_terminal oc = "fail_security" ∧
  ∃ pre, oc_steps oc = pre ++ [st] ∧ ∀ st', st' ∈ pre → is_status st' ≠ failed_security.
Proof.
  intros (s & t & Hs & -> & _)%runScenario_Ok Hin Hst. simpl in *.
  assert (H := sec_traverse date_parse scenario deps (S (Z.to_nat (step_budget scenario deps)))
    (default (cs_start scenario) (d_startNode deps)) ctx None (initial_state scenario deps w)).
  apply wp_intro with (s' := s) (r := Ok t) in H; [|exact Hs|constructor].
  destruct H as [Hno|((pre & last & Heq & Hpre & Hl) & a & [= <-] & ->)].
  - unfold no_sec in Hno. rewrite Forall_forall in Hno. by destruct (Hno st Hin).
  - split; [done|]. rewrite Heq in Hin |- *. rewrite Forall_forall in Hpre.
    apply elem_of_app in Hin as [Hin| ->%list_elem_of_singleton]; [by destruct (Hpre st Hin)|]. eauto.
Qed.

Definition sec_step : InterpreterStep := mkStep "t0" "act" failed_security.

Lemma security_failure_is_final_witness :
  let oc := (demo_run [("t0.0", step_failed failed_security "X")] []).2 in
  match oc with Ok oc => oc_terminal oc = "fail_security" | Err _ => False end.
Proof.
  destruct (demo_run [("t0.0", step_failed failed_security "X")] []) as [w' [oc|e]] eqn:E; [|by vm_compute in E].
  assert (Hin : sec_step ∈ oc_steps oc).
  { vm_compute in E. injection E as _ <-. cbn [oc_steps]. rewrite !elem_of_cons. auto. }
  exact (proj1 (security_failure_is_final _ _ _ _ _ _ _ _ E Hin eq_refl)).
Defined.

(** Self-healing is safe.  A node visit makes at most [maxSelfHeal] retries
    of its actions, so it issues at most [(maxSelfHeal + 1) * |what|] steps;
    and once a pass has committed a side effect that is not read-only, the
    node issues no further step, whatever its verification says. *)
Theorem self_heal_safe {W} (deps : InterpreterDeps W) n node tier ctx fuel s :
  let visit := selfHeal deps (S fuel) n node tier ctx in
  let retries := match sn_verify node with Some v => Z.to_nat (nv_maxSelfHeal v) | None => 0 end in
  (∀ s' r, visit ctx 0%Z s = (s', r) →
     length (ts_steps s') ≤ length (ts_steps s) + S retries * length (sn_what node)) ∧
  (∀ execCtx i s1 last execCtx' s' r,
     runWhat deps n tier 0 (sn_what node) None false execCtx s = (s1, Ok (WhatDone last true execCtx')) →
     visit execCtx i s = (s', r) → ts_steps s' = ts_steps s1).
Proof.
  intros visit retries. split.
  - intros s' r H. assert (Hw := selfHeal_steps deps n node tier ctx (S fuel) ctx 0%Z s).
    apply wp_intro with (s' := s') (r := r) in Hw; [|exact H].
    unfold attempts_left in Hw. subst retries. destruct (sn_verify node); [|done].
    by rewrite Z.sub_0_r in Hw.
  - intros execCtx i s1 last execCtx' s' r Hr H.
    eapply (selfHeal_committed _ _ _ _ ctx fuel _ i) in Hr. by apply wp_intro with (s' := s') (r := r) in Hr.
Qed.

(** A suspended run can be resumed.  When the outcome is [suspend] (and no
    node of the scenario declares that terminal itself), the outcome carries a
    suspension context whose resume node is a visited node, or the return
    node of the visited human task; the task then has an assignee and a
    timeout within the policy. *)
Theorem suspension_resumable {W} date_parse scenario (deps : InterpreterDeps W) ctx w w' oc :
  runScenario date_parse scenario deps ctx w = (w', Ok oc) →
  no_suspend_terminal scenario → oc_terminal oc = "suspend" →
  ∃ c, oc_suspend oc = Some c ∧ resumable scenario (oc_visited oc) c.
Proof.
  intros (s & t & Hs & -> & Ht)%runScenario_Ok Hno Hsus. simpl in *. subst t.
  destruct (run_invariants _ _ _ _ Ht) as (_ & [_ _ Hres] & _).
  assert (H := boxed_traverse date_parse scenario deps (S (Z.to_nat (step_budget scenario deps))) Hno
    (default (cs_start scenario) (d_startNode deps)) ctx None (initial_state scenario deps w)).
  apply wp_intro with (s' := s) (r := Ok "suspend") in H; [|exact Hs].
  destruct (H "suspend" eq_refl eq_refl) as [c Hc]. eauto.
Qed.

Lemma demo_no_suspend_terminal : no_suspend_terminal demo_scenario.
Proof. intros n node. simpl. repeat case_decide; intros [= <-]; done. Qed.

Lemma suspension_resumable_witness :
  let r := (demo_run [("b.0", step_captcha)] []).2 in
  match r with Ok oc => ∃ c, oc_suspend oc = Some c ∧ su_resumeNodeId (suspend_base c) ∈ oc_visited oc | Err _ => False end.
Proof.
  destruct (demo_run [("b.0", step_captcha)] []) as [w' [oc|e]] eqn:E; [|by vm_compute in E].
  destruct (suspension_resumable _ _ _ _ _ _ _ E demo_no_suspend_terminal) as (c & Hc & Hr).
  - vm_compute in E. injection E as _ <-. reflexivity.
  - exists c. split; [exact Hc|]. vm_compute in E. injection E as _ <-. simpl in Hc. injection Hc as <-. exact Hr.
Defined.

(** A fallback node whose first tier advances on a condition that ignores how
    the tier ended. *)
Definition advancing_scenario (advance : option IRELNode) : CompiledScenario :=
  mkCompiledScenario "f"
    [("f", mkNode [] (FlowFallback [mkFallbackTier "T0" "t0" advance; mkFallbackTier "T1" "t1" None]) None);
     ("t0", mkNode [demo_act] (FlowTerminal "success") None);
     ("t1", mkNode [demo_act] (FlowTerminal "success") (Some (mkVerify [JNull] "human_task" 0)))].

(** The outcome keeps what an abandoned fallback tier left behind.  A tier
    that suspends on a captcha and is then left because its [advance_when]
    holds leaves its suspension context in a successful outcome, and the
    error code of a tier that failed is reported as the failure reason of a
    later tier that succeeded, or that failed its verification. *)
Theorem abandoned_tier_leaks :
  let run advance results unverified :=
    (runScenario (λ _, None) (advancing_scenario advance) (demo_deps results unverified) demo_ctx 0).2 in
  (∃ oc c, run (Some lit_true) [("t0.0", step_captcha)] [] = Ok oc ∧
     oc_terminal oc = "success" ∧ oc_suspend oc = Some (ChallengeSuspend c ch_captcha)) ∧
  (∃ oc, run None [("t0.0", step_failed failed_system "SITE_DOWN")] [] = Ok oc ∧
     oc_terminal oc = "success" ∧ oc_failureReason oc = Some "SITE_DOWN") ∧
  (∃ oc, run None [("t0.0", step_failed failed_system "SITE_DOWN")] ["t1"] = Ok oc ∧
     oc_terminal oc = "fail_business" ∧ oc_failureReason oc = Some "SITE_DOWN").
Proof.
  intros run. subst run. cbv beta. split_and!.
  - eexists _, _. split; [vm_compute; reflexivity|]. split; reflexivity.
  - eexists. split; [vm_compute; reflexivity|]. split; reflexivity.
  - eexists. split; [vm_compute; reflexivity|]. split; reflexivity.
Qed.

(** Rows of a failed attempt survive in the result.  When the verification
    of an extraction fails and self-healing repeats it, the page of the
    rejected attempt stays among the extracted pages, so the merged result
    contains rows that were rejected by the verification. *)
Theorem rejected_extraction_is_merged :
  let row v := JObj [("id", JStr v)] in
  let extract v := mkStepResult "extract" success (Some (JArr [row v])) None "ps_h0" [] None None None in
  let deps : InterpreterDeps nat :=
    mkDeps (λ _ _ _ w, (S w, Ok (extract (if decide (w = 0) then "bad" else "good"))))
      (λ _ _ w, (w, Ok (mkVerifyResult (if decide (w = 1) then v_fail_det else v_pass) [] "continue")))
      (λ ctx w, (w, Ok (rc_pageState ctx))) None None None None None in
  let scenario := mkCompiledScenario "e"
    [("e", mkNode [JObj [("type", JStr "extract")]] (FlowTerminal "success") (Some (mkVerify [JNull] "self_heal" 1)))] in
  ∃ oc m, (runScenario (λ _, None) scenario deps demo_ctx 0).2 = Ok oc ∧
    oc_terminal oc = "success" ∧ oc_mergedExtract oc = Some m ∧ mr_records m = [row "bad"; row "good"].
Proof.
  intros row extract deps scenario. subst row extract deps scenario.
  eexists _, _. split; [vm_compute; reflexivity|]. split; [reflexivity|]. split; reflexivity.
Qed.
