(* ===== verification/Translate.v ===== *)
(** * From the stored scenario to the interpreter's input

    Models [app/src/runtime/ir-translate.ts] and the [url_ref] resolution of
    [app/src/runtime/site-resolution.ts]: the scenario document and its compiled
    conditions become a [CompiledScenario].  Each [throw] is a constructor of
    [TranslateError]; [translate_code] is its code.

    The compiled conditions are the typed value the static validator produced.
    [new URL] and [new RegExp] belong to the host: [url_origin] gives the scheme
    and the origin of a URL that parses, [regexp_ok] the validity of a
    pattern. *)

From stdpp Require Import base strings list.
From Stdlib Require Import Ascii ZArith.
From S2P Require Import Prelude JsValue IrelSyntax StaticValidation FlowControl JsText HumanTask Interpreter.

Inductive TranslateError :=
| T_ir_shape
| T_node_shape (nodeId : string)
| T_verify (nodeId : string)
| T_on_drift (nodeId : string) (ir compiled : nat)
| T_loop_drift (nodeId : string)
| T_fallback_drift (nodeId : string) (ir compiled : nat)
| T_unsupported_flow (nodeId : string)
| T_handler (nodeId what : string)
| T_branch_handler (nodeId : string)
| T_branch (nodeId : string)
| T_action (nodeId what : string)
| T_action_unsupported (nodeId action : string)
| T_url (nodeId code : string).

Definition translate_code (e : TranslateError) : string :=
  match e with
  | T_unsupported_flow _ => "UNSUPPORTED_FLOW"
  | T_action_unsupported _ _ => "ACTION_UNSUPPORTED"
  | T_url _ code => code
  | _ => "IR_SCHEMA_INVALID"
  end.

(** [{ ...(v !== undefined ? { k: v } : {}) }]. *)
Definition opt {A} (k : string) (f : A → json) (v : option A) : fields :=
  match v with Some a => [(k, f a)] | None => [] end.

Definition defined {A} (v : option A) : bool := match v with Some _ => true | None => false end.

Definition count_true (l : list bool) : nat := length (filter (λ b, b = true) l).

(** A string that is not empty. *)
Definition nonempty_string (v : option json) : option string :=
  s ← as_string v; if decide (s = EmptyString) then None else Some s.

(** ** Verification, recording *)

Definition projectVerify (id : string) (rawVerify rawPolicy : option json)
  : result TranslateError (option NodeVerify) :=
  match rawVerify with
  | None => Ok None
  | Some v =>
      match as_array (prop "criteria" (Some v)) with
      | None | Some [] => Err (T_verify id)
      | Some criteria =>
          let onFail := default "self_heal" (as_string (prop "on_fail" (Some v))) in
          let rawMax := x ← as_number (prop "max_self_heal" rawPolicy); num_to_Z x in
          let maxSelfHeal := match rawMax with Some z => if (0 <=? z)%Z then z else 2%Z | None => 2%Z end in
          Ok (Some (mkVerify criteria onFail maxSelfHeal))
      end
  end.

Definition nodeRecordingPolicy (value : option json) : option string :=
  r ← as_string (prop "recording" value);
  if string_in r ["always"; "masked_on_failure"; "never"] then Some r else None.

Definition withRecording (action : fields) (recording : option string) : fields :=
  match recording with None => action | Some r => aset "recording" (JStr r) action end.

Section Translate.
Context (url_origin : string → option (string * string)) (regexp_ok : string → bool).

(** ** URL references *)

Definition originOf (raw : string) : option string :=
  '(protocol, origin) ← url_origin raw;
  if decide (protocol = "http:" ∨ protocol = "https:") then Some origin else None.

(** The code of the thrown [SiteResolutionError]. *)
Definition resolveUrlRef (rawRef : string) (params : option fields) : result string string :=
  match params ≫= alookup rawRef with
  | None => Err "URL_REF_PARAM_MISSING"
  | Some (JStr value) =>
      if decide (value = EmptyString) then Err "URL_REF_PARAM_EMPTY"
      else match originOf value with
           | None => Err "URL_REF_VALUE_NOT_ABSOLUTE_URL"
           | Some _ => Ok value
           end
  | Some _ => Err "URL_REF_PARAM_NOT_STRING"
  end.

Definition url_of (nodeId rawRef : string) (params : option fields) : result TranslateError string :=
  match resolveUrlRef rawRef params with Ok u => Ok u | Err code => Err (T_url nodeId code) end.

(** ** Actions *)

Definition parseRowAnchor (raw : option json) (nodeId : string) : result TranslateError (option fields) :=
  match raw with
  | None => Ok None
  | Some (JObj r) =>
      let need k := match as_string (alookup k r) with
                    | Some v => if blank v then Err (T_action nodeId ("row_anchor." +:+ k)) else Ok v
                    | None => Err (T_action nodeId ("row_anchor." +:+ k))
                    end in
      pattern ← need "pattern";
      if negb (regexp_ok pattern) then Err (T_action nodeId "row_anchor.pattern") else
      let ts := alookup "text_selector" r in
      if defined ts && negb (match as_string ts with Some t => negb (blank t) | None => false end)
      then Err (T_action nodeId "row_anchor.text_selector") else
      let rfc := alookup "require_full_coverage" r in
      if defined rfc && negb (defined (as_bool rfc)) then Err (T_action nodeId "row_anchor.require_full_coverage") else
      selector ← need "selector"; matchField ← need "match_field"; field ← need "field";
      attribute ← need "attribute"; template ← need "template";
      Ok (Some ([("selector", JStr selector)] ++ opt "textSelector" JStr (as_string ts) ++
                [("matchField", JStr matchField); ("field", JStr field); ("attribute", JStr attribute);
                 ("pattern", JStr pattern); ("template", JStr template)] ++
                opt "requireFullCoverage" JBool (as_bool rfc)))
  | Some _ => Err (T_action nodeId "row_anchor")
  end.

(** The first of two spellings of an argument. *)
Definition either {A} (x y : option A) : option A := match x with Some a => Some a | None => y end.

Definition parseApiCallAction (nodeId : string) (a : fields) (params : option fields)
  : result TranslateError fields :=
  match as_string (alookup "url_ref" a) with
  | None => Err (T_action nodeId "api_call.url_ref")
  | Some ref =>
      let arg k := prop k (alookup "args" a) in
      url ← url_of nodeId ref params;
      Ok ([("type", JStr "api_call");
           ("method", JStr (match as_string (arg "method") with Some m => toUpperCase m | None => "GET" end));
           ("url", JStr url)] ++
          opt "headers" JObj (as_record (arg "headers")) ++
          opt "body" id (arg "body") ++
          opt "auth" JObj (as_record (arg "auth")) ++
          opt "connectorId" JStr (either (as_string (arg "connector_id")) (as_string (arg "connectorId"))) ++
          opt "timeoutMs" JNum (either (as_number (arg "timeout_ms")) (as_number (arg "timeoutMs"))) ++
          opt "sideEffect" JStr (either (as_string (arg "side_effect")) (as_string (arg "sideEffect"))) ++
          opt "idempotencyKey" JStr (either (as_string (arg "idempotency_key")) (as_string (arg "idempotencyKey"))))
  end.

(** What an [act] action declares. *)
Record ActArgs := mkActArgs {
  aa_secretRef : option string;
  aa_valueRef : option string;
  aa_value : option string;
  aa_clickSelector : option string;
  aa_clickText : option string;
  aa_assertAbsent : option string;
  aa_fillSelector : option string;
  aa_richBodyFrame : option string;
  aa_valueFromNode : option (string * string);
  aa_selectSelector : option string;
  aa_selectValue : option string;
  aa_allowLlmSecretSelector : bool
}.

Definition readValueFromNode (nodeId : string) (vfnRaw : option json)
  : result TranslateError (option (string * string)) :=
  match vfnRaw with
  | None => Ok None
  | Some v =>
      match nonempty_string (prop "node" (Some v)), nonempty_string (prop "key" (Some v)) with
      | Some node, Some key => Ok (Some (node, key))
      | _, _ => Err (T_action nodeId "value_from_node")
      end
  end.

Definition clickModes (x : ActArgs) : nat :=
  count_true [defined (aa_clickSelector x); defined (aa_clickText x); defined (aa_assertAbsent x)].
Definition hasFill (x : ActArgs) : bool :=
  defined (aa_valueRef x) || defined (aa_secretRef x) || defined (aa_fillSelector x) ||
  defined (aa_richBodyFrame x) || defined (aa_valueFromNode x).
Definition hasSelect (x : ActArgs) : bool := defined (aa_selectSelector x) || defined (aa_selectValue x).

(** The guards of the [act] case, in order. *)
Definition checkAct (nodeId : string) (x : ActArgs) : result TranslateError () :=
  let bad what := Err (T_action nodeId what) in
  if (1 <? count_true [defined (aa_secretRef x); defined (aa_valueRef x); defined (aa_valueFromNode x)])%nat
  then bad "single fill value source"
  else if (1 <? clickModes x)%nat then bad "single click mode"
  else if (1 <? count_true [(0 <? clickModes x)%nat; hasFill x; hasSelect x])%nat then bad "single mode group"
  else if defined (aa_fillSelector x) && negb (defined (aa_valueRef x)) && negb (defined (aa_secretRef x)) &&
          negb (defined (aa_valueFromNode x))
  then bad "fill_selector without a value"
  else if defined (aa_richBodyFrame x) && negb (defined (aa_valueRef x)) && negb (defined (aa_valueFromNode x))
  then bad "rich_body_frame without a value"
  else if defined (aa_richBodyFrame x) && (defined (aa_fillSelector x) || defined (aa_secretRef x))
  then bad "rich_body_frame with fill_selector or vars"
  else if defined (aa_secretRef x) && negb (defined (aa_fillSelector x)) && negb (aa_allowLlmSecretSelector x)
  then bad "secret without a selector"
  else if hasSelect x && (negb (defined (aa_selectSelector x)) || negb (defined (aa_selectValue x)))
  then bad "select_selector and select_value"
  else Ok tt.

Definition parseActArgs (nodeId : string) (a : fields) (params : option fields) : result TranslateError ActArgs :=
  let arg k := prop k (alookup "args" a) in
  let secretRef := vars ← as_array (alookup "vars" a); v ← head vars; nonempty_string (Some v) in
  let valueRef := nonempty_string (arg "value_ref") in
  if defined valueRef && defined secretRef then Err (T_action nodeId "vars and value_ref") else
  let value := k ← valueRef; as_string (params ≫= alookup k) in
  valueFromNode ← readValueFromNode nodeId (arg "value_from_node");
  let x := mkActArgs secretRef valueRef value (nonempty_string (arg "click_selector"))
    (nonempty_string (arg "click_text")) (nonempty_string (arg "assert_absent"))
    (nonempty_string (arg "fill_selector")) (nonempty_string (arg "rich_body_frame")) valueFromNode
    (nonempty_string (arg "select_selector")) (as_string (arg "select_value"))
    (truthy (as_bool (arg "allow_llm_secret_selector"))) in
  _ ← checkAct nodeId x;
  Ok x.

Definition act_fields (instruction : string) (nodeSideEffect : option string) (x : ActArgs) : fields :=
  [("type", JStr "act"); ("instruction", JStr instruction)] ++
  opt "sideEffect" JStr nodeSideEffect ++
  opt "secretRef" JStr (aa_secretRef x) ++
  opt "valueRef" JStr (aa_valueRef x) ++
  opt "valueFromNode" (λ p, JObj [("node", JStr p.1); ("key", JStr p.2)]) (aa_valueFromNode x) ++
  opt "value" JStr (aa_value x) ++
  opt "clickSelector" JStr (aa_clickSelector x) ++
  opt "clickText" JStr (aa_clickText x) ++
  opt "assertAbsent" JStr (aa_assertAbsent x) ++
  opt "fillSelector" JStr (aa_fillSelector x) ++
  opt "richBodyFrame" JStr (aa_richBodyFrame x) ++
  opt "selectSelector" JStr (aa_selectSelector x) ++
  opt "selectValue" JStr (aa_selectValue x).

(** [typeof x === "string" && x.trim().length > 0]. *)
Definition instruction_of (v : option json) : option string :=
  s ← as_string v; if blank s then None else Some s.

Definition mapAction (nodeId : string) (a : json) (params : option fields)
    (nodeSideEffect nodeRecording : option string) : result TranslateError (option json) :=
  match a with
  | JObj a =>
      match as_string (alookup "action" a) with
      | None => Err (T_action nodeId "action")
      | Some action =>
          let done f := Ok (Some (JObj (withRecording f nodeRecording))) in
          if decide (action = "observe") then
            match alookup "instruction" a with
            | None | Some JNull => Ok None
            | v => match instruction_of v with
                   | Some i => done [("type", JStr "observe"); ("instruction", JStr i)]
                   | None => Err (T_action nodeId "observe.instruction")
                   end
            end
          else if decide (action = "navigate") then
            match as_string (alookup "url_ref" a) with
            | None => Err (T_action nodeId "navigate.url_ref")
            | Some ref => url ← url_of nodeId ref params; done [("type", JStr "navigate"); ("url", JStr url)]
            end
          else if decide (action = "api_call") then
            f ← parseApiCallAction nodeId a params; done f
          else if decide (action = "act") then
            match instruction_of (alookup "instruction" a) with
            | None => Err (T_action nodeId "act.instruction")
            | Some i => x ← parseActArgs nodeId a params; done (act_fields i nodeSideEffect x)
            end
          else if decide (action = "extract") then
            match instruction_of (alookup "instruction" a) with
            | None => Err (T_action nodeId "extract.instruction")
            | Some i =>
                match nonempty_string (alookup "schema_ref" a) with
                | None => Err (T_action nodeId "extract.schema_ref")
                | Some ref =>
                    let arg k := prop k (alookup "args" a) in
                    rowAnchor ← parseRowAnchor (arg "row_anchor") nodeId;
                    done ([("type", JStr "extract"); ("instruction", JStr i);
                           ("output", JObj ([("schemaRef", JStr ref);
                              ("schemaVersion", JStr (default "1" (as_string (arg "schema_version"))));
                              ("strict", JBool (default true (as_bool (arg "strict"))))] ++
                              opt "schema" JObj (as_record (arg "schema"))))] ++
                          opt "rowAnchor" JObj rowAnchor)
                end
            end
          else Err (T_action_unsupported nodeId action)
      end
  | _ => Err (T_action nodeId "action")
  end.

(** ** Flows *)

Definition reservedHandlerFlow (nodeId : string) (raw : fields) : result TranslateError NodeFlow :=
  handler ← match as_string (alookup "handler" raw) with
            | Some h => if decide (h = "@challenge") then Ok h_challenge
                        else if decide (h = "@human_task") then Ok h_human_task
                        else Err (T_handler nodeId "handler")
            | None => Err (T_handler nodeId "handler")
            end;
  match as_record (alookup "input" raw) with
  | None => Err (T_handler nodeId "input")
  | Some input =>
      match nonempty_string (alookup "return_node" raw) with
      | None => Err (T_handler nodeId "return_node")
      | Some ret => Ok (FlowReservedHandler handler input ret)
      end
  end.

Definition toBranch (nodeId : string) (b : CompiledOnBranchAst) : result TranslateError (CompiledOnBranch string) :=
  match ob_target b with
  | Some (JStr target) => Ok (mkBranch (ob_when b) target (ob_priority b))
  | Some (JObj t) =>
      if defined (as_string (alookup "handler" t)) then Err (T_branch_handler nodeId) else Err (T_branch nodeId)
  | _ => Err (T_branch nodeId)
  end.

Definition toTier (t : CompiledFallbackTierAst) : FallbackTier :=
  mkFallbackTier (ft_tier t) (ft_entry_node t) (ft_advance_when t).

(** The flows whose conditions are compiled: [on], [loop], [fallback_chain]. *)
Definition compiledFlow (id : string) (raw : fields) (ca : option CompiledNodeAst)
  : result TranslateError NodeFlow :=
  match as_array (alookup "on" raw) with
  | Some on =>
      let onAst := default [] (ca ≫= cn_on) in
      if decide (length on = length onAst)
      then branches ← collect (toBranch id) onAst; Ok (FlowOn branches)
      else Err (T_on_drift id (length on) (length onAst))
  | None =>
      match as_record (alookup "loop" raw) with
      | Some _ =>
          match ca ≫= cn_loop with
          | Some l => Ok (FlowLoop (lp_until l) (lp_body_target l) (lp_exit_target l) (lp_max_iterations l))
          | None => Err (T_loop_drift id)
          end
      | None =>
          match as_array (alookup "fallback_chain" raw) with
          | Some chain =>
              let caFb := default [] (ca ≫= cn_fallback_chain) in
              if decide (caFb = [] ∨ length caFb ≠ length chain)
              then Err (T_fallback_drift id (length chain) (length caFb))
              else Ok (FlowFallback (map toTier caFb))
          | None => Err (T_unsupported_flow id)
          end
      end
  end.

Definition toFlow (id : string) (raw : fields) (ca : option CompiledNodeAst) : result TranslateError NodeFlow :=
  match alookup "terminal" raw, alookup "next" raw with
  | Some (JStr t), _ => Ok (FlowTerminal t)
  | _, Some (JStr t) => Ok (FlowNext t)
  | _, Some (JObj next) => reservedHandlerFlow id next
  | _, _ => compiledFlow id raw ca
  end.

Definition toNode (ca : list (string * CompiledNodeAst)) (params : option fields) (id : string) (raw : json)
  : result TranslateError ScenarioNode :=
  match raw with
  | JObj raw =>
      let nodeSideEffect := as_string (prop "kind" (alookup "side_effect" raw)) in
      let nodeRecording := nodeRecordingPolicy (alookup "policy" raw) in
      what ← collect (λ a, mapAction id a params nodeSideEffect nodeRecording)
               (default [] (as_array (alookup "what" raw)));
      flow ← toFlow id raw (alookup id ca);
      verify ← projectVerify id (alookup "verify" raw) (alookup "policy" raw);
      Ok (mkNode (omap (λ x, x) what) flow verify)
  | _ => Err (T_node_shape id)
  end.

Definition compiledScenarioFrom (ir : json) (compiledAst : option CompiledScenarioAst) (params : option fields)
  : result TranslateError CompiledScenario :=
  match as_string (prop "start" (Some ir)), as_record (prop "nodes" (Some ir)) with
  | Some start, Some nodes =>
      let ca := match compiledAst with Some ast => ca_nodes ast | None => [] end in
      ns ← collect (λ '(id, raw), n ← toNode ca params id raw; Ok (id, n)) nodes;
      Ok (mkCompiledScenario start ns)
  | _, _ => Err T_ir_shape
  end.
End Translate.
