(* ===== verification/TranslateProps.v ===== *)
(** * Validated scenarios run

    Composition of the static validator, the translation and the interpreter:
    a scenario the validator accepts translates to a graph without dangling
    targets, and interpreting it never fails for a structural reason. *)

From stdpp Require Import base strings list gmap sets.
From Stdlib Require Import ZArith SpecFloat.
From S2P Require Import Prelude JsValue IrelSyntax IrelEval StaticValidation FlowControl JsText HumanTask Interpreter InterpreterProps Translate.

(** ** Ordered pairs *)

Lemma ForallOrdPairs_sublist {A} (R : A → A → Prop) l k :
  sublist k l → ForallOrdPairs R l → ForallOrdPairs R k.
Proof.
  induction 1 as [|x k l Hs IH|x k l Hs IH]; intros H; [done| |];
    inversion H as [|? ? Hx Hl]; subst; [|by apply IH].
  constructor; [|by apply IH]. rewrite List.Forall_forall in Hx |- *. intros y Hy. apply Hx.
  apply list_elem_of_In. apply list_elem_of_In in Hy. by eapply elem_of_sublist.
Qed.

Lemma ForallOrdPairs_perm {A} (R : A → A → Prop) l k :
  (∀ x y, R x y → R y x) → l ≡ₚ k → ForallOrdPairs R l → ForallOrdPairs R k.
Proof.
  intros Hsym. induction 1 as [|x l k Hp IH|x y l|l k m _ IH1 _ IH2]; intros H; auto.
  - inversion H as [|? ? Hx Hl]; subst. constructor; [by rewrite <-Hp|by apply IH].
  - inversion H as [|? ? Hx Hl]; subst. inversion Hl as [|? ? Hy Hl']; subst.
    inversion Hx as [|? ? Hxy Hxl]; subst. repeat constructor; auto.
Qed.

Lemma num_eqb_sym x y : num_eqb x y = num_eqb y x.
Proof.
  destruct (decide (x = S754_nan)) as [->|Hx]; [by destruct y as [|[]| |[]]|].
  destruct (decide (y = S754_nan)) as [->|Hy]; [by destruct x as [|[]| |[]]|].
  apply eq_true_iff_eq. rewrite !num_eqb_rank by done. done.
Qed.

(** ** Well-formed compiled scenarios *)

Definition target_ok (ids : list string) (t : string) : Prop := t ∈ ids ∨ t = END_NO_DATA_TARGET.

Definition flow_ok (ids : list string) (f : NodeFlow) : Prop :=
  match f with
  | FlowTerminal _ => True
  | FlowNext t => target_ok ids t
  | FlowOn bs => (∀ b, b ∈ bs → target_ok ids (br_target b)) ∧
      ForallOrdPairs (λ b c, num_eqb (br_priority c) (br_priority b) = false) bs
  | FlowLoop _ body exit max => body ∈ ids ∧ exit ∈ ids ∧ num_leb max (num_of_Z MAX_LOOP_ITERATIONS) = true
  | FlowFallback ts => ts ≠ [] ∧ ∀ t, t ∈ ts → tier_entryNode t ∈ ids
  | FlowReservedHandler _ _ ret => ret ∈ ids
  end.

(** An action whose [valueFromNode], if any, is a record. *)
Definition action_ok (a : json) : Prop := prop "valueFromNode" (Some a) ≠ Some JNull.

Record runnable (cs : CompiledScenario) : Prop := {
  rn_start : cs_start cs ∈ (cs_nodes cs).*1;
  rn_flow : ∀ id node, alookup id (cs_nodes cs) = Some node → flow_ok (cs_nodes cs).*1 (sn_flow node);
  rn_actions : ∀ id node a, alookup id (cs_nodes cs) = Some node → a ∈ sn_what node → action_ok a
}.

(** ** No structural failure *)

Definition structural (e : Thrown) : bool :=
  match e with
  | UnknownNode _ | FlowThrown (DuplicatePriority _ _) | JsTypeError => true
  | _ => false
  end.

Lemma adjacent_duplicate_sound {T} (l : list (CompiledOnBranch T)) :
  ForallOrdPairs (λ b c, num_eqb (br_priority c) (br_priority b) = false) l → adjacent_duplicate l = None.
Proof.
  induction 1 as [|b l Hb Hl IH]; [done|]. destruct l as [|c l]; [done|]. cbn [adjacent_duplicate].
  inversion Hb as [|? ? Hc]; subst. by rewrite Hc.
Qed.

Lemma selectOnBranch_no_duplicate {T} dp n (bs : list (CompiledOnBranch T)) sc m p :
  ForallOrdPairs (λ b c, num_eqb (br_priority c) (br_priority b) = false) bs →
  selectOnBranch dp n bs sc ≠ Err (DuplicatePriority m p).
Proof.
  intros H. unfold selectOnBranch. rewrite adjacent_duplicate_sound.
  - generalize (sort_branches bs). intros l. induction l as [|b l IH]; simpl; [done|]. by repeat case_match.
  - eapply ForallOrdPairs_perm; [| |exact H].
    + intros x y. by rewrite num_eqb_sym.
    + by rewrite sort_branches_perm.
Qed.

Section Sane.
Context {W : Type} (date_parse : string → option Z) (cs : CompiledScenario) (deps : InterpreterDeps W).
Context (Hcs : runnable cs).
Implicit Types s : TraversalState W.
Abbreviation ids := ((cs_nodes cs).*1).

Definition sane {A} s (r : result Thrown A) : Prop := ∀ e, r = Err e → structural e = false.

Lemma sane_bind {A B} (m : M W A) (k : A → M W B) s :
  wp m s sane → (∀ s' a, m s = (s', Ok a) → wp (k a) s' sane) → wp (m ≫= k) s sane.
Proof.
  intros Hm Hk. unfold wp, sane, mbind, M_bind in *. destruct (m s) as [s' [a|e]]; [by apply Hk|].
  intros e' [= <-]. by apply Hm.
Qed.

Lemma sane_ret {A} (a : A) s : wp (mret a) s sane.
Proof. by intros e. Qed.
Lemma sane_throw {A} e s : structural e = false → wp (throw e : M W A) s sane.
Proof. by intros H e' [= <-]. Qed.
Lemma sane_host {A} (f : W → W * result string A) s : wp (host f) s sane.
Proof. apply wp_host. intros w [a|m] e [=]. by subst. Qed.
Lemma sane_lift {A} (r : result Thrown A) s : (∀ e, r = Err e → structural e = false) → wp (lift r) s sane.
Proof. intros H e Hr. by apply H. Qed.
Lemma sane_lift_flow c sc s : wp (lift_flow (evaluateCondition date_parse c sc)) s sane.
Proof. unfold evaluateCondition. intros e He. simpl in He. repeat case_match; by simplify_eq. Qed.
Lemma sane_update (f : TraversalState W → TraversalState W) s : wp (λ s, (f s, Ok tt)) s sane.
Proof. by intros e. Qed.
Lemma sane_gets {A} (f : TraversalState W → A) s : wp (gets f) s sane.
Proof. by intros e. Qed.

Hint Resolve sane_ret sane_throw sane_host sane_lift_flow sane_gets : sane.
Hint Extern 1 (wp (set_nodeScope _) _ _) => intros ?; done : sane.
Hint Extern 1 (wp (set_loopState _) _ _) => intros ?; done : sane.
Hint Extern 1 (wp (set_budget _) _ _) => intros ?; done : sane.
Hint Extern 1 (wp (set_suspend _) _ _) => intros ?; done : sane.
Hint Extern 1 (wp (set_failure _) _ _) => intros ?; done : sane.
Hint Extern 1 (wp (push_visited _) _ _) => intros ?; done : sane.
Hint Extern 1 (wp (push_step _ _) _ _) => intros ?; done : sane.
Hint Extern 1 (wp (push_page _) _ _) => intros ?; done : sane.

Lemma sane_record n t res s : wp (record_output n t res) s sane.
Proof. by intros e. Qed.
Lemma sane_collect n k res s : wp (collectExtractPage n k res) s sane.
Proof. unfold collectExtractPage. repeat case_match; auto with sane. Qed.
Hint Resolve sane_record sane_collect : sane.

Lemma sane_verify criteria ctx : ∀ last s, wp (runNodeVerify_loop deps criteria ctx last) s sane.
Proof.
  induction criteria as [|c criteria IH]; intros last s; cbn [runNodeVerify_loop]; [auto with sane|].
  apply sane_bind; [auto with sane|]. intros s' vr _. case_decide; auto with sane.
Qed.

Lemma sane_resolve a scope e : action_ok a → resolveActionValueFromNode a scope = Err e → structural e = false.
Proof.
  unfold action_ok, resolveActionValueFromNode. intros Ha H. destruct a; try done. simpl in Ha.
  case_decide; [done|]. destruct (alookup "valueFromNode" fields) as [[]|]; try done;
    repeat case_match; by simplify_eq.
Qed.

Lemma sane_runWhat n t actions : (∀ a, a ∈ actions → action_ok a) → ∀ k last com ctx s,
  wp (runWhat deps n t k actions last com ctx) s sane.
Proof.
  induction actions as [|a actions IH]; intros Ha k last com ctx s; cbn [runWhat]; [auto with sane|].
  apply sane_bind; [auto with sane|]. intros s1 scope _.
  apply sane_bind; [apply sane_lift; intros e; apply sane_resolve, Ha; by left|]. intros s2 action _.
  apply sane_bind; [auto with sane|]. intros s3 res _.
  apply sane_bind; [auto with sane|]. intros s4 _ _. case_decide.
  - apply sane_bind; [auto with sane|]. intros s5 _ _. apply IH. intros x Hx. apply Ha. by right.
  - apply sane_bind; [auto with sane|]. intros s5 _ _. destruct (failureTerminal _).
    + apply sane_bind; auto with sane.
    + case_decide; [|auto with sane]. destruct (challenge_kind _); [|auto with sane].
      apply sane_bind; auto with sane.
Qed.

Lemma sane_selfHeal n node t ctx fuel : (∀ a, a ∈ sn_what node → action_ok a) → ∀ ctx' i s,
  wp (selfHeal deps fuel n node t ctx ctx' i) s sane.
Proof.
  intros Ha. induction fuel as [|fuel IH]; intros ctx' i s; cbn [selfHeal]; [auto with sane|].
  apply sane_bind; [by apply sane_runWhat|]. intros s1 [last com ctx1|term] _; [|auto with sane].
  apply sane_bind; [destruct last; auto with sane|]. intros s2 _ _.
  destruct (sn_verify node); [|auto with sane].
  apply sane_bind; [apply sane_verify|]. intros s3 v _. case_decide; [auto with sane|].
  apply sane_bind; [auto with sane|]. intros s4 b _. destruct (_ && _); [|auto with sane].
  apply sane_bind; [auto with sane|]. intros s5 _ _. apply IH.
Qed.

Lemma sane_runTiers sub ctx tiers : tiers ≠ [] → (∀ tier s, tier ∈ tiers → wp (sub tier) s sane) → ∀ s,
  wp (runTiers date_parse deps sub ctx tiers) s sane.
Proof.
  induction tiers as [|tier rest IH]; [done|]. intros _ Hsub s. cbn [runTiers].
  apply sane_bind; [apply Hsub; by left|]. intros s1 term _. case_decide; [auto with sane|].
  destruct rest as [|tier' rest]; [auto with sane|].
  apply sane_bind.
  { destruct (tier_advanceWhen tier); [|auto with sane]. apply sane_bind; [auto with sane|]. intros s2 ps _.
    apply sane_bind; [auto with sane|]. intros s3 sc _. auto with sane. }
  intros s2 [] _; [|auto with sane]. apply IH; [done|]. intros x s' Hx. apply Hsub. by right.
Qed.

Lemma chooseBranch_target n bs ps sc t : chooseBranch date_parse deps n bs ps sc = Ok t →
  ∃ b, b ∈ bs ∧ br_target b = t.
Proof.
  unfold chooseBranch, selectOnBranch. destruct (adjacent_duplicate _); [done|].
  destruct (first_true _ _ _ _) as [t'|e] eqn:E; [|by repeat case_match]. intros [= ->].
  setoid_rewrite <-(sort_branches_perm bs). revert E. generalize (sort_branches bs). intros l.
  induction l as [|b l IH]; simpl; [done|]. case_match; [|done]. case_match.
  - intros [= <-]. exists b. split; [by left|done].
  - intros (c & Hc & Ht)%IH. exists c. split; [by right|done].
Qed.

Lemma sane_choose n bs ps sc e :
  ForallOrdPairs (λ b c, num_eqb (br_priority c) (br_priority b) = false) bs →
  chooseBranch date_parse deps n bs ps sc = Err e → structural e = false.
Proof.
  intros H. unfold chooseBranch. destruct (selectOnBranch _ _ _ _) as [t|[m|m p|e']] eqn:E; [done| | |].
  - case_decide; by intros [= <-].
  - by apply selectOnBranch_no_duplicate in E.
  - by intros [= <-].
Qed.

Lemma collect_sane {A B} (f : A → result Thrown B) l e :
  (∀ a e, a ∈ l → f a = Err e → structural e = false) → collect f l = Err e → structural e = false.
Proof.
  induction l as [|a l IH]; intros Hf; [done|].
  change (collect f (a :: l)) with (b ← f a; bs ← collect f l; Ok (b :: bs)).
  intros [H|(b & _ & H)]%result_bind_Err; [eapply Hf; [by left|done]|].
  apply result_bind_Err in H as [H|(bs & _ & H)]; [|done]. apply IH; [|done].
  intros x e' Hx. apply Hf. by right.
Qed.

Lemma sane_payload n params v e : resolvePayloadParams n params v = Err e → structural e = false.
Proof.
  revert e. induction v as [| | | |l IH|f IH] using json_nested_ind; intros e; try done.
  - cbn [resolvePayloadParams]. intros [H|(rs & _ & H)]%result_bind_Err; [|done].
    eapply collect_sane; [|exact H]. rewrite Forall_forall in IH. eauto.
  - assert (Hc : (rs ← collect (λ '(k, v), r ← resolvePayloadParams n params v; Ok (k, r)) f; Ok (JObj rs)) =
                 Err e → structural e = false).
    { intros [H|(rs & _ & H)]%result_bind_Err; [|done]. eapply collect_sane; [|exact H].
      intros [k v] e' Hin [Hf|(r & _ & Hf)]%result_bind_Err; [|done].
      rewrite Forall_forall in IH. by apply (IH _ Hin). }
    cbn [resolvePayloadParams]. destruct f as [|[k []] [|]]; try exact Hc.
    unfold bad. repeat case_match; intros H'; by simplify_eq.
Qed.

Lemma sane_human n params input e : parseHumanTaskInput n params input = Err e → structural e = false.
Proof.
  unfold parseHumanTaskInput, parseKind, parseOnTimeout, parseTimeout, optionalRecordInput,
    optionalStringArrayInput, bad.
  intros H. repeat (apply result_bind_Err in H as [H|(? & _ & H)]); try by (repeat case_match; simplify_eq).
  destruct x3 as [p|]; [|done]. apply result_bind_Err in H as [H|(? & _ & H)]; [|done].
  eapply collect_sane; [|exact H]. intros [k v] e' _ [Hf|(r & _ & Hf)]%result_bind_Err; [|done].
  by eapply sane_payload.
Qed.

Lemma sane_traverse fuel : ∀ n ctx tier s, target_ok ids n →
  wp (traverse date_parse cs deps fuel n ctx tier) s sane.
Proof.
  induction fuel as [|fuel IH]; intros n ctx tier s Hn; cbn [traverse]; [auto with sane|]. unfold turn.
  apply sane_bind; [auto with sane|]. intros s1 b _. case_match; [auto with sane|].
  apply sane_bind; [auto with sane|]. intros s2 _ _. case_decide; [auto with sane|].
  destruct (alookup n (cs_nodes cs)) as [node|] eqn:En.
  2:{ apply alookup_None in En. by destruct Hn. }
  assert (Hf := rn_flow _ Hcs _ _ En). assert (Ha := λ a, rn_actions _ Hcs _ _ a En).
  apply sane_bind; [auto with sane|]. intros s3 _ _.
  apply sane_bind; [destruct (d_pauseRequested deps); auto with sane|].
  intros s4 [p|] _; [apply sane_bind; auto with sane|].
  apply sane_bind; [auto with sane|]. intros s5 hb _.
  apply sane_bind; [by apply sane_selfHeal|]. intros s6 [last|term] _; [|auto with sane].
  destruct (sn_flow node) as [t|t|bs|until body exit max|tiers|[] input ret]; simpl in Hf.
  - auto with sane.
  - by apply IH.
  - apply sane_bind; [auto with sane|]. intros s7 ps _. apply sane_bind; [auto with sane|]. intros s8 sc _.
    apply sane_bind; [apply sane_lift; intros e; apply sane_choose, Hf|].
    intros s9 target [= _ Ht]. apply IH. apply chooseBranch_target in Ht as (c & Hc & <-). by apply Hf.
  - do 4 (apply sane_bind; [auto with sane|]; intros ? ? _).
    destruct (_ || _); (apply sane_bind; [auto with sane|]; intros ? ? _); apply IH; left; apply Hf.
  - apply sane_bind.
    { apply sane_runTiers; [apply Hf|]. intros x s' Hx. apply IH. left. by apply Hf. }
    intros s7 a _. do 2 (apply sane_bind; [auto with sane|]; intros ? ? _). auto with sane.
  - auto with sane.
  - unfold suspendForHuman. apply sane_bind; [apply sane_lift; intros e; apply sane_human|].
    intros s7 h _. apply sane_bind; auto with sane.
Qed.
End Sane.

(** ** The translation of a validated scenario *)

Lemma alookup_app {A} k (l1 l2 : list (string * A)) :
  alookup k (l1 ++ l2) = match alookup k l1 with Some a => Some a | None => alookup k l2 end.
Proof. induction l1 as [|[k' a] l1 IH]; simpl; [done|]. by case_decide. Qed.

Lemma alookup_opt {A} k k' (f : A → json) v : alookup k (opt k' f v) = if decide (k = k') then f <$> v else None.
Proof. destruct v; simpl; by case_decide. Qed.

Lemma alookup_recording k f r : k ≠ "recording" → alookup k (withRecording f r) = alookup k f.
Proof. intros Hk. destruct r; [|done]. simpl. rewrite alookup_aset. by rewrite decide_False. Qed.

(** Reads a key of a record that is a concatenation of optional fields. *)
Ltac read_fields :=
  repeat first [rewrite alookup_app | rewrite alookup_opt | rewrite decide_False by done
               |rewrite decide_True by done | progress cbn [alookup]].

Lemma act_fields_valueFromNode i se x :
  alookup "valueFromNode" (act_fields i se x) =
  (λ p, JObj [("node", JStr p.1); ("key", JStr p.2)]) <$> aa_valueFromNode x.
Proof. unfold act_fields. read_fields. by destruct (aa_valueFromNode x). Qed.

Lemma mapAction_ok uo ro id a params se rec a' :
  mapAction uo ro id a params se rec = Ok (Some a') → action_ok a'.
Proof.
  unfold mapAction, action_ok. destruct a as [| | | | |a]; try done.
  destruct (as_string (alookup "action" a)) as [action|]; [|done]. simpl.
  assert (Hrec : ∀ f, alookup "valueFromNode" f ≠ Some JNull →
    prop "valueFromNode" (Some (JObj (withRecording f rec))) ≠ Some JNull).
  { intros f Hf. simpl. by rewrite alookup_recording. }
  repeat case_decide.
  - destruct (alookup "instruction" a) as [[]|]; simpl; repeat case_match; intros; simplify_eq; by apply Hrec.
  - destruct (as_string _); [|done]. intros (url & _ & Hm)%result_bind_Ok. simplify_eq. by apply Hrec.
  - intros (f & Hf & Hm)%result_bind_Ok. simplify_eq. apply Hrec. unfold parseApiCallAction in Hf.
    destruct (as_string _); [|done]. apply result_bind_Ok in Hf as (url & _ & [= <-]). by read_fields.
  - destruct (instruction_of _); [|done]. intros (x & _ & Hm)%result_bind_Ok. simplify_eq. apply Hrec.
    rewrite act_fields_valueFromNode. by destruct (aa_valueFromNode x).
  - destruct (instruction_of _); [|done]. destruct (nonempty_string _); [|done].
    intros (r & _ & Hm)%result_bind_Ok. simplify_eq. apply Hrec. read_fields. by destruct r.
  - done.
Qed.

Section Validated.
Context (uo : string → option (string * string)) (ro : string → bool) (params : option fields).
Context (ir : IRScenario) (signed : option (list string)) (rep : ValidationReport) (ast : CompiledScenarioAst).
Context (Hacc : compileScenarioStatic ir signed = (rep, Some ast)) (Hdup : NoDup (ir_nodes ir).*1).
Abbreviation ids := ((ir_nodes ir).*1).

(** A compiled node belongs to the node of its name. *)
Lemma compiled_node id n c : (id, n) ∈ ir_nodes ir → alookup id (ca_nodes ast) = Some c →
  ∃ es, validateExpressions ir ids (buildGraph ir) (buildHumanTaskNodes ir) id n = (Some c, es).
Proof.
  intros Hin Hc%alookup_elem. destruct (compile_errors_nil _ _ _ _ Hacc) as (_ & _ & _ & Hca & _).
  rewrite Hca in Hc. apply list_elem_of_omap in Hc as ([id' n'] & Hn' & E).
  destruct (validateExpressions _ _ _ _ id' n') as [[c'|] es] eqn:Ev; [|done]. injection E as -> ->.
  assert (n' = n) as ->; [|by eauto].
  apply (elem_alookup _ _ _ Hdup) in Hin, Hn'. congruence.
Qed.

Lemma string_target_ok n s label : well_formed ir → (∃ id, (id, n) ∈ ir_nodes ir) →
  readTargetRef (Some (JStr s)) label ∈ targetRefsOf n → target_ok ids s.
Proof.
  intros Hwf (id & Hin) Hr. apply (wf_targets _ Hwf _ _ Hin) in Hr. simpl in Hr.
  case_decide; [by right|]. left. destruct (string_in s _); simpl in Hr; [naive_solver|].
  destruct Hr as [(_ & t & [= ->] & ?)|?]; done.
Qed.

(** The compiled branches are branches of the node, in their order. *)
Definition branch_entry (b : json) : option (option json * jsnum) :=
  p ← as_number (prop "priority" (Some b)); Some (prop "target" (Some b), p).

Lemma compileOnBranches_sublist id bs :
  sublist (map (λ b, (ob_target b, ob_priority b))
             (compileOnBranches ir ids (buildGraph ir) (buildHumanTaskNodes ir) id bs).1)
    (omap branch_entry bs).
Proof.
  unfold compileOnBranches. induction bs as [|b bs IH] using rev_ind; [constructor|].
  rewrite foldl_snoc, omap_app. destruct (foldl _ _ bs) as [on errs]. cbn beta iota. cbn [fst] in IH.
  destruct (str_prop "when" b) as [e|]; [|by apply sublist_inserts_r].
  destruct (compileBooleanExpression _ _ _ _ id e None None) as [w es].
  destruct w as [w|]; [|by apply sublist_inserts_r].
  destruct (as_number (prop "priority" (Some b))) as [p|] eqn:Ep; [|by apply sublist_inserts_r].
  cbn [fst]. rewrite map_app. apply sublist_app; [done|]. cbn [omap list_omap]. unfold branch_entry. by rewrite Ep.
Qed.

Lemma compileFallback_entries id chain : ∀ prior t,
  t ∈ (compileFallback ir ids (buildGraph ir) (buildHumanTaskNodes ir) id prior chain).1 →
  ∃ j, j ∈ chain ∧ str_prop "entry_node" j = Some (ft_entry_node t).
Proof.
  induction chain as [|x chain IH]; intros prior t Ht; simpl in Ht; [by apply not_elem_of_nil in Ht|].
  set (prior' := match str_prop "entry_node" x with Some e => prior ++ [e] | None => prior end) in *.
  specialize (IH prior' t). destruct (compileFallback _ _ _ _ id prior' chain) as [rest errs].
  assert (Hrest : t ∈ rest → ∃ j, j ∈ x :: chain ∧ str_prop "entry_node" j = Some (ft_entry_node t)).
  { intros (j & Hj & E)%IH. exists j. split; [by right|done]. }
  destruct (str_prop "tier" x) as [tier|]; [|by apply Hrest].
  destruct (str_prop "entry_node" x) as [entry|] eqn:Ee; [|by apply Hrest].
  destruct (match str_prop "advance_when" x with Some _ => _ | None => _ end) as [adv es].
  apply elem_of_cons in Ht as [->|Ht]; [|by apply Hrest]. exists x. split; [by left|done].
Qed.

Lemma handler_target_ok id n h f : well_formed ir → (id, n) ∈ ir_nodes ir →
  alookup "next" n = Some (JObj h) → reservedHandlerFlow id h = Ok f → flow_ok ids f.
Proof.
  intros Hwf Hin Hnext (handler & Hh & H)%result_bind_Ok.
  destruct (as_record (alookup "input" h)) as [input|]; [|done].
  destruct (nonempty_string (alookup "return_node" h)) as [ret|] eqn:Er; [|done]. injection H as <-. simpl.
  assert (Hret : as_string (alookup "return_node" h) = Some ret).
  { unfold nonempty_string in Er. apply bind_Some in Er as (r & Hr & Er). case_decide; [done|]. congruence. }
  assert (Hr : readTargetRef (Some (JObj h)) "next" ∈ targetRefsOf n).
  { unfold targetRefsOf. rewrite Hnext. by left. }
  apply (wf_targets _ Hwf _ _ Hin) in Hr. simpl in Hr.
  destruct (as_string (alookup "handler" h)) as [hd|]; [|done]. rewrite Hret in Hr.
  destruct (decide (hd = END_NO_DATA_TARGET)) as [->|]; [done|].
  destruct (string_in hd RETURNING_RESERVED_HANDLERS) eqn:E; simpl in Hr.
  - destruct Hr as [(_ & t & [= <-] & ?)|?]; done.
  - exfalso. destruct (decide (hd = "@challenge")) as [->|]; [done|].
    destruct (decide (hd = "@human_task")) as [->|]; done.
Qed.

Lemma on_flow_ok id n c es bs :
  well_formed ir → (id, n) ∈ ir_nodes ir →
  validateExpressions ir ids (buildGraph ir) (buildHumanTaskNodes ir) id n = (Some c, es) →
  collect (toBranch id) (default [] (cn_on c)) = Ok bs → flow_ok ids (FlowOn bs).
Proof.
  intros Hwf Hin Ev Hc. apply validateExpressions_inv in Ev as (Eon & _).
  assert (Hs := compileOnBranches_sublist id (onBranchesOf n)).
  assert (Heq : default [] (cn_on c) = (compileOnBranches ir ids (buildGraph ir) (buildHumanTaskNodes ir) id (onBranchesOf n)).1).
  { rewrite Eon. by destruct (compileOnBranches _ _ _ _ _ _).1. }
  rewrite <-Heq in Hs. clear Heq Eon. apply collect_Ok in Hc.
  assert (Htb : Forall2 (λ x b, ob_target x = Some (JStr (br_target b)) ∧ ob_priority x = br_priority b)
                  (default [] (cn_on c)) bs).
  { eapply Forall2_impl; [exact Hc|]. intros x b. unfold toBranch.
    destruct (ob_target x) as [[]|]; try done; [|by case_match]. by intros [= <-]. }
  split.
  - intros b Hb. destruct (proj1 (list_elem_of_lookup _ _) Hb) as [i Hi].
    destruct (Forall2_lookup_r _ _ _ _ _ Htb Hi) as (x & Hx & Ht & _).
    assert (Hx' : (ob_target x, ob_priority x) ∈ omap branch_entry (onBranchesOf n)).
    { eapply elem_of_sublist; [|exact Hs]. apply list_elem_of_In, in_map_iff. exists x. split; [done|].
      by apply list_elem_of_In, list_elem_of_lookup_2 with i. }
    apply list_elem_of_omap in Hx' as (j & Hj & Ej). unfold branch_entry in Ej.
    apply bind_Some in Ej as (p & _ & [= Ej _]).
    apply (string_target_ok n _ "on[].target"); [done|by eauto|].
    rewrite <-Ht, <-Ej. unfold targetRefsOf. apply elem_of_app. right. apply elem_of_app. left.
    apply list_elem_of_In, in_map_iff. exists j. split; [done|by apply list_elem_of_In].
  - destruct (wf_branches _ Hwf _ _ Hin) as [Hd _].
    assert (Hp : map br_priority bs = map ob_priority (default [] (cn_on c))).
    { clear -Htb. induction Htb as [|x b l bs' [_ H] _ IH]; [done|]. simpl. by rewrite H, IH. }
    assert (Hsub : sublist (map br_priority bs) (prioritiesOf n)).
    { rewrite Hp. assert (H2 := sublist_map snd _ _ Hs).
      assert (E1 : map snd (map (λ b, (ob_target b, ob_priority b)) (default [] (cn_on c))) =
                   map ob_priority (default [] (cn_on c))).
      { generalize (default [] (cn_on c)). intros l. induction l as [|x l IH]; [done|]. simpl. f_equal. exact IH. }
      assert (E2 : map snd (omap branch_entry (onBranchesOf n)) = prioritiesOf n).
      { unfold prioritiesOf. generalize (onBranchesOf n). intros l. induction l as [|x l IH]; [done|]. simpl.
        unfold branch_entry at 1. destruct (as_number _); simpl; [f_equal|]; exact IH. }
      by rewrite E1, E2 in H2. }
    assert (Hf := ForallOrdPairs_sublist _ _ _ Hsub Hd). clear -Hf.
    induction bs as [|b bs IH]; [constructor|]. inversion Hf as [|? ? Hb Hbs]; subst.
    constructor; [|by apply IH]. rewrite List.Forall_forall in Hb |- *. intros x Hx.
    assert (Hx' := Hb (br_priority x) (in_map br_priority _ _ Hx)).
    unfold same_number in Hx'. by apply orb_false_iff in Hx' as [? _].
Qed.

Lemma loop_flow_ok id n c es l : well_formed ir → (id, n) ∈ ir_nodes ir →
  validateExpressions ir ids (buildGraph ir) (buildHumanTaskNodes ir) id n = (Some c, es) →
  cn_loop c = Some l →
  flow_ok ids (FlowLoop (lp_until l) (lp_body_target l) (lp_exit_target l) (lp_max_iterations l)).
Proof.
  intros Hwf Hin Ev Hl. apply validateExpressions_inv in Ev as (_ & El & _). rewrite El in Hl. clear El.
  unfold compileLoop in Hl. destruct (loopOf n) as [f|] eqn:Ef; [|done].
  destruct (as_string (alookup "until" f)) as [e|]; [|done].
  destruct (compileBooleanExpression _ _ _ _ id e None (Some true)) as [w es']. cbn [fst] in Hl.
  apply bind_Some in Hl as (u & _ & Hl). apply bind_Some in Hl as (body & Hb & Hl).
  apply bind_Some in Hl as (exit & He & Hl). apply bind_Some in Hl as (m & Hm & [= <-]).
  destruct (wf_loops _ Hwf _ _ _ Hin Ef) as ((b' & Hb' & ?) & (e' & He' & ?) & (x & Hx & _ & _ & ?)).
  assert (b' = body) as -> by congruence. assert (e' = exit) as -> by congruence.
  assert (x = m) as -> by congruence. done.
Qed.

Lemma fallback_flow_ok id n c es ts : well_formed ir → (id, n) ∈ ir_nodes ir →
  validateExpressions ir ids (buildGraph ir) (buildHumanTaskNodes ir) id n = (Some c, es) →
  cn_fallback_chain c = Some ts → ts ≠ [] → flow_ok ids (FlowFallback (map toTier ts)).
Proof.
  intros Hwf Hin Ev Hts Hne. apply validateExpressions_inv in Ev as (_ & _ & Ec & _).
  rewrite Ec in Hts. apply nonempty_Some in Hts. split; [by destruct ts|].
  intros t (t0 & <- & Ht0%list_elem_of_In)%list_elem_of_In%in_map_iff. rewrite <-Hts in Ht0.
  apply compileFallback_entries in Ht0 as (j & Hj & Ej). simpl.
  assert (Hr : readNodeTargetRef (prop "entry_node" (Some j)) "fallback_chain[].entry_node" k_fallback_entry
               ∈ targetRefsOf n).
  { unfold targetRefsOf. rewrite !elem_of_app. right. right. left.
    apply list_elem_of_In, in_map_iff. exists j. split; [done|by apply list_elem_of_In]. }
  apply (wf_targets _ Hwf _ _ Hin) in Hr. unfold readNodeTargetRef in Hr. unfold str_prop in Ej. rewrite Ej in Hr.
  simpl in Hr. destruct Hr as [(_ & t & [= <-] & ?)|?]; done.
Qed.

Lemma compiledFlow_ok id n f : (id, n) ∈ ir_nodes ir →
  compiledFlow id n (alookup id (ca_nodes ast)) = Ok f → flow_ok ids f.
Proof.
  intros Hin. assert (Hwf := compiled_well_formed _ _ _ _ Hacc). assert (Hc := compiled_node id n).
  unfold compiledFlow. destruct (alookup id (ca_nodes ast)) as [c|].
  - destruct (Hc c Hin eq_refl) as (es & Ev). cbn [mbind option_bind].
    destruct (as_array (alookup "on" n)) as [on|].
    { case_decide; [|done]. intros (bs & Hbs & [= <-])%result_bind_Ok. by eapply on_flow_ok. }
    destruct (as_record (alookup "loop" n)).
    { destruct (cn_loop c) as [lp|] eqn:El; [|done]. intros [= <-]. by eapply loop_flow_ok. }
    destruct (as_array (alookup "fallback_chain" n)) as [chain|]; [|done].
    destruct (cn_fallback_chain c) as [ts|] eqn:Et; cbn [default from_option];
      [|by rewrite decide_True by (by left)].
    case_decide as Hd; [done|]. intros [= <-].
    eapply fallback_flow_ok; [done..|]. intros ->. by destruct Hd; left.
  - cbn [mbind option_bind default from_option]. destruct (as_array (alookup "on" n)) as [on|].
    { case_decide; [|done]. intros [= <-]. split; [by intros b ?%not_elem_of_nil|constructor]. }
    destruct (as_record (alookup "loop" n)); [done|].
    destruct (as_array (alookup "fallback_chain" n)) as [chain|]; [|done]. by rewrite decide_True by (by left).
Qed.

Lemma toFlow_ok id n f : (id, n) ∈ ir_nodes ir → toFlow id n (alookup id (ca_nodes ast)) = Ok f → flow_ok ids f.
Proof.
  intros Hin. assert (Hwf := compiled_well_formed _ _ _ _ Hacc).
  assert (Hnext : ∀ v, alookup "next" n = Some v → readTargetRef (Some v) "next" ∈ targetRefsOf n).
  { intros v E. unfold targetRefsOf. rewrite E. by left. }
  assert (Hstr : ∀ t, alookup "next" n = Some (JStr t) → target_ok ids t).
  { intros t E. eapply string_target_ok; [done|by eauto|by apply Hnext]. }
  assert (Hh : ∀ h, alookup "next" n = Some (JObj h) → reservedHandlerFlow id h = Ok f → flow_ok ids f).
  { intros h E. by eapply handler_target_ok. }
  assert (Hc := compiledFlow_ok id n f Hin). unfold toFlow.
  destruct (alookup "terminal" n) as [[]|], (alookup "next" n) as [[]|]; eauto;
    intros Heq; injection Heq as Heq; rewrite <-Heq; simpl; auto.
Qed.

(** The document of a scenario: its start and nodes. *)
Definition describes (doc : json) : Prop :=
  prop "start" (Some doc) = Some (JStr (ir_start ir)) ∧
  prop "nodes" (Some doc) = Some (JObj (map (λ '(id, n), (id, JObj n)) (ir_nodes ir))).

Lemma translated_nodes doc cs : describes doc →
  compiledScenarioFrom uo ro doc (Some ast) params = Ok cs →
  cs_start cs = ir_start ir ∧
  Forall2 (λ p q, p.1 = q.1 ∧ toNode uo ro (ca_nodes ast) params p.1 (JObj p.2) = Ok q.2) (ir_nodes ir) (cs_nodes cs).
Proof.
  intros [Hs Hn]. unfold compiledScenarioFrom. rewrite Hs, Hn. cbn [as_string as_record].
  intros (ns & Hns & [= <-])%result_bind_Ok. simpl. split; [done|]. apply collect_Ok in Hns.
  revert ns Hns. generalize (ir_nodes ir). clear. intros nodes.
  induction nodes as [|[id n] nodes IH]; intros ns Hns.
  - simpl in Hns. apply Forall2_nil_inv_l in Hns as ->. constructor.
  - simpl in Hns. apply Forall2_cons_inv_l in Hns as ([id' node] & ns' & H & Hns & ->).
    apply result_bind_Ok in H as (x & Hx & [= <- <-]). constructor; [done|by apply IH].
Qed.

Lemma translated_runnable doc cs : describes doc →
  compiledScenarioFrom uo ro doc (Some ast) params = Ok cs →
  runnable cs ∧ (cs_nodes cs).*1 = ids.
Proof.
  intros Hd Hcs. destruct (translated_nodes _ _ Hd Hcs) as [Hs Hn].
  assert (Hids : (cs_nodes cs).*1 = ids).
  { clear -Hn. induction Hn as [|[id n] [id' node] l k [H _] _ IH]; [done|]. simpl in H. subst id'. rewrite !fmap_cons. by f_equal. }
  assert (Hnode : ∀ id node, alookup id (cs_nodes cs) = Some node →
    ∃ n, (id, n) ∈ ir_nodes ir ∧ toNode uo ro (ca_nodes ast) params id (JObj n) = Ok node).
  { intros id node Hl%alookup_elem. apply list_elem_of_lookup in Hl as [i Hi].
    destruct (Forall2_lookup_r _ _ _ _ _ Hn Hi) as ([id' n] & Hx & H1 & H2). simpl in *. subst id'.
    exists n. split; [by eapply list_elem_of_lookup_2|done]. }
  split; [|done]. split.
  - rewrite Hs, Hids. apply (wf_start _ (compiled_well_formed _ _ _ _ Hacc)).
  - intros id node Hl. destruct (Hnode _ _ Hl) as (n & Hin & H). rewrite Hids.
    unfold toNode in H. apply result_bind_Ok in H as (what & _ & H). apply result_bind_Ok in H as (flow & Hf & H).
    apply result_bind_Ok in H as (v & _ & [= <-]). by eapply toFlow_ok.
  - intros id node a Hl Ha. destruct (Hnode _ _ Hl) as (n & Hin & H).
    unfold toNode in H. apply result_bind_Ok in H as (what & Hw & H). apply result_bind_Ok in H as (flow & _ & H).
    apply result_bind_Ok in H as (v & _ & [= <-]). simpl in Ha.
    apply list_elem_of_omap in Ha as (o & Ho & ->). apply collect_Ok in Hw.
    apply list_elem_of_lookup in Ho as [i Hi]. destruct (Forall2_lookup_r _ _ _ _ _ Hw Hi) as (x & _ & Hx).
    by eapply mapAction_ok.
Qed.
End Validated.

(** ** Properties *)

Definition sample_doc : json :=
  JObj [("start", JStr "a"); ("nodes", JObj (map (λ '(id, n), (id, JObj n)) (ir_nodes sample)))].

Definition sample_compiled : CompiledScenario :=
  mkCompiledScenario "a"
    [("a", mkNode [] (FlowOn [mkBranch (NVariable ["flags"; "blocked"] false) "b" (num_of_Z 1);
                              mkBranch (NLiteral t_boolean (VBool true) false) "b" (num_of_Z 2)]) None);
     ("b", mkNode [] (FlowTerminal "success") None)].



(** What an accepted [act] declares. *)
Record act_exclusive (x : ActArgs) : Prop := {
  ax_value : count_true [defined (aa_secretRef x); defined (aa_valueRef x); defined (aa_valueFromNode x)] ≤ 1;
  ax_click : clickModes x ≤ 1;
  ax_group : count_true [0 <? clickModes x; hasFill x; hasSelect x] ≤ 1;
  ax_fill : aa_fillSelector x ≠ None →
    aa_valueRef x ≠ None ∨ aa_secretRef x ≠ None ∨ aa_valueFromNode x ≠ None;
  ax_secret : aa_secretRef x ≠ None → aa_fillSelector x ≠ None ∨ aa_allowLlmSecretSelector x = true;
  ax_rich : aa_richBodyFrame x ≠ None → aa_secretRef x = None ∧ aa_fillSelector x = None;
  ax_select : hasSelect x = true → aa_selectSelector x ≠ None ∧ aa_selectValue x ≠ None
}.

Lemma checkAct_exclusive nodeId x : checkAct nodeId x = Ok tt → act_exclusive x.
Proof.
  unfold checkAct. intros H.
  repeat match type of H with context [if ?b then _ else _] => destruct b eqn:?; [done|] end.
  split; try (apply Nat.ltb_ge; done).
  - destruct (aa_fillSelector x), (aa_valueRef x), (aa_secretRef x), (aa_valueFromNode x); simpl in *;
      try done; intros _; auto.
  - destruct (aa_fillSelector x), (aa_secretRef x), (aa_allowLlmSecretSelector x); simpl in *; try done; auto.
  - destruct (aa_richBodyFrame x), (aa_fillSelector x), (aa_secretRef x); simpl in *; try done; auto.
  - intros Hs. rewrite Hs in *. destruct (aa_selectSelector x), (aa_selectValue x); simpl in *; done.
Qed.

(** A credential is never filled through a guessed selector.  Every [act]
    action that reaches the executor uses one mode of interaction and one
    source for its value; if it carries a secret reference, then it carries
    no other value, and its selector is fixed by the scenario unless the
    scenario opts into a selector chosen by the model. *)
Theorem act_action_exclusive url_origin regexp_ok nodeId a params se rec f :
  mapAction url_origin regexp_ok nodeId (JObj a) params se rec = Ok (Some (JObj f)) →
  as_string (alookup "action" a) = Some "act" →
  ∃ i x, f = withRecording (act_fields i se x) rec ∧ act_exclusive x ∧
    (alookup "secretRef" f ≠ None →
     alookup "valueRef" f = None ∧ alookup "valueFromNode" f = None ∧ alookup "value" f = None ∧
     (alookup "fillSelector" f ≠ None ∨ prop "allow_llm_secret_selector" (alookup "args" a) = Some (JBool true))).
Proof.
  intros H Ha. unfold mapAction in H. rewrite Ha in H. simpl in H.
  destruct (instruction_of _) as [i|]; [|done]. apply result_bind_Ok in H as (x & Hx & [= <-]).
  unfold parseActArgs in Hx. destruct (_ && _); [done|].
  apply result_bind_Ok in Hx as (vfn & _ & Hx). apply result_bind_Ok in Hx as ([] & Hc & [= <-]).
  apply checkAct_exclusive in Hc. set (x := mkActArgs _ _ _ _ _ _ _ _ _ _ _ _) in *.
  exists i, x. split; [done|]. split; [done|]. rewrite !alookup_recording by done.
  intros Hsec. assert (Hs : aa_secretRef x ≠ None).
  { intros E. apply Hsec. unfold act_fields. read_fields. rewrite E. by repeat case_match. }
  assert (Hv : aa_valueRef x = None ∧ aa_valueFromNode x = None).
  { destruct Hc as [Hv _ _ _ _ _ _]. destruct (aa_secretRef x), (aa_valueRef x), (aa_valueFromNode x);
      unfold count_true in Hv; simpl in Hv; done || lia. }
  destruct Hv as [Hv1 Hv2]. assert (Hv3 : aa_value x = None).
  { subst x. simpl in *. by rewrite Hv1. }
  split_and!.
  - unfold act_fields. read_fields. by rewrite Hv1.
  - rewrite act_fields_valueFromNode. by rewrite Hv2.
  - unfold act_fields. read_fields. by rewrite Hv3.
  - destruct (ax_secret _ Hc Hs) as [Hf|Hf].
    + left. unfold act_fields. read_fields. destruct (aa_fillSelector x); [done|]. done.
    + right. subst x. simpl in Hf. apply truthy_true in Hf. unfold as_bool in Hf. by repeat case_match; simplify_eq.
Qed.

Lemma act_action_exclusive_witness :
  let a := [("action", JStr "act"); ("instruction", JStr "log in"); ("vars", JArr [JStr "pw"]);
            ("args", JObj [("fill_selector", JStr "#pw")])] in
  let f := [("type", JStr "act"); ("instruction", JStr "log in"); ("secretRef", JStr "pw");
            ("fillSelector", JStr "#pw")] in
  alookup "secretRef" f ≠ None ∧ alookup "valueRef" f = None ∧ alookup "fillSelector" f ≠ None.
Proof.
  intros a f.
  destruct (act_action_exclusive (λ _, None) (λ _, true) "n" a None None None f) as (i & x & _ & _ & H).
  - vm_compute. reflexivity.
  - reflexivity.
  - assert (Hs : alookup "secretRef" f ≠ None) by done. split; [done|].
    destruct (H Hs) as (H1 & _ & _ & [H2|H2]); [by split|done].
Defined.
