(* ===== verification/Schedule.v ===== *)
(** * Cron schedules of run triggers

    Models [app/src/runtime/run-trigger-schedule.ts].  The thrown
    [CronScheduleError] is its reason and field.  The time-zone formatter of the
    host is a parameter: for a known zone it gives the numeric year, month, day,
    hour and minute of an instant, or nothing when a part is not a number.
    [Date.UTC] and [getUTCDay] are computed as ECMAScript defines them.  Instants
    are integer milliseconds within the range of [Date]. *)

From stdpp Require Import base strings list gmap sets numbers.
From Stdlib Require Import Ascii ZArith.
From S2P Require Import Prelude JsValue JsText HumanTask.

Local Open Scope Z_scope.

Definition MAX_LOOKAHEAD_DAYS : Z := 366 * 5.
Definition MINUTE_MS : Z := 60000.

Inductive CronFieldName := f_minute | f_hour | f_day_of_month | f_month | f_day_of_week.
#[export] Instance CronFieldName_eq_dec : EqDecision CronFieldName.
Proof. solve_decision. Defined.

Record CronFieldSpec := mkSpec { fs_name : CronFieldName; fs_min : Z; fs_max : Z }.

Record ParsedCronField := mkField { pf_values : gset Z; pf_wildcard : bool }.

Record ParsedCronExpression := mkCron {
  pc_minute : ParsedCronField;
  pc_hour : ParsedCronField;
  pc_dayOfMonth : ParsedCronField;
  pc_month : ParsedCronField;
  pc_dayOfWeek : ParsedCronField
}.

Record LocalDateParts := mkParts {
  lp_year : Z; lp_month : Z; lp_day : Z; lp_hour : Z; lp_minute : Z; lp_dayOfWeek : Z }.

Definition spec_minute := mkSpec f_minute 0 59.
Definition spec_hour := mkSpec f_hour 0 23.
Definition spec_day_of_month := mkSpec f_day_of_month 1 31.
Definition spec_month := mkSpec f_month 1 12.
Definition spec_day_of_week := mkSpec f_day_of_week 0 7.
Definition FIELD_SPECS : list CronFieldSpec :=
  [spec_minute; spec_hour; spec_day_of_month; spec_month; spec_day_of_week].

Record CronScheduleError := mkCronError { ce_reason : string; ce_field : option CronFieldName }.

Abbreviation cron := (result CronScheduleError).

Definition fail {A} (reason : string) (spec : CronFieldSpec) : cron A :=
  Err (mkCronError reason (Some (fs_name spec))).

(** ** Fields *)

Definition parseInteger (value : string) (spec : CronFieldSpec) (reason : string) : cron Z :=
  if negb (all_digits value) then fail reason spec else
  let parsed := digits_value 0 value in
  if (parsed <? fs_min spec) || (fs_max spec <? parsed) then fail reason spec else Ok parsed.

Definition normalizeValue (value : Z) (spec : CronFieldSpec) : Z :=
  if decide (fs_name spec = f_day_of_week ∧ value = 7) then 0 else value.

Definition fieldCardinality (spec : CronFieldSpec) : Z :=
  if decide (fs_name spec = f_day_of_week) then 7 else fs_max spec - fs_min spec + 1.

Definition parseRange (token : string) (spec : CronFieldSpec) : cron (Z * Z) :=
  if decide (token = "*") then Ok (fs_min spec, fs_max spec) else
  let finish (startToken : string) (endToken : option string) :=
    if decide (startToken = EmptyString) then fail "invalid_range" spec else
    start ← parseInteger startToken spec "invalid_number";
    stop ← match endToken with None => Ok start | Some e => parseInteger e spec "invalid_number" end;
    if stop <? start then fail "descending_range" spec else Ok (start, stop) in
  match split_on "-" token with
  | [startToken] => finish startToken None
  | [startToken; endToken] => finish startToken (Some endToken)
  | _ => fail "invalid_range" spec
  end.

(** A part [range/step]: its start, end and step. *)
Definition parsePart (rawPart : string) (spec : CronFieldSpec) : cron (Z * Z * Z) :=
  let finish (rangeToken : string) (stepToken : option string) :=
    if decide (rangeToken = EmptyString) then fail "invalid_step_syntax" spec else
    step ← match stepToken with None => Ok 1 | Some t => parseInteger t spec "invalid_step" end;
    if step <? 1 then fail "invalid_step" spec else
    '(start, stop) ← parseRange rangeToken spec;
    Ok (start, stop, step) in
  match split_on "/" rawPart with
  | [rangeToken] => finish rangeToken None
  | [rangeToken; stepToken] => finish rangeToken (Some stepToken)
  | _ => fail "invalid_step_syntax" spec
  end.

(** [for (value = start; value <= end; value += step)]. *)
Definition range_values (start stop step : Z) : list Z :=
  map (λ i, start + i * step) (seqZ 0 ((stop - start) / step + 1)).

Definition addPart (values : gset Z) (rawPart : string) (spec : CronFieldSpec) : cron (gset Z) :=
  '(start, stop, step) ← parsePart rawPart spec;
  Ok (foldl (λ s v, {[normalizeValue v spec]} ∪ s) values (range_values start stop step)).

Fixpoint addParts (values : gset Z) (parts : list string) (spec : CronFieldSpec) : cron (gset Z) :=
  match parts with
  | [] => Ok values
  | p :: parts' => values' ← addPart values p spec; addParts values' parts' spec
  end.

Definition parseField (raw : string) (spec : CronFieldSpec) : cron ParsedCronField :=
  if decide (raw = EmptyString) then fail "empty_field" spec else
  values ← addParts ∅ (split_on "," raw) spec;
  if decide (size values = 0%nat) then fail "empty_value_set" spec
  else Ok (mkField values (bool_decide (Z.of_nat (size values) = fieldCardinality spec))).

(** ** Expressions *)

Definition max_day (month : Z) : Z :=
  if month =? 2 then 29 else if bool_decide (month ∈ [4; 6; 9; 11]) then 30 else 31.

Definition hasPossibleDayOfMonth (days months : gset Z) : bool :=
  existsb (λ month, existsb (λ day, day <=? max_day month) (elements days)) (elements months).

Definition parseCronExpression (expression : string) : cron ParsedCronExpression :=
  match split_spaces (trim expression) with
  | [f1; f2; f3; f4; f5] =>
      minute ← parseField f1 spec_minute;
      hour ← parseField f2 spec_hour;
      dayOfMonth ← parseField f3 spec_day_of_month;
      month ← parseField f4 spec_month;
      dayOfWeek ← parseField f5 spec_day_of_week;
      if negb (pf_wildcard dayOfMonth) && negb (pf_wildcard dayOfWeek)
      then Err (mkCronError "day_of_month_and_day_of_week_both_specific" None)
      else if negb (pf_wildcard dayOfMonth) && negb (pf_wildcard month) &&
              negb (hasPossibleDayOfMonth (pf_values dayOfMonth) (pf_values month))
      then Err (mkCronError "impossible_day_of_month" (Some f_day_of_month))
      else Ok (mkCron minute hour dayOfMonth month dayOfWeek)
  | _ => Err (mkCronError "expected_five_fields" None)
  end.

(** ** Calendar *)

Definition is_leap (y : Z) : bool := (y mod 4 =? 0) && (negb (y mod 100 =? 0) || (y mod 400 =? 0)).

(** [DayFromYear] of ECMAScript. *)
Definition day_from_year (y : Z) : Z :=
  365 * (y - 1970) + (y - 1969) / 4 - (y - 1901) / 100 + (y - 1601) / 400.

Definition month_offset (leap : bool) (m : Z) : Z :=
  default 0 ([0; 31; 59; 90; 120; 151; 181; 212; 243; 273; 304; 334] !! Z.to_nat m) +
  (if leap && (2 <=? m) then 1 else 0).

(** The day number of [Date.UTC(year, month, day)], with its two-digit years. *)
Definition utc_day (year month day : Z) : Z :=
  let y := if (0 <=? year) && (year <=? 99) then 1900 + year else year in
  let ym := y + month / 12 in
  day_from_year ym + month_offset (is_leap ym) (month mod 12) + (day - 1).

Definition week_day (day : Z) : Z := (day + 4) mod 7.

(** ** Matching *)

Definition localParts (parts : option (Z * Z * Z * Z * Z)) : cron LocalDateParts :=
  match parts with
  | None => Err (mkCronError "invalid_local_time_part" None)
  | Some (year, month, day, hour, minute) =>
      Ok (mkParts year month day (if hour =? 24 then 0 else hour) minute
            (week_day (utc_day year (month - 1) day)))
  end.

Definition matches (schedule : ParsedCronExpression) (p : LocalDateParts) : bool :=
  bool_decide (lp_minute p ∈ pf_values (pc_minute schedule)) &&
  bool_decide (lp_hour p ∈ pf_values (pc_hour schedule)) &&
  bool_decide (lp_day p ∈ pf_values (pc_dayOfMonth schedule)) &&
  bool_decide (lp_month p ∈ pf_values (pc_month schedule)) &&
  bool_decide (lp_dayOfWeek p ∈ pf_values (pc_dayOfWeek schedule)).

Section Next.
Context (zone : string → option (Z → option (Z * Z * Z * Z * Z))).

Definition fires (schedule : ParsedCronExpression) (format : Z → option (Z * Z * Z * Z * Z)) (at_ms : Z)
  : cron bool :=
  p ← localParts (format at_ms); Ok (matches schedule p).

Inductive search := Found (at_ms : Z) | Failed (e : CronScheduleError) | Continue (at_ms : Z).

Section Scan.
Context (test : Z → cron bool).

Definition scan_one (candidate : Z) : search :=
  match test candidate with
  | Ok true => Found candidate
  | Ok false => Continue (candidate + MINUTE_MS)
  | Err e => Failed e
  end.

Definition and_then (r : search) (k : Z → search) : search :=
  match r with Continue c => k c | r => r end.

(** [n] turns of the candidate loop, by the binary digits of [n]. *)
Fixpoint scan_minutes (n : positive) (candidate : Z) : search :=
  match n with
  | xH => scan_one candidate
  | xO m => and_then (scan_minutes m candidate) (scan_minutes m)
  | xI m => and_then (scan_one candidate) (λ c, and_then (scan_minutes m c) (scan_minutes m))
  end.
End Scan.

(** The candidates from [startMs] to [horizonMs]. *)
Definition candidates : positive := 2635201.

Definition start_ms (after : Z) : Z := after / MINUTE_MS * MINUTE_MS + MINUTE_MS.
Definition horizon_ms (after : Z) : Z := start_ms after + MAX_LOOKAHEAD_DAYS * 24 * 60 * MINUTE_MS.

(** [after] is [None] for an invalid date. *)
Definition nextCronFireAfter (expression timezone : string) (after : option Z) : cron Z :=
  match after with
  | None => Err (mkCronError "invalid_after" None)
  | Some after =>
      schedule ← parseCronExpression expression;
      match zone timezone with
      | None => Err (mkCronError "invalid_timezone" None)
      | Some format =>
          match scan_minutes (fires schedule format) candidates (start_ms after) with
          | Found t => Ok t
          | Failed e => Err e
          | Continue _ => Err (mkCronError "no_fire_within_lookahead" None)
          end
      end
  end.
End Next.

Example candidates_ok : Zpos candidates = MAX_LOOKAHEAD_DAYS * 24 * 60 + 1. Proof. reflexivity. Qed.
Example week_day_ex : week_day (utc_day 2026 0 1) = 4 ∧ week_day (utc_day 1970 0 1) = 4 ∧ utc_day 2000 1 29 = 11016.
Proof. by vm_compute. Qed.

(** ** Facts about fields *)

Lemma range_values_elem start stop step v : 1 <= step → start <= stop →
  v ∈ range_values start stop step ↔ start <= v <= stop ∧ (step | v - start).
Proof.
  intros Hs Hle. unfold range_values. rewrite list_elem_of_In, in_map_iff. setoid_rewrite <-list_elem_of_In.
  setoid_rewrite elem_of_seqZ. split.
  - intros (i & <- & Hi). assert (i * step <= stop - start).
    { assert (H := Z.mul_div_le (stop - start) step ltac:(lia)). nia. }
    split; [nia|]. exists i. lia.
  - intros [Hv [i Hi]]. exists i. split; [lia|]. split; [nia|].
    assert (i <= (stop - start) / step); [|lia]. apply Z.div_le_lower_bound; nia.
Qed.

Lemma parseInteger_bounds value spec reason z : parseInteger value spec reason = Ok z →
  fs_min spec <= z <= fs_max spec.
Proof.
  unfold parseInteger. destruct (all_digits value); simpl; [|done].
  destruct (_ || _) eqn:E; [done|]. intros [= <-]. apply orb_false_iff in E as [E1%Z.ltb_ge E2%Z.ltb_ge]. done.
Qed.

Lemma parseRange_bounds token spec a b : fs_min spec <= fs_max spec → parseRange token spec = Ok (a, b) →
  fs_min spec <= a ∧ a <= b ∧ b <= fs_max spec.
Proof.
  intros Hs. unfold parseRange. case_decide; [intros [= <- <-]; lia|].
  assert (Hf : ∀ s e, (if decide (s = EmptyString) then fail "invalid_range" spec else
      start ← parseInteger s spec "invalid_number";
      stop ← match e with None => Ok start | Some e => parseInteger e spec "invalid_number" end;
      if stop <? start then fail "descending_range" spec else Ok (start, stop)) = Ok (a, b) →
      fs_min spec <= a ∧ a <= b ∧ b <= fs_max spec).
  { intros s e. case_decide; [done|]. intros (x & Hx%parseInteger_bounds & H')%result_bind_Ok.
    apply result_bind_Ok in H' as (y & Hy & H'). destruct (y <? x) eqn:E; [done|].
    injection H' as <- <-. apply Z.ltb_ge in E. destruct e; [apply parseInteger_bounds in Hy|injection Hy as <-]; lia. }
  destruct (split_on "-" token) as [|s [|e [|]]]; [done|apply (Hf s None)|apply (Hf s (Some e))|done].
Qed.

Lemma parsePart_bounds part spec a b k : fs_min spec <= fs_max spec → parsePart part spec = Ok (a, b, k) →
  fs_min spec <= a ∧ a <= b ∧ b <= fs_max spec ∧ 1 <= k.
Proof.
  intros Hs. unfold parsePart.
  assert (Hf : ∀ r t, (if decide (r = EmptyString) then fail "invalid_step_syntax" spec else
      step ← match t with None => Ok 1 | Some t => parseInteger t spec "invalid_step" end;
      if step <? 1 then fail "invalid_step" spec else
      '(start, stop) ← parseRange r spec; Ok (start, stop, step)) = Ok (a, b, k) →
      fs_min spec <= a ∧ a <= b ∧ b <= fs_max spec ∧ 1 <= k).
  { intros r t. case_decide; [done|]. intros (x & Hx & H')%result_bind_Ok. destruct (x <? 1) eqn:E; [done|].
    apply result_bind_Ok in H' as ([u v] & Hr & [= <- <- <-]). apply Z.ltb_ge in E.
    apply parseRange_bounds in Hr; [|done]. lia. }
  destruct (split_on "/" part) as [|r [|t [|]]]; [done|apply (Hf r None)|apply (Hf r (Some t))|done].
Qed.

(** The values a part stands for. *)
Definition denotes (spec : CronFieldSpec) (part : string) (v : Z) : Prop :=
  ∃ a b k u, parsePart part spec = Ok (a, b, k) ∧ a <= u <= b ∧ (k | u - a) ∧ v = normalizeValue u spec.

Lemma foldl_add spec l : ∀ (s : gset Z) v,
  v ∈ foldl (λ s u, {[normalizeValue u spec]} ∪ s) s l ↔ v ∈ s ∨ ∃ u, u ∈ l ∧ v = normalizeValue u spec.
Proof.
  induction l as [|u l IH]; intros s v; simpl; [set_solver|]. rewrite IH, elem_of_union, elem_of_singleton.
  setoid_rewrite elem_of_cons. naive_solver.
Qed.

Lemma addParts_spec spec parts : fs_min spec <= fs_max spec → ∀ s s', addParts s parts spec = Ok s' →
  ∀ v, v ∈ s' ↔ v ∈ s ∨ ∃ part, part ∈ parts ∧ denotes spec part v.
Proof.
  intros Hs. induction parts as [|p parts IH]; intros s s'; cbn [addParts]; [intros [= <-]; set_solver|].
  intros (s1 & H1 & H2)%result_bind_Ok v. rewrite (IH _ _ H2 v).
  apply result_bind_Ok in H1 as ([[a b] k] & Hp & [= <-]). rewrite foldl_add.
  destruct (parsePart_bounds _ _ _ _ _ Hs Hp) as (? & ? & ? & ?).
  setoid_rewrite elem_of_cons. setoid_rewrite range_values_elem; [|lia..].
  assert (Hd : denotes spec p v ↔ ∃ u, (a <= u <= b ∧ (k | u - a)) ∧ v = normalizeValue u spec).
  { unfold denotes. rewrite Hp. naive_solver. }
  naive_solver.
Qed.

(** The range of a field's values: Sunday is 0 only. *)
Definition field_range (spec : CronFieldSpec) (v : Z) : Prop :=
  fs_min spec <= v <= fs_min spec + fieldCardinality spec - 1.

Ltac field_cases Hspec :=
  unfold FIELD_SPECS in Hspec;
  repeat (apply elem_of_cons in Hspec as [->|Hspec]); [..|by apply not_elem_of_nil in Hspec].

Lemma field_min_max spec : spec ∈ FIELD_SPECS → fs_min spec <= fs_max spec.
Proof. intros Hspec. by field_cases Hspec. Qed.

Lemma normalize_range spec u : spec ∈ FIELD_SPECS → fs_min spec <= u <= fs_max spec →
  field_range spec (normalizeValue u spec).
Proof.
  intros Hspec Hu. unfold field_range, fieldCardinality, normalizeValue.
  destruct (decide (u = 7)) as [->|H7]; field_cases Hspec; simpl in *; repeat case_decide;
    try lia; exfalso; tauto.
Qed.

Lemma parseField_inv raw spec f : parseField raw spec = Ok f →
  addParts ∅ (split_on "," raw) spec = Ok (pf_values f) ∧ pf_values f ≠ ∅ ∧
  pf_wildcard f = bool_decide (Z.of_nat (size (pf_values f)) = fieldCardinality spec).
Proof.
  unfold parseField. case_decide; [done|]. intros (vs & Hv & H')%result_bind_Ok. case_decide as Hsz; [done|].
  injection H' as <-. split_and!; [done| |done]. simpl. intros ->. by rewrite size_empty in Hsz.
Qed.

Lemma parseField_range raw spec f v : spec ∈ FIELD_SPECS → parseField raw spec = Ok f →
  v ∈ pf_values f → field_range spec v.
Proof.
  intros Hspec (Hv & _)%parseField_inv Hin.
  assert (Hs := field_min_max _ Hspec).
  apply (addParts_spec _ _ Hs _ _ Hv) in Hin as [?|(p & _ & a & b & k & u & Hp & Hu & _ & ->)]; [set_solver|].
  apply parsePart_bounds in Hp as (? & ? & ? & _); [|done]. apply normalize_range; [done|lia].
Qed.

Lemma wildcard_iff raw spec f : spec ∈ FIELD_SPECS → parseField raw spec = Ok f →
  pf_wildcard f = true ↔ ∀ v, field_range spec v → v ∈ pf_values f.
Proof.
  intros Hspec Hf. assert (Hr := λ v, parseField_range raw spec f v Hspec Hf).
  apply parseField_inv in Hf as (_ & _ & ->). rewrite bool_decide_eq_true.
  set (R := list_to_set (seqZ (fs_min spec) (fieldCardinality spec)) : gset Z).
  assert (HR : ∀ v, v ∈ R ↔ field_range spec v).
  { intros v. unfold R, field_range. rewrite elem_of_list_to_set, elem_of_seqZ. lia. }
  assert (Hc : Z.of_nat (size R) = fieldCardinality spec).
  { unfold R. rewrite size_list_to_set by apply NoDup_seqZ. rewrite length_seqZ.
    clear -Hspec. by field_cases Hspec. }
  assert (Hsub : pf_values f ⊆ R) by (intros v Hv; by apply HR, Hr).
  split.
  - intros Hsz v Hv. apply HR in Hv. rewrite (set_subseteq_size_eq _ _ Hsub); [done|lia].
  - intros Hall. assert (Heq : R ⊆ pf_values f) by (intros v Hv; by apply Hall, HR).
    apply subseteq_size in Hsub, Heq. lia.
Qed.

(** ** Facts about the search *)

(** What a search over the [n] candidates from [c] has established. *)
Definition searched (test : Z → cron bool) (n c : Z) (r : search) : Prop :=
  match r with
  | Found t => ∃ k, 0 <= k < n ∧ t = c + k * MINUTE_MS ∧ test t = Ok true ∧
      ∀ j, 0 <= j < k → test (c + j * MINUTE_MS) = Ok false
  | Failed e => ∃ k, 0 <= k < n ∧ test (c + k * MINUTE_MS) = Err e ∧
      ∀ j, 0 <= j < k → test (c + j * MINUTE_MS) = Ok false
  | Continue c' => c' = c + n * MINUTE_MS ∧ ∀ j, 0 <= j < n → test (c + j * MINUTE_MS) = Ok false
  end.

Lemma searched_one test c : searched test 1 c (scan_one test c).
Proof.
  unfold scan_one. destruct (test c) as [[]|e] eqn:E; simpl.
  - exists 0. split_and!; [lia..|lia|done|lia].
  - split; [lia|]. intros j Hj. assert (j = 0) as -> by lia. by replace (c + 0 * MINUTE_MS) with c by lia.
  - exists 0. replace (c + 0 * MINUTE_MS) with c by lia. split_and!; [lia..|done|lia].
Qed.

Lemma searched_and_then test m m' c x r : 0 <= m → 0 <= m' → searched test m c x →
  (∀ c, searched test m' c (r c)) → searched test (m + m') c (and_then x r).
Proof.
  intros Hm Hm' Hx Hr. destruct x as [t|e|c']; simpl in *.
  - destruct Hx as (k & ? & ?). exists k. split; [lia|done].
  - destruct Hx as (k & ? & ?). exists k. split; [lia|done].
  - destruct Hx as [-> Hf]. specialize (Hr (c + m * MINUTE_MS)).
    assert (Hall : ∀ k, (∀ j, 0 <= j < k → test (c + m * MINUTE_MS + j * MINUTE_MS) = Ok false) →
      ∀ j, 0 <= j < m + k → test (c + j * MINUTE_MS) = Ok false).
    { intros k Hk j Hj. destruct (decide (j < m)); [apply Hf; lia|].
      replace (c + j * MINUTE_MS) with (c + m * MINUTE_MS + (j - m) * MINUTE_MS) by lia. apply Hk. lia. }
    destruct (r (c + m * MINUTE_MS)) as [t|e|c'']; simpl in *.
    + destruct Hr as (k & ? & -> & ? & Hk). exists (m + k). split_and!; [lia..|lia|done|by apply Hall].
    + destruct Hr as (k & ? & Hk' & Hk). exists (m + k).
      replace (c + (m + k) * MINUTE_MS) with (c + m * MINUTE_MS + k * MINUTE_MS) by lia.
      split_and!; [lia..|done|by apply Hall].
    + destruct Hr as [-> Hk]. split; [lia|by apply Hall].
Qed.

Lemma scan_minutes_spec test n : ∀ c, searched test (Zpos n) c (scan_minutes test n c).
Proof.
  induction n as [n IH|n IH|]; intros c; cbn [scan_minutes].
  - replace (Zpos n~1) with (1 + (Zpos n + Zpos n)) by lia.
    apply searched_and_then; [lia|lia|apply searched_one|]. intros c'. by apply searched_and_then.
  - replace (Zpos n~0) with (Zpos n + Zpos n) by lia. by apply searched_and_then.
  - apply searched_one.
Qed.

(** ** Properties *)

(** Cron fields denote what they say, within bounds.  A field of an accepted
    expression holds exactly the values its parts stand for (start to end by
    step, Sunday 7 read as 0); every value lies in the range of the field, at
    least one value exists, and the field counts as a wildcard exactly when it
    holds every value of its range. *)
Theorem parseField_spec raw spec f :
  spec ∈ FIELD_SPECS → parseField raw spec = Ok f →
  (∀ v, v ∈ pf_values f ↔ ∃ part, part ∈ split_on "," raw ∧ denotes spec part v) ∧
  (∀ v, v ∈ pf_values f → field_range spec v) ∧
  pf_values f ≠ ∅ ∧
  (pf_wildcard f = true ↔ ∀ v, field_range spec v → v ∈ pf_values f).
Proof.
  intros Hspec Hf. split_and!.
  - intros v. destruct (parseField_inv _ _ _ Hf) as (Hv & _).
    rewrite (addParts_spec _ _ (field_min_max _ Hspec) _ _ Hv v). set_solver.
  - intros v. by eapply parseField_range.
  - by apply parseField_inv in Hf as (_ & ? & _).
  - by eapply wildcard_iff.
Qed.

Lemma parseField_spec_witness :
  let f := mkField {[5; 20; 35; 50]} false in
  parseField "5-59/15" spec_minute = Ok f ∧ ∀ v, v ∈ pf_values f → 0 <= v <= 59.
Proof.
  intros f. assert (H : parseField "5-59/15" spec_minute = Ok f) by (vm_compute; reflexivity).
  split; [exact H|]. intros v Hv.
  destruct (parseField_spec "5-59/15" spec_minute f ltac:(by left) H) as (_ & Hr & _).
  specialize (Hr v Hv). unfold field_range, fieldCardinality in Hr. simpl in Hr. lia.
Defined.

(** The next fire time is exact.  For a valid expression, time zone and
    instant, [nextCronFireAfter] returns the least minute boundary strictly
    after the instant, and at most five years ahead, whose local time matches
    the expression; it reports [no_fire_within_lookahead] exactly when no
    minute of that window matches. *)
Theorem nextCronFireAfter_exact zone expression timezone after schedule format :
  parseCronExpression expression = Ok schedule → zone timezone = Some format →
  (∀ t, ∃ b, fires schedule format t = Ok b) →
  let window t := after < t <= horizon_ms after ∧ (MINUTE_MS | t) in
  (∀ t, nextCronFireAfter zone expression timezone (Some after) = Ok t ↔
     window t ∧ fires schedule format t = Ok true ∧
     ∀ t', window t' → t' < t → fires schedule format t' = Ok false) ∧
  (nextCronFireAfter zone expression timezone (Some after) =
     Err (mkCronError "no_fire_within_lookahead" None) ↔
   ∀ t, window t → fires schedule format t = Ok false).
Proof.
  intros Hp Hz Htot window. unfold nextCronFireAfter. rewrite Hp, Hz. cbn [mbind result_bind].
  assert (Hw : ∀ t, window t ↔ ∃ k, 0 <= k < Zpos candidates ∧ t = start_ms after + k * MINUTE_MS).
  { intros t. unfold window, horizon_ms, start_ms, MAX_LOOKAHEAD_DAYS, MINUTE_MS, candidates.
    assert (Hd := Z.div_mod after 60000 ltac:(done)). assert (Hm := Z.mod_pos_bound after 60000 ltac:(done)). split.
    - intros [Ht [q ->]]. exists (q - after / 60000 - 1). split; lia.
    - intros (k & Hk & ->). split; [lia|]. exists (after / 60000 + 1 + k). lia. }
  assert (Hlt : ∀ k k', k' < k ↔ start_ms after + k' * MINUTE_MS < start_ms after + k * MINUTE_MS).
  { unfold MINUTE_MS. lia. }
  assert (Hs := scan_minutes_spec (fires schedule format) candidates (start_ms after)).
  destruct (scan_minutes _ _ _) as [t0|e|c']; simpl in Hs.
  - destruct Hs as (k & Hk & -> & Hf & Hj).
    assert (Hbefore : ∀ t', window t' → t' < start_ms after + k * MINUTE_MS → fires schedule format t' = Ok false).
    { intros t' Ht' Hl. apply Hw in Ht' as (k' & Hk' & ->). apply Hj. split; [lia|by apply Hlt]. }
    assert (Hwin : window (start_ms after + k * MINUTE_MS)) by (apply Hw; eauto).
    split.
    + intros t. split; [intros [= <-]; auto|]. intros (Ht & Hft & Hmin). f_equal.
      destruct (Z.lt_trichotomy t (start_ms after + k * MINUTE_MS)) as [H|[H|H]]; [|done|].
      * rewrite Hbefore in Hft by done. done.
      * rewrite Hmin in Hf by done. done.
    + split; [done|]. intros Hno. by rewrite Hno in Hf.
  - destruct Hs as (k & _ & He & _). destruct (Htot (start_ms after + k * MINUTE_MS)) as [b Hb]. congruence.
  - destruct Hs as [_ Hj].
    assert (Hno : ∀ t, window t → fires schedule format t = Ok false).
    { intros t Ht. apply Hw in Ht as (k & Hk & ->). by apply Hj. }
    split; [|done]. intros t. split; [done|]. intros (Ht & Hft & _). by rewrite Hno in Hft.
Qed.

(** The formatter of the UTC zone: the civil date of a day number and the time
    of day. *)
Definition civil (day : Z) : Z * Z * Z :=
  let z := day + 719468 in
  let era := z / 146097 in
  let doe := z mod 146097 in
  let yoe := (doe - doe / 1460 + doe / 36524 - doe / 146096) / 365 in
  let doy := doe - (365 * yoe + yoe / 4 - yoe / 100) in
  let mp := (5 * doy + 2) / 153 in
  let m := if mp <? 10 then mp + 3 else mp - 9 in
  (yoe + era * 400 + (if m <=? 2 then 1 else 0), m, doy - (153 * mp + 2) / 5 + 1).

Definition utc_format (t : Z) : option (Z * Z * Z * Z * Z) :=
  let '(y, m, d) := civil (t / 86400000) in
  Some (y, m, d, t mod 86400000 / 3600000, t mod 3600000 / 60000).

Definition utc_zone (timezone : string) : option (Z → option (Z * Z * Z * Z * Z)) :=
  if decide (timezone = "UTC") then Some utc_format else None.

Example utc_format_ex : utc_format 1767225600000 = Some (2026, 1, 1, 0, 0) ∧ civil (utc_day 2024 1 29) = (2024, 2, 29).
Proof. by vm_compute. Qed.

(** Weekdays at half past nine: from Thursday noon to Friday morning. *)
Lemma nextCronFireAfter_exact_witness :
  let after := 1767268800000 in
  let next := 1767346200000 in
  nextCronFireAfter utc_zone "30 9 * * 1-5" "UTC" (Some after) = Ok next ∧
  ∃ schedule, parseCronExpression "30 9 * * 1-5" = Ok schedule ∧
    fires schedule utc_format next = Ok true ∧
    fires schedule utc_format 1767270600000 = Ok false.
Proof.
  intros after next.
  assert (Hn : nextCronFireAfter utc_zone "30 9 * * 1-5" "UTC" (Some after) = Ok next) by (vm_compute; reflexivity).
  split; [exact Hn|].
  destruct (parseCronExpression "30 9 * * 1-5") as [schedule|e] eqn:Ep; [|by vm_compute in Ep].
  exists schedule. split; [done|].
  assert (Htot : ∀ t, ∃ b, fires schedule utc_format t = Ok b).
  { intros t. unfold fires, utc_format. destruct (civil _) as [[y m] d]. simpl. eauto. }
  destruct (nextCronFireAfter_exact utc_zone "30 9 * * 1-5" "UTC" after schedule utc_format Ep eq_refl Htot) as [H _].
  destruct (proj1 (H next) Hn) as (_ & Hf & Hb). split; [exact Hf|]. apply Hb; [|subst next; lia].
  split; [vm_compute; by split|]. exists 29454510. reflexivity.
Defined.
