(* ===== verification/Database.v ===== *)
(** * The tables of a tenant and the transitions on them

    Models [app/src/runtime/run-transition.ts], [workitem-transition.ts],
    [human-task-transition.ts] and [outbox.ts]: the compare-and-set updates of
    runs, workitems and human tasks, and the outbox rows written in the same
    transaction.

    [Db] is the part of PostgreSQL one tenant sees (every statement carries the
    tenant and row-level security hides the rest); a statement is a function on
    it.  A transaction body is a [Tx]: it returns a value and the tables, or
    throws, and then nothing of it remains.  [now()] is the time stamp of the
    transaction, in milliseconds.  The [UNIQUE(tenant_id, idempotency_key)]
    constraint of the outbox makes an [INSERT] throw; surrogate row ids and
    [updated_at] columns are left out. *)

From stdpp Require Import base strings list gmap.
From Stdlib Require Import Ascii ZArith.
From S2P Require Import Prelude StateMachine JsValue JsText RuntimeStore.

(** ** Tables *)

Record RunRow := mkRunRow {
  r_status : RunState;
  r_workitem_id : option string;
  r_worker_id : option string;
  r_attempts : Z;
  r_consecutive_init_failures : Z;
  r_started_at : option Z;
  r_ended_at : option Z;
  r_bookmark : option json;
  r_resume_token : option json;
  r_failure_reason : option string
}.

Record WorkitemRow := mkWorkitemRow {
  w_status : WorkitemState;
  w_attempts : Z;
  w_checked_out_by : option string;
  w_checked_out_at : option Z;
  w_checkout_expires_at : option Z;
  w_checkout_paused_at : option Z
}.

Record HumanTaskRow := mkHumanTaskRow {
  h_id : string;
  h_run_id : string;
  h_node_id : option string;
  h_kind : HumanTaskKind;
  h_assignee_role : option string;
  h_on_timeout : OnTimeout;
  h_state : HumanTaskState;
  h_assignee : option string;
  h_payload : json;
  h_result_schema : json;
  h_artifact_refs : json;
  h_result : json;
  h_expires_at : Z;
  h_resolved_at : option Z
}.

Record OutboxEvent := mkOutboxEvent {
  o_eventType : EventEnvelopeType;
  o_runId : option string;
  o_workitemId : option string;
  o_stepId : option string;
  o_attempt : option Z;
  o_correlationId : string;
  o_orderingKey : option string;
  o_occurredAt : Z;
  o_idempotencyKey : string;
  o_payloadSchemaRef : string;
  o_retentionUntil : Z
}.

Record DeadLetterRow := mkDeadLetterRow {
  dl_workitem_id : string;
  dl_run_id : option string;
  dl_reason_code : string;
  dl_evidence_ref : option string;
  dl_replayable : bool
}.

Inductive PauseStatus := pr_requested | pr_accepted | pr_completed.
#[export] Instance PauseStatus_eq_dec : EqDecision PauseStatus.
Proof. solve_decision. Defined.

Record PauseRequestRow := mkPauseRequestRow {
  pr_id : string;
  pr_run_id : string;
  pr_status : PauseStatus;
  pr_reason : option string;
  pr_accepted_by : option string
}.

Record StepRow := mkStepRow { sp_run_id : string; sp_step_id : string; sp_attempt : Z }.

(** A queued background job; the kinds the driver and the request handlers
    enqueue.  A routed job carries the flag of its worker pool and a priority. *)
Inductive Job :=
| job_artifact_redaction (runId artifactId correlationId : string)
| job_artifact_retention (correlationId : string)
| job_run_claim (runId correlationId : string) (delayMs : option Z)
| job_run_abort (runId correlationId : string)
| job_run_resume (runId correlationId : string)
| job_sink_deliver (normalizedRecordId sinkConfigId correlationId : string)
| job_routed (job : Job) (poolFlag : string) (priority : Z).

(** Rows of lists are in insertion order ([ORDER BY created_at]). *)
Record Db := mkDb {
  db_now : Z;
  db_ids : nat;
  runs : gmap string RunRow;
  workitems : gmap string WorkitemRow;
  human_tasks : list HumanTaskRow;
  events_outbox : list OutboxEvent;
  dead_letter : list DeadLetterRow;
  pause_requests : list PauseRequestRow;
  run_steps : list StepRow;
  jobs : list Job
}.

Definition set_runs (x : gmap string RunRow) (d : Db) : Db :=
  mkDb (db_now d) (db_ids d) x (workitems d) (human_tasks d) (events_outbox d) (dead_letter d)
    (pause_requests d) (run_steps d) (jobs d).
Definition set_workitems (x : gmap string WorkitemRow) (d : Db) : Db :=
  mkDb (db_now d) (db_ids d) (runs d) x (human_tasks d) (events_outbox d) (dead_letter d)
    (pause_requests d) (run_steps d) (jobs d).
Definition set_human_tasks (x : list HumanTaskRow) (d : Db) : Db :=
  mkDb (db_now d) (db_ids d) (runs d) (workitems d) x (events_outbox d) (dead_letter d)
    (pause_requests d) (run_steps d) (jobs d).
Definition push_outbox (x : OutboxEvent) (d : Db) : Db :=
  mkDb (db_now d) (db_ids d) (runs d) (workitems d) (human_tasks d) (events_outbox d ++ [x]) (dead_letter d)
    (pause_requests d) (run_steps d) (jobs d).
Definition push_dead_letter (x : DeadLetterRow) (d : Db) : Db :=
  mkDb (db_now d) (db_ids d) (runs d) (workitems d) (human_tasks d) (events_outbox d) (dead_letter d ++ [x])
    (pause_requests d) (run_steps d) (jobs d).
Definition set_pause_requests (x : list PauseRequestRow) (d : Db) : Db :=
  mkDb (db_now d) (db_ids d) (runs d) (workitems d) (human_tasks d) (events_outbox d) (dead_letter d)
    x (run_steps d) (jobs d).
Definition push_job (x : Job) (d : Db) : Db :=
  mkDb (db_now d) (db_ids d) (runs d) (workitems d) (human_tasks d) (events_outbox d) (dead_letter d)
    (pause_requests d) (run_steps d) (jobs d ++ [x]).
Definition use_id (d : Db) : Db :=
  mkDb (db_now d) (S (db_ids d)) (runs d) (workitems d) (human_tasks d) (events_outbox d) (dead_letter d)
    (pause_requests d) (run_steps d) (jobs d).

(** ** Transactions *)

(** What the code of a transaction throws: a refused transition, a violated
    unique constraint, an [Error] of the code itself. *)
Inductive DbError :=
| E_illegal (e : IllegalTransition)
| E_unique (key : string)
| E_error (message : string).

Definition Tx (A : Type) : Type := Db → result DbError (A * Db).
#[export] Instance Tx_ret : MRet Tx := λ A a d, Ok (a, d).
#[export] Instance Tx_bind : MBind Tx := λ A B f m d,
  match m d with Ok (a, d') => f a d' | Err e => Err e end.

Definition raise {A} (e : DbError) : Tx A := λ _, Err e.
Definition select {A} (f : Db → A) : Tx A := λ d, Ok (f d, d).
Definition update (f : Db → Db) : Tx () := λ d, Ok (tt, f d).

Lemma Tx_bind_Ok {A B} (m : Tx A) (f : A → Tx B) d b d' :
  (m ≫= f) d = Ok (b, d') ↔ ∃ a d1, m d = Ok (a, d1) ∧ f a d1 = Ok (b, d').
Proof. unfold mbind, Tx_bind. destruct (m d) as [[a d1]|e]; naive_solver. Qed.

(** ** Outbox *)

Definition EVENTS_OUTBOX_RETENTION_SECONDS : Z := 90 * (24 * 60 * 60).

Record OutboxEmit := mkEmit {
  oe_eventType : EventEnvelopeType;
  oe_correlationId : string;
  oe_runId : option string;
  oe_workitemId : option string;
  oe_stepId : option string;
  oe_attempt : option Z;
  oe_idempotencyKey : string;
  oe_occurredAt : option Z
}.

(** Both branches of [validateStepReference] ask for the same three fields. *)
Definition step_reference_ok (e : OutboxEmit) : bool :=
  match oe_runId e, oe_stepId e, oe_attempt e with
  | Some _, Some stepId, Some attempt => negb (blank stepId) && (0 <=? attempt)%Z
  | _, _, _ => false
  end.
Definition validateStepReference (e : OutboxEmit) : bool :=
  if starts_with "step." (EventEnvelopeType_str (oe_eventType e)) then step_reference_ok e
  else match oe_stepId e, oe_attempt e with
       | None, None => true
       | _, _ => step_reference_ok e
       end.

Definition emitOutboxEvent (e : OutboxEmit) : Tx OutboxEvent := λ d,
  if negb (validateStepReference e) then Err (E_error "step reference") else
  if existsb (λ o, bool_decide (o_idempotencyKey o = oe_idempotencyKey e)) (events_outbox d)
  then Err (E_unique (oe_idempotencyKey e)) else
  let row := mkOutboxEvent (oe_eventType e) (oe_runId e) (oe_workitemId e) (oe_stepId e) (oe_attempt e)
               (oe_correlationId e)
               (match oe_runId e with Some r => Some r | None => oe_workitemId e end)
               (default (db_now d) (oe_occurredAt e)) (oe_idempotencyKey e)
               (EVENT_PAYLOAD_SCHEMA_REFS (oe_eventType e))
               (db_now d + 1000 * EVENTS_OUTBOX_RETENTION_SECONDS) in
  Ok (row, push_outbox row d).

(** The key of an emitted event: [`${anchor}:${cmd.event}`]. *)
Definition outbox_key (anchor : string) (ev : EventEnvelopeType) : string :=
  anchor +:+ ":" +:+ EventEnvelopeType_str ev.

(** The [for (const cmd of emitEvents)] loop of the three functions. *)
Fixpoint emitAll (correlationId : string) (runId workitemId : option string) (anchor : string)
    (occurredAt : option Z) (evs : list EventEnvelopeType) : Tx (list OutboxEvent) :=
  match evs with
  | [] => mret []
  | ev :: rest =>
      e ← emitOutboxEvent (mkEmit ev correlationId runId workitemId None None (outbox_key anchor ev) occurredAt);
      es ← emitAll correlationId runId workitemId anchor occurredAt rest;
      mret (e :: es)
  end.

Definition emitted_events (effects : list SideEffectCmd) : list EventEnvelopeType :=
  omap (λ c, match c with emitEvent e => Some e | _ => None end) effects.

Definition hasSetField (entity : EntityKind) (field : string) (effects : list SideEffectCmd) : bool :=
  existsb (λ c, bool_decide (c = setField entity field)) effects.

Inductive TransitionOutcome (S : Type) :=
| Applied (next : S) (emitted : list OutboxEvent) (pending : list SideEffectCmd)
| CasConflict (observed : option S).
Arguments Applied {S} _ _ _.
Arguments CasConflict {S} _.

Definition from_transition {S} (r : outcome S) : Tx (TransitionResult S) := λ d,
  match r with Ok t => Ok (t, d) | Err e => Err (E_illegal e) end.

(** ** Runs *)

Record RunTransitionContext := mkRunCtx {
  rt_runId : string;
  rt_fromStatus : RunState;
  rt_event : RunEvent;
  rt_guard : RunGuard;
  rt_correlationId : string;
  rt_workerId : option string;
  rt_eventIdempotencyKey : option string;
  rt_occurredAt : option Z
}.

Definition TERMINAL_RUN_STATES : list RunState :=
  [run_completed; run_cancelled; run_failed_business; run_failed_system].

Definition run_pending (effects : list SideEffectCmd) : list SideEffectCmd :=
  filter (λ c, match c with
               | emitEvent _ | requeue => false
               | _ => negb (bool_decide (c = setField e_run "worker_id"))
               end = true) effects.

(** The columns written by the [UPDATE runs]. *)
Definition updated_run (now : Z) (ctx : RunTransitionContext) (t : TransitionResult RunState) (row : RunRow)
  : RunRow :=
  let requeued := existsb (λ c, bool_decide (c = requeue)) (sideEffects t) in
  let started := bool_decide (next t = run_running) && bool_decide (rt_fromStatus ctx = run_claimed) in
  mkRunRow (next t) (r_workitem_id row)
    (if hasSetField e_run "worker_id" (sideEffects t) then rt_workerId ctx else r_worker_id row)
    (r_attempts row + (if requeued then 1 else 0))
    (if started then 0 else if requeued then r_consecutive_init_failures row + 1
     else r_consecutive_init_failures row)
    (if started then Some now else r_started_at row)
    (if decide (next t ∈ TERMINAL_RUN_STATES) then Some now else r_ended_at row)
    (r_bookmark row) (r_resume_token row) (r_failure_reason row).

Definition applyRunTransition (ctx : RunTransitionContext) : Tx (TransitionOutcome RunState) :=
  t ← from_transition (transitionRun (rt_fromStatus ctx) (rt_event ctx) (rt_guard ctx));
  if hasSetField e_run "worker_id" (sideEffects t) && bool_decide (rt_workerId ctx = None)
  then raise (E_error "applyRunTransition: workerId required") else
  row ← select (λ d, runs d !! rt_runId ctx);
  match row with
  | None => mret (CasConflict None)
  | Some row =>
      if decide (r_status row = rt_fromStatus ctx) then
        _ ← update (λ d, set_runs (<[rt_runId ctx := updated_run (db_now d) ctx t row]> (runs d)) d);
        emitted ← emitAll (rt_correlationId ctx) (Some (rt_runId ctx)) None
                    (default (rt_runId ctx) (rt_eventIdempotencyKey ctx)) (rt_occurredAt ctx)
                    (emitted_events (sideEffects t));
        mret (Applied (next t) emitted (run_pending (sideEffects t)))
      else mret (CasConflict (Some (r_status row)))
  end.

(** ** Workitems *)

Record WorkitemTransitionContext := mkWorkitemCtx {
  wt_workitemId : string;
  wt_fromStatus : WorkitemState;
  wt_event : WorkitemEvent;
  wt_guard : WorkitemGuard;
  wt_correlationId : string;
  wt_runId : option string;
  wt_workerId : option string;
  wt_eventIdempotencyKey : option string;
  wt_occurredAt : option Z
}.

(** [pending] of workitems and of human tasks. *)
Definition entity_pending (effects : list SideEffectCmd) : list SideEffectCmd :=
  filter (λ c, match c with emitEvent _ | setField _ _ => false | _ => true end = true) effects.

Definition increments_attempts (e : WorkitemEvent) : bool :=
  match e with wev_system_exception | wev_checkout_expired => true | _ => false end.

Definition updated_workitem (now : Z) (ctx : WorkitemTransitionContext) (t : TransitionResult WorkitemState)
    (row : WorkitemRow) : WorkitemRow :=
  mkWorkitemRow (next t)
    (if hasSetField e_workitem "attempts" (sideEffects t) then 0
     else if increments_attempts (wt_event ctx) then w_attempts row + 1 else w_attempts row)
    (if hasSetField e_workitem "checked_out_by" (sideEffects t) then wt_workerId ctx else w_checked_out_by row)
    (if hasSetField e_workitem "checked_out_at" (sideEffects t) then Some now else w_checked_out_at row)
    (w_checkout_expires_at row) (w_checkout_paused_at row).

Definition applyWorkitemTransition (ctx : WorkitemTransitionContext) : Tx (TransitionOutcome WorkitemState) :=
  t ← from_transition (transitionWorkitem (wt_fromStatus ctx) (wt_event ctx) (wt_guard ctx));
  if hasSetField e_workitem "checked_out_by" (sideEffects t) && bool_decide (wt_workerId ctx = None)
  then raise (E_error "applyWorkitemTransition: workerId required") else
  row ← select (λ d, workitems d !! wt_workitemId ctx);
  match row with
  | None => mret (CasConflict None)
  | Some row =>
      if decide (w_status row = wt_fromStatus ctx) then
        _ ← update (λ d, set_workitems
              (<[wt_workitemId ctx := updated_workitem (db_now d) ctx t row]> (workitems d)) d);
        emitted ← emitAll (wt_correlationId ctx) (wt_runId ctx) (Some (wt_workitemId ctx))
                    (default (wt_workitemId ctx) (wt_eventIdempotencyKey ctx)) (wt_occurredAt ctx)
                    (emitted_events (sideEffects t));
        mret (Applied (next t) emitted (entity_pending (sideEffects t)))
      else mret (CasConflict (Some (w_status row)))
  end.

(** ** Human tasks *)

Record HumanTaskTransitionContext := mkHumanCtx {
  hc_humanTaskId : string;
  hc_runId : string;
  hc_fromState : HumanTaskState;
  hc_event : HumanTaskEvent;
  hc_guard : HumanTaskGuard;
  hc_correlationId : string;
  hc_assignee : option string;
  hc_eventIdempotencyKey : option string;
  hc_occurredAt : option Z
}.

Definition updated_human_task (now : Z) (ctx : HumanTaskTransitionContext) (t : TransitionResult HumanTaskState)
    (row : HumanTaskRow) : HumanTaskRow :=
  mkHumanTaskRow (h_id row) (h_run_id row) (h_node_id row) (h_kind row) (h_assignee_role row)
    (h_on_timeout row) (next t)
    (if hasSetField e_human_task "assignee" (sideEffects t) then hc_assignee ctx else h_assignee row)
    (h_payload row) (h_result_schema row) (h_artifact_refs row) (h_result row) (h_expires_at row)
    (if decide (next t = ht_resolved) then Some now else h_resolved_at row).

(** The [WHERE id = $5 AND state = $7] of the update. *)
Definition human_task_hit (ctx : HumanTaskTransitionContext) (row : HumanTaskRow) : bool :=
  bool_decide (h_id row = hc_humanTaskId ctx) && bool_decide (h_state row = hc_fromState ctx).

Definition applyHumanTaskTransition (ctx : HumanTaskTransitionContext) : Tx (TransitionOutcome HumanTaskState) :=
  t ← from_transition (transitionHumanTask (hc_fromState ctx) (hc_event ctx) (hc_guard ctx));
  if hasSetField e_human_task "assignee" (sideEffects t) && bool_decide (hc_assignee ctx = None)
  then raise (E_error "applyHumanTaskTransition: assignee required") else
  tasks ← select human_tasks;
  if existsb (human_task_hit ctx) tasks then
    _ ← update (λ d, set_human_tasks
          (map (λ h, if human_task_hit ctx h then updated_human_task (db_now d) ctx t h else h) (human_tasks d)) d);
    emitted ← emitAll (hc_correlationId ctx) (Some (hc_runId ctx)) None
                (default (hc_humanTaskId ctx) (hc_eventIdempotencyKey ctx)) (hc_occurredAt ctx)
                (emitted_events (sideEffects t));
    mret (Applied (next t) emitted (entity_pending (sideEffects t)))
  else mret (CasConflict (h_state <$> head (filter (λ h, h_id h = hc_humanTaskId ctx) tasks))).

Definition active_human_task (s : HumanTaskState) : bool :=
  match s with ht_open | ht_assigned | ht_in_progress | ht_escalated => true | _ => false end.

Definition cancel_one (runId correlationId : string) (task : HumanTaskRow) : Tx () :=
  out ← applyHumanTaskTransition (mkHumanCtx (h_id task) runId (h_state task) hev_cancel human_task_guard_empty
          correlationId None (Some (h_id task +:+ ":run_terminal_cancel")) None);
  match out with
  | Applied _ _ (_ :: _) => raise (E_error "cancelLinkedHumanTasksForRunTerminal: unexpected H7 pending")
  | _ => mret tt
  end.

Fixpoint cancel_all (runId correlationId : string) (tasks : list HumanTaskRow) : Tx () :=
  match tasks with
  | [] => mret tt
  | task :: rest => _ ← cancel_one runId correlationId task; cancel_all runId correlationId rest
  end.

Definition cancelLinkedHumanTasksForRunTerminal (runId correlationId : string) : Tx () :=
  tasks ← select (λ d, filter (λ h, h_run_id h = runId ∧ active_human_task (h_state h) = true) (human_tasks d));
  cancel_all runId correlationId tasks.

(** ** Facts *)

(** The keys of events of different types differ: the type is what follows the
    last colon. *)
Fixpoint has_colon (s : string) : bool :=
  match s with EmptyString => false | String c s' => bool_decide (c = ":"%char) || has_colon s' end.
Fixpoint after_last_colon (s : string) : string :=
  match s with
  | EmptyString => EmptyString
  | String c s' => if has_colon s' then after_last_colon s' else if decide (c = ":"%char) then s' else s
  end.

Lemma has_colon_app a b : has_colon (a +:+ b) = has_colon a || has_colon b.
Proof. induction a as [|c a IH]; simpl; [done|]. rewrite IH. by destruct (bool_decide _), (has_colon a). Qed.

Lemma after_last_colon_app a t : has_colon t = false → after_last_colon (a +:+ String ":"%char t) = t.
Proof.
  intros Ht. induction a as [|c a IH]; simpl.
  - by rewrite Ht.
  - rewrite has_colon_app. simpl. by rewrite orb_true_r.
Qed.

Lemma event_str_no_colon ev : has_colon (EventEnvelopeType_str ev) = false.
Proof. by destruct ev. Qed.

Lemma outbox_key_type a ev : after_last_colon (outbox_key a ev) = EventEnvelopeType_str ev.
Proof. apply after_last_colon_app, event_str_no_colon. Qed.

Lemma outbox_key_inj a b e f : outbox_key a e = outbox_key b f → e = f.
Proof.
  intros H. apply (f_equal after_last_colon) in H. rewrite !outbox_key_type in H. by destruct e, f.
Qed.

Definition key_free (key : string) (d : Db) : Prop := ∀ o, o ∈ events_outbox d → o_idempotencyKey o ≠ key.

Lemma key_free_existsb key d : key_free key d ↔
  existsb (λ o, bool_decide (o_idempotencyKey o = key)) (events_outbox d) = false.
Proof.
  rewrite <-not_true_iff_false, existsb_exists. unfold key_free. split.
  - intros H (o & Ho & Hk%bool_decide_eq_true). apply list_elem_of_In in Ho. by eapply H.
  - intros H o Ho Hk. apply H. exists o. split; [by apply list_elem_of_In|by apply bool_decide_eq_true].
Qed.

Definition add_outbox (es : list OutboxEvent) (d : Db) : Db :=
  mkDb (db_now d) (db_ids d) (runs d) (workitems d) (human_tasks d) (events_outbox d ++ es) (dead_letter d)
    (pause_requests d) (run_steps d) (jobs d).

Lemma add_outbox_nil d : add_outbox [] d = d.
Proof. unfold add_outbox. rewrite app_nil_r. by destruct d. Qed.
Lemma add_outbox_app es fs d : add_outbox fs (add_outbox es d) = add_outbox (es ++ fs) d.
Proof. unfold add_outbox. simpl. by rewrite <-app_assoc. Qed.

Lemma emitOutboxEvent_Ok e d o d' : emitOutboxEvent e d = Ok (o, d') →
  d' = add_outbox [o] d ∧ o_eventType o = oe_eventType e ∧ o_idempotencyKey o = oe_idempotencyKey e ∧
  key_free (oe_idempotencyKey e) d.
Proof.
  unfold emitOutboxEvent. destruct (negb _); [done|]. destruct (existsb _ _) eqn:E; [done|].
  intros [= <- <-]. by rewrite key_free_existsb.
Qed.

Lemma emitAll_Ok c r w a t evs : ∀ d es d', emitAll c r w a t evs d = Ok (es, d') →
  d' = add_outbox es d ∧ map o_eventType es = evs ∧ map o_idempotencyKey es = map (outbox_key a) evs.
Proof.
  induction evs as [|ev evs IH]; intros d es d'; cbn [emitAll].
  - intros [= <- <-]. by rewrite add_outbox_nil.
  - intros (o & d1 & Ho & H)%Tx_bind_Ok. apply Tx_bind_Ok in H as (es' & d2 & H & [= <- <-]).
    apply emitOutboxEvent_Ok in Ho as (-> & Hty & Hkey & _). apply IH in H as (-> & H1 & H2).
    rewrite add_outbox_app. simpl. by rewrite Hty, Hkey, H1, H2.
Qed.

(** An event that is not about a step and whose key is free can be emitted. *)
Lemma emitOutboxEvent_free ev c r w key t d :
  starts_with "step." (EventEnvelopeType_str ev) = false → key_free key d →
  ∃ o, emitOutboxEvent (mkEmit ev c r w None None key t) d = Ok (o, add_outbox [o] d) ∧
       o_eventType o = ev ∧ o_idempotencyKey o = key.
Proof.
  intros Hs Hk. unfold emitOutboxEvent, validateStepReference. simpl. rewrite Hs. simpl.
  apply key_free_existsb in Hk. rewrite Hk. eauto.
Qed.

Lemma key_free_add key es d : key_free key d → (∀ o, o ∈ es → o_idempotencyKey o ≠ key) →
  key_free key (add_outbox es d).
Proof. intros H1 H2 o [Ho|Ho]%elem_of_app; auto. Qed.

(** What an applied transition of a run does. *)
Lemma applyRunTransition_Ok ctx d o d' : applyRunTransition ctx d = Ok (o, d') →
  (∃ obs, o = CasConflict obs ∧ d' = d) ∨
  ∃ t row es, transitionRun (rt_fromStatus ctx) (rt_event ctx) (rt_guard ctx) = Ok t ∧
    runs d !! rt_runId ctx = Some row ∧ r_status row = rt_fromStatus ctx ∧
    o = Applied (next t) es (run_pending (sideEffects t)) ∧
    map o_eventType es = emitted_events (sideEffects t) ∧
    map o_idempotencyKey es =
      map (outbox_key (default (rt_runId ctx) (rt_eventIdempotencyKey ctx))) (emitted_events (sideEffects t)) ∧
    d' = add_outbox es (set_runs (<[rt_runId ctx := updated_run (db_now d) ctx t row]> (runs d)) d).
Proof.
  unfold applyRunTransition. intros (t & d1 & Ht & H)%Tx_bind_Ok. unfold from_transition in Ht.
  destruct (transitionRun _ _ _) as [t'|]; [|done]. injection Ht as <- <-.
  destruct (_ && _); [done|]. apply Tx_bind_Ok in H as (row & d1 & [= <- <-] & H).
  destruct (runs d !! rt_runId ctx) as [row|]; [|injection H as <- <-; eauto].
  case_decide; [|injection H as <- <-; eauto]. right.
  apply Tx_bind_Ok in H as (u & d1 & [= <- <-] & H). apply Tx_bind_Ok in H as (es & d1 & He & [= <- <-]).
  apply emitAll_Ok in He as (-> & H1 & H2). by exists t', row, es.
Qed.

Lemma applyWorkitemTransition_Ok ctx d o d' : applyWorkitemTransition ctx d = Ok (o, d') →
  (∃ obs, o = CasConflict obs ∧ d' = d) ∨
  ∃ t row es, transitionWorkitem (wt_fromStatus ctx) (wt_event ctx) (wt_guard ctx) = Ok t ∧
    workitems d !! wt_workitemId ctx = Some row ∧ w_status row = wt_fromStatus ctx ∧
    o = Applied (next t) es (entity_pending (sideEffects t)) ∧
    map o_eventType es = emitted_events (sideEffects t) ∧
    map o_idempotencyKey es =
      map (outbox_key (default (wt_workitemId ctx) (wt_eventIdempotencyKey ctx))) (emitted_events (sideEffects t)) ∧
    d' = add_outbox es
           (set_workitems (<[wt_workitemId ctx := updated_workitem (db_now d) ctx t row]> (workitems d)) d).
Proof.
  unfold applyWorkitemTransition. intros (t & d1 & Ht & H)%Tx_bind_Ok. unfold from_transition in Ht.
  destruct (transitionWorkitem _ _ _) as [t'|]; [|done]. injection Ht as <- <-.
  destruct (_ && _); [done|]. apply Tx_bind_Ok in H as (row & d1 & [= <- <-] & H).
  destruct (workitems d !! wt_workitemId ctx) as [row|]; [|injection H as <- <-; eauto].
  case_decide; [|injection H as <- <-; eauto]. right.
  apply Tx_bind_Ok in H as (u & d1 & [= <- <-] & H). apply Tx_bind_Ok in H as (es & d1 & He & [= <- <-]).
  apply emitAll_Ok in He as (-> & H1 & H2). by exists t', row, es.
Qed.

(** Cancelling the tasks of a run succeeds and touches only the tasks. *)
Lemma cancel_one_Ok runId c task d : active_human_task (h_state task) = true →
  ∃ ts, cancel_one runId c task d = Ok (tt, set_human_tasks ts d).
Proof.
  intros Hs. unfold cancel_one, applyHumanTaskTransition.
  destruct (h_state task) eqn:Es; try done; cbn; unfold mbind, Tx_bind, select; simpl;
    destruct (existsb _ _); cbn; rewrite ?add_outbox_nil; eauto;
    exists (human_tasks d); by destruct d.
Qed.

Lemma cancel_all_Ok runId c tasks : ∀ d, Forall (λ h, active_human_task (h_state h) = true) tasks →
  ∃ ts, cancel_all runId c tasks d = Ok (tt, set_human_tasks ts d).
Proof.
  induction tasks as [|h tasks IH]; intros d Hall; cbn [cancel_all].
  - exists (human_tasks d). by destruct d.
  - inversion Hall as [|? ? Hh Hrest]; subst.
    destruct (cancel_one_Ok runId c h d Hh) as [ts Hts]. unfold mbind, Tx_bind. rewrite Hts.
    destruct (IH (set_human_tasks ts d) Hrest) as [ts' ->]. by exists ts'.
Qed.

Lemma cancelLinked_Ok runId c d :
  ∃ ts, cancelLinkedHumanTasksForRunTerminal runId c d = Ok (tt, set_human_tasks ts d).
Proof.
  unfold cancelLinkedHumanTasksForRunTerminal, mbind, Tx_bind, select. apply cancel_all_Ok.
  apply Forall_forall. intros h [[_ ?] _]%list_elem_of_filter. done.
Qed.
