(* ===== verification/Settlement.v ===== *)
(** * Settlement of the workitem of a run

    Models [app/src/runtime/workitem-settlement.ts] (what happens to the linked
    workitem when its run ends, is suspended, resumed or aborted) and
    [run-init-failure.ts] (a run whose setup failed is queued again or ended).
    The theorem gives the outcome of a settlement on every branch; the bound on
    the setup failures of a run is in [InitFailure]. *)

From stdpp Require Import base strings list gmap pretty.
From Stdlib Require Import ZArith QArith Qround Lia.
From S2P Require Import Prelude StateMachine JsValue RuntimeStore Database.

Definition WORKITEM_MAX_ATTEMPTS : Z := 3.

Inductive RunTerminalKind := rk_success | rk_business | rk_system.
#[export] Instance RunTerminalKind_eq_dec : EqDecision RunTerminalKind.
Proof. solve_decision. Defined.

Definition RunTerminalKind_str (k : RunTerminalKind) : string :=
  match k with rk_success => "success" | rk_business => "business" | rk_system => "system" end.

Record LinkedWorkitemSettlementInput := mkSettlement {
  si_runId : string;
  si_correlationId : string;
  si_terminal : RunTerminalKind;
  si_eventIdempotencyKey : string;
  si_occurredAt : option Z;
  si_maxAttempts : option Z;
  si_systemReasonCode : option string;
  si_systemEvidenceRef : option string
}.

Record LinkedWorkitemSettlementResult := mkSettled {
  sr_settled : bool;
  sr_next : option WorkitemState;
  sr_emitted : list OutboxEvent;
  sr_satisfiedPending : list SideEffectCmd
}.

(** ** Assertions *)

Definition assertApplied {S} (o : TransitionOutcome S) (label : string)
  : Tx (S * list OutboxEvent * list SideEffectCmd) :=
  match o with
  | Applied next emitted pending => mret (next, emitted, pending)
  | CasConflict _ => raise (E_error (label +:+ " CAS conflict"))
  end.

Definition assertNoPending (pending : list SideEffectCmd) (label : string) : Tx () :=
  match pending with
  | [] => mret tt
  | _ => raise (E_error (label +:+ " produced unsupported pending side effects"))
  end.

(** The kinds in question have no arguments, so a kind is the command. *)
Definition assertExactPendingKinds (pending kinds : list SideEffectCmd) (label : string) : Tx () :=
  if negb (forallb (λ c, bool_decide (c ∈ kinds)) pending)
  then raise (E_error (label +:+ " unexpected pending side effect")) else
  if negb (forallb (λ k, bool_decide (k ∈ pending)) kinds)
  then raise (E_error (label +:+ " missing pending side effect")) else mret tt.

Lemma assertExactPendingKinds_refl k label d : assertExactPendingKinds [k] [k] label d = Ok (tt, d).
Proof. unfold assertExactPendingKinds. simpl. by rewrite bool_decide_true by set_solver. Qed.

(** ** Settlement *)

Definition insertWorkitemDeadLetter (workitemId : string) (runId : option string) (reasonCode : string)
    (evidenceRef : option string) : Tx () :=
  update (push_dead_letter (mkDeadLetterRow workitemId runId reasonCode evidenceRef true)).

Definition guard_sink : WorkitemGuard := mkWorkitemGuard None (Some true) None None None.
Definition guard_attempts (below : bool) : WorkitemGuard := mkWorkitemGuard None None (Some below) None None.

Definition settle_context (workitemId : string) (input : LinkedWorkitemSettlementInput) (ev : WorkitemEvent)
    (g : WorkitemGuard) : WorkitemTransitionContext :=
  mkWorkitemCtx workitemId wi_processing ev g (si_correlationId input) (Some (si_runId input)) None
    (Some (si_eventIdempotencyKey input)) (si_occurredAt input).

(** W2 and W3: one transition without pending side effects. *)
Definition settle_plain (workitemId : string) (input : LinkedWorkitemSettlementInput) (ev : WorkitemEvent)
    (g : WorkitemGuard) (label : string) : Tx LinkedWorkitemSettlementResult :=
  o ← applyWorkitemTransition (settle_context workitemId input ev g);
  applied ← assertApplied o label;
  let '(next, emitted, pending) := applied in
  _ ← assertNoPending pending label;
  mret (mkSettled true (Some next) emitted []).

(** W4 and W5: retry, or abandon with a dead letter. *)
Definition settle_system (workitemId : string) (input : LinkedWorkitemSettlementInput) (below : bool)
  : Tx LinkedWorkitemSettlementResult :=
  o ← applyWorkitemTransition (settle_context workitemId input wev_system_exception (guard_attempts below));
  applied ← assertApplied o "W4/W5";
  let '(next, emitted, pending) := applied in
  if decide (next = wi_abandoned) then
    _ ← assertExactPendingKinds pending [createDeadLetter] "W5";
    _ ← insertWorkitemDeadLetter workitemId (Some (si_runId input))
          (default "DEAD_LETTER" (si_systemReasonCode input)) (si_systemEvidenceRef input);
    mret (mkSettled true (Some next) emitted pending)
  else
    _ ← assertNoPending pending "W4";
    mret (mkSettled true (Some next) emitted []).

Definition settleLinkedWorkitemForRunTerminal (workitemId : option string) (input : LinkedWorkitemSettlementInput)
  : Tx LinkedWorkitemSettlementResult :=
  match workitemId with
  | None => mret (mkSettled false None [] [])
  | Some workitemId =>
      let maxAttempts := default WORKITEM_MAX_ATTEMPTS (si_maxAttempts input) in
      if (maxAttempts <=? 0)%Z then raise (E_error "maxAttempts must be a positive integer") else
      row ← select (λ d, workitems d !! workitemId);
      match row with
      | Some row =>
          if decide (w_status row = wi_processing) then
            match si_terminal input with
            | rk_success => settle_plain workitemId input wev_run_succeeded guard_sink "W2"
            | rk_business => settle_plain workitemId input wev_business_exception workitem_guard_empty "W3"
            | rk_system => settle_system workitemId input (w_attempts row + 1 <? maxAttempts)%Z
            end
          else raise (E_error "linked workitem must be 'processing'")
      | None => raise (E_error "linked workitem must be 'processing'")
      end
  end.

(** ** The checkout timer *)

Definition resolveLinkedWorkitemId (runId : string) : Tx (option string) :=
  select (λ d, row ← runs d !! runId; r_workitem_id row).

Definition set_checkout (f : Z → WorkitemRow → option WorkitemRow) (workitemId : string) : Tx () :=
  update (λ d, match workitems d !! workitemId with
               | Some row => match f (db_now d) row with
                             | Some row' => set_workitems (<[workitemId := row']> (workitems d)) d
                             | None => d
                             end
               | None => d
               end).

Definition with_checkout (expires paused : option Z) (row : WorkitemRow) : WorkitemRow :=
  mkWorkitemRow (w_status row) (w_attempts row) (w_checked_out_by row) (w_checked_out_at row) expires paused.

(** [SET checkout_paused_at = now() WHERE status = 'processing' AND checkout_paused_at IS NULL]. *)
Definition pause_checkout (now : Z) (row : WorkitemRow) : option WorkitemRow :=
  if decide (w_status row = wi_processing ∧ w_checkout_paused_at row = None)
  then Some (with_checkout (w_checkout_expires_at row) (Some now) row) else None.

(** [SET checkout_expires_at = checkout_expires_at + (now() - checkout_paused_at), checkout_paused_at = NULL]. *)
Definition resume_checkout (now : Z) (row : WorkitemRow) : option WorkitemRow :=
  match decide (w_status row = wi_processing), w_checkout_paused_at row with
  | left _, Some paused =>
      Some (with_checkout ((λ e, e + (now - paused))%Z <$> w_checkout_expires_at row) None row)
  | _, _ => None
  end.

Definition expire_checkout (now : Z) (row : WorkitemRow) : option WorkitemRow :=
  match decide (w_status row = wi_processing), w_checkout_paused_at row with
  | left _, Some _ => Some (with_checkout (Some now) None row)
  | _, _ => None
  end.

(** W9 and W11: the transition keeps the state; its pending command is the
    statement that follows. *)
Definition checkout_transition (ev : WorkitemEvent) (name : string) (pending_kind : SideEffectCmd)
    (statement : Z → WorkitemRow → option WorkitemRow) (runId correlationId : string) : Tx () :=
  workitemId ← resolveLinkedWorkitemId runId;
  match workitemId with
  | None => mret tt
  | Some workitemId =>
      t ← applyWorkitemTransition (mkWorkitemCtx workitemId wi_processing ev workitem_guard_empty correlationId
            (Some runId) None (Some (workitemId +:+ ":" +:+ name)) None);
      match t with
      | CasConflict _ => mret tt
      | Applied _ _ pending =>
          _ ← assertExactPendingKinds pending [pending_kind] name;
          set_checkout statement workitemId
      end
  end.

Definition pauseLinkedWorkitemCheckout : string → string → Tx () :=
  checkout_transition wev_run_suspended "run_suspended" pauseCheckoutTimer pause_checkout.
Definition resumeLinkedWorkitemCheckout : string → string → Tx () :=
  checkout_transition wev_run_resumed "run_resumed" resumeCheckoutTimer resume_checkout.

Definition unpauseLinkedWorkitemForRunAbort (runId : string) : Tx () :=
  workitemId ← resolveLinkedWorkitemId runId;
  match workitemId with
  | None => mret tt
  | Some workitemId => set_checkout expire_checkout workitemId
  end.

(** The driver's way to settle: the workitem is read from the run. *)
Definition settleLinkedWorkitemFromRun (runId correlationId : string) (terminal : RunTerminalKind) : Tx () :=
  workitemId ← resolveLinkedWorkitemId runId;
  _ ← settleLinkedWorkitemForRunTerminal workitemId
        (mkSettlement runId correlationId terminal (runId +:+ ":workitem-" +:+ RunTerminalKind_str terminal)
           None None None None);
  mret tt.

(** ** Failure of a run's setup *)

Definition DEFAULT_INIT_FAIL_THRESHOLD : Z := 3.
Record InitBackoffConfig := mkBackoff { bo_baseMs : Z; bo_factor : Z; bo_maxMs : Z }.
Definition DEFAULT_INIT_BACKOFF : InitBackoffConfig := mkBackoff 2000 2 60000.

(** [Math.round] is the floor of the value plus one half; the jitter is a
    rational number and the product is exact. *)
Definition initBackoffMs (cfg : InitBackoffConfig) (jitter : Q) (priorFailures : Z) : Z :=
  let raw := Z.min (bo_maxMs cfg) (bo_baseMs cfg * bo_factor cfg ^ Z.max 0 priorFailures)%Z in
  Z.max 1 (Qfloor (inject_Z raw * jitter + (1 # 2))%Q).

Definition guard_init (below : bool) : RunGuard :=
  mkRunGuard None None (Some below) None None None None None None None None None.

Section InitFailure.
(** [drainLease] and [reenqueueRunClaim] are callbacks of the worker. *)
Context (drainLease : Tx ()) (reenqueueRunClaim : Z → Tx ()) (backoff : option InitBackoffConfig) (jitter : Q).

Definition handleClaimedInitFailure (initFailThreshold : option Z) (canRequeue : bool)
    (runId correlationId : string) : Tx (option RunState) :=
  let threshold := default DEFAULT_INIT_FAIL_THRESHOLD initFailThreshold in
  row ← select (λ d, runs d !! runId);
  match row with
  | None => _ ← drainLease; mret None
  | Some row =>
      if decide (r_status row = run_claimed) then
        let prior := r_consecutive_init_failures row in
        let belowThreshold := (prior + 1 <? threshold)%Z && canRequeue in
        t ← applyRunTransition (mkRunCtx runId run_claimed ev_init_failed (guard_init belowThreshold) correlationId
              None (Some (runId +:+ ":init_failed:" +:+ pretty (prior + 1)%Z)) None);
        match t with
        | CasConflict _ => _ ← drainLease; mret None
        | Applied next _ _ =>
            _ ← drainLease;
            if decide (next = run_queued) then
              _ ← reenqueueRunClaim (initBackoffMs (default DEFAULT_INIT_BACKOFF backoff) jitter prior);
              mret (Some run_queued)
            else
              _ ← settleLinkedWorkitemForRunTerminal (r_workitem_id row)
                    (mkSettlement runId correlationId rk_system (runId +:+ ":workitem-system") None None None None);
              mret (Some run_failed_system)
        end
      else _ ← drainLease; mret None
  end.
End InitFailure.

(** ** What a settlement does *)

Definition max_attempts (input : LinkedWorkitemSettlementInput) : Z :=
  default WORKITEM_MAX_ATTEMPTS (si_maxAttempts input).

Definition settled_status (k : RunTerminalKind) (attempts max : Z) : WorkitemState :=
  match k with
  | rk_success => wi_successful
  | rk_business => wi_failed_business
  | rk_system => if decide (attempts + 1 < max)%Z then wi_retry else wi_abandoned
  end.

Definition settled_row (k : RunTerminalKind) (max : Z) (row : WorkitemRow) : WorkitemRow :=
  mkWorkitemRow (settled_status k (w_attempts row) max)
    (match k with rk_system => w_attempts row + 1 | _ => w_attempts row end)
    (w_checked_out_by row) (w_checked_out_at row) (w_checkout_expires_at row) (w_checkout_paused_at row).

Definition settled_events (s : WorkitemState) : list EventEnvelopeType :=
  match s with
  | wi_successful => [workitem_completed_e]
  | wi_abandoned => [workitem_dead_lettered_e]
  | _ => []
  end.

Definition settled_letters (workitemId : string) (input : LinkedWorkitemSettlementInput) (s : WorkitemState)
  : list DeadLetterRow :=
  if decide (s = wi_abandoned)
  then [mkDeadLetterRow workitemId (Some (si_runId input)) (default "DEAD_LETTER" (si_systemReasonCode input))
          (si_systemEvidenceRef input) true]
  else [].

Definition settled_db (workitemId : string) (input : LinkedWorkitemSettlementInput) (row : WorkitemRow)
    (es : list OutboxEvent) (d : Db) : Db :=
  let row' := settled_row (si_terminal input) (max_attempts input) row in
  mkDb (db_now d) (db_ids d) (runs d) (<[workitemId := row']> (workitems d)) (human_tasks d)
    (events_outbox d ++ es) (dead_letter d ++ settled_letters workitemId input (w_status row'))
    (pause_requests d) (run_steps d) (jobs d).

Lemma settle_branch workitemId input row d : workitems d !! workitemId = Some row →
  w_status row = wi_processing → (0 < max_attempts input)%Z →
  let s := settled_status (si_terminal input) (w_attempts row) (max_attempts input) in
  settleLinkedWorkitemForRunTerminal (Some workitemId) input d =
  match emitAll (si_correlationId input) (Some (si_runId input)) (Some workitemId) (si_eventIdempotencyKey input)
          (si_occurredAt input) (settled_events s)
          (set_workitems (<[workitemId := settled_row (si_terminal input) (max_attempts input) row]> (workitems d)) d) with
  | Ok (es, d') =>
      Ok (mkSettled true (Some s) es (if decide (s = wi_abandoned) then [createDeadLetter] else []),
          if decide (s = wi_abandoned)
          then push_dead_letter (mkDeadLetterRow workitemId (Some (si_runId input))
                 (default "DEAD_LETTER" (si_systemReasonCode input)) (si_systemEvidenceRef input) true) d'
          else d')
  | Err e => Err e
  end.
Proof.
  intros Hl Hs Hm. unfold settleLinkedWorkitemForRunTerminal. fold (max_attempts input).
  apply Z.leb_gt in Hm. rewrite Hm. unfold mbind, Tx_bind, select. rewrite Hl.
  rewrite decide_True by done. unfold settled_row, settled_status.
  destruct (si_terminal input); [| |destruct (w_attempts row + 1 <? _)%Z eqn:E];
    unfold settle_plain, settle_system, applyWorkitemTransition; simpl; unfold mbind, Tx_bind, select; simpl;
    rewrite Hl, Hs; simpl; try done.
  - unfold updated_workitem, mbind, Tx_bind. simpl. by destruct (emitOutboxEvent _ _) as [[]|].
  - apply Z.ltb_lt in E. by rewrite decide_True.
  - apply Z.ltb_ge in E. rewrite decide_False by lia. simpl. unfold updated_workitem, mbind, Tx_bind. simpl.
    destruct (emitOutboxEvent _ _) as [[]|]; [|done]. done.
Qed.

Lemma settle_processing w input d res d' : settleLinkedWorkitemForRunTerminal (Some w) input d = Ok (res, d') →
  ∃ row, workitems d !! w = Some row ∧ w_status row = wi_processing.
Proof.
  unfold settleLinkedWorkitemForRunTerminal. destruct (_ <=? 0)%Z; [done|]. intros (o & d1 & [= <- <-] & H)%Tx_bind_Ok.
  destruct (workitems d !! w) as [row|]; [|done]. case_decide; [eauto|done].
Qed.

(** A processing workitem whose event key is unused is settled. *)
Lemma settle_total input w row d : (0 < max_attempts input)%Z → workitems d !! w = Some row →
  w_status row = wi_processing →
  let s := settled_status (si_terminal input) (w_attempts row) (max_attempts input) in
  (∀ ev, ev ∈ settled_events s → key_free (outbox_key (si_eventIdempotencyKey input) ev) d) →
  ∃ es, map o_eventType es = settled_events s ∧
    settleLinkedWorkitemForRunTerminal (Some w) input d =
    Ok (mkSettled true (Some s) es (if decide (s = wi_abandoned) then [createDeadLetter] else []),
        settled_db w input row es d).
Proof.
  intros Hm Hl Hs s Hk. rewrite (settle_branch w input row d Hl Hs Hm). fold s.
  unfold settled_db, settled_letters, settled_row. simpl. fold s.
  assert (Hs' : (∃ ev, settled_events s = [ev] ∧ starts_with "step." (EventEnvelopeType_str ev) = false) ∨
                settled_events s = []) by (destruct s; simpl; eauto).
  destruct Hs' as [(ev & Hev & Hst)|Hev]; rewrite Hev in *; cbn [emitAll].
  - edestruct (emitOutboxEvent_free ev (si_correlationId input) (Some (si_runId input)) (Some w)
      (outbox_key (si_eventIdempotencyKey input) ev) (si_occurredAt input)
      (set_workitems (<[w:=settled_row (si_terminal input) (max_attempts input) row]> (workitems d)) d))
      as (o & Ho & Hty & _); [exact Hst|apply (Hk ev); set_solver|].
    exists [o]. simpl. rewrite Hty. split; [done|].
    unfold settled_row in Ho. fold s in Ho. unfold mbind, Tx_bind. rewrite Ho. simpl. f_equal. f_equal. case_decide; [done|].
    unfold add_outbox. simpl. by rewrite app_nil_r.
  - exists []. split; [done|]. simpl. f_equal. f_equal. rewrite app_nil_r.
    case_decide; [done|]. rewrite app_nil_r. done.
Qed.

(** What a settlement does: a run without workitem settles nothing; the
    linked workitem must be processing and its event key unused, otherwise the
    settlement throws (and the transaction of the run's end with it); then the
    workitem gets the state of the run's end, a system failure counts an attempt
    and leads to a retry while attempts remain, and to an abandoned workitem
    with exactly one dead letter naming the run when they are used up; nothing
    else in the tables changes. *)
Theorem settlement_spec input d : (0 < max_attempts input)%Z →
  settleLinkedWorkitemForRunTerminal None input d = Ok (mkSettled false None [] [], d) ∧
  ∀ w,
    (∀ row, workitems d !! w = Some row → w_status row = wi_processing →
       let s := settled_status (si_terminal input) (w_attempts row) (max_attempts input) in
       (∀ ev, ev ∈ settled_events s → key_free (outbox_key (si_eventIdempotencyKey input) ev) d) →
       ∃ es, map o_eventType es = settled_events s ∧
         settleLinkedWorkitemForRunTerminal (Some w) input d =
         Ok (mkSettled true (Some s) es (if decide (s = wi_abandoned) then [createDeadLetter] else []),
             settled_db w input row es d)) ∧
    (∀ res d', settleLinkedWorkitemForRunTerminal (Some w) input d = Ok (res, d') →
       ∃ row, workitems d !! w = Some row ∧ w_status row = wi_processing ∧
         ∀ ev, ev ∈ settled_events (settled_status (si_terminal input) (w_attempts row) (max_attempts input)) →
               key_free (outbox_key (si_eventIdempotencyKey input) ev) d).
Proof.
  intros Hm. split; [done|]. intros w. split.
  - intros row Hl Hs s Hk. by apply settle_total.
  - intros res d' H. destruct (settle_processing w input d res d' H) as (row & Hl & Hs).
    exists row. split_and!; [done..|].
    rewrite (settle_branch w input row d Hl Hs Hm) in H. set (s := settled_status _ _ _) in *.
    destruct (emitAll _ _ _ _ _ _ _) as [[es d1]|] eqn:He; [|done]. intros ev Hev.
    destruct s; simpl in *; try set_solver; apply list_elem_of_singleton in Hev; subst ev;
      apply Tx_bind_Ok in He as (o & d2 & Ho & _); apply emitOutboxEvent_Ok in Ho as (_ & _ & _ & Ho); exact Ho.
Qed.

Lemma settlement_spec_witness :
  let d := mkDb 0 0 ∅ {[ "w" := mkWorkitemRow wi_processing 2 None None None None ]} [] [] [] [] [] [] in
  let input := mkSettlement "r" "c" rk_system "r:workitem-system" None None None None in
  ∃ es, map o_eventType es = [workitem_dead_lettered_e] ∧
    settleLinkedWorkitemForRunTerminal (Some "w") input d =
    Ok (mkSettled true (Some wi_abandoned) es [createDeadLetter],
        settled_db "w" input (mkWorkitemRow wi_processing 2 None None None None) es d).
Proof.
  intros d input.
  refine (proj1 (proj2 (settlement_spec input d _) "w") (mkWorkitemRow wi_processing 2 None None None None) _ _ _);
    [done..|].
  intros ev _ o Ho. by apply elem_of_nil in Ho.
Defined.
