(* ===== verification/InitFailure.v ===== *)
(** * How often a run may fail its setup

    The theorem about [handleClaimedInitFailure] ([app/src/runtime/run-init-failure.ts],
    modelled in [Settlement]): however the setup failures of a run interleave
    with claims and with other work on the tables, fewer failures in a row than
    the threshold put it back into the queue, the next one ends it, and the
    delay before each new claim lies between one millisecond and the largest
    backoff with its jitter. *)

From stdpp Require Import base strings list gmap pretty.
From Stdlib Require Import ZArith QArith Qround Lia Lqa.
From S2P Require Import Prelude StateMachine JsValue RuntimeStore Database Settlement.

(** ** The delay *)

Lemma Qfloor_half_bounds (q : Q) : (q - (1 # 2) < inject_Z (Qfloor (q + (1 # 2))) ∧
                                     inject_Z (Qfloor (q + (1 # 2))) <= q + (1 # 2))%Q.
Proof.
  split; [|apply Qfloor_le]. pose proof (Qlt_floor (q + (1 # 2))) as H.
  rewrite inject_Z_plus in H. change (inject_Z 1) with 1%Q in H. lra.
Qed.

Lemma backoff_pos cfg jitter prior : (1 <= initBackoffMs cfg jitter prior)%Z.
Proof. unfold initBackoffMs. lia. Qed.

(** With a jitter of at most 6/5 the delay is at most the rounded maximum. *)
Lemma backoff_max cfg jitter prior : (0 <= bo_baseMs cfg)%Z → (0 <= bo_factor cfg)%Z → (1 <= bo_maxMs cfg)%Z →
  (0 <= jitter <= 6 # 5)%Q → (5 * initBackoffMs cfg jitter prior <= 6 * bo_maxMs cfg + 2)%Z.
Proof.
  intros Hb Hf Hm [Hj0 Hj1]. unfold initBackoffMs.
  set (raw := Z.min _ _). assert (0 <= raw <= bo_maxMs cfg)%Z as [H0 H1].
  { unfold raw. pose proof (Z.pow_nonneg (bo_factor cfg) (Z.max 0 prior) Hf). nia. }
  assert (Hq : (inject_Z raw * jitter <= inject_Z raw * (6 # 5))%Q).
  { rewrite !(Qmult_comm (inject_Z raw)). apply Qmult_le_compat_r; [done|].
    change 0%Q with (inject_Z 0). by rewrite <-Zle_Qle. }
  destruct (Qfloor_half_bounds (inject_Z raw * jitter)) as [_ H].
  set (z := Qfloor _) in *. assert (Hz : (10 * z <= 12 * raw + 5)%Z).
  { rewrite Zle_Qle, inject_Z_plus, !inject_Z_mult.
    change (inject_Z 10) with 10%Q. change (inject_Z 12) with 12%Q. change (inject_Z 5) with 5%Q. lra. }
  lia.
Qed.

(** For a fixed jitter the delays never shrink from one failure to the next. *)
Lemma backoff_mono cfg jitter p q : (0 <= bo_baseMs cfg)%Z → (1 <= bo_factor cfg)%Z → (0 <= jitter)%Q →
  (p <= q)%Z → (initBackoffMs cfg jitter p <= initBackoffMs cfg jitter q)%Z.
Proof.
  intros Hb Hf Hj Hpq. unfold initBackoffMs. apply Z.max_le_compat_l, Qfloor_resp_le.
  apply Qplus_le_compat; [|apply Qle_refl]. apply Qmult_le_compat_r; [|done]. rewrite <-Zle_Qle.
  apply Z.min_le_compat_l, Z.mul_le_mono_nonneg_l, Z.pow_le_mono_r; lia.
Qed.

(** ** The failures of one run *)

(** What the worker's callbacks may do: they do not write the runs. *)
Definition keeps_runs (m : Tx ()) : Prop := ∀ d u d', m d = Ok (u, d') → runs d' = runs d.

Lemma settle_keeps_runs w input d res d' : (0 < max_attempts input)%Z →
  settleLinkedWorkitemForRunTerminal w input d = Ok (res, d') → runs d' = runs d.
Proof.
  intros Hm. destruct w as [w|]; [|by intros [= <- <-]]. intros H.
  destruct (settle_processing w input d res d' H) as (row & Hl & Hs).
  rewrite (settle_branch w input row d Hl Hs Hm) in H.
  destruct (emitAll _ _ _ _ _ _ _) as [[es d1]|] eqn:He; [|done]. apply emitAll_Ok in He as (-> & _).
  case_decide; by injection H as <- <-.
Qed.

Definition init_failures (runId : string) (d : Db) : option Z := r_consecutive_init_failures <$> runs d !! runId.

Section InitFailures.
Context (drainLease : Tx ()) (reenqueueRunClaim : Z → Tx ()) (backoff : option InitBackoffConfig) (jitter : Q).
Context (threshold : option Z) (runId correlationId : string).
Hypothesis drain_keeps : keeps_runs drainLease.
Hypothesis reenqueue_keeps : ∀ ms, keeps_runs (reenqueueRunClaim ms).

Let fails canRequeue :=
  handleClaimedInitFailure drainLease reenqueueRunClaim backoff jitter threshold canRequeue runId correlationId.
Let limit : Z := default DEFAULT_INIT_FAIL_THRESHOLD threshold.

Lemma init_failure_outcome canRequeue d s d' : fails canRequeue d = Ok (Some s, d') →
  ∃ row, runs d !! runId = Some row ∧ r_status row = run_claimed ∧
    let p := r_consecutive_init_failures row in
    if (p + 1 <? limit)%Z && canRequeue
    then s = run_queued ∧ init_failures runId d' = Some (p + 1)%Z ∧ r_status <$> runs d' !! runId = Some run_queued
    else s = run_failed_system ∧ r_status <$> runs d' !! runId = Some run_failed_system.
Proof.
  unfold fails, handleClaimedInitFailure. intros (row & d0 & [= <- <-] & H)%Tx_bind_Ok.
  destruct (runs d !! runId) as [row|] eqn:Hl; [|apply Tx_bind_Ok in H as (? & ? & _ & [=])].
  destruct (decide _) as [Hs|]; [|apply Tx_bind_Ok in H as (? & ? & _ & [=])].
  exists row. split_and!; [done..|]. fold limit in H |- *.
  set (below := (_ <? _)%Z && _) in *. apply Tx_bind_Ok in H as (o & d1 & Ho & H).
  apply applyRunTransition_Ok in Ho as [(? & -> & _)|(t & row' & es & Ht & Hl' & _ & -> & _ & _ & ->)].
  { apply Tx_bind_Ok in H as (? & ? & _ & [=]). }
  simpl in Hl'. rewrite Hl in Hl'. injection Hl' as <-.
  apply Tx_bind_Ok in H as (u & d2 & Hd & H). apply drain_keeps in Hd. unfold init_failures.
  destruct below; simpl in Ht; injection Ht as <-; simpl in *.
  - apply Tx_bind_Ok in H as (u' & d3 & Hr & [= <- <-]). apply reenqueue_keeps in Hr.
    rewrite Hr, Hd, lookup_insert_eq. done.
  - apply Tx_bind_Ok in H as (u' & d3 & Hr & [= <- <-]).
    apply settle_keeps_runs in Hr; [|done]. rewrite Hr, Hd, lookup_insert_eq. done.
Qed.

(** The run after [n] setup failures in a row: between two of them anything may
    happen that does not change the counter (a start of the run resets it). *)
Inductive failed_setups : nat → Db → Prop :=
| fs_start d : init_failures runId d = Some 0%Z → failed_setups 0 d
| fs_failed n canRequeue d d' : failed_setups n d → fails canRequeue d = Ok (Some run_queued, d') →
    failed_setups (S n) d'
| fs_other n d d' : failed_setups n d → init_failures runId d' = init_failures runId d → failed_setups n d'.

Lemma failed_setups_counter n d : failed_setups n d →
  init_failures runId d = Some (Z.of_nat n) ∧ (n = 0%nat ∨ Z.of_nat n < limit)%Z.
Proof.
  induction 1 as [d H|n cr d d' _ [IH IHn] H|n d d' _ IH H]; [by auto| |by rewrite H].
  apply init_failure_outcome in H as (row & Hl & _ & H). unfold init_failures in IH. rewrite Hl in IH.
  injection IH as IH. rewrite IH in H. cbv zeta in H. destruct (_ <? _)%Z eqn:E; simpl in H; [|by destruct H].
  destruct cr; [|by destruct H]. destruct H as (_ & -> & _). split; [f_equal; lia|right; lia].
Qed.

(** Setup failures are bounded: a run that failed its setup n times in a row
    and is queued again has n below the threshold (at least zero failures for
    free), its counter is n; the failure that reaches the threshold, or any
    failure when the worker cannot requeue, ends the run as failed_system, and a
    failure below it queues the run again; and every delay before the next claim
    is at least one millisecond, at most six fifths of the configured maximum
    (rounded) and not shorter than the delay after fewer failures. *)
Theorem setup_failures_bounded n d : failed_setups n d →
  (n = 0%nat ∨ Z.of_nat n < limit)%Z ∧
  (∀ canRequeue s d', fails canRequeue d = Ok (Some s, d') →
     s = (if (Z.of_nat n + 1 <? limit)%Z && canRequeue then run_queued else run_failed_system) ∧
     r_status <$> runs d' !! runId = Some s) ∧
  let cfg := default DEFAULT_INIT_BACKOFF backoff in
  (0 <= bo_baseMs cfg)%Z → (1 <= bo_factor cfg)%Z → (1 <= bo_maxMs cfg)%Z → (0 <= jitter <= 6 # 5)%Q →
  (1 <= initBackoffMs cfg jitter (Z.of_nat n))%Z ∧
  (5 * initBackoffMs cfg jitter (Z.of_nat n) <= 6 * bo_maxMs cfg + 2)%Z ∧
  (∀ m, m ≤ n → (initBackoffMs cfg jitter (Z.of_nat m) <= initBackoffMs cfg jitter (Z.of_nat n))%Z).
Proof.
  intros H. apply failed_setups_counter in H as [Hc Hn]. split_and!; [done| |].
  - intros cr s d' H. apply init_failure_outcome in H as (row & Hl & _ & H). unfold init_failures in Hc.
    rewrite Hl in Hc. injection Hc as Hc. rewrite Hc in H. cbv zeta in H.
    destruct (_ && _); [destruct H as (-> & _ & ?)|destruct H as [-> ?]]; by split.
  - intros cfg Hb Hf Hm Hj. split_and!; [apply backoff_pos|apply backoff_max; [done|lia|done|done]|].
    intros m Hmn. apply backoff_mono; [done..|apply Hj|lia].
Qed.
End InitFailures.

(** The default threshold: the third failure in a row ends the run. *)
Lemma setup_failures_bounded_witness :
  let row n := mkRunRow run_claimed None (Some "worker") 0 n None None None None None in
  let d n := mkDb 0 0 {[ "r" := row n ]} ∅ [] [] [] [] [] [] in
  let nop : Tx () := λ d, Ok (tt, d) in
  let fails := handleClaimedInitFailure nop (λ _, nop) None (11 # 10) None true "r" "c" in
  (∃ d', fails (d 2%Z) = Ok (Some run_failed_system, d')) ∧
  initBackoffMs DEFAULT_INIT_BACKOFF (11 # 10) 2 = 8800%Z ∧ (2 < 3)%Z.
Proof.
  intros row d nop fails.
  assert (Hk : keeps_runs nop) by (by intros ? ? ? [= <- <-]).
  assert (S : ∀ n z, failed_setups nop (λ _, nop) None (11 # 10) None "r" "c" n (d z) →
    match fails (d z) with
    | Ok (Some run_queued, d') => bool_decide (init_failures "r" (d (z + 1)%Z) = init_failures "r" d')
    | _ => false
    end = true → failed_setups nop (λ _, nop) None (11 # 10) None "r" "c" (S n) (d (z + 1)%Z)).
  { intros n z H Hf. destruct (fails (d z)) as [[[[]|] d']|] eqn:E; try done. apply bool_decide_eq_true in Hf.
    eapply fs_other; [eapply fs_failed; [exact H|exact E]|exact Hf]. }
  assert (F : failed_setups nop (λ _, nop) None (11 # 10) None "r" "c" 2 (d 2%Z)).
  { apply (S 1%nat 1%Z); [apply (S 0%nat 0%Z); [by apply fs_start|]|]; vm_compute; reflexivity. }
  pose proof (setup_failures_bounded nop (λ _, nop) None (11 # 10) None "r" "c" Hk (λ _, Hk) 2 (d 2%Z) F) as [H [Hs _]].
  split_and!; [|reflexivity|vm_compute; reflexivity].
  assert (E : match fails (d 2%Z) with Ok (Some _, _) => true | _ => false end = true) by (vm_compute; reflexivity).
  destruct (fails (d 2%Z)) as [[[s|] d']|] eqn:Ef; try done. exists d'. destruct (Hs _ _ _ Ef) as [-> _]. done.
Defined.
