(* ===== verification/Driver.v ===== *)
(** * The run driver

    Models [app/src/runtime/run-step-driver.ts], [run-step-driver-suspend.ts],
    [run-step-driver-artifacts.ts] and [challenge-suspension-port.ts]: a claimed
    or resumed run is interpreted outside of any transaction and its outcome is
    then written to the tables, each step in a transaction of its own; an
    exception on the way is turned into [failed_system].

    The driver shares the database with other workers, the API and the
    sweepers.  [w_env] lists what they do: one entry is consumed before each
    transaction of the driver, either an arbitrary change of the tables or the
    loss of the connection.  [w_log] records the committed transactions of the
    driver as pairs of tables.  The browser, the session store, the video
    recorder, the object store and the token codec are the host [H]; each call
    of it may fail, with a message, and [host_code] gives the [code] property
    such an error may have.  Rows of [scenario_versions] do not change, so the
    row of the run is an argument.  Metrics and logs are left out. *)

From stdpp Require Import base strings list gmap pretty.
From Stdlib Require Import ZArith.
From S2P Require Import Prelude StateMachine JsValue IrelSyntax StaticValidation RuntimeStore FlowControl JsText HumanTask ExtractMerge Interpreter Translate Database Settlement.

(** ** Exceptions, the world and its monad *)

Inductive Exn :=
| X_db (e : DbError)
| X_interp (e : Thrown)
| X_translate (e : TranslateError)
| X_error (message : string)
| X_host (message : string).

Inductive Interference :=
| Interfere (f : Db → Db)
| Outage.

Record World (H : Type) := mkWorld {
  w_db : Db;
  w_env : list Interference;
  w_log : list (Db * Db);
  w_host : H
}.
Arguments mkWorld {H} _ _ _ _.
Arguments w_db {H} _.
Arguments w_env {H} _.
Arguments w_log {H} _.
Arguments w_host {H} _.

Definition D (H A : Type) : Type := World H → World H * result Exn A.
#[export] Instance D_ret {H} : MRet (D H) := λ A a w, (w, Ok a).
#[export] Instance D_bind {H} : MBind (D H) := λ A B f m w,
  match m w with (w', Ok a) => f a w' | (w', Err e) => (w', Err e) end.

Section Effects.
Context {H : Type}.

Definition throw_error {A} (e : Exn) : D H A := λ w, (w, Err e).
Definition from_result {E A} (f : E → Exn) (r : result E A) : D H A := λ w,
  (w, match r with Ok a => Ok a | Err e => Err (f e) end).
Definition on_host {A} (f : H → H * result string A) : D H A := λ w,
  let '(h, r) := f (w_host w) in
  (mkWorld (w_db w) (w_env w) (w_log w) h, match r with Ok a => Ok a | Err m => Err (X_host m) end).
Definition try_catch {A} (m : D H A) (handler : Exn → D H A) : D H A := λ w,
  match m w with (w', Ok a) => (w', Ok a) | (w', Err e) => handler e w' end.

(** BEGIN, the body, COMMIT; ROLLBACK and rethrow when the body throws. *)
Definition withTenantTx {A} (body : Tx A) : D H A := λ w,
  let run d env :=
    match body d with
    | Ok (a, d') => (mkWorld d' env (w_log w ++ [(d, d')]) (w_host w), Ok a)
    | Err e => (mkWorld d env (w_log w) (w_host w), Err (X_db e))
    end in
  match w_env w with
  | [] => run (w_db w) []
  | Interfere f :: env => run (f (w_db w)) env
  | Outage :: env => (mkWorld (w_db w) env (w_log w) (w_host w), Err (X_host "connection"))
  end.
End Effects.

(** ** Runs and dependencies *)

Record ClaimedRun := mkClaimedRun {
  cr_runId : string;
  cr_correlationId : string;
  cr_params : option fields;
  cr_context : json
}.

Record ResumeTokenPayload := mkTokenPayload {
  tp_runId : string;
  tp_resumeNodeId : string;
  tp_pageStateRef : string;
  tp_issuedAt : Z;
  tp_expiresAt : Z
}.

Record SessionPort (H : Type) := mkSessionPort {
  ss_clearCookies : H → H * result string ();
  ss_load : H → H * result string (option (list json));
  ss_setCookies : list json → H → H * result string ();
  ss_getAllCookies : H → H * result string (list json);
  ss_save : list json → H → H * result string ()
}.
Arguments ss_clearCookies {H} _ _.
Arguments ss_load {H} _ _.
Arguments ss_setCookies {H} _ _ _.
Arguments ss_getAllCookies {H} _ _.
Arguments ss_save {H} _ _ _.

Record VideoRecorder (H : Type) := mkVideoRecorder {
  vr_startRunVideo : string → H → H * result string ();
  vr_stopAndPersist : string → H → H * result string (option string);
  vr_discard : string → H → H * result string ()
}.
Arguments vr_startRunVideo {H} _ _ _.
Arguments vr_stopAndPersist {H} _ _ _.
Arguments vr_discard {H} _ _ _.

(** A port that may be absent is an [option]; the suspension port and the job
    queue are the PostgreSQL ones, so only their presence matters. *)
Record DriveDeps (H : Type) := mkDriveDeps {
  dd_execute : string → json → RunContext → H → H * result string StepResult;
  dd_verify : json → RunContext → H → H * result string VerifyResult;
  dd_resolvePageState : RunContext → H → H * result string PageState;
  dd_workerId : string;
  dd_suspensionPort : bool;
  dd_resumeTokenCodec : option (ResumeTokenPayload → H → H * result string json);
  dd_session : option (SessionPort H);
  dd_visualEvidenceRecorder : bool;
  dd_videoRecorder : option (VideoRecorder H);
  dd_mergedExtractSink : option (MergedExtractResult → H → H * result string string);
  dd_runtimeJobEnqueuer : bool;
  dd_now : H → Z
}.
Arguments dd_execute {H} _ _ _ _ _.
Arguments dd_verify {H} _ _ _ _.
Arguments dd_resolvePageState {H} _ _ _.
Arguments dd_workerId {H} _.
Arguments dd_suspensionPort {H} _.
Arguments dd_resumeTokenCodec {H} _.
Arguments dd_session {H} _.
Arguments dd_visualEvidenceRecorder {H} _.
Arguments dd_videoRecorder {H} _.
Arguments dd_mergedExtractSink {H} _.
Arguments dd_runtimeJobEnqueuer {H} _.
Arguments dd_now {H} _ _.

Record DriveResult := mkDriveResult { dr_state : RunState; dr_outcome : ScenarioOutcome }.

(** ** Outcomes and artifacts *)

Definition videoPolicyFromIr (ir : json) : option string :=
  match as_string (prop "video" (prop "evidence" (prop "meta" (Some ir)))) with
  | Some v => if decide (v = "always" ∨ v = "failure") then Some v else None
  | None => None
  end.

Definition systemFailureOutcome : ScenarioOutcome := mkOutcome "fail_system" [] [] [] None None None None.

Definition add_artifact (ref : string) (o : ScenarioOutcome) : ScenarioOutcome :=
  mkOutcome (oc_terminal o) (oc_visited o) (oc_steps o) (oc_artifacts o ++ [ref]) (oc_extractPages o)
    (oc_mergedExtract o) (oc_suspend o) (oc_failureReason o).

Definition KNOWN_TERMINALS : list string :=
  ["success"; "success_empty"; "fail_business"; "fail_system"; "fail_security"; "suspend"].

(** [[...new Set(refs)]]: the first occurrences. *)
Fixpoint distinct_refs (seen refs : list string) : list string :=
  match refs with
  | [] => []
  | ref :: rest => if string_in ref seen then distinct_refs seen rest else ref :: distinct_refs (ref :: seen) rest
  end.

Fixpoint enqueue_all (js : list Job) : Tx () :=
  match js with [] => mret tt | j :: rest => _ ← update (push_job j); enqueue_all rest end.

Definition enqueueArtifactLifecycleJobsForOutcome (run : ClaimedRun) (enqueuer : bool) (o : ScenarioOutcome) : Tx () :=
  let refs := distinct_refs [] (oc_artifacts o) in
  match refs with
  | [] => mret tt
  | _ =>
      if negb enqueuer then raise (E_error "driveScenario: artifacts require RuntimeJobEnqueuePort") else
      enqueue_all (map (λ ref, job_artifact_redaction (cr_runId run) ref (cr_correlationId run)) refs ++
                   [job_artifact_retention (cr_correlationId run)])
  end.

(** ** The suspension port *)

Definition human_task_kind (k : HumanTask.HumanTaskKind) : HumanTaskNodeKind :=
  match k with
  | HumanTask.k_approval => hk_approval
  | HumanTask.k_validation => hk_validation
  | HumanTask.k_exception => hk_exception
  end.
Definition challenge_event_kind (k : Interpreter.ChallengeKind) : StateMachine.ChallengeKind :=
  match k with ch_captcha => ck_captcha | ch_mfa => ck_mfa end.
Definition on_timeout_column (t : HumanTask.OnTimeout) : StateMachine.OnTimeout :=
  match t with HumanTask.ot_fail => StateMachine.ot_fail | HumanTask.ot_escalate => StateMachine.ot_escalate end.

Record SuspensionInput := mkSuspension {
  sn_runId : string;
  sn_stepId : string;
  sn_attempt : Z;
  sn_correlationId : string;
  sn_pending : list SideEffectCmd;
  sn_task : option (string * HumanTaskInput)
}.

Definition created_kind (pending : list SideEffectCmd) : option StateMachine.HumanTaskKind :=
  head (omap (λ c, match c with createHumanTask k => Some k | _ => None end) pending).

Definition json_or_empty (f : option fields) : json := JObj (default [] f).

Section Port.
(** The values [randomUUID] returns. *)
Context (uuid : nat → string).

Definition task_row (id : string) (now : Z) (kind : StateMachine.HumanTaskKind) (timeoutMs : Z)
    (input : SuspensionInput) : HumanTaskRow :=
  let t := snd <$> sn_task input in
  mkHumanTaskRow id (sn_runId input) (fst <$> sn_task input) kind (hti_assigneeRole <$> t)
    (match t with Some t => on_timeout_column (hti_onTimeout t) | None => StateMachine.ot_fail end)
    ht_open None
    (json_or_empty (t ≫= hti_payload)) (json_or_empty (t ≫= hti_resultSchema))
    (JArr (map JStr (default [] (t ≫= hti_artifactRefs)))) JNull (now + timeoutMs) None.

Definition bookmark (stepId : string) (attempt : Z) (reason idKey id : string) : json :=
  JObj [("stepId", JStr stepId); ("attempt", JNum (num_of_Z attempt)); ("reason", JStr reason); (idKey, JStr id)].

Definition set_run (f : RunRow → RunRow) (runId : string) : Tx nat := λ d,
  match runs d !! runId with
  | Some row => Ok (1, set_runs (<[runId := f row]> (runs d)) d)
  | None => Ok (0, d)
  end.
(** The same with [AND status = 'suspending']. *)
Definition set_suspending_run (f : RunRow → RunRow) (runId : string) : Tx nat := λ d,
  match runs d !! runId with
  | Some row =>
      if decide (r_status row = run_suspending) then Ok (1, set_runs (<[runId := f row]> (runs d)) d) else Ok (0, d)
  | None => Ok (0, d)
  end.
Definition with_bookmark (b : json) (r : RunRow) : RunRow :=
  mkRunRow (r_status r) (r_workitem_id r) (r_worker_id r) (r_attempts r) (r_consecutive_init_failures r)
    (r_started_at r) (r_ended_at r) (Some b) (r_resume_token r) (r_failure_reason r).
Definition with_resume_token (t : json) (r : RunRow) : RunRow :=
  mkRunRow (r_status r) (r_workitem_id r) (r_worker_id r) (r_attempts r) (r_consecutive_init_failures r)
    (r_started_at r) (r_ended_at r) (r_bookmark r) (Some t) (r_failure_reason r).
Definition with_failure_reason (code : string) (r : RunRow) : RunRow :=
  mkRunRow (r_status r) (r_workitem_id r) (r_worker_id r) (r_attempts r) (r_consecutive_init_failures r)
    (r_started_at r) (r_ended_at r) (r_bookmark r) (r_resume_token r) (Some code).

Definition expect_one_row (what : string) (n : nat) : Tx () :=
  if decide (n = 1) then mret tt else raise (E_error what).

Definition suspendForChallenge (input : SuspensionInput) : Tx () :=
  match created_kind (sn_pending input) with
  | None => raise (E_error "PgChallengeSuspensionPort: createHumanTask missing")
  | Some kind =>
      if negb (bool_decide (startBookmark ∈ sn_pending input))
      then raise (E_error "PgChallengeSuspensionPort: startBookmark missing") else
      let timeoutMs := default HUMAN_TASK_DEFAULT_TIMEOUT_MS ((snd <$> sn_task input) ≫= hti_timeoutMs) in
      if negb (timeout_in_bounds timeoutMs) then raise (E_error "PgChallengeSuspensionPort.timeoutMs") else
      id ← select (λ d, uuid (db_ids d));
      _ ← update use_id;
      _ ← update (λ d, set_human_tasks (human_tasks d ++ [task_row id (db_now d) kind timeoutMs input]) d);
      let reason := match sn_task input with Some _ => "human_task" | None => "challenge" end in
      n ← set_run (with_bookmark (bookmark (sn_stepId input) (sn_attempt input) reason "humanTaskId" id))
            (sn_runId input);
      _ ← expect_one_row "PgChallengeSuspensionPort: bookmark" n;
      _ ← emitOutboxEvent (mkEmit human_task_created_e (sn_correlationId input) (Some (sn_runId input)) None None None
            (sn_runId input +:+ ":" +:+ sn_stepId input +:+ ":" +:+ pretty (sn_attempt input) +:+ ":human_task.created")
            None);
      mret tt
  end.
End Port.

(** ** Suspension *)

Definition RESUME_TOKEN_TTL_MS : Z := 30 * 60 * 1000.

Definition guard_token : RunGuard :=
  mkRunGuard None None None None None (Some true) None None None None None None.
Definition guard_exception (c : StateMachine.ExceptionClass) : RunGuard :=
  mkRunGuard None None None None (Some c) None None None None None None None.
Definition guard_flow_end : RunGuard :=
  mkRunGuard None None None (Some true) None None None None None None None None.
Definition guard_finalized : RunGuard :=
  mkRunGuard None None None None None None None None None (Some true) None None.
Definition guard_init_ok : RunGuard :=
  mkRunGuard None (Some true) None None None None None None None None None None.
Definition guard_no_bypass : RunGuard :=
  mkRunGuard None None None None None None None None (Some false) None None None.

Section Driver.
Context {H : Type} (date_parse : string → option Z) (url_origin : string → option (string * string))
  (regexp_ok : string → bool) (uuid : nat → string) (host_code : string → option string)
  (run : ClaimedRun) (deps : DriveDeps H) (scenario_version : option (json * option CompiledScenarioAst)).

Definition expect_applied {S} (what : string) (o : TransitionOutcome S) : Tx (list SideEffectCmd) :=
  match o with Applied _ _ pending => mret pending | CasConflict _ => raise (E_error what) end.

Definition readOperatorPauseRequest : D H (option OperatorPauseDecision) :=
  withTenantTx (select (λ d,
    match filter (λ p, pr_run_id p = cr_runId run ∧ pr_status p = pr_requested) (pause_requests d) with
    | [] => None
    | p :: _ => Some (mkPause (pr_id p) (pr_reason p))
    end)).

Definition attempt_key (stepId : string) (keyAttempt : Z) (suffix : string) : string :=
  cr_runId run +:+ ":" +:+ stepId +:+ ":" +:+ pretty keyAttempt +:+ ":" +:+ suffix.

Definition max_attempt (fallback : Z) (steps : list StepRow) : Z :=
  match steps with
  | [] => fallback
  | s :: rest => foldl (λ m x, Z.max m (sp_attempt x)) (sp_attempt s) rest
  end.

Definition resolveSuspendKeyAttempt (s : SuspendContext) : D H Z :=
  withTenantTx (select (λ d,
    match s with
    | HumanTaskSuspend _ nodeId _ =>
        Z.of_nat (length (filter (λ h, h_run_id h = cr_runId run ∧ h_node_id h = Some nodeId) (human_tasks d)))
    | _ => max_attempt (su_attempt (suspend_base s))
             (filter (λ x, sp_run_id x = cr_runId run ∧ sp_step_id x = su_stepId (suspend_base s)) (run_steps d))
    end)).

Definition suspension_task (s : SuspendContext) : option (string * HumanTaskInput) :=
  match s with HumanTaskSuspend _ nodeId input => Some (nodeId, input) | _ => None end.

Definition suspension_event (s : SuspendContext) : RunEvent :=
  match s with
  | HumanTaskSuspend _ _ input => ev_human_task_required (Some (human_task_kind (hti_kind input)))
  | ChallengeSuspend _ kind => ev_step_challenge_detected (Some (challenge_event_kind kind))
  | OperatorPauseSuspend _ _ => ev_operator_pause_requested
  end.

(** R4 and R5 with the port and W9, in one transaction. *)
Definition suspend_tx (s : SuspendContext) (keyAttempt : Z) : Tx () :=
  let suffix := match s with HumanTaskSuspend _ _ _ => "human-task-required" | _ => "challenge-detected" end in
  let stepId := su_stepId (suspend_base s) in
  t ← applyRunTransition (mkRunCtx (cr_runId run) run_running (suspension_event s) run_guard_empty
        (cr_correlationId run) None (Some (attempt_key stepId keyAttempt suffix)) None);
  pending ← expect_applied "driveSuspend: R4/R5 not applied" t;
  _ ← suspendForChallenge uuid (mkSuspension (cr_runId run) stepId keyAttempt (cr_correlationId run) pending
        (suspension_task s));
  pauseLinkedWorkitemCheckout (cr_runId run) (cr_correlationId run).

Definition issue_token (codec : ResumeTokenPayload → H → H * result string json) (s : SuspendContext) : D H json :=
  on_host (λ h, let now := dd_now deps h in
    codec (mkTokenPayload (cr_runId run) (su_resumeNodeId (suspend_base s)) (su_pageStateRef (suspend_base s))
             now (now + RESUME_TOKEN_TTL_MS)) h).

(** The token is saved and R11 applied in one transaction. *)
Definition bookmark_saved_tx (key : string) (token : json) : Tx () :=
  n ← set_suspending_run (with_resume_token token) (cr_runId run);
  _ ← expect_one_row "driveSuspend: resume_token save" n;
  r11 ← applyRunTransition (mkRunCtx (cr_runId run) run_suspending ev_bookmark_saved guard_token
          (cr_correlationId run) None (Some key) None);
  _ ← expect_applied "driveSuspend: R11 not applied" r11;
  mret tt.

Definition set_pause_status (from to : PauseStatus) (by_worker : option string) (id : string) : Tx nat := λ d,
  let hit p := bool_decide (pr_run_id p = cr_runId run) && bool_decide (pr_id p = id) && bool_decide (pr_status p = from) in
  Ok (length (filter (λ p, hit p = true) (pause_requests d)),
      set_pause_requests
        (map (λ p, if hit p then mkPauseRequestRow (pr_id p) (pr_run_id p) to (pr_reason p)
                                   (match by_worker with Some w => Some w | None => pr_accepted_by p end)
                   else p) (pause_requests d)) d).

Definition operator_pause_tx (b : SuspendBase) (pause : OperatorPauseDecision) : Tx () :=
  let id := pauseRequestId pause in
  t ← applyRunTransition (mkRunCtx (cr_runId run) run_running ev_operator_pause_requested run_guard_empty
        (cr_correlationId run) None (Some (cr_runId run +:+ ":" +:+ id +:+ ":operator_pause_requested")) None);
  pending ← expect_applied "driveOperatorPause: operator_pause_requested not applied" t;
  if negb (bool_decide (pending = [startBookmark]))
  then raise (E_error "driveOperatorPause: unsupported pending side effects") else
  n ← set_pause_status pr_requested pr_accepted (Some (dd_workerId deps)) id;
  _ ← expect_one_row "driveOperatorPause: pause request was not claimable" n;
  m ← set_suspending_run (with_bookmark (bookmark (su_stepId b) (su_attempt b) "operator_pause" "pauseRequestId" id))
        (cr_runId run);
  _ ← expect_one_row "driveOperatorPause: bookmark save" m;
  pauseLinkedWorkitemCheckout (cr_runId run) (cr_correlationId run).

Definition driveOperatorPause (s : SuspendContext) (b : SuspendBase) (pause : OperatorPauseDecision)
    (codec : ResumeTokenPayload → H → H * result string json) (outcome : ScenarioOutcome) : D H DriveResult :=
  let id := pauseRequestId pause in
  _ ← withTenantTx (operator_pause_tx b pause);
  token ← issue_token codec s;
  _ ← withTenantTx (
        _ ← bookmark_saved_tx (cr_runId run +:+ ":" +:+ id +:+ ":bookmark_saved") token;
        _ ← set_pause_status pr_accepted pr_completed None id;
        enqueueArtifactLifecycleJobsForOutcome run (dd_runtimeJobEnqueuer deps) outcome);
  mret (mkDriveResult run_suspended outcome).

Definition driveSuspend (outcome : ScenarioOutcome) : D H DriveResult :=
  match oc_suspend outcome, dd_resumeTokenCodec deps with
  | None, _ => throw_error (X_error "driveSuspend: suspend context missing")
  | Some _, None => throw_error (X_error "driveSuspend: resumeTokenCodec required")
  | Some (OperatorPauseSuspend b pause as s), Some codec => driveOperatorPause s b pause codec outcome
  | Some s, Some codec =>
      if negb (dd_suspensionPort deps) then throw_error (X_error "driveSuspend: suspensionPort required") else
      keyAttempt ← resolveSuspendKeyAttempt s;
      _ ← withTenantTx (suspend_tx s keyAttempt);
      token ← issue_token codec s;
      _ ← withTenantTx (
            _ ← bookmark_saved_tx (attempt_key (su_stepId (suspend_base s)) keyAttempt "bookmark_saved") token;
            enqueueArtifactLifecycleJobsForOutcome run (dd_runtimeJobEnqueuer deps) outcome);
      mret (mkDriveResult run_suspended outcome)
  end.

(** ** Ends of runs *)

Definition exn_code (e : Exn) : option string :=
  match e with
  | X_db (E_unique _) => Some "23505"
  | X_db _ | X_error _ => None
  | X_interp (HostThrown m) => host_code m
  | X_interp t => thrown_code t
  | X_translate t => Some (translate_code t)
  | X_host m => host_code m
  end.

Definition classifiedFailureReason (e : Exn) : string := default "CONTROL_PLANE_INTERNAL_ERROR" (exn_code e).

Definition transition_tx (from : RunState) (ev : RunEvent) (g : RunGuard) (workerId : option string)
    (afterApplied : Tx ()) : Tx () :=
  o ← applyRunTransition (mkRunCtx (cr_runId run) from ev g (cr_correlationId run) workerId
        (Some (cr_runId run +:+ ":" +:+ RunEvent_type ev)) None);
  _ ← expect_applied "driveClaimedRun: transition not applied" o;
  afterApplied.

Definition transition (from : RunState) (ev : RunEvent) (g : RunGuard) (workerId : option string)
    (afterApplied : Tx ()) : D H () :=
  withTenantTx (transition_tx from ev g workerId afterApplied).

Definition settle (terminal : RunTerminalKind) : Tx () :=
  settleLinkedWorkitemFromRun (cr_runId run) (cr_correlationId run) terminal.

Definition enqueue (outcome : ScenarioOutcome) : Tx () :=
  enqueueArtifactLifecycleJobsForOutcome run (dd_runtimeJobEnqueuer deps) outcome.

Definition record_failure_reason (reason : option string) : Tx () :=
  match reason with
  | Some code => _ ← set_run (with_failure_reason code) (cr_runId run); mret tt
  | None => mret tt
  end.

Definition failRunningRun (outcome : ScenarioOutcome) : D H () :=
  transition run_running ev_unrecoverable_exception (guard_exception ex_system) None
    (_ ← settle rk_system; enqueue outcome).

(** The cookies of a completed run are kept for the next one; a failure is
    logged only. *)
Definition capture_session : D H () :=
  match dd_session deps with
  | None => mret tt
  | Some port =>
      try_catch (cookies ← on_host (ss_getAllCookies port); on_host (ss_save port cookies)) (λ _, mret tt)
  end.

Definition finish (outcome : ScenarioOutcome) (failureReason : option string) : D H DriveResult :=
  let terminal := oc_terminal outcome in
  if decide (terminal = "success" ∨ terminal = "success_empty") then
    _ ← transition run_running ev_last_node_success guard_flow_end None (mret tt);
    _ ← transition run_completing ev_finalize_ok guard_finalized None (_ ← settle rk_success; enqueue outcome);
    _ ← capture_session;
    mret (mkDriveResult run_completed outcome)
  else if decide (terminal = "fail_business") then
    _ ← transition run_running ev_business_exception (guard_exception ex_business) None
          (_ ← record_failure_reason failureReason; _ ← settle rk_business; enqueue outcome);
    mret (mkDriveResult run_failed_business outcome)
  else if decide (terminal = "fail_system") then
    _ ← transition run_running ev_unrecoverable_exception (guard_exception ex_system) None
          (_ ← record_failure_reason failureReason; _ ← settle rk_system; enqueue outcome);
    mret (mkDriveResult run_failed_system outcome)
  else if decide (terminal = "fail_security") then
    _ ← transition run_running ev_security_exception (guard_exception ex_security) None
          (_ ← record_failure_reason failureReason; enqueue outcome);
    _ ← transition run_aborting ev_drain_ok run_guard_empty None
          (_ ← unpauseLinkedWorkitemForRunAbort (cr_runId run);
           cancelLinkedHumanTasksForRunTerminal (cr_runId run) (cr_correlationId run));
    mret (mkDriveResult run_cancelled outcome)
  else if decide (terminal = "suspend") then driveSuspend outcome
  else throw_error (X_error "driveScenario: terminal not implemented").

(** ** The interpretation *)

Definition host_string {A} (r : result Exn A) : result string A :=
  match r with Ok a => Ok a | Err (X_host m) => Err m | Err _ => Err "" end.

Definition interpreter_deps (startNode : option string) (resume : option (list (string * NodeOutput)))
  : InterpreterDeps (World H) :=
  mkDeps (λ stepId action ctx w, let '(w', r) := on_host (dd_execute deps stepId action ctx) w in (w', host_string r))
    (λ criterion ctx w, let '(w', r) := on_host (dd_verify deps criterion ctx) w in (w', host_string r))
    (λ ctx w, let '(w', r) := on_host (dd_resolvePageState deps ctx) w in (w', host_string r))
    (Some (λ ctx w, let '(w', r) := readOperatorPauseRequest w in (w', host_string r)))
    (cr_params run) None startNode resume.

(** [ORDER BY resolved_at ASC NULLS FIRST, created_at ASC]. *)
Definition resolved_before (a b : option Z) : bool :=
  match a, b with
  | None, _ => true
  | Some _, None => false
  | Some x, Some y => (x <=? y)%Z
  end.
Fixpoint insert_resolved (h : HumanTaskRow) (l : list HumanTaskRow) : list HumanTaskRow :=
  match l with
  | [] => [h]
  | x :: rest => if resolved_before (h_resolved_at h) (h_resolved_at x) then h :: l else x :: insert_resolved h rest
  end.
Definition resolved_rows (tasks : list HumanTaskRow) : list ResolvedHumanTaskRow :=
  omap (λ h, n ← h_node_id h; Some (mkResolvedRow n (h_result h)))
    (foldr insert_resolved [] (filter (λ h, h_run_id h = cr_runId run ∧ h_state h = ht_resolved) tasks)).

Definition resume_outputs (startNode : option string) : D H (option (list (string * NodeOutput))) :=
  match startNode with
  | None => mret None
  | Some _ => withTenantTx (select (λ d, Some (loadResolvedHumanTaskNodeOutputs (resolved_rows (human_tasks d)))))
  end.

Definition seedPageState : PageState :=
  mkPageState "seed" [] (JObj [("url", JStr "about:blank"); ("auth", JStr "anonymous")]).

Definition initial_context (startNode : option string) (scenario : CompiledScenario) : RunContext :=
  mkCtx (default (cs_start scenario) startNode) 0 seedPageState None None (cr_context run).

Definition interpretation (startNode : option string) (scenario : CompiledScenario)
    (resume : option (list (string * NodeOutput))) : D H ScenarioOutcome := λ w,
  let '(w', r) := runScenario date_parse scenario (interpreter_deps startNode resume)
                    (initial_context startNode scenario) w in
  (w', match r with Ok o => Ok o | Err e => Err (X_interp e) end).

(** [runScenario] with the inner [catch]: the outcome and the reason of an
    absorbed exception. *)
Definition interpret (startNode : option string) (scenario : CompiledScenario)
  : D H (ScenarioOutcome * option string) :=
  try_catch
    (resume ← resume_outputs startNode;
     outcome ← interpretation startNode scenario resume;
     mret (outcome, None))
    (λ e, mret (systemFailureOutcome, Some (classifiedFailureReason e))).

Definition appendMergedExtractArtifact (outcome : ScenarioOutcome) : D H ScenarioOutcome :=
  match dd_mergedExtractSink deps, oc_mergedExtract outcome with
  | Some put, Some merged => ref ← on_host (put merged); mret (add_artifact ref outcome)
  | _, _ => mret outcome
  end.

Definition appendRunVideoArtifact (recording : option (VideoRecorder H)) (policy : option string)
    (outcome : ScenarioOutcome) : D H ScenarioOutcome :=
  match recording, policy with
  | Some rec, Some p =>
      let terminal := oc_terminal outcome in
      if decide (p = "failure" ∧ (terminal = "success" ∨ terminal = "success_empty")) then
        _ ← on_host (vr_discard rec "terminal_success"); mret outcome
      else if negb (string_in terminal KNOWN_TERMINALS)
      then throw_error (X_error "driveScenario: terminal cannot finalize run video evidence") else
      ref ← on_host (vr_stopAndPersist rec terminal);
      mret (match ref with Some x => add_artifact x outcome | None => outcome end)
  | _, _ => mret outcome
  end.

(** The outer [try]: video, interpretation, artifacts.  [started] tells its
    [catch] whether a recording has to be discarded. *)
Definition drive_body (startNode policy : option string) (scenario : CompiledScenario)
  : D H (ScenarioOutcome * option string) := λ w,
  let recorder := match policy with Some _ => dd_videoRecorder deps | None => None end in
  let '(w1, started) :=
    match recorder, policy with
    | Some rec, Some p => on_host (vr_startRunVideo rec p) w
    | _, _ => (w, Ok tt)
    end in
  match started with
  | Err e => (w1, Ok (systemFailureOutcome, Some (classifiedFailureReason e)))
  | Ok _ =>
      match interpret startNode scenario w1 with
      | (w2, Err e) => (w2, Err e)
      | (w2, Ok (scenarioOutcome, throwReason)) =>
          try_catch
            (o1 ← appendMergedExtractArtifact scenarioOutcome;
             o2 ← appendRunVideoArtifact recorder policy o1;
             mret (o2, throwReason))
            (λ e, _ ← match recorder with
                      | Some rec => on_host (vr_discard rec "run_drive_error")
                      | None => mret tt
                      end;
                  mret (systemFailureOutcome, Some (classifiedFailureReason e))) w2
      end
  end.

Definition restore_session : D H () :=
  match dd_session deps with
  | None => mret tt
  | Some port =>
      _ ← on_host (ss_clearCookies port);
      bundle ← on_host (ss_load port);
      match bundle with
      | Some (_ :: _ as cookies) => on_host (ss_setCookies port cookies)
      | _ => mret tt
      end
  end.

Definition driveScenario (startNode : option string) : D H DriveResult :=
  sv ← withTenantTx (select (λ _, scenario_version));
  match sv with
  | None => throw_error (X_error "driveScenario: scenario_version not found")
  | Some (irDoc, compiledAst) =>
      scenario ← from_result X_translate (compiledScenarioFrom url_origin regexp_ok irDoc compiledAst (cr_params run));
      let policy := videoPolicyFromIr irDoc in
      let has_video := match dd_videoRecorder deps with Some _ => true | None => false end in
      if match policy with Some _ => negb has_video | None => false end then
        _ ← failRunningRun systemFailureOutcome; mret (mkDriveResult run_failed_system systemFailureOutcome)
      else if (dd_visualEvidenceRecorder deps || has_video) && negb (dd_runtimeJobEnqueuer deps) then
        _ ← failRunningRun systemFailureOutcome; mret (mkDriveResult run_failed_system systemFailureOutcome)
      else
        _ ← restore_session;
        result ← drive_body startNode policy scenario;
        let '(outcome, throwReason) := result in
        finish outcome (match throwReason with Some c => Some c | None => oc_failureReason outcome end)
  end.

(** ** The fallback *)

(** The event and guard that end a run stuck in a state. *)
Definition stuck_event (s : RunState) : option (RunEvent * RunGuard) :=
  match s with
  | run_running => Some (ev_unrecoverable_exception, guard_exception ex_system)
  | run_completing => Some (ev_finalize_failed, run_guard_empty)
  | run_suspending => Some (ev_bookmark_failed, run_guard_empty)
  | run_resuming => Some (ev_restore_failed, guard_no_bypass)
  | run_claimed => Some (ev_init_failed, guard_init false)
  | _ => None
  end.

Definition terminalize_tx (failureReason : option string) : Tx bool :=
  row ← select (λ d, runs d !! cr_runId run);
  match row with
  | None => mret false
  | Some row =>
      match stuck_event (r_status row) with
      | None => mret false
      | Some (ev, g) =>
          t ← applyRunTransition (mkRunCtx (cr_runId run) (r_status row) ev g (cr_correlationId run) None
                (Some (cr_runId run +:+ ":" +:+ RunEvent_type ev)) None);
          match t with
          | CasConflict _ => mret false
          | Applied _ _ _ =>
              _ ← record_failure_reason failureReason;
              _ ← settle rk_system;
              _ ← cancelLinkedHumanTasksForRunTerminal (cr_runId run) (cr_correlationId run);
              mret true
          end
      end
  end.

Definition terminalizeStuckRunAsSystemFailure (failureReason : option string) : D H bool :=
  try_catch (withTenantTx (terminalize_tx failureReason)) (λ _, mret false).

Definition driveScenarioWithSystemFailsafe (startNode : option string) : D H DriveResult :=
  try_catch (driveScenario startNode)
    (λ err, terminalized ← terminalizeStuckRunAsSystemFailure (Some (classifiedFailureReason err));
            if (terminalized : bool) then mret (mkDriveResult run_failed_system systemFailureOutcome)
            else throw_error err).

Definition driveClaimedRun : D H DriveResult :=
  _ ← transition run_claimed ev_run_started guard_init_ok (Some (dd_workerId deps)) (mret tt);
  driveScenarioWithSystemFailsafe None.

Definition driveResumedRun (resumeNodeId : string) : D H DriveResult :=
  driveScenarioWithSystemFailsafe (Some resumeNodeId).
End Driver.
