(* ===== verification/DriverProps.v ===== *)
(** * Properties of the run driver

    What the driver writes is described by the shape of its committed
    transactions ([tx_shape]): auxiliary changes ([aux]) around at most one
    transition of the run, followed in the same transaction by the settlement of
    the linked workitem when the run ends.  The theorems about the driver follow
    from this shape, for every behaviour of the host and of the other users of
    the database. *)

From stdpp Require Import base strings list gmap pretty relations.
From Stdlib Require Import ZArith Lia.
From S2P Require Import Prelude StateMachine JsValue IrelSyntax IrelLexer StaticValidation RuntimeStore FlowControl JsText HumanTask ExtractMerge Interpreter InterpreterProps Translate Database Settlement Driver.

(** ** Views of the tables *)

Definition run_status (d : Db) (runId : string) : option RunState := r_status <$> runs d !! runId.
Definition linked (d : Db) (runId : string) : option string := runs d !! runId ≫= r_workitem_id.
(** The columns of a workitem that are not about its checkout timer. *)
Definition core (row : WorkitemRow) : WorkitemState * Z := (w_status row, w_attempts row).

(** How the workitem of a run that ends in a state is settled; a cancelled run
    leaves it to the sweeper of expired checkouts. *)
Definition end_kind (s : RunState) : option RunTerminalKind :=
  match s with
  | run_completed => Some rk_success
  | run_failed_business => Some rk_business
  | run_failed_system => Some rk_system
  | _ => None
  end.

Definition is_end_event (e : EventEnvelopeType) : bool :=
  match e with
  | run_completed_e | run_cancelled_e | run_failed_business_e | run_failed_system_e => true
  | _ => false
  end.

(** The events of a run's end among new outbox rows. *)
Definition end_events (es : list OutboxEvent) : list EventEnvelopeType :=
  filter (λ e, is_end_event e = true) (map o_eventType es).

(** ** Auxiliary changes *)

Record aux (runId : string) (d d' : Db) : Prop := {
  aux_others : ∀ r, r ≠ runId → runs d' !! r = runs d !! r;
  aux_status : run_status d' runId = run_status d runId;
  aux_link : linked d' runId = linked d runId;
  aux_core : ∀ w, core <$> workitems d' !! w = core <$> workitems d !! w;
  aux_workitems : ∀ w, linked d runId ≠ Some w → workitems d' !! w = workitems d !! w;
  aux_outbox : ∃ es, events_outbox d' = events_outbox d ++ es ∧ end_events es = [] ∧
    ∀ o, o ∈ es → ∃ a, o_idempotencyKey o = outbox_key a human_task_created_e;
  aux_letters : dead_letter d' = dead_letter d
}.

#[export] Instance aux_preorder runId : PreOrder (aux runId).
Proof.
  split.
  - intros d. split; try done. exists []. rewrite app_nil_r. split_and!; [done..|set_solver].
  - intros d1 d2 d3 [A1 A2 A3 A4 A5 (es & A6 & A7 & A8) A9] [B1 B2 B3 B4 B5 (fs & B6 & B7 & B8) B9]. split.
    + intros r Hr. by rewrite B1, A1.
    + congruence.
    + congruence.
    + intros w. by rewrite B4, A4.
    + intros w Hw. rewrite B5, A5; [done|done|congruence].
    + exists (es ++ fs). rewrite B6, A6, app_assoc. unfold end_events in *. rewrite map_app, filter_app, A7, B7.
      split_and!; [done..|]. intros o [?|?]%elem_of_app; auto.
    + congruence.
Qed.

(** Changes of tables that no part of [aux] reads. *)
Lemma aux_tables runId d d' : runs d' = runs d → workitems d' = workitems d →
  events_outbox d' = events_outbox d → dead_letter d' = dead_letter d → aux runId d d'.
Proof.
  intros H1 H2 H3 H4. split; unfold run_status, linked; rewrite ?H1, ?H2, ?H3; try done.
  exists []. rewrite app_nil_r. split_and!; [done..|set_solver].
Qed.

(** A change of the run's row that keeps its status and workitem. *)
Lemma aux_row runId d row f : runs d !! runId = Some row → r_status (f row) = r_status row →
  r_workitem_id (f row) = r_workitem_id row → aux runId d (set_runs (<[runId := f row]> (runs d)) d).
Proof.
  intros Hl Hs Hw. split; unfold run_status, linked; simpl; try done.
  - intros r Hr. by rewrite lookup_insert_ne.
  - rewrite lookup_insert_eq, Hl. simpl. by rewrite Hs.
  - rewrite lookup_insert_eq, Hl. simpl. by rewrite Hw.
  - exists []. rewrite app_nil_r. split_and!; [done..|set_solver].
Qed.

(** The checkout timer of the linked workitem. *)
Lemma aux_checkout runId d w row row' : linked d runId = Some w → workitems d !! w = Some row →
  core row' = core row → aux runId d (set_workitems (<[w := row']> (workitems d)) d).
Proof.
  intros Hw Hl Hc. split; unfold run_status, linked; simpl; try done.
  - intros w'. destruct (decide (w' = w)) as [->|]; [by rewrite lookup_insert_eq, Hl; simpl; rewrite Hc|].
    by rewrite lookup_insert_ne.
  - intros w' Hw'. rewrite lookup_insert_ne; [done|]. unfold linked in *. congruence.
  - exists []. rewrite app_nil_r. split_and!; [done..|set_solver].
Qed.

Lemma aux_created runId d o a : o_eventType o = human_task_created_e →
  o_idempotencyKey o = outbox_key a human_task_created_e → aux runId d (add_outbox [o] d).
Proof.
  intros Ht Hk. split; try done. exists [o]. unfold end_events. simpl. rewrite Ht. split_and!; [done..|].
  intros o' ->%list_elem_of_singleton. eauto.
Qed.

(** ** Partial correctness of transaction bodies *)

Definition wpt {A} (m : Tx A) (d : Db) (Q : A → Db → Prop) : Prop := ∀ a d', m d = Ok (a, d') → Q a d'.

Lemma wpt_bind {A B} (m : Tx A) (k : A → Tx B) d Q : wpt m d (λ a d', wpt (k a) d' Q) → wpt (m ≫= k) d Q.
Proof. intros H b d' (a & d1 & Hm & Hk)%Tx_bind_Ok. by eapply H. Qed.
Lemma wpt_mono {A} (m : Tx A) d (P Q : A → Db → Prop) : wpt m d P → (∀ a d', P a d' → Q a d') → wpt m d Q.
Proof. unfold wpt. eauto. Qed.
Lemma wpt_ret {A} (a : A) d (Q : A → Db → Prop) : Q a d → wpt (mret a) d Q.
Proof. by intros H a' d' [= <- <-]. Qed.
Lemma wpt_raise {A} e d (Q : A → Db → Prop) : wpt (raise e) d Q.
Proof. done. Qed.
Lemma wpt_select {A} (f : Db → A) d (Q : A → Db → Prop) : Q (f d) d → wpt (select f) d Q.
Proof. by intros H a' d' [= <- <-]. Qed.
Lemma wpt_update f d (Q : () → Db → Prop) : Q tt (f d) → wpt (update f) d Q.
Proof. by intros H a' d' [= <- <-]. Qed.

(** A body that makes only auxiliary changes. *)
Definition auxiliary {A} (runId : string) (m : Tx A) : Prop := ∀ d, wpt m d (λ _ d', aux runId d d').

Lemma auxiliary_bind {A B} runId (m : Tx A) (k : A → Tx B) :
  auxiliary runId m → (∀ a, auxiliary runId (k a)) → auxiliary runId (m ≫= k).
Proof.
  intros Hm Hk d. apply wpt_bind. eapply wpt_mono; [apply Hm|]. simpl. intros a d1 H1.
  eapply wpt_mono; [apply Hk|]. simpl. intros b d2 H2. by etrans.
Qed.
Lemma auxiliary_ret {A} runId (a : A) : auxiliary runId (mret a).
Proof. intros d. by apply wpt_ret. Qed.
Lemma auxiliary_raise {A} runId e : auxiliary (A:=A) runId (raise e).
Proof. by intros d. Qed.
Lemma auxiliary_select {A} runId (f : Db → A) : auxiliary runId (select f).
Proof. intros d. by apply wpt_select. Qed.
Lemma auxiliary_update runId f : (∀ d, aux runId d (f d)) → auxiliary runId (update f).
Proof. intros H d. by apply wpt_update. Qed.

Create HintDb aux.
#[export] Hint Resolve auxiliary_bind auxiliary_ret auxiliary_raise auxiliary_select : aux.

Lemma auxiliary_enqueue_all runId js : auxiliary runId (enqueue_all js).
Proof.
  induction js as [|j js IH]; cbn [enqueue_all]; [auto with aux|]. apply auxiliary_bind; [|done].
  apply auxiliary_update. intros d. by apply aux_tables.
Qed.
#[export] Hint Resolve auxiliary_enqueue_all : aux.

Lemma auxiliary_enqueue runId run q o : auxiliary runId (enqueueArtifactLifecycleJobsForOutcome run q o).
Proof. unfold enqueueArtifactLifecycleJobsForOutcome. repeat case_match; auto with aux. Qed.

Lemma auxiliary_cancel runId c : auxiliary runId (cancelLinkedHumanTasksForRunTerminal runId c).
Proof.
  intros d u d' H. destruct (cancelLinked_Ok runId c d) as [ts E]. rewrite E in H. injection H as <- <-.
  by apply aux_tables.
Qed.

Lemma auxiliary_set_run runId f : (∀ row, r_status (f row) = r_status row) →
  (∀ row, r_workitem_id (f row) = r_workitem_id row) → auxiliary runId (set_run f runId).
Proof.
  intros H1 H2 d n d'. unfold set_run. destruct (runs d !! runId) as [row|] eqn:E; intros [= <- <-]; [|done].
  by apply aux_row.
Qed.
Lemma auxiliary_set_suspending runId f : (∀ row, r_status (f row) = r_status row) →
  (∀ row, r_workitem_id (f row) = r_workitem_id row) → auxiliary runId (set_suspending_run f runId).
Proof.
  intros H1 H2 d n d'. unfold set_suspending_run. destruct (runs d !! runId) as [row|] eqn:E; [|by intros [= <- <-]].
  case_decide; intros [= <- <-]; [|done]. by apply aux_row.
Qed.
Lemma auxiliary_expect runId what n : auxiliary runId (expect_one_row what n).
Proof. unfold expect_one_row. case_decide; auto with aux. Qed.
Lemma auxiliary_expect_applied {S} runId what (o : TransitionOutcome S) : auxiliary runId (expect_applied what o).
Proof. destruct o; simpl; auto with aux. Qed.
#[export] Hint Resolve auxiliary_enqueue auxiliary_cancel auxiliary_set_run auxiliary_set_suspending
  auxiliary_expect auxiliary_expect_applied : aux.

(** ** The parts of a suspension *)

Lemma wpt_resolve runId d (Q : option string → Db → Prop) :
  Q (linked d runId) d → wpt (resolveLinkedWorkitemId runId) d Q.
Proof. by intros H a' d' [= <- <-]. Qed.

Lemma aux_set_checkout runId w f d : linked d runId = Some w →
  (∀ now row row', f now row = Some row' → core row' = core row) →
  wpt (set_checkout f w) d (λ _ d', aux runId d d').
Proof.
  intros Hw Hf. apply wpt_update. destruct (workitems d !! w) as [row|] eqn:E; [|done].
  destruct (f (db_now d) row) as [row'|] eqn:Ef; [|done]. eapply aux_checkout; eauto.
Qed.

Lemma pause_core now row row' : pause_checkout now row = Some row' → core row' = core row.
Proof. unfold pause_checkout. case_decide; [|done]. by intros [= <-]. Qed.
Lemma expire_core now row row' : expire_checkout now row = Some row' → core row' = core row.
Proof. unfold expire_checkout. case_decide; [|done]. case_match; [|done]. by intros [= <-]. Qed.

Lemma auxiliary_pause runId c : auxiliary runId (pauseLinkedWorkitemCheckout runId c).
Proof.
  intros d. unfold pauseLinkedWorkitemCheckout, checkout_transition. apply wpt_bind, wpt_resolve.
  destruct (linked d runId) as [w|] eqn:Hw; [|by apply wpt_ret].
  apply wpt_bind. intros o d1 Ho.
  apply applyWorkitemTransition_Ok in Ho as [(obs & -> & ->)|(t & row & es & Ht & Hl & Hs & -> & He & _ & ->)];
    [by apply wpt_ret|].
  simpl in Ht, Hl, Hs. injection Ht as <-. apply map_eq_nil in He as ->. rewrite add_outbox_nil. simpl.
  set (d1 := set_workitems _ _).
  assert (H1 : aux runId d d1).
  { eapply aux_checkout; [exact Hw|exact Hl|]. unfold core, updated_workitem. simpl. by rewrite Hs. }
  apply wpt_bind. unfold assertExactPendingKinds. case_match; [apply wpt_raise|]. case_match; [apply wpt_raise|].
  apply wpt_ret. eapply wpt_mono; [apply (aux_set_checkout runId); [exact Hw|apply pause_core]|].
  intros ? d2 H2. by etrans.
Qed.

Lemma auxiliary_unpause runId : auxiliary runId (unpauseLinkedWorkitemForRunAbort runId).
Proof.
  intros d. unfold unpauseLinkedWorkitemForRunAbort. apply wpt_bind, wpt_resolve.
  destruct (linked d runId) as [w|] eqn:Hw; [|by apply wpt_ret].
  apply aux_set_checkout; [done|apply expire_core].
Qed.

Lemma auxiliary_port uuid input : auxiliary (sn_runId input) (suspendForChallenge uuid input).
Proof.
  unfold suspendForChallenge.
  case_match; [|auto with aux]. case_match; [auto with aux|]. case_match; [auto with aux|].
  apply auxiliary_bind; [auto with aux|]. intros id.
  apply auxiliary_bind; [apply auxiliary_update; intros; by apply aux_tables|]. intros _.
  apply auxiliary_bind; [apply auxiliary_update; intros; by apply aux_tables|]. intros _.
  apply auxiliary_bind; [auto with aux|]. intros n.
  apply auxiliary_bind; [auto with aux|]. intros _.
  apply auxiliary_bind; [|auto with aux].
  intros d o d' (-> & Hty & Hk & _)%emitOutboxEvent_Ok. simpl in *.
  eapply (aux_created _ _ _ (sn_runId input +:+ ":" +:+ sn_stepId input +:+ ":" +:+ pretty (sn_attempt input)));
    [done|]. rewrite Hk. unfold outbox_key. simpl. by repeat (rewrite str_app_assoc; simpl).
Qed.

Lemma auxiliary_pause_status run runId from to by_worker id :
  auxiliary runId (set_pause_status run from to by_worker id).
Proof. intros d n d' [= <- <-]. by apply aux_tables. Qed.
#[export] Hint Resolve auxiliary_pause auxiliary_unpause auxiliary_pause_status : aux.

(** ** The shape of a committed transaction *)

Section Shape.
Context (runId : string).

(** A transition of the run and its events. *)
Definition moves (t : TransitionResult RunState) (d d' : Db) : Prop :=
  ∃ s ev g row row' es, transitionRun s ev g = Ok t ∧ runs d !! runId = Some row ∧ r_status row = s ∧
    r_status row' = next t ∧ r_workitem_id row' = r_workitem_id row ∧
    map o_eventType es = emitted_events (sideEffects t) ∧
    (∀ o, o ∈ es → ∃ a ev, o_idempotencyKey o = outbox_key a ev ∧ ev ∈ emitted_events (sideEffects t)) ∧
    d' = add_outbox es (set_runs (<[runId := row']> (runs d)) d).

Definition settles (k : RunTerminalKind) (d d' : Db) : Prop :=
  match linked d runId with
  | None => d' = d
  | Some w =>
      ∃ row es input, workitems d !! w = Some row ∧ w_status row = wi_processing ∧
        si_runId input = runId ∧ si_terminal input = k ∧ si_maxAttempts input = None ∧
        si_systemReasonCode input = None ∧ si_systemEvidenceRef input = None ∧
        map o_eventType es = settled_events (settled_status k (w_attempts row) WORKITEM_MAX_ATTEMPTS) ∧
        d' = settled_db w input row es d
  end.

Inductive tx_shape (d d' : Db) : Prop :=
| shape_aux : aux runId d d' → tx_shape d d'
| shape_move t d0 d1 : aux runId d d0 → moves t d0 d1 → end_kind (next t) = None → aux runId d1 d' → tx_shape d d'
| shape_end t k d1 d2 d3 : moves t d d1 → aux runId d1 d2 → end_kind (next t) = Some k → settles k d2 d3 →
    aux runId d3 d' → tx_shape d d'.
End Shape.

Lemma apply_moves runId ctx d : rt_runId ctx = runId →
  wpt (applyRunTransition ctx) d (λ o d',
    match o with
    | CasConflict _ => d' = d
    | Applied s es pending => ∃ t, next t = s ∧ pending = run_pending (sideEffects t) ∧ moves runId t d d' ∧
        transitionRun (rt_fromStatus ctx) (rt_event ctx) (rt_guard ctx) = Ok t
    end).
Proof.
  intros <- o d' [(obs & -> & ->)|(t & row & es & Ht & Hl & Hs & -> & He & Hk & ->)]%applyRunTransition_Ok; [done|].
  exists t. split_and!; [done|done| |done].
  exists (rt_fromStatus ctx), (rt_event ctx), (rt_guard ctx), row,
    (updated_run (db_now d) ctx t row), es. split_and!; try done.
  intros o Ho. apply (list_elem_of_fmap_2 o_idempotencyKey) in Ho.
  change (o_idempotencyKey o ∈ map o_idempotencyKey es) in Ho. rewrite Hk in Ho. apply list_elem_of_fmap in Ho as (ev & Hev & Hin). eauto.
Qed.

Lemma settle_settles run k : ∀ d, wpt (settle run k) d (λ _ d', settles (cr_runId run) k d d').
Proof.
  intros d. unfold settle, settleLinkedWorkitemFromRun. apply wpt_bind, wpt_resolve. apply wpt_bind.
  intros res d' H. apply wpt_ret. unfold settles. destruct (linked d (cr_runId run)) as [w|] eqn:Hw.
  2:{ by injection H as <- <-. }
  destruct (settle_processing _ _ _ _ _ H) as (row & Hl & Hs).
  set (input := mkSettlement _ _ _ _ _ _ _ _) in *.
  assert (Hm : (0 < max_attempts input)%Z) by done.
  rewrite (settle_branch w input row d Hl Hs Hm) in H. destruct (emitAll _ _ _ _ _ _ _) as [[es d1]|] eqn:He; [|done].
  apply emitAll_Ok in He as (-> & Hty & _). injection H as <- <-. exists row, es, input. split_and!; try done.
  unfold settled_db, settled_letters, settled_row, push_dead_letter, add_outbox. simpl.
  case_decide; [done|]. by rewrite app_nil_r.
Qed.

(** ** The bodies of the driver's transactions *)

Definition ending {A} (runId : string) (k : RunTerminalKind) (m : Tx A) : Prop := ∀ d,
  wpt m d (λ _ d', ∃ d1 d2, aux runId d d1 ∧ settles runId k d1 d2 ∧ aux runId d2 d').

Lemma ending_bind {A B} runId k (m : Tx A) (f : A → Tx B) :
  auxiliary runId m → (∀ a, ending runId k (f a)) → ending runId k (m ≫= f).
Proof.
  intros Hm Hf d. apply wpt_bind. eapply wpt_mono; [apply Hm|]. simpl. intros a d1 H1.
  eapply wpt_mono; [apply Hf|]. simpl. intros b d2 (d3 & d4 & H2 & H3 & H4). exists d3, d4. split_and!; [by etrans|done..].
Qed.

Lemma ending_settle {B} run k (f : () → Tx B) :
  (∀ a, auxiliary (cr_runId run) (f a)) → ending (cr_runId run) k (u ← settle run k; f u).
Proof.
  intros Hf d. apply wpt_bind. eapply wpt_mono; [apply settle_settles|]. simpl. intros a d1 H1.
  eapply wpt_mono; [apply Hf|]. simpl. intros b d2 H2. by exists d, d1.
Qed.

Lemma auxiliary_reason run reason : auxiliary (cr_runId run) (record_failure_reason run reason).
Proof. destruct reason; simpl; auto with aux. Qed.
#[export] Hint Resolve auxiliary_reason : aux.

(** What follows a transition fits the state it leads to. *)
Definition fits {A} (runId : string) (s : RunState) (m : Tx A) : Prop :=
  match end_kind s with None => auxiliary runId m | Some k => ending runId k m end.

Lemma moves_shape {A} runId t d d1 (m : Tx A) :
  moves runId t d d1 → fits runId (next t) m → wpt m d1 (λ _ d', tx_shape runId d d').
Proof.
  intros Hm Hf. unfold fits in Hf. destruct (end_kind (next t)) as [k|] eqn:Ek.
  - eapply wpt_mono; [apply Hf|]. simpl. intros a d' (d2 & d3 & H1 & H2 & H3). by eapply shape_end.
  - eapply wpt_mono; [apply Hf|]. simpl. intros a d' H1. by eapply (shape_move _ _ _ t d).
Qed.

Section Bodies.
Context (run : ClaimedRun).
Notation runId := (cr_runId run).

Definition shaped {A} (m : Tx A) : Prop := ∀ d, wpt m d (λ _ d', tx_shape runId d d').

Lemma shaped_aux {A} (m : Tx A) : auxiliary runId m → shaped m.
Proof. intros H d. eapply wpt_mono; [apply H|]. simpl. intros. by apply shape_aux. Qed.

Lemma shaped_transition from ev g wk after :
  (∀ t, transitionRun from ev g = Ok t → fits runId (next t) after) → shaped (transition_tx run from ev g wk after).
Proof.
  intros Hf d. unfold transition_tx. apply wpt_bind. eapply wpt_mono; [by apply (apply_moves runId)|]. simpl.
  intros [s es pending|obs] d1 H1; simpl; apply wpt_bind; [|apply wpt_raise].
  destruct H1 as (t & <- & -> & Hm & Ht). apply wpt_ret. eapply moves_shape; eauto.
Qed.

Lemma shaped_suspend uuid s k : shaped (suspend_tx uuid run s k).
Proof.
  intros d. unfold suspend_tx. apply wpt_bind. eapply wpt_mono; [by apply (apply_moves runId)|]. simpl.
  intros [st es pending|obs] d1 H1; simpl; apply wpt_bind; [|apply wpt_raise].
  destruct H1 as (t & <- & -> & Hm & Ht). apply wpt_ret. eapply moves_shape; [exact Hm|].
  assert (Hn : next t = run_suspending) by (destruct s; simpl in Ht; by injection Ht as <-).
  rewrite Hn. apply auxiliary_bind; [|auto with aux]. eapply (auxiliary_port _ (mkSuspension _ _ _ _ _ _)).
Qed.

Lemma shaped_operator_pause {H} (deps : DriveDeps H) b p : shaped (operator_pause_tx run deps b p).
Proof.
  intros d. unfold operator_pause_tx. apply wpt_bind. eapply wpt_mono; [by apply (apply_moves runId)|]. simpl.
  intros [st es pending|obs] d1 H1; simpl; apply wpt_bind; [|apply wpt_raise].
  destruct H1 as (t & <- & -> & Hm & Ht). apply wpt_ret. eapply moves_shape; [exact Hm|].
  injection Ht as <-. simpl. unfold fits. simpl.
  apply auxiliary_bind; [auto with aux|]. intros n. apply auxiliary_bind; [auto with aux|]. intros _.
  apply auxiliary_bind; [auto with aux|]. intros m. apply auxiliary_bind; auto with aux.
Qed.

Lemma shaped_bookmark {A} key token (after : Tx A) : auxiliary runId after →
  shaped (_ ← bookmark_saved_tx run key token; after).
Proof.
  intros Ha d. apply wpt_bind. unfold bookmark_saved_tx. apply wpt_bind.
  eapply wpt_mono; [by apply (auxiliary_set_suspending runId (with_resume_token token))|]. simpl. intros n d0 H0.
  apply wpt_bind. eapply wpt_mono; [apply (auxiliary_expect runId)|]. simpl. intros _ d1 H1.
  apply wpt_bind. eapply wpt_mono; [by apply (apply_moves runId)|]. simpl.
  intros [st es pending|obs] d2 H2; simpl; apply wpt_bind; [|apply wpt_raise].
  destruct H2 as (t & <- & -> & Hm & Ht). apply wpt_ret, wpt_ret. eapply wpt_mono; [apply Ha|]. simpl.
  intros a d' H3. injection Ht as <-. eapply (shape_move _ _ _ _ d1); [by etrans|exact Hm|done|done].
Qed.

Lemma shaped_terminalize reason : shaped (terminalize_tx run reason).
Proof.
  intros d. unfold terminalize_tx. apply wpt_bind, wpt_select.
  destruct (runs d !! runId) as [row|]; [|by apply wpt_ret, shape_aux].
  destruct (stuck_event (r_status row)) as [[ev g]|] eqn:Es; [|by apply wpt_ret, shape_aux].
  apply wpt_bind. eapply wpt_mono; [by apply (apply_moves runId)|]. simpl.
  intros [st es pending|obs] d1 H1; simpl; [|subst d1; by apply wpt_ret, shape_aux].
  destruct H1 as (t & <- & -> & Hm & Ht). eapply moves_shape; [exact Hm|].
  assert (Hn : next t = run_failed_system).
  { destruct (r_status row); try done; injection Es as <- <-; simpl in Ht; by injection Ht as <-. }
  rewrite Hn. unfold fits. simpl. apply ending_bind; [auto with aux|]. intros _.
  apply ending_settle. intros _. apply auxiliary_bind; auto with aux.
Qed.
End Bodies.

(** ** The guarantee of every committed transaction *)

(** The end of the run a transaction brings about, if any. *)
Definition run_end (runId : string) (d d' : Db) : option RunTerminalKind :=
  if decide (run_status d' runId = run_status d runId) then None else run_status d' runId ≫= end_kind.

Definition end_letters (runId : string) (d : Db) (k : option RunTerminalKind) : list DeadLetterRow :=
  match k, linked d runId with
  | Some rk_system, Some w =>
      match workitems d !! w with
      | Some row => if decide (w_attempts row + 1 < WORKITEM_MAX_ATTEMPTS)%Z then []
                    else [mkDeadLetterRow w (Some runId) "DEAD_LETTER" None true]
      | None => []
      end
  | _, _ => []
  end.

Record guarantee (runId : string) (d d' : Db) : Prop := {
  g_others : ∀ r, r ≠ runId → runs d' !! r = runs d !! r;
  g_link : linked d' runId = linked d runId;
  g_step : run_status d' runId = run_status d runId ∨
    ∃ s ev g t, run_status d runId = Some s ∧ transitionRun s ev g = Ok t ∧ run_status d' runId = Some (next t);
  g_events : ∃ es, events_outbox d' = events_outbox d ++ es ∧
    end_events es = if decide (run_status d' runId = run_status d runId) then []
                    else match run_status d' runId ≫= terminal_event with Some e => [e] | None => [] end;
  g_other_workitems : ∀ w, linked d runId ≠ Some w → workitems d' !! w = workitems d !! w;
  g_workitem : ∀ w, linked d runId = Some w →
    match run_end runId d d' with
    | None => core <$> workitems d' !! w = core <$> workitems d !! w
    | Some k => ∃ row, workitems d !! w = Some row ∧ w_status row = wi_processing ∧
        core <$> workitems d' !! w = Some (core (settled_row k WORKITEM_MAX_ATTEMPTS row))
    end;
  g_letters : dead_letter d' = dead_letter d ++ end_letters runId d (run_end runId d d')
}.

Lemma transition_end_events s ev g t : transitionRun s ev g = Ok t →
  filter (λ e, is_end_event e = true) (emitted_events (sideEffects t)) =
  match terminal_event (next t) with Some e => [e] | None => [] end ∧ terminal_event s = None.
Proof. destruct t as [s' effs]. intros Ht. run_cases Ht; done. Qed.

Lemma end_kind_terminal s k : end_kind s = Some k → terminal_event s ≠ None.
Proof. by destruct s. Qed.

Lemma moves_views runId t d d' : moves runId t d d' →
  (∀ r, r ≠ runId → runs d' !! r = runs d !! r) ∧ linked d' runId = linked d runId ∧
  run_status d' runId = Some (next t) ∧ workitems d' = workitems d ∧ dead_letter d' = dead_letter d ∧
  (∃ es, events_outbox d' = events_outbox d ++ es ∧
     end_events es = match terminal_event (next t) with Some e => [e] | None => [] end) ∧
  ∃ s ev g, run_status d runId = Some s ∧ transitionRun s ev g = Ok t ∧ terminal_event s = None.
Proof.
  intros (s & ev & g & row & row' & es & Ht & Hl & Hs & Hn & Hw & He & _ & ->).
  destruct (transition_end_events _ _ _ _ Ht) as [H1 H2]. unfold linked, run_status. simpl.
  rewrite lookup_insert_eq, Hl. simpl. rewrite Hw, Hn. split_and!; try done.
  - intros r Hr. by rewrite lookup_insert_ne.
  - exists es. unfold end_events. rewrite He. done.
  - exists s, ev, g. by rewrite Hs.
Qed.

Lemma settles_views runId k d d' : settles runId k d d' →
  runs d' = runs d ∧ (∃ es, events_outbox d' = events_outbox d ++ es ∧ end_events es = []) ∧
  (∀ w, linked d runId ≠ Some w → workitems d' !! w = workitems d !! w) ∧
  (∀ w, linked d runId = Some w → ∃ row, workitems d !! w = Some row ∧ w_status row = wi_processing ∧
     workitems d' !! w = Some (settled_row k WORKITEM_MAX_ATTEMPTS row)) ∧
  dead_letter d' = dead_letter d ++ end_letters runId d (Some k).
Proof.
  unfold settles, end_letters. destruct (linked d runId) as [w|] eqn:Hw.
  - intros (row & es & input & Hl & Hs & Hr & Hk & Hm & Hc & Hv & He & ->). simpl. rewrite Hl.
    unfold settled_letters, max_attempts. rewrite Hr, Hk, Hm, Hc, Hv. simpl. split_and!; try done.
    + exists es. unfold end_events. rewrite He. split; [done|]. by destruct k; simpl; [..|case_decide].
    + intros w' Hw'. rewrite lookup_insert_ne by congruence. done.
    + intros w' [= <-]. exists row. by rewrite lookup_insert_eq.
    + destruct k; simpl; [done..|]. by repeat case_decide.
  - intros ->. split_and!; try done.
    + exists []. by rewrite app_nil_r.
    + destruct k; by rewrite app_nil_r.
Qed.

Lemma aux_guarantee runId d d' : aux runId d d' → guarantee runId d d'.
Proof.
  intros Ha.
  destruct Ha as [A1 A2 A3 A4 A5 (es & A6 & A7 & _) A8].
  assert (Hr : run_end runId d d' = None) by (unfold run_end; by rewrite decide_True).
  split; [done|done|by left| |done| |].
  + exists es. by rewrite decide_True.
  + intros w Hw. by rewrite Hr, A4.
  + rewrite Hr, A8. by rewrite app_nil_r.
Qed.

Lemma move_guarantee runId t d d0 d1 d' : aux runId d d0 → moves runId t d0 d1 → end_kind (next t) = None →
  aux runId d1 d' → guarantee runId d d'.
Proof.
  intros Ha Hm Hk Hb.
  destruct Ha as [A1 A2 A3 A4 A5 (es & A6 & A7 & _) A8]. destruct Hb as [B1 B2 B3 B4 B5 (fs & B6 & B7 & _) B8].
  destruct (moves_views _ _ _ _ Hm) as (M1 & M2 & M3 & M4 & M5 & (gs & M6 & M7) & s & ev & g & M8 & M9 & M10).
  assert (Hr : run_end runId d d' = None).
  { unfold run_end. case_decide; [done|]. rewrite B2, M3. simpl. done. }
  split.
  + intros r Hne. by rewrite B1, M1, A1.
  + congruence.
  + right. exists s, ev, g, t. rewrite <-A2, B2. done.
  + exists (es ++ gs ++ fs). rewrite B6, M6, A6, !app_assoc. split; [done|]. unfold end_events in *.
    rewrite !map_app, !filter_app, A7, B7, M7, app_nil_r. simpl. case_decide as E.
    * rewrite B2, M3, <-A2, M8 in E. injection E as ->. by rewrite M10.
    * by rewrite B2, M3.
  + intros w Hw. rewrite B5, M4, A5; [done..|congruence].
  + intros w Hw. by rewrite Hr, B4, M4, A4.
  + rewrite Hr, B8, M5, A8. by rewrite app_nil_r.
Qed.

Lemma end_guarantee runId t k d d1 d2 d3 d' : moves runId t d d1 → aux runId d1 d2 → end_kind (next t) = Some k →
  settles runId k d2 d3 → aux runId d3 d' → guarantee runId d d'.
Proof.
  intros Hm Ha Hk Hs Hb.
  destruct Ha as [A1 A2 A3 A4 A5 (es & A6 & A7 & _) A8]. destruct Hb as [B1 B2 B3 B4 B5 (fs & B6 & B7 & _) B8].
  destruct (moves_views _ _ _ _ Hm) as (M1 & M2 & M3 & M4 & M5 & (gs & M6 & M7) & s & ev & g & M8 & M9 & M10).
  destruct (settles_views _ _ _ _ Hs) as (S1 & (hs & S2 & S3) & S4 & S5 & S6).
  assert (L3 : linked d3 runId = linked d2 runId) by (unfold linked; by rewrite S1).
  assert (T3 : run_status d3 runId = run_status d2 runId) by (unfold run_status; by rewrite S1).
  assert (Hst : run_status d' runId = Some (next t)) by congruence.
  assert (Hne : run_status d' runId ≠ run_status d runId).
  { rewrite Hst, M8. intros [= E]. apply (end_kind_terminal _ _ Hk). by rewrite E. }
  assert (Hr : run_end runId d d' = Some k) by (unfold run_end; rewrite decide_False by done; by rewrite Hst).
  assert (L2 : linked d2 runId = linked d runId) by congruence.
  split.
  + intros r Hr'. by rewrite B1, S1, A1, M1.
  + congruence.
  + right. exists s, ev, g, t. done.
  + exists (gs ++ es ++ hs ++ fs). rewrite B6, S2, A6, M6, !app_assoc. split; [done|]. unfold end_events in *.
    rewrite !map_app, !filter_app, A7, B7, M7, S3, !app_nil_r. by rewrite decide_False, Hst.
  + intros w Hw. rewrite B5, S4, A5, M4; [done|..]; congruence.
  + intros w Hw. rewrite Hr. rewrite <-L2 in Hw. destruct (S5 w Hw) as (row & R1 & R2 & R3).
    assert (Hc := A4 w). rewrite M4, R1 in Hc. simpl in Hc.
    destruct (workitems d !! w) as [row0|] eqn:Hl; [|done]. injection Hc as Hc1 Hc2.
    exists row0. rewrite <-Hc1. split_and!; [done..|]. rewrite B4, R3. simpl. unfold core, settled_row. simpl.
    by rewrite Hc2.
  + rewrite Hr, B8, S6, A8, M5. f_equal. unfold end_letters. rewrite L2. destruct k; try done.
    destruct (linked d runId) as [w|] eqn:Hw; [|done]. assert (Hc := A4 w). rewrite M4 in Hc.
    destruct (workitems d2 !! w), (workitems d !! w); try done. simpl in Hc. injection Hc as _ Hc. by rewrite Hc.
Qed.

Lemma shape_guarantee runId d d' : tx_shape runId d d' → guarantee runId d d'.
Proof.
  intros []; eauto using aux_guarantee, move_guarantee, end_guarantee.
Qed.
