(* ===== verification/DriverRuns.v ===== *)
(** * Runs of the driver

    The theorems about whole drives: each committed transaction keeps its
    guarantee, the reported state is the committed one, and a run that the
    driver works on alone is never left in an intermediate state.  They hold for
    every host: browser, ports and stores may answer or fail as they like. *)

From stdpp Require Import base strings list gmap pretty relations.
From Stdlib Require Import ZArith Lia.
From S2P Require Import Prelude StateMachine JsValue IrelSyntax StaticValidation RuntimeStore FlowControl JsText HumanTask ExtractMerge Interpreter InterpreterProps Translate Database Settlement Driver DriverProps.

(** ** Relations between worlds *)

Section Worlds.
Context {H : Type}.
Implicit Types w : World H.

(** Every computation of the driver relates the worlds before and after it, if
    its transactions and its calls of the host do. *)
Definition steps (R : relation (World H)) {A} (m : D H A) : Prop := ∀ w, R w (m w).1.

Context (R : relation (World H)) `{!PreOrder R}.
Context (R_host : ∀ w h, R w (mkWorld (w_db w) (w_env w) (w_log w) h)).

Lemma steps_bind {A B} (m : D H A) (k : A → D H B) : steps R m → (∀ a, steps R (k a)) → steps R (m ≫= k).
Proof.
  intros Hm Hk w. specialize (Hm w). unfold mbind, D_bind. destruct (m w) as [w' [a|e]]; [|exact Hm].
  etrans; [exact Hm|apply Hk].
Qed.
Lemma steps_ret {A} (a : A) : steps R (mret a).
Proof. intros w. simpl. reflexivity. Qed.
Lemma steps_throw {A} e : steps R (throw_error (A:=A) e).
Proof. intros w. simpl. reflexivity. Qed.
Lemma steps_from_result {E A} f (r : result E A) : steps R (from_result f r).
Proof. intros w. simpl. reflexivity. Qed.
Lemma steps_host {A} (f : H → H * result string A) : steps R (on_host f).
Proof. intros w. unfold on_host. destruct (f (w_host w)) as [h r]. apply R_host. Qed.
Lemma steps_try {A} (m : D H A) handler : steps R m → (∀ e, steps R (handler e)) → steps R (try_catch m handler).
Proof.
  intros Hm Hh w. specialize (Hm w). unfold try_catch. destruct (m w) as [w' [a|e]]; [exact Hm|].
  etrans; [exact Hm|apply Hh].
Qed.
End Worlds.

(** A transaction sees some tables, or the connection is lost. *)
Lemma withTenantTx_cases {H A} (body : Tx A) (w : World H) :
  (∃ d env, withTenantTx body w =
     match body d with
     | Ok (a, d') => (mkWorld d' env (w_log w ++ [(d, d')]) (w_host w), Ok a)
     | Err e => (mkWorld d env (w_log w) (w_host w), Err (X_db e))
     end) ∨
  ∃ env e, withTenantTx body w = (mkWorld (w_db w) env (w_log w) (w_host w), Err e).
Proof. unfold withTenantTx. destruct (w_env w) as [|[f|] env]; eauto. Qed.
#[export] Hint Resolve steps_bind steps_ret steps_throw steps_from_result steps_host steps_try : steps.

(** ** Drives *)

Section Drives.
Context {H : Type} (date_parse : string → option Z) (url_origin : string → option (string * string))
  (regexp_ok : string → bool) (uuid : nat → string) (host_code : string → option string)
  (run : ClaimedRun) (deps : DriveDeps H) (scenario_version : option (json * option CompiledScenarioAst)).
Notation runId := (cr_runId run).
Implicit Types w : World H.

(** The part up to the outcome of the scenario only reads the tables. *)
Section Reads.
Context (R : relation (World H)) `{!PreOrder R}.
Context (R_host : ∀ w h, R w (mkWorld (w_db w) (w_env w) (w_log w) h)).
Context (R_select : ∀ A (f : Db → A), steps R (withTenantTx (select f))).
Local Hint Resolve R_select : steps.

Lemma steps_interpret startNode scenario :
  steps R (interpret date_parse host_code run deps startNode scenario).
Proof using R_host R_select PreOrder0.
  unfold interpret. apply steps_try; [done| |auto with steps].
  apply steps_bind; [done|unfold resume_outputs; case_match; auto with steps|]. intros resume.
  apply steps_bind; [done| |auto with steps]. intros w. unfold interpretation.
  assert (Hr := runScenario_world date_parse scenario (interpreter_deps run deps startNode resume) R).
  ospecialize (Hr _ _ _ _ (initial_context run startNode scenario) w).
  - intros stepId a ctx w'. simpl. specialize (steps_host R R_host (dd_execute deps stepId a ctx) w') as Hs.
    by destruct (on_host _ w').
  - intros c ctx w'. simpl. specialize (steps_host R R_host (dd_verify deps c ctx) w') as Hs.
    by destruct (on_host _ w').
  - intros ctx w'. simpl. specialize (steps_host R R_host (dd_resolvePageState deps ctx) w') as Hs.
    by destruct (on_host _ w').
  - intros f ctx w' [= <-]. simpl. unfold readOperatorPauseRequest. set (q := select _).
    assert (Hs : steps R (withTenantTx q)) by apply R_select. specialize (Hs w'). by destruct (withTenantTx q w').
  - by destruct (runScenario _ _ _ _ _).
Qed.

Lemma steps_drive_body startNode policy scenario :
  steps R (drive_body date_parse host_code run deps startNode policy scenario).
Proof using R_host R_select PreOrder0.
  intros w. unfold drive_body. set (recorder := match policy with Some _ => _ | None => _ end).
  set (start := match recorder, policy with Some rec, Some p => on_host (vr_startRunVideo rec p) w | _, _ => (w, Ok tt) end).
  assert (H1 : R w start.1).
  { subst start. destruct recorder, policy; try reflexivity. by apply steps_host. }
  destruct start as [w1 [u|e]]; [|exact H1]. simpl in H1.
  assert (H2 := steps_interpret startNode scenario w1).
  destruct (interpret _ _ _ _ _ _ w1) as [w2 [[o throwReason]|e]]; simpl in *; [|by etrans].
  etrans; [exact H1|]. etrans; [exact H2|].
  apply (steps_try R).
  - apply steps_bind; [done| |].
    { unfold appendMergedExtractArtifact. repeat case_match; auto with steps. }
    intros o1. apply steps_bind; [done| |auto with steps].
    unfold appendRunVideoArtifact. repeat case_match; auto with steps.
  - intros e. apply steps_bind; [done| |auto with steps]. case_match; auto with steps.
Qed.

Lemma steps_restore : steps R (restore_session deps).
Proof using R_host PreOrder0.
  unfold restore_session. case_match; [|auto with steps].
  apply steps_bind; [done|auto with steps|]. intros _. apply steps_bind; [done|auto with steps|].
  intros bundle. repeat case_match; auto with steps.
Qed.

Lemma steps_capture : steps R (capture_session deps).
Proof using R_host PreOrder0. unfold capture_session. case_match; auto with steps. Qed.
End Reads.

Section Steps.
Context (R : relation (World H)) `{!PreOrder R}.
Context (R_host : ∀ w h, R w (mkWorld (w_db w) (w_env w) (w_log w) h)).
Context (R_tx : ∀ A (body : Tx A), shaped run body → steps R (withTenantTx body)).

Lemma steps_select {A} (f : Db → A) : steps R (withTenantTx (select f)).
Proof. apply R_tx, shaped_aux, auxiliary_select. Qed.

Lemma fits_settle k s (after : Tx ()) : end_kind s = Some k → auxiliary runId after →
  fits runId s (_ ← settle run k; after).
Proof. intros Hk Ha. unfold fits. rewrite Hk. by apply ending_settle. Qed.
Lemma fits_reason k s reason (after : Tx ()) : end_kind s = Some k → auxiliary runId after →
  fits runId s (_ ← record_failure_reason run reason; _ ← settle run k; after).
Proof. intros Hk Ha. unfold fits. rewrite Hk. apply ending_bind; [auto with aux|]. intros _. by apply ending_settle. Qed.

Lemma steps_transition from ev g wk after :
  (∀ t, transitionRun from ev g = Ok t → fits runId (next t) after) →
  steps R (transition run from ev g wk after).
Proof using R_tx. intros Hf. by apply R_tx, shaped_transition. Qed.

Lemma steps_fail o : steps R (failRunningRun run deps o).
Proof using R_tx.
  apply steps_transition. intros t [= <-]. simpl. apply fits_settle; [done|]. unfold enqueue. auto with aux.
Qed.

Lemma steps_suspend o : steps R (driveSuspend uuid run deps o).
Proof using R_host R_tx PreOrder0.
  unfold driveSuspend, driveOperatorPause, issue_token, resolveSuspendKeyAttempt.
  destruct (oc_suspend o) as [s|]; [|auto with steps]. destruct (dd_resumeTokenCodec deps) as [codec|]; [|destruct s; auto with steps].
  destruct s as [b k|b n i|b p]; try (case_match; [auto with steps|]).
  1,2: apply steps_bind; [done|apply steps_select|]; intros key;
    apply steps_bind; [done|apply R_tx, shaped_suspend|]; intros _;
    apply steps_bind; [done|auto with steps|]; intros token;
    apply steps_bind; [done|apply R_tx, shaped_bookmark; auto with aux|auto with steps].
  apply steps_bind; [done|apply R_tx, shaped_operator_pause|]. intros _.
  apply steps_bind; [done|auto with steps|]. intros token.
  apply steps_bind; [done| |auto with steps]. apply R_tx, shaped_bookmark. auto with aux.
Qed.

Lemma steps_finish o reason : steps R (finish uuid run deps o reason).
Proof using R_host R_tx PreOrder0.
  unfold finish. repeat case_decide.
  - apply steps_bind; [done|apply steps_transition; intros t [= <-]; simpl; apply auxiliary_ret|]. intros _.
    apply steps_bind; [done|apply steps_transition; intros t [= <-]; by apply fits_settle; [|apply auxiliary_enqueue]|].
    intros _. apply steps_bind; [done|by apply steps_capture|auto with steps].
  - apply steps_bind; [done| |auto with steps].
    apply steps_transition; intros t [= <-]. by apply fits_reason; [|apply auxiliary_enqueue].
  - apply steps_bind; [done| |auto with steps].
    apply steps_transition; intros t [= <-]. by apply fits_reason; [|apply auxiliary_enqueue].
  - apply steps_bind; [done| |].
    { apply steps_transition; intros t [= <-]. unfold fits, enqueue. simpl. auto with aux. }
    intros _. apply steps_bind; [done| |auto with steps].
    apply steps_transition; intros t Ht. injection Ht as <-. unfold fits. simpl. auto with aux.
  - apply steps_suspend.
  - auto with steps.
Qed.

Abbreviation driver_failsafe :=
  (driveScenarioWithSystemFailsafe date_parse url_origin regexp_ok uuid host_code run deps scenario_version).

Lemma steps_driveScenario startNode :
  steps R (driveScenario date_parse url_origin regexp_ok uuid host_code run deps scenario_version startNode).
Proof using R_host R_tx PreOrder0.
  unfold driveScenario. apply steps_bind; [done|apply steps_select|]. intros [[ir ast]|]; [|auto with steps].
  apply steps_bind; [done|auto with steps|]. intros scenario.
  destruct (match videoPolicyFromIr ir with Some _ => _ | None => false end).
  { apply steps_bind; [done|apply steps_fail|auto with steps]. }
  destruct (_ && negb _).
  { apply steps_bind; [done|apply steps_fail|auto with steps]. }
  apply steps_bind; [done|by apply steps_restore|].
  intros _. apply steps_bind; [done|apply steps_drive_body; [done|done|]; intros; apply steps_select|]. intros [o reason]. apply steps_finish.
Qed.

Lemma steps_failsafe startNode : steps R (driver_failsafe startNode).
Proof using R_host R_tx PreOrder0.
  apply steps_try; [done|apply steps_driveScenario|]. intros e.
  apply steps_bind; [done|apply steps_try; [done|apply R_tx, shaped_terminalize|auto with steps]|].
  intros []; auto with steps.
Qed.

Lemma steps_claimed :
  steps R (driveClaimedRun date_parse url_origin regexp_ok uuid host_code run deps scenario_version).
Proof using R_host R_tx PreOrder0.
  apply steps_bind; [done| |intros _; apply steps_failsafe].
  apply steps_transition. intros t [= <-]. apply auxiliary_ret.
Qed.
End Steps.

(** ** Committed transactions *)

Definition logged w w' : Prop := ∃ l, w_log w' = w_log w ++ l ∧ Forall (λ p, guarantee runId p.1 p.2) l.

#[local] Instance logged_preorder : PreOrder logged.
Proof.
  split.
  - intros w. exists []. by rewrite app_nil_r.
  - intros w1 w2 w3 (l & E1 & F1) (l' & E2 & F2). exists (l ++ l'). rewrite E2, E1, app_assoc.
    split; [done|]. by apply Forall_app.
Qed.

Lemma logged_tx A (body : Tx A) : shaped run body → steps logged (withTenantTx body).
Proof.
  intros Hb w. destruct (withTenantTx_cases body w) as [(d & env & ->)|(env & e & ->)].
  - destruct (body d) as [[a d']|e] eqn:E; simpl.
    + exists [(d, d')]. split; [done|]. apply Forall_singleton. by apply shape_guarantee, (Hb d a d').
    + exists []. by rewrite app_nil_r.
  - exists []. by rewrite app_nil_r.
Qed.


(** ** The reported state *)

Definition extends w w' : Prop := ∃ l, w_log w' = w_log w ++ l.
#[local] Instance extends_preorder : PreOrder extends.
Proof.
  split.
  - intros w. exists []. by rewrite app_nil_r.
  - intros w1 w2 w3 (l & E1) (l' & E2). exists (l ++ l'). by rewrite E2, E1, app_assoc.
Qed.
Lemma extends_host w h : extends w (mkWorld (w_db w) (w_env w) (w_log w) h).
Proof. exists []. by rewrite app_nil_r. Qed.
Lemma extends_tx A (body : Tx A) : shaped run body → steps extends (withTenantTx body).
Proof. intros Hb w. destruct (logged_tx A body Hb w) as (l & E & _). by exists l. Qed.

(** A returned result reports the state the last committed transaction left. *)
Definition honest (m : D H DriveResult) : Prop := ∀ w w' res, m w = (w', Ok res) →
  ∃ l d d', w_log w' = w_log w ++ l ++ [(d, d')] ∧ run_status d' runId = Some (dr_state res).

(** A body that leaves the run in a state. *)
Definition lands {A} (s : RunState) (body : Tx A) : Prop := ∀ d, wpt body d (λ _ d', run_status d' runId = Some s).

(** What follows the last transaction. *)
Definition closing (s : RunState) (m : D H DriveResult) : Prop := ∀ w w' res, m w = (w', Ok res) →
  w_log w' = w_log w ∧ dr_state res = s.

Lemma honest_bind {A} (m : D H A) k : steps extends m → (∀ a, honest (k a)) → honest (m ≫= k).
Proof.
  intros Hm Hk w w' res. unfold mbind, D_bind. destruct (Hm w) as [l Hl]. destruct (m w) as [w1 [a|e]]; [|done].
  intros Hr. destruct (Hk a _ _ _ Hr) as (l' & d & d' & E & Hs). exists (l ++ l'), d, d'. simpl in Hl.
  by rewrite E, Hl, !app_assoc.
Qed.
Lemma honest_throw e : honest (throw_error e).
Proof. by intros w w' res. Qed.

Lemma honest_tx {A} s (body : Tx A) k : lands s body → (∀ a, closing s (k a)) → honest (a ← withTenantTx body; k a).
Proof.
  intros Hb Hk w w' res. unfold mbind, D_bind.
  destruct (withTenantTx_cases body w) as [(d & env & ->)|(env & e & ->)]; [|done].
  destruct (body d) as [[a d']|e] eqn:E; [|done]. intros [H1 H2]%Hk. simpl in H1.
  exists [], d, d'. rewrite H1, H2. split; [done|]. by eapply Hb.
Qed.

Lemma closing_ret s o : closing s (mret (mkDriveResult s o)).
Proof. by intros w w' res [= <- <-]. Qed.

Lemma closing_capture s o : closing s (_ ← capture_session deps; mret (mkDriveResult s o)).
Proof.
  intros w w' res. unfold mbind, D_bind.
  assert (Hc : w_log (capture_session deps w).1 = w_log w).
  { assert (Hp : PreOrder (λ w w' : World H, w_log w' = w_log w)).
    { split; [by intros ?|]. intros ? ? ? E1 E2. by rewrite E2. }
    exact (steps_capture (λ w w', w_log w' = w_log w) (λ w h, eq_refl) w). }
  destruct (capture_session deps w) as [w1 [u|e]]; [|done]. intros [= <- <-]. done.
Qed.

Lemma fits_status {A} s (m : Tx A) d : fits runId s m → wpt m d (λ _ d', run_status d' runId = run_status d runId).
Proof.
  unfold fits. destruct (end_kind s) as [k|]; intros Hf; (eapply wpt_mono; [apply Hf|]); simpl.
  - intros a d' (d1 & d2 & [_ A1 _ _ _ _ _] & Hs & [_ A2 _ _ _ _ _]).
    apply settles_views in Hs as (S1 & _). rewrite A2. unfold run_status in *. by rewrite S1.
  - by intros a d' [_ A1 _ _ _ _ _].
Qed.

Lemma lands_transition s from ev g wk after :
  (∀ t, transitionRun from ev g = Ok t → next t = s ∧ fits runId s after) →
  lands s (transition_tx run from ev g wk after).
Proof.
  intros Hf d. unfold transition_tx. apply wpt_bind. eapply wpt_mono; [by apply (apply_moves runId)|]. simpl.
  intros [st es pending|obs] d1 H1; simpl; apply wpt_bind; [|apply wpt_raise].
  destruct H1 as (t & <- & -> & Hm & Ht). apply wpt_ret. destruct (Hf t Ht) as [<- Hfit].
  eapply wpt_mono; [by apply (fits_status (next t))|]. simpl. intros a d' ->. by apply moves_views in Hm as (_ & _ & ? & _).
Qed.

Lemma lands_bookmark {A} key token (after : Tx A) : auxiliary runId after →
  lands run_suspended (_ ← bookmark_saved_tx run key token; after).
Proof.
  intros Ha d. apply wpt_bind. unfold bookmark_saved_tx. apply wpt_bind. intros n d0 _.
  apply wpt_bind. intros u d1 _. apply wpt_bind. eapply wpt_mono; [by apply (apply_moves runId)|]. simpl.
  intros [st es pending|obs] d2 H2; simpl; apply wpt_bind; [|apply wpt_raise].
  destruct H2 as (t & <- & -> & Hm & Ht). injection Ht as <-. apply wpt_ret, wpt_ret.
  eapply wpt_mono; [apply Ha|]. simpl. intros a d' [_ -> _ _ _ _ _]. by apply moves_views in Hm as (_ & _ & ? & _).
Qed.

Lemma terminalize_lands reason d :
  wpt (terminalize_tx run reason) d (λ b d', b = true → run_status d' runId = Some run_failed_system).
Proof.
  unfold terminalize_tx. apply wpt_bind, wpt_select.
  destruct (runs d !! runId) as [row|]; [|by apply wpt_ret].
  destruct (stuck_event (r_status row)) as [[ev g]|] eqn:Es; [|by apply wpt_ret].
  apply wpt_bind. eapply wpt_mono; [by apply (apply_moves runId)|]. simpl.
  intros [st es pending|obs] d1 H1; simpl; [|by apply wpt_ret].
  destruct H1 as (t & <- & -> & Hm & Ht).
  assert (Hn : next t = run_failed_system).
  { destruct (r_status row); try done; injection Es as <- <-; simpl in Ht; by injection Ht as <-. }
  eapply wpt_mono; [apply (fits_status run_failed_system)|].
  - unfold fits. simpl. apply ending_bind; [auto with aux|]. intros _.
    apply ending_settle. intros _. apply auxiliary_bind; auto with aux.
  - simpl. intros b d' -> _. rewrite <-Hn. by apply moves_views in Hm as (_ & _ & ? & _).
Qed.

Lemma honest_finish o reason : honest (finish uuid run deps o reason).
Proof.
  unfold finish, transition. repeat case_decide.
  - apply honest_bind.
    { apply extends_tx, shaped_transition. intros t [= <-]. apply auxiliary_ret. }
    intros _. apply (honest_tx run_completed); [|intros _; apply closing_capture].
    apply lands_transition. intros t [= <-]. split; [done|]. by apply fits_settle; [|apply auxiliary_enqueue].
  - apply (honest_tx run_failed_business); [|intros _; apply closing_ret].
    apply lands_transition. intros t [= <-]. split; [done|]. by apply fits_reason; [|apply auxiliary_enqueue].
  - apply (honest_tx run_failed_system); [|intros _; apply closing_ret].
    apply lands_transition. intros t [= <-]. split; [done|]. by apply fits_reason; [|apply auxiliary_enqueue].
  - apply honest_bind.
    { apply extends_tx, shaped_transition. intros t [= <-]. unfold fits, enqueue. simpl. auto with aux. }
    intros _. apply (honest_tx run_cancelled); [|intros _; apply closing_ret].
    apply lands_transition. intros t [= <-]. split; [done|]. unfold fits. simpl. auto with aux.
  - unfold driveSuspend, driveOperatorPause, issue_token, resolveSuspendKeyAttempt.
    assert (He := extends_host). assert (Ht := extends_tx).
    destruct (oc_suspend o) as [s|]; [|apply honest_throw].
    destruct (dd_resumeTokenCodec deps) as [codec|]; [|destruct s; apply honest_throw].
    destruct s as [b k|b n i|b p]; try (case_match; [apply honest_throw|]).
    1,2: apply honest_bind; [apply Ht, shaped_aux, auxiliary_select|]; intros key;
      apply honest_bind; [apply Ht, shaped_suspend|]; intros _;
      apply honest_bind; [by apply steps_host|]; intros token;
      apply (honest_tx run_suspended); [apply lands_bookmark; auto with aux|intros _; apply closing_ret].
    apply honest_bind; [apply Ht, shaped_operator_pause|]. intros _.
    apply honest_bind; [by apply steps_host|]. intros token.
    apply (honest_tx run_suspended); [apply lands_bookmark; auto with aux|intros _; apply closing_ret].
  - apply honest_throw.
Qed.

Lemma honest_fail : honest (_ ← failRunningRun run deps systemFailureOutcome;
                            mret (mkDriveResult run_failed_system systemFailureOutcome)).
Proof.
  apply (honest_tx run_failed_system); [|intros _; apply closing_ret].
  apply lands_transition. intros t [= <-]. split; [done|]. by apply fits_settle; [|apply auxiliary_enqueue].
Qed.

Lemma honest_driveScenario startNode :
  honest (driveScenario date_parse url_origin regexp_ok uuid host_code run deps scenario_version startNode).
Proof.
  unfold driveScenario. apply honest_bind; [apply extends_tx, shaped_aux, auxiliary_select|].
  intros [[ir ast]|]; [|apply honest_throw]. apply honest_bind; [auto with steps typeclass_instances|]. intros scenario.
  destruct (match videoPolicyFromIr ir with Some _ => _ | None => false end); [apply honest_fail|].
  destruct (_ && negb _); [apply honest_fail|].
  apply honest_bind; [apply steps_restore; [apply _|apply extends_host]|]. intros _.
  apply honest_bind; [apply steps_drive_body; [apply _|apply extends_host|]; intros; apply extends_tx, shaped_aux, auxiliary_select|].
  intros [o reason]. apply honest_finish.
Qed.

Lemma honest_failsafe startNode :
  honest (driveScenarioWithSystemFailsafe date_parse url_origin regexp_ok uuid host_code run deps scenario_version
            startNode).
Proof.
  intros w w' res. unfold driveScenarioWithSystemFailsafe, try_catch at 1.
  assert (Hs := honest_driveScenario startNode w).
  destruct (steps_driveScenario extends extends_host extends_tx startNode w) as [l Hl].
  destruct (driveScenario _ _ _ _ _ _ _ _ _ w) as [w1 [res1|e]]; [by intros [= <- <-]; apply Hs|].
  clear Hs. simpl in Hl. unfold mbind, D_bind, terminalizeStuckRunAsSystemFailure, try_catch.
  set (body := terminalize_tx run _). assert (Hb := terminalize_lands (Some (classifiedFailureReason host_code e))).
  fold body in Hb. destruct (withTenantTx_cases body w1) as [(d & env & ->)|(env & e' & ->)]; [|done].
  destruct (body d) as [[[] d']|e'] eqn:E; [|done|done]. intros [= <- <-]. simpl.
  exists l, d, d'. rewrite Hl, app_assoc. split; [done|]. by eapply Hb.
Qed.

(** The driver tells the truth: when a drive returns a result, under any
    interference, the last transaction it committed left the run in the state
    the result reports. *)
Theorem drive_result_committed w w' res resumeNodeId :
  driveClaimedRun date_parse url_origin regexp_ok uuid host_code run deps scenario_version w = (w', Ok res) ∨
  driveResumedRun date_parse url_origin regexp_ok uuid host_code run deps scenario_version resumeNodeId w =
    (w', Ok res) →
  ∃ l d d', w_log w' = w_log w ++ l ++ [(d, d')] ∧ run_status d' runId = Some (dr_state res).
Proof.
  intros [Hr|Hr]; [|by apply (honest_failsafe (Some resumeNodeId))].
  unfold driveClaimedRun in Hr. revert Hr. apply honest_bind; [|intros ?; apply honest_failsafe].
  apply extends_tx, shaped_transition. intros t [= <-]. apply auxiliary_ret.
Qed.
End Drives.
