(* ===== verification/DriverEnds.v ===== *)
(** * Runs are not left behind

    A run the driver works on, and whose row, workitem and end-of-run event
    keys the other users of the database leave alone, reaches an end or a
    suspension whatever the host does: what the normal path cannot finish, the
    fallback turns into a system failure. *)

From stdpp Require Import base strings list gmap pretty relations.
From Stdlib Require Import ZArith Lia.
From S2P Require Import Prelude StateMachine JsValue IrelSyntax StaticValidation RuntimeStore FlowControl JsText HumanTask ExtractMerge Interpreter Translate Database Settlement Driver DriverProps DriverRuns.

(** ** Transactions that succeed *)

(** A transition that needs no worker and whose events can be written. *)
Lemma applyRunTransition_total ctx d row t : runs d !! rt_runId ctx = Some row →
  r_status row = rt_fromStatus ctx →
  transitionRun (rt_fromStatus ctx) (rt_event ctx) (rt_guard ctx) = Ok t →
  hasSetField e_run "worker_id" (sideEffects t) = false →
  (∃ ev, emitted_events (sideEffects t) = [ev] ∧ starts_with "step." (EventEnvelopeType_str ev) = false ∧
     key_free (outbox_key (default (rt_runId ctx) (rt_eventIdempotencyKey ctx)) ev) d) →
  ∃ es d', applyRunTransition ctx d = Ok (Applied (next t) es (run_pending (sideEffects t)), d').
Proof.
  intros Hl Hs Ht Hw (ev & He & Hst & Hk). unfold applyRunTransition. rewrite Ht.
  unfold mbind, Tx_bind at 1, from_transition. simpl. rewrite Hw. simpl.
  unfold Tx_bind at 1, select. rewrite Hl. rewrite decide_True by done. unfold Tx_bind at 1, update.
  set (d1 := set_runs _ _). rewrite He. cbn [emitAll].
  destruct (emitOutboxEvent_free ev (rt_correlationId ctx) (Some (rt_runId ctx)) None
    (outbox_key (default (rt_runId ctx) (rt_eventIdempotencyKey ctx)) ev) (rt_occurredAt ctx) d1 Hst Hk)
    as (o & Ho & _ & _).
  unfold mbind, Tx_bind. rewrite Ho. eauto.
Qed.

Section Ends.
Context (run : ClaimedRun).
Notation runId := (cr_runId run).

(** The outbox keys with which a run can end. *)
Definition end_keys : list string :=
  [outbox_key (runId +:+ ":unrecoverable_exception") run_failed_system_e;
   outbox_key (runId +:+ ":finalize_failed") run_failed_system_e;
   outbox_key (runId +:+ ":bookmark_failed") run_failed_system_e;
   outbox_key (runId +:+ ":drain_ok") run_cancelled_e;
   outbox_key (runId +:+ ":workitem-system") workitem_dead_lettered_e].

(** The run is in a state, its workitem, if any, is being processed, and its
    end has not been announced. *)
Record ready (s : RunState) (d : Db) : Prop := {
  rd_status : run_status d runId = Some s;
  rd_workitem : ∀ wid, linked d runId = Some wid →
    ∃ row, workitems d !! wid = Some row ∧ w_status row = wi_processing;
  rd_keys : ∀ k, k ∈ end_keys → key_free k d
}.

Lemma ready_aux s d d' : ready s d → aux runId d d' → ready s d'.
Proof.
  intros [R1 R2 R3] [A1 A2 A3 A4 A5 (es & A6 & A7 & A8) A9]. split.
  - by rewrite A2.
  - intros wid. rewrite A3. intros (row & Hl & Hs)%R2. specialize (A4 wid). rewrite Hl in A4. simpl in A4.
    destruct (workitems d' !! wid) as [row'|]; [|done]. injection A4 as Hc _. exists row'. by rewrite Hc.
  - intros k Hk o. rewrite A6. intros [Ho|Ho]%elem_of_app; [by eapply R3|].
    intros Hkey. destruct (A8 o Ho) as [a Ha]. rewrite Hkey in Ha.
    unfold end_keys in Hk. repeat (apply elem_of_cons in Hk as [->|Hk]; [by apply outbox_key_inj in Ha|]). set_solver.
Qed.

(** A transition that does not announce an end. *)
Definition opening (evs : list EventEnvelopeType) : bool :=
  forallb (λ ev, negb (bool_decide (ev ∈ [run_failed_system_e; run_cancelled_e; workitem_dead_lettered_e]))) evs.

Lemma ready_moves s t d d' : ready s d → moves runId t d d' → opening (emitted_events (sideEffects t)) = true →
  ready (next t) d'.
Proof.
  intros [R1 R2 R3] Hm He. destruct (moves_views _ _ _ _ Hm) as (_ & M2 & M3 & M4 & _).
  destruct Hm as (s' & ev & g & row & row' & es & _ & _ & _ & _ & _ & _ & Hkeys & ->). split; [done| |].
  - intros wid. rewrite M2, M4. apply R2.
  - intros k Hk. apply key_free_add; [by apply R3|]. intros o (a & ev' & -> & Hin)%Hkeys.
    apply list_elem_of_In in Hin. unfold opening in He. rewrite forallb_forall in He. apply He in Hin.
    apply negb_true_iff, bool_decide_eq_false in Hin. unfold end_keys in Hk. intros Heq. subst k.
    repeat (apply elem_of_cons in Hk as [Hk|Hk]; [apply outbox_key_inj in Hk; set_solver|]). set_solver.
Qed.

(** The part of [ready] a settlement needs, which the end of the run keeps. *)
Record settleable (d : Db) : Prop := {
  sb_workitem : ∀ wid, linked d runId = Some wid →
    ∃ row, workitems d !! wid = Some row ∧ w_status row = wi_processing;
  sb_key : key_free (outbox_key (runId +:+ ":workitem-system") workitem_dead_lettered_e) d
}.

Lemma ready_settleable s d : ready s d → settleable d.
Proof. intros [R1 R2 R3]. split; [done|]. apply R3. unfold end_keys. set_solver. Qed.

Lemma settleable_aux d d' : settleable d → aux runId d d' → settleable d'.
Proof.
  intros [S1 S2] [A1 A2 A3 A4 A5 (es & A6 & A7 & A8) A9]. split.
  - intros wid. rewrite A3. intros (row & Hl & Hs)%S1. specialize (A4 wid). rewrite Hl in A4. simpl in A4.
    destruct (workitems d' !! wid) as [row'|]; [|done]. injection A4 as Hc _. exists row'. by rewrite Hc.
  - intros o. rewrite A6. intros [Ho|Ho]%elem_of_app; [by apply S2|].
    destruct (A8 o Ho) as [a ->]. by intros ?%outbox_key_inj.
Qed.

Lemma settleable_moves t d d' : settleable d → moves runId t d d' →
  workitem_dead_lettered_e ∉ emitted_events (sideEffects t) → settleable d'.
Proof.
  intros [S1 S2] Hm He. destruct (moves_views _ _ _ _ Hm) as (_ & M2 & M3 & M4 & _).
  destruct Hm as (s' & ev & g & row & row' & es & _ & _ & _ & _ & _ & _ & Hkeys & ->). split.
  - intros wid. rewrite M2, M4. apply S1.
  - apply key_free_add; [done|]. intros o (a & ev' & -> & Hin)%Hkeys. by intros ->%outbox_key_inj.
Qed.

Lemma settle_settleable d : settleable d → ∃ d', settle run rk_system d = Ok (tt, d').
Proof.
  intros [R2 R3]. unfold settle, settleLinkedWorkitemFromRun, mbind, Tx_bind at 1.
  change (resolveLinkedWorkitemId runId d) with (Ok (linked d runId, d) : result DbError _).
  destruct (linked d runId) as [wid|] eqn:Hw; [|eexists; reflexivity].
  destruct (R2 wid eq_refl) as (row & Hl & Hs). set (input := mkSettlement _ _ _ _ _ _ _ _).
  destruct (settle_total input wid row d) as (es & _ & Hset); [done|done|done| |].
  - intros ev Hev. simpl in Hev. case_decide; simpl in Hev; [set_solver|].
    by apply list_elem_of_singleton in Hev as ->.
  - unfold Tx_bind. rewrite Hset. eauto.
Qed.

Lemma reason_total reason d : ∃ d', record_failure_reason run reason d = Ok (tt, d') ∧ aux runId d d'.
Proof.
  assert (∃ d', record_failure_reason run reason d = Ok (tt, d')) as [d' E].
  { destruct reason as [code|]; [|eexists; reflexivity]. simpl. unfold mbind, Tx_bind, set_run.
    destruct (runs d !! runId); eauto. }
  exists d'. split; [done|]. by eapply auxiliary_reason.
Qed.

(** The state, event and guard of the fallback. *)
Lemma stuck_transition s ev g : s ∈ [run_running; run_completing; run_suspending] →
  stuck_event s = Some (ev, g) →
  ∃ t, transitionRun s ev g = Ok t ∧ next t = run_failed_system ∧ emitted_events (sideEffects t) = [run_failed_system_e] ∧
    hasSetField e_run "worker_id" (sideEffects t) = false ∧
    outbox_key (runId +:+ ":" +:+ RunEvent_type ev) run_failed_system_e ∈ end_keys.
Proof.
  intros Hs Hev. unfold end_keys.
  repeat (apply elem_of_cons in Hs as [->|Hs]); [| | |set_solver]; injection Hev as <- <-;
    eexists; (split; [reflexivity|]); split_and!; try reflexivity; set_solver.
Qed.

Lemma terminalize_total reason s d : ready s d → s ∈ [run_running; run_completing; run_suspending] →
  ∃ d', terminalize_tx run reason d = Ok (true, d').
Proof.
  intros Hr Hs. destruct (stuck_event s) as [[ev g]|] eqn:Es.
  2:{ repeat (apply elem_of_cons in Hs as [->|Hs]); [done..|set_solver]. }
  destruct (stuck_transition s ev g Hs Es) as (t & Ht & Hn & He & Hw & Hk).
  assert (R1 := rd_status _ _ Hr). unfold run_status in R1.
  destruct (runs d !! runId) as [row|] eqn:Hl; [|done]. injection R1 as R1.
  unfold terminalize_tx, mbind, Tx_bind at 1, select. rewrite Hl, R1, Es.
  set (ctx := mkRunCtx _ _ _ _ _ _ _ _).
  destruct (applyRunTransition_total ctx d row t Hl R1 Ht Hw) as (es & d1 & E1).
  { exists run_failed_system_e. split_and!; [done|done|]. by apply (rd_keys _ _ Hr). }
  unfold Tx_bind at 1. rewrite E1.
  destruct (apply_moves runId ctx d eq_refl _ _ E1) as (t' & Hn' & _ & Hm & Ht').
  simpl in Ht'. rewrite Ht in Ht'. injection Ht' as <-.
  destruct (reason_total reason d1) as (d2 & E2 & A2). unfold Tx_bind at 1. rewrite E2.
  destruct (settle_settleable d2) as [d3 E3].
  { eapply settleable_aux; [|exact A2]. eapply settleable_moves; [by eapply ready_settleable|exact Hm|].
    rewrite He. set_solver. }
  unfold Tx_bind at 1. rewrite E3.
  destruct (cancelLinked_Ok runId (cr_correlationId run) d3) as [ts E4]. unfold Tx_bind. rewrite E4. by eexists.
Qed.

Lemma drain_total d : ready run_aborting d →
  ∃ d', transition_tx run run_aborting ev_drain_ok run_guard_empty None
          (_ ← unpauseLinkedWorkitemForRunAbort runId;
           cancelLinkedHumanTasksForRunTerminal runId (cr_correlationId run)) d = Ok (tt, d').
Proof.
  intros Hr. assert (R1 := rd_status _ _ Hr). unfold run_status in R1.
  destruct (runs d !! runId) as [row|] eqn:Hl; [|done]. injection R1 as R1.
  unfold transition_tx, mbind, Tx_bind at 1. set (ctx := mkRunCtx _ _ _ _ _ _ _ _).
  destruct (applyRunTransition_total ctx d row _ Hl R1 eq_refl eq_refl) as (es & d1 & E1).
  { exists run_cancelled_e. split_and!; [done|done|]. apply (rd_keys _ _ Hr). unfold end_keys. set_solver. }
  rewrite E1. unfold Tx_bind at 1. simpl. unfold Tx_bind.
  assert (∃ d2, unpauseLinkedWorkitemForRunAbort runId d1 = Ok (tt, d2)) as [d2 E2].
  { unfold unpauseLinkedWorkitemForRunAbort, mbind, Tx_bind, resolveLinkedWorkitemId, select.
    case_match; eexists; reflexivity. }
  rewrite E2. destruct (cancelLinked_Ok runId (cr_correlationId run) d2) as [ts ->]. by eexists.
Qed.

(** ** Rely *)

(** The other users of the database leave the run ready, and the connection
    holds. *)
Definition rely (i : Interference) : Prop :=
  match i with
  | Outage => False
  | Interfere f => ∀ s d, ready s d → ready s (f d)
  end.

Definition calm {H} (s : RunState) (w : World H) : Prop := ready s (w_db w) ∧ Forall rely (w_env w).

Lemma calm_tx {H A} s (body : Tx A) (w : World H) : calm s w →
  ∃ d env, ready s d ∧ Forall rely env ∧
    withTenantTx body w =
    match body d with
    | Ok (a, d') => (mkWorld d' env (w_log w ++ [(d, d')]) (w_host w), Ok a)
    | Err e => (mkWorld d env (w_log w) (w_host w), Err (X_db e))
    end.
Proof.
  intros [Hr He]. unfold withTenantTx. destruct (w_env w) as [|[f|] env]; [by exists (w_db w), []| |].
  - inversion He as [|? ? Hf Henv]; subst. exists (f (w_db w)), env. auto.
  - by inversion He.
Qed.

(** Reading keeps the run ready. *)
Definition undisturbed {H} (w w' : World H) : Prop := ∀ s, calm s w → calm s w'.
#[local] Instance undisturbed_preorder {H} : PreOrder (@undisturbed H).
Proof. split; unfold undisturbed; [by intros ? ?|]. intros ? ? ? H1 H2 s Hs. auto. Qed.
Lemma undisturbed_host {H} (w : World H) h : undisturbed w (mkWorld (w_db w) (w_env w) (w_log w) h).
Proof. by intros s Hs. Qed.
Lemma undisturbed_select {H} A (f : Db → A) : steps (@undisturbed H) (withTenantTx (select f)).
Proof. intros w s Hs. destruct (calm_tx s (select f) w Hs) as (d & env & Hr & He & ->). done. Qed.

(** ** Ends of drives *)

Definition END_STATES : list RunState :=
  [run_completed; run_failed_business; run_failed_system; run_cancelled; run_suspended].
Definition STUCK_STATES : list RunState := [run_running; run_completing; run_suspending].

Definition ends {H} (p : World H * result Exn DriveResult) : Prop :=
  match p with
  | (w, Ok res) => run_status (w_db w) runId = Some (dr_state res) ∧ dr_state res ∈ END_STATES
  | (w, Err _) => ∃ s, s ∈ STUCK_STATES ∧ calm s w
  end.

(** The last transaction of a drive: it leaves the run in an end state, or
    fails and leaves it where it was. *)
Lemma ends_tx {H A} s s' (body : Tx A) (k : A → D H DriveResult) w : calm s w → s ∈ STUCK_STATES →
  s' ∈ END_STATES → lands run s' body →
  (∀ a w, w_db (k a w).1 = w_db w ∧ ∃ o, (k a w).2 = Ok (mkDriveResult s' o)) →
  ends ((a ← withTenantTx body; k a) w).
Proof.
  intros Hc Hs Hs' Hl Hk. unfold mbind, D_bind. destruct (calm_tx s body w Hc) as (d & env & Hr & He & ->).
  destruct (body d) as [[a d']|e] eqn:E; [|by exists s].
  destruct (Hk a (mkWorld d' env (w_log w ++ [(d, d')]) (w_host w))) as [H1 [o H2]].
  destruct (k a _) as [w' r]. simpl in *. subst r. rewrite H1. split; [|done]. by eapply Hl.
Qed.

(** A transaction that moves the run to another state on the way. *)
Lemma calm_move {H A} s s' (body : Tx A) (k : A → D H DriveResult) w : calm s w → s ∈ STUCK_STATES →
  (∀ d, ready s d → wpt body d (λ _ d', ready s' d')) →
  (∀ a w, calm s' w → ends (k a w)) → ends ((a ← withTenantTx body; k a) w).
Proof.
  intros Hc Hs Hb Hk. unfold mbind, D_bind. destruct (calm_tx s body w Hc) as (d & env & Hr & He & ->).
  destruct (body d) as [[a d']|e] eqn:E; [|by exists s]. apply Hk. split; [|done]. by eapply Hb.
Qed.

Lemma ends_step {H A} s (m : D H A) (k : A → D H DriveResult) w : calm s w → s ∈ STUCK_STATES →
  steps undisturbed m → (∀ a w, calm s w → ends (k a w)) → ends ((a ← m; k a) w).
Proof.
  intros Hc Hs Hm Hk. specialize (Hm w s Hc). unfold mbind, D_bind. destruct (m w) as [w' [a|e]]; [by apply Hk|].
  by exists s.
Qed.

(** Transitions inside a drive, from a ready run. *)
Lemma ready_transition s ev g wk after t d : ready s d → transitionRun s ev g = Ok t →
  opening (emitted_events (sideEffects t)) = true → auxiliary runId after →
  wpt (transition_tx run s ev g wk after) d (λ _ d', ready (next t) d').
Proof.
  intros Hr Ht He Ha. unfold transition_tx. apply wpt_bind. eapply wpt_mono; [by apply (apply_moves runId)|]. simpl.
  intros [st es pending|obs] d1 H1; simpl; apply wpt_bind; [|apply wpt_raise].
  destruct H1 as (t' & <- & -> & Hm & Ht'). rewrite Ht in Ht'. injection Ht' as <-. apply wpt_ret.
  eapply wpt_mono; [apply Ha|]. simpl. intros a d' A. eapply ready_aux; [|exact A]. by eapply ready_moves.
Qed.

Lemma ready_suspend uuid s k d : ready run_running d →
  wpt (suspend_tx uuid run s k) d (λ _ d', ready run_suspending d').
Proof.
  intros Hr. unfold suspend_tx. apply wpt_bind. eapply wpt_mono; [by apply (apply_moves runId)|]. simpl.
  intros [st es pending|obs] d1 H1; simpl; apply wpt_bind; [|apply wpt_raise].
  destruct H1 as (t & <- & -> & Hm & Ht). apply wpt_ret.
  assert (Hn : next t = run_suspending ∧ opening (emitted_events (sideEffects t)) = true)
    by (destruct s; simpl in Ht; by injection Ht as <-). destruct Hn as [Hn He].
  apply wpt_bind. eapply wpt_mono; [apply (auxiliary_port uuid (mkSuspension _ _ _ _ _ _))|]. simpl. intros _ d2 A2.
  eapply wpt_mono; [apply auxiliary_pause|]. simpl. intros _ d3 A3. rewrite <-Hn.
  eapply ready_aux; [|exact A3]. eapply ready_aux; [|exact A2]. by eapply ready_moves.
Qed.

Lemma ready_operator_pause {H} (deps : DriveDeps H) b p d : ready run_running d →
  wpt (operator_pause_tx run deps b p) d (λ _ d', ready run_suspending d').
Proof.
  intros Hr. unfold operator_pause_tx. apply wpt_bind. eapply wpt_mono; [by apply (apply_moves runId)|]. simpl.
  intros [st es pending|obs] d1 H1; simpl; apply wpt_bind; [|apply wpt_raise].
  destruct H1 as (t & <- & -> & Hm & Ht). injection Ht as <-. apply wpt_ret. simpl.
  assert (H1 : ready run_suspending d1) by (by apply (ready_moves _ _ _ _ Hr Hm)).
  eapply wpt_mono; [|intros a d' A; by eapply (ready_aux _ _ _ H1 A)].
  apply (auxiliary_bind runId); [auto with aux|]. intros n. apply auxiliary_bind; [auto with aux|]. intros _.
  apply auxiliary_bind; [auto with aux|]. intros m. apply auxiliary_bind; auto with aux.
Qed.

Section Drive.
Context {H : Type} (deps : DriveDeps H) (uuid : nat → string).

Lemma kept_ret (s : RunState) (o : ScenarioOutcome) (w : World H) :
  w_db ((mret (mkDriveResult s o) : D H DriveResult) w).1 = w_db w ∧
  ∃ o', ((mret (mkDriveResult s o) : D H DriveResult) w).2 = Ok (mkDriveResult s o').
Proof. simpl. eauto. Qed.

(** Capturing the session neither throws nor touches the tables. *)
Lemma kept_capture (s : RunState) (o : ScenarioOutcome) (w : World H) :
  w_db ((_ ← capture_session deps; mret (mkDriveResult s o)) w).1 = w_db w ∧
  ∃ o', ((_ ← capture_session deps; mret (mkDriveResult s o)) w).2 = Ok (mkDriveResult s o').
Proof.
  unfold capture_session, mbind, D_bind. destruct (dd_session deps) as [port|]; [|simpl; eauto].
  unfold try_catch, on_host. destruct (ss_getAllCookies port (w_host w)) as [h [cookies|m]]; [|simpl; eauto].
  simpl. destruct (ss_save port cookies h) as [h' [u|m]]; simpl; eauto.
Qed.

Lemma ends_suspend o w : calm run_running w → ends (driveSuspend uuid run deps o w).
Proof.
  intros Hc. assert (Hrun : run_running ∈ STUCK_STATES) by (unfold STUCK_STATES; set_solver).
  assert (Hsus : run_suspending ∈ STUCK_STATES) by (unfold STUCK_STATES; set_solver).
  assert (Hend : run_suspended ∈ END_STATES) by (unfold END_STATES; set_solver).
  unfold driveSuspend, driveOperatorPause, issue_token, resolveSuspendKeyAttempt.
  destruct (oc_suspend o) as [s|]; [|by exists run_running].
  destruct (dd_resumeTokenCodec deps) as [codec|]; [|destruct s; by exists run_running].
  destruct s as [b k|b n i|b p]; try (case_match; [by exists run_running|]).
  1,2: apply (ends_step run_running); [done|done|apply undisturbed_select|]; intros key w1 H1;
    apply (calm_move run_running run_suspending); [done|done|intros d Hd; by apply ready_suspend|]; intros ? w2 H2;
    apply (ends_step run_suspending); [done|done|by apply steps_host, undisturbed_host|]; intros token w3 H3;
    apply (ends_tx run_suspending run_suspended); [done..|apply lands_bookmark; auto with aux|]; intros; apply kept_ret.
  apply (calm_move run_running run_suspending); [done|done|intros d Hd; by apply ready_operator_pause|]. intros ? w2 H2.
  apply (ends_step run_suspending); [done|done|by apply steps_host, undisturbed_host|]. intros token w3 H3.
  apply (ends_tx run_suspending run_suspended); [done..|apply lands_bookmark; auto with aux|]. intros; apply kept_ret.
Qed.

Lemma ends_fail w : calm run_running w →
  ends ((_ ← failRunningRun run deps systemFailureOutcome;
         mret (mkDriveResult run_failed_system systemFailureOutcome)) w).
Proof.
  intros Hc. apply (ends_tx run_running run_failed_system); [done|unfold STUCK_STATES; set_solver|
    unfold END_STATES; set_solver| |intros; apply kept_ret].
  apply lands_transition. intros t [= <-]. split; [done|]. by apply fits_settle; [|apply auxiliary_enqueue].
Qed.

(** The security path is the only one that leaves the states the fallback
    covers; its last transaction cannot fail. *)
Lemma ends_security o (w : World H) : calm run_aborting w →
  ends ((_ ← transition run run_aborting ev_drain_ok run_guard_empty None
           (_ ← unpauseLinkedWorkitemForRunAbort runId;
            cancelLinkedHumanTasksForRunTerminal runId (cr_correlationId run));
         mret (mkDriveResult run_cancelled o)) w).
Proof.
  intros Hc. unfold transition. set (body := transition_tx _ _ _ _ _ _). unfold mbind, D_bind.
  destruct (calm_tx run_aborting body w Hc) as (d & env & Hr & He & ->).
  destruct (drain_total d Hr) as [d' E]. fold body in E. rewrite E.
  split; [|unfold END_STATES; set_solver]. simpl.
  eapply (lands_transition run run_cancelled run_aborting ev_drain_ok run_guard_empty None); [|exact E].
  intros t [= <-]. split; [done|]. unfold fits. simpl. auto with aux.
Qed.

Lemma ends_finish o reason w : calm run_running w → ends (finish uuid run deps o reason w).
Proof.
  intros Hc. assert (Hrun : run_running ∈ STUCK_STATES) by (unfold STUCK_STATES; set_solver).
  unfold finish. repeat case_decide.
  - apply (calm_move run_running run_completing); [done|done| |].
    { intros d Hd. eapply wpt_mono; [by eapply ready_transition; [|reflexivity|reflexivity|apply auxiliary_ret]|done]. }
    intros ? w1 H1. apply (ends_tx run_completing run_completed); [done|unfold STUCK_STATES; set_solver|
      unfold END_STATES; set_solver| |intros; apply kept_capture].
    apply lands_transition. intros t [= <-]. split; [done|]. by apply fits_settle; [|apply auxiliary_enqueue].
  - apply (ends_tx run_running run_failed_business); [done|done|unfold END_STATES; set_solver| |intros; apply kept_ret].
    apply lands_transition. intros t [= <-]. split; [done|]. by apply fits_reason; [|apply auxiliary_enqueue].
  - apply (ends_tx run_running run_failed_system); [done|done|unfold END_STATES; set_solver| |intros; apply kept_ret].
    apply lands_transition. intros t [= <-]. split; [done|]. by apply fits_reason; [|apply auxiliary_enqueue].
  - apply (calm_move run_running run_aborting); [done|done| |intros ? w1 ?; by apply ends_security].
    intros d Hd. eapply wpt_mono; [eapply ready_transition; [done|reflexivity|reflexivity|]|done].
    unfold enqueue. auto with aux.
  - by apply ends_suspend.
  - by exists run_running.
Qed.

Context (date_parse : string → option Z) (url_origin : string → option (string * string))
  (regexp_ok : string → bool) (host_code : string → option string)
  (scenario_version : option (json * option CompiledScenarioAst)).

Lemma ends_driveScenario startNode w : calm run_running w →
  ends (driveScenario date_parse url_origin regexp_ok uuid host_code run deps scenario_version startNode w).
Proof.
  intros Hc. assert (Hrun : run_running ∈ STUCK_STATES) by (unfold STUCK_STATES; set_solver).
  assert (Hh := @undisturbed_host H). assert (Hs := @undisturbed_select H).
  unfold driveScenario. apply (ends_step run_running); [done|done|apply Hs|].
  intros [[ir ast]|] w1 H1; [|by exists run_running].
  apply (ends_step run_running); [done|done|by intros w0 s0|]. intros scenario w2 H2.
  destruct (match videoPolicyFromIr ir with Some _ => _ | None => false end); [by apply ends_fail|].
  destruct (_ && negb _); [by apply ends_fail|].
  apply (ends_step run_running); [done|done|by apply steps_restore; [apply _|]|]. intros _ w3 H3.
  apply (ends_step run_running); [done|done|by apply steps_drive_body; [apply _|..]|].
  intros [o reason] w4 H4. by apply ends_finish.
Qed.

Lemma ends_failsafe startNode w : calm run_running w →
  ∃ w' res, driveScenarioWithSystemFailsafe date_parse url_origin regexp_ok uuid host_code run deps scenario_version
              startNode w = (w', Ok res) ∧
    run_status (w_db w') runId = Some (dr_state res) ∧ dr_state res ∈ END_STATES.
Proof.
  intros Hc. assert (He := ends_driveScenario startNode w Hc).
  unfold driveScenarioWithSystemFailsafe, try_catch at 1.
  destruct (driveScenario _ _ _ _ _ _ _ _ _ w) as [w1 [res|e]]; [by exists w1, res|].
  destruct He as (s & Hs & H1). unfold mbind, D_bind, terminalizeStuckRunAsSystemFailure, try_catch.
  set (body := terminalize_tx run _). destruct (calm_tx s body w1 H1) as (d & env & Hr & _ & ->).
  destruct (terminalize_total (Some (classifiedFailureReason host_code e)) s d Hr Hs) as [d' E].
  fold body in E. rewrite E. eexists _, _. split; [reflexivity|]. simpl.
  split; [by eapply terminalize_lands; [exact E|]|]. unfold END_STATES. set_solver.
Qed.
End Drive.
End Ends.

(** C5. No run is left behind: while the other users of the database leave a
    running run, its workitem and its end-of-run keys alone and the connection
    holds, driving it returns a result for every scenario, browser and port
    (also one that fails or is not configured), and the tables then show the
    reported state, which is an end of the run or a suspension.  A claimed run
    either is not started at all or is driven to such a state. *)
Theorem drive_never_strands {H} date_parse url_origin regexp_ok uuid host_code run (deps : DriveDeps H)
    scenario_version resumeNodeId (w : World H) :
  (calm run run_running w →
   ∃ w' res, driveResumedRun date_parse url_origin regexp_ok uuid host_code run deps scenario_version resumeNodeId w =
       (w', Ok res) ∧
     run_status (w_db w') (cr_runId run) = Some (dr_state res) ∧ dr_state res ∈ END_STATES) ∧
  (calm run run_claimed w →
   match driveClaimedRun date_parse url_origin regexp_ok uuid host_code run deps scenario_version w with
   | (w', Ok res) => run_status (w_db w') (cr_runId run) = Some (dr_state res) ∧ dr_state res ∈ END_STATES
   | (w', Err _) => calm run run_claimed w'
   end).
Proof.
  split; [by apply ends_failsafe|]. intros Hc. unfold driveClaimedRun, transition.
  set (body := transition_tx _ _ _ _ _ _). unfold mbind, D_bind.
  destruct (calm_tx run run_claimed body w Hc) as (d & env & Hr & He & ->).
  destruct (body d) as [[a d']|e] eqn:E; [|done].
  assert (Hr' : ready run run_running d').
  { exact (ready_transition run run_claimed ev_run_started guard_init_ok (Some (dd_workerId deps)) (mret tt) _ d Hr
      eq_refl eq_refl (auxiliary_ret _ _) a d' E). }
  set (w1 := mkWorld d' env (w_log w ++ [(d, d')]) (w_host w)). assert (H1 : calm run run_running w1) by done.
  destruct (ends_failsafe run deps uuid date_parse url_origin regexp_ok host_code scenario_version None w1 H1)
    as (w' & res & -> & H2 & H3). done.
Qed.

(** ** Examples *)

Definition sample_run : ClaimedRun := mkClaimedRun "r1" "c1" None JNull.

Definition sample_db : Db :=
  mkDb 1000 0
    {[ "r1" := mkRunRow run_running (Some "wi1") (Some "worker") 0 0 (Some 900%Z) None None None None ]}
    {[ "wi1" := mkWorkitemRow wi_processing 2 (Some "worker") (Some 800%Z) (Some 5000%Z) None ]}
    [] [] [] [] [] [].

Definition sample_deps : DriveDeps () :=
  mkDriveDeps () (λ _ _ _ h, (h, Err "no browser")) (λ _ _ h, (h, Err "no browser")) (λ _ h, (h, Err "no browser"))
    "worker" false None None false None None true (λ _, 0%Z).

Definition sample_version : json * option CompiledScenarioAst :=
  (JObj [("start", JStr "a"); ("nodes", JObj [("a", JObj [("terminal", JStr "success")])])], None).

Definition sample_drive (version : option (json * option CompiledScenarioAst)) : World () * result Exn DriveResult :=
  driveResumedRun (λ _, None) (λ _, None) (λ _, true) (λ _, "id") (λ _, None) sample_run sample_deps version "a"
    (mkWorld sample_db [] [] tt).

(** A run whose scenario ends at once is completed and its workitem settled; one
    whose scenario is missing fails and, being its last attempt, leaves a dead
    letter. *)
Example sample_drives :
  (let '(w, _) := sample_drive (Some sample_version) in
   run_status (w_db w) "r1" = Some run_completed ∧
   w_status <$> workitems (w_db w) !! "wi1" = Some wi_successful ∧
   map o_eventType (events_outbox (w_db w)) = [run_completed_e; workitem_completed_e] ∧ length (w_log w) = 5) ∧
  (let '(w, _) := sample_drive None in
   run_status (w_db w) "r1" = Some run_failed_system ∧
   w_status <$> workitems (w_db w) !! "wi1" = Some wi_abandoned ∧
   dead_letter (w_db w) = [mkDeadLetterRow "wi1" (Some "r1") "DEAD_LETTER" None true]).
Proof. vm_compute. by split_and!. Qed.

(** The hypothesis of [drive_never_strands] holds of the sample. *)
Example sample_calm : calm sample_run run_running (mkWorld sample_db [] [] tt).
Proof.
  split; [|done]. split; [done| |by intros k _ o ?%elem_of_nil]. intros wid [= <-].
  eexists. by split.
Qed.

Lemma drive_result_committed_witness :
  let w := (sample_drive (Some sample_version)).1 in
  ∃ l d d', w_log w = l ++ [(d, d')] ∧ run_status d' "r1" = Some run_completed.
Proof.
  assert (E : ∃ o, sample_drive (Some sample_version) =
                   ((sample_drive (Some sample_version)).1, Ok (mkDriveResult run_completed o))).
  { eexists. vm_compute. reflexivity. }
  destruct E as [o E].
  exact (drive_result_committed (λ _, None) (λ _, None) (λ _, true) (λ _, "id") (λ _, None) sample_run sample_deps
    (Some sample_version) (mkWorld sample_db [] [] tt) (sample_drive (Some sample_version)).1
    (mkDriveResult run_completed o) "a" (or_intror E)).
Defined.
