(* ===== verification/SiteCircuit.v ===== *)
(** * The circuit breaker of a site

    Models [app/src/runtime/site-circuit.ts] and the sample the worker records
    after a drive ([worker/runtime-worker-run-drive.ts]).  [Site] holds what the
    tables say about one site profile of a tenant: its samples, the columns
    [circuit_state] and [circuit_until] and the circuit events in the outbox with
    their idempotency keys.  Times are milliseconds; [iso] is
    [Date.toISOString].  A violated key constraint throws and the transaction
    leaves nothing behind. *)

From stdpp Require Import base strings list gmap pretty sorting.
From Stdlib Require Import ZArith QArith Lia.
From S2P Require Import Prelude StateMachine JsValue FlowControl HumanTask Interpreter Database Driver.

Record SiteCircuitConfig := mkCircuitConfig {
  blockRateThreshold : Q;
  windowMs : Z;
  minSamples : Z;
  openMs : Z
}.

Definition DEFAULT_SITE_CIRCUIT : SiteCircuitConfig :=
  mkCircuitConfig (3 # 10)%Q (5 * 60 * 1000) 20 (15 * 60 * 1000).

Inductive CircuitState := c_closed | c_open | c_half_open.
#[export] Instance CircuitState_eq_dec : EqDecision CircuitState.
Proof. solve_decision. Defined.

Record BlockSample := mkSample { bs_occurred_at : Z; bs_blocked : bool }.

(** A circuit event: opened or closed, when, under which key. *)
Record CircuitEvent := mkCircuitEvent { ce_opened : bool; ce_at : Z; ce_key : string }.

Record Site := mkSite {
  site_samples : list BlockSample;
  circuit_state : CircuitState;
  circuit_until : option Z;
  site_events : list CircuitEvent
}.

Record SiteCircuitSampleInput := mkSampleInput {
  sc_siteProfileId : string;
  sc_correlationId : string;
  sc_blocked : bool
}.

Section Circuit.
Context (iso : Z → string) (config : SiteCircuitConfig).

Definition emitSiteCircuitEvent (opened : bool) (now : Z) (key : string) (s : Site) : result DbError Site :=
  if existsb (λ e, bool_decide (ce_key e = key)) (site_events s) then Err (E_unique key)
  else Ok (mkSite (site_samples s) (circuit_state s) (circuit_until s)
             (site_events s ++ [mkCircuitEvent opened now key])).

Definition opened_key (siteId : string) (until : Z) : string := "site-circuit-opened:" +:+ siteId +:+ ":" +:+ iso until.
Definition closed_key (siteId correlationId : string) : string :=
  "site-circuit-closed:" +:+ siteId +:+ ":" +:+ correlationId.

(** [circuit_state IN ('open','half_open') AND (circuit_until IS NULL OR circuit_until <= now())]. *)
Definition cooled_down (now : Z) (s : Site) : bool :=
  match circuit_state s with
  | c_closed => false
  | _ => match circuit_until s with None => true | Some u => (u <=? now)%Z end
  end.

(** Samples after [now() - window]. *)
Definition in_window (now : Z) (x : BlockSample) : bool := (now - windowMs config <? bs_occurred_at x)%Z.
Definition window_total (now : Z) (l : list BlockSample) : Z :=
  Z.of_nat (length (filter (λ x, in_window now x = true) l)).
Definition window_blocks (now : Z) (l : list BlockSample) : Z :=
  Z.of_nat (length (filter (λ x, bs_blocked x = true) (filter (λ x, in_window now x = true) l))).

(** [w.total >= minSamples AND w.blocks >= w.total * threshold]. *)
Definition block_rate_reached (now : Z) (l : list BlockSample) : bool :=
  (minSamples config <=? window_total now l)%Z &&
  Qle_bool (inject_Z (window_total now l) * blockRateThreshold config)%Q (inject_Z (window_blocks now l)).

Definition set_circuit (st : CircuitState) (until : option Z) (s : Site) : Site :=
  mkSite (site_samples s) st until (site_events s).

(** The transition of the circuit once the sample is stored. *)
Definition evaluate_circuit (input : SiteCircuitSampleInput) (now : Z) (s : Site) : result DbError Site :=
  let until := (now + openMs config)%Z in
  if sc_blocked input then
    if cooled_down now s then Ok (set_circuit c_open (Some until) s)
    else if bool_decide (circuit_state s = c_closed) && block_rate_reached now (site_samples s)
    then emitSiteCircuitEvent true now (opened_key (sc_siteProfileId input) until) (set_circuit c_open (Some until) s)
    else Ok s
  else
    if cooled_down now s
    then emitSiteCircuitEvent false now (closed_key (sc_siteProfileId input) (sc_correlationId input))
           (set_circuit c_closed None s)
    else Ok s.

(** [DELETE ... WHERE occurred_at < now() - window]. *)
Definition prune (now : Z) (l : list BlockSample) : list BlockSample :=
  filter (λ x, (now - windowMs config <= bs_occurred_at x)%Z) l.

Definition recordSiteCircuitOutcome (input : SiteCircuitSampleInput) (now : Z) (s : Site) : result DbError Site :=
  evaluate_circuit input now
    (mkSite (prune now (site_samples s ++ [mkSample now (sc_blocked input)])) (circuit_state s) (circuit_until s)
       (site_events s)).

(** The callers log an exception and go on. *)
Definition record_one (s : Site) (p : SiteCircuitSampleInput * Z) : Site :=
  match recordSiteCircuitOutcome p.1 p.2 s with Ok s' => s' | Err _ => s end.
Definition record_all (l : list (SiteCircuitSampleInput * Z)) : Site := foldl record_one (mkSite [] c_closed None []) l.

(** The reference: the same without pruning. *)
Definition reference_one (s : Site) (p : SiteCircuitSampleInput * Z) : Site :=
  match evaluate_circuit p.1 p.2
          (mkSite (site_samples s ++ [mkSample p.2 (sc_blocked p.1)]) (circuit_state s) (circuit_until s)
             (site_events s)) with
  | Ok s' => s' | Err _ => s
  end.
Definition reference_all (l : list (SiteCircuitSampleInput * Z)) : Site :=
  foldl reference_one (mkSite [] c_closed None []) l.
End Circuit.

(** Whether a drive counts as a block by the site:
    [state === "suspended" && suspend !== undefined && suspend.kind !== "human_task"]. *)
Definition drive_blocked (res : DriveResult) : bool :=
  bool_decide (dr_state res = run_suspended) &&
  match oc_suspend (dr_outcome res) with
  | Some (HumanTaskSuspend _ _ _) | None => false
  | Some _ => true
  end.

(** ** Openings and closings alternate *)

(** In a list of events, each opening is followed by a closing at least the
    cooldown later, and each closing by an opening; [since] is the time of an
    opening not yet closed. *)
Fixpoint alternates (cooldown : Z) (since : option Z) (evs : list CircuitEvent) : Prop :=
  match evs with
  | [] => True
  | e :: rest =>
      if ce_opened e then since = None ∧ alternates cooldown (Some (ce_at e)) rest
      else (∃ t0, since = Some t0 ∧ (t0 + cooldown <= ce_at e)%Z) ∧ alternates cooldown None rest
  end.

Definition open_since (since : option Z) (evs : list CircuitEvent) : option Z :=
  foldl (λ _ e, if ce_opened e then Some (ce_at e) else None) since evs.

Lemma alternates_snoc cooldown evs e : ∀ since, alternates cooldown since evs →
  alternates cooldown (open_since since evs) [e] → alternates cooldown since (evs ++ [e]).
Proof.
  induction evs as [|x evs IH]; intros since; simpl; [done|].
  destruct (ce_opened x); intros [H1 H2] H3; (split; [done|]); by apply IH.
Qed.

Lemma open_since_snoc since evs e :
  open_since since (evs ++ [e]) = if ce_opened e then Some (ce_at e) else None.
Proof. unfold open_since. by rewrite foldl_app. Qed.

Section Facts.
Context (iso : Z → string) (config : SiteCircuitConfig).

(** The circuit is open exactly while its last event is an opening, and then
    the cooldown runs at least from that opening. *)
Definition circuit_inv (s : Site) : Prop :=
  alternates (openMs config) None (site_events s) ∧
  match open_since None (site_events s) with
  | None => circuit_state s = c_closed
  | Some t0 => circuit_state s = c_open ∧ ∃ u, circuit_until s = Some u ∧ (t0 + openMs config <= u)%Z
  end.

Lemma emit_Ok opened now key s s' : emitSiteCircuitEvent opened now key s = Ok s' →
  s' = mkSite (site_samples s) (circuit_state s) (circuit_until s) (site_events s ++ [mkCircuitEvent opened now key]).
Proof. unfold emitSiteCircuitEvent. case_match; [done|]. by intros [= <-]. Qed.

Lemma circuit_inv_evaluate input now s s' : (0 <= openMs config)%Z → circuit_inv s →
  evaluate_circuit iso config input now s = Ok s' → circuit_inv s'.
Proof.
  intros Ho [Ha Hs]. unfold evaluate_circuit, cooled_down.
  assert (Hkeep : (Ok s : result DbError Site) = Ok s' → circuit_inv s') by (by intros [= <-]).
  destruct (sc_blocked input).
  - destruct (open_since None (site_events s)) as [t0|] eqn:Eo.
    + destruct Hs as (-> & u & -> & Hu). destruct (u <=? now)%Z eqn:Eu; [|exact Hkeep].
      apply Z.leb_le in Eu. intros [= <-]. split; [done|]. simpl. rewrite Eo. split; [done|].
      exists (now + openMs config)%Z. split; [done|lia].
    + rewrite Hs. simpl. case_match; [|exact Hkeep]. intros ->%emit_Ok. split; simpl.
      * apply alternates_snoc; [done|]. by rewrite Eo.
      * rewrite open_since_snoc. simpl. split; [done|]. eexists. split; [done|lia].
  - destruct (open_since None (site_events s)) as [t0|] eqn:Eo.
    + destruct Hs as (-> & u & -> & Hu). destruct (u <=? now)%Z eqn:Eu; [|exact Hkeep].
      apply Z.leb_le in Eu. intros ->%emit_Ok. split; simpl.
      * apply alternates_snoc; [done|]. rewrite Eo. simpl. split; [|done]. exists t0. split; [done|lia].
      * by rewrite open_since_snoc.
    + rewrite Hs. exact Hkeep.
Qed.

Lemma circuit_inv_record s p : (0 <= openMs config)%Z → circuit_inv s → circuit_inv (record_one iso config s p).
Proof.
  intros Ho Hs. unfold record_one, recordSiteCircuitOutcome. case_match eqn:E; [|done].
  by eapply circuit_inv_evaluate in E.
Qed.

(** ** Pruning *)

Lemma prune_window now t l : (now <= t)%Z →
  filter (λ x, in_window config t x = true) (prune config now l) = filter (λ x, in_window config t x = true) l.
Proof.
  intros Ht. unfold prune. rewrite list_filter_filter. apply list_filter_iff. intros x.
  unfold in_window. rewrite Z.ltb_lt. lia.
Qed.

(** Two sites that differ only in samples outside of the window. *)
Definition same_window (now : Z) (a b : Site) : Prop :=
  circuit_state a = circuit_state b ∧ circuit_until a = circuit_until b ∧ site_events a = site_events b ∧
  ∀ t, (now <= t)%Z → filter (λ x, in_window config t x = true) (site_samples a) =
                      filter (λ x, in_window config t x = true) (site_samples b).

Lemma evaluate_same input now a b : same_window now a b →
  match evaluate_circuit iso config input now a, evaluate_circuit iso config input now b with
  | Ok a', Ok b' => same_window now a' b'
  | Err _, Err _ => True
  | _, _ => False
  end.
Proof.
  destruct a as [sa ca ua ea], b as [sb cb ub eb]. intros (H1 & H2 & H3 & H4). simpl in *. subst cb ub eb.
  assert (Hr : block_rate_reached config now sa = block_rate_reached config now sb).
  { unfold block_rate_reached, window_total, window_blocks. by rewrite (H4 now). }
  unfold evaluate_circuit, cooled_down, emitSiteCircuitEvent, set_circuit. simpl. rewrite Hr.
  repeat case_match; simplify_eq; try done; by split_and!.
Qed.

Lemma record_same a b p last : same_window last a b → (last <= p.2)%Z →
  same_window p.2 (record_one iso config a p) (reference_one iso config b p).
Proof.
  intros (H1 & H2 & H3 & H4) Hl. unfold record_one, recordSiteCircuitOutcome, reference_one.
  set (x := mkSample _ _).
  assert (Hw : same_window p.2
    (mkSite (prune config p.2 (site_samples a ++ [x])) (circuit_state a) (circuit_until a) (site_events a))
    (mkSite (site_samples b ++ [x]) (circuit_state b) (circuit_until b) (site_events b))).
  { split_and!; try done. simpl. intros t Ht. rewrite prune_window by done. rewrite !filter_app, H4 by lia. done. }
  apply (evaluate_same p.1) in Hw. repeat case_match; try done. split_and!; try done. intros t Ht. apply H4. lia.
Qed.
End Facts.

(** The circuit breaker over any history of drives recorded in order of
    time: deleting old samples is invisible (the circuit and its events are
    those of the reference that keeps all samples), openings and closings
    alternate, the circuit is open exactly after an opening, and it closes only
    after the cooldown has passed. *)
Theorem circuit_breaker_sound iso config (l : list (SiteCircuitSampleInput * Z)) :
  (0 <= openMs config)%Z → Sorted Z.le (map snd l) →
  let s := record_all iso config l in
  let ref := reference_all iso config l in
  circuit_state s = circuit_state ref ∧ circuit_until s = circuit_until ref ∧ site_events s = site_events ref ∧
  alternates (openMs config) None (site_events s) ∧
  (circuit_state s = c_open ↔ ∃ t, open_since None (site_events s) = Some t) ∧
  (∀ t u, open_since None (site_events s) = Some t → circuit_until s = Some u → (t + openMs config <= u)%Z).
Proof.
  intros Ho Hsort s ref.
  assert (Hsame : circuit_state s = circuit_state ref ∧ circuit_until s = circuit_until ref ∧
                  site_events s = site_events ref).
  { subst s ref. unfold record_all, reference_all.
    assert (Hgen : ∀ a b last, same_window config last a b → Sorted Z.le (last :: map snd l) →
      ∃ t, same_window config t (foldl (record_one iso config) a l) (foldl (reference_one iso config) b l)).
    { clear Hsort. induction l as [|p l IH]; intros a b last Hab Hs; [by exists last|]. simpl in *.
      inversion Hs as [|? ? Hs' Hl]; subst. inversion Hl; subst. eapply IH; [|exact Hs']. by eapply record_same. }
    destruct l as [|p l']; [done|].
    destruct (Hgen (mkSite [] c_closed None []) (mkSite [] c_closed None []) p.2) as (t & H1 & H2 & H3 & _); [done| |done].
    constructor; [done|]. constructor. lia. }
  destruct Hsame as (H1 & H2 & H3).
  assert (Hinv : circuit_inv config s).
  { subst s. unfold record_all. clear -Ho. assert (Hi : circuit_inv config (mkSite [] c_closed None [])) by done.
    revert Hi. generalize (mkSite [] c_closed None []). induction l as [|p l IH]; intros s Hs; simpl; [done|].
    by apply IH, circuit_inv_record. }
  destruct Hinv as [Ha Hs]. split_and!; [done..| |].
  - destruct (open_since None (site_events s)); [destruct Hs as [-> _]; naive_solver|]. rewrite Hs. naive_solver.
  - intros t u Ht Hu. rewrite Ht in Hs. destruct Hs as (_ & u' & Hu' & Hle). congruence.
Qed.

(** The history of the witness: twenty blocks, a success after the cooldown. *)
Definition blocks_at (correlationId : string) (t : Z) : list (SiteCircuitSampleInput * Z) :=
  replicate 20 (mkSampleInput "site" correlationId true, t).
Definition success_at (correlationId : string) (t : Z) : SiteCircuitSampleInput * Z :=
  (mkSampleInput "site" correlationId false, t).

Lemma circuit_breaker_sound_witness :
  let s := record_all (λ t, pretty t) DEFAULT_SITE_CIRCUIT (blocks_at "a" 0 ++ [success_at "b" 1000000]) in
  map ce_opened (site_events s) = [true; false] ∧ alternates 900000 None (site_events s).
Proof.
  split; [vm_compute; reflexivity|].
  refine (proj1 (proj2 (proj2 (proj2 (circuit_breaker_sound (λ t, pretty t) DEFAULT_SITE_CIRCUIT
    (blocks_at "a" 0 ++ [success_at "b" 1000000]) _ _))))); [done|].
  vm_compute. repeat constructor; done.
Defined.

(** Pauses asked for by an operator count as blocks by the site: twenty
    drives of healthy runs that an operator pauses within the window open the
    circuit, although the comment counts detected challenges only. *)
Theorem operator_pauses_open_circuit iso site correlationId outcome base pause :
  let res := mkDriveResult run_suspended
               (mkOutcome "suspend" (oc_visited outcome) (oc_steps outcome) (oc_artifacts outcome)
                  (oc_extractPages outcome) (oc_mergedExtract outcome) (Some (OperatorPauseSuspend base pause)) None) in
  drive_blocked res = true ∧
  circuit_state (record_all iso DEFAULT_SITE_CIRCUIT
    (replicate 20 (mkSampleInput site correlationId (drive_blocked res), 0%Z))) = c_open.
Proof. split; [reflexivity|]. vm_compute. reflexivity. Qed.

(** A run that has closed the circuit cannot close it again: its second
    probe success, in a later drive with the same correlation id, violates the
    key constraint, the sample is lost and the circuit stays open. *)
Theorem same_run_cannot_close_twice :
  (∀ iso config site correlationId now s,
     cooled_down now s = true → closed_key site correlationId ∈ map ce_key (site_events s) →
     record_one iso config s (mkSampleInput site correlationId false, now) = s) ∧
  let history := blocks_at "a" 0 ++ [success_at "b" 1000000] ++ blocks_at "c" 2000000 in
  let s := record_all (λ t, pretty t) DEFAULT_SITE_CIRCUIT history in
  cooled_down 3000000 s = true ∧ circuit_state s = c_open ∧
  circuit_state (record_all (λ t, pretty t) DEFAULT_SITE_CIRCUIT (history ++ [success_at "b" 3000000])) = c_open ∧
  circuit_state (record_all (λ t, pretty t) DEFAULT_SITE_CIRCUIT (history ++ [success_at "d" 3000000])) = c_closed.
Proof.
  split; [|vm_compute; by split_and!].
  intros iso config site c now s Hc Hk. unfold record_one, recordSiteCircuitOutcome, evaluate_circuit. simpl.
  unfold cooled_down in *. simpl. rewrite Hc. unfold emitSiteCircuitEvent. simpl.
  rewrite (proj2 (existsb_exists _ _)); [done|]. apply list_elem_of_fmap in Hk as (e & He & Hin).
  exists e. split; [by apply list_elem_of_In|]. by apply bool_decide_eq_true.
Qed.
