(* ===== verification/Sweepers.v ===== *)
(** * Checkouts, their timer and the sweepers of deadlines

    Models [app/src/worker/runtime-worker-workitem-checkout.ts] (a worker checks
    out a workitem; expired checkouts are taken back) and
    [runtime-worker-human-task-timeout.ts] (human tasks whose deadline has
    passed are escalated or expire, and with them the suspended run).  A handler
    is the body of its transaction on the tables of the tenant; rows locked by
    other transactions are skipped ([FOR UPDATE SKIP LOCKED]), so the set of
    locked rows is an argument.  The theorems are in [SweeperProps]. *)

From stdpp Require Import base strings list gmap pretty sorting.
From Stdlib Require Import ZArith.
From S2P Require Import Prelude StateMachine JsValue JsText HumanTask Database Settlement.

(** [RuntimeJobResult] without the optional reference to evidence. *)
Inductive JobResult :=
| completed (emittedEvents : list OutboxEvent)
| deferred (retryAfterMs : Z) (code : option string)
| failed (code : string).

(** The fields of a [RuntimeWorkerJob] the handlers read. *)
Record WorkerJob := mkJob {
  wj_tenantId : option string;
  wj_runId : option string;
  wj_workitemId : option string;
  wj_correlationId : option string
}.

Definition requireString (value : option string) (label : string) : Tx string :=
  match value with
  | Some s => if blank s then raise (E_error ("RuntimeWorker: " +:+ label +:+ " is required")) else mret s
  | None => raise (E_error ("RuntimeWorker: " +:+ label +:+ " is required"))
  end.

(** ** Checkout of a workitem *)

Definition WORKITEM_CHECKOUT_TIMEOUT_MS : Z := 10 * 60 * 1000.

Definition guard_reference_free : WorkitemGuard := mkWorkitemGuard (Some true) None None None None.

(** [SET checkout_expires_at = now() + timeout WHERE id = $2]. *)
Definition stamp_checkout (workitemId : string) : Tx () :=
  set_checkout (λ now row,
    Some (with_checkout (Some (now + WORKITEM_CHECKOUT_TIMEOUT_MS)%Z) (w_checkout_paused_at row) row)) workitemId.

Definition handleWorkitemCheckout (configuredWorkerId : option string) (job : WorkerJob) : Tx JobResult :=
  _ ← requireString (wj_tenantId job) "workitem_checkout.tenantId";
  workitemId ← requireString (wj_workitemId job) "workitem_checkout.workitemId";
  correlationId ← requireString (wj_correlationId job) "workitem_checkout.correlationId";
  workerId ← requireString configuredWorkerId "PgRuntimeWorkerOptions.workerId for workitem_checkout";
  row ← select (λ d, workitems d !! workitemId);
  match row with
  | None => mret (failed "RESOURCE_NOT_FOUND")
  | Some row =>
      if decide (w_status row = wi_new) then
        t ← applyWorkitemTransition (mkWorkitemCtx workitemId wi_new wev_checkout guard_reference_free correlationId
              (wj_runId job) (Some workerId) (Some (workitemId +:+ ":workitem_checkout")) None);
        match t with
        | CasConflict _ => raise (E_error "RuntimeWorker: workitem_checkout CAS conflict after row lock")
        | Applied _ _ (_ :: _) => raise (E_error "RuntimeWorker: workitem_checkout produced unsupported pending side effects")
        | Applied _ emitted [] =>
            _ ← stamp_checkout workitemId;
            mret (completed emitted)
        end
      else mret (failed "WORKITEM_CHECKOUT_CONFLICT")
  end.

(** ** Expired checkouts *)

(** The [WHERE] of the sweeper's select. *)
Definition checkout_expired (now : Z) (row : WorkitemRow) : bool :=
  bool_decide (w_status row = wi_processing) && bool_decide (w_checkout_paused_at row = None) &&
  match w_checkout_expires_at row with Some e => (e <? now)%Z | None => false end.

(** [LEFT JOIN runs r ON r.workitem_id = w.id]. *)
Definition joined_runs (d : Db) (workitemId : string) : list (option string) :=
  match filter (λ p, r_workitem_id p.2 = Some workitemId) (map_to_list (runs d)) with
  | [] => [None]
  | rows => map (λ p, Some p.1) rows
  end.

Record ExpiredRow := mkExpired { ex_id : string; ex_attempts : Z; ex_run_id : option string }.

Definition expired_rows (locked : string → bool) (d : Db) : list ExpiredRow :=
  p ← filter (λ p, checkout_expired (db_now d) p.2 = true ∧ locked p.1 = false) (map_to_list (workitems d));
  map (mkExpired p.1 (w_attempts p.2)) (joined_runs d p.1).

Definition sweep_checkout (correlationId : string) (w : ExpiredRow) : Tx () :=
  t ← applyWorkitemTransition (mkWorkitemCtx (ex_id w) wi_processing wev_checkout_expired
        (guard_attempts (ex_attempts w + 1 <? WORKITEM_MAX_ATTEMPTS)%Z) correlationId (ex_run_id w) None
        (Some (ex_id w +:+ ":checkout_expired:" +:+ pretty (ex_attempts w))) None);
  match t with
  | CasConflict _ => mret tt
  | Applied next _ _ =>
      if decide (next = wi_abandoned)
      then insertWorkitemDeadLetter (ex_id w) (ex_run_id w) "DEAD_LETTER" None else mret tt
  end.

Fixpoint sweep_checkouts (correlationId : string) (ws : list ExpiredRow) : Tx () :=
  match ws with
  | [] => mret tt
  | w :: rest => _ ← sweep_checkout correlationId w; sweep_checkouts correlationId rest
  end.

Definition handleWorkitemCheckoutSweeper (locked : string → bool) (job : WorkerJob) : Tx JobResult :=
  _ ← requireString (wj_tenantId job) "workitem_checkout_sweeper.tenantId";
  correlationId ← requireString (wj_correlationId job) "workitem_checkout_sweeper.correlationId";
  expired ← select (expired_rows locked);
  _ ← sweep_checkouts correlationId expired;
  mret (completed []).

(** ** Human tasks past their deadline *)

Definition HUMAN_TASK_TIMEOUT_SWEEP_LIMIT : nat := 100.

Definition task_due (now : Z) (h : HumanTaskRow) : bool := active_human_task (h_state h) && (h_expires_at h <=? now)%Z.

(** [ORDER BY expires_at ASC, id ASC]. *)
Definition due_order (a b : HumanTaskRow) : Prop :=
  (h_expires_at a < h_expires_at b)%Z ∨ h_expires_at a = h_expires_at b ∧ String.leb (h_id a) (h_id b) = true.
#[export] Instance due_order_dec a b : Decision (due_order a b).
Proof. unfold due_order. apply _. Defined.

Record DueHumanTaskRow := mkDue {
  due_task : HumanTaskRow;
  due_run_status : option RunState;
  due_correlation : option string;
  due_workitem_id : option string
}.

Section TimeoutSweeper.
(** [runs.correlation_id] (never changed) and [Date.toISOString]. *)
Context (run_correlation : string → string) (iso : Z → string).

Definition due_row (d : Db) (h : HumanTaskRow) : DueHumanTaskRow :=
  let row := runs d !! h_run_id h in
  mkDue h (r_status <$> row) ((λ _, run_correlation (h_run_id h)) <$> row) (row ≫= r_workitem_id).

Definition due_tasks (locked : string → bool) (d : Db) : list HumanTaskRow :=
  take HUMAN_TASK_TIMEOUT_SWEEP_LIMIT
    (merge_sort due_order (filter (λ h, task_due (db_now d) h = true ∧ locked (h_id h) = false) (human_tasks d))).

Definition with_deadline (expires : Z) (h : HumanTaskRow) : HumanTaskRow :=
  mkHumanTaskRow (h_id h) (h_run_id h) (h_node_id h) (h_kind h) (h_assignee_role h) (h_on_timeout h) (h_state h)
    (h_assignee h) (h_payload h) (h_result_schema h) (h_artifact_refs h) (h_result h) expires (h_resolved_at h).

Definition extendEscalatedDeadline (humanTaskId : string) : Tx () :=
  update (λ d, set_human_tasks
    (map (λ h, if decide (h_id h = humanTaskId ∧ h_state h = ht_escalated)
               then with_deadline (db_now d + HUMAN_TASK_DEFAULT_TIMEOUT_MS) h else h) (human_tasks d)) d).

(** The [kind] of a side-effect command. *)
Definition cmd_kind (c : SideEffectCmd) : string :=
  match c with
  | emitEvent _ => "emitEvent" | setField _ _ => "setField" | requeue => "requeue" | openCircuit => "openCircuit"
  | evaluateDeadLetter => "evaluateDeadLetter" | createDeadLetter => "createDeadLetter"
  | createHumanTask _ => "createHumanTask" | startBookmark => "startBookmark" | issueResumeToken => "issueResumeToken"
  | sseClose => "sseClose" | browserDrain => "browserDrain" | releaseLease _ => "releaseLease" | killLease _ => "killLease"
  | restoreSession => "restoreSession" | flushArtifacts => "flushArtifacts" | finalizeOutputs => "finalizeOutputs"
  | usageFlush => "usageFlush" | resetStepLoopCounters => "resetStepLoopCounters"
  | pauseCheckoutTimer => "pauseCheckoutTimer" | resumeCheckoutTimer => "resumeCheckoutTimer"
  | reassignAssignee => "reassignAssignee" | captureFailureScreenshot => "captureFailureScreenshot"
  | consistencyRecovery => "consistencyRecovery" | rejectCommand _ _ => "rejectCommand" | notify _ => "notify"
  end.

(** The texts of the errors are shortened: the kind in question is not named. *)
Definition assertOnlyPending (pending : list SideEffectCmd) (allowedKinds : list string) (label : string) : Tx () :=
  if negb (forallb (λ cmd, bool_decide (cmd_kind cmd ∈ allowedKinds)) pending)
  then raise (E_error ("human_task_timeout_sweeper: " +:+ label +:+ " unexpected pending side effect")) else
  if negb (forallb (λ kind, existsb (λ cmd, String.eqb (cmd_kind cmd) kind) pending) allowedKinds)
  then raise (E_error ("human_task_timeout_sweeper: " +:+ label +:+ " missing pending side effect")) else mret tt.
Definition assertRunEscalationPendingHandled (pending : list SideEffectCmd) : Tx () :=
  assertOnlyPending pending ["reassignAssignee"] "R15".
Definition assertRunExpiryPendingHandled (pending : list SideEffectCmd) : Tx () :=
  assertOnlyPending pending ["evaluateDeadLetter"; "notify"] "R14".
Definition assertHumanTaskTimeoutPendingHandled (pending : list SideEffectCmd) : Tx () :=
  match pending with
  | [] => mret tt
  | _ => raise (E_error "human_task_timeout_sweeper: unexpected human_task pending")
  end.

Definition applySuspendedRunEscalation (task : DueHumanTaskRow) (fallbackCorrelationId : string) : Tx () :=
  if decide (due_run_status task = Some run_suspended) then
    let runId := h_run_id (due_task task) in
    o ← applyRunTransition (mkRunCtx runId run_suspended ev_human_task_escalated run_guard_empty
          (default fallbackCorrelationId (due_correlation task)) None
          (Some (runId +:+ ":" +:+ h_id (due_task task) +:+ ":human_task_escalated")) None);
    match o with
    | CasConflict _ => mret tt
    | Applied _ _ pending => assertRunEscalationPendingHandled pending
    end
  else mret tt.

Definition applySuspendedRunExpiry (task : DueHumanTaskRow) (fallbackCorrelationId : string) : Tx (list OutboxEvent) :=
  if decide (due_run_status task = Some run_suspended) then
    let runId := h_run_id (due_task task) in
    let correlationId := default fallbackCorrelationId (due_correlation task) in
    o ← applyRunTransition (mkRunCtx runId run_suspended ev_human_task_expired run_guard_empty correlationId None
          (Some (runId +:+ ":" +:+ h_id (due_task task) +:+ ":human_task_expired")) None);
    match o with
    | CasConflict _ => mret []
    | Applied _ emitted pending =>
        _ ← assertRunExpiryPendingHandled pending;
        _ ← settleLinkedWorkitemForRunTerminal (due_workitem_id task)
              (mkSettlement runId correlationId rk_business
                 (runId +:+ ":" +:+ h_id (due_task task) +:+ ":workitem-human-task-expired") None None None None);
        mret emitted
    end
  else mret [].

Definition timeout_guard (h : HumanTaskRow) : HumanTaskGuard :=
  if decide (h_state h = ht_escalated) then human_task_guard_empty else mkHumanTaskGuard (Some (h_on_timeout h)).

Definition timeout_one (correlationId : string) (task : DueHumanTaskRow) : Tx (list OutboxEvent) :=
  let h := due_task task in
  o ← applyHumanTaskTransition (mkHumanCtx (h_id h) (h_run_id h) (h_state h) hev_timeout (timeout_guard h)
        correlationId None (Some (h_id h +:+ ":timeout:" +:+ iso (h_expires_at h))) None);
  match o with
  | CasConflict _ => mret []
  | Applied next emitted pending =>
      _ ← assertHumanTaskTimeoutPendingHandled pending;
      if decide (next = ht_escalated) then
        _ ← extendEscalatedDeadline (h_id h);
        _ ← applySuspendedRunEscalation task correlationId;
        mret emitted
      else if decide (next = ht_expired) then
        expiry ← applySuspendedRunExpiry task correlationId;
        mret (emitted ++ expiry)
      else mret emitted
  end.

Fixpoint timeout_all (correlationId : string) (tasks : list DueHumanTaskRow) : Tx (list OutboxEvent) :=
  match tasks with
  | [] => mret []
  | task :: rest =>
      es ← timeout_one correlationId task;
      es' ← timeout_all correlationId rest;
      mret (es ++ es')
  end.

Definition handleHumanTaskTimeoutSweeper (locked : string → bool) (job : WorkerJob) : Tx JobResult :=
  _ ← requireString (wj_tenantId job) "human_task_timeout_sweeper.tenantId";
  correlationId ← requireString (wj_correlationId job) "human_task_timeout_sweeper.correlationId";
  due ← select (λ d, map (due_row d) (due_tasks locked d));
  emitted ← timeout_all correlationId due;
  mret (completed emitted).
End TimeoutSweeper.
