(* ===== verification/SweeperProps.v ===== *)
(** * The sweepers keep the deadlines

    Theorems about [Sweepers]: what a sweep of expired checkouts does to every
    workitem, that the timer of a checkout counts exactly the time its run was
    not suspended, what a sweep of human tasks does to the tasks, the runs and
    the workitems, and what goes wrong when a checkout expires while its run is
    still being driven. *)

From stdpp Require Import base strings list gmap pretty sorting.
From Stdlib Require Import ZArith Lia Ascii.
From S2P Require Import Prelude StateMachine JsValue IrelSyntax IrelLexer StaticValidation RuntimeStore FlowControl JsText HumanTask ExtractMerge Interpreter Translate Database Settlement Driver DriverProps DriverEnds Sweepers.

(** ** Keys of events with an identifier in front *)

Fixpoint before_colon (s : string) : string :=
  match s with
  | EmptyString => EmptyString
  | String c s' => if decide (c = ":"%char) then EmptyString else String c (before_colon s')
  end.

Lemma before_colon_app a b : has_colon a = false → before_colon (a +:+ ":" +:+ b) = a.
Proof.
  induction a as [|c a IH]; intros H; [done|]. simpl in H. apply orb_false_iff in H as [Hc H].
  apply bool_decide_eq_false in Hc. simpl. rewrite decide_False by done. f_equal. by apply IH.
Qed.

(** ** Expired checkouts *)

Definition swept_status (attempts : Z) : WorkitemState :=
  if decide (attempts + 1 < WORKITEM_MAX_ATTEMPTS)%Z then wi_retry else wi_abandoned.

Definition swept_row (row : WorkitemRow) : WorkitemRow :=
  mkWorkitemRow (swept_status (w_attempts row)) (w_attempts row + 1) (w_checked_out_by row) (w_checked_out_at row)
    (w_checkout_expires_at row) (w_checkout_paused_at row).

(** Whether sweeping the row leaves a dead letter. *)
Definition gives_up (row : WorkitemRow) : Prop :=
  w_status row = wi_processing ∧ swept_status (w_attempts row) = wi_abandoned.

Definition letter_key (id : string) (attempts : Z) : string :=
  outbox_key (id +:+ ":checkout_expired:" +:+ pretty attempts) workitem_dead_lettered_e.

Lemma letter_key_inj i j a b : has_colon i = false → has_colon j = false →
  letter_key i a = letter_key j b → i = j.
Proof.
  intros Hi Hj. unfold letter_key, outbox_key. intros H%(f_equal before_colon).
  replace (i +:+ ":checkout_expired:" +:+ pretty a) with (i +:+ ":" +:+ ("checkout_expired:" +:+ pretty a)) in H by done.
  replace (j +:+ ":checkout_expired:" +:+ pretty b) with (j +:+ ":" +:+ ("checkout_expired:" +:+ pretty b)) in H by done.
  rewrite !str_app_assoc in H. simpl in H. by rewrite !before_colon_app in H.
Qed.

(** One row of the sweep: a workitem that is still processing is taken back,
    and nothing happens to one that another row has already taken back. *)
Lemma sweep_processing c w d row : workitems d !! ex_id w = Some row → w_status row = wi_processing →
  w_attempts row = ex_attempts w →
  let d1 := set_workitems (<[ex_id w := swept_row row]> (workitems d)) d in
  sweep_checkout c w d =
  if decide (swept_status (w_attempts row) = wi_abandoned)
  then match emitOutboxEvent (mkEmit workitem_dead_lettered_e c (ex_run_id w) (Some (ex_id w)) None None
               (letter_key (ex_id w) (ex_attempts w)) None) d1 with
       | Ok (_, d2) => Ok (tt, push_dead_letter (mkDeadLetterRow (ex_id w) (ex_run_id w) "DEAD_LETTER" None true) d2)
       | Err e => Err e
       end
  else Ok (tt, d1).
Proof.
  intros Hl Hs Ha d1. unfold sweep_checkout, applyWorkitemTransition. simpl.
  unfold d1, swept_row. rewrite Ha.
  destruct (ex_attempts w + 1 <? WORKITEM_MAX_ATTEMPTS)%Z eqn:E.
  - assert (swept_status (ex_attempts w) = wi_retry) as ->
      by (unfold swept_status; apply Z.ltb_lt in E; by rewrite decide_True).
    unfold mbind, Tx_bind, select, update. simpl. rewrite Hl, decide_True by done. unfold updated_workitem. simpl.
    by rewrite Ha.
  - assert (swept_status (ex_attempts w) = wi_abandoned) as ->
      by (unfold swept_status; apply Z.ltb_ge in E; rewrite decide_False by lia; done).
    unfold mbind, Tx_bind, select, update. simpl. rewrite Hl, decide_True by done. unfold updated_workitem. simpl.
    rewrite Ha. unfold letter_key, mbind, Tx_bind. by destruct (emitOutboxEvent _ _) as [[]|].
Qed.

Lemma sweep_other c w d row : workitems d !! ex_id w = Some row → w_status row ≠ wi_processing →
  sweep_checkout c w d = Ok (tt, d).
Proof.
  intros Hl Hs. unfold sweep_checkout, applyWorkitemTransition. simpl.
  destruct (ex_attempts w + 1 <? WORKITEM_MAX_ATTEMPTS)%Z;
    unfold mbind, Tx_bind, select, update; simpl; by rewrite Hl, decide_False.
Qed.

(** The rows the sweep has read, with respect to the table it works on. *)
Definition read_rows (ws : list ExpiredRow) (d : Db) : Prop :=
  ∀ w, w ∈ ws → ∃ row, workitems d !! ex_id w = Some row ∧ (w_status row = wi_processing → w_attempts row = ex_attempts w).

(** The tables after the rows [ws] have been swept. *)
Record swept (ids : list string) (d d' : Db) : Prop := {
  sw_now : db_now d' = db_now d;
  sw_runs : runs d' = runs d;
  sw_tasks : human_tasks d' = human_tasks d;
  sw_workitems : ∀ id, workitems d' !! id =
    (λ row, if decide (id ∈ ids ∧ w_status row = wi_processing) then swept_row row else row) <$> workitems d !! id;
  sw_letters : ∃ letters, dead_letter d' = dead_letter d ++ letters ∧ NoDup (map dl_workitem_id letters) ∧
    ∀ id, id ∈ map dl_workitem_id letters ↔ ∃ row, workitems d !! id = Some row ∧ id ∈ ids ∧ gives_up row
}.

Lemma swept_nil d : swept [] d d.
Proof.
  split; try done.
  - intros id. by destruct (workitems d !! id).
  - exists []. rewrite app_nil_r. split_and!; [done|constructor|]. intros id. simpl. set_solver.
Qed.

Lemma swept_row_done row : w_status (swept_row row) ≠ wi_processing.
Proof. unfold swept_row, swept_status. simpl. by case_decide. Qed.

Lemma read_rows_cons w ws d d' row : read_rows (w :: ws) d → workitems d !! ex_id w = Some row →
  (workitems d' = workitems d ∨ workitems d' = <[ex_id w := swept_row row]> (workitems d)) → read_rows ws d'.
Proof.
  intros Hr Hl Hd w' Hw'. destruct (Hr w') as (row' & Hl' & Ha'); [by right|]. destruct Hd as [->| ->]; [by exists row'|].
  destruct (decide (ex_id w' = ex_id w)) as [->|Hne].
  - exists (swept_row row). rewrite lookup_insert_eq. split; [done|]. intros H. by apply swept_row_done in H.
  - exists row'. by rewrite lookup_insert_ne.
Qed.

Lemma swept_cons_skip w ids d d' : swept ids d d' →
  (∀ row, workitems d !! w = Some row → w_status row ≠ wi_processing) → swept (w :: ids) d d'.
Proof.
  intros [H1 H2 H3 H4 (letters & H5 & H6 & H7)] Hw. split; try done.
  - intros id. rewrite H4. destruct (workitems d !! id) as [row|] eqn:E; [|done].
    unfold fmap, option_fmap, option_map. f_equal. destruct (decide (id = w)) as [->|Hne].
    + apply Hw in E. rewrite !decide_False by naive_solver. done.
    + apply decide_ext. set_solver.
  - exists letters. split_and!; [done..|]. intros id. rewrite H7. split.
    + intros (row & ? & ? & ?). exists row. set_solver.
    + intros (row & Hl & [->|?]%elem_of_cons & Hg); [|by exists row]. destruct (Hw row Hl). apply Hg.
Qed.

Definition letters_of (w : ExpiredRow) (row : WorkitemRow) : list DeadLetterRow :=
  if decide (swept_status (w_attempts row) = wi_abandoned)
  then [mkDeadLetterRow (ex_id w) (ex_run_id w) "DEAD_LETTER" None true] else [].

Lemma swept_cons w ids d d1 d' row : workitems d !! ex_id w = Some row → w_status row = wi_processing →
  db_now d1 = db_now d → runs d1 = runs d → human_tasks d1 = human_tasks d →
  workitems d1 = <[ex_id w := swept_row row]> (workitems d) → dead_letter d1 = dead_letter d ++ letters_of w row →
  swept ids d1 d' → swept (ex_id w :: ids) d d'.
Proof.
  intros Hl Hs E1 E2 E3 E4 E5 [H1 H2 H3 H4 (letters & H5 & H6 & H7)]. split; [congruence..| |].
  - intros id. rewrite H4, E4. destruct (decide (id = ex_id w)) as [->|Hne].
    + rewrite lookup_insert_eq, Hl. unfold fmap, option_fmap, option_map. f_equal.
      rewrite decide_False by (intros [_ H]; by apply swept_row_done in H). rewrite decide_True by set_solver. done.
    + rewrite lookup_insert_ne by done. destruct (workitems d !! id) as [row'|]; [|done].
      unfold fmap, option_fmap, option_map. f_equal. apply decide_ext. set_solver.
  - exists (letters_of w row ++ letters). rewrite H5, E5, <-app_assoc, map_app.
    assert (Hid : ∀ id, id ∈ map dl_workitem_id (letters_of w row) ↔ id = ex_id w ∧ gives_up row).
    { intros id. unfold letters_of, gives_up. case_decide; simpl; set_solver. }
    assert (Hno : ∀ id, id ∈ map dl_workitem_id letters → id ≠ ex_id w).
    { intros id (row' & Hl' & _ & Hg & _)%H7 ->. rewrite E4, lookup_insert_eq in Hl'. injection Hl' as <-.
      by apply swept_row_done in Hg. }
    split_and!; [done| |].
    + apply NoDup_app. split_and!; [|by intros id [-> _]%Hid ?%Hno|done].
      unfold letters_of. case_decide; repeat constructor; set_solver.
    + intros id. rewrite elem_of_app, Hid. split.
      * intros [[-> Hg]|Hin]; [exists row; set_solver|]. assert (Hne := Hno id Hin).
        apply H7 in Hin as (row' & Hl' & ? & ?). rewrite E4, lookup_insert_ne in Hl' by done. exists row'. set_solver.
      * intros (row' & Hl' & Hin & Hg). destruct (decide (id = ex_id w)) as [->|Hne].
        -- left. split; [done|congruence].
        -- right. apply H7. exists row'. rewrite E4, lookup_insert_ne by done. set_solver.
Qed.

Lemma sweep_checkouts_swept c ws : ∀ d u d', read_rows ws d → sweep_checkouts c ws d = Ok (u, d') →
  swept (map ex_id ws) d d'.
Proof.
  induction ws as [|w ws IH]; intros d u d' Hr; cbn [sweep_checkouts]; [intros [= _ <-]; apply swept_nil|].
  intros (u1 & d1 & Hw & H)%Tx_bind_Ok. destruct (Hr w) as (row & Hl & Ha); [by left|]. simpl.
  destruct (decide (w_status row = wi_processing)) as [Hs|Hs].
  - rewrite (sweep_processing c w d row Hl Hs (Ha Hs)) in Hw.
    assert (Hd1 : db_now d1 = db_now d ∧ runs d1 = runs d ∧ human_tasks d1 = human_tasks d ∧
      workitems d1 = <[ex_id w := swept_row row]> (workitems d) ∧ dead_letter d1 = dead_letter d ++ letters_of w row).
    { unfold letters_of. case_decide.
      - destruct (emitOutboxEvent _ _) as [[o d2]|] eqn:Ho; [|done].
        apply emitOutboxEvent_Ok in Ho as (-> & _). by injection Hw as _ <-.
      - injection Hw as _ <-. simpl. by rewrite app_nil_r. }
    destruct Hd1 as (E1 & E2 & E3 & E4 & E5). eapply swept_cons; [done..|]. eapply IH; [|done].
    eapply read_rows_cons; eauto.
  - rewrite (sweep_other c w d row Hl Hs) in Hw. injection Hw as _ <-.
    apply swept_cons_skip; [|by intros row' Hl'; congruence]. eapply IH; [|done]. eapply read_rows_cons; eauto.
Qed.

Lemma sweep_checkouts_total c ws : ∀ d, read_rows ws d → (∀ w, w ∈ ws → has_colon (ex_id w) = false) →
  (∀ w row, w ∈ ws → workitems d !! ex_id w = Some row → gives_up row →
     key_free (letter_key (ex_id w) (ex_attempts w)) d) →
  ∃ d', sweep_checkouts c ws d = Ok (tt, d').
Proof.
  induction ws as [|w ws IH]; intros d Hr Hc Hk; cbn [sweep_checkouts]; [by eexists|].
  destruct (Hr w) as (row & Hl & Ha); [by left|]. unfold mbind, Tx_bind.
  destruct (decide (w_status row = wi_processing)) as [Hs|Hs].
  - rewrite (sweep_processing c w d row Hl Hs (Ha Hs)). case_decide as Hab.
    + edestruct (emitOutboxEvent_free workitem_dead_lettered_e c (ex_run_id w) (Some (ex_id w))
        (letter_key (ex_id w) (ex_attempts w)) None (set_workitems (<[ex_id w:=swept_row row]> (workitems d)) d))
        as (o & Ho & _ & Hkey); [done|apply (Hk w row); [by left|done|by split]|]. rewrite Ho.
      apply IH; [eapply read_rows_cons; eauto|by intros; apply Hc; right|].
      intros w' row' Hw' Hl' Hg. simpl in Hl'. destruct (decide (ex_id w' = ex_id w)) as [E|Hne].
      { rewrite E, lookup_insert_eq in Hl'. injection Hl' as <-. destruct Hg as [Hg _]. by apply swept_row_done in Hg. }
      rewrite lookup_insert_ne in Hl' by done. apply (key_free_add _ [o]); [by apply (Hk w' row'); [right|..]|].
      intros o' ->%list_elem_of_singleton. rewrite Hkey. intros E%letter_key_inj; [done|apply Hc; by left|apply Hc; by right].
    + apply IH; [eapply read_rows_cons; eauto|by intros; apply Hc; right|].
      intros w' row' Hw' Hl' Hg. simpl in Hl'. destruct (decide (ex_id w' = ex_id w)) as [E|Hne].
      { rewrite E, lookup_insert_eq in Hl'. injection Hl' as <-. destruct Hg as [Hg _]. by apply swept_row_done in Hg. }
      rewrite lookup_insert_ne in Hl' by done. by apply (Hk w' row'); [right|..].
  - rewrite (sweep_other c w d row Hl Hs). apply IH; [eapply read_rows_cons; eauto|by intros; apply Hc; right|].
    intros w' row' Hw'. apply Hk. by right.
Qed.

(** ** The sweep of a table *)

Lemma joined_runs_nonempty d id : ∃ r, r ∈ joined_runs d id.
Proof. unfold joined_runs. destruct (filter _ _) as [|p l]; [exists None|exists (Some p.1)]; set_solver. Qed.

Lemma expired_rows_elem locked d w : w ∈ expired_rows locked d ↔
  ∃ row, workitems d !! ex_id w = Some row ∧ checkout_expired (db_now d) row = true ∧ locked (ex_id w) = false ∧
         ex_attempts w = w_attempts row ∧ ex_run_id w ∈ joined_runs d (ex_id w).
Proof.
  unfold expired_rows. rewrite list_elem_of_bind. split.
  - intros ([id row] & Hw & [[He Hlk] Hin]%list_elem_of_filter). apply list_elem_of_fmap in Hw as (r & -> & Hr).
    apply elem_of_map_to_list in Hin. by exists row.
  - intros (row & Hl & He & Hlk & Ha & Hr). exists (ex_id w, row). split.
    + simpl. apply list_elem_of_fmap. exists (ex_run_id w). split; [|done]. rewrite <-Ha. by destruct w.
    + apply list_elem_of_filter. split; [done|]. by apply elem_of_map_to_list.
Qed.

Lemma expired_processing now row : checkout_expired now row = true → w_status row = wi_processing.
Proof. unfold checkout_expired. intros H. apply andb_true_iff in H as [[H _]%andb_true_iff _]. by apply bool_decide_eq_true in H. Qed.

Lemma expired_ids locked d id row : workitems d !! id = Some row →
  id ∈ map ex_id (expired_rows locked d) ↔ checkout_expired (db_now d) row = true ∧ locked id = false.
Proof.
  intros Hl. rewrite list_elem_of_fmap. setoid_rewrite expired_rows_elem. split.
  - intros (w & -> & row' & Hl' & He & Hlk & _). rewrite Hl in Hl'. by injection Hl' as <-.
  - intros [He Hlk]. destruct (joined_runs_nonempty d id) as [r Hr]. exists (mkExpired id (w_attempts row) r).
    split; [done|]. by exists row.
Qed.

Lemma read_expired locked d : read_rows (expired_rows locked d) d.
Proof. intros w (row & Hl & _ & _ & Ha & _)%expired_rows_elem. by exists row. Qed.

Lemma requireString_Ok s label d : blank s = false → requireString (Some s) label d = Ok (s, d).
Proof. intros H. unfold requireString. by rewrite H. Qed.

Lemma requireString_inv o label d s d' : requireString o label d = Ok (s, d') → o = Some s ∧ d' = d.
Proof. unfold requireString. destruct o as [x|]; [|done]. destruct (blank x); [done|]. by intros [= -> ->]. Qed.

Lemma sweeper_swept locked job d res d' : handleWorkitemCheckoutSweeper locked job d = Ok (res, d') →
  res = completed [] ∧ swept (map ex_id (expired_rows locked d)) d d'.
Proof.
  unfold handleWorkitemCheckoutSweeper. intros (tn & d0 & [_ ->]%requireString_inv & H)%Tx_bind_Ok.
  apply Tx_bind_Ok in H as (c & d0 & [_ ->]%requireString_inv & H).
  apply Tx_bind_Ok in H as (ws & d1 & [= <- <-] & H). apply Tx_bind_Ok in H as (u & d1 & Hs & [= <- <-]).
  split; [done|]. eapply sweep_checkouts_swept; [apply read_expired|done].
Qed.

(** What a sweep of checkouts does.  It succeeds whenever the events of the
    abandoned workitems can be written; then exactly the workitems whose
    unpaused checkout has expired (and that no other transaction holds) are
    taken back: one more attempt, and retry while attempts remain or abandoned
    otherwise; every other workitem, every run and every human task is as
    before; and the new dead letters are one for each workitem abandoned by the
    sweep and no other. *)
Theorem checkout_sweep_spec locked job tenant c d : wj_tenantId job = Some tenant → blank tenant = false →
  wj_correlationId job = Some c → blank c = false →
  (∀ id row, workitems d !! id = Some row → has_colon id = false ∧
     (checkout_expired (db_now d) row = true → swept_status (w_attempts row) = wi_abandoned →
      key_free (letter_key id (w_attempts row)) d)) →
  ∃ d', handleWorkitemCheckoutSweeper locked job d = Ok (completed [], d') ∧
    runs d' = runs d ∧ human_tasks d' = human_tasks d ∧
    let taken id row := checkout_expired (db_now d) row && negb (locked id) in
    (∀ id, workitems d' !! id = (λ row, if taken id row then swept_row row else row) <$> workitems d !! id) ∧
    ∃ letters, dead_letter d' = dead_letter d ++ letters ∧ NoDup (map dl_workitem_id letters) ∧
      ∀ id, id ∈ map dl_workitem_id letters ↔
        ∃ row, workitems d !! id = Some row ∧ taken id row = true ∧ swept_status (w_attempts row) = wi_abandoned.
Proof.
  intros Htn Hbt Hc Hb Hk.
  destruct (sweep_checkouts_total c (expired_rows locked d) d (read_expired locked d)) as [d' Hd'].
  { intros w (row & Hl & _)%expired_rows_elem. by destruct (Hk _ _ Hl). }
  { intros w row (row' & Hl' & He & _ & -> & _)%expired_rows_elem Hl [_ Hg]. rewrite Hl in Hl'. injection Hl' as <-.
    by apply (Hk _ _ Hl). }
  assert (E : handleWorkitemCheckoutSweeper locked job d = Ok (completed [], d')).
  { unfold handleWorkitemCheckoutSweeper. unfold mbind, Tx_bind. rewrite Htn, Hc, !requireString_Ok by done.
    unfold select. by rewrite Hd'. }
  exists d'. split; [done|]. apply sweeper_swept in E as [_ [_ H2 H3 H4 (letters & H5 & H6 & H7)]].
  assert (Ht : ∀ id row, workitems d !! id = Some row →
    id ∈ map ex_id (expired_rows locked d) ↔ checkout_expired (db_now d) row && negb (locked id) = true).
  { intros id row Hl. rewrite (expired_ids locked d id row Hl), andb_true_iff, negb_true_iff. done. }
  split; [done|]. split; [done|]. intros taken. split.
  - intros id. rewrite H4. destruct (workitems d !! id) as [row|] eqn:Hl; [|done].
    unfold fmap, option_fmap, option_map. f_equal. specialize (Ht id row Hl). unfold taken.
    destruct (checkout_expired (db_now d) row && negb (locked id)) eqn:E.
    + rewrite decide_True; [done|]. split; [by apply Ht|]. apply andb_true_iff in E as [E _].
      by eapply expired_processing.
    + rewrite decide_False; [done|]. intros [?%Ht _]. congruence.
  - exists letters. split_and!; [done..|]. intros id. rewrite H7. unfold taken. split.
    + intros (row & Hl & Hin & _ & Hg). exists row. by rewrite <-(Ht id row Hl).
    + intros (row & Hl & Htk & Hg). exists row. rewrite (Ht id row Hl). split_and!; [done..|].
      split; [|done]. apply andb_true_iff in Htk as [E _]. by eapply expired_processing.
Qed.

Lemma checkout_sweep_spec_witness :
  let row n := mkWorkitemRow wi_processing n (Some "worker") (Some 0%Z) (Some 600000%Z) None in
  let d := mkDb 600001 0 ∅ (<["a" := row 2%Z]> {[ "b" := row 0%Z ]}) [] [] [] [] [] [] in
  ∃ d', handleWorkitemCheckoutSweeper (λ _, false) (mkJob (Some "t") None None (Some "c")) d = Ok (completed [], d') ∧
    workitems d' !! "a" = Some (swept_row (row 2%Z)) ∧ w_status (swept_row (row 2%Z)) = wi_abandoned.
Proof.
  intros row d.
  assert (Hk : ∀ id r, workitems d !! id = Some r → has_colon id = false ∧
     (checkout_expired (db_now d) r = true → swept_status (w_attempts r) = wi_abandoned →
      key_free (letter_key id (w_attempts r)) d)).
  { intros id r. unfold d. simpl. rewrite lookup_insert_Some, lookup_singleton_Some.
    intros [[<- _]|[_ [<- _]]]; (split; [done|intros _ _ o ?%elem_of_nil; done]). }
  destruct (checkout_sweep_spec (λ _, false) (mkJob (Some "t") None None (Some "c")) "t" "c" d eq_refl eq_refl eq_refl eq_refl Hk)
    as (d' & E & _ & _ & H & _).
  exists d'. split_and!; [exact E| |done]. by rewrite H.
Defined.

(** ** The timer of a checkout *)

Lemma updated_workitem_same now ctx row effs : w_status row = wi_processing →
  wt_event ctx = wev_run_suspended ∨ wt_event ctx = wev_run_resumed →
  hasSetField e_workitem "checked_out_by" effs = false → hasSetField e_workitem "checked_out_at" effs = false →
  hasSetField e_workitem "attempts" effs = false →
  updated_workitem now ctx (mkTransition wi_processing effs) row = row.
Proof.
  intros Hs He H1 H2 H3. unfold updated_workitem. simpl. rewrite H1, H2, H3. destruct row as [st ? ? ? ? ?]. simpl in *.
  subst st. by destruct He as [-> | ->].
Qed.

Lemma set_checkout_row f wid d row : workitems d !! wid = Some row →
  ∃ d', set_checkout f wid d = Ok (tt, d') ∧ db_now d' = db_now d ∧
        workitems d' !! wid = Some (default row (f (db_now d) row)).
Proof.
  intros Hl. unfold set_checkout, update. rewrite Hl.
  destruct (f (db_now d) row) as [row'|]; eexists; (split; [reflexivity|split; [done|]]); simpl; [|done].
  apply lookup_insert_eq.
Qed.

(** Pausing or resuming the checkout of a processing workitem runs the statement
    of the timer on its row and succeeds. *)
Lemma checkout_timer_step (suspend : bool) runId wid c d row : linked d runId = Some wid →
  workitems d !! wid = Some row → w_status row = wi_processing →
  ∃ d', (if suspend then pauseLinkedWorkitemCheckout else resumeLinkedWorkitemCheckout) runId c d = Ok (tt, d') ∧
    db_now d' = db_now d ∧
    workitems d' !! wid = Some (default row ((if suspend then pause_checkout else resume_checkout) (db_now d) row)).
Proof.
  intros Hk Hl Hs.
  assert (Hk' : (runs d !! runId ≫= λ r, r_workitem_id r) = Some wid) by exact Hk.
  destruct suspend; unfold pauseLinkedWorkitemCheckout, resumeLinkedWorkitemCheckout, checkout_transition,
    resolveLinkedWorkitemId, select; unfold mbind at 1, Tx_bind at 1; rewrite Hk'; unfold applyWorkitemTransition;
    simpl; unfold mbind, Tx_bind, select, update; simpl; rewrite Hl, decide_True by done; simpl;
    rewrite updated_workitem_same by (done || by auto); rewrite ?assertExactPendingKinds_refl; simpl;
    exact (set_checkout_row _ wid (set_workitems (<[wid:=row]> (workitems d)) d) row (lookup_insert_eq _ _ _)).
Qed.

Section Timer.
Context (runId wid : string).

Definition paused_at (d : Db) : option Z := workitems d !! wid ≫= w_checkout_paused_at.

(** A checkout of the workitem at time [t0], followed by suspensions and
    resumptions of its run and by anything that does not touch the workitem;
    [total] is the length of the finished suspensions. *)
Inductive checkout_history (t0 : Z) : Z → Db → Prop :=
| ch_checkout job worker d es d' : wj_workitemId job = Some wid → db_now d = t0 → paused_at d = None →
    handleWorkitemCheckout worker job d = Ok (completed es, d') → checkout_history t0 0 d'
| ch_suspend total c d d' : checkout_history t0 total d → linked d runId = Some wid →
    pauseLinkedWorkitemCheckout runId c d = Ok (tt, d') → checkout_history t0 total d'
| ch_resume total c d d' : checkout_history t0 total d → linked d runId = Some wid →
    resumeLinkedWorkitemCheckout runId c d = Ok (tt, d') →
    checkout_history t0 (total + match paused_at d with Some p => db_now d - p | None => 0 end) d'
| ch_other total d d' : checkout_history t0 total d → (db_now d <= db_now d')%Z →
    workitems d' !! wid = workitems d !! wid → checkout_history t0 total d'.

(** A successful checkout of a new workitem starts its timer. *)
Lemma checkout_starts job worker d es d' : wj_workitemId job = Some wid →
  handleWorkitemCheckout worker job d = Ok (completed es, d') →
  ∃ row, workitems d !! wid = Some row ∧ w_status row = wi_new ∧ db_now d' = db_now d ∧
    workitems d' !! wid = Some (mkWorkitemRow wi_processing (w_attempts row) worker (Some (db_now d))
      (Some (db_now d + WORKITEM_CHECKOUT_TIMEOUT_MS)%Z) (w_checkout_paused_at row)).
Proof.
  intros Hj. unfold handleWorkitemCheckout. intros (tn & d0 & [_ ->]%requireString_inv & H)%Tx_bind_Ok.
  apply Tx_bind_Ok in H as (i & d0 & [Hi ->]%requireString_inv & H). rewrite Hj in Hi. injection Hi as <-.
  apply Tx_bind_Ok in H as (c & d0 & [_ ->]%requireString_inv & H).
  apply Tx_bind_Ok in H as (w & d0 & [-> ->]%requireString_inv & H).
  apply Tx_bind_Ok in H as (row & d0 & [= <- <-] & H). destruct (workitems d !! wid) as [row|] eqn:Hl; [|done].
  case_decide as Hs; [|done]. exists row. split; [done|]. split; [done|].
  apply Tx_bind_Ok in H as (o & d1 & Ho & H). unfold applyWorkitemTransition in Ho. simpl in Ho.
  unfold mbind, Tx_bind, select, update in Ho. simpl in Ho. rewrite Hl, decide_True in Ho by done. injection Ho as <- <-.
  simpl in H. apply Tx_bind_Ok in H as (u & d2 & Hst & [= <- <-]).
  unfold stamp_checkout, set_checkout, update in Hst. simpl in Hst. rewrite lookup_insert_eq in Hst.
  injection Hst as _ <-. simpl. split; [done|]. by rewrite lookup_insert_eq.
Qed.

(** Invariant of the timer. *)
Lemma timer_inv t0 total d : checkout_history t0 total d → (0 <= total)%Z ∧
  ∃ row, workitems d !! wid = Some row ∧ w_status row = wi_processing ∧
    w_checkout_expires_at row = Some (t0 + total + WORKITEM_CHECKOUT_TIMEOUT_MS)%Z ∧
    (∀ p, w_checkout_paused_at row = Some p → (t0 + total <= p <= db_now d)%Z) ∧ (t0 + total <= db_now d)%Z.
Proof.
  induction 1 as [job worker d es d' Hj Hn Hp H|total c d d' _ [IH0 IH] Hk H|total c d d' _ [IH0 IH] Hk H
    |total d d' _ [IH0 IH] Hle H].
  - split; [done|]. destruct (checkout_starts job worker d es d' Hj H) as (row & Hl & _ & Hd & Hl').
    unfold paused_at in Hp. rewrite Hl in Hp. simpl in Hp. eexists. split_and!; [exact Hl'|done|simpl; f_equal; lia| |lia].
    intros p. simpl. rewrite Hp. done.
  - split; [done|]. destruct IH as (row & Hl & Hs & He & Hp & Hle).
    destruct (checkout_timer_step true runId wid c d row Hk Hl Hs) as (d1 & E & Hd & Hl'). rewrite H in E.
    injection E as <-. eexists. split; [exact Hl'|]. rewrite Hd. unfold pause_checkout.
    case_decide as Hc; simpl; [|by split_and!]. split_and!; [done..| |done]. intros p [= <-]. lia.
  - destruct IH as (row & Hl & Hs & He & Hp & Hle).
    destruct (checkout_timer_step false runId wid c d row Hk Hl Hs) as (d1 & E & Hd & Hl'). rewrite H in E.
    injection E as <-. unfold paused_at. rewrite Hl. simpl. unfold resume_checkout in Hl'.
    rewrite decide_True in Hl' by done. destruct (w_checkout_paused_at row) as [p|] eqn:Ep.
    + specialize (Hp p eq_refl). split; [lia|]. eexists. split_and!; [exact Hl'|done| |done|lia].
      simpl. rewrite He. simpl. f_equal. lia.
    + split; [lia|]. eexists. split_and!; [exact Hl'|done|simpl; rewrite He; f_equal; lia|by simpl; rewrite Ep|lia].
  - split; [done|]. destruct IH as (row & Hl & Hs & He & Hp & Ht). exists row. rewrite H.
    split_and!; [done..| |lia]. intros p Ep. specialize (Hp p Ep). lia.
Qed.
End Timer.

(** The timer of a checkout is exact.  However often the run of a checked
    out workitem is suspended and resumed, and whatever else happens, as long as
    nothing else writes the workitem: it stays processing, and a sweep takes it
    back exactly when the run is not suspended and the time during which it was
    not suspended since the checkout exceeds ten minutes. *)
Theorem checkout_timer_exact runId wid t0 total d : checkout_history runId wid t0 total d →
  ∃ row, workitems d !! wid = Some row ∧ w_status row = wi_processing ∧
    let unsuspended := (default (db_now d) (w_checkout_paused_at row) - t0 - total)%Z in
    (0 <= unsuspended)%Z ∧
    ∀ locked job res d', handleWorkitemCheckoutSweeper locked job d = Ok (res, d') → locked wid = false →
      workitems d' !! wid = Some
        (if decide (w_checkout_paused_at row = None ∧ WORKITEM_CHECKOUT_TIMEOUT_MS < unsuspended)%Z
         then swept_row row else row).
Proof.
  intros H. apply timer_inv in H as (H0 & row & Hl & Hs & He & Hp & Ht). exists row. split; [done|]. split; [done|].
  intros unsuspended. split.
  { unfold unsuspended. destruct (w_checkout_paused_at row) as [p|]; simpl; [specialize (Hp p eq_refl)|]; lia. }
  intros locked job res d' [_ [_ _ _ H4 _]]%sweeper_swept Hlk. rewrite H4, Hl. unfold fmap, option_fmap, option_map.
  f_equal. apply decide_ext. rewrite (expired_ids locked d wid row Hl). unfold checkout_expired. rewrite He.
  rewrite !andb_true_iff, !bool_decide_eq_true, Z.ltb_lt. unfold unsuspended.
  destruct (w_checkout_paused_at row); simpl; naive_solver lia.
Qed.

(** The tables at another time, and after a transaction. *)
Definition at_time (t : Z) (d : Db) : Db :=
  mkDb t (db_ids d) (runs d) (workitems d) (human_tasks d) (events_outbox d) (dead_letter d) (pause_requests d)
    (run_steps d) (jobs d).
Definition committed {A} (body : Tx A) (d : Db) : Db := match body d with Ok (_, d') => d' | Err _ => d end.

Lemma committed_Ok {A} (body : Tx A) d a :
  match body d with Ok (a', _) => a' = a | Err _ => False end → body d = Ok (a, committed body d).
Proof. unfold committed. destruct (body d) as [[a' d']|]; [|done]. by intros ->. Qed.

Definition timer_job : WorkerJob := mkJob (Some "t") None (Some "w") (Some "c").
Definition timer_start : Db :=
  mkDb 0 0 {[ "r" := mkRunRow run_running (Some "w") None 0 0 None None None None None ]}
    {[ "w" := mkWorkitemRow wi_new 0 None None None None ]} [] [] [] [] [] [].
Definition timer_checked_out : Db := committed (handleWorkitemCheckout (Some "worker") timer_job) timer_start.
Definition timer_suspended : Db := committed (pauseLinkedWorkitemCheckout "r" "c") (at_time 500000 timer_checked_out).
Definition timer_resumed : Db := committed (resumeLinkedWorkitemCheckout "r" "c") (at_time 900000 timer_suspended).

Lemma checkout_timer_exact_witness :
  let swept_at t := handleWorkitemCheckoutSweeper (λ _, false) timer_job (at_time t timer_resumed) in
  checkout_history "r" "w" 0 400000 timer_resumed ∧
  (∀ d', swept_at 1000000%Z = Ok (completed [], d') → w_status <$> workitems d' !! "w" = Some wi_processing) ∧
  (∀ d', swept_at 1000001%Z = Ok (completed [], d') → w_status <$> workitems d' !! "w" = Some wi_retry).
Proof.
  intros swept_at.
  assert (H3 : checkout_history "r" "w" 0 400000 timer_resumed).
  { assert (E : paused_at "w" (at_time 900000 timer_suspended) = Some 500000%Z) by (vm_compute; reflexivity).
    pose proof (ch_resume "r" "w" 0 0 "c" (at_time 900000 timer_suspended) timer_resumed) as H. rewrite E in H.
    apply H; clear H E; [|vm_compute; reflexivity|apply (committed_Ok _ _ tt); vm_compute; reflexivity].
    apply (ch_other _ _ _ _ timer_suspended); [|vm_compute; discriminate|reflexivity].
    apply (ch_suspend "r" "w" 0 0 "c" (at_time 500000 timer_checked_out)); [|vm_compute; reflexivity|apply committed_Ok; vm_compute; reflexivity].
    apply (ch_other _ _ _ _ timer_checked_out); [|vm_compute; discriminate|reflexivity].
    apply (ch_checkout "r" "w" 0 timer_job (Some "worker") timer_start []);
      [reflexivity|reflexivity|vm_compute; reflexivity|apply committed_Ok; vm_compute; reflexivity]. }
  assert (Hat : ∀ t, (900000 <= t)%Z → checkout_history "r" "w" 0 400000 (at_time t timer_resumed)).
  { intros t Ht. eapply ch_other; [exact H3|exact Ht|reflexivity]. }
  assert (Hw : workitems timer_resumed !! "w" =
    Some (mkWorkitemRow wi_processing 0 (Some "worker") (Some 0%Z) (Some 1000000%Z) None)) by (vm_compute; reflexivity).
  split; [exact H3|]. split.
  - intros d' E. destruct (checkout_timer_exact "r" "w" 0 400000 _ (Hat 1000000%Z ltac:(lia))) as (row & Hl & _ & _ & H).
    rewrite (H _ _ _ _ E eq_refl). change (workitems timer_resumed !! "w" = Some row) in Hl. rewrite Hw in Hl. injection Hl as <-. reflexivity.
  - intros d' E. destruct (checkout_timer_exact "r" "w" 0 400000 _ (Hat 1000001%Z ltac:(lia))) as (row & Hl & _ & _ & H).
    rewrite (H _ _ _ _ E eq_refl). change (workitems timer_resumed !! "w" = Some row) in Hl. rewrite Hw in Hl. injection Hl as <-. reflexivity.
Defined.
