(* ===== verification/TimeoutProps.v ===== *)
(** * Deadlines of human tasks

    What [handleHumanTaskTimeoutSweeper] of [Sweepers] does to the human tasks,
    to the suspended runs that wait for them and to the workitems of these runs; and what becomes of a run whose workitem
    is taken back before it ends. *)

From stdpp Require Import base strings list gmap pretty sorting.
From Stdlib Require Import ZArith Lia.
From S2P Require Import Prelude StateMachine JsValue IrelLexer RuntimeStore FlowControl JsText HumanTask Interpreter Translate Database Settlement Driver DriverProps DriverRuns DriverEnds Sweepers SweeperProps.

Definition with_state (s : HumanTaskState) (h : HumanTaskRow) : HumanTaskRow :=
  mkHumanTaskRow (h_id h) (h_run_id h) (h_node_id h) (h_kind h) (h_assignee_role h) (h_on_timeout h) s
    (h_assignee h) (h_payload h) (h_result_schema h) (h_artifact_refs h) (h_result h) (h_expires_at h) (h_resolved_at h).

(** A task escalates when its policy says so and it has not escalated yet. *)
Definition escalates (h : HumanTaskRow) : bool :=
  bool_decide (h_state h ≠ ht_escalated ∧ h_on_timeout h = StateMachine.ot_escalate).

Definition timed_out (now : Z) (h : HumanTaskRow) : HumanTaskRow :=
  if escalates h then with_deadline (now + HUMAN_TASK_DEFAULT_TIMEOUT_MS) (with_state ht_escalated h)
  else with_state ht_expired h.

Lemma timed_out_id now h : h_id (timed_out now h) = h_id h.
Proof. unfold timed_out. by destruct (escalates h). Qed.

Definition timeout_event (h : HumanTaskRow) : EventEnvelopeType :=
  if escalates h then human_task_escalated_e else human_task_expired_e.

Lemma transition_timeout h : active_human_task (h_state h) = true →
  transitionHumanTask (h_state h) hev_timeout (timeout_guard h) =
  Ok (mkTransition (if escalates h then ht_escalated else ht_expired) [emitEvent (timeout_event h)]).
Proof.
  unfold timeout_guard, timeout_event, escalates.
  destruct (h_state h) eqn:Es; try done; intros _; destruct (h_on_timeout h) eqn:Eo; reflexivity.
Qed.

(** ** Tables of tasks with distinct identifiers *)

Definition set_task (now : Z) (id : string) (h : HumanTaskRow) : HumanTaskRow :=
  if decide (h_id h = id) then timed_out now h else h.

Lemma same_id (l : list HumanTaskRow) x y : NoDup (map h_id l) → x ∈ l → y ∈ l → h_id x = h_id y → x = y.
Proof.
  induction l as [|z l IH]; simpl; [set_solver|]. intros [Hz Hn]%NoDup_cons [->|Hx]%elem_of_cons [->|Hy]%elem_of_cons E;
    [done| | |by apply IH]; destruct Hz; apply list_elem_of_fmap; [by exists y|by exists x].
Qed.

Lemma set_task_ids now id l : map h_id (map (set_task now id) l) = map h_id l.
Proof.
  rewrite map_map. apply map_ext. intros h. unfold set_task. case_decide; [apply timed_out_id|done].
Qed.

Section Timeouts.
Context (run_correlation : string → string) (iso : Z → string).

Definition timeout_key (h : HumanTaskRow) : string :=
  outbox_key (h_id h +:+ ":timeout:" +:+ iso (h_expires_at h)) (timeout_event h).
Definition expiry_key (h : HumanTaskRow) : string :=
  outbox_key (h_run_id h +:+ ":" +:+ h_id h +:+ ":human_task_expired") run_failed_business_e.

(** The human task part of [timeout_one]: its row changes and its event is written. *)
Lemma human_task_timeout c h d : NoDup (map h_id (human_tasks d)) → h ∈ human_tasks d →
  active_human_task (h_state h) = true → key_free (timeout_key h) d →
  ∃ o d1, applyHumanTaskTransition (mkHumanCtx (h_id h) (h_run_id h) (h_state h) hev_timeout (timeout_guard h)
        c None (Some (h_id h +:+ ":timeout:" +:+ iso (h_expires_at h))) None) d =
      Ok (Applied (if escalates h then ht_escalated else ht_expired) [o] [], d1) ∧
    o_idempotencyKey o = timeout_key h ∧
    d1 = add_outbox [o] (set_human_tasks (map (λ x, if decide (h_id x = h_id h)
           then with_state (if escalates h then ht_escalated else ht_expired) x else x) (human_tasks d)) d).
Proof.
  intros Hn Hin Ha Hk. unfold applyHumanTaskTransition. cbn [hc_fromState hc_event hc_guard].
  rewrite (transition_timeout h Ha). unfold mbind, Tx_bind at 1, from_transition. simpl.
  unfold Tx_bind at 1, select. set (ctx := mkHumanCtx _ _ _ _ _ _ _ _ _).
  assert (Hhit : ∀ x, x ∈ human_tasks d → human_task_hit ctx x = bool_decide (h_id x = h_id h)).
  { intros x Hx. unfold human_task_hit. simpl. case_bool_decide as E; [|done].
    rewrite (same_id _ x h Hn Hx Hin E). by rewrite bool_decide_true. }
  assert (existsb (human_task_hit ctx) (human_tasks d) = true) as ->.
  { apply existsb_exists. exists h. split; [by apply list_elem_of_In|]. rewrite Hhit by done. by apply bool_decide_true. }
  unfold Tx_bind at 1, update. set (d0 := set_human_tasks _ d).
  destruct (emitOutboxEvent_free (timeout_event h) c (Some (h_run_id h)) None (timeout_key h) None d0) as (o & Ho & _ & Hok);
    [unfold timeout_event; by destruct (escalates h)|done|].
  unfold mbind, Tx_bind. fold (timeout_key h). cbn [hc_correlationId hc_runId hc_eventIdempotencyKey hc_occurredAt default].
  change (outbox_key _ (timeout_event h)) with (timeout_key h). rewrite Ho.
  exists o, (add_outbox [o] d0). split_and!; [done|done|]. f_equal. unfold d0. f_equal. apply list_fmap_ext.
  intros i x Hx%list_elem_of_lookup_2. rewrite Hhit by done. case_bool_decide; [|by rewrite decide_False].
  rewrite decide_True by done. unfold updated_human_task. simpl. unfold with_state. by destruct (escalates h).
Qed.

(** ** One task *)

(** The task expires and with it the run that is suspended for it. *)
Definition fails_run (h : HumanTaskRow) (d : Db) : Prop :=
  escalates h = false ∧ run_status d (h_run_id h) = Some run_suspended.
#[local] Instance fails_run_dec h d : Decision (fails_run h d).
Proof using. unfold fails_run. apply _. Defined.

Record timed (h : HumanTaskRow) (d d' : Db) : Prop := {
  ti_now : db_now d' = db_now d;
  ti_tasks : human_tasks d' = map (set_task (db_now d) (h_id h)) (human_tasks d);
  ti_link : ∀ r, linked d' r = linked d r;
  ti_runs : ∀ r, run_status d' r =
    if decide (r = h_run_id h ∧ fails_run h d) then Some run_failed_business else run_status d r;
  ti_workitems : ∀ w, workitems d' !! w =
    if decide (fails_run h d ∧ linked d (h_run_id h) = Some w)
    then settled_row rk_business WORKITEM_MAX_ATTEMPTS <$> workitems d !! w else workitems d !! w;
  ti_letters : dead_letter d' = dead_letter d;
  ti_outbox : ∃ es, events_outbox d' = events_outbox d ++ es ∧
    ∀ o, o ∈ es → o_idempotencyKey o = timeout_key h ∨ o_idempotencyKey o = expiry_key h ∧ fails_run h d
}.

(** R14 on a suspended run. *)
Lemma run_expiry r c anchor d row : runs d !! r = Some row → r_status row = run_suspended →
  key_free (outbox_key anchor run_failed_business_e) d →
  ∃ o row', applyRunTransition (mkRunCtx r run_suspended ev_human_task_expired run_guard_empty c None (Some anchor) None) d =
      Ok (Applied run_failed_business [o] [evaluateDeadLetter; notify None],
          add_outbox [o] (set_runs (<[r := row']> (runs d)) d)) ∧
    o_idempotencyKey o = outbox_key anchor run_failed_business_e ∧
    r_status row' = run_failed_business ∧ r_workitem_id row' = r_workitem_id row.
Proof.
  intros Hl Hs Hk. unfold applyRunTransition. simpl. unfold mbind, Tx_bind, select, update. simpl.
  rewrite Hl, decide_True by done. set (row' := updated_run _ _ _ _). set (d1 := set_runs _ d).
  destruct (emitOutboxEvent_free run_failed_business_e c (Some r) None (outbox_key anchor run_failed_business_e) None d1)
    as (o & Ho & _ & Hok); [done|done|]. unfold mbind, Tx_bind. rewrite Ho. by exists o, row'.
Qed.

(** R15 leaves the row of a suspended run as it is. *)
Lemma run_escalation r c anchor d row : runs d !! r = Some row → r_status row = run_suspended →
  applyRunTransition (mkRunCtx r run_suspended ev_human_task_escalated run_guard_empty c None (Some anchor) None) d =
  Ok (Applied run_suspended [] [reassignAssignee], set_runs (<[r := row]> (runs d)) d).
Proof.
  intros Hl Hs. unfold applyRunTransition. simpl. unfold mbind, Tx_bind, select, update. simpl.
  rewrite Hl, decide_True by done. unfold updated_run. simpl. destruct row; simpl in *; subst. by rewrite Z.add_0_r.
Qed.

Lemma run_moved r ev c anchor d t : transitionRun run_suspended ev run_guard_empty = Ok t →
  hasSetField e_run "worker_id" (sideEffects t) = false → run_status d r ≠ Some run_suspended →
  ∃ obs, applyRunTransition (mkRunCtx r run_suspended ev run_guard_empty c None (Some anchor) None) d =
         Ok (CasConflict obs, d).
Proof.
  intros Ht Hw Hs. unfold applyRunTransition. cbn [rt_fromStatus rt_event rt_guard]. rewrite Ht.
  unfold mbind, Tx_bind, from_transition, select.
  rewrite Hw. simpl. unfold run_status in Hs. destruct (runs d !! r) as [row|]; simpl in *; [|eauto].
  rewrite decide_False by congruence. eauto.
Qed.

(** What the sweep has read about a task is still true of the tables, but for a
    run that is no longer suspended. *)
Definition snapshot (task : DueHumanTaskRow) (d : Db) : Prop :=
  let r := h_run_id (due_task task) in
  (run_status d r = Some run_suspended → due_run_status task = Some run_suspended) ∧ due_workitem_id task = linked d r.

(** The events of the timeout can be written and the workitem can be settled. *)
Record timeable (h : HumanTaskRow) (d : Db) : Prop := {
  tb_key : key_free (timeout_key h) d;
  tb_expiry : fails_run h d → key_free (expiry_key h) d;
  tb_workitem : ∀ w, fails_run h d → linked d (h_run_id h) = Some w →
    ∃ row, workitems d !! w = Some row ∧ w_status row = wi_processing
}.

Lemma escalation_ok task c d : snapshot task d → applySuspendedRunEscalation task c d = Ok (tt, d).
Proof.
  intros [Hs _]. unfold applySuspendedRunEscalation. case_decide; [|done].
  set (r := h_run_id (due_task task)) in *. unfold mbind, Tx_bind.
  destruct (decide (run_status d r = Some run_suspended)) as [E|E].
  - unfold run_status in E. destruct (runs d !! r) as [row|] eqn:Hl; [|done]. injection E as E.
    rewrite (run_escalation _ _ _ _ _ Hl E). simpl. rewrite insert_id by done. by destruct d.
  - destruct (run_moved r ev_human_task_escalated (default c (due_correlation task))
      (r +:+ ":" +:+ h_id (due_task task) +:+ ":human_task_escalated") d _ eq_refl eq_refl E) as [obs ->]. done.
Qed.

(** The tables after the run of a task has ended with it, if it was suspended. *)
Record run_ended (h : HumanTaskRow) (d d' : Db) : Prop := {
  re_now : db_now d' = db_now d;
  re_tasks : human_tasks d' = human_tasks d;
  re_letters : dead_letter d' = dead_letter d;
  re_link : ∀ r, linked d' r = linked d r;
  re_runs : ∀ r, run_status d' r = if decide (r = h_run_id h ∧ run_status d (h_run_id h) = Some run_suspended)
    then Some run_failed_business else run_status d r;
  re_workitems : ∀ w, workitems d' !! w =
    if decide (run_status d (h_run_id h) = Some run_suspended ∧ linked d (h_run_id h) = Some w)
    then settled_row rk_business WORKITEM_MAX_ATTEMPTS <$> workitems d !! w else workitems d !! w;
  re_outbox : ∃ os, events_outbox d' = events_outbox d ++ os ∧
    ∀ o, o ∈ os → o_idempotencyKey o = expiry_key h ∧ run_status d (h_run_id h) = Some run_suspended
}.

Lemma run_ended_same h d : run_status d (h_run_id h) ≠ Some run_suspended → run_ended h d d.
Proof.
  intros E. split; try done.
  - intros r. by rewrite decide_False by tauto.
  - intros w. by rewrite decide_False by tauto.
  - exists []. rewrite app_nil_r. split; [done|]. by intros o ?%elem_of_nil.
Qed.

(** The run's transition, before the settlement of its workitem. *)
Lemma run_ended_row h d row row' o : runs d !! h_run_id h = Some row → r_status row = run_suspended →
  r_status row' = run_failed_business → r_workitem_id row' = r_workitem_id row →
  o_idempotencyKey o = expiry_key h →
  let d1 := add_outbox [o] (set_runs (<[h_run_id h := row']> (runs d)) d) in
  ∀ d', db_now d' = db_now d1 → human_tasks d' = human_tasks d1 → dead_letter d' = dead_letter d1 →
    runs d' = runs d1 → events_outbox d' = events_outbox d1 →
    (∀ w, workitems d' !! w = if decide (linked d (h_run_id h) = Some w)
       then settled_row rk_business WORKITEM_MAX_ATTEMPTS <$> workitems d !! w else workitems d !! w) →
    run_ended h d d'.
Proof.
  intros Hl Hs Hs' Hw' Hok d1 d' E1 E2 E3 E4 E5 E6.
  assert (Hsus : run_status d (h_run_id h) = Some run_suspended) by (unfold run_status; rewrite Hl; simpl; by rewrite Hs).
  split; try done.
  - intros r. unfold linked. rewrite E4. simpl. destruct (decide (r = h_run_id h)) as [->|];
      [by rewrite lookup_insert_eq, Hl|by rewrite lookup_insert_ne].
  - intros r. unfold run_status at 1. rewrite E4. simpl. destruct (decide (r = h_run_id h)) as [->|Hne].
    + rewrite lookup_insert_eq, decide_True by done. simpl. by rewrite Hs'.
    + rewrite lookup_insert_ne, decide_False by naive_solver. done.
  - intros w. rewrite E6. by apply decide_ext; naive_solver.
  - exists [o]. split; [by rewrite E5|]. by intros o' ->%list_elem_of_singleton.
Qed.

Lemma expiry_ok task c d : snapshot task d → let h := due_task task in
  (run_status d (h_run_id h) = Some run_suspended → key_free (expiry_key h) d) →
  (∀ w, run_status d (h_run_id h) = Some run_suspended → linked d (h_run_id h) = Some w →
     ∃ row, workitems d !! w = Some row ∧ w_status row = wi_processing) →
  ∃ es d', applySuspendedRunExpiry task c d = Ok (es, d') ∧ run_ended h d d'.
Proof.
  intros [Hs Hw] h Hk Hp. unfold applySuspendedRunExpiry. fold h in Hs, Hw |- *.
  destruct (decide (run_status d (h_run_id h) = Some run_suspended)) as [Hsus|E].
  - rewrite decide_True by auto. assert (E := Hsus). unfold run_status in E.
    destruct (runs d !! h_run_id h) as [row|] eqn:Hl; [|done]. injection E as E.
    destruct (run_expiry (h_run_id h) (default c (due_correlation task))
      (h_run_id h +:+ ":" +:+ h_id h +:+ ":human_task_expired") d row Hl E (Hk Hsus))
      as (o & row' & Happ & Hok & Hs' & Hw').
    unfold mbind, Tx_bind. rewrite Happ. set (d1 := add_outbox [o] _).
    replace (assertRunExpiryPendingHandled _ d1) with (Ok (E:=DbError) (tt, d1)) by done.
    rewrite Hw. assert (Hrow := run_ended_row h d row row' o Hl E Hs' Hw' Hok).
    destruct (linked d (h_run_id h)) as [w|] eqn:Ew.
    + destruct (Hp w Hsus eq_refl) as (wrow & Hwl & Hwp). set (input := mkSettlement _ _ _ _ _ _ _ _).
      destruct (settle_total input w wrow d1) as (es & He & ->); [done|done|done|by intros ev ?%elem_of_nil|].
      simpl in He. apply map_eq_nil in He as ->. eexists _, _. split; [reflexivity|].
      apply Hrow; simpl; rewrite ?app_nil_r; try done. intros w'. destruct (decide (w = w')) as [<-|Hne].
      * rewrite lookup_insert_eq, decide_True, Hwl by done. done.
      * rewrite lookup_insert_ne, decide_False by naive_solver. done.
    + eexists _, _. split; [reflexivity|]. apply Hrow; try done.
  - assert (Hsame := run_ended_same h d E). case_decide; [|by eexists _, _].
    destruct (run_moved (h_run_id h) ev_human_task_expired (default c (due_correlation task))
      (h_run_id h +:+ ":" +:+ h_id h +:+ ":human_task_expired") d _ eq_refl eq_refl E) as [obs Hobs].
    unfold mbind, Tx_bind. rewrite Hobs. by eexists _, _.
Qed.

Lemma run_status_tasks d ts os r : run_status (add_outbox os (set_human_tasks ts d)) r = run_status d r.
Proof. done. Qed.

(** A due task times out. *)
Lemma timeout_step c task d : let h := due_task task in snapshot task d → NoDup (map h_id (human_tasks d)) →
  h ∈ human_tasks d → active_human_task (h_state h) = true → timeable h d →
  ∃ es d', timeout_one iso c task d = Ok (es, d') ∧ timed h d d'.
Proof.
  intros h Hsn Hn Hin Ha [Hk1 Hk2 Hp]. unfold timeout_one. fold h.
  destruct (human_task_timeout c h d Hn Hin Ha Hk1) as (o & d1 & Happ & Hok & Ed1).
  unfold mbind, Tx_bind. rewrite Happ. simpl. destruct (escalates h) eqn:Ee.
  - simpl. set (d2 := set_human_tasks _ d1).
    assert (E : db_now d2 = db_now d ∧ runs d2 = runs d ∧ workitems d2 = workitems d ∧ dead_letter d2 = dead_letter d ∧
      events_outbox d2 = events_outbox d ++ [o] ∧ human_tasks d2 = map (set_task (db_now d) (h_id h)) (human_tasks d)).
    { unfold d2. rewrite Ed1. split_and!; try done. simpl. rewrite map_map. apply list_fmap_ext.
      intros i x Hx%list_elem_of_lookup_2. unfold set_task, timed_out. destruct (decide (h_id x = h_id h)) as [E|E].
      - rewrite (same_id _ x h Hn Hx Hin E), Ee, decide_True by done. done.
      - rewrite decide_False by tauto. done. }
    clearbody d2. destruct E as (E1 & E2 & E3 & E4 & E5 & E6).
    rewrite (escalation_ok task c d2) by (unfold snapshot, run_status, linked; by rewrite E2).
    eexists _, _. split; [reflexivity|]. assert (Hf : ¬ fails_run h d) by (intros [? _]; congruence).
    split; try done.
    + intros r. unfold linked. by rewrite E2.
    + intros r. rewrite decide_False by tauto. unfold run_status. by rewrite E2.
    + intros w. rewrite decide_False by tauto. by rewrite E3.
    + exists [o]. split; [done|]. intros o' ->%list_elem_of_singleton. by left.
  - simpl. assert (Hfr : fails_run h d ↔ run_status d (h_run_id h) = Some run_suspended) by (unfold fails_run; naive_solver).
    assert (Hr1 : ∀ r, run_status d1 r = run_status d r) by (intros; by rewrite Ed1).
    assert (Hl1 : ∀ r, linked d1 r = linked d r) by (intros; by rewrite Ed1).
    assert (Hw1 : workitems d1 = workitems d) by (by rewrite Ed1).
    destruct (expiry_ok task c d1) as (es & d' & Hex & [E1 E2 E3 E4 E5 E6 (os & E7 & E8)]).
    { unfold snapshot. by rewrite Hr1, Hl1. }
    { fold h. rewrite Hr1. intros Hs. rewrite Ed1. apply key_free_add; [by apply Hk2, Hfr|].
      intros o' ->%list_elem_of_singleton. rewrite Hok. unfold timeout_key, expiry_key. intros E%outbox_key_inj.
      unfold timeout_event in E. by rewrite Ee in E. }
    { fold h. rewrite Hr1. intros w Hs. rewrite Hl1, Hw1. by apply Hp, Hfr. }
    fold h in E5, E6, E8. rewrite Hex. eexists _, _. split; [reflexivity|]. split.
    + rewrite E1. by rewrite Ed1.
    + rewrite E2, Ed1. simpl. apply list_fmap_ext. intros i x Hx%list_elem_of_lookup_2.
      unfold set_task, timed_out. destruct (decide (h_id x = h_id h)) as [E|E]; [|done]. by rewrite (same_id _ x h Hn Hx Hin E), Ee.
    + intros r. by rewrite E4.
    + intros r. rewrite E5, !Hr1. apply decide_ext. by rewrite Hfr.
    + intros w. rewrite E6, Hr1, Hl1, Hw1. apply decide_ext. by rewrite Hfr.
    + rewrite E3. by rewrite Ed1.
    + exists ([o] ++ os). rewrite E7, Ed1. simpl. rewrite <-app_assoc. split; [done|].
      intros o' [->|Ho']%elem_of_cons; [by left|]. right. rewrite Hfr, <-Hr1. by apply E8.
Qed.

(** ** All tasks of a sweep *)

(** The run is suspended and one of the tasks expires. *)
Definition ends_with (hs : list HumanTaskRow) (d : Db) (r : string) : Prop :=
  run_status d r = Some run_suspended ∧ Exists (λ h, h_run_id h = r ∧ escalates h = false) hs.
#[local] Instance ends_with_dec hs d r : Decision (ends_with hs d r).
Proof using. unfold ends_with. apply _. Defined.

Record timed_all (hs : list HumanTaskRow) (d d' : Db) : Prop := {
  ta_now : db_now d' = db_now d;
  ta_tasks : human_tasks d' =
    map (λ h, if decide (h_id h ∈ map h_id hs) then timed_out (db_now d) h else h) (human_tasks d);
  ta_letters : dead_letter d' = dead_letter d;
  ta_link : ∀ r, linked d' r = linked d r;
  ta_runs : ∀ r, run_status d' r = if decide (ends_with hs d r) then Some run_failed_business else run_status d r;
  ta_settled : ∀ r w, ends_with hs d r → linked d r = Some w →
    workitems d' !! w = settled_row rk_business WORKITEM_MAX_ATTEMPTS <$> workitems d !! w;
  ta_others : ∀ w, (∀ r, ends_with hs d r → linked d r ≠ Some w) → workitems d' !! w = workitems d !! w
}.

Lemma timed_all_nil d : timed_all [] d d.
Proof.
  assert (Hno : ∀ r, ¬ ends_with [] d r) by (intros r [_ H]; inversion H).
  split; try done.
  - rewrite <-(map_id (human_tasks d)) at 1. apply map_ext. intros h. by rewrite decide_False by set_solver.
  - intros r. by rewrite decide_False.
  - by intros r w ?%Hno.
Qed.

(** No workitem belongs to two runs (the unique index of the table). *)
Definition one_run_per_workitem (d : Db) : Prop := ∀ r r' w, linked d r = Some w → linked d r' = Some w → r = r'.

Lemma ends_after h hs d d1 r : timed h d d1 →
  ends_with (h :: hs) d r ↔ r = h_run_id h ∧ fails_run h d ∨ ends_with hs d1 r.
Proof.
  intros [_ _ _ T _ _ _]. unfold ends_with. rewrite T, Exists_cons. unfold fails_run at 2 3. case_decide as E.
  - destruct E as [-> [E1 E2]]. split; [intros _; by left|intros _; split; [done|by left]].
  - split; [|naive_solver]. intros [Hs [[<- He]|Hex]]; [left|right]; [|done]. unfold fails_run. done.
Qed.

Lemma timed_all_cons h hs d d1 d' : one_run_per_workitem d → h_id h ∉ map h_id hs →
  timed h d d1 → timed_all hs d1 d' → timed_all (h :: hs) d d'.
Proof.
  intros Hone Hid Ht [A1 A2 A3 A4 A5 A6 A7]. assert (He := λ r, ends_after h hs d d1 r Ht).
  destruct Ht as [T1 T2 T3 T4 T5 T6 _].
  assert (Hdone : fails_run h d → ¬ ends_with hs d1 (h_run_id h)).
  { intros Hf [Hs _]. rewrite T4, decide_True in Hs by done. done. }
  split; [congruence| |congruence|by intros; rewrite A4| | |].
  - rewrite A2, T2, T1, map_map. apply map_ext. intros x. unfold set_task. destruct (decide (h_id x = h_id h)) as [E|E].
    + rewrite timed_out_id, E, decide_False by done. rewrite decide_True by (simpl; set_solver). done.
    + apply decide_ext. simpl. set_solver.
  - intros r. rewrite A5, T4. destruct (decide (r = h_run_id h ∧ fails_run h d)) as [E|E].
    + rewrite (decide_True (P:=ends_with (h :: hs) d r)) by (apply He; tauto). by case_decide.
    + apply decide_ext. rewrite He. tauto.
  - intros r w [[-> Hf]|Hr]%He Hl.
    + rewrite A7; [rewrite T5, decide_True by done; done|]. intros r' Hr' Hl'. rewrite T3 in Hl'.
      assert (r' = h_run_id h) as -> by eauto. by apply Hdone.
    + rewrite (A6 r w Hr) by (by rewrite T3). rewrite T5, decide_False; [done|]. intros [Hf Hl'].
      assert (h_run_id h = r) as <- by eauto. by apply Hdone.
  - intros w Hw. rewrite A7, T5; [|intros r Hr; rewrite T3; apply Hw, He; by right].
    rewrite decide_False; [done|]. intros [Hf Hl]. eapply Hw; [|done]. apply He. by left.
Qed.

(** ** The conditions of a sweep, and that a timeout preserves them *)

Record sweepable (tasks : list DueHumanTaskRow) (d : Db) : Prop := {
  sb_ids : NoDup (map h_id (human_tasks d));
  sb_tasks : NoDup (map h_id (map due_task tasks));
  sb_one : one_run_per_workitem d;
  sb_task : ∀ task, task ∈ tasks → let h := due_task task in
    snapshot task d ∧ h ∈ human_tasks d ∧ active_human_task (h_state h) = true ∧ timeable h d ∧
    has_colon (h_id h) = false ∧ has_colon (h_run_id h) = false
}.

Lemma timeout_key_inj h h' : has_colon (h_id h) = false → has_colon (h_id h') = false →
  timeout_key h = timeout_key h' → h_id h = h_id h'.
Proof.
  intros H H'. unfold timeout_key, outbox_key. intros E%(f_equal before_colon).
  rewrite !str_app_assoc in E. change (":timeout:" +:+ ?x) with (":" +:+ ("timeout:" +:+ x)) in E.
  by rewrite !before_colon_app in E.
Qed.

Lemma expiry_key_inj h h' : has_colon (h_run_id h) = false → has_colon (h_run_id h') = false →
  expiry_key h = expiry_key h' → h_run_id h = h_run_id h'.
Proof.
  intros H H'. unfold expiry_key, outbox_key. intros E%(f_equal before_colon).
  rewrite !str_app_assoc in E. by rewrite !before_colon_app in E.
Qed.

Lemma keys_differ h h' : timeout_key h ≠ expiry_key h'.
Proof. unfold timeout_key, expiry_key. intros E%outbox_key_inj. unfold timeout_event in E. by destruct (escalates h). Qed.

Lemma timeable_after h h' d d1 : one_run_per_workitem d → timed h d d1 → h_id h' ≠ h_id h →
  has_colon (h_id h) = false → has_colon (h_id h') = false →
  has_colon (h_run_id h) = false → has_colon (h_run_id h') = false → timeable h' d → timeable h' d1.
Proof.
  intros Hone [T1 T2 T3 T4 T5 T6 (es & T7 & T8)] Hne C1 C2 C3 C4 [K1 K2 W].
  assert (Hback : fails_run h' d1 → fails_run h' d ∧ ¬ (h_run_id h' = h_run_id h ∧ fails_run h d)).
  { intros [F1 F2]. rewrite T4 in F2. case_decide; [done|]. by split. }
  split.
  - intros o Ho. rewrite T7 in Ho. apply elem_of_app in Ho as [Ho|Ho]; [by apply K1|]. intros E.
    destruct (T8 o Ho) as [E'|[E' _]]; rewrite E' in E; [|by apply (keys_differ h' h)].
    apply Hne. symmetry. by apply timeout_key_inj.
  - intros [Hf Hd]%Hback o Ho. rewrite T7 in Ho. apply elem_of_app in Ho as [Ho|Ho]; [by apply K2|]. intros E.
    destruct (T8 o Ho) as [E'|[E' Hh]]; rewrite E' in E; [by apply (keys_differ h h')|].
    apply Hd. split; [|done]. symmetry. by apply expiry_key_inj.
  - intros w [Hf Hd]%Hback Hl. rewrite T3 in Hl. rewrite T5, decide_False; [by apply W|].
    intros [Hh Hl']. apply Hd. split; [|done]. by eapply Hone.
Qed.

Lemma sweepable_after task tasks d d1 : sweepable (task :: tasks) d → timed (due_task task) d d1 → sweepable tasks d1.
Proof.
  intros [S1 S2 S3 S4] T. simpl in S2. apply NoDup_cons in S2 as [S2 S2'].
  assert (T' := T). destruct T' as [T1 T2 T3 T4 _ _ _].
  destruct (S4 task) as (_ & _ & _ & _ & C1 & C2); [by left|]. split; [|done| |].
  - by rewrite T2, set_task_ids.
  - intros r r' w. rewrite !T3. apply S3.
  - intros t Ht. destruct (S4 t) as ([N1 N2] & Hin & Ha & Htb & C3 & C4); [by right|].
    assert (Hne : h_id (due_task t) ≠ h_id (due_task task)).
    { intros E. apply S2. rewrite <-E. do 2 apply list_elem_of_fmap_2. done. }
    split_and!; [| |done| |done|done].
    + split; [|by rewrite T3]. rewrite T4. case_decide; [done|]. apply N1.
    + rewrite T2. apply list_elem_of_fmap. exists (due_task t). split; [|done]. unfold set_task.
      by rewrite decide_False.
    + by eapply timeable_after.
Qed.

Lemma timeout_all_ok c tasks : ∀ d, sweepable tasks d →
  ∃ es d', timeout_all iso c tasks d = Ok (es, d') ∧ timed_all (map due_task tasks) d d'.
Proof.
  induction tasks as [|task tasks IH]; intros d Hs; cbn [timeout_all].
  - exists [], d. split; [done|apply timed_all_nil].
  - assert (Hs' := Hs). destruct Hs' as [S1 S2 S3 S4]. destruct (S4 task) as (Hn & Hin & Ha & Htb & _); [by left|].
    destruct (timeout_step c task d Hn S1 Hin Ha Htb) as (es & d1 & E & T).
    destruct (IH d1) as (es' & d' & E' & T'); [by eapply sweepable_after|].
    unfold mbind, Tx_bind. rewrite E, E'. eexists _, _. split; [reflexivity|].
    simpl in S2. apply NoDup_cons in S2 as [S2 _]. by eapply timed_all_cons.
Qed.

(** ** The sweep *)

Lemma due_tasks_elem locked d h : h ∈ due_tasks locked d →
  h ∈ human_tasks d ∧ task_due (db_now d) h = true ∧ locked (h_id h) = false.
Proof.
  unfold due_tasks. intros Hh. apply elem_of_take in Hh as (i & Hh & _). apply list_elem_of_lookup_2 in Hh.
  rewrite merge_sort_Permutation in Hh. apply list_elem_of_filter in Hh as [[H1 H2] H3]. done.
Qed.

Lemma due_tasks_ids locked d : NoDup (map h_id (human_tasks d)) → NoDup (map h_id (due_tasks locked d)).
Proof.
  intros Hn. unfold due_tasks. eapply sublist_NoDup; [|apply sublist_map, sublist_take].
  rewrite merge_sort_Permutation. eapply sublist_NoDup; [exact Hn|apply sublist_map, sublist_filter].
Qed.

Lemma due_tasks_all locked d h : (∀ id, locked id = false) →
  length (filter (λ h, task_due (db_now d) h = true) (human_tasks d)) ≤ HUMAN_TASK_TIMEOUT_SWEEP_LIMIT →
  h ∈ human_tasks d → task_due (db_now d) h = true → h ∈ due_tasks locked d.
Proof.
  intros Hlk Hlen Hin Hd. unfold due_tasks. rewrite take_ge.
  - rewrite merge_sort_Permutation. by apply list_elem_of_filter.
  - rewrite merge_sort_Permutation. etrans; [|exact Hlen]. apply Nat.eq_le_incl. f_equal. apply list_filter_iff.
    intros x. rewrite Hlk. naive_solver.
Qed.

Lemma timed_out_not_due now h : task_due now (timed_out now h) = false.
Proof.
  unfold task_due, timed_out. destruct (escalates h); simpl; [|done]. apply Z.leb_gt.
  unfold HUMAN_TASK_DEFAULT_TIMEOUT_MS. lia.
Qed.

Lemma due_snapshot d h : snapshot (due_row run_correlation d h) d.
Proof. split; [done|]. unfold linked. simpl. by destruct (runs d !! h_run_id h). Qed.

Lemma due_rows_tasks d hs : map due_task (map (due_row run_correlation d) hs) = hs.
Proof. rewrite map_map. apply map_id. Qed.

Lemma due_sweepable locked d : NoDup (map h_id (human_tasks d)) → one_run_per_workitem d →
  (∀ h, h ∈ due_tasks locked d → timeable h d ∧ has_colon (h_id h) = false ∧ has_colon (h_run_id h) = false) →
  sweepable (map (due_row run_correlation d) (due_tasks locked d)) d.
Proof.
  intros Hn Hone Hd. split; [done| |done|].
  - rewrite due_rows_tasks. by apply due_tasks_ids.
  - intros task (h & -> & Hh)%list_elem_of_fmap. simpl. destruct (Hd h Hh) as (Ht & C1 & C2).
    apply due_tasks_elem in Hh as (Hin & Hdue & _). apply andb_true_iff in Hdue as [Ha _].
    split_and!; [apply due_snapshot|done..].
Qed.

End Timeouts.

(** Two suspended runs, one of whose tasks escalates and the other expires. *)
Definition sample_task (id runId : string) (policy : StateMachine.OnTimeout) : HumanTaskRow :=
  mkHumanTaskRow id runId None StateMachine.k_approval None policy ht_open None JNull JNull JNull JNull 5000 None.
Definition sample_tasks : list HumanTaskRow :=
  [sample_task "t1" "r1" StateMachine.ot_escalate; sample_task "t2" "r2" StateMachine.ot_fail].
Definition sample_waiting : Db :=
  let run w := mkRunRow run_suspended (Some w) None 0 0 None None None None None in
  let item := mkWorkitemRow wi_processing 0 (Some "worker") (Some 0%Z) (Some 5000%Z) (Some 100%Z) in
  mkDb 6000 0 (<["r1" := run "w1"]> {[ "r2" := run "w2" ]}) (<["w1" := item]> {[ "w2" := item ]})
    sample_tasks [] [] [] [] [].

Lemma sample_one_run : one_run_per_workitem sample_waiting.
Proof.
  intros r r' w. unfold linked, sample_waiting. simpl. rewrite !bind_Some.
  intros (x & Hx & Hw) (y & Hy & Hw'). apply lookup_insert_Some in Hx, Hy.
  rewrite lookup_singleton_Some in Hx. rewrite lookup_singleton_Some in Hy.
  destruct Hx as [[<- <-]|[_ [<- <-]]], Hy as [[<- <-]|[_ [<- <-]]]; simpl in *; congruence.
Qed.

Lemma sample_timeable iso h : h ∈ sample_tasks →
  timeable iso h sample_waiting ∧ has_colon (h_id h) = false ∧ has_colon (h_run_id h) = false.
Proof.
  intros [->|[->|H%elem_of_nil]%elem_of_cons]%elem_of_cons; [| |done]; (split; [|done]).
  - split; [by intros o ?%elem_of_nil|by intros _ o ?%elem_of_nil|]. intros w _ [= <-]. by eexists.
  - split; [by intros o ?%elem_of_nil|by intros _ o ?%elem_of_nil|]. intros w _ [= <-]. by eexists.
Qed.


(** ** When a workitem is taken back before its run ends

    [settleLinkedWorkitemForRunTerminal] throws when the linked workitem is not
    processing, and it runs in the transaction that ends the run.  The theorems
    show what follows when a checkout expires while its run is still driven, and
    when a human task expires whose run has lost its workitem. *)

(** A transaction of the driver that finds the workitem taken back cannot end
    the run. *)
Lemma taken_back_not_ended runId d d' wid row : guarantee runId d d' → linked d runId = Some wid →
  workitems d !! wid = Some row → w_status row ≠ wi_processing → run_end runId d d' = None.
Proof.
  intros [_ _ _ _ _ Hw _] Hk Hl Hs. specialize (Hw wid Hk). destruct (run_end runId d d'); [|done].
  destruct Hw as (row' & Hl' & Hs' & _). congruence.
Qed.

(** ** A checkout that expires during a drive *)

(** The sweeper runs at eleven minutes past the checkout. *)
Definition sweep_during_drive (d : Db) : Db :=
  committed (handleWorkitemCheckoutSweeper (λ _, false) (mkJob (Some "t") None None (Some "sweep"))) (at_time 700000 d).

Definition overtaken_drive : World () * result Exn DriveResult :=
  driveResumedRun (λ _, None) (λ _, None) (λ _, true) (λ _, "id") (λ _, None) sample_run sample_deps
    (Some sample_version) "a" (mkWorld sample_db [Interfere sweep_during_drive] [] tt).

(** A checkout is not extended while its run is driven, and a run whose
    workitem the sweeper has taken back can no longer end: whatever the run and
    the tables are, the failsafe that terminates stuck runs does not end a run
    whose linked workitem is not processing.  In the sample, whose undisturbed
    drive completes, a sweep during the drive makes the drive throw and leaves
    the run completing and its workitem abandoned. *)
Theorem expired_checkout_strands_run :
  (∀ H run reason (w : World H) wid row, w_env w = [] → linked (w_db w) (cr_runId run) = Some wid →
     workitems (w_db w) !! wid = Some row → w_status row ≠ wi_processing →
     run_end (cr_runId run) (w_db w) (w_db (terminalizeStuckRunAsSystemFailure run reason w).1) = None) ∧
  match overtaken_drive.2 with Ok _ => False | Err _ => True end ∧
  run_status (w_db overtaken_drive.1) "r1" = Some run_completing ∧
  linked (w_db overtaken_drive.1) "r1" = Some "wi1" ∧
  w_status <$> workitems (w_db overtaken_drive.1) !! "wi1" = Some wi_abandoned.
Proof.
  split; [|split; [|split_and!]; [vm_compute; exact I|vm_compute; reflexivity..]].
  intros H run reason w wid row He Hk Hl Hs. unfold terminalizeStuckRunAsSystemFailure, try_catch, withTenantTx.
  rewrite He. destruct (terminalize_tx run reason (w_db w)) as [[b d']|e] eqn:E; simpl.
  - eapply taken_back_not_ended; [|done..]. apply shape_guarantee, (shaped_terminalize run reason _ b d' E).
  - unfold run_end. by rewrite decide_True.
Qed.

(** ** A human task whose run has lost its workitem *)

Definition overdue_task (id runId : string) : HumanTaskRow :=
  mkHumanTaskRow id runId None StateMachine.k_captcha None StateMachine.ot_fail ht_open None JNull JNull JNull JNull 5000 None.

(** Two runs wait for overdue tasks; the workitem of [r1] has been taken back. *)
Definition waiting_runs (tasks : list HumanTaskRow) : Db :=
  let run w := mkRunRow run_suspended (Some w) None 0 0 None None None None None in
  mkDb 6000 0 (<["r1" := run "w1"]> {[ "r2" := run "w2" ]})
    (<["w1" := mkWorkitemRow wi_retry 1 None None None None]>
       {[ "w2" := mkWorkitemRow wi_processing 0 (Some "worker") (Some 0%Z) (Some 5000%Z) (Some 100%Z) ]})
    tasks [] [] [] [] [].

Definition sweep_tasks (tasks : list HumanTaskRow) : result DbError (JobResult * Db) :=
  handleHumanTaskTimeoutSweeper (λ _, "c") (λ _, "at") (λ _, false) (mkJob (Some "t") None None (Some "sweep")) (waiting_runs tasks).

(** One expired task whose run has lost its workitem makes the whole sweep of
    human tasks throw, so that no task of the batch is settled: alone, the task
    of the other run expires and its run fails. *)
Theorem lost_workitem_blocks_task_sweep :
  match sweep_tasks [overdue_task "t1" "r1"; overdue_task "t2" "r2"] with Ok _ => False | Err _ => True end ∧
  match sweep_tasks [overdue_task "t2" "r2"] with
  | Ok (_, d') => run_status d' "r2" = Some run_failed_business ∧ map h_state (human_tasks d') = [ht_expired]
  | Err _ => False
  end.
Proof. split; vm_compute; [exact I|by split]. Qed.
