(* ===== verification/Gateway.v ===== *)
(** * The LLM gateway

    Models [app/src/gateway/llm-gateway.ts] with [gateway-errors.ts],
    [capability-gate.ts], [llm-gateway-audit.ts] and
    [ajv-structured-output-validator.ts], and the data of
    [ts/security-middleware-contract.ts] they exchange.  A call is a program of
    type [G]: it acts on the host (the adapters, the idempotency store, the audit
    log, the redaction boundary, the artifact store: all of them ports that are
    passed in) and appends what it does to a log, of which the theorems of
    [GatewayProps] speak.  Telemetry (spans, metrics, the time of the first
    token) is left out.  A stream is the list of the events the consumer may pull
    and, when it breaks off by throwing, the message thrown. *)

From stdpp Require Import base strings list gmap pretty.
From Stdlib Require Import ZArith.
From S2P Require Import Prelude JsValue JsText.

(** ** Requests and responses *)

Inductive LLMPrimitive := p_act | p_observe | p_extract | p_agent | p_vlm_verify | p_self_heal.
#[export] Instance LLMPrimitive_eq_dec : EqDecision LLMPrimitive.
Proof. solve_decision. Defined.

Definition primitive_text (p : LLMPrimitive) : string :=
  match p with
  | p_act => "act" | p_observe => "observe" | p_extract => "extract" | p_agent => "agent"
  | p_vlm_verify => "vlm_verify" | p_self_heal => "self_heal"
  end.

Record ModelCapabilities := mkCapabilities {
  cap_domReasoning : bool;
  cap_vision : bool;
  cap_jsonMode : bool;
  cap_toolCall : bool;
  cap_sse : bool;
  cap_maxContextTokens : jsnum
}.

Inductive RedactedContentBlock := block_text (content : string) | block_json (content : json).
Inductive MessageContent := content_text (text : string) | content_blocks (blocks : list RedactedContentBlock).
Inductive MessageRole := role_system | role_user.
#[export] Instance MessageRole_eq_dec : EqDecision MessageRole.
Proof. solve_decision. Defined.
Record LLMMessage := mkMessage { m_role : MessageRole; m_content : MessageContent }.

Inductive PromptTextVisibility := v_visible | v_hidden | v_offscreen | v_zero_opacity.
Inductive EvidenceSource := es_dom | es_network | es_screenshot | es_artifact.
Record PromptInspectionTextRun := mkTextRun {
  tr_text : string;
  tr_visibility : PromptTextVisibility;
  tr_source : EvidenceSource
}.
Inductive PromptInjectionSignal := sig_hidden_instruction | sig_instruction_override | sig_credential_exfiltration
  | sig_off_allowlist_url.
Definition signal_text (s : PromptInjectionSignal) : string :=
  match s with
  | sig_hidden_instruction => "hidden_instruction"
  | sig_instruction_override => "instruction_override"
  | sig_credential_exfiltration => "credential_exfiltration"
  | sig_off_allowlist_url => "off_allowlist_url"
  end.
Record PromptInjectionEvidence := mkEvidence {
  pe_signal : PromptInjectionSignal;
  pe_excerpt : string;
  pe_source : EvidenceSource
}.

Record ResponseFormat := mkResponseFormat {
  rf_schemaRef : string;
  rf_schemaVersion : string;
  rf_strict : bool;
  rf_schema : option json
}.

Record AuditActor := mkActor { aa_subjectId : string; aa_roles : list string }.

Record LLMRequestMetadata := mkMetadata {
  md_tenantId : string;
  md_runId : string;
  md_stepId : string;
  md_attempt : Z;
  md_primitive : LLMPrimitive;
  md_correlationId : string;
  md_auditActor : option AuditActor
}.

Record LLMBudget := mkBudget { bg_maxInputTokens : jsnum; bg_maxOutputTokens : jsnum; bg_maxCost : jsnum }.

(** The images, the tools and the sampling options ([rq_extra]) are passed on as
    they are. *)
Record LLMRequest := mkRequest {
  rq_model : string;
  rq_promptTemplateVersion : string;
  rq_messages : list LLMMessage;
  rq_promptInspection : option (option (list PromptInspectionTextRun));
  rq_responseFormat : option ResponseFormat;
  rq_images : option (list json);
  rq_extra : json;
  rq_metadata : LLMRequestMetadata;
  rq_budget : LLMBudget;
  rq_idempotencyKey : string;
  rq_requestHash : string
}.

Definition with_messages (messages : list LLMMessage) (req : LLMRequest) : LLMRequest :=
  mkRequest (rq_model req) (rq_promptTemplateVersion req) messages (rq_promptInspection req) (rq_responseFormat req)
    (rq_images req) (rq_extra req) (rq_metadata req) (rq_budget req) (rq_idempotencyKey req) (rq_requestHash req).
Definition without_inspection (req : LLMRequest) : LLMRequest :=
  mkRequest (rq_model req) (rq_promptTemplateVersion req) (rq_messages req) None (rq_responseFormat req)
    (rq_images req) (rq_extra req) (rq_metadata req) (rq_budget req) (rq_idempotencyKey req) (rq_requestHash req).

Inductive AdapterErrorCode := RATE_LIMIT | BACKEND_ERROR | STREAM_IDLE_TIMEOUT | STREAM_TIMEOUT | BUDGET_EXCEEDED
  | MALFORMED_OUTPUT | CONTENT_FILTERED | CONNECTION_FAILED.
#[export] Instance AdapterErrorCode_eq_dec : EqDecision AdapterErrorCode.
Proof. solve_decision. Defined.

Definition adapter_code_text (c : AdapterErrorCode) : string :=
  match c with
  | RATE_LIMIT => "RATE_LIMIT" | BACKEND_ERROR => "BACKEND_ERROR" | STREAM_IDLE_TIMEOUT => "STREAM_IDLE_TIMEOUT"
  | STREAM_TIMEOUT => "STREAM_TIMEOUT" | BUDGET_EXCEEDED => "BUDGET_EXCEEDED" | MALFORMED_OUTPUT => "MALFORMED_OUTPUT"
  | CONTENT_FILTERED => "CONTENT_FILTERED" | CONNECTION_FAILED => "CONNECTION_FAILED"
  end.

Inductive FinishReason := fr_stop | fr_length | fr_tool_call | fr_content_filter.
#[export] Instance FinishReason_eq_dec : EqDecision FinishReason.
Proof. solve_decision. Defined.

Record Usage := mkUsage {
  us_inputTokens : jsnum;
  us_outputTokens : jsnum;
  us_cost : jsnum;
  us_estimated : option bool
}.

Inductive LLMStreamEvent :=
| ev_open
| ev_text_delta (text : string)
| ev_json_delta (partial : string)
| ev_tool_call_delta (id : string) (name argsPartial : option string)
| ev_usage (usage : Usage)
| ev_done (finishReason : FinishReason)
| ev_error (code : AdapterErrorCode) (retryable : bool) (message : string)
| ev_aborted.

Record LLMResponse := mkResponse {
  rs_outputRef : string;
  rs_usage : Usage;
  rs_finishReason : FinishReason;
  rs_parsedJson : option json;
  rs_stagehandCallId : option string
}.

Definition with_call_id (callId : string) (r : LLMResponse) : LLMResponse :=
  mkResponse (rs_outputRef r) (rs_usage r) (rs_finishReason r) (rs_parsedJson r) (Some callId).

Inductive LLMIdempotencyReservation :=
| rv_reserved (callId idempotencyKey : string)
| rv_replay (response : LLMResponse)
| rv_in_flight (callId : string)
| rv_blocked (reason : string).

Inductive RedactionResult :=
| rd_redacted (content : MessageContent)
| rd_blocked (code : string) (evidence : list PromptInjectionEvidence).

(** What the boundary is asked to redact: the content of a message or the text
    of a repair message. *)
Record RedactionInput := mkRedaction {
  ri_tenantId : string;
  ri_runId : string;
  ri_content : MessageContent;
  ri_textRuns : option (list PromptInspectionTextRun)
}.

(** A decision as it is recorded; its idempotency key and its time are drawn when
    it is written, and it is retained for the given number of days. *)
Record AuditDecision := mkAudit {
  ad_tenantId : string;
  ad_actor : AuditActor;
  ad_action : string;
  ad_outcome : string;
  ad_runId : string;
  ad_reason : string;
  ad_correlationId : string;
  ad_retentionDays : Z;
  ad_payload : list (string * json);
  ad_decision : list (string * json)
}.

Inductive GovernanceKind := gk_allow | gk_warn | gk_block.
#[export] Instance GovernanceKind_eq_dec : EqDecision GovernanceKind.
Proof. solve_decision. Defined.
Record AiGovernanceGatewayDecision := mkGovernance {
  gd_kind : GovernanceKind;
  gd_mode : string;
  gd_reason : string;
  gd_evidenceRefs : list string;
  gd_policyDecisionRef : option string;
  gd_blockingRequirements : list string
}.

(** ** Errors *)

(** [GatewayError], [GatewayAbortedError] and the errors the ports throw. *)
Inductive GatewayExn :=
| GatewayError (code message : string) (adapterCode : option AdapterErrorCode) (stagehandCallId : option string)
| GatewayAbortedError
| PortError (message : string).

Definition mapTerminal (code : AdapterErrorCode) : string :=
  match code with
  | RATE_LIMIT => "LLM_RATE_LIMITED"
  | BACKEND_ERROR => "LLM_BACKEND_UNAVAILABLE"
  | STREAM_IDLE_TIMEOUT => "LLM_STREAM_IDLE_TIMEOUT"
  | STREAM_TIMEOUT => "LLM_STREAM_TIMEOUT"
  | BUDGET_EXCEEDED => "LLM_BUDGET_EXCEEDED"
  | MALFORMED_OUTPUT => "LLM_MALFORMED_OUTPUT"
  | CONTENT_FILTERED => "LLM_CONTENT_FILTERED"
  | CONNECTION_FAILED => "LLM_CONNECTION_FAILED"
  end.

(** ** Capabilities *)

Inductive Transport := via_sse | via_sync.
#[export] Instance Transport_eq_dec : EqDecision Transport.
Proof. solve_decision. Defined.

Inductive CapabilityDecision := cd_allow (transport : Transport) | cd_deny (code reason : string).

Record GateInput := mkGateInput {
  gi_primitive : LLMPrimitive;
  gi_responseFormat : option ResponseFormat;
  gi_images : option (list json);
  gi_capabilities : ModelCapabilities
}.

Definition NEEDS_DOM_REASONING : list LLMPrimitive := [p_act; p_observe; p_extract; p_agent; p_self_heal].

Definition deny_capability (reason : string) : CapabilityDecision := cd_deny "LLM_CAPABILITY_MISMATCH" reason.

(** [SafeCapabilityGate.evaluate]. *)
Definition evaluate_capability (input : GateInput) : CapabilityDecision :=
  let cap := gi_capabilities input in
  let name := primitive_text (gi_primitive input) in
  let needsVision := bool_decide (gi_primitive input = p_vlm_verify) ||
                     bool_decide (0 < length (default [] (gi_images input))) in
  if needsVision && negb (cap_vision cap)
  then deny_capability ("primitive '" +:+ name +:+ "' requires vision capability") else
  if bool_decide (gi_primitive input ∈ NEEDS_DOM_REASONING) && negb (cap_domReasoning cap)
  then deny_capability ("primitive '" +:+ name +:+ "' requires domReasoning capability") else
  cd_allow (if cap_sse cap then via_sse else via_sync).

(** ** Validation of structured output *)

(** [AjvStructuredOutputValidator.validate]: the reason of a failure.  The schema
    compiler is the library [ajv]; a compiled schema answers with the text of its
    errors.  The cache of compiled schemas does not change the answers. *)
Section Validator.
Context (ajv_compile : json → result string (json → option string)).

Definition CONSTRAINING : list string :=
  ["type"; "$ref"; "enum"; "const"; "allOf"; "anyOf"; "oneOf"; "not"; "properties"; "items"; "required";
   "patternProperties"].

(** [k in body] and the constant [false]; an array has no such key. *)
Definition constrains (schema : json) : bool :=
  match schema with
  | JObj body => existsb (λ k, bool_decide (alookup k body ≠ None)) CONSTRAINING ||
                 match alookup "additionalProperties" body with Some (JBool false) => true | _ => false end
  | _ => false
  end.

Definition validate_structured (schemaRef schemaVersion : string) (schema : option json) (value : json) : option string :=
  let id := schemaRef +:+ "@" +:+ schemaVersion in
  match schema with
  | Some (JObj _ as body) | Some (JArr _ as body) =>
      if negb (constrains body)
      then Some (id +:+ ": JSON Schema body is vacuous (accepts everything) — extract requires a constraining schema") else
      match ajv_compile body with
      | Err e => Some ("invalid JSON Schema for " +:+ id +:+ ": " +:+ e)
      | Ok validateFn =>
          match validateFn value with
          | None => None
          | Some reason => Some (if decide (reason = EmptyString) then id +:+ ": schema validation failed"
                                 else id +:+ ": " +:+ reason)
          end
      end
  | _ => Some ("no JSON Schema body for " +:+ id +:+ " (extract requires an inline schema)")
  end.
End Validator.

(** ** The log and the monad *)

Inductive AdapterRole := a_primary | a_fallback.

Inductive GatewayEvent :=
| G_reserve (answer : LLMIdempotencyReservation)
| G_redact (input : RedactionInput) (answer : RedactionResult)
| G_audit (decision : AuditDecision)
| G_adapter (which : AdapterRole) (req : LLMRequest)
| G_put (content ref : string)
| G_complete (callId : string) (response : LLMResponse)
| G_fail (callId : string) (code : AdapterErrorCode).

Record GWorld (W : Type) := mkGWorld { gw_host : W; gw_log : list GatewayEvent }.
Arguments mkGWorld {W} _ _.
Arguments gw_host {W} _.
Arguments gw_log {W} _.

Definition G (W A : Type) : Type := GWorld W → GWorld W * result GatewayExn A.
#[export] Instance G_ret {W} : MRet (G W) := λ A a w, (w, Ok a).
#[export] Instance G_bind {W} : MBind (G W) := λ A B f m w,
  match m w with (w', Ok a) => f a w' | (w', Err e) => (w', Err e) end.

Section Ports.
Context {W : Type}.
Definition g_throw {A} (e : GatewayExn) : G W A := λ w, (w, Err e).
Definition g_result {A} (r : result GatewayExn A) : G W A := λ w, (w, r).
Definition g_catch {A} (m : G W A) (handler : GatewayExn → G W A) : G W A := λ w,
  match m w with (w', Ok a) => (w', Ok a) | (w', Err e) => handler e w' end.
(** A call of a port; the entry is added to the log when the port has answered. *)
Definition g_port {A} (f : W → W * result string A) (entry : A → list GatewayEvent) : G W A := λ w,
  match f (gw_host w) with
  | (h, Ok a) => (mkGWorld h (gw_log w ++ entry a), Ok a)
  | (h, Err m) => (mkGWorld h (gw_log w), Err (PortError m))
  end.
End Ports.

(** ** The ports *)

Record LLMBackendAdapter (W : Type) := mkAdapter {
  ba_capabilities : ModelCapabilities;
  ba_streamCall : LLMRequest → W → W * (list LLMStreamEvent * option string);
  ba_syncCall : option (LLMRequest → W → W * result string LLMResponse)
}.
Arguments ba_capabilities {W} _.
Arguments ba_streamCall {W} _ _ _.
Arguments ba_syncCall {W} _.

Record LLMCallIdempotencyStore (W : Type) := mkIdempotency {
  is_reserve : LLMRequest → W → W * result string LLMIdempotencyReservation;
  is_complete : string → LLMResponse → W → W * result string ();
  is_fail : string → AdapterErrorCode → W → W * result string ()
}.
Arguments is_reserve {W} _ _ _.
Arguments is_complete {W} _ _ _ _.
Arguments is_fail {W} _ _ _ _.

Record LlmGatewayConfig := mkGatewayConfig { gc_retryMax : nat; gc_fallbackAttempts : nat; gc_repairAttempts : nat }.

Record LlmGatewayDeps (W : Type) := mkGatewayDeps {
  gp_primary : LLMBackendAdapter W;
  gp_fallback : option (LLMBackendAdapter W);
  gp_gate : GateInput → CapabilityDecision;
  gp_validate : string → string → option json → json → option string;
  gp_put : string → LLMRequestMetadata → W → W * result string string;
  gp_idempotency : option (LLMCallIdempotencyStore W);
  gp_recordDecision : AuditDecision → W → W * result string ();
  gp_redactForGateway : RedactionInput → W → W * result string RedactionResult;
  gp_aiGovernance : option (LLMRequest → W → W * result string AiGovernanceGatewayDecision);
  gp_config : LlmGatewayConfig
}.
Arguments gp_primary {W} _.
Arguments gp_fallback {W} _.
Arguments gp_gate {W} _ _.
Arguments gp_validate {W} _ _ _ _ _.
Arguments gp_put {W} _ _ _ _.
Arguments gp_idempotency {W} _.
Arguments gp_recordDecision {W} _ _ _.
Arguments gp_redactForGateway {W} _ _ _.
Arguments gp_aiGovernance {W} _.
Arguments gp_config {W} _.

(** ** Audit of the decisions *)

Definition PROMPT_INSPECT_AUDIT_RETENTION_DAYS : Z := 90.
Definition AI_GOVERNANCE_AUDIT_RETENTION_DAYS : Z := 365.
Definition runtimePromptInspectActor : AuditActor := mkActor "runtime-worker" ["operator"].

Definition js_strings (l : list string) : json := JArr (map JStr l).
Definition audit_actor (req : LLMRequest) : AuditActor := default runtimePromptInspectActor (md_auditActor (rq_metadata req)).

(** The keys of the entry and its time are chosen by the host. *)
Definition prompt_inspect_entry (req : LLMRequest) (result : RedactionResult) (phase : string) (messageIndex : nat)
  : AuditDecision :=
  let md := rq_metadata req in
  let outcome := match result with rd_blocked _ _ => "blocked" | rd_redacted _ => "allow" end in
  mkAudit (md_tenantId md) (audit_actor req) "prompt.inspect" outcome (md_runId md)
    (match result with rd_blocked _ _ => "prompt_injection_detected" | rd_redacted _ => "prompt_inspection_clean" end)
    (md_correlationId md) PROMPT_INSPECT_AUDIT_RETENTION_DAYS
    [("decision_kind", JStr "prompt.inspect"); ("phase", JStr phase); ("message_index", JNum (num_of_Z (Z.of_nat messageIndex)));
     ("primitive", JStr (primitive_text (md_primitive md))); ("step_id", JStr (md_stepId md));
     ("attempt", JNum (num_of_Z (md_attempt md))); ("prompt_template_version", JStr (rq_promptTemplateVersion req));
     ("model", JStr (rq_model req));
     ("evidence_signals", js_strings match result with
                                     | rd_blocked _ evidence => map (λ e, signal_text (pe_signal e)) evidence
                                     | rd_redacted _ => []
                                     end)]
    [("prompt_inspection", JStr outcome); ("phase", JStr phase)].

Definition governance_kind_text (k : GovernanceKind) : string :=
  match k with gk_allow => "allow" | gk_warn => "warn" | gk_block => "block" end.

Definition governance_entry (req : LLMRequest) (result : AiGovernanceGatewayDecision) : AuditDecision :=
  let md := rq_metadata req in
  mkAudit (md_tenantId md) (audit_actor req) "ai_governance.enforce"
    (if decide (gd_kind result = gk_block) then "blocked" else "allow") (md_runId md) (gd_reason result)
    (md_correlationId md) AI_GOVERNANCE_AUDIT_RETENTION_DAYS
    [("decision_kind", JStr "ai_governance.enforce"); ("enforcement_result", JStr (governance_kind_text (gd_kind result)));
     ("mode", JStr (gd_mode result)); ("primitive", JStr (primitive_text (md_primitive md))); ("step_id", JStr (md_stepId md));
     ("attempt", JNum (num_of_Z (md_attempt md))); ("prompt_template_version", JStr (rq_promptTemplateVersion req));
     ("model", JStr (rq_model req)); ("evidence_refs", js_strings (gd_evidenceRefs result));
     ("blocking_requirements", js_strings (gd_blockingRequirements result));
     ("policy_decision_ref", match gd_policyDecisionRef result with Some r => JStr r | None => JNull end)]
    [("ai_governance", JStr (governance_kind_text (gd_kind result))); ("mode", JStr (gd_mode result))].

(** ** The gateway *)

Inductive ConsumeResult :=
| cr_ok (text : string) (usage : option Usage) (finishReason : FinishReason)
| cr_error (code : AdapterErrorCode) (retryable : bool)
| cr_aborted.

Record Consumed := mkConsumed { cs_text : string; cs_usage : option Usage; cs_finishReason : FinishReason }.

Section Gateway.
(** [JSON.parse]: the theorems hold for every parser. *)
Context {W : Type} (json_parse : string → option json) (deps : LlmGatewayDeps W).

Definition record_audit (entry : AuditDecision) (failure : string) : G W () :=
  g_catch (g_port (gp_recordDecision deps entry) (λ _, [G_audit entry]))
    (λ _, g_throw (GatewayError "CONTROL_PLANE_INTERNAL_ERROR" failure None None)).

Definition recordPromptInspectDecision (req : LLMRequest) (result : RedactionResult) (phase : string) (messageIndex : nat)
  : G W () :=
  record_audit (prompt_inspect_entry req result phase messageIndex) "prompt inspect audit append failed closed".
Definition recordAiGovernanceDecision (req : LLMRequest) (result : AiGovernanceGatewayDecision) : G W () :=
  record_audit (governance_entry req result) "AI governance audit append failed closed".

(** *** The request that is sent *)

Definition schema_instruction (schema : json) : string :=
  "Respond with ONLY a single JSON value strictly conforming to this JSON Schema. No prose, no markdown, no code fences. JSON Schema: "
  +:+ json_text schema.

Definition newline : string := String (Ascii.ascii_of_nat 10) EmptyString.

(** The first system message whose content is a text gets the instruction. *)
Fixpoint inject (instruction : string) (messages : list LLMMessage) : option (list LLMMessage) :=
  match messages with
  | [] => None
  | mkMessage role_system (content_text text) :: rest =>
      Some (mkMessage role_system (content_text (text +:+ newline +:+ instruction)) :: rest)
  | m :: rest => cons m <$> inject instruction rest
  end.

Definition withPromptSchema (req : LLMRequest) : LLMRequest :=
  match rq_responseFormat req ≫= rf_schema with
  | None => req
  | Some schema =>
      if cap_jsonMode (ba_capabilities (gp_primary deps)) then req else
      let instruction := schema_instruction schema in
      with_messages (default (mkMessage role_system (content_text instruction) :: rq_messages req)
                       (inject instruction (rq_messages req))) req
  end.

Definition signals_text (evidence : list PromptInjectionEvidence) : string :=
  join "," (map (λ e, signal_text (pe_signal e)) evidence).

Definition redact (req : LLMRequest) (content : MessageContent) (textRuns : option (list PromptInspectionTextRun))
  (phase : string) (messageIndex : nat) (where_ : string) : G W MessageContent :=
  let input := mkRedaction (md_tenantId (rq_metadata req)) (md_runId (rq_metadata req)) content textRuns in
  result ← g_port (gp_redactForGateway deps input) (λ r, [G_redact input r]);
  _ ← recordPromptInspectDecision req result phase messageIndex;
  match result with
  | rd_blocked code evidence =>
      g_throw (GatewayError code ("prompt injection blocked at " +:+ where_ +:+ " (" +:+ signals_text evidence +:+ ")") None None)
  | rd_redacted content => mret content
  end.

Fixpoint redact_messages (req : LLMRequest) (messages out : list LLMMessage) : G W (list LLMMessage) :=
  match messages with
  | [] => mret out
  | m :: rest =>
      if decide (m_role m = role_user) then
        content ← redact req (m_content m) (default None (rq_promptInspection req)) "initial" (length out) "gateway";
        redact_messages req rest (out ++ [mkMessage role_user content])
      else redact_messages req rest (out ++ [m])
  end.

Definition redactRequest (req : LLMRequest) : G W LLMRequest :=
  out ← redact_messages req (rq_messages req) [];
  mret (with_messages out (without_inspection req)).

(** *** One call of an adapter *)

Fixpoint consume_events (text : string) (usage : option Usage) (events : list LLMStreamEvent) (thrown : option string)
  : result GatewayExn ConsumeResult :=
  match events with
  | [] => match thrown with Some m => Err (PortError m) | None => Ok (cr_ok text usage fr_stop) end
  | ev_text_delta t :: rest => consume_events (text +:+ t) usage rest thrown
  | ev_json_delta t :: rest => consume_events (text +:+ t) usage rest thrown
  | ev_usage u :: rest => consume_events text (Some u) rest thrown
  | ev_done reason :: _ => Ok (cr_ok text usage reason)
  | ev_error code retryable _ :: _ => Ok (cr_error code retryable)
  | ev_aborted :: _ => Ok cr_aborted
  | ev_open :: rest | ev_tool_call_delta _ _ _ :: rest => consume_events text usage rest thrown
  end.

Definition adapter_called (which : AdapterRole) (req : LLMRequest) : G W () := λ w,
  (mkGWorld (gw_host w) (gw_log w ++ [G_adapter which req]), Ok tt).

Definition consumeOnce (which : AdapterRole) (adapter : LLMBackendAdapter W) (req : LLMRequest) (transport : Transport)
  : G W ConsumeResult :=
  match transport with
  | via_sync =>
      match ba_syncCall adapter with
      | None => mret (cr_error BACKEND_ERROR false)
      | Some syncCall =>
          _ ← adapter_called which req;
          g_catch (r ← g_port (syncCall req) (λ _, []);
                   mret (cr_ok EmptyString (Some (rs_usage r)) (rs_finishReason r)))
            (λ _, mret (cr_error CONNECTION_FAILED true))
      end
  | via_sse =>
      _ ← adapter_called which req;
      stream ← g_port (λ h, let '(h', s) := ba_streamCall adapter req h in (h', Ok s)) (λ _, []);
      g_result (consume_events EmptyString None stream.1 stream.2)
  end.

(** *** Retries and the fallback *)

(** The tries of one link of the chain: a result, or the code of the last error. *)
Fixpoint try_adapter (which : AdapterRole) (adapter : LLMBackendAdapter W) (tries : nat) (req : LLMRequest)
  (transport : Transport) (last : option AdapterErrorCode) : G W (Consumed + option AdapterErrorCode) :=
  match tries with
  | O => mret (inr last)
  | S tries' =>
      r ← consumeOnce which adapter req transport;
      match r with
      | cr_ok text usage reason => mret (inl (mkConsumed text usage reason))
      | cr_aborted => g_throw GatewayAbortedError
      | cr_error code false =>
          g_throw (GatewayError (mapTerminal code) ("terminal " +:+ adapter_code_text code) (Some code) None)
      | cr_error code true => try_adapter which adapter tries' req transport (Some code)
      end
  end.

Definition runWithRetryAndFallback (req : LLMRequest) (transport : Transport) : G W Consumed :=
  r ← try_adapter a_primary (gp_primary deps) (gc_retryMax (gp_config deps) + 1) req transport None;
  r ← match r, gp_fallback deps with
      | inl c, _ => mret (inl c)
      | inr last, None => mret (inr last)
      | inr last, Some fallback => try_adapter a_fallback fallback (gc_fallbackAttempts (gp_config deps)) req transport last
      end;
  match r with
  | inl c => mret c
  | inr last =>
      let code := default BACKEND_ERROR last in
      g_throw (GatewayError (mapTerminal code) "retries and fallback exhausted" (Some code) None)
  end.

(** *** Structured output *)

Definition structuredFail (req : LLMRequest) (reason : string) : GatewayExn :=
  GatewayError (if decide (md_primitive (rq_metadata req) = p_extract) then "EXTRACT_SCHEMA_INVALID" else "LLM_MALFORMED_OUTPUT")
    ("structured output invalid: " +:+ reason) (Some MALFORMED_OUTPUT) None.

Definition repair_text (reason priorText : string) : string :=
  "Previous output was invalid (" +:+ reason +:+ "). Return only corrected JSON." +:+ newline +:+ priorText.

Definition repairOnce (req : LLMRequest) (priorText reason : string) (transport : Transport) : G W Consumed :=
  content ← redact req (content_text (repair_text reason priorText)) None "repair" (length (rq_messages req)) "gateway repair";
  r ← consumeOnce a_primary (gp_primary deps) (with_messages (rq_messages req ++ [mkMessage role_user content]) req) transport;
  match r with
  | cr_ok text usage reason => mret (mkConsumed text usage reason)
  | cr_aborted => g_throw GatewayAbortedError
  | cr_error code _ => g_throw (GatewayError (mapTerminal code) ("repair failed: " +:+ adapter_code_text code) (Some code) None)
  end.

Definition put_output (req : LLMRequest) (text : string) : G W string :=
  g_port (gp_put deps text (rq_metadata req)) (λ ref, [G_put text ref]).

(** Why the text is not accepted, or the value it denotes. *)
Definition check_output (rf : ResponseFormat) (text : string) : result string json :=
  match json_parse text with
  | None => Err "output is not valid JSON"
  | Some value =>
      if decide (rf_schemaRef rf = "action_plan" ∧ rf_schema rf = None) then Ok value else
      match gp_validate deps (rf_schemaRef rf) (rf_schemaVersion rf) (rf_schema rf) value with
      | None => Ok value
      | Some reason => Err reason
      end
  end.

(** [repairs] is [repairAttempts - repair]. *)
Fixpoint structured_output (repairs : nat) (req : LLMRequest) (rf : ResponseFormat) (transport : Transport) (text : string)
  : G W (string * json) :=
  match check_output rf text with
  | Ok value => ref ← put_output req text; mret (ref, value)
  | Err reason =>
      if rf_strict rf then g_throw (structuredFail req reason) else
      match repairs with
      | O => g_throw (structuredFail req reason)
      | S repairs' =>
          c ← repairOnce req text reason transport;
          structured_output repairs' req rf transport (cs_text c)
      end
  end.

Definition no_usage : Usage := mkUsage (num_of_Z 0) (num_of_Z 0) (num_of_Z 0) (Some true).

Definition finalize (req : LLMRequest) (consumed : Consumed) (transport : Transport) : G W LLMResponse :=
  let usage := default no_usage (cs_usage consumed) in
  match rq_responseFormat req with
  | None =>
      ref ← put_output req (cs_text consumed);
      mret (mkResponse ref usage (cs_finishReason consumed) None None)
  | Some rf =>
      out ← structured_output (gc_repairAttempts (gp_config deps)) req rf transport (cs_text consumed);
      mret (mkResponse out.1 usage (cs_finishReason consumed) (Some out.2) None)
  end.

(** *** The whole call *)

Definition enforce_governance (req : LLMRequest) : G W () :=
  match gp_aiGovernance deps with
  | None => mret tt
  | Some evaluate =>
      d ← g_port (evaluate req) (λ _, []);
      _ ← recordAiGovernanceDecision req d;
      if decide (gd_kind d = gk_block)
      then g_throw (GatewayError "AI_GOVERNANCE_POLICY_BLOCKED" ("AI governance blocked: " +:+ gd_reason d) None None)
      else mret tt
  end.

Definition guarded_call (req : LLMRequest) (transport : Transport) (callId : option string) : G W LLMResponse :=
  _ ← enforce_governance req;
  redactedReq ← redactRequest (withPromptSchema req);
  consumed ← runWithRetryAndFallback redactedReq transport;
  finalized ← finalize redactedReq consumed transport;
  let response := match callId with Some id => with_call_id id finalized | None => finalized end in
  match gp_idempotency deps, callId with
  | Some idem, Some id =>
      _ ← g_port (is_complete idem id response) (λ _, [G_complete id response]);
      mret response
  | _, _ => mret response
  end.

Definition failure_code (e : GatewayExn) : AdapterErrorCode :=
  match e with GatewayError _ _ code _ => default BACKEND_ERROR code | _ => BACKEND_ERROR end.

Definition on_failure (callId : option string) (e : GatewayExn) : G W LLMResponse :=
  _ ← match gp_idempotency deps, callId with
      | Some idem, Some id => g_port (is_fail idem id (failure_code e)) (λ _, [G_fail id (failure_code e)])
      | _, _ => mret tt
      end;
  match e with
  | GatewayError code message adapterCode None => g_throw (GatewayError code message adapterCode callId)
  | _ => g_throw e
  end.

(** The reservation: a response to replay, or the identifier of the new call. *)
Definition reserve_call (req : LLMRequest) : G W (LLMResponse + option string) :=
  match gp_idempotency deps with
  | None => mret (inr None)
  | Some idem =>
      r ← g_port (is_reserve idem req) (λ r, [G_reserve r]);
      match r with
      | rv_replay response => mret (inl response)
      | rv_reserved callId _ => mret (inr (Some callId))
      | rv_in_flight callId =>
          g_throw (GatewayError "WORKITEM_CHECKOUT_CONFLICT" ("idempotency call '" +:+ callId +:+ "' is still in flight") None None)
      | rv_blocked reason => g_throw (GatewayError "SCENARIO_VERSION_CONFLICT" ("idempotency blocked: " +:+ reason) None None)
      end
  end.

Definition call (req : LLMRequest) : G W LLMResponse :=
  match gp_gate deps (mkGateInput (md_primitive (rq_metadata req)) (rq_responseFormat req) (rq_images req)
                        (ba_capabilities (gp_primary deps))) with
  | cd_deny code reason => g_throw (GatewayError code reason None None)
  | cd_allow transport =>
      r ← reserve_call req;
      match r with
      | inl response => mret response
      | inr callId => g_catch (guarded_call req transport callId) (on_failure callId)
      end
  end.
End Gateway.

(** ** A sample *)

(** A gateway whose ports answer at once, over a host without state: the backend
    streams two pieces of text, or answers a synchronous call. *)
Module GatewaySample.

Definition usage : Usage := mkUsage (num_of_Z 7) (num_of_Z 2) (num_of_Z 1) (Some false).
Definition caps (sse : bool) : ModelCapabilities := mkCapabilities true false true false sse (num_of_Z 8000).
Definition adapter (sse : bool) : LLMBackendAdapter () :=
  mkAdapter _ (caps sse)
    (λ _ h, (h, ([ev_open; ev_text_delta "hel"; ev_text_delta "lo"; ev_usage usage; ev_done fr_stop], None)))
    (Some (λ _ h, (h, Ok (mkResponse "backend-output" usage fr_stop None None)))).
Definition deps (sse : bool) : LlmGatewayDeps () :=
  mkGatewayDeps _ (adapter sse) None evaluate_capability (λ _ _ _ _, None) (λ text _ h, (h, Ok ("ref:" +:+ text))) None
    (λ _ h, (h, Ok tt)) (λ input h, (h, Ok (rd_redacted (ri_content input)))) None (mkGatewayConfig 2 1 1).
Definition request : LLMRequest :=
  mkRequest "model" "v1" [mkMessage role_user (content_text "read the page")] None None None JNull
    (mkMetadata "tenant" "run" "step" 0 p_extract "corr" None)
    (mkBudget (num_of_Z 1000) (num_of_Z 1000) (num_of_Z 10)) "key" "hash".
End GatewaySample.
