(* ===== verification/GatewayProps.v ===== *)
(** * What the gateway sends

    Theorems about [Gateway]: only redacted and audited content reaches an
    adapter, nothing is sent once content was blocked, the number of calls of a
    backend is bounded, and what a synchronous backend answers is lost. *)

From stdpp Require Import base strings list sets.
From Stdlib Require Import ZArith Lia.
From S2P Require Import Prelude JsValue JsText Gateway.

(** ** Programs and what they append to the log *)

Section Logic.
Context {W : Type}.

(** Whatever the world, the program appends a list to the log that fits its result. *)
Definition gives {A} (m : G W A) (Q : list GatewayEvent → result GatewayExn A → Prop) : Prop :=
  ∀ w, ∃ l, gw_log (m w).1 = gw_log w ++ l ∧ Q l (m w).2.

Lemma gives_mono {A} (m : G W A) (Q Q' : _ → _ → Prop) : gives m Q → (∀ l r, Q l r → Q' l r) → gives m Q'.
Proof. intros H HQ w. destruct (H w) as (l & E & Hl). exists l. auto. Qed.
Lemma gives_ret {A} (a : A) (Q : _ → _ → Prop) : Q [] (Ok a) → gives (mret a) Q.
Proof. intros H w. exists []. by rewrite app_nil_r. Qed.
Lemma gives_throw {A} e (Q : _ → _ → Prop) : Q [] (Err e) → gives (g_throw (A:=A) e) Q.
Proof. intros H w. exists []. by rewrite app_nil_r. Qed.
Lemma gives_result {A} (r : result _ A) (Q : _ → _ → Prop) : Q [] r → gives (g_result r) Q.
Proof. intros H w. exists []. by rewrite app_nil_r. Qed.

(** [R l] is the postcondition of what follows a program that has appended [l]. *)
Lemma gives_then {A B} (m : G W A) (k : A → G W B) (Q : _ → _ → Prop) :
  gives m (λ l r, match r with Err e => Q l (Err e) | Ok a => gives (k a) (λ l' r', Q (l ++ l') r') end) →
  gives (m ≫= k) Q.
Proof.
  intros H w. destruct (H w) as (l & E & Hl). unfold mbind, G_bind. destruct (m w) as [w1 [a|e]]; simpl in *.
  - destruct (Hl w1) as (l' & E' & Hl'). exists (l ++ l'). rewrite E', E, app_assoc. done.
  - by exists l.
Qed.
Lemma gives_catch {A} (m : G W A) handler (Q : _ → _ → Prop) :
  gives m (λ l r, match r with Ok a => Q l (Ok a) | Err e => gives (handler e) (λ l' r', Q (l ++ l') r') end) →
  gives (g_catch m handler) Q.
Proof.
  intros H w. destruct (H w) as (l & E & Hl). unfold g_catch. destruct (m w) as [w1 [a|e]]; simpl in *.
  - by exists l.
  - destruct (Hl w1) as (l' & E' & Hl'). exists (l ++ l'). rewrite E', E, app_assoc. done.
Qed.
Lemma gives_port {A} (f : W → W * result string A) entry (Q : _ → _ → Prop) :
  (∀ a, Q (entry a) (Ok a)) → (∀ m, Q [] (Err (PortError m))) → gives (g_port f entry) Q.
Proof.
  intros H1 H2 w. unfold g_port. destruct (f (gw_host w)) as [h [a|m]]; simpl.
  - by exists (entry a).
  - exists []. by rewrite app_nil_r.
Qed.
End Logic.

(** ** The logs of the parts *)

(** No event of the list is the call of an adapter. *)
Definition sends_nothing (l : list GatewayEvent) : Prop := ∀ which req, G_adapter which req ∉ l.
Definition is_send (e : GatewayEvent) : Prop := match e with G_adapter _ _ => True | _ => False end.
#[export] Instance is_send_dec e : Decision (is_send e).
Proof. destruct e; apply _. Defined.
Definition sends (l : list GatewayEvent) : nat := length (filter is_send l).

Lemma sends_app l l' : sends (l ++ l') = sends l + sends l'.
Proof. unfold sends. by rewrite filter_app, length_app. Qed.

Section Parts.
Context {W : Type} (json_parse : string → option json) (deps : LlmGatewayDeps W).

Lemma gives_audit entry failure :
  gives (record_audit deps entry failure) (λ l r, match r with Ok _ => l = [G_audit entry] | Err _ => l = [] end).
Proof. apply gives_catch, gives_port; [done|]. intros m. by apply gives_throw. Qed.

(** A redaction: the boundary is asked, its answer is audited, and content comes
    back only when it was not blocked. *)
Definition redaction_log (req : LLMRequest) (raw : MessageContent) (l : list GatewayEvent)
    (r : result GatewayExn MessageContent) : Prop :=
  ∃ runs phase i, let input := mkRedaction (md_tenantId (rq_metadata req)) (md_runId (rq_metadata req)) raw runs in
  match r with
  | Ok c => l = [G_redact input (rd_redacted c); G_audit (prompt_inspect_entry req (rd_redacted c) phase i)]
  | Err _ => l = [] ∨ (∃ a, l = [G_redact input a]) ∨
             ∃ code ev, l = [G_redact input (rd_blocked code ev); G_audit (prompt_inspect_entry req (rd_blocked code ev) phase i)]
  end.

Lemma gives_redact req raw runs phase i where_ :
  gives (redact deps req raw runs phase i where_) (redaction_log req raw).
Proof.
  apply gives_then, gives_port; [|intros m; exists runs, phase, i; by left].
  intros a. apply gives_then. eapply gives_mono; [apply gives_audit|]. intros l [u|e] ->; simpl.
  - destruct a as [c|code ev]; [apply gives_ret|apply gives_throw]; exists runs, phase, i; simpl; eauto 10.
  - exists runs, phase, i. simpl. eauto 10.
Qed.

Lemma gives_consumeOnce which (adapter : LLMBackendAdapter W) req transport :
  gives (consumeOnce which adapter req transport) (λ l r, l = [] ∨ l = [G_adapter which req]).
Proof.
  unfold consumeOnce. destruct transport.
  - apply gives_then. intros w. exists [G_adapter which req]. split; [done|]. simpl.
    apply gives_then, gives_port; [|by right]. intros s. apply gives_result. by right.
  - destruct (ba_syncCall adapter); [|apply gives_ret; by left].
    apply gives_then. intros w. exists [G_adapter which req]. split; [done|]. simpl.
    apply gives_catch, gives_then, gives_port; [intros a; apply gives_ret; by right|].
    intros m. apply gives_ret. by right.
Qed.

Lemma gives_try_adapter which (adapter : LLMBackendAdapter W) tries req transport : ∀ last,
  gives (try_adapter which adapter tries req transport last)
    (λ l r, ∃ n, n ≤ tries ∧ l = replicate n (G_adapter which req)).
Proof.
  induction tries as [|tries IH]; intros last; cbn [try_adapter]; [apply gives_ret; by exists 0|].
  apply gives_then. eapply gives_mono; [apply gives_consumeOnce|]. intros l r Hl.
  assert (Hl1 : ∃ n, n ≤ 1 ∧ l = replicate n (G_adapter which req)).
  { destruct Hl as [-> | ->]; [by exists 0; split; [lia|]|by exists 1]. }
  clear Hl. destruct Hl1 as (n & Hn & ->). destruct r as [[text us fr|code [|]|]|e].
  - apply gives_ret. rewrite app_nil_r. exists n. split; [lia|done].
  - eapply gives_mono; [apply IH|]. intros l r (n' & Hn' & ->). exists (n + n'). split; [lia|].
    by rewrite replicate_add.
  - apply gives_throw. rewrite app_nil_r. exists n. split; [lia|done].
  - apply gives_throw. rewrite app_nil_r. exists n. split; [lia|done].
  - exists n. split; [lia|done].
Qed.

Definition fallback_tries : nat :=
  match gp_fallback deps with Some _ => gc_fallbackAttempts (gp_config deps) | None => 0 end.

Lemma gives_run req transport :
  gives (runWithRetryAndFallback deps req transport)
    (λ l r, ∃ n m, n ≤ gc_retryMax (gp_config deps) + 1 ∧ m ≤ fallback_tries ∧
       l = replicate n (G_adapter a_primary req) ++ replicate m (G_adapter a_fallback req)).
Proof.
  unfold runWithRetryAndFallback. apply gives_then. eapply gives_mono; [apply gives_try_adapter|].
  intros l r (n & Hn & ->).
  set (P := λ k : list GatewayEvent, ∃ n m, n ≤ gc_retryMax (gp_config deps) + 1 ∧ m ≤ fallback_tries ∧
    k = replicate n (G_adapter a_primary req) ++ replicate m (G_adapter a_fallback req)).
  assert (Hend : ∀ k, (∃ m, m ≤ fallback_tries ∧ k = replicate m (G_adapter a_fallback req)) →
    P (replicate n (G_adapter a_primary req) ++ k)) by (intros k (m & Hm & ->); by exists n, m).
  assert (H0 : P (replicate n (G_adapter a_primary req))).
  { rewrite <-(app_nil_r (replicate n _)). apply Hend. exists 0. split; [lia|done]. }
  destruct r as [r|e]; [|exact H0]. apply gives_then. destruct r as [c|last].
  - apply gives_ret, gives_ret. by rewrite !app_nil_r.
  - unfold fallback_tries in *. destruct (gp_fallback deps) as [fb|].
    + eapply gives_mono; [apply gives_try_adapter|]. intros l r Hl.
      destruct r as [[c|last']|e]; [apply gives_ret|apply gives_throw|]; rewrite ?app_nil_r; by apply Hend.
    + apply gives_ret, gives_throw. by rewrite !app_nil_r.
Qed.
End Parts.

(** ** Cleared content *)

(** The log shows that the boundary redacted the raw content to this content and
    that the verdict was audited before anything else happened. *)
Definition cleared (md : LLMRequestMetadata) (raw c : MessageContent) (log : list GatewayEvent) : Prop :=
  ∃ l1 l2 runs d, log = l1 ++ G_redact (mkRedaction (md_tenantId md) (md_runId md) raw runs) (rd_redacted c) :: G_audit d :: l2 ∧
    ad_action d = "prompt.inspect" ∧ ad_outcome d = "allow" ∧ ad_runId d = md_runId md.

(** A message as it is sent: a user message is cleared, a system message is the
    one that was given. *)
Definition message_cleared (md : LLMRequestMetadata) (log : list GatewayEvent) (m sent : LLMMessage) : Prop :=
  m_role sent = m_role m ∧
  if decide (m_role m = role_user) then cleared md (m_content m) (m_content sent) log else sent = m.

Definition unblocked (log : list GatewayEvent) : Prop := ∀ input code ev, G_redact input (rd_blocked code ev) ∉ log.

Definition repair_cleared (md : LLMRequestMetadata) (log : list GatewayEvent) (repair : list LLMMessage) : Prop :=
  repair = [] ∨ ∃ text c, repair = [mkMessage role_user c] ∧ cleared md (content_text text) c log.

(** What may be sent after the log: the messages of the request, cleared, and at
    most one cleared request for a repair. *)
Record may_send (req : LLMRequest) (log : list GatewayEvent) (sent : LLMRequest) : Prop := {
  ms_unblocked : unblocked log;
  ms_inspection : rq_promptInspection sent = None;
  ms_metadata : rq_metadata sent = rq_metadata req;
  ms_messages : ∃ base repair, rq_messages sent = base ++ repair ∧
    Forall2 (message_cleared (rq_metadata req) log) (rq_messages req) base ∧ repair_cleared (rq_metadata req) log repair
}.

(** Every call of an adapter in the list was allowed by what came before it. *)
Fixpoint safe_from (req : LLMRequest) (before l : list GatewayEvent) : Prop :=
  match l with
  | [] => True
  | e :: l' => match e with G_adapter _ sent => may_send req before sent | _ => True end ∧ safe_from req (before ++ [e]) l'
  end.

Lemma safe_app req l : ∀ before l', safe_from req before (l ++ l') ↔ safe_from req before l ∧ safe_from req (before ++ l) l'.
Proof.
  induction l as [|e l IH]; intros before l'; simpl; [rewrite app_nil_r; tauto|].
  rewrite IH, <-app_assoc. simpl. tauto.
Qed.

Lemma sends_nothing_app l l' : sends_nothing l → sends_nothing l' → sends_nothing (l ++ l').
Proof. intros H H' which req. rewrite elem_of_app. intros [?|?]; [by eapply H|by eapply H']. Qed.
Lemma unblocked_app l l' : unblocked l → unblocked l' → unblocked (l ++ l').
Proof. intros H H' i c ev. rewrite elem_of_app. intros [?|?]; [by eapply H|by eapply H']. Qed.
Lemma sends_nothing_sends l : sends_nothing l → sends l = 0.
Proof.
  intros H. unfold sends. apply length_zero_iff_nil, elem_of_nil_inv. intros e [He Hin]%list_elem_of_filter.
  destruct e; try done. by eapply H.
Qed.
Lemma sends_nothing_safe req l : ∀ before, sends_nothing l → safe_from req before l.
Proof.
  induction l as [|e l IH]; intros before H; [done|]. split.
  - destruct e; try done. exfalso. eapply (H _ _). by left.
  - apply IH. intros which r Hin. eapply H. by right.
Qed.
Lemma unblocked_adapter n which req : unblocked (replicate n (G_adapter which req)).
Proof. intros i c ev [H _]%elem_of_replicate. done. Qed.
Lemma sends_replicate n which req : sends (replicate n (G_adapter which req)) = n.
Proof. unfold sends. induction n as [|n IH]; [done|]. cbn [replicate]. rewrite filter_cons_True by done. cbn [length]. by f_equal. Qed.

Lemma cleared_mono md raw c log l : cleared md raw c log → cleared md raw c (log ++ l).
Proof. intros (l1 & l2 & runs & d & -> & H). exists l1, (l2 ++ l), runs, d. by rewrite <-app_assoc. Qed.
Lemma cleared_mono_l md raw c log l : cleared md raw c log → cleared md raw c (l ++ log).
Proof. intros (l1 & l2 & runs & d & -> & H). exists (l ++ l1), l2, runs, d. by rewrite <-app_assoc. Qed.
Lemma message_cleared_mono md log l m m' : message_cleared md log m m' → message_cleared md (log ++ l) m m'.
Proof. intros [H1 H2]. split; [done|]. case_decide; [by apply cleared_mono|done]. Qed.
Lemma message_cleared_mono_l md log l m m' : message_cleared md log m m' → message_cleared md (l ++ log) m m'.
Proof. intros [H1 H2]. split; [done|]. case_decide; [by apply cleared_mono_l|done]. Qed.

Lemma may_send_mono req log sent l : may_send req log sent → unblocked l → may_send req (log ++ l) sent.
Proof.
  intros [H1 H2 H3 (base & repair & E & Hb & Hr)] Hl. split; [by apply unblocked_app|done|done|].
  exists base, repair. split; [done|]. split.
  - eapply Forall2_impl; [exact Hb|]. intros m m'. apply message_cleared_mono.
  - destruct Hr as [->|(t & c & -> & Hc)]; [by left|right]. exists t, c. split; [done|]. by apply cleared_mono.
Qed.
Lemma safe_replicate req sent which n : ∀ before, may_send req before sent → safe_from req before (replicate n (G_adapter which sent)).
Proof.
  induction n as [|n IH]; intros before H; [done|]. split; [done|]. apply IH, may_send_mono; [done|].
  apply (unblocked_adapter 1).
Qed.

Section Calls.
Context {W : Type} (json_parse : string → option json) (deps : LlmGatewayDeps W).

Lemma redaction_log_spec req raw l r : redaction_log req raw l r →
  sends_nothing l ∧ match r with Ok c => unblocked l ∧ cleared (rq_metadata req) raw c l | Err _ => True end.
Proof.
  intros (runs & phase & i & H). cbv zeta in H. destruct r as [c|e].
  - subst l. split_and!.
    + intros which q. set_solver.
    + intros i' c' ev. set_solver.
    + eexists [], [], runs, _. split; [reflexivity|]. done.
  - split; [|done]. intros which q. destruct H as [->|[(a & ->)|(code & ev & ->)]]; set_solver.
Qed.

Lemma gives_redact_messages req ms : ∀ out,
  gives (redact_messages deps req ms out) (λ l r, sends_nothing l ∧
    match r with
    | Ok out' => unblocked l ∧ ∃ new, out' = out ++ new ∧ Forall2 (message_cleared (rq_metadata req) l) ms new
    | Err _ => True
    end).
Proof.
  induction ms as [|m ms IH]; intros out; cbn [redact_messages].
  { apply gives_ret. split; [intros ? ?; set_solver|]. split; [intros ? ? ?; set_solver|]. exists []. by rewrite app_nil_r. }
  destruct (decide (m_role m = role_user)) as [Hu|Hu].
  - apply gives_then. eapply gives_mono; [apply gives_redact|]. intros l r [Hs Hr]%redaction_log_spec.
    destruct r as [c|e]; [|done]. destruct Hr as [Hb Hc]. eapply gives_mono; [apply IH|]. intros l' r [Hs' Hr].
    split; [by apply sends_nothing_app|]. destruct r as [out'|e]; [|done]. destruct Hr as (Hb' & new & -> & Hn).
    split; [by apply unblocked_app|]. exists (mkMessage role_user c :: new). rewrite <-app_assoc. split; [done|].
    constructor.
    + split; [done|]. rewrite decide_True by done. by apply cleared_mono.
    + eapply Forall2_impl; [exact Hn|]. intros x y. apply message_cleared_mono_l.
  - eapply gives_mono; [apply IH|]. intros l r [Hs Hr]. split; [done|]. destruct r as [out'|e]; [|done].
    destruct Hr as (Hb & new & -> & Hn). split; [done|]. exists (m :: new). rewrite <-app_assoc. split; [done|].
    constructor; [|done]. split; [done|]. by rewrite decide_False.
Qed.

(** The redacted request itself, of which the calls are made. *)
Record prepared (req : LLMRequest) (log : list GatewayEvent) (sent : LLMRequest) : Prop := {
  pr_unblocked : unblocked log;
  pr_inspection : rq_promptInspection sent = None;
  pr_metadata : rq_metadata sent = rq_metadata req;
  pr_format : rq_responseFormat sent = rq_responseFormat req;
  pr_messages : Forall2 (message_cleared (rq_metadata req) log) (rq_messages req) (rq_messages sent)
}.

Lemma prepared_mono req log sent l : prepared req log sent → unblocked l → prepared req (log ++ l) sent.
Proof.
  intros [H1 H2 H3 H3' H4] Hl. split; [by apply unblocked_app|done|done|done|].
  eapply Forall2_impl; [exact H4|]. intros m m'. apply message_cleared_mono.
Qed.
Lemma prepared_may_send req log sent : prepared req log sent → may_send req log sent.
Proof.
  intros [H1 H2 H3 _ H4]. split; [done..|]. exists (rq_messages sent), []. rewrite app_nil_r. split; [done|].
  split; [done|by left].
Qed.
Lemma prepared_repair req log sent text c l : prepared req log sent → unblocked l →
  cleared (rq_metadata req) (content_text text) c l →
  may_send req (log ++ l) (with_messages (rq_messages sent ++ [mkMessage role_user c]) sent).
Proof.
  intros [H1 H2 H3 _ H4] Hl Hc. split; [by apply unblocked_app|done|done|]. exists (rq_messages sent), [mkMessage role_user c].
  split; [done|]. split.
  - eapply Forall2_impl; [exact H4|]. intros m m'. apply message_cleared_mono.
  - right. exists text, c. split; [done|]. by apply cleared_mono_l.
Qed.

Lemma gives_redactRequest req :
  gives (redactRequest deps req) (λ l r, sends_nothing l ∧ match r with Ok sent => prepared req l sent | Err _ => True end).
Proof.
  apply gives_then. eapply gives_mono; [apply gives_redact_messages|]. intros l r [Hs Hr].
  destruct r as [out|e]; [|done]. destruct Hr as (Hb & new & -> & Hn). apply gives_ret. by rewrite app_nil_r.
Qed.

(** [n] calls at most, each of them allowed. *)
Definition bounded (req : LLMRequest) (before : list GatewayEvent) (n : nat) (l : list GatewayEvent) : Prop :=
  safe_from req before l ∧ sends l ≤ n.

Lemma bounded_app req before n m l l' : bounded req before n l → bounded req (before ++ l) m l' →
  bounded req before (n + m) (l ++ l').
Proof. intros [H1 H2] [H3 H4]. split; [by apply safe_app|]. rewrite sends_app. lia. Qed.
Lemma bounded_quiet req before l : sends_nothing l → bounded req before 0 l.
Proof. intros H. split; [by apply sends_nothing_safe|]. by rewrite sends_nothing_sends. Qed.
Lemma bounded_mono req before n m l : bounded req before n l → n ≤ m → bounded req before m l.
Proof. intros [H1 H2] H. split; [done|lia]. Qed.

Lemma gives_repairOnce req before sent priorText reason transport : prepared req before sent →
  gives (repairOnce deps sent priorText reason transport)
    (λ l r, bounded req before 1 l ∧ match r with Ok _ => unblocked l | Err _ => True end).
Proof.
  intros Hp. apply gives_then. eapply gives_mono; [apply gives_redact|]. intros l r [Hs Hr]%redaction_log_spec.
  assert (Hq := bounded_quiet req before l Hs).
  destruct r as [c|e]; [|split; [(eapply bounded_mono; [eassumption|lia])|done]]. destruct Hr as [Hb Hc].
  rewrite (pr_metadata _ _ _ Hp) in Hc. assert (Hm := prepared_repair _ _ _ _ _ _ Hp Hb Hc).
  apply gives_then. eapply gives_mono; [apply gives_consumeOnce|]. intros l' r Hl'.
  assert (Hl : bounded req (before ++ l) 1 l' ∧ unblocked l').
  { destruct Hl' as [-> | ->]; [split; [split; [done|unfold sends; simpl; lia]|intros ? ? ?; set_solver]|].
    split; [|apply (unblocked_adapter 1)]. split; [by apply (safe_replicate _ _ _ 1)|done]. }
  destruct Hl as [Hl Hl'']. assert (Ha := bounded_app _ _ _ _ _ _ Hq Hl).
  destruct r as [[text us fr|code rt|]|e];
    [apply gives_ret|apply gives_throw|apply gives_throw|]; rewrite ?app_nil_r; (split; [done|]); try done.
  by apply unblocked_app.
Qed.

Lemma sends_nothing_one e l : ¬ is_send e → sends_nothing l → sends_nothing (e :: l).
Proof. intros He H which req [<-|?]%elem_of_cons; [by apply He|by eapply H]. Qed.
Lemma sends_nothing_nil : sends_nothing [].
Proof. intros which req. apply not_elem_of_nil. Qed.

Lemma gives_put sent text : gives (put_output deps sent text) (λ l r, sends_nothing l).
Proof. apply gives_port; [intros ref; apply sends_nothing_one; [intros []|apply sends_nothing_nil]|intros _; apply sends_nothing_nil]. Qed.

Lemma gives_structured req rf transport sent repairs : ∀ before text, prepared req before sent →
  gives (structured_output json_parse deps repairs sent rf transport text) (λ l r, bounded req before repairs l).
Proof.
  induction repairs as [|repairs IH]; intros before text Hp; cbn [structured_output];
    (destruct (check_output json_parse deps rf text) as [value|reason];
     [apply gives_then; eapply gives_mono; [apply gives_put|]; intros l r Hs; apply (bounded_quiet req before) in Hs;
      (destruct r; [apply gives_ret; rewrite app_nil_r|]; (eapply bounded_mono; [eassumption|lia]))|]);
    (destruct (rf_strict rf); [apply gives_throw; eapply bounded_mono; [apply bounded_quiet, sends_nothing_nil|lia]|]).
  - apply gives_throw, bounded_quiet, sends_nothing_nil.
  - apply gives_then. eapply gives_mono; [by apply gives_repairOnce|]. intros l r [Hl Hr].
    destruct r as [c|e]; [|(eapply bounded_mono; [eassumption|lia])]. eapply gives_mono; [by apply (IH (before ++ l)), prepared_mono|].
    intros l' r' Hl'. by apply (bounded_app _ _ 1).
Qed.

Lemma gives_finalize req before sent consumed transport : prepared req before sent →
  gives (finalize json_parse deps sent consumed transport) (λ l r, bounded req before (gc_repairAttempts (gp_config deps)) l).
Proof.
  intros Hp. unfold finalize. destruct (rq_responseFormat sent) as [rf|]; apply gives_then.
  - eapply gives_mono; [by apply gives_structured|]. intros l [out|e] Hl; [|done]. apply gives_ret. by rewrite app_nil_r.
  - eapply gives_mono; [apply gives_put|]. intros l r Hs. apply (bounded_quiet req before) in Hs.
    destruct r; [apply gives_ret; rewrite app_nil_r|]; (eapply bounded_mono; [done|lia]).
Qed.

Definition max_sends : nat :=
  gc_retryMax (gp_config deps) + 1 + fallback_tries deps + gc_repairAttempts (gp_config deps).

Lemma gives_governance req : gives (enforce_governance deps req) (λ l r, sends_nothing l ∧ unblocked l).
Proof.
  assert (Hnil : sends_nothing [] ∧ unblocked []) by (split; [apply sends_nothing_nil|intros ? ? ?; apply not_elem_of_nil]).
  unfold enforce_governance. destruct (gp_aiGovernance deps) as [ev|]; [|by apply gives_ret].
  apply gives_then, gives_port; [|done]. intros d. apply gives_then. eapply gives_mono; [apply gives_audit|].
  intros l [u|e] ->; [|done].
  assert (Ha : sends_nothing [G_audit (governance_entry req d)] ∧ unblocked [G_audit (governance_entry req d)]).
  { split; [apply sends_nothing_one; [intros []|apply sends_nothing_nil]|]. intros i c ev'. set_solver. }
  case_decide; [by apply gives_throw|by apply gives_ret].
Qed.

Lemma gives_run_bounded req before sent transport : prepared req before sent →
  gives (runWithRetryAndFallback deps sent transport)
    (λ l r, bounded req before (gc_retryMax (gp_config deps) + 1 + fallback_tries deps) l ∧ unblocked l).
Proof.
  intros Hp. eapply gives_mono; [apply gives_run|]. intros l r (n & m & Hn & Hm & ->).
  assert (Hu := unblocked_adapter n a_primary sent). split; [|by apply unblocked_app; [|apply unblocked_adapter]].
  apply bounded_app; (split; [|rewrite sends_replicate; lia]); apply safe_replicate; [by apply prepared_may_send|].
  by apply may_send_mono; [apply prepared_may_send|].
Qed.

Lemma gives_guarded req transport callId :
  gives (guarded_call json_parse deps req transport callId) (λ l r, bounded (withPromptSchema deps req) [] max_sends l).
Proof.
  set (req' := withPromptSchema deps req). unfold guarded_call. apply gives_then.
  eapply gives_mono; [apply gives_governance|]. intros l0 r [Hs Hb]. assert (H0 := bounded_quiet req' [] l0 Hs).
  destruct r as [u|e]; [|eapply bounded_mono; [done|lia]].
  apply gives_then. eapply gives_mono; [apply gives_redactRequest|]. intros l1 r [Hs1 Hr].
  assert (H1 := bounded_app _ _ _ _ _ _ H0 (bounded_quiet req' _ l1 Hs1)). cbn [app] in H1.
  destruct r as [sent|e]; [|eapply bounded_mono; [done|lia]].
  assert (Hp : prepared req' (l0 ++ l1) sent).
  { destruct Hr as [P1 P2 P3 P4 P5]. split; [by apply unblocked_app|done..|]. eapply Forall2_impl; [exact P5|].
    intros m m'. apply message_cleared_mono_l. }
  apply gives_then. eapply gives_mono; [by apply gives_run_bounded|]. intros l2 r [H2 Hb2].
  assert (H12 := bounded_app _ _ _ _ _ _ H1 H2). rewrite <-app_assoc in H12.
  destruct r as [consumed|e]; [|eapply bounded_mono; [done|unfold max_sends; lia]].
  apply gives_then. eapply gives_mono; [by apply (gives_finalize req' ((l0 ++ l1) ++ l2)), prepared_mono|]. intros l3 r H3.
  rewrite <-app_assoc in H3. assert (H13 := bounded_app _ _ _ _ _ _ H12 H3). rewrite <-!app_assoc in H13.
  destruct r as [resp|e]; [|eapply bounded_mono; [done|unfold max_sends; lia]].
  assert (Hend : ∀ l, sends_nothing l → bounded req' [] max_sends (l0 ++ l1 ++ l2 ++ l3 ++ l)).
  { intros l Hl. eapply bounded_mono; [|shelve]. rewrite !app_assoc. eapply bounded_app; [rewrite <-!app_assoc; exact H13|].
    by apply bounded_quiet. Unshelve. unfold max_sends. lia. }
  destruct (gp_idempotency deps) as [idem|], callId as [id|]; try (apply gives_ret; apply Hend, sends_nothing_nil).
  apply gives_then, gives_port; [intros u'; apply gives_ret; rewrite app_nil_r|intros m]; apply Hend;
    [apply sends_nothing_one; [intros []|apply sends_nothing_nil]|apply sends_nothing_nil].
Qed.

Lemma gives_on_failure callId e : gives (on_failure deps callId e) (λ l r, sends_nothing l).
Proof.
  assert (Hthrow : ∀ l : list GatewayEvent, sends_nothing l → gives (match e with
    | GatewayError code message adapterCode None => g_throw (GatewayError code message adapterCode callId)
    | _ => g_throw e end : G W LLMResponse) (λ l' r, sends_nothing (l ++ l'))).
  { intros l Hl. destruct e as [? ? ? [?|]| |]; apply gives_throw; by rewrite app_nil_r. }
  unfold on_failure. apply gives_then. destruct (gp_idempotency deps) as [idem|], callId as [id|];
    try (apply gives_ret; apply Hthrow, sends_nothing_nil).
  apply gives_port; [|intros; apply sends_nothing_nil]. intros u. apply Hthrow.
  apply sends_nothing_one; [intros []|apply sends_nothing_nil].
Qed.

Lemma on_failure_throws callId e : gives (on_failure deps callId e) (λ l r, match r with Ok _ => False | Err _ => True end).
Proof.
  apply gives_then.
  assert (H : ∀ l : list GatewayEvent, gives (match e with
    | GatewayError code message adapterCode None => g_throw (GatewayError code message adapterCode callId)
    | _ => g_throw e end : G W LLMResponse) (λ l' r, match r with Ok _ => False | Err _ => True end)).
  { intros l. destruct e as [? ? ? [?|]| |]; by apply gives_throw. }
  destruct (gp_idempotency deps), callId; try (apply gives_ret; apply (H [])). apply gives_port; [intros u; apply (H [])|done].
Qed.

Lemma gives_call req : gives (call json_parse deps req)
  (λ l r, ∃ l1 l2, l = l1 ++ l2 ∧ sends_nothing l1 ∧ unblocked l1 ∧ bounded (withPromptSchema deps req) [] max_sends l2).
Proof.
  assert (Hnil : ∀ l, sends_nothing l → unblocked l → ∃ l1 l2, l = l1 ++ l2 ∧ sends_nothing l1 ∧ unblocked l1 ∧
    bounded (withPromptSchema deps req) [] max_sends l2).
  { intros l H H'. exists l, []. rewrite app_nil_r. split_and!; [done..|]. split; [done|]. unfold sends. simpl. lia. }
  assert (Hu : unblocked []) by (intros ? ? ?; apply not_elem_of_nil).
  unfold call. destruct (gp_gate _ _) as [transport|code reason]; [|by apply gives_throw, Hnil; [apply sends_nothing_nil|]].
  apply gives_then.
  assert (Hr : gives (reserve_call deps req) (λ l r, sends_nothing l ∧ unblocked l)).
  { unfold reserve_call. destruct (gp_idempotency deps) as [idem|]; [|by apply gives_ret; split; [apply sends_nothing_nil|]].
    apply gives_then, gives_port; [|split; [apply sends_nothing_nil|done]]. intros a.
    assert (Ha : sends_nothing [G_reserve a] ∧ unblocked [G_reserve a]).
    { split; [apply sends_nothing_one; [intros []|apply sends_nothing_nil]|]. intros i c ev. set_solver. }
    destruct a; first [apply gives_ret|apply gives_throw]; by rewrite app_nil_r. }
  eapply gives_mono; [exact Hr|]. intros l r [Hs Hb]. destruct r as [[response|callId]|e]; [| |by apply Hnil].
  - apply gives_ret. rewrite app_nil_r. by apply Hnil.
  - apply gives_catch. eapply gives_mono; [apply gives_guarded|]. intros l' r Hl'.
    destruct r as [resp|e]; [by exists l, l'|]. eapply gives_mono; [apply gives_on_failure|]. intros l'' r Hs''.
    exists l, (l' ++ l''). split_and!; [done|done|done|].
    eapply bounded_mono; [eapply bounded_app; [exact Hl'|by apply bounded_quiet]|lia].
Qed.

Lemma safe_split req l : ∀ before l1 which sent l2, safe_from req before l → l = l1 ++ G_adapter which sent :: l2 →
  may_send req (before ++ l1) sent.
Proof.
  induction l as [|e l IH]; intros before l1 which sent l2 H E; [by destruct l1|].
  destruct l1 as [|e1 l1]; injection E as -> ->; destruct H as [H1 H2].
  - by rewrite app_nil_r.
  - replace (before ++ e1 :: l1) with ((before ++ [e1]) ++ l1) by (by rewrite <-app_assoc). by eapply IH.
Qed.

Lemma may_send_mono_l req log sent l : may_send req log sent → unblocked l → may_send req (l ++ log) sent.
Proof.
  intros [H1 H2 H3 (base & repair & E & Hb & Hr)] Hl. split; [by apply unblocked_app|done|done|].
  exists base, repair. split; [done|]. split.
  - eapply Forall2_impl; [exact Hb|]. intros m m'. apply message_cleared_mono_l.
  - destruct Hr as [->|(t & c & -> & Hc)]; [by left|right]. exists t, c. split; [done|]. by apply cleared_mono_l.
Qed.

Lemma sends_nothing_split l l' l1 which sent l2 : sends_nothing l → l ++ l' = l1 ++ G_adapter which sent :: l2 →
  ∃ l1', l1 = l ++ l1' ∧ l' = l1' ++ G_adapter which sent :: l2.
Proof.
  revert l1. induction l as [|e l IH]; intros l1 H E; [by exists l1|]. destruct l1 as [|e1 l1]; injection E as -> E.
  - exfalso. eapply H. by left.
  - destruct (IH l1) as (l1' & -> & ->); [intros ? ? ?; eapply H; by right|done|]. by exists l1'.
Qed.

(** C9. Only cleared content reaches a backend.  Whatever the ports do, whenever
    the gateway calls an adapter (in a first try, a retry, the fallback or a
    repair), nothing was blocked before, the hidden text runs of the inspection
    are gone, and the messages sent are those of the request: the system
    messages as given (the first one with the instruction to follow the schema),
    each user message as the redaction boundary returned it, with its verdict
    already in the audit log, and at most one more user message, for a repair,
    that went through the boundary and the audit log too. *)
Theorem gateway_sends_only_cleared req w :
  ∃ l, gw_log (call json_parse deps req w).1 = gw_log w ++ l ∧
    ∀ l1 which sent l2, l = l1 ++ G_adapter which sent :: l2 → may_send (withPromptSchema deps req) l1 sent.
Proof.
  destruct (gives_call req w) as (l & E & la & lb & -> & Hs & Hu & Hb & _). exists (la ++ lb). split; [done|].
  intros l1 which sent l2 Hl. destruct (sends_nothing_split _ _ _ _ _ _ Hs Hl) as (l1' & -> & ->).
  apply may_send_mono_l; [|done]. by eapply (safe_split _ _ []).
Qed.

(** A call of the gateway calls the backends at most [retryMax + 1] times, plus
    the tries of the fallback when there is one, plus the repairs. *)
Theorem gateway_calls_bounded req w :
  ∃ l, gw_log (call json_parse deps req w).1 = gw_log w ++ l ∧
    sends l ≤ gc_retryMax (gp_config deps) + 1 +
      match gp_fallback deps with Some _ => gc_fallbackAttempts (gp_config deps) | None => 0 end +
      gc_repairAttempts (gp_config deps).
Proof.
  destruct (gives_call req w) as (l & E & la & lb & -> & Hs & _ & _ & Hb). exists (la ++ lb). split; [done|].
  rewrite sends_app, (sends_nothing_sends la) by done. exact Hb.
Qed.

(** ** Synchronous backends *)

Section Sync.
Context (no_value : json_parse EmptyString = None).

Lemma sync_consume which (adapter : LLMBackendAdapter W) req :
  gives (consumeOnce which adapter req via_sync)
    (λ l r, match r with Ok (cr_ok text _ _) => text = EmptyString | _ => True end).
Proof.
  simpl. destruct (ba_syncCall adapter); [|by apply gives_ret]. apply gives_then. intros w. eexists. split; [done|]. simpl.
  apply gives_catch, gives_then, gives_port; [intros a; by apply gives_ret|]. intros m. by apply gives_ret.
Qed.

Lemma sync_try which (adapter : LLMBackendAdapter W) tries req : ∀ last,
  gives (try_adapter which adapter tries req via_sync last)
    (λ l r, match r with Ok (inl c) => cs_text c = EmptyString | _ => True end).
Proof.
  induction tries as [|tries IH]; intros last; cbn [try_adapter]; [by apply gives_ret|].
  apply gives_then. eapply gives_mono; [apply sync_consume|]. intros l [[text us fr|code [|]|]|e] Hr;
    [by apply gives_ret|apply IH|by apply gives_throw..|done].
Qed.

Lemma sync_run req : gives (runWithRetryAndFallback deps req via_sync)
  (λ l r, match r with Ok c => cs_text c = EmptyString | _ => True end).
Proof.
  apply gives_then. eapply gives_mono; [apply sync_try|]. intros l [[c|last]|e] Hr; [| |done]; apply gives_then.
  - by apply gives_ret, gives_ret.
  - destruct (gp_fallback deps); [|by apply gives_ret, gives_throw]. eapply gives_mono; [apply sync_try|].
    intros l' [[c|last']|e] Hr'; [by apply gives_ret|by apply gives_throw|done].
Qed.

Lemma sync_structured req rf repairs :
  gives (structured_output json_parse deps repairs req rf via_sync EmptyString)
    (λ l r, match r with Ok _ => False | Err _ => True end).
Proof.
  assert (Hc : ∃ reason, check_output json_parse deps rf EmptyString = Err reason).
  { unfold check_output. rewrite no_value. eauto. }
  destruct Hc as [reason Hc].
  induction repairs as [|repairs IH]; cbn [structured_output]; rewrite Hc; (destruct (rf_strict rf); [by apply gives_throw|]);
    [by apply gives_throw|]. apply gives_then. unfold repairOnce. apply gives_then.
  eapply gives_mono; [apply gives_redact|]. intros l [c|e] _; [|done]. apply gives_then.
  eapply gives_mono; [apply sync_consume|]. intros l' [[text us fr|code rt|]|e] Hr;
    [|by apply gives_throw..|done]. apply gives_ret. simpl. rewrite Hr. exact IH.
Qed.

Lemma sync_guarded req : gp_idempotency deps = None →
  gives (guarded_call json_parse deps req via_sync None) (λ l r, match r with
    | Ok resp => rq_responseFormat req = None ∧ rs_parsedJson resp = None ∧ G_put EmptyString (rs_outputRef resp) ∈ l
    | Err _ => True end).
Proof.
  intros Hi. unfold guarded_call. rewrite Hi.
  apply gives_then. eapply gives_mono; [apply gives_governance|]. intros l0 [u|e] _; [|done].
  apply gives_then. eapply gives_mono; [apply gives_redactRequest|]. intros l1 [sent|e] [_ Hp]; [|done].
  apply gives_then. eapply gives_mono; [apply sync_run|]. intros l2 [c|e] Hc; [|done].
  assert (Hf : rq_responseFormat sent = rq_responseFormat req).
  { rewrite (pr_format _ _ _ Hp). unfold withPromptSchema. destruct (_ ≫= _); [|done]. by destruct (cap_jsonMode _). }
  apply gives_then. unfold finalize. rewrite Hc, <-Hf. destruct (rq_responseFormat sent) as [rf|]; apply gives_then.
  - eapply gives_mono; [apply sync_structured|]. by intros l3 [out|e] Hr.
  - apply gives_port; [|done]. intros ref. apply gives_ret, gives_ret. simpl. split_and!; [done..|]. set_solver.
Qed.
End Sync.

(** The answer of a synchronous backend is lost: when the gate chooses the
    synchronous transport, a call that returns has stored the empty text and
    carries no value, whatever the backend answered, and every request for
    structured output fails (as the empty text is not JSON). *)
Theorem sync_answer_is_lost req w : json_parse EmptyString = None → gp_idempotency deps = None →
  gp_gate deps (mkGateInput (md_primitive (rq_metadata req)) (rq_responseFormat req) (rq_images req)
                  (ba_capabilities (gp_primary deps))) = cd_allow via_sync →
  match call json_parse deps req w with
  | (w', Ok resp) => rq_responseFormat req = None ∧ rs_parsedJson resp = None ∧
                     G_put EmptyString (rs_outputRef resp) ∈ gw_log w'
  | (_, Err _) => True
  end.
Proof.
  intros Hv Hi Hg.
  assert (H : gives (call json_parse deps req) (λ l r, match r with
    | Ok resp => rq_responseFormat req = None ∧ rs_parsedJson resp = None ∧ G_put EmptyString (rs_outputRef resp) ∈ l
    | Err _ => True end)).
  { unfold call, reserve_call. rewrite Hg, Hi. apply gives_then, gives_ret, gives_catch.
    eapply gives_mono; [by apply sync_guarded|]. intros l [resp|e] Hr; [done|].
    eapply gives_mono; [apply on_failure_throws|]. by intros l' [r|e'] Hr'. }
  destruct (H w) as (l & E & Hl). destruct (call json_parse deps req w) as [w' [resp|e]]; [|done]. simpl in *.
  destruct Hl as (H1 & H2 & H3). split_and!; [done..|]. rewrite E. apply elem_of_app. by right.
Qed.
End Calls.

Lemma sync_answer_is_lost_witness :
  match call (λ _, None) (GatewaySample.deps false) GatewaySample.request (mkGWorld tt []) with
  | (w', Ok resp) => rs_outputRef resp = "ref:" ∧ G_put EmptyString (rs_outputRef resp) ∈ gw_log w'
  | (_, Err _) => False
  end.
Proof.
  assert (H := sync_answer_is_lost (λ _, None) (GatewaySample.deps false) GatewaySample.request (mkGWorld tt []) eq_refl eq_refl eq_refl).
  destruct H as (_ & _ & H). split; [reflexivity|exact H].
Defined.
