(* ===== verification/LlmIdempotency.v ===== *)
(** * Idempotency of LLM calls

    Models [app/src/gateway/pg-llm-call-idempotency-store.ts] (the table
    [stagehand_calls] and the map of the process from calls to tenants) and
    [gateway/idempotency.ts] (the in-memory store).  [LawfulStore] is what the
    gateway relies on; both stores are instances.  [GatewayReplay] proves the
    gateway against it. *)

From stdpp Require Import base strings list gmap pretty.
From Stdlib Require Import ZArith Lia.
From S2P Require Import Prelude JsValue JsText Gateway.

(** ** The interface *)

(** Two requests are the same call: tenant, key and hash agree, and the attempt,
    from which the key is derived. *)
Definition same_call (a b : LLMRequest) : Prop :=
  md_tenantId (rq_metadata a) = md_tenantId (rq_metadata b) ∧ rq_idempotencyKey a = rq_idempotencyKey b ∧
  rq_requestHash a = rq_requestHash b ∧ md_attempt (rq_metadata a) = md_attempt (rq_metadata b).

Definition is_replay_of (answer : option LLMResponse) (r : result string LLMIdempotencyReservation) : Prop :=
  match r, answer with
  | Ok (rv_replay response), Some expected => response = expected
  | Ok (rv_replay _), None => False
  | _, Some _ => False
  | _, None => True
  end.

Class LawfulStore {S} (store : LLMCallIdempotencyStore S) := {
  (** The states the store can be in. *)
  ls_inv : S → Prop;
  (** The call is reserved for the request and not settled. *)
  ls_open : S → LLMRequest → string → Prop;
  (** What a replay of a completed call answers. *)
  ls_answer : string → LLMResponse → LLMResponse;
  ls_reserve : ∀ s req, ls_inv s → ls_inv (is_reserve store req s).1;
  ls_reserved : ∀ s req s' id key, ls_inv s → is_reserve store req s = (s', Ok (rv_reserved id key)) → ls_open s' req id;
  ls_complete : ∀ s req id resp s' , ls_inv s → ls_open s req id → is_complete store id resp s = (s', Ok tt) →
    ls_inv s' ∧ ∀ req2, same_call req req2 → is_replay_of (Some (ls_answer id resp)) (is_reserve store req2 s').2;
  ls_complete_err : ∀ s req id resp s' m, ls_inv s → ls_open s req id → is_complete store id resp s = (s', Err m) → s' = s;
  ls_fail : ∀ s req id code, ls_inv s → ls_open s req id → ∃ s', is_fail store id code s = (s', Ok tt) ∧
    ls_inv s' ∧ ∀ req2, same_call req req2 → is_replay_of None (is_reserve store req2 s').2
}.

(** ** PostgreSQL *)

Record StagehandCallRow := mkCallRow {
  sc_id : string;
  sc_request_hash : string;
  sc_stream_status : string;
  sc_output_ref : option string;
  sc_input_tokens : option Z;
  sc_output_tokens : option Z;
  sc_cost : option jsnum;
  sc_parsed_json : option json;
  sc_model : string;
  sc_prompt_template_version : string
}.

(** The rows under their unique key (tenant and idempotency key), the tenants of
    the calls this process has seen, and the number of identifiers drawn. *)
Record CallTable := mkCallTable {
  ct_rows : gmap (string * string) StagehandCallRow;
  ct_tenants : gmap string string;
  ct_ids : nat
}.

Definition call_key (req : LLMRequest) : string * string := (md_tenantId (rq_metadata req), rq_idempotencyKey req).

Section PgStore.
(** [randomUUID]; what a [numeric(14,6)] column makes of a number ([None]: it is
    out of range); what a [jsonb] column makes of a value. *)
Context (uuid : nat → string) (numeric : jsnum → option jsnum) (jsonb : json → json).

Definition opened_row (id : string) (req : LLMRequest) : StagehandCallRow :=
  mkCallRow id (rq_requestHash req) "open" None None None None None (rq_model req) (rq_promptTemplateVersion req).

(** [parsed_json] is the JSON value null or SQL NULL: both are read as null. *)
Definition responseFromRow (row : StagehandCallRow) (output_ref : string) : LLMResponse :=
  mkResponse output_ref
    (mkUsage (num_of_Z (default 0%Z (sc_input_tokens row))) (num_of_Z (default 0%Z (sc_output_tokens row)))
       (default (num_of_Z 0) (sc_cost row)) None)
    fr_stop
    (match sc_parsed_json row with Some JNull | None => None | Some v => Some v end)
    (Some (sc_id row)).

(** The checks of the table refuse an empty key and a negative attempt. *)
Definition pg_reserve (req : LLMRequest) (t : CallTable) : CallTable * result string LLMIdempotencyReservation :=
  let callId := uuid (ct_ids t) in
  let tenant := md_tenantId (rq_metadata req) in
  let ids := S (ct_ids t) in
  if decide (rq_idempotencyKey req = EmptyString ∨ (md_attempt (rq_metadata req) < 0)%Z)
  then (mkCallTable (ct_rows t) (ct_tenants t) ids, Err "check constraint") else
  match ct_rows t !! call_key req with
  | None =>
      (mkCallTable (<[call_key req := opened_row callId req]> (ct_rows t)) (<[callId := tenant]> (ct_tenants t)) ids,
       Ok (rv_reserved callId (rq_idempotencyKey req)))
  | Some row =>
      if decide (sc_request_hash row = rq_requestHash req) then
        let tenants := <[sc_id row := tenant]> (ct_tenants t) in
        match sc_output_ref row with
        | Some ref =>
            if decide (sc_stream_status row = "done")
            then (mkCallTable (ct_rows t) tenants ids, Ok (rv_replay (responseFromRow row ref)))
            else if decide (sc_stream_status row ∈ ["error"; "aborted"])
            then (mkCallTable (<[call_key req := opened_row (sc_id row) req]> (ct_rows t)) tenants ids,
                  Ok (rv_reserved (sc_id row) (rq_idempotencyKey req)))
            else (mkCallTable (ct_rows t) tenants ids, Ok (rv_in_flight (sc_id row)))
        | None =>
            if decide (sc_stream_status row ∈ ["error"; "aborted"])
            then (mkCallTable (<[call_key req := opened_row (sc_id row) req]> (ct_rows t)) tenants ids,
                  Ok (rv_reserved (sc_id row) (rq_idempotencyKey req)))
            else (mkCallTable (ct_rows t) tenants ids, Ok (rv_in_flight (sc_id row)))
        end
      else (mkCallTable (ct_rows t) (ct_tenants t) ids, Ok (rv_blocked "request_hash_mismatch"))
  end.

(** [UPDATE ... WHERE tenant_id = tenant AND id = callId], which must hit one row. *)
Definition is_call (tenant callId : string) (p : (string * string) * StagehandCallRow) : Prop :=
  p.1.1 = tenant ∧ sc_id p.2 = callId.
#[export] Instance is_call_dec tenant callId p : Decision (is_call tenant callId p).
Proof using. unfold is_call. apply _. Defined.

Definition update_call (tenant callId : string) (f : StagehandCallRow → StagehandCallRow) (t : CallTable)
  : CallTable * result string () :=
  if decide (length (filter (is_call tenant callId) (map_to_list (ct_rows t))) = 1)
  then (mkCallTable (map_imap (λ k row, Some (if decide (is_call tenant callId (k, row)) then f row else row)) (ct_rows t))
          (ct_tenants t) (ct_ids t), Ok tt)
  else (t, Err "stagehand call expected 1 row").

Definition requireTenant (callId : string) (t : CallTable) : option string := ct_tenants t !! callId.

(** The cast to [int]. *)
Definition int4 (x : jsnum) : option Z :=
  match num_to_Z x with
  | Some z => if decide (-2147483648 <= z <= 2147483647)%Z then Some z else None
  | None => None
  end.

Definition done_row (input output : Z) (cost : jsnum) (response : LLMResponse) (row : StagehandCallRow) : StagehandCallRow :=
  mkCallRow (sc_id row) (sc_request_hash row) "done" (Some (rs_outputRef response)) (Some input) (Some output) (Some cost)
    (jsonb <$> rs_parsedJson response) (sc_model row) (sc_prompt_template_version row).

Definition pg_complete (callId : string) (response : LLMResponse) (t : CallTable) : CallTable * result string () :=
  match requireTenant callId t with
  | None => (t, Err ("stagehand call '" +:+ callId +:+ "' has no tenant reservation in this process"))
  | Some tenant =>
      let us := rs_usage response in
      match int4 (us_inputTokens us), int4 (us_outputTokens us), numeric (us_cost us) with
      | Some input, Some output, Some cost => update_call tenant callId (done_row input output cost response) t
      | _, _, _ => (t, Err "invalid value for the column")
      end
  end.

Definition failed_row (row : StagehandCallRow) : StagehandCallRow :=
  mkCallRow (sc_id row) (sc_request_hash row) "error" (sc_output_ref row) (sc_input_tokens row) (sc_output_tokens row)
    (sc_cost row) (sc_parsed_json row) (sc_model row) (sc_prompt_template_version row).

Definition pg_fail (callId : string) (_ : AdapterErrorCode) (t : CallTable) : CallTable * result string () :=
  match requireTenant callId t with
  | None => (t, Err ("stagehand call '" +:+ callId +:+ "' has no tenant reservation in this process"))
  | Some tenant => update_call tenant callId failed_row t
  end.

Definition PgLlmCallIdempotencyStore : LLMCallIdempotencyStore CallTable := mkIdempotency _ pg_reserve pg_complete pg_fail.
End PgStore.

(** ** In memory *)

Inductive RecordStatus := rec_processing | rec_succeeded (response : LLMResponse) | rec_failed (error : string).
Record LLMIdempotencyRecord := mkRecord { ir_status : RecordStatus; ir_callId : string; ir_requestHash : string }.

(** The map, in order of insertion, and the sequence number.  The key
    [JSON.stringify([tenant, key])] is the pair. *)
Record MemoryStore := mkMemory { mem_records : list ((string * string) * LLMIdempotencyRecord); mem_sequence : nat }.

Fixpoint mem_get (key : string * string) (l : list ((string * string) * LLMIdempotencyRecord)) : option LLMIdempotencyRecord :=
  match l with
  | [] => None
  | (k, r) :: l' => if decide (k = key) then Some r else mem_get key l'
  end.
Fixpoint mem_set (key : string * string) (r : LLMIdempotencyRecord) (l : list ((string * string) * LLMIdempotencyRecord))
  : list ((string * string) * LLMIdempotencyRecord) :=
  match l with
  | [] => [(key, r)]
  | (k, r') :: l' => if decide (k = key) then (k, r) :: l' else (k, r') :: mem_set key r l'
  end.

Definition fake_call_id (n : nat) : string := "fake-call-" +:+ pretty n.

Definition mem_reserve (req : LLMRequest) (s : MemoryStore) : MemoryStore * result string LLMIdempotencyReservation :=
  match mem_get (call_key req) (mem_records s) with
  | Some existing =>
      if decide (ir_requestHash existing = rq_requestHash req) then
        match ir_status existing with
        | rec_succeeded response => (s, Ok (rv_replay response))
        | _ => (s, Ok (rv_in_flight (ir_callId existing)))
        end
      else (s, Ok (rv_blocked "request_hash_mismatch"))
  | None =>
      let callId := fake_call_id (S (mem_sequence s)) in
      (mkMemory (mem_set (call_key req) (mkRecord rec_processing callId (rq_requestHash req)) (mem_records s)) (S (mem_sequence s)),
       Ok (rv_reserved callId (rq_idempotencyKey req)))
  end.

Definition findByCallId (callId : string) (s : MemoryStore) : option ((string * string) * LLMIdempotencyRecord) :=
  List.find (λ p, bool_decide (ir_callId p.2 = callId)) (mem_records s).

Definition mem_settle (callId : string) (status : RecordStatus) (s : MemoryStore) : MemoryStore * result string () :=
  match findByCallId callId s with
  | None => (s, Err ("unknown LLM call id " +:+ callId))
  | Some (key, r) =>
      (mkMemory (mem_set key (mkRecord status callId (ir_requestHash r)) (mem_records s)) (mem_sequence s), Ok tt)
  end.

Definition InMemoryLLMCallIdempotencyStore : LLMCallIdempotencyStore MemoryStore :=
  mkIdempotency _ mem_reserve (λ id response, mem_settle id (rec_succeeded response))
    (λ id code, mem_settle id (rec_failed (adapter_code_text code))).

(** ** The PostgreSQL store keeps the laws *)

Section PgLaws.
Context (uuid : nat → string) `{!Inj (=) (=) uuid} (numeric : jsnum → option jsnum) (jsonb : json → json).

Record pg_inv (t : CallTable) : Prop := {
  pi_unique : ∀ k k' r r', ct_rows t !! k = Some r → ct_rows t !! k' = Some r' → sc_id r = sc_id r' → k = k';
  pi_drawn : ∀ k r, ct_rows t !! k = Some r → ∃ n, n < ct_ids t ∧ sc_id r = uuid n
}.

Record pg_open (t : CallTable) (req : LLMRequest) (id : string) : Prop := {
  po_key : rq_idempotencyKey req ≠ EmptyString ∧ (0 <= md_attempt (rq_metadata req))%Z;
  po_tenant : ct_tenants t !! id = Some (md_tenantId (rq_metadata req));
  po_row : ∃ row, ct_rows t !! call_key req = Some row ∧ sc_id row = id ∧ sc_request_hash row = rq_requestHash req ∧
    sc_stream_status row = "open" ∧ sc_output_ref row = None
}.

(** A row that keeps its identifier is rewritten, or a new one is added. *)
Lemma pg_inv_insert t key row tenants ids : pg_inv t → ct_ids t ≤ ids →
  (∀ row0, ct_rows t !! key = Some row0 → sc_id row0 = sc_id row) →
  (ct_rows t !! key = None → sc_id row = uuid (ct_ids t) ∧ ct_ids t < ids) →
  pg_inv (mkCallTable (<[key := row]> (ct_rows t)) tenants ids).
Proof.
  intros [H1 H2] Hle Hold Hnew.
  assert (Hne : ∀ k r, k ≠ key → ct_rows t !! k = Some r → sc_id r ≠ sc_id row).
  { intros k r Hk Hr E. destruct (ct_rows t !! key) as [row0|] eqn:E0.
    - apply Hk. eapply H1; [done..|]. by rewrite E, (Hold row0).
    - destruct (Hnew eq_refl) as [Hid _]. destruct (H2 _ _ Hr) as (n & Hn & E'). rewrite E', Hid in E.
      apply (inj uuid) in E. lia. }
  split; simpl.
  - intros k k' r r' Hr Hr' E. apply lookup_insert_Some in Hr as [[<- <-]|[Hk Hr]], Hr' as [[<- <-]|[Hk' Hr']]; [done| | |by eapply H1].
    + exfalso. by eapply Hne; [..|symmetry].
    + exfalso. by eapply Hne.
  - intros k r Hr. apply lookup_insert_Some in Hr as [[<- <-]|[Hk Hr]].
    + destruct (ct_rows t !! key) as [row0|] eqn:E0.
      * destruct (H2 _ _ E0) as (n & Hn & E). exists n. split; [lia|]. by rewrite <-(Hold row0).
      * destruct (Hnew eq_refl) as [Hid Hlt]. by exists (ct_ids t).
    + destruct (H2 _ _ Hr) as (n & Hn & E). exists n. split; [lia|done].
Qed.

Lemma pg_inv_rows t tenants ids : pg_inv t → ct_ids t ≤ ids → pg_inv (mkCallTable (ct_rows t) tenants ids).
Proof.
  intros [H1 H2] Hle. split; [done|]. intros k r Hr. destruct (H2 k r Hr) as (n & Hn & E). exists n. simpl. split; [lia|done].
Qed.

Lemma all_equal_length {A} (l : list A) x : NoDup l → x ∈ l → (∀ y, y ∈ l → y = x) → length l = 1.
Proof.
  intros Hn Hx Hall. destruct l as [|a [|b l]]; [by apply elem_of_nil in Hx|done|].
  exfalso. assert (a = x) by (apply Hall; by left). assert (b = x) by (apply Hall; right; by left). subst.
  inversion Hn as [|? ? Hnin]. apply Hnin. by left.
Qed.

Lemma update_one t req id row f : pg_inv t → ct_rows t !! call_key req = Some row → sc_id row = id →
  update_call (md_tenantId (rq_metadata req)) id f t =
  (mkCallTable (<[call_key req := f row]> (ct_rows t)) (ct_tenants t) (ct_ids t), Ok tt).
Proof.
  intros [H1 _] Hr Hid. unfold update_call.
  assert (Hone : ∀ k r, ct_rows t !! k = Some r → is_call (md_tenantId (rq_metadata req)) id (k, r) ↔ k = call_key req).
  { intros k r Hk. split; [intros [_ E]; eapply H1; [done..|]; simpl in E; congruence|].
    intros ->. rewrite Hr in Hk. injection Hk as <-. done. }
  rewrite decide_True.
  - f_equal. f_equal. apply map_eq. intros k. rewrite map_lookup_imap. destruct (decide (k = call_key req)) as [->|Hk].
    + rewrite Hr, lookup_insert_eq. simpl. rewrite decide_True by (by apply Hone). done.
    + rewrite lookup_insert_ne by done. destruct (ct_rows t !! k) as [r|] eqn:E; [|done]. simpl.
      rewrite decide_False; [done|]. by rewrite (Hone k r E).
  - apply (all_equal_length _ (call_key req, row)).
    + apply NoDup_filter, NoDup_map_to_list.
    + apply list_elem_of_filter. split; [by apply Hone|by apply elem_of_map_to_list].
    + intros [k r] [Hc Hin]%list_elem_of_filter. apply elem_of_map_to_list in Hin. apply Hone in Hc as ->; [|done]. congruence.
Qed.

Lemma same_call_key req req2 : same_call req req2 → call_key req2 = call_key req.
Proof. intros (H1 & H2 & _). unfold call_key. by rewrite H1, H2. Qed.

(** What a replay answers. *)
Definition stored_response (id : string) (resp : LLMResponse) : LLMResponse :=
  mkResponse (rs_outputRef resp)
    (mkUsage (num_of_Z (default 0%Z (int4 (us_inputTokens (rs_usage resp)))))
       (num_of_Z (default 0%Z (int4 (us_outputTokens (rs_usage resp)))))
       (default (num_of_Z 0) (numeric (us_cost (rs_usage resp)))) None)
    fr_stop (match jsonb <$> rs_parsedJson resp with Some JNull | None => None | Some v => Some v end) (Some id).

Lemma pg_reserve_row req req2 t row : same_call req req2 → rq_idempotencyKey req ≠ EmptyString →
  (0 <= md_attempt (rq_metadata req))%Z → ct_rows t !! call_key req = Some row → sc_request_hash row = rq_requestHash req →
  (sc_stream_status row = "done" → ∀ ref, sc_output_ref row = Some ref →
     (pg_reserve uuid req2 t).2 = Ok (rv_replay (responseFromRow row ref))) ∧
  (sc_stream_status row = "error" → (pg_reserve uuid req2 t).2 = Ok (rv_reserved (sc_id row) (rq_idempotencyKey req2))).
Proof.
  intros Hs Hk Ha Hr Hh. assert (Hs' := Hs). destruct Hs' as (_ & E2 & E3 & E4). unfold pg_reserve.
  rewrite decide_False by (rewrite <-E2, <-E4; lia || (intros [?|?]; [done|lia])).
  rewrite (same_call_key _ _ Hs), Hr, decide_True by congruence. split.
  - intros Hd ref ->. by rewrite decide_True.
  - intros Hd. destruct (sc_output_ref row); [rewrite decide_False by (by rewrite Hd)|]; by rewrite decide_True by (rewrite Hd; set_solver).
Qed.

Lemma pg_reserve_inv t req : pg_inv t → pg_inv (pg_reserve uuid req t).1.
Proof.
  intros Hi. unfold pg_reserve. case_decide; [apply pg_inv_rows; [done|simpl; lia]|].
  destruct (ct_rows t !! call_key req) as [row|] eqn:E.
  - case_decide as Hh; [|apply pg_inv_rows; [done|simpl; lia]].
    assert (Hre : pg_inv (mkCallTable (<[call_key req := opened_row (sc_id row) req]> (ct_rows t))
      (<[sc_id row := md_tenantId (rq_metadata req)]> (ct_tenants t)) (S (ct_ids t)))).
    { apply pg_inv_insert; [done|lia| |congruence]. intros row0. rewrite E. by intros [= <-]. }
    destruct (sc_output_ref row); repeat case_decide; try exact Hre; (apply pg_inv_rows; [done|lia]).
  - apply pg_inv_insert; [done|lia|congruence|]. intros _. split; [done|lia].
Qed.

Lemma pg_reserved_open t req t' id key : pg_reserve uuid req t = (t', Ok (rv_reserved id key)) → pg_open t' req id.
Proof.
  unfold pg_reserve. case_decide as Hc; [done|].
  assert (Hopen : ∀ id tenants ids, tenants !! id = Some (md_tenantId (rq_metadata req)) →
    pg_open (mkCallTable (<[call_key req := opened_row id req]> (ct_rows t)) tenants ids) req id).
  { intros id' tenants ids Ht. split; [|done|].
    - split; [intros E; apply Hc; by left|]. destruct (Z.lt_ge_cases (md_attempt (rq_metadata req)) 0); [|lia].
      exfalso. apply Hc. by right.
    - simpl. rewrite lookup_insert_eq. eexists. split; [done|]. done. }
  destruct (ct_rows t !! call_key req) as [row|] eqn:E.
  - case_decide as Hh; [|done]. destruct (sc_output_ref row); repeat case_decide; try done; intros [= <- <- _];
      (apply Hopen; apply lookup_insert_eq).
  - intros [= <- <- _]. apply Hopen. apply lookup_insert_eq.
Qed.

Lemma pg_inv_rewrite t req row row' : pg_inv t → ct_rows t !! call_key req = Some row → sc_id row' = sc_id row →
  pg_inv (mkCallTable (<[call_key req := row']> (ct_rows t)) (ct_tenants t) (ct_ids t)).
Proof. intros Hi Hr E. apply pg_inv_insert; [done|done| |congruence]. intros row0. rewrite Hr. by intros [= <-]. Qed.

Lemma pg_completed t req id resp t' : pg_inv t → pg_open t req id → pg_complete numeric jsonb id resp t = (t', Ok tt) →
  pg_inv t' ∧ ∀ req2, same_call req req2 → (pg_reserve uuid req2 t').2 = Ok (rv_replay (stored_response id resp)).
Proof.
  intros Hi [[Hk Ha] Ht (row & Hr & Hid & Hh & Hst & _)]. unfold pg_complete, requireTenant. rewrite Ht. unfold stored_response.
  destruct (int4 (us_inputTokens _)) as [input|]; [|done]. destruct (int4 (us_outputTokens _)) as [output|]; [|done].
  destruct (numeric (us_cost _)) as [cost|]; [|done]. rewrite (update_one t req id row _ Hi Hr Hid). intros [= <-].
  set (row' := done_row _ _ _ _ _ row). split; [by apply (pg_inv_rewrite t req row)|]. intros req2 Hs.
  edestruct (pg_reserve_row req req2 (mkCallTable (<[call_key req:=row']> (ct_rows t)) (ct_tenants t) (ct_ids t)) row')
    as [H _]; [done|done|done|apply lookup_insert_eq|done|]. rewrite (H eq_refl (rs_outputRef resp) eq_refl).
  unfold responseFromRow. simpl. by rewrite Hid.
Qed.

Lemma pg_complete_refused t req id resp t' m : pg_inv t → pg_open t req id →
  pg_complete numeric jsonb id resp t = (t', Err m) → t' = t.
Proof.
  intros Hi [_ Ht (row & Hr & Hid & _)]. unfold pg_complete, requireTenant. rewrite Ht.
  destruct (int4 (us_inputTokens _)); [|by intros [= <- _]]. destruct (int4 (us_outputTokens _)); [|by intros [= <- _]].
  destruct (numeric (us_cost _)); [|by intros [= <- _]]. by rewrite (update_one t req id row _ Hi Hr Hid).
Qed.

Lemma pg_failed t req id code : pg_inv t → pg_open t req id → ∃ t', pg_fail id code t = (t', Ok tt) ∧ pg_inv t' ∧
  ∀ req2, same_call req req2 → (pg_reserve uuid req2 t').2 = Ok (rv_reserved id (rq_idempotencyKey req2)).
Proof.
  intros Hi [[Hk Ha] Ht (row & Hr & Hid & Hh & Hst & _)]. unfold pg_fail, requireTenant. rewrite Ht.
  rewrite (update_one t req id row _ Hi Hr Hid). eexists. split; [reflexivity|].
  split; [by apply (pg_inv_rewrite t req row)|]. intros req2 Hs.
  edestruct (pg_reserve_row req req2 (mkCallTable (<[call_key req:=failed_row row]> (ct_rows t)) (ct_tenants t) (ct_ids t)) (failed_row row))
    as [_ H]; [done|done|done|apply lookup_insert_eq|done|]. rewrite (H eq_refl). simpl. by rewrite Hid.
Qed.

#[export, refine] Instance PgLawful : LawfulStore (PgLlmCallIdempotencyStore uuid numeric jsonb) := {
  ls_inv := pg_inv;
  ls_open := pg_open;
  ls_answer := stored_response
}.
Proof.
  - exact pg_reserve_inv.
  - intros t req t' id key _. apply pg_reserved_open.
  - intros t req id resp t' Hi Ho H. destruct (pg_completed _ _ _ _ _ Hi Ho H) as [Hi' Hr]. split; [done|].
    intros req2 Hs. simpl. by rewrite (Hr req2 Hs).
  - exact pg_complete_refused.
  - intros t req id code Hi Ho. destruct (pg_failed t req id code Hi Ho) as (t' & E & Hi' & Hr). exists t'.
    split_and!; [done..|]. intros req2 Hs. simpl. by rewrite (Hr req2 Hs).
Defined.
End PgLaws.

(** ** So does the store in memory *)

Lemma mem_get_set k k' r l : mem_get k' (mem_set k r l) = if decide (k = k') then Some r else mem_get k' l.
Proof.
  induction l as [|[k0 r0] l IH]; simpl; [done|]. destruct (decide (k0 = k)) as [->|Hk]; simpl; [by case_decide|].
  rewrite IH. repeat case_decide; congruence.
Qed.
Lemma mem_set_keys k r l : mem_get k l ≠ None → map fst (mem_set k r l) = map fst l.
Proof.
  induction l as [|[k0 r0] l IH]; simpl; [done|]. case_decide as E; [by subst|]. intros H. simpl. by rewrite IH.
Qed.
Lemma mem_set_new k r l : mem_get k l = None → mem_set k r l = l ++ [(k, r)].
Proof. induction l as [|[k0 r0] l IH]; simpl; [done|]. case_decide; [done|]. intros Hg. by rewrite IH. Qed.
Lemma mem_get_none k l : mem_get k l = None ↔ k ∉ map fst l.
Proof.
  induction l as [|[k0 r0] l IH]; simpl; [split; [set_solver|done]|]. case_decide as E; [subst; set_solver|]. rewrite IH. set_solver.
Qed.
Lemma mem_get_elem k r l : NoDup (map fst l) → (k, r) ∈ l ↔ mem_get k l = Some r.
Proof.
  induction l as [|[k0 r0] l IH]; simpl; [set_solver|]. intros [Hn Hl]%NoDup_cons. rewrite elem_of_cons, (IH Hl).
  case_decide as E.
  - subst. split; [|by intros [= ->]; left]. intros [[= ->]|H]; [done|]. exfalso. apply Hn.
    destruct (decide (k ∈ map fst l)) as [?|Hc]; [done|]. apply mem_get_none in Hc. congruence.
  - split; [by intros [[= -> _]|]|by right].
Qed.

Record mem_inv (s : MemoryStore) : Prop := {
  mi_keys : NoDup (map fst (mem_records s));
  mi_unique : ∀ k k' r r', mem_get k (mem_records s) = Some r → mem_get k' (mem_records s) = Some r' →
    ir_callId r = ir_callId r' → k = k';
  mi_drawn : ∀ k r, mem_get k (mem_records s) = Some r → ∃ n, n ≤ mem_sequence s ∧ ir_callId r = fake_call_id n
}.
Definition mem_open (s : MemoryStore) (req : LLMRequest) (id : string) : Prop :=
  mem_get (call_key req) (mem_records s) = Some (mkRecord rec_processing id (rq_requestHash req)).

Lemma find_open s req id : mem_inv s → mem_open s req id →
  findByCallId id s = Some (call_key req, mkRecord rec_processing id (rq_requestHash req)).
Proof.
  intros [H1 H2 _] Ho. unfold findByCallId. destruct (List.find _ _) as [[k r]|] eqn:E.
  - apply List.find_some in E as [Hin Hid]. apply bool_decide_eq_true in Hid. simpl in Hid.
    apply list_elem_of_In, (mem_get_elem _ _ _ H1) in Hin. assert (k = call_key req) as -> by (by eapply H2). unfold mem_open in Ho. congruence.
  - exfalso. apply (mem_get_elem _ _ _ H1), list_elem_of_In in Ho. apply (List.find_none _ _ E) in Ho.
    apply bool_decide_eq_false in Ho. done.
Qed.

Lemma mem_inv_settle s req id status : mem_inv s → mem_open s req id →
  mem_inv (mkMemory (mem_set (call_key req) (mkRecord status id (rq_requestHash req)) (mem_records s)) (mem_sequence s)).
Proof.
  intros [H1 H2 H3] Ho. set (r0 := mkRecord rec_processing id (rq_requestHash req)).
  assert (Hold : ∀ k r, mem_get k (mem_set (call_key req) (mkRecord status id (rq_requestHash req)) (mem_records s)) = Some r →
    ∃ r', mem_get k (mem_records s) = Some r' ∧ ir_callId r' = ir_callId r).
  { intros k r. rewrite mem_get_set. case_decide as E; [|by exists r]. subst. intros [= <-]. by exists r0. }
  split; simpl.
  - rewrite mem_set_keys; [done|]. unfold mem_open in Ho. congruence.
  - intros k k' r r' (a & Ha & Ea)%Hold (b & Hb & Eb)%Hold E. eapply H2; [done..|congruence].
  - intros k r (a & Ha & <-)%Hold. by eapply H3.
Qed.

Lemma mem_reserve_inv s req : mem_inv s → mem_inv (mem_reserve req s).1.
Proof.
  intros Hi. unfold mem_reserve. destruct (mem_get (call_key req) (mem_records s)) as [r|] eqn:E.
  { case_decide; [|done]. by destruct (ir_status r). }
  destruct Hi as [H1 H2 H3]. simpl.
  assert (Hnew : ∀ k r, mem_get k (mem_records s) = Some r → ir_callId r ≠ fake_call_id (S (mem_sequence s))).
  { intros k r Hr. destruct (H3 k r Hr) as (n & Hn & ->). unfold fake_call_id. intros Eq%(inj (String.append "fake-call-"))%(inj pretty). lia. }
  split; simpl.
  - rewrite mem_set_new, map_app by done. apply NoDup_app. split; [done|]. split; [|repeat constructor; set_solver].
    intros k Hk ->%list_elem_of_singleton. by apply mem_get_none in E.
  - intros k k' r r'. rewrite !mem_get_set. repeat case_decide; [congruence| | |by apply H2].
    + intros [= <-] Hr' Eq. exfalso. by eapply Hnew; [|symmetry].
    + intros Hr [= <-] Eq. exfalso. by eapply Hnew.
  - intros k r. rewrite mem_get_set. case_decide; [intros [= <-]; by exists (S (mem_sequence s))|].
    intros Hr. destruct (H3 k r Hr) as (n & Hn & Eq). exists n. split; [lia|done].
Qed.

#[export, refine] Instance InMemoryLawful : LawfulStore InMemoryLLMCallIdempotencyStore := {
  ls_inv := mem_inv;
  ls_open := mem_open;
  ls_answer := λ _ resp, resp
}.
Proof.
  - exact mem_reserve_inv.
  - intros s req s' id key _. simpl. unfold mem_reserve. destruct (mem_get _ _) as [r|].
    { case_decide; [|done]. by destruct (ir_status r). }
    intros [= <- <- _]. unfold mem_open. simpl. rewrite mem_get_set. by rewrite decide_True.
  - intros s req id resp s' Hi Ho. simpl. unfold mem_settle. rewrite (find_open _ _ _ Hi Ho). intros [= <-].
    split; [by apply mem_inv_settle|]. intros req2 Hs. unfold mem_reserve. simpl.
    rewrite (same_call_key _ _ Hs), mem_get_set, decide_True by done. simpl. destruct Hs as (_ & _ & Hh & _). by rewrite decide_True.
  - intros s req id resp s' m Hi Ho. simpl. unfold mem_settle. by rewrite (find_open _ _ _ Hi Ho).
  - intros s req id code Hi Ho. simpl. unfold mem_settle. rewrite (find_open _ _ _ Hi Ho). eexists. split; [reflexivity|].
    split; [by apply mem_inv_settle|]. intros req2 Hs. unfold mem_reserve. simpl.
    rewrite (same_call_key _ _ Hs), mem_get_set, decide_True by done. simpl. destruct Hs as (_ & _ & Hh & _). by rewrite decide_True.
Defined.
