(* ===== verification/GatewayReplay.v ===== *)
(** * The gateway over an idempotency store

    Joins [Gateway] and [LlmIdempotency]: a reserved call is always settled, a
    completed one is replayed without a call of a backend, and on PostgreSQL no
    call is left in flight. *)

From stdpp Require Import base strings list gmap pretty.
From Stdlib Require Import ZArith Lia.
From S2P Require Import Prelude JsValue JsText Gateway GatewayProps LlmIdempotency.

(** ** Ports next to a store *)

Section Lift.
Context {S H : Type}.

Definition on_store {A} (f : S → S * A) (w : S * H) : (S * H) * A := let '(s, a) := f w.1 in ((s, w.2), a).
Definition beside {A} (f : H → H * A) (w : S * H) : (S * H) * A := let '(h, a) := f w.2 in ((w.1, h), a).

Definition beside_adapter (a : LLMBackendAdapter H) : LLMBackendAdapter (S * H) :=
  mkAdapter _ (ba_capabilities a) (λ req, beside (ba_streamCall a req)) ((λ f req, beside (f req)) <$> ba_syncCall a).

(** The gateway with this store; all other ports do not touch it. *)
Definition with_store (store : LLMCallIdempotencyStore S) (deps : LlmGatewayDeps H) : LlmGatewayDeps (S * H) :=
  mkGatewayDeps _ (beside_adapter (gp_primary deps)) (beside_adapter <$> gp_fallback deps) (gp_gate deps) (gp_validate deps)
    (λ text md, beside (gp_put deps text md))
    (Some (mkIdempotency _ (λ req, on_store (is_reserve store req)) (λ id resp, on_store (is_complete store id resp))
                           (λ id code, on_store (is_fail store id code))))
    (λ d, beside (gp_recordDecision deps d)) (λ i, beside (gp_redactForGateway deps i))
    ((λ f req, beside (f req)) <$> gp_aiGovernance deps) (gp_config deps).

(** The program leaves the store as it is. *)
Definition keeps_store {A} (m : G (S * H) A) : Prop := ∀ w, (gw_host (m w).1).1 = (gw_host w).1.

Lemma frames_ret {A} (a : A) : keeps_store (mret a).
Proof. done. Qed.
Lemma frames_throw {A} e : keeps_store (g_throw (A:=A) e).
Proof. done. Qed.
Lemma frames_result {A} (r : result _ A) : keeps_store (g_result r).
Proof. done. Qed.
Lemma frames_called which req : keeps_store (adapter_called which req).
Proof. done. Qed.
Lemma frames_bind {A B} (m : G (S * H) A) (k : A → G (S * H) B) : keeps_store m → (∀ a, keeps_store (k a)) → keeps_store (m ≫= k).
Proof.
  intros Hm Hk w. specialize (Hm w). unfold mbind, G_bind. destruct (m w) as [w1 [a|e]]; [|done]. simpl in *. by rewrite Hk.
Qed.
Lemma frames_catch {A} (m : G (S * H) A) h : keeps_store m → (∀ e, keeps_store (h e)) → keeps_store (g_catch m h).
Proof. intros Hm Hh w. specialize (Hm w). unfold g_catch. destruct (m w) as [w1 [a|e]]; [done|]. simpl in *. by rewrite Hh. Qed.
Lemma frames_port {A} (f : H → H * result string A) entry : keeps_store (g_port (beside f) entry).
Proof. intros w. unfold g_port, beside. by destruct (f _) as [h [a|m]]. Qed.
Lemma frames_stream {A} (f : H → H * A) entry :
  keeps_store (g_port (λ h, let '(h', s) := beside f h in (h', Ok s)) entry).
Proof. intros w. unfold g_port, beside. by destruct (f _) as [h a]. Qed.
End Lift.

Create HintDb store discriminated.
#[export] Hint Resolve frames_ret frames_throw frames_result frames_called frames_port frames_stream : store.

Section Frame.
Context {S H : Type} (json_parse : string → option json) (store : LLMCallIdempotencyStore S) (deps : LlmGatewayDeps H).
#[local] Notation deps' := (with_store store deps).

Lemma frames_audit entry failure : keeps_store (record_audit deps' entry failure).
Proof. apply frames_catch; [apply frames_port|intros; apply frames_throw]. Qed.

Lemma frames_redact req raw runs phase i where_ : keeps_store (redact deps' req raw runs phase i where_).
Proof.
  apply frames_bind; [apply frames_port|]. intros r. apply frames_bind; [apply frames_audit|]. intros _.
  destruct r; auto with store.
Qed.

Lemma frames_redact_messages req ms : ∀ out, keeps_store (redact_messages deps' req ms out).
Proof.
  induction ms as [|m ms IH]; intros out; cbn [redact_messages]; [auto with store|].
  case_decide; [|apply IH]. apply frames_bind; [apply frames_redact|]. intros c. apply IH.
Qed.

Lemma frames_consume which (a : LLMBackendAdapter H) req transport : keeps_store (consumeOnce which (beside_adapter (S:=S) a) req transport).
Proof.
  destruct transport; unfold consumeOnce.
  - apply frames_bind; [auto with store|]. intros _. apply frames_bind; [apply frames_stream|]. auto with store.
  - simpl. destruct (ba_syncCall a) as [f|]; simpl; [|auto with store]. apply frames_bind; [auto with store|]. intros _.
    apply frames_catch; [|auto with store]. apply frames_bind; [apply frames_port|]. auto with store.
Qed.

Lemma frames_try which (a : LLMBackendAdapter H) tries req transport : ∀ last,
  keeps_store (try_adapter which (beside_adapter (S:=S) a) tries req transport last).
Proof.
  induction tries as [|tries IH]; intros last; cbn [try_adapter]; [auto with store|].
  apply frames_bind; [apply frames_consume|]. intros [text us fr|code [|]|]; auto with store.
Qed.

Lemma frames_run req transport : keeps_store (runWithRetryAndFallback deps' req transport).
Proof.
  apply frames_bind; [apply frames_try|]. intros r. apply frames_bind.
  - destruct r; [auto with store|]. simpl. destruct (gp_fallback deps); simpl; [apply frames_try|auto with store].
  - intros [c|last]; auto with store.
Qed.

Lemma frames_structured rf transport req repairs : ∀ text,
  keeps_store (structured_output json_parse deps' repairs req rf transport text).
Proof.
  assert (Hput : ∀ text, keeps_store (put_output deps' req text)) by (intros; apply frames_port).
  induction repairs as [|repairs IH]; intros text; cbn [structured_output];
    (destruct (check_output json_parse deps' rf text); [apply frames_bind; auto with store|]);
    (destruct (rf_strict rf); [auto with store|]); [auto with store|].
  apply frames_bind; [|intros c; apply IH]. apply frames_bind; [apply frames_redact|]. intros c.
  apply frames_bind; [apply frames_consume|]. intros [t us fr|code rt|]; auto with store.
Qed.

Lemma frames_finalize req consumed transport : keeps_store (finalize json_parse deps' req consumed transport).
Proof.
  unfold finalize. destruct (rq_responseFormat req); (apply frames_bind; [|auto with store]); [apply frames_structured|apply frames_port].
Qed.

Lemma frames_governance req : keeps_store (enforce_governance deps' req).
Proof.
  unfold enforce_governance. simpl. destruct (gp_aiGovernance deps); simpl; [|auto with store].
  apply frames_bind; [apply frames_port|]. intros d. apply frames_bind; [apply frames_audit|]. intros _. case_decide; auto with store.
Qed.

(** The reserved call: its store is untouched until the response is stored. *)
Lemma guarded_store req transport id w :
  let '(w', r) := guarded_call json_parse deps' req transport (Some id) w in
  match r with
  | Ok resp => is_complete store id resp (gw_host w).1 = ((gw_host w').1, Ok tt)
  | Err _ => (gw_host w').1 = (gw_host w).1 ∨ ∃ resp m, is_complete store id resp (gw_host w).1 = ((gw_host w').1, Err m)
  end.
Proof.
  unfold guarded_call. unfold mbind at 1, G_bind at 1.
  assert (H1 := frames_governance req w). destruct (enforce_governance deps' req w) as [w1 [u|e]]; [|by left]. simpl in H1.
  unfold mbind at 1, G_bind at 1.
  assert (H2 : keeps_store (redactRequest deps' (withPromptSchema deps' req)))
    by (apply frames_bind; [apply frames_redact_messages|auto with store]).
  specialize (H2 w1). destruct (redactRequest deps' _ w1) as [w2 [sent|e]]; simpl in H2; [|left; congruence].
  unfold mbind at 1, G_bind at 1.
  assert (H3 := frames_run sent transport w2). destruct (runWithRetryAndFallback deps' sent transport w2) as [w3 [c|e]]; simpl in H3;
    [|left; congruence].
  unfold mbind at 1, G_bind at 1.
  assert (H4 := frames_finalize sent c transport w3). destruct (finalize json_parse deps' sent c transport w3) as [w4 [resp|e]]; simpl in H4;
    [|left; congruence].
  cbn [with_store gp_idempotency is_complete]. unfold mbind, G_bind, g_port, on_store.
  rewrite H4, H3, H2, H1. destruct (is_complete store id _ _) as [s [[]|m]] eqn:E; simpl; [done|]. right. by eexists _, _.
Qed.

Lemma failure_store id e w :
  let '(w', r) := on_failure deps' (Some id) e w in
  (gw_host w').1 = (is_fail store id (failure_code e) (gw_host w).1).1 ∧ match r with Ok _ => False | Err _ => True end.
Proof.
  unfold on_failure. cbn [with_store gp_idempotency is_fail]. unfold mbind, G_bind, g_port, on_store.
  destruct (is_fail store id (failure_code e) (gw_host w).1) as [s [u|m]]; simpl; [|done].
  destruct e as [code message ac [x|]| |]; done.
Qed.

Definition gate_allows (req : LLMRequest) : Prop :=
  ∃ transport, gp_gate deps (mkGateInput (md_primitive (rq_metadata req)) (rq_responseFormat req) (rq_images req)
                               (ba_capabilities (gp_primary deps))) = cd_allow transport.

(** ** Settlement *)

Lemma call_reserved `{!LawfulStore store} req w s1 id key : ls_inv (gw_host w).1 → gate_allows req →
  is_reserve store req (gw_host w).1 = (s1, Ok (rv_reserved id key)) →
  let '(w', r) := call json_parse deps' req w in
  match r with
  | Ok resp => is_complete store id resp s1 = ((gw_host w').1, Ok tt)
  | Err _ => ∃ code, is_fail store id code s1 = ((gw_host w').1, Ok tt)
  end.
Proof.
  intros Hi [transport Hg] Hr. assert (Hi1 := ls_reserve _ req Hi). rewrite Hr in Hi1. simpl in Hi1.
  assert (Ho := ls_reserved _ _ _ _ _ Hi Hr). unfold call. cbn [with_store gp_gate gp_primary beside_adapter ba_capabilities]. rewrite Hg.
  unfold mbind, G_bind, reserve_call. cbn [with_store gp_idempotency is_reserve]. unfold g_port, on_store, mbind, G_bind. rewrite Hr. simpl.
  unfold g_catch. set (w1 := mkGWorld _ _). assert (Hc := guarded_store req transport id w1).
  destruct (guarded_call json_parse deps' req transport (Some id) w1) as [w2 [resp|e]]; [exact Hc|].
  assert (E : (gw_host w2).1 = s1).
  { destruct Hc as [Hc|(resp & m & Hc)]; [done|]. by eapply ls_complete_err. }
  assert (Hf := failure_store id e w2). destruct (on_failure deps' (Some id) e w2) as [w3 [resp|e']]; [by destruct Hf|].
  destruct Hf as [Hf _]. destruct (ls_fail s1 req id (failure_code e) Hi1 Ho) as (s' & Es & _ & _).
  exists (failure_code e). rewrite E, Es in Hf. simpl in Hf. by rewrite Hf.
Qed.

Lemma call_replays req w s1 resp : gate_allows req → is_reserve store req (gw_host w).1 = (s1, Ok (rv_replay resp)) →
  call json_parse deps' req w = (mkGWorld (s1, (gw_host w).2) (gw_log w ++ [G_reserve (rv_replay resp)]), Ok resp).
Proof.
  intros [transport Hg] Hr. unfold call. cbn [with_store gp_gate gp_primary beside_adapter ba_capabilities]. rewrite Hg.
  unfold mbind, G_bind, reserve_call. cbn [with_store gp_idempotency is_reserve]. unfold g_port, on_store, mbind, G_bind. by rewrite Hr.
Qed.

End Frame.

(** ** On PostgreSQL *)

Section Pg.
Context (uuid : nat → string) `{!Inj (=) (=) uuid} (numeric : jsnum → option jsnum) (jsonb : json → json).
#[local] Notation store := (PgLlmCallIdempotencyStore uuid numeric jsonb).

(** On PostgreSQL no call of the gateway is left in flight: whatever the
    other ports do, as long as the database answers, after a call that was granted its reservation the same call is
    replayed, when it returned a response, and may be made again under the same
    identifier, when it failed in any way. *)
Theorem pg_call_is_settled {H} json_parse (deps : LlmGatewayDeps H) req w s1 id key : pg_inv uuid (gw_host w).1 →
  gate_allows deps req → pg_reserve uuid req (gw_host w).1 = (s1, Ok (rv_reserved id key)) →
  let '(w', r) := call json_parse (with_store store deps) req w in
  pg_inv uuid (gw_host w').1 ∧ ∀ req2, same_call req req2 →
    (pg_reserve uuid req2 (gw_host w').1).2 =
    Ok match r with Ok resp => rv_replay (stored_response numeric jsonb id resp) | Err _ => rv_reserved id (rq_idempotencyKey req2) end.
Proof.
  intros Hi Hg Hr. assert (Hs := call_reserved json_parse store deps req w s1 id key Hi Hg Hr).
  assert (Hi1 := pg_reserve_inv uuid _ req Hi). rewrite Hr in Hi1. assert (Ho := pg_reserved_open uuid _ _ _ _ _ Hr).
  destruct (call json_parse _ req w) as [w' [resp|e]].
  - exact (pg_completed uuid numeric jsonb _ _ _ _ _ Hi1 Ho Hs).
  - destruct Hs as [code Hs]. destruct (pg_failed uuid s1 req id code Hi1 Ho) as (t' & E & Hi' & Hrep).
    simpl in Hs. rewrite E in Hs. injection Hs as <-. done.
Qed.

(** *** Interleaved calls *)

(** The store operations of concurrent calls of one process, in any order; the
    list has the calls that hold a reservation.  A holder settles its call once. *)
Inductive pg_step : CallTable * list (LLMRequest * string) → CallTable * list (LLMRequest * string) → Prop :=
| st_granted t t' hs req id key : pg_reserve uuid req t = (t', Ok (rv_reserved id key)) → pg_step (t, hs) (t', (req, id) :: hs)
| st_refused t t' hs req r : pg_reserve uuid req t = (t', r) → (∀ id key, r ≠ Ok (rv_reserved id key)) → pg_step (t, hs) (t', hs)
| st_completed t t' hs hs' req id resp : hs ≡ₚ (req, id) :: hs' → pg_complete numeric jsonb id resp t = (t', Ok tt) →
    pg_step (t, hs) (t', hs')
| st_failed t t' hs hs' req id code : hs ≡ₚ (req, id) :: hs' → pg_fail id code t = (t', Ok tt) → pg_step (t, hs) (t', hs').

Record pg_state_ok (p : CallTable * list (LLMRequest * string)) : Prop := {
  ps_inv : pg_inv uuid p.1;
  ps_open : ∀ req id, (req, id) ∈ p.2 → pg_open p.1 req id;
  ps_keys : NoDup (map (λ h, call_key h.1) p.2)
}.

Lemma pg_open_frame t t' req id : ct_rows t' !! call_key req = ct_rows t !! call_key req →
  ct_tenants t' !! id = ct_tenants t !! id → pg_open t req id → pg_open t' req id.
Proof. intros H1 H2 [Hk Ht (row & Hr & Hid)]. split; [done|congruence|]. exists row. by rewrite H1. Qed.

(** A reservation changes at most the row of its key, and the tenant of the call
    under that key. *)
Lemma pg_reserve_frame t req0 req id : pg_inv uuid t → pg_open t req id →
  call_key req0 ≠ call_key req ∨ ct_rows (pg_reserve uuid req0 t).1 = ct_rows t → pg_open (pg_reserve uuid req0 t).1 req id.
Proof.
  intros Hi Ho Hk. assert (Ho' := Ho). destruct Ho' as [_ Ht (row & Hr & Hid & _)]. destruct Hi as [H1 H2].
  assert (Hten : ∀ row0, ct_rows t !! call_key req0 = Some row0 →
    <[sc_id row0 := md_tenantId (rq_metadata req0)]> (ct_tenants t) !! id = ct_tenants t !! id).
  { intros row0 Hr0. destruct (decide (sc_id row0 = id)) as [E|E]; [|by rewrite lookup_insert_ne].
    rewrite E, lookup_insert_eq, Ht. assert (Hkey : call_key req0 = call_key req) by (eapply H1; [done..|congruence]).
    injection Hkey as -> _. done. }
  assert (Hfresh : uuid (ct_ids t) ≠ id).
  { intros E. destruct (H2 _ _ Hr) as (n & Hn & E'). rewrite Hid, <-E in E'. apply (inj uuid) in E'. lia. }
  assert (Hrow : ∀ row0, call_key req0 ≠ call_key req ∨ <[call_key req0 := row0]> (ct_rows t) = ct_rows t →
    <[call_key req0 := row0]> (ct_rows t) !! call_key req = ct_rows t !! call_key req).
  { intros row0 [Hn|E]; [by rewrite lookup_insert_ne|by rewrite E]. }
  revert Hk. unfold pg_reserve. case_decide; [intros _; by eapply pg_open_frame; [..|exact Ho]|].
  destruct (ct_rows t !! call_key req0) as [row0|] eqn:E0.
  - case_decide; [|intros _; by eapply pg_open_frame; [..|exact Ho]].
    destruct (sc_output_ref row0); repeat case_decide; intros Hk; simpl in Hk;
      (eapply pg_open_frame; [|apply Hten; reflexivity|exact Ho]); simpl; auto.
  - intros Hk. eapply pg_open_frame; [..|exact Ho]; simpl; [by apply Hrow|by rewrite lookup_insert_ne].
Qed.

(** While a call is open, its key is not given to another one. *)
Lemma pg_reserve_held t req req0 id t' id' key' : pg_open t req id → call_key req0 = call_key req →
  pg_reserve uuid req0 t ≠ (t', Ok (rv_reserved id' key')).
Proof.
  intros [_ _ (row & Hr & _ & _ & Hst & Ho)] Hk. unfold pg_reserve. case_decide; [done|]. rewrite Hk, Hr. case_decide; [|done].
  rewrite Ho, decide_False; [done|]. rewrite Hst. set_solver.
Qed.

Lemma pg_settle_ok t hs hs' req id row' : pg_state_ok (t, hs) → hs ≡ₚ (req, id) :: hs' →
  (∀ row, ct_rows t !! call_key req = Some row → sc_id row' = sc_id row) →
  pg_state_ok (mkCallTable (<[call_key req := row']> (ct_rows t)) (ct_tenants t) (ct_ids t), hs').
Proof.
  intros [P1 P2 P3] Hp Hid. simpl in *. assert (Ho : pg_open t req id) by (apply P2; rewrite Hp; by left).
  assert (Hn : NoDup (map (λ h, call_key h.1) ((req, id) :: hs'))) by (by rewrite <-Hp). apply NoDup_cons in Hn as [Hn Hn'].
  split; simpl; [| |done].
  - destruct Ho as [_ _ (row & Hr & _)]. eapply pg_inv_rewrite; [done|exact P1|exact Hr|by apply Hid].
  - intros req2 id2 Hin. eapply pg_open_frame; [..|apply P2; rewrite Hp; by right]; [|done]. simpl.
    apply lookup_insert_ne. intros E. apply Hn. simpl. rewrite E. by apply (list_elem_of_fmap_2 (λ h, call_key h.1) hs' (req2, id2)).
Qed.

Lemma pg_step_ok p p' : pg_state_ok p → pg_step p p' → pg_state_ok p'.
Proof.
  intros Hok Hst. assert (Hok' := Hok). destruct Hok' as [P1 P2 P3]. destruct Hst as [t t' hs req id key Hr|t t' hs req r Hr Hno|t t' hs hs' req id resp Hp Hc|t t' hs hs' req id code Hp Hc]; simpl in *.
  - assert (Hnew : call_key req ∉ map (λ h, call_key h.1) hs).
    { intros ([req2 id2] & E & Hin)%list_elem_of_fmap. by eapply (pg_reserve_held t req2 req id2); [apply P2|..|exact Hr]. }
    assert (Hi := pg_reserve_inv uuid t req P1). assert (Ho := pg_reserved_open uuid _ _ _ _ _ Hr).
    assert (Hfr : ∀ req2 id2, (req2, id2) ∈ hs → pg_open t' req2 id2).
    { intros req2 id2 Hin. replace t' with (pg_reserve uuid req t).1 by (by rewrite Hr). apply pg_reserve_frame; [done|by apply P2|].
      left. intros E. apply Hnew. rewrite E. by apply (list_elem_of_fmap_2 (λ h, call_key h.1) hs (req2, id2)). }
    rewrite Hr in Hi. split; simpl; [done| |by constructor]. intros req2 id2 [[= -> ->]|Hin]%elem_of_cons; [done|by apply Hfr].
  - assert (Hi := pg_reserve_inv uuid t req P1). assert (Hrows : ct_rows (pg_reserve uuid req t).1 = ct_rows t).
    { revert Hr. unfold pg_reserve. repeat case_match; intros [= <- <-]; try done; by edestruct Hno. }
    rewrite Hr in Hi, Hrows. split; simpl; [done| |done]. intros req2 id2 Hin.
    replace t' with (pg_reserve uuid req t).1 by (by rewrite Hr). apply pg_reserve_frame; [done|by apply P2|]. right. by rewrite Hr.
  - assert (Ho : pg_open t req id) by (apply P2; rewrite Hp; by left). assert (Ho' := Ho). destruct Ho' as [_ Ht (row & Hrow & Hid & _)].
    unfold pg_complete, requireTenant in Hc. rewrite Ht in Hc. repeat case_match; try done.
    rewrite (update_one uuid t req id row _ P1 Hrow Hid) in Hc. injection Hc as <-. eapply pg_settle_ok; [done..|].
    intros row0. rewrite Hrow. by intros [= <-].
  - assert (Ho : pg_open t req id) by (apply P2; rewrite Hp; by left). assert (Ho' := Ho). destruct Ho' as [_ Ht (row & Hrow & Hid & _)].
    unfold pg_fail, requireTenant in Hc. rewrite Ht in Hc.
    rewrite (update_one uuid t req id row _ P1 Hrow Hid) in Hc. injection Hc as <-. eapply pg_settle_ok; [done..|].
    intros row0. rewrite Hrow. by intros [= <-].
Qed.

(** Concurrent calls of a process never hold the reservation of the same key:
    after any interleaving of reservations and settlements, starting from an
    empty table, the keys of the unsettled calls are distinct, and each of them
    is refused to everybody else. *)
Theorem pg_reservations_exclusive t hs : rtc pg_step (mkCallTable ∅ ∅ 0, []) (t, hs) →
  NoDup (map (λ h, call_key h.1) hs) ∧
  ∀ req id req0 t' id' key', (req, id) ∈ hs → call_key req0 = call_key req →
    pg_reserve uuid req0 t ≠ (t', Ok (rv_reserved id' key')).
Proof.
  intros Hr. assert (Hok : pg_state_ok (t, hs)).
  { revert Hr. generalize (t, hs). intros p Hr.
    assert (H0 : pg_state_ok (mkCallTable ∅ ∅ 0, [])).
    { split; simpl; [split; simpl; intros; by rewrite lookup_empty in *|intros ? ? ?%elem_of_nil; done|constructor]. }
    revert H0. induction Hr as [p|p p1 p2 Hst _ IH]; [done|]. intros H0. apply IH. by eapply pg_step_ok. }
  destruct Hok as [_ P2 P3]. split; [done|]. intros req id req0 t' id' key' Hin Hk. eapply pg_reserve_held; [by apply P2|done].
Qed.
End Pg.

(** ** The hypotheses can hold *)

Module ReplaySample.
Definition empty : CallTable := mkCallTable ∅ ∅ 0.
Definition world : GWorld (CallTable * ()) := mkGWorld (empty, tt) [].
Definition call_store : LLMCallIdempotencyStore CallTable := PgLlmCallIdempotencyStore pretty Some id.
Definition gateway : LlmGatewayDeps (CallTable * ()) := with_store call_store (GatewaySample.deps true).

Lemma empty_inv : pg_inv pretty empty.
Proof. split; simpl; intros; by rewrite lookup_empty in *. Qed.
Lemma allowed : gate_allows (GatewaySample.deps true) GatewaySample.request.
Proof. by exists via_sse. Qed.
End ReplaySample.


Lemma pg_call_is_settled_witness :
  let '(w1, r1) := call (λ _, None) ReplaySample.gateway GatewaySample.request ReplaySample.world in
  match r1 with Ok resp => (pg_reserve pretty GatewaySample.request (gw_host w1).1).2 = Ok (rv_replay (stored_response Some id "0" resp))
  | Err _ => False end.
Proof.
  destruct (pg_reserve pretty GatewaySample.request ReplaySample.empty) as [s1 r] eqn:Er.
  assert (Ev : r = Ok (rv_reserved "0" "key")).
  { assert (E : (pg_reserve pretty GatewaySample.request ReplaySample.empty).2 = r) by (by rewrite Er).
    vm_compute in E. by rewrite <-E. }
  subst r.
  assert (H := pg_call_is_settled pretty Some id (λ _, None) (GatewaySample.deps true) GatewaySample.request
    ReplaySample.world s1 "0" "key" ReplaySample.empty_inv ReplaySample.allowed Er).
  assert (Hok : ∃ resp, (call (λ _, None) ReplaySample.gateway GatewaySample.request ReplaySample.world).2 = Ok resp)
    by (eexists; vm_compute; reflexivity).
  change (with_store (PgLlmCallIdempotencyStore pretty Some id) (GatewaySample.deps true)) with ReplaySample.gateway in H.
  destruct (call (λ _, None) ReplaySample.gateway GatewaySample.request ReplaySample.world) as [w1 r1].
  destruct Hok as [resp Hok]. simpl in Hok. subst r1. apply H. by split_and!.
Defined.

Lemma pg_reservations_exclusive_witness : ∃ t hs, rtc (pg_step pretty Some id) (ReplaySample.empty, []) (t, hs) ∧
  hs = [(GatewaySample.request, "0")] ∧
  (∀ t' id' key', pg_reserve pretty GatewaySample.request t ≠ (t', Ok (rv_reserved id' key'))).
Proof.
  destruct (pg_reserve pretty GatewaySample.request ReplaySample.empty) as [t r] eqn:Er.
  assert (Ev : r = Ok (rv_reserved "0" "key")).
  { assert (E : (pg_reserve pretty GatewaySample.request ReplaySample.empty).2 = r) by (by rewrite Er).
    vm_compute in E. by rewrite <-E. }
  subst r. exists t, [(GatewaySample.request, "0")].
  assert (Hs : rtc (pg_step pretty Some id) (ReplaySample.empty, []) (t, [(GatewaySample.request, "0")]))
    by (apply rtc_once; by eapply st_granted).
  split; [done|]. split; [done|]. intros t' id' key'.
  destruct (pg_reservations_exclusive pretty Some id t [(GatewaySample.request, "0")] Hs) as [_ H].
  apply (H GatewaySample.request "0"); [by left|done].
Defined.
