(* ===== verification/CodexSse.v ===== *)
(** * The streaming backend

    Models [app/src/gateway/codex-sse-transport.ts] (the frames of a
    text/event-stream) and [codex-sse-adapter.ts] (their translation to the
    events of the gateway, with timeouts and the budget).  The pieces of text the
    connection delivers, the readings of the clock and the outcome of each wait
    are arguments: the theorems hold for all of them. *)

From stdpp Require Import base strings list sets.
From Stdlib Require Import ZArith Lia Ascii SpecFloat.
From S2P Require Import Prelude JsValue JsText Gateway.

(** ** Frames *)

Definition LF : ascii := ascii_of_nat 10.

(** [buf.indexOf("\n\n")] with the parts before and after. *)
Fixpoint next_frame (buf : string) : option (string * string) :=
  match buf with
  | String c rest =>
      match rest with
      | String c' rest' =>
          if Ascii.eqb c LF && Ascii.eqb c' LF then Some (EmptyString, rest')
          else match next_frame rest with Some (f, r) => Some (String c f, r) | None => None end
      | EmptyString => None
      end
  | EmptyString => None
  end.

(** The inner loop: all complete frames, and what is left in the buffer. *)
Fixpoint drain (fuel : nat) (buf : string) : list string * string :=
  match fuel with
  | O => ([], buf)
  | S fuel' =>
      match next_frame buf with
      | None => ([], buf)
      | Some (frame, rest) => let '(frames, kept) := drain fuel' rest in (frame :: frames, kept)
      end
  end.
Definition frames_of (buf : string) : list string * string := drain (String.length buf) buf.

Section Transport.
Context (json_parse : string → option json).

(** The values of the lines of a frame, and whether the end was announced. *)
Fixpoint frame_values (lines : list string) : list json * bool :=
  match lines with
  | [] => ([], false)
  | line :: rest =>
      let t := trim line in
      if negb (starts_with "data:" t) then frame_values rest else
      let data := trim (drop_chars 5 t) in
      if decide (data = "[DONE]") then ([], true) else
      let '(vs, done) := frame_values rest in
      (match json_parse data with Some v => v :: vs | None => vs end, done)
  end.

Fixpoint frames_values (frames : list string) : list json * bool :=
  match frames with
  | [] => ([], false)
  | f :: rest =>
      let '(vs, done) := frame_values (split_on LF f) in
      if (done : bool) then (vs, true) else let '(vs', done') := frames_values rest in (vs ++ vs', done')
  end.

(** [open]: the values the generator yields for the pieces read one by one. *)
Fixpoint sse_read (buf : string) (pieces : list string) : list json :=
  match pieces with
  | [] => []
  | piece :: rest =>
      let '(frames, buf') := frames_of (buf +:+ piece) in
      let '(vs, done) := frames_values frames in
      if (done : bool) then vs else vs ++ sse_read buf' rest
  end.
Definition sse_open (pieces : list string) : list json := sse_read EmptyString pieces.
End Transport.

Definition serializeMessageContent (content : MessageContent) : string :=
  match content with
  | content_text t => t
  | content_blocks blocks => join (String LF EmptyString) (map (λ b, match b with block_text t => t | block_json v => json_text v end) blocks)
  end.

(** ** Frames do not depend on how the text is cut *)

Lemma next_frame_cons c c' rest : next_frame (String c (String c' rest)) =
  if Ascii.eqb c LF && Ascii.eqb c' LF then Some (EmptyString, rest)
  else match next_frame (String c' rest) with Some (f, r) => Some (String c f, r) | None => None end.
Proof. done. Qed.

Lemma next_frame_length buf f rest : next_frame buf = Some (f, rest) → String.length rest < String.length buf.
Proof.
  revert f. induction buf as [|c buf IH]; intros f; [done|]. destruct buf as [|c' buf]; [done|]. rewrite next_frame_cons.
  destruct (_ && _); [intros [= _ <-]; simpl; lia|]. destruct (next_frame (String c' buf)) as [[f' r']|] eqn:E; [|done].
  intros [= _ <-]. specialize (IH f' eq_refl). simpl in *. lia.
Qed.

Lemma next_frame_app buf f rest more : next_frame buf = Some (f, rest) → next_frame (buf +:+ more) = Some (f, rest +:+ more).
Proof.
  revert f. induction buf as [|c buf IH]; intros f; [done|]. destruct buf as [|c' buf]; [done|].
  change (String c (String c' buf) +:+ more) with (String c (String c' (buf +:+ more))). rewrite !next_frame_cons.
  destruct (Ascii.eqb c LF && Ascii.eqb c' LF); [by intros [= <- <-]|].
  destruct (next_frame (String c' buf)) as [[f' r']|] eqn:E; [|done]. intros [= <- <-].
  specialize (IH f' eq_refl). change (String c' buf +:+ more) with (String c' (buf +:+ more)) in IH. by rewrite IH.
Qed.

Lemma drain_fuel n : ∀ m buf, String.length buf ≤ n → String.length buf ≤ m → drain n buf = drain m buf.
Proof.
  induction n as [|n IH]; intros m buf Hn Hm.
  - destruct buf; [|simpl in Hn; lia]. by destruct m.
  - destruct m as [|m]; [destruct buf; [done|simpl in Hm; lia]|]. cbn [drain].
    destruct (next_frame buf) as [[f rest]|] eqn:E; [|done]. apply next_frame_length in E. rewrite (IH m); [done|lia|lia].
Qed.

Lemma frames_of_step buf f rest : next_frame buf = Some (f, rest) →
  frames_of buf = (f :: (frames_of rest).1, (frames_of rest).2).
Proof.
  intros E. unfold frames_of. assert (Hl := next_frame_length _ _ _ E). destruct (String.length buf) as [|n] eqn:En; [lia|].
  cbn [drain]. rewrite E. rewrite (drain_fuel n (String.length rest)) by lia. by destruct (drain _ rest).
Qed.
Lemma frames_of_none buf : next_frame buf = None → frames_of buf = ([], buf).
Proof. intros E. unfold frames_of. destruct (String.length buf); [done|]. cbn [drain]. by rewrite E. Qed.

Lemma frames_of_kept buf : next_frame (frames_of buf).2 = None.
Proof.
  remember (String.length buf) as n eqn:En. revert buf En. induction n as [n IH] using lt_wf_ind. intros buf ->.
  destruct (next_frame buf) as [[f rest]|] eqn:E; [|by rewrite (frames_of_none _ E)].
  rewrite (frames_of_step _ _ _ E). eapply IH; [by eapply next_frame_length|done].
Qed.

Lemma frames_of_app a b : frames_of (a +:+ b) =
  ((frames_of a).1 ++ (frames_of ((frames_of a).2 +:+ b)).1, (frames_of ((frames_of a).2 +:+ b)).2).
Proof.
  remember (String.length a) as n eqn:En. revert a En. induction n as [n IH] using lt_wf_ind. intros a ->.
  destruct (next_frame a) as [[f rest]|] eqn:E.
  - rewrite (frames_of_step _ _ _ E), (frames_of_step _ _ _ (next_frame_app _ _ _ b E)). simpl.
    rewrite (IH (String.length rest)) by (done || by eapply next_frame_length). done.
  - rewrite (frames_of_none _ E). simpl. by destruct (frames_of (a +:+ b)).
Qed.

Lemma frames_values_app json_parse fs gs :
  frames_values json_parse (fs ++ gs) =
  let '(vs, done) := frames_values json_parse fs in
  if (done : bool) then (vs, true) else let '(vs', done') := frames_values json_parse gs in (vs ++ vs', done').
Proof.
  induction fs as [|f fs IH]; simpl; [by destruct (frames_values json_parse gs)|].
  destruct (frame_values json_parse (split_on LF f)) as [vs [|]]; [done|]. rewrite IH.
  destruct (frames_values json_parse fs) as [vs' [|]]; [done|]. destruct (frames_values json_parse gs). by rewrite app_assoc.
Qed.

Lemma sse_read_whole json_parse pieces : ∀ buf, (frames_of buf).1 = [] →
  sse_read json_parse buf pieces = (frames_values json_parse (frames_of (buf +:+ join EmptyString pieces)).1).1.
Proof.
  assert (Hjoin : ∀ p ps, join EmptyString (p :: ps) = p +:+ join EmptyString ps).
  { intros p ps. destruct ps; simpl; [by rewrite str_app_nil_r|done]. }
  induction pieces as [|p ps IH]; intros buf Hb; [simpl; by rewrite str_app_nil_r, Hb|].
  rewrite Hjoin, <-str_app_assoc, frames_of_app. cbn [sse_read].
  assert (Hleft : (frames_of (frames_of (buf +:+ p)).2).1 = []) by (by rewrite (frames_of_none _ (frames_of_kept _))).
  destruct (frames_of (buf +:+ p)) as [frames buf']. simpl in *. rewrite frames_values_app.
  destruct (frames_values json_parse frames) as [vs [|]]; [done|]. rewrite (IH buf' Hleft).
  by destruct (frames_values json_parse (frames_of (buf' +:+ join EmptyString ps)).1).
Qed.

(** What the transport reads does not depend on how the connection cuts the
    stream into pieces: the values are those of the frames of the whole text. *)
Theorem sse_chunking_irrelevant json_parse pieces pieces' : join EmptyString pieces = join EmptyString pieces' →
  sse_open json_parse pieces = sse_open json_parse pieces'.
Proof. intros H. unfold sse_open. rewrite !sse_read_whole by done. by rewrite H. Qed.

(** ** The adapter *)

Definition num_mul (x y : jsnum) : jsnum := SFmul 53 1024 x y.
Definition num_div (x y : jsnum) : jsnum := SFdiv 53 1024 x y.

Inductive ProviderFinish := pf_stop | pf_length | pf_tool_calls | pf_content_filter.
Definition mapFinish (fr : ProviderFinish) : FinishReason :=
  match fr with pf_stop => fr_stop | pf_length => fr_length | pf_tool_calls => fr_tool_call | pf_content_filter => fr_content_filter end.

(** The fields of a chunk that are read: the content and the finish reason of the
    first choice, and the numbers of tokens of the usage. *)
Record OpenAiSseChunk := mkChunk {
  ch_content : option string;
  ch_finish : option ProviderFinish;
  ch_prompt_tokens : option jsnum;
  ch_completion_tokens : option jsnum
}.

Definition provider_finish (s : string) : option ProviderFinish :=
  if decide (s = "stop") then Some pf_stop else if decide (s = "length") then Some pf_length
  else if decide (s = "tool_calls") then Some pf_tool_calls else if decide (s = "content_filter") then Some pf_content_filter else None.

(** A value read as a chunk; values of other types than the interface declares
    count as absent. *)
Definition as_chunk (v : json) : OpenAiSseChunk :=
  let choice := match as_array (prop "choices" (Some v)) with Some (c :: _) => Some c | _ => None end in
  let usage := prop "usage" (Some v) in
  mkChunk (as_string (prop "content" (prop "delta" choice))) (as_string (prop "finish_reason" choice) ≫= provider_finish)
    (as_number (prop "prompt_tokens" usage)) (as_number (prop "completion_tokens" usage)).

Record CodexSseConfig := mkCodexConfig {
  cx_maxContextTokens : jsnum;
  cx_idleTimeoutMs : Z;
  cx_wallTimeoutMs : Z;
  cx_pricePer1kInputUsd : jsnum;
  cx_pricePer1kOutputUsd : jsnum;
  cx_capabilities : option bool * option bool * option bool * option bool * option bool
}.

(** [capabilities()]: the overrides are domReasoning, vision, jsonMode, toolCall, sse. *)
Definition codex_capabilities (cfg : CodexSseConfig) : ModelCapabilities :=
  let '(dom, vision, jsonMode, toolCall, sse) := cx_capabilities cfg in
  mkCapabilities (default true dom) (default false vision) (default false jsonMode) (default false toolCall) (default true sse)
    (cx_maxContextTokens cfg).

Definition APPROX_CHARS_PER_TOKEN : Z := 4.
(** [Math.ceil(s.length / 4)]. *)
Definition estTokens (s : string) : jsnum :=
  num_of_Z ((Z.of_nat (String.length s) + APPROX_CHARS_PER_TOKEN - 1) / APPROX_CHARS_PER_TOKEN).

(** ** Errors of the transport *)

(** The text starts a word boundary away from what is before and after the given
    number of characters. *)
Definition word_ends (s : string) : bool := match s with String c _ => negb (is_word_char c) | EmptyString => true end.

(** [/\b429\b/]. *)
Definition is_429 (s : string) : bool := starts_with "429" s && word_ends (drop_chars 3 s).
(** [/\b5\d\d\b/]. *)
Definition is_5xx (s : string) : bool :=
  match s with
  | String a (String b (String c s')) => Ascii.eqb a "5" && is_digit_char b && is_digit_char c && word_ends s'
  | _ => false
  end.
(** [/rate.?limit/i] on the lower-case text; the dot does not match a line end. *)
Definition is_rate_limit (s : string) : bool :=
  starts_with "rate" s &&
  let rest := drop_chars 4 s in
  starts_with "limit" rest ||
  match rest with String c rest' => negb (Ascii.eqb c LF || Ascii.eqb c (ascii_of_nat 13)) && starts_with "limit" rest' | _ => false end.

Definition classifyTransportError (text : string) : AdapterErrorCode * bool :=
  if at_word is_429 false text || anywhere is_rate_limit (toLowerCase text) then (RATE_LIMIT, true) else
  if at_word is_5xx false text then (BACKEND_ERROR, true) else (CONNECTION_FAILED, true).

(** ** The stream *)

Inductive NextOutcome := nx_chunk (value : OpenAiSseChunk) | nx_end | nx_timeout | nx_aborted | nx_throws (message : string).

(** One turn of the loop: the clock at the two checks before the wait, the
    outcome of the wait, and the clock after it. *)
Record Turn := mkTurn { tn_wall : Z; tn_idle : Z; tn_outcome : NextOutcome; tn_after : Z }.

Record StreamState := mkStream { ss_input : jsnum; ss_output : jsnum; ss_estimated : bool; ss_lastEventAt : Z }.

Section Codex.
Context (cfg : CodexSseConfig) (req : LLMRequest).

Definition stream_cost (st : StreamState) : jsnum :=
  num_add (num_mul (num_div (ss_input st) (num_of_Z 1000)) (cx_pricePer1kInputUsd cfg))
          (num_mul (num_div (ss_output st) (num_of_Z 1000)) (cx_pricePer1kOutputUsd cfg)).
Definition overBudget (st : StreamState) : bool :=
  num_ltb (bg_maxOutputTokens (rq_budget req)) (ss_output st) || num_ltb (bg_maxCost (rq_budget req)) (stream_cost st).

Definition final_events (st : StreamState) (reason : FinishReason) : list LLMStreamEvent :=
  [ev_usage (mkUsage (ss_input st) (ss_output st) (stream_cost st) (Some (ss_estimated st))); ev_done reason].

Definition chunk_text (c : OpenAiSseChunk) : list string :=
  match ch_content c with Some EmptyString | None => [] | Some t => [t] end.

(** The state after a chunk, before the budget is checked. *)
Definition after_chunk (c : OpenAiSseChunk) (now : Z) (st : StreamState) : StreamState :=
  let output := match chunk_text c with [] => ss_output st | t :: _ => num_add (ss_output st) (estTokens t) end in
  mkStream (default (ss_input st) (ch_prompt_tokens c)) (default output (ch_completion_tokens c))
    (match ch_completion_tokens c with Some _ => false | None => ss_estimated st end) now.

Fixpoint codex_loop (startedAt : Z) (st : StreamState) (turns : list Turn) : list LLMStreamEvent :=
  match turns with
  | [] => []
  | k :: rest =>
      if (cx_wallTimeoutMs cfg <=? tn_wall k - startedAt)%Z then [ev_error STREAM_TIMEOUT false "wall-clock timeout"] else
      if (cx_idleTimeoutMs cfg <=? tn_idle k - ss_lastEventAt st)%Z
      then [ev_error STREAM_IDLE_TIMEOUT true "no token within idle timeout"] else
      match tn_outcome k with
      | nx_throws message => let '(code, retryable) := classifyTransportError message in [ev_error code retryable message]
      | nx_aborted => [ev_aborted]
      | nx_timeout =>
          if (cx_wallTimeoutMs cfg <=? tn_after k - startedAt)%Z then [ev_error STREAM_TIMEOUT false "wall-clock timeout"]
          else [ev_error STREAM_IDLE_TIMEOUT true "idle timeout"]
      | nx_end => final_events st fr_stop
      | nx_chunk c =>
          let st' := after_chunk c (tn_after k) st in
          map ev_text_delta (chunk_text c) ++
          if overBudget st' then [ev_error BUDGET_EXCEEDED false "budget exceeded mid-stream"] else
          match ch_finish c with
          | Some fr => final_events st' (mapFinish fr)
          | None => codex_loop startedAt st' rest
          end
      end
  end.

Definition estimate_input (messages : list LLMMessage) : jsnum :=
  fold_left (λ n m, num_add n (match m_content m with content_text t => estTokens t | content_blocks _ => num_of_Z 0 end))
    messages (num_of_Z 0).

(** [streamCall], with the state of the signal and the two readings of the clock
    at the start. *)
Definition codex_streamCall (aborted : bool) (startedAt lastEventAt : Z) (turns : list Turn) : list LLMStreamEvent :=
  if aborted then [ev_aborted] else
  ev_open :: codex_loop startedAt (mkStream (estimate_input (rq_messages req)) (num_of_Z 0) true lastEventAt) turns.
End Codex.

(** ** What the stream is *)

Section CodexProps.
Context (cfg : CodexSseConfig) (req : LLMRequest).

Definition turn_text (k : Turn) : list string := match tn_outcome k with nx_chunk c => chunk_text c | _ => [] end.
Definition is_chunk (k : Turn) : Prop := match tn_outcome k with nx_chunk _ => True | _ => False end.

(** How a stream ends: it goes on (as long as the clock is within the limit), or
    it closes with its usage, within the budget unless nothing was received, or
    it closes with one error or with the news that it was aborted. *)
Definition stream_tail (startedAt : Z) (received : Prop) (turns : list Turn) (n : nat) (tail : list LLMStreamEvent) : Prop :=
  (tail = [] ∧ n = length turns ∧ Forall (λ k, is_chunk k ∧ (tn_wall k - startedAt < cx_wallTimeoutMs cfg)%Z) turns) ∨
  (∃ st reason, tail = final_events cfg st reason ∧ (received → overBudget cfg req st = false)) ∨
  (∃ code retryable message, tail = [ev_error code retryable message]) ∨ tail = [ev_aborted].

Lemma codex_loop_tail startedAt turns : ∀ st (received : Prop), (received → overBudget cfg req st = false) →
  ∃ n tail, n ≤ length turns ∧
    codex_loop cfg req startedAt st turns = map ev_text_delta (concat (map turn_text (take n turns))) ++ tail ∧
    stream_tail startedAt (received ∨ Exists is_chunk (take n turns)) turns n tail.
Proof.
  induction turns as [|k turns IH]; intros st received Hst; cbn [codex_loop].
  { exists 0, []. split; [done|]. split; [done|]. left. split_and!; [done..|constructor]. }
  assert (Herr : ∀ es, (∃ code retryable message, es = [ev_error code retryable message]) ∨ es = [ev_aborted] → turn_text k = [] ∨ True →
    ∃ n tail, n ≤ length (k :: turns) ∧ es = map ev_text_delta (concat (map turn_text (take n (k :: turns)))) ++ tail ∧
      stream_tail startedAt (received ∨ Exists is_chunk (take n (k :: turns))) (k :: turns) n tail).
  { intros es Hes _. exists 0, es. split; [simpl; lia|]. split; [done|]. right; right. done. }
  destruct (cx_wallTimeoutMs cfg <=? tn_wall k - startedAt)%Z eqn:Ew; [apply Herr; eauto 10|].
  destruct (cx_idleTimeoutMs cfg <=? _)%Z; [apply Herr; eauto 10|]. apply Z.leb_gt in Ew.
  destruct (tn_outcome k) as [c| | | |message] eqn:Eo.
  - assert (Ht : turn_text k = chunk_text c) by (unfold turn_text; by rewrite Eo).
    assert (Hk : is_chunk k) by (unfold is_chunk; by rewrite Eo).
    assert (Hone : ∀ tail, (∃ st reason, tail = final_events cfg st reason ∧ overBudget cfg req st = false) ∨
        (∃ code retryable message, tail = [ev_error code retryable message]) →
      ∃ n tl, n ≤ length (k :: turns) ∧ map ev_text_delta (chunk_text c) ++ tail =
        map ev_text_delta (concat (map turn_text (take n (k :: turns)))) ++ tl ∧
        stream_tail startedAt (received ∨ Exists is_chunk (take n (k :: turns))) (k :: turns) n tl).
    { intros tail Htail. exists 1, tail. split; [simpl; lia|]. cbn [take map concat]. rewrite take_0. cbn [map concat]. rewrite Ht, app_nil_r. split; [done|]. right.
      destruct Htail as [(st' & reason & -> & Hb)|Herr']; [left; eauto|right; by left]. }
    destruct (overBudget cfg req (after_chunk c (tn_after k) st)) eqn:Eb; [apply Hone; right; eauto|].
    destruct (ch_finish c) as [fr|]; [apply Hone; left; eauto|].
    destruct (IH (after_chunk c (tn_after k) st) True) as (n & tail & Hn & E & Htl); [done|].
    exists (S n), tail. split; [simpl; lia|]. rewrite E. cbn [take map concat]. rewrite Ht, map_app, app_assoc. split; [done|].
    destruct Htl as [(-> & -> & Hf)|[(st' & reason & -> & Hb)|Herr']].
    + left. split_and!; [done..|]. by constructor.
    + right; left. exists st', reason. split; [done|]. intros _. apply Hb. by left.
    + right; right. done.
  - exists 0, (final_events cfg st fr_stop). split; [simpl; lia|]. split; [done|]. right; left. exists st, fr_stop. split; [done|].
    intros [Hr|Hex]; [by apply Hst|]. simpl in Hex. by apply Exists_nil in Hex.
  - apply Herr; [|by right]. left. destruct (_ <=? _)%Z; eauto.
  - apply Herr; [by right|by right].
  - apply Herr; [|by right]. left. destruct (classifyTransportError message). eauto.
Qed.

End CodexProps.

Lemma codex_loop_budget cfg req req' startedAt turns : rq_budget req = rq_budget req' →
  ∀ st, codex_loop cfg req startedAt st turns = codex_loop cfg req' startedAt st turns.
Proof.
  intros Hb. induction turns as [|k turns IH]; intros st; [done|]. cbn [codex_loop].
  destruct (tn_outcome k) as [c| | | |]; try done.
  replace (overBudget cfg req' (after_chunk c (tn_after k) st)) with (overBudget cfg req (after_chunk c (tn_after k) st))
    by (unfold overBudget; by rewrite Hb).
  by rewrite IH.
Qed.

(** Redacted requests that differ in their user messages only. *)
Definition same_but_users (m m' : LLMMessage) : Prop :=
  m = m' ∨ m_role m = role_user ∧ m_role m' = role_user ∧
    ∃ bs bs', m_content m = content_blocks bs ∧ m_content m' = content_blocks bs'.

(** The estimate of the input ignores the user messages: the redaction boundary
    returns user messages as content blocks, and only contents that are texts
    are counted.  Requests that differ in their redacted user messages, however
    long, have the same estimate and the same estimated cost, so the budget does
    not see the input as long as the backend reports no usage. *)
Theorem input_estimate_ignores_users cfg req ms ms' startedAt lastEventAt turns : Forall2 same_but_users ms ms' →
  codex_streamCall cfg (with_messages ms req) false startedAt lastEventAt turns =
  codex_streamCall cfg (with_messages ms' req) false startedAt lastEventAt turns.
Proof.
  intros H. unfold codex_streamCall. cbn [rq_messages with_messages]. f_equal.
  assert (E : estimate_input ms = estimate_input ms').
  { unfold estimate_input. generalize (num_of_Z 0) at 2 4. induction H as [|m m' ms ms' Hm _ IH]; intros n; [done|]. cbn [fold_left].
    destruct Hm as [->|(_ & _ & bs & bs' & -> & ->)]; apply IH. }
  rewrite E. by apply codex_loop_budget.
Qed.

Lemma sse_chunking_irrelevant_witness :
  let lf := String LF EmptyString in
  let parse := λ s, Some (JStr s) in
  sse_open parse ["data: a" +:+ lf; lf +:+ "da"; "ta: b" +:+ lf +:+ lf] = [JStr "a"; JStr "b"] ∧
  sse_open parse ["data: a" +:+ lf; lf +:+ "da"; "ta: b" +:+ lf +:+ lf] =
  sse_open parse ["data: a" +:+ lf +:+ lf +:+ "data: b" +:+ lf +:+ lf].
Proof. split; [reflexivity|]. apply sse_chunking_irrelevant. reflexivity. Defined.

Lemma input_estimate_ignores_users_witness :
  let cfg := mkCodexConfig (num_of_Z 8000) 1000 10000 (num_of_Z 1) (num_of_Z 1) (None, None, None, None, None) in
  let short := [mkMessage role_user (content_blocks [])] in
  let long := [mkMessage role_user (content_blocks [block_text "a long page"; block_json JNull])] in
  let turns := [mkTurn 1 1 nx_end 1] in
  codex_streamCall cfg (with_messages long GatewaySample.request) false 0 0 turns =
  codex_streamCall cfg (with_messages short GatewaySample.request) false 0 0 turns.
Proof.
  intros cfg short long turns. apply input_estimate_ignores_users. constructor; [|constructor].
  right. split; [reflexivity|]. split; [reflexivity|]. eexists _, _. split; reflexivity.
Defined.
