(* ===== verification/Leases.v ===== *)
(** * Leases on PostgreSQL and the circuit of a worker

    Models [app/src/worker/runtime-worker-credential-lease.ts] (slots of a
    credential), [runtime-worker-browser-lease.ts] (the rows of
    [browser_leases]), the leases and the worker circuit of
    [runtime-worker-run-support.ts] and the statements of the lease sweeper of
    [runtime-worker.ts].  [Leases] has the tables of a tenant they use, beside
    [Db]; an [LTx] is a transaction body on both.  Rows of [browser_leases] are in
    order of creation.  The triggers of [credential_leases] refuse nothing the
    code asks for and are left out; so are metrics and spans. *)

From stdpp Require Import base strings list gmap.
From Stdlib Require Import ZArith.
From S2P Require Import Prelude StateMachine JsValue JsText StaticValidation RuntimeStore Database SiteCircuit Sweepers.

(** ** Tables *)

Record CredentialPolicyRow := mkPolicyRow { kp_max_concurrency : Z; kp_status : string }.

(** A row of [credential_leases]; the key is credential, site and slot. *)
Record CredentialLeaseRow := mkSlotRow {
  kr_run_id : string;
  kr_workitem_id : option string;
  kr_status : CredentialLeaseStatus;
  kr_locked_until : Z;
  kr_acquired_at : Z
}.

Record BrowserLeaseRow := mkLeaseRow {
  br_id : string;
  br_site_profile_id : string;
  br_browser_identity_id : string;
  br_run_id : option string;
  br_owner_worker_id : string;
  br_isolation : LeaseIsolation;
  br_state : BrowserLeaseState;
  br_cleanup_policy : LeaseCleanupPolicy;
  br_download_dir_ref : option string;
  br_heartbeat_at : Z;
  br_expires_at : Z
}.

Record WorkerRow := mkWorkerRow {
  wk_kind : string;
  wk_status : string;
  wk_consecutive_init_failures : Z;
  wk_half_open_successes : Z;
  wk_circuit_state : CircuitState;
  wk_circuit_until : option Z
}.

(** The columns of the circuit with the samples and events of the site are its
    [Site]. *)
Record SiteProfileRow := mkSiteRow {
  si_risk : string;
  si_approved : bool;
  si_approval_expires_at : option Z;
  si_page_state_selectors : option json;
  si_circuit : Site
}.

Record IdentityRow := mkIdentityRow { id_site_profile_id : option string; id_version : Z }.

(** The columns of [runs] that [RunRow] does not have. *)
Record RunColumns := mkRunColumns {
  rc_correlation_id : string;
  rc_scenario_version_id : string;
  rc_model : option string;
  rc_params : json;
  rc_abort_source_status : option RunState
}.

(** The rows these operations only read. *)
Record Catalog := mkCatalog {
  credential_concurrency_policies : gmap (string * string) CredentialPolicyRow;
  browser_identities : gmap string IdentityRow;
  network_policies : gmap string (list string);
  scenario_versions : gmap string (json * option CompiledScenarioAst);
  run_columns : gmap string RunColumns
}.

Record Leases := mkLeases {
  l_catalog : Catalog;
  credential_leases : gmap (string * string * nat) CredentialLeaseRow;
  browser_leases : list BrowserLeaseRow;
  workers : gmap string WorkerRow;
  site_profiles : gmap string SiteProfileRow;
  l_ids : nat
}.

Definition set_credential_leases (x : gmap (string * string * nat) CredentialLeaseRow) (l : Leases) : Leases :=
  mkLeases (l_catalog l) x (browser_leases l) (workers l) (site_profiles l) (l_ids l).
Definition set_browser_leases (x : list BrowserLeaseRow) (l : Leases) : Leases :=
  mkLeases (l_catalog l) (credential_leases l) x (workers l) (site_profiles l) (l_ids l).
Definition set_workers (x : gmap string WorkerRow) (l : Leases) : Leases :=
  mkLeases (l_catalog l) (credential_leases l) (browser_leases l) x (site_profiles l) (l_ids l).
Definition set_site_profiles (x : gmap string SiteProfileRow) (l : Leases) : Leases :=
  mkLeases (l_catalog l) (credential_leases l) (browser_leases l) (workers l) x (l_ids l).
Definition draw_id (l : Leases) : Leases :=
  mkLeases (l_catalog l) (credential_leases l) (browser_leases l) (workers l) (site_profiles l) (S (l_ids l)).

(** ** Transactions *)

Definition LTx (A : Type) : Type := Leases * Db → result DbError (A * (Leases * Db)).
#[export] Instance LTx_ret : MRet LTx := λ A a s, Ok (a, s).
#[export] Instance LTx_bind : MBind LTx := λ A B f m s,
  match m s with Ok (a, s') => f a s' | Err e => Err e end.

Definition l_raise {A} (e : DbError) : LTx A := λ _, Err e.
Definition l_select {A} (f : Leases → A) : LTx A := λ s, Ok (f s.1, s).
(** With the time of the transaction. *)
Definition l_select_at {A} (f : Z → Leases → A) : LTx A := λ s, Ok (f (db_now s.2) s.1, s).
Definition l_update (f : Z → Leases → Leases) : LTx () := λ s, Ok (tt, (f (db_now s.2) s.1, s.2)).
(** The statements of the other modules. *)
Definition on_db {A} (m : Tx A) : LTx A := λ s,
  match m s.2 with Ok (a, d) => Ok (a, (s.1, d)) | Err e => Err e end.

Lemma LTx_bind_Ok {A B} (m : LTx A) (f : A → LTx B) s b s' :
  (m ≫= f) s = Ok (b, s') ↔ ∃ a s1, m s = Ok (a, s1) ∧ f a s1 = Ok (b, s').
Proof. unfold mbind, LTx_bind. destruct (m s) as [[a s1]|e]; naive_solver. Qed.

(** A lease, or why there is none. *)
Inductive Acquired (A : Type) := granted (a : A) | refused (r : JobResult).
Arguments granted {A} _.
Arguments refused {A} _.

(** ** Credentials *)

Definition DEFAULT_CREDENTIAL_LEASE_TTL_MS : Z := 15 * 60 * 1000.

Record CredentialLeaseAcquireInput := mkCredentialInput {
  ki_runId : string;
  ki_scenarioVersionId : string;
  ki_siteProfileId : string;
  ki_ttlMs : option Z
}.

Definition release_slot (now : Z) (runId : string) (row : CredentialLeaseRow) : CredentialLeaseRow :=
  if decide (kr_run_id row = runId ∧ kr_status row = cl_active)
  then mkSlotRow (kr_run_id row) (kr_workitem_id row) cl_released (Z.min (kr_locked_until row) now) (kr_acquired_at row)
  else row.

Definition releaseCredentialLeasesForRun (runId : string) : LTx () :=
  l_update (λ now l, set_credential_leases (release_slot now runId <$> credential_leases l) l).

Section Assets.
(** [JSON.parse]. *)
Context (json_parse : string → option json).

Definition asset_key (v : json) : option string :=
  match v with
  | JStr k => if decide (k = EmptyString ∨ k = "__proto__" ∨ k = "constructor" ∨ k = "prototype") then None else Some k
  | _ => None
  end.

(** The keys of the record, which are also its values; [None]: the parser throws. *)
Definition deriveAssetRefs (ir : json) : option (list string) :=
  doc ← match ir with JStr s => json_parse s | _ => Some ir end;
  Some match as_array (prop "assets" (Some doc)) with Some assets => omap asset_key assets | None => [] end.

(** [[...new Set(...)].sort()]. *)
Fixpoint insert_ref (x : string) (l : list string) : list string :=
  match l with
  | [] => [x]
  | y :: rest => match String.compare x y with Eq => l | Lt => x :: l | Gt => y :: insert_ref x rest end
  end.
Definition sorted_refs (l : list string) : list string := foldr insert_ref [] l.

Definition loadScenarioCredentialRefs (scenarioVersionId : string) : LTx (list string) :=
  ir ← l_select (λ l, scenario_versions (l_catalog l) !! scenarioVersionId);
  match ir with
  | None => l_raise (E_error "RuntimeWorker: credential lease scenario_version row not found in tenant scope")
  | Some (ir, _) =>
      match deriveAssetRefs ir with
      | None => l_raise (E_error "JSON.parse")
      | Some refs => mret (sorted_refs refs)
      end
  end.

Definition slot_of (ref site : string) (k : string * string * nat) : bool := bool_decide (k.1 = (ref, site)).

(** [UPDATE ... SET status = 'expired'] of the slots of a credential, or of all. *)
Definition expire_slot (now : Z) (row : CredentialLeaseRow) : CredentialLeaseRow :=
  if decide (kr_status row = cl_active ∧ (kr_locked_until row < now)%Z)
  then mkSlotRow (kr_run_id row) (kr_workitem_id row) cl_expired (kr_locked_until row) (kr_acquired_at row)
  else row.
Definition expire_slots (ref site : string) : LTx () :=
  l_update (λ now l, set_credential_leases
    (map_imap (λ k row, Some (if slot_of ref site k then expire_slot now row else row)) (credential_leases l)) l).

(** The [WHERE] of the conditional upsert. *)
Definition slot_free (now : Z) (runId : string) (row : CredentialLeaseRow) : bool :=
  bool_decide (kr_status row ≠ cl_active) || (kr_locked_until row <? now)%Z || bool_decide (kr_run_id row = runId).

Definition upsert_slot (runId ref site : string) (ttlMs : Z) (slotNo : nat) : LTx bool := λ s,
  let '(l, d) := s in
  let now := db_now d in
  let taken := Ok (true, (set_credential_leases
    (<[(ref, site, slotNo) := mkSlotRow runId None cl_active (now + ttlMs)%Z now]> (credential_leases l)) l, d)) in
  match credential_leases l !! (ref, site, slotNo) with
  | None => taken
  | Some row => if slot_free now runId row then taken else Ok (false, s)
  end.

(** The slots [slotNo], ..., [slotNo + n - 1] are tried in order. *)
Fixpoint take_slot (runId ref site : string) (ttlMs : Z) (n slotNo : nat) : LTx bool :=
  match n with
  | O => mret false
  | S n' =>
      hit ← upsert_slot runId ref site ttlMs slotNo;
      if (hit : bool) then mret true else take_slot runId ref site ttlMs n' (S slotNo)
  end.

(** [GREATEST(1, CEIL(MIN(locked_until) - now()))]; GREATEST skips a missing minimum. *)
Definition waits (now : Z) (ref site : string) (l : Leases) : list Z :=
  omap (λ p, if slot_of ref site p.1 && bool_decide (kr_status p.2 = cl_active) && (now <=? kr_locked_until p.2)%Z
             then Some (kr_locked_until p.2 - now)%Z else None) (map_to_list (credential_leases l)).
Definition retryAfterMsForCredential (ref site : string) : LTx Z :=
  l_select_at (λ now l, match waits now ref site l with [] => 1%Z | w :: ws => Z.max 1 (foldr Z.min w ws) end).

Fixpoint acquire_refs (input : CredentialLeaseAcquireInput) (ttlMs : Z) (refs : list string) : LTx (Acquired ()) :=
  match refs with
  | [] => mret (granted tt)
  | ref :: rest =>
      let site := ki_siteProfileId input in
      policy ← l_select (λ l, credential_concurrency_policies (l_catalog l) !! (ref, site));
      if match policy with Some p => negb (bool_decide (kp_status p = "active")) | None => false end then
        _ ← releaseCredentialLeasesForRun (ki_runId input);
        mret (refused (failed "CONTROL_PLANE_INTERNAL_ERROR"))
      else
        let maxConcurrency := match policy with Some p => kp_max_concurrency p | None => 1%Z end in
        if (maxConcurrency <? 1)%Z then l_raise (E_error "RuntimeWorker: invalid credential max_concurrency") else
        _ ← expire_slots ref site;
        hit ← take_slot (ki_runId input) ref site ttlMs (Z.to_nat maxConcurrency) 0;
        if (hit : bool) then acquire_refs input ttlMs rest else
        _ ← releaseCredentialLeasesForRun (ki_runId input);
        ms ← retryAfterMsForCredential ref site;
        mret (refused (deferred ms (Some "SESSION_LOCKED")))
  end.

Definition acquireCredentialLeasesForRun (input : CredentialLeaseAcquireInput) : LTx (Acquired ()) :=
  let ttlMs := default DEFAULT_CREDENTIAL_LEASE_TTL_MS (ki_ttlMs input) in
  if (ttlMs <=? 0)%Z then l_raise (E_error "RuntimeWorker: credential lease ttlMs must be a positive integer") else
  refs ← loadScenarioCredentialRefs (ki_scenarioVersionId input);
  acquire_refs input ttlMs refs.
End Assets.

(** ** The circuit of a worker *)

Definition DEFAULT_BROWSER_LEASE_TTL_MS : Z := 300000.
Definition DEFAULT_WORKER_CIRCUIT_THRESHOLD : Z := 5.
Definition DEFAULT_WORKER_CIRCUIT_OPEN_MS : Z := 60000.
Definition DEFAULT_WORKER_CIRCUIT_CLOSE_THRESHOLD : Z := 2.

Record PgRuntimeWorkerOptions := mkWorkerOptions {
  po_workerId : option string;
  po_defaultBrowserLeaseTtlMs : option Z;
  po_runAbortTimeoutMs : option Z;
  po_initFailThreshold : option Z;
  po_workerCircuitThreshold : option Z;
  po_workerCircuitOpenMs : option Z;
  po_workerCircuitCloseThreshold : option Z;
  po_siteCircuit : option SiteCircuitConfig
}.

(** [circuit_state = 'open' AND (circuit_until IS NULL OR circuit_until > now())]. *)
Definition circuit_blocked (now : Z) (st : CircuitState) (until : option Z) : bool :=
  bool_decide (st = c_open) && match until with None => true | Some u => (now <? u)%Z end.

Definition checkWorkerCircuit (workerId : string) : LTx bool :=
  l_select_at (λ now l, match workers l !! workerId with
                        | None => false
                        | Some w => negb (circuit_blocked now (wk_circuit_state w) (wk_circuit_until w))
                        end).

Definition init_failed_row (threshold openMs now : Z) (w : WorkerRow) : WorkerRow :=
  let probing := negb (bool_decide (wk_circuit_state w = c_closed)) in
  let reached := (threshold <=? wk_consecutive_init_failures w + 1)%Z in
  mkWorkerRow (wk_kind w) (wk_status w)
    (if probing then 0%Z else wk_consecutive_init_failures w + 1) 0
    (if probing then c_open else if reached then c_open else c_closed)
    (if probing || reached then Some (now + openMs)%Z else wk_circuit_until w).

Definition init_succeeded_row (closeThreshold : Z) (w : WorkerRow) : WorkerRow :=
  let probing := negb (bool_decide (wk_circuit_state w = c_closed)) in
  let enough := (closeThreshold <=? wk_half_open_successes w + 1)%Z in
  if (0 <? wk_consecutive_init_failures w)%Z || probing then
    mkWorkerRow (wk_kind w) (wk_status w) 0
      (if probing && negb enough then wk_half_open_successes w + 1 else 0)
      (if probing && enough then c_closed else if decide (wk_circuit_state w = c_open) then c_half_open else wk_circuit_state w)
      (if probing && enough then None else if decide (wk_circuit_state w = c_open) then None else wk_circuit_until w)
  else w.

Definition isolated_row (openMs now : Z) (w : WorkerRow) : WorkerRow :=
  if decide (wk_kind w = "browser" ∧ wk_status w = "active") then
    mkWorkerRow (wk_kind w) (wk_status w) 0 0 c_open
      (Some (match wk_circuit_until w with Some u => Z.max u (now + openMs) | None => now + openMs end)%Z)
  else w.

Definition update_worker (f : Z → WorkerRow → WorkerRow) (workerId : string) : LTx () :=
  l_update (λ now l, set_workers (alter (f now) workerId (workers l)) l).

Section WorkerLeases.
Context (uuid : nat → string) (options : PgRuntimeWorkerOptions).

Definition worker_open_ms : Z := default DEFAULT_WORKER_CIRCUIT_OPEN_MS (po_workerCircuitOpenMs options).

Definition recordWorkerInitFailure : string → LTx () :=
  update_worker (init_failed_row (default DEFAULT_WORKER_CIRCUIT_THRESHOLD (po_workerCircuitThreshold options)) worker_open_ms).
Definition recordWorkerInitSuccess : string → LTx () :=
  update_worker (λ _, init_succeeded_row (default DEFAULT_WORKER_CIRCUIT_CLOSE_THRESHOLD (po_workerCircuitCloseThreshold options))).

(** ** Browser leases *)

Record BrowserLeasePlan := mkPlan {
  pl_siteProfileId : string;
  pl_browserIdentityId : string;
  pl_networkPolicyId : option string;
  pl_isolation : option LeaseIsolation;
  pl_cleanupPolicy : option LeaseCleanupPolicy;
  pl_ttlMs : option Z;
  pl_downloadDirRef : option string
}.

(** [state IN ('reserved','active')]. *)
Definition held (row : BrowserLeaseRow) : bool :=
  match br_state row with bl_reserved | bl_active => true | _ => false end.
Definition for_session (site identity : string) (row : BrowserLeaseRow) : bool :=
  bool_decide (br_site_profile_id row = site) && bool_decide (br_browser_identity_id row = identity).
Definition lapsed (now : Z) (row : BrowserLeaseRow) : bool := held row && (br_expires_at row <? now)%Z.
Definition with_lease (st : BrowserLeaseState) (heartbeat expires : Z) (row : BrowserLeaseRow) : BrowserLeaseRow :=
  mkLeaseRow (br_id row) (br_site_profile_id row) (br_browser_identity_id row) (br_run_id row) (br_owner_worker_id row)
    (br_isolation row) st (br_cleanup_policy row) (br_download_dir_ref row) heartbeat expires.
Definition to_state (st : BrowserLeaseState) (row : BrowserLeaseRow) : BrowserLeaseRow :=
  with_lease st (br_heartbeat_at row) (br_expires_at row) row.

(** [UPDATE browser_leases ... WHERE]: the number of rows hit. *)
Definition update_leases (hit : Z → BrowserLeaseRow → bool) (f : Z → BrowserLeaseRow → BrowserLeaseRow) : LTx nat := λ s,
  let '(l, d) := s in
  let now := db_now d in
  Ok (length (filter (λ row, hit now row = true) (browser_leases l)),
      (set_browser_leases (map (λ row, if hit now row then f now row else row) (browser_leases l)) l, d)).

(** The milliseconds until the lease ends, at least one. *)
Definition ms_left (now : Z) (row : BrowserLeaseRow) : Z := Z.max 1 (br_expires_at row - now).

(** [ORDER BY expires_at ASC LIMIT 1]. *)
Fixpoint soonest (rows : list BrowserLeaseRow) : option BrowserLeaseRow :=
  match rows with
  | [] => None
  | row :: rest => Some match soonest rest with
                        | Some r => if (br_expires_at r <? br_expires_at row)%Z then r else row
                        | None => row
                        end
  end.

Definition site_gate (now : Z) (l : Leases) (plan : BrowserLeasePlan) : option JobResult :=
  match browser_identities (l_catalog l) !! pl_browserIdentityId plan with
  | None => Some (failed "RESOURCE_NOT_FOUND")
  | Some identity =>
      if decide (id_site_profile_id identity = Some (pl_siteProfileId plan)) then
        match site_profiles l !! pl_siteProfileId plan with
        | None => Some (failed "RESOURCE_NOT_FOUND")
        | Some site =>
            let approval_expired := match si_approval_expires_at site with Some t => (t <=? now)%Z | None => false end in
            if bool_decide (si_risk site = "red") && (negb (si_approved site) || approval_expired)
            then Some (failed "SITE_PROFILE_BLOCKED") else
            if circuit_blocked now (circuit_state (si_circuit site)) (circuit_until (si_circuit site))
            then Some (deferred
                   (Z.max 1 (default (now + openMs (default DEFAULT_SITE_CIRCUIT (po_siteCircuit options))) (circuit_until (si_circuit site)) - now)%Z)
                   (Some "SITE_CIRCUIT_OPEN"))
            else None
        end
      else Some (failed "RESOURCE_NOT_FOUND")
  end.

Definition acquireBrowserLease (runId workerId : string) (plan : option BrowserLeasePlan) : LTx (Acquired string) :=
  match plan with
  | None => mret (refused (failed "CONTROL_PLANE_INTERNAL_ERROR"))
  | Some plan =>
      let ttlMs := default (default DEFAULT_BROWSER_LEASE_TTL_MS (po_defaultBrowserLeaseTtlMs options)) (pl_ttlMs plan) in
      if (ttlMs <=? 0)%Z then l_raise (E_error "RuntimeWorker: browser lease ttlMs must be a positive integer") else
      worker ← l_select (λ l, workers l !! workerId);
      if negb match worker with
              | Some w => bool_decide (wk_kind w = "browser") && bool_decide (wk_status w = "active")
              | None => false
              end
      then mret (refused (failed "CONTROL_PLANE_INTERNAL_ERROR")) else
      closed ← checkWorkerCircuit workerId;
      if negb closed then mret (refused (failed "CONTROL_PLANE_INTERNAL_ERROR")) else
      gate ← l_select_at (λ now l, site_gate now l plan);
      match gate with
      | Some r => mret (refused r)
      | None =>
          let session := for_session (pl_siteProfileId plan) (pl_browserIdentityId plan) in
          _ ← update_leases (λ now row, session row && lapsed now row) (λ _, to_state bl_expired);
          active ← l_select_at (λ now l,
            ms_left now <$> soonest (filter (λ row, session row && held row && (now <=? br_expires_at row)%Z = true) (browser_leases l)));
          match active with
          | Some ms => mret (refused (deferred ms (Some "SESSION_LOCKED")))
          | None =>
              leaseId ← l_select (λ l, uuid (l_ids l));
              _ ← l_update (λ now l, draw_id (set_browser_leases (browser_leases l ++
                    [mkLeaseRow leaseId (pl_siteProfileId plan) (pl_browserIdentityId plan) (Some runId) workerId
                       (default iso_context (pl_isolation plan)) bl_active (default clear_all (pl_cleanupPolicy plan))
                       (pl_downloadDirRef plan) now (now + ttlMs)%Z]) l));
              mret (granted leaseId)
          end
      end
  end.

Inductive LeaseRenewal := lease_renewed (expiresAt : Z) | lease_lost.

Definition owned_by (leaseId workerId : string) (row : BrowserLeaseRow) : bool :=
  bool_decide (br_id row = leaseId) && bool_decide (br_owner_worker_id row = workerId).

Definition renewBrowserLease (leaseId workerId : string) (ttlMs : Z) : LTx LeaseRenewal :=
  if (ttlMs <=? 0)%Z then l_raise (E_error "renewBrowserLease: ttlMs must be a positive integer") else
  n ← update_leases (λ now row, owned_by leaseId workerId row && held row && (now <=? br_expires_at row)%Z)
        (λ now row, with_lease (br_state row) now (now + ttlMs)%Z row);
  until ← l_select_at (λ now _, (now + ttlMs)%Z);
  mret (match n with O => lease_lost | _ => lease_renewed until end).

Definition drainBrowserLease (leaseId workerId : string) (sweeper : bool) : LTx () :=
  _ ← update_leases (λ _ row, owned_by leaseId workerId row && held row)
        (λ now row, with_lease (if sweeper then bl_expired else bl_draining) (br_heartbeat_at row) now row);
  mret tt.

Definition deleteInitReservedBrowserLease (leaseId workerId : string) : LTx () :=
  l_update (λ _ l, set_browser_leases (filter (λ row, owned_by leaseId workerId row = false) (browser_leases l)) l).

Definition of_run (runId workerId : string) (row : BrowserLeaseRow) : bool :=
  bool_decide (br_run_id row = Some runId) && bool_decide (br_owner_worker_id row = workerId).

(** [ORDER BY created_at DESC LIMIT 1]. *)
Definition findActiveBrowserLeaseForRun (runId workerId : string) : LTx (option string) :=
  l_select_at (λ now l,
    br_id <$> last (filter (λ row, of_run runId workerId row && held row && (now <=? br_expires_at row)%Z = true) (browser_leases l))).

Definition hasOpenAbortBrowserLeaseForRun (runId workerId : string) : LTx bool :=
  l_select (λ l, existsb (λ row, of_run runId workerId row && negb (bool_decide (br_state row = bl_expired))) (browser_leases l)).

Inductive AbortClaim := ab_claimed (leaseId : string) | ab_expired (leaseId : string) | ab_deferred (retryAfterMs : Z) | ab_missing | ab_multiple.

(** Every state is one of the four. *)
Definition claimAbortBrowserLeaseForRun (runId workerId : string) (timeoutMs : Z) : LTx AbortClaim :=
  rows ← l_select (λ l, filter (λ row, of_run runId workerId row = true) (browser_leases l));
  match rows with
  | _ :: _ :: _ => mret ab_multiple
  | [] => mret ab_missing
  | [row] =>
      now ← l_select_at (λ now _, now);
      if bool_decide (br_state row = bl_expired) || (br_expires_at row <=? now)%Z then mret (ab_expired (br_id row)) else
      if decide (br_state row = bl_draining) then mret (ab_deferred (ms_left now row)) else
      n ← update_leases (λ _ r, owned_by (br_id row) workerId r && held r)
            (λ now r, with_lease bl_draining (br_heartbeat_at r) (Z.min (br_expires_at r) (now + timeoutMs)%Z) r);
      mret (if decide (n = 1) then ab_claimed (br_id row) else ab_deferred 1000)
  end.

Definition releaseAbortBrowserDrainClaim (runId leaseId workerId : string) : LTx () :=
  n ← update_leases (λ _ row, bool_decide (br_id row = leaseId) && of_run runId workerId row && bool_decide (br_state row = bl_draining))
        (λ _, to_state bl_active);
  if decide (n = 1) then mret tt else l_raise (E_error "RuntimeWorker: run_abort browser lease drain-claim release CAS conflict").

Definition expireAbortBrowserLease (runId leaseId workerId : string) : LTx () :=
  n ← update_leases (λ _ row, bool_decide (br_id row = leaseId) && of_run runId workerId row)
        (λ now row, with_lease bl_expired (br_heartbeat_at row) (Z.min (br_expires_at row) now) row);
  match n with O => l_raise (E_error "RuntimeWorker: run_abort browser lease finalize CAS conflict") | _ => mret tt end.

(** ** The sweeper *)

(** The rows whose leases have lapsed, as the [UPDATE ... RETURNING] sees them. *)
Definition sweep_leases : LTx (list BrowserLeaseRow) :=
  rows ← l_select_at (λ now l, filter (λ row, lapsed now row = true) (browser_leases l));
  _ ← update_leases lapsed (λ _, to_state bl_expired);
  _ ← l_update (λ now l, set_credential_leases (expire_slot now <$> credential_leases l) l);
  mret rows.

Definition isolateWorkersForExpiredBrowserLeases (rows : list BrowserLeaseRow) : LTx () :=
  match rows with
  | [] => mret tt
  | _ =>
      if (worker_open_ms <=? 0)%Z then l_raise (E_error "RuntimeWorker: workerCircuitOpenMs must be a positive integer") else
      l_update (λ now l, set_workers (map_imap (λ id w,
        Some (if bool_decide (id ∈ map br_owner_worker_id rows) then isolated_row worker_open_ms now w else w)) (workers l)) l)
  end.
End WorkerLeases.
