(* ===== verification/LeaseProps.v ===== *)
(** * What leases guarantee

    Theorems about [Leases]: the slots of a credential are exclusive and bounded
    and are acquired all or none; one session of a browser identity is open at a
    time as long as no drain claim is handed back; the circuit of a worker opens
    and closes as specified.  Module [LeaseSample] is a concrete tenant. *)

From stdpp Require Import base strings list gmap sets pretty relations.
From Stdlib Require Import ZArith Lia.
From S2P Require Import Prelude StateMachine JsValue RuntimeStore Database SiteCircuit Sweepers Leases.

Create HintDb leases.

(** ** Slots of credentials *)

Section Credentials.
Context (json_parse : string → option json).

(** The slots the policy of a credential allows. *)
Definition max_slots (c : Catalog) (ref site : string) : nat :=
  match credential_concurrency_policies c !! (ref, site) with
  | Some p => Z.to_nat (kp_max_concurrency p)
  | None => 1
  end.

(** An active row that has not lapsed. *)
Definition live_slot (now : Z) (row : CredentialLeaseRow) : Prop := kr_status row = cl_active ∧ (now <= kr_locked_until row)%Z.
#[export] Instance live_slot_dec now row : Decision (live_slot now row).
Proof using. unfold live_slot. apply _. Defined.

Definition within_policy (l : Leases) : Prop :=
  ∀ ref site n row, credential_leases l !! (ref, site, n) = Some row → n < max_slots (l_catalog l) ref site.

(** What a program of one run may do to the table of slots. *)
Record slots_step (now : Z) (runId : string) (l l' : Leases) : Prop := {
  ks_catalog : l_catalog l' = l_catalog l;
  ks_other : browser_leases l' = browser_leases l ∧ workers l' = workers l ∧ l_ids l' = l_ids l;
  ks_live : ∀ k row, credential_leases l !! k = Some row → live_slot now row → kr_run_id row ≠ runId →
    credential_leases l' !! k = Some row;
  ks_taken : ∀ k row, credential_leases l' !! k = Some row → kr_status row = cl_active → kr_run_id row ≠ runId →
    credential_leases l !! k = Some row;
  ks_policy : within_policy l → within_policy l'
}.

(** The same without a word about the other tables. *)
Record slots_change (now : Z) (runId : string) (l l' : Leases) : Prop := {
  kc_catalog : l_catalog l' = l_catalog l;
  kc_live : ∀ k row, credential_leases l !! k = Some row → live_slot now row → kr_run_id row ≠ runId →
    credential_leases l' !! k = Some row;
  kc_taken : ∀ k row, credential_leases l' !! k = Some row → kr_status row = cl_active → kr_run_id row ≠ runId →
    credential_leases l !! k = Some row;
  kc_policy : within_policy l → within_policy l'
}.
Lemma slots_step_change now runId l l' : slots_step now runId l l' → slots_change now runId l l'.
Proof. intros [H1 _ H3 H4 H5]. by split. Qed.
Lemma slots_change_same now runId l l' : l_catalog l' = l_catalog l → credential_leases l' = credential_leases l → slots_change now runId l l'.
Proof. intros H1 H2. split; [done|by rewrite H2..|]. intros Hp ref site n row. rewrite H1, H2. apply Hp. Qed.

Lemma slots_step_refl now runId l : slots_step now runId l l.
Proof. by split. Qed.
Lemma slots_step_trans now runId l1 l2 l3 : slots_step now runId l1 l2 → slots_step now runId l2 l3 → slots_step now runId l1 l3.
Proof.
  intros [A1 (A2 & A3 & A4) A5 A6 A7] [B1 (B2 & B3 & B4) B5 B6 B7].
  split; [congruence|split_and!; congruence| | |auto]; intros k row H1 H2 H3; [by apply B5; [apply A5|..]|by apply A6; [apply B6|..]].
Qed.

Lemma release_step now runId l :
  slots_step now runId l (set_credential_leases (release_slot now runId <$> credential_leases l) l).
Proof.
  split; simpl; [done|done| | |].
  - intros k row Hk _ Hr. rewrite lookup_fmap, Hk. simpl. unfold release_slot. by rewrite decide_False by (by intros [??]).
  - intros k row. rewrite lookup_fmap. intros (row0 & Hk & ->)%fmap_Some. unfold release_slot. case_decide as Hd; [|done]. done.
  - intros Hp ref site n row. simpl. rewrite lookup_fmap. intros (row0 & Hk & _)%fmap_Some. by eapply Hp.
Qed.

(** After it the run has no active slot. *)
Lemma release_none (now : Z) (runId : string) (m : gmap (string * string * nat) CredentialLeaseRow) k (row : CredentialLeaseRow) :
  (release_slot now runId <$> m) !! k = Some row → kr_run_id row = runId → kr_status row ≠ cl_active.
Proof.
  rewrite lookup_fmap. intros (row0 & _ & ->)%fmap_Some. unfold release_slot. case_decide as Hd; simpl; [done|].
  intros H1 H2. by apply Hd.
Qed.

Lemma expire_slot_run now row : kr_run_id (expire_slot now row) = kr_run_id row.
Proof. unfold expire_slot. by case_decide. Qed.
Lemma expire_slot_live now row : live_slot now row → expire_slot now row = row.
Proof. intros [_ H]. unfold expire_slot. rewrite decide_False; [done|]. intros [_ ?]. lia. Qed.
Lemma expire_slot_active now row : kr_status (expire_slot now row) = cl_active → expire_slot now row = row.
Proof. unfold expire_slot. by case_decide. Qed.

(** Marking lapsed slots, of any of the keys. *)
Lemma expire_step now runId l (which : string * string * nat → bool) :
  slots_step now runId l (set_credential_leases
    (map_imap (λ k row, Some (if which k then expire_slot now row else row)) (credential_leases l)) l).
Proof.
  assert (Hl : ∀ k row, map_imap (λ k row, Some (if which k then expire_slot now row else row)) (credential_leases l) !! k = Some row ↔
    ∃ row0, credential_leases l !! k = Some row0 ∧ row = if which k then expire_slot now row0 else row0).
  { intros k row. rewrite map_lookup_imap. destruct (credential_leases l !! k); simpl; naive_solver. }
  split; simpl; [done|done| | |].
  - intros k row Hk Hlive _. apply Hl. exists row. split; [done|]. destruct (which k); [by rewrite expire_slot_live|done].
  - intros k row (row0 & Hk & ->)%Hl Hact _. destruct (which k); [|done]. by rewrite expire_slot_active.
  - intros Hp ref site n row (row0 & Hk & _)%Hl. by eapply Hp.
Qed.

Lemma upsert_step runId ref site ttlMs slotNo l d :
  slotNo < max_slots (l_catalog l) ref site →
  ∃ l', upsert_slot runId ref site ttlMs slotNo (l, d) =
    Ok (match credential_leases l !! (ref, site, slotNo) with None => true | Some row => slot_free (db_now d) runId row end, (l', d)) ∧
  slots_step (db_now d) runId l l' ∧
  if match credential_leases l !! (ref, site, slotNo) with None => true | Some row => slot_free (db_now d) runId row end
  then l' = set_credential_leases (<[(ref, site, slotNo) := mkSlotRow runId None cl_active (db_now d + ttlMs)%Z (db_now d)]> (credential_leases l)) l
  else l' = l.
Proof.
  intros Hn. unfold upsert_slot.
  assert (Htake : (∀ row, credential_leases l !! (ref, site, slotNo) = Some row → slot_free (db_now d) runId row = true) →
    slots_step (db_now d) runId l
      (set_credential_leases (<[(ref, site, slotNo) := mkSlotRow runId None cl_active (db_now d + ttlMs)%Z (db_now d)]> (credential_leases l)) l)).
  { intros Hfree. split; simpl; [done|done| | |].
    - intros k row Hk [Ha Hu] Hr. rewrite lookup_insert_ne; [done|]. intros <-. specialize (Hfree row Hk). unfold slot_free in Hfree.
      rewrite !orb_true_iff, !bool_decide_eq_true, Z.ltb_lt in Hfree. destruct Hfree as [[?|?]|?]; [done|lia|done].
    - intros k row Hk Ha Hr. apply lookup_insert_Some in Hk as [[_ <-]|[_ Hk]]; done.
    - intros Hp ref' site' n row. simpl. intros [[[= <- <- <-] _]|[_ Hk]]%lookup_insert_Some; [done|by eapply Hp]. }
  destruct (credential_leases l !! (ref, site, slotNo)) as [row|] eqn:E.
  - destruct (slot_free (db_now d) runId row) eqn:Ef.
    + eexists. split; [done|]. split; [apply Htake; by intros ? [= <-]|done].
    + exists l. split; [done|]. split; [apply slots_step_refl|done].
  - eexists. split; [done|]. split; [by apply Htake|done].
Qed.

(** The slots tried are all held by other runs, or one of them is taken. *)
Lemma take_slot_spec runId ref site ttlMs n : ∀ slotNo l d, slotNo + n ≤ max_slots (l_catalog l) ref site →
  ∃ l' hit, take_slot runId ref site ttlMs n slotNo (l, d) = Ok (hit, (l', d)) ∧ slots_step (db_now d) runId l l' ∧
  if hit : bool
  then (∃ i, slotNo ≤ i < slotNo + n ∧
    l' = set_credential_leases (<[(ref, site, i) := mkSlotRow runId None cl_active (db_now d + ttlMs)%Z (db_now d)]> (credential_leases l)) l)
  else l' = l ∧ ∀ i, slotNo ≤ i < slotNo + n →
         ∃ row, credential_leases l !! (ref, site, i) = Some row ∧ live_slot (db_now d) row ∧ kr_run_id row ≠ runId.
Proof.
  induction n as [|n IH]; intros slotNo l d Hn; cbn [take_slot].
  - exists l, false. split; [done|]. split; [apply slots_step_refl|]. split; [done|lia].
  - destruct (upsert_step runId ref site ttlMs slotNo l d) as (l1 & E & Hs & Hres); [lia|].
    unfold mbind, LTx_bind. rewrite E. destruct (match credential_leases l !! (ref, site, slotNo) with
      | None => true | Some row => slot_free (db_now d) runId row end) eqn:Ehit.
    + exists l1, true. split; [done|]. split; [done|]. exists slotNo. split; [lia|done].
    + subst l1. destruct (IH (S slotNo) l d) as (l2 & hit & E2 & Hs2 & Hres2); [lia|].
      exists l2, hit. split; [done|]. split; [done|]. destruct hit.
      * destruct Hres2 as (i & Hi & ->). exists i. split; [lia|done].
      * destruct Hres2 as [-> Hall]. split; [done|]. intros i Hi. destruct (decide (i = slotNo)) as [->|Hne]; [|apply Hall; lia].
        destruct (credential_leases l !! (ref, site, slotNo)) as [row|] eqn:Er; [|done]. exists row. split; [done|].
        unfold slot_free in Ehit. rewrite !orb_false_iff, !bool_decide_eq_false, Z.ltb_ge in Ehit. destruct Ehit as [[Ha Hu] Hr].
        split; [|done]. split; [|lia]. by destruct (decide (kr_status row = cl_active)) as [|[]%Ha].
Qed.

(** The run has an active slot of the credential until the given time. *)
Definition holds (l : Leases) (runId ref site : string) (until : Z) : Prop :=
  ∃ n row, credential_leases l !! (ref, site, n) = Some row ∧ kr_run_id row = runId ∧ kr_status row = cl_active ∧
    kr_locked_until row = until ∧ n < max_slots (l_catalog l) ref site.
Definition holds_nothing (l : Leases) (runId : string) : Prop :=
  ∀ k row, credential_leases l !! k = Some row → kr_run_id row = runId → kr_status row ≠ cl_active.

(** Every slot of the credential is held by another run. *)
Definition exhausted (now : Z) (l : Leases) (runId ref site : string) : Prop :=
  ∀ i, i < max_slots (l_catalog l) ref site →
    ∃ row, credential_leases l !! (ref, site, i) = Some row ∧ live_slot now row ∧ kr_run_id row ≠ runId.

Definition inactive (c : Catalog) (ref site : string) : Prop :=
  ∃ p, credential_concurrency_policies c !! (ref, site) = Some p ∧ kp_status p ≠ "active".

(** The [CHECK] of the table. *)
Definition policies_ok (c : Catalog) : Prop :=
  ∀ k p, credential_concurrency_policies c !! k = Some p → (1 <= kp_max_concurrency p)%Z.

Lemma expire_holds now l runId ref site until which : (now <= until)%Z → holds l runId ref site until →
  holds (set_credential_leases
    (map_imap (λ k row, Some (if which k : bool then expire_slot now row else row)) (credential_leases l)) l) runId ref site until.
Proof.
  intros Hu (n & row & Hk & Hr & Ha & Hl & Hn). exists n, row. simpl. split_and!; [|done..]. rewrite map_lookup_imap, Hk. simpl.
  destruct (which _); [|done]. rewrite expire_slot_live; [done|]. split; [done|lia].
Qed.
Lemma take_holds l runId ref site ref' site' i until now : holds l runId ref site until →
  holds (set_credential_leases (<[(ref', site', i) := mkSlotRow runId None cl_active until now]> (credential_leases l)) l)
    runId ref site until.
Proof.
  intros (n & row & Hk & Hr & Ha & Hl & Hn). destruct (decide ((ref', site', i) = (ref, site, n))) as [E|Hne].
  - eexists n, _. simpl. rewrite E, lookup_insert_eq. split_and!; done.
  - exists n, row. simpl. rewrite lookup_insert_ne by done. split_and!; done.
Qed.

Lemma waits_pos now ref site l : (1 <= match waits now ref site l with [] => 1 | w :: ws => Z.max 1 (foldr Z.min w ws) end)%Z.
Proof. destruct (waits now ref site l); lia. Qed.

Lemma acquire_refs_spec input ttlMs refs : (0 < ttlMs)%Z → ∀ l d, policies_ok (l_catalog l) →
  let now := db_now d in let runId := ki_runId input in let site := ki_siteProfileId input in
  ∃ l' r, acquire_refs input ttlMs refs (l, d) = Ok (r, (l', d)) ∧ slots_step now runId l l' ∧
  match r with
  | granted _ => (∀ ref, ref ∈ refs → holds l' runId ref site (now + ttlMs)) ∧
                 ∀ ref site, holds l runId ref site (now + ttlMs) → holds l' runId ref site (now + ttlMs)
  | refused res => holds_nothing l' runId ∧
      ((res = failed "CONTROL_PLANE_INTERNAL_ERROR" ∧ ∃ ref, ref ∈ refs ∧ inactive (l_catalog l) ref site) ∨
       ∃ ms ref, res = deferred ms (Some "SESSION_LOCKED") ∧ (1 <= ms)%Z ∧ ref ∈ refs ∧ exhausted now l runId ref site)
  end.
Proof.
  intros Ht. induction refs as [|ref refs IH]; intros l d Hp now runId site; cbn [acquire_refs].
  { exists l, (granted tt). split; [done|]. split; [apply slots_step_refl|]. split; [|done]. by intros ref ?%elem_of_nil. }
  unfold mbind, LTx_bind, l_select. simpl. fold site runId.
  set (policy := credential_concurrency_policies (l_catalog l) !! (ref, site)).
  destruct (match policy with Some p => negb (bool_decide (kp_status p = "active")) | None => false end) eqn:Eact.
  { unfold releaseCredentialLeasesForRun, l_update, mret, LTx_ret. simpl.
    eexists _, _. split; [done|]. split; [apply release_step|]. split; [intros k row; simpl; apply release_none|]. left. split; [done|].
    exists ref. split; [by left|]. unfold inactive. fold policy. destruct policy as [p|]; [|done]. exists p.
    by rewrite negb_true_iff, bool_decide_eq_false in Eact. }
  set (m := match policy with Some p => kp_max_concurrency p | None => 1%Z end).
  assert (Hm : (1 <= m)%Z) by (unfold m; destruct policy as [p|] eqn:E; [by eapply Hp|lia]).
  assert (Hmax : Z.to_nat m = max_slots (l_catalog l) ref site) by (unfold m, max_slots; fold policy; by destruct policy).
  destruct (m <? 1)%Z eqn:E1; [apply Z.ltb_lt in E1; lia|]. unfold expire_slots, l_update. simpl.
  set (l1 := set_credential_leases _ l). fold now.
  assert (H1 : slots_step now runId l l1) by apply expire_step.
  destruct (take_slot_spec runId ref site ttlMs (Z.to_nat m) 0 l1 d) as (l2 & hit & E2 & H2 & Hres); [simpl; lia|].
  rewrite E2. destruct hit.
  - destruct Hres as (i & Hi & El2). destruct (IH l2 d) as (l3 & r & E3 & H3 & Hr); [by rewrite El2|].
    exists l3, r. split; [done|]. split; [by eapply slots_step_trans; [eapply slots_step_trans|]|].
    assert (Hcat : l_catalog l2 = l_catalog l) by (by rewrite El2). destruct r as [[]|res].
    + destruct Hr as [Hr Hk]. assert (Hkeep : ∀ ref site, holds l runId ref site (now + ttlMs) → holds l3 runId ref site (now + ttlMs)).
      { intros ref' site' Hh. apply Hk. rewrite El2. apply take_holds, expire_holds; [lia|done]. }
      split; [|done]. intros ref' [->|Hin]%elem_of_cons; [|by apply Hr]. apply Hk. rewrite El2.
      eexists i, _. simpl. rewrite lookup_insert_eq. split_and!; [done..|]. lia.
    + destruct Hr as [Hn Hr]. split; [done|]. rewrite Hcat in Hr. destruct Hr as [(-> & ref' & Hin & Hi')|(ms & ref' & -> & Hms & Hin & Hex)].
      * left. split; [done|]. exists ref'. split; [by right|done].
      * right. exists ms, ref'. split_and!; [done..|by right|]. intros j Hj. destruct (Hex j) as (row & Hk & Hlive & Hrun); [by rewrite Hcat|].
        exists row. split; [|done]. assert (H12 := slots_step_trans _ _ _ _ _ H1 H2). by apply (ks_taken _ _ _ _ H12); [|apply Hlive|].
  - destruct Hres as [-> Hall]. unfold releaseCredentialLeasesForRun, l_update, retryAfterMsForCredential, l_select_at, mret, LTx_ret. simpl.
    eexists _, _. split; [done|]. split; [eapply slots_step_trans; [exact H1|apply release_step]|].
    split; [intros k row; simpl; apply release_none|]. right. eexists _, ref. split; [done|]. split; [apply waits_pos|]. split; [by left|].
    intros j Hj. destruct (Hall j) as (row & Hk & Hlive & Hrun); [lia|]. exists row. split; [|done].
    by apply (ks_taken _ _ _ _ H1); [|apply Hlive|].
Qed.

Lemma elem_of_insert_ref x y l : x ∈ insert_ref y l ↔ x = y ∨ x ∈ l.
Proof.
  induction l as [|z l IH]; simpl; [set_solver|]. destruct (String.compare y z) eqn:E; [|set_solver|set_solver].
  apply String.compare_eq_iff in E. set_solver.
Qed.
Lemma elem_of_sorted_refs x l : x ∈ sorted_refs l ↔ x ∈ l.
Proof. induction l as [|y l IH]; simpl; [done|]. rewrite elem_of_insert_ref, IH. set_solver. Qed.

(** C31. The credentials of a run are acquired all or none.  When the policies are
    valid and the scenario exists, the acquisition returns: either every
    credential the scenario names is held by the run, in a slot its policy allows
    and until the lease time has passed, or the run holds no slot at all, and
    then a policy is not active, or some credential has all its slots held by
    other runs and the job is deferred.  Either way no slot another run holds is
    touched and nothing is given to another run. *)
Theorem credential_acquisition_spec input l d ir ast refs :
  let now := db_now d in let runId := ki_runId input in let site := ki_siteProfileId input in
  let ttlMs := default DEFAULT_CREDENTIAL_LEASE_TTL_MS (ki_ttlMs input) in
  (0 < ttlMs)%Z → policies_ok (l_catalog l) → scenario_versions (l_catalog l) !! ki_scenarioVersionId input = Some (ir, ast) →
  deriveAssetRefs json_parse ir = Some refs →
  ∃ l' r, acquireCredentialLeasesForRun json_parse input (l, d) = Ok (r, (l', d)) ∧ slots_step now runId l l' ∧
  match r with
  | granted _ => ∀ ref, ref ∈ refs → holds l' runId ref site (now + ttlMs)
  | refused res => holds_nothing l' runId ∧
      ((res = failed "CONTROL_PLANE_INTERNAL_ERROR" ∧ ∃ ref, ref ∈ refs ∧ inactive (l_catalog l) ref site) ∨
       ∃ ms ref, res = deferred ms (Some "SESSION_LOCKED") ∧ (1 <= ms)%Z ∧ ref ∈ refs ∧ exhausted now l runId ref site)
  end.
Proof.
  intros now runId site ttlMs Ht Hp Hir Hrefs. unfold acquireCredentialLeasesForRun. fold ttlMs.
  destruct (ttlMs <=? 0)%Z eqn:E; [apply Z.leb_le in E; lia|].
  unfold mbind, LTx_bind, loadScenarioCredentialRefs, l_select. simpl. unfold mbind, LTx_bind. simpl. rewrite Hir, Hrefs. simpl.
  destruct (acquire_refs_spec input ttlMs (sorted_refs refs) Ht l d Hp) as (l' & r & Er & Hs & Hr). rewrite Er.
  exists l', r. split; [done|]. split; [done|]. destruct r as [[]|res].
  - destruct Hr as [Hr _]. intros ref Hin. by apply Hr, elem_of_sorted_refs.
  - destruct Hr as [Hn Hr]. split; [done|]. by setoid_rewrite elem_of_sorted_refs in Hr.
Qed.
End Credentials.

(** ** Interleavings *)

(** The operations on leases, of any worker, in any order; time passes and the
    circuits of sites and the other tables change between them. *)
Inductive LeaseOp :=
| op_credentials (input : CredentialLeaseAcquireInput)
| op_release (runId : string)
| op_browser (runId workerId : string) (plan : option BrowserLeasePlan)
| op_renew (leaseId workerId : string) (ttlMs : Z)
| op_drain (leaseId workerId : string) (sweeper : bool)
| op_delete (leaseId workerId : string)
| op_claim_abort (runId workerId : string) (timeoutMs : Z)
| op_unclaim_abort (runId leaseId workerId : string)
| op_expire_abort (runId leaseId workerId : string)
| op_sweep
| op_isolate (rows : list BrowserLeaseRow)
| op_init (workerId : string) (ok : bool).

Section Steps.
Context (json_parse : string → option json) (uuid : nat → string) `{!Inj (=) (=) uuid} (options : PgRuntimeWorkerOptions).

Definition exec (op : LeaseOp) : LTx () :=
  match op with
  | op_credentials input => _ ← acquireCredentialLeasesForRun json_parse input; mret tt
  | op_release runId => releaseCredentialLeasesForRun runId
  | op_browser runId workerId plan => _ ← acquireBrowserLease uuid options runId workerId plan; mret tt
  | op_renew leaseId workerId ttlMs => _ ← renewBrowserLease leaseId workerId ttlMs; mret tt
  | op_drain leaseId workerId sweeper => drainBrowserLease leaseId workerId sweeper
  | op_delete leaseId workerId => deleteInitReservedBrowserLease leaseId workerId
  | op_claim_abort runId workerId timeoutMs => _ ← claimAbortBrowserLeaseForRun runId workerId timeoutMs; mret tt
  | op_unclaim_abort runId leaseId workerId => releaseAbortBrowserDrainClaim runId leaseId workerId
  | op_expire_abort runId leaseId workerId => expireAbortBrowserLease runId leaseId workerId
  | op_sweep => _ ← sweep_leases; mret tt
  | op_isolate rows => isolateWorkersForExpiredBrowserLeases options rows
  | op_init workerId ok => if ok then recordWorkerInitSuccess options workerId else recordWorkerInitFailure options workerId
  end.

Inductive lease_step (allowed : LeaseOp → Prop) : Leases * Db → Leases * Db → Prop :=
| st_exec op s s' : allowed op → exec op s = Ok (tt, s') → lease_step allowed s s'
| st_time l d d' sites : (db_now d <= db_now d')%Z → lease_step allowed (l, d) (set_site_profiles sites l, d').

(** *** What an operation does to the rows of browser leases *)

Definition marked (now : Z) (session : BrowserLeaseRow → bool) (row : BrowserLeaseRow) : BrowserLeaseRow :=
  if session row && lapsed now row then to_state bl_expired row else row.

Definition live_session (now : Z) (site identity : string) (row : BrowserLeaseRow) : bool :=
  for_session site identity row && held row && (now <=? br_expires_at row)%Z.

Lemma acquire_browser_cases runId workerId plan l d r s' : acquireBrowserLease uuid options runId workerId plan (l, d) = Ok (r, s') →
  s'.2 = d ∧
  match r with
  | refused _ => s'.1 = l ∨ ∃ p, plan = Some p ∧ s'.1 = set_browser_leases
      (map (marked (db_now d) (for_session (pl_siteProfileId p) (pl_browserIdentityId p))) (browser_leases l)) l
  | granted id => ∃ p rows new, plan = Some p ∧
      rows = map (marked (db_now d) (for_session (pl_siteProfileId p) (pl_browserIdentityId p))) (browser_leases l) ∧
      filter (λ row, live_session (db_now d) (pl_siteProfileId p) (pl_browserIdentityId p) row = true) rows = [] ∧
      id = uuid (l_ids l) ∧ s'.1 = draw_id (set_browser_leases (rows ++ [new]) l) ∧
      br_id new = id ∧ br_run_id new = Some runId ∧ br_owner_worker_id new = workerId ∧ br_state new = bl_active ∧
      for_session (pl_siteProfileId p) (pl_browserIdentityId p) new = true ∧
      br_expires_at new = (db_now d + default (default DEFAULT_BROWSER_LEASE_TTL_MS (po_defaultBrowserLeaseTtlMs options)) (pl_ttlMs p))%Z ∧
      ∃ w, workers l !! workerId = Some w ∧ circuit_blocked (db_now d) (wk_circuit_state w) (wk_circuit_until w) = false
  end.
Proof.
  unfold acquireBrowserLease. destruct plan as [p|]; [|intros [= <- <-]; auto].
  set (ttl := default _ (pl_ttlMs p)). destruct (ttl <=? 0)%Z; [done|].
  unfold mbind, LTx_bind, l_select, l_select_at, checkWorkerCircuit, update_leases, l_update, mret, LTx_ret. simpl.
  destruct (negb _) eqn:Ew; [intros [= <- <-]; auto|]. destruct (workers l !! workerId) as [w|] eqn:Eworker; [|done].
  cbn [fst snd]. rewrite Eworker. destruct (circuit_blocked _ _ _) eqn:Ec; simpl; [intros [= <- <-]; auto|].
  destruct (site_gate _ _ _ _); [intros [= <- <-]; auto|]. simpl. fold ttl.
  set (rows := map _ (browser_leases l)). destruct (soonest _) as [row|] eqn:Es; simpl.
  { intros [= <- <-]. split; [done|]. right. by exists p. }
  intros [= <- <-]. split; [done|]. simpl. eexists p, rows, _. split_and!; try done; simpl; [| |by exists w].
  - destruct (filter _ rows); [done|]. simpl in Es. done.
  - unfold for_session. simpl. by rewrite !bool_decide_eq_true_2.
Qed.

Definition same_lease (a b : BrowserLeaseRow) : Prop :=
  br_id a = br_id b ∧ br_site_profile_id a = br_site_profile_id b ∧ br_browser_identity_id a = br_browser_identity_id b ∧
  br_run_id a = br_run_id b ∧ br_owner_worker_id a = br_owner_worker_id b.

(** What a statement may do to a row: when nothing is revived, the row is live only
    if it was; it ends later than before, and later than now, only when its lease
    is renewed. *)
Definition row_change (now : Z) (revives : bool) (renewed : option string) (row row' : BrowserLeaseRow) : Prop :=
  same_lease row' row ∧
  (revives = false → held row' = true → (now <= br_expires_at row')%Z → held row = true ∧ (now <= br_expires_at row)%Z) ∧
  (renewed ≠ Some (br_id row) → (br_expires_at row' <= Z.max (br_expires_at row) now)%Z).
Definition rewrites (now : Z) (revives : bool) (renewed : option string) (rows rows' : list BrowserLeaseRow) : Prop :=
  ∃ g, rows' = map g rows ∧ ∀ row, row_change now revives renewed row (g row).

Lemma row_change_refl now b r row : row_change now b r row row.
Proof. split; [by split_and!|]. split; [done|lia]. Qed.
Lemma rewrites_refl now b r rows : rewrites now b r rows rows.
Proof. exists id. split; [by rewrite map_id|]. intros row. apply row_change_refl. Qed.

Lemma update_leases_rewrites hit f l d n s' (b : bool) r :
  (∀ row, hit (db_now d) row = true → row_change (db_now d) b r row (f (db_now d) row)) →
  update_leases hit f (l, d) = Ok (n, s') →
  s'.2 = d ∧ (∃ rows, s'.1 = set_browser_leases rows l ∧ rewrites (db_now d) b r (browser_leases l) rows).
Proof.
  intros Hf [= <- <-]. split; [done|]. eexists. split; [done|]. eexists. split; [done|]. intros row. simpl.
  destruct (hit (db_now d) row) eqn:E; [by apply Hf|]. apply row_change_refl.
Qed.

(** The operations that rewrite rows; handing back a drain claim revives one. *)
Definition op_revives (op : LeaseOp) : bool := match op with op_unclaim_abort _ _ _ => true | _ => false end.
Definition op_renews (op : LeaseOp) : option string := match op with op_renew leaseId _ _ => Some leaseId | _ => None end.
Definition op_rewrites (op : LeaseOp) : bool := match op with op_browser _ _ _ | op_delete _ _ => false | _ => true end.

(** The run whose slots the operation may change. *)
Definition op_run (op : LeaseOp) : option string :=
  match op with op_credentials input => Some (ki_runId input) | op_release runId => Some runId | _ => None end.

(** A step that rewrites rows of browser leases and changes slots of one run. *)
Definition rewrite_step (b : bool) (r : option string) (runId : string) (s s' : Leases * Db) : Prop :=
  s'.2 = s.2 ∧ slots_change (db_now s.2) runId s.1 s'.1 ∧ l_ids s'.1 = l_ids s.1 ∧
  rewrites (db_now s.2) b r (browser_leases s.1) (browser_leases s'.1).

Lemma rewrite_step_update hit f s n s' (b : bool) r runId :
  (∀ row, hit (db_now s.2) row = true → row_change (db_now s.2) b r row (f (db_now s.2) row)) →
  update_leases hit f s = Ok (n, s') → rewrite_step b r runId s s'.
Proof.
  destruct s as [l d]. simpl. intros Hf Hu. destruct (update_leases_rewrites hit f l d n s' b r Hf Hu) as (E & rows & E' & Hr).
  destruct s' as [l' d']. simpl in *. subst. split_and!; [done|by apply slots_change_same|done..].
Qed.

Lemma acquire_credentials_step input s r s' : policies_ok (l_catalog s.1) → acquireCredentialLeasesForRun json_parse input s = Ok (r, s') →
  s'.2 = s.2 ∧ slots_step (db_now s.2) (ki_runId input) s.1 s'.1.
Proof.
  destruct s as [l d]. simpl. intros Hp. unfold acquireCredentialLeasesForRun.
  destruct (_ <=? 0)%Z eqn:E; [done|]. apply Z.leb_gt in E. intros (refs & s1 & H1 & H2)%LTx_bind_Ok.
  assert (Es : s1 = (l, d)).
  { revert H1. unfold loadScenarioCredentialRefs. intros (ir & s2 & [= <- <-] & H1)%LTx_bind_Ok. revert H1. simpl.
    destruct (scenario_versions _ !! _) as [[ir ast]|]; [|done]. destruct (deriveAssetRefs json_parse ir); [|done]. by intros [= _ <-]. }
  subst s1. destruct (acquire_refs_spec json_parse input _ refs E l d Hp) as (l' & r' & E' & Hs & _). rewrite E' in H2. by injection H2 as <- <-.
Qed.

Lemma exec_rewrites op s s' runId : op_rewrites op = true → policies_ok (l_catalog s.1) → exec op s = Ok (tt, s') →
  rewrite_step (op_revives op) (op_renews op) (default runId (op_run op)) s s'.
Proof.
  intros Hop Hp Hx. assert (Hslots : ∀ r (l' : Leases), slots_change (db_now s.2) r s.1 l' → l_ids l' = l_ids s.1 →
    browser_leases l' = browser_leases s.1 → rewrite_step (op_revives op) (op_renews op) r s (l', s.2)).
  { intros r l' H1 H2 H3. split_and!; [done..|]. simpl. rewrite H3. apply rewrites_refl. }
  assert (Hself : ∀ r (l' : Leases), l_catalog l' = l_catalog s.1 → credential_leases l' = credential_leases s.1 → l_ids l' = l_ids s.1 →
    browser_leases l' = browser_leases s.1 → rewrite_step (op_revives op) (op_renews op) r s (l', s.2)).
  { intros r l' H1 H2 H3 H4. apply Hslots; [by apply slots_change_same|done..]. }
  destruct op as [input|runId'| |leaseId workerId ttlMs|leaseId workerId sw| |runId' workerId timeoutMs|runId' leaseId workerId|runId' leaseId workerId| |rows|workerId ok];
    try done; cbn [exec op_revives op_renews op_run default] in *.
  - apply LTx_bind_Ok in Hx as (r & s1 & H1 & [= <-]). destruct (acquire_credentials_step input s r s1 Hp H1) as [E Hs].
    destruct s1 as [l1 d1]. simpl in *. subst d1. apply Hslots; [by apply slots_step_change|apply (ks_other _ _ _ _ Hs)..].
  - injection Hx as <-. apply Hslots; [apply slots_step_change, release_step|done..].
  - apply LTx_bind_Ok in Hx as (r & s1 & H1 & [= <-]). revert H1. unfold renewBrowserLease. destruct (ttlMs <=? 0)%Z; [done|].
    intros (n & s2 & H2 & H3)%LTx_bind_Ok. apply LTx_bind_Ok in H3 as (u & s3 & [= <- <-] & [= <- <-]).
    eapply rewrite_step_update in H2; [apply H2|]. intros row. unfold owned_by. rewrite !andb_true_iff, Z.leb_le, !bool_decide_eq_true.
    intros [[[<- _] Hh] He]. split_and!; [by split_and!|done|done].
  - apply LTx_bind_Ok in Hx as (r & s1 & H1 & [= <-]). eapply rewrite_step_update in H1; [apply H1|].
    intros row _. split_and!; [by split_and!| |simpl; lia]. intros _. unfold held. simpl. destruct sw; discriminate.
  - apply LTx_bind_Ok in Hx as (r & s1 & H1 & [= <-]). revert H1. unfold claimAbortBrowserLeaseForRun.
    intros (rows & s2 & [= <- <-] & H2)%LTx_bind_Ok. revert H2. destruct (filter _ _) as [|row [|row' rows]].
    1, 3: intros [= <- <-]; destruct s; by apply Hself.
    intros (now & s3 & [= <- <-] & H3)%LTx_bind_Ok. revert H3. destruct (_ || _); [intros [= <- <-]; destruct s; by apply Hself|].
    case_decide; [intros [= <- <-]; destruct s; by apply Hself|].
    intros (n & s4 & H4 & [= <- <-])%LTx_bind_Ok. eapply rewrite_step_update in H4; [apply H4|]. intros r _. split_and!; [by split_and!|done|simpl; lia].
  - apply LTx_bind_Ok in Hx as (n & s1 & H1 & H2). eapply (rewrite_step_update _ _ _ _ _ true None runId) in H1; [|intros row _; split_and!; [by split_and!|done|simpl; lia]].
    case_decide; [|done]. injection H2 as <-. apply H1.
  - apply LTx_bind_Ok in Hx as (n & s1 & H1 & H2). eapply (rewrite_step_update _ _ _ _ _ false None runId) in H1; [|intros row _; split_and!; [by split_and!|done|simpl; lia]].
    destruct n; [done|]. injection H2 as <-. apply H1.
  - apply LTx_bind_Ok in Hx as (r & s1 & H1 & [= <-]). revert H1. unfold sweep_leases. intros (rows & s2 & [= <- <-] & H2)%LTx_bind_Ok.
    apply LTx_bind_Ok in H2 as (n & s3 & H3 & H4). apply LTx_bind_Ok in H4 as (u & s5 & [= <- <-] & [= <- <-]).
    eapply (rewrite_step_update _ _ _ _ _ false None runId) in H3; [|intros row _; split_and!; [by split_and!|done|simpl; lia]].
    destruct H3 as (E1 & [Hc1 Hc2 Hc3 Hc4] & E2 & Hw). split_and!; [done| |done..]. rewrite E1. simpl.
    split; simpl; [done| | |].
    + intros k row Hk Hlive Hr. rewrite lookup_fmap, (Hc2 k row Hk Hlive Hr). simpl. by rewrite expire_slot_live.
    + intros k row. rewrite lookup_fmap. intros (row0 & Hk & ->)%fmap_Some Ha Hr. assert (E := expire_slot_active _ _ Ha).
      rewrite E in Ha, Hr |- *. by apply Hc3.
    + intros Hwp ref site i row. simpl. rewrite lookup_fmap. intros (row0 & Hk & _)%fmap_Some. by eapply (Hc4 Hwp).
  - destruct rows as [|row rows]; [injection Hx as <-; destruct s; by apply Hself|]. revert Hx. simpl. destruct (_ <=? 0)%Z; [done|].
    intros [= <-]. by apply Hself.
  - destruct ok; injection Hx as <-; by apply Hself.
Qed.

(** *** One session at a time *)

Definition sessions_ok (s : Leases * Db) : Prop :=
  ∀ site identity, length (filter (λ row, live_session (db_now s.2) site identity row = true) (browser_leases s.1)) ≤ 1.

Lemma filter_map_le {A B} (P : A → bool) (Q : B → bool) (g : A → B) l : (∀ x, Q (g x) = true → P x = true) →
  length (filter (λ y, Q y = true) (map g l)) ≤ length (filter (λ x, P x = true) l).
Proof.
  intros H. induction l as [|x l IH]; [done|]. cbn [map]. rewrite !filter_cons. specialize (H x).
  destruct (decide (Q (g x) = true)), (decide (P x = true)); simpl; try lia; tauto.
Qed.

Lemma rewrites_sessions now r rows rows' site identity : rewrites now false r rows rows' →
  length (filter (λ row, live_session now site identity row = true) rows') ≤
  length (filter (λ row, live_session now site identity row = true) rows).
Proof.
  intros (g & -> & Hg). apply filter_map_le. intros row. destruct (Hg row) as ((_ & E1 & E2 & _) & Hl & _). unfold live_session, for_session.
  rewrite !andb_true_iff, !Z.leb_le, E1, E2. intros [[H1 H2] H3]. destruct (Hl eq_refl H2 H3). done.
Qed.

Lemma marked_rewrites now r session rows : rewrites now false r rows (map (marked now session) rows).
Proof.
  eexists. split; [done|]. intros row. unfold marked. destruct (session row && lapsed now row); [|apply row_change_refl].
  split_and!; [by split_and!|done|simpl; lia].
Qed.

Lemma filter_length_mono {A} (P Q : A → bool) l : (∀ x, P x = true → Q x = true) →
  length (filter (λ x, P x = true) l) ≤ length (filter (λ x, Q x = true) l).
Proof. intros H. rewrite <-(map_id l) at 1. by apply filter_map_le. Qed.

Lemma filter_filter_le {A} (P Q : A → Prop) `{∀ x, Decision (P x), ∀ x, Decision (Q x)} (l : list A) :
  length (filter P (filter Q l)) ≤ length (filter P l).
Proof.
  induction l as [|x l IH]; [done|]. rewrite !filter_cons. destruct (decide (Q x)); [rewrite filter_cons|]; destruct (decide (P x)); simpl; lia.
Qed.

(** A live row of the session refuses everybody. *)
Lemma acquire_refused_live runId workerId p l d row id s' : row ∈ browser_leases l →
  live_session (db_now d) (pl_siteProfileId p) (pl_browserIdentityId p) row = true →
  acquireBrowserLease uuid options runId workerId (Some p) (l, d) ≠ Ok (granted id, s').
Proof.
  intros Hin Hl Ha. apply acquire_browser_cases in Ha as (_ & p' & rows & new & [= <-] & -> & Hnil & _).
  assert (Hm : marked (db_now d) (for_session (pl_siteProfileId p) (pl_browserIdentityId p)) row = row).
  { unfold marked, lapsed. unfold live_session in Hl. rewrite !andb_true_iff, Z.leb_le in Hl. destruct Hl as [[_ _] Hle].
    assert (E : (br_expires_at row <? db_now d)%Z = false) by (apply Z.ltb_ge; lia). by rewrite E, !andb_false_r. }
  assert (Hf : row ∈ filter (λ row, live_session (db_now d) (pl_siteProfileId p) (pl_browserIdentityId p) row = true)
    (map (marked (db_now d) (for_session (pl_siteProfileId p) (pl_browserIdentityId p))) (browser_leases l))).
  { apply list_elem_of_filter. split; [done|]. apply list_elem_of_fmap. by exists row. }
  rewrite Hnil in Hf. by apply elem_of_nil in Hf.
Qed.

Lemma sessions_step op s s' : op_revives op = false → policies_ok (l_catalog s.1) → exec op s = Ok (tt, s') → sessions_ok s →
  sessions_ok s' ∧ l_catalog s'.1 = l_catalog s.1.
Proof.
  intros Hr Hp Hx Hok. destruct (op_rewrites op) eqn:Hop.
  - destruct (exec_rewrites op s s' "" Hop Hp Hx) as (E1 & [E2 _ _ _] & _ & Hw). split; [|done]. intros site identity. rewrite E1. rewrite Hr in Hw.
    etrans; [by eapply rewrites_sessions|apply Hok].
  - destruct op as [| |runId workerId plan| | |leaseId workerId| | | | | |]; try done; cbn [exec] in Hx.
    + apply LTx_bind_Ok in Hx as (r & s1 & H1 & [= <-]). destruct s as [l d]. apply acquire_browser_cases in H1 as [E H1]. destruct s1 as [l1 d1].
      simpl in E. subst d1. cbn [fst] in H1. destruct r as [id|res].
      * destruct H1 as (p & rows & new & -> & -> & Hnil & _ & -> & _ & _ & _ & _ & Hnew & _). split; [|done]. intros site identity. cbn [fst snd browser_leases draw_id set_browser_leases].
        rewrite filter_app, length_app. destruct (live_session (db_now d) site identity new) eqn:En.
        -- assert (E : pl_siteProfileId p = site ∧ pl_browserIdentityId p = identity).
           { unfold live_session, for_session in *. rewrite !andb_true_iff, !bool_decide_eq_true in *. naive_solver. }
           destruct E as [<- <-]. rewrite Hnil. rewrite filter_cons_True by done. simpl. lia.
        -- rewrite filter_cons_False by (by rewrite En). simpl. rewrite Nat.add_0_r.
           etrans; [apply (rewrites_sessions _ None), marked_rewrites|apply Hok].
      * destruct H1 as [->|(p & -> & ->)]; [by split|]. split; [|done]. intros site identity. simpl.
        etrans; [apply (rewrites_sessions _ None), marked_rewrites|apply Hok].
    + injection Hx as <-. split; [|done]. intros site identity. simpl. etrans; [|apply (Hok site identity)]. apply filter_filter_le.
Qed.

(** C8. One session of a browser identity is open at a time.  After any
    interleaving of the operations on leases, by any workers and with time
    passing, but without handing back the drain claim of an abort, at most one
    lease of a site and identity is held and has not lapsed; and as long as there
    is one, no run is granted another. *)
Theorem browser_session_exclusive s0 s : browser_leases s0.1 = [] → policies_ok (l_catalog s0.1) →
  rtc (lease_step (λ op, op_revives op = false)) s0 s →
  (∀ site identity, length (filter (λ row, live_session (db_now s.2) site identity row = true) (browser_leases s.1)) ≤ 1) ∧
  ∀ row p runId workerId id s', row ∈ browser_leases s.1 →
    live_session (db_now s.2) (pl_siteProfileId p) (pl_browserIdentityId p) row = true →
    acquireBrowserLease uuid options runId workerId (Some p) s ≠ Ok (granted id, s').
Proof.
  intros H0 Hp Hr. assert (Hok : sessions_ok s).
  { assert (Hs0 : sessions_ok s0) by (intros site identity; rewrite H0; simpl; lia). clear H0.
    induction Hr as [s|s1 s2 s3 Hst _ IH]; [done|]. assert (H2 : sessions_ok s2 ∧ l_catalog s2.1 = l_catalog s1.1).
    { destruct Hst as [op s s' Ha Hx|l d d' sites Ht]; [by eapply sessions_step|]. split; [|done]. intros site identity. etrans; [|apply Hs0].
      apply filter_length_mono. intros row. unfold live_session. simpl. rewrite !andb_true_iff, !Z.leb_le. intros [H1 H2]. split; [done|lia]. }
    destruct H2 as [H2 E]. apply IH; [by rewrite E|done]. }
  split; [exact Hok|]. intros row p runId workerId id s' Hin Hl. destruct s as [l d]. by eapply acquire_refused_live.
Qed.

(** *** Bounds of the slots *)

Lemma exec_slots op s s' runId : policies_ok (l_catalog s.1) → exec op s = Ok (tt, s') →
  slots_change (db_now s.2) (default runId (op_run op)) s.1 s'.1.
Proof.
  intros Hp Hx. destruct (op_rewrites op) eqn:Hop; [by eapply exec_rewrites|].
  destruct op as [| |runId' workerId plan| | |leaseId workerId| | | | | |]; try done; cbn [exec] in Hx.
  - apply LTx_bind_Ok in Hx as (r & s1 & H1 & [= <-]). destruct s as [l d]. apply acquire_browser_cases in H1 as [_ H1].
    destruct r; [destruct H1 as (p & rows & new & _ & _ & _ & _ & E & _)|destruct H1 as [E|(p & _ & E)]]; rewrite E; by apply slots_change_same.
  - injection Hx as <-. by apply slots_change_same.
Qed.

(** The run has a slot of the credential now. *)
Definition uses (s : Leases * Db) (ref site runId : string) : Prop :=
  ∃ n row, credential_leases s.1 !! (ref, site, n) = Some row ∧ live_slot (db_now s.2) row ∧ kr_run_id row = runId.

Lemma pigeonhole (f : nat → option string) (m : nat) (l : list string) : NoDup l → (∀ x, x ∈ l → ∃ n, n < m ∧ f n = Some x) → length l ≤ m.
Proof.
  intros Hn Hl. assert (Hs : l ⊆+ omap f (seq 0 m)).
  { apply NoDup_submseteq; [done|]. intros x Hx. destruct (Hl x Hx) as (n & Hlt & E). apply list_elem_of_omap. exists n.
    split; [|done]. apply elem_of_seq. lia. }
  assert (Hle : ∀ k : list nat, length (omap f k) ≤ length k).
  { intros k. induction k as [|n k IH]; [done|].
    change (omap f (n :: k)) with (match f n with Some y => y :: omap f k | None => omap f k end). destruct (f n); cbn [length]; lia. }
  apply submseteq_length in Hs. specialize (Hle (seq 0 m)). rewrite length_seq in Hle. lia.
Qed.

(** C34. A credential is used by at most as many runs at a time as its policy
    allows, one when it has none: after any interleaving of the operations on
    leases, by any workers and with time passing.  And a slot is not lost to
    others: whatever operation is done, except by the run itself, the row of a
    run that uses a slot stays as it is. *)
Theorem credential_slots_bounded s0 s : credential_leases s0.1 = ∅ → policies_ok (l_catalog s0.1) →
  rtc (lease_step (λ _, True)) s0 s →
  (∀ ref site runIds, NoDup runIds → (∀ runId, runId ∈ runIds → uses s ref site runId) →
    length runIds ≤ max_slots (l_catalog s0.1) ref site) ∧
  ∀ op s' k row, exec op s = Ok (tt, s') → credential_leases s.1 !! k = Some row → live_slot (db_now s.2) row →
    op_run op ≠ Some (kr_run_id row) → credential_leases s'.1 !! k = Some row.
Proof.
  intros H0 Hp Hr. assert (Hw : within_policy s.1 ∧ l_catalog s.1 = l_catalog s0.1).
  { assert (Hs0 : within_policy s0.1) by (intros ref site n row; by rewrite H0, lookup_empty). clear H0.
    induction Hr as [s|s1 s2 s3 Hst _ IH]; [done|]. assert (H2 : within_policy s2.1 ∧ l_catalog s2.1 = l_catalog s1.1).
    { destruct Hst as [op s s' _ Hx|l d d' sites _]; [|done]. destruct (exec_slots op s s' "" Hp Hx) as [E _ _ Hk]. auto. }
    destruct H2 as [H2 E]. rewrite <-E. apply IH; [by rewrite E|done]. }
  destruct Hw as [Hw E]. split.
  - intros ref site runIds Hn Hu. rewrite <-E.
    apply (pigeonhole (λ n, kr_run_id <$> credential_leases s.1 !! (ref, site, n))); [done|].
    intros runId Hin. destruct (Hu runId Hin) as (n & row & Hk & _ & Hrun). exists n. split; [by eapply Hw|]. rewrite Hk. simpl. by rewrite Hrun.
  - intros op s' k row Hx Hk Hl Hrun. set (r := kr_run_id row +:+ "x").
    assert (Hne : kr_run_id row ≠ default r (op_run op)).
    { destruct (op_run op) as [r'|]; simpl; [congruence|]. unfold r. intros Hbad. apply (f_equal String.length) in Hbad.
      revert Hbad. rewrite str_length_app. simpl. lia. }
    destruct (exec_slots op s s' r) as [_ Hlive _ _]; [by rewrite E|done|]. by apply Hlive.
Qed.
End Steps.

(** ** Leases on a concrete tenant

    One site with one browser identity, one worker, and a scenario that names one
    credential; runs of it in each situation the theorems about leases speak of.
    The last theorem shows that the restriction of [browser_session_exclusive] is
    needed: handing back the drain claim of an abort can open a second session. *)

Module LeaseSample.

Definition ir : json :=
  JObj [("target", JObj [("site_profile_id", JStr "s"); ("browser_identity_id", JStr "i"); ("network_policy_id", JStr "n")]);
        ("assets", JArr [JStr "cred"]); ("start", JStr "a"); ("nodes", JObj [("a", JObj [("terminal", JStr "success")])])].
Definition columns : RunColumns := mkRunColumns "c1" "v" None JNull (Some run_running).
Definition catalog : Catalog :=
  mkCatalog {[ ("cred", "s") := mkPolicyRow 1 "active" ]} {[ "i" := mkIdentityRow (Some "s") 1 ]} {[ "n" := ["example.com"] ]}
    {[ "v" := (ir, None) ]} {[ "r1" := columns; "r2" := columns ]}.
Definition leases : Leases :=
  mkLeases catalog ∅ [] {[ "w" := mkWorkerRow "browser" "active" 0 0 c_closed None ]}
    {[ "s" := mkSiteRow "green" true None (Some (JObj [("flags", JObj [])])) (mkSite [] c_closed None []) ]} 0.
Definition run_row (s : RunState) : RunRow := mkRunRow s None (Some "w") 0 0 None None None None None.
Definition db (r1 r2 : RunState) (now : Z) : Db :=
  mkDb now 0 {[ "r1" := run_row r1; "r2" := run_row r2 ]} ∅ [] [] [] [] [] [].
Definition worker_options : PgRuntimeWorkerOptions := mkWorkerOptions (Some "w") None None None None None None None.
Definition plan : BrowserLeasePlan := mkPlan "s" "i" (Some "n") None None None None.
Definition uuid (n : nat) : string := "lease" +:+ pretty n.
Definition json_parse (_ : string) : option json := None.
Definition credentials (runId : string) : CredentialLeaseAcquireInput := mkCredentialInput runId "v" "s" None.
Definition start : Leases * Db := (leases, db run_queued run_queued 1000).

(** Operations in order; one that throws is rolled back. *)
Definition run_op (op : LeaseOp) (s : Leases * Db) : Leases * Db :=
  match exec json_parse uuid worker_options op s with Ok (_, s') => s' | Err _ => s end.
Definition run_ops (ops : list LeaseOp) (s : Leases * Db) : Leases * Db := foldl (λ s op, run_op op s) s ops.

Lemma run_ops_steps (allowed : LeaseOp → Prop) ops : Forall allowed ops → ∀ s, rtc (lease_step json_parse uuid worker_options allowed) s (run_ops ops s).
Proof.
  intros Ha. induction Ha as [|op ops H1 _ IH]; intros s; [done|]. etrans; [|apply IH]. unfold run_op.
  destruct (exec json_parse uuid worker_options op s) as [[[] s']|] eqn:E; [|done]. apply rtc_once. by econstructor.
Qed.

Lemma policies : policies_ok catalog.
Proof. intros k p. unfold catalog. simpl. intros [_ <-]%lookup_singleton_Some. done. Qed.

Definition with_session : Leases * Db := run_ops [op_browser "r1" "w" (Some plan)] start.
Definition with_credentials : Leases * Db := run_ops [op_credentials (credentials "r1")] start.
End LeaseSample.

Lemma credential_acquisition_spec_witness :
  match acquireCredentialLeasesForRun LeaseSample.json_parse (LeaseSample.credentials "r1") LeaseSample.start with
  | Ok (granted _, (l, _)) => holds l "r1" "cred" "s" (1000 + DEFAULT_CREDENTIAL_LEASE_TTL_MS)
  | _ => False
  end.
Proof.
  destruct (credential_acquisition_spec LeaseSample.json_parse (LeaseSample.credentials "r1") LeaseSample.leases LeaseSample.start.2
    LeaseSample.ir None ["cred"]) as (l & r & E & _ & Hr); [done|apply LeaseSample.policies|reflexivity|reflexivity|].
  assert (Hg : match acquireCredentialLeasesForRun LeaseSample.json_parse (LeaseSample.credentials "r1") LeaseSample.start with
    | Ok (granted _, _) => True | _ => False end) by (vm_compute; exact I).
  unfold LeaseSample.start in *. simpl in E. rewrite E in Hg |- *. destruct r as [u|]; [|done]. apply Hr. by left.
Defined.

Lemma browser_session_exclusive_witness :
  length (browser_leases LeaseSample.with_session.1) = 1 ∧
  match acquireBrowserLease LeaseSample.uuid LeaseSample.worker_options "r2" "w" (Some LeaseSample.plan) LeaseSample.with_session with
  | Ok (granted _, _) => False
  | _ => True
  end.
Proof.
  split; [reflexivity|].
  destruct (browser_session_exclusive LeaseSample.json_parse LeaseSample.uuid LeaseSample.worker_options LeaseSample.start LeaseSample.with_session)
    as [_ H]; [done|apply LeaseSample.policies|apply LeaseSample.run_ops_steps; by repeat constructor|].
  destruct (acquireBrowserLease _ _ "r2" "w" _ _) as [[[id|] s']|] eqn:E; [|exact I..].
  eapply (H (hd (mkLeaseRow "" "" "" None "" iso_context bl_expired clear_all None 0 0) (browser_leases LeaseSample.with_session.1)) LeaseSample.plan "r2" "w" id s');
    [by left|reflexivity|exact E].
Defined.

Lemma credential_slots_bounded_witness :
  uses LeaseSample.with_credentials "cred" "s" "r1" ∧ length ["r1"] ≤ max_slots LeaseSample.catalog "cred" "s".
Proof.
  assert (Hu : uses LeaseSample.with_credentials "cred" "s" "r1").
  { exists 0. eexists. split; [reflexivity|]. split; [|reflexivity]. split; [reflexivity|]. vm_compute. discriminate. }
  split; [exact Hu|].
  destruct (credential_slots_bounded LeaseSample.json_parse LeaseSample.uuid LeaseSample.worker_options LeaseSample.start LeaseSample.with_credentials)
    as [H _]; [done|apply LeaseSample.policies|apply LeaseSample.run_ops_steps; by repeat constructor|].
  apply (H "cred" "s" ["r1"]); [apply NoDup_singleton|]. intros runId ->%list_elem_of_singleton. exact Hu.
Defined.

(** A drain claim that is handed back revives its lease without looking for
    another one: while the lease of the first run is being drained the second run
    is granted a session of the same identity, and then both leases are active. *)
Theorem handed_back_claim_doubles_session :
  let s := LeaseSample.run_ops [op_browser "r1" "w" (Some LeaseSample.plan); op_claim_abort "r1" "w" 30000;
             op_browser "r2" "w" (Some LeaseSample.plan); op_unclaim_abort "r1" "lease0" "w"] LeaseSample.start in
  rtc (lease_step LeaseSample.json_parse LeaseSample.uuid LeaseSample.worker_options (λ _, True)) LeaseSample.start s ∧
  map br_run_id (filter (λ row, live_session (db_now s.2) "s" "i" row = true) (browser_leases s.1)) = [Some "r1"; Some "r2"].
Proof. split; [apply LeaseSample.run_ops_steps; by repeat constructor|reflexivity]. Qed.
