(* ===== verification/WorkerCircuit.v ===== *)
(** * The circuit of a worker, against its specification

    The columns of [workers] that record failed and successful setups refine a
    small automaton ([Health]); the theorem says, in terms of the history of a
    worker, when its leases are refused. *)

From stdpp Require Import base strings list gmap.
From Stdlib Require Import ZArith Lia.
From S2P Require Import Prelude SiteCircuit Leases.

(** What happens to a worker: a setup fails, a setup succeeds, one of its leases
    lapses and the sweeper isolates it. *)
Inductive WorkerEvent := we_failed (at_ : Z) | we_succeeded | we_lapsed (at_ : Z).

Section Circuit.
Context (threshold openMs closeThreshold : Z).

Definition circuit_step (e : WorkerEvent) (w : WorkerRow) : WorkerRow :=
  match e with
  | we_failed t => init_failed_row threshold openMs t w
  | we_succeeded => init_succeeded_row closeThreshold w
  | we_lapsed t => isolated_row openMs t w
  end.

(** The specification. *)
Inductive Health := healthy (failures : Z) | isolated (until : Z) | recovering (successes : Z).

Definition health_step (e : WorkerEvent) (h : Health) : Health :=
  match e, h with
  | we_failed t, healthy n => if (threshold <=? n + 1)%Z then isolated (t + openMs) else healthy (n + 1)
  | we_failed t, _ => isolated (t + openMs)
  | we_succeeded, healthy _ => healthy 0
  | we_succeeded, isolated _ => if (closeThreshold <=? 1)%Z then healthy 0 else recovering 1
  | we_succeeded, recovering k => if (closeThreshold <=? k + 1)%Z then healthy 0 else recovering (k + 1)
  | we_lapsed t, isolated u => isolated (Z.max u (t + openMs))
  | we_lapsed t, _ => isolated (t + openMs)
  end.

(** The columns of a browser worker in each state of health. *)
Record represents (h : Health) (w : WorkerRow) : Prop := {
  rp_worker : wk_kind w = "browser" ∧ wk_status w = "active";
  rp_until : wk_circuit_until w = match h with isolated u => Some u | _ => None end;
  rp_state : match h with
             | healthy n => wk_circuit_state w = c_closed ∧ wk_consecutive_init_failures w = n ∧ (0 <= n < threshold)%Z ∧
                            wk_half_open_successes w = 0%Z
             | isolated _ => wk_circuit_state w = c_open ∧ wk_half_open_successes w = 0%Z
             | recovering k => wk_circuit_state w = c_half_open ∧ wk_half_open_successes w = k ∧ (1 <= k < closeThreshold)%Z
             end
}.

Lemma circuit_refines e h w : (1 <= threshold)%Z → represents h w → represents (health_step e h) (circuit_step e w).
Proof.
  intros Ht [[Hk Hs] Hu Hst]. destruct w as [kind status failures half state until]. simpl in *. subst.
  destruct e as [t| |t]; simpl.
  - unfold init_failed_row. simpl. destruct h as [n|u|k]; destruct Hst as (-> & Hst); simpl.
    + destruct Hst as (-> & Hn & ->). destruct (threshold <=? n + 1)%Z eqn:E; (split; [done|done|]); simpl; [done|].
      apply Z.leb_gt in E. split_and!; [done..|lia|lia|done].
    + by split.
    + by split.
  - unfold init_succeeded_row. simpl. destruct h as [n|u|k]; destruct Hst as (-> & Hst); simpl.
    + destruct Hst as (-> & Hn & ->). rewrite orb_false_r. destruct (0 <? n)%Z eqn:E; (split; [done|done|]); simpl; [split_and!; done || lia|].
      apply Z.ltb_ge in E. split_and!; done || lia.
    + subst half. rewrite orb_true_r. destruct (closeThreshold <=? 1)%Z eqn:E; simpl.
      * change (0 + 1)%Z with 1%Z. rewrite E. simpl. split; [done|done|]. simpl. split_and!; done || lia.
      * change (0 + 1)%Z with 1%Z. rewrite E. simpl. split; [done|done|]. simpl. apply Z.leb_gt in E. split_and!; done || lia.
    + destruct Hst as (-> & Hk). rewrite orb_true_r. destruct (closeThreshold <=? k + 1)%Z eqn:E; simpl.
      * split; [done|done|]. simpl. split_and!; done || lia.
      * split; [done|done|]. simpl. apply Z.leb_gt in E. split_and!; done || lia.
  - unfold isolated_row. simpl. destruct h as [n|u|k]; by split.
Qed.

Lemma represents_blocked now h w : represents h w →
  circuit_blocked now (wk_circuit_state w) (wk_circuit_until w) = match h with isolated u => (now <? u)%Z | _ => false end.
Proof.
  intros [_ Hu Hst]. unfold circuit_blocked. rewrite Hu. destruct h as [n|u|k]; destruct Hst as [-> _]; done.
Qed.

(** ** Histories, newest event first *)

Definition fresh_worker : WorkerRow := mkWorkerRow "browser" "active" 0 0 c_closed None.
Definition after (history : list WorkerEvent) : WorkerRow := foldr circuit_step fresh_worker history.
Definition health (history : list WorkerEvent) : Health := foldr health_step (healthy 0) history.

Lemma health_represents history : (1 <= threshold)%Z → represents (health history) (after history).
Proof.
  intros Ht. induction history as [|e history IH]; simpl; [|by apply circuit_refines]. split; [done|done|]. simpl. split_and!; done || lia.
Qed.

(** The failures, and the successes, since anything else happened. *)
Fixpoint recent_failures (history : list WorkerEvent) : Z :=
  match history with we_failed _ :: rest => 1 + recent_failures rest | _ => 0 end.
Fixpoint recent_successes (history : list WorkerEvent) : Z :=
  match history with we_succeeded :: rest => 1 + recent_successes rest | _ => 0 end.

Lemma recent_failures_nonneg history : (0 <= recent_failures history)%Z.
Proof. induction history as [|[] history IH]; simpl; lia. Qed.

Lemma healthy_failures history n : health history = healthy n → n = recent_failures history.
Proof.
  revert n. induction history as [|e history IH]; intros n; [by intros [= <-]|]. cbn [health foldr]. fold (health history).
  destruct e as [t| |t]; destruct (health history) as [m|u|k] eqn:E; simpl; repeat case_match; try done; intros [= <-]; try done.
  rewrite (IH m eq_refl). lia.
Qed.

Lemma recovering_successes history k : health history = recovering k → (recent_successes history <= k < closeThreshold)%Z.
Proof.
  revert k. induction history as [|e history IH]; intros k; [done|]. cbn [health foldr]. fold (health history).
  destruct e as [t| |t]; destruct (health history) as [m|u|j] eqn:E; simpl; repeat case_match; try done; intros [= <-].
  - destruct history as [|[] history]; simpl; try lia. exfalso. revert E. cbn [health foldr]. fold (health history).
    destruct (health history); simpl; repeat case_match; done.
  - assert (Hj := IH j eq_refl). lia.
Qed.

Lemma isolated_head history u : health history = isolated u →
  match history with
  | we_failed t :: older => u = (t + openMs)%Z ∧ (threshold <= recent_failures history ∨ ∀ n, health older ≠ healthy n)%Z
  | we_lapsed t :: _ => (t + openMs <= u)%Z
  | _ => False
  end.
Proof.
  destruct history as [|e history]; [done|]. cbn [health foldr]. fold (health history).
  destruct e as [t| |t]; destruct (health history) as [m|u'|j] eqn:E; simpl; repeat case_match; try done; intros [= <-]; try lia.
  - split; [done|]. left. apply healthy_failures in E. subst. simpl in *. lia.
  - split; [done|]. by right.
  - split; [done|]. by right.
Qed.

(** The circuit of a worker.  Whatever the history of a browser worker, from
    its registration: after the configured number of failed setups in a row its
    leases are refused, exactly until the cool-down that started with the last
    of them is over; after the configured number of successful setups in a row
    the circuit is closed; and leases are refused only when the last thing that
    happened was a lapsed lease, or a failed setup less than a cool-down ago
    which either completed the number of failures or hit a circuit that was not
    closed. *)
Theorem worker_circuit_spec history : (1 <= threshold)%Z → (1 <= closeThreshold)%Z →
  let blocked now := circuit_blocked now (wk_circuit_state (after history)) (wk_circuit_until (after history)) in
  ((closeThreshold <= recent_successes history)%Z → wk_circuit_state (after history) = c_closed) ∧
  (∀ t older, history = we_failed t :: older → (threshold <= recent_failures history)%Z → ∀ now, blocked now = (now <? t + openMs)%Z) ∧
  ∀ now, blocked now = true → ∃ t older, history = we_lapsed t :: older ∨
    history = we_failed t :: older ∧ (now < t + openMs)%Z ∧
    ((threshold <= recent_failures history)%Z ∨ wk_circuit_state (after older) ≠ c_closed).
Proof.
  intros Ht Hc blocked. assert (Hrep := health_represents history Ht).
  assert (Hb : ∀ now, blocked now = match health history with isolated u => (now <? u)%Z | _ => false end)
    by (intros now; by apply represents_blocked).
  split_and!.
  - intros Hs. destruct (health history) as [n|u|k] eqn:E.
    + by destruct Hrep as [_ _ [-> _]].
    + apply isolated_head in E. destruct history as [|[] history]; simpl in Hs; lia.
    + apply recovering_successes in E. lia.
  - intros t older -> Hf now. rewrite Hb. cbn [health foldr health_step]. fold (health older).
    destruct (health older) as [n|u|k] eqn:E; [|done..]. apply healthy_failures in E. subst. cbn [recent_failures] in Hf.
    destruct (threshold <=? recent_failures older + 1)%Z eqn:El; [done|]. apply Z.leb_gt in El. lia.
  - intros now. rewrite Hb. destruct (health history) as [n|u|k] eqn:E; [done| |done]. intros Hlt%Z.ltb_lt. apply isolated_head in E.
    destruct history as [|[t| |t] older]; [done| |done|by exists t, older; left]. destruct E as [-> Hor]. exists t, older. right.
    split_and!; [done|lia|]. destruct Hor as [Hf|Hn]; [by left|]. right. destruct (health_represents older Ht) as [_ _ Hst].
    destruct (health older) as [n|u|k]; [by destruct (Hn n)|by destruct Hst as [-> _]..].
Qed.
End Circuit.

Lemma worker_circuit_spec_witness :
  let w := after 2 1000 2 [we_failed 50; we_failed 20] in
  circuit_blocked 1049 (wk_circuit_state w) (wk_circuit_until w) = true ∧
  circuit_blocked 1050 (wk_circuit_state w) (wk_circuit_until w) = false.
Proof.
  destruct (worker_circuit_spec 2 1000 2 [we_failed 50; we_failed 20]) as (_ & H & _); [lia|lia|].
  specialize (H 50%Z [we_failed 20] eq_refl ltac:(simpl; lia)). split; [exact (H 1049%Z)|exact (H 1050%Z)].
Defined.
