(* ===== verification/WorkerRuns.v ===== *)
(** * Jobs of runs

    Models [app/src/worker/runtime-worker-run-drive.ts] (the jobs run_claim and
    run_abort), the run-level parts of [runtime-worker-run-support.ts] and
    [runtime-worker-browser-lease.ts], the lease sweeper of [runtime-worker.ts],
    [pg-browser-lease-plan-resolver.ts] and
    [executor/site-page-state-config.ts].  A job is a program of type [L]: it acts
    on the world of the driver and on the leases, in transactions on both; what
    other workers do to the leases between its transactions, the heartbeat
    included, is the list [lw_env].  The browser (its sessions, the executor, the
    drainer) is the host.  Logs and spans are left out. *)

From stdpp Require Import base strings list gmap pretty.
From Stdlib Require Import ZArith QArith_base.
From S2P Require Import Prelude StateMachine JsValue StaticValidation RuntimeStore FlowControl JsText HumanTask ExtractMerge Interpreter Database Settlement Driver SiteCircuit Sweepers Leases.

(** ** The world *)

Record LWorld (H : Type) := mkLWorld { lw_world : World H; lw_leases : Leases; lw_env : list (Leases → Leases) }.
Arguments mkLWorld {H} _ _ _.
Arguments lw_world {H} _.
Arguments lw_leases {H} _.
Arguments lw_env {H} _.

Definition L (H A : Type) : Type := LWorld H → LWorld H * result Exn A.
#[export] Instance L_ret {H} : MRet (L H) := λ A a w, (w, Ok a).
#[export] Instance L_bind {H} : MBind (L H) := λ A B f m w,
  match m w with (w', Ok a) => f a w' | (w', Err e) => (w', Err e) end.

Section Programs.
Context {H : Type}.

Definition l_throw {A} (e : Exn) : L H A := λ w, (w, Err e).
Definition l_try {A} (m : L H A) (handler : Exn → L H A) : L H A := λ w,
  match m w with (w', Ok a) => (w', Ok a) | (w', Err e) => handler e w' end.
(** [try { m } finally { last }]: an exception of [last] wins. *)
Definition l_finally {A} (m : L H A) (last : L H ()) : L H A := λ w,
  match m w with
  | (w1, r) => match last w1 with (w2, Ok _) => (w2, r) | (w2, Err e) => (w2, Err e) end
  end.
(** [m().catch(log)]. *)
Definition l_ignore (m : L H ()) : L H () := l_try m (λ _, mret tt).
Definition in_world {A} (m : D H A) : L H A := λ w,
  let '(w', r) := m (lw_world w) in (mkLWorld w' (lw_leases w) (lw_env w), r).
Definition port {A} (f : H → H * result string A) : L H A := in_world (on_host f).

(** A transaction on the leases and the other tables. *)
Definition leaseTx {A} (body : LTx A) : L H A := λ w,
  let l := match lw_env w with [] => lw_leases w | f :: _ => f (lw_leases w) end in
  let env := tail (lw_env w) in
  let tx : Tx (A * Leases) := λ d, match body (l, d) with Ok (a, (l', d')) => Ok ((a, l'), d') | Err e => Err e end in
  match withTenantTx tx (lw_world w) with
  | (w', Ok (a, l')) => (mkLWorld w' l' env, Ok a)
  | (w', Err e) => (mkLWorld w' l env, Err e)
  end.

Definition require (value : option string) (label : string) : L H string := λ w,
  match requireString value label (w_db (lw_world w)) with
  | Ok (s, _) => (w, Ok s)
  | Err e => (w, Err (X_db e))
  end.

Lemma L_bind_Ok {A B} (m : L H A) (f : A → L H B) w w' a : m w = (w', Ok a) → (m ≫= f) w = f a w'.
Proof. unfold mbind, L_bind. by intros ->. Qed.
Lemma l_try_Ok {A} (m : L H A) handler w w' a : m w = (w', Ok a) → l_try m handler w = (w', Ok a).
Proof. unfold l_try. by intros ->. Qed.
End Programs.

(** ** Reading a run *)

(** The run is in the expected state, or what the job answers. *)
Definition loadExpectedRun (runId : string) (expected : RunState) : LTx (Acquired RunColumns) :=
  row ← on_db (select (λ d, Database.runs d !! runId));
  columns ← l_select (λ l, run_columns (l_catalog l) !! runId);
  match row, columns with
  | Some row, Some columns =>
      if decide (r_status row = expected) then mret (granted columns)
      else if decide (expected = run_queued) then mret (refused (completed []))
      else mret (refused (failed "CONTROL_PLANE_INTERNAL_ERROR"))
  | _, _ => mret (refused (failed "RUN_NOT_FOUND"))
  end.

Record RunClaimDriveInputs := mkDriveInputs {
  di_scenarioVersionId : string;
  di_model : option string;
  di_correlationId : string;
  di_leaseId : string;
  di_siteProfileId : string;
  di_browserIdentityId : string;
  di_browserIdentityVersion : Z;
  di_networkPolicyId : string;
  di_networkAllowedDomains : list string;
  di_isolation : LeaseIsolation;
  di_cleanupPolicy : LeaseCleanupPolicy;
  di_params : option fields
}.

Section Jobs.
(** The parameters of the driver; [JSON.parse]; [Date.toISOString]; the identifiers
    [randomUUID] returns for leases. *)
Context {H B : Type} (date_parse : string → option Z) (url_origin : string → option (string * string))
  (regexp_ok : string → bool) (uuid lease_uuid : nat → string) (host_code : string → option string)
  (json_parse : string → option json) (iso : Z → string) (options : PgRuntimeWorkerOptions).

Definition normalizeRunParams (raw : json) : LTx (option fields) :=
  match raw with
  | JStr s => match json_parse s with
              | Some (JObj f) => mret (Some f)
              | Some _ => mret None
              | None => l_raise (E_error "JSON.parse")
              end
  | JObj f => mret (Some f)
  | _ => mret None
  end.

Definition loadRunDriveInputs (runId : string) (plan : BrowserLeasePlan) (leaseId correlationId : string) : LTx RunClaimDriveInputs :=
  match pl_networkPolicyId plan with
  | None => l_raise (E_error "RuntimeWorker: run-drive requires BrowserLeasePlan.networkPolicyId")
  | Some networkPolicyId =>
      row ← l_select (λ l, c ← run_columns (l_catalog l) !! runId; i ← browser_identities (l_catalog l) !! pl_browserIdentityId plan;
                           n ← network_policies (l_catalog l) !! networkPolicyId; Some (c, i, n));
      match row with
      | None => l_raise (E_error "RuntimeWorker: run-drive run/browser_identity/network_policy row not found in tenant scope")
      | Some (c, i, domains) =>
          params ← normalizeRunParams (rc_params c);
          mret (mkDriveInputs (rc_scenario_version_id c) (rc_model c) correlationId leaseId (pl_siteProfileId plan)
                  (pl_browserIdentityId plan) (id_version i) networkPolicyId domains (default iso_context (pl_isolation plan))
                  (default clear_all (pl_cleanupPolicy plan)) params)
      end
  end.

(** The production resolver: the target the scenario declares. *)
Definition pgBrowserLeasePlanResolver (runId : string) : LTx (option BrowserLeasePlan) :=
  target ← l_select (λ l, c ← run_columns (l_catalog l) !! runId; v ← scenario_versions (l_catalog l) !! rc_scenario_version_id c;
                          prop "target" (Some v.1));
  mret (match as_string (prop "site_profile_id" target), as_string (prop "browser_identity_id" target),
              as_string (prop "network_policy_id" target) with
        | Some site, Some identity, Some policy => Some (mkPlan site identity (Some policy) None None None None)
        | _, _, _ => None
        end).

(** ** Page states of a site *)

Definition PAGESTATE_FLAG_KEYS : list string :=
  ["no_next_page"; "login_required"; "blocked"; "not_found"; "no_review_message_visible"; "reviews_visible"].

Inductive FlagRule := fr_present (selector : string) | fr_absent (selector : string) | fr_min_count (selector : string) (n : jsnum).
Record SitePageStateConfig := mkSiteConfig { sg_authenticatedWhen : option string; sg_flags : list (string * FlagRule) }.

Definition selector_text (v : option json) : option string :=
  match as_string v with Some EmptyString | None => None | Some s => Some s end.

Definition parseRule (raw : json) : option FlagRule :=
  match raw with
  | JObj _ =>
      selector ← selector_text (prop "selector" (Some raw));
      kind ← as_string (prop "kind" (Some raw));
      if decide (kind = "present") then Some (fr_present selector) else
      if decide (kind = "absent") then Some (fr_absent selector) else
      if decide (kind = "min_count") then
        n ← as_number (prop "n" (Some raw));
        if num_is_integer n && num_leb (num_of_Z 0) n then Some (fr_min_count selector n) else None
      else None
  | _ => None
  end.

(** [None]: the parser throws PAGE_STATE_UNRESOLVED. *)
Definition parseSitePageStateConfig (raw : json) : option SitePageStateConfig :=
  match raw with
  | JObj fields =>
      auth ← match alookup "authenticatedWhen" fields with
             | None => Some None
             | Some (JObj _ as aw) => Some <$> selector_text (prop "selector" (Some aw))
             | Some _ => None
             end;
      match alookup "flags" fields with
      | Some (JObj flags) =>
          rules ← mapM (λ p, if string_in p.1 PAGESTATE_FLAG_KEYS then pair p.1 <$> parseRule p.2 else None) flags;
          Some (mkSiteConfig auth rules)
      | _ => None
      end
  | _ => None
  end.

Definition loadSitePageStateConfig (siteProfileId : string) : LTx SitePageStateConfig :=
  row ← l_select (λ l, site_profiles l !! siteProfileId);
  match row ≫= si_page_state_selectors with
  | None | Some JNull => l_raise (E_error "PAGE_STATE_UNRESOLVED")
  | Some raw => match parseSitePageStateConfig raw with Some c => mret c | None => l_raise (E_error "PAGE_STATE_UNRESOLVED") end
  end.

(** ** The ports of the browser *)

(** The executor and the resolver of page states, on the host. *)
Record Executor := mkExecutor {
  xr_execute : string → json → RunContext → H → H * result string StepResult;
  xr_verify : json → RunContext → H → H * result string VerifyResult;
  xr_resolvePageState : RunContext → H → H * result string PageState
}.

Record DrainInput := mkDrainInput {
  dn_runId : string;
  dn_leaseId : string;
  dn_workerId : string;
  dn_correlationId : string;
  dn_timeoutMs : Z
}.
Inductive DrainResult := dr_drained | dr_timeout | dr_transient_failed (retryAfterMs : option Z) | dr_terminal_failed.

(** [B] is a bound session.  Optional ports are options; the queue and the
    suspension port are the PostgreSQL ones. *)
Record WorkerPorts := mkPorts {
  wp_sessionProvider : option (RunClaimDriveInputs → H → H * result string B);
  wp_testProvider : bool;
  wp_allowTestProvider : bool;
  wp_release : B → H → H * result string ();
  wp_executorFactory : B → RunClaimDriveInputs → SitePageStateConfig → H → H * result string Executor;
  wp_suspensionPort : bool;
  wp_resumeTokenCodec : option (ResumeTokenPayload → H → H * result string json);
  wp_session : option (B → SessionPort H);
  wp_visualEvidenceRecorder : bool;
  wp_videoRecorder : option (B → VideoRecorder H);
  wp_mergedExtractSink : option (MergedExtractResult → H → H * result string string);
  wp_runtimeJobEnqueuer : bool;
  wp_now : H → Z;
  wp_drainer : option (DrainInput → H → H * result string DrainResult)
}.

Context (ports : WorkerPorts).

Definition gateBrowserSessionProvider : L H (option (RunClaimDriveInputs → H → H * result string B)) :=
  match wp_sessionProvider ports with
  | None => mret None
  | Some p =>
      if wp_testProvider ports && negb (wp_allowTestProvider ports)
      then l_throw (X_error "RuntimeWorker: test_fake browser session provider requires explicit allowTestBrowserSessionProvider opt-in")
      else mret (Some p)
  end.

Definition drive_deps (workerId : string) (bound : B) (x : Executor) : DriveDeps H :=
  mkDriveDeps _ (xr_execute x) (xr_verify x) (xr_resolvePageState x) workerId (wp_suspensionPort ports) (wp_resumeTokenCodec ports)
    ((λ f, f bound) <$> wp_session ports) (wp_visualEvidenceRecorder ports) ((λ f, f bound) <$> wp_videoRecorder ports)
    (wp_mergedExtractSink ports) (wp_runtimeJobEnqueuer ports) (wp_now ports).

Definition claimed_run (runId : string) (d : RunClaimDriveInputs) : ClaimedRun :=
  mkClaimedRun runId (di_correlationId d) (di_params d)
    (JObj [("leaseId", JStr (di_leaseId d)); ("siteProfileId", JStr (di_siteProfileId d));
           ("browserIdentityId", JStr (di_browserIdentityId d)); ("networkPolicyId", JStr (di_networkPolicyId d));
           ("allowedDomains", JArr (map JStr (di_networkAllowedDomains d)))]).

(** ** run_claim *)

Definition guard_lease : RunGuard := mkRunGuard (Some true) None None None None None None None None None None None.

(** Phase A: the transaction that claims the run. *)
Definition claim_tx (runId workerId : string) (jobCorrelationId : option string) (drives : bool)
  : LTx (JobResult * option RunClaimDriveInputs) :=
  run ← loadExpectedRun runId run_queued;
  match run with
  | refused r => mret (r, None)
  | granted columns =>
      let correlationId := default (rc_correlation_id columns) jobCorrelationId in
      plan ← pgBrowserLeasePlanResolver runId;
      lease ← acquireBrowserLease lease_uuid options runId workerId plan;
      match lease, plan with
      | refused r, _ => mret (r, None)
      | granted leaseId, plan =>
          prepared ← match drives, plan with
                     | true, Some p =>
                         drive ← loadRunDriveInputs runId p leaseId correlationId;
                         credentials ← acquireCredentialLeasesForRun json_parse
                           (mkCredentialInput runId (di_scenarioVersionId drive) (di_siteProfileId drive) None);
                         match credentials with
                         | refused r => _ ← deleteInitReservedBrowserLease leaseId workerId; mret (refused r)
                         | granted _ => mret (granted (Some drive))
                         end
                     | _, _ => mret (granted None)
                     end;
          match prepared with
          | refused r => mret (r, None)
          | granted drive =>
              t ← on_db (applyRunTransition (mkRunCtx runId run_queued ev_worker_claimed guard_lease correlationId (Some workerId)
                    (Some (runId +:+ ":run_claim")) None));
              match t with
              | CasConflict _ => l_raise (E_error "RuntimeWorker: run_claim CAS conflict after row lock")
              | Applied _ _ (_ :: _) => l_raise (E_error "RuntimeWorker: run_claim produced unsupported pending side effects")
              | Applied _ emitted [] => mret (completed emitted, drive)
              end
          end
      end
  end.

(** The setup: the configuration of the site, the session, the executor.  A bound
    session is released when the executor cannot be made. *)
Definition setup_run (bind : RunClaimDriveInputs → H → H * result string B) (d : RunClaimDriveInputs) : L H (B * Executor) :=
  config ← leaseTx (loadSitePageStateConfig (di_siteProfileId d));
  bound ← port (bind d);
  l_try (x ← port (wp_executorFactory ports bound d config); mret (bound, x))
    (λ e, _ ← l_ignore (port (wp_release ports bound)); l_throw e).

(** [handleClaimedInitFailure] drains the lease on every path that returns, so the
    row is deleted after it in the same transaction. *)
Definition init_failure_tx (backoff : option InitBackoffConfig) (jitter : Q) (runId workerId : string) (d : RunClaimDriveInputs)
  : LTx (option RunState) :=
  outcome ← on_db (handleClaimedInitFailure (mret tt)
    (λ delayMs, update (push_job (job_run_claim runId (di_correlationId d) (Some delayMs)))) backoff jitter
    (po_initFailThreshold options) (wp_runtimeJobEnqueuer ports) runId (di_correlationId d));
  _ ← deleteInitReservedBrowserLease (di_leaseId d) workerId;
  mret outcome.

Definition record_site (siteProfileId correlationId : string) (blocked : bool) : LTx () := λ s,
  let '(l, d) := s in
  match site_profiles l !! siteProfileId with
  | None => Ok (tt, s)
  | Some row =>
      match recordSiteCircuitOutcome iso (default DEFAULT_SITE_CIRCUIT (po_siteCircuit options))
              (mkSampleInput siteProfileId correlationId blocked) (db_now d) (si_circuit row) with
      | Ok site => Ok (tt, (set_site_profiles (<[siteProfileId := mkSiteRow (si_risk row) (si_approved row)
                              (si_approval_expires_at row) (si_page_state_selectors row) site]> (site_profiles l)) l, d))
      | Err e => Err e
      end
  end.

(** Phase B, after the claim. *)
Definition drive_claimed (backoff : option InitBackoffConfig) (jitter : Q) (runId workerId : string)
  (bind : RunClaimDriveInputs → H → H * result string B) (d : RunClaimDriveInputs) (result : JobResult) : L H JobResult :=
  ready ← l_try (r ← setup_run bind d; mret (Some r))
    (λ _, outcome ← leaseTx (init_failure_tx backoff jitter runId workerId d);
          _ ← match outcome with
              | Some _ => l_ignore (leaseTx (recordWorkerInitFailure options workerId))
              | None => mret tt
              end;
          mret None);
  match ready with
  | None => mret result
  | Some (bound, x) =>
      _ ← leaseTx (recordWorkerInitSuccess options workerId);
      version ← (λ w, (w, Ok (scenario_versions (l_catalog (lw_leases w)) !! di_scenarioVersionId d)));
      driven ← l_finally
        (in_world (driveClaimedRun date_parse url_origin regexp_ok uuid host_code (claimed_run runId d) (drive_deps workerId bound x) version))
        (port (wp_release ports bound));
      _ ← l_ignore (leaseTx (record_site (di_siteProfileId d) (di_correlationId d) (drive_blocked driven)));
      mret result
  end.

Definition handleRunClaim (backoff : option InitBackoffConfig) (jitter : Q) (job : WorkerJob) : L H JobResult :=
  _ ← require (wj_tenantId job) "run_claim.tenantId";
  runId ← require (wj_runId job) "run_claim.runId";
  workerId ← require (po_workerId options) "PgRuntimeWorkerOptions.workerId for run_claim";
  provider ← gateBrowserSessionProvider;
  claim ← leaseTx (claim_tx runId workerId (wj_correlationId job) (bool_decide (is_Some provider)));
  match claim.2, provider with
  | Some d, Some bind =>
      l_finally (drive_claimed backoff jitter runId workerId bind d claim.1)
        (l_ignore (leaseTx (releaseCredentialLeasesForRun runId)))
  | _, _ => mret claim.1
  end.

(** ** run_abort *)

Definition DEFAULT_RUN_ABORT_TIMEOUT_MS : Z := 30000.

Inductive RunAbortTxAResult :=
| ax_ready (intent : DrainInput)
| ax_finalize (timed_out : bool) (correlationId : string) (lease : option (string * string))
| ax_result (r : JobResult).

Definition internal_error : JobResult := failed "CONTROL_PLANE_INTERNAL_ERROR".

(** The lease of the run is claimed for draining, or found to have ended. *)
Definition abort_lease (runId workerId correlationId : string) (timeoutMs : Z) : LTx RunAbortTxAResult :=
  match wp_drainer ports with
  | None => l_raise (E_error "RuntimeWorker: run_abort requires an explicit RunAbortDrainer when a browser lease is present")
  | Some _ =>
      claim ← claimAbortBrowserLeaseForRun runId workerId timeoutMs;
      mret (match claim with
            | ab_multiple | ab_missing => ax_result internal_error
            | ab_deferred ms => ax_result (deferred ms (Some "CONTROL_PLANE_INTERNAL_ERROR"))
            | ab_expired leaseId => ax_finalize true correlationId (Some (leaseId, workerId))
            | ab_claimed leaseId => ax_ready (mkDrainInput runId leaseId workerId correlationId timeoutMs)
            end)
  end.

Definition abort_tx (runId : string) (jobCorrelationId : option string) (timeoutMs : Z) : LTx RunAbortTxAResult :=
  row ← on_db (select (λ d, Database.runs d !! runId));
  columns ← l_select (λ l, run_columns (l_catalog l) !! runId);
  match row, columns with
  | Some row, Some columns =>
      if decide (r_status row = run_cancelled) then mret (ax_result (completed [])) else
      if negb (bool_decide (r_status row = run_aborting)) then mret (ax_result internal_error) else
      let correlationId := default (rc_correlation_id columns) jobCorrelationId in
      match rc_abort_source_status columns, r_worker_id row with
      | Some run_suspended, None | Some run_resume_requested, None => mret (ax_finalize false correlationId None)
      | Some run_suspended, Some workerId | Some run_resume_requested, Some workerId =>
          open ← hasOpenAbortBrowserLeaseForRun runId workerId;
          mret (if (open : bool) then ax_result internal_error else ax_finalize false correlationId None)
      | Some run_running, Some workerId | Some run_resuming, Some workerId =>
          abort_lease runId workerId correlationId timeoutMs
      | _, _ => mret (ax_result internal_error)
      end
  | _, _ => mret (ax_result (failed "RUN_NOT_FOUND"))
  end.

Definition isOnlyAbortLeasePending (pending : list SideEffectCmd) (timed_out : bool) : bool :=
  bool_decide (pending = [if timed_out then killLease l_browser else releaseLease l_browser]).

Definition finalize_tx (runId : string) (timed_out : bool) (correlationId : string) (lease : option (string * string)) : LTx JobResult :=
  t ← on_db (applyRunTransition (mkRunCtx runId run_aborting (if timed_out then ev_drain_timeout else ev_drain_ok) run_guard_empty
        correlationId None (Some (runId +:+ ":run_abort")) None));
  match t with
  | CasConflict (Some run_cancelled) => mret (completed [])
  | CasConflict _ => l_raise (E_error "RuntimeWorker: run_abort CAS conflict after row lock")
  | Applied _ emitted pending =>
      if negb (isOnlyAbortLeasePending pending timed_out)
      then l_raise (E_error "RuntimeWorker: run_abort finalization produced unsupported pending side effects") else
      _ ← on_db (unpauseLinkedWorkitemForRunAbort runId);
      _ ← on_db (cancelLinkedHumanTasksForRunTerminal runId correlationId);
      _ ← match lease with Some (leaseId, workerId) => expireAbortBrowserLease runId leaseId workerId | None => mret tt end;
      _ ← releaseCredentialLeasesForRun runId;
      mret (completed emitted)
  end.

Definition finalizeRunAbort (runId : string) (timed_out : bool) (correlationId : string) (lease : option (string * string)) : L H JobResult :=
  leaseTx (finalize_tx runId timed_out correlationId lease).

Definition handleRunAbort (job : WorkerJob) (abortTimeoutMs : option Z) : L H JobResult :=
  _ ← require (wj_tenantId job) "run_abort.tenantId";
  runId ← require (wj_runId job) "run_abort.runId";
  let timeoutMs := default (default DEFAULT_RUN_ABORT_TIMEOUT_MS (po_runAbortTimeoutMs options)) abortTimeoutMs in
  if (timeoutMs <=? 0)%Z then l_throw (X_error "RuntimeWorker: run_abort timeoutMs must be a positive integer") else
  txA ← leaseTx (abort_tx runId (wj_correlationId job) timeoutMs);
  match txA with
  | ax_result r => mret r
  | ax_finalize timed_out correlationId lease => finalizeRunAbort runId timed_out correlationId lease
  | ax_ready intent =>
      drained ← l_try (match wp_drainer ports with Some drain => port (drain intent) | None => mret (dr_transient_failed None) end)
                  (λ _, mret (dr_transient_failed None));
      let back := leaseTx (releaseAbortBrowserDrainClaim runId (dn_leaseId intent) (dn_workerId intent)) in
      match drained with
      | dr_transient_failed ms => _ ← back; mret (deferred (default 1000%Z ms) (Some "CONTROL_PLANE_INTERNAL_ERROR"))
      | dr_terminal_failed => _ ← back; mret internal_error
      | dr_timeout => finalizeRunAbort runId true (dn_correlationId intent) (Some (dn_leaseId intent, dn_workerId intent))
      | dr_drained => finalizeRunAbort runId false (dn_correlationId intent) (Some (dn_leaseId intent, dn_workerId intent))
      end
  end.

(** ** The lease sweeper *)

Definition DEFAULT_LEASE_SWEEP_TEARDOWN_TIMEOUT_MS : Z := 30000.

(** The run of every lapsed lease is ended, when it is stuck. *)
Fixpoint terminalize_all (job : WorkerJob) (tenantId : string) (columns : gmap string RunColumns) (rows : list BrowserLeaseRow) : L H () :=
  match rows with
  | [] => mret tt
  | row :: rest =>
      _ ← match br_run_id row with
          | None => mret tt
          | Some runId =>
              let correlationId := match rc_correlation_id <$> columns !! runId with
                                   | Some c => c
                                   | None => default tenantId (wj_correlationId job)
                                   end in
              _ ← in_world (terminalizeStuckRunAsSystemFailure (mkClaimedRun runId correlationId None JNull) None);
              mret tt
          end;
      terminalize_all job tenantId columns rest
  end.

(** The sessions of this worker are torn down. *)
Fixpoint teardown_all (job : WorkerJob) (tenantId workerId : string) (drain : DrainInput → H → H * result string DrainResult)
  (timeoutMs : Z) (rows : list BrowserLeaseRow) : L H () :=
  match rows with
  | [] => mret tt
  | row :: rest =>
      _ ← match br_run_id row with
          | Some runId =>
              if decide (br_owner_worker_id row = workerId)
              then l_ignore (_ ← port (drain (mkDrainInput runId (br_id row) workerId (default tenantId (wj_correlationId job)) timeoutMs)); mret tt)
              else mret tt
          | None => mret tt
          end;
      teardown_all job tenantId workerId drain timeoutMs rest
  end.

Definition handleLeaseSweeper (job : WorkerJob) : L H JobResult :=
  tenantId ← require (wj_tenantId job) "lease_sweeper.tenantId";
  swept ← leaseTx (rows ← sweep_leases; columns ← l_select (λ l, run_columns (l_catalog l)); mret (rows, columns));
  _ ← leaseTx (isolateWorkersForExpiredBrowserLeases options swept.1);
  _ ← terminalize_all job tenantId swept.2 swept.1;
  _ ← match wp_drainer ports, po_workerId options with
      | Some drain, Some workerId =>
          teardown_all job tenantId workerId drain
            (default DEFAULT_LEASE_SWEEP_TEARDOWN_TIMEOUT_MS (po_runAbortTimeoutMs options)) swept.1
      | _, _ => mret tt
      end;
  mret (completed []).
End Jobs.
