(* ===== verification/WorkerProps.v ===== *)
(** * What the jobs of runs guarantee

    Theorems about [WorkerRuns]: a claim takes its leases all or none with the
    state of the run; an abort that has claimed its lease is decided by its
    deadline; and two defects: a run that was given a second lease cannot be
    aborted, and a worker is isolated because of the runs it has served. *)

From stdpp Require Import base strings list gmap sets relations.
From Stdlib Require Import ZArith Lia.
From S2P Require Import Prelude StateMachine JsValue RuntimeStore Database Settlement Driver DriverProps SiteCircuit Sweepers Leases LeaseProps WorkerRuns.

(** ** Rows of a run *)

Section Rows.
Context (json_parse : string → option json) (lease_uuid : nat → string) (options : PgRuntimeWorkerOptions).
#[local] Notation exec := (exec json_parse lease_uuid options).
#[local] Notation lease_step := (lease_step json_parse lease_uuid options).

(** The leases of a run at a worker, in any state. *)
Definition rows_of (runId workerId : string) (l : Leases) : list BrowserLeaseRow :=
  filter (λ row, of_run runId workerId row = true) (browser_leases l).

Lemma of_run_same runId workerId a b : same_lease a b → of_run runId workerId a = of_run runId workerId b.
Proof. intros (_ & _ & _ & H1 & H2). unfold of_run. by rewrite H1, H2. Qed.

Lemma filter_map_eq {A} (P : A → bool) (g : A → A) l : (∀ x, P (g x) = P x) →
  filter (λ x, P x = true) (map g l) = map g (filter (λ x, P x = true) l).
Proof.
  intros H. induction l as [|x l IH]; [done|]. cbn [map]. rewrite !filter_cons, H. destruct (decide (P x = true)); [|done]. cbn [map]. by rewrite IH.
Qed.

Lemma rewrites_rows now b r l l' runId workerId : rewrites now b r (browser_leases l) (browser_leases l') →
  ∃ g, rows_of runId workerId l' = map g (rows_of runId workerId l) ∧ ∀ row, row_change now b r row (g row).
Proof.
  intros (g & E & Hg). exists g. split; [|done]. unfold rows_of. rewrite E. apply filter_map_eq. intros row. apply of_run_same, Hg.
Qed.

Definition deletes (op : LeaseOp) : Prop := match op with op_delete _ _ => True | _ => False end.

(** Rows of a run never go away, unless one is deleted. *)
Lemma rows_grow op s s' runId workerId : ¬ deletes op → policies_ok (l_catalog s.1) → exec op s = Ok (tt, s') →
  length (rows_of runId workerId s.1) ≤ length (rows_of runId workerId s'.1) ∧ l_catalog s'.1 = l_catalog s.1.
Proof.
  intros Hd Hp Hx. split; [|by eapply (exec_slots _ _ _ _ _ _ "" Hp Hx)]. destruct (op_rewrites op) eqn:Hop.
  - destruct (exec_rewrites _ _ _ _ _ _ "" Hop Hp Hx) as (_ & _ & _ & Hw). destruct (rewrites_rows _ _ _ _ _ runId workerId Hw) as (g & -> & _).
    by rewrite length_map.
  - destruct op as [| |runId' workerId' plan| | |leaseId workerId'| | | | | |]; try done.
    apply LTx_bind_Ok in Hx as (r & s1 & H1 & [= <-]). destruct s as [l d]. apply acquire_browser_cases in H1 as [_ H1]. simpl in *.
    assert (Hm : ∀ session, length (rows_of runId workerId (set_browser_leases (map (marked (db_now d) session) (browser_leases l)) l)) =
      length (rows_of runId workerId l)).
    { intros session. destruct (rewrites_rows (db_now d) false None l (set_browser_leases (map (marked (db_now d) session) (browser_leases l)) l) runId workerId)
        as (g & -> & _); [apply marked_rewrites|by rewrite length_map]. }
    destruct r as [id|res].
    + destruct H1 as (p & rows & new & _ & -> & _ & _ & -> & _). unfold rows_of in *. cbn [browser_leases draw_id set_browser_leases] in *.
      rewrite filter_app, length_app. rewrite Hm. lia.
    + destruct H1 as [->|(p & _ & ->)]; [done|]. by rewrite Hm.
Qed.

Lemma rows_grow_steps s s' runId workerId : policies_ok (l_catalog s.1) → rtc (lease_step (λ op, ¬ deletes op)) s s' →
  length (rows_of runId workerId s.1) ≤ length (rows_of runId workerId s'.1).
Proof.
  intros Hp Hr. induction Hr as [s|s1 s2 s3 Hst _ IH]; [done|].
  assert (H2 : length (rows_of runId workerId s1.1) ≤ length (rows_of runId workerId s2.1) ∧ l_catalog s2.1 = l_catalog s1.1).
  { destruct Hst as [op s s' Ha Hx|l d d' sites _]; [by eapply rows_grow|done]. }
  destruct H2 as [H2 E]. etrans; [exact H2|]. apply IH. by rewrite E.
Qed.

(** A lease granted to a run is a new row of it. *)
Lemma acquire_adds_row runId workerId plan s id s' : acquireBrowserLease lease_uuid options runId workerId plan s = Ok (granted id, s') →
  length (rows_of runId workerId s'.1) = S (length (rows_of runId workerId s.1)) ∧ l_catalog s'.1 = l_catalog s.1.
Proof.
  destruct s as [l d]. intros H1. apply acquire_browser_cases in H1 as [_ (p & rows & new & _ & -> & _ & _ & E & _ & Hr & Hw & _)].
  rewrite E. simpl. split; [|done]. unfold rows_of. cbn [browser_leases draw_id set_browser_leases].
  rewrite filter_app, length_app, filter_cons_True.
  - simpl. destruct (rewrites_rows (db_now d) false None l (set_browser_leases (map (marked (db_now d) (for_session (pl_siteProfileId p) (pl_browserIdentityId p))) (browser_leases l)) l) runId workerId)
      as (g & Eg & _); [apply marked_rewrites|]. unfold rows_of in Eg. cbn [browser_leases set_browser_leases] in Eg. rewrite Eg, length_map. lia.
  - unfold of_run. by rewrite !bool_decide_eq_true_2.
Qed.

(** The state of an abort of a run that was running or resuming at the worker. *)
Definition aborting_at (runId workerId : string) (s : Leases * Db) : Prop :=
  ∃ row columns, Database.runs s.2 !! runId = Some row ∧ run_columns (l_catalog s.1) !! runId = Some columns ∧
    r_status row = run_aborting ∧ r_worker_id row = Some workerId ∧
    (rc_abort_source_status columns = Some run_running ∨ rc_abort_source_status columns = Some run_resuming).

Lemma abort_tx_lease {H B} (ports : WorkerPorts (H := H) (B := B)) runId workerId correlationId timeoutMs s : aborting_at runId workerId s →
  ∃ c, abort_tx ports runId correlationId timeoutMs s = abort_lease ports runId workerId c timeoutMs s.
Proof.
  intros (row & columns & Hrow & Hcol & Hst & Hw & Hsrc). eexists. unfold abort_tx, mbind, LTx_bind, on_db, select, l_select.
  destruct s as [l d]. simpl in *. rewrite Hrow, Hcol. simpl. rewrite Hst. simpl. rewrite Hw. by destruct Hsrc as [-> | ->].
Qed.

(** A run with two leases at its worker cannot be aborted.  A lapsed lease keeps
    its row, and a run that resumes at the same worker after its lease has lapsed
    is granted a second one; from then on, whatever happens to the leases of the
    tenant short of deleting a row, the abort of the run fails in its first
    transaction and changes nothing: the run stays aborting. *)
Theorem second_lease_wedges_abort {H B} (ports : WorkerPorts (H := H) (B := B)) runId workerId plan s0 s1 s2 old id correlationId timeoutMs :
  policies_ok (l_catalog s0.1) → is_Some (wp_drainer ports) →
  old ∈ browser_leases s0.1 → of_run runId workerId old = true →
  acquireBrowserLease lease_uuid options runId workerId plan s0 = Ok (granted id, s1) →
  rtc (lease_step (λ op, ¬ deletes op)) s1 s2 → aborting_at runId workerId s2 →
  abort_tx ports runId correlationId timeoutMs s2 = Ok (ax_result (failed "CONTROL_PLANE_INTERNAL_ERROR"), s2).
Proof.
  intros Hp [drain Hdr] Hin Hof Ha Hsteps Hab. destruct (acquire_adds_row _ _ _ _ _ _ Ha) as [Hlen E].
  assert (H1 : 1 ≤ length (rows_of runId workerId s0.1)).
  { destruct (rows_of runId workerId s0.1) eqn:En; simpl; [|lia]. assert (Hmem : old ∈ rows_of runId workerId s0.1) by (by apply list_elem_of_filter).
    rewrite En in Hmem. by apply elem_of_nil in Hmem. }
  assert (H2 : 2 ≤ length (rows_of runId workerId s2.1)) by (etrans; [|by eapply rows_grow_steps; [rewrite E|]]; lia).
  destruct (abort_tx_lease ports runId workerId correlationId timeoutMs s2 Hab) as [c ->].
  unfold abort_lease. rewrite Hdr. unfold mbind, LTx_bind, claimAbortBrowserLeaseForRun, l_select. unfold mbind, LTx_bind.
  change (filter (λ row, of_run runId workerId row = true) (browser_leases s2.1)) with (rows_of runId workerId s2.1).
  destruct (rows_of runId workerId s2.1) as [|a [|b rows]]; [simpl in H2; lia..|]. done.
Qed.

(** *** A claim *)

(** Nothing but the marks of lapsed leases and slots is left of the claim. *)
Definition nothing_taken (runId : string) (s s' : Leases * Db) : Prop :=
  s'.2 = s.2 ∧ rewrites (db_now s.2) false None (browser_leases s.1) (browser_leases s'.1) ∧
  (credential_leases s'.1 = credential_leases s.1 ∨ holds_nothing s'.1 runId).

(** The run is claimed by the worker, has a new lease, and when it will be driven
    holds every credential its scenario names. *)
Definition all_taken (runId workerId : string) (drives : bool) (drive : option RunClaimDriveInputs) (s s' : Leases * Db) : Prop :=
  run_status s.2 runId = Some run_queued ∧
  (∃ row, Database.runs s'.2 !! runId = Some row ∧ r_status row = run_claimed ∧ r_worker_id row = Some workerId) ∧
  (∃ rows lease, browser_leases s'.1 = rows ++ [lease] ∧ rewrites (db_now s.2) false None (browser_leases s.1) rows ∧
     br_run_id lease = Some runId ∧ br_owner_worker_id lease = workerId ∧ br_state lease = bl_active ∧
     (drives = true → ∃ d, drive = Some d ∧ di_leaseId d = br_id lease ∧
        ∀ ir ast refs, scenario_versions (l_catalog s.1) !! di_scenarioVersionId d = Some (ir, ast) → deriveAssetRefs json_parse ir = Some refs →
          ∀ ref, ref ∈ refs → holds s'.1 runId ref (di_siteProfileId d) (db_now s.2 + DEFAULT_CREDENTIAL_LEASE_TTL_MS))).

Lemma resolver_same runId s plan s' : pgBrowserLeasePlanResolver runId s = Ok (plan, s') → s' = s.
Proof. unfold pgBrowserLeasePlanResolver. intros (t & s1 & [= <- <-] & [= _ <-])%LTx_bind_Ok. by destruct s. Qed.

Lemma drive_inputs_same runId p leaseId c s d s' : loadRunDriveInputs json_parse runId p leaseId c s = Ok (d, s') →
  s' = s ∧ di_leaseId d = leaseId ∧ di_siteProfileId d = pl_siteProfileId p.
Proof.
  unfold loadRunDriveInputs. destruct (pl_networkPolicyId p); [|done]. intros (row & s1 & [= <- <-] & H1)%LTx_bind_Ok.
  destruct (_ ≫= _) as [[[col i] n]|]; [|done]. apply LTx_bind_Ok in H1 as (params & s2 & H2 & [= <- <-]).
  assert (E : s2 = s); [|by rewrite E].
  revert H2. unfold normalizeRunParams, mret, LTx_ret. destruct (rc_params col) as [| | |text| |]; [by intros [= _ <-]..| |by intros [= _ <-]|by intros [= _ <-]].
  destruct (json_parse text) as [[]|]; try done; by intros [= _ <-].
Qed.

Lemma acquire_credentials_cases input s r s' : policies_ok (l_catalog s.1) → acquireCredentialLeasesForRun json_parse input s = Ok (r, s') →
  s'.2 = s.2 ∧ slots_step (db_now s.2) (ki_runId input) s.1 s'.1 ∧
  match r with
  | granted _ => ∀ ir ast refs, scenario_versions (l_catalog s.1) !! ki_scenarioVersionId input = Some (ir, ast) →
      deriveAssetRefs json_parse ir = Some refs → ∀ ref, ref ∈ refs →
      holds s'.1 (ki_runId input) ref (ki_siteProfileId input) (db_now s.2 + default DEFAULT_CREDENTIAL_LEASE_TTL_MS (ki_ttlMs input))
  | refused _ => holds_nothing s'.1 (ki_runId input)
  end.
Proof.
  destruct s as [l d]. simpl. intros Hp. unfold acquireCredentialLeasesForRun. destruct (_ <=? 0)%Z eqn:E; [done|]. apply Z.leb_gt in E.
  intros (refs & s1 & H1 & H2)%LTx_bind_Ok. revert H1. unfold loadScenarioCredentialRefs. intros (v & s2 & [= <- <-] & H1)%LTx_bind_Ok. revert H1. simpl.
  destruct (scenario_versions _ !! _) as [[ir ast]|]; [|done]. destruct (deriveAssetRefs json_parse ir) as [refs0|] eqn:Er; [|done]. intros [= <- <-].
  destruct (acquire_refs_spec json_parse input _ (sorted_refs refs0) E l d Hp) as (l' & r' & E' & Hs & Hr). rewrite E' in H2. injection H2 as <- <-.
  split; [done|]. split; [done|]. destruct r' as [[]|]; [|by destruct Hr].
  intros ir' ast' refs' [= <- <-] Hd ref Hin. rewrite Er in Hd. injection Hd as ->. by apply (proj1 Hr), elem_of_sorted_refs.
Qed.

(** Deleting the row that was just added gives back the others. *)
Lemma delete_new_lease id workerId l d rows new : (∀ row, row ∈ rows → br_id row ≠ id) → br_id new = id → br_owner_worker_id new = workerId →
  browser_leases l = rows ++ [new] → ∃ l', deleteInitReservedBrowserLease id workerId (l, d) = Ok (tt, (l', d)) ∧
    browser_leases l' = rows ∧ credential_leases l' = credential_leases l.
Proof.
  intros Hf Hi Hw E. eexists. split; [done|]. split; [|done]. simpl. rewrite E, filter_app, filter_cons_False, filter_nil, app_nil_r.
  - clear E. induction rows as [|row rows IH]; [done|]. rewrite filter_cons_True; [f_equal; apply IH; intros r Hr; apply Hf; by right|].
    unfold owned_by. rewrite bool_decide_eq_false_2; [done|]. apply Hf. by left.
  - unfold owned_by. by rewrite !bool_decide_eq_true_2.
Qed.

Lemma expected_run_same runId expected s r s' : loadExpectedRun runId expected s = Ok (r, s') →
  s' = s ∧ match r with granted _ => run_status s.2 runId = Some expected | refused _ => True end.
Proof.
  unfold loadExpectedRun. intros (row & s1 & H1 & H2)%LTx_bind_Ok. unfold on_db, select in H1. destruct s as [l d]. injection H1 as <- <-.
  apply LTx_bind_Ok in H2 as (col & s2 & [= <- <-] & H2). simpl in H2. unfold run_status. simpl.
  destruct (Database.runs d !! runId) as [row|]; [|by injection H2 as <- <-].
  destruct (run_columns (l_catalog l) !! runId); [|by injection H2 as <- <-].
  case_decide as Hs; [injection H2 as <- <-; simpl; by rewrite Hs|]. case_decide; by injection H2 as <- <-.
Qed.

Lemma rewrites_ids now b r rows rows' id : rewrites now b r rows rows' → (∀ row, row ∈ rows → br_id row ≠ id) → ∀ row, row ∈ rows' → br_id row ≠ id.
Proof. intros (g & -> & Hg) Hf row (x & -> & Hx)%list_elem_of_fmap. destruct (Hg x) as ((-> & _) & _). by apply Hf. Qed.

(** What is left when the lease, but not the credentials, could be taken. *)
Lemma nothing_taken_after runId s (l1 l2 l3 : Leases) : browser_leases l3 = browser_leases l1 → credential_leases l3 = credential_leases l2 →
  rewrites (db_now s.2) false None (browser_leases s.1) (browser_leases l1) → holds_nothing l2 runId → nothing_taken runId s (l3, s.2).
Proof. intros E1 E2 Hr Hn. split; [done|]. split; [simpl; by rewrite E1|]. right. intros k row. simpl. rewrite E2. apply Hn. Qed.

(** C7. A claim takes everything or nothing.  The transaction of run_claim either
    commits with the run claimed by the worker, one new active lease of the run
    at the worker and, when the run will be driven, a slot of every credential its
    scenario names; or it leaves the run and all other tables as they were, no
    lease of the run that was not there, and no credential taken. *)
Theorem claim_takes_all_or_nothing runId workerId c drives s r drive s' : policies_ok (l_catalog s.1) →
  (∀ row, row ∈ browser_leases s.1 → br_id row ≠ lease_uuid (l_ids s.1)) →
  claim_tx lease_uuid json_parse options runId workerId c drives s = Ok ((r, drive), s') →
  (∃ es, r = completed es ∧ all_taken runId workerId drives drive s s') ∨ (drive = None ∧ nothing_taken runId s s').
Proof.
  intros Hp Hfresh. assert (Hsame : nothing_taken runId s s) by (split; [done|]; split; [apply rewrites_refl|by left]).
  unfold claim_tx. intros (run & s1 & [-> Hst]%expected_run_same & H1)%LTx_bind_Ok. destruct run as [columns|res]; [|injection H1 as <- <- <-; by right].
  apply LTx_bind_Ok in H1 as (plan & s1 & ->%resolver_same & H1). apply LTx_bind_Ok in H1 as (lease & s1 & Hl & H1).
  destruct s as [l d]. destruct s1 as [l1 d1]. apply acquire_browser_cases in Hl as [E Hl]. simpl in E. subst d1. cbn [fst] in Hl.
  destruct lease as [leaseId|res].
  2:{ injection H1 as <- <- <-. right. split; [done|]. destruct Hl as [->|(p & _ & ->)]; [done|]. split; [done|]. split; [apply marked_rewrites|by left]. }
  destruct Hl as (p & rows & new & -> & Erows & _ & -> & El1 & Hid & Hrun & Hown & Hact & _).
  assert (Hrw : rewrites (db_now d) false None (browser_leases l) rows) by (rewrite Erows; apply marked_rewrites).
  assert (Eb : browser_leases l1 = rows ++ [new]) by (by rewrite El1). assert (Ec : l_catalog l1 = l_catalog l) by (by rewrite El1).
  apply LTx_bind_Ok in H1 as (prepared & s2 & Hprep & H1).
  assert (Hcases : (∃ res, prepared = refused res ∧ nothing_taken runId (l, d) s2) ∨
    ∃ drive', prepared = granted drive' ∧ s2.2 = d ∧ browser_leases s2.1 = rows ++ [new] ∧
      (drives = true → ∃ di, drive' = Some di ∧ di_leaseId di = lease_uuid (l_ids l) ∧
        ∀ ir ast refs, scenario_versions (l_catalog l) !! di_scenarioVersionId di = Some (ir, ast) → deriveAssetRefs json_parse ir = Some refs →
          ∀ ref, ref ∈ refs → holds s2.1 runId ref (di_siteProfileId di) (db_now d + DEFAULT_CREDENTIAL_LEASE_TTL_MS))).
  { destruct drives; [|injection Hprep as <- <-; right; by exists None].
    apply LTx_bind_Ok in Hprep as (di & s3 & (-> & Hdl & Hds)%drive_inputs_same & Hprep). apply LTx_bind_Ok in Hprep as (creds & s4 & Hcr & Hprep).
    assert (Hp1 : policies_ok (l_catalog (l1, d).1)) by (simpl; by rewrite Ec).
    destruct (acquire_credentials_cases _ _ _ _ Hp1 Hcr) as (E4 & Hs4 & Hr4). destruct s4 as [l4 d4]. simpl in *. subst d4.
    assert (E5 : browser_leases l4 = rows ++ [new]) by (by rewrite (proj1 (ks_other _ _ _ _ Hs4))).
    destruct creds as [[]|res].
    - injection Hprep as <- <-. right. exists (Some di). split; [done|]. split; [done|]. split; [done|]. intros _. exists di. rewrite Ec in Hr4. done.
    - left. exists res. apply LTx_bind_Ok in Hprep as (u & s5 & Hdel & [= <- <-]). split; [done|].
      destruct (delete_new_lease (lease_uuid (l_ids l)) workerId l4 d rows new) as (l5 & E6 & Eb5 & Ec5); [by eapply rewrites_ids|done..|].
      rewrite E6 in Hdel. injection Hdel as <- <-. by apply (nothing_taken_after runId (l, d) (set_browser_leases rows l) l4 l5). }
  destruct Hcases as [(res & -> & Hn)|(drive' & -> & Ed & Eb2 & Hd)]; [injection H1 as <- <- <-; by right|].
  apply LTx_bind_Ok in H1 as (t & s3 & Ht & H1). destruct t as [next emitted [|]|]; [|done..]. injection H1 as <- <- <-. left. eexists. split; [done|].
  destruct s2 as [l2 d2]. simpl in *. subst d2. unfold on_db in Ht. simpl in Ht. destruct (applyRunTransition _ d) as [[o d3]|] eqn:Ea; [|done].
  injection Ht as -> <-. apply applyRunTransition_Ok in Ea as [(obs & [=] & _)|(t & row & es & Etr & Hr0 & _ & _ & _ & _ & ->)].
  injection Etr as <-. split; [done|]. split; [|by exists rows, new; rewrite Hid].
  eexists. simpl. rewrite lookup_insert_eq. split; [done|]. done.
Qed.

(** *** The deadline of an abort *)

(** Operations that do not give the run another lease, delete a row or renew the
    lease that was claimed. *)
Definition leaves_abort (runId workerId leaseId : string) (op : LeaseOp) : Prop :=
  ¬ deletes op ∧ op_renews op ≠ Some leaseId ∧
  match op with op_browser r w _ => ¬ (r = runId ∧ w = workerId) | _ => True end.

(** The only lease of the run ends by the deadline, or has been ended since. *)
Definition due_by (runId workerId leaseId : string) (deadline : Z) (s : Leases * Db) : Prop :=
  ∃ row, rows_of runId workerId s.1 = [row] ∧ br_id row = leaseId ∧ (br_expires_at row <= Z.max deadline (db_now s.2))%Z.

Lemma due_by_step op s s' runId workerId leaseId deadline : leaves_abort runId workerId leaseId op → policies_ok (l_catalog s.1) →
  exec op s = Ok (tt, s') → due_by runId workerId leaseId deadline s → due_by runId workerId leaseId deadline s'.
Proof.
  intros (Hd & Hn & Hb) Hp Hx (row & Hrows & Hid & Hexp).
  assert (Hmap : ∀ l' g, s'.2 = s.2 → rows_of runId workerId s'.1 = map g (rows_of runId workerId s.1) →
    (∀ row, row_change (db_now s.2) l' (op_renews op) row (g row)) → due_by runId workerId leaseId deadline s').
  { intros l' g E Eg Hg. exists (g row). rewrite Eg, Hrows, E. destruct (Hg row) as ((Hi & _) & _ & He). split; [done|]. split; [congruence|].
    rewrite Hid in He. specialize (He Hn). lia. }
  destruct (op_rewrites op) eqn:Hop.
  - destruct (exec_rewrites _ _ _ _ _ _ "" Hop Hp Hx) as (E & _ & _ & Hw). destruct (rewrites_rows _ _ _ _ _ runId workerId Hw) as (g & Eg & Hg).
    by eapply Hmap.
  - destruct op as [| |runId' workerId' plan| | |leaseId' workerId'| | | | | |]; try done.
    apply LTx_bind_Ok in Hx as (r & s1 & H1 & [= <-]). destruct s as [l d]. destruct s1 as [l1 d1].
    apply acquire_browser_cases in H1 as [E H1]. simpl in E. subst d1. cbn [fst] in H1.
    assert (Hm : ∀ session, ∃ g, rows_of runId workerId (set_browser_leases (map (marked (db_now d) session) (browser_leases l)) l) =
      map g (rows_of runId workerId l) ∧ ∀ row, row_change (db_now d) false None row (g row)).
    { intros session. apply (rewrites_rows (db_now d) false None). apply marked_rewrites. }
    destruct r as [id|res].
    + destruct H1 as (p & rows & new & _ & -> & _ & _ & -> & _ & Hr & Hw & _).
      destruct (Hm (for_session (pl_siteProfileId p) (pl_browserIdentityId p))) as (g & Eg & Hg). eapply (Hmap false g); [done| |done]. cbn [fst]. rewrite <-Eg.
      unfold rows_of. cbn [fst browser_leases draw_id set_browser_leases]. rewrite filter_app, filter_cons_False, filter_nil, app_nil_r; [done|].
      unfold of_run. rewrite Hr, Hw. intros [?%bool_decide_eq_true ?%bool_decide_eq_true]%andb_true_iff. apply Hb. split; congruence.
    + destruct H1 as [->|(p & _ & ->)]; [by exists row|]. destruct (Hm (for_session (pl_siteProfileId p) (pl_browserIdentityId p))) as (g & Eg & Hg).
      by eapply (Hmap false g).
Qed.

Lemma of_run_owned runId workerId row : of_run runId workerId row = true → owned_by (br_id row) workerId row = true.
Proof. unfold of_run, owned_by. rewrite !andb_true_iff, !bool_decide_eq_true. by intros [_ ->]. Qed.

Lemma abort_claim_due {H B} (ports : WorkerPorts (H := H) (B := B)) runId correlationId timeoutMs s s1 intent :
  abort_tx ports runId correlationId timeoutMs s = Ok (ax_ready intent, s1) →
  s1.2 = s.2 ∧ l_catalog s1.1 = l_catalog s.1 ∧ is_Some (wp_drainer ports) ∧
  due_by runId (dn_workerId intent) (dn_leaseId intent) (db_now s.2 + timeoutMs) s1.
Proof.
  unfold abort_tx. intros (row & s2 & H1 & H2)%LTx_bind_Ok. unfold on_db, select in H1. destruct s as [l d]. simpl in H1. injection H1 as <- <-.
  apply LTx_bind_Ok in H2 as (columns & s3 & [= <- <-] & H2). simpl in H2.
  destruct (Database.runs d !! runId) as [row|]; [|done]. destruct (run_columns (l_catalog l) !! runId) as [columns|]; [|done].
  case_decide; [done|]. destruct (negb _); [done|].
  assert (Hlease : ∀ workerId c, abort_lease ports runId workerId c timeoutMs (l, d) = Ok (ax_ready intent, s1) →
    s1.2 = d ∧ l_catalog s1.1 = l_catalog l ∧ is_Some (wp_drainer ports) ∧ due_by runId (dn_workerId intent) (dn_leaseId intent) (db_now d + timeoutMs) s1).
  { intros workerId c. unfold abort_lease. destruct (wp_drainer ports) as [drain|]; [|done].
    intros (claim & s4 & H4 & H5)%LTx_bind_Ok. destruct claim as [leaseId| | | |]; try done. injection H5 as <- <-. revert H4.
    unfold claimAbortBrowserLeaseForRun. intros (rows & s5 & [= <- <-] & H5)%LTx_bind_Ok. cbn [fst] in H5.
    change (filter (λ row, of_run runId workerId row = true) (browser_leases l)) with (rows_of runId workerId l) in H5.
    destruct (rows_of runId workerId l) as [|lease [|? ?]] eqn:Erows; try done.
    apply LTx_bind_Ok in H5 as (now & s6 & [= <- <-] & H6). simpl in H6. destruct (_ || _) eqn:Eexp; [done|].
    case_decide as Hdr; [done|]. apply LTx_bind_Ok in H6 as (n & s7 & [= <- <-] & H7). case_decide; [|done]. injection H7 as <- <-.
    split; [done|]. split; [done|]. split; [done|]. simpl.
    apply orb_false_iff in Eexp as [Est _]. apply bool_decide_eq_false in Est.
    assert (Hof : of_run runId workerId lease = true).
    { assert (Hin : lease ∈ rows_of runId workerId l) by (rewrite Erows; by left). by apply list_elem_of_filter in Hin as [? _]. }
    assert (Hheld : held lease = true) by (unfold held; by destruct (br_state lease)).
    eexists. unfold rows_of. cbn [fst browser_leases set_browser_leases]. rewrite filter_map_eq.
    - change (filter (λ row, of_run runId workerId row = true) (browser_leases l)) with (rows_of runId workerId l). rewrite Erows. cbn [map].
      rewrite (of_run_owned _ _ _ Hof), Hheld. simpl. split; [done|]. split; [done|]. simpl. lia.
    - intros x. by destruct (owned_by (br_id lease) workerId x && held x). }
  revert H2. destruct (rc_abort_source_status columns) as [[]|]; destruct (r_worker_id row); try done; try (by apply Hlease).
  all: intros (open & s4 & [= <- <-] & H4)%LTx_bind_Ok; by destruct (existsb _ _).
Qed.


(** *** Leases of finished runs *)

(** A program that leaves the browser leases alone when nobody else changes the
    tables. *)
Definition keeps_leases {H A} (m : L H A) : Prop := ∀ w, lw_env w = [] →
  lw_env (m w).1 = [] ∧ browser_leases (lw_leases (m w).1) = browser_leases (lw_leases w).

Lemma leases_bind {H A B} (m : L H A) (f : A → L H B) : keeps_leases m → (∀ a, keeps_leases (f a)) → keeps_leases (m ≫= f).
Proof.
  intros Hm Hf w Hw. destruct (Hm w Hw) as [E1 E2]. unfold mbind, L_bind. destruct (m w) as [w1 [a|e]]; [|done].
  destruct (Hf a w1 E1) as [E3 E4]. split; [done|]. by rewrite E4.
Qed.
Lemma leases_ret {H A} (a : A) : keeps_leases (mret a : L H A).
Proof. by intros w. Qed.
Lemma leases_read {H A} (f : LWorld H → result Exn A) : keeps_leases (λ w, (w, f w)).
Proof. by intros w. Qed.
Lemma leases_world {H A} (m : D H A) : keeps_leases (in_world m).
Proof. intros w Hw. unfold in_world. by destruct (m (lw_world w)). Qed.
Lemma leases_try {H A} (m : L H A) h : keeps_leases m → (∀ e, keeps_leases (h e)) → keeps_leases (l_try m h).
Proof.
  intros Hm Hh w Hw. destruct (Hm w Hw) as [E1 E2]. unfold l_try. destruct (m w) as [w1 [a|e]]; [done|].
  destruct (Hh e w1 E1) as [E3 E4]. split; [done|]. by rewrite E4.
Qed.
Lemma leases_finally {H A} (m : L H A) last : keeps_leases m → keeps_leases last → keeps_leases (l_finally m last).
Proof.
  intros Hm Hl w Hw. destruct (Hm w Hw) as [E1 E2]. unfold l_finally. destruct (m w) as [w1 r].
  destruct (Hl w1 E1) as [E3 E4]. simpl in *. destruct (last w1) as [w2 []]; (split; [done|]; simpl in *; by rewrite E4).
Qed.
Lemma leases_tx {H A} (body : LTx A) : (∀ s a s', body s = Ok (a, s') → browser_leases s'.1 = browser_leases s.1) → keeps_leases (leaseTx (H := H) body).
Proof.
  intros Hb w Hw. unfold leaseTx, withTenantTx. rewrite Hw. cbn [tail].
  destruct (w_env (lw_world w)) as [|[f|] env]; [| |done].
  - destruct (body (lw_leases w, w_db (lw_world w))) as [[a [l' d']]|e] eqn:E; [|done]. split; [done|]. exact (Hb _ _ _ E).
  - destruct (body (lw_leases w, f (w_db (lw_world w)))) as [[a [l' d']]|e] eqn:E; [|done]. split; [done|]. exact (Hb _ _ _ E).
Qed.

Lemma record_site_leases iso site c blocked s a s' : record_site iso options site c blocked s = Ok (a, s') → browser_leases s'.1 = browser_leases s.1.
Proof.
  unfold record_site. destruct s as [l d]. destruct (site_profiles l !! site); [|by intros [= _ <-]].
  destruct (recordSiteCircuitOutcome _ _ _ _ _); [|done]. by intros [= _ <-].
Qed.

(** After the setup of a claimed run nothing touches its lease. *)
Lemma driven_keeps_leases {H B} (ports : WorkerPorts (H := H) (B := B)) date_parse url_origin regexp_ok uuid host_code iso backoff jitter
    runId workerId bind d result w w1 bound x : lw_env w = [] → setup_run ports bind d w = (w1, Ok (bound, x)) →
  browser_leases (lw_leases (drive_claimed date_parse url_origin regexp_ok uuid host_code iso options ports backoff jitter runId workerId bind d result w).1)
    = browser_leases (lw_leases w).
Proof.
  intros Hw Hs. assert (Hset : keeps_leases (setup_run ports bind d)).
  { apply leases_bind; [apply leases_tx|].
    - intros s0 a s'. unfold loadSitePageStateConfig. intros (row & s1 & [= <- <-] & H1)%LTx_bind_Ok. destruct s0 as [l0 d0].
      destruct (_ ≫= _) as [[]|]; try done; destruct (parseSitePageStateConfig _); try done; by injection H1 as _ <-.
    - intros config. apply leases_bind; [apply leases_world|]. intros b. apply leases_try; [apply leases_bind; [apply leases_world|intros; apply leases_ret]|].
      intros e. apply leases_bind; [apply leases_try; [apply leases_world|intros; apply leases_ret]|]. by intros _ w0. }
  destruct (Hset w Hw) as [E1 E2]. rewrite Hs in E1, E2. simpl in E1, E2. unfold drive_claimed.
  rewrite (L_bind_Ok _ _ w w1 (Some (bound, x))); [|apply l_try_Ok; by rewrite (L_bind_Ok _ _ _ _ _ Hs)].
  rewrite <-E2. match goal with |- browser_leases (lw_leases (?m w1).1) = _ => assert (Hk : keeps_leases m) end; [|apply (Hk w1 E1)].
  apply leases_bind; [apply leases_tx; by intros s0 a s' [= _ <-]|]. intros _. apply leases_bind; [apply leases_read|]. intros v.
  apply leases_bind; [apply leases_finally; apply leases_world|]. intros driven. apply leases_bind; [|intros; apply leases_ret].
  apply leases_try; [|intros; apply leases_ret]. apply leases_tx. apply record_site_leases.
Qed.

(** The sweep of a lapsed lease opens the circuit of its worker. *)
Lemma sweep_isolates l d row wk s' : row ∈ browser_leases l → held row = true → (br_expires_at row < db_now d)%Z →
  workers l !! br_owner_worker_id row = Some wk → wk_kind wk = "browser" → wk_status wk = "active" →
  (rows ← sweep_leases; isolateWorkersForExpiredBrowserLeases options rows) (l, d) = Ok (tt, s') →
  s'.2 = d ∧ ∃ wk', workers s'.1 !! br_owner_worker_id row = Some wk' ∧
    circuit_blocked (db_now d) (wk_circuit_state wk') (wk_circuit_until wk') = true.
Proof.
  intros Hin Hh Hexp Hw Hk Hst (rows & s1 & H1 & H2)%LTx_bind_Ok. unfold sweep_leases in H1.
  apply LTx_bind_Ok in H1 as (rows' & s2 & [= <- <-] & H1). apply LTx_bind_Ok in H1 as (n & s3 & [= <- <-] & H1).
  apply LTx_bind_Ok in H1 as (u & s4 & [= <- <-] & [= <- <-]). simpl in H2.
  assert (Hmem : row ∈ filter (λ row, lapsed (db_now d) row = true) (browser_leases l)).
  { apply list_elem_of_filter. split; [|done]. unfold lapsed. by rewrite Hh, (proj2 (Z.ltb_lt _ _) Hexp). }
  destruct (filter _ _) as [|r0 rest]; [by apply elem_of_nil in Hmem|]. unfold isolateWorkersForExpiredBrowserLeases in H2.
  destruct (worker_open_ms options <=? 0)%Z eqn:Eo; [done|]. apply Z.leb_gt in Eo. injection H2 as <-. split; [done|]. simpl.
  rewrite map_lookup_imap, Hw. simpl. eexists. split; [done|].
  rewrite bool_decide_eq_true_2 by (apply (list_elem_of_fmap_2 br_owner_worker_id (r0 :: rest)), Hmem).
  unfold isolated_row. rewrite decide_True by done. unfold circuit_blocked. simpl. apply Z.ltb_lt. destruct (wk_circuit_until wk); lia.
Qed.

(** A worker is isolated because of the runs it has served.  No step of a
    claimed run after its setup releases or ends its browser lease, however the
    drive ends: the row stays held.  Once its time has passed, the sweep of leases
    that finds it opens the circuit of the worker, which is then refused every
    lease, although nothing was wrong with it. *)
Theorem finished_run_isolates_worker {H B} (ports : WorkerPorts (H := H) (B := B)) date_parse url_origin regexp_ok uuid host_code iso backoff jitter
    runId workerId bind inputs result w w1 bound x row : lw_env w = [] → setup_run ports bind inputs w = (w1, Ok (bound, x)) →
  row ∈ browser_leases (lw_leases w) → held row = true →
  let after := (drive_claimed date_parse url_origin regexp_ok uuid host_code iso options ports backoff jitter runId workerId bind inputs result w).1 in
  row ∈ browser_leases (lw_leases after) ∧
  ∀ l d wk s', row ∈ browser_leases l → (br_expires_at row < db_now d)%Z →
    workers l !! br_owner_worker_id row = Some wk → wk_kind wk = "browser" → wk_status wk = "active" →
    (rows ← sweep_leases; isolateWorkersForExpiredBrowserLeases options rows) (l, d) = Ok (tt, s') →
    ∀ runId' plan id s'', acquireBrowserLease lease_uuid options runId' (br_owner_worker_id row) plan s' ≠ Ok (granted id, s'').
Proof.
  intros Hw Hs Hin Hh after. split; [unfold after; by erewrite driven_keeps_leases|].
  intros l d wk [l' d'] Hin' Hexp Hwk Hk Hst Hsw runId' plan id s'' Ha.
  destruct (sweep_isolates l d row wk (l', d') Hin' Hh Hexp Hwk Hk Hst Hsw) as (Ed & wk' & Hwk' & Hblk). simpl in *. subst d'.
  apply acquire_browser_cases in Ha as (_ & p & rows & new & _ & _ & _ & _ & _ & _ & _ & _ & _ & _ & _ & w' & Hw' & Hb).
  rewrite Hwk' in Hw'. injection Hw' as <-. congruence.
Qed.
End Rows.
