(* ===== verification/ResumeTokens.v ===== *)
(** * Resume tokens and the restoration of a session

    Models [app/src/runtime/resume-token-codec.ts] (the signed envelope that is
    stored when a run is suspended), the parsing of the stored envelope and the
    choice of the transition in [app/src/worker/runtime-worker-parse.ts], and
    [app/src/runtime/session-restorer.ts] (the production restorer).  HMAC-SHA256,
    the secret store and the store of browser sessions are parameters; texts are
    byte strings, so the comparison of signatures is equality. *)

From stdpp Require Import base strings list gmap.
From Stdlib Require Import ZArith.
From S2P Require Import Prelude StateMachine JsValue JsText StaticValidation RuntimeStore Database Driver Leases WorkerRuns.

(** ** The envelope *)

Record LoopContext := mkLoopContext { lc_iteration : jsnum; lc_pageCount : jsnum }.

(** [Omit<ResumeTokenEnvelope, "kid" | "hmac">]. *)
Record TokenInput := mkTokenInput {
  ti_runId : string;
  ti_resumeNodeId : string;
  ti_pageStateRef : string;
  ti_loopContext : option LoopContext;
  ti_issuedAt : string;
  ti_expiresAt : string
}.
Record TokenEnvelope := mkEnvelope { te_input : TokenInput; te_kid : string; te_hmac : string }.

Definition input_fields (t : TokenInput) : fields :=
  [("runId", JStr (ti_runId t)); ("resumeNodeId", JStr (ti_resumeNodeId t)); ("pageStateRef", JStr (ti_pageStateRef t))] ++
  match ti_loopContext t with
  | Some c => [("loopContext", JObj [("iteration", JNum (lc_iteration c)); ("pageCount", JNum (lc_pageCount c))])]
  | None => []
  end ++
  [("issuedAt", JStr (ti_issuedAt t)); ("expiresAt", JStr (ti_expiresAt t))].

(** The envelope without its signature, and as it is stored. *)
Definition signed_fields (t : TokenInput) (kid : string) : fields := input_fields t ++ [("kid", JStr kid)].
Definition envelope_json (t : TokenEnvelope) : json :=
  JObj (signed_fields (te_input t) (te_kid t) ++ [("hmac", JStr (te_hmac t))]).

(** ** Parsing *)

Definition stringField (record : fields) (field : string) : option string :=
  match alookup field record with Some (JStr s) => if blank s then None else Some s | _ => None end.

(** The outer option is the answer [false]. *)
Definition parseLoopContext (value : option json) : option (option LoopContext) :=
  match value with
  | None => Some None
  | Some (JObj record) =>
      match alookup "iteration" record, alookup "pageCount" record with
      | Some (JNum i), Some (JNum p) =>
          if num_is_integer i && num_is_integer p && num_leb (num_of_Z 0) i && num_leb (num_of_Z 0) p
          then Some (Some (mkLoopContext i p)) else None
      | _, _ => None
      end
  | Some _ => None
  end.

Definition parseResumeTokenEnvelope (value : option json) (expectedRunId : string) : option TokenEnvelope :=
  match value with
  | Some (JObj record) =>
      runId ← stringField record "runId";
      resumeNodeId ← stringField record "resumeNodeId";
      pageStateRef ← stringField record "pageStateRef";
      issuedAt ← stringField record "issuedAt";
      expiresAt ← stringField record "expiresAt";
      kid ← stringField record "kid";
      hmac ← stringField record "hmac";
      if decide (runId = expectedRunId) then
        loopContext ← parseLoopContext (alookup "loopContext" record);
        Some (mkEnvelope (mkTokenInput runId resumeNodeId pageStateRef loopContext issuedAt expiresAt) kid hmac)
      else None
  | _ => None
  end.

(** ** The codec *)

Inductive TokenVerification := tv_valid (token : TokenEnvelope) | tv_expired | tv_invalid.

(** [ResumeTokenCodec]. *)
Record TokenCodec (H : Type) := mkCodec {
  tc_issue : TokenInput → H → H * result string TokenEnvelope;
  tc_verify : TokenEnvelope → H → H * result string TokenVerification
}.
Arguments mkCodec {H} _ _.
Arguments tc_issue {H} _ _ _.
Arguments tc_verify {H} _ _ _.

Record SigningKey := mkSigningKey { sk_kid : string; sk_key : string }.

Section Codec.
(** [createHmac("sha256", key).update(text).digest("hex")], [JSON.parse],
    [Date.parse], the secret the store resolves and the clock. *)
Context {H : Type} (hmac_hex : string → string → string) (json_parse : string → option json) (date_parse : string → option Z)
  (resolve : H → H * result string string) (now : H → Z).

Definition isSigningKey (v : json) : option SigningKey :=
  match v with
  | JObj record =>
      match alookup "kid" record, alookup "key" record with
      | Some (JStr kid), Some (JStr key) =>
          if decide (kid = EmptyString ∨ key = EmptyString) then None else Some (mkSigningKey kid key)
      | _, _ => None
      end
  | _ => None
  end.

Definition resolveKey (h : H) : H * result string SigningKey :=
  let '(h', raw) := resolve h in
  (h', match raw with
       | Err e => Err e
       | Ok raw => match json_parse raw ≫= isSigningKey with
                   | Some k => Ok k
                   | None => Err "HmacResumeTokenCodec: signing key"
                   end
       end).

(** [stableStringify] is the stable JSON of [RuntimeStore]. *)
Definition signHex (t : TokenInput) (kid key : string) : string := hmac_hex key (stableJson (JObj (signed_fields t kid))).
Definition hexEqual (a b : string) : bool := bool_decide (a = b).

Definition hmac_issue (input : TokenInput) (h : H) : H * result string TokenEnvelope :=
  let '(h', k) := resolveKey h in
  (h', match k with
       | Err e => Err e
       | Ok k => Ok (mkEnvelope input (sk_kid k) (signHex input (sk_kid k) (sk_key k)))
       end).

(** [Date.parse(token.expiresAt) <= now], false of NaN. *)
Definition token_expired_at (t : TokenEnvelope) (ms : Z) : bool :=
  match date_parse (ti_expiresAt (te_input t)) with Some e => (e <=? ms)%Z | None => false end.

Definition hmac_verify (t : TokenEnvelope) (h : H) : H * result string TokenVerification :=
  let '(h', k) := resolveKey h in
  (h', match k with
       | Err e => Err e
       | Ok k => Ok (if negb (bool_decide (te_kid t = sk_kid k)) then tv_invalid
                     else if negb (hexEqual (te_hmac t) (signHex (te_input t) (te_kid t) (sk_key k))) then tv_invalid
                     else if token_expired_at t (now h') then tv_expired
                     else tv_valid t)
       end).

Definition HmacResumeTokenCodec : TokenCodec H := mkCodec hmac_issue hmac_verify.
End Codec.

(** The codec as the driver uses it: the times as texts, the envelope as JSON. *)
Definition driver_codec {H} (iso : Z → string) (codec : TokenCodec H) (p : ResumeTokenPayload) (h : H) : H * result string json :=
  let '(h', r) := tc_issue codec (mkTokenInput (tp_runId p) (tp_resumeNodeId p) (tp_pageStateRef p) None
                                    (iso (tp_issuedAt p)) (iso (tp_expiresAt p))) h in
  (h', match r with Ok t => Ok (envelope_json t) | Err e => Err e end).

(** ** Restoring a session *)

Record SessionRestoreInput := mkRestoreInput {
  sr_runId : string;
  sr_leaseId : string;
  sr_workerId : string;
  sr_correlationId : string;
  sr_token : TokenEnvelope;
  sr_expectedPageStateRef : string;
  sr_resumeNodeId : string
}.

Inductive SessionRestoreResult :=
| restored (pageStateRef : string)
| login_bypass
| terminal_failure (reason : string)
| invalid_token (code : string)
| page_state_mismatch (loginBypassPossible : bool).

Definition guard_restored : RunGuard := mkRunGuard None None None None None None None (Some true) None None None None.
Definition guard_bypass (possible : bool) : RunGuard := mkRunGuard None None None None None None None None (Some possible) None None None.

Definition restoreTransitionFor (r : SessionRestoreResult) (expectedPageStateRef : string) : RunEvent * RunGuard :=
  match r with
  | restored ref =>
      if decide (ref = expectedPageStateRef) then (ev_restore_ok, guard_restored) else (ev_restore_failed, guard_bypass false)
  | login_bypass => (ev_restore_failed, guard_bypass true)
  | page_state_mismatch possible => (ev_restore_failed, guard_bypass possible)
  | invalid_token _ => (ev_restore_failed, guard_bypass false)
  | terminal_failure _ => (ev_restore_failed, guard_bypass false)
  end.

Section Restorer.
(** The codec and the sessions kept for a site and an identity. *)
Context {H : Type} (codec : TokenCodec H) (load : string → string → H → H * result string (option (list json))).

Definition parseRunTarget (value : option json) : option (string * string) :=
  match value with
  | Some (JObj record) =>
      match alookup "site_profile_id" record, alookup "browser_identity_id" record with
      | Some (JStr site), Some (JStr identity) =>
          if decide (site = EmptyString ∨ identity = EmptyString) then None else Some (site, identity)
      | _, _ => None
      end
  | _ => None
  end.

Definition resolveRunTarget (runId : string) : LTx (option (string * string)) :=
  target ← l_select (λ l, c ← run_columns (l_catalog l) !! runId; v ← scenario_versions (l_catalog l) !! rc_scenario_version_id c;
                          prop "target" (Some v.1));
  mret (parseRunTarget target).

(** Whether the verified token is the one the resume asks for. *)
Definition matches_intent (input : SessionRestoreInput) (t : TokenEnvelope) : bool :=
  bool_decide (ti_runId (te_input t) = sr_runId input) && bool_decide (ti_resumeNodeId (te_input t) = sr_resumeNodeId input) &&
  bool_decide (ti_pageStateRef (te_input t) = sr_expectedPageStateRef input).

Definition pg_restoreSession (input : SessionRestoreInput) : L H SessionRestoreResult :=
  verified ← l_try (v ← port (tc_verify codec (sr_token input)); mret (Ok v))
    (λ _, mret (Err (terminal_failure "resume token verification failed")));
  match verified with
  | Err r => mret r
  | Ok tv_expired => mret (invalid_token "CHALLENGE_UNRESOLVED")
  | Ok tv_invalid => mret (invalid_token "IR_EXPRESSION_RUNTIME")
  | Ok (tv_valid t) =>
      if negb (matches_intent input t) then mret (invalid_token "IR_EXPRESSION_RUNTIME") else
      target ← leaseTx (resolveRunTarget (sr_runId input));
      match target with
      | None => mret (terminal_failure "run target is unavailable for session restore")
      | Some (site, identity) =>
          bundle ← l_try (v ← port (load site identity); mret (Ok v))
            (λ _, mret (Err (terminal_failure "browser session load failed")));
          mret (match bundle with
                | Err r => r
                | Ok None => terminal_failure "browser session is unavailable for run target"
                | Ok (Some []) => terminal_failure "browser session contains no cookies"
                | Ok (Some _) => login_bypass
                end)
      end
  end.
End Restorer.
