(* ===== verification/WorkerResume.v ===== *)
(** * The job that resumes a run

    Models [app/src/worker/runtime-worker-run-resume.ts]: the transaction that
    takes the run over (R17, its leases, the worker), the renewal of an expired
    token, the restoration of the session outside a transaction, the transition
    it leads to (R18, R19, R20) and the drive from the node of the token. *)

From stdpp Require Import base strings list gmap pretty.
From Stdlib Require Import ZArith.
From S2P Require Import Prelude StateMachine JsValue StaticValidation RuntimeStore FlowControl JsText HumanTask ExtractMerge Interpreter Database Settlement Driver SiteCircuit Sweepers Leases WorkerRuns ResumeTokens.

(** [UPDATE runs ... WHERE id = $2 AND status = 'resuming']. *)
Definition set_resuming_run (f : RunRow → RunRow) (runId : string) : Tx nat := λ d,
  match Database.runs d !! runId with
  | Some row =>
      if decide (r_status row = run_resuming) then Ok (1, set_runs (<[runId := f row]> (Database.runs d)) d) else Ok (0, d)
  | None => Ok (0, d)
  end.
Definition with_worker (workerId : string) (r : RunRow) : RunRow :=
  mkRunRow (r_status r) (r_workitem_id r) (Some workerId) (r_attempts r) (r_consecutive_init_failures r)
    (r_started_at r) (r_ended_at r) (r_bookmark r) (r_resume_token r) (r_failure_reason r).

Definition isOnlyRestoreSessionPending (pending : list SideEffectCmd) : bool := bool_decide (pending = [restoreSession]).

Inductive RunResumeTxAResult := rx_ready (intent : SessionRestoreInput) | rx_result (r : JobResult).

Section Resume.
Context {H B : Type} (date_parse : string → option Z) (url_origin : string → option (string * string))
  (regexp_ok : string → bool) (uuid lease_uuid : nat → string) (host_code : string → option string)
  (json_parse : string → option json) (iso : Z → string) (options : PgRuntimeWorkerOptions).
Context (ports : WorkerPorts (H := H) (B := B)).
(** The restorer of sessions and the codec, when they are configured. *)
Context (restorer : option (SessionRestoreInput → L H SessionRestoreResult)) (codec : option (TokenCodec H)).

(** The lease of the run at this worker, or a new one; the flag says which. *)
Definition resume_lease (runId workerId : string) (plan : option BrowserLeasePlan) : LTx (Acquired (string * bool)) :=
  lease ← findActiveBrowserLeaseForRun runId workerId;
  match lease with
  | Some leaseId =>
      closed ← checkWorkerCircuit workerId;
      mret (if (closed : bool) then granted (leaseId, false) else refused internal_error)
  | None =>
      acquired ← acquireBrowserLease lease_uuid options runId workerId plan;
      mret (match acquired with granted leaseId => granted (leaseId, true) | refused r => refused r end)
  end.

(** The credentials, when the run will be driven; a new lease is given back when
    they are refused. *)
Definition resume_credentials (runId workerId scenarioVersionId : string) (drives : bool) (plan : option BrowserLeasePlan)
  (leaseId : string) (fresh : bool) : LTx (Acquired ()) :=
  match drives, plan with
  | true, Some p =>
      credentials ← acquireCredentialLeasesForRun json_parse (mkCredentialInput runId scenarioVersionId (pl_siteProfileId p) None);
      match credentials with
      | granted _ => mret (granted tt)
      | refused r => _ ← (if fresh then deleteInitReservedBrowserLease leaseId workerId else mret tt); mret (refused r)
      end
  | _, _ => mret (granted tt)
  end.

(** R17, unless an earlier attempt has applied it. *)
Definition take_over (runId workerId correlationId issuedAt : string) (status : RunState) : LTx () :=
  if decide (status = run_resume_requested) then
    t ← on_db (applyRunTransition (mkRunCtx runId run_resume_requested ev_worker_claimed guard_lease correlationId (Some workerId)
          (Some (runId +:+ ":run_resume:r17:" +:+ issuedAt)) None));
    match t with
    | CasConflict _ => l_raise (E_error "RuntimeWorker: run_resume R17 CAS conflict after row lock")
    | Applied _ _ pending =>
        if isOnlyRestoreSessionPending pending then mret tt
        else l_raise (E_error "RuntimeWorker: run_resume R17 produced unsupported pending side effects")
    end
  else mret tt.

Definition resume_tx (runId workerId : string) (jobCorrelationId : option string) (drives : bool) : LTx RunResumeTxAResult :=
  row ← on_db (select (λ d, Database.runs d !! runId));
  columns ← l_select (λ l, run_columns (l_catalog l) !! runId);
  match row, columns with
  | Some row, Some columns =>
      if negb (bool_decide (r_status row = run_resume_requested ∨ r_status row = run_resuming)) then mret (rx_result internal_error) else
      match parseResumeTokenEnvelope (r_resume_token row) runId with
      | None => mret (rx_result internal_error)
      | Some token =>
          let correlationId := default (rc_correlation_id columns) jobCorrelationId in
          plan ← pgBrowserLeasePlanResolver runId;
          lease ← resume_lease runId workerId plan;
          match lease with
          | refused r => mret (rx_result r)
          | granted (leaseId, fresh) =>
              credentials ← resume_credentials runId workerId (rc_scenario_version_id columns) drives plan leaseId fresh;
              match credentials with
              | refused r => mret (rx_result r)
              | granted _ =>
                  _ ← take_over runId workerId correlationId (ti_issuedAt (te_input token)) (r_status row);
                  n ← on_db (set_resuming_run (with_worker workerId) runId);
                  if decide (n = 1) then
                    mret (rx_ready (mkRestoreInput runId leaseId workerId correlationId token
                      (ti_pageStateRef (te_input token)) (ti_resumeNodeId (te_input token))))
                  else l_raise (E_error "RuntimeWorker: run_resume worker_id stamp expected status='resuming'")
              end
          end
      end
  | _, _ => mret (rx_result (failed "RUN_NOT_FOUND"))
  end.

(** An authentic token that has expired is issued again. *)
Definition reissueAuthenticExpiredResumeToken (runId : string) (token : TokenEnvelope) : L H TokenEnvelope :=
  match codec with
  | None => mret token
  | Some codec =>
      verified ← l_try (v ← port (tc_verify codec token); mret (Some v)) (λ _, mret None);
      match verified with
      | Some tv_expired =>
          fresh ← port (λ h, let ms := wp_now ports h in
            tc_issue codec (mkTokenInput (ti_runId (te_input token)) (ti_resumeNodeId (te_input token)) (ti_pageStateRef (te_input token))
              (ti_loopContext (te_input token)) (iso ms) (iso (ms + RESUME_TOKEN_TTL_MS))) h);
          _ ← leaseTx (on_db (set_resuming_run (with_resume_token (envelope_json fresh)) runId));
          mret fresh
      | _ => mret token
      end
  end.

Definition with_token (intent : SessionRestoreInput) (token : TokenEnvelope) : SessionRestoreInput :=
  mkRestoreInput (sr_runId intent) (sr_leaseId intent) (sr_workerId intent) (sr_correlationId intent) token
    (sr_expectedPageStateRef intent) (sr_resumeNodeId intent).

(** The transition the restoration leads to. *)
Definition complete_tx (runId workerId : string) (jobCorrelationId : option string) (intent : SessionRestoreInput)
  (outcome : SessionRestoreResult) : LTx JobResult :=
  row ← on_db (select (λ d, Database.runs d !! runId));
  columns ← l_select (λ l, run_columns (l_catalog l) !! runId);
  match row, columns with
  | Some row, Some columns =>
      if decide (r_status row = run_resuming) then
        let correlationId := default (rc_correlation_id columns) jobCorrelationId in
        let '(ev, g) := restoreTransitionFor outcome (sr_expectedPageStateRef intent) in
        t ← on_db (applyRunTransition (mkRunCtx runId run_resuming ev g correlationId (Some workerId)
              (Some (runId +:+ ":run_resume:" +:+ ti_issuedAt (te_input (sr_token intent)))) None));
        match t with
        | CasConflict _ => l_raise (E_error "RuntimeWorker: run_resume CAS conflict after row lock")
        | Applied _ _ (_ :: _) => l_raise (E_error "RuntimeWorker: run_resume completion produced unsupported pending side effects")
        | Applied next emitted [] =>
            _ ← (if decide (next = run_running) then on_db (resumeLinkedWorkitemCheckout runId correlationId) else mret tt);
            mret (completed emitted)
        end
      else mret internal_error
  | _, _ => mret (failed "RUN_NOT_FOUND")
  end.

(** What to drive, when the run runs. *)
Definition resumed_inputs_tx (runId : string) (intent : SessionRestoreInput) : LTx (option RunClaimDriveInputs) :=
  row ← on_db (select (λ d, Database.runs d !! runId));
  if decide (r_status <$> row = Some run_running) then
    plan ← pgBrowserLeasePlanResolver runId;
    match plan with
    | None => mret None
    | Some p => d ← loadRunDriveInputs json_parse runId p (sr_leaseId intent) (sr_correlationId intent); mret (Some d)
    end
  else mret None.

(** Phase C: the session is set up again and the run driven from the node. *)
Definition drive_resumed (runId workerId : string) (bind : RunClaimDriveInputs → H → H * result string B)
  (intent : SessionRestoreInput) (d : RunClaimDriveInputs) (result : JobResult) : L H JobResult :=
  ready ← l_try (r ← setup_run ports bind d; mret (Some r))
    (λ _, terminalized ← in_world (terminalizeStuckRunAsSystemFailure (claimed_run runId d) None);
          _ ← (if (terminalized : bool) then
                 _ ← l_ignore (leaseTx (deleteInitReservedBrowserLease (di_leaseId d) workerId));
                 l_ignore (leaseTx (recordWorkerInitFailure options workerId))
               else mret tt);
          mret None);
  match ready with
  | None => mret result
  | Some (bound, x) =>
      _ ← leaseTx (recordWorkerInitSuccess options workerId);
      version ← (λ w, (w, Ok (scenario_versions (l_catalog (lw_leases w)) !! di_scenarioVersionId d)));
      driven ← l_finally
        (in_world (driveResumedRun date_parse url_origin regexp_ok uuid host_code (claimed_run runId d)
                     (drive_deps ports workerId bound x) version (sr_resumeNodeId intent)))
        (port (wp_release ports bound));
      _ ← l_ignore (leaseTx (record_site iso options (di_siteProfileId d) (di_correlationId d) (drive_blocked driven)));
      mret result
  end.

(** The restoration and the transition; the flag is false when the transaction
    failed and the run was ended instead. *)
Definition settle_restored (runId workerId : string) (jobCorrelationId : option string)
  (restore : SessionRestoreInput → L H SessionRestoreResult) (intent : SessionRestoreInput) : L H (JobResult * bool) :=
  token ← reissueAuthenticExpiredResumeToken runId (sr_token intent);
  outcome ← l_try (restore (with_token intent token)) (λ _, mret (terminal_failure "session restore failed"));
  l_try (r ← leaseTx (complete_tx runId workerId jobCorrelationId intent outcome); mret (r, true))
    (λ e, terminalized ← in_world (terminalizeStuckRunAsSystemFailure (mkClaimedRun runId (sr_correlationId intent) None JNull) None);
          if (terminalized : bool) then mret (completed [], false) else l_throw e).

(** After the run has been taken over. *)
Definition resume_taken (runId workerId : string) (jobCorrelationId : option string)
  (restore : SessionRestoreInput → L H SessionRestoreResult) (provider : option (RunClaimDriveInputs → H → H * result string B))
  (intent : SessionRestoreInput) : L H JobResult :=
  answer ← settle_restored runId workerId jobCorrelationId restore intent;
  match answer, provider with
  | (completed _ as result, true), Some bind =>
      drive ← leaseTx (resumed_inputs_tx runId intent);
      match drive with
      | None => mret result
      | Some d => drive_resumed runId workerId bind intent d result
      end
  | (result, _), _ => mret result
  end.

Definition handleRunResume (job : WorkerJob) : L H JobResult :=
  _ ← require (wj_tenantId job) "run_resume.tenantId";
  runId ← require (wj_runId job) "run_resume.runId";
  workerId ← require (po_workerId options) "PgRuntimeWorkerOptions.workerId for run_resume";
  match restorer with
  | None => l_throw (X_error "RuntimeWorker: run_resume requires an explicit SessionRestorer")
  | Some restore =>
      provider ← gateBrowserSessionProvider ports;
      txA ← leaseTx (resume_tx runId workerId (wj_correlationId job) (bool_decide (is_Some provider)));
      match txA with
      | rx_result r => mret r
      | rx_ready intent =>
          l_finally (resume_taken runId workerId (wj_correlationId job) restore provider intent)
            (l_ignore (leaseTx (releaseCredentialLeasesForRun runId)))
      end
  end.
End Resume.
