(* ===== verification/ResumeProps.v ===== *)
(** * What resuming guarantees

    Theorems about [ResumeTokens] and [WorkerResume]: the token stored when a run
    is suspended is accepted when it is resumed; with the production restorer the
    signature of the stored token alone decides whether the run goes on, however
    long it has waited; and a defect: a run that is refused leaves its workitem
    processing for good.  Module [WorkerSample] runs the jobs on a concrete tenant. *)

From stdpp Require Import base strings list gmap pretty relations.
From Stdlib Require Import ZArith Lia.
From S2P Require Import Prelude StateMachine JsValue IrelLexer RuntimeStore FlowControl JsText HumanTask ExtractMerge Interpreter Database Settlement Driver DriverProps DriverRuns DriverEnds SiteCircuit Sweepers SweeperProps Leases LeaseProps WorkerRuns WorkerProps ResumeTokens WorkerResume.

(** ** The transition *)

(** Whether the run goes on after a restoration. *)
Definition goes_on (outcome : SessionRestoreResult) (expectedPageStateRef : string) : bool :=
  match outcome with
  | restored ref => bool_decide (ref = expectedPageStateRef)
  | login_bypass => true
  | page_state_mismatch possible => possible
  | _ => false
  end.
Definition restored_state (b : bool) : RunState := if b then run_running else run_failed_system.
Definition restored_event (b : bool) : EventEnvelopeType := if b then run_resumed_e else run_failed_system_e.

Lemma restore_transition outcome ref : let '(ev, g) := restoreTransitionFor outcome ref in
  transitionRun run_resuming ev g = Ok (mkTransition (restored_state (goes_on outcome ref)) [emitEvent (restored_event (goes_on outcome ref))]).
Proof. destruct outcome as [r| | | |[]]; simpl; try done. case_decide; [by rewrite bool_decide_eq_true_2|by rewrite bool_decide_eq_false_2]. Qed.

Lemma resume_checkout_total runId c d : ∃ d', resumeLinkedWorkitemCheckout runId c d = Ok (tt, d') ∧ runs d' = runs d ∧ db_now d' = db_now d.
Proof.
  unfold resumeLinkedWorkitemCheckout, checkout_transition, resolveLinkedWorkitemId, select. unfold mbind at 1, Tx_bind at 1.
  destruct (runs d !! runId ≫= r_workitem_id) as [wid|] eqn:E; unfold linked; rewrite ?E; [|by exists d].
  unfold applyWorkitemTransition; simpl; unfold mbind, Tx_bind, select, update; simpl.
  destruct (workitems d !! wid) as [row|] eqn:Ew; [|by exists d]. simpl. case_decide as Hs; [|by exists d]. simpl.
  rewrite updated_workitem_same by (done || by auto). rewrite ?assertExactPendingKinds_refl. simpl.
  unfold set_checkout, update. simpl. rewrite lookup_insert_eq. by destruct (resume_checkout _ _); eexists.
Qed.

Lemma complete_spec runId workerId c intent outcome l d row columns : let b := goes_on outcome (sr_expectedPageStateRef intent) in
  runs d !! runId = Some row → r_status row = run_resuming → run_columns (l_catalog l) !! runId = Some columns →
  key_free (outbox_key (runId +:+ ":run_resume:" +:+ ti_issuedAt (te_input (sr_token intent))) (restored_event b)) d →
  ∃ es d', complete_tx runId workerId c intent outcome (l, d) = Ok (completed es, (l, d')) ∧
    run_status d' runId = Some (restored_state b) ∧ db_now d' = db_now d ∧ (b = false → workitems d' = workitems d).
Proof.
  intros b Hr Hs Hc Hk. unfold complete_tx, mbind, LTx_bind, on_db, select, l_select. simpl. rewrite Hr, Hc, decide_True by done.
  assert (Ht := restore_transition outcome (sr_expectedPageStateRef intent)). fold b in Ht.
  destruct (restoreTransitionFor outcome (sr_expectedPageStateRef intent)) as [ev g]. simpl.
  set (ctx := mkRunCtx runId run_resuming ev g (default (rc_correlation_id columns) c) (Some workerId)
    (Some (runId +:+ ":run_resume:" +:+ ti_issuedAt (te_input (sr_token intent)))) None).
  destruct (applyRunTransition_total ctx d row _ Hr Hs Ht) as (es & d1 & E1); [done|by destruct b; eauto|]. simpl in E1. rewrite E1. simpl.
  assert (Hst : run_status d1 runId = Some (restored_state b) ∧ db_now d1 = db_now d ∧ workitems d1 = workitems d).
  { apply applyRunTransition_Ok in E1 as [(obs & Ho & _)|(t & row' & es' & Ht' & Hr' & _ & _ & _ & _ & ->)]; [done|].
    unfold ctx in Ht'. cbn [rt_fromStatus rt_event rt_guard] in Ht'. rewrite Ht in Ht'. injection Ht' as <-. unfold run_status. simpl. by rewrite lookup_insert_eq. }
  destruct Hst as (Hst & Hn & Hw). destruct b; simpl in *.
  - unfold LTx_bind.
    destruct (resume_checkout_total runId (default (rc_correlation_id columns) c) d1) as (d2 & E2 & Er & En). rewrite E2.
    eexists _, d2. split; [done|]. unfold run_status in *. rewrite Er. split; [done|]. split; [by rewrite En|done].
  - by eexists _, d1.
Qed.

(** A token is accepted for its own run only. *)
Lemma parse_token_run value runId t : parseResumeTokenEnvelope value runId = Some t →
  ∃ record, value = Some (JObj record) ∧ stringField record "runId" = Some runId ∧ ti_runId (te_input t) = runId.
Proof.
  unfold parseResumeTokenEnvelope. destruct value as [[]|]; try done. intros Hp.
  do 7 (apply bind_Some in Hp as (? & ? & Hp)). case_decide; [|done]. apply bind_Some in Hp as (? & ? & [= <-]). subst. by eexists.
Qed.

(** What the first transaction of the job leaves when it goes on. *)
Lemma resume_tx_ready json_parse lease_uuid options runId workerId c drives s0 intent s1 :
  resume_tx lease_uuid json_parse options runId workerId c drives s0 = Ok (rx_ready intent, s1) →
  sr_runId intent = runId ∧ ti_runId (te_input (sr_token intent)) = runId ∧
  ti_resumeNodeId (te_input (sr_token intent)) = sr_resumeNodeId intent ∧
  ti_pageStateRef (te_input (sr_token intent)) = sr_expectedPageStateRef intent ∧
  (∃ row0, runs s0.2 !! runId = Some row0 ∧ parseResumeTokenEnvelope (r_resume_token row0) runId = Some (sr_token intent)) ∧
  ∃ row, runs s1.2 !! runId = Some row ∧ r_status row = run_resuming ∧ r_worker_id row = Some workerId.
Proof.
  unfold resume_tx. intros (row & s2 & H1 & H2)%LTx_bind_Ok. unfold on_db, select in H1. destruct s0 as [l d]. injection H1 as <- <-.
  apply LTx_bind_Ok in H2 as (columns & s3 & [= <- <-] & H2). simpl in H2.
  destruct (runs d !! runId) as [row|] eqn:Erow; [|done]. destruct (run_columns (l_catalog l) !! runId) as [columns|]; [|done].
  destruct (negb _); [done|]. destruct (parseResumeTokenEnvelope (r_resume_token row) runId) as [token|] eqn:Etok; [|done].
  apply LTx_bind_Ok in H2 as (plan & s4 & _ & H2). apply LTx_bind_Ok in H2 as (lease & s5 & _ & H2). destruct lease as [[leaseId fresh]|]; [|done].
  apply LTx_bind_Ok in H2 as (creds & s6 & _ & H2). destruct creds; [|done]. apply LTx_bind_Ok in H2 as (u & s7 & _ & H2).
  apply LTx_bind_Ok in H2 as (n & s8 & Hn & H2). revert Hn. unfold on_db, set_resuming_run. destruct s7 as [l7 d7]. simpl.
  case_decide; [|done]. subst n. injection H2 as <- <-. destruct (runs d7 !! runId) as [r7|] eqn:E7; [|done].
  case_decide; [|done]. intros [= <-]. simpl.
  destruct (parse_token_run _ _ _ Etok) as (_ & _ & _ & Hrun).
  split_and!; try done; [by exists row|]. exists (with_worker workerId r7). by rewrite lookup_insert_eq.
Qed.

(** ** Tokens *)

Section Tokens.
Context {H : Type} (hmac_hex : string → string → string) (json_parse : string → option json) (date_parse : string → option Z)
  (iso : Z → string) (resolve : H → H * result string string) (now : H → Z).
(** The secret store answers one signing key. *)
Context (key : SigningKey) (raw : string).
Hypothesis resolve_key : ∀ h, resolve h = (h, Ok raw).
Hypothesis raw_key : json_parse raw ≫= isSigningKey = Some key.

Notation codec := (HmacResumeTokenCodec hmac_hex json_parse date_parse resolve now).

Definition authentic (t : TokenEnvelope) : bool :=
  bool_decide (te_kid t = sk_kid key) && bool_decide (te_hmac t = signHex hmac_hex (te_input t) (te_kid t) (sk_key key)).

Lemma resolveKey_key h : resolveKey json_parse resolve h = (h, Ok key).
Proof. unfold resolveKey. by rewrite resolve_key, raw_key. Qed.

Lemma issue_authentic input h : ∃ t, tc_issue codec input h = (h, Ok t) ∧ te_input t = input ∧ te_kid t = sk_kid key ∧ authentic t = true.
Proof.
  simpl. unfold hmac_issue. rewrite resolveKey_key. eexists. split; [done|]. split; [done|]. split; [done|]. unfold authentic. simpl. by rewrite !bool_decide_eq_true_2.
Qed.

Lemma verify_spec t h : tc_verify codec t h =
  (h, Ok (if authentic t then if token_expired_at date_parse t (now h) then tv_expired else tv_valid t else tv_invalid)).
Proof.
  simpl. unfold hmac_verify, authentic, hexEqual. rewrite resolveKey_key. do 2 f_equal.
  destruct (bool_decide (te_kid t = _)); [|done]. by destruct (bool_decide (te_hmac t = _)).
Qed.

Lemma parse_envelope t : blank (ti_runId (te_input t)) = false → blank (ti_resumeNodeId (te_input t)) = false →
  blank (ti_pageStateRef (te_input t)) = false → blank (ti_issuedAt (te_input t)) = false → blank (ti_expiresAt (te_input t)) = false →
  blank (te_kid t) = false → blank (te_hmac t) = false → ti_loopContext (te_input t) = None →
  parseResumeTokenEnvelope (Some (envelope_json t)) (ti_runId (te_input t)) = Some t.
Proof.
  destruct t as [[runId node page loop issued expires] kid hmac]. simpl. intros H1 H2 H3 H4 H5 H6 H7 ->. unfold stringField. simpl.
  rewrite H1. simpl. rewrite H2. simpl. rewrite H3. simpl. rewrite H4. simpl. rewrite H5. simpl. rewrite H6. simpl. rewrite H7. simpl. by rewrite decide_True.
Qed.

(** C39. The token of a suspended run is the one its resume accepts.  What the
    driver stores (the envelope the codec issues for the run, its node and page
    state) is parsed by the resume job for that run and no other, gives back the
    same node and page state, and the codec finds it valid until it expires and
    expired from then on, never invalid. *)
Theorem issued_token_accepted p h j h' : driver_codec iso codec p h = (h', Ok j) →
  date_parse (iso (tp_expiresAt p)) = Some (tp_expiresAt p) → blank (iso (tp_issuedAt p)) = false → blank (iso (tp_expiresAt p)) = false →
  (∀ k text, blank (hmac_hex k text) = false) →
  blank (tp_runId p) = false → blank (tp_resumeNodeId p) = false → blank (tp_pageStateRef p) = false → blank (sk_kid key) = false →
  ∃ t, parseResumeTokenEnvelope (Some j) (tp_runId p) = Some t ∧
    ti_resumeNodeId (te_input t) = tp_resumeNodeId p ∧ ti_pageStateRef (te_input t) = tp_pageStateRef p ∧
    (∀ runId, runId ≠ tp_runId p → parseResumeTokenEnvelope (Some j) runId = None) ∧
    ∀ h, tc_verify codec t h = (h, Ok (if (tp_expiresAt p <=? now h)%Z then tv_expired else tv_valid t)).
Proof.
  intros Hd Hp Hi Hi' Hh H1 H2 H3 H4. unfold driver_codec in Hd.
  destruct (issue_authentic (mkTokenInput (tp_runId p) (tp_resumeNodeId p) (tp_pageStateRef p) None (iso (tp_issuedAt p)) (iso (tp_expiresAt p))) h)
    as (t & E & Et & Ek & Ha). rewrite E in Hd. injection Hd as <- <-. exists t.
  assert (Hm : blank (te_hmac t) = false).
  { unfold authentic in Ha. apply andb_true_iff in Ha as [_ Ha]. apply bool_decide_eq_true in Ha. rewrite Ha. apply Hh. }
  assert (Hparse : parseResumeTokenEnvelope (Some (envelope_json t)) (ti_runId (te_input t)) = Some t).
  { apply parse_envelope; rewrite ?Et; simpl; auto. by rewrite Ek. }
  rewrite Et in Hparse. split; [done|]. rewrite Et. split; [done|]. split; [done|]. split.
  - intros runId Hne. destruct (parseResumeTokenEnvelope (Some (envelope_json t)) runId) as [t'|] eqn:Ep; [|done]. exfalso.
    apply parse_token_run in Ep as (r1 & F1 & E1 & _). apply parse_token_run in Hparse as (r2 & F2 & E2 & _). rewrite F1 in F2. simpl in E2. congruence.
  - intros h0. rewrite verify_spec, Ha. unfold token_expired_at. rewrite Et. simpl. by rewrite Hp.
Qed.

(** ** Restoration *)

Context {B : Type} (ports : WorkerPorts (H := H) (B := B)) (load : string → string → H → H * result string (option (list json))).
Notation reissue := (reissueAuthenticExpiredResumeToken iso ports (Some codec)).
Notation restore := (pg_restoreSession codec load).

Lemma leaseTx_calm {A} (body : LTx A) (w : LWorld H) a l' d' : lw_env w = [] → w_env (lw_world w) = [] →
  body (lw_leases w, w_db (lw_world w)) = Ok (a, (l', d')) →
  leaseTx body w = (mkLWorld (mkWorld d' [] (w_log (lw_world w) ++ [(w_db (lw_world w), d')]) (w_host (lw_world w))) l' [], Ok a).
Proof. intros E1 E2 Hb. unfold leaseTx, withTenantTx. rewrite E1, E2, Hb. done. Qed.

Lemma port_pure {A} (f : H → H * result string A) (w : LWorld H) a : f (w_host (lw_world w)) = (w_host (lw_world w), Ok a) → port f w = (w, Ok a).
Proof. intros E. unfold port, in_world, on_host. rewrite E. by destruct w as [[] ? ?]. Qed.

(** A world that nobody else uses, with given tables and host. *)
Definition calm_at (w : LWorld H) (l : Leases) (d : Db) (h : H) : Prop :=
  lw_env w = [] ∧ w_env (lw_world w) = [] ∧ lw_leases w = l ∧ w_db (lw_world w) = d ∧ w_host (lw_world w) = h.

Lemma leaseTx_at {A} (body : LTx A) w l d h a l' d' : calm_at w l d h → body (l, d) = Ok (a, (l', d')) →
  ∃ w', leaseTx body w = (w', Ok a) ∧ calm_at w' l' d' h.
Proof. intros (E1 & E2 & <- & <- & <-) Hb. rewrite (leaseTx_calm body w a l' d' E1 E2 Hb). by eexists. Qed.

Lemma port_at {A} (f : H → H * result string A) w l d h a : calm_at w l d h → f h = (h, Ok a) → port f w = (w, Ok a).
Proof. intros (_ & _ & _ & _ & <-) E. by apply port_pure. Qed.

Lemma verify_at t w l d h : calm_at w l d h → port (tc_verify codec t) w =
  (w, Ok (if authentic t then if token_expired_at date_parse t (now h) then tv_expired else tv_valid t else tv_invalid)).
Proof. intros Hw. eapply port_at; [done|]. apply verify_spec. Qed.

Lemma target_db runId l d d' x : resolveRunTarget runId (l, d) = Ok (x, (l, d)) → resolveRunTarget runId (l, d') = Ok (x, (l, d')).
Proof. unfold resolveRunTarget, mbind, LTx_bind, l_select, mret, LTx_ret. simpl. by intros [= ->]. Qed.

(** A valid token and a session with cookies let the run go on. *)
Lemma restore_valid intent w l d h site identity cookie cookies : calm_at w l d h → authentic (sr_token intent) = true →
  token_expired_at date_parse (sr_token intent) (now h) = false → matches_intent intent (sr_token intent) = true →
  resolveRunTarget (sr_runId intent) (l, d) = Ok (Some (site, identity), (l, d)) → load site identity h = (h, Ok (Some (cookie :: cookies))) →
  ∃ w', restore intent w = (w', Ok login_bypass) ∧ calm_at w' l d h.
Proof.
  intros Hw Ha He Hm Ht Hl. unfold pg_restoreSession, l_try. unfold mbind, L_bind. rewrite (verify_at _ w l d h Hw), Ha, He. simpl. rewrite Hm. simpl.
  destruct (leaseTx_at _ w l d h _ _ _ Hw Ht) as (w1 & E1 & Hw1). rewrite E1. unfold L_bind. rewrite (port_at _ w1 l d h _ Hw1 Hl). by exists w1.
Qed.

Lemma restore_forged intent w l d h : calm_at w l d h → authentic (sr_token intent) = false →
  restore intent w = (w, Ok (invalid_token "IR_EXPRESSION_RUNTIME")).
Proof. intros Hw Ha. unfold pg_restoreSession, l_try. unfold mbind, L_bind. by rewrite (verify_at _ w l d h Hw), Ha. Qed.

Lemma matches_with_token intent t : ti_runId (te_input t) = sr_runId intent → ti_resumeNodeId (te_input t) = sr_resumeNodeId intent →
  ti_pageStateRef (te_input t) = sr_expectedPageStateRef intent → matches_intent (with_token intent t) t = true.
Proof. intros E1 E2 E3. unfold matches_intent. simpl. by rewrite !bool_decide_eq_true_2. Qed.

(** The token is unchanged, or an expired authentic one is issued again. *)
Lemma reissue_spec runId w l d h t row : calm_at w l d h → runs d !! runId = Some row → r_status row = run_resuming →
  wp_now ports h = now h → date_parse (iso (now h + RESUME_TOKEN_TTL_MS)) = Some (now h + RESUME_TOKEN_TTL_MS)%Z →
  ∃ t' w' d' row', reissue runId t w = (w', Ok t') ∧ calm_at w' l d' h ∧ authentic t' = authentic t ∧
    (authentic t = true → token_expired_at date_parse t' (now h) = false) ∧
    ti_runId (te_input t') = ti_runId (te_input t) ∧ ti_resumeNodeId (te_input t') = ti_resumeNodeId (te_input t) ∧
    ti_pageStateRef (te_input t') = ti_pageStateRef (te_input t) ∧
    runs d' !! runId = Some row' ∧ r_status row' = run_resuming ∧ events_outbox d' = events_outbox d ∧ workitems d' = workitems d.
Proof.
  intros Hw Hr Hs Hn Hd. unfold reissueAuthenticExpiredResumeToken, l_try. unfold mbind, L_bind. rewrite (verify_at _ w l d h Hw).
  destruct (authentic t) eqn:Ha; [|by exists t, w, d, row].
  destruct (token_expired_at date_parse t (now h)) eqn:He; [|by exists t, w, d, row]. simpl.
  set (input := mkTokenInput (ti_runId (te_input t)) (ti_resumeNodeId (te_input t)) (ti_pageStateRef (te_input t)) (ti_loopContext (te_input t))
    (iso (now h)) (iso (now h + RESUME_TOKEN_TTL_MS))). destruct (issue_authentic input h) as (t' & E' & Ei & _ & Ha').
  unfold L_bind. erewrite (port_at _ w l d h t' Hw); [|unfold input in E'; rewrite Hn; exact E'].
  assert (Hu : on_db (set_resuming_run (with_resume_token (envelope_json t')) runId) (l, d) =
    Ok (1, (l, set_runs (<[runId := with_resume_token (envelope_json t') row]> (runs d)) d))).
  { unfold on_db, set_resuming_run. simpl. by rewrite Hr, decide_True by done. }
  destruct (leaseTx_at _ w l d h _ _ _ Hw Hu) as (w1 & E1 & Hw1). rewrite E1. simpl.
  eexists t', w1, _, (with_resume_token (envelope_json t') row). split; [done|]. split; [exact Hw1|]. rewrite Ei. split; [done|]. split_and!; try done; simpl.
  - intros _. unfold token_expired_at. rewrite Ei. unfold input. simpl. rewrite Hd. apply Z.leb_gt. unfold RESUME_TOKEN_TTL_MS. lia.
  - apply lookup_insert_eq.
Qed.

End Tokens.

(** ** The workitem of a refused run *)

(** A run that is refused leaves its workitem behind.  When the session cannot
    be restored (the token is invalid, there is no session, or the page is not
    the expected one and the login cannot be bypassed) the run is failed, but its
    workitem, whose checkout was paused with the run, stays processing and
    paused as it was; nothing takes it back: a sweep of checkouts at any later
    time leaves its row alone, and the run, which has ended, is not ended again. *)
Theorem refused_resume_strands_workitem runId workerId c intent outcome l d row columns wid item paused :
  goes_on outcome (sr_expectedPageStateRef intent) = false →
  runs d !! runId = Some row → r_status row = run_resuming → r_workitem_id row = Some wid →
  run_columns (l_catalog l) !! runId = Some columns →
  workitems d !! wid = Some item → w_status item = wi_processing → w_checkout_paused_at item = Some paused →
  key_free (outbox_key (runId +:+ ":run_resume:" +:+ ti_issuedAt (te_input (sr_token intent))) run_failed_system_e) d →
  ∃ es d', complete_tx runId workerId c intent outcome (l, d) = Ok (completed es, (l, d')) ∧
    run_status d' runId = Some run_failed_system ∧ workitems d' !! wid = Some item ∧
    (∀ locked job res d1 d2, workitems d1 !! wid = Some item → handleWorkitemCheckoutSweeper locked job d1 = Ok (res, d2) →
       workitems d2 !! wid = Some item) ∧
    ∀ c' reason d1, run_status d1 runId = Some run_failed_system →
      terminalize_tx (mkClaimedRun runId c' None JNull) reason d1 = Ok (false, d1).
Proof.
  intros Hb Hr Hs Hlink Hc Hw Hws Hp Hk. destruct (complete_spec runId workerId c intent outcome l d row columns Hr Hs Hc) as (es & d' & E & Hst & _ & Hwi).
  { by rewrite Hb. }
  rewrite Hb in Hst. exists es, d'. split; [done|]. split; [done|]. split; [by rewrite Hwi|]. split.
  - intros locked job res d1 d2 H1 Hsw. apply sweeper_swept in Hsw as [_ Hsw]. rewrite (sw_workitems _ _ _ Hsw), H1. simpl. f_equal.
    rewrite decide_False; [done|]. intros [Hin _]. apply (expired_ids locked d1 wid item H1) in Hin as [He _].
    unfold checkout_expired in He. by rewrite Hp, andb_false_r in He.
  - intros c' reason d1 H1. unfold terminalize_tx, mbind, Tx_bind, select. unfold run_status in H1. simpl.
    destruct (runs d1 !! runId) as [r|]; [|done]. injection H1 as H1. by rewrite H1.
Qed.

(** ** The jobs of runs on a concrete tenant

    The theorems of [WorkerProps] and [ResumeProps] at the tenant of
    [LeaseSample], with a browser that always works, a secret store with one key
    and a session with one cookie. *)

Module WorkerSample.
Import LeaseSample.

Definition executor : Executor (H := ()) :=
  mkExecutor (λ _ _ _ h, (h, Err "no browser")) (λ _ _ h, (h, Err "no browser")) (λ _ h, (h, Err "no browser")).
Definition bind (_ : RunClaimDriveInputs) (h : ()) : () * result string () := (h, Ok tt).
Definition ports : WorkerPorts (H := ()) (B := ()) :=
  mkPorts (Some bind) false false (λ _ h, (h, Ok tt)) (λ _ _ _ h, (h, Ok executor)) false None None false None None true (λ _, 1000%Z)
    (Some (λ _ h, (h, Ok dr_drained))).
Definition world (s : Leases * Db) : LWorld () := mkLWorld (mkWorld s.2 [] [] tt) s.1 [].
Definition inputs : RunClaimDriveInputs :=
  mkDriveInputs "v" None "c1" "lease0" "s" "i" 1 "n" ["example.com"] iso_context clear_all None.

(** The tables with other rows of runs, later. *)
Definition later (s : Leases * Db) (d : Db) : Leases * Db := (set_site_profiles (site_profiles s.1) s.1, d).
Definition acquired : Leases * Db := (with_session.1, db run_resuming run_queued 1000000).
Definition second : Leases * Db := run_ops [op_browser "r1" "w" (Some plan)] acquired.

Lemma later_step allowed s d : (db_now s.2 <= db_now d)%Z → rtc (lease_step json_parse uuid worker_options allowed) s (later s d).
Proof. intros Hd. apply rtc_once. destruct s as [l d0]. by constructor. Qed.
End WorkerSample.

Lemma second_lease_wedges_abort_witness :
  let s := WorkerSample.later WorkerSample.second (LeaseSample.db run_aborting run_queued 1000001) in
  abort_tx WorkerSample.ports "r1" None 30000 s = Ok (ax_result (failed "CONTROL_PLANE_INTERNAL_ERROR"), s).
Proof.
  apply (second_lease_wedges_abort LeaseSample.json_parse LeaseSample.uuid LeaseSample.worker_options WorkerSample.ports "r1" "w" (Some LeaseSample.plan)
    WorkerSample.acquired WorkerSample.second _ (hd (mkLeaseRow "" "" "" None "" iso_context bl_expired clear_all None 0 0) (browser_leases LeaseSample.with_session.1)) "lease1").
  - apply LeaseSample.policies.
  - by eexists.
  - by left.
  - reflexivity.
  - reflexivity.
  - by apply WorkerSample.later_step.
  - eexists _, _. split; [reflexivity|]. split; [reflexivity|]. split; [done|]. split; [done|]. by left.
Defined.


Lemma claim_takes_all_or_nothing_witness :
  match claim_tx LeaseSample.uuid LeaseSample.json_parse LeaseSample.worker_options "r1" "w" None true LeaseSample.start with
  | Ok ((r, Some d), s') => all_taken LeaseSample.json_parse "r1" "w" true (Some d) LeaseSample.start s'
  | _ => False
  end.
Proof.
  destruct (claim_tx _ _ _ "r1" "w" None true LeaseSample.start) as [[[r [d|]] s']|e] eqn:E; [|vm_compute in E; discriminate..].
  destruct (claim_takes_all_or_nothing LeaseSample.json_parse LeaseSample.uuid LeaseSample.worker_options "r1" "w" None true LeaseSample.start r (Some d) s'
    LeaseSample.policies) as [(es & _ & Ha)|[H _]]; [|exact E|exact Ha|discriminate H].
  by intros row ?%elem_of_nil.
Defined.

Lemma finished_run_isolates_worker_witness :
  let late := (LeaseSample.with_session.1, LeaseSample.db run_completed run_queued 1000000) in
  match (rows ← sweep_leases; isolateWorkersForExpiredBrowserLeases LeaseSample.worker_options rows) late with
  | Ok (_, s') => match acquireBrowserLease LeaseSample.uuid LeaseSample.worker_options "r2" "w" (Some LeaseSample.plan) s' with
                  | Ok (granted _, _) => False
                  | _ => True
                  end
  | Err _ => False
  end.
Proof.
  destruct (finished_run_isolates_worker LeaseSample.uuid LeaseSample.worker_options WorkerSample.ports (λ _, None) (λ _, None) (λ _, true) (λ _, "id")
    (λ _, None) pretty None (QArith_base.inject_Z 0) "r1" "w" WorkerSample.bind WorkerSample.inputs (completed []) (WorkerSample.world LeaseSample.with_session)
    (setup_run WorkerSample.ports WorkerSample.bind WorkerSample.inputs (WorkerSample.world LeaseSample.with_session)).1 tt WorkerSample.executor
    (hd (mkLeaseRow "" "" "" None "" iso_context bl_expired clear_all None 0 0) (browser_leases LeaseSample.with_session.1)))
    as [_ H]; [reflexivity|reflexivity|by left|reflexivity|].
  intros late. destruct ((rows ← sweep_leases; isolateWorkersForExpiredBrowserLeases LeaseSample.worker_options rows) late) as [[[] s']|e] eqn:E;
    [|vm_compute in E; discriminate].
  destruct (acquireBrowserLease _ _ "r2" "w" _ s') as [[[id|] s'']|] eqn:Ea; [|exact I..].
  eapply (H LeaseSample.with_session.1 late.2 (mkWorkerRow "browser" "active" 0 0 c_closed None) s'); [by left|reflexivity..|exact E|exact Ea].
Defined.

(** ** Tokens *)

Lemma blank_first c s : is_space c = false → blank (String c s) = false.
Proof.
  intros Hc. unfold blank, trim, trim_start. cbn [drop_while]. rewrite Hc. apply bool_decide_eq_false_2. cbn [trim_end].
  destruct (trim_end s); [by rewrite Hc|done].
Qed.

Module TokenSample.
Import LeaseSample.

(** A code that shows what it signs. *)
Definition hmac_hex (key text : string) : string := "h" +:+ key +:+ text.
Definition key_json (_ : string) : option json := Some (JObj [("kid", JStr "k1"); ("key", JStr "secret")]).
Definition key : SigningKey := mkSigningKey "k1" "secret".
Definition iso (z : Z) : string := "t" +:+ pretty z.
Definition date_parse (s : string) : option Z :=
  if decide (s = iso 500) then Some 500%Z else if decide (s = iso 1801000) then Some 1801000%Z else None.
Definition resolve (h : ()) : () * result string string := (h, Ok "{}").
Definition now (_ : ()) : Z := 1000.
Definition codec : TokenCodec () := HmacResumeTokenCodec hmac_hex key_json date_parse resolve now.
Definition payload : ResumeTokenPayload := mkTokenPayload "r1" "a" "ps_1" 100 500.

(** The token of a run that was suspended long ago, and one that was altered. *)
Definition token : TokenEnvelope :=
  let input := mkTokenInput "r1" "a" "ps_1" None (iso 100) (iso 500) in mkEnvelope input "k1" (signHex hmac_hex input "k1" "secret").
Definition forged : TokenEnvelope := mkEnvelope (mkTokenInput "r1" "b" "ps_1" None (iso 100) (iso 500)) "k1" (te_hmac token).

Definition tables (t : TokenEnvelope) : Leases * Db :=
  (leases, mkDb 1000 0 {[ "r1" := mkRunRow run_resume_requested (Some "wi") None 0 0 None None None (Some (envelope_json t)) None ]}
             {[ "wi" := mkWorkitemRow wi_processing 0 (Some "w") (Some 0%Z) (Some 900%Z) (Some 100%Z) ]} [] [] [] [] [] []).
Definition taken (t : TokenEnvelope) : Leases * Db :=
  match resume_tx uuid json_parse worker_options "r1" "w" None true (tables t) with Ok (_, s) => s | Err _ => tables t end.
Definition intent (t : TokenEnvelope) : SessionRestoreInput :=
  mkRestoreInput "r1" "lease0" "w" "c1" t "ps_1" (ti_resumeNodeId (te_input t)).
Definition load (_ _ : string) (h : ()) : () * result string (option (list json)) := (h, Ok (Some [JStr "cookie"])).

(** How the run ends up. *)
Definition outcome (t : TokenEnvelope) : option RunState :=
  run_status (w_db (lw_world (settle_restored iso WorkerSample.ports (Some codec) "r1" "w" None (pg_restoreSession codec load) (intent t)
    (WorkerSample.world (taken t))).1)) "r1".
End TokenSample.

Lemma issued_token_accepted_witness :
  match driver_codec TokenSample.iso TokenSample.codec TokenSample.payload tt with
  | (_, Ok j) => ∃ t, parseResumeTokenEnvelope (Some j) "r1" = Some t ∧ ti_resumeNodeId (te_input t) = "a"
  | _ => False
  end.
Proof.
  destruct (driver_codec TokenSample.iso TokenSample.codec TokenSample.payload tt) as [h [j|e]] eqn:E; [|vm_compute in E; discriminate].
  destruct (issued_token_accepted TokenSample.hmac_hex TokenSample.key_json TokenSample.date_parse TokenSample.iso TokenSample.resolve TokenSample.now
    TokenSample.key "{}" (λ _, eq_refl) eq_refl TokenSample.payload tt j h E) as (t & H1 & H2 & _); [reflexivity|reflexivity|reflexivity|intros; by apply blank_first|reflexivity..|].
  exists t. split; [exact H1|exact H2].
Defined.


Lemma refused_resume_strands_workitem_witness :
  let s := TokenSample.taken TokenSample.forged in
  match complete_tx "r1" "w" None (TokenSample.intent TokenSample.forged) (invalid_token "IR_EXPRESSION_RUNTIME") s with
  | Ok (_, s') => run_status s'.2 "r1" = Some run_failed_system ∧ w_status <$> workitems s'.2 !! "wi" = Some wi_processing
  | Err _ => False
  end.
Proof.
  intros s. destruct (refused_resume_strands_workitem "r1" "w" None (TokenSample.intent TokenSample.forged) (invalid_token "IR_EXPRESSION_RUNTIME") s.1 s.2
    (mkRunRow run_resuming (Some "wi") (Some "w") 0 0 None None None (Some (envelope_json TokenSample.forged)) None) LeaseSample.columns "wi"
    (mkWorkitemRow wi_processing 0 (Some "w") (Some 0%Z) (Some 900%Z) (Some 100%Z)) 100) as (es & d' & E & H1 & H2 & _);
    [reflexivity..|by intros o ?%elem_of_nil|].
  assert (Es : s = (s.1, s.2)) by (by destruct s). rewrite Es, E. split; [exact H1|]. simpl. by rewrite H2.
Defined.
