(* ===== verification/ErrorCatalog.v ===== *)
(** * The error catalogue and its HTTP mapping

    Models [ts/error-catalog.ts] (the closed set of error codes and what each
    means to a caller), [codegen/error-middleware.ts] (the response of a code) and
    the error boundary [app/src/runtime/errors.ts].  Texts are UTF-8. *)

From stdpp Require Import base strings list.
From Stdlib Require Import ZArith.
From S2P Require Import Prelude JsValue.

(** ** Codes *)

Inductive ErrorCode :=
| RUN_NOT_FOUND
| RESOURCE_NOT_FOUND
| RUN_ALREADY_TERMINAL
| RUN_ABORTED
| SCENARIO_VERSION_CONFLICT
| POLICY_VERSION_CONFLICT
| IR_SCHEMA_INVALID
| IR_EXPRESSION_COMPILE_ERROR
| IR_EXPRESSION_RUNTIME
| IR_NO_BRANCH_MATCHED
| SITE_PROFILE_BLOCKED
| SITE_CIRCUIT_OPEN
| SESSION_LOCKED
| SESSION_GENERATION_CONFLICT
| SESSION_REGISTRATION_REQUIRED
| CHALLENGE_UNRESOLVED
| RATE_BUDGET_EXCEEDED
| BROWSER_LEASE_EXPIRED
| BROWSER_CRASH
| CDP_DISCONNECTED
| NAVIGATION_TIMEOUT
| LLM_BUDGET_EXCEEDED
| LLM_CAPABILITY_MISMATCH
| LLM_STREAM_TIMEOUT
| LLM_STREAM_IDLE_TIMEOUT
| LLM_MALFORMED_OUTPUT
| LLM_CONTENT_FILTERED
| LLM_RATE_LIMITED
| LLM_BACKEND_UNAVAILABLE
| LLM_CONNECTION_FAILED
| AI_GOVERNANCE_POLICY_BLOCKED
| EXTRACT_SCHEMA_INVALID
| VERIFY_FAILED
| EMPTY_RESULT_NO_WITNESS
| SECRET_ACCESS_DENIED
| DOMAIN_POLICY_VIOLATION
| PROMPT_INJECTION_DETECTED
| ARTIFACT_NOT_REDACTED
| SHELL_COMMAND_NOT_ALLOWED
| UNAUTHENTICATED
| AUTHZ_FORBIDDEN
| TENANT_OFFBOARDING
| CONNECTOR_PERMISSION_DENIED
| CONNECTOR_INCOMPATIBLE
| CONNECTOR_HOOK_FAILED
| SINK_DELIVERY_FAILED
| RAW_PERSIST_FAILED
| CONTROL_PLANE_INTERNAL_ERROR
| HUMAN_TASK_EXPIRED
| APPROVAL_ALREADY_DECIDED
| WORKITEM_CHECKOUT_CONFLICT
| DEAD_LETTER.
#[export] Instance ErrorCode_eq_dec : EqDecision ErrorCode.
Proof. solve_decision. Defined.

Definition ErrorCode_str (c : ErrorCode) : string :=
  match c with
  | RUN_NOT_FOUND => "RUN_NOT_FOUND"
  | RESOURCE_NOT_FOUND => "RESOURCE_NOT_FOUND"
  | RUN_ALREADY_TERMINAL => "RUN_ALREADY_TERMINAL"
  | RUN_ABORTED => "RUN_ABORTED"
  | SCENARIO_VERSION_CONFLICT => "SCENARIO_VERSION_CONFLICT"
  | POLICY_VERSION_CONFLICT => "POLICY_VERSION_CONFLICT"
  | IR_SCHEMA_INVALID => "IR_SCHEMA_INVALID"
  | IR_EXPRESSION_COMPILE_ERROR => "IR_EXPRESSION_COMPILE_ERROR"
  | IR_EXPRESSION_RUNTIME => "IR_EXPRESSION_RUNTIME"
  | IR_NO_BRANCH_MATCHED => "IR_NO_BRANCH_MATCHED"
  | SITE_PROFILE_BLOCKED => "SITE_PROFILE_BLOCKED"
  | SITE_CIRCUIT_OPEN => "SITE_CIRCUIT_OPEN"
  | SESSION_LOCKED => "SESSION_LOCKED"
  | SESSION_GENERATION_CONFLICT => "SESSION_GENERATION_CONFLICT"
  | SESSION_REGISTRATION_REQUIRED => "SESSION_REGISTRATION_REQUIRED"
  | CHALLENGE_UNRESOLVED => "CHALLENGE_UNRESOLVED"
  | RATE_BUDGET_EXCEEDED => "RATE_BUDGET_EXCEEDED"
  | BROWSER_LEASE_EXPIRED => "BROWSER_LEASE_EXPIRED"
  | BROWSER_CRASH => "BROWSER_CRASH"
  | CDP_DISCONNECTED => "CDP_DISCONNECTED"
  | NAVIGATION_TIMEOUT => "NAVIGATION_TIMEOUT"
  | LLM_BUDGET_EXCEEDED => "LLM_BUDGET_EXCEEDED"
  | LLM_CAPABILITY_MISMATCH => "LLM_CAPABILITY_MISMATCH"
  | LLM_STREAM_TIMEOUT => "LLM_STREAM_TIMEOUT"
  | LLM_STREAM_IDLE_TIMEOUT => "LLM_STREAM_IDLE_TIMEOUT"
  | LLM_MALFORMED_OUTPUT => "LLM_MALFORMED_OUTPUT"
  | LLM_CONTENT_FILTERED => "LLM_CONTENT_FILTERED"
  | LLM_RATE_LIMITED => "LLM_RATE_LIMITED"
  | LLM_BACKEND_UNAVAILABLE => "LLM_BACKEND_UNAVAILABLE"
  | LLM_CONNECTION_FAILED => "LLM_CONNECTION_FAILED"
  | AI_GOVERNANCE_POLICY_BLOCKED => "AI_GOVERNANCE_POLICY_BLOCKED"
  | EXTRACT_SCHEMA_INVALID => "EXTRACT_SCHEMA_INVALID"
  | VERIFY_FAILED => "VERIFY_FAILED"
  | EMPTY_RESULT_NO_WITNESS => "EMPTY_RESULT_NO_WITNESS"
  | SECRET_ACCESS_DENIED => "SECRET_ACCESS_DENIED"
  | DOMAIN_POLICY_VIOLATION => "DOMAIN_POLICY_VIOLATION"
  | PROMPT_INJECTION_DETECTED => "PROMPT_INJECTION_DETECTED"
  | ARTIFACT_NOT_REDACTED => "ARTIFACT_NOT_REDACTED"
  | SHELL_COMMAND_NOT_ALLOWED => "SHELL_COMMAND_NOT_ALLOWED"
  | UNAUTHENTICATED => "UNAUTHENTICATED"
  | AUTHZ_FORBIDDEN => "AUTHZ_FORBIDDEN"
  | TENANT_OFFBOARDING => "TENANT_OFFBOARDING"
  | CONNECTOR_PERMISSION_DENIED => "CONNECTOR_PERMISSION_DENIED"
  | CONNECTOR_INCOMPATIBLE => "CONNECTOR_INCOMPATIBLE"
  | CONNECTOR_HOOK_FAILED => "CONNECTOR_HOOK_FAILED"
  | SINK_DELIVERY_FAILED => "SINK_DELIVERY_FAILED"
  | RAW_PERSIST_FAILED => "RAW_PERSIST_FAILED"
  | CONTROL_PLANE_INTERNAL_ERROR => "CONTROL_PLANE_INTERNAL_ERROR"
  | HUMAN_TASK_EXPIRED => "HUMAN_TASK_EXPIRED"
  | APPROVAL_ALREADY_DECIDED => "APPROVAL_ALREADY_DECIDED"
  | WORKITEM_CHECKOUT_CONFLICT => "WORKITEM_CHECKOUT_CONFLICT"
  | DEAD_LETTER => "DEAD_LETTER"
  end.

Inductive CatalogClass := class_business | class_system | class_challenge | class_security | class_none.
#[export] Instance CatalogClass_eq_dec : EqDecision CatalogClass.
Proof. solve_decision. Defined.

Record ErrorMeta := mkMeta {
  em_retryable : bool;
  em_httpStatus : Z;
  em_exceptionClass : CatalogClass;
  em_userMessage : string;
  em_operatorAction : string
}.

Definition ERROR_CATALOG (c : ErrorCode) : ErrorMeta :=
  match c with
  | RUN_NOT_FOUND => mkMeta false 404 class_none "실행을 찾을 수 없습니다."
      "run_id 확인"
  | RESOURCE_NOT_FOUND => mkMeta false 404 class_none "대상을 찾을 수 없습니다."
      "리소스 id/종류 확인(api-surface.md)"
  | RUN_ALREADY_TERMINAL => mkMeta false 409 class_none "이미 종료된 실행입니다."
      "상태 확인 후 새 실행"
  | RUN_ABORTED => mkMeta false 409 class_none "실행이 중단되었습니다."
      "-"
  | SCENARIO_VERSION_CONFLICT => mkMeta false 412 class_none "버전 충돌. 최신본을 다시 불러오세요."
      "If-Match 재시도"
  | POLICY_VERSION_CONFLICT => mkMeta false 412 class_none "정책 버전 충돌. 최신 정책을 다시 불러오세요."
      "gateway_policies.version If-Match 재시도"
  | IR_SCHEMA_INVALID => mkMeta false 422 class_business "시나리오 정의 오류."
      "IR 스키마 검증 로그 확인"
  | IR_EXPRESSION_COMPILE_ERROR => mkMeta false 422 class_business "조건식 오류."
      "IREL 컴파일 에러 위치 확인"
  | IR_EXPRESSION_RUNTIME => mkMeta true 500 class_system "일시 오류."
      "선행 노드 skip 여부 확인"
  | IR_NO_BRANCH_MATCHED => mkMeta true 500 class_system "일시 오류."
      "on[] 분기 조건/PageState flags 확인(무매칭 — IREL_RUNTIME_MISSING과 동일 원칙)"
  | SITE_PROFILE_BLOCKED => mkMeta false 403 class_security "해당 사이트는 승인이 필요합니다."
      "site risk=red 승인 워크플로우"
  | SITE_CIRCUIT_OPEN => mkMeta true 503 class_system "일시적으로 수집이 중단되었습니다."
      "차단율 대시보드 확인, 윈도우 재개"
  | SESSION_LOCKED => mkMeta true 409 class_system "잠시 후 재시도됩니다."
      "credential 동시 실행 상한 확인"
  | SESSION_GENERATION_CONFLICT => mkMeta true 409 class_system "세션 갱신 충돌."
      "세션 재조회"
  | SESSION_REGISTRATION_REQUIRED => mkMeta false 422 class_system "로그인 세션 등록이 필요합니다."
      "보안·개인정보에서 세션 등록 후 재실행"
  | CHALLENGE_UNRESOLVED => mkMeta false 422 class_challenge "추가 인증이 필요합니다."
      "Human Task 인박스 처리"
  | RATE_BUDGET_EXCEEDED => mkMeta true 429 class_system "요청 한도 초과. 다음 윈도우에 처리됩니다."
      "일일 예산/윈도우 조정"
  | BROWSER_LEASE_EXPIRED => mkMeta true 500 class_system "재시도됩니다."
      "lease sweeper 동작 확인"
  | BROWSER_CRASH => mkMeta true 500 class_system "재시도됩니다."
      "브라우저 메모리/재생성 확인"
  | CDP_DISCONNECTED => mkMeta true 500 class_system "재시도됩니다."
      "CDP 엔드포인트 상태 확인"
  | NAVIGATION_TIMEOUT => mkMeta true 504 class_system "페이지 응답이 지연되어 재시도됩니다."
      "대상 사이트 응답·세션 상태·네트워크 확인"
  | LLM_BUDGET_EXCEEDED => mkMeta false 402 class_system "처리 한도 초과."
      "token budget 상향 또는 시나리오 점검"
  | LLM_CAPABILITY_MISMATCH => mkMeta false 422 class_system "모델 미지원 작업."
      "model policy/capabilities 확인"
  | LLM_STREAM_TIMEOUT => mkMeta false 504 class_system "응답 지연."
      "모델 백엔드 상태 확인"
  | LLM_STREAM_IDLE_TIMEOUT => mkMeta true 504 class_system "재시도됩니다."
      "fallback model 동작 확인"
  | LLM_MALFORMED_OUTPUT => mkMeta true 502 class_system "재시도됩니다."
      "prompt/schema 점검(반복 시)"
  | LLM_CONTENT_FILTERED => mkMeta false 422 class_business "처리할 수 없는 콘텐츠."
      "입력 검토"
  | LLM_RATE_LIMITED => mkMeta true 429 class_system "잠시 후 재시도됩니다."
      "모델 rate limit — 백오프/동시성/예산 확인"
  | LLM_BACKEND_UNAVAILABLE => mkMeta true 502 class_system "재시도됩니다."
      "모델 백엔드 5xx — 상태/대체 모델 확인"
  | LLM_CONNECTION_FAILED => mkMeta true 502 class_system "재시도됩니다."
      "백엔드 연결 실패 — 엔드포인트/네트워크 확인"
  | AI_GOVERNANCE_POLICY_BLOCKED => mkMeta false 403 class_security "AI governance policy blocked the request."
      "Check ai_runtime_policies and model/prompt/eval/cost evidence."
  | EXTRACT_SCHEMA_INVALID => mkMeta false 422 class_business "데이터 형식 오류."
      "출력 스키마/페이지 변경 확인"
  | VERIFY_FAILED => mkMeta true 500 class_system "재시도됩니다."
      "verify 기준/취약 스텝 확인"
  | EMPTY_RESULT_NO_WITNESS => mkMeta false 422 class_business "결과 확인 불가."
      "empty_result_allowed witness 추가"
  | SECRET_ACCESS_DENIED => mkMeta false 403 class_security "권한이 없습니다."
      "RBAC/Vault 정책 확인"
  | DOMAIN_POLICY_VIOLATION => mkMeta false 403 class_security "허용되지 않은 이동."
      "allowed domains 점검(침해 의심)"
  | PROMPT_INJECTION_DETECTED => mkMeta false 422 class_security "비정상 콘텐츠 감지."
      "페이지 출처/공격 가능성 검토"
  | ARTIFACT_NOT_REDACTED => mkMeta false 409 class_security "준비 중입니다."
      "redaction job 상태 확인"
  | SHELL_COMMAND_NOT_ALLOWED => mkMeta false 403 class_security "허용되지 않은 명령입니다."
      "signed command registry 등록 확인(security-contracts.md §shell)"
  | UNAUTHENTICATED => mkMeta false 401 class_security "인증이 필요합니다."
      "유효한 Bearer JWT 제시(auth-rbac.md §3) — 토큰 누락/서명 무효"
  | AUTHZ_FORBIDDEN => mkMeta false 403 class_security "권한이 없습니다."
      "역할/권한 매트릭스 확인(auth-rbac.md §2)"
  | TENANT_OFFBOARDING => mkMeta false 409 class_none "이 테넌트는 오프보딩 진행 중입니다."
      "보안 허브 오프보딩 원장 확인(취소는 유예기간 내 admin)"
  | CONNECTOR_PERMISSION_DENIED => mkMeta false 403 class_security "커넥터 권한 위반."
      "manifest permissions 확인"
  | CONNECTOR_INCOMPATIBLE => mkMeta false 409 class_system "버전 비호환."
      "runtime/IR 버전 호환 확인"
  | CONNECTOR_HOOK_FAILED => mkMeta false 500 class_system "커넥터 설치 오류."
      "hook 로그 + rollback 확인"
  | SINK_DELIVERY_FAILED => mkMeta true 502 class_system "전달 재시도 중."
      "Sink DLQ replay"
  | RAW_PERSIST_FAILED => mkMeta true 500 class_system "재시도됩니다."
      "스토리지 상태 확인"
  | CONTROL_PLANE_INTERNAL_ERROR => mkMeta false 500 class_system "내부 오류가 발생했습니다."
      "control-plane error log와 correlation_id 확인"
  | HUMAN_TASK_EXPIRED => mkMeta false 410 class_business "처리 기한 만료."
      "재처리 또는 escalate"
  | APPROVAL_ALREADY_DECIDED => mkMeta false 409 class_none "이미 처리된 결재입니다."
      "결재 상태 확인(이중결재 방지)"
  | WORKITEM_CHECKOUT_CONFLICT => mkMeta true 409 class_system "재시도됩니다."
      "unique_reference 중복 확인"
  | DEAD_LETTER => mkMeta false 200 class_system "수동 재처리 대기."
      "DLQ replay API"
  end.

(** ** Responses *)

Record ApiError := mkApiError {
  ae_code : ErrorCode;
  ae_message : string;
  ae_correlation_id : string;
  ae_details : option json
}.

Inductive ToApiErrorResult :=
| ApiErrorResponse (status : Z) (body : ApiError)
| NotificationResponse (code : ErrorCode) (correlationId : string).

Definition NON_ERROR_HTTP_STATUS : Z := 200.

Definition toApiError (code : ErrorCode) (correlationId : string) (details : option json) : ToApiErrorResult :=
  if (em_httpStatus (ERROR_CATALOG code) =? NON_ERROR_HTTP_STATUS)%Z then NotificationResponse code correlationId
  else ApiErrorResponse (em_httpStatus (ERROR_CATALOG code)) (mkApiError code (em_userMessage (ERROR_CATALOG code)) correlationId details).

Definition isApiErrorResponse (r : ToApiErrorResult) : bool :=
  match r with ApiErrorResponse _ _ => true | NotificationResponse _ _ => false end.

(** ** What the handlers throw *)

(** A classified error, an error of the request layer of Fastify (with its code),
    or anything else. *)
Inductive HandlerError := thrown_api (code : ErrorCode) (details : option json) | thrown_fastify (code : string) | thrown_other.

Definition isMalformedRequestError (code : string) : bool :=
  starts_with "FST_ERR_CTP_" code || bool_decide (code = "FST_ERR_VALIDATION").

(** What [sendApiError] sends: a status and a body, if the code has one. *)
Definition sendApiError (code : ErrorCode) (correlationId : string) (details : option json) : Z * option ApiError :=
  match toApiError code correlationId details with
  | ApiErrorResponse status body => (status, Some body)
  | NotificationResponse _ _ => (500%Z, None)
  end.

(** The error handler: the raw error never reaches the response. *)
Definition errorHandler (e : HandlerError) (correlationId : string) : Z * option ApiError :=
  match e with
  | thrown_api code details => sendApiError code correlationId details
  | thrown_fastify code =>
      if isMalformedRequestError code
      then sendApiError IR_SCHEMA_INVALID correlationId (Some (JObj [("reason", JStr "malformed_request")]))
      else sendApiError CONTROL_PLANE_INTERNAL_ERROR correlationId None
  | thrown_other => sendApiError CONTROL_PLANE_INTERNAL_ERROR correlationId None
  end.

(** ** Facts *)

(** Only the dead-letter notice is not an error response. *)
Lemma isApiErrorResponse_iff code c d : isApiErrorResponse (toApiError code c d) = false ↔ code = DEAD_LETTER.
Proof. by destruct code. Qed.

(** Every other code is answered with a status between 400 and 599 and with the
    correlation id of the request; what is not classified becomes a 500 without
    details. *)
Theorem error_responses_well_formed :
  (∀ code cid details, code ≠ DEAD_LETTER →
     ∃ status, errorHandler (thrown_api code details) cid = (status, Some (mkApiError code (em_userMessage (ERROR_CATALOG code)) cid details)) ∧
               (400 <= status < 600)%Z ∧ status = em_httpStatus (ERROR_CATALOG code)) ∧
  (∀ cid, errorHandler thrown_other cid = (500%Z, Some (mkApiError CONTROL_PLANE_INTERNAL_ERROR (em_userMessage (ERROR_CATALOG CONTROL_PLANE_INTERNAL_ERROR)) cid None))) ∧
  (∀ code, em_retryable (ERROR_CATALOG code) = true →
     em_httpStatus (ERROR_CATALOG code) ∈ [409; 429; 500; 502; 503; 504]%Z ∧
     em_exceptionClass (ERROR_CATALOG code) = class_system).
Proof.
  repeat split.
  - intros [] ? ? ?; try done; eexists; (split; [reflexivity|]); (split; [|reflexivity]); vm_compute; split; congruence.
  - destruct code; try done; apply (bool_decide_unpack _); vm_compute; exact I.
  - by destruct code.
Qed.
