(* ===== verification/ApiShared.v ===== *)
(** * Helpers of the request handlers

    The recognisers and readers [app/src/api] shares: the regular expression of
    identifiers and [isRecord] of [server-shared.ts], the strict ISO-8601 check
    that [server-create-run.ts], [security-audit.ts] and
    [ai-governance-policy.ts] each carry, and [canonicalRequestHash] of
    [idempotency.ts]. *)

From stdpp Require Import base strings list.
From Stdlib Require Import Ascii ZArith Lia.
From S2P Require Import Prelude JsValue JsText.

(** ** Identifiers *)

Definition is_hex_char (c : ascii) : bool := is_digit_char c || in_range 97 102 c || in_range 65 70 c.

(** The rest of the text after [n] characters of a class. *)
Fixpoint skip_chars (p : ascii → bool) (n : nat) (s : string) : option string :=
  match n, s with
  | O, _ => Some s
  | S n', String c s' => if p c then skip_chars p n' s' else None
  | S _, EmptyString => None
  end.
Definition skip_char (c : ascii) (s : string) : option string := skip_chars (Ascii.eqb c) 1 s.

(** [/^[0-9a-f]{8}-[0-9a-f]{4}-[0-9a-f]{4}-[0-9a-f]{4}-[0-9a-f]{12}$/i]. *)
Definition UUID_RE (s : string) : bool :=
  bool_decide (
    (s ← skip_chars is_hex_char 8 s; s ← skip_char "-"%char s;
     s ← skip_chars is_hex_char 4 s; s ← skip_char "-"%char s;
     s ← skip_chars is_hex_char 4 s; s ← skip_char "-"%char s;
     s ← skip_chars is_hex_char 4 s; s ← skip_char "-"%char s;
     skip_chars is_hex_char 12 s) = Some EmptyString).

(** A record is an object that is not an array. *)
Definition isRecord (v : option json) : option (list (string * json)) :=
  match v with Some (JObj f) => Some f | _ => None end.

Definition IDEMPOTENCY_TTL_MS : Z := 24 * 60 * 60 * 1000.

(** ** Dates *)

Definition isLeapYear (year : Z) : bool :=
  (year mod 4 =? 0)%Z && (negb (year mod 100 =? 0)%Z || (year mod 400 =? 0)%Z).
Definition daysInMonth (year month : Z) : Z :=
  if (month =? 2)%Z then (if isLeapYear year then 29 else 28)%Z
  else if bool_decide (month ∈ [4; 6; 9; 11]%Z) then 30%Z else 31%Z.

Fixpoint read_digits (n : nat) (acc : Z) (s : string) : option (Z * string) :=
  match n, s with
  | O, _ => Some (acc, s)
  | S n', String c s' => if is_digit_char c then read_digits n' (10 * acc + (Z.of_nat (code c) - 48)) s' else None
  | S _, EmptyString => None
  end.

(** The rest after a run of digits, and its length. *)
Fixpoint skip_digits (s : string) : nat * string :=
  match s with
  | String c s' => if is_digit_char c then let '(n, r) := skip_digits s' in (S n, r) else (O, s)
  | EmptyString => (O, s)
  end.

(** [(?:\.\d{1,9})?]. *)
Definition skip_fraction (s : string) : option string :=
  match s with
  | String "."%char s' => let '(n, r) := skip_digits s' in if (1 <=? n) && (n <=? 9) then Some r else None
  | _ => Some s
  end.

(** [(Z|[+-]\d{2}:\d{2})$], with the hours and minutes of the offset. *)
Definition read_offset (s : string) : option (option (Z * Z)) :=
  match s with
  | String "Z"%char EmptyString => Some None
  | String "+"%char s' | String "-"%char s' =>
      '(h, s') ← read_digits 2 0 s'; s' ← skip_char ":"%char s'; '(m, s') ← read_digits 2 0 s';
      match s' with EmptyString => Some (Some (h, m)) | _ => None end
  | _ => None
  end.

Record IsoParts := mkIso {
  iso_year : Z; iso_month : Z; iso_day : Z; iso_hour : Z; iso_minute : Z; iso_second : Z;
  iso_offset : option (Z * Z)
}.

Definition ISO_8601_RE (s : string) : option IsoParts :=
  '(year, s) ← read_digits 4 0 s; s ← skip_char "-"%char s;
  '(month, s) ← read_digits 2 0 s; s ← skip_char "-"%char s;
  '(day, s) ← read_digits 2 0 s; s ← skip_char "T"%char s;
  '(hour, s) ← read_digits 2 0 s; s ← skip_char ":"%char s;
  '(minute, s) ← read_digits 2 0 s; s ← skip_char ":"%char s;
  '(second, s) ← read_digits 2 0 s; s ← skip_fraction s;
  offset ← read_offset s;
  Some (mkIso year month day hour minute second offset).

Definition isStrictIsoDateTime (value : string) : bool :=
  match ISO_8601_RE value with
  | None => false
  | Some p =>
      (1 <=? iso_month p)%Z && (iso_month p <=? 12)%Z &&
      (iso_hour p <=? 23)%Z && (iso_minute p <=? 59)%Z && (iso_second p <=? 59)%Z &&
      match iso_offset p with None => true | Some (h, m) => (h <=? 23)%Z && (m <=? 59)%Z end &&
      (1 <=? iso_day p)%Z && (iso_day p <=? daysInMonth (iso_year p) (iso_month p))%Z
  end.

Example strict_iso_leap_day :
  isStrictIsoDateTime "2024-02-29T23:59:59.123456789+09:00" = true ∧
  isStrictIsoDateTime "2023-02-29T00:00:00Z" = false ∧
  isStrictIsoDateTime "2024-02-29T24:00:00Z" = false ∧
  isStrictIsoDateTime "2024-02-29T10:00:00.Z" = false ∧
  isStrictIsoDateTime "2024-02-29 10:00:00Z" = false.
Proof. vm_compute. done. Qed.

(** ** The hash of a request *)

(** [Object.keys(record).sort()] and the text of every value. *)
Fixpoint insert_text (p : string * string) (l : list (string * string)) : list (string * string) :=
  match l with
  | [] => [p]
  | q :: l' => match String.compare p.1 q.1 with Gt => q :: insert_text p l' | _ => p :: l end
  end.

Fixpoint requestStringify (v : json) : string :=
  match v with
  | JArr l => "[" +:+ join "," (map requestStringify l) +:+ "]"
  | JObj f =>
      "{" +:+ join "," (map (λ p, json_text (JStr p.1) +:+ ":" +:+ p.2)
                          (foldr insert_text [] (map (λ p, (p.1, requestStringify p.2)) f))) +:+ "}"
  | _ => json_text v
  end.

Section Hash.
(** [createHash("sha256").update(text).digest("hex")]. *)
Context (sha256 : string → string).

Definition canonicalRequestHash (method path : string) (body : json) : string :=
  sha256 (requestStringify (JObj [("method", JStr method); ("path", JStr path); ("body", body)])).
End Hash.

Example request_text :
  requestStringify (JObj [("path", JStr "/v1/runs"); ("body", JObj [("b", JNum (num_of_Z 1)); ("a", JArr [JNull])])]) =
  (String "{" (json_text (JStr "body") +:+ ":{" +:+ json_text (JStr "a") +:+ ":[null]," +:+ json_text (JStr "b") +:+ ":1}," +:+
   json_text (JStr "path") +:+ ":" +:+ json_text (JStr "/v1/runs") +:+ "}"))%char.
Proof. vm_compute. reflexivity. Qed.
