(* ===== verification/AuditLog.v ===== *)
(** * The audit log as a hash chain

    Models [app/src/runtime/audit-record-hash.ts] (the hash of a row and the
    verifier of the chain) and the three writers of [audit_log]:
    [appendGovernanceAudit] of [app/src/api/role-assignments.ts],
    [PgDurableSecurityAuditDecisionWriter] of [security-audit.ts] and
    [appendWorkerBypassAuditWithClient] of
    [app/src/worker/runtime-worker-lifecycle-audit.ts], with [safeSerialize] of
    [security/compliance-scaffold.ts].  The log of a tenant is the list of its
    rows in order of insertion; the advisory lock makes an append atomic.  A [uuid]
    column gives its text back in lower case; a [jsonb] column gives the value
    back.  Times are milliseconds. *)

From stdpp Require Import base strings list pretty.
From Stdlib Require Import Ascii ZArith Lia.
From S2P Require Import Prelude JsValue Rbac JsText Database ApiShared.

(** ** Rows *)

Record AuditHashInput := mkHashInput {
  hi_tenantId : string;
  hi_sequenceNo : Z;
  hi_actor : json;
  hi_action : string;
  hi_outcome : string;
  hi_reason : option string;
  hi_correlationId : string;
  hi_idempotencyKey : string;
  hi_occurredAt : Z;
  hi_retentionUntil : option Z;
  hi_payloadSchemaRef : string;
  hi_payload : json;
  hi_previousHash : string
}.

Record AuditRow := mkAuditRow {
  au_sequence_no : Z;
  au_actor : json;
  au_action : string;
  au_outcome : string;
  au_reason : option string;
  au_correlation_id : string;
  au_idempotency_key : string;
  au_occurred_at : Z;
  au_retention_until : option Z;
  au_payload_schema_ref : string;
  au_payload : json;
  au_previous_hash : option string;
  au_hash : string;
  au_deleted : bool
}.

(** What [::uuid] stores of a text. *)
Definition uuid_text (s : string) : string := toLowerCase s.

(** ** Serialisation that refuses secrets *)

Section Secrets.
(** The secrets handed out so far. *)
Context (tracked : string → bool).

(** The path of the first secret found, if any. *)
Fixpoint assertNoTrackedPlainSecret (path : string) (v : json) : option string :=
  match v with
  | JStr s => if tracked s then Some path else None
  | JArr l =>
      (fix items (i : nat) (l : list json) : option string :=
         match l with
         | [] => None
         | x :: rest =>
             match assertNoTrackedPlainSecret (path +:+ "[" +:+ pretty i +:+ "]") x with
             | Some p => Some p
             | None => items (S i) rest
             end
         end) 0 l
  | JObj f =>
      (fix entries (f : list (string * json)) : option string :=
         match f with
         | [] => None
         | (k, x) :: rest =>
             match assertNoTrackedPlainSecret (path +:+ "." +:+ k) x with
             | Some p => Some p
             | None => entries rest
             end
         end) f
  | _ => None
  end.

(** [JSON.parse(JSON.stringify(v))]: numbers that are not finite become null. *)
Fixpoint json_stored (v : json) : json :=
  match v with
  | JNum x => if num_is_finite x then v else JNull
  | JArr l => JArr (map json_stored l)
  | JObj f => JObj (map (λ p, (p.1, json_stored p.2)) f)
  | _ => v
  end.

Definition safeSerialize (v : json) : result DbError json :=
  match assertNoTrackedPlainSecret "$" v with
  | Some path => Err (E_error ("PlainSecret serialization blocked at " +:+ path))
  | None => Ok (json_stored v)
  end.
End Secrets.

(** ** The hash of a row *)

Section Chain.
(** The digest, [Date.toISOString] and [String.prototype.localeCompare]. *)
Context (sha256 : string → string) (iso : Z → string) (localeCompare : string → string → comparison).

Fixpoint insert_locale (p : string * string) (l : list (string * string)) : list (string * string) :=
  match l with
  | [] => [p]
  | q :: l' => match localeCompare p.1 q.1 with Gt => q :: insert_locale p l' | _ => p :: l end
  end.

Fixpoint canonicalize (v : json) : string :=
  match v with
  | JArr l => "[" +:+ join "," (map canonicalize l) +:+ "]"
  | JObj f =>
      "{" +:+ join "," (map (λ p, json_text (JStr p.1) +:+ ":" +:+ p.2)
                          (foldr insert_locale [] (map (λ p, (p.1, canonicalize p.2)) f))) +:+ "}"
  | _ => json_text v
  end.

Definition json_opt (s : option string) : json := match s with Some s => JStr s | None => JNull end.

Definition hash_fields (i : AuditHashInput) : json :=
  JObj [("tenantId", JStr (hi_tenantId i)); ("sequence", JNum (num_of_Z (hi_sequenceNo i)));
        ("actor", hi_actor i); ("action", JStr (hi_action i)); ("outcome", JStr (hi_outcome i));
        ("reason", json_opt (hi_reason i)); ("correlationId", JStr (hi_correlationId i));
        ("idempotencyKey", JStr (hi_idempotencyKey i)); ("occurredAt", JStr (iso (hi_occurredAt i)));
        ("retentionUntil", json_opt (iso <$> hi_retentionUntil i));
        ("payloadSchemaRef", JStr (hi_payloadSchemaRef i)); ("payload", hi_payload i);
        ("previousHash", JStr (hi_previousHash i))].

Definition computeAuditHash (i : AuditHashInput) : string := "sha256:" +:+ sha256 (canonicalize (hash_fields i)).

(** ** Appending *)

(** What a writer hands over; the sequence number and the link are added. *)
Record AuditEntry := mkAuditEntry {
  en_actor : json;
  en_action : string;
  en_outcome : string;
  en_reason : option string;
  en_correlationId : string;
  en_idempotencyKey : string;
  en_occurredAt : Z;
  en_retentionUntil : option Z;
  en_payload : json
}.

Definition SECURITY_AUDIT_PAYLOAD_SCHEMA_REF : string := "audit/security-boundary-decision@1".
Definition SECURITY_AUDIT_REQUIRED_ACTIONS : list string :=
  ["artifact.read"; "secret.resolve"; "connector.enable"; "connector.install"; "scenario.certify";
   "scenario.decertify"; "scenario_release.create"; "scenario_release.submit"; "scenario_release.approve";
   "scenario_release.reject"; "scenario_release.deploy"; "scenario_release.rollback"; "run.create";
   "run.rerun"; "run.resume"; "run.pause"; "run.prioritize"; "credential.manage"; "worker_pool.manage";
   "rbac.grant"; "rbac.revoke"; "scim.sync"; "tenant_data.export"; "tenant_data.purge.request";
   "tenant_data.purge.approve"; "network.request"; "prompt.inspect"; "ai_governance.manage";
   "ai_governance.enforce"; "bypassrls.use"].
(** [Number.MAX_SAFE_INTEGER]. *)
Definition MAX_SAFE_INTEGER : Z := 2 ^ 53 - 1.

(** [ORDER BY sequence_no DESC LIMIT 1]. *)
Fixpoint last_row (best : option AuditRow) (log : list AuditRow) : option AuditRow :=
  match log with
  | [] => best
  | row :: rest =>
      last_row (match best with
                | Some b => if (au_sequence_no b <? au_sequence_no row)%Z then Some row else best
                | None => Some row
                end) rest
  end.

Definition next_sequence (log : list AuditRow) : Z :=
  match last_row None log with Some row => (au_sequence_no row + 1)%Z | None => 1%Z end.

Definition entry_input (tenantId : string) (log : list AuditRow) (e : AuditEntry) : AuditHashInput :=
  mkHashInput tenantId (next_sequence log) (en_actor e) (en_action e) (en_outcome e) (en_reason e) (en_correlationId e)
    (en_idempotencyKey e) (en_occurredAt e) (en_retentionUntil e) SECURITY_AUDIT_PAYLOAD_SCHEMA_REF (en_payload e)
    (match last_row None log with Some row => au_hash row | None => "GENESIS" end).

Definition entry_row (tenantId : string) (log : list AuditRow) (e : AuditEntry) : AuditRow :=
  mkAuditRow (next_sequence log) (en_actor e) (en_action e) (en_outcome e) (en_reason e) (uuid_text (en_correlationId e))
    (en_idempotencyKey e) (en_occurredAt e) (en_retentionUntil e) SECURITY_AUDIT_PAYLOAD_SCHEMA_REF (en_payload e)
    (au_hash <$> last_row None log) (computeAuditHash (entry_input tenantId log e)) false.

(** The [INSERT]: the idempotency key and the hash are unique. *)
Definition append_entry (tenantId : string) (e : AuditEntry) (log : list AuditRow) : result DbError (list AuditRow) :=
  let row := entry_row tenantId log e in
  if existsb (λ r, bool_decide (au_idempotency_key r = en_idempotencyKey e)) log then Err (E_unique (en_idempotencyKey e)) else
  if existsb (λ r, bool_decide (au_hash r = au_hash row)) log then Err (E_unique (au_hash row)) else
  Ok (log ++ [row]).

Record Principal := mkPrincipal { pn_tenantId : string; pn_subjectId : string; pn_roles : list Role }.

Definition Role_str (r : Role) : string :=
  match r with viewer => "viewer" | operator => "operator" | reviewer => "reviewer" | approver => "approver" | admin => "admin" end.

Definition audit_actor (p : Principal) : json :=
  JObj [("subjectId", JStr (pn_subjectId p)); ("roles", JArr (map (λ r, JStr (Role_str r)) (pn_roles p)))].

Section Writers.
Context (tracked : string → bool).

(** [key] is the Idempotency-Key header, [fresh] what [randomUUID] returns. *)
Definition appendGovernanceAudit (p : Principal) (key : option string) (requestCorrelationId fresh : string) (now : Z)
    (action outcome reason : string) (payload : json) (log : list AuditRow) : result DbError (list AuditRow) :=
  let idempotencyKey := match key with
                        | Some (String _ _ as k) => k
                        | _ => action +:+ ":" +:+ fresh
                        end in
  let correlationId := if UUID_RE requestCorrelationId then requestCorrelationId else fresh in
  payload ← safeSerialize tracked payload;
  append_entry (pn_tenantId p)
    (mkAuditEntry (audit_actor p) action outcome (Some reason) correlationId idempotencyKey now
       (Some (now + 365 * 24 * 60 * 60 * 1000)%Z) payload) log.

(** The durable writer; [date_parse] is [new Date(text).getTime()]. *)
Record SecurityAuditInput := mkSecurityInput {
  sx_tenantId : string;
  sx_actor : json;
  sx_action : string;
  sx_outcome : string;
  sx_reason : option string;
  sx_correlationId : string;
  sx_idempotencyKey : string;
  sx_occurredAt : string;
  sx_retentionUntil : string;
  sx_payloadSchemaRef : string;
  sx_payload : option json;
  sx_failClosed : bool
}.

Context (date_parse : string → option Z).

Definition assertAuditInput (i : SecurityAuditInput) : result DbError () :=
  if negb (sx_failClosed i) then Err (E_error "security audit writer must be fail-closed") else
  if negb (bool_decide (sx_payloadSchemaRef i = SECURITY_AUDIT_PAYLOAD_SCHEMA_REF))
  then Err (E_error "security audit payload_schema_ref is not the v1 boundary schema") else
  if negb (string_in (sx_action i) SECURITY_AUDIT_REQUIRED_ACTIONS)
  then Err (E_error "security audit action is not in the required boundary allowlist") else
  if negb (isStrictIsoDateTime (sx_occurredAt i)) then Err (E_error "security audit occurredAt must be an ISO timestamp") else
  if negb (isStrictIsoDateTime (sx_retentionUntil i)) then Err (E_error "security audit retentionUntil must be an ISO timestamp")
  else Ok tt.

Definition recordDecision (i : SecurityAuditInput) (log : list AuditRow) : result DbError (list AuditRow) :=
  _ ← assertAuditInput i;
  payload ← safeSerialize tracked (default JNull (sx_payload i));
  _ ← safeSerialize tracked (sx_actor i);
  if negb (next_sequence log <=? MAX_SAFE_INTEGER)%Z || (next_sequence log <? 1)%Z
  then Err (E_error "invalid next audit sequence for tenant") else
  match date_parse (sx_occurredAt i), date_parse (sx_retentionUntil i) with
  | Some occurred, Some retention =>
      append_entry (sx_tenantId i)
        (mkAuditEntry (sx_actor i) (sx_action i) (sx_outcome i) (sx_reason i) (sx_correlationId i) (sx_idempotencyKey i)
           occurred (Some retention) payload) log
  | _, _ => Err (E_error "Invalid time value")
  end.

Record WorkerBypassAuditInput := mkBypassInput {
  wb_tenantId : string;
  wb_correlationId : string;
  wb_workerId : string;
  wb_reason : string;
  wb_idempotencyKey : string;
  wb_retentionDays : Z;
  wb_payload : json
}.

Definition appendWorkerBypassAuditWithClient (i : WorkerBypassAuditInput) (now : Z) (log : list AuditRow)
  : result DbError (list AuditRow) :=
  payload ← safeSerialize tracked (wb_payload i);
  if negb (next_sequence log <=? MAX_SAFE_INTEGER)%Z || (next_sequence log <? 1)%Z
  then Err (E_error "RuntimeWorker: invalid lifecycle audit sequence for tenant") else
  append_entry (wb_tenantId i)
    (mkAuditEntry (JObj [("kind", JStr "system"); ("id", JStr "runtime-worker"); ("worker_id", JStr (wb_workerId i))])
       "bypassrls.use" "allow" (Some (wb_reason i)) (wb_correlationId i) (wb_idempotencyKey i) now
       (Some (now + wb_retentionDays i * 24 * 60 * 60 * 1000)%Z) payload) log.
End Writers.

(** ** Verifying *)

Inductive ViolationKind := hash_mismatch | broken_link | sequence_gap | genesis_invalid.
#[export] Instance ViolationKind_eq_dec : EqDecision ViolationKind.
Proof. solve_decision. Defined.

Definition stored_input (tenantId : string) (row : AuditRow) : AuditHashInput :=
  mkHashInput tenantId (au_sequence_no row) (au_actor row) (au_action row) (au_outcome row) (au_reason row)
    (au_correlation_id row) (au_idempotency_key row) (au_occurred_at row) (au_retention_until row)
    (au_payload_schema_ref row) (au_payload row) (default "GENESIS" (au_previous_hash row)).

Definition row_violations (tenantId : string) (expectedSeq : Z) (priorHash : string) (row : AuditRow) : list (Z * ViolationKind) :=
  (if (au_sequence_no row =? expectedSeq)%Z then [] else [(au_sequence_no row, sequence_gap)]) ++
  (if (expectedSeq =? 1)%Z && negb (bool_decide (au_previous_hash row = None)) then [(au_sequence_no row, genesis_invalid)] else []) ++
  (if negb (expectedSeq =? 1)%Z && negb (bool_decide (au_previous_hash row = Some priorHash))
   then [(au_sequence_no row, broken_link)] else []) ++
  (if decide (computeAuditHash (stored_input tenantId row) = au_hash row) then [] else [(au_sequence_no row, hash_mismatch)]).

Fixpoint chain_violations (tenantId : string) (expectedSeq : Z) (priorHash : string) (rows : list AuditRow)
  : list (Z * ViolationKind) :=
  match rows with
  | [] => []
  | row :: rest => row_violations tenantId expectedSeq priorHash row ++ chain_violations tenantId (expectedSeq + 1) (au_hash row) rest
  end.

(** [ORDER BY sequence_no ASC]. *)
Fixpoint insert_row (row : AuditRow) (rows : list AuditRow) : list AuditRow :=
  match rows with
  | [] => [row]
  | r :: rest => if (au_sequence_no row <=? au_sequence_no r)%Z then row :: rows else r :: insert_row row rest
  end.

Definition verifyAuditChainInTenantTx (tenantId : string) (log : list AuditRow) : list (Z * ViolationKind) :=
  chain_violations tenantId 1 "GENESIS" (foldr insert_row [] (filter (λ r, au_deleted r = false) log)).
End Chain.
