(* ===== verification/AuditProps.v ===== *)
(** * What the audit chain shows

    The writers of [AuditLog] keep the log a chain that its verifier accepts, as long
    as correlation ids are in lower case; a verified log is determined by the hash
    of its last row; what the verifier does not see. *)

From stdpp Require Import base strings list sets pretty.
From Stdlib Require Import Ascii ZArith Lia.
From S2P Require Import Prelude JsValue Rbac JsText Database ApiShared AuditLog.

(** ** Strings *)

Lemma str_app_cancel_l (a b c : string) : a +:+ b = a +:+ c → b = c.
Proof. induction a as [|x a IH]; [done|]. intros H. apply IH. by injection H. Qed.

Lemma str_app_cancel_r (a b c : string) : a +:+ c = b +:+ c → a = b.
Proof.
  revert b. induction a as [|x a IH]; intros [|y b] H; [done| | |].
  - apply (f_equal String.length) in H. rewrite !str_length_app in H. simpl in H. lia.
  - apply (f_equal String.length) in H. rewrite !str_length_app in H. simpl in H. lia.
  - injection H as -> H. f_equal. by apply IH.
Qed.

Lemma str_app_inj (a b x y : string) : String.length a = String.length b → a +:+ x = b +:+ y → a = b ∧ x = y.
Proof.
  revert b. induction a as [|c a IH]; intros [|d b]; simpl; try lia; [done|].
  intros Hl [= -> H]. destruct (IH b) as [-> ->]; [lia|done|done].
Qed.

Lemma join_inj sep l k : Forall2 (λ a b, String.length a = String.length b) l k → join sep l = join sep k → l = k.
Proof.
  induction 1 as [|a b l k Hab Hlk IH]; [done|]. destruct Hlk as [|a' b' l k Hab' Hlk]; simpl.
  - by intros ->.
  - intros [-> H]%str_app_inj; [|done]. apply str_app_cancel_l in H. by rewrite IH.
Qed.

(** Identifiers are quoted as they are, also in lower case. *)
Definition uuid_char (c : ascii) : bool := is_hex_char c || Ascii.eqb "-" c.
Fixpoint uuid_chars (s : string) : bool :=
  match s with EmptyString => true | String c s' => uuid_char c && uuid_chars s' end.

Lemma skip_chars_uuid p n s s' : (∀ c, p c = true → uuid_char c = true) →
  skip_chars p n s = Some s' → uuid_chars s' = true → uuid_chars s = true.
Proof.
  intros Hp. revert s. induction n as [|n IH]; intros s; simpl; [by intros [= ->]|].
  destruct s as [|c s]; [done|]. destruct (p c) eqn:E; [|done]. intros H Hs. simpl. rewrite (Hp _ E). by apply (IH s).
Qed.

Lemma UUID_RE_chars s : UUID_RE s = true → uuid_chars s = true.
Proof.
  unfold UUID_RE. intros H%bool_decide_eq_true.
  assert (Hx : ∀ c, is_hex_char c = true → uuid_char c = true) by (intros c Hc; unfold uuid_char; by rewrite Hc).
  assert (Hd : ∀ c, Ascii.eqb "-" c = true → uuid_char c = true) by (intros c Hc; unfold uuid_char; by rewrite Hc, orb_true_r).
  do 4 (apply bind_Some in H as (? & H1 & H); apply bind_Some in H as (? & H2 & H);
        apply (skip_chars_uuid _ _ _ _ Hx H1), (skip_chars_uuid _ _ _ _ Hd H2); clear H1 H2).
  by apply (skip_chars_uuid _ _ _ _ Hx H).
Qed.

Lemma uuid_char_plain c : uuid_char c = true → quote_char c = String c EmptyString ∧ uuid_char (lower_char c) = true.
Proof. destruct c as [[] [] [] [] [] [] [] []]; vm_compute; done. Qed.

Lemma uuid_quoted s : uuid_chars s = true → quote_body s = s ∧ uuid_chars (uuid_text s) = true.
Proof.
  induction s as [|c s IH]; [done|]. simpl. intros [Hc Hs]%andb_true_iff. destruct (uuid_char_plain c Hc) as [-> H1].
  destruct (IH Hs) as [-> H2]. split; [done|]. unfold uuid_text, toLowerCase in *. simpl. by rewrite H1, H2.
Qed.

Lemma lower_length s : String.length (uuid_text s) = String.length s.
Proof. unfold uuid_text, toLowerCase. induction s as [|c s IH]; [done|]. simpl. by rewrite IH. Qed.

Section Props.
Context (sha256 : string → string) (iso : Z → string) (localeCompare : string → string → comparison).
Notation row_hash := (computeAuditHash sha256 iso localeCompare).
Notation verify := (verifyAuditChainInTenantTx sha256 iso localeCompare).
Notation violations := (chain_violations sha256 iso localeCompare).
Notation append := (append_entry sha256 iso localeCompare).

(** ** Chains *)

(** Rows numbered from [seq], each with the hash of its fields and linked to the
    row before it. *)
Fixpoint chain_from (t : string) (seq : Z) (prior : option string) (rows : list AuditRow) : Prop :=
  match rows with
  | [] => True
  | row :: rest =>
      au_sequence_no row = seq ∧ au_previous_hash row = prior ∧ au_deleted row = false ∧
      row_hash (stored_input t row) = au_hash row ∧ chain_from t (seq + 1) (Some (au_hash row)) rest
  end.

Lemma chain_violations_nil t rows : ∀ seq prior, (1 <= seq)%Z →
  Forall (λ r, au_deleted r = false) rows →
  violations t seq (default "GENESIS" prior) rows = [] → ((seq = 1)%Z ↔ prior = None) → chain_from t seq prior rows.
Proof.
  induction rows as [|row rows IH]; intros seq prior Hs Hd; [done|]. cbn [chain_violations chain_from].
  inversion Hd as [|? ? Hrow Hrest]; subst.
  unfold row_violations. rewrite !app_nil. intros [(H1 & H2 & H3 & H4) H5] Hp.
  destruct (Z.eqb_spec (au_sequence_no row) seq) as [E|]; [|done].
  destruct (decide (row_hash (stored_input t row) = au_hash row)) as [Eh|]; [|done].
  assert (Eprev : au_previous_hash row = prior).
  { destruct (Z.eqb_spec seq 1) as [E1|E1]; cbn [andb negb] in *.
    - rewrite (proj1 Hp E1). by case_bool_decide.
    - destruct prior as [h|]; [|by destruct E1; apply Hp]. cbn [default] in *. by case_bool_decide. }
  repeat split; try done. apply (IH (seq + 1)%Z (Some (au_hash row))); [lia|done|exact H5|].
  split; [lia|done].
Qed.

Lemma chain_from_violations t rows : ∀ seq prior, chain_from t seq prior rows → ((seq = 1)%Z ↔ prior = None) → (1 <= seq)%Z →
  violations t seq (default "GENESIS" prior) rows = [].
Proof.
  induction rows as [|row rows IH]; intros seq prior; [done|]. cbn [chain_violations chain_from].
  intros (E & Ep & _ & Eh & Hrest) Hp Hs. assert (IHr : violations t (seq + 1) (au_hash row) rows = []).
  { apply (IH (seq + 1)%Z (Some (au_hash row)) Hrest); [split; [lia|done]|lia]. }
  rewrite IHr.
  unfold row_violations. rewrite app_nil_r, E, Z.eqb_refl, Ep. rewrite decide_True by done.
  destruct (Z.eqb_spec seq 1) as [E1|E1]; simpl.
  - rewrite (proj1 Hp E1). by rewrite bool_decide_eq_true_2.
  - destruct prior as [h|]; [|by destruct E1; apply Hp]. simpl. by rewrite bool_decide_eq_true_2.
Qed.

Lemma chain_from_seq t rows : ∀ seq prior, chain_from t seq prior rows → Forall (λ r, (seq <= au_sequence_no r)%Z) rows.
Proof.
  induction rows as [|row rows IH]; intros seq prior; [constructor|]. intros (E & _ & _ & _ & H). constructor; [lia|].
  eapply Forall_impl; [by eapply IH|]. simpl. lia.
Qed.

Lemma chain_from_sorted t rows : ∀ seq prior, chain_from t seq prior rows →
  foldr insert_row [] (filter (λ r, au_deleted r = false) rows) = rows.
Proof.
  induction rows as [|row rows IH]; intros seq prior; [done|]. intros (E & _ & Ed & _ & H).
  rewrite filter_cons_True by done. simpl. rewrite (IH _ _ H). destruct rows as [|r rows]; [done|].
  simpl. assert (Hr := chain_from_seq _ _ _ _ H). inversion Hr; subst.
  destruct (Z.leb_spec (au_sequence_no row) (au_sequence_no r)); [done|lia].
Qed.

(** The verifier accepts exactly the chains, of rows none of which is deleted. *)
Lemma verify_chain t log : Forall (λ r, au_deleted r = false) log →
  chain_from t 1 None log → verify t log = [].
Proof.
  intros Hd H. unfold verifyAuditChainInTenantTx. rewrite (chain_from_sorted _ _ _ _ H).
  apply (chain_from_violations t log 1 None H); [done|lia].
Qed.

Lemma chain_from_snoc t rows row : ∀ seq prior,
  chain_from t seq prior (rows ++ [row]) ↔
  chain_from t seq prior rows ∧
  chain_from t (seq + Z.of_nat (length rows)) (match last rows with Some r => Some (au_hash r) | None => prior end) [row].
Proof.
  induction rows as [|r rows IH]; intros seq prior.
  - simpl. rewrite Z.add_0_r. tauto.
  - change ((r :: rows) ++ [row]) with (r :: (rows ++ [row])).
    change (chain_from t seq prior (r :: (rows ++ [row]))) with
      (au_sequence_no r = seq ∧ au_previous_hash r = prior ∧ au_deleted r = false ∧
       row_hash (stored_input t r) = au_hash r ∧ chain_from t (seq + 1) (Some (au_hash r)) (rows ++ [row])).
    rewrite IH. replace (seq + Z.of_nat (length (r :: rows)))%Z with (seq + 1 + Z.of_nat (length rows))%Z by (simpl; lia).
    replace (match last (r :: rows) with Some r0 => Some (au_hash r0) | None => prior end)
      with (match last rows with Some r0 => Some (au_hash r0) | None => Some (au_hash r) end); [simpl; tauto|].
    destruct rows as [|r' rows]; [done|]. change (last (r :: r' :: rows)) with (last (r' :: rows)).
    by destruct (last (r' :: rows)) eqn:E; [|apply last_None in E].
Qed.

Lemma last_row_chain t rows : ∀ seq prior best, chain_from t seq prior rows →
  (∀ b, best = Some b → (au_sequence_no b < seq)%Z) →
  last_row best rows = match last rows with Some r => Some r | None => best end.
Proof.
  induction rows as [|r rows IH]; intros seq prior best; [done|]. intros (E & _ & _ & _ & H) Hb. cbn [last_row].
  assert (Hbest : (match best with Some b => if (au_sequence_no b <? au_sequence_no r)%Z then Some r else best | None => Some r end) = Some r).
  { destruct best as [b|]; [|done]. specialize (Hb b eq_refl). by destruct (Z.ltb_spec (au_sequence_no b) (au_sequence_no r)); [|lia]. }
  rewrite Hbest, (IH _ _ (Some r) H); [|intros b [= <-]; lia].
  destruct rows as [|r' rows]; [done|]. change (last (r :: r' :: rows)) with (last (r' :: rows)).
  destruct (last (r' :: rows)) eqn:El; [done|by apply last_None in El].
Qed.

Lemma last_chain t rows r : ∀ seq prior, chain_from t seq prior rows → last rows = Some r →
  au_sequence_no r = (seq + Z.of_nat (length rows) - 1)%Z.
Proof.
  intros seq prior H [l ->]%last_Some. apply chain_from_snoc in H as [_ (-> & _)]. rewrite length_app. simpl. lia.
Qed.

(** ** Appending *)

Lemma append_entry_chain t e log log' : chain_from t 1 None log → append t e log = Ok log' →
  uuid_text (en_correlationId e) = en_correlationId e → chain_from t 1 None log'.
Proof.
  intros Hc. unfold append_entry. destruct (existsb _ _); [done|]. destruct (existsb _ _); [done|].
  intros [= <-] Hl. apply chain_from_snoc. split; [done|].
  unfold entry_row, entry_input, next_sequence. rewrite (last_row_chain t log 1 None None Hc) by done.
  destruct (last log) as [r|] eqn:El; cbn -[Z.add computeAuditHash].
  - rewrite (last_chain t log r 1 None Hc El). split; [lia|]. repeat split; try done.
    unfold stored_input. cbn -[computeAuditHash Z.add]. by rewrite Hl.
  - apply last_None in El as ->. repeat split; try done. unfold stored_input. cbn -[computeAuditHash]. by rewrite Hl.
Qed.

Lemma chain_not_deleted t rows : ∀ seq prior, chain_from t seq prior rows → Forall (λ r, au_deleted r = false) rows.
Proof.
  induction rows as [|r rows IH]; intros seq prior; [constructor|]. intros (_ & _ & ? & _ & H).
  constructor; [done|by eapply IH].
Qed.

Lemma chain_lookup t rows : ∀ n seq prior row, chain_from t seq prior rows → rows !! n = Some row →
  au_sequence_no row = (seq + Z.of_nat n)%Z.
Proof.
  induction rows as [|r rows IH]; intros n seq prior row; [done|]. intros (E & _ & _ & _ & H).
  destruct n as [|n]; simpl; [intros [= <-]; lia|]. intros Hn. rewrite (IH _ _ _ _ H Hn). lia.
Qed.

Lemma chain_take t n : ∀ rows seq prior, chain_from t seq prior rows → chain_from t seq prior (take n rows).
Proof.
  induction n as [|n IH]; intros [|r rows] seq prior; [done..|]. intros (E & Ep & Ed & Eh & H).
  repeat split; try done. by apply IH.
Qed.

(** ** Tampering *)

(** The rows as the verifier reads them. *)
Definition rows_in_order (log : list AuditRow) : list AuditRow :=
  foldr insert_row [] (filter (λ r, au_deleted r = false) log).

Lemma insert_row_elem row rows x : x ∈ insert_row row rows ↔ x = row ∨ x ∈ rows.
Proof.
  induction rows as [|r rows IH]; simpl; [set_solver|]. destruct (_ <=? _)%Z; [set_solver|].
  rewrite !elem_of_cons, IH. tauto.
Qed.

Lemma rows_in_order_elem log x : x ∈ rows_in_order log → x ∈ log ∧ au_deleted x = false.
Proof.
  unfold rows_in_order. intros H. cut (x ∈ filter (λ r, au_deleted r = false) log); [intros [??]%list_elem_of_filter; done|].
  revert H. induction (filter (λ r, au_deleted r = false) log) as [|r l IH]; [done|].
  simpl. rewrite insert_row_elem, elem_of_cons. tauto.
Qed.

Lemma verified_chain t log : verify t log = [] → chain_from t 1 None (rows_in_order log).
Proof.
  intros H. apply (chain_violations_nil t (rows_in_order log) 1 None); [lia| |exact H|done].
  apply Forall_forall. intros x Hx. by apply rows_in_order_elem in Hx as [_ ?].
Qed.

(** Rows with the same hash have the same hashed fields. *)
Definition collision_free (t : string) (rows : list AuditRow) : Prop :=
  ∀ r s, r ∈ rows → s ∈ rows → row_hash (stored_input t r) = row_hash (stored_input t s) → stored_input t r = stored_input t s.

Lemma chains_agree t a : ∀ b r s, chain_from t 1 None (a ++ [r]) → chain_from t 1 None (b ++ [s]) →
  collision_free t ((a ++ [r]) ++ (b ++ [s])) → au_hash r = au_hash s →
  map (stored_input t) (a ++ [r]) = map (stored_input t) (b ++ [s]).
Proof.
  induction a as [|x a IH] using rev_ind; intros b r s Ha Hb Hcf Heq.
  all: apply chain_from_snoc in Ha as [Ha (Sr & Pr & _ & Hr & _)], Hb as [Hb (Ss & Ps & _ & Hs & _)].
  all: assert (E : stored_input t r = stored_input t s) by (apply Hcf; [set_solver|set_solver|congruence]).
  all: assert (Eseq := f_equal hi_sequenceNo E); assert (Eprev := f_equal hi_previousHash E); simpl in Eseq, Eprev.
  all: rewrite !map_app; simpl.
  - destruct b as [|y b]; [by rewrite E|]. rewrite Sr, Ss in Eseq. simpl in Eseq. lia.
  - destruct b as [|y b _] using rev_ind; [rewrite Sr, Ss, length_app in Eseq; simpl in Eseq; lia|].
    rewrite last_snoc in Pr, Ps. rewrite Pr, Ps in Eprev. simpl in Eprev.
    assert (Hrest := IH b x y Ha Hb). rewrite E, !map_app in *. simpl in *. f_equal. apply Hrest; [|done].
    intros u v Hu Hv. apply Hcf; set_solver.
Qed.

(** ** The writers *)

Section Writers.
Context (tracked : string → bool) (date_parse : string → option Z).

(** The log of tenant [t] as the three writers leave it. *)
Inductive written (t : string) : list AuditRow → Prop :=
| written_nil : written t []
| written_governance p key cid fresh now action outcome reason payload log log' :
    written t log → pn_tenantId p = t → uuid_text cid = cid → uuid_text fresh = fresh →
    appendGovernanceAudit sha256 iso localeCompare tracked p key cid fresh now action outcome reason payload log = Ok log' →
    written t log'
| written_decision i log log' :
    written t log → sx_tenantId i = t → uuid_text (sx_correlationId i) = sx_correlationId i →
    recordDecision sha256 iso localeCompare tracked date_parse i log = Ok log' → written t log'
| written_worker i now log log' :
    written t log → wb_tenantId i = t → uuid_text (wb_correlationId i) = wb_correlationId i →
    appendWorkerBypassAuditWithClient sha256 iso localeCompare tracked i now log = Ok log' → written t log'.

Lemma written_chain t log : written t log → chain_from t 1 None log.
Proof.
  induction 1 as [|p key cid fresh now action outcome reason payload log log' _ IH <- Hc Hf H|i log log' _ IH <- Hc H
                 |i now log log' _ IH <- Hc H]; [done| | |].
  - unfold appendGovernanceAudit in H. apply result_bind_Ok in H as (v & _ & H).
    eapply append_entry_chain; [exact IH|exact H|]. simpl. by destruct (UUID_RE cid).
  - unfold recordDecision in H. apply result_bind_Ok in H as (? & _ & H). apply result_bind_Ok in H as (v & _ & H).
    apply result_bind_Ok in H as (? & _ & H). destruct (_ || _); [done|].
    destruct (date_parse _); [|done]. destruct (date_parse _); [|done]. by eapply append_entry_chain.
  - unfold appendWorkerBypassAuditWithClient in H. apply result_bind_Ok in H as (v & _ & H). destruct (_ || _); [done|].
    by eapply append_entry_chain.
Qed.

End Writers.


(** ** Correlation ids in upper case *)

Notation texts_alike := (Forall2 (λ p q : string * string, p.1 = q.1 ∧ String.length p.2 = String.length q.2)).

Lemma insert_locale_alike p q l k : p.1 = q.1 → String.length p.2 = String.length q.2 → texts_alike l k →
  texts_alike (insert_locale localeCompare p l) (insert_locale localeCompare q k).
Proof.
  intros Ek El. induction 1 as [|a b l k [Ea Eb] Hlk IH]; simpl; [by repeat constructor|].
  rewrite <-Ek, <-Ea. by destruct (localeCompare _ _); repeat constructor.
Qed.

Lemma sort_locale_alike l k : texts_alike l k →
  texts_alike (foldr (insert_locale localeCompare) [] l) (foldr (insert_locale localeCompare) [] k).
Proof. induction 1 as [|a b l k [Ea Eb] Hlk IH]; simpl; [constructor|by apply insert_locale_alike]. Qed.

Lemma insert_locale_elem p l x : x ∈ insert_locale localeCompare p l ↔ x = p ∨ x ∈ l.
Proof.
  induction l as [|q l IH]; simpl; [set_solver|]. destruct (localeCompare _ _); rewrite ?elem_of_cons, ?IH; tauto.
Qed.

Lemma sort_locale_elem l x : x ∈ foldr (insert_locale localeCompare) [] l ↔ x ∈ l.
Proof. induction l as [|p l IH]; [done|]. simpl. rewrite insert_locale_elem, elem_of_cons, IH. done. Qed.

(** The canonical text of records with the same keys and values of the same length. *)
Lemma canonical_fields_inj f g : texts_alike (map (λ p, (p.1, canonicalize localeCompare p.2)) f)
                                   (map (λ p, (p.1, canonicalize localeCompare p.2)) g) →
  canonicalize localeCompare (JObj f) = canonicalize localeCompare (JObj g) →
  ∀ k v, (k, v) ∈ map (λ p, (p.1, canonicalize localeCompare p.2)) f → (k, v) ∈ map (λ p, (p.1, canonicalize localeCompare p.2)) g.
Proof.
  intros Ha%sort_locale_alike H k v. cbn [canonicalize] in H.
  apply str_app_cancel_l, str_app_cancel_r, join_inj in H.
  - assert (E : foldr (insert_locale localeCompare) [] (map (λ p, (p.1, canonicalize localeCompare p.2)) f) =
                foldr (insert_locale localeCompare) [] (map (λ p, (p.1, canonicalize localeCompare p.2)) g)).
    { revert H Ha. generalize (foldr (insert_locale localeCompare) [] (map (λ p, (p.1, canonicalize localeCompare p.2)) f)).
      generalize (foldr (insert_locale localeCompare) [] (map (λ p, (p.1, canonicalize localeCompare p.2)) g)).
      intros l2 l1. clear. revert l2. induction l1 as [|[a x] l1 IH]; intros [|[b y] l2]; simpl; try done.
      intros [= H H']. intros Hx. inversion Hx as [|? ? ? ? [Ek El] Hrest]; subst. simpl in *. subst b.
      apply str_app_cancel_l, str_app_cancel_l in H. subst. f_equal. by apply IH. }
    intros Hin. apply sort_locale_elem. rewrite <-E. by apply sort_locale_elem.
  - clear H. apply Forall2_fmap. eapply Forall2_impl; [exact Ha|]. intros [a x] [b y] [Ek El]. simpl in *. subst.
    by rewrite !str_length_app, El.
Qed.

Definition with_correlation (c : string) (i : AuditHashInput) : AuditHashInput :=
  mkHashInput (hi_tenantId i) (hi_sequenceNo i) (hi_actor i) (hi_action i) (hi_outcome i) (hi_reason i) c
    (hi_idempotencyKey i) (hi_occurredAt i) (hi_retentionUntil i) (hi_payloadSchemaRef i) (hi_payload i) (hi_previousHash i).

Notation row_text i := (canonicalize localeCompare (hash_fields iso i)).

Lemma row_text_correlation i c : UUID_RE c = true →
  row_text (with_correlation c i) = row_text (with_correlation (uuid_text c) i) → uuid_text c = c.
Proof.
  intros [Hq Hl]%UUID_RE_chars%uuid_quoted H. destruct (uuid_quoted _ Hl) as [Hq' _].
  assert (Hc : canonicalize localeCompare (JStr c) = canonicalize localeCompare (JStr (uuid_text c))).
  { unshelve epose proof (canonical_fields_inj _ _ _ H "correlationId" (canonicalize localeCompare (JStr c)) _) as Hin.
    - cbn [map fst snd hash_fields with_correlation hi_correlationId]. repeat (constructor; [split; [done|]; simpl; try done|]).
      2: constructor. unfold quote. by rewrite !str_length_app, Hq, Hq', lower_length.
    - simpl. do 6 right. by left.
    - simpl in Hin. repeat (apply elem_of_cons in Hin as [Hin|Hin]; [try discriminate Hin; injection Hin as Hin|]); [|by apply elem_of_nil in Hin].
      exact (f_equal (String "034"%char) Hin). }
  simpl in Hc. unfold quote in Hc. rewrite Hq, Hq' in Hc. apply str_app_cancel_l, str_app_cancel_r in Hc. done.
Qed.

Lemma stored_entry_input t log e :
  stored_input t (entry_row sha256 iso localeCompare t log e) =
  with_correlation (uuid_text (en_correlationId e)) (entry_input t log e).
Proof. unfold stored_input, entry_row, entry_input, with_correlation. simpl. by destruct (last_row None log). Qed.

(** Rows numbered in order are read in that order, whatever their hashes. *)
Lemma chain_snoc_in_order t log row : chain_from t 1 None log → au_deleted row = false →
  au_sequence_no row = (1 + Z.of_nat (length log))%Z → rows_in_order (log ++ [row]) = log ++ [row].
Proof.
  intros Hc Hd Hs. unfold rows_in_order. rewrite filter_app, foldr_app, filter_cons_True, filter_nil by done. simpl.
  assert (Hle : Forall (λ r, (au_sequence_no r <= au_sequence_no row)%Z) log).
  { apply Forall_lookup. intros n r Hn. assert (Hlt := lookup_lt_Some _ _ _ Hn). rewrite (chain_lookup t log n 1 None r Hc Hn). lia. }
  clear Hs. revert Hc Hle. generalize 1%Z as seq, (@None string) as prior.
  induction log as [|r log IH]; intros seq prior; [done|]. intros (E & _ & Er & _ & Hrest) Hle.
  inversion Hle as [|? ? Hr Hle']; subst. rewrite filter_cons_True by done. simpl. rewrite (IH _ _ Hrest Hle').
  destruct log as [|r' log]; simpl.
  - by destruct (Z.leb_spec (au_sequence_no r) (au_sequence_no row)); [|lia].
  - destruct Hrest as (E' & _). by destruct (Z.leb_spec (au_sequence_no r) (au_sequence_no r')); [|lia].
Qed.

Lemma chain_violations_app t a b : ∀ seq prior v, v ∈ violations t (seq + Z.of_nat (length a)) (match last a with Some r => au_hash r | None => prior end) b →
  v ∈ violations t seq prior (a ++ b).
Proof.
  induction a as [|r a IH]; intros seq prior v; [by rewrite Z.add_0_r|]. intros H. simpl. apply elem_of_app. right.
  apply IH. replace (seq + Z.of_nat (length (r :: a)))%Z with (seq + 1 + Z.of_nat (length a))%Z in H by (simpl; lia).
  destruct a as [|r' a]; [done|]. change (last (r :: r' :: a)) with (last (r' :: a)) in H.
  by destruct (last (r' :: a)) eqn:E; [|apply last_None in E].
Qed.

(** A correlation id in upper case makes the verifier report a mismatch: the
    request's text passes [UUID_RE] and is hashed as it stands, but the column
    gives it back in lower case, so that the recomputed hash differs (unless the
    digest collides).  Any client can choose the id by the x-correlation-id
    header. *)
Theorem upper_case_correlation_breaks_chain tracked date_parse p key cid fresh now action outcome reason payload log log' :
  written tracked date_parse (pn_tenantId p) log →
  UUID_RE cid = true → uuid_text cid ≠ cid →
  (∀ i j, sha256 (row_text i) = sha256 (row_text j) → row_text i = row_text j) →
  appendGovernanceAudit sha256 iso localeCompare tracked p key cid fresh now action outcome reason payload log = Ok log' →
  (next_sequence log, hash_mismatch) ∈ verify (pn_tenantId p) log'.
Proof.
  intros Hc%written_chain Hu Hne Hsha H. unfold appendGovernanceAudit in H. rewrite Hu in H.
  apply result_bind_Ok in H as (v & _ & H). unfold append_entry in H. destruct (existsb _ _); [done|].
  destruct (existsb _ _); [done|]. injection H as <-.
  set (e := mkAuditEntry _ _ _ _ _ _ _ _ _). set (t := pn_tenantId p) in *.
  assert (Hseq : next_sequence log = (1 + Z.of_nat (length log))%Z).
  { unfold next_sequence. rewrite (last_row_chain t log 1 None None Hc) by done. destruct (last log) as [r|] eqn:El.
    - rewrite (last_chain t log r 1 None Hc El). lia.
    - by apply last_None in El as ->. }
  change (verify t (log ++ [entry_row sha256 iso localeCompare t log e]))
    with (violations t 1 "GENESIS" (rows_in_order (log ++ [entry_row sha256 iso localeCompare t log e]))).
  rewrite (chain_snoc_in_order t) by done. apply chain_violations_app. simpl. rewrite app_nil_r.
  unfold row_violations. rewrite !elem_of_app. do 3 right.
  rewrite decide_False; [by left|]. rewrite stored_entry_input. unfold computeAuditHash, entry_row. cbn [au_hash].
  unfold computeAuditHash. intros Heq%str_app_cancel_l%Hsha. symmetry in Heq. apply Hne.
  apply (row_text_correlation (entry_input t log e) cid Hu). exact Heq.
Qed.
End Props.

(** ** Witnesses *)

Definition sample_principal : Principal := mkPrincipal "t1" "alice" [operator].
Definition sample_fresh : string := "00000000-0000-4000-8000-0000000000ff".
Definition no_secrets : string → bool := λ _, false.
Definition audited_resume (cid : string) (key : string) : list AuditRow → result DbError (list AuditRow) :=
  appendGovernanceAudit id pretty String.compare no_secrets sample_principal (Some key) cid sample_fresh 1000
    "run.resume" "allow" "run_resume_requested" (JObj [("run_id", JStr "r1")]).
Definition lower_cid : string := "aaaaaaaa-0000-4000-8000-000000000001".
Definition upper_cid : string := "AAAAAAAA-0000-4000-8000-000000000001".
Definition the_log (r : result DbError (list AuditRow)) : list AuditRow := match r with Ok l => l | Err _ => [] end.
Definition sample_log : list AuditRow := the_log (audited_resume lower_cid "k1" []).

Lemma sample_log_written : written id pretty String.compare no_secrets (λ _, None) "t1" sample_log.
Proof.
  apply (written_governance _ _ _ _ _ "t1" sample_principal (Some "k1") lower_cid sample_fresh 1000 "run.resume" "allow"
           "run_resume_requested" (JObj [("run_id", JStr "r1")]) []); [constructor|vm_compute; reflexivity..].
Qed.


Definition sample_row : AuditRow :=
  entry_row id pretty String.compare "t1" [] (mkAuditEntry (audit_actor sample_principal) "run.resume" "allow"
    (Some "run_resume_requested") lower_cid "k1" 1000 (Some (1000 + 365 * 24 * 60 * 60 * 1000)%Z) (JObj [("run_id", JStr "r1")])).


Lemma upper_case_correlation_breaks_chain_witness :
  (2%Z, hash_mismatch) ∈ verifyAuditChainInTenantTx id pretty String.compare "t1" (the_log (audited_resume upper_cid "k2" sample_log)).
Proof.
  apply (upper_case_correlation_breaks_chain id pretty String.compare no_secrets (λ _, None) sample_principal (Some "k2") upper_cid
           sample_fresh 1000 "run.resume" "allow" "run_resume_requested" (JObj [("run_id", JStr "r1")]) sample_log).
  - exact sample_log_written.
  - vm_compute; reflexivity.
  - vm_compute; discriminate.
  - intros i j Hij; exact Hij.
  - vm_compute; reflexivity.
Defined.
