(* ===== verification/NetworkGuard.v ===== *)
(** * The browser network guard

    Models [app/src/executor/browser-network-guard.ts]: the policy on URLs, and
    [CdpBrowserNetworkGuard], which answers the events of the browser's CDP
    sessions.  Its handlers are asynchronous and many are under way at once: a
    handler is a resumption ([Proc]) that stops at each [await] with the call it
    waits for, and goes on from the state the guard has when the answer comes.
    [exec] runs the guard on any sequence of events, registrations, answers and
    disposals, and keeps the trace of what was received, called and answered.
    The URL parser of the platform is a parameter. *)

From stdpp Require Import base strings list.
From Stdlib Require Import Ascii ZArith Lia.
From S2P Require Import Prelude JsValue JsText IrelLexer Rbac RuntimeStore AuditLog.

(** ** The policy on URLs *)

(** What the code reads of a [URL]. *)
Record URL := mkURL { protocol : string; hostname : string }.

Variant NetworkRequestKind := browser_navigation | browser_subrequest | api_call | download | upload.

#[export] Instance NetworkRequestKind_eq_dec : EqDecision NetworkRequestKind.
Proof. solve_decision. Defined.

Definition NetworkRequestKind_str (k : NetworkRequestKind) : string :=
  match k with
  | browser_navigation => "browser_navigation"
  | browser_subrequest => "browser_subrequest"
  | api_call => "api_call"
  | download => "download"
  | upload => "upload"
  end.

Variant PolicyDecision :=
| Allow (host : string)
| Deny (host reason : string).

Definition INTERNAL_PROTOCOLS : list string :=
  ["about:"; "data:"; "devtools:"; "chrome:"; "chrome-error:"; "chrome-extension:"].

(** [s.endsWith(suffix)]. *)
Fixpoint ends_with (suffix s : string) : bool :=
  bool_decide (s = suffix) || match s with EmptyString => false | String _ s' => ends_with suffix s' end.

Definition domain_matches (normalizedHost raw : string) : bool :=
  let domain := toLowerCase (trim raw) in
  match domain with
  | EmptyString => false
  | String "*" (String "." suffix) =>
      (String.length suffix <? String.length normalizedHost) && ends_with ("." +:+ suffix) normalizedHost
  | _ => bool_decide (normalizedHost = domain)
  end.

Definition isHostAllowed (host : string) (allowedDomains : list string) : bool :=
  existsb (domain_matches (toLowerCase host)) allowedDomains.

(** [/^(https?|wss?):/i.test(inner)]. *)
Definition web_scheme (inner : string) : bool :=
  existsb (λ p, starts_with p (toLowerCase inner)) ["http:"; "https:"; "ws:"; "wss:"].

Section Policy.
(** [new URL(text)]: [None] when it throws. *)
Context (newURL : string → option URL).

Definition parsePotentiallyNestedUrl (value : string) : option URL :=
  parsed ← newURL value;
  if negb (bool_decide (protocol parsed = "blob:")) then Some parsed else
  let inner := String.substring 5 (String.length value) value in
  if web_scheme inner then newURL inner else Some parsed.

Definition evaluateBrowserNetworkPolicy (url : string) (allowedDomains : list string) : PolicyDecision :=
  match parsePotentiallyNestedUrl url with
  | None => Deny "invalid" "invalid URL"
  | Some parsed =>
      if string_in (protocol parsed) INTERNAL_PROTOCOLS then Allow "internal" else
      if negb (string_in (protocol parsed) ["http:"; "https:"; "ws:"; "wss:"])
      then Deny "invalid" ("unsupported scheme '" +:+ protocol parsed +:+ "'") else
      let host := toLowerCase (hostname parsed) in
      if isHostAllowed host allowedDomains then Allow host else Deny host "host not in allowed_domains"
  end.
End Policy.

(** ** Sessions, commands and events *)

(** What a promise is rejected with. *)
Variant Thrown :=
| ErrorObject (message : string)
| StringValue (s : string)
| OtherValue.

#[export] Instance Thrown_eq_dec : EqDecision Thrown.
Proof. solve_decision. Defined.

Definition unknownMessage (value : Thrown) : string :=
  match value with
  | ErrorObject m => if negb (blank m) then m else "browser network guard failed"
  | StringValue s => if negb (blank s) then s else "browser network guard failed"
  | OtherValue => "browser network guard failed"
  end.

(** A CDP session: the object and its [id]. *)
Record Session := mkSession { ss_object : nat; ss_id : option string }.

#[export] Instance Session_eq_dec : EqDecision Session.
Proof. solve_decision. Defined.

Definition sessionKey (session : Session) : string := default "__main__" (ss_id session).

Variant Command :=
| Network_enable
| Fetch_enable
| Fetch_disable
| Fetch_continueRequest (requestId : string)
| Fetch_failRequest (requestId : string)
| Browser_cancelDownload (guid : string).

#[export] Instance Command_eq_dec : EqDecision Command.
Proof. solve_decision. Defined.

(** The events, with their parameters as received. *)
Variant CdpEvent :=
| Fetch_requestPaused (params : json)
| Network_webSocketWillSendHandshakeRequest (params : json)
| Browser_downloadWillBegin (params : json).

(** [typeof event.request?.url === "string" ? event.request.url : ""]. *)
Definition request_url (params : json) : string :=
  default EmptyString (as_string (prop "url" (prop "request" (Some params)))).
Definition paused_id (params : json) : option string := as_string (prop "requestId" (Some params)).
Definition download_url (params : json) : string := default EmptyString (as_string (prop "url" (Some params))).

Record BrowserNetworkGuardAuditOptions := mkAuditOptions {
  ao_subjectId : string;
  ao_roles : list Role;
  ao_retentionDays : option Z
}.

Record BrowserNetworkGuardPolicy := mkPolicy {
  np_tenantId : string;
  np_runId : option string;
  np_correlationId : option string;
  np_networkPolicyId : string;
  np_allowedDomains : list string;
  np_audit : option BrowserNetworkGuardAuditOptions
}.

Record BrowserNetworkViolation := mkViolation {
  vi_kind : NetworkRequestKind;
  vi_url : string;
  vi_host : string;
  vi_resourceType : option string;
  vi_reason : string
}.

Record BrowserNetworkAllowDecision := mkAllow {
  al_kind : NetworkRequestKind;
  al_url : string;
  al_host : string;
  al_resourceType : option string
}.

(** ** Asynchronous code

    The guard's fields; [gd_listeners] are the handlers attached to sessions,
    each set under the number of the [trackSession] call that attached it. *)
Record Guard := mkGuard {
  gd_tracked : list (string * (Session * nat));
  gd_violation : option BrowserNetworkViolation;
  gd_listeners : list (nat * Session);
  gd_calls : nat
}.

(** What an [await] waits for; [Settled] is a promise that is settled already. *)
Variant Call :=
| Send (session : Session) (command : Command)
| RecordDecision (input : SecurityAuditInput)
| Settled (r : result Thrown ()).

Inductive Proc (A : Type) : Type :=
| Halt (r : result Thrown A)
| Await (c : Call) (k : result Thrown () → Guard → Guard * Proc A).
Arguments Halt {A} r.
Arguments Await {A} c k.

(** Induction that reaches what follows an answer. *)
Lemma Proc_nested_ind {A} (P : Proc A → Prop) :
  (∀ r, P (Halt r)) → (∀ c k, (∀ r g, P (k r g).2) → P (Await c k)) → ∀ p, P p.
Proof.
  intros H1 H2. fix IH 1. intros [r|c k]; [apply H1|]. apply H2. intros r g. by destruct (k r g) as [g' q].
Qed.

Definition Async (A : Type) : Type := Guard → Guard * Proc A.

Fixpoint proc_bind {A B} (f : A → Async B) (p : Proc A) (g : Guard) : Guard * Proc B :=
  match p with
  | Halt (Ok a) => f a g
  | Halt (Err e) => (g, Halt (Err e))
  | Await c k => (g, Await c (λ r g1, let '(g2, q) := k r g1 in proc_bind f q g2))
  end.

(** [try { ... } catch (error) { ... }] and [promise.catch(...)]. *)
Fixpoint proc_catch {A} (h : Thrown → Async A) (p : Proc A) (g : Guard) : Guard * Proc A :=
  match p with
  | Halt (Ok a) => (g, Halt (Ok a))
  | Halt (Err e) => h e g
  | Await c k => (g, Await c (λ r g1, let '(g2, q) := k r g1 in proc_catch h q g2))
  end.

#[export] Instance async_ret : MRet Async := λ A a g, (g, Halt (Ok a)).
#[export] Instance async_bind : MBind Async := λ A B f m g, let '(g1, p) := m g in proc_bind f p g1.

Definition async_catch {A} (m : Async A) (h : Thrown → Async A) : Async A :=
  λ g, let '(g1, p) := m g in proc_catch h p g1.
Definition async_throw {A} (e : Thrown) : Async A := λ g, (g, Halt (Err e)).
Definition async_read {A} (f : Guard → A) : Async A := λ g, (g, Halt (Ok (f g))).
Definition async_update (f : Guard → Guard) : Async () := λ g, (f g, Halt (Ok tt)).
Definition async_await (c : Call) : Async () := λ g, (g, Await c (λ r g1, (g1, Halt r))).
(** [await session.send(...)], and the same with [.catch(() => undefined)]. *)
Definition send (s : Session) (c : Command) : Async () := async_await (Send s c).
Definition send_quietly (s : Session) (c : Command) : Async () := async_catch (send s c) (λ _, mret tt).

(** ** The guard *)

Definition set_violation (v : BrowserNetworkViolation) (g : Guard) : Guard :=
  mkGuard (gd_tracked g) (Some v) (gd_listeners g) (gd_calls g).

Definition failClosed_state (error : Thrown) (g : Guard) : Guard :=
  match gd_violation g with
  | Some _ => g
  | None => set_violation (mkViolation browser_subrequest EmptyString "invalid" None (unknownMessage error)) g
  end.
Definition failClosed (error : Thrown) : Async () := async_update (failClosed_state error).

(** [BrowserNetworkPolicyViolationError], thrown when a violation is held. *)
Definition assertNoViolation (g : Guard) : result BrowserNetworkViolation () :=
  match gd_violation g with Some v => Err v | None => Ok tt end.

(** [session.on] for the three events, under the number of this call. *)
Definition attach (session : Session) : Async nat :=
  λ g, (mkGuard (gd_tracked g) (gd_violation g) (gd_listeners g ++ [(gd_calls g, session)]) (S (gd_calls g)),
        Halt (Ok (gd_calls g))).
Definition off (call : nat) (l : list (nat * Session)) : list (nat * Session) :=
  filter (λ p, p.1 ≠ call) l.
Definition detach (call : nat) (g : Guard) : Guard :=
  mkGuard (gd_tracked g) (gd_violation g) (off call (gd_listeners g)) (gd_calls g).

Definition set_tracked (t : list (string * (Session * nat))) (g : Guard) : Guard :=
  mkGuard t (gd_violation g) (gd_listeners g) (gd_calls g).

Definition trackSession (session : Session) : Async () :=
  let key := sessionKey session in
  known ← async_read (λ g, bool_decide (is_Some (alookup key (gd_tracked g))));
  if known : bool then mret tt else
  call ← attach session;
  _ ← async_catch
        (_ ← send session Network_enable; send session Fetch_enable)
        (λ error, _ ← async_update (detach call); async_throw (ErrorObject (unknownMessage error)));
  async_update (λ g, set_tracked (aset key (session, call) (gd_tracked g)) g).

(** [this.tracked.delete(key)]. *)
Definition adelete {A} (k : string) (l : list (string * A)) : list (string * A) := filter (λ p, p.1 ≠ k) l.

Definition untrackSession (rawSessionId : option string) (g : Guard) : Guard :=
  let key := default "__main__" rawSessionId in
  match alookup key (gd_tracked g) with
  | None => g
  | Some (_, call) => let g := detach call g in set_tracked (adelete key (gd_tracked g)) g
  end.

Fixpoint dispose_sessions (l : list (Session * nat)) : Async () :=
  match l with
  | [] => mret tt
  | (session, call) :: rest =>
      _ ← async_update (detach call);
      _ ← send_quietly session Fetch_disable;
      dispose_sessions rest
  end.
Definition dispose : Async () :=
  sessions ← async_read (λ g, (gd_tracked g).*2);
  _ ← async_update (set_tracked []);
  dispose_sessions sessions.

Definition requestKindFromResource (resourceType : option string) : NetworkRequestKind :=
  if bool_decide (resourceType = Some "Document") then browser_navigation else
  if bool_decide (resourceType = Some "WebSocket") then browser_subrequest else
  browser_subrequest.

(** [date.toISOString()]: a date outside the representable range throws. *)
Definition toISOString (ms : Z) : result Thrown string :=
  if (Z.abs ms <=? 8640000000000000)%Z then Ok (iso_of_ms ms) else Err (ErrorObject "Invalid time value").

(** The clock and the two [randomUUID]s of one audit record. *)
Record Fresh := mkFresh { fr_now : Z; fr_correlationId : string; fr_idempotencyKey : string }.

Section Guarding.
Context (newURL : string → option URL) (policy : BrowserNetworkGuardPolicy).

Definition network_payload (outcome : string) (kind : NetworkRequestKind) (url host : string)
    (resourceType violationReason : option string) : json :=
  JObj ([("decision_kind", JStr "network.request"); ("network_policy_id", JStr (np_networkPolicyId policy));
         ("request_kind", JStr (NetworkRequestKind_str kind)); ("url", JStr url); ("host", JStr host);
         ("outcome", JStr outcome)] ++
        match np_runId policy with Some r => [("run_id", JStr r)] | None => [] end ++
        match resourceType with Some t => [("resource_type", JStr t)] | None => [] end ++
        match violationReason with Some r => [("violation_reason", JStr r)] | None => [] end).

Definition audit_input (audit : BrowserNetworkGuardAuditOptions) (fresh : Fresh) (outcome reason : string) (payload : json)
  : result Thrown SecurityAuditInput :=
  let now := fr_now fresh in
  occurredAt ← toISOString now;
  let retentionMs := (Z.max 1 (default 365 (ao_retentionDays audit)) * 24 * 60 * 60 * 1000)%Z in
  retentionUntil ← toISOString (now + retentionMs)%Z;
  Ok (mkSecurityInput (np_tenantId policy)
        (JObj [("subjectId", JStr (ao_subjectId audit)); ("roles", JArr (map (λ r, JStr (Role_str r)) (ao_roles audit)))])
        "network.request" outcome (Some reason)
        (default (default (fr_correlationId fresh) (np_runId policy)) (np_correlationId policy))
        (fr_idempotencyKey fresh) occurredAt retentionUntil SECURITY_AUDIT_PAYLOAD_SCHEMA_REF (Some payload) true).

(** The two kinds of decision that are recorded. *)
Definition recordNetworkAudit (fresh : Fresh) (outcome reason : string) (payload : json) : Async () :=
  match np_audit policy with
  | None => async_await (Settled (Ok tt))
  | Some audit =>
      match audit_input audit fresh outcome reason payload with
      | Ok input => async_await (RecordDecision input)
      | Err e => async_await (Settled (Err e))
      end
  end.
Definition recordAllow (fresh : Fresh) (d : BrowserNetworkAllowDecision) : Async () :=
  recordNetworkAudit fresh "allow" "network policy allowed"
    (network_payload "allow" (al_kind d) (al_url d) (al_host d) (al_resourceType d) None).
Definition recordBlocked (fresh : Fresh) (v : BrowserNetworkViolation) : Async () :=
  async_catch
    (recordNetworkAudit fresh "blocked" (vi_reason v)
       (network_payload "blocked" (vi_kind v) (vi_url v) (vi_host v) (vi_resourceType v) (Some (vi_reason v))))
    failClosed.

Definition evaluate (url : string) (kind : NetworkRequestKind) (resourceType : option string)
  : BrowserNetworkAllowDecision + BrowserNetworkViolation :=
  match evaluateBrowserNetworkPolicy newURL url (np_allowedDomains policy) with
  | Allow host => inl (mkAllow kind url host resourceType)
  | Deny host reason => inr (mkViolation kind url host resourceType reason)
  end.

Definition handleFetchPaused (fresh : Fresh) (session : Session) (event : json) : Async () :=
  match paused_id event with
  | None => failClosed (StringValue "Fetch.requestPaused missing requestId")
  | Some requestId =>
      let url := request_url event in
      let resourceType := as_string (prop "resourceType" (Some event)) in
      match evaluate url (requestKindFromResource resourceType) None with
      | inl allow =>
          recorded ← async_catch (_ ← recordAllow fresh allow; mret true)
            (λ error, _ ← failClosed error; _ ← send_quietly session (Fetch_failRequest requestId); mret false);
          if recorded : bool then send session (Fetch_continueRequest requestId) else mret tt
      | inr violation =>
          _ ← async_update (set_violation violation);
          _ ← recordBlocked fresh violation;
          send_quietly session (Fetch_failRequest requestId)
      end
  end.

Definition handleWebSocketHandshake (fresh : Fresh) (event : json) : Async () :=
  match evaluate (request_url event) browser_subrequest (Some "WebSocket") with
  | inl allow => recordAllow fresh allow
  | inr violation =>
      _ ← async_update (λ g, match gd_violation g with None => set_violation violation g | Some _ => g end);
      recordBlocked fresh violation
  end.

Definition cancelDownload (session : Session) (event : json) : Async () :=
  match as_string (prop "guid" (Some event)) with
  | Some (String _ _ as guid) => send_quietly session (Browser_cancelDownload guid)
  | _ => mret tt
  end.

Definition handleDownload (fresh : Fresh) (session : Session) (event : json) : Async () :=
  match evaluate (download_url event) download None with
  | inl allow =>
      async_catch (recordAllow fresh allow)
        (λ error, _ ← failClosed error; cancelDownload session event)
  | inr violation =>
      _ ← async_update (set_violation violation);
      _ ← recordBlocked fresh violation;
      cancelDownload session event
  end.

Definition handle (fresh : Fresh) (session : Session) (e : CdpEvent) : Async () :=
  match e with
  | Fetch_requestPaused event => handleFetchPaused fresh session event
  | Network_webSocketWillSendHandshakeRequest event => handleWebSocketHandshake fresh event
  | Browser_downloadWillBegin event => handleDownload fresh session event
  end.
End Guarding.

(** ** The guard on a page *)

(** A Stagehand page; a value that is not a CDP session is [None]. *)
Record StagehandPage := mkPage {
  pg_mainSession : option Session;
  pg_sessions : list (option Session);
  pg_canRegister : bool;
  pg_canUnregister : bool
}.

Definition add_session (sessions : list Session) (candidate : option Session) : list Session :=
  match candidate with
  | Some session =>
      if existsb (λ known, bool_decide (sessionKey known = sessionKey session)) sessions then sessions
      else sessions ++ [session]
  | None => sessions
  end.
Definition currentStagehandSessions (page : StagehandPage) : list Session :=
  foldl add_session (match pg_mainSession page with Some s => [s] | None => [] end) (pg_sessions page).

(** Who runs a piece of asynchronous code, and so what its end does: a handler
    or a later registration, whose rejection fails closed; the installation; a
    disposal. *)
Variant Owner := Guarded | Installing | Disposing.

#[export] Instance Owner_eq_dec : EqDecision Owner.
Proof. solve_decision. Defined.

Variant Obs :=
| Received (session : Session) (e : CdpEvent)
| Issued (o : Owner) (c : Call)
| Answered (o : Owner) (c : Call) (r : result Thrown ())
| Installed (r : result Thrown ()).

Record Sys := mkSys {
  sy_guard : Guard;
  sy_tasks : list (Owner * Proc ());
  sy_trace : list Obs;
  sy_installed : bool;
  sy_registerHooked : bool;
  sy_unregisterHooked : bool
}.

Variant Label :=
| L_event (session : Session) (e : CdpEvent) (fresh : Fresh)
| L_settle (i : nat) (r : result Thrown ())
| L_register (session : Session)
| L_unregister (sessionId : option string)
| L_dispose.

Definition observe (o : Obs) (s : Sys) : Sys :=
  mkSys (sy_guard s) (sy_tasks s) (sy_trace s ++ [o]) (sy_installed s) (sy_registerHooked s) (sy_unregisterHooked s).
Definition with_guard (g : Guard) (s : Sys) : Sys :=
  mkSys g (sy_tasks s) (sy_trace s) (sy_installed s) (sy_registerHooked s) (sy_unregisterHooked s).

Section OnPage.
Context (newURL : string → option URL) (policy : BrowserNetworkGuardPolicy) (page : StagehandPage).

(** What follows the end of a task: [.catch((error) => this.failClosed(error))]
    of the handlers, the hooks of the installation. *)
Definition finish (o : Owner) (r : result Thrown ()) (s : Sys) : Sys :=
  match o, r with
  | Guarded, Err e => with_guard (failClosed_state e (sy_guard s)) s
  | Installing, Ok _ =>
      mkSys (sy_guard s) (sy_tasks s) (sy_trace s ++ [Installed r]) true (pg_canRegister page) (pg_canUnregister page)
  | Installing, Err _ => observe (Installed r) s
  | _, _ => s
  end.

(** A task runs to its next [await], or to its end. *)
Definition park (o : Owner) (p : Proc ()) (s : Sys) : Sys :=
  match p with
  | Halt r => finish o r s
  | Await c _ =>
      mkSys (sy_guard s) (sy_tasks s ++ [(o, p)]) (sy_trace s ++ [Issued o c]) (sy_installed s)
        (sy_registerHooked s) (sy_unregisterHooked s)
  end.
Definition start (o : Owner) (m : Async ()) (s : Sys) : Sys :=
  let '(g, p) := m (sy_guard s) in park o p (with_guard g s).

Fixpoint trackAll (sessions : list Session) : Async () :=
  match sessions with
  | [] => mret tt
  | session :: rest => _ ← trackSession session; trackAll rest
  end.

Definition installBrowserNetworkGuardForStagehandPage : Sys :=
  let fresh_sys := mkSys (mkGuard [] None [] 0) [] [] false false false in
  match currentStagehandSessions page with
  | [] => observe (Installed (Err (ErrorObject "browser network guard requires a CDP event session"))) fresh_sys
  | sessions => start Installing (trackAll sessions) fresh_sys
  end.

(** An event runs every handler attached to its session. *)
Fixpoint dispatch (handlers : list (nat * Session)) (session : Session) (e : CdpEvent) (fresh : Fresh) (s : Sys) : Sys :=
  match handlers with
  | [] => s
  | (_, owner) :: rest =>
      let s := if decide (owner = session)
               then start Guarded (handle newURL policy fresh session e) (observe (Received session e) s)
               else s in
      dispatch rest session e fresh s
  end.

(** The answer of a call; a settled promise answers with what it holds. *)
Definition answer (c : Call) (r : result Thrown ()) : result Thrown () :=
  match c with Settled r0 => r0 | _ => r end.

Definition step (l : Label) (s : Sys) : Sys :=
  match l with
  | L_event session e fresh => dispatch (gd_listeners (sy_guard s)) session e fresh s
  | L_settle i r =>
      match sy_tasks s !! i with
      | Some (o, Await c k) =>
          let r := answer c r in
          let '(g, p) := k r (sy_guard s) in
          park o p (observe (Answered o c r)
                      (mkSys g (take i (sy_tasks s) ++ drop (S i) (sy_tasks s)) (sy_trace s)
                         (sy_installed s) (sy_registerHooked s) (sy_unregisterHooked s)))
      | _ => s
      end
  | L_register session => if sy_registerHooked s then start Guarded (trackSession session) s else s
  | L_unregister sessionId =>
      if sy_unregisterHooked s then with_guard (untrackSession sessionId (sy_guard s)) s else s
  | L_dispose =>
      if sy_installed s
      then start Disposing dispose (mkSys (sy_guard s) (sy_tasks s) (sy_trace s) true false false) else s
  end.

Definition exec (ls : list Label) (s : Sys) : Sys := foldl (λ s l, step l s) s ls.
End OnPage.
