(* ===== verification/NetworkGuardProps.v ===== *)
(** * Theorems on the browser network guard

    Three facts of every run of the guard ([exec]), whatever events arrive, in
    whatever order the calls are answered, and with sessions registered, dropped
    and disposed in between: a request goes on only when the policy permits its
    URL and the decision is on record; the guard holds a violation exactly when
    something forbidden or failed was seen; every paused request is answered
    exactly once. *)

From stdpp Require Import base strings list sets.
From Stdlib Require Import Ascii ZArith Lia.
From S2P Require Import Prelude JsValue JsText AuditLog NetworkGuard.

(** ** The policy, declaratively *)

(** A pattern of the allow list covers a host: the host itself, or [*.suffix]
    and a host that ends in [.suffix]. *)
Definition covers (raw host : string) : Prop :=
  let domain := toLowerCase (trim raw) in
  domain ≠ EmptyString ∧
  ((∃ suffix, domain = "*." +:+ suffix ∧ ∃ label, host = label +:+ "." +:+ suffix) ∨
   ((∀ suffix, domain ≠ "*." +:+ suffix) ∧ host = domain)).

Lemma ends_with_spec suffix s : ends_with suffix s = true ↔ ∃ pre, s = pre +:+ suffix.
Proof.
  induction s as [|c s IH]; cbn [ends_with]; rewrite orb_true_iff, bool_decide_eq_true.
  - split; [intros [->|?]; [by exists EmptyString|done]|].
    intros [[|c pre] H]; [by left|done].
  - rewrite IH. split.
    + intros [<-|[pre ->]]; [by exists EmptyString|by exists (String c pre)].
    + intros [[|d pre] H]; [by left|]. injection H as -> ->. right. by exists pre.
Qed.

Lemma domain_matches_spec host raw : domain_matches host raw = true ↔ covers raw host.
Proof.
  unfold domain_matches, covers. cbn zeta. set (d := toLowerCase (trim raw)). clearbody d.
  destruct d as [|c d]; [naive_solver|].
  assert (Hstar : (∃ suffix, String c d = "*." +:+ suffix) ∨ (∀ suffix, String c d ≠ "*." +:+ suffix)).
  { destruct d as [|c' d]; [right; intros ? [=]|].
    destruct (decide (c = "*"%char)) as [->|Hc]; [|right; intros ? [=]; done].
    destruct (decide (c' = "."%char)) as [->|Hc]; [left; by exists d|right; intros ? [=]; done]. }
  destruct Hstar as [[suffix Hs]|Hno].
  - injection Hs as -> ->. change ("." +:+ suffix) with (String "." suffix). cbv beta iota.
    rewrite andb_true_iff, ends_with_spec, Nat.ltb_lt. split.
    + intros [_ H]. split; [done|]. left. by exists suffix.
    + intros [_ [(suffix' & Hs & label & ->)|[H _]]]; [|by destruct (H suffix)].
      injection Hs as Hs. change ("" +:+ suffix') with suffix' in Hs. subst suffix'.
      split; [rewrite !str_length_app; simpl; lia|by exists label].
  - transitivity (bool_decide (host = String c d) = true); [|rewrite bool_decide_eq_true; naive_solver].
    destruct d as [|c' d]; [by destruct c as [[] [] [] [] [] [] [] []]|].
    destruct (decide (c = "*"%char ∧ c' = "."%char)) as [[-> ->]|Hn]; [by destruct (Hno d)|].
    destruct c as [[] [] [] [] [] [] [] []]; try done.
    destruct c' as [[] [] [] [] [] [] [] []]; try done. by destruct Hn.
Qed.

Section Props.
Context (newURL : string → option URL) (policy : BrowserNetworkGuardPolicy) (page : StagehandPage).
Notation run ls := (exec newURL policy page ls (installBrowserNetworkGuardForStagehandPage page)).
Notation step := (step newURL policy page).

(** A URL the policy permits: internal to the browser, or of a web scheme with
    a host that a pattern of [allowedDomains] covers. *)
Definition permitted (url : string) : Prop :=
  ∃ u, parsePotentiallyNestedUrl newURL url = Some u ∧
    (protocol u ∈ INTERNAL_PROTOCOLS ∨
     protocol u ∈ ["http:"; "https:"; "ws:"; "wss:"] ∧
     ∃ raw, raw ∈ np_allowedDomains policy ∧ covers raw (toLowerCase (toLowerCase (hostname u)))).

Definition allows (url : string) : bool :=
  match evaluateBrowserNetworkPolicy newURL url (np_allowedDomains policy) with Allow _ => true | Deny _ _ => false end.

Lemma allows_spec url : allows url = true ↔ permitted url.
Proof.
  unfold allows, evaluateBrowserNetworkPolicy, permitted.
  destruct (parsePotentiallyNestedUrl newURL url) as [u|]; [|naive_solver].
  unfold string_in, isHostAllowed. case_bool_decide as Hi; [naive_solver|].
  case_bool_decide as Hw; simpl; [|naive_solver].
  destruct (existsb _ _) eqn:E.
  - apply existsb_exists in E as (raw & Hin & H%domain_matches_spec). split; [|done]. intros _.
    exists u. split; [done|]. right. split; [done|]. exists raw. split; [by apply list_elem_of_In|done].
  - split; [done|]. intros (u' & [= <-] & [?|(_ & raw & Hin & H)]); [done|].
    rewrite <- E. apply existsb_exists. exists raw. split; [by apply list_elem_of_In|].
    by apply domain_matches_spec.
Qed.

(** ** Runs by rules

    Every step of a run is made of the following: code that is started, a call
    that is answered, and changes that touch neither the tasks, the trace nor the
    violation. *)
Inductive code : Owner → Async () → Prop :=
| code_install sessions : code Installing (trackAll sessions)
| code_track session : code Guarded (trackSession session)
| code_dispose : code Disposing dispose.

Inductive reach : Sys → Prop :=
| reach_init : reach (mkSys (mkGuard [] None [] 0) [] [] false false false)
| reach_same s s' : reach s → sy_tasks s' = sy_tasks s → sy_trace s' = sy_trace s →
    gd_violation (sy_guard s') = gd_violation (sy_guard s) → reach s'
| reach_refused r s : reach s → reach (observe (Installed (Err r)) s)
| reach_start o m s : reach s → code o m → reach (start page o m s)
| reach_event session e fresh s : reach s →
    reach (start page Guarded (handle newURL policy fresh session e) (observe (Received session e) s))
| reach_settle i r o c k g p s : reach s → sy_tasks s !! i = Some (o, Await c k) →
    k (answer c r) (sy_guard s) = (g, p) →
    reach (park page o p (observe (Answered o c (answer c r))
             (mkSys g (take i (sy_tasks s) ++ drop (S i) (sy_tasks s)) (sy_trace s)
                (sy_installed s) (sy_registerHooked s) (sy_unregisterHooked s)))).

Lemma dispatch_reach handlers session e fresh s : reach s → reach (dispatch newURL policy page handlers session e fresh s).
Proof.
  revert s. induction handlers as [|[n owner] rest IH]; intros s Hs; simpl; [done|].
  apply IH. case_decide; [|done]. by apply reach_event.
Qed.

Lemma untrack_violation id g : gd_violation (untrackSession id g) = gd_violation g.
Proof. unfold untrackSession. by destruct (alookup _ _) as [[? ?]|]. Qed.

Lemma step_reach l s : reach s → reach (step l s).
Proof.
  intros Hs. destruct l as [session e fresh|i r|session|id|]; simpl.
  - by apply dispatch_reach.
  - destruct (sy_tasks s !! i) as [[o [r0|c k]]|] eqn:E; try done.
    destruct (k (answer c r) (sy_guard s)) as [g p] eqn:Ek. by eapply reach_settle.
  - destruct (sy_registerHooked s); [|done]. apply reach_start; [done|constructor].
  - destruct (sy_unregisterHooked s); [|done]. eapply reach_same; [exact Hs|done..|]. apply untrack_violation.
  - destruct (sy_installed s); [|done]. apply reach_start; [|constructor]. by eapply reach_same.
Qed.

Lemma run_reach ls : reach (run ls).
Proof.
  assert (H0 : reach (installBrowserNetworkGuardForStagehandPage page)).
  { unfold installBrowserNetworkGuardForStagehandPage. destruct (currentStagehandSessions page) as [|x l].
    - apply reach_refused, reach_init.
    - apply reach_start; [apply reach_init|constructor]. }
  unfold exec. revert H0. generalize (installBrowserNetworkGuardForStagehandPage page).
  induction ls as [|l ls IH]; intros s Hs; simpl; [done|]. by apply IH, step_reach.
Qed.

Lemma park_tasks o p s t : t ∈ sy_tasks (park page o p s) →
  t ∈ sy_tasks s ∨ t = (o, p) ∧ ∃ c k, p = Await c k.
Proof.
  unfold park. destruct p as [r|c k].
  - intros H. left. destruct o, r; exact H.
  - simpl. intros [H|H%list_elem_of_singleton]%elem_of_app; [by left|right]. eauto.
Qed.

Lemma elem_of_removed {A} i (l : list A) x : x ∈ take i l ++ drop (S i) l → x ∈ l.
Proof.
  intros [H|H]%elem_of_app.
  - rewrite <- (take_drop i l). apply elem_of_app. by left.
  - rewrite <- (take_drop (S i) l). apply elem_of_app. by right.
Qed.

(** ** A request goes on only when permitted and recorded *)

(** What must have happened before [Fetch.continueRequest] of request [rid] is
    sent on [session]. *)
Definition cleared (tr : list Obs) (session : Session) (rid : string) : Prop :=
  ∃ event, Received session (Fetch_requestPaused event) ∈ tr ∧ paused_id event = Some rid ∧
    permitted (request_url event) ∧
    (np_audit policy ≠ None → ∃ o input, Answered o (RecordDecision input) (Ok tt) ∈ tr ∧
       sx_action input = "network.request" ∧ sx_outcome input = "allow" ∧
       prop "url" (sx_payload input) = Some (JStr (request_url event))).

Lemma cleared_kept tr tr' session rid : tr ⊆ tr' → cleared tr session rid → cleared tr' session rid.
Proof. intros Hs (ev & H1 & H2 & H3 & H4). exists ev. naive_solver. Qed.

Definition justified (tr : list Obs) (c : Call) : Prop :=
  match c with Send session (Fetch_continueRequest rid) => cleared tr session rid | _ => True end.

Lemma justified_mono tr tr' c : tr ⊆ tr' → justified tr c → justified tr' c.
Proof. destruct c as [? []| |]; simpl; eauto using cleared_kept. Qed.

(** Code all of whose calls are justified when it makes them. *)
Fixpoint safe (o : Owner) (tr : list Obs) (p : Proc ()) : Prop :=
  match p with
  | Halt _ => True
  | Await c k => justified tr c ∧
      ∀ tr' r g, tr ⊆ tr' → let '(_, q) := k (answer c r) g in safe o (tr' ++ [Answered o c (answer c r)]) q
  end.

Lemma safe_mono o tr tr' p : tr ⊆ tr' → safe o tr p → safe o tr' p.
Proof.
  destruct p as [r|c k]; simpl; [done|]. intros Hs [H1 H2]. split; [by eapply justified_mono|].
  intros tr'' r g Hs'. apply H2. set_solver.
Qed.

(** Code all of whose calls satisfy [P]. *)
Fixpoint calls {A} (P : Call → Prop) (p : Proc A) : Prop :=
  match p with
  | Halt _ => True
  | Await c k => P c ∧ ∀ r g, let '(_, q) := k r g in calls P q
  end.

Lemma calls_weaken {A} (P Q : Call → Prop) (p : Proc A) : (∀ c, P c → Q c) → calls P p → calls Q p.
Proof.
  intros HPQ. induction p as [r|c k IH] using Proc_nested_ind; simpl; [done|]. intros [Hc Hk].
  split; [by apply HPQ|]. intros r g. specialize (Hk r g). specialize (IH r g).
  destruct (k r g) as [g' q]. by apply IH.
Qed.

Lemma calls_bind {A B} P (f : A → Async B) p g : calls P p → (∀ a g', calls P (f a g').2) → calls P (proc_bind f p g).2.
Proof.
  intros Hp Hf. revert g Hp. induction p as [[a|e]|c k IH] using Proc_nested_ind; intros g Hp; simpl; [apply Hf|done|].
  destruct Hp as [Hc Hk]. split; [done|]. intros r g'. specialize (Hk r g'). specialize (IH r g').
  destruct (k r g') as [g2 q]. specialize (IH g2 Hk). simpl in IH. by destruct (proc_bind f q g2).
Qed.

(** Calls that let no request go on; the calls of installations and disposals;
    the records of the audit log. *)
Definition mute (c : Call) : Prop := ∀ session rid, c ≠ Send session (Fetch_continueRequest rid).
Definition setup (c : Call) : Prop :=
  match c with Send _ (Network_enable | Fetch_enable | Fetch_disable) => True | _ => False end.
Definition record (c : Call) : Prop := match c with Send _ _ => False | _ => True end.

Lemma setup_mute c : setup c → mute c.
Proof. intros H session rid ->. done. Qed.
Lemma record_mute c : record c → mute c.
Proof. intros H session rid ->. done. Qed.

Lemma mute_safe o tr p : calls mute p → safe o tr p.
Proof.
  revert tr. induction p as [r|c k IH] using Proc_nested_ind; intros tr; simpl; [done|]. intros [Hc Hk]. split.
  - destruct c as [session []| |]; simpl; try done. by destruct (Hc session requestId).
  - intros tr' r g _. specialize (Hk (answer c r) g). specialize (IH (answer c r) g).
    destruct (k (answer c r) g) as [g' q]. by apply IH.
Qed.

Lemma calls_trackSession session g : calls setup (trackSession session g).2.
Proof.
  unfold trackSession, mbind, async_bind, async_read. simpl. case_bool_decide; simpl; [done|].
  split; [done|]. intros [[]|e] g1; simpl; [|done]. split; [done|]. by intros [[]|e] g2.
Qed.

Lemma calls_trackAll sessions g : calls setup (trackAll sessions g).2.
Proof.
  revert g. induction sessions as [|x l IH]; intros g; simpl; [done|].
  unfold mbind, async_bind at 1. assert (H := calls_trackSession x g).
  destruct (trackSession x g) as [g1 p]. by apply calls_bind.
Qed.

Lemma calls_dispose_sessions l g : calls setup (dispose_sessions l g).2.
Proof.
  revert g. induction l as [|[x n] l IH]; intros g; simpl; [done|].
  unfold mbind, async_bind, async_update. simpl. split; [done|].
  intros [[]|e] g1; simpl; specialize (IH g1); by destruct (dispose_sessions l g1).
Qed.

Lemma calls_code o m g : code o m → calls setup (m g).2.
Proof.
  intros [sessions|session|]; [apply calls_trackAll|apply calls_trackSession|].
  unfold dispose, mbind, async_bind, async_read, async_update. simpl. apply calls_dispose_sessions.
Qed.

Lemma audit_input_fields audit fresh outcome reason payload input :
  audit_input policy audit fresh outcome reason payload = Ok input →
  sx_action input = "network.request" ∧ sx_outcome input = outcome ∧ sx_payload input = Some payload.
Proof.
  unfold audit_input. intros H. apply result_bind_Ok in H as (a & _ & H).
  apply result_bind_Ok in H as (b & _ & [= <-]). done.
Qed.

(** The three ways [recordNetworkAudit] waits. *)
Lemma record_cases fresh outcome reason payload g :
  ∃ c, recordNetworkAudit policy fresh outcome reason payload g = async_await c g ∧
    ((np_audit policy = None ∧ c = Settled (Ok tt)) ∨
     (∃ input, c = RecordDecision input ∧ sx_action input = "network.request" ∧
        sx_outcome input = outcome ∧ sx_payload input = Some payload) ∨
     (∃ e, np_audit policy ≠ None ∧ c = Settled (Err e))).
Proof.
  unfold recordNetworkAudit. destruct (np_audit policy) as [audit|]; [|eauto 6].
  destruct (audit_input _ _ _ _ _ _) as [input|e] eqn:E; eexists; (split; [done|]); right.
  - left. apply audit_input_fields in E. eauto.
  - right. eauto.
Qed.

Ltac record_await c Hc :=
  match goal with
  | |- context [recordNetworkAudit ?p ?f ?o ?r ?pl ?g] =>
      destruct (record_cases f o r pl g) as (c & -> & Hc); cbn [async_await proc_bind proc_catch]
  end.

Lemma calls_cancelDownload session event g :
  calls (λ c, ∃ guid, c = Send session (Browser_cancelDownload guid)) (cancelDownload session event g).2.
Proof.
  unfold cancelDownload. destruct (as_string _) as [[|? ?]|]; simpl; [done| |done].
  split; [by eexists|]. by intros [[]|].
Qed.

Lemma calls_blocked fresh v g : calls record (recordBlocked policy fresh v g).2.
Proof.
  unfold recordBlocked, async_catch. record_await c Hc. simpl. split; [|by intros [[]|e] g1].
  destruct c; naive_solver.
Qed.

(** A blocked decision on record, then what follows it. *)
Lemma calls_blocked_then {A} P fresh v (f : () → Async A) g : (∀ c, record c → P c) → (∀ g', calls P (f tt g').2) →
  calls P ((recordBlocked policy fresh v ≫= f) g).2.
Proof.
  intros HP Hf. unfold mbind, async_bind. assert (H := calls_blocked fresh v g).
  destruct (recordBlocked policy fresh v g) as [g1 p]. apply calls_bind; [by eapply calls_weaken|]. by intros [].
Qed.

Lemma safe_paused fresh session event tr g : Received session (Fetch_requestPaused event) ∈ tr →
  safe Guarded tr (handleFetchPaused newURL policy fresh session event g).2.
Proof.
  intros Hr. unfold handleFetchPaused. destruct (paused_id event) as [rid|] eqn:Hid; [|done].
  unfold evaluate. assert (Hal := allows_spec (request_url event)). unfold allows in Hal.
  destruct (evaluateBrowserNetworkPolicy _ _ _) as [host|host reason]; cbn [al_kind al_url al_host al_resourceType].
  - assert (Hp : permitted (request_url event)) by by apply Hal.
    unfold mbind, async_bind, async_catch, recordAllow. cbn [al_kind al_url al_host al_resourceType].
    record_await c Hc. cbn [safe snd]. split.
    { destruct Hc as [[_ ->]|[(input & -> & _)|(e & _ & ->)]]; done. }
    intros tr' r g1 Hs. destruct (answer c r) as [[]|e] eqn:Er; cbn; [|by repeat split; intros ? [[]|] ? ?].
    split; [|by intros ? [[]|] ? ?].
    exists event. split; [set_solver|]. split; [done|]. split; [done|]. intros Ha.
    destruct Hc as [[? ->]|[(input & -> & Hf1 & Hf2 & Hf3)|(e & _ & ->)]]; [done| |done].
    exists Guarded, input. rewrite Hf1, Hf2, Hf3. split; [set_solver|done].
  - apply mute_safe. apply calls_blocked_then; [apply record_mute|]. intros g2. split; [done|]. by intros [[]|] ?.
Qed.

Lemma safe_handle fresh session e tr g : Received session e ∈ tr →
  safe Guarded tr (handle newURL policy fresh session e g).2.
Proof.
  destruct e as [event|event|event]; simpl; [apply safe_paused|intros _; apply mute_safe..].
  - unfold handleWebSocketHandshake. destruct (evaluate _ _ _ _ _) as [al|v].
    + unfold recordAllow. record_await c Hc. simpl. split; [|by intros [[]|] ?].
      destruct c; unfold mute; naive_solver.
    + eapply calls_weaken; [apply record_mute|apply calls_blocked].
  - assert (Hcancel : ∀ g', calls mute (cancelDownload session event g').2).
    { intros g'. eapply calls_weaken; [|apply calls_cancelDownload]. by intros c [guid ->]. }
    unfold handleDownload. destruct (evaluate _ _ _ _ _) as [al|v].
    + unfold async_catch, recordAllow. record_await c Hc. simpl. split; [destruct c; unfold mute; naive_solver|].
      intros [[]|e] g1; simpl; [done|]. unfold mbind, async_bind, failClosed, async_update. simpl.
      specialize (Hcancel (failClosed_state e g1)). by destruct (cancelDownload _ _ _).
    + by apply calls_blocked_then; [apply record_mute|].
Qed.

(** The calls of a trace are justified by what precedes them. *)
Definition trace_ok (tr : list Obs) : Prop :=
  ∀ tr1 o c tr2, tr = tr1 ++ Issued o c :: tr2 → justified tr1 c.

Lemma trace_ok_snoc tr x : trace_ok tr → (∀ o c, x = Issued o c → justified tr c) → trace_ok (tr ++ [x]).
Proof.
  intros Ht Hx tr1 o c tr2 E. destruct tr2 as [|y tr2 _] using rev_ind.
  - apply app_inj_tail in E as [-> ->]. by apply (Hx o).
  - rewrite app_comm_cons, app_assoc in E. apply app_inj_tail in E as [-> _]. by eapply Ht.
Qed.

Definition safe_sys (s : Sys) : Prop :=
  trace_ok (sy_trace s) ∧ ∀ t, t ∈ sy_tasks s → safe t.1 (sy_trace s) t.2.

Lemma observe_safe x s : (∀ o c, x ≠ Issued o c) → safe_sys s → safe_sys (observe x s).
Proof.
  intros Hx [H1 H2]. split; simpl.
  - apply trace_ok_snoc; [done|]. intros o c E. by destruct (Hx o c).
  - intros t Ht. eapply safe_mono; [|by apply H2]. set_solver.
Qed.

Lemma park_safe o p s : safe_sys s → safe o (sy_trace s) p → safe_sys (park page o p s).
Proof.
  intros Hs Hp. destruct p as [r|c k].
  - destruct o, r; simpl; try exact Hs; by apply observe_safe.
  - destruct Hs as [H1 H2]. split; simpl.
    + apply trace_ok_snoc; [done|]. intros o' c' [= -> ->]. apply Hp.
    + intros t [Ht| ->%list_elem_of_singleton]%elem_of_app; cbn [fst snd];
        (eapply safe_mono; [|by first [apply H2|apply Hp]]); set_solver.
Qed.

Lemma start_safe o m s : safe_sys s → (∀ g, safe o (sy_trace s) (m g).2) → safe_sys (start page o m s).
Proof.
  intros Hs Hm. unfold start. specialize (Hm (sy_guard s)). destruct (m (sy_guard s)) as [g p]. by apply park_safe.
Qed.

Lemma reach_safe s : reach s → safe_sys s.
Proof.
  induction 1 as [|s s' _ IH Ht Htr _|r s _ IH|o m s _ IH Hc|session e fresh s _ IH|i r o c k g p s _ IH Hi Hk].
  - split; simpl; [intros [|??] ? ? ? [=]|set_solver].
  - unfold safe_sys. by rewrite Ht, Htr.
  - by apply observe_safe.
  - apply start_safe; [done|]. intros g. apply mute_safe.
    eapply calls_weaken; [apply setup_mute|by eapply calls_code].
  - apply start_safe; [by apply observe_safe|]. intros g. apply safe_handle. set_solver.
  - assert (Hsafe := proj2 IH _ (list_elem_of_lookup_2 _ _ _ Hi)). simpl in Hsafe.
    destruct Hsafe as [_ Hsafe]. specialize (Hsafe (sy_trace s) r (sy_guard s) ltac:(done)). rewrite Hk in Hsafe.
    apply park_safe; [|exact Hsafe]. apply observe_safe; [done|]. destruct IH as [H1 H2]. split; [done|].
    intros t Ht%elem_of_removed. by apply H2.
Qed.

(** C10. Whatever events the browser sends, however the calls are answered and
    interleaved, [Fetch.continueRequest] is sent for a request only after the
    request was paused on that session, with a URL that is internal to the
    browser or of a web scheme with a host the allow list covers, and, when the
    policy has an audit writer, after a record of this URL with outcome [allow]
    was written successfully. *)
Theorem only_permitted_requests_continue ls tr1 o session rid tr2 :
  sy_trace (run ls) = tr1 ++ Issued o (Send session (Fetch_continueRequest rid)) :: tr2 →
  cleared tr1 session rid.
Proof. intros E. exact (proj1 (reach_safe _ (run_reach ls)) _ _ _ _ E). Qed.

(** ** The violation the guard holds *)

Definition violated (g : Guard) : Prop := gd_violation g ≠ None.

(** An observation that must leave a violation: a request, handshake or download
    the policy does not permit, a paused request without an id, and a failed
    call of a handler, other than one that stops a request, a download or the
    interception. *)
Definition alarming (x : Obs) : Prop :=
  match x with
  | Received _ (Fetch_requestPaused event) => paused_id event = None ∨ ¬ permitted (request_url event)
  | Received _ (Network_webSocketWillSendHandshakeRequest event) => ¬ permitted (request_url event)
  | Received _ (Browser_downloadWillBegin event) => ¬ permitted (download_url event)
  | Answered Guarded (Send _ (Fetch_failRequest _ | Browser_cancelDownload _ | Fetch_disable)) _ => False
  | Answered Guarded _ (Err _) => True
  | _ => False
  end.

(** The guard once code that stops here has ended. *)
Definition ended (o : Owner) (p : Proc ()) (g : Guard) : Guard :=
  match o, p with Guarded, Halt (Err e) => failClosed_state e g | _, _ => g end.

Fixpoint tight (o : Owner) (p : Proc ()) : Prop :=
  match p with
  | Halt _ => True
  | Await c k => ∀ r g, let '(g', q) := k (answer c r) g in
      (violated (ended o q g') ↔ violated g ∨ alarming (Answered o c (answer c r))) ∧ tight o q
  end.

Lemma violated_failClosed e g : violated (failClosed_state e g).
Proof. unfold violated, failClosed_state. by destruct (gd_violation g) eqn:E; [rewrite E|]. Qed.

Lemma violated_set v g : violated (set_violation v g).
Proof. done. Qed.

(** Code that never touches the violation. *)
Fixpoint calm {A} (p : Proc A) : Prop :=
  match p with
  | Halt _ => True
  | Await _ k => ∀ r g, let '(g', q) := k r g in gd_violation g' = gd_violation g ∧ calm q
  end.
Definition calm_code {A} (m : Async A) : Prop := ∀ g, gd_violation (m g).1 = gd_violation g ∧ calm (m g).2.

Lemma calm_bind {A B} (f : A → Async B) p g : calm p → (∀ a, calm_code (f a)) →
  gd_violation (proc_bind f p g).1 = gd_violation g ∧ calm (proc_bind f p g).2.
Proof.
  intros Hp Hf. revert g Hp. induction p as [[a|e]|c k IH] using Proc_nested_ind; intros g Hp; simpl; [apply Hf|done|].
  split; [done|]. intros r g'. specialize (Hp r g'). specialize (IH r g').
  destruct (k r g') as [g2 q]. destruct Hp as [Hg Hq]. destruct (IH g2 Hq) as [H1 H2].
  simpl in H1, H2. destruct (proc_bind f q g2) as [g3 q3]. simpl in *. by rewrite H1, Hg.
Qed.

Lemma calm_trackSession session : calm_code (trackSession session).
Proof.
  intros g. unfold trackSession, mbind, async_bind, async_read. simpl. case_bool_decide; simpl; [done|].
  split; [done|]. intros [[]|e] g1; simpl; [|done]. split; [done|]. by intros [[]|e] g2.
Qed.

Lemma calm_trackAll sessions : calm_code (trackAll sessions).
Proof.
  induction sessions as [|x l IH]; intros g; simpl; [done|].
  unfold mbind, async_bind at 1 2. assert (H := calm_trackSession x g).
  destruct (trackSession x g) as [g1 p]. simpl in H. destruct H as [Hg Hp].
  destruct (calm_bind (λ _ : (), trackAll l) p g1 Hp (λ _, IH)) as [H1 H2]. by rewrite H1, Hg.
Qed.

Lemma calm_dispose_sessions l : calm_code (dispose_sessions l).
Proof.
  induction l as [|[x n] l IH]; intros g; simpl; [done|].
  unfold mbind, async_bind, async_update. simpl. split; [done|].
  intros [[]|e] g1; simpl; specialize (IH g1); by destruct (dispose_sessions l g1).
Qed.

Lemma calm_tight o p : o ≠ Guarded → calm p → tight o p.
Proof.
  intros Ho. induction p as [r|c k IH] using Proc_nested_ind; simpl; [done|]. intros Hk r g.
  specialize (Hk (answer c r) g). specialize (IH (answer c r) g).
  destruct (k (answer c r) g) as [g' q]. destruct Hk as [Hg Hq]. split; [|by apply IH].
  unfold violated, ended. destruct o; [done|..]; rewrite Hg; tauto.
Qed.

Lemma tight_code o m g : code o m → (violated (ended o (m g).2 (m g).1) ↔ violated g) ∧ tight o (m g).2.
Proof.
  intros [sessions|session|].
  - destruct (calm_trackAll sessions g) as [H1 H2]. split; [simpl; unfold violated; by rewrite H1|].
    by apply calm_tight.
  - unfold trackSession, mbind, async_bind, async_read. simpl. case_bool_decide; simpl; [done|].
    split; [done|]. intros [[]|e] g1; cbn.
    + split; [unfold violated; tauto|]. intros [[]|e] g2; cbn; (split; [|done]).
      * unfold violated; simpl; tauto.
      * split; [by right|intros _; apply violated_failClosed].
    + split; [|done]. split; [by right|intros _; apply violated_failClosed].
  - destruct (calm_dispose_sessions (gd_tracked g).*2 (set_tracked [] g)) as [H1 H2].
    unfold dispose, mbind, async_bind, async_read, async_update. cbn [proc_bind].
    split; [simpl; unfold violated; by rewrite H1|]. by apply calm_tight.
Qed.

Lemma permitted_dec url : permitted url ∨ ¬ permitted url.
Proof. rewrite <- allows_spec. destruct (allows url); auto. Qed.

(** The answer of a record, when it is not the failure of a command. *)
Lemma alarming_record c r : record c → alarming (Answered Guarded c r) ↔ ∃ e, r = Err e.
Proof. destruct c as [? ?| |], r as [[]|e]; simpl; naive_solver. Qed.

Lemma record_cases_record c P Q R : ((P : Prop) ∧ c = Settled (Ok tt)) ∨ (∃ input, c = RecordDecision input ∧ Q input) ∨
  (∃ e, (R : Prop) ∧ c = Settled (Err e)) → record c.
Proof. naive_solver. Qed.

Lemma tight_send_quietly session command g : command ≠ Network_enable → command ≠ Fetch_enable →
  (∀ rid, command ≠ Fetch_continueRequest rid) →
  tight Guarded (send_quietly session command g).2.
Proof.
  intros H1 H2 H3. simpl. intros r g1. destruct r as [[]|e]; cbn; (split; [|done]);
    destruct command; try done; try tauto; by destruct (H3 requestId).
Qed.

Lemma tight_cancelDownload session event g : (cancelDownload session event g).1 = g ∧
  tight Guarded (cancelDownload session event g).2 ∧ ended Guarded (cancelDownload session event g).2 g = g.
Proof.
  unfold cancelDownload. destruct (as_string _) as [[|? ?]|]; [done| |done].
  split; [done|]. split; [|done]. by apply tight_send_quietly.
Qed.

(** A denial: the violation is set, the decision recorded, and what follows
    leaves the violation alone. *)
Lemma tight_denied h fresh v (f : Async ()) g (m := _ ← async_update h; _ ← recordBlocked policy fresh v; f) :
  violated (h g) → (∀ g', (f g').1 = g' ∧ tight Guarded (f g').2 ∧ ended Guarded (f g').2 g' = g') →
  violated (ended Guarded (m g).2 (m g).1) ∧ tight Guarded (m g).2.
Proof.
  intros Hv Hf. subst m. unfold mbind, async_bind, recordBlocked, async_catch, async_update. cbn [proc_bind].
  record_await c Hc. apply record_cases_record in Hc.
  split; [done|]. cbn [tight snd]. intros r g1. destruct (answer c r) as [[]|e]; cbn -[alarming].
  - destruct (Hf g1) as (H1 & H2 & H3). destruct (f g1) as [g2 q]. simpl in *. subst g2.
    split; [|done]. rewrite H3, (alarming_record c (Ok tt) Hc). naive_solver.
  - set (g1' := failClosed_state e g1). destruct (Hf g1') as (H1 & H2 & H3).
    destruct (f g1') as [g2 q]. simpl in *. subst g2. split; [|done]. rewrite H3.
    rewrite (alarming_record c (Err e) Hc). split; [eauto|intros _; apply violated_failClosed].
Qed.

Lemma evaluate_cases url kind rt :
  (permitted url ∧ ∃ host, evaluate newURL policy url kind rt = inl (mkAllow kind url host rt)) ∨
  (¬ permitted url ∧ ∃ v, evaluate newURL policy url kind rt = inr v).
Proof.
  rewrite <- allows_spec. unfold allows, evaluate. destruct (evaluateBrowserNetworkPolicy _ _ _); eauto.
Qed.

Lemma tight_handle fresh session e g (m := handle newURL policy fresh session e) :
  (violated (ended Guarded (m g).2 (m g).1) ↔ violated g ∨ alarming (Received session e)) ∧ tight Guarded (m g).2.
Proof.
  destruct e as [event|event|event]; subst m; cbn [handle].
  - unfold handleFetchPaused. destruct (paused_id event) as [rid|] eqn:Hid.
    2:{ split; [|done]. simpl. split; [auto|intros _; apply violated_failClosed]. }
    destruct (evaluate_cases (request_url event)
                (requestKindFromResource (as_string (prop "resourceType" (Some event)))) None)
      as [[Hp [host ->]]|[Hp [v ->]]].
    + unfold mbind, async_bind, async_catch, recordAllow. cbn [al_kind al_url al_host al_resourceType].
      record_await c Hc. apply record_cases_record in Hc.
      split; [simpl; rewrite Hid; naive_solver|]. cbn [tight snd]. intros r g1.
      destruct (answer c r) as [[]|e]; cbn -[alarming].
      * rewrite (alarming_record c (Ok tt) Hc). split; [naive_solver|].
        intros [[]|e] g2; cbn; (split; [|done]); [tauto|]. split; [by right|intros _; apply violated_failClosed].
      * rewrite (alarming_record c (Err e) Hc). split; [split; [eauto|intros _; apply violated_failClosed]|].
        intros [[]|e'] g2; cbn; (split; [|done]); tauto.
    + destruct (tight_denied (set_violation v) fresh v (send_quietly session (Fetch_failRequest rid)) g) as [H1 H2].
      { done. }
      { intros g'. split; [done|]. split; [|done]. by apply tight_send_quietly. }
      split; [|exact H2]. simpl. rewrite Hid. naive_solver.
  - unfold handleWebSocketHandshake.
    destruct (evaluate_cases (request_url event) browser_subrequest (Some "WebSocket")) as [[Hp [host ->]]|[Hp [v ->]]].
    + unfold recordAllow. record_await c Hc. apply record_cases_record in Hc. split; [simpl; naive_solver|].
      intros r g1. destruct (answer c r) as [[]|e]; cbn -[alarming];
        rewrite (alarming_record c _ Hc); (split; [|done]); [naive_solver|].
      split; [eauto|intros _; apply violated_failClosed].
    + unfold mbind, async_bind, async_update, recordBlocked, async_catch. cbn [proc_bind].
      record_await c Hc. apply record_cases_record in Hc. split.
      * split; [auto|]. intros _. unfold violated. simpl. destruct (gd_violation g) eqn:E; [by rewrite E|done].
      * intros r g1. destruct (answer c r) as [[]|e]; cbn -[alarming];
          rewrite (alarming_record c _ Hc); (split; [|done]); [naive_solver|].
        split; [eauto|intros _; apply violated_failClosed].
  - unfold handleDownload.
    destruct (evaluate_cases (download_url event) download None) as [[Hp [host ->]]|[Hp [v ->]]].
    + unfold async_catch, recordAllow. record_await c Hc. apply record_cases_record in Hc.
      split; [simpl; naive_solver|]. intros r g1.
      destruct (answer c r) as [[]|e];
        [cbn -[alarming]; rewrite (alarming_record c _ Hc); split; [naive_solver|done]|].
      unfold mbind, async_bind, failClosed, async_update. cbn [proc_bind].
      destruct (tight_cancelDownload session event (failClosed_state e g1)) as (H1 & H2 & H3).
      destruct (cancelDownload _ _ _) as [g2 q]. cbn [fst snd] in *. subst g2. split; [|done].
      rewrite H3, (alarming_record c _ Hc). split; [eauto|intros _; apply violated_failClosed].
    + destruct (tight_denied (set_violation v) fresh v (cancelDownload session event) g) as [H1 H2].
      { done. }
      { intros g'. apply tight_cancelDownload. }
      split; [|exact H2]. simpl. naive_solver.
Qed.

Definition tight_sys (s : Sys) : Prop :=
  (violated (sy_guard s) ↔ ∃ x, x ∈ sy_trace s ∧ alarming x) ∧ ∀ t, t ∈ sy_tasks s → tight t.1 t.2.

(** Code that has just run for [x], or for nothing. *)
Lemma park_tight o p s (g0 : Guard) (xs : list Obs) tr :
  (violated g0 ↔ ∃ x, x ∈ tr ∧ alarming x) →
  (violated (ended o p (sy_guard s)) ↔ violated g0 ∨ ∃ x, x ∈ xs ∧ alarming x) →
  sy_trace s = tr ++ xs → (∀ t, t ∈ sy_tasks s → tight t.1 t.2) → tight o p → tight_sys (park page o p s).
Proof.
  intros H0 Hv Htr Ht Hp.
  assert (Hg : sy_guard (park page o p s) = ended o p (sy_guard s)) by (destruct o, p as [[[]|]|]; done).
  assert (Htr' : ∃ ys, sy_trace (park page o p s) = sy_trace s ++ ys ∧ ∀ x, x ∈ ys → ¬ alarming x).
  { destruct o, p as [[[]|]|]; simpl; eexists; (split; [first [reflexivity|by rewrite app_nil_r]|]);
      try (intros ? ->%list_elem_of_singleton; simpl; tauto); intros ? []%not_elem_of_nil. }
  destruct Htr' as (ys & E & Hys). split.
  - rewrite Hg, Hv, H0, E, Htr. set_solver.
  - intros t [?|(-> & c & k & ->)]%park_tasks; by auto.
Qed.

Lemma reach_tight s : reach s → tight_sys s.
Proof.
  induction 1 as [|s s' _ IH Ht Htr Hv|r s _ IH|o m s _ IH Hc|session e fresh s _ IH|i r o c k g p s _ IH Hi Hk].
  - split; simpl; [|set_solver]. split; [done|set_solver].
  - unfold tight_sys, violated. rewrite Ht, Htr, Hv. exact IH.
  - destruct IH as [H1 H2]. split; simpl; [|done]. rewrite H1. set_solver.
  - destruct IH as [H1 H2]. unfold start. assert (H := tight_code o m (sy_guard s) Hc).
    destruct (m (sy_guard s)) as [g p]. simpl in H. destruct H as [Hg Hp].
    apply (park_tight _ _ _ (sy_guard s) [] (sy_trace s)); [done| |by rewrite app_nil_r|exact H2|exact Hp].
    simpl sy_guard. rewrite Hg. set_solver.
  - destruct IH as [H1 H2]. unfold start. assert (H := tight_handle fresh session e (sy_guard s)). cbv zeta in H.
    change (sy_guard (observe (Received session e) s)) with (sy_guard s).
    destruct (handle newURL policy fresh session e (sy_guard s)) as [g p]. cbn [fst snd] in H. destruct H as [Hg Hp].
    apply (park_tight _ _ _ (sy_guard s) [Received session e] (sy_trace s)); [done| |done|exact H2|exact Hp].
    simpl sy_guard. rewrite Hg. set_solver.
  - destruct IH as [H1 H2]. assert (H := H2 _ (list_elem_of_lookup_2 _ _ _ Hi)). simpl in H.
    specialize (H r (sy_guard s)). rewrite Hk in H. destruct H as [Hg Hp].
    apply (park_tight _ _ _ (sy_guard s) [Answered o c (answer c r)] (sy_trace s)); [done| |done| |exact Hp].
    + simpl sy_guard. rewrite Hg. set_solver.
    + intros t Ht%elem_of_removed. by apply H2.
Qed.

(** C19. The guard fails closed, and only for cause: after any run,
    [assertNoViolation] throws exactly when something alarming was seen: a
    request, WebSocket handshake or download whose URL the policy does not permit,
    a paused request without an id, or a failed call of a handler (a record of the
    audit log, [Fetch.continueRequest], the set-up of a new session).  So a
    violation, once there, is never cleared, and none appears from nothing. *)
Theorem violation_iff_alarm ls :
  is_ok (assertNoViolation (sy_guard (run ls))) = false ↔ ∃ x, x ∈ sy_trace (run ls) ∧ alarming x.
Proof.
  rewrite <- (proj1 (reach_tight _ (run_reach ls))). unfold assertNoViolation, violated.
  by destruct (gd_violation _).
Qed.

(** ** Every paused request is answered once *)

Section Decisions.
Context (session : Session) (rid : string).

(** The commands that decide request [rid] of [session], and the events that ask
    for a decision. *)
Definition decides (c : Call) : nat :=
  match c with
  | Send session' (Fetch_continueRequest rid' | Fetch_failRequest rid') =>
      if decide (session' = session ∧ rid' = rid) then 1 else 0
  | _ => 0
  end.
Definition made (x : Obs) : nat := match x with Issued _ c => decides c | _ => 0 end.
Definition asked (x : Obs) : nat :=
  match x with
  | Received session' (Fetch_requestPaused event) =>
      if decide (session' = session ∧ paused_id event = Some rid) then 1 else 0
  | _ => 0
  end.

Definition head (p : Proc ()) : nat := match p with Halt _ => 0 | Await c _ => decides c end.

(** Code that, whatever the answers, still makes [n] decisions after the call it
    waits for. *)
Fixpoint owes (n : nat) (p : Proc ()) : Prop :=
  match p with
  | Halt _ => n = 0
  | Await c k => ∀ r g, let '(_, q) := k (answer c r) g in ∃ m, n = head q + m ∧ owes m q
  end.

Lemma owes_nothing p : calls (λ c, decides c = 0) p → head p = 0 ∧ owes 0 p.
Proof.
  induction p as [r|c k IH] using Proc_nested_ind; simpl; [done|]. intros [Hc Hk]. split; [done|].
  intros r g. specialize (Hk (answer c r) g). specialize (IH (answer c r) g).
  destruct (k (answer c r) g) as [g' q]. destruct (IH Hk) as [H1 H2]. simpl in *. exists 0. by rewrite H1.
Qed.

Lemma owes_code o m g : code o m → head (m g).2 = 0 ∧ owes 0 (m g).2.
Proof.
  intros Hc. apply owes_nothing. eapply calls_weaken; [|by eapply calls_code]. by intros [? []| |].
Qed.

Lemma owes_handle fresh session' e g (m := handle newURL policy fresh session' e) :
  ∃ n, head (m g).2 + n = asked (Received session' e) ∧ owes n (m g).2.
Proof.
  assert (Hrec : ∀ c, record c → decides c = 0) by by intros [? ?| |].
  destruct e as [event|event|event]; subst m; cbn [handle].
  2:{ exists 0. rewrite Nat.add_0_r. apply owes_nothing. unfold handleWebSocketHandshake.
      destruct (evaluate _ _ _ _ _) as [al|v].
      - unfold recordAllow. record_await c Hc. apply record_cases_record in Hc. split; [auto|by intros [[]|] ?].
      - eapply calls_weaken; [exact Hrec|apply calls_blocked]. }
  2:{ exists 0. rewrite Nat.add_0_r. apply owes_nothing.
      assert (Hcancel : ∀ g', calls (λ c, decides c = 0) (cancelDownload session' event g').2).
      { intros g'. eapply calls_weaken; [|apply calls_cancelDownload]. by intros c [guid ->]. }
      unfold handleDownload. destruct (evaluate _ _ _ _ _) as [al|v].
      - unfold async_catch, recordAllow. record_await c Hc. apply record_cases_record in Hc.
        split; [auto|]. intros [[]|e] g1; simpl; [done|].
        unfold mbind, async_bind, failClosed, async_update. cbn [proc_bind].
        specialize (Hcancel (failClosed_state e g1)). by destruct (cancelDownload _ _ _).
      - by apply calls_blocked_then. }
  unfold handleFetchPaused. cbn [asked]. destruct (paused_id event) as [rid'|] eqn:Hid.
  2:{ exists 0. rewrite decide_False by naive_solver. done. }
  set (due := if decide (session' = session ∧ rid' = rid) then 1 else 0).
  assert (Hdue : (if decide (session' = session ∧ Some rid' = Some rid) then 1 else 0) = due).
  { subst due. by do 2 case_decide; naive_solver. }
  rewrite Hdue. exists due. destruct (evaluate _ _ _ _ _) as [al|v].
  - unfold mbind, async_bind, async_catch, recordAllow. record_await c Hc. apply record_cases_record in Hc.
    split; [cbn [snd head]; by rewrite Hrec|]. intros r g1.
    destruct (answer c r) as [[]|e]; cbn -[decides decide]; exists 0; rewrite Nat.add_0_r;
      (split; [done|]); by intros [[]|] ?; exists 0.
  - unfold mbind, async_bind, recordBlocked, async_catch, async_update. cbn [proc_bind].
    record_await c Hc. apply record_cases_record in Hc.
    split; [cbn [snd head]; by rewrite Hrec|]. intros r g1.
    destruct (answer c r) as [[]|e]; cbn -[decides decide]; exists 0; rewrite Nat.add_0_r;
      (split; [done|]); by intros [[]|] ?; exists 0.
Qed.

Notation count f tr := (sum_list_with f tr).

Definition owing_sys (s : Sys) : Prop := ∃ ns, Forall2 (λ n t, owes n t.2) ns (sy_tasks s) ∧
  count asked (sy_trace s) = count made (sy_trace s) + sum_list ns.

Lemma count_snoc (f : Obs → nat) tr x : count f (tr ++ [x]) = count f tr + f x.
Proof. rewrite sum_list_with_app. simpl. lia. Qed.

Lemma park_owing o p s ns m : Forall2 (λ n t, owes n t.2) ns (sy_tasks s) → owes m p →
  count asked (sy_trace s) = count made (sy_trace s) + sum_list ns + (head p + m) → owing_sys (park page o p s).
Proof.
  intros Ht Hp E. destruct p as [r|c k].
  - simpl in Hp. subst m. exists ns. simpl in E. destruct o, r; simpl; (split; [done|]); rewrite ?count_snoc; simpl; lia.
  - exists (ns ++ [m]). simpl in *. split; [apply Forall2_app; [done|by constructor]|].
    rewrite !count_snoc. simpl. rewrite sum_list_with_app. simpl. lia.
Qed.

Lemma reach_owing s : reach s → owing_sys s.
Proof.
  induction 1 as [|s s' _ IH Ht Htr Hv|r s _ IH|o m s _ IH Hc|session' e fresh s _ IH|i r o c k g p s _ IH Hi Hk].
  - by exists [].
  - unfold owing_sys. by rewrite Ht, Htr.
  - destruct IH as (ns & H1 & H2). exists ns. simpl. rewrite !count_snoc. simpl. split; [done|lia].
  - destruct IH as (ns & H1 & H2). unfold start. assert (H := owes_code o m (sy_guard s) Hc).
    destruct (m (sy_guard s)) as [g p]. simpl in H. destruct H as [Hh Hp].
    apply (park_owing _ _ _ ns 0); [done..|]. rewrite Hh. simpl. lia.
  - destruct IH as (ns & H1 & H2). unfold start. destruct (owes_handle fresh session' e (sy_guard s)) as (n & Hn & Hp).
    cbv zeta in Hn, Hp. change (sy_guard (observe (Received session' e) s)) with (sy_guard s).
    destruct (handle newURL policy fresh session' e (sy_guard s)) as [g p]. cbn [snd] in *.
    apply (park_owing _ _ _ ns n); [done..|]. simpl sy_trace. rewrite !count_snoc, Hn. cbn [made]. lia.
  - destruct IH as (ns & H1 & H2).
    destruct (Forall2_lookup_r _ _ _ _ _ H1 Hi) as (n & Hn & Ho). simpl in Ho.
    specialize (Ho r (sy_guard s)). rewrite Hk in Ho. destruct Ho as (m & -> & Hp).
    apply (park_owing _ _ _ (take i ns ++ drop (S i) ns) m); [|done|].
    + simpl. apply Forall2_app; [by apply Forall2_take|by apply Forall2_drop].
    + simpl sy_trace. rewrite !count_snoc. cbn [asked made]. rewrite H2.
      rewrite <- (take_drop_middle ns i _ Hn) at 1. rewrite !sum_list_with_app. simpl. lia.
Qed.

(** Every paused request is decided once: of the commands
    [Fetch.continueRequest] and [Fetch.failRequest] for a request of a session,
    no more are ever sent than the times the request was paused there, and just as
    many once nothing is under way, so no request is decided twice and none is
    forgotten, whatever fails. *)
Theorem paused_requests_decided_once ls :
  count made (sy_trace (run ls)) ≤ count asked (sy_trace (run ls)) ∧
  (sy_tasks (run ls) = [] → count made (sy_trace (run ls)) = count asked (sy_trace (run ls))).
Proof.
  destruct (reach_owing _ (run_reach ls)) as (ns & H1 & H2). split; [lia|]. intros E.
  rewrite E in H1. inversion H1; subst. simpl in H2. lia.
Qed.
End Decisions.
End Props.

(** ** What the guard does not stop *)

(** A WebSocket handshake is judged and recorded, and no command is ever sent to
    stop it. *)
Theorem websocket_handshake_not_stopped newURL policy fresh event g :
  calls record (handleWebSocketHandshake newURL policy fresh event g).2.
Proof.
  unfold handleWebSocketHandshake. destruct (evaluate _ _ _ _ _) as [al|v]; [|apply calls_blocked].
  unfold recordAllow. match goal with |- context [recordNetworkAudit ?p ?f ?o ?r ?pl ?g] =>
    destruct (record_cases p f o r pl g) as (c & -> & Hc) end.
  split; [by apply record_cases_record in Hc|by intros [[]|] ?].
Qed.

(** ** A sample run *)

Definition sample_newURL (text : string) : option URL :=
  if starts_with "https://shop.example.com/" text then Some (mkURL "https:" "shop.example.com") else
  if starts_with "https://evil.test/" text then Some (mkURL "https:" "evil.test") else None.
Definition sample_policy : BrowserNetworkGuardPolicy :=
  mkPolicy "tenant-1" (Some "run-1") None "np-1" ["*.example.com"] (Some (mkAuditOptions "worker" [] None)).
Definition sample_main : Session := mkSession 0 None.
Definition sample_child : Session := mkSession 1 (Some "oopif").
Definition sample_page : StagehandPage := mkPage (Some sample_main) [] true true.
Definition sample_fresh : Fresh := mkFresh 1781308800000 "c" "k".
Definition sample_paused (id url : string) : CdpEvent :=
  Fetch_requestPaused (JObj [("requestId", JStr id); ("request", JObj [("url", JStr url)])]).
Definition sample_labels : list Label :=
  [L_settle 0 (Ok tt); L_settle 0 (Ok tt);
   L_event sample_main (sample_paused "r1" "https://shop.example.com/cart") sample_fresh;
   L_event sample_main (sample_paused "r2" "https://evil.test/x") sample_fresh;
   L_settle 0 (Ok tt); L_settle 0 (Err OtherValue); L_settle 0 (Ok tt); L_settle 0 (Ok tt)].
Notation sample_sys :=
  (exec sample_newURL sample_policy sample_page sample_labels (installBrowserNetworkGuardForStagehandPage sample_page)).
Definition sample_trace : list Obs := Eval vm_compute in sy_trace sample_sys.

Lemma sample_trace_eq : sy_trace sample_sys = sample_trace.
Proof. vm_compute. reflexivity. Qed.

Lemma only_permitted_requests_continue_witness :
  ∃ tr1 tr2, sample_trace = tr1 ++ Issued Guarded (Send sample_main (Fetch_continueRequest "r1")) :: tr2 ∧
    cleared sample_newURL sample_policy tr1 sample_main "r1".
Proof.
  exists (take 10 sample_trace), (drop 11 sample_trace). split; [reflexivity|].
  apply (only_permitted_requests_continue sample_newURL sample_policy sample_page sample_labels _ Guarded _ _
           (drop 11 sample_trace)).
  rewrite sample_trace_eq. reflexivity.
Defined.

Lemma sample_idle : sy_tasks sample_sys = [].
Proof. vm_compute. reflexivity. Qed.

Lemma paused_requests_decided_once_witness :
  sum_list_with (made sample_main "r2") (sy_trace sample_sys) = sum_list_with (asked sample_main "r2") (sy_trace sample_sys).
Proof.
  apply (proj2 (paused_requests_decided_once sample_newURL sample_policy sample_page sample_main "r2" sample_labels)).
  exact sample_idle.
Defined.

(** A session that registers while the guard is still enabling the first one gets
    no handlers: its requests are neither judged nor recorded, then or later. *)
Definition late_labels : list Label :=
  [L_settle 0 (Ok tt); L_register sample_child; L_settle 0 (Ok tt);
   L_event sample_child (sample_paused "r1" "https://evil.test/x") sample_fresh].
Theorem session_registered_during_install_unguarded :
  let s := exec sample_newURL sample_policy sample_page late_labels (installBrowserNetworkGuardForStagehandPage sample_page) in
  sy_installed s = true ∧ assertNoViolation (sy_guard s) = Ok tt ∧ sy_tasks s = [] ∧
  gd_listeners (sy_guard s) = [(0, sample_main)].
Proof. vm_compute. done. Qed.
