(* ===== verification/ApiStore.v ===== *)
(** * Transactions of the request handlers and their idempotency keys

    Models [app/src/api/idempotency.ts] (the table of idempotency keys),
    [command.ts] (the skeleton of the commands), the job queue of
    [app/src/runtime/run-queue.ts] and [withTenantTx] for the handlers.  [Api] has
    the tables of one tenant; a [Stmt] is the body of a transaction, an [Act] a handler,
    which is a sequence of transactions.  Other clients and workers act before each
    transaction and at the points [interleave] of its body, where it has read but
    not written (READ COMMITTED): they are the list of functions [aw_env].  A body
    that throws leaves the tables as the others left them.  [Date.now()] and
    [now()] are one clock, in milliseconds. *)

From stdpp Require Import base strings list gmap pretty.
From Stdlib Require Import Ascii ZArith.
From S2P Require Import Prelude StateMachine JsValue JsText Rbac Database Leases ErrorCatalog ApiShared AuditLog.

(** ** Tables *)

Inductive KeyStatus := key_processing | key_succeeded | key_failed.
#[export] Instance KeyStatus_eq_dec : EqDecision KeyStatus.
Proof. solve_decision. Defined.

(** A row of [control_plane_idempotency_keys]. *)
Record IdempotencyRow := mkKeyRow {
  ik_id : string;
  ik_endpoint : string;
  ik_key : string;
  ik_request_hash : string;
  ik_status : KeyStatus;
  ik_response_status : option Z;
  ik_response_body : option json;
  ik_expires_at : Z
}.

Inductive RunPriority := low | medium | high | critical.
#[export] Instance RunPriority_eq_dec : EqDecision RunPriority.
Proof. solve_decision. Defined.
Inductive RunMode := mode_test | mode_prod.

(** The columns of [runs] only the handlers use. *)
Record RunRequestRow := mkRunRequest { rq_priority : RunPriority; rq_run_mode : RunMode; rq_as_of : string }.

(** The columns of [human_tasks] only the handlers use. *)
Record TaskColumns := mkTaskColumns {
  tc_resolved_by : option string;
  tc_escalation_reason : option string;
  tc_escalated_by : option string;
  tc_escalated_at : option Z
}.
Definition no_task_columns : TaskColumns := mkTaskColumns None None None None.

(** A row of [run_resume_requests]. *)
Record ResumeRequestRow := mkResumeRequest {
  rr_run_id : string;
  rr_human_task_id : option string;
  rr_status : string;
  rr_previous_run_status : RunState;
  rr_requested_by : string;
  rr_reason : option string;
  rr_input_refs : list string;
  rr_audit_correlation_id : string;
  rr_request_idempotency_key : string
}.

Record SinkDeliveryRow := mkSinkDelivery {
  sd_normalized_record_id : string;
  sd_sink_config_id : string;
  sd_dead_letter : bool;
  sd_attempted_at : Z;
  sd_requeued_at : option Z
}.

Inductive PoolStatus := pool_active | pool_draining | pool_disabled.
#[export] Instance PoolStatus_eq_dec : EqDecision PoolStatus.
Proof. solve_decision. Defined.
Record PoolRow := mkPool { po_key : string; po_status : PoolStatus; po_priority : RunPriority }.

Inductive PolicyMode := mode_observe | mode_warn | mode_block.
#[export] Instance PolicyMode_eq_dec : EqDecision PolicyMode.
Proof. solve_decision. Defined.
Record AiRuntimePolicyRow := mkAiPolicy { ap_mode : PolicyMode; ap_grace_until : option Z; ap_policy_decision_ref : string }.

Inductive EvidenceStatus := ev_valid | ev_failed | ev_deferred.
Record LatestEvidence := mkEvidence { ad_status : EvidenceStatus; ad_expires_at : option Z; ad_evidence_ref : option string }.

(** What the handlers only read: the archiving time of the scenario of a version
    (of the versions whose scenario exists), the gateway policies with their default
    flag, the pool the tenant is assigned to, the policy for AI and the latest
    evidence of a type and subject. *)
Record ApiCatalog := mkApiCatalog {
  version_archived_at : gmap string (option Z);
  gateway_policies : list (string * bool);
  pool_assignment : option PoolRow;
  ai_runtime_policy : option AiRuntimePolicyRow;
  ai_evidence : gmap (string * string) LatestEvidence
}.

(** Rows of [run_triggers] and [run_trigger_fires].  Their times are those of a
    [timestamptz] column, in microseconds. *)
Inductive TriggerType := trigger_cron | trigger_webhook.
#[export] Instance TriggerType_eq_dec : EqDecision TriggerType.
Proof. solve_decision. Defined.
Inductive TriggerStatus := trigger_enabled | trigger_paused | trigger_archived.
#[export] Instance TriggerStatus_eq_dec : EqDecision TriggerStatus.
Proof. solve_decision. Defined.
Inductive CatchupPolicy := skip_missed | fire_once.
#[export] Instance CatchupPolicy_eq_dec : EqDecision CatchupPolicy.
Proof. solve_decision. Defined.
Inductive FireStatus := fire_queued | fire_skipped | fire_failed.
#[export] Instance FireStatus_eq_dec : EqDecision FireStatus.
Proof. solve_decision. Defined.

Record TriggerRow := mkTrigger {
  tr_id : string;
  tr_scenario_version_id : string;
  tr_type : TriggerType;
  tr_status : TriggerStatus;
  tr_cron_expression : option string;
  tr_timezone : option string;
  tr_webhook_secret_ref : option string;
  tr_params : json;
  tr_catchup_policy : CatchupPolicy;
  tr_max_concurrent_runs : Z;
  tr_next_fire_at : option Z;
  tr_created_by : string;
  tr_created_at : Z;
  tr_updated_at : Z
}.

Record FireRow := mkFire {
  fi_id : string;
  fi_trigger_id : string;
  fi_fire_key : string;
  fi_status : FireStatus;
  fi_scheduled_for : Z;
  fi_run_id : option string;
  fi_failure_reason : option json;
  fi_correlation_id : string;
  fi_created_at : Z
}.

(** Rows of [integration_handoffs], [integration_handoff_dispatch_attempts] and
    [integration_handoff_receipts], and the queued jobs that dispatch an attempt,
    with their [run_at]. *)
Inductive IntegrationHandoffStatus := handoff_accepted | handoff_deferred | handoff_completed | handoff_failed | handoff_cancelled.
#[export] Instance IntegrationHandoffStatus_eq_dec : EqDecision IntegrationHandoffStatus.
Proof. solve_decision. Defined.
Inductive AttemptStatus := attempt_pending | attempt_sending | attempt_accepted | attempt_failed | attempt_dead_letter.
#[export] Instance AttemptStatus_eq_dec : EqDecision AttemptStatus.
Proof. solve_decision. Defined.

Record IntegrationHandoffRow := mkHandoff {
  hf_id : string;
  hf_provider_alias : string;
  hf_job_ref : string;
  hf_payload_ref : string;
  hf_callback_url_secret_ref : option string;
  hf_callback_signature_secret_ref : option string;
  hf_request_idempotency_key : string;
  hf_status : IntegrationHandoffStatus;
  hf_external_job_id : option string;
  hf_latest_receipt_id : option string;
  hf_latest_error_code : option string;
  hf_requested_by : string;
  hf_callback_received_at : option Z;
  hf_created_at : Z;
  hf_updated_at : Z;
  hf_legal_hold : bool
}.

Record DispatchAttemptRow := mkAttempt {
  da_id : string;
  da_handoff_id : string;
  da_provider_alias : string;
  da_status : AttemptStatus;
  da_endpoint_secret_ref : string;
  da_allowed_hosts : list string;
  da_request_idempotency_key : string;
  da_attempt_no : Z;
  da_max_attempts : Z;
  da_next_attempt_at : Z;
  da_lease_token : option string;
  da_payload : json;
  da_provider_status_code : option Z;
  da_external_job_id : option string;
  da_receipt_id : option string;
  da_error_code : option string;
  da_requested_by : string;
  da_created_at : Z;
  da_updated_at : Z;
  da_retention_until : Z;
  da_legal_hold : bool;
  da_deleted_at : option Z
}.

Record HandoffReceiptRow := mkReceipt {
  hc_handoff_id : string;
  hc_external_job_id : string;
  hc_status : IntegrationHandoffStatus;
  hc_receipt_id : string;
  hc_error_code : option string;
  hc_received_by : string;
  hc_legal_hold : bool
}.

Record HandoffJob := mkHandoffJob { hj_attemptId : string; hj_correlationId : string; hj_run_at : Z }.

Record HandoffTables := mkHandoffTables {
  hs_handoffs : list IntegrationHandoffRow;
  hs_attempts : list DispatchAttemptRow;
  hs_receipts : list HandoffReceiptRow;
  hs_jobs : list HandoffJob
}.
Definition no_handoffs : HandoffTables := mkHandoffTables [] [] [] [].

(** [a_offboarding]: the tenant has an offboarding request that is approved or
    purging.  The rows of [dead_letter] are those of [Db]; the row at a position has the id
    [dead_letter_id] of that position, and [a_replayed] has its [replayed_at]. *)
Record Api := mkApi {
  a_catalog : ApiCatalog;
  a_leases : Leases;
  a_db : Db;
  a_keys : list IdempotencyRow;
  a_ids : nat;
  a_requests : gmap string RunRequestRow;
  a_tasks : gmap string TaskColumns;
  a_resumes : list ResumeRequestRow;
  a_audit : list AuditRow;
  a_replayed : gmap nat Z;
  a_sinks : list (string * SinkDeliveryRow);
  a_triggers : list TriggerRow;
  a_fires : list FireRow;
  a_offboarding : bool;
  a_handoffs : HandoffTables
}.

Definition set_tables (s : Leases * Db) (a : Api) : Api :=
  mkApi (a_catalog a) s.1 s.2 (a_keys a) (a_ids a) (a_requests a) (a_tasks a) (a_resumes a) (a_audit a) (a_replayed a) (a_sinks a) (a_triggers a) (a_fires a) (a_offboarding a) (a_handoffs a).
Definition set_keys (x : list IdempotencyRow) (a : Api) : Api :=
  mkApi (a_catalog a) (a_leases a) (a_db a) x (a_ids a) (a_requests a) (a_tasks a) (a_resumes a) (a_audit a) (a_replayed a) (a_sinks a) (a_triggers a) (a_fires a) (a_offboarding a) (a_handoffs a).
Definition use_api_id (a : Api) : Api :=
  mkApi (a_catalog a) (a_leases a) (a_db a) (a_keys a) (S (a_ids a)) (a_requests a) (a_tasks a) (a_resumes a) (a_audit a) (a_replayed a) (a_sinks a) (a_triggers a) (a_fires a) (a_offboarding a) (a_handoffs a).
Definition set_requests (x : gmap string RunRequestRow) (a : Api) : Api :=
  mkApi (a_catalog a) (a_leases a) (a_db a) (a_keys a) (a_ids a) x (a_tasks a) (a_resumes a) (a_audit a) (a_replayed a) (a_sinks a) (a_triggers a) (a_fires a) (a_offboarding a) (a_handoffs a).
Definition set_tasks (x : gmap string TaskColumns) (a : Api) : Api :=
  mkApi (a_catalog a) (a_leases a) (a_db a) (a_keys a) (a_ids a) (a_requests a) x (a_resumes a) (a_audit a) (a_replayed a) (a_sinks a) (a_triggers a) (a_fires a) (a_offboarding a) (a_handoffs a).
Definition push_resume (x : ResumeRequestRow) (a : Api) : Api :=
  mkApi (a_catalog a) (a_leases a) (a_db a) (a_keys a) (a_ids a) (a_requests a) (a_tasks a) (a_resumes a ++ [x]) (a_audit a) (a_replayed a) (a_sinks a) (a_triggers a) (a_fires a) (a_offboarding a) (a_handoffs a).
Definition set_audit (x : list AuditRow) (a : Api) : Api :=
  mkApi (a_catalog a) (a_leases a) (a_db a) (a_keys a) (a_ids a) (a_requests a) (a_tasks a) (a_resumes a) x (a_replayed a) (a_sinks a) (a_triggers a) (a_fires a) (a_offboarding a) (a_handoffs a).
Definition set_replayed (x : gmap nat Z) (a : Api) : Api :=
  mkApi (a_catalog a) (a_leases a) (a_db a) (a_keys a) (a_ids a) (a_requests a) (a_tasks a) (a_resumes a) (a_audit a) x (a_sinks a) (a_triggers a) (a_fires a) (a_offboarding a) (a_handoffs a).
Definition set_sinks (x : list (string * SinkDeliveryRow)) (a : Api) : Api :=
  mkApi (a_catalog a) (a_leases a) (a_db a) (a_keys a) (a_ids a) (a_requests a) (a_tasks a) (a_resumes a) (a_audit a) (a_replayed a) x (a_triggers a) (a_fires a) (a_offboarding a) (a_handoffs a).
Definition set_triggers (x : list TriggerRow) (a : Api) : Api :=
  mkApi (a_catalog a) (a_leases a) (a_db a) (a_keys a) (a_ids a) (a_requests a) (a_tasks a) (a_resumes a) (a_audit a) (a_replayed a) (a_sinks a) x (a_fires a) (a_offboarding a) (a_handoffs a).
Definition set_fires (x : list FireRow) (a : Api) : Api :=
  mkApi (a_catalog a) (a_leases a) (a_db a) (a_keys a) (a_ids a) (a_requests a) (a_tasks a) (a_resumes a) (a_audit a) (a_replayed a) (a_sinks a) (a_triggers a) x (a_offboarding a) (a_handoffs a).

Definition set_handoffs (x : HandoffTables) (a : Api) : Api :=
  mkApi (a_catalog a) (a_leases a) (a_db a) (a_keys a) (a_ids a) (a_requests a) (a_tasks a) (a_resumes a) (a_audit a) (a_replayed a) (a_sinks a) (a_triggers a) (a_fires a) (a_offboarding a) x.

Definition api_now (a : Api) : Z := db_now (a_db a).

(** ** Transactions and handlers *)

(** What a handler throws: a classified error, an error of the database or an
    [Error]. *)
Inductive ApiExn := AE_api (code : ErrorCode) (details : option json) | AE_db (e : DbError) | AE_error (message : string).

Record Txn := mkTxn { tx_base : Api; tx_mine : Api; tx_env : list (Api → Api) }.

Definition Stmt (A : Type) : Type := Txn → Txn * result ApiExn A.
#[export] Instance Stmt_ret : MRet Stmt := λ A a t, (t, Ok a).
#[export] Instance Stmt_bind : MBind Stmt := λ A B f m t,
  match m t with (t', Ok a) => f a t' | (t', Err e) => (t', Err e) end.

Definition api_throw {A} (e : ApiExn) : Stmt A := λ t, (t, Err e).
Definition api_fail {A} (code : ErrorCode) (details : list (string * json)) : Stmt A :=
  api_throw (AE_api code (match details with [] => None | f => Some (JObj f) end)).
Definition api_select {A} (f : Api → A) : Stmt A := λ t, (t, Ok (f (tx_mine t))).
Definition api_update (f : Api → Api) : Stmt () := λ t, (mkTxn (tx_base t) (f (tx_mine t)) (tx_env t), Ok tt).
(** The statements of the other modules. *)
Definition on_tables {A} (m : LTx A) : Stmt A := λ t,
  let a := tx_mine t in
  match m (a_leases a, a_db a) with
  | Ok (x, s) => (mkTxn (tx_base t) (set_tables s a) (tx_env t), Ok x)
  | Err e => (t, Err (AE_db e))
  end.
Definition on_rows {A} (m : Tx A) : Stmt A := on_tables (on_db m).
(** Others commit; nothing of this transaction is written yet. *)
Definition interleave : Stmt () := λ t,
  match tx_env t with
  | [] => (t, Ok tt)
  | f :: env => (mkTxn (f (tx_base t)) (f (tx_mine t)) env, Ok tt)
  end.

Record ApiWorld := mkApiWorld { aw_api : Api; aw_env : list (Api → Api) }.
Definition Act (A : Type) : Type := ApiWorld → ApiWorld * result ApiExn A.
#[export] Instance Act_ret : MRet Act := λ A a w, (w, Ok a).
#[export] Instance Act_bind : MBind Act := λ A B f m w,
  match m w with (w', Ok a) => f a w' | (w', Err e) => (w', Err e) end.
Definition p_throw {A} (e : ApiExn) : Act A := λ w, (w, Err e).
Definition p_fail {A} (code : ErrorCode) (details : list (string * json)) : Act A :=
  p_throw (AE_api code (match details with [] => None | f => Some (JObj f) end)).
Definition p_catch {A} (m : Act A) (handler : ApiExn → Act A) : Act A := λ w,
  match m w with (w', Ok a) => (w', Ok a) | (w', Err e) => handler e w' end.

(** [withTenantTx]. *)
Definition tenantTx {A} (body : Stmt A) : Act A := λ w,
  let a := match aw_env w with [] => aw_api w | f :: _ => f (aw_api w) end in
  match body (mkTxn a a (tail (aw_env w))) with
  | (t, Ok x) => (mkApiWorld (tx_mine t) (tx_env t), Ok x)
  | (t, Err e) => (mkApiWorld (tx_base t) (tx_env t), Err e)
  end.

(** What a parser refuses, and a result inside a transaction or a handler. *)
Definition refuse {A} (details : list (string * json)) : result ApiExn A := Err (AE_api IR_SCHEMA_INVALID (Some (JObj details))).
Definition lift {A} (r : result ApiExn A) : Stmt A := match r with Ok x => mret x | Err e => api_throw e end.
Definition lift_act {A} (r : result ApiExn A) : Act A := match r with Ok x => mret x | Err e => p_throw e end.

Lemma Stmt_bind_Ok {A B} (m : Stmt A) (f : A → Stmt B) t t' b :
  (m ≫= f) t = (t', Ok b) ↔ ∃ a t1, m t = (t1, Ok a) ∧ f a t1 = (t', Ok b).
Proof. unfold mbind, Stmt_bind. destruct (m t) as [t1 [a|e]]; naive_solver. Qed.

(** ** Requests *)

Record Request := mkRequest {
  qu_principal : Principal;
  qu_correlationId : string;
  qu_key : option string;
  qu_method : string;
  qu_body : option json
}.

Record CommandResponse := mkResponse { cp_status : Z; cp_body : json }.

(** [request.body ?? null]. *)
Definition body_or_null (q : Request) : json := default JNull (qu_body q).

Definition error_reason (reason : string) : list (string * json) := [("reason", JStr reason)].

Definition requireIdempotencyKey (q : Request) : Act string :=
  match qu_key q with
  | Some (String _ _ as k) => mret k
  | _ => p_fail IR_SCHEMA_INVALID [("reason", JStr "missing_idempotency_key"); ("header", JStr "Idempotency-Key")]
  end.

(** [apiErrorBody] as the JSON that is stored. *)
Definition apiErrorBody (code : ErrorCode) (details : option json) (correlationId : string) : ApiError :=
  match toApiError code correlationId details with
  | ApiErrorResponse _ body => body
  | NotificationResponse _ _ => mkApiError code (em_userMessage (ERROR_CATALOG code)) correlationId None
  end.
Definition apiErrorJson (e : ApiError) : json :=
  JObj ([("code", JStr (ErrorCode_str (ae_code e))); ("message", JStr (ae_message e));
         ("correlation_id", JStr (ae_correlation_id e))] ++
        match ae_details e with Some d => [("details", d)] | None => [] end).

(** ** Idempotency keys *)

Definition encodeRecordId (tenantId rowId : string) : string := tenantId +:+ ":" +:+ rowId.
(** [indexOf(":")] and the two slices. *)
Fixpoint decodeRecordId (recordId : string) : option (string * string) :=
  match recordId with
  | EmptyString => None
  | String ":"%char rest => Some (EmptyString, rest)
  | String c rest => '(t, r) ← decodeRecordId rest; Some (String c t, r)
  end.

Inductive IdempotencyReservation :=
| rv_reserved (recordId : string)
| rv_in_flight (recordId : string)
| rv_blocked
| rv_replay (response : CommandResponse).

Record ReservationRequest := mkReservation {
  rs_endpoint : string;
  rs_key : string;
  rs_requestHash : string;
  rs_expiresAt : Z
}.

Definition key_of (endpoint key : string) (row : IdempotencyRow) : bool :=
  bool_decide (ik_endpoint row = endpoint) && bool_decide (ik_key row = key).
Definition with_expiry (expiresAt : Z) (row : IdempotencyRow) : IdempotencyRow :=
  mkKeyRow (ik_id row) (ik_endpoint row) (ik_key row) (ik_request_hash row) (ik_status row) (ik_response_status row)
    (ik_response_body row) expiresAt.
Definition with_result (status : KeyStatus) (code : Z) (body : json) (row : IdempotencyRow) : IdempotencyRow :=
  mkKeyRow (ik_id row) (ik_endpoint row) (ik_key row) (ik_request_hash row) status (Some code) (Some body) (ik_expires_at row).

(** [UPDATE ... WHERE <hit>]: how many rows were updated. *)
Definition update_keys (hit : Api → IdempotencyRow → bool) (f : IdempotencyRow → IdempotencyRow) : Stmt nat := λ t,
  let a := tx_mine t in
  let rows := a_keys a in
  (mkTxn (tx_base t) (set_keys (map (λ r, if hit a r then f r else r) rows) a) (tx_env t),
   Ok (length (List.filter (hit a) rows))).

(** The stored response of a settled key. *)
Definition stored_response (row : IdempotencyRow) : option CommandResponse :=
  match ik_response_status row, ik_response_body row with
  | Some _, Some JNull | _, None | None, _ => None
  | Some code, Some body => Some (mkResponse code body)
  end.

Section Store.
(** The tenant of the rows; [sha256]; what [randomUUID] returns. *)
Context (tenantId : string) (sha256 : string → string) (uuid : nat → string).

Definition fresh_uuid : Stmt string := λ t,
  (mkTxn (tx_base t) (use_api_id (tx_mine t)) (tx_env t), Ok (uuid (a_ids (tx_mine t)))).

Definition reclaimable (req : ReservationRequest) (id : string) (a : Api) (row : IdempotencyRow) : bool :=
  bool_decide (ik_id row = id) && bool_decide (ik_status row = key_processing) &&
  bool_decide (ik_request_hash row = rs_requestHash req) && (ik_expires_at row <=? api_now a)%Z.

Definition insert_key (req : ReservationRequest) (rowId : string) : Stmt bool := λ t,
  let a := tx_mine t in
  if existsb (key_of (rs_endpoint req) (rs_key req)) (a_keys a) then (t, Ok false)
  else (mkTxn (tx_base t) (set_keys (a_keys a ++ [mkKeyRow rowId (rs_endpoint req) (rs_key req) (rs_requestHash req)
          key_processing None None (rs_expiresAt req)]) a) (tx_env t), Ok true).

Definition reserve (req : ReservationRequest) : Stmt IdempotencyReservation :=
  rowId ← fresh_uuid;
  inserted ← insert_key req rowId;
  if (inserted : bool) then mret (rv_reserved (encodeRecordId tenantId rowId)) else
  _ ← interleave;
  existing ← api_select (λ a, head (List.filter (key_of (rs_endpoint req) (rs_key req)) (a_keys a)));
  match existing with
  | None => mret (rv_in_flight (encodeRecordId tenantId rowId))
  | Some row =>
      if negb (bool_decide (ik_request_hash row = rs_requestHash req)) then mret rv_blocked else
      match ik_status row with
      | key_processing =>
          _ ← interleave;
          n ← update_keys (reclaimable req (ik_id row)) (with_expiry (rs_expiresAt req));
          mret (if decide (n = 1) then rv_reserved (encodeRecordId tenantId (ik_id row))
                else rv_in_flight (encodeRecordId tenantId (ik_id row)))
      | _ =>
          match stored_response row with
          | Some response => mret (rv_replay response)
          | None => api_throw (AE_error "idempotency record without stored response")
          end
      end
  end.

Definition pending_record (recordId : string) (a : Api) (row : IdempotencyRow) : bool :=
  bool_decide (decodeRecordId recordId = Some (tenantId, ik_id row)) && bool_decide (ik_status row = key_processing).

Definition completeIdempotencyInTx (recordId : string) (response : CommandResponse) : Stmt () :=
  n ← update_keys (pending_record recordId) (with_result key_succeeded (cp_status response) (cp_body response));
  if decide (n = 1) then mret tt else api_throw (AE_error "idempotency success update expected 1 processing row").

Definition saveFailure (recordId : string) (error : ApiError) : Stmt () :=
  n ← update_keys (pending_record recordId)
        (with_result key_failed (em_httpStatus (ERROR_CATALOG (ae_code error))) (apiErrorJson error));
  if decide (n = 1) then mret tt else api_throw (AE_error "idempotency failure update expected 1 processing row").

Definition release (recordId : string) : Stmt () :=
  api_update (λ a, set_keys (List.filter (λ r, negb (pending_record recordId a r)) (a_keys a)) a).

(** ** Commands *)

Definition isReleasableVersionConflict (code : ErrorCode) : bool :=
  bool_decide (code = SCENARIO_VERSION_CONFLICT) || bool_decide (code = POLICY_VERSION_CONFLICT).

(** The transaction of the work with the record of its success. *)
Definition command_tx (recordId : string) (work : Stmt CommandResponse) : Stmt CommandResponse :=
  response ← work;
  _ ← completeIdempotencyInTx recordId response;
  mret response.

(** What is done with the key when the work throws. *)
Definition settle_failure (recordId correlationId : string) (e : ApiExn) : Act () :=
  match e with
  | AE_api code details =>
      if isReleasableVersionConflict code then tenantTx (release recordId)
      else if negb (em_retryable (ERROR_CATALOG code))
      then tenantTx (saveFailure recordId (apiErrorBody code details correlationId)) else mret tt
  | _ => mret tt
  end.

(** The answers to a reservation that is not granted. *)
Definition on_reservation (r : IdempotencyReservation) (granted : string → Act CommandResponse) : Act CommandResponse :=
  match r with
  | rv_replay response => mret response
  | rv_in_flight _ => p_fail WORKITEM_CHECKOUT_CONFLICT (error_reason "idempotency_in_flight")
  | rv_blocked => p_fail SCENARIO_VERSION_CONFLICT (error_reason "idempotency_request_hash_mismatch")
  | rv_reserved recordId => granted recordId
  end.

Definition p_now : Act Z := λ w, (w, Ok (api_now (aw_api w))).

Definition runIdempotentCommand (q : Request) (endpoint path : string) (work : Stmt CommandResponse) : Act CommandResponse :=
  key ← requireIdempotencyKey q;
  let requestHash := canonicalRequestHash sha256 (qu_method q) path (body_or_null q) in
  now ← p_now;
  reservation ← tenantTx (reserve (mkReservation endpoint key requestHash (now + IDEMPOTENCY_TTL_MS)));
  on_reservation reservation (λ recordId,
    p_catch (tenantTx (command_tx recordId work))
      (λ e, _ ← settle_failure recordId (qu_correlationId q) e; p_throw e)).
End Store.

(** ** The job queue *)

Definition GRAPHILE_PRIORITY (p : RunPriority) : Z :=
  match p with low => 5 | medium => 0 | high => -5 | critical => -10 end.

Definition enqueueRuntimeJob (job : Job) : Stmt () := on_rows (update (push_job job)).

Definition loadRunPriority (runId : string) : Stmt RunPriority :=
  api_select (λ a, match a_requests a !! runId with Some r => rq_priority r | None => medium end).

Definition PoolStatus_str (s : PoolStatus) : string :=
  match s with pool_active => "active" | pool_draining => "draining" | pool_disabled => "disabled" end.

(** [runId] is the run of the job. *)
Definition enqueueDrivingJobWithPoolFlag (job : Job) (runId : string) (runPriority : option RunPriority) : Stmt () :=
  row ← api_select (λ a, pool_assignment (a_catalog a));
  effective ← match runPriority with Some p => mret p | None => loadRunPriority runId end;
  let priority := ((match row with Some p => GRAPHILE_PRIORITY (po_priority p) | None => GRAPHILE_PRIORITY medium end) +
                   GRAPHILE_PRIORITY effective)%Z in
  match row with
  | Some p =>
      if decide (po_status p = pool_active) then enqueueRuntimeJob (job_routed job ("pool:" +:+ po_key p) priority)
      else api_fail WORKITEM_CHECKOUT_CONFLICT
             [("reason", JStr "worker_pool_unavailable"); ("pool_key", JStr (po_key p)); ("status", JStr (PoolStatus_str (po_status p)))]
  | None => enqueueRuntimeJob (job_routed job "pool:default" priority)
  end.

Definition enqueueRunClaim (runId correlationId : string) (priority : option RunPriority) : Stmt () :=
  enqueueDrivingJobWithPoolFlag (job_run_claim runId correlationId None) runId priority.
Definition enqueueRunAbort (runId correlationId : string) : Stmt () :=
  enqueueRuntimeJob (job_run_abort runId correlationId).
Definition enqueueRunResume (runId correlationId : string) : Stmt () :=
  enqueueDrivingJobWithPoolFlag (job_run_resume runId correlationId) runId None.
Definition enqueueSinkDeliver (normalizedRecordId sinkConfigId correlationId : string) : Stmt () :=
  enqueueRuntimeJob (job_sink_deliver normalizedRecordId sinkConfigId correlationId).
