(* ===== verification/ApiRuns.v ===== *)
(** * Aborting and resuming a run

    Models [app/src/api/server-abort-run.ts] and [server-resume-run.ts]: the
    handlers, their transactions on the tables of [ApiStore] and the race of an
    abort with the workers, which act between its reads and its writes. *)

From stdpp Require Import base strings list gmap pretty.
From Stdlib Require Import Ascii ZArith.
From S2P Require Import Prelude StateMachine JsValue JsText StaticValidation RuntimeStore Database Sweepers Leases ErrorCatalog ApiShared AuditLog ApiStore.

(** ** Columns *)

Definition set_abort_source (status : RunState) (c : RunColumns) : RunColumns :=
  mkRunColumns (rc_correlation_id c) (rc_scenario_version_id c) (rc_model c) (rc_params c) (Some status).

Definition set_run_columns (x : gmap string RunColumns) (l : Leases) : Leases :=
  let c := l_catalog l in
  mkLeases (mkCatalog (credential_concurrency_policies c) (browser_identities c) (network_policies c) (scenario_versions c) x)
    (credential_leases l) (browser_leases l) (workers l) (site_profiles l) (l_ids l).

Definition columns_of (runId : string) (a : Api) : option RunColumns := run_columns (l_catalog (a_leases a)) !! runId.
Definition run_of (runId : string) (a : Api) : option RunRow := Database.runs (a_db a) !! runId.

Definition status_field (s : RunState) : string * json := ("status", JStr (RunState_str s)).

(** ** Abort *)

Definition RUN_TERMINAL_SET : list RunState := [run_completed; run_cancelled; run_failed_business; run_failed_system].

Definition rejectIfNotAbortable (status : option RunState) : Stmt () :=
  match status with
  | None => api_fail RUN_NOT_FOUND []
  | Some status =>
      if decide (status ∈ RUN_TERMINAL_SET ∨ status = run_completing) then api_fail RUN_ALREADY_TERMINAL [status_field status]
      else if decide (status = run_suspending)
      then api_fail WORKITEM_CHECKOUT_CONFLICT [("reason", JStr "run_bookmark_in_progress"); status_field status]
      else mret tt
  end.

Definition isAbortSourceStatus (status : option RunState) : bool :=
  match status with
  | Some run_running | Some run_suspended | Some run_resume_requested | Some run_resuming => true
  | _ => false
  end.

Definition isAbortDrainPending (source : RunState) (pending : list SideEffectCmd) : bool :=
  match source with
  | run_running | run_resuming =>
      (length pending =? 2) && existsb (λ c, bool_decide (c = sseClose)) pending && existsb (λ c, bool_decide (c = browserDrain)) pending
  | run_suspended | run_resume_requested => bool_decide (length pending = 0)
  | _ => false
  end.

Definition pendingSideEffectKinds (pending : list SideEffectCmd) : json := JArr (map (λ c, JStr (cmd_kind c)) pending).

(** The [UPDATE browser_leases] of the claimed run: how many rows. *)
Definition abort_lease_hit (runId workerId : string) (row : BrowserLeaseRow) : bool :=
  bool_decide (br_run_id row = Some runId) && bool_decide (br_owner_worker_id row = workerId) && held row.
Definition expired_lease (now : Z) (row : BrowserLeaseRow) : BrowserLeaseRow :=
  mkLeaseRow (br_id row) (br_site_profile_id row) (br_browser_identity_id row) (br_run_id row) (br_owner_worker_id row)
    (br_isolation row) bl_expired (br_cleanup_policy row) (br_download_dir_ref row) (br_heartbeat_at row)
    (Z.min (br_expires_at row) now).

Definition expireClaimedAbortBrowserLease (runId : string) (workerId : option string) : Stmt () :=
  match workerId with
  | None => api_fail CONTROL_PLANE_INTERNAL_ERROR (error_reason "claimed_abort_missing_worker_id")
  | Some workerId =>
      n ← api_select (λ a, length (List.filter (abort_lease_hit runId workerId) (browser_leases (a_leases a))));
      _ ← on_tables (l_update (λ now l, set_browser_leases
            (map (λ r, if abort_lease_hit runId workerId r then expired_lease now r else r) (browser_leases l)) l));
      match n with
      | 1 => mret tt
      | 0 => api_fail CONTROL_PLANE_INTERNAL_ERROR (error_reason "claimed_abort_missing_active_browser_lease")
      | _ => api_fail CONTROL_PLANE_INTERNAL_ERROR (error_reason "claimed_abort_multiple_active_browser_leases")
      end
  end.

(** [UPDATE runs SET status = 'cancelled' ... WHERE status = $3]. *)
Definition cancelled_run (now : Z) (r : RunRow) : RunRow :=
  mkRunRow run_cancelled (r_workitem_id r) (r_worker_id r) (r_attempts r) (r_consecutive_init_failures r) (r_started_at r)
    (Some now) (r_bookmark r) (r_resume_token r) (r_failure_reason r).
Definition cancel_run (runId : string) (status : RunState) : Tx bool := λ d,
  match Database.runs d !! runId with
  | Some r => if decide (r_status r = status)
              then Ok (true, set_runs (<[runId := cancelled_run (db_now d) r]> (Database.runs d)) d) else Ok (false, d)
  | None => Ok (false, d)
  end.

(** [UPDATE runs SET abort_source_status = $3 WHERE status = 'aborting']. *)
Definition record_abort_source (runId : string) (source : RunState) : Stmt bool :=
  hit ← api_select (λ a, match run_of runId a, columns_of runId a with
                         | Some r, Some _ => bool_decide (r_status r = run_aborting)
                         | _, _ => false
                         end);
  if (hit : bool) then
    _ ← on_tables (l_update (λ _ l, set_run_columns (alter (set_abort_source source) runId (run_columns (l_catalog l))) l));
    mret true
  else mret false.

Definition accepted (runId : string) (status : RunState) : CommandResponse :=
  mkResponse 202 (JObj [("run_id", JStr runId); status_field status]).

Section Runs.
Context (tenantId : string) (sha256 : string → string) (uuid : nat → string).

Definition abort_finish (recordId : string) (response : CommandResponse) : Stmt (option CommandResponse) :=
  _ ← completeIdempotencyInTx tenantId recordId response;
  mret (Some response).

(** One turn of the loop; [None]: a lost race. *)
Definition abort_attempt (runId requestCorrelationId recordId : string) : Stmt (option CommandResponse) :=
  run ← api_select (run_of runId);
  columns ← api_select (columns_of runId);
  _ ← rejectIfNotAbortable (r_status <$> run);
  match run with
  | None => api_fail RUN_NOT_FOUND []
  | Some row =>
      let status := r_status row in
      let correlationId := default requestCorrelationId (rc_correlation_id <$> columns) in
      if decide (status = run_aborting) then
        if negb (isAbortSourceStatus (columns ≫= rc_abort_source_status))
        then api_fail CONTROL_PLANE_INTERNAL_ERROR (error_reason "run_abort_missing_source_status") else
        _ ← enqueueRunAbort runId correlationId;
        abort_finish recordId (accepted runId run_aborting)
      else if decide (status = run_queued ∨ status = run_claimed) then
        _ ← interleave;
        cancelled ← on_rows (cancel_run runId status);
        if negb cancelled then mret None else
        _ ← (if decide (status = run_claimed) then expireClaimedAbortBrowserLease runId (r_worker_id row) else mret tt);
        _ ← on_rows (emitOutboxEvent (mkEmit run_cancelled_e correlationId (Some runId) None None None
              (runId +:+ ":run.cancelled") None));
        abort_finish recordId (accepted runId run_cancelled)
      else
        _ ← interleave;
        outcome ← on_rows (applyRunTransition (mkRunCtx runId status ev_abort_requested run_guard_empty correlationId None None None));
        match outcome with
        | CasConflict _ => mret None
        | Applied next _ pending =>
            if negb (isAbortDrainPending status pending)
            then api_fail CONTROL_PLANE_INTERNAL_ERROR
                   [("reason", JStr "run_abort_pending_side_effects_unsupported"); ("pending", pendingSideEffectKinds pending)] else
            recorded ← record_abort_source runId status;
            if negb recorded
            then api_fail CONTROL_PLANE_INTERNAL_ERROR (error_reason "run_abort_source_record_failed") else
            _ ← enqueueRunAbort runId correlationId;
            abort_finish recordId (accepted runId next)
        end
  end.

Fixpoint abort_loop (attempts : nat) (runId requestCorrelationId recordId : string) : Stmt CommandResponse :=
  match attempts with
  | O => api_fail WORKITEM_CHECKOUT_CONFLICT (error_reason "run_abort_cas_contention")
  | S n =>
      r ← abort_attempt runId requestCorrelationId recordId;
      match r with Some response => mret response | None => abort_loop n runId requestCorrelationId recordId end
  end.

Definition applyAbort : string → string → string → Stmt CommandResponse := abort_loop 3.

Inductive ExistingAbortIdempotency := ex_none | ex_processing | ex_blocked | ex_replay (response : CommandResponse).

Definition readAbortIdempotencyExisting (key requestHash : string) : Stmt ExistingAbortIdempotency :=
  row ← api_select (λ a, head (List.filter (key_of "abortRun" key) (a_keys a)));
  match row with
  | None => mret ex_none
  | Some row =>
      if negb (bool_decide (ik_request_hash row = requestHash)) then mret ex_blocked else
      if decide (ik_status row = key_processing) then mret ex_processing else
      match stored_response row with
      | Some response => mret (ex_replay response)
      | None => api_throw (AE_error "abortRun idempotency record without stored response")
      end
  end.

(** The body: nothing, or a record with at most a text [reason]. *)
Definition check_abort_body (body : option json) : Act () :=
  match body with
  | None | Some JNull => mret tt
  | Some (JObj f) =>
      if existsb (λ p, negb (bool_decide (p.1 = "reason"))) f then p_fail IR_SCHEMA_INVALID (error_reason "invalid_abort_request") else
      match alookup "reason" f with
      | None | Some (JStr _) => mret tt
      | Some _ => p_fail IR_SCHEMA_INVALID (error_reason "invalid_abort_reason")
      end
  | Some _ => p_fail IR_SCHEMA_INVALID (error_reason "invalid_abort_request")
  end.

Definition after_reservation (q : Request) (endpoint key requestHash : string) (granted : string → Act CommandResponse) : Act CommandResponse :=
  now ← p_now;
  reservation ← tenantTx (reserve tenantId uuid (mkReservation endpoint key requestHash (now + IDEMPOTENCY_TTL_MS)));
  on_reservation reservation granted.

Definition persist_failure (recordId correlationId : string) (code : ErrorCode) (details : option json) : Act () :=
  tenantTx (saveFailure tenantId recordId (apiErrorBody code details correlationId)).

Definition abortRun (q : Request) (runId : string) : Act CommandResponse :=
  if negb (UUID_RE runId) then p_fail RUN_NOT_FOUND [] else
  _ ← check_abort_body (qu_body q);
  key ← requireIdempotencyKey q;
  let requestHash := canonicalRequestHash sha256 "POST" ("/v1/runs/" +:+ runId +:+ "/abort") (body_or_null q) in
  existing ← tenantTx (readAbortIdempotencyExisting key requestHash);
  match existing with
  | ex_replay response => mret response
  | ex_blocked => p_fail SCENARIO_VERSION_CONFLICT (error_reason "idempotency_request_hash_mismatch")
  | _ =>
      _ ← match existing with
          | ex_none => tenantTx (run ← api_select (run_of runId); rejectIfNotAbortable (r_status <$> run))
          | _ => mret tt
          end;
      after_reservation q "abortRun" key requestHash (λ recordId,
        p_catch (tenantTx (applyAbort runId (qu_correlationId q) recordId))
          (λ e, _ ← match e with
                    | AE_api code details => if negb (em_retryable (ERROR_CATALOG code))
                                             then persist_failure recordId (qu_correlationId q) code details else mret tt
                    | _ => mret tt
                    end;
                p_throw e))
  end.

(** ** Resume *)

Section Resume.
(** The digest, [Date.toISOString] and [localeCompare] of the audit log; the
    secrets handed out. *)
Context (iso : Z → string) (localeCompare : string → string → comparison) (tracked : string → bool).

(** [jsonStringArray]. *)
Definition jsonStringArray (v : json) (field : string) : Stmt (list string) :=
  match v with
  | JArr l => match mapM (λ x, match x with JStr s => Some s | _ => None end) l with
              | Some refs => mret refs
              | None => api_fail CONTROL_PLANE_INTERNAL_ERROR [("reason", JStr "invalid_json_array"); ("field", JStr field)]
              end
  | _ => api_fail CONTROL_PLANE_INTERNAL_ERROR [("reason", JStr "invalid_json_array"); ("field", JStr field)]
  end.

(** [ORDER BY resolved_at DESC NULLS LAST, id DESC LIMIT 1]: [updated_at], which
    breaks ties of [resolved_at] first, is not a column of the model. *)
Definition later_resolved (a b : HumanTaskRow) : bool :=
  match h_resolved_at a, h_resolved_at b with
  | Some x, Some y => (y <? x)%Z || (bool_decide (x = y) && String.ltb (h_id b) (h_id a))
  | Some _, None => true
  | None, Some _ => false
  | None, None => String.ltb (h_id b) (h_id a)
  end.
Definition latestResolvedHumanTask (runId : string) (a : Api) : option HumanTaskRow :=
  foldl (λ best h, match best with Some b => if later_resolved h b then Some h else best | None => Some h end) None
    (List.filter (λ h, bool_decide (h_run_id h = runId) && bool_decide (h_state h = ht_resolved)) (human_tasks (a_db a))).

Record ResumeLedgerInput := mkLedgerInput {
  li_runId : string;
  li_status : string;
  li_previousRunStatus : RunState;
  li_requestedBy : string;
  li_reason : option string;
  li_correlationId : string;
  li_idempotencyKey : string
}.

Definition insertRunResumeLedger (i : ResumeLedgerInput) : Stmt () :=
  task ← api_select (latestResolvedHumanTask (li_runId i));
  inputRefs ← match task with
              | None => mret []
              | Some task => refs ← jsonStringArray (h_artifact_refs task) "human_tasks.artifact_refs";
                             mret (("human_task:" +:+ h_id task) :: refs)
              end;
  fresh ← fresh_uuid uuid;
  let auditCorrelationId := if UUID_RE (li_correlationId i) then li_correlationId i else fresh in
  taken ← api_select (λ a, existsb (λ r, bool_decide (rr_request_idempotency_key r = li_idempotencyKey i)) (a_resumes a));
  if (taken : bool) then mret tt else
  api_update (push_resume (mkResumeRequest (li_runId i) (h_id <$> task) (li_status i) (li_previousRunStatus i) (li_requestedBy i)
    (li_reason i) inputRefs (uuid_text auditCorrelationId) (li_idempotencyKey i))).

Definition governance_audit (q : Request) (action outcome reason : string) (payload : json) : Stmt () :=
  fresh ← fresh_uuid uuid;
  now ← api_select api_now;
  log ← api_select a_audit;
  match appendGovernanceAudit sha256 iso localeCompare tracked (qu_principal q) (qu_key q) (qu_correlationId q) fresh now
          action outcome reason payload log with
  | Ok log' => api_update (set_audit log')
  | Err e => api_throw (AE_db e)
  end.

Definition parseResumeBody (raw : option json) : Act (option string) :=
  match raw with
  | None | Some JNull => mret None
  | Some (JObj f) =>
      match List.find (λ p, negb (bool_decide (p.1 = "reason"))) f with
      | Some p => p_fail IR_SCHEMA_INVALID [("reason", JStr "unknown_field"); ("field", JStr p.1)]
      | None =>
          match alookup "reason" f with
          | None | Some JNull => mret None
          | Some (JStr s) => if blank s then p_fail IR_SCHEMA_INVALID (error_reason "invalid_reason") else mret (Some (trim s))
          | Some _ => p_fail IR_SCHEMA_INVALID (error_reason "invalid_reason")
          end
      end
  | Some _ => p_fail IR_SCHEMA_INVALID (error_reason "request_body_object_required")
  end.

Definition assertNoPendingResumeSideEffects (pending : list SideEffectCmd) : Stmt () :=
  match pending with
  | [] => mret tt
  | _ => api_fail CONTROL_PLANE_INTERNAL_ERROR
           [("reason", JStr "run_resume_pending_side_effects_unsupported"); ("pending", pendingSideEffectKinds pending)]
  end.

Definition hasReason (details : option json) (reason : string) : bool :=
  match prop "reason" details with Some (JStr r) => bool_decide (r = reason) | _ => false end.

Definition shouldPersistResumeFailure (code : ErrorCode) (details : option json) : bool :=
  negb (em_retryable (ERROR_CATALOG code)) ||
  hasReason details "run_resume_requires_suspended_or_resume_requested" || hasReason details "human_task_unresolved".

Definition guard_human_task_valid : RunGuard :=
  mkRunGuard None None None None None None (Some true) None None None None None.

Definition resume_response (runId : string) (status previous : RunState) : CommandResponse :=
  mkResponse 202 (JObj [("run_id", JStr runId); status_field status; ("previous_status", JStr (RunState_str previous))]).

Definition resume_payload (runId : string) (previous : RunState) (reason : option string) : json :=
  JObj [("run_id", JStr runId); ("previous_status", JStr (RunState_str previous)); ("reason", json_opt reason)].

(** The ledger row, the audit row and the key, once the job is queued. *)
Definition resume_finish (q : Request) (key runId recordId correlationId ledger auditReason : string) (reason : option string)
    (next previous : RunState) : Stmt CommandResponse :=
  _ ← insertRunResumeLedger (mkLedgerInput runId ledger previous (pn_subjectId (qu_principal q)) reason correlationId key);
  _ ← governance_audit q "run.resume" "allow" auditReason (resume_payload runId previous reason);
  let response := resume_response runId next previous in
  _ ← completeIdempotencyInTx tenantId recordId response;
  mret response.

Definition unresolved_tasks (runId : string) (a : Api) : nat :=
  length (List.filter (λ h, bool_decide (h_run_id h = runId) && active_human_task (h_state h)) (human_tasks (a_db a))).

(** The transaction; the row of the run is locked. *)
Definition resume_tx (q : Request) (key runId recordId : string) (reason : option string) : Stmt CommandResponse :=
  run ← api_select (run_of runId);
  columns ← api_select (columns_of runId);
  match run with
  | None => api_fail RUN_NOT_FOUND []
  | Some row =>
      let correlationId := default (qu_correlationId q) (rc_correlation_id <$> columns) in
      if decide (r_status row = run_resume_requested) then
        _ ← enqueueRunResume runId correlationId;
        resume_finish q key runId recordId correlationId "reenqueued" "run_resume_reenqueued" reason run_resume_requested run_resume_requested
      else if decide (r_status row = run_suspended) then
        n ← api_select (unresolved_tasks runId);
        if (0 <? n) then api_fail WORKITEM_CHECKOUT_CONFLICT (error_reason "human_task_unresolved") else
        outcome ← on_rows (applyRunTransition (mkRunCtx runId run_suspended ev_human_task_resolved guard_human_task_valid correlationId
                    None (Some (runId +:+ ":operator_resume:" +:+ recordId)) None));
        match outcome with
        | CasConflict _ => api_fail WORKITEM_CHECKOUT_CONFLICT (error_reason "run_resume_cas_contention")
        | Applied next _ pending =>
            _ ← assertNoPendingResumeSideEffects pending;
            _ ← enqueueRunResume runId correlationId;
            resume_finish q key runId recordId correlationId "requested" "run_resume_requested" reason next run_suspended
        end
      else api_fail WORKITEM_CHECKOUT_CONFLICT
             [("reason", JStr "run_resume_requires_suspended_or_resume_requested"); status_field (r_status row)]
  end.

(** The queue of the deployment can enqueue resumptions. *)
Definition resumeRun (q : Request) (runId : string) : Act CommandResponse :=
  if negb (UUID_RE runId) then p_fail RUN_NOT_FOUND [] else
  key ← requireIdempotencyKey q;
  reason ← parseResumeBody (qu_body q);
  let requestHash := canonicalRequestHash sha256 "POST" ("/v1/runs/" +:+ runId +:+ "/resume") (body_or_null q) in
  after_reservation q "resumeRun" key requestHash (λ recordId,
    p_catch (tenantTx (resume_tx q key runId recordId reason))
      (λ e, _ ← match e with
                | AE_api code details => if shouldPersistResumeFailure code details
                                         then persist_failure recordId (qu_correlationId q) code details else mret tt
                | _ => mret tt
                end;
            p_throw e)).
End Resume.
End Runs.
