(* ===== verification/ApiCreate.v ===== *)
(** * Creating a run

    Models [app/src/api/server-create-run.ts] and the check of AI governance it
    makes ([ai-governance-enforcement.ts], [ai-governance-policy.ts],
    [ai-governance-evidence-requirements.ts]). *)

From stdpp Require Import base strings list gmap pretty.
From Stdlib Require Import Ascii ZArith.
From S2P Require Import Prelude StateMachine JsValue JsText StaticValidation RuntimeStore Database Leases ErrorCatalog ApiShared AuditLog ApiStore ApiRuns.

(** ** AI governance *)

Record EvidenceRequirement := mkRequirement { er_evidenceType : string; er_subjectRef : string }.

Inductive RequirementStatus := rq_valid | rq_missing | rq_failed | rq_expired | rq_deferred.
#[export] Instance RequirementStatus_eq_dec : EqDecision RequirementStatus.
Proof. solve_decision. Defined.
Definition RequirementStatus_str (s : RequirementStatus) : string :=
  match s with rq_valid => "valid" | rq_missing => "missing" | rq_failed => "failed" | rq_expired => "expired" | rq_deferred => "deferred" end.

Record EvaluatedRequirement := mkEvaluated {
  eq_requirement : EvidenceRequirement;
  eq_status : RequirementStatus;
  eq_evidenceRef : option string
}.

Section Governance.
Context (tenantId : string).

(** The keys of the map are the types with the subjects: they differ. *)
Definition runtimeRequirements (model promptVersion : option string) : list EvidenceRequirement :=
  match model with
  | Some m => [mkRequirement "model_registry" ("model:" +:+ m);
               mkRequirement "cost_control" ("tenant:" +:+ tenantId +:+ ":ai_cost_control")]
  | None => []
  end ++
  match promptVersion with
  | Some v => [mkRequirement "prompt_registry" ("prompt:" +:+ v); mkRequirement "eval_result" ("prompt:" +:+ v)]
  | None => []
  end.

Definition evaluate_requirement (now : Z) (a : Api) (r : EvidenceRequirement) : EvaluatedRequirement :=
  match ai_evidence (a_catalog a) !! (er_evidenceType r, er_subjectRef r) with
  | None => mkEvaluated r rq_missing None
  | Some e =>
      mkEvaluated r
        match ad_status e with
        | ev_failed => rq_failed
        | ev_deferred => rq_deferred
        | ev_valid => match ad_expires_at e with
                      | Some x => if (x <=? now)%Z then rq_expired else rq_valid
                      | None => rq_valid
                      end
        end (ad_evidence_ref e)
  end.
Definition evaluateEvidenceRequirements (rs : list EvidenceRequirement) : Stmt (list EvaluatedRequirement) :=
  api_select (λ a, map (evaluate_requirement (api_now a) a) rs).

Inductive DecisionKind := dk_allow | dk_warn | dk_block.
#[export] Instance DecisionKind_eq_dec : EqDecision DecisionKind.
Proof. solve_decision. Defined.
Record AiGovernanceRuntimeDecision := mkDecision {
  gd_kind : DecisionKind;
  gd_mode : string;
  gd_reason : string;
  gd_evidenceRefs : list string;
  gd_policyDecisionRef : option string;
  gd_blockingRequirements : list string
}.

Definition PolicyMode_str (m : PolicyMode) : string :=
  match m with mode_observe => "observe" | mode_warn => "warn" | mode_block => "block" end.

Definition isGraceActive (now : Z) (p : AiRuntimePolicyRow) : bool :=
  match ap_grace_until p with Some g => (now <? g)%Z | None => false end.

Definition evaluateAiGovernanceRuntime (model promptVersion : option string) : Stmt AiGovernanceRuntimeDecision :=
  match model, promptVersion with
  | None, None => mret (mkDecision dk_allow "not_applicable" "ai_runtime_not_applicable" [] None [])
  | _, _ =>
      policy ← api_select (λ a, ai_runtime_policy (a_catalog a));
      match policy with
      | None => mret (mkDecision dk_allow "not_configured" "ai_runtime_policy_missing" [] None [])
      | Some policy =>
          evaluated ← evaluateEvidenceRequirements (runtimeRequirements model promptVersion);
          now ← api_select api_now;
          let issues := List.filter (λ e, negb (bool_decide (eq_status e = rq_valid))) evaluated in
          let refs := omap eq_evidenceRef evaluated in
          let mode := PolicyMode_str (ap_mode policy) in
          let ref := Some (ap_policy_decision_ref policy) in
          match issues with
          | [] => mret (mkDecision dk_allow mode "ai_governance_evidence_valid" refs ref [])
          | _ =>
              let grace := isGraceActive now policy in
              let reason := if existsb (λ e, bool_decide (eq_status e = rq_failed)) issues then "ai_governance_evidence_failed"
                            else if grace then "ai_governance_grace_active" else "ai_governance_evidence_incomplete" in
              let blocking := map (λ e, er_evidenceType (eq_requirement e) +:+ ":" +:+ er_subjectRef (eq_requirement e) +:+ ":" +:+
                                        RequirementStatus_str (eq_status e)) issues in
              mret (mkDecision
                (if bool_decide (ap_mode policy = mode_block) && negb grace then dk_block
                 else if bool_decide (ap_mode policy = mode_warn) || grace then dk_warn else dk_allow)
                mode reason refs ref blocking)
          end
      end
  end.

Definition assertAiGovernanceRuntimeAllowed (d : AiGovernanceRuntimeDecision) : Stmt () :=
  if decide (gd_kind d = dk_block) then
    api_fail AI_GOVERNANCE_POLICY_BLOCKED
      [("reason", JStr (gd_reason d)); ("mode", JStr (gd_mode d));
       ("blocking_requirements", JArr (map JStr (gd_blockingRequirements d)));
       ("policy_decision_ref", json_opt (gd_policyDecisionRef d))]
  else mret tt.

Fixpoint assert_versions_allowed (model : string) (versions : list (option string)) : Stmt () :=
  match versions with
  | [] => mret tt
  | v :: rest =>
      d ← evaluateAiGovernanceRuntime (Some model) v;
      _ ← assertAiGovernanceRuntimeAllowed d;
      assert_versions_allowed model rest
  end.
End Governance.

(** ** The model of a run *)

Definition resolve_model (model : option string) : Stmt (option string) :=
  policies ← api_select (λ a, gateway_policies (a_catalog a));
  match model with
  | Some m =>
      if existsb (λ p, bool_decide (p.1 = m)) policies then mret (Some m)
      else api_fail RESOURCE_NOT_FOUND [("reason", JStr "model_policy_not_found"); ("model", JStr m)]
  | None =>
      match List.filter snd policies, policies with
      | [p], _ => mret (Some p.1)
      | _, [p] => mret (Some p.1)
      | _, [] => mret None
      | _, _ => api_fail IR_SCHEMA_INVALID
                  [("reason", JStr "model_required"); ("available", JNum (num_of_Z (Z.of_nat (length policies))))]
      end
  end.

(** ** The transaction *)

Record CreateRunInTxInput := mkCreateInput {
  ci_runId : string;
  ci_scenarioVersionId : string;
  ci_params : json;
  ci_asOf : string;
  ci_correlationId : string;
  ci_workitemId : option string;
  ci_model : option string;
  ci_promptVersions : list string;
  ci_priority : RunPriority;
  ci_runMode : RunMode
}.

(** The declared target has the three identifiers. *)
Definition target_resolved (target : option json) : bool :=
  match target with
  | Some (JObj _) =>
      bool_decide (is_Some (as_string (prop "site_profile_id" target))) &&
      bool_decide (is_Some (as_string (prop "browser_identity_id" target))) &&
      bool_decide (is_Some (as_string (prop "network_policy_id" target)))
  | _ => false
  end.

Definition workitem_has_run (workitemId : string) (a : Api) : bool :=
  existsb (λ p, bool_decide (r_workitem_id p.2 = Some workitemId)) (map_to_list (Database.runs (a_db a))).

Definition queued_run (workitemId : option string) : RunRow := mkRunRow run_queued workitemId None 0 0 None None None None None.

Section Create.
(** [timestamptz] tells which texts PostgreSQL reads as a time. *)
Context (tenantId : string) (sha256 : string → string) (uuid : nat → string) (iso : Z → string) (timestamptz : string → bool).

Definition check_workitem (workitemId : option string) : Stmt () :=
  match workitemId with
  | None => mret tt
  | Some w =>
      found ← api_select (λ a, bool_decide (is_Some (workitems (a_db a) !! w)));
      if negb found then api_fail IR_SCHEMA_INVALID (error_reason "workitem_not_found") else
      taken ← api_select (workitem_has_run w);
      if (taken : bool) then api_fail WORKITEM_CHECKOUT_CONFLICT (error_reason "workitem_run_exists") else mret tt
  end.

(** The [INSERT INTO runs] with the index [idx_runs_one_per_workitem]. *)
Definition insert_run (i : CreateRunInTxInput) (correlationId : string) (model : option string) : Stmt () :=
  a ← api_select (λ a, a);
  if bool_decide (is_Some (run_of (ci_runId i) a)) then api_throw (AE_db (E_unique "runs_pkey")) else
  if match ci_workitemId i with Some w => workitem_has_run w a | None => false end
  then api_throw (AE_db (E_unique "idx_runs_one_per_workitem")) else
  if negb (timestamptz (ci_asOf i)) then api_throw (AE_db (E_error "date/time field value out of range")) else
  api_update (λ a,
    let d := a_db a in
    let l := a_leases a in
    set_requests (<[ci_runId i := mkRunRequest (ci_priority i) (ci_runMode i) (ci_asOf i)]> (a_requests a))
      (set_tables
         (set_run_columns (<[ci_runId i := mkRunColumns (uuid_text correlationId) (ci_scenarioVersionId i) model (ci_params i) None]>
            (run_columns (l_catalog l))) l,
          set_runs (<[ci_runId i := queued_run (ci_workitemId i)]> (Database.runs d)) d) a)).

(** The target the live version declares; [None]: no such version. *)
Definition declared_target (scenarioVersionId : string) (a : Api) : option (option json) :=
  match scenario_versions (l_catalog (a_leases a)) !! scenarioVersionId, version_archived_at (a_catalog a) !! scenarioVersionId with
  | Some v, Some None => Some (prop "target" (Some v.1))
  | _, _ => None
  end.

Definition createRunInTx (i : CreateRunInTxInput) : Stmt string :=
  fresh ← fresh_uuid uuid;
  let correlationId := if UUID_RE (ci_correlationId i) then ci_correlationId i else fresh in
  target ← api_select (declared_target (ci_scenarioVersionId i));
  match target with
  | None => api_fail IR_SCHEMA_INVALID (error_reason "scenario_version_not_found")
  | Some target =>
      if negb (target_resolved target) then api_fail IR_SCHEMA_INVALID (error_reason "run_target_unresolved") else
      model ← resolve_model (ci_model i);
      _ ← match model with
          | None => mret tt
          | Some m => assert_versions_allowed tenantId m
                        (match ci_promptVersions i with [] => [None] | vs => map Some vs end)
          end;
      _ ← check_workitem (ci_workitemId i);
      _ ← interleave;
      _ ← insert_run i correlationId model;
      _ ← on_rows (emitOutboxEvent (mkEmit run_created_e correlationId (Some (ci_runId i)) None None None
            (ci_runId i +:+ ":run.created") None));
      _ ← enqueueRunClaim (ci_runId i) correlationId (Some (ci_priority i));
      mret (ci_runId i)
  end.

(** ** The handler *)

Definition parseRunPriority (raw : option json) : Act RunPriority :=
  match raw with
  | None | Some JNull => mret medium
  | Some (JStr s) =>
      if decide (s = "low") then mret low else if decide (s = "medium") then mret medium else
      if decide (s = "high") then mret high else if decide (s = "critical") then mret critical else
      p_fail IR_SCHEMA_INVALID (error_reason "invalid_run_priority")
  | Some _ => p_fail IR_SCHEMA_INVALID (error_reason "invalid_run_priority")
  end.

Definition parseRunMode (raw : option json) : Act RunMode :=
  match raw with
  | None | Some JNull => mret mode_prod
  | Some (JStr s) =>
      if decide (s = "test") then mret mode_test else if decide (s = "prod") then mret mode_prod else
      p_fail IR_SCHEMA_INVALID (error_reason "invalid_run_mode")
  | Some _ => p_fail IR_SCHEMA_INVALID (error_reason "invalid_run_mode")
  end.

Definition RunPriority_str (p : RunPriority) : string :=
  match p with low => "low" | medium => "medium" | high => "high" | critical => "critical" end.
Definition RunMode_str (m : RunMode) : string := match m with mode_test => "test" | mode_prod => "prod" end.

Definition RUN_FIELDS : list string := ["scenario_version_id"; "params"; "workitem_id"; "model"; "priority"; "run_mode"].

(** The checks of the body, in the order of the code; the run gets its id later. *)
Definition parse_create_body (q : Request) (promptVersions : list string) : Act (string → CreateRunInTxInput) :=
  match qu_body q with
  | Some (JObj f) =>
      let field k := alookup k f in
      match List.find (λ p, negb (string_in p.1 RUN_FIELDS)) f with
      | Some p => p_fail IR_SCHEMA_INVALID [("reason", JStr "unknown_field"); ("field", JStr p.1)]
      | None =>
          priority ← parseRunPriority (field "priority");
          runMode ← parseRunMode (field "run_mode");
          model ← match field "model" with
                  | None | Some JNull => mret None
                  | Some (JStr (String _ _ as m)) => mret (Some m)
                  | Some _ => p_fail IR_SCHEMA_INVALID (error_reason "invalid_model")
                  end;
          version ← match field "scenario_version_id" with
                    | Some (JStr v) => if UUID_RE v then mret v else p_fail IR_SCHEMA_INVALID (error_reason "scenario_version_id_required")
                    | _ => p_fail IR_SCHEMA_INVALID (error_reason "scenario_version_id_required")
                    end;
          workitem ← match field "workitem_id" with
                     | None | Some JNull => mret None
                     | Some (JStr w) => if UUID_RE w then mret (Some w) else p_fail IR_SCHEMA_INVALID (error_reason "invalid_workitem_id")
                     | Some _ => p_fail IR_SCHEMA_INVALID (error_reason "invalid_workitem_id")
                     end;
          match field "params" with
          | Some (JObj params) =>
              now ← p_now;
              asOf ← match alookup "as_of" params with
                     | None => mret (iso now)
                     | Some (JStr s) => if isStrictIsoDateTime s then mret s else p_fail IR_SCHEMA_INVALID (error_reason "invalid_as_of")
                     | Some _ => p_fail IR_SCHEMA_INVALID (error_reason "invalid_as_of")
                     end;
              mret (λ runId, mkCreateInput runId version (JObj params) asOf (qu_correlationId q) workitem model promptVersions priority runMode)
          | _ => p_fail IR_SCHEMA_INVALID (error_reason "params_object_required")
          end
      end
  | _ => p_fail IR_SCHEMA_INVALID (error_reason "request_body_object_required")
  end.

Definition created_response (i : CreateRunInTxInput) : CommandResponse :=
  mkResponse 201 (JObj [("run_id", JStr (ci_runId i)); ("status", JStr "queued"); ("as_of", JStr (ci_asOf i));
                        ("priority", JStr (RunPriority_str (ci_priority i))); ("run_mode", JStr (RunMode_str (ci_runMode i)))]).

Definition create_tx (recordId : string) (i : CreateRunInTxInput) : Stmt CommandResponse :=
  _ ← createRunInTx i;
  _ ← completeIdempotencyInTx tenantId recordId (created_response i);
  mret (created_response i).

Definition classifyRunCreateFailure (e : ApiExn) : option (ErrorCode * option json) :=
  match e with
  | AE_api code details => Some (code, details)
  | AE_db (E_unique "idx_runs_one_per_workitem") =>
      Some (WORKITEM_CHECKOUT_CONFLICT, Some (JObj (error_reason "workitem_run_exists")))
  | _ => None
  end.

Definition shouldPersistRunCreateFailure (code : ErrorCode) (details : option json) : bool :=
  negb (em_retryable (ERROR_CATALOG code)) ||
  (bool_decide (code = WORKITEM_CHECKOUT_CONFLICT) && hasReason details "workitem_run_exists").

(** [randomUUID()] for the run. *)
Definition draw_run_id : Act string := λ w, (mkApiWorld (use_api_id (aw_api w)) (aw_env w), Ok (uuid (a_ids (aw_api w)))).

Definition createRun (promptVersions : list string) (q : Request) : Act CommandResponse :=
  key ← requireIdempotencyKey q;
  input ← parse_create_body q promptVersions;
  let requestHash := canonicalRequestHash sha256 "POST" "/v1/runs" (body_or_null q) in
  after_reservation tenantId uuid q "createRun" key requestHash (λ recordId,
    runId ← draw_run_id;
    p_catch (tenantTx (create_tx recordId (input runId)))
      (λ e, match classifyRunCreateFailure e with
            | Some (code, details) =>
                _ ← (if shouldPersistRunCreateFailure code details
                     then persist_failure tenantId recordId (qu_correlationId q) code details else mret tt);
                p_throw (AE_api code details)
            | None => p_throw e
            end)).
End Create.
