(* ===== verification/ApiTasks.v ===== *)
(** * Commands on human tasks and dead letters

    Models [app/src/api/human-tasks.ts] (the routes), [human-tasks-command.ts] (the
    transition of a task and of the run that waits for it),
    [human-task-form-schema.ts] (the check of a resolution against its form),
    [rbac.ts] (the decision for one principal) and [dlq.ts] (replaying dead
    letters). *)

From stdpp Require Import base strings list gmap pretty.
From Stdlib Require Import Ascii ZArith.
From S2P Require Import Prelude StateMachine JsValue JsText Rbac Database Sweepers Leases ErrorCatalog ApiShared AuditLog ApiStore ApiRuns.

(** ** Authorisation *)

Record HumanTaskScope := mkScope { sc_assigneeId : option string; sc_assigneeRole : option Role }.
Record AuthorizationCheck := mkCheck { ck_action : string; ck_tenantId : string; ck_humanTask : option HumanTaskScope }.
Inductive AuthorizationDecision := allow | deny (code : ErrorCode) (reason : string).

Definition roleActionDenyCode (action : string) : ErrorCode :=
  if decide (action = "connector.enable") then CONNECTOR_PERMISSION_DENIED else
  if decide (action = "artifact.read" ∨ action = "secret.resolve") then SECRET_ACCESS_DENIED else AUTHZ_FORBIDDEN.

Definition isHumanTaskResolveAction (action : string) : bool := starts_with "human_task.resolve." action.

Definition deny_action (action reason : string) : AuthorizationDecision := deny (roleActionDenyCode action) reason.

(** The decision once a role allows the action. *)
Definition scope_decision (p : Principal) (c : AuthorizationCheck) : AuthorizationDecision :=
  if negb (isHumanTaskResolveAction (ck_action c)) then allow else
  match ck_humanTask c with
  | None => deny_action (ck_action c) "human_task_scope_required"
  | Some s =>
      match sc_assigneeId s with
      | None => deny_action (ck_action c) "human_task_assignee_required"
      | Some assignee =>
          if negb (bool_decide (assignee = pn_subjectId p)) then deny_action (ck_action c) "human_task_assignee_mismatch" else
          match sc_assigneeRole s with
          | None => deny_action (ck_action c) "human_task_assignee_role_required"
          | Some role =>
              if bool_decide (role ∈ pn_roles p) then allow else deny_action (ck_action c) "human_task_assignee_role_mismatch"
          end
      end
  end.

Definition authorize (p : Principal) (c : AuthorizationCheck) : AuthorizationDecision :=
  if negb (bool_decide (pn_tenantId p = ck_tenantId c)) then deny AUTHZ_FORBIDDEN "tenant_mismatch" else
  if existsb (λ role, roleAllowsAction role (ck_action c)) (pn_roles p) then scope_decision p c
  else deny (roleActionDenyCode (ck_action c)) "role_action_not_allowed".

(** ** Business forms *)

Inductive FieldType := ft_text | ft_textarea | ft_number | ft_boolean | ft_date | ft_select.
Record BusinessFormField := mkField {
  bf_key : string;
  bf_type : FieldType;
  bf_required : bool;
  bf_options : option (list string)
}.

Definition form_error {A} (reason : string) (extra : list (string * json)) : Act A :=
  p_fail IR_SCHEMA_INVALID (("reason", JStr reason) :: extra).

Definition is_key_start (c : ascii) : bool := is_lower_char c || is_upper_char c || Ascii.eqb c "_".
(** [/^[A-Za-z_][A-Za-z0-9_]{0,63}$/]. *)
Definition KEY_RE (s : string) : bool :=
  match s with
  | EmptyString => false
  | String c s' => is_key_start c && negb (string_exists (λ c, negb (is_key_start c || is_digit_char c)) s') && (String.length s' <=? 63)
  end.
(** [/^\d{4}-\d{2}-\d{2}$/]. *)
Definition DATE_RE (s : string) : bool :=
  bool_decide (
    (s ← skip_chars is_digit_char 4 s; s ← skip_char "-"%char s;
     s ← skip_chars is_digit_char 2 s; s ← skip_char "-"%char s; skip_chars is_digit_char 2 s) = Some EmptyString).

Definition field_type (s : string) : option FieldType :=
  if decide (s = "text") then Some ft_text else if decide (s = "textarea") then Some ft_textarea else
  if decide (s = "number") then Some ft_number else if decide (s = "boolean") then Some ft_boolean else
  if decide (s = "date") then Some ft_date else if decide (s = "select") then Some ft_select else None.

Definition stringProp (f : list (string * json)) (k : string) : Act string :=
  match alookup k f with
  | Some (JStr (String _ _ as s)) => mret s
  | _ => form_error "invalid_business_form_field_property" [("prop", JStr k)]
  end.

Definition parseOptions (value : option json) (key : string) (type : FieldType) : Act (option (list string)) :=
  match type with
  | ft_select =>
      match value with
      | Some (JArr (_ :: _ as l)) =>
          match mapM (λ x, match x with JStr (String _ _ as s) => Some s | _ => None end) l with
          | Some options => mret (Some options)
          | None => form_error "invalid_business_form_options" [("field", JStr key)]
          end
      | _ => form_error "invalid_business_form_options" [("field", JStr key)]
      end
  | _ =>
      match value with
      | None => mret None
      | Some _ => form_error "business_form_options_without_select" [("field", JStr key)]
      end
  end.

Definition FIELD_KEYS : list string := ["key"; "label"; "type"; "required"; "options"; "help_text"].

Definition parseField (value : json) (seen : list string) : Act BusinessFormField :=
  match value with
  | JObj f =>
      match List.find (λ p, negb (string_in p.1 FIELD_KEYS)) f with
      | Some p => form_error "invalid_business_form_field_key" [("field", JStr p.1)]
      | None =>
          key ← stringProp f "key";
          if negb (KEY_RE key) then form_error "invalid_business_form_field_key" [("field", JStr key)] else
          if string_in key seen then form_error "duplicate_business_form_field" [("field", JStr key)] else
          _ ← stringProp f "label";
          typeText ← stringProp f "type";
          match field_type typeText with
          | None => form_error "invalid_business_form_field_type" [("field", JStr key)]
          | Some type =>
              required ← match alookup "required" f with
                         | None => mret false
                         | Some (JBool b) => mret b
                         | Some _ => form_error "invalid_business_form_required" [("field", JStr key)]
                         end;
              _ ← match alookup "help_text" f with
                  | None | Some (JStr _) => mret tt
                  | Some _ => form_error "invalid_business_form_help_text" [("field", JStr key)]
                  end;
              options ← parseOptions (alookup "options" f) key type;
              mret (mkField key type required options)
          end
      end
  | _ => form_error "invalid_business_form_field" []
  end.

Fixpoint parse_fields (seen : list string) (l : list json) : Act (list BusinessFormField) :=
  match l with
  | [] => mret []
  | v :: rest =>
      field ← parseField v seen;
      fields ← parse_fields (bf_key field :: seen) rest;
      mret (field :: fields)
  end.

(** [None]: the task has no form. *)
Definition parseBusinessFormSchema (value : json) : Act (option (list BusinessFormField)) :=
  match value with
  | JObj (_ :: _ as f) =>
      match alookup "version" f with
      | None => mret None
      | Some (JStr "business_form_v1") =>
          match alookup "fields" f with
          | Some (JArr (_ :: _ as l)) => fields ← parse_fields [] l; mret (Some fields)
          | _ => form_error "invalid_business_form_fields" []
          end
      | Some _ => form_error "invalid_business_form_schema_version" []
      end
  | _ => mret None
  end.

Section Forms.
(** [Date.parse]. *)
Context (date_parse : string → option Z).

Definition value_matches (field : BusinessFormField) (v : json) : bool :=
  match bf_type field, v with
  | ft_text, JStr _ | ft_textarea, JStr _ | ft_boolean, JBool _ => true
  | ft_number, JNum x => num_is_finite x
  | ft_date, JStr s => DATE_RE s && bool_decide (is_Some (date_parse (s +:+ "T00:00:00Z")))
  | ft_select, JStr s => match bf_options field with Some options => string_in s options | None => false end
  | _, _ => false
  end.

Definition validateFieldValue (field : BusinessFormField) (v : json) : Act () :=
  match v with
  | JNull | JStr EmptyString =>
      if bf_required field then form_error "business_form_required_field_empty" [("field", JStr (bf_key field))] else mret tt
  | _ =>
      if value_matches field v then mret tt else
      form_error (match bf_type field with ft_select => "business_form_select_value_invalid" | _ => "business_form_value_type_mismatch" end)
        [("field", JStr (bf_key field))]
  end.

Inductive ResolutionDecision := rd_approve | rd_reject | rd_correct | rd_retry.
#[export] Instance ResolutionDecision_eq_dec : EqDecision ResolutionDecision.
Proof. solve_decision. Defined.
Record HumanTaskResolution := mkResolution {
  hr_decision : ResolutionDecision;
  hr_corrections : option (list (string * json));
  hr_reason : option string;
  hr_confidence : option jsnum;
  hr_notes : option string
}.

Definition field_by_key (fields : list BusinessFormField) (key : string) : option BusinessFormField :=
  List.find (λ f, bool_decide (bf_key f = key)) fields.

Fixpoint check_corrections (fields : list BusinessFormField) (l : list (string * json)) : Act () :=
  match l with
  | [] => mret tt
  | (k, v) :: rest =>
      _ ← match field_by_key fields k with
          | None => form_error "business_form_unknown_field" [("field", JStr k)]
          | Some field => validateFieldValue field v
          end;
      check_corrections fields rest
  end.

Definition validateResolutionAgainstBusinessForm (resultSchema : json) (resolution : option HumanTaskResolution) : Act () :=
  schema ← parseBusinessFormSchema resultSchema;
  match schema, resolution with
  | Some fields, Some r =>
      let corrections := default [] (hr_corrections r) in
      _ ← check_corrections fields corrections;
      if decide (hr_decision r = rd_correct) then
        match List.find (λ f, bf_required f && negb (bool_decide (is_Some (alookup (bf_key f) corrections)))) fields with
        | Some f => form_error "business_form_required_field_missing" [("field", JStr (bf_key f))]
        | None => mret tt
        end
      else mret tt
  | _, _ => mret tt
  end.
End Forms.

(** ** The bodies of the requests *)

Definition requireTaskId (id : string) : Act string := if UUID_RE id then mret id else p_fail RESOURCE_NOT_FOUND [].

(** A record whose keys are at most [k]; [None]: not such a record. *)
Definition closed_record (k : string) (body : option json) : option (option json) :=
  match body with
  | Some (JObj f) => if existsb (λ p, negb (bool_decide (p.1 = k))) f then None else Some (alookup k f)
  | _ => None
  end.

Definition requireAssignee (body : option json) : Act string :=
  match closed_record "assignee" body with
  | None => p_fail IR_SCHEMA_INVALID (error_reason "invalid_assign_request")
  | Some (Some (JStr (String _ _ as s))) => mret s
  | Some _ => p_fail IR_SCHEMA_INVALID (error_reason "invalid_assignee")
  end.

Definition requireEmptyBody (body : option json) : Act () :=
  match body with
  | None | Some JNull | Some (JObj []) => mret tt
  | Some _ => p_fail IR_SCHEMA_INVALID (error_reason "unexpected_body")
  end.

Definition requireReasonBody (body : option json) : Act (option string) :=
  match body with
  | None | Some JNull => mret None
  | Some _ =>
      match closed_record "reason" body with
      | None => p_fail IR_SCHEMA_INVALID (error_reason "invalid_escalate_request")
      | Some None => mret None
      | Some (Some (JStr s)) => mret (Some s)
      | Some (Some _) => p_fail IR_SCHEMA_INVALID (error_reason "invalid_escalate_reason")
      end
  end.

Definition RESULT_KEYS : list string := ["decision"; "corrections"; "reason"; "confidence"; "notes"].
Definition resolution_decision (v : option json) : option ResolutionDecision :=
  match as_string v with
  | Some s =>
      if decide (s = "approve") then Some rd_approve else if decide (s = "reject") then Some rd_reject else
      if decide (s = "correct") then Some rd_correct else if decide (s = "retry") then Some rd_retry else None
  | None => None
  end.
(** Between 0 and 1. *)
Definition confidence_ok (x : jsnum) : bool := num_is_finite x && negb (num_ltb x (num_of_Z 0)) && negb (num_ltb (num_of_Z 1) x).

Definition optional_text (k reason : string) (f : list (string * json)) : Act (option string) :=
  match alookup k f with
  | None => mret None
  | Some (JStr s) => mret (Some s)
  | Some _ => p_fail IR_SCHEMA_INVALID (error_reason reason)
  end.

Definition requireResolutionResult (f : list (string * json)) : Act HumanTaskResolution :=
  if existsb (λ p, negb (string_in p.1 RESULT_KEYS)) f then p_fail IR_SCHEMA_INVALID (error_reason "invalid_resolve_result_key") else
  match resolution_decision (alookup "decision" f) with
  | None => p_fail IR_SCHEMA_INVALID (error_reason "invalid_resolve_decision")
  | Some decision =>
      corrections ← match alookup "corrections" f with
                    | None => mret None
                    | Some (JObj c) => mret (Some c)
                    | Some _ => p_fail IR_SCHEMA_INVALID (error_reason "invalid_resolve_corrections")
                    end;
      reason ← optional_text "reason" "invalid_resolve_reason" f;
      confidence ← match alookup "confidence" f with
                   | None => mret None
                   | Some (JNum x) => if confidence_ok x then mret (Some x)
                                      else p_fail IR_SCHEMA_INVALID (error_reason "invalid_resolve_confidence")
                   | Some _ => p_fail IR_SCHEMA_INVALID (error_reason "invalid_resolve_confidence")
                   end;
      notes ← optional_text "notes" "invalid_resolve_notes" f;
      mret (mkResolution decision corrections reason confidence notes)
  end.

Definition requireResolveBody (body : option json) : Act (option HumanTaskResolution) :=
  match body with
  | None | Some JNull => mret None
  | Some _ =>
      match closed_record "result" body with
      | None => p_fail IR_SCHEMA_INVALID (error_reason "invalid_resolve_request")
      | Some None => mret None
      | Some (Some (JObj f)) => r ← requireResolutionResult f; mret (Some r)
      | Some (Some _) => p_fail IR_SCHEMA_INVALID (error_reason "invalid_resolve_result")
      end
  end.

Definition ResolutionDecision_str (d : ResolutionDecision) : string :=
  match d with rd_approve => "approve" | rd_reject => "reject" | rd_correct => "correct" | rd_retry => "retry" end.
Definition opt_field {A} (k : string) (f : A → json) (v : option A) : list (string * json) :=
  match v with Some v => [(k, f v)] | None => [] end.
Definition resolution_json (r : HumanTaskResolution) : json :=
  JObj ([("decision", JStr (ResolutionDecision_str (hr_decision r)))] ++ opt_field "corrections" JObj (hr_corrections r) ++
        opt_field "reason" JStr (hr_reason r) ++ opt_field "confidence" JNum (hr_confidence r) ++ opt_field "notes" JStr (hr_notes r)).

(** ** The command of a task *)

Record RunCoupling := mkCoupling { co_event : RunEvent; co_guard : RunGuard }.

Record TaskCommand := mkTaskCommand {
  tk_event : HumanTaskEvent;
  tk_assignee : option string;
  tk_runCoupling : option RunCoupling;
  tk_enqueuer : bool;
  tk_resolveResult : option HumanTaskResolution;
  tk_resolvedBy : option string;
  tk_escalation : option (option string * option string)
}.

Definition task_of (id : string) (a : Api) : option HumanTaskRow :=
  head (List.filter (λ h, bool_decide (h_id h = id)) (human_tasks (a_db a))).

Definition update_task (id : string) (f : HumanTaskRow → HumanTaskRow) (columns : Z → TaskColumns → TaskColumns) : Stmt () :=
  n ← api_select (λ a, length (List.filter (λ h, bool_decide (h_id h = id)) (human_tasks (a_db a))));
  _ ← api_update (λ a, set_tasks (<[id := columns (api_now a) (default no_task_columns (a_tasks a !! id))]> (a_tasks a))
        (set_tables (a_leases a, set_human_tasks (map (λ h, if decide (h_id h = id) then f h else h) (human_tasks (a_db a))) (a_db a)) a));
  if decide (n = 1) then mret tt else api_fail RESOURCE_NOT_FOUND [].

Definition with_task_result (v : json) (h : HumanTaskRow) : HumanTaskRow :=
  mkHumanTaskRow (h_id h) (h_run_id h) (h_node_id h) (h_kind h) (h_assignee_role h) (h_on_timeout h) (h_state h) (h_assignee h)
    (h_payload h) (h_result_schema h) (h_artifact_refs h) v (h_expires_at h) (h_resolved_at h).
Definition without_assignee (h : HumanTaskRow) : HumanTaskRow :=
  mkHumanTaskRow (h_id h) (h_run_id h) (h_node_id h) (h_kind h) (h_assignee_role h) (h_on_timeout h) (h_state h) None
    (h_payload h) (h_result_schema h) (h_artifact_refs h) (h_result h) (h_expires_at h) (h_resolved_at h).

Definition storeHumanTaskResolution (id : string) (r : option HumanTaskResolution) (resolvedBy : option string) : Stmt () :=
  update_task id (with_task_result (match r with Some r => resolution_json r | None => JNull end))
    (λ _ c, mkTaskColumns resolvedBy (tc_escalation_reason c) (tc_escalated_by c) (tc_escalated_at c)).

Definition storeHumanTaskEscalation (id : string) (reason escalatedBy : option string) : Stmt () :=
  update_task id without_assignee (λ now c, mkTaskColumns (tc_resolved_by c) reason escalatedBy (Some now)).

Definition all_reassign (pending : list SideEffectCmd) : bool := forallb (λ c, bool_decide (c = reassignAssignee)) pending.

Definition assertHumanTaskPendingHandled (event : HumanTaskEvent) (assignee : option string) (pending : list SideEffectCmd) : Stmt () :=
  match pending with
  | [] => mret tt
  | _ =>
      if match event with
         | hev_assign => bool_decide (is_Some assignee) && all_reassign pending
         | hev_escalate => all_reassign pending
         | _ => false
         end then mret tt
      else api_fail CONTROL_PLANE_INTERNAL_ERROR
             [("reason", JStr "human_task_pending_side_effects_unsupported"); ("pending", pendingSideEffectKinds pending)]
  end.

Definition assertRunCouplingPendingHandled (pending : list SideEffectCmd) : Stmt () :=
  if all_reassign pending then mret tt
  else api_fail CONTROL_PLANE_INTERNAL_ERROR
         [("reason", JStr "human_task_run_coupling_pending_side_effects_unsupported"); ("pending", pendingSideEffectKinds pending)].

Definition applyCoupledRunTransition (runId humanTaskId fallback : string) (c : RunCoupling) (enqueuer : bool) : Stmt () :=
  run ← api_select (run_of runId);
  columns ← api_select (columns_of runId);
  match run with
  | None => mret tt
  | Some row =>
      if negb (bool_decide (r_status row = run_suspended)) then mret tt else
      let correlationId := default fallback (rc_correlation_id <$> columns) in
      outcome ← on_rows (applyRunTransition (mkRunCtx runId run_suspended (co_event c) (co_guard c) correlationId None
                  (Some (runId +:+ ":" +:+ humanTaskId)) None));
      match outcome with
      | CasConflict _ => api_fail WORKITEM_CHECKOUT_CONFLICT (error_reason "human_task_run_coupling_cas_contention")
      | Applied _ _ pending =>
          _ ← assertRunCouplingPendingHandled pending;
          if decide (co_event c = ev_human_task_resolved) then
            if negb enqueuer then api_fail CONTROL_PLANE_INTERNAL_ERROR (error_reason "run_resume_enqueuer_not_configured")
            else enqueueRunResume runId correlationId
          else mret tt
      end
  end.

Definition HumanTaskKind_str (k : HumanTaskKind) : string :=
  match k with k_approval => "approval" | k_validation => "validation" | k_exception => "exception" | k_captcha => "captcha" | k_mfa => "mfa" end.
Definition OnTimeout_str (t : OnTimeout) : string := match t with ot_fail => "fail" | ot_escalate => "escalate" end.

Definition recordOrEmpty (v : json) : json := match v with JObj _ => v | _ => JObj [] end.
Definition recordOrNull (v : json) : json := match v with JObj _ => v | _ => JNull end.
Definition stringArray (v : json) : json :=
  match v with JArr l => JArr (List.filter (λ x, match x with JStr _ => true | _ => false end) l) | _ => JArr [] end.

Section Tasks.
(** The tenant, the digest, [randomUUID], [Date.toISOString] and [Date.parse]. *)
Context (tenantId : string) (sha256 : string → string) (uuid : nat → string) (iso : Z → string) (date_parse : string → option Z).

Definition readHumanTaskResponse (id : string) : Stmt json :=
  row ← api_select (task_of id);
  columns ← api_select (λ a, default no_task_columns (a_tasks a !! id));
  match row with
  | None => api_fail RESOURCE_NOT_FOUND []
  | Some h =>
      mret (JObj [("human_task_id", JStr (h_id h)); ("state", JStr (HumanTaskState_str (h_state h)));
                  ("kind", JStr (HumanTaskKind_str (h_kind h))); ("assignee", json_opt (h_assignee h));
                  ("timeout", JStr (iso (h_expires_at h))); ("on_timeout", JStr (OnTimeout_str (h_on_timeout h)));
                  ("run_id", JStr (h_run_id h)); ("payload", recordOrEmpty (h_payload h));
                  ("result_schema", recordOrEmpty (h_result_schema h)); ("artifact_refs", stringArray (h_artifact_refs h));
                  ("result", recordOrNull (h_result h)); ("escalation_reason", json_opt (tc_escalation_reason columns));
                  ("escalated_by", json_opt (tc_escalated_by columns)); ("escalated_at", json_opt (iso <$> tc_escalated_at columns))])
  end.

(** [try { applyHumanTaskTransition } catch (IllegalTransition)]. *)
Definition task_transition (ctx : HumanTaskTransitionContext) (state : HumanTaskState) : Stmt (TransitionOutcome HumanTaskState) := λ t,
  match on_rows (applyHumanTaskTransition ctx) t with
  | (t', Err (AE_db (E_illegal _))) =>
      api_fail IR_SCHEMA_INVALID [("reason", JStr "invalid_state_for_command"); ("state", JStr (HumanTaskState_str state))] t'
  | r => r
  end.

(** The task has moved: its columns, the run that waits for it, the answer. *)
Definition task_effects (id correlationId : string) (cmd : TaskCommand) (runId : string) (pending : list SideEffectCmd) : Stmt CommandResponse :=
  _ ← assertHumanTaskPendingHandled (tk_event cmd) (tk_assignee cmd) pending;
  _ ← (if decide (tk_event cmd = hev_resolve) then storeHumanTaskResolution id (tk_resolveResult cmd) (tk_resolvedBy cmd) else mret tt);
  _ ← (if decide (tk_event cmd = hev_escalate)
       then storeHumanTaskEscalation id (tk_escalation cmd ≫= fst) (tk_escalation cmd ≫= snd) else mret tt);
  _ ← match tk_runCoupling cmd with
      | Some c => applyCoupledRunTransition runId id correlationId c (tk_enqueuer cmd)
      | None => mret tt
      end;
  body ← readHumanTaskResponse id;
  mret (mkResponse 200 body).

Definition task_attempt (id correlationId : string) (cmd : TaskCommand) : Stmt (option CommandResponse) :=
  row ← api_select (task_of id);
  match row with
  | None => api_fail RESOURCE_NOT_FOUND []
  | Some h =>
      if bool_decide (h_state h ∈ HUMANTASK_TERMINAL)
      then api_fail HUMAN_TASK_EXPIRED [("state", JStr (HumanTaskState_str (h_state h)))] else
      _ ← interleave;
      outcome ← task_transition (mkHumanCtx id (h_run_id h) (h_state h) (tk_event cmd) human_task_guard_empty correlationId
                  (tk_assignee cmd) None None) (h_state h);
      match outcome with
      | CasConflict _ => mret None
      | Applied _ _ pending => response ← task_effects id correlationId cmd (h_run_id h) pending; mret (Some response)
      end
  end.

Fixpoint task_loop (attempts : nat) (id correlationId : string) (cmd : TaskCommand) : Stmt CommandResponse :=
  match attempts with
  | O => api_fail WORKITEM_CHECKOUT_CONFLICT (error_reason "human_task_cas_contention")
  | S n =>
      r ← task_attempt id correlationId cmd;
      match r with Some response => mret response | None => task_loop n id correlationId cmd end
  end.

Definition applyHumanTaskCommand : string → string → TaskCommand → Stmt CommandResponse := task_loop 3.

(** ** The routes of tasks *)

Definition plain_command (event : HumanTaskEvent) (assignee : option string) : TaskCommand :=
  mkTaskCommand event assignee None false None None None.
Definition resolve_command (r : option HumanTaskResolution) (by_ : string) : TaskCommand :=
  mkTaskCommand hev_resolve None (Some (mkCoupling ev_human_task_resolved guard_human_task_valid)) true r (Some by_) None.
Definition escalate_command (reason : option string) (by_ : string) : TaskCommand :=
  mkTaskCommand hev_escalate None (Some (mkCoupling ev_human_task_escalated run_guard_empty)) false None None (Some (reason, Some by_)).

Definition run_task_command (q : Request) (endpoint id action : string) (cmd : TaskCommand) : Act CommandResponse :=
  runIdempotentCommand tenantId sha256 uuid q endpoint ("/v1/human-tasks/" +:+ id +:+ "/" +:+ action)
    (applyHumanTaskCommand id (qu_correlationId q) cmd).

Definition assignHumanTask (q : Request) (id : string) : Act CommandResponse :=
  id ← requireTaskId id;
  assignee ← requireAssignee (qu_body q);
  run_task_command q "assignHumanTask" id "assign" (plain_command hev_assign (Some assignee)).

Definition startHumanTask (q : Request) (id : string) : Act CommandResponse :=
  id ← requireTaskId id;
  _ ← requireEmptyBody (qu_body q);
  run_task_command q "startHumanTask" id "start" (plain_command hev_start None).

Definition escalateHumanTask (q : Request) (id : string) : Act CommandResponse :=
  id ← requireTaskId id;
  reason ← requireReasonBody (qu_body q);
  run_task_command q "escalateHumanTask" id "escalate" (escalate_command reason (pn_subjectId (qu_principal q))).

Definition RESOLVE_ACTION (k : HumanTaskKind) : string := "human_task.resolve." +:+ HumanTaskKind_str k.

Definition toRole (v : option string) : option Role :=
  match v with
  | Some s => List.find (λ r, bool_decide (Role_str r = s)) ROLES
  | None => None
  end.

Definition resolveHumanTask (q : Request) (id : string) : Act CommandResponse :=
  id ← requireTaskId id;
  result ← requireResolveBody (qu_body q);
  row ← tenantTx (api_select (task_of id));
  match row with
  | None => p_fail RESOURCE_NOT_FOUND []
  | Some h =>
      match authorize (qu_principal q) (mkCheck (RESOLVE_ACTION (h_kind h)) (pn_tenantId (qu_principal q))
              (Some (mkScope (h_assignee h) (toRole (h_assignee_role h))))) with
      | deny code _ => p_fail code []
      | allow =>
          _ ← validateResolutionAgainstBusinessForm date_parse (h_result_schema h) result;
          run_task_command q "resolveHumanTask" id "resolve" (resolve_command result (pn_subjectId (qu_principal q)))
      end
  end.

(** ** Dead letters *)

(** The id of the row at a position. *)
Context (dead_letter_id : nat → string).

Definition dead_letter_of (id : string) (a : Api) : option (nat * DeadLetterRow) :=
  head (List.filter (λ p, bool_decide (dead_letter_id p.1 = id)) (imap pair (dead_letter (a_db a)))).

Definition guard_operator : WorkitemGuard := mkWorkitemGuard None None None None (Some true).

Definition replay_attempt (id correlationId : string) : Stmt (option CommandResponse) :=
  row ← api_select (dead_letter_of id);
  match row with
  | None => api_fail RESOURCE_NOT_FOUND []
  | Some (position, dl) =>
      if negb (dl_replayable dl) then api_fail IR_SCHEMA_INVALID (error_reason "not_replayable") else
      let workitemId := dl_workitem_id dl in
      wi ← api_select (λ a, workitems (a_db a) !! workitemId);
      match wi with
      | None => api_fail RESOURCE_NOT_FOUND []
      | Some wi =>
          if negb (bool_decide (w_status wi = wi_abandoned))
          then api_fail WORKITEM_CHECKOUT_CONFLICT
                 [("reason", JStr "workitem_not_abandoned"); ("status", JStr (WorkitemState_str (w_status wi)))] else
          _ ← interleave;
          outcome ← on_rows (applyWorkitemTransition (mkWorkitemCtx workitemId wi_abandoned wev_manual_replay guard_operator
                      correlationId None None None None));
          match outcome with
          | CasConflict _ => mret None
          | Applied next _ _ =>
              _ ← api_update (λ a, match a_replayed a !! position with
                                   | None => set_replayed (<[position := api_now a]> (a_replayed a)) a
                                   | Some _ => a
                                   end);
              mret (Some (mkResponse 202 (JObj [("dead_letter_id", JStr id); ("workitem_id", JStr workitemId);
                                                ("status", JStr (WorkitemState_str next))])))
          end
      end
  end.

Fixpoint replay_loop (attempts : nat) (id correlationId : string) : Stmt CommandResponse :=
  match attempts with
  | O => api_fail WORKITEM_CHECKOUT_CONFLICT (error_reason "dlq_replay_cas_contention")
  | S n =>
      r ← replay_attempt id correlationId;
      match r with Some response => mret response | None => replay_loop n id correlationId end
  end.

Definition applyDeadLetterReplay : string → string → Stmt CommandResponse := replay_loop 3.

Definition open_sink (row : SinkDeliveryRow) : bool := sd_dead_letter row && bool_decide (sd_requeued_at row = None).
Definition requeued (now : Z) (row : SinkDeliveryRow) : SinkDeliveryRow :=
  mkSinkDelivery (sd_normalized_record_id row) (sd_sink_config_id row) (sd_dead_letter row) (sd_attempted_at row) (Some now).

Definition applySinkDeadLetterReplay (id correlationId : string) : Stmt CommandResponse :=
  row ← api_select (λ a, head (List.filter (λ p, bool_decide (p.1 = id) && open_sink p.2) (a_sinks a)));
  match row with
  | None => api_fail RESOURCE_NOT_FOUND []
  | Some (_, row) =>
      _ ← enqueueSinkDeliver (sd_normalized_record_id row) (sd_sink_config_id row) correlationId;
      _ ← api_update (λ a, set_sinks (map (λ p, if bool_decide (p.1 = id) && open_sink p.2 then (p.1, requeued (api_now a) p.2) else p)
            (a_sinks a)) a);
      mret (mkResponse 202 (JObj [("dead_letter_id", JStr id); ("kind", JStr "sink"); ("status", JStr "enqueued")]))
  end.

Inductive ReplayKind := kind_workitem | kind_sink.
#[export] Instance ReplayKind_eq_dec : EqDecision ReplayKind.
Proof. solve_decision. Defined.

Definition parseReplayKind (raw : option string) : Act ReplayKind :=
  match raw with
  | None | Some "workitem" => mret kind_workitem
  | Some "sink" => mret kind_sink
  | Some _ => p_fail IR_SCHEMA_INVALID [("reason", JStr "invalid_kind"); ("param", JStr "kind")]
  end.

Definition authorize_sink (q : Request) : Act () :=
  match authorize (qu_principal q) (mkCheck "sink_dlq.replay" (pn_tenantId (qu_principal q)) None) with
  | deny code _ => p_fail code []
  | allow => mret tt
  end.

Definition replayDeadLetter (q : Request) (kind : option string) (id : string) : Act CommandResponse :=
  kind ← parseReplayKind kind;
  match kind with
  | kind_sink =>
      _ ← authorize_sink q;
      if negb (UUID_RE id) then p_fail RESOURCE_NOT_FOUND [] else
      runIdempotentCommand tenantId sha256 uuid q "replaySinkDeadLetter" ("/v1/dlq/" +:+ id +:+ "/replay?kind=sink")
        (applySinkDeadLetterReplay id (qu_correlationId q))
  | kind_workitem =>
      if negb (UUID_RE id) then p_fail RESOURCE_NOT_FOUND [] else
      runIdempotentCommand tenantId sha256 uuid q "replayDeadLetter" ("/v1/dlq/" +:+ id +:+ "/replay")
        (applyDeadLetterReplay id (qu_correlationId q))
  end.

(** ** Replaying all *)

Definition BULK_SKIPPABLE : list ErrorCode := [WORKITEM_CHECKOUT_CONFLICT; RESOURCE_NOT_FOUND; IR_SCHEMA_INVALID].
Definition CAP : nat := 500.

(** [ORDER BY attempted_at ASC]. *)
Fixpoint insert_sink (p : string * SinkDeliveryRow) (l : list (string * SinkDeliveryRow)) : list (string * SinkDeliveryRow) :=
  match l with
  | [] => [p]
  | q :: rest => if (sd_attempted_at p.2 <=? sd_attempted_at q.2)%Z then p :: l else q :: insert_sink p rest
  end.

Definition eligible_ids (kind : ReplayKind) (a : Api) : list string :=
  take (CAP + 1)
    match kind with
    | kind_sink => map fst (foldr insert_sink [] (List.filter (λ p, open_sink p.2) (a_sinks a)))
    | kind_workitem => map (λ p, dead_letter_id p.1)
        (List.filter (λ p, bool_decide (a_replayed a !! p.1 = None) && dl_replayable p.2) (imap pair (dead_letter (a_db a))))
    end.

Definition replay_one (kind : ReplayKind) (id correlationId : string) : Stmt CommandResponse :=
  match kind with
  | kind_sink => applySinkDeadLetterReplay id correlationId
  | kind_workitem => applyDeadLetterReplay id correlationId
  end.

(** How many were replayed and how many refused. *)
Fixpoint replay_batch (kind : ReplayKind) (correlationId : string) (ids : list string) (replayed conflicts : nat) : Act (nat * nat) :=
  match ids with
  | [] => mret (replayed, conflicts)
  | id :: rest =>
      ok ← p_catch (_ ← tenantTx (replay_one kind id correlationId); mret true)
             (λ e, match e with
                   | AE_api code _ => if bool_decide (code ∈ BULK_SKIPPABLE) then mret false else p_throw e
                   | _ => p_throw e
                   end);
      if (ok : bool) then replay_batch kind correlationId rest (S replayed) conflicts
      else replay_batch kind correlationId rest replayed (S conflicts)
  end.

Definition json_nat (n : nat) : json := JNum (num_of_Z (Z.of_nat n)).

Definition replayAll (q : Request) (kind : option string) : Act CommandResponse :=
  kind ← parseReplayKind kind;
  _ ← match kind with kind_sink => authorize_sink q | kind_workitem => mret tt end;
  ids ← tenantTx (api_select (eligible_ids kind));
  let truncated := CAP <? length ids in
  let batch := if truncated then take CAP ids else ids in
  counts ← replay_batch kind (qu_correlationId q) batch 0 0;
  mret (mkResponse 202 (JObj [("kind", JStr (match kind with kind_sink => "sink" | kind_workitem => "workitem" end));
    ("attempted", json_nat (length batch)); ("replayed", json_nat counts.1); ("conflicts", json_nat counts.2);
    ("truncated", JBool truncated)])).
End Tasks.
