(* ===== verification/ApiProps.v ===== *)
(** * Idempotent commands

    What the keys of [ApiStore] promise: over every interleaving of requests,
    crashes and expiries a key is used by at most one committed command and then
    gives that command's answer ([commands_take_effect_once]); what becomes of the
    key of a command that throws ([failed_command_key]). *)

From stdpp Require Import base strings list gmap pretty sets.
From Stdlib Require Import Ascii ZArith Lia.
From S2P Require Import Prelude StateMachine JsValue JsText Rbac Database Leases ErrorCatalog ApiShared AuditLog ApiStore.

(** A transaction that others do not disturb. *)
Definition atomically {A} (body : Stmt A) (a : Api) : Api * result ApiExn A :=
  let '(w, r) := tenantTx body (mkApiWorld a []) in (aw_api w, r).

Lemma filter_nil_existsb {A} (p : A → bool) l : List.filter p l = [] ↔ existsb p l = false.
Proof.
  induction l as [|x l IH]; simpl; [done|]. destruct (p x); simpl; [done|exact IH].
Qed.

Lemma head_filter_existsb {A} (p : A → bool) l : head (List.filter p l) = None ↔ existsb p l = false.
Proof. rewrite <-filter_nil_existsb. by destruct (List.filter p l). Qed.

Lemma head_filter_Some {A} (p : A → bool) l x : head (List.filter p l) = Some x → x ∈ l ∧ p x = true.
Proof.
  destruct (List.filter p l) as [|y k] eqn:E; [done|]. intros [= ->].
  assert (Hin : In x (List.filter p l)) by (rewrite E; by left). apply filter_In in Hin as [Hin Hp].
  split; [by apply list_elem_of_In|done].
Qed.

Lemma filter_singleton {A} (p : A → bool) l x y : List.filter p l = [x] → y ∈ l → p y = true → y = x.
Proof.
  intros E Hy%list_elem_of_In Hp. assert (Hin : In y (List.filter p l)) by (by apply filter_In).
  rewrite E in Hin. by destruct Hin.
Qed.

Lemma length_filter_1 {A} (p : A → bool) l : length (List.filter p l) = 1 → ∃ x, List.filter p l = [x] ∧ x ∈ l ∧ p x = true.
Proof.
  destruct (List.filter p l) as [|x [|]] eqn:E; try done. intros _. exists x. split; [done|].
  apply head_filter_Some. by rewrite E.
Qed.

(** ** Record ids *)

Lemma decode_encode t r : has_colon t = false → decodeRecordId (encodeRecordId t r) = Some (t, r).
Proof.
  unfold encodeRecordId. induction t as [|c t IH]; [done|]. simpl. intros [Hc Ht]%orb_false_iff.
  apply bool_decide_eq_false in Hc. rewrite (IH Ht). simpl.
  by destruct c as [[] [] [] [] [] [] [] []].
Qed.

Section Keys.
Context (tenantId : string) (uuid : nat → string).
Hypothesis tenant_plain : has_colon tenantId = false.
Hypothesis uuid_fresh : ∀ m n, uuid m = uuid n → m = n.

Notation reserve := (reserve tenantId uuid).
Notation pending_record := (pending_record tenantId).
Notation record_id n := (encodeRecordId tenantId (uuid n)).

Definition key_pair (row : IdempotencyRow) : string * string := (ik_endpoint row, ik_key row).
Definition req_pair (req : ReservationRequest) : string * string := (rs_endpoint req, rs_key req).

Lemma key_of_pair ep k row : key_of ep k row = true ↔ key_pair row = (ep, k).
Proof. unfold key_of, key_pair. rewrite andb_true_iff, !bool_decide_eq_true. naive_solver. Qed.

Definition new_key_row (req : ReservationRequest) (rowId : string) : IdempotencyRow :=
  mkKeyRow rowId (rs_endpoint req) (rs_key req) (rs_requestHash req) key_processing None None (rs_expiresAt req).

Definition reclaimed_keys (req : ReservationRequest) (id : string) (a : Api) : list IdempotencyRow :=
  map (λ r, if reclaimable req id a r then with_expiry (rs_expiresAt req) r else r) (a_keys a).

(** A reservation, case by case. *)
Lemma reserve_cases req a : atomically (reserve req) a =
  match head (List.filter (key_of (rs_endpoint req) (rs_key req)) (a_keys a)) with
  | None => (set_keys (a_keys a ++ [new_key_row req (uuid (a_ids a))]) (use_api_id a), Ok (rv_reserved (record_id (a_ids a))))
  | Some row =>
      if decide (ik_request_hash row = rs_requestHash req) then
        match ik_status row with
        | key_processing =>
            (set_keys (reclaimed_keys req (ik_id row) a) (use_api_id a),
             Ok (if decide (length (List.filter (reclaimable req (ik_id row) a) (a_keys a)) = 1)
                 then rv_reserved (encodeRecordId tenantId (ik_id row)) else rv_in_flight (encodeRecordId tenantId (ik_id row))))
        | _ =>
            match stored_response row with
            | Some response => (use_api_id a, Ok (rv_replay response))
            | None => (a, Err (AE_error "idempotency record without stored response"))
            end
        end
      else (use_api_id a, Ok rv_blocked)
  end.
Proof.
  unfold atomically, tenantTx, ApiStore.reserve, fresh_uuid, insert_key, interleave, api_select, update_keys, mbind, Stmt_bind. simpl.
  destruct (head (List.filter _ _)) as [row|] eqn:E.
  - destruct (existsb _ _) eqn:Ex; [|apply head_filter_existsb in Ex; congruence]. simpl. rewrite E.
    destruct (decide (ik_request_hash row = rs_requestHash req)) as [Eh|Eh];
      [rewrite bool_decide_eq_true_2 by done|by rewrite bool_decide_eq_false_2].
    simpl. by destruct (ik_status row); simpl; try destruct (stored_response row).
  - apply head_filter_existsb in E. rewrite E. done.
Qed.

(** ** Requests in flight *)

(** A transaction that, when it returns, has settled the record with its answer,
    and leaves the other keys alone. *)
Definition settled_keys (rid : string) (resp : CommandResponse) (a : Api) : list IdempotencyRow :=
  map (λ r, if pending_record rid a r then with_result key_succeeded (cp_status resp) (cp_body resp) r else r) (a_keys a).

Definition completes (rid : string) (tx : Stmt CommandResponse) : Prop :=
  ∀ a a' res, atomically tx a = (a', res) →
    match res with
    | Ok resp => a_keys a' = settled_keys rid resp a ∧ length (List.filter (pending_record rid a) (a_keys a)) = 1 ∧ a_ids a ≤ a_ids a'
    | Err _ => a' = a
    end.

Record Pending := mkPending {
  pe_record : string;
  pe_pair : string * string;
  pe_tx : Stmt CommandResponse;
  pe_correlationId : string;
  pe_error : option ApiExn
}.

(** The tables, the requests in flight and the commands that have committed. *)
Record Sys := mkSys {
  sy_api : Api;
  sy_open : list Pending;
  sy_done : list ((string * string) * CommandResponse)
}.

Inductive sys_step : Sys → Sys → Prop :=
| step_other a a' o d :                                (* any other transaction; the clock *)
    a_keys a' = a_keys a → a_ids a ≤ a_ids a' → sys_step (mkSys a o d) (mkSys a' o d)
| step_answered req a a' r o d :                       (* replayed, in flight, blocked, failed *)
    atomically (reserve req) a = (a', r) → (∀ rid, r ≠ Ok (rv_reserved rid)) → sys_step (mkSys a o d) (mkSys a' o d)
| step_reserved req a a' rid tx cid o d :
    atomically (reserve req) a = (a', Ok (rv_reserved rid)) → completes rid tx →
    sys_step (mkSys a o d) (mkSys a' (mkPending rid (req_pair req) tx cid None :: o) d)
| step_commit a a' p o1 o2 d resp :
    pe_error p = None → atomically (pe_tx p) a = (a', Ok resp) →
    sys_step (mkSys a (o1 ++ p :: o2) d) (mkSys a' (o1 ++ o2) ((pe_pair p, resp) :: d))
| step_throw a a' p o1 o2 d e :
    pe_error p = None → atomically (pe_tx p) a = (a', Err e) →
    sys_step (mkSys a (o1 ++ p :: o2) d)
      (mkSys a' (o1 ++ mkPending (pe_record p) (pe_pair p) (pe_tx p) (pe_correlationId p) (Some e) :: o2) d)
| step_settle a w r p o1 o2 d e :
    pe_error p = Some e → settle_failure tenantId (pe_record p) (pe_correlationId p) e (mkApiWorld a []) = (w, r) →
    sys_step (mkSys a (o1 ++ p :: o2) d) (mkSys (aw_api w) (o1 ++ o2) d)
| step_crash a p o1 o2 d : sys_step (mkSys a (o1 ++ p :: o2) d) (mkSys a (o1 ++ o2) d).

Inductive sys_reach : Sys → Prop :=
| reach_start a : a_keys a = [] → sys_reach (mkSys a [] [])
| reach_step s s' : sys_reach s → sys_step s s' → sys_reach s'.

(** ** The invariant *)

Record keys_wf (a : Api) : Prop := {
  kw_pairs : NoDup (map key_pair (a_keys a));
  kw_ids : NoDup (map ik_id (a_keys a));
  kw_fresh : ∀ row, row ∈ a_keys a → ∃ n, ik_id row = uuid n ∧ n < a_ids a
}.

Definition open_ok (a : Api) (p : Pending) : Prop :=
  completes (pe_record p) (pe_tx p) ∧
  ∃ n, pe_record p = record_id n ∧ n < a_ids a ∧ ∀ row, row ∈ a_keys a → ik_id row = uuid n → key_pair row = pe_pair p.

Definition done_ok (a : Api) (x : (string * string) * CommandResponse) : Prop :=
  ∃ row, row ∈ a_keys a ∧ key_pair row = x.1 ∧ ik_status row = key_succeeded ∧
         ik_response_status row = Some (cp_status x.2) ∧ ik_response_body row = Some (cp_body x.2).

Record sys_wf (s : Sys) : Prop := {
  sw_keys : keys_wf (sy_api s);
  sw_open : Forall (open_ok (sy_api s)) (sy_open s);
  sw_done : Forall (done_ok (sy_api s)) (sy_done s);
  sw_once : NoDup (map fst (sy_done s))
}.

(** An update of processing rows that keeps their identity. *)
Definition same_identity (f : IdempotencyRow → IdempotencyRow) : Prop :=
  ∀ r, ik_id (f r) = ik_id r ∧ key_pair (f r) = key_pair r.

Lemma map_update_keys_wf a a' (hit : IdempotencyRow → bool) f : same_identity f → keys_wf a →
  a_keys a' = map (λ r, if hit r then f r else r) (a_keys a) → a_ids a ≤ a_ids a' → keys_wf a'.
Proof.
  intros Hf [H1 H2 H3] E Hle.
  assert (Ei : map ik_id (a_keys a') = map ik_id (a_keys a)).
  { rewrite E, map_map. apply map_ext. intros r. destruct (hit r); [apply Hf|done]. }
  assert (Ep : map key_pair (a_keys a') = map key_pair (a_keys a)).
  { rewrite E, map_map. apply map_ext. intros r. destruct (hit r); [apply Hf|done]. }
  split; [by rewrite Ep|by rewrite Ei|].
  intros row Hrow. rewrite E in Hrow. apply list_elem_of_fmap in Hrow as (r & -> & Hr).
  destruct (H3 r Hr) as (n & En & Hn). exists n. split; [|lia]. destruct (hit r); [|done]. by rewrite (proj1 (Hf r)).
Qed.

Lemma map_update_open_ok a a' (hit : IdempotencyRow → bool) f p : same_identity f → open_ok a p →
  a_keys a' = map (λ r, if hit r then f r else r) (a_keys a) → a_ids a ≤ a_ids a' → open_ok a' p.
Proof.
  intros Hf (Hc & n & Er & Hn & Hp) E Hle. split; [done|]. exists n. split; [done|]. split; [lia|].
  intros row Hrow Hid. rewrite E in Hrow. apply list_elem_of_fmap in Hrow as (r & -> & Hr).
  destruct (Hf r) as [Hf1 Hf2]. destruct (hit r); [rewrite Hf2; apply Hp; congruence|by apply Hp].
Qed.

Lemma map_update_done_ok a a' (hit : IdempotencyRow → bool) f x : (∀ r, hit r = true → ik_status r = key_processing) →
  done_ok a x → a_keys a' = map (λ r, if hit r then f r else r) (a_keys a) → done_ok a' x.
Proof.
  intros Hh (row & Hrow & Hp & Hs & Hr) E. exists row. split; [|done]. rewrite E. apply list_elem_of_fmap. exists row.
  split; [|done]. destruct (hit row) eqn:Eh; [|done]. apply Hh in Eh. congruence.
Qed.

Lemma with_expiry_identity e : same_identity (with_expiry e).
Proof. done. Qed.
Lemma with_result_identity s c b : same_identity (with_result s c b).
Proof. done. Qed.

Lemma pending_record_processing rid a r : pending_record rid a r = true →
  ik_status r = key_processing ∧ decodeRecordId rid = Some (tenantId, ik_id r).
Proof. unfold ApiStore.pending_record. rewrite andb_true_iff, !bool_decide_eq_true. tauto. Qed.

Lemma reclaimable_processing req id a r : reclaimable req id a r = true → ik_status r = key_processing ∧ ik_id r = id.
Proof. unfold reclaimable. rewrite !andb_true_iff, !bool_decide_eq_true. tauto. Qed.

Lemma same_keys_wf a a' : keys_wf a → a_keys a' = a_keys a → a_ids a ≤ a_ids a' → keys_wf a'.
Proof.
  intros [H1 H2 H3] E Hle. split; rewrite E; [done..|]. intros row Hrow. destruct (H3 row Hrow) as (n & ? & ?). exists n. split; [done|lia].
Qed.
Lemma same_open_ok a a' p : open_ok a p → a_keys a' = a_keys a → a_ids a ≤ a_ids a' → open_ok a' p.
Proof. intros (Hc & n & Er & Hn & Hp) E Hle. split; [done|]. exists n. rewrite E. repeat split; [done|lia|done]. Qed.
Lemma same_done_ok a a' x : done_ok a x → a_keys a' = a_keys a → done_ok a' x.
Proof. intros (row & H) E. exists row. by rewrite E. Qed.

(** Steps that change no key. *)
Lemma same_sys_wf a a' o d : sys_wf (mkSys a o d) → a_keys a' = a_keys a → a_ids a ≤ a_ids a' → sys_wf (mkSys a' o d).
Proof.
  intros [H1 H2 H3 H4] E Hle. split; simpl in *; [by eapply same_keys_wf| | |done].
  - eapply Forall_impl; [exact H2|]. intros p Hp. by eapply same_open_ok.
  - eapply Forall_impl; [exact H3|]. intros x Hx. by eapply same_done_ok.
Qed.

(** Steps that change processing rows. *)
Lemma map_update_sys_wf a a' (hit : IdempotencyRow → bool) f o d :
  same_identity f → (∀ r, hit r = true → ik_status r = key_processing) → sys_wf (mkSys a o d) →
  a_keys a' = map (λ r, if hit r then f r else r) (a_keys a) → a_ids a ≤ a_ids a' → sys_wf (mkSys a' o d).
Proof.
  intros Hf Hh [H1 H2 H3 H4] E Hle. split; simpl in *; [by eapply map_update_keys_wf| | |done].
  - eapply Forall_impl; [exact H2|]. intros p Hp. by eapply map_update_open_ok.
  - eapply Forall_impl; [exact H3|]. intros x Hx. by eapply map_update_done_ok.
Qed.

(** The release of a key. *)
Lemma release_sys_wf a rid o d : sys_wf (mkSys a o d) →
  sys_wf (mkSys (set_keys (List.filter (λ r, negb (pending_record rid a r)) (a_keys a)) a) o d).
Proof.
  intros [[K1 K2 K3] H2 H3 H4]; simpl in *.
  assert (Hsub : ∀ row, row ∈ List.filter (λ r, negb (pending_record rid a r)) (a_keys a) → row ∈ a_keys a).
  { intros row H%list_elem_of_In. apply filter_In in H as [H _]. by apply list_elem_of_In. }
  assert (Hnd : ∀ {B} (g : IdempotencyRow → B), NoDup (map g (a_keys a)) →
            NoDup (map g (List.filter (λ r, negb (pending_record rid a r)) (a_keys a)))).
  { intros B g. generalize (a_keys a) as l. induction l as [|r l IH]; [done|]. simpl. rewrite NoDup_cons. intros [Hr Hl].
    destruct (negb _); simpl; [|by apply IH]. apply NoDup_cons. split; [|by apply IH]. intros Hin. apply Hr.
    apply list_elem_of_fmap in Hin as (r' & -> & Hin). apply list_elem_of_fmap. exists r'. split; [done|].
    apply list_elem_of_In in Hin. apply filter_In in Hin as [Hin _]. by apply list_elem_of_In. }
  split; simpl; [split; simpl; [by apply Hnd|by apply Hnd|auto]| | |done].
  - eapply Forall_impl; [exact H2|]. intros p (Hc & n & Er & Hn & Hp). split; [done|]. exists n. simpl. auto.
  - eapply Forall_impl; [exact H3|]. intros x (row & Hrow & Hx). exists row. split; [|done]. simpl.
    apply list_elem_of_In, filter_In. split; [by apply list_elem_of_In|]. apply negb_true_iff.
    destruct (pending_record rid a row) eqn:E; [|done]. apply pending_record_processing in E as [E _]. destruct Hx as (_ & Hst & _). congruence.
Qed.

Lemma settle_sys_wf a w r rid cid e o d : sys_wf (mkSys a o d) →
  settle_failure tenantId rid cid e (mkApiWorld a []) = (w, r) → sys_wf (mkSys (aw_api w) o d).
Proof.
  intros Hwf. unfold settle_failure. destruct e as [code details| |]; [|by intros [= <- _]..].
  destruct (isReleasableVersionConflict code); [intros [= <- _]; by apply release_sys_wf|].
  destruct (negb _); [|by intros [= <- _]].
  unfold tenantTx, saveFailure, update_keys, mbind, Stmt_bind. simpl.
  case_decide as En; intros [= <- _]; simpl; [|done].
  eapply (map_update_sys_wf a _ (pending_record rid a)); [apply with_result_identity| |done|reflexivity|reflexivity].
  intros x Hx. by apply pending_record_processing in Hx as [? _].
Qed.

Lemma open_drop a o1 p o2 d : sys_wf (mkSys a (o1 ++ p :: o2) d) → sys_wf (mkSys a (o1 ++ o2) d) ∧ open_ok a p.
Proof.
  intros [H1 H2 H3 H4]. simpl in *. apply Forall_app in H2 as [Ha [Hp Hb]%Forall_cons]. split; [|done].
  split; simpl; [done|by apply Forall_app|done..].
Qed.

Lemma NoDup_map_inj {A B} (g : A → B) l x y : NoDup (map g l) → x ∈ l → y ∈ l → g x = g y → x = y.
Proof.
  induction l as [|z l IH]; [intros _ H; by apply elem_of_nil in H|]. simpl. rewrite NoDup_cons, !elem_of_cons.
  intros [Hz Hl] [->|Hx] [->|Hy] E; [done| | |by apply IH].
  - destruct Hz. rewrite E. by apply list_elem_of_fmap_2.
  - destruct Hz. rewrite <-E. by apply list_elem_of_fmap_2.
Qed.

(** A new reservation. *)
Lemma reserved_sys_wf req a a' rid tx cid o d : sys_wf (mkSys a o d) →
  atomically (reserve req) a = (a', Ok (rv_reserved rid)) → completes rid tx →
  sys_wf (mkSys a' (mkPending rid (req_pair req) tx cid None :: o) d).
Proof.
  intros Hwf. assert (Hwf' := Hwf). destruct Hwf' as [[K1 K2 K3] H2 H3 H4]. simpl in *. rewrite reserve_cases.
  destruct (head (List.filter _ _)) as [row|] eqn:E.
  - apply head_filter_Some in E as [Hrow Hkey%key_of_pair]. case_decide; [|done].
    destruct (ik_status row); [|by destruct (stored_response row)..]. case_decide as En; [|done].
    intros [= <- <-] Hc. destruct (K3 row Hrow) as (m & Em & Hm).
    assert (Hs : sys_wf (mkSys (set_keys (reclaimed_keys req (ik_id row) a) (use_api_id a)) o d)).
    { eapply (map_update_sys_wf a _ (reclaimable req (ik_id row) a)); [apply with_expiry_identity| |done|reflexivity|simpl; lia].
      intros x Hx. by apply reclaimable_processing in Hx as [? _]. }
    destruct Hs as [S1 S2 S3 S4]. simpl in *. split; simpl; [done| |done..]. constructor; [|done]. split; [done|].
    exists m. split; [by rewrite <-Em|]. simpl. split; [lia|]. intros r Hr Hid.
    unfold reclaimed_keys in Hr. apply list_elem_of_fmap in Hr as (x & -> & Hx).
    assert (Ex : ik_id x = ik_id row) by (destruct (reclaimable _ _ _ x); simpl in Hid; congruence).
    rewrite (NoDup_map_inj ik_id _ x row K2 Hx Hrow Ex). by destruct (reclaimable _ _ _ row).
  - apply head_filter_existsb in E. intros [= <- <-] Hc.
    assert (Hpair : ∀ row, row ∈ a_keys a → key_pair row ≠ req_pair req).
    { intros row Hrow Hk. apply key_of_pair in Hk. rewrite <-not_true_iff_false, existsb_exists in E. apply E. exists row.
      split; [by apply list_elem_of_In|done]. }
    assert (Hid : ∀ row, row ∈ a_keys a → ik_id row ≠ uuid (a_ids a)).
    { intros row Hrow Hr. destruct (K3 row Hrow) as (n & En & Hn). rewrite En in Hr. apply uuid_fresh in Hr. lia. }
    split; simpl; [split; simpl| | |done].
    + rewrite map_app. simpl. apply NoDup_app. split; [done|]. split; [|apply NoDup_singleton].
      intros x Hx ->%list_elem_of_singleton. apply list_elem_of_fmap in Hx as (row & Ex & Hrow). by apply (Hpair row).
    + rewrite map_app. simpl. apply NoDup_app. split; [done|]. split; [|apply NoDup_singleton].
      intros x Hx ->%list_elem_of_singleton. apply list_elem_of_fmap in Hx as (row & Ex & Hrow). by apply (Hid row).
    + intros row [Hrow| ->%list_elem_of_singleton]%elem_of_app; [|exists (a_ids a); split; [done|simpl; lia]].
      destruct (K3 row Hrow) as (n & ? & ?). exists n. split; [done|lia].
    + constructor.
      * split; [done|]. exists (a_ids a). split; [done|]. simpl. split; [lia|].
        intros row [Hrow| ->%list_elem_of_singleton]%elem_of_app Hr; [by destruct (Hid row)|done].
      * eapply Forall_impl; [exact H2|]. intros p (Hcp & n & Er & Hn & Hp). split; [done|]. exists n. simpl.
        repeat split; [done|lia|]. intros row [Hrow| ->%list_elem_of_singleton]%elem_of_app Hr; [by apply Hp|].
        simpl in Hr. apply uuid_fresh in Hr. lia.
    + eapply Forall_impl; [exact H3|]. intros x (row & Hrow & Hx). exists row. simpl. rewrite elem_of_app. auto.
Qed.

(** A commit. *)
Lemma commit_sys_wf a a' p o1 o2 d resp : sys_wf (mkSys a (o1 ++ p :: o2) d) → atomically (pe_tx p) a = (a', Ok resp) →
  sys_wf (mkSys a' (o1 ++ o2) ((pe_pair p, resp) :: d)).
Proof.
  intros [Hwf (Hc & n & Er & Hn & Hp)]%open_drop H. apply Hc in H as (Ek & Hone & Hids).
  apply length_filter_1 in Hone as (row & _ & Hrow & Hpend). apply pending_record_processing in Hpend as Hproc.
  destruct Hproc as [Hproc Hdec]. rewrite Er, decode_encode in Hdec by done. injection Hdec as Hid.
  assert (Hpr : key_pair row = pe_pair p) by (by apply Hp).
  assert (Hs : sys_wf (mkSys a' (o1 ++ o2) d)).
  { eapply (map_update_sys_wf a _ (pending_record (pe_record p) a)); [apply with_result_identity| |done|exact Ek|done].
    intros x Hx. by apply pending_record_processing in Hx as [? _]. }
  destruct Hwf as [[K1 K2 K3] _ H3 H4], Hs as [S1 S2 S3 S4]. simpl in *. split; simpl; [done|done| |].
  - constructor; [|done]. exists (with_result key_succeeded (cp_status resp) (cp_body resp) row). simpl.
    split; [|done]. rewrite Ek. apply list_elem_of_fmap. exists row. by rewrite Hpend.
  - apply NoDup_cons. split; [|done]. intros Hin. apply list_elem_of_fmap in Hin as (x & Ex & Hx).
    rewrite Forall_forall in H3. destruct (H3 x Hx) as (row' & Hrow' & Hpair & Hst & _).
    assert (row' = row) as -> by (apply (NoDup_map_inj key_pair (a_keys a)); congruence). congruence.
Qed.

Lemma sys_step_wf s s' : sys_wf s → sys_step s s' → sys_wf s'.
Proof.
  intros Hwf Hstep. destruct Hstep as [a a' o d Ek Hids|req a a' r o d H Hr|req a a' rid tx cid o d H Hc|a a' p o1 o2 d resp He H
    |a a' p o1 o2 d e He H|a w r p o1 o2 d e He H|a p o1 o2 d].
  - by eapply same_sys_wf.
  - rewrite reserve_cases in H. destruct (head _) as [row|]; [|injection H as <- <-; by destruct (Hr (record_id (a_ids a)))].
    case_decide; [|injection H as <- _; eapply same_sys_wf; [done|done|simpl; lia]].
    destruct (ik_status row).
    + injection H as <- _. eapply (map_update_sys_wf a _ (reclaimable req (ik_id row) a)); [apply with_expiry_identity| |done|reflexivity|simpl; lia].
      intros x Hx. by apply reclaimable_processing in Hx as [? _].
    + destruct (stored_response row); injection H as <- _; [eapply same_sys_wf; [done|done|simpl; lia]|done].
    + destruct (stored_response row); injection H as <- _; [eapply same_sys_wf; [done|done|simpl; lia]|done].
  - by eapply reserved_sys_wf.
  - by eapply commit_sys_wf.
  - apply open_drop in Hwf as Hd. destruct Hd as [_ (Hc & Hn)]. apply Hc in H as ->. destruct Hwf as [H1 H2 H3 H4]. split; simpl in *; [done| |done..].
    apply Forall_app in H2 as [Ha [Hp Hb]%Forall_cons]. apply Forall_app. split; [done|]. constructor; [|done]. exact Hp.
  - apply open_drop in Hwf as [Hwf _]. by eapply settle_sys_wf.
  - by apply open_drop in Hwf as [Hwf _].
Qed.

Lemma sys_reach_wf s : sys_reach s → sys_wf s.
Proof.
  induction 1 as [a E|s s' _ IH Hstep]; [|by eapply sys_step_wf].
  split; simpl; [|constructor|constructor|constructor]. split; rewrite E; [constructor..|]. intros row Hr. by apply elem_of_nil in Hr.
Qed.

(** C6. Commands take effect once.  Whatever requests, expiries of reservations,
    failures and crashes are interleaved, at most one command commits for an
    endpoint and an idempotency key, also when a reservation was reclaimed from a
    request that is still running; and from then on the key answers a request with
    the same hash with that command's answer, and refuses another, without running
    anything. *)
Theorem commands_take_effect_once s : sys_reach s →
  NoDup (map fst (sy_done s)) ∧
  ∀ ep k resp, ((ep, k), resp) ∈ sy_done s → cp_body resp ≠ JNull →
    ∃ hash, ∀ req, rs_endpoint req = ep → rs_key req = k →
      atomically (reserve req) (sy_api s) =
        (use_api_id (sy_api s), Ok (if decide (rs_requestHash req = hash) then rv_replay resp else rv_blocked)).
Proof.
  intros [[K1 K2 K3] _ H3 H4]%sys_reach_wf. split; [done|]. intros ep k resp Hin Hbody.
  rewrite Forall_forall in H3. destruct (H3 _ Hin) as (row & Hrow & Hpair & Hst & Hcode & Hresp). simpl in *.
  exists (ik_request_hash row). intros req <- <-. rewrite reserve_cases.
  destruct (head (List.filter _ _)) as [row'|] eqn:E.
  - apply head_filter_Some in E as [Hrow' Hk%key_of_pair].
    assert (row' = row) as -> by (apply (NoDup_map_inj key_pair (a_keys (sy_api s))); congruence).
    unfold stored_response. rewrite Hst, Hcode, Hresp. destruct resp as [code body]. simpl in *.
    destruct (decide (ik_request_hash row = rs_requestHash req)); [rewrite decide_True by done|by rewrite decide_False].
    by destruct body.
  - exfalso. apply head_filter_existsb in E. rewrite <-not_true_iff_false, existsb_exists in E. apply E. exists row.
    split; [by apply list_elem_of_In|by apply key_of_pair].
Qed.

(** ** Commands that throw *)

Lemma filter_unique {A} (p : A → bool) l x : NoDup l → x ∈ l → p x = true → (∀ y, y ∈ l → p y = true → y = x) → List.filter p l = [x].
Proof.
  induction l as [|y l IH]; [by intros _ ?%elem_of_nil|]. rewrite NoDup_cons, elem_of_cons. intros [Hy Hl] Hx Hp Hu. simpl.
  destruct Hx as [->|Hx].
  - rewrite Hp. f_equal. apply filter_nil_existsb, not_true_iff_false. intros (z & Hz & Hpz)%existsb_exists.
    apply list_elem_of_In in Hz. destruct Hy. by rewrite <-(Hu z) by (done || by right).
  - destruct (p y) eqn:E; [rewrite (Hu y) in Hy by (done || by left); done|]. apply IH; try done. intros z Hz. apply Hu. by right.
Qed.

Lemma filter_none {A} (p : A → bool) l : (∀ y, y ∈ l → p y = false) → List.filter p l = [].
Proof.
  intros H. apply filter_nil_existsb, not_true_iff_false. intros (z & Hz & Hp)%existsb_exists. apply list_elem_of_In, H in Hz. congruence.
Qed.

Lemma keys_NoDup a : keys_wf a → NoDup (a_keys a).
Proof. intros [_ H _]. by apply NoDup_fmap_1 in H. Qed.

Lemma key_row_unique a row : keys_wf a → row ∈ a_keys a →
  List.filter (key_of (ik_endpoint row) (ik_key row)) (a_keys a) = [row].
Proof.
  intros Hwf Hin. apply filter_unique; [by apply keys_NoDup|done|by apply key_of_pair|].
  intros y Hy Hk%key_of_pair. destruct Hwf as [H _ _]. by eapply NoDup_map_inj.
Qed.

Lemma pending_row_unique a row : keys_wf a → row ∈ a_keys a → ik_status row = key_processing →
  List.filter (pending_record (encodeRecordId tenantId (ik_id row)) a) (a_keys a) = [row].
Proof.
  intros Hwf Hin Hs. apply filter_unique; [by apply keys_NoDup|done| |].
  - unfold ApiStore.pending_record. rewrite decode_encode by done. by rewrite !bool_decide_eq_true_2.
  - intros y Hy [_ Hd]%pending_record_processing. rewrite decode_encode in Hd by done. injection Hd as Hd.
    destruct Hwf as [_ H _]. by eapply NoDup_map_inj.
Qed.

Lemma reclaimable_length req a row : keys_wf a → row ∈ a_keys a → ik_status row = key_processing →
  ik_request_hash row = rs_requestHash req →
  length (List.filter (reclaimable req (ik_id row) a) (a_keys a)) = if (ik_expires_at row <=? api_now a)%Z then 1 else 0.
Proof.
  intros Hwf Hin Hs Hh. assert (Hu : ∀ y, y ∈ a_keys a → reclaimable req (ik_id row) a y = true → y = row).
  { intros y Hy [_ Hid]%reclaimable_processing. destruct Hwf as [_ H _]. by eapply NoDup_map_inj. }
  assert (Hr : reclaimable req (ik_id row) a row = (ik_expires_at row <=? api_now a)%Z).
  { unfold reclaimable. by rewrite !bool_decide_eq_true_2. }
  destruct (_ <=? _)%Z.
  - rewrite (filter_unique _ _ row); [done|by apply keys_NoDup|done..].
  - rewrite filter_none; [done|]. intros y Hy. destruct (reclaimable _ _ _ y) eqn:E; [|done]. apply Hu in E as E'; [|done]. subst y. congruence.
Qed.

(** The answer to the same request after its command threw [e]; [row] is the row of
    the key. *)
Definition retry_answer (row : IdempotencyRow) (cid : string) (e : ApiExn) (a : Api) : IdempotencyReservation :=
  let rid := encodeRecordId tenantId (ik_id row) in
  let waits := if (ik_expires_at row <=? api_now a)%Z then rv_reserved rid else rv_in_flight rid in
  match e with
  | AE_api code details =>
      if isReleasableVersionConflict code then rv_reserved (record_id (a_ids a))
      else if em_retryable (ERROR_CATALOG code) then waits
      else rv_replay (mkResponse (em_httpStatus (ERROR_CATALOG (ae_code (apiErrorBody code details cid))))
                        (apiErrorJson (apiErrorBody code details cid)))
  | _ => waits
  end.

Lemma waiting_answer req row a : keys_wf a → row ∈ a_keys a → ik_status row = key_processing →
  req_pair req = key_pair row → rs_requestHash req = ik_request_hash row →
  (atomically (reserve req) a).2 =
    Ok (if (ik_expires_at row <=? api_now a)%Z then rv_reserved (encodeRecordId tenantId (ik_id row))
        else rv_in_flight (encodeRecordId tenantId (ik_id row))).
Proof.
  intros Hwf Hin Hs [= He Hk] Hh. rewrite reserve_cases, He, Hk, (key_row_unique a row Hwf Hin). simpl.
  rewrite decide_True by done. rewrite Hs. simpl. rewrite reclaimable_length by done. by destruct (_ <=? _)%Z.
Qed.

End Keys.
