(* ===== verification/ApiEffects.v ===== *)
(** * The transactions of the commands

    Every command of [ApiRuns], [ApiCreate] and [ApiTasks] settles its record and
    touches no other key, so that the theorems of [ApiProps] hold of it.  A rule per
    construct of [Stmt] and a hint database carry the proofs. *)

From stdpp Require Import base strings list gmap pretty sets.
From Stdlib Require Import Ascii ZArith Lia.
From S2P Require Import Prelude StateMachine JsValue JsText Rbac Database Sweepers Leases ErrorCatalog ApiShared AuditLog ApiStore ApiRuns ApiCreate ApiTasks ApiProps.

(** ** Rules *)

(** Undisturbed, [m] keeps what others see; what it returns and does to its own
    tables satisfies [Q]. *)
Definition runs_to {A} (m : Stmt A) (Q : A → Api → Api → Prop) : Prop :=
  ∀ t t' r, tx_env t = [] → m t = (t', r) →
    tx_base t' = tx_base t ∧ tx_env t' = [] ∧ match r with Ok x => Q x (tx_mine t) (tx_mine t') | Err _ => True end.

(** The keys are not touched. *)
Definition kept (a b : Api) : Prop := a_keys b = a_keys a ∧ a_ids a ≤ a_ids b.
Definition keeps {A} (m : Stmt A) : Prop := runs_to m (λ _, kept).

Lemma kept_refl a : kept a a.
Proof. split; [done|lia]. Qed.
Lemma kept_trans a b c : kept a b → kept b c → kept a c.
Proof. intros [H1 H2] [H3 H4]. split; [congruence|lia]. Qed.

(** A postcondition that does not see a prefix that keeps the keys. *)
Definition absorbs {A} (Q : A → Api → Api → Prop) : Prop := ∀ x a b c, kept a b → Q x b c → Q x a c.

Lemma kept_absorbs {A} : absorbs (λ _ : A, kept).
Proof. intros x a b c. apply kept_trans. Qed.

Lemma runs_to_bind {A B} (m : Stmt A) (f : A → Stmt B) Q : keeps m → (∀ x, runs_to (f x) Q) → absorbs Q → runs_to (m ≫= f) Q.
Proof.
  intros Hm Hf HQ t t' r Ht. unfold mbind, Stmt_bind. destruct (m t) as [t1 [x|e]] eqn:E.
  - destruct (Hm _ _ _ Ht E) as (Hb & He & Hk). intros H. destruct (Hf x _ _ _ He H) as (Hb' & He' & Hq).
    split; [congruence|]. split; [done|]. destruct r; [|done]. by eapply HQ.
  - destruct (Hm _ _ _ Ht E) as (Hb & He & _). by intros [= <- <-].
Qed.

Lemma keeps_seq {A B} (m : Stmt A) (f : A → Stmt B) : keeps m → (∀ x, keeps (f x)) → keeps (m ≫= f).
Proof. intros Hm Hf. apply runs_to_bind; [done|done|apply kept_absorbs]. Qed.

Lemma runs_to_ret {A} (x : A) Q : (∀ a, Q x a a) → runs_to (mret x) Q.
Proof. intros HQ t t' r Ht [= <- <-]. auto. Qed.
Lemma keeps_ret {A} (x : A) : keeps (mret x).
Proof. apply runs_to_ret. intros a. apply kept_refl. Qed.
Lemma runs_to_throw {A} e Q : runs_to (A := A) (api_throw e) Q.
Proof. intros t t' r Ht [= <- <-]. auto. Qed.
Lemma runs_to_fail {A} code details Q : runs_to (A := A) (api_fail code details) Q.
Proof. apply runs_to_throw. Qed.
Lemma keeps_throw {A} e : keeps (A := A) (api_throw e).
Proof. apply runs_to_throw. Qed.
Lemma keeps_fail {A} code details : keeps (A := A) (api_fail code details).
Proof. apply runs_to_fail. Qed.
Lemma keeps_select {A} (f : Api → A) : keeps (api_select f).
Proof. intros t t' r Ht [= <- <-]. repeat split; try done. Qed.
Lemma keeps_update f : (∀ a, kept a (f a)) → keeps (api_update f).
Proof. intros Hf t t' r Ht [= <- <-]. simpl. auto. Qed.
Lemma keeps_tables {A} (m : LTx A) : keeps (on_tables m).
Proof.
  intros t t' r Ht. unfold on_tables. destruct (m _) as [[x s]|e]; intros [= <- <-]; simpl; [|done].
  repeat split; try done.
Qed.
Lemma keeps_rows {A} (m : Tx A) : keeps (on_rows m).
Proof. apply keeps_tables. Qed.
Lemma keeps_interleave : keeps interleave.
Proof. intros t t' r Ht. unfold interleave. rewrite Ht. intros [= <- <-]. repeat split; try done. Qed.
Lemma keeps_uuid uuid : keeps (fresh_uuid uuid).
Proof. intros t t' r Ht [= <- <-]. simpl. repeat split; try done. simpl. lia. Qed.

Create HintDb api.
#[export] Hint Resolve keeps_ret keeps_throw keeps_fail keeps_select keeps_tables keeps_rows keeps_interleave keeps_uuid
  runs_to_throw runs_to_fail kept_refl kept_absorbs : api.

(** Follows the structure of a statement. *)
Ltac keeps_step :=
  match goal with
  | |- keeps (_ ≫= _) => apply keeps_seq; [|intros ?]
  | |- keeps (api_update _) => apply keeps_update; intros ?
  | |- runs_to (_ ≫= _) _ => apply runs_to_bind; [|intros ?|]
  | |- keeps (if ?b then _ else _) => destruct b
  | |- keeps (match ?x with _ => _ end) => destruct x
  | |- runs_to (if ?b then _ else _) _ => destruct b
  | |- runs_to (match ?x with _ => _ end) _ => destruct x
  end.
Ltac keeps_solve := repeat (progress cbv zeta || solve [auto with api] || keeps_step || solve [split; simpl; [reflexivity|lia]]).

(** ** The queue and the helpers *)

Lemma keeps_runtime_job job : keeps (enqueueRuntimeJob job).
Proof. apply keeps_rows. Qed.
Lemma keeps_driving_job job runId p : keeps (enqueueDrivingJobWithPoolFlag job runId p).
Proof. unfold enqueueDrivingJobWithPoolFlag, loadRunPriority, enqueueRuntimeJob. keeps_solve. Qed.
Lemma keeps_run_resume runId c : keeps (enqueueRunResume runId c).
Proof. apply keeps_driving_job. Qed.
Lemma keeps_run_claim runId c p : keeps (enqueueRunClaim runId c p).
Proof. apply keeps_driving_job. Qed.
Lemma keeps_run_abort runId c : keeps (enqueueRunAbort runId c).
Proof. apply keeps_rows. Qed.
Lemma keeps_sink_deliver n s c : keeps (enqueueSinkDeliver n s c).
Proof. apply keeps_rows. Qed.
#[export] Hint Resolve keeps_runtime_job keeps_driving_job keeps_run_resume keeps_run_claim keeps_run_abort keeps_sink_deliver : api.

Section Commands.
Context (tenantId : string) (sha256 : string → string) (uuid : nat → string).
Notation completes := (completes tenantId).

(** ** Settling *)

Definition settles (rid : string) (resp : CommandResponse) (a b : Api) : Prop :=
  a_keys b = settled_keys tenantId rid resp a ∧ length (List.filter (pending_record tenantId rid a) (a_keys a)) = 1 ∧ a_ids a ≤ a_ids b.

Lemma settles_absorbs rid : absorbs (settles rid).
Proof.
  intros resp a b c [Ek Hi] (H1 & H2 & H3). unfold settles, settled_keys in *. rewrite Ek in *. split; [done|]. split; [done|lia].
Qed.

Lemma complete_settles rid resp : runs_to (completeIdempotencyInTx tenantId rid resp) (λ _, settles rid resp).
Proof.
  intros t t' r Ht. unfold completeIdempotencyInTx, update_keys, mbind, Stmt_bind. simpl.
  case_decide as E; intros [= <- <-]; simpl; repeat split; try done.
Qed.

(** After the record is settled only answers are given. *)
Lemma runs_to_settled {B} rid resp (f : unit → Stmt B) (Q : B → Api → Api → Prop) :
  (∀ a b, settles rid resp a b → ∀ t t' r, tx_env t = [] → tx_mine t = b → f tt t = (t', r) →
     tx_base t' = tx_base t ∧ tx_env t' = [] ∧ match r with Ok y => Q y a (tx_mine t') | Err _ => True end) →
  runs_to (completeIdempotencyInTx tenantId rid resp ≫= f) Q.
Proof.
  intros Hf t t' r Ht. unfold mbind, Stmt_bind. destruct (completeIdempotencyInTx tenantId rid resp t) as [t1 [[]|e]] eqn:E.
  - destruct (complete_settles rid resp _ _ _ Ht E) as (Hb & He & Hs). intros H.
    destruct (Hf _ _ Hs _ _ _ He eq_refl H) as (Hb' & He' & Hq). split; [congruence|done].
  - destruct (complete_settles rid resp _ _ _ Ht E) as (Hb & He & _). by intros [= <- <-].
Qed.

Lemma complete_then_ret rid resp : runs_to (completeIdempotencyInTx tenantId rid resp ≫= λ _, mret resp) (settles rid).
Proof. apply runs_to_settled. intros a b Hs t t' r Ht <- [= <- <-]. done. Qed.

Lemma completes_of rid tx : runs_to tx (settles rid) → completes rid tx.
Proof.
  intros H a a' res. unfold atomically, tenantTx. simpl. destruct (tx (mkTxn a a [])) as [t [resp|e]] eqn:E.
  - intros [= <- <-]. by destruct (H (mkTxn a a []) _ _ eq_refl E) as (_ & _ & Hs).
  - intros [= <- <-]. by destruct (H (mkTxn a a []) _ _ eq_refl E) as (Hb & _).
Qed.

Lemma command_completes rid work : keeps work → completes rid (command_tx tenantId rid work).
Proof.
  intros Hw. apply completes_of. unfold command_tx. apply runs_to_bind; [done| |apply settles_absorbs].
  intros resp. apply complete_then_ret.
Qed.

(** ** Abort *)

Definition abort_post (rid : string) (r : option CommandResponse) (a b : Api) : Prop :=
  match r with Some resp => settles rid resp a b | None => kept a b end.

Lemma abort_post_absorbs rid : absorbs (abort_post rid).
Proof. intros [resp|] a b c H1 H2; simpl in *; [by eapply settles_absorbs|by eapply kept_trans]. Qed.

Lemma abort_finish_post rid resp : runs_to (abort_finish tenantId rid resp) (abort_post rid).
Proof. unfold abort_finish. apply runs_to_settled. intros a b Hs t t' r Ht <- [= <- <-]. done. Qed.

Lemma keeps_reject s : keeps (rejectIfNotAbortable s).
Proof. unfold rejectIfNotAbortable. keeps_solve. Qed.
Lemma keeps_expire_claimed runId w : keeps (expireClaimedAbortBrowserLease runId w).
Proof. unfold expireClaimedAbortBrowserLease. keeps_solve. Qed.
Lemma keeps_record_source runId s : keeps (record_abort_source runId s).
Proof. unfold record_abort_source. keeps_solve. Qed.

Hint Resolve abort_post_absorbs abort_finish_post keeps_reject keeps_expire_claimed keeps_record_source : api.

Lemma abort_attempt_post runId cid rid : runs_to (abort_attempt tenantId runId cid rid) (abort_post rid).
Proof.
  unfold abort_attempt. keeps_solve; apply runs_to_ret; intros a; apply kept_refl.
Qed.

Lemma abort_loop_settles n runId cid rid : runs_to (abort_loop tenantId n runId cid rid) (settles rid).
Proof.
  induction n as [|n IH]; [apply runs_to_fail|]. simpl.
  intros t t' r Ht. unfold mbind, Stmt_bind. destruct (abort_attempt tenantId runId cid rid t) as [t1 [[resp|]|e]] eqn:E;
    destruct (abort_attempt_post runId cid rid _ _ _ Ht E) as (Hb & He & Hq); simpl in Hq.
  - intros [= <- <-]. done.
  - intros H. destruct (IH _ _ _ He H) as (Hb' & He' & Hs). split; [congruence|]. split; [done|].
    destruct r; [|done]. by eapply settles_absorbs.
  - by intros [= <- <-].
Qed.

(** ** Resume and create *)

Section More.
Context (iso : Z → string) (localeCompare : string → string → comparison) (tracked : string → bool) (timestamptz : string → bool).

Lemma keeps_ledger i : keeps (insertRunResumeLedger uuid i).
Proof. unfold insertRunResumeLedger, jsonStringArray. keeps_solve. Qed.
Lemma keeps_governance q action outcome reason payload :
  keeps (governance_audit sha256 uuid iso localeCompare tracked q action outcome reason payload).
Proof. unfold governance_audit. keeps_solve. Qed.
Hint Resolve keeps_ledger keeps_governance settles_absorbs complete_then_ret : api.

Lemma resume_tx_settles q key runId rid reason :
  runs_to (resume_tx tenantId sha256 uuid iso localeCompare tracked q key runId rid reason) (settles rid).
Proof. unfold resume_tx, resume_finish, assertNoPendingResumeSideEffects. keeps_solve. Qed.

Lemma keeps_versions m versions : keeps (assert_versions_allowed tenantId m versions).
Proof.
  induction versions as [|v versions IH]; simpl; [auto with api|].
  unfold evaluateAiGovernanceRuntime, evaluateEvidenceRequirements, assertAiGovernanceRuntimeAllowed.
  apply keeps_seq; [|intros ?; apply keeps_seq; [|done]]; keeps_solve.
Qed.
Lemma keeps_insert_run i c m : keeps (insert_run timestamptz i c m).
Proof. unfold insert_run. keeps_solve. Qed.
Hint Resolve keeps_versions keeps_insert_run : api.

Lemma keeps_create i : keeps (createRunInTx tenantId uuid timestamptz i).
Proof. unfold createRunInTx, resolve_model, check_workitem. keeps_solve. Qed.
Hint Resolve keeps_create : api.

Lemma create_tx_settles rid i : runs_to (create_tx tenantId uuid timestamptz rid i) (settles rid).
Proof. unfold create_tx. keeps_solve. Qed.

(** ** Tasks and dead letters *)

Lemma keeps_update_task id f columns : keeps (update_task id f columns).
Proof. unfold update_task. keeps_solve. Qed.
Lemma keeps_task_transition ctx s : keeps (task_transition ctx s).
Proof.
  intros t t' r Ht. unfold task_transition. destruct (on_rows _ t) as [t1 [x|e]] eqn:E;
    destruct (keeps_rows _ _ _ _ Ht E) as (Hb & He & Hk).
  - by intros [= <- <-].
  - destruct e as [| [] |]; by intros [= <- <-].
Qed.
Lemma keeps_coupled runId id c coupling e : keeps (applyCoupledRunTransition runId id c coupling e).
Proof. unfold applyCoupledRunTransition, assertRunCouplingPendingHandled. keeps_solve. Qed.
Hint Resolve keeps_update_task keeps_task_transition keeps_coupled : api.

Lemma keeps_task_effects id cid cmd runId pending : keeps (task_effects iso id cid cmd runId pending).
Proof.
  unfold task_effects, assertHumanTaskPendingHandled, storeHumanTaskResolution, storeHumanTaskEscalation, readHumanTaskResponse.
  keeps_solve.
Qed.
Hint Resolve keeps_task_effects : api.

Lemma keeps_task_command n id cid cmd : keeps (task_loop iso n id cid cmd).
Proof.
  induction n as [|n IH]; simpl; [auto with api|]. apply keeps_seq; [unfold task_attempt; keeps_solve|].
  intros [resp|]; [auto with api|done].
Qed.

Lemma keeps_replay ids n id cid : keeps (replay_loop ids n id cid).
Proof.
  induction n as [|n IH]; simpl; [auto with api|].
  apply keeps_seq; [unfold replay_attempt; keeps_solve; simpl; by destruct (a_replayed _ !! _)|].
  intros [resp|]; [auto with api|done].
Qed.

Lemma keeps_sink_replay id cid : keeps (applySinkDeadLetterReplay id cid).
Proof. unfold applySinkDeadLetterReplay. keeps_solve. Qed.

(** C32. Each command of the API is one transaction that either settles its own
    idempotency record with the answer it gives, together with its other writes, or
    leaves the tables as they were: abort, resume, creation of a run, the four
    commands on human tasks and both replays of dead letters. *)
Theorem command_transactions_complete rid :
  (∀ runId cid, completes rid (applyAbort tenantId runId cid rid)) ∧
  (∀ q key runId reason, completes rid (resume_tx tenantId sha256 uuid iso localeCompare tracked q key runId rid reason)) ∧
  (∀ i, completes rid (create_tx tenantId uuid timestamptz rid i)) ∧
  (∀ id cid cmd, completes rid (command_tx tenantId rid (applyHumanTaskCommand iso id cid cmd))) ∧
  (∀ ids id cid, completes rid (command_tx tenantId rid (applyDeadLetterReplay ids id cid))) ∧
  (∀ id cid, completes rid (command_tx tenantId rid (applySinkDeadLetterReplay id cid))).
Proof.
  split; [|split; [|split; [|split; [|split]]]]; intros.
  - apply completes_of, abort_loop_settles.
  - apply completes_of, resume_tx_settles.
  - apply completes_of, create_tx_settles.
  - apply command_completes, keeps_task_command.
  - apply command_completes, keeps_replay.
  - apply command_completes, keeps_sink_replay.
Qed.
End More.
End Commands.
