(* ===== verification/ApiCommands.v ===== *)
(** * An accepted abort takes hold

    An accepted abort holds against every race ([accepted_abort_takes_hold]), with
    the inversion and execution lemmas of [Stmt] the other proofs about commands
    use. *)

From stdpp Require Import base strings list gmap pretty sets.
From Stdlib Require Import Ascii ZArith Lia.
From S2P Require Import Prelude StateMachine JsValue JsText Rbac Database Sweepers Leases ErrorCatalog ApiShared AuditLog ApiStore ApiRuns ApiCreate ApiTasks ApiProps ApiEffects.

(** ** Statements that returned *)

Ltac stmt_inv H :=
  let x := fresh "x" in let t := fresh "t" in let Hx := fresh "Hx" in
  apply Stmt_bind_Ok in H as (x & t & Hx & H).

Lemma select_Ok {A} (f : Api → A) t t' x : api_select f t = (t', Ok x) → t' = t ∧ x = f (tx_mine t).
Proof. by intros [= <- <-]. Qed.
Lemma update_Ok f t t' x : api_update f t = (t', Ok x) → tx_mine t' = f (tx_mine t).
Proof. by intros [= <- <-]. Qed.
Lemma rows_Ok {A} (m : Tx A) t t' x : on_rows m t = (t', Ok x) →
  ∃ d, m (a_db (tx_mine t)) = Ok (x, d) ∧ tx_mine t' = set_tables (a_leases (tx_mine t), d) (tx_mine t).
Proof.
  unfold on_rows, on_tables, on_db. simpl. destruct (m _) as [[y d]|e]; [|done]. intros [= <- <-]. eauto.
Qed.
Lemma tables_update_Ok f t t' x : on_tables (l_update f) t = (t', Ok x) →
  tx_mine t' = set_tables (f (api_now (tx_mine t)) (a_leases (tx_mine t)), a_db (tx_mine t)) (tx_mine t).
Proof. by intros [= <- <-]. Qed.
Lemma ret_Ok {A} (x y : A) t t' : (mret x : Stmt A) t = (t', Ok y) → t' = t ∧ y = x.
Proof. by intros [= <- <-]. Qed.
Lemma job_Ok job t t' x : enqueueRuntimeJob job t = (t', Ok x) →
  tx_mine t' = set_tables (a_leases (tx_mine t), push_job job (a_db (tx_mine t))) (tx_mine t).
Proof. intros (d & E & Hm)%rows_Ok. injection E as _ <-. exact Hm. Qed.
Lemma complete_Ok tid rid resp t t' x : completeIdempotencyInTx tid rid resp t = (t', Ok x) →
  ∃ keys, tx_mine t' = set_keys keys (tx_mine t).
Proof.
  unfold completeIdempotencyInTx. intros H. stmt_inv H. injection Hx as <- _. case_decide; [|done].
  apply ret_Ok in H as [-> _]. eexists. reflexivity.
Qed.

(** ** Abort *)

(** The run is cancelled and announced, or aborting with its job queued. *)
Definition abort_held (runId : string) (resp : CommandResponse) (a : Api) : Prop :=
  ∃ row, run_of runId a = Some row ∧ resp = accepted runId (r_status row) ∧
    ((r_status row = run_cancelled ∧ r_ended_at row = Some (api_now a) ∧
      ∃ e, e ∈ events_outbox (a_db a) ∧ o_eventType e = run_cancelled_e ∧ o_runId e = Some runId) ∨
     (r_status row = run_aborting ∧ (∃ c, job_run_abort runId c ∈ jobs (a_db a)) ∧
      isAbortSourceStatus (columns_of runId a ≫= rc_abort_source_status) = true)).

Section Abort.
Context (tenantId runId : string).

Lemma finish_held rid resp t t' r : abort_finish tenantId rid resp t = (t', Ok r) → abort_held runId resp (tx_mine t) →
  r = Some resp ∧ abort_held runId resp (tx_mine t').
Proof.
  unfold abort_finish. intros H Hh. stmt_inv H. apply complete_Ok in Hx as [keys E]. apply ret_Ok in H as [-> ->].
  split; [done|]. rewrite E. exact Hh.
Qed.

(** The branch of a run that has not started. *)
Lemma cancel_held rid status workerId correlationId t t' r :
  (_ ← interleave;
   cancelled ← on_rows (cancel_run runId status);
   if negb cancelled then mret None else
   _ ← (if decide (status = run_claimed) then expireClaimedAbortBrowserLease runId workerId else mret tt);
   _ ← on_rows (emitOutboxEvent (mkEmit run_cancelled_e correlationId (Some runId) None None None (runId +:+ ":run.cancelled") None));
   abort_finish tenantId rid (accepted runId run_cancelled)) t = (t', Ok r) →
  r = None ∨ r = Some (accepted runId run_cancelled) ∧ abort_held runId (accepted runId run_cancelled) (tx_mine t').
Proof.
  intros H. stmt_inv H. clear Hx. stmt_inv H. apply rows_Ok in Hx as (d & Hc & Et).
  destruct x0; simpl in H; [|apply ret_Ok in H as [_ ->]; by left]. right.
  unfold cancel_run in Hc. destruct (Database.runs _ !! runId) as [row|] eqn:Erow; [|done].
  destruct (decide (r_status row = status)); [|done]. injection Hc as <-.
  stmt_inv H.
  assert (Ed : a_db (tx_mine t2) = a_db (tx_mine t1)).
  { case_decide; [|by apply ret_Ok in Hx as [-> _]]. unfold expireClaimedAbortBrowserLease in Hx. destruct workerId; [|done].
    stmt_inv Hx. apply select_Ok in Hx0 as [-> ->]. stmt_inv Hx. apply tables_update_Ok in Hx0.
    destruct (length _) as [|[|]]; [done| |done]. apply ret_Ok in Hx as [-> _]. by rewrite Hx0. }
  stmt_inv H. apply rows_Ok in Hx0 as (d & He & Et4). apply emitOutboxEvent_Ok in He as He'. destruct He' as (-> & Hty & _).
  unfold emitOutboxEvent in He. destruct (negb _); [done|]. destruct (existsb _ _); [done|]. injection He as Hev _.
  eapply finish_held; [exact H|]. exists (cancelled_run (db_now (a_db (tx_mine t0))) row).
  unfold run_of, api_now. rewrite Et4. simpl. rewrite Ed, Et. simpl. split; [by rewrite lookup_insert_eq|]. split; [done|]. left.
  split; [done|]. split; [done|]. exists x1. split; [apply elem_of_app; right; by left|]. split; [done|]. by rewrite <-Hev.
Qed.

(** The transition of a started run. *)
Lemma abort_transition_held rid status correlationId t t' r :
  status ∉ [run_queued; run_claimed; run_suspending; run_completing; run_aborting; run_completed; run_cancelled; run_failed_business; run_failed_system] →
  (_ ← interleave;
   outcome ← on_rows (applyRunTransition (mkRunCtx runId status ev_abort_requested run_guard_empty correlationId None None None));
   match outcome with
   | CasConflict _ => mret None
   | Applied next _ pending =>
       if negb (isAbortDrainPending status pending)
       then api_fail CONTROL_PLANE_INTERNAL_ERROR
              [("reason", JStr "run_abort_pending_side_effects_unsupported"); ("pending", pendingSideEffectKinds pending)] else
       recorded ← record_abort_source runId status;
       if negb recorded then api_fail CONTROL_PLANE_INTERNAL_ERROR (error_reason "run_abort_source_record_failed") else
       _ ← enqueueRunAbort runId correlationId;
       abort_finish tenantId rid (accepted runId next)
   end) t = (t', Ok r) →
  r = None ∨ r = Some (accepted runId run_aborting) ∧ abort_held runId (accepted runId run_aborting) (tx_mine t').
Proof.
  intros Hst H. stmt_inv H. clear Hx. stmt_inv H. apply rows_Ok in Hx as (d & Ht & Et).
  apply applyRunTransition_Ok in Ht as [(obs & -> & ->)|(tr & row & es & Htr & Hrow & Hs & -> & _ & _ & Ed)].
  { apply ret_Ok in H as [_ ->]. by left. }
  right. simpl in Htr, Hrow, Ed.
  assert (Hnext : next tr = run_aborting).
  { destruct status; try (destruct Hst; set_solver); simpl in Htr; by injection Htr as <-. }
  destruct (isAbortDrainPending _ _); simpl in H; [|done]. stmt_inv H. unfold record_abort_source in Hx. stmt_inv Hx.
  apply select_Ok in Hx0 as [-> ->].
  destruct (run_of runId (tx_mine t1)) as [row'|] eqn:Er; simpl in Hx; [|apply ret_Ok in Hx as [_ ->]; done].
  destruct (columns_of runId (tx_mine t1)) as [c|] eqn:Ec; simpl in Hx; [|apply ret_Ok in Hx as [_ ->]; done].
  case_bool_decide as Hab; simpl in Hx; [|apply ret_Ok in Hx as [_ ->]; done].
  stmt_inv Hx. apply tables_update_Ok in Hx0. apply ret_Ok in Hx as [-> ->]. simpl in H.
  stmt_inv H. apply job_Ok in Hx. rewrite Hnext in H. eapply finish_held; [exact H|].
  exists row'. rewrite Hx, Hx0. simpl. split; [exact Er|]. rewrite Hab. split; [done|]. right. split; [done|]. split.
  - exists correlationId. apply elem_of_app. right. by left.
  - unfold columns_of in *. simpl. rewrite lookup_alter_eq, Ec. simpl.
    destruct status; try done; by destruct Hst; set_solver.
Qed.

Lemma reject_passed s t t' x : rejectIfNotAbortable s t = (t', Ok x) →
  t' = t ∧ ∃ status, s = Some status ∧ status ∉ RUN_TERMINAL_SET ∧ status ≠ run_completing ∧ status ≠ run_suspending.
Proof.
  unfold rejectIfNotAbortable. destruct s as [status|]; [|done]. case_decide as H1; [done|]. case_decide as H2; [done|].
  intros [-> _]%ret_Ok. split; [done|]. exists status. tauto.
Qed.

Lemma abort_attempt_held cid rid t t' r : abort_attempt tenantId runId cid rid t = (t', Ok r) →
  match r with Some resp => abort_held runId resp (tx_mine t') | None => True end.
Proof.
  unfold abort_attempt. intros H. stmt_inv H. apply select_Ok in Hx as [-> ->]. stmt_inv H. apply select_Ok in Hx as [-> ->].
  stmt_inv H. apply reject_passed in Hx as (-> & status & Es & Hnt & Hnc & Hns). cbv zeta in H.
  destruct (run_of runId (tx_mine t)) as [row|] eqn:Er; [|done]. simpl in Es. injection Es as Es.
  case_decide as Ea.
  - destruct (isAbortSourceStatus _) eqn:Esrc; simpl in H; [|done]. stmt_inv H. apply job_Ok in Hx.
    apply finish_held in H as [-> Hh]; [done|]. exists row. rewrite Hx. simpl. split; [exact Er|]. rewrite Ea. split; [done|]. right.
    split; [done|]. split; [|exact Esrc]. eexists. apply elem_of_app. right. by left.
  - case_decide as Eq.
    + apply cancel_held in H as [->|[-> Hh]]; [done|done].
    + apply abort_transition_held in H as [->|[-> Hh]]; [done|done|].
      subst status. intros Hin. unfold RUN_TERMINAL_SET in Hnt.
      repeat (apply elem_of_cons in Hin as [Hin|Hin]); try (by apply elem_of_nil in Hin); try tauto; destruct Hnt; rewrite Hin; set_solver.
Qed.
End Abort.

(** ** Statements that return *)

Lemma rows_run {A} (m : Tx A) t x d : m (a_db (tx_mine t)) = Ok (x, d) →
  on_rows m t = (mkTxn (tx_base t) (set_tables (a_leases (tx_mine t), d) (tx_mine t)) (tx_env t), Ok x).
Proof. unfold on_rows, on_tables, on_db. simpl. by intros ->. Qed.

Lemma bind_run {A B} (m : Stmt A) (f : A → Stmt B) t t1 x : m t = (t1, Ok x) → (m ≫= f) t = f x t1.
Proof. unfold mbind, Stmt_bind. by intros ->. Qed.

Definition one_pending (tenantId rid : string) (a : Api) : Prop := length (List.filter (pending_record tenantId rid a) (a_keys a)) = 1.

Lemma complete_run tid rid resp t : one_pending tid rid (tx_mine t) →
  completeIdempotencyInTx tid rid resp t =
    (mkTxn (tx_base t) (set_keys (settled_keys tid rid resp (tx_mine t)) (tx_mine t)) (tx_env t), Ok tt).
Proof. intros H. unfold completeIdempotencyInTx. erewrite bind_run by reflexivity. simpl. by rewrite decide_True. Qed.

Lemma undisturbed t : tx_env t = [] → interleave t = (t, Ok tt).
Proof. unfold interleave. by intros ->. Qed.

(** An abort the state machine allows. *)
Lemma abort_transition_run runId cid d row :
  Database.runs d !! runId = Some row → isAbortSourceStatus (Some (r_status row)) = true →
  ∃ row' pending, applyRunTransition (mkRunCtx runId (r_status row) ev_abort_requested run_guard_empty cid None None None) d =
    Ok (Applied run_aborting [] pending, set_runs (<[runId := row']> (Database.runs d)) d) ∧
    isAbortDrainPending (r_status row) pending = true ∧ r_status row' = run_aborting.
Proof.
  intros Hrow Hs. unfold applyRunTransition, mbind, Tx_bind, from_transition, select, update. cbn [rt_runId rt_fromStatus rt_event rt_guard].
  destruct (r_status row) eqn:Es; try done; cbn -[decide bool_decide isAbortDrainPending run_pending];
    rewrite ?bool_decide_eq_false_2 by done; cbn -[decide isAbortDrainPending run_pending]; rewrite Hrow, decide_True by done;
    do 2 eexists; (split; [reflexivity|]); split; reflexivity.
Qed.

Lemma abort_attempt_run tenantId runId cid rid a row c :
  run_of runId a = Some row → isAbortSourceStatus (Some (r_status row)) = true → columns_of runId a = Some c → one_pending tenantId rid a →
  ∃ a', abort_attempt tenantId runId cid rid (mkTxn a a []) = (mkTxn a a' [], Ok (Some (accepted runId run_aborting))).
Proof.
  intros Hrow Hs Hc Hp. unfold abort_attempt.
  destruct (abort_transition_run runId (default cid (rc_correlation_id <$> Some c)) _ row Hrow Hs) as (row' & pending & Ht & Hd & Hr').
  eexists. erewrite bind_run by reflexivity. erewrite bind_run by reflexivity. cbn [tx_mine]. rewrite Hrow, Hc.
  erewrite bind_run; [|cbn [fmap option_fmap option_map]; unfold rejectIfNotAbortable;
    rewrite decide_False, decide_False by (intros ?; destruct (r_status row); set_solver); reflexivity].
  cbv zeta. rewrite decide_False by (intros E; by rewrite E in Hs). rewrite decide_False by (intros [E|E]; by rewrite E in Hs).
  erewrite bind_run by (by apply undisturbed). erewrite bind_run; [|apply rows_run; exact Ht]. cbv beta iota.
  rewrite Hd. cbn [negb]. erewrite bind_run; [|unfold record_abort_source; erewrite bind_run by reflexivity; cbn [tx_mine];
    unfold run_of, columns_of in *; cbn [set_tables a_db a_leases set_runs runs fst snd]; rewrite lookup_insert_eq, Hc;
    rewrite bool_decide_eq_true_2 by done; erewrite bind_run by reflexivity; reflexivity].
  cbn [negb]. erewrite bind_run by reflexivity. unfold abort_finish. erewrite bind_run; [|apply complete_run; exact Hp]. reflexivity.
Qed.

Lemma abort_undisturbed tenantId runId cid rid a row c :
  run_of runId a = Some row → isAbortSourceStatus (Some (r_status row)) = true → columns_of runId a = Some c → one_pending tenantId rid a →
  ∃ a', atomically (applyAbort tenantId runId cid rid) a = (a', Ok (accepted runId run_aborting)).
Proof.
  intros H1 H2 H3 H4. destruct (abort_attempt_run tenantId runId cid rid a row c H1 H2 H3 H4) as [a' E]. exists a'.
  unfold atomically, tenantTx, applyAbort. cbn [abort_loop aw_env aw_api tail]. by rewrite (bind_run _ _ _ _ _ E).
Qed.

