(* ===== verification/ApiTaskProps.v ===== *)
(** * Human tasks and dead letters

    A resolved task wakes the run that waits for it ([resolved_task_resumes_run])
    and only its assignee can resolve it ([resolve_requires_assignee]); an
    operator escalates a task once ([second_escalation_fails]) and a dead letter may be
    replayed again ([replayed_letter_replays_again]).  Module [ApiSample] is a concrete tenant. *)

From stdpp Require Import base strings list gmap pretty sets.
From Stdlib Require Import Ascii ZArith Lia.
From S2P Require Import Prelude StateMachine JsValue Rbac JsText Database Sweepers Leases LeaseProps ErrorCatalog ApiShared AuditLog ApiStore ApiRuns ApiCreate ApiTasks ApiProps ApiEffects ApiCommands.

(** ** Transitions with one event *)

Lemma emitAll_one c r w a t ev d : starts_with "step." (EventEnvelopeType_str ev) = false → key_free (outbox_key a ev) d →
  ∃ e, emitAll c r w a t [ev] d = Ok ([e], add_outbox [e] d) ∧ o_eventType e = ev ∧ o_idempotencyKey e = outbox_key a ev.
Proof.
  intros Hs Hk. destruct (emitOutboxEvent_free ev c r w (outbox_key a ev) t d Hs Hk) as (e & He & Hty & Hkey). exists e.
  cbn [emitAll]. unfold mbind, Tx_bind. by rewrite He.
Qed.

Lemma emitAll_taken c r w a t ev evs d : starts_with "step." (EventEnvelopeType_str ev) = false →
  existsb (λ o, bool_decide (o_idempotencyKey o = outbox_key a ev)) (events_outbox d) = true →
  emitAll c r w a t (ev :: evs) d = Err (E_unique (outbox_key a ev)).
Proof.
  intros Hs Hk. cbn [emitAll]. unfold mbind, Tx_bind, emitOutboxEvent, validateStepReference. cbn [oe_eventType oe_stepId oe_attempt oe_idempotencyKey].
  rewrite Hs. cbn [negb]. by rewrite Hk.
Qed.

(** A transition of a task that is where the command read it. *)
Definition moved (ctx : HumanTaskTransitionContext) (t : TransitionResult HumanTaskState) (d : Db) : Db :=
  set_human_tasks (map (λ h, if human_task_hit ctx h then updated_human_task (db_now d) ctx t h else h) (human_tasks d)) d.

Lemma human_transition_run ctx t d : transitionHumanTask (hc_fromState ctx) (hc_event ctx) (hc_guard ctx) = Ok t →
  hasSetField e_human_task "assignee" (sideEffects t) && bool_decide (hc_assignee ctx = None) = false →
  existsb (human_task_hit ctx) (human_tasks d) = true →
  applyHumanTaskTransition ctx d =
    (emitted ← emitAll (hc_correlationId ctx) (Some (hc_runId ctx)) None (default (hc_humanTaskId ctx) (hc_eventIdempotencyKey ctx))
       (hc_occurredAt ctx) (emitted_events (sideEffects t));
     mret (Applied (next t) emitted (entity_pending (sideEffects t)))) (moved ctx t d).
Proof.
  intros Ht Ha Hh. unfold applyHumanTaskTransition. rewrite Ht. cbn [from_transition]. unfold mbind at 1, Tx_bind at 1. cbn.
  rewrite Ha. unfold mbind at 1, Tx_bind at 1, select at 1. rewrite Hh. reflexivity.
Qed.

Lemma resume_transition_run runId cid anchor d row :
  Database.runs d !! runId = Some row → r_status row = run_suspended → key_free (outbox_key anchor run_resume_requested_e) d →
  ∃ e row', applyRunTransition (mkRunCtx runId run_suspended ev_human_task_resolved guard_human_task_valid cid None (Some anchor) None) d =
         Ok (Applied run_resume_requested [e] [], add_outbox [e] (set_runs (<[runId := row']> (Database.runs d)) d)) ∧
       r_status row' = run_resume_requested ∧ o_eventType e = run_resume_requested_e.
Proof.
  intros Hrow Hs Hk. unfold applyRunTransition, mbind, Tx_bind, from_transition, select, update.
  cbn -[decide bool_decide emitAll outbox_key run_pending emitted_events].
  rewrite ?bool_decide_eq_false_2 by done. cbn -[decide emitAll outbox_key run_pending emitted_events]. rewrite Hrow, decide_True by done.
  match goal with |- context [emitAll ?c ?r ?w ?a ?t ?evs ?x] => destruct (emitAll_one c r w a t run_resume_requested_e x) as (e & He & Hty & Hkey) end;
    [done|exact Hk|].
  change (emitted_events _) with [run_resume_requested_e]. rewrite He. do 2 eexists. split; [reflexivity|]. done.
Qed.

(** ** The rows of a task *)

Definition rows_of (id : string) (d : Db) : list HumanTaskRow := List.filter (λ h, bool_decide (h_id h = id)) (human_tasks d).

Lemma filter_map_id id (g : HumanTaskRow → HumanTaskRow) l : (∀ h, h_id (g h) = h_id h) →
  List.filter (λ h, bool_decide (h_id h = id)) (map g l) = map g (List.filter (λ h, bool_decide (h_id h = id)) l).
Proof. intros Hg. induction l as [|h l IH]; simpl; [done|]. rewrite Hg, IH. by destruct (bool_decide _). Qed.

Lemma rows_moved ctx t d h : rows_of (hc_humanTaskId ctx) d = [h] → h_state h = hc_fromState ctx →
  existsb (human_task_hit ctx) (human_tasks d) = true ∧
  rows_of (hc_humanTaskId ctx) (moved ctx t d) = [updated_human_task (db_now d) ctx t h].
Proof.
  intros Hr Hs. assert (Hin : In h (rows_of (hc_humanTaskId ctx) d)) by (rewrite Hr; by left).
  apply filter_In in Hin as [Hin Hid]. assert (Hh : human_task_hit ctx h = true).
  { unfold human_task_hit. by rewrite Hid, bool_decide_eq_true_2. }
  split; [apply existsb_exists; eauto|]. unfold rows_of, moved. cbn [human_tasks set_human_tasks].
  rewrite filter_map_id by (intros x; by destruct (human_task_hit ctx x)).
  unfold rows_of in Hr. rewrite Hr. cbn [map]. by rewrite Hh.
Qed.

Lemma stored_run id f columns t h : rows_of id (a_db (tx_mine t)) = [h] → (∀ h, h_id (f h) = h_id h) →
  ∃ a', update_task id f columns t = (mkTxn (tx_base t) a' (tx_env t), Ok tt) ∧ rows_of id (a_db a') = [f h] ∧
    a_tasks a' !! id = Some (columns (api_now (tx_mine t)) (default no_task_columns (a_tasks (tx_mine t) !! id))) ∧
    ∃ ts, a' = set_tasks (a_tasks a') (set_tables (a_leases (tx_mine t), set_human_tasks ts (a_db (tx_mine t))) (tx_mine t)).
Proof.
  intros Hr Hf. unfold update_task. eexists. erewrite bind_run by reflexivity. erewrite bind_run by reflexivity.
  unfold rows_of in Hr. rewrite Hr. cbn [length]. rewrite decide_True by done. split; [reflexivity|]. split; [|split].
  - unfold rows_of. cbn. rewrite filter_map_id by (intros x; by case_decide). rewrite Hr. cbn.
    assert (Hin : In h (List.filter (λ h, bool_decide (h_id h = id)) (human_tasks (a_db (tx_mine t))))) by (rewrite Hr; by left).
    apply filter_In in Hin as [_ Hid%bool_decide_eq_true]. by rewrite decide_True.
  - cbn. by rewrite lookup_insert_eq.
  - eexists. cbn. reflexivity.
Qed.

(** ** Waking the run *)

Definition pool_ok (a : Api) : Prop := match pool_assignment (a_catalog a) with Some p => po_status p = pool_active | None => True end.

Lemma resume_job_run runId c t : pool_ok (tx_mine t) →
  ∃ q p, enqueueRunResume runId c t =
    (mkTxn (tx_base t) (set_tables (a_leases (tx_mine t), push_job (job_routed (job_run_resume runId c) q p) (a_db (tx_mine t))) (tx_mine t))
       (tx_env t), Ok tt).
Proof.
  unfold pool_ok. intros Hp. unfold enqueueRunResume, enqueueDrivingJobWithPoolFlag.
  erewrite bind_run by reflexivity. erewrite bind_run by reflexivity. cbv zeta.
  destruct (pool_assignment _) as [p|]; [rewrite decide_True by done|]; do 2 eexists; by apply rows_run.
Qed.

Lemma coupled_run runId id fb t row : run_of runId (tx_mine t) = Some row → r_status row = run_suspended →
  key_free (outbox_key (runId +:+ ":" +:+ id) run_resume_requested_e) (a_db (tx_mine t)) → pool_ok (tx_mine t) →
  ∃ e row' c q p,
    applyCoupledRunTransition runId id fb (mkCoupling ev_human_task_resolved guard_human_task_valid) true t =
      (mkTxn (tx_base t) (set_tables (a_leases (tx_mine t),
         push_job (job_routed (job_run_resume runId c) q p) (add_outbox [e] (set_runs (<[runId := row']> (Database.runs (a_db (tx_mine t))))
           (a_db (tx_mine t))))) (tx_mine t)) (tx_env t), Ok tt) ∧
    r_status row' = run_resume_requested ∧ o_eventType e = run_resume_requested_e.
Proof.
  intros Hrow Hs Hk Hp. unfold applyCoupledRunTransition.
  destruct (resume_transition_run runId (default fb (rc_correlation_id <$> columns_of runId (tx_mine t))) (runId +:+ ":" +:+ id)
    (a_db (tx_mine t)) row Hrow Hs Hk) as (e & row' & Ht & Hr' & He).
  match type of Ht with _ = Ok (_, ?d) => destruct (resume_job_run runId (default fb (rc_correlation_id <$> columns_of runId (tx_mine t)))
    (mkTxn (tx_base t) (set_tables (a_leases (tx_mine t), d) (tx_mine t)) (tx_env t)) Hp) as (q & p & Hj) end.
  exists e, row'. do 3 eexists. split; [|done].
  erewrite bind_run by reflexivity. erewrite bind_run by reflexivity. rewrite Hrow, bool_decide_eq_true_2 by done. cbn [negb]. cbv zeta.
  erewrite bind_run; [|apply rows_run; exact Ht]. cbv beta iota. erewrite bind_run by reflexivity.
  cbn [co_event]. rewrite decide_True by done. cbn [negb]. exact Hj.
Qed.

(** ** Resolving a task *)

Definition result_json (r : option HumanTaskResolution) : json := match r with Some r => resolution_json r | None => JNull end.

(** A task in progress whose run waits for it. *)
Record awaited (id : string) (h : HumanTaskRow) (a : Api) : Prop := {
  aw_rows : rows_of id (a_db a) = [h];
  aw_state : h_state h = ht_in_progress;
  aw_run : ∃ row, run_of (h_run_id h) a = Some row ∧ r_status row = run_suspended;
  aw_task_key : key_free (outbox_key id human_task_resolved_e) (a_db a);
  aw_run_key : key_free (outbox_key (h_run_id h +:+ ":" +:+ id) run_resume_requested_e) (a_db a);
  aw_pool : pool_ok a
}.

(** The task is settled and its run is on its way. *)
Record resumed (id : string) (h : HumanTaskRow) (r : option HumanTaskResolution) (by_ : string) (a a' : Api) : Prop := {
  re_task : ∃ h', task_of id a' = Some h' ∧ h_state h' = ht_resolved ∧ h_result h' = result_json r ∧
                  h_resolved_at h' = Some (api_now a) ∧ h_run_id h' = h_run_id h;
  re_by : tc_resolved_by <$> a_tasks a' !! id = Some (Some by_);
  re_run : r_status <$> run_of (h_run_id h) a' = Some run_resume_requested;
  re_job : ∃ c q p, jobs (a_db a') = jobs (a_db a) ++ [job_routed (job_run_resume (h_run_id h) c) q p];
  re_events : ∃ e1 e2, events_outbox (a_db a') = events_outbox (a_db a) ++ [e1; e2] ∧
                o_eventType e1 = human_task_resolved_e ∧ o_eventType e2 = run_resume_requested_e;
  re_others : ∀ r, r ≠ h_run_id h → run_of r a' = run_of r a
}.

Section Resolve.
Context (iso : Z → string) (id cid : string) (r : option HumanTaskResolution) (by_ : string).
Notation cmd := (resolve_command r by_).

Lemma task_of_rows a h : rows_of id (a_db a) = [h] → task_of id a = Some h.
Proof. unfold task_of, rows_of. by intros ->. Qed.

Definition resolve_ctx (h : HumanTaskRow) : HumanTaskTransitionContext :=
  mkHumanCtx id (h_run_id h) ht_in_progress hev_resolve human_task_guard_empty cid None None None.

Lemma resolve_transition_run h d : rows_of id d = [h] → h_state h = ht_in_progress → key_free (outbox_key id human_task_resolved_e) d →
  let tr := mkTransition ht_resolved [emitEvent human_task_resolved_e] in
  ∃ e, applyHumanTaskTransition (resolve_ctx h) d = Ok (Applied ht_resolved [e] [], add_outbox [e] (moved (resolve_ctx h) tr d)) ∧
       o_eventType e = human_task_resolved_e ∧ o_idempotencyKey e = outbox_key id human_task_resolved_e ∧
       rows_of id (moved (resolve_ctx h) tr d) = [updated_human_task (db_now d) (resolve_ctx h) tr h].
Proof.
  intros Hr Hs Hk tr. destruct (rows_moved (resolve_ctx h) tr d h Hr Hs) as [Hhit Hrows].
  destruct (emitAll_one cid (Some (h_run_id h)) None id None human_task_resolved_e (moved (resolve_ctx h) tr d)) as (e & He & Hty & Hkey);
    [done|exact Hk|].
  exists e. rewrite (human_transition_run (resolve_ctx h) tr d); [|done|reflexivity|done]. split; [|done].
  unfold mbind, Tx_bind. change (emitted_events _) with [human_task_resolved_e]. cbn [resolve_ctx hc_correlationId hc_runId hc_humanTaskId hc_eventIdempotencyKey hc_occurredAt default]. by rewrite He.
Qed.

Lemma read_run t h : rows_of id (a_db (tx_mine t)) = [h] → ∃ body, readHumanTaskResponse iso id t = (t, Ok body).
Proof.
  intros Hr. unfold readHumanTaskResponse. eexists. erewrite bind_run by reflexivity. erewrite bind_run by reflexivity.
  rewrite (task_of_rows _ _ Hr). reflexivity.
Qed.

(** What follows the transition of the task. *)
Lemma resolve_effects_run h row t h1 : rows_of id (a_db (tx_mine t)) = [h1] →
  run_of (h_run_id h) (tx_mine t) = Some row → r_status row = run_suspended →
  key_free (outbox_key (h_run_id h +:+ ":" +:+ id) run_resume_requested_e) (a_db (tx_mine t)) → pool_ok (tx_mine t) →
  ∃ a' body, task_effects iso id cid cmd (h_run_id h) [] t = (mkTxn (tx_base t) a' (tx_env t), Ok (mkResponse 200 body)) ∧
    a_keys a' = a_keys (tx_mine t) ∧ rows_of id (a_db a') = [with_task_result (result_json r) h1] ∧
    tc_resolved_by <$> a_tasks a' !! id = Some (Some by_) ∧
    (∃ row', Database.runs (a_db a') = <[h_run_id h := row']> (Database.runs (a_db (tx_mine t))) ∧ r_status row' = run_resume_requested) ∧
    (∃ c q p, jobs (a_db a') = jobs (a_db (tx_mine t)) ++ [job_routed (job_run_resume (h_run_id h) c) q p]) ∧
    (∃ e, events_outbox (a_db a') = events_outbox (a_db (tx_mine t)) ++ [e] ∧ o_eventType e = run_resume_requested_e).
Proof.
  intros Hr Hrow Hsus Hk Hp.
  destruct (stored_run id (with_task_result (result_json r))
    (λ _ c, mkTaskColumns (Some by_) (tc_escalation_reason c) (tc_escalated_by c) (tc_escalated_at c)) t _ Hr ltac:(done))
    as (a2 & Hst & Hrows2 & Hcol & ts & Ea2).
  destruct (coupled_run (h_run_id h) id cid (mkTxn (tx_base t) a2 (tx_env t)) row) as (e2 & row' & c & q & p & Hc & Hr' & Hty2);
    [rewrite Ea2; exact Hrow|done|rewrite Ea2; exact Hk|rewrite Ea2; exact Hp|].
  match type of Hc with _ = (?t', _) => destruct (read_run t' _ Hrows2) as [body Hbody]; exists (tx_mine t'), body end. split; [|split; [|split; [exact Hrows2|split; [|split; [|split]]]]].
  - unfold task_effects. erewrite bind_run by reflexivity. cbn [tk_event resolve_command]. 
    destruct (decide (hev_resolve = hev_resolve)); [|done]. destruct (decide (hev_resolve = hev_escalate)); [done|].
    erewrite bind_run by exact Hst. erewrite bind_run by reflexivity. cbn [tk_runCoupling tk_enqueuer].
    erewrite bind_run by exact Hc. erewrite bind_run by exact Hbody. reflexivity.
  - cbn. by rewrite Ea2.
  - cbn. by rewrite Hcol.
  - exists row'. cbn. by rewrite Ea2.
  - exists c, q, p. cbn. by rewrite Ea2.
  - exists e2. cbn. by rewrite Ea2.
Qed.

Lemma resolve_work_run h a : awaited id h a → ∃ a' body,
  applyHumanTaskCommand iso id cid cmd (mkTxn a a []) = (mkTxn a a' [], Ok (mkResponse 200 body)) ∧
  a_keys a' = a_keys a ∧ resumed id h r by_ a a'.
Proof.
  intros [Hr Hs (row & Hrow & Hsus) Hk1 Hk2 Hp].
  destruct (resolve_transition_run h (a_db a) Hr Hs Hk1) as (e & Ht & Hty & Hkey & Hrows).
  match type of Ht with _ = Ok (_, ?d) => destruct (resolve_effects_run h row (mkTxn a (set_tables (a_leases a, d) a) []) _ Hrows Hrow Hsus)
    as (a' & body & He & Hkeys & Hrows' & Hby & (row' & Hruns & Hst) & (c & q & p & Hj) & (e2 & Hev & Hty2)) end.
  { apply key_free_add; [exact Hk2|]. intros o Ho%list_elem_of_singleton Ek. subst o. rewrite Hkey in Ek. by apply outbox_key_inj in Ek. }
  { exact Hp. }
  exists a', body. split; [|split; [exact Hkeys|]].
  - unfold applyHumanTaskCommand. cbn [task_loop]. erewrite (bind_run _ _ _ (mkTxn a a' []) (Some (mkResponse 200 body))); [reflexivity|]. unfold task_attempt.
    erewrite bind_run by reflexivity. cbn [tx_mine]. rewrite (task_of_rows a h Hr), Hs.
    rewrite bool_decide_eq_false_2 by (unfold HUMANTASK_TERMINAL; set_solver). erewrite bind_run by (by apply undisturbed).
    erewrite bind_run; [|unfold task_transition; erewrite (rows_run _ (mkTxn a a [])) by exact Ht; reflexivity].
    cbv beta iota. erewrite bind_run by exact He. reflexivity.
  - cbn in Hj, Hev, Hruns. split.
    + eexists. split; [by apply task_of_rows|]. done.
    + done.
    + unfold run_of. rewrite Hruns, lookup_insert_eq. simpl. by rewrite Hst.
    + by exists c, q, p.
    + exists e, e2. by rewrite Hev, <-app_assoc.
    + intros r' Hne. unfold run_of. rewrite Hruns. by rewrite lookup_insert_ne.
Qed.

End Resolve.

(** ** Who may resolve *)

(** The tables the first transaction of a handler sees. *)
Definition first_view (w : ApiWorld) : Api := match aw_env w with [] => aw_api w | f :: _ => f (aw_api w) end.

Lemma Act_bind_Ok {A B} (m : Act A) (f : A → Act B) w w' b :
  (m ≫= f) w = (w', Ok b) ↔ ∃ a w1, m w = (w1, Ok a) ∧ f a w1 = (w', Ok b).
Proof. unfold mbind, Act_bind. destruct (m w) as [w1 [a|e]]; naive_solver. Qed.

Lemma resolve_action_guarded k : isHumanTaskResolveAction (RESOLVE_ACTION k) = true.
Proof. by destruct k. Qed.

Lemma authorize_resolve p k tid s : authorize p (mkCheck (RESOLVE_ACTION k) tid (Some s)) = allow →
  sc_assigneeId s = Some (pn_subjectId p) ∧ (∃ role, sc_assigneeRole s = Some role ∧ role ∈ pn_roles p) ∧
  ∃ role, role ∈ pn_roles p ∧ roleAllowsAction role (RESOLVE_ACTION k) = true.
Proof.
  unfold authorize, scope_decision. cbn [ck_action ck_tenantId ck_humanTask]. rewrite resolve_action_guarded.
  destruct (negb (bool_decide (pn_tenantId p = tid))); [done|]. destruct (existsb _ _) eqn:E; [|done]. cbn [negb].
  destruct (sc_assigneeId s) as [who|]; [|done]. case_bool_decide as Hw; [|done]. cbn [negb].
  destruct (sc_assigneeRole s) as [role|]; [|done]. case_bool_decide as Hr; [|done]. intros _.
  split; [by rewrite Hw|]. split; [eauto|]. apply existsb_exists in E as (x & Hx%list_elem_of_In & Ha). eauto.
Qed.

Lemma requireTaskId_Ok id id' w w' : requireTaskId id w = (w', Ok id') → w' = w ∧ id' = id ∧ UUID_RE id = true.
Proof. unfold requireTaskId. destruct (UUID_RE id); [|done]. by intros [= <- <-]. Qed.

(** Parsing a request reads no table. *)
Definition pure_act {A} (m : Act A) : Prop := ∀ w w' x, m w = (w', Ok x) → w' = w.
Lemma pure_bind {A B} (m : Act A) (f : A → Act B) : pure_act m → (∀ x, pure_act (f x)) → pure_act (m ≫= f).
Proof. intros Hm Hf w w' b (a & w1 & H1 & H2)%Act_bind_Ok. apply Hm in H1 as ->. by eapply Hf. Qed.
Lemma pure_ret {A} (x : A) : pure_act (mret x).
Proof. by intros w w' y [= <- _]. Qed.
Lemma pure_fail {A} code details : pure_act (A := A) (p_fail code details).
Proof. by intros w w' x. Qed.
#[export] Hint Resolve pure_ret pure_fail : api.
Ltac pure_solve := repeat first [solve [auto with api] | apply pure_bind; [|intros ?] | match goal with
  | |- pure_act (if ?b then _ else _) => destruct b
  | |- pure_act (match ?x with _ => _ end) => destruct x end].

Lemma pure_resolve_body body : pure_act (requireResolveBody body).
Proof. unfold requireResolveBody, requireResolutionResult, optional_text. pure_solve. Qed.

(** Only its assignee resolves a task.  Whatever the rest of the request and
    whatever others commit, when a resolution is answered the task existed as the
    handler read it, its assignee was the caller, the caller has the role it was
    assigned to, and one of the caller's roles allows resolving tasks of its kind. *)
Theorem resolve_requires_assignee tenantId sha256 uuid iso date_parse q id w w' resp :
  resolveHumanTask tenantId sha256 uuid iso date_parse q id w = (w', Ok resp) →
  UUID_RE id = true ∧ ∃ h role, task_of id (first_view w) = Some h ∧ h_assignee h = Some (pn_subjectId (qu_principal q)) ∧
    h_assignee_role h = Some (Role_str role) ∧ role ∈ pn_roles (qu_principal q) ∧
    ∃ role', role' ∈ pn_roles (qu_principal q) ∧ roleAllowsAction role' (RESOLVE_ACTION (h_kind h)) = true.
Proof.
  unfold resolveHumanTask. intros (id' & w1 & Hid & H)%Act_bind_Ok. apply requireTaskId_Ok in Hid as (-> & -> & Hu). split; [done|].
  apply Act_bind_Ok in H as (result & w1 & Hb & H). apply pure_resolve_body in Hb as ->.
  apply Act_bind_Ok in H as (row & w1 & Hr & H). unfold tenantTx in Hr. injection Hr as <- <-.
  change (match aw_env w with [] => aw_api w | f :: _ => f (aw_api w) end) with (first_view w) in *.
  cbn [tx_mine] in H. destruct (task_of id (first_view w)) as [h|]; [|done].
  destruct (authorize _ _) eqn:E; [|done]. apply authorize_resolve in E as (Ha & (role & Hrole & Hin) & Hact).
  exists h, role. cbn [sc_assigneeId sc_assigneeRole] in *. split; [done|]. split; [done|]. split; [|done].
  unfold toRole in Hrole. destruct (h_assignee_role h) as [s|]; [|done]. apply find_some in Hrole as [_ Hr%bool_decide_eq_true]. by rewrite Hr.
Qed.

(** ** A second escalation *)

(** A task can be escalated by an operator once.  The event of an escalation has
    the key of the task alone, so that every later escalation of the task, in any
    state that allows one, throws a unique violation and changes nothing. *)
Theorem second_escalation_fails iso id cid reason by_ h a : rows_of id (a_db a) = [h] →
  h_state h ∈ [ht_open; ht_assigned; ht_in_progress] →
  existsb (λ o, bool_decide (o_idempotencyKey o = outbox_key id human_task_escalated_e)) (events_outbox (a_db a)) = true →
  atomically (applyHumanTaskCommand iso id cid (escalate_command reason by_)) a =
    (a, Err (AE_db (E_unique (outbox_key id human_task_escalated_e)))).
Proof.
  intros Hr Hs Hk. unfold atomically, tenantTx, applyHumanTaskCommand. cbn [task_loop aw_env aw_api tail].
  set (ctx := mkHumanCtx id (h_run_id h) (h_state h) hev_escalate human_task_guard_empty cid None None None).
  set (tr := mkTransition ht_escalated [emitEvent human_task_escalated_e; reassignAssignee]).
  destruct (rows_moved ctx tr (a_db a) h Hr eq_refl) as [Hhit _].
  assert (Ht : transitionHumanTask (h_state h) hev_escalate human_task_guard_empty = Ok tr).
  { repeat (apply elem_of_cons in Hs as [->|Hs]; [reflexivity|]). by apply elem_of_nil in Hs. }
  assert (He : applyHumanTaskTransition ctx (a_db a) = Err (E_unique (outbox_key id human_task_escalated_e))).
  { rewrite (human_transition_run ctx tr); [|done|reflexivity|done]. unfold mbind, Tx_bind.
    change (emitted_events (sideEffects tr)) with [human_task_escalated_e]. by rewrite emitAll_taken. }
  assert (Hatt : task_attempt iso id cid (escalate_command reason by_) (mkTxn a a []) =
    (mkTxn a a [], Err (AE_db (E_unique (outbox_key id human_task_escalated_e))))).
  { unfold task_attempt. erewrite bind_run by reflexivity. cbn [tx_mine]. rewrite (task_of_rows id a h Hr).
    rewrite bool_decide_eq_false_2.
    2:{ unfold HUMANTASK_TERMINAL. repeat (apply elem_of_cons in Hs as [->|Hs]; [set_solver|]). by apply elem_of_nil in Hs. }
    erewrite bind_run by (by apply undisturbed). unfold mbind, Stmt_bind, task_transition, on_rows, on_tables, on_db.
    cbn [tx_mine a_db]. change (tk_event _) with hev_escalate. change (tk_assignee _) with (@None string). fold ctx. cbn. by rewrite He. }
  unfold mbind at 1, Stmt_bind at 1. by rewrite Hatt.
Qed.

(** ** Dead letters *)

(** A dead letter can be replayed again.  That a letter has been replayed is
    recorded but never checked: when its workitem has been abandoned once more the
    old letter is accepted like an open one, the item is new with no attempts, and
    the letter of the new failure stays open. *)
Theorem replayed_letter_replays_again dead_letter_id id cid a n dl wi at_ :
  dead_letter_of dead_letter_id id a = Some (n, dl) → dl_replayable dl = true →
  workitems (a_db a) !! dl_workitem_id dl = Some wi → w_status wi = wi_abandoned →
  a_replayed a !! n = Some at_ →
  ∃ a' body wi', atomically (applyDeadLetterReplay dead_letter_id id cid) a = (a', Ok (mkResponse 202 body)) ∧
    workitems (a_db a') = <[dl_workitem_id dl := wi']> (workitems (a_db a)) ∧ w_status wi' = wi_new ∧ w_attempts wi' = 0%Z ∧
    a_replayed a' = a_replayed a ∧ dead_letter (a_db a') = dead_letter (a_db a).
Proof.
  intros Hd Hrep Hw Hs Hat.
  set (ctx := mkWorkitemCtx (dl_workitem_id dl) wi_abandoned wev_manual_replay guard_operator cid None None None None).
  set (tr := mkTransition wi_new [setField e_workitem "attempts"]).
  assert (Ht : applyWorkitemTransition ctx (a_db a) =
    Ok (Applied wi_new [] [], set_workitems (<[dl_workitem_id dl := updated_workitem (db_now (a_db a)) ctx tr wi]> (workitems (a_db a))) (a_db a))).
  { unfold applyWorkitemTransition, mbind, Tx_bind, from_transition, select, update. cbn -[decide].
    rewrite bool_decide_eq_false_2 by done. cbn -[decide]. rewrite Hw. rewrite decide_True by done. reflexivity. }
  unfold atomically, tenantTx, applyDeadLetterReplay. cbn [replay_loop aw_env aw_api tail].
  match type of Ht with _ = Ok (_, ?d) => set (a' := set_tables (a_leases a, d) a) end.
  assert (Hatt : ∃ body, replay_attempt dead_letter_id id cid (mkTxn a a []) = (mkTxn a a' [], Ok (Some (mkResponse 202 body)))).
  { eexists. unfold replay_attempt. erewrite bind_run by reflexivity. cbn [tx_mine].
    rewrite Hd, Hrep. cbn [negb]. cbv zeta. erewrite bind_run by reflexivity. cbn [tx_mine]. rewrite Hw, bool_decide_eq_true_2 by done. cbn [negb].
    erewrite bind_run by (by apply undisturbed). erewrite bind_run by (apply rows_run; exact Ht). cbv beta iota.
    erewrite bind_run by reflexivity. cbn [tx_mine tx_base tx_env]. fold a'. change (a_replayed a') with (a_replayed a). by rewrite Hat. }
  destruct Hatt as [body Hatt]. exists a', body, (updated_workitem (db_now (a_db a)) ctx tr wi).
  split; [|done]. by rewrite (bind_run _ _ _ _ _ Hatt).
Qed.

(** ** The request handlers on a concrete tenant

    The theorems of [ApiProps], [ApiCommands] and [ApiTaskProps] at one tenant with
    a run, a task the run waits for, two dead letters of one workitem and the key of
    a command in flight. *)

Module ApiSample.

Definition task_id : string := "00000000-0000-4000-8000-000000000001".
Definition uuid (n : nat) : string := "key" +:+ pretty n.
Definition digest (s : string) : string := s.
Definition clock (z : Z) : string := pretty z.
Definition dates (_ : string) : option Z := None.
Definition letter_id (n : nat) : string := "letter" +:+ pretty n.

Lemma uuid_fresh m n : uuid m = uuid n → m = n.
Proof. unfold uuid. intros H. apply (inj (String.append "key")) in H. by apply (inj pretty) in H. Qed.

Definition task (s : HumanTaskState) : HumanTaskRow :=
  mkHumanTaskRow task_id "r1" None k_approval (Some "approver") ot_fail s (Some "bob") JNull JNull (JArr []) JNull 5000 None.
Definition reserved_row : IdempotencyRow := mkKeyRow (uuid 0) "e" "k" "h" key_processing None None 2000.
Definition catalog : ApiCatalog := mkApiCatalog ∅ [] None None ∅.
Definition run_row (s : RunState) : RunRow := mkRunRow s None (Some "w") 0 0 None None None None None.
Definition item : WorkitemRow := mkWorkitemRow wi_abandoned 3 None None None None.
Definition letter : DeadLetterRow := mkDeadLetterRow "i1" None "attempts_exhausted" None true.

Definition db (s : RunState) (t : HumanTaskState) : Db :=
  mkDb 1000 0 {[ "r1" := run_row s ]} {[ "i1" := item ]} [task t] [] [letter; letter] [] [] [].
Definition api (s : RunState) (t : HumanTaskState) (keys : list IdempotencyRow) : Api :=
  mkApi catalog LeaseSample.leases (db s t) keys (length keys) ∅ ∅ [] [] {[ 0 := 500%Z ]} [] [] [] false no_handoffs.

Definition busy : Api := api run_running ht_open [reserved_row].
Definition waiting : Api := api run_suspended ht_in_progress [reserved_row].

Lemma busy_keys : keys_wf uuid busy.
Proof.
  split; simpl; [apply NoDup_singleton|apply NoDup_singleton|]. intros row ->%list_elem_of_singleton. exists 0. split; [done|lia].
Qed.

Lemma waiting_awaited : awaited task_id (task ht_in_progress) waiting.
Proof.
  split; [reflexivity|reflexivity| | | |exact I]; [|by intros o ?%elem_of_nil..].
  exists (run_row run_suspended). done.
Qed.

(** A command that was accepted and committed. *)
Definition answer : CommandResponse := mkResponse 202 (JObj []).
Definition request (hash : string) : ReservationRequest := mkReservation "e" "k" hash 2000.
Definition empty : Api := api run_running ht_open [].
Definition command : Stmt CommandResponse := command_tx "t1" (encodeRecordId "t1" (uuid 0)) (mret answer).
Definition before : Api := (atomically (reserve "t1" uuid (request "h")) empty).1.
Definition after : Api := (atomically command before).1.
Definition served : Sys := mkSys after [] [(("e", "k"), answer)].

Lemma served_reach : sys_reach "t1" uuid served.
Proof.
  eapply reach_step.
  - eapply reach_step; [apply (reach_start _ _ empty); reflexivity|].
    apply (step_reserved _ _ (request "h") empty before (encodeRecordId "t1" (uuid 0)) command "c" [] []); [vm_compute; reflexivity|].
    apply command_completes, keeps_ret.
  - apply (step_commit _ _ before after (mkPending (encodeRecordId "t1" (uuid 0)) ("e", "k") command "c" None) [] [] [] answer);
      [reflexivity|vm_compute; reflexivity].
Qed.

(** A resolution by the assignee. *)
Definition resolution (who : string) : Request :=
  mkRequest (mkPrincipal "t1" who [approver]) "c" (Some "k") "POST" (Some (JObj [("result", JObj [("decision", JStr "approve")])])).
Definition fresh_task : ApiWorld := mkApiWorld (api run_suspended ht_in_progress []) [].

(** A task that was escalated and assigned again. *)
Definition run_command (cmd : TaskCommand) (a : Api) : Api := (atomically (applyHumanTaskCommand clock task_id "c" cmd) a).1.
Definition escalated_once : Api :=
  run_command (plain_command hev_assign (Some "bob")) (run_command (escalate_command None "op") (api run_suspended ht_open [])).
End ApiSample.

Lemma commands_take_effect_once_witness :
  ∃ hash, ∀ req, rs_endpoint req = "e" → rs_key req = "k" →
    atomically (reserve "t1" ApiSample.uuid req) ApiSample.after =
      (use_api_id ApiSample.after, Ok (if decide (rs_requestHash req = hash) then rv_replay ApiSample.answer else rv_blocked)).
Proof.
  apply (proj2 (commands_take_effect_once "t1" ApiSample.uuid eq_refl ApiSample.uuid_fresh ApiSample.served ApiSample.served_reach)).
  - by left.
  - done.
Defined.




Lemma resolve_requires_assignee_witness :
  match resolveHumanTask "t1" ApiSample.digest ApiSample.uuid ApiSample.clock ApiSample.dates (ApiSample.resolution "bob") ApiSample.task_id
          ApiSample.fresh_task with
  | (_, Ok _) => ∃ h, task_of ApiSample.task_id (aw_api ApiSample.fresh_task) = Some h ∧ h_assignee h = Some "bob"
  | _ => False
  end.
Proof.
  destruct (resolveHumanTask _ _ _ _ _ _ _ _) as [w' [resp|e]] eqn:E; [|vm_compute in E; discriminate E].
  destruct (resolve_requires_assignee _ _ _ _ _ _ _ _ _ _ E) as (_ & h & role & Ht & Ha & _). exists h. split; [exact Ht|exact Ha].
Defined.

Lemma second_escalation_fails_witness :
  atomically (applyHumanTaskCommand ApiSample.clock ApiSample.task_id "c" (escalate_command None "op")) ApiSample.escalated_once =
    (ApiSample.escalated_once, Err (AE_db (E_unique (outbox_key ApiSample.task_id human_task_escalated_e)))).
Proof.
  destruct (rows_of ApiSample.task_id (a_db ApiSample.escalated_once)) as [|h [|]] eqn:E; [vm_compute in E; discriminate E| |vm_compute in E; discriminate E].
  apply (second_escalation_fails ApiSample.clock ApiSample.task_id "c" None "op" h ApiSample.escalated_once E).
  - vm_compute in E. injection E as <-. right; left.
  - vm_compute; reflexivity.
Defined.

Lemma replayed_letter_replays_again_witness :
  ∃ a' body wi', atomically (applyDeadLetterReplay ApiSample.letter_id "letter0" "c") ApiSample.busy = (a', Ok (mkResponse 202 body)) ∧
    workitems (a_db a') = <["i1" := wi']> (workitems (a_db ApiSample.busy)) ∧ w_status wi' = wi_new ∧ w_attempts wi' = 0%Z ∧
    a_replayed a' = a_replayed ApiSample.busy ∧ dead_letter (a_db a') = dead_letter (a_db ApiSample.busy).
Proof.
  apply (replayed_letter_replays_again ApiSample.letter_id "letter0" "c" ApiSample.busy 0 ApiSample.letter ApiSample.item 500%Z);
    vm_compute; reflexivity.
Defined.
