(* ===== verification/Triggers.v ===== *)
(** * Run triggers: the cron scheduler and the webhooks

    Models [app/src/worker/run-trigger-scheduler.ts] (the due cron triggers of a
    tenant, and the job of one fire), [app/src/api/webhook-triggers.ts] and
    [webhook-trigger-auth.ts] (the signed webhook), as transactions of [ApiStore].
    A trigger is [FOR UPDATE] in its transaction; others act at the points
    [interleave], on other rows.  A column of type [timestamptz] has microseconds
    and a [Date] milliseconds: what the code reads of a time is rounded down, and
    what it compares it with in SQL is the rounded text.  Correlation ids are
    UUIDs. *)

From stdpp Require Import base strings list gmap pretty.
From Stdlib Require Import Ascii ZArith.
From S2P Require Import Prelude StateMachine JsValue RuntimeStore JsText Schedule Database Leases ErrorCatalog ApiShared AuditLog ApiStore ApiRuns ApiCreate.

(** ** Times *)

(** The [Date] of a column, and the column an ISO text with milliseconds gives. *)
Definition js_date (us : Z) : Z := (us / 1000)%Z.
Definition column_of_ms (ms : Z) : Z := (ms * 1000)%Z.
(** [now()]. *)
Definition column_now (a : Api) : Z := column_of_ms (api_now a).

(** [date.toISOString()] throws beyond the range of [Date]. *)
Definition date_in_range (ms : Z) : bool := (Z.abs ms <=? 8640000000000000)%Z.

(** ** Statements *)

Definition update_triggers (hit : TriggerRow → bool) (f : Api → TriggerRow → TriggerRow) : Stmt () :=
  api_update (λ a, set_triggers (map (λ r, if hit r then f a r else r) (a_triggers a)) a).
Definition update_fires (hit : FireRow → bool) (f : FireRow → FireRow) : Stmt () :=
  api_update (λ a, set_fires (map (λ r, if hit r then f r else r) (a_fires a)) a).

Definition fire_at (triggerId fireKey : string) (r : FireRow) : bool :=
  bool_decide (fi_trigger_id r = triggerId) && bool_decide (fi_fire_key r = fireKey).

(** [INSERT INTO run_trigger_fires ... ON CONFLICT (tenant_id, trigger_id, fire_key)
    DO NOTHING RETURNING id]: whether a row was inserted. *)
Definition insert_fire (id triggerId fireKey : string) (scheduledFor : Z) (correlationId : string) : Stmt bool :=
  a ← api_select (λ a, a);
  if existsb (fire_at triggerId fireKey) (a_fires a) then mret false else
  if existsb (λ r, bool_decide (fi_id r = id)) (a_fires a) then api_throw (AE_db (E_unique "run_trigger_fires_pkey")) else
  _ ← api_update (λ a, set_fires (a_fires a ++
        [mkFire id triggerId fireKey fire_queued scheduledFor None None (uuid_text correlationId) (column_now a)]) a);
  mret true.

(** [r.status NOT IN ('completed','cancelled','failed_business','failed_system')]
    of the run of a fire. *)
Definition fire_active (a : Api) (r : FireRow) : bool :=
  match fi_run_id r with
  | Some runId =>
      match run_of runId a with Some run => bool_decide (r_status run ∉ RUN_TERMINAL_SET) | None => false end
  | None => false
  end.
Definition active_runs (triggerId : string) (a : Api) : nat :=
  length (List.filter (λ r, bool_decide (fi_trigger_id r = triggerId) && fire_active a r) (a_fires a)).

(** [SAVEPOINT], and [ROLLBACK TO SAVEPOINT] when the body throws: the writes of
    the body are undone, what others committed meanwhile stays. *)
Definition rolled_back (t t' : Txn) : Txn :=
  let seen := take (length (tx_env t) - length (tx_env t')) (tx_env t) in
  mkTxn (tx_base t') (foldl (λ a f, f a) (tx_mine t) seen) (tx_env t').
Definition savepoint {A} (body : Stmt A) (recover : ApiExn → Stmt A) : Stmt A := λ t,
  match body t with
  | (t', Ok x) => (t', Ok x)
  | (t', Err e) => recover e (rolled_back t t')
  end.

(** ** The cron scheduler *)

(** A row of the SELECT; [du_next_fire_at] is a [Date]. *)
Record DueRunTriggerRow := mkDue {
  du_id : string;
  du_scenario_version_id : string;
  du_params : json;
  du_cron_expression : string;
  du_timezone : string;
  du_catchup_policy : CatchupPolicy;
  du_max_concurrent_runs : Z;
  du_next_fire_at : Z
}.

(** A cron trigger has its expression, zone and time (the CHECK of the table). *)
Definition due_row (r : TriggerRow) : option DueRunTriggerRow :=
  cron ← tr_cron_expression r; tz ← tr_timezone r; us ← tr_next_fire_at r;
  Some (mkDue (tr_id r) (tr_scenario_version_id r) (tr_params r) cron tz (tr_catchup_policy r)
          (tr_max_concurrent_runs r) (js_date us)).

Definition due_now (now : Z) (r : TriggerRow) : bool :=
  bool_decide (tr_type r = trigger_cron) && bool_decide (tr_status r = trigger_enabled) &&
  match tr_next_fire_at r with Some us => (us <=? column_of_ms now)%Z | None => false end.

(** [ORDER BY next_fire_at ASC, id ASC]. *)
Definition due_before (r s : TriggerRow) : bool :=
  match tr_next_fire_at r, tr_next_fire_at s with
  | Some x, Some y => (x <? y)%Z || ((x =? y)%Z && match String.compare (tr_id r) (tr_id s) with Gt => false | _ => true end)
  | _, _ => true
  end.
Fixpoint insert_due (r : TriggerRow) (l : list TriggerRow) : list TriggerRow :=
  match l with
  | [] => [r]
  | s :: l' => if due_before r s then r :: l else s :: insert_due r l'
  end.

Definition DEFAULT_TRIGGER_BATCH_LIMIT : Z := 25.

Record RunTriggerSchedulerStats := mkStats {
  tenantsScanned : nat;
  triggersClaimed : nat;
  fireLedgersCreated : nat;
  duplicateFires : nat;
  runsQueued : nat;
  firesSkipped : nat;
  firesFailed : nat
}.
Definition no_stats : RunTriggerSchedulerStats := mkStats 0 0 0 0 0 0 0.
Definition add_stats (x y : RunTriggerSchedulerStats) : RunTriggerSchedulerStats :=
  mkStats (tenantsScanned x + tenantsScanned y) (triggersClaimed x + triggersClaimed y)
    (fireLedgersCreated x + fireLedgersCreated y) (duplicateFires x + duplicateFires y) (runsQueued x + runsQueued y)
    (firesSkipped x + firesSkipped y) (firesFailed x + firesFailed y).
(** What one trigger adds: a duplicate, a run, a skipped or a failed fire. *)
Definition st_duplicate : RunTriggerSchedulerStats := mkStats 0 1 0 1 0 0 0.
Definition st_queued : RunTriggerSchedulerStats := mkStats 0 1 1 0 1 0 0.
Definition st_skipped : RunTriggerSchedulerStats := mkStats 0 1 1 0 0 1 0.
Definition st_failed : RunTriggerSchedulerStats := mkStats 0 1 1 0 0 0 1.
Definition st_tenant : RunTriggerSchedulerStats := mkStats 1 0 0 0 0 0 0.

Definition with_fire_status (status : FireStatus) (reason : option json) (r : FireRow) : FireRow :=
  mkFire (fi_id r) (fi_trigger_id r) (fi_fire_key r) status (fi_scheduled_for r) (fi_run_id r) reason
    (fi_correlation_id r) (fi_created_at r).
Definition with_fire_run (runId : string) (r : FireRow) : FireRow :=
  mkFire (fi_id r) (fi_trigger_id r) (fi_fire_key r) (fi_status r) (fi_scheduled_for r) (Some runId) (fi_failure_reason r)
    (fi_correlation_id r) (fi_created_at r).
Definition fire_is (fireId : string) (r : FireRow) : bool := bool_decide (fi_id r = fireId).

Definition markFireSkipped (fireId reason : string) : Stmt () :=
  update_fires (fire_is fireId) (with_fire_status fire_skipped (Some (JObj [("code", JStr reason)]))).
Definition markFireFailed (fireId : string) (reason : json) : Stmt () :=
  update_fires (fire_is fireId) (with_fire_status fire_failed (Some reason)).

Definition with_schedule (status : TriggerStatus) (next : option Z) (now : Z) (r : TriggerRow) : TriggerRow :=
  mkTrigger (tr_id r) (tr_scenario_version_id r) (tr_type r) status (tr_cron_expression r) (tr_timezone r)
    (tr_webhook_secret_ref r) (tr_params r) (tr_catchup_policy r) (tr_max_concurrent_runs r) next
    (tr_created_by r) (tr_created_at r) now.
(** [WHERE id=$1::uuid AND next_fire_at=$2::timestamptz], the second from the
    [Date]. *)
Definition scheduled_as (trigger : DueRunTriggerRow) (r : TriggerRow) : bool :=
  bool_decide (tr_id r = du_id trigger) && bool_decide (tr_next_fire_at r = Some (column_of_ms (du_next_fire_at trigger))).

Definition advanceTriggerSchedule (trigger : DueRunTriggerRow) (nextFireAt : Z) : Stmt () :=
  update_triggers (scheduled_as trigger)
    (λ a r, with_schedule (tr_status r) (Some (column_of_ms nextFireAt)) (column_now a) r).
Definition pauseTriggerForInvalidSchedule (trigger : DueRunTriggerRow) : Stmt () :=
  update_triggers (scheduled_as trigger) (λ a r, with_schedule trigger_paused None (column_now a) r).

Definition recordOrEmpty (value : json) : json := match value with JObj f => JObj f | _ => JObj [] end.

Definition normalizeBatchLimit (value : option Z) : Act Z :=
  match value with
  | None => mret DEFAULT_TRIGGER_BATCH_LIMIT
  | Some n => if (n <? 1)%Z then p_throw (AE_error "run trigger scheduler batchLimit must be a positive integer") else mret n
  end.

Section Triggers.
(** The tenant and the fresh ids; which texts PostgreSQL reads as a time; the zones
    of the host; the message of a database error. *)
Context (tenantId : string) (uuid : nat → string) (timestamptz : string → bool).
Context (zone : string → option (Z → option (Z * Z * Z * Z * Z))) (db_message : DbError → string).

Definition failureReason (error : ApiExn) : json :=
  match error with
  | AE_api code details => JObj [("code", JStr (ErrorCode_str code)); ("details", default JNull details)]
  | AE_db e => JObj [("code", JStr "CONTROL_PLANE_INTERNAL_ERROR"); ("message", JStr (db_message e))]
  | AE_error m => JObj [("code", JStr "CONTROL_PLANE_INTERNAL_ERROR"); ("message", JStr m)]
  end.

(** [None] for a schedule that is not valid. *)
Definition resolveNextFireAt (now : Z) (trigger : DueRunTriggerRow) : Stmt (option Z) :=
  let base := match du_catchup_policy trigger with fire_once => du_next_fire_at trigger | skip_missed => now end in
  match nextCronFireAfter zone (du_cron_expression trigger) (du_timezone trigger) (Some base) with
  | Ok t => if date_in_range t then mret (Some t) else api_throw (AE_error "Invalid time value")
  | Err _ => mret None
  end.

Definition trigger_run (trigger_version : string) (params : json) (asOf correlationId runId : string) : CreateRunInTxInput :=
  mkCreateInput runId trigger_version params asOf correlationId None None [] medium mode_prod.

(** The body between [SAVEPOINT] and [RELEASE]. *)
Definition create_and_advance (trigger : DueRunTriggerRow) (fireId correlationId : string) (nextFireAt : Z)
  : Stmt RunTriggerSchedulerStats :=
  runId ← fresh_uuid uuid;
  _ ← createRunInTx tenantId uuid timestamptz
        (trigger_run (du_scenario_version_id trigger) (recordOrEmpty (du_params trigger))
           (iso_of_ms (du_next_fire_at trigger)) correlationId runId);
  _ ← update_fires (fire_is fireId) (with_fire_run runId);
  _ ← advanceTriggerSchedule trigger nextFireAt;
  mret st_queued.

Definition processOneTriggerFire (now : Z) (correlationId : Stmt string) (trigger : DueRunTriggerRow)
  : Stmt RunTriggerSchedulerStats :=
  _ ← interleave;
  let scheduledFor := du_next_fire_at trigger in
  let fireKey := iso_of_ms scheduledFor in
  fireId ← fresh_uuid uuid;
  correlationId ← correlationId;
  inserted ← insert_fire fireId (du_id trigger) fireKey (column_of_ms scheduledFor) correlationId;
  if negb inserted then
    next ← resolveNextFireAt now trigger;
    _ ← match next with
        | None => pauseTriggerForInvalidSchedule trigger
        | Some t => advanceTriggerSchedule trigger t
        end;
    mret st_duplicate
  else
    next ← resolveNextFireAt now trigger;
    match next with
    | None =>
        _ ← markFireFailed fireId (JObj [("code", JStr "SCHEDULER_INVALID_CRON_EXPRESSION");
              ("details", JObj (error_reason "invalid_cron_expression"))]);
        _ ← pauseTriggerForInvalidSchedule trigger;
        mret st_failed
    | Some nextFireAt =>
        _ ← interleave;
        activeRuns ← api_select (active_runs (du_id trigger));
        if (du_max_concurrent_runs trigger <=? Z.of_nat activeRuns)%Z then
          _ ← markFireSkipped fireId "MAX_CONCURRENCY_REACHED";
          _ ← advanceTriggerSchedule trigger nextFireAt;
          mret st_skipped
        else
          savepoint (create_and_advance trigger fireId correlationId nextFireAt)
            (λ err,
               _ ← markFireFailed fireId (failureReason err);
               _ ← advanceTriggerSchedule trigger nextFireAt;
               mret st_failed)
    end.

(** [locked]: rows other transactions hold, which [SKIP LOCKED] passes over. *)
Definition due_triggers (locked : string → bool) (now : Z) (limit : nat) (a : Api) : list DueRunTriggerRow :=
  if a_offboarding a then [] else
  omap due_row (take limit
    (foldr insert_due [] (List.filter (λ r, due_now now r && negb (locked (tr_id r))) (a_triggers a)))).

Fixpoint process_triggers (now : Z) (correlationId : Stmt string) (due : list DueRunTriggerRow) : Stmt RunTriggerSchedulerStats :=
  match due with
  | [] => mret no_stats
  | trigger :: rest =>
      x ← processOneTriggerFire now correlationId trigger;
      y ← process_triggers now correlationId rest;
      mret (add_stats x y)
  end.

Definition processTenantDueRunTriggers (locked : string → bool) (now : Z) (limit : nat) : Stmt RunTriggerSchedulerStats :=
  due ← api_select (due_triggers locked now limit);
  process_triggers now (fresh_uuid uuid) due.

(** The part of [processDueRunTriggers] for this tenant. *)
Definition processDueRunTriggers (locked : string → bool) (now : Z) (batchLimit : option Z) : Act RunTriggerSchedulerStats :=
  limit ← normalizeBatchLimit batchLimit;
  stats ← tenantTx (processTenantDueRunTriggers locked now (Z.to_nat limit));
  mret (add_stats st_tenant stats).

(** [date_parse] is [new Date(text).getTime()]. *)
Definition job_row (triggerId : string) (scheduledFor : Z) (r : TriggerRow) : bool :=
  bool_decide (tr_id r = triggerId) && bool_decide (tr_type r = trigger_cron) &&
  bool_decide (tr_status r = trigger_enabled) && bool_decide (tr_next_fire_at r = Some (column_of_ms scheduledFor)).

Definition processRunTriggerFireJob (date_parse : string → option Z) (triggerId scheduledFor correlationId : string) (now : Z)
  : Act RunTriggerSchedulerStats :=
  match date_parse scheduledFor with
  | None => p_throw (AE_error ("trigger_fire scheduledFor must be an ISO timestamp, got " +:+ scheduledFor))
  | Some at_ms =>
      stats ← tenantTx (
        row ← api_select (λ a, head (omap due_row (List.filter (job_row triggerId at_ms) (a_triggers a))));
        match row with
        | None => mret no_stats
        | Some row => processOneTriggerFire now (mret correlationId) row
        end);
      mret (add_stats st_tenant stats)
  end.
End Triggers.
