(* ===== verification/Webhooks.v ===== *)
(** * Signed webhooks that fire triggers

    Models [app/src/api/webhook-triggers.ts] and [webhook-trigger-auth.ts] on the
    tables of [ApiStore]: the headers and their checks, the signature, the lock of
    a tenant that is being offboarded and the transaction that accepts a fire. *)

From stdpp Require Import base strings list gmap pretty.
From Stdlib Require Import Ascii ZArith.
From S2P Require Import Prelude StateMachine JsValue RuntimeStore JsText Database Leases ErrorCatalog ApiShared AuditLog ApiStore ApiRuns ApiCreate Triggers.

Definition MAX_WEBHOOK_TIMESTAMP_SKEW_MS : Z := 5 * 60 * 1000.

(** [/^[A-Za-z0-9._:-]{1,200}$/]. *)
Definition WEBHOOK_EVENT_ID_RE (s : string) : bool :=
  (1 <=? String.length s)%nat && (String.length s <=? 200)%nat &&
  string_forall (λ c, in_range 65 90 c || in_range 97 122 c || in_range 48 58 c || in_range 45 46 c || in_range 95 95 c) s.

Record WebhookHeaders := mkHeaders { wh_eventId : string; wh_timestamp : string; wh_signature : string }.

Definition requireHeader (value : option json) (name : string) : Act string :=
  match value with
  | Some (JStr (String _ _ as v)) => mret v
  | _ => p_fail IR_SCHEMA_INVALID [("reason", JStr "missing_webhook_header"); ("header", JStr name)]
  end.

(** [/^\d{10,13}$/], then the skew to the clock. *)
Definition timestamp_ms (value : string) : option Z :=
  if all_digits value && (10 <=? String.length value)%nat && (String.length value <=? 13)%nat
  then let n := digits_value 0 value in Some (if decide (String.length value = 13%nat) then n else n * 1000)%Z
  else None.
Definition parseWebhookTimestamp (value : string) : Act Z :=
  match timestamp_ms value with
  | None => p_fail IR_SCHEMA_INVALID (error_reason "invalid_webhook_timestamp")
  | Some ms =>
      now ← p_now;
      if (MAX_WEBHOOK_TIMESTAMP_SKEW_MS <? Z.abs (now - ms))%Z
      then p_fail UNAUTHENTICATED (error_reason "webhook_timestamp_outside_window") else mret ms
  end.

(** [headers]: what the request has under a name. *)
Definition parseWebhookHeaders (headers : string → option json) : Act WebhookHeaders :=
  eventId ← requireHeader (headers "x-rpa-webhook-event-id") "x-rpa-webhook-event-id";
  if negb (WEBHOOK_EVENT_ID_RE eventId) then p_fail IR_SCHEMA_INVALID (error_reason "invalid_webhook_event_id") else
  timestamp ← requireHeader (headers "x-rpa-webhook-timestamp") "x-rpa-webhook-timestamp";
  _ ← parseWebhookTimestamp timestamp;
  signature ← requireHeader (headers "x-rpa-webhook-signature") "x-rpa-webhook-signature";
  mret (mkHeaders eventId timestamp signature).

Definition requireUuidParam (value field : string) : Act string :=
  if UUID_RE value then mret value else p_fail RESOURCE_NOT_FOUND (error_reason ("invalid_" +:+ field)).
Definition requireObjectBody (value : option json) : Act json :=
  match value with Some (JObj f) => mret (JObj f) | _ => p_fail IR_SCHEMA_INVALID (error_reason "request_body_object_required") end.

(** A key that is an array index: an object lists these first, in numeric order. *)
Definition index_key (k : string) : bool :=
  all_digits k && (bool_decide (k = "0") || negb (starts_with "0" k)) && (digits_value 0 k <=? 4294967294)%Z.
Definition key_before (k l : string) : bool :=
  match index_key k, index_key l with
  | true, true => (digits_value 0 k <=? digits_value 0 l)%Z
  | true, false => true
  | false, true => false
  | false, false => match String.compare k l with Gt => false | _ => true end
  end.
Fixpoint insert_member (p : string * string) (l : list (string * string)) : list (string * string) :=
  match l with
  | [] => [p]
  | q :: l' => if key_before p.1 q.1 then p :: l else q :: insert_member p l'
  end.

(** [JSON.stringify(canonicalize(value))]: the keys sorted, and then put into an
    object in that order. *)
Fixpoint canonicalJson (v : json) : string :=
  match v with
  | JArr l => "[" +:+ join "," (map canonicalJson l) +:+ "]"
  | JObj f =>
      "{" +:+ join "," (map (λ p, json_text (JStr p.1) +:+ ":" +:+ p.2)
                          (foldr insert_member [] (map (λ p, (p.1, canonicalJson p.2)) f))) +:+ "}"
  | _ => json_text v
  end.

Definition webhookSigningPayload (timestamp eventId : string) (body : json) : string :=
  timestamp +:+ "." +:+ eventId +:+ "." +:+ canonicalJson body.

Section Webhooks.
Context (tenantId : string) (uuid : nat → string) (timestamptz : string → bool) (db_message : DbError → string).
(** [createHmac("sha256", secret).update(payload).digest("hex")]; the boundary that
    resolves secrets, if it is configured. *)
Context (hmac : string → string → string) (boundary : option (string → result ApiExn string)).

(** [/^sha256=([a-f0-9]{64})$/i], and the bytes of the two hex texts compared. *)
Definition verifyWebhookSignature (secret signatureHeader payload : string) : bool :=
  starts_with "sha256=" (toLowerCase signatureHeader) &&
  let provided := String.substring 7 (String.length signatureHeader) signatureHeader in
  bool_decide (skip_chars is_hex_char 64 provided = Some EmptyString) &&
  bool_decide (toLowerCase provided = hmac secret payload).

Definition selectWebhookTrigger (triggerId : string) : Stmt (option TriggerRow) :=
  api_select (λ a, head (List.filter (λ r, bool_decide (tr_id r = triggerId) && bool_decide (tr_type r = trigger_webhook))
                           (a_triggers a))).

Definition requireWebhookFire (triggerId fireKey : string) : Stmt FireRow :=
  row ← api_select (λ a, head (List.filter (fire_at triggerId fireKey) (a_fires a)));
  match row with
  | Some row => mret row
  | None => api_fail CONTROL_PLANE_INTERNAL_ERROR (error_reason "webhook_fire_missing_after_insert")
  end.

Definition with_fire (status : FireStatus) (runId : option string) (reason : option json) (r : FireRow) : FireRow :=
  mkFire (fi_id r) (fi_trigger_id r) (fi_fire_key r) status (fi_scheduled_for r) runId reason (fi_correlation_id r) (fi_created_at r).
Definition markFire (fireId : string) (status : FireStatus) (runId : option string) (reason : option json) : Stmt () :=
  update_fires (fire_is fireId) (with_fire status runId reason).

Definition FireStatus_str (s : FireStatus) : string :=
  match s with fire_queued => "queued" | fire_skipped => "skipped" | fire_failed => "failed" end.
Definition mapWebhookFire (row : FireRow) (duplicate : bool) : json :=
  JObj [("fire_id", JStr (fi_id row)); ("trigger_id", JStr (fi_trigger_id row)); ("fire_key", JStr (fi_fire_key row));
        ("status", JStr (FireStatus_str (fi_status row))); ("run_id", json_opt (fi_run_id row)); ("duplicate", JBool duplicate);
        ("failure_reason", match fi_failure_reason row with Some (JObj f) => JObj f | _ => JNull end);
        ("received_at", JStr (iso_of_ms (js_date (fi_created_at row))))].

Record WebhookContext := mkContext {
  wc_triggerId : string;
  wc_eventId : string;
  wc_fireKey : string;
  wc_body : json;
  wc_receivedAt : Z;
  wc_correlationId : string
}.

Definition webhookRunParams (triggerParams : json) (context : WebhookContext) : json :=
  let params := match triggerParams with JObj f => f | _ => [] end in
  JObj (aset "webhook" (JObj [("event_id", JStr (wc_eventId context)); ("received_at", JStr (iso_of_ms (wc_receivedAt context)));
                              ("payload", wc_body context)]) params).

Definition normalizeCorrelationId (value : string) : Stmt string :=
  if UUID_RE value then mret value else fresh_uuid uuid.

(** The body between [SAVEPOINT] and [RELEASE]. *)
Definition create_webhook_run (trigger : TriggerRow) (fireId : string) (context : WebhookContext) : Stmt () :=
  runId ← fresh_uuid uuid;
  _ ← createRunInTx tenantId uuid timestamptz
        (trigger_run (tr_scenario_version_id trigger) (webhookRunParams (tr_params trigger) context)
           (iso_of_ms (wc_receivedAt context)) (wc_correlationId context) runId);
  markFire fireId fire_queued (Some runId) None.

Definition acceptWebhookTriggerFire (context : WebhookContext) (verifiedSecretRef : option string) : Stmt json :=
  trigger ← selectWebhookTrigger (wc_triggerId context);
  match trigger with
  | None => api_fail RESOURCE_NOT_FOUND []
  | Some trigger =>
      if negb (bool_decide (tr_webhook_secret_ref trigger = verifiedSecretRef))
      then api_fail UNAUTHENTICATED (error_reason "webhook_secret_ref_rotated") else
      if negb (bool_decide (tr_status trigger = trigger_enabled))
      then api_fail IR_SCHEMA_INVALID (error_reason "webhook_trigger_not_enabled") else
      _ ← interleave;
      fireId ← fresh_uuid uuid;
      correlationId ← normalizeCorrelationId (wc_correlationId context);
      inserted ← insert_fire fireId (wc_triggerId context) (wc_fireKey context) (column_of_ms (wc_receivedAt context)) correlationId;
      if negb inserted then
        existing ← requireWebhookFire (wc_triggerId context) (wc_fireKey context);
        mret (mapWebhookFire existing true)
      else
        _ ← interleave;
        activeRuns ← api_select (active_runs (wc_triggerId context));
        _ ← if (tr_max_concurrent_runs trigger <=? Z.of_nat activeRuns)%Z
            then markFire fireId fire_skipped None (Some (JObj [("code", JStr "MAX_CONCURRENCY_REACHED")]))
            else savepoint (create_webhook_run trigger fireId context)
                   (λ err, markFire fireId fire_failed None (Some (failureReason db_message err)));
        row ← requireWebhookFire (wc_triggerId context) (wc_fireKey context);
        mret (mapWebhookFire row false)
  end.

Definition isTenantOffboardingLocked : Act bool := tenantTx (api_select a_offboarding).

(** A throw of the secret boundary passes through. *)
Definition resolve_secret (ref : option string) : Act string :=
  match boundary with
  | None => p_fail CONTROL_PLANE_INTERNAL_ERROR (error_reason "webhook_secret_boundary_not_configured")
  | Some resolve => match resolve (default EmptyString ref) with Ok s => mret s | Err e => p_throw e end
  end.

(** The handler of [POST /v1/webhooks/run-triggers/:tenantId/:triggerId]. *)
Definition webhook_route (paramTenant paramTrigger : string) (rawBody : option json) (rawHeaders : string → option json)
    (correlationId : string) : Act json :=
  _ ← requireUuidParam paramTenant "tenant_id";
  triggerId ← requireUuidParam paramTrigger "trigger_id";
  body ← requireObjectBody rawBody;
  headers ← parseWebhookHeaders rawHeaders;
  receivedAt ← p_now;
  triggerForAuth ← tenantTx (selectWebhookTrigger triggerId);
  match triggerForAuth with
  | None => p_fail RESOURCE_NOT_FOUND []
  | Some triggerForAuth =>
      if negb (bool_decide (tr_status triggerForAuth = trigger_enabled))
      then p_fail IR_SCHEMA_INVALID (error_reason "webhook_trigger_not_enabled") else
      secret ← resolve_secret (tr_webhook_secret_ref triggerForAuth);
      if negb (verifyWebhookSignature secret (wh_signature headers)
                 (webhookSigningPayload (wh_timestamp headers) (wh_eventId headers) body))
      then p_fail UNAUTHENTICATED (error_reason "invalid_webhook_signature") else
      locked ← isTenantOffboardingLocked;
      if (locked : bool) then p_fail TENANT_OFFBOARDING (error_reason "tenant_offboarding_locked") else
      tenantTx (acceptWebhookTriggerFire
        (mkContext triggerId (wh_eventId headers) ("webhook:" +:+ wh_eventId headers) body receivedAt correlationId)
        (tr_webhook_secret_ref triggerForAuth))
  end.
End Webhooks.
