(* ===== verification/TriggerCommands.v ===== *)
(** * The commands on run triggers

    Models [app/src/api/run-triggers.ts] and [run-triggers-parse.ts]: the bodies of
    the requests, and the commands that create, change, pause and resume a trigger,
    run through [runIdempotentCommand].  Each reads the trigger without locking it
    and then updates the row others may have changed meanwhile ([interleave]). *)

From stdpp Require Import base strings list gmap pretty.
From Stdlib Require Import Ascii ZArith.
From S2P Require Import Prelude StateMachine JsValue RuntimeStore Rbac JsText Schedule Database Leases ErrorCatalog ApiShared AuditLog ApiStore ApiRuns Triggers.

(** A parsed body; [undefined] is [None], and the [null] of [next_fire_at] is
    [Some None]. *)
Record TriggerBody := mkBody {
  tb_trigger_type : option TriggerType;
  tb_scenario_version_id : string;
  tb_cron_expression : option string;
  tb_timezone : option string;
  tb_webhook_secret_ref : option string;
  tb_params : option json;
  tb_catchup_policy : option CatchupPolicy;
  tb_max_concurrent_runs : option Z;
  tb_next_fire_at : option (option string)
}.

Definition CronFieldName_str (f : CronFieldName) : string :=
  match f with
  | f_minute => "minute" | f_hour => "hour" | f_day_of_month => "day_of_month" | f_month => "month" | f_day_of_week => "day_of_week"
  end.

Definition cronOrApiError {A} (r : cron A) : result ApiExn A :=
  match r with
  | Ok x => Ok x
  | Err e => refuse [("reason", JStr "invalid_cron_expression"); ("detail", JStr (ce_reason e));
                     ("field", match ce_field e with Some f => JStr (CronFieldName_str f) | None => JNull end)]
  end.

(** ** Bodies *)

Definition parseKnownBody (raw : option json) (allowed : list string) : result ApiExn (list (string * json)) :=
  match raw with
  | Some (JObj f) =>
      match List.filter (λ p, negb (string_in p.1 allowed)) f with
      | p :: _ => refuse [("reason", JStr "unknown_field"); ("field", JStr p.1)]
      | [] => Ok f
      end
  | _ => refuse (error_reason "request_body_object_required")
  end.

Definition requireUuid (value : option json) (field : string) : result ApiExn string :=
  match value with
  | Some (JStr s) => if UUID_RE s then Ok s else refuse (error_reason (field +:+ "_required"))
  | _ => refuse (error_reason (field +:+ "_required"))
  end.
Definition requireNonEmptyString (value : option json) (field : string) : result ApiExn string :=
  match value with
  | Some (JStr (String _ _ as s)) => Ok s
  | _ => refuse (error_reason (field +:+ "_required"))
  end.
Definition requireCronExpression (value : option json) : result ApiExn string :=
  cronExpression ← requireNonEmptyString value "cron_expression";
  _ ← cronOrApiError (parseCronExpression cronExpression);
  Ok cronExpression.
Definition optionalTriggerType (value : option json) : result ApiExn (option TriggerType) :=
  match value with
  | None => Ok None
  | Some (JStr s) => if decide (s = "cron") then Ok (Some trigger_cron) else
                     if decide (s = "webhook") then Ok (Some trigger_webhook) else refuse (error_reason "invalid_trigger_type")
  | Some _ => refuse (error_reason "invalid_trigger_type")
  end.
Definition requireSecretRef (value : option json) : result ApiExn string :=
  match value with
  | Some (JStr s) => if starts_with "secret://" s && (9 <? String.length s)%nat then Ok s
                     else refuse (error_reason "webhook_secret_ref_required")
  | _ => refuse (error_reason "webhook_secret_ref_required")
  end.
Definition optionalParams (value : option json) : result ApiExn (option json) :=
  match value with
  | None => Ok None
  | Some (JObj f) => Ok (Some (JObj f))
  | Some _ => refuse (error_reason "params_object_required")
  end.
Definition optionalCatchupPolicy (value : option json) : result ApiExn (option CatchupPolicy) :=
  match value with
  | None => Ok None
  | Some (JStr s) => if decide (s = "skip_missed") then Ok (Some skip_missed) else
                     if decide (s = "fire_once") then Ok (Some fire_once) else refuse (error_reason "invalid_catchup_policy")
  | Some _ => refuse (error_reason "invalid_catchup_policy")
  end.
Definition optionalPositiveInteger (value : option json) (field : string) : result ApiExn (option Z) :=
  match value with
  | None => Ok None
  | Some (JNum x) =>
      match num_to_Z x with
      | Some n => if (1 <=? n)%Z then Ok (Some n) else refuse (error_reason ("invalid_" +:+ field))
      | None => refuse (error_reason ("invalid_" +:+ field))
      end
  | Some _ => refuse (error_reason ("invalid_" +:+ field))
  end.

Section Commands.
(** The zones of the host; [Date.parse]; the microseconds PostgreSQL reads in a
    text; the tenant, the digest and the fresh ids. *)
Context (zone : string → option (Z → option (Z * Z * Z * Z * Z))) (date_parse : string → option Z).
Context (timestamptz_us : string → option Z).
Context (tenantId : string) (sha256 : string → string) (uuid : nat → string).

Definition requireTimezone (value : option json) : result ApiExn string :=
  timezone ← requireNonEmptyString value "timezone";
  match zone timezone with Some _ => Ok timezone | None => refuse (error_reason "invalid_timezone") end.

Definition optionalDateTimeOrNull (value : option json) : result ApiExn (option (option string)) :=
  match value with
  | None => Ok None
  | Some JNull => Ok (Some None)
  | Some (JStr s) => match date_parse s with Some _ => Ok (Some (Some s)) | None => refuse (error_reason "invalid_next_fire_at") end
  | Some _ => refuse (error_reason "invalid_next_fire_at")
  end.

Definition CREATE_FIELDS : list string :=
  ["trigger_type"; "scenario_version_id"; "cron_expression"; "timezone"; "webhook_secret_ref"; "params"; "catchup_policy";
   "max_concurrent_runs"; "next_fire_at"].
Definition UPDATE_FIELDS : list string :=
  ["cron_expression"; "timezone"; "webhook_secret_ref"; "params"; "catchup_policy"; "max_concurrent_runs"; "next_fire_at"].

Definition parseCreateBody (raw : option json) : result ApiExn TriggerBody :=
  f ← parseKnownBody raw CREATE_FIELDS;
  let field k := alookup k f in
  triggerType ← optionalTriggerType (field "trigger_type");
  match default trigger_cron triggerType with
  | trigger_webhook =>
      if bool_decide (is_Some (field "cron_expression")) || bool_decide (is_Some (field "timezone")) ||
         bool_decide (is_Some (field "next_fire_at"))
      then refuse (error_reason "webhook_trigger_forbids_cron_fields") else
      version ← requireUuid (field "scenario_version_id") "scenario_version_id";
      secretRef ← requireSecretRef (field "webhook_secret_ref");
      params ← optionalParams (field "params");
      catchup ← optionalCatchupPolicy (field "catchup_policy");
      maxRuns ← optionalPositiveInteger (field "max_concurrent_runs") "max_concurrent_runs";
      Ok (mkBody (Some trigger_webhook) version None None (Some secretRef) params catchup maxRuns (Some None))
  | trigger_cron =>
      nextFireAt ← optionalDateTimeOrNull (field "next_fire_at");
      if bool_decide (nextFireAt = Some None) then refuse (error_reason "cron_trigger_requires_next_fire_at") else
      if bool_decide (is_Some (field "webhook_secret_ref")) then refuse (error_reason "cron_trigger_forbids_webhook_secret_ref") else
      version ← requireUuid (field "scenario_version_id") "scenario_version_id";
      cronExpression ← requireCronExpression (field "cron_expression");
      timezone ← requireTimezone (field "timezone");
      params ← optionalParams (field "params");
      catchup ← optionalCatchupPolicy (field "catchup_policy");
      maxRuns ← optionalPositiveInteger (field "max_concurrent_runs") "max_concurrent_runs";
      Ok (mkBody (Some trigger_cron) version (Some cronExpression) (Some timezone) None params catchup maxRuns nextFireAt)
  end.

(** [value === undefined ? undefined : f(value)]. *)
Definition if_given {A} (value : option json) (f : option json → result ApiExn A) : result ApiExn (option A) :=
  match value with None => Ok None | Some _ => x ← f value; Ok (Some x) end.

Definition parseUpdateBody (raw : option json) : result ApiExn TriggerBody :=
  f ← parseKnownBody raw UPDATE_FIELDS;
  let field k := alookup k f in
  match f with
  | [] => refuse (error_reason "empty_update")
  | _ =>
      nextFireAt ← optionalDateTimeOrNull (field "next_fire_at");
      cronExpression ← if_given (field "cron_expression") requireCronExpression;
      timezone ← if_given (field "timezone") requireTimezone;
      secretRef ← if_given (field "webhook_secret_ref") requireSecretRef;
      params ← optionalParams (field "params");
      catchup ← optionalCatchupPolicy (field "catchup_policy");
      maxRuns ← optionalPositiveInteger (field "max_concurrent_runs") "max_concurrent_runs";
      Ok (mkBody None EmptyString cronExpression timezone secretRef params catchup maxRuns nextFireAt)
  end.

Definition validateTriggerId (value : string) : result ApiExn string :=
  if UUID_RE value then Ok value else Err (AE_api RESOURCE_NOT_FOUND None).

(** ** Responses *)

Definition TriggerType_str (t : TriggerType) : string := match t with trigger_cron => "cron" | trigger_webhook => "webhook" end.
Definition TriggerStatus_str (s : TriggerStatus) : string :=
  match s with trigger_enabled => "enabled" | trigger_paused => "paused" | trigger_archived => "archived" end.
Definition CatchupPolicy_str (c : CatchupPolicy) : string := match c with skip_missed => "skip_missed" | fire_once => "fire_once" end.

Definition mapRunTrigger (row : TriggerRow) (exposeSecretRef : bool) : json :=
  JObj [("trigger_id", JStr (tr_id row)); ("scenario_version_id", JStr (tr_scenario_version_id row));
        ("trigger_type", JStr (TriggerType_str (tr_type row))); ("status", JStr (TriggerStatus_str (tr_status row)));
        ("cron_expression", json_opt (tr_cron_expression row)); ("timezone", json_opt (tr_timezone row));
        ("webhook_secret_ref", if exposeSecretRef then json_opt (tr_webhook_secret_ref row) else JNull);
        ("webhook_secret_configured", JBool (bool_decide (is_Some (tr_webhook_secret_ref row))));
        ("params", recordOrEmpty (tr_params row)); ("catchup_policy", JStr (CatchupPolicy_str (tr_catchup_policy row)));
        ("max_concurrent_runs", JNum (num_of_Z (tr_max_concurrent_runs row)));
        ("next_fire_at", json_opt ((λ us, iso_of_ms (js_date us)) <$> tr_next_fire_at row));
        ("created_by", JStr (tr_created_by row)); ("created_at", JStr (iso_of_ms (js_date (tr_created_at row))));
        ("updated_at", JStr (iso_of_ms (js_date (tr_updated_at row))))].

Definition canManageRunTriggerSecretRef (p : Principal) : bool :=
  existsb (λ r, bool_decide (r ∈ [operator; reviewer; approver; admin])) (pn_roles p).

(** ** Commands *)

(** The text of a time as a column; [int] columns hold 32 bits. *)
Definition time_column (text : option string) : Stmt (option Z) :=
  match text with
  | None => mret None
  | Some s => match timestamptz_us s with
              | Some us => mret (Some us)
              | None => api_throw (AE_db (E_error "invalid input syntax for type timestamp with time zone"))
              end
  end.
Definition int_column (n : Z) : Stmt Z :=
  if (n <=? 2147483647)%Z then mret n else api_throw (AE_db (E_error "value is out of range for type integer")).

(** The time the schedule gives from now, in milliseconds. *)
Definition defaultNextFireAt (cronExpression timezone : string) : Stmt Z :=
  now ← api_select api_now;
  t ← lift (cronOrApiError (nextCronFireAfter zone cronExpression timezone (Some now)));
  if date_in_range t then mret t else api_throw (AE_error "Invalid time value").

Definition assertScenarioVersionExists (scenarioVersionId : string) : Stmt () :=
  found ← api_select (λ a, bool_decide (is_Some (scenario_versions (l_catalog (a_leases a)) !! scenarioVersionId)));
  if (found : bool) then mret tt else api_fail RESOURCE_NOT_FOUND (error_reason "scenario_version_not_found").

Definition createRunTrigger (subjectId : string) (body : TriggerBody) : Stmt CommandResponse :=
  _ ← assertScenarioVersionExists (tb_scenario_version_id body);
  id ← fresh_uuid uuid;
  nextFireAt ← match tb_trigger_type body with
               | Some trigger_webhook => mret None
               | _ =>
                   match tb_next_fire_at body with
                   | Some text => time_column text
                   | None => t ← defaultNextFireAt (default EmptyString (tb_cron_expression body)) (default EmptyString (tb_timezone body));
                             mret (Some (column_of_ms t))
                   end
               end;
  maxRuns ← int_column (default 1%Z (tb_max_concurrent_runs body));
  now ← api_select column_now;
  let row := mkTrigger id (tb_scenario_version_id body) (default trigger_cron (tb_trigger_type body)) trigger_enabled
               (tb_cron_expression body) (tb_timezone body) (tb_webhook_secret_ref body) (default (JObj []) (tb_params body))
               (default skip_missed (tb_catchup_policy body)) maxRuns nextFireAt subjectId now now in
  _ ← api_update (λ a, set_triggers (a_triggers a ++ [row]) a);
  mret (mkResponse 201 (mapRunTrigger row true)).

Definition selectTrigger (triggerId : string) : Stmt (option TriggerRow) :=
  api_select (λ a, head (List.filter (λ r, bool_decide (tr_id r = triggerId)) (a_triggers a))).
Definition requireTriggerExists (triggerId : string) : Stmt TriggerRow :=
  row ← selectTrigger triggerId;
  match row with Some row => mret row | None => api_fail RESOURCE_NOT_FOUND [] end.

Definition validateUpdateForTriggerType (existing : TriggerRow) (body : TriggerBody) : Stmt () :=
  match tr_type existing with
  | trigger_webhook =>
      if bool_decide (is_Some (tb_cron_expression body)) || bool_decide (is_Some (tb_timezone body)) ||
         bool_decide (is_Some (tb_next_fire_at body))
      then api_fail IR_SCHEMA_INVALID (error_reason "webhook_trigger_forbids_cron_fields") else mret tt
  | trigger_cron =>
      if bool_decide (is_Some (tb_webhook_secret_ref body))
      then api_fail IR_SCHEMA_INVALID (error_reason "cron_trigger_forbids_webhook_secret_ref") else mret tt
  end.

Definition requireExistingString (value : option string) (field : string) : Stmt string :=
  match value with Some s => mret s | None => api_fail IR_SCHEMA_INVALID (error_reason (field +:+ "_required")) end.

(** What the UPDATE sets: [None] leaves the column. *)
Definition nextFireAtForUpdate (existing : TriggerRow) (body : TriggerBody) : Stmt (option (option Z)) :=
  match tr_type existing with
  | trigger_webhook => mret (match tb_next_fire_at body with Some _ => Some None | None => None end)
  | trigger_cron =>
      match tb_next_fire_at body with
      | Some None => api_fail IR_SCHEMA_INVALID (error_reason "cron_trigger_requires_next_fire_at")
      | Some (Some text) => us ← time_column (Some text); mret (Some us)
      | None =>
          match tb_cron_expression body, tb_timezone body with
          | None, None => mret None
          | c, z =>
              cron ← match c with Some c => mret c | None => requireExistingString (tr_cron_expression existing) "cron_expression" end;
              tz ← match z with Some z => mret z | None => requireExistingString (tr_timezone existing) "timezone" end;
              t ← defaultNextFireAt cron tz;
              mret (Some (Some (column_of_ms t)))
          end
      end
  end.

Definition or_else {A} (x y : option A) : option A := match x with Some _ => x | None => y end.

Definition updated_trigger (body : TriggerBody) (maxRuns : option Z) (nextFireAt : option (option Z)) (now : Z) (r : TriggerRow)
  : TriggerRow :=
  mkTrigger (tr_id r) (tr_scenario_version_id r) (tr_type r) (tr_status r) (or_else (tb_cron_expression body) (tr_cron_expression r))
    (or_else (tb_timezone body) (tr_timezone r)) (or_else (tb_webhook_secret_ref body) (tr_webhook_secret_ref r))
    (default (tr_params r) (tb_params body)) (default (tr_catchup_policy r) (tb_catchup_policy body))
    (default (tr_max_concurrent_runs r) maxRuns) (match nextFireAt with Some x => x | None => tr_next_fire_at r end)
    (tr_created_by r) (tr_created_at r) now.

(** The row as the UPDATE returned it. *)
Definition returned_row (triggerId : string) : Stmt CommandResponse :=
  row ← selectTrigger triggerId;
  match row with
  | Some row => mret (mkResponse 200 (mapRunTrigger row true))
  | None => api_throw (AE_error "Cannot read properties of undefined")
  end.

Definition trigger_is (triggerId : string) (r : TriggerRow) : bool := bool_decide (tr_id r = triggerId).

Definition updateRunTrigger (triggerId : string) (body : TriggerBody) : Stmt CommandResponse :=
  existing ← requireTriggerExists triggerId;
  _ ← validateUpdateForTriggerType existing body;
  nextFireAt ← nextFireAtForUpdate existing body;
  maxRuns ← match tb_max_concurrent_runs body with Some n => n ← int_column n; mret (Some n) | None => mret None end;
  _ ← interleave;
  _ ← update_triggers (trigger_is triggerId) (λ a, updated_trigger body maxRuns nextFireAt (column_now a));
  returned_row triggerId.

Definition changeTriggerStatus (triggerId : string) (status : TriggerStatus) : Stmt CommandResponse :=
  existing ← requireTriggerExists triggerId;
  resumeNextFireAt ← (if bool_decide (status = trigger_enabled) && bool_decide (tr_type existing = trigger_cron) &&
                         bool_decide (tr_next_fire_at existing = None)
                      then cron ← requireExistingString (tr_cron_expression existing) "cron_expression";
                           tz ← requireExistingString (tr_timezone existing) "timezone";
                           t ← defaultNextFireAt cron tz; mret (Some (column_of_ms t))
                      else mret None);
  _ ← interleave;
  _ ← update_triggers (trigger_is triggerId)
        (λ a r, with_schedule status (or_else resumeNextFireAt (tr_next_fire_at r)) (column_now a) r);
  returned_row triggerId.

(** ** Handlers *)

Definition route_createRunTrigger (q : Request) : Act CommandResponse :=
  body ← lift_act (parseCreateBody (qu_body q));
  runIdempotentCommand tenantId sha256 uuid q "createRunTrigger" "/v1/run-triggers"
    (createRunTrigger (pn_subjectId (qu_principal q)) body).

Definition route_updateRunTrigger (q : Request) (triggerId : string) : Act CommandResponse :=
  triggerId ← lift_act (validateTriggerId triggerId);
  body ← lift_act (parseUpdateBody (qu_body q));
  runIdempotentCommand tenantId sha256 uuid q "updateRunTrigger" ("/v1/run-triggers/" +:+ triggerId)
    (updateRunTrigger triggerId body).

Definition commandStatusChange (q : Request) (triggerId : string) (resume : bool) : Act CommandResponse :=
  triggerId ← lift_act (validateTriggerId triggerId);
  runIdempotentCommand tenantId sha256 uuid q (if resume then "resumeRunTrigger" else "pauseRunTrigger")
    ("/v1/run-triggers/" +:+ triggerId +:+ (if resume then "/resume" else "/pause"))
    (changeTriggerStatus triggerId (if resume then trigger_enabled else trigger_paused)).
End Commands.
