(* ===== verification/StmtLogic.v ===== *)
(** * Assertions on transactions that others disturb

    A Hoare logic for the [Stmt]s of [ApiStore]: an assertion speaks of the tables
    the transaction sees.  Others act at the points [interleave] with functions of
    which only a predicate [polite] is known; an assertion that every polite
    function keeps is [stable].  A body that throws says nothing of its tables,
    since they are dropped, at the end or at a savepoint. *)

From stdpp Require Import base strings list gmap.
From Stdlib Require Import ZArith Lia.
From S2P Require Import Prelude StateMachine JsValue Database Leases ErrorCatalog ApiShared ApiStore Triggers.

Section Logic.
Context (polite : (Api → Api) → Prop).

Definition stable (P : Api → Prop) : Prop := ∀ f a, polite f → P a → P (f a).

(** What a transaction did with its surroundings: some of the others acted. *)
Definition passed (t t' : Txn) : Prop :=
  ∃ seen, tx_env t = seen ++ tx_env t' ∧ tx_base t' = foldl (λ a f, f a) (tx_base t) seen.

Definition hoare {A} (P : Api → Prop) (m : Stmt A) (Q : A → Api → Prop) : Prop :=
  ∀ t t' r, Forall polite (tx_env t) → P (tx_mine t) → m t = (t', r) →
    passed t t' ∧ match r with Ok x => Q x (tx_mine t') | Err _ => True end.

Lemma passed_refl t t' : tx_env t' = tx_env t → tx_base t' = tx_base t → passed t t'.
Proof. intros H1 H2. exists []. by rewrite H1, H2. Qed.

Lemma passed_trans t1 t2 t3 : passed t1 t2 → passed t2 t3 → passed t1 t3.
Proof.
  intros (s & H1 & H2) (s' & H3 & H4). exists (s ++ s'). rewrite H1, H3, H4, H2, foldl_app, app_assoc. done.
Qed.

Lemma passed_env t t' : passed t t' → Forall polite (tx_env t) → Forall polite (tx_env t').
Proof. intros (s & -> & _) [_ H]%Forall_app. done. Qed.

Lemma stable_foldl P (fs : list (Api → Api)) a : stable P → Forall polite fs → P a → P (foldl (λ a f, f a) a fs).
Proof. intros HP Hf. revert a. induction Hf as [|f fs Hf _ IH]; intros a Ha; simpl; [done|]. by apply IH, HP. Qed.

(** ** Rules *)

Lemma hoare_ret {A} (x : A) (Q : A → Api → Prop) : hoare (Q x) (mret x) Q.
Proof. intros t t' r _ HP [= <- <-]. split; [by apply passed_refl|done]. Qed.

Lemma hoare_throw {A} P e (Q : A → Api → Prop) : hoare P (api_throw e) Q.
Proof. intros t t' r _ _ [= <- <-]. split; [by apply passed_refl|done]. Qed.

Lemma hoare_fail {A} P code details (Q : A → Api → Prop) : hoare P (api_fail code details) Q.
Proof. apply hoare_throw. Qed.

Lemma hoare_bind {A B} P (m : Stmt A) (f : A → Stmt B) Q R :
  hoare P m Q → (∀ x, hoare (Q x) (f x) R) → hoare P (m ≫= f) R.
Proof.
  intros Hm Hf t t' r Ht HP. unfold mbind, Stmt_bind. destruct (m t) as [t1 [x|e]] eqn:E.
  - destruct (Hm _ _ _ Ht HP E) as [H1 H2]. intros H.
    destruct (Hf x _ _ _ (passed_env _ _ H1 Ht) H2 H) as [H3 H4]. split; [by eapply passed_trans|done].
  - destruct (Hm _ _ _ Ht HP E) as [H1 _]. by intros [= <- <-].
Qed.

Lemma hoare_consequence {A} (P P' : Api → Prop) (m : Stmt A) (Q Q' : A → Api → Prop) :
  (∀ a, P' a → P a) → hoare P m Q → (∀ x a, Q x a → Q' x a) → hoare P' m Q'.
Proof.
  intros HP Hm HQ t t' r Ht H E. destruct (Hm _ _ _ Ht (HP _ H) E) as [H1 H2].
  split; [done|]. destruct r; eauto.
Qed.

Lemma hoare_pre {A} (P P' : Api → Prop) (m : Stmt A) Q : (∀ a, P' a → P a) → hoare P m Q → hoare P' m Q.
Proof. intros HP Hm. by eapply hoare_consequence. Qed.

Lemma hoare_post {A} P (m : Stmt A) (Q Q' : A → Api → Prop) : hoare P m Q → (∀ x a, Q x a → Q' x a) → hoare P m Q'.
Proof. intros Hm HQ. by eapply hoare_consequence. Qed.

Lemma hoare_select {A} P (f : Api → A) : hoare P (api_select f) (λ x a, P a ∧ x = f a).
Proof. intros t t' r _ HP [= <- <-]. split; [by apply passed_refl|done]. Qed.

Lemma hoare_update P f (Q : () → Api → Prop) : (∀ a, P a → Q tt (f a)) → hoare P (api_update f) Q.
Proof. intros Hf t t' r _ HP [= <- <-]. split; [by apply passed_refl|]. by apply Hf. Qed.

Lemma hoare_interleave P : stable P → hoare P interleave (λ _, P).
Proof.
  intros HP t t' r Ht H. unfold interleave. destruct (tx_env t) as [|f env] eqn:E; intros [= <- <-].
  - split; [by apply passed_refl|done].
  - split; [by exists [f]|]. simpl. inversion Ht; subst. by apply HP.
Qed.

Lemma hoare_uuid uuid P (Q : string → Api → Prop) :
  (∀ a, P a → Q (uuid (a_ids a)) (use_api_id a)) → hoare P (fresh_uuid uuid) Q.
Proof. intros HQ t t' r _ HP [= <- <-]. split; [by apply passed_refl|]. by apply HQ. Qed.

(** The statements of the other modules. *)
Lemma hoare_rows {A} P (m : Tx A) (Q : A → Api → Prop) :
  (∀ a x d, P a → m (a_db a) = Ok (x, d) → Q x (set_tables (a_leases a, d) a)) → hoare P (on_rows m) Q.
Proof.
  intros HQ t t' r _ HP. unfold on_rows, on_tables, on_db. simpl.
  destruct (m (a_db (tx_mine t))) as [[x d]|e] eqn:E; intros [= <- <-];
    (split; [by apply passed_refl|]); [|done]. simpl. by apply HQ.
Qed.

Lemma hoare_savepoint {A} P (body : Stmt A) recover Q :
  stable P → hoare P body Q → (∀ e, hoare P (recover e) Q) → hoare P (savepoint body recover) Q.
Proof.
  intros HP Hb Hr t t' r Ht H. unfold savepoint. destruct (body t) as [t1 [x|e]] eqn:E.
  - destruct (Hb _ _ _ Ht H E) as [H1 H2]. by intros [= <- <-].
  - destruct (Hb _ _ _ Ht H E) as [H1 _]. destruct H1 as (seen & H1 & H2). intros Er.
    assert (Hs : take (length (tx_env t) - length (tx_env t1)) (tx_env t) = seen).
    { rewrite H1, length_app. replace (_ + _ - _) with (length seen) by lia. apply take_app_length. }
    assert (Hp : passed t (rolled_back t t1)) by (exists seen; done).
    assert (HP' : P (tx_mine (rolled_back t t1))).
    { unfold rolled_back. simpl. rewrite Hs. apply stable_foldl; [done| |done].
      rewrite H1 in Ht. by apply Forall_app in Ht as [? _]. }
    destruct (Hr e _ _ _ (passed_env _ _ Hp Ht) HP' Er) as [H3 H4]. split; [by eapply passed_trans|done].
Qed.

Lemma hoare_if {A} P (b : bool) (m1 m2 : Stmt A) Q :
  (b = true → hoare P m1 Q) → (b = false → hoare P m2 Q) → hoare P (if b then m1 else m2) Q.
Proof. destruct b; auto. Qed.

(** A fact that does not depend on the tables. *)
Lemma hoare_pure {A} (φ : Prop) P (m : Stmt A) Q : (φ → hoare P m Q) → hoare (λ a, P a ∧ φ) m Q.
Proof. intros H t t' r Ht [HP Hφ]. by apply H. Qed.

Lemma hoare_exists {A B} (P : B → Api → Prop) (m : Stmt A) Q : (∀ b, hoare (P b) m Q) → hoare (λ a, ∃ b, P b a) m Q.
Proof. intros H t t' r Ht [b HP]. by apply (H b). Qed.

Lemma stable_and (P Q : Api → Prop) : stable P → stable Q → stable (λ a, P a ∧ Q a).
Proof. intros HP HQ f a Hf [H1 H2]. split; [by apply HP|by apply HQ]. Qed.

(** ** Transactions *)

(** A transaction as a whole: an assertion that others keep and the body keeps. *)
Lemma tenantTx_hoare {A} (P : Api → Prop) (body : Stmt A) (Q : A → Api → Prop) w w' r :
  stable P → hoare P body Q → Forall polite (aw_env w) → P (aw_api w) → tenantTx body w = (w', r) →
  Forall polite (aw_env w') ∧ match r with Ok x => Q x (aw_api w') | Err _ => P (aw_api w') end.
Proof.
  intros HP Hb Hw H. unfold tenantTx.
  set (a := match aw_env w with [] => aw_api w | f :: _ => f (aw_api w) end).
  assert (Ha : P a). { subst a. destruct Hw as [|f env Hf Henv]; [done|]. by apply HP. }
  assert (He : Forall polite (tail (aw_env w))) by (destruct Hw; done).
  destruct (body (mkTxn a a (tail (aw_env w)))) as [t [x|e]] eqn:E.
  - intros [= <- <-]. destruct (Hb (mkTxn a a (tail (aw_env w))) _ _ He Ha E) as [H1 H2].
    split; [exact (passed_env _ _ H1 He)|done].
  - intros [= <- <-]. destruct (Hb (mkTxn a a (tail (aw_env w))) _ _ He Ha E) as [H1 _].
    split; [exact (passed_env _ _ H1 He)|]. destruct H1 as (seen & H1 & H2). simpl in *. rewrite H2.
    apply stable_foldl; [done| |done]. rewrite H1 in He. by apply Forall_app in He as [? _].
Qed.
End Logic.

(** Follows a statement with one assertion that all of it keeps. *)
Ltac hoare_step :=
  match goal with
  | |- hoare _ _ (_ ≫= _) _ => eapply hoare_bind; [|intros ?]
  | |- hoare _ _ (if ?b then _ else _) _ => destruct b eqn:?
  | |- hoare _ _ (match ?x with _ => _ end) _ => destruct x eqn:?
  end.
