(* ===== verification/TriggerProps.v ===== *)
(** * Theorems on run triggers

    The ledger of fires stays consistent (one fire per scheduled instant or event,
    one run per fire, one fire per run), and the runs of a trigger stay within
    [max_concurrent_runs], whatever others commit in between; the exact outcome of
    a due trigger. *)

From stdpp Require Import base strings list gmap sets.
From Stdlib Require Import ZArith Lia.
From S2P Require Import Prelude StateMachine JsValue RuntimeStore JsText Schedule Database Leases ErrorCatalog ApiShared AuditLog ApiStore ApiRuns ApiCreate Triggers Webhooks StmtLogic.

(** ** What the creation of a run changes *)

(** Nothing of the triggers, and no run but [runId], which is new. *)
Definition frame (runId : string) (a b : Api) : Prop :=
  a_fires b = a_fires a ∧ (a_triggers b = a_triggers a ∧ api_now b = api_now a) ∧ a_ids a ≤ a_ids b ∧
  ∀ id, id ≠ runId ∨ is_Some (run_of id a) → run_of id b = run_of id a.

Definition closed (runId : string) (P : Api → Prop) : Prop := ∀ a b, frame runId a b → P a → P b.

Lemma frame_same runId a b : a_fires b = a_fires a → a_triggers b = a_triggers a → a_ids a ≤ a_ids b →
  Database.runs (a_db b) = Database.runs (a_db a) → api_now b = api_now a → frame runId a b.
Proof. intros H1 H2 H3 H4 H5. unfold frame, run_of. rewrite H4. auto. Qed.

Section Hoare.
Context (polite : (Api → Api) → Prop).
Notation hoare := (hoare polite).
Notation stable := (stable polite).

Section Invariant.
Context (runId : string) (P : Api → Prop) (HS : stable P) (HC : closed runId P).

Lemma inv_bind {A B} (m : Stmt A) (f : A → Stmt B) : hoare P m (λ _, P) → (∀ x, hoare P (f x) (λ _, P)) →
  hoare P (m ≫= f) (λ _, P).
Proof. intros Hm Hf. eapply hoare_bind; [exact Hm|done]. Qed.
Lemma inv_ret {A} (x : A) : hoare P (mret x) (λ _, P).
Proof. apply (hoare_ret polite x (λ _, P)). Qed.
Lemma inv_select {A} (f : Api → A) : hoare P (api_select f) (λ _, P).
Proof. eapply hoare_post; [apply hoare_select|]. by intros x a [? _]. Qed.
Lemma inv_uuid uuid : hoare P (fresh_uuid uuid) (λ _, P).
Proof. apply hoare_uuid. intros a. apply HC. apply frame_same; simpl; try done. lia. Qed.
Lemma inv_rows {A} (m : Tx A) : (∀ d x d', m d = Ok (x, d') → Database.runs d' = Database.runs d ∧ db_now d' = db_now d) → hoare P (on_rows m) (λ _, P).
Proof.
  intros Hm. apply hoare_rows. intros a x d HP E. apply (HC a); [|done].
  destruct (Hm _ _ _ E). by apply frame_same.
Qed.
Lemma inv_interleave : hoare P interleave (λ _, P).
Proof. by apply hoare_interleave. Qed.
End Invariant.

Lemma emit_runs e d x d' : emitOutboxEvent e d = Ok (x, d') → Database.runs d' = Database.runs d ∧ db_now d' = db_now d.
Proof. unfold emitOutboxEvent. destruct (negb _); [done|]. destruct (existsb _ _); [done|]. by intros [= _ <-]. Qed.
Lemma push_runs job d x d' : update (push_job job) d = Ok (x, d') → Database.runs d' = Database.runs d ∧ db_now d' = db_now d.
Proof. by intros [= _ <-]. Qed.

Ltac inv_step :=
  match goal with
  | |- hoare _ (_ ≫= _) _ => apply inv_bind; [|intros ?]
  | |- hoare _ (mret _) _ => apply inv_ret
  | |- hoare _ (api_select _) _ => apply inv_select
  | |- hoare _ (api_fail _ _) _ => apply hoare_fail
  | |- hoare _ (api_throw _) _ => apply hoare_throw
  | |- hoare _ (fresh_uuid _) _ => eapply inv_uuid; eassumption
  | |- hoare _ (on_rows (emitOutboxEvent _)) _ => eapply inv_rows; [eassumption|apply emit_runs]
  | |- hoare _ (on_rows (update (push_job _))) _ => eapply inv_rows; [eassumption|apply push_runs]
  | |- hoare _ interleave _ => by apply inv_interleave
  | |- hoare _ (if ?b then _ else _) _ => destruct b
  | |- hoare _ (match ?x with _ => _ end) _ => destruct x
  end.

(** The assertion between two statements. *)
Ltac then_with P := apply hoare_bind with (Q := λ _, P).

Section Create.
Context (tenantId : string) (uuid : nat → string) (timestamptz : string → bool).

Lemma inv_versions runId P m vs : stable P → closed runId P → hoare P (assert_versions_allowed tenantId m vs) (λ _, P).
Proof.
  intros HS HC. induction vs as [|v vs IH]; simpl; [apply inv_ret|].
  unfold evaluateAiGovernanceRuntime, evaluateEvidenceRequirements, assertAiGovernanceRuntimeAllowed.
  repeat first [exact IH|progress cbv zeta|inv_step].
Qed.

Lemma insert_run_frame i c m a : run_of (ci_runId i) a = None →
  frame (ci_runId i) a
    (set_requests (<[ci_runId i := mkRunRequest (ci_priority i) (ci_runMode i) (ci_asOf i)]> (a_requests a))
      (set_tables
         (set_run_columns (<[ci_runId i := mkRunColumns (uuid_text c) (ci_scenarioVersionId i) m (ci_params i) None]>
            (run_columns (l_catalog (a_leases a)))) (a_leases a),
          set_runs (<[ci_runId i := queued_run (ci_workitemId i)]> (Database.runs (a_db a))) (a_db a)) a)).
Proof.
  intros Hn. unfold frame, run_of in *. simpl. split; [done|]. split; [done|]. split; [done|].
  intros id Hid. rewrite lookup_insert_ne; [done|]. intros <-. destruct Hid as [?|Hid]; [done|].
  rewrite Hn in Hid. by destruct Hid.
Qed.

Lemma create_triple P i : stable P → closed (ci_runId i) P →
  hoare P (createRunInTx tenantId uuid timestamptz i) (λ x a, P a ∧ x = ci_runId i ∧ is_Some (run_of (ci_runId i) a)).
Proof.
  intros HS HC. unfold createRunInTx.
  set (R := λ a, P a ∧ is_Some (run_of (ci_runId i) a)).
  assert (HRC : closed (ci_runId i) R).
  { intros a b Hf [H1 H2]. split; [by eapply HC|]. destruct Hf as (_ & _ & _ & Hf). rewrite Hf; auto. }
  then_with P; [eapply inv_uuid; eassumption|intros fresh]. cbv zeta.
  set (cid := if UUID_RE _ then _ else _).
  then_with P; [apply inv_select|intros [target|]; [|apply hoare_fail]].
  destruct (negb _); [apply hoare_fail|].
  then_with P; [unfold resolve_model; repeat inv_step|intros model].
  then_with P; [destruct model; [by eapply inv_versions|apply inv_ret]|intros []].
  then_with P; [unfold check_workitem; repeat inv_step|intros []].
  then_with P; [by apply inv_interleave|intros []].
  then_with R.
  { unfold insert_run. eapply hoare_bind; [apply hoare_select|intros a0].
    case_bool_decide as Hn; [apply hoare_throw|].
    do 2 (apply hoare_if; intros _; [apply hoare_throw|]). apply hoare_update. intros a [Ha Ea]. subst a0. split.
    - eapply HC; [|exact Ha]. apply insert_run_frame. by apply eq_None_not_Some.
    - unfold run_of. simpl. rewrite lookup_insert_eq. by eexists. }
  intros []. then_with R; [eapply inv_rows; [exact HRC|apply emit_runs]|intros _].
  then_with R.
  { unfold enqueueRunClaim, enqueueDrivingJobWithPoolFlag, loadRunPriority, enqueueRuntimeJob. repeat inv_step. }
  intros []. eapply hoare_pre; [|apply hoare_ret]. by intros a [? ?].
Qed.
End Create.
End Hoare.

(** ** The ledger of fires *)

Definition key_pair (r : FireRow) : string * string := (fi_trigger_id r, fi_fire_key r).
Definition fires_of (id : string) (a : Api) : list FireRow :=
  List.filter (λ r, bool_decide (fi_trigger_id r = id)) (a_fires a).
Definition triggers_of (id : string) (a : Api) : list TriggerRow :=
  List.filter (λ r, bool_decide (tr_id r = id)) (a_triggers a).

Section Ledger.
Context (uuid : nat → string).

(** No fire has the [n]-th fresh id, as its own or as its run. *)
Definition unmentioned (n : nat) (a : Api) : Prop :=
  ∀ r, r ∈ a_fires a → fi_id r ≠ uuid n ∧ fi_run_id r ≠ Some (uuid n).

(** One fire per trigger and key, one id per fire, one fire per run; the runs exist
    (the foreign key); the ids to come are unused. *)
Record ledger_ok (a : Api) : Prop := mkLedgerOk {
  lo_keys : NoDup (map key_pair (a_fires a));
  lo_ids : NoDup (map fi_id (a_fires a));
  lo_runs : NoDup (omap fi_run_id (a_fires a));
  lo_exist : ∀ r runId, r ∈ a_fires a → fi_run_id r = Some runId → is_Some (run_of runId a);
  lo_fresh : ∀ n, a_ids a ≤ n → run_of (uuid n) a = None ∧ unmentioned n a
}.

(** What others may do while a transaction holds the rows of the triggers
    [held]: they keep the ledger consistent, do not use an id the transaction drew,
    do not touch the held triggers and their fires, and no run disappears or comes
    back from its end. *)
Definition polite (held : string → Prop) (f : Api → Api) : Prop := ∀ a,
  (ledger_ok a → ledger_ok (f a)) ∧ a_ids a ≤ a_ids (f a) ∧
  (∀ n, n < a_ids a → (unmentioned n a → unmentioned n (f a)) ∧ (run_of (uuid n) a = None → run_of (uuid n) (f a) = None)) ∧
  (∀ id, held id → fires_of id (f a) = fires_of id a ∧ triggers_of id (f a) = triggers_of id a) ∧
  (∀ id run, run_of id a = Some run → ∃ run', run_of id (f a) = Some run' ∧
     (r_status run ∈ RUN_TERMINAL_SET → r_status run' ∈ RUN_TERMINAL_SET)).

Context (uuid_inj : ∀ m n, uuid m = uuid n → m = n).

Lemma elem_of_fires_of id r a : r ∈ fires_of id a ↔ r ∈ a_fires a ∧ fi_trigger_id r = id.
Proof. unfold fires_of. rewrite !list_elem_of_In, filter_In, bool_decide_eq_true. done. Qed.

Lemma ledger_insert a n triggerId fireKey scheduledFor cid at_us :
  ledger_ok a → n < a_ids a → unmentioned n a → existsb (fire_at triggerId fireKey) (a_fires a) = false →
  ledger_ok (set_fires (a_fires a ++ [mkFire (uuid n) triggerId fireKey fire_queued scheduledFor None None cid at_us]) a).
Proof.
  intros [H1 H2 H3 H4 H5] Hn Hu Hk. split; simpl.
  - rewrite map_app. apply NoDup_app. split; [done|]. split; [|apply NoDup_singleton].
    intros k Hin ->%list_elem_of_singleton. apply list_elem_of_fmap in Hin as (r & Er & Hr).
    assert (Hf : fire_at triggerId fireKey r = true).
    { unfold fire_at, key_pair in *. simpl in Er. injection Er as -> ->. rewrite !bool_decide_eq_true_2 by done. done. }
    assert (existsb (fire_at triggerId fireKey) (a_fires a) = true); [|congruence].
    apply existsb_exists. exists r. split; [by apply list_elem_of_In|done].
  - rewrite map_app. apply NoDup_app. split; [done|]. split; [|apply NoDup_singleton].
    intros k Hin ->%list_elem_of_singleton. apply list_elem_of_fmap in Hin as (r & Er & Hr).
    destruct (Hu r Hr) as [? _]. done.
  - rewrite omap_app. simpl. by rewrite app_nil_r.
  - intros r runId [Hr| ->%list_elem_of_singleton]%elem_of_app; [|done]. by apply H4.
  - intros m Hm. destruct (H5 m Hm) as [H6 H7]. split; [done|].
    intros r [Hr| ->%list_elem_of_singleton]%elem_of_app; [by apply H7|]. simpl. split; [|done].
    intros E%uuid_inj. lia.
Qed.

Lemma set_run_nodup fireId (g : FireRow → FireRow) l :
  NoDup (map fi_id l) → NoDup (omap fi_run_id l) →
  (∀ r runId, r ∈ l → fi_id r = fireId → fi_run_id (g r) = Some runId → fi_run_id r = Some runId ∨
     ∀ r', r' ∈ l → fi_run_id r' ≠ Some runId) →
  NoDup (omap fi_run_id (map (λ r, if fire_is fireId r then g r else r) l)) ∧
  ∀ runId, runId ∈ omap fi_run_id (map (λ r, if fire_is fireId r then g r else r) l) →
    runId ∈ omap fi_run_id l ∨ ∃ r, r ∈ l ∧ fi_id r = fireId ∧ fi_run_id (g r) = Some runId.
Proof.
  induction l as [|r l IH]; intros Hi Hr Hg; simpl in *; [split; [done|set_solver]|].
  apply NoDup_cons in Hi as [Hi1 Hi2].
  assert (Hr' : NoDup (omap fi_run_id l)). { destruct (fi_run_id r); [by apply NoDup_cons in Hr as [_ ?]|done]. }
  destruct (IH Hi2 Hr') as [IH1 IH2]; clear IH.
  { intros r' runId Hin E1 E2. destruct (Hg r' runId) as [?|H]; [by right|done|done|by left|]. right.
    intros r'' Hin'. apply H. by right. }
  destruct (fire_is fireId r) eqn:Eh.
  - unfold fire_is in Eh. apply bool_decide_eq_true in Eh.
    assert (Hsame : map (λ r, if fire_is fireId r then g r else r) l = l).
    { rewrite <- (map_id l) at 2. apply map_ext_in. intros r' Hin%list_elem_of_In. unfold fire_is.
      rewrite bool_decide_eq_false_2; [done|]. intros E. apply Hi1. rewrite Eh, <- E. by apply list_elem_of_fmap_2. }
    rewrite Hsame. destruct (fi_run_id (g r)) as [x|] eqn:Ex.
    + assert (Hx : x ∉ omap fi_run_id l).
      { intros (r' & Hin & E)%list_elem_of_omap. destruct (Hg r x) as [E'|H]; [by left|done|done| |].
        - rewrite E' in Hr. apply NoDup_cons in Hr as [Hr _]. apply Hr. apply list_elem_of_omap. eauto.
        - by apply (H r'); [right|]. }
      split; [by apply NoDup_cons|]. intros runId [->|Hin]%elem_of_cons; [right; exists r; set_solver|left].
      destruct (fi_run_id r); [by right|done].
    + split; [done|]. intros runId Hin. left. destruct (fi_run_id r); [by right|done].
  - destruct (fi_run_id r) as [x|] eqn:Ex.
    + apply NoDup_cons in Hr as [Hr _]. split.
      * apply NoDup_cons. split; [|done]. intros Hin. destruct (IH2 x Hin) as [?|(r' & Hr1 & E1 & E2)]; [done|].
        destruct (Hg r' x) as [E'|H]; [by right|done|done| |].
        -- apply Hr, list_elem_of_omap. eauto.
        -- by apply (H r); [left|].
      * intros runId [->|Hin]%elem_of_cons; [left; by left|]. destruct (IH2 runId Hin) as [?|(r' & ? & ? & ?)]; [left; by right|].
        right. exists r'. set_solver.
    + split; [done|]. intros runId Hin. destruct (IH2 runId Hin) as [?|(r' & ? & ? & ?)]; [by left|]. right. exists r'. set_solver.
Qed.

(** The row of a fire is marked: its run is left, cleared, or set to a run no fire
    has. *)
Definition marks (fireId : string) (g : FireRow → FireRow) (a : Api) : Prop := ∀ r, r ∈ a_fires a →
  fi_id (g r) = fi_id r ∧ key_pair (g r) = key_pair r ∧
  (fi_id r = fireId → fi_run_id (g r) = fi_run_id r ∨ fi_run_id (g r) = None ∨
     ∃ runId, fi_run_id (g r) = Some runId ∧ is_Some (run_of runId a) ∧ ∀ r', r' ∈ a_fires a → fi_run_id r' ≠ Some runId).

Definition marked (fireId : string) (g : FireRow → FireRow) (a : Api) : Api :=
  set_fires (map (λ r, if fire_is fireId r then g r else r) (a_fires a)) a.

Lemma map_same {A B} (f : A → B) (g : A → A) l : (∀ x, x ∈ l → f (g x) = f x) → map f (map g l) = map f l.
Proof. intros H. rewrite map_map. apply map_ext_in. intros x Hx. apply H. by apply list_elem_of_In. Qed.

Lemma ledger_marked fireId g a : ledger_ok a → marks fireId g a → ledger_ok (marked fireId g a).
Proof.
  intros [H1 H2 H3 H4 H5] Hg.
  assert (Hrun : ∀ r runId, r ∈ a_fires a → fi_id r = fireId → fi_run_id (g r) = Some runId →
    is_Some (run_of runId a) ∧ (fi_run_id r = Some runId ∨ ∀ r', r' ∈ a_fires a → fi_run_id r' ≠ Some runId)).
  { intros r runId Hr E1 E2. destruct (Hg r Hr) as (_ & _ & H). destruct (H E1) as [E|[E|(x & E & Hx & H')]].
    - rewrite E in E2. split; [by eapply H4|by left].
    - congruence.
    - rewrite E in E2. injection E2 as <-. auto. }
  destruct (set_run_nodup fireId g (a_fires a) H2 H3) as [H6 H7]; [intros; by apply Hrun|].
  split; simpl.
  - rewrite map_same; [done|]. intros r Hr. destruct (fire_is fireId r); [|done]. apply Hg. done.
  - rewrite map_same; [done|]. intros r Hr. destruct (fire_is fireId r); [|done]. apply Hg. done.
  - done.
  - intros r runId Hr E. destruct (H7 runId) as [H|(r' & Hr' & E1 & E2)].
    { apply list_elem_of_omap. eauto. }
    + apply list_elem_of_omap in H as (r' & Hr' & E'). by eapply H4.
    + by apply (Hrun r').
  - intros n Hn. destruct (H5 n Hn) as [H8 H9]. split; [done|].
    intros r (r0 & -> & Hr0)%list_elem_of_fmap. destruct (Hg r0 Hr0) as (E & _ & _). destruct (H9 r0 Hr0) as [H10 H11].
    destruct (fire_is fireId r0) eqn:Ef; [|done]. rewrite E. split; [done|]. intros E'.
    unfold fire_is in Ef. apply bool_decide_eq_true in Ef. destruct (Hrun r0 _ Hr0 Ef E') as [[? Hx] _].
    unfold run_of in *. congruence.
Qed.

(** ** Counting the active runs of a trigger *)

Lemma active_runs_of id a : active_runs id a = length (List.filter (fire_active a) (fires_of id a)).
Proof.
  unfold active_runs, fires_of. induction (a_fires a) as [|r l IH]; simpl; [done|].
  case_bool_decide; simpl; [|done]. destruct (fire_active a r); simpl; by rewrite IH.
Qed.

Lemma filter_length_bound {A} (p q : A → bool) l : (∀ x, x ∈ l → p x = true → q x = true) →
  length (List.filter p l) ≤ length (List.filter q l).
Proof.
  induction l as [|x l IH]; intros H; simpl; [done|].
  assert (IH' : length (List.filter p l) ≤ length (List.filter q l)) by (apply IH; intros; apply H; [by right|done]).
  assert (Hx := H x ltac:(by left)). destruct (p x); [rewrite Hx by done; simpl; lia|].
  destruct (q x); simpl; lia.
Qed.

Lemma polite_active held f a id : polite held f → ledger_ok a → held id → active_runs id (f a) ≤ active_runs id a.
Proof.
  intros Hf Ha Hid. destruct (Hf a) as (_ & _ & _ & H & Hrun). destruct (H id Hid) as [Hfires _].
  rewrite !active_runs_of, Hfires. apply filter_length_bound. intros r [Hr _]%elem_of_fires_of.
  unfold fire_active. destruct (fi_run_id r) as [runId|] eqn:E; [|done].
  destruct (lo_exist a Ha r runId Hr E) as [run Er]. destruct (Hrun runId run Er) as (run' & Er' & Ht).
  rewrite Er, Er', !bool_decide_eq_true. tauto.
Qed.

(** Marking a fire that had no run adds at most one active run, to its trigger. *)
Lemma active_marked fireId g a id (r0 : FireRow) : ledger_ok a → marks fireId g a → r0 ∈ a_fires a → fi_id r0 = fireId →
  active_runs id (marked fireId g a) ≤ active_runs id a + (if decide (fi_trigger_id r0 = id) then 1 else 0).
Proof.
  intros Ha Hg Hr0 E0. unfold active_runs, marked. simpl.
  assert (Hids := lo_ids a Ha). revert Hids Hr0 Hg. unfold marks.
  change (fire_active (set_fires ?x ?y)) with (fire_active y).
  generalize (a_fires a) as l. intros l Hids Hr0 Hg.
  assert (Hg' : ∀ r, r ∈ l → fi_trigger_id (g r) = fi_trigger_id r).
  { intros r Hr. destruct (Hg r Hr) as (_ & E & _). by injection E. }
  clear Hg. induction l as [|r l IH]; [by apply not_elem_of_nil in Hr0|]. simpl in *.
  apply NoDup_cons in Hids as [Hn Hids].
  assert (Hrest : ∀ k, fi_id r = fireId → List.filter k (map (λ r, if fire_is fireId r then g r else r) l) = List.filter k l).
  { intros k Er. f_equal. rewrite <- (map_id l) at 2. apply map_ext_in. intros r' Hin%list_elem_of_In. unfold fire_is.
    rewrite bool_decide_eq_false_2; [done|]. intros E. apply Hn. rewrite Er, <- E. by apply list_elem_of_fmap_2. }
  apply elem_of_cons in Hr0 as [->|Hr0].
  - assert (Ef : fire_is fireId r = true) by by apply bool_decide_eq_true_2. rewrite Ef, Hrest by done.
    rewrite (Hg' r) by by left. destruct (decide (fi_trigger_id r = id)) as [E|E].
    + rewrite bool_decide_eq_true_2 by done. simpl. destruct (fire_active a (g r)), (fire_active a r); simpl; lia.
    + rewrite bool_decide_eq_false_2 by done. simpl. lia.
  - assert (Hne : fi_id r ≠ fireId). { intros E. apply Hn. rewrite E, <- E0. by apply list_elem_of_fmap_2. }
    assert (Ef : fire_is fireId r = false) by by apply bool_decide_eq_false_2. rewrite Ef.
    assert (IH' := IH Hids Hr0 (λ r' Hr', Hg' r' (list_elem_of_further _ _ _ Hr'))).
    destruct (_ && _); simpl; lia.
Qed.

(** ** The assertions of a fire

    [held] are the triggers whose rows the transaction holds, [count] their active
    runs at its beginning and [lim] their limits. *)
Section Fire.
Context (held : string → Prop) (count lim : string → nat).
Notation hoare := (hoare (polite held)).
Notation stable := (stable (polite held)).

Definition bounded (a : Api) : Prop := ∀ id, held id → active_runs id a ≤ Nat.max (count id) (lim id).
Definition J (a : Api) : Prop := ledger_ok a ∧ bounded a.
(** The [n]-th fresh id is drawn and not used yet. *)
Definition drawn (n : nat) (a : Api) : Prop := J a ∧ n < a_ids a ∧ unmentioned n a.
(** The fire is in the ledger, for the trigger. *)
Definition entered (fireId triggerId : string) (a : Api) : Prop :=
  J a ∧ ∃ r, r ∈ a_fires a ∧ fi_id r = fireId ∧ fi_trigger_id r = triggerId.
Definition room (triggerId : string) (a : Api) : Prop := active_runs triggerId a < lim triggerId.

Lemma J_stable : stable J.
Proof.
  intros f a Hf [H1 H2]. assert (Hp := Hf a). destruct Hp as (Hl & _). split; [auto|].
  intros id Hid. assert (H := polite_active held f a id Hf H1 Hid). specialize (H2 id Hid). lia.
Qed.
Lemma drawn_stable n : stable (drawn n).
Proof.
  intros f a Hf (H1 & H2 & H3). destruct (Hf a) as (_ & Hi & Hn & _). split; [by apply J_stable|].
  split; [lia|]. by apply Hn.
Qed.
Lemma entered_stable fireId triggerId : held triggerId → stable (entered fireId triggerId).
Proof.
  intros Hh f a Hf (H1 & r & Hr & E1 & E2). split; [by apply J_stable|]. destruct (Hf a) as (_ & _ & _ & H & _).
  destruct (H triggerId Hh) as [Hfires _]. exists r. split; [|done].
  assert (Hin : r ∈ fires_of triggerId (f a)) by (rewrite Hfires; by apply elem_of_fires_of).
  by apply elem_of_fires_of in Hin as [? _].
Qed.

(** An assertion that reads the fires, the runs and the counter only. *)
Lemma hoare_triggers {A} (P : Api → Prop) (Q : A → Api → Prop) hit g (k : () → Stmt A) :
  (∀ a x, P a → P (set_triggers x a)) → (hoare P (k tt) Q) → hoare P (update_triggers hit g ≫= k) Q.
Proof.
  intros HP Hk. apply hoare_bind with (Q := λ _, P); [|by intros []]. apply hoare_update. intros a. apply HP.
Qed.
Lemma J_triggers a x : J a → J (set_triggers x a).
Proof. intros [[H1 H2 H3 H4 H5] H6]. split; [by split|done]. Qed.
Lemma entered_triggers fireId triggerId a x : entered fireId triggerId a → entered fireId triggerId (set_triggers x a).
Proof. intros [H1 H2]. split; [by apply J_triggers|done]. Qed.

Lemma J_use_id a : J a → J (use_api_id a).
Proof.
  intros [[H1 H2 H3 H4 H5] H6]. split; [split; try done|done]. intros n Hn. apply H5. simpl in Hn. lia.
Qed.

Lemma draw_hoare : hoare J (fresh_uuid uuid) (λ x a, ∃ n, x = uuid n ∧ drawn n a).
Proof.
  apply hoare_uuid. intros a Ha. exists (a_ids a). split; [done|]. split; [by apply J_use_id|]. simpl. split; [lia|].
  apply (lo_fresh a (proj1 Ha) (a_ids a)). lia.
Qed.
Lemma draw_again_hoare n : hoare (drawn n) (fresh_uuid uuid) (λ _, drawn n).
Proof. apply hoare_uuid. intros a (H1 & H2 & H3). split; [by apply J_use_id|]. simpl. split; [lia|done]. Qed.

Lemma active_no_run id a r x : fi_run_id r = None → active_runs id (set_fires (a_fires a ++ [r]) x) =
  length (List.filter (λ r, bool_decide (fi_trigger_id r = id) && fire_active x r) (a_fires a)).
Proof.
  intros E. unfold active_runs. simpl. rewrite List.filter_app, length_app. simpl.
  change (fire_active (set_fires ?u ?v)) with (fire_active v).
  assert (Hr : fire_active x r = false) by (unfold fire_active; by rewrite E). rewrite Hr, andb_false_r. simpl. lia.
Qed.

Lemma insert_hoare n triggerId fireKey scheduledFor cid :
  hoare (drawn n) (insert_fire (uuid n) triggerId fireKey scheduledFor cid)
    (λ (b : bool) a, if b then entered (uuid n) triggerId a else J a).
Proof.
  unfold insert_fire. eapply hoare_bind; [apply hoare_select|intros a0].
  destruct (existsb (fire_at triggerId fireKey) (a_fires a0)) eqn:Ek.
  { eapply hoare_pre; [|apply (hoare_ret _ false)]. by intros a [[? _] _]. }
  apply hoare_if; intros _; [apply hoare_throw|].
  apply hoare_bind with (Q := λ _, entered (uuid n) triggerId).
  2:{ intros []. eapply hoare_pre; [|apply (hoare_ret _ true)]. done. }
  apply hoare_update. intros a [([H1 H2] & H3 & H4) Ea]. subst a0.
  set (row := mkFire (uuid n) triggerId fireKey fire_queued scheduledFor None None (uuid_text cid) (column_now a)).
  split; [split; [by apply ledger_insert|]|].
  - intros id Hid. rewrite active_no_run by done. apply (H2 id Hid).
  - exists row. split; [simpl; set_solver|done].
Qed.

(** A mark that gives the fire no run. *)
Lemma mark_hoare fireId triggerId g :
  (∀ r, fi_id (g r) = fi_id r ∧ key_pair (g r) = key_pair r ∧ (fi_run_id (g r) = fi_run_id r ∨ fi_run_id (g r) = None)) →
  hoare (entered fireId triggerId) (update_fires (fire_is fireId) g) (λ _, entered fireId triggerId).
Proof.
  intros Hg. apply hoare_update. intros a ([H1 H2] & r & Hr & E1 & E2).
  assert (Hm : marks fireId g a). { intros r' _. destruct (Hg r') as (? & ? & ?). naive_solver. }
  split; [split; [by apply ledger_marked|]|].
  - intros id Hid. specialize (H2 id Hid). etransitivity; [|exact H2]. rewrite !active_runs_of. unfold fires_of.
    change (fire_active (set_fires ?u ?v)) with (fire_active v). simpl. clear -Hg.
    induction (a_fires a) as [|r l IH]; simpl; [done|]. destruct (fire_is fireId r).
    + destruct (Hg r) as (_ & E & Hrun). injection E as Et _. rewrite Et. case_bool_decide; simpl; [|done].
      assert (Ha : fire_active a (g r) = true → fire_active a r = true).
      { unfold fire_active. destruct Hrun as [->| ->]; [done|discriminate]. }
      destruct (fire_active a (g r)); [rewrite Ha by done; simpl; lia|]. destruct (fire_active a r); simpl; lia.
    + case_bool_decide; simpl; [|done]. destruct (fire_active a r); simpl; lia.
  - exists (if fire_is fireId r then g r else r). split.
    { simpl. apply list_elem_of_fmap. by exists r. }
    destruct (fire_is fireId r); [|done]. destruct (Hg r) as (E3 & E4 & _). injection E4 as E4 _. by rewrite E3, E4.
Qed.

(** The run of a fire: drawn, created, attached. *)
Definition ready (fireId triggerId : string) (n : nat) (a : Api) : Prop :=
  entered fireId triggerId a ∧ room triggerId a ∧ n < a_ids a ∧ unmentioned n a.

Lemma ready_stable fireId triggerId n : held triggerId → stable (ready fireId triggerId n).
Proof.
  intros Hh f a Hf (H1 & H2 & H3 & H4). destruct (Hf a) as (_ & Hi & Hn & _).
  assert (Hact := polite_active held f a triggerId Hf (proj1 (proj1 H1)) Hh).
  split; [by apply entered_stable|]. unfold room in *. split; [lia|]. split; [lia|]. by apply Hn.
Qed.

Lemma frame_active id n a b : frame (uuid n) a b → unmentioned n a → active_runs id b = active_runs id a.
Proof.
  intros (H1 & _ & _ & H2) Hu. rewrite !active_runs_of. unfold fires_of. rewrite H1.
  f_equal. apply List.filter_ext_in. intros r [Hr _]%filter_In. apply list_elem_of_In in Hr. unfold fire_active.
  destruct (Hu r Hr) as [_ Hne]. destruct (fi_run_id r) as [x|]; [|done]. rewrite H2; [done|]. left. congruence.
Qed.

Lemma frame_ledger n a b : frame (uuid n) a b → n < a_ids a → ledger_ok a → ledger_ok b.
Proof.
  intros (H1 & _ & H2 & H3) Hn [L1 L2 L3 L4 L5]. split; rewrite ?H1; try done.
  - intros r x Hr E. rewrite H3; [by eapply L4|]. right. by eapply L4.
  - intros m Hm. destruct (L5 m) as [L6 L7]; [lia|]. split.
    + rewrite H3; [done|]. left. intros E%uuid_inj. lia.
    + intros r. rewrite H1. apply L7.
Qed.

Lemma ready_closed fireId triggerId n : closed (uuid n) (ready fireId triggerId n).
Proof.
  intros a b Hf (([H1 H2] & H3) & H4 & H5 & H6). assert (Hact := λ id, frame_active id n a b Hf H6).
  unfold ready, entered, J, bounded, room, unmentioned. destruct Hf as (Hf1 & Hf2 & Hf3 & Hf4) eqn:Ef. rewrite Hf1.
  split; [split; [split|done]|].
  - by apply (frame_ledger n a).
  - intros id Hid. rewrite Hact. by apply H2.
  - rewrite Hact. split; [done|]. split; [lia|done].
Qed.

Lemma attach_hoare fireId triggerId n (g : FireRow → FireRow) : held triggerId →
  (∀ r, fi_id (g r) = fi_id r ∧ key_pair (g r) = key_pair r ∧ fi_run_id (g r) = Some (uuid n)) →
  hoare (λ a, ready fireId triggerId n a ∧ is_Some (run_of (uuid n) a)) (update_fires (fire_is fireId) g)
    (λ _, entered fireId triggerId).
Proof.
  intros Hh Hg. apply hoare_update. intros a [(([H1 H2] & r & Hr & E1 & E2) & H4 & H5 & H6) Hrun].
  assert (Hm : marks fireId g a).
  { intros r' Hr'. destruct (Hg r') as (E3 & E4 & E5). split; [done|]. split; [done|]. intros _. right. right.
    exists (uuid n). split; [done|]. split; [done|]. intros r'' Hr''. by destruct (H6 r'' Hr''). }
  split; [split; [by apply ledger_marked|]|].
  - intros id Hid. assert (Hle := active_marked fireId g a id r H1 Hm Hr E1). specialize (H2 id Hid).
    unfold marked, room in *. destruct (decide (fi_trigger_id r = id)) as [<-|]; [|lia]. rewrite E2 in *. lia.
  - exists (g r). split.
    + simpl. apply list_elem_of_fmap. exists r. split; [|done].
      assert (Ef : fire_is fireId r = true) by by apply bool_decide_eq_true_2. by rewrite Ef.
    + destruct (Hg r) as (E3 & E4 & _). injection E4 as E4 _. by rewrite E3, E4.
Qed.

Section Runs.
Context (tenantId : string) (timestamptz : string → bool).

(** Both kinds of fire create their run so. *)
Lemma create_run_hoare {B} fireId triggerId input (fin : string → Stmt B) (Q : B → Api → Prop) : held triggerId →
  (∀ x, ci_runId (input x) = x) →
  (∀ n, hoare (λ a, ready fireId triggerId n a ∧ is_Some (run_of (uuid n) a)) (fin (uuid n)) Q) →
  hoare (λ a, entered fireId triggerId a ∧ room triggerId a)
    (runId ← fresh_uuid uuid; _ ← createRunInTx tenantId uuid timestamptz (input runId); fin runId) Q.
Proof.
  intros Hh Hi Hfin.
  apply hoare_bind with (Q := λ x a, ∃ n, x = uuid n ∧ ready fireId triggerId n a).
  { apply hoare_uuid. intros a ([H1 H2] & H3). exists (a_ids a). split; [done|].
    assert (Hu := proj2 (lo_fresh a (proj1 H1) (a_ids a) ltac:(lia))).
    split; [split; [by apply J_use_id|done]|]. split; [done|]. simpl. split; [lia|done]. }
  intros x. apply hoare_exists. intros n. apply (hoare_pre _ (λ a, ready fireId triggerId n a ∧ x = uuid n)); [naive_solver|].
  apply hoare_pure. intros ->.
  eapply hoare_bind.
  { apply (create_triple (polite held) tenantId uuid timestamptz (ready fireId triggerId n)); rewrite ?Hi;
      [by apply ready_stable|apply ready_closed]. }
  intros y. rewrite Hi. eapply hoare_pre; [|apply Hfin]. by intros a (? & _ & ?).
Qed.

Section Cron.
Context (zone : string → option (Z → option (Z * Z * Z * Z * Z))) (db_message : DbError → string).

Lemma resolve_hoare P now trigger : hoare P (resolveNextFireAt zone now trigger) (λ _, P).
Proof.
  unfold resolveNextFireAt. cbv zeta. destruct (nextCronFireAfter _ _ _ _); [|apply inv_ret].
  destruct (date_in_range _); [apply inv_ret|apply hoare_throw].
Qed.

Lemma advance_J trigger t : hoare J (advanceTriggerSchedule trigger t) (λ _, J).
Proof. apply hoare_update. intros a. apply J_triggers. Qed.
Lemma pause_J trigger : hoare J (pauseTriggerForInvalidSchedule trigger) (λ _, J).
Proof. apply hoare_update. intros a. apply J_triggers. Qed.

(** A mark, a change of the schedule and the statistics. *)
Lemma mark_then fireId triggerId g (m : Stmt ()) (st : RunTriggerSchedulerStats) :
  (∀ r, fi_id (g r) = fi_id r ∧ key_pair (g r) = key_pair r ∧ (fi_run_id (g r) = fi_run_id r ∨ fi_run_id (g r) = None)) →
  hoare J m (λ _, J) →
  hoare (entered fireId triggerId) (_ ← update_fires (fire_is fireId) g; _ ← m; mret st) (λ _, J).
Proof.
  intros Hg Hm. apply hoare_bind with (Q := λ _, entered fireId triggerId); [by apply mark_hoare|intros []].
  apply hoare_bind with (Q := λ _, J); [|intros []; apply inv_ret]. eapply hoare_pre; [|exact Hm]. by intros a [? _].
Qed.

Lemma process_one_hoare now (cid : Stmt string) trigger :
  held (du_id trigger) → lim (du_id trigger) = Z.to_nat (du_max_concurrent_runs trigger) →
  (∀ n, hoare (drawn n) cid (λ _, drawn n)) →
  hoare J (processOneTriggerFire tenantId uuid timestamptz zone db_message now cid trigger) (λ _, J).
Proof.
  intros Hh Hl Hcid. unfold processOneTriggerFire. cbv zeta.
  apply hoare_bind with (Q := λ _, J); [apply hoare_interleave, J_stable|intros []].
  eapply hoare_bind; [apply draw_hoare|intros x]. apply hoare_exists. intros n.
  apply (hoare_pre _ (λ a, drawn n a ∧ x = uuid n)); [naive_solver|]. apply hoare_pure. intros ->.
  eapply hoare_bind; [apply Hcid|intros c]. eapply hoare_bind; [apply insert_hoare|intros inserted].
  destruct inserted; simpl.
  2:{ eapply hoare_bind; [apply resolve_hoare|intros next].
      apply hoare_bind with (Q := λ _, J); [destruct next; [apply advance_J|apply pause_J]|intros []; apply inv_ret]. }
  eapply hoare_bind; [apply resolve_hoare|intros [next|]].
  2:{ apply mark_then; [auto|apply pause_J]. }
  apply hoare_bind with (Q := λ _, entered (uuid n) (du_id trigger));
    [apply hoare_interleave; by apply entered_stable|intros []].
  eapply hoare_bind; [apply hoare_select|intros active].
  destruct (Z.leb_spec (du_max_concurrent_runs trigger) (Z.of_nat active)) as [Hfull|Hroom].
  { eapply hoare_pre; [intros a [H _]; exact H|]. apply mark_then; [auto|apply advance_J]. }
  apply (hoare_pre _ (λ a, entered (uuid n) (du_id trigger) a ∧ room (du_id trigger) a)).
  { intros a [H ->]. split; [done|]. unfold room. rewrite Hl. lia. }
  apply hoare_savepoint.
  - intros f a Hf [H1 H2]. split; [by apply entered_stable|].
    assert (Hact := polite_active held f a (du_id trigger) Hf (proj1 (proj1 H1)) Hh). unfold room in *. lia.
  - unfold create_and_advance. apply create_run_hoare; [done|done|]. intros m.
    apply hoare_bind with (Q := λ _, entered (uuid n) (du_id trigger)); [by apply (attach_hoare _ _ m)|intros []].
    apply hoare_bind with (Q := λ _, J); [|intros []; apply inv_ret].
    eapply hoare_pre; [|apply advance_J]. by intros a [? _].
  - intros e. eapply hoare_pre; [intros a [H _]; exact H|]. apply mark_then; [auto|apply advance_J].
Qed.

Lemma process_all_hoare now (cid : Stmt string) due :
  (∀ trigger, trigger ∈ due → held (du_id trigger) ∧ lim (du_id trigger) = Z.to_nat (du_max_concurrent_runs trigger)) →
  (∀ n, hoare (drawn n) cid (λ _, drawn n)) →
  hoare J (process_triggers tenantId uuid timestamptz zone db_message now cid due) (λ _, J).
Proof.
  intros Hd Hcid. induction due as [|trigger due IH]; simpl; [apply inv_ret|].
  apply hoare_bind with (Q := λ _, J); [|intros x].
  { apply process_one_hoare; [apply Hd; by left..|done]. }
  apply hoare_bind with (Q := λ _, J); [|intros y; apply inv_ret]. apply IH. intros tr Htr. apply Hd. by right.
Qed.
End Cron.

(** A webhook fires one trigger. *)
Lemma requireFire_hoare P triggerId fireKey : hoare P (requireWebhookFire triggerId fireKey) (λ _, P).
Proof.
  unfold requireWebhookFire. apply hoare_bind with (Q := λ _, P); [apply inv_select|intros [row|]; [apply inv_ret|apply hoare_fail]].
Qed.

Lemma accept_hoare (db_message : DbError → string) context ref (a0 : Api) :
  held (wc_triggerId context) →
  (∀ row, head (List.filter (λ r, bool_decide (tr_id r = wc_triggerId context) && bool_decide (tr_type r = trigger_webhook))
             (a_triggers a0)) = Some row → lim (wc_triggerId context) = Z.to_nat (tr_max_concurrent_runs row)) →
  hoare (λ a, J a ∧ a_triggers a = a_triggers a0)
    (acceptWebhookTriggerFire tenantId uuid timestamptz db_message context ref) (λ _, J).
Proof.
  intros Hh Hl. unfold acceptWebhookTriggerFire, selectWebhookTrigger.
  eapply hoare_bind; [apply hoare_select|intros [row|]]; [|apply hoare_fail].
  apply (hoare_pre _ (λ a, J a ∧ lim (wc_triggerId context) = Z.to_nat (tr_max_concurrent_runs row))).
  { intros a [[H E] Er]. split; [done|]. apply Hl. by rewrite <- E. }
  apply hoare_pure. intros Hlim.
  do 2 (apply hoare_if; intros _; [apply hoare_fail|]).
  apply hoare_bind with (Q := λ _, J); [apply hoare_interleave, J_stable|intros []].
  eapply hoare_bind; [apply draw_hoare|intros x]. apply hoare_exists. intros n.
  apply (hoare_pre _ (λ a, drawn n a ∧ x = uuid n)); [naive_solver|]. apply hoare_pure. intros ->.
  apply hoare_bind with (Q := λ _, drawn n).
  { unfold normalizeCorrelationId. destruct (UUID_RE _); [apply inv_ret|apply draw_again_hoare]. }
  intros c. eapply hoare_bind; [apply insert_hoare|intros inserted]. destruct inserted; simpl.
  2:{ eapply hoare_bind; [apply requireFire_hoare|intros r; apply inv_ret]. }
  apply hoare_bind with (Q := λ _, entered (uuid n) (wc_triggerId context));
    [apply hoare_interleave; by apply entered_stable|intros []].
  eapply hoare_bind; [apply hoare_select|intros active].
  apply hoare_bind with (Q := λ _, entered (uuid n) (wc_triggerId context)).
  2:{ intros []. apply hoare_bind with (Q := λ _, J); [|intros r; apply inv_ret].
      eapply hoare_pre; [|apply requireFire_hoare]. by intros a [? _]. }
  destruct (Z.leb_spec (tr_max_concurrent_runs row) (Z.of_nat active)) as [Hfull|Hroom].
  { eapply hoare_pre; [intros a [H _]; exact H|]. apply mark_hoare; auto. }
  apply (hoare_pre _ (λ a, entered (uuid n) (wc_triggerId context) a ∧ room (wc_triggerId context) a)).
  { intros a [H ->]. split; [done|]. unfold room. rewrite Hlim. lia. }
  apply hoare_savepoint.
  - intros f a Hf [H1 H2]. split; [by apply entered_stable|].
    assert (Hact := polite_active held f a (wc_triggerId context) Hf (proj1 (proj1 H1)) Hh). unfold room in *. lia.
  - unfold create_webhook_run. apply create_run_hoare; [done|done|]. intros m. by apply (attach_hoare _ _ m).
  - intros e. eapply hoare_pre; [intros a [H _]; exact H|]. apply mark_hoare; auto.
Qed.
End Runs.
End Fire.

(** ** The transactions *)

Lemma elem_of_insert_due r l x : x ∈ insert_due r l ↔ x = r ∨ x ∈ l.
Proof. induction l as [|y l IH]; simpl; [set_solver|]. destruct (due_before r y); set_solver. Qed.
Lemma elem_of_sorted_due l x : x ∈ foldr insert_due [] l ↔ x ∈ l.
Proof. induction l as [|y l IH]; simpl; [done|]. rewrite elem_of_insert_due, IH. set_solver. Qed.

Lemma due_is_trigger locked now limit a trigger : trigger ∈ due_triggers locked now limit a →
  ∃ row, row ∈ a_triggers a ∧ due_row row = Some trigger ∧ due_now now row = true ∧ a_offboarding a = false.
Proof.
  unfold due_triggers. destruct (a_offboarding a); [by intros ?%not_elem_of_nil|].
  intros (row & Hrow & E)%list_elem_of_omap. exists row.
  apply subseteq_take, elem_of_sorted_due, list_elem_of_In, filter_In in Hrow as [H1 H2].
  apply andb_true_iff in H2 as [H2 _]. split; [by apply list_elem_of_In|done].
Qed.

Lemma due_row_id row trigger : due_row row = Some trigger → du_id trigger = tr_id row.
Proof.
  unfold due_row. destruct (tr_cron_expression row); simpl; [|done]. destruct (tr_timezone row); simpl; [|done].
  destruct (tr_next_fire_at row); simpl; [|done]. by intros [= <-].
Qed.

Lemma row_unique rows (r s : TriggerRow) : NoDup (map tr_id rows) → r ∈ rows → s ∈ rows → tr_id r = tr_id s → r = s.
Proof.
  intros Hn [i Hi]%list_elem_of_lookup_1 [j Hj]%list_elem_of_lookup_1 E.
  assert (i = j) as ->.
  { eapply NoDup_lookup; [exact Hn| |]; rewrite list_lookup_fmap; [by rewrite Hi|]. rewrite Hj. simpl. by rewrite E. }
  congruence.
Qed.

(** The limit of a trigger among the due ones. *)
Definition due_limit (due : list DueRunTriggerRow) (id : string) : nat :=
  match head (List.filter (λ d, bool_decide (du_id d = id)) due) with
  | Some d => Z.to_nat (du_max_concurrent_runs d)
  | None => 0
  end.

Lemma due_limit_of locked now limit a trigger (due := due_triggers locked now limit a) :
  NoDup (map tr_id (a_triggers a)) → trigger ∈ due →
  due_limit due (du_id trigger) = Z.to_nat (du_max_concurrent_runs trigger).
Proof.
  intros Hn Ht. unfold due_limit. destruct (List.filter _ due) as [|d l] eqn:E.
  - assert (Hin : In trigger (List.filter (λ d, bool_decide (du_id d = du_id trigger)) due)).
    { apply filter_In. split; [by apply list_elem_of_In|]. by apply bool_decide_eq_true_2. }
    rewrite E in Hin. destruct Hin.
  - assert (Hd : In d (List.filter (λ d, bool_decide (du_id d = du_id trigger)) due)) by (rewrite E; by left).
    apply filter_In in Hd as [Hd Eid]. apply bool_decide_eq_true in Eid. apply list_elem_of_In in Hd.
    destruct (due_is_trigger _ _ _ _ _ Ht) as (r & Hr & Er & _). destruct (due_is_trigger _ _ _ _ _ Hd) as (s & Hs & Es & _).
    assert (r = s) as ->.
    { eapply row_unique; [done..|]. rewrite <- (due_row_id _ _ Er), <- (due_row_id _ _ Es). done. }
    simpl. congruence.
Qed.
End Ledger.

Section Theorems.
Context (tenantId : string) (uuid : nat → string) (timestamptz : string → bool).
Context (zone : string → option (Z → option (Z * Z * Z * Z * Z))) (db_message : DbError → string).

(** C11. Whatever others commit while the transactions run, a poll of the scheduler,
    the job of one fire and an accepted webhook keep the ledger of fires consistent
    (at most one fire per trigger and scheduled instant or event, at most one run
    per fire and one fire per run), and leave every trigger they fire with no more
    active runs than [max_concurrent_runs], or than it already had. *)
Theorem trigger_fires_consistent a env : (∀ m n, uuid m = uuid n → m = n) → NoDup (map tr_id (a_triggers a)) → ledger_ok uuid a →
  (∀ locked now limit t r (due := due_triggers locked now limit a),
     Forall (polite uuid (λ id, id ∈ map du_id due)) env →
     processTenantDueRunTriggers tenantId uuid timestamptz zone db_message locked now limit (mkTxn a a env) = (t, Ok r) →
     ledger_ok uuid (tx_mine t) ∧ ∀ trigger, trigger ∈ due →
       active_runs (du_id trigger) (tx_mine t) ≤
       Nat.max (active_runs (du_id trigger) a) (Z.to_nat (du_max_concurrent_runs trigger))) ∧
  (∀ now cid trigger t r, Forall (polite uuid (λ id, id = du_id trigger)) env →
     processOneTriggerFire tenantId uuid timestamptz zone db_message now (mret cid) trigger (mkTxn a a env) = (t, Ok r) →
     ledger_ok uuid (tx_mine t) ∧ active_runs (du_id trigger) (tx_mine t) ≤
       Nat.max (active_runs (du_id trigger) a) (Z.to_nat (du_max_concurrent_runs trigger))) ∧
  (∀ context ref row t r, row ∈ a_triggers a → tr_id row = wc_triggerId context →
     Forall (polite uuid (λ id, id = wc_triggerId context)) env →
     acceptWebhookTriggerFire tenantId uuid timestamptz db_message context ref (mkTxn a a env) = (t, Ok r) →
     ledger_ok uuid (tx_mine t) ∧ active_runs (tr_id row) (tx_mine t) ≤
       Nat.max (active_runs (tr_id row) a) (Z.to_nat (tr_max_concurrent_runs row))).
Proof.
  intros Hinj Hn Ha. split; [|split].
  - intros locked now limit t r due He E.
    set (held := λ id, id ∈ map du_id due) in *.
    assert (HJ : J uuid held (λ id, active_runs id a) (due_limit due) a) by (split; [done|]; intros id _; lia).
    unfold processTenantDueRunTriggers, mbind, Stmt_bind, api_select in E. simpl in E. fold due in E.
    assert (Hd : ∀ trigger, trigger ∈ due → held (du_id trigger) ∧
      due_limit due (du_id trigger) = Z.to_nat (du_max_concurrent_runs trigger)).
    { intros trigger Ht. split; [subst held; simpl; by apply list_elem_of_fmap_2|by eapply due_limit_of]. }
    destruct (process_all_hoare uuid Hinj held (λ id, active_runs id a) (due_limit due) tenantId timestamptz zone db_message
      now (fresh_uuid uuid) due Hd (draw_again_hoare uuid held _ _) (mkTxn a a env) t (Ok r) He HJ E) as [_ [H1 H2]].
    split; [done|]. intros trigger Ht. destruct (Hd trigger Ht) as [Hh Hl]. specialize (H2 _ Hh). by rewrite Hl in H2.
  - intros now cid trigger t r He E. set (lim := λ _ : string, Z.to_nat (du_max_concurrent_runs trigger)).
    assert (HJ : J uuid (λ id, id = du_id trigger) (λ id, active_runs id a) lim a) by (split; [done|]; intros id _; lia).
    destruct (process_one_hoare uuid Hinj (λ id, id = du_id trigger) (λ id, active_runs id a) lim tenantId timestamptz zone
      db_message now (mret cid) trigger eq_refl eq_refl (λ n, inv_ret _ _ _) (mkTxn a a env) t (Ok r) He HJ E) as [_ [H1 H2]].
    split; [done|]. by apply (H2 (du_id trigger)).
  - intros context ref row t r Hr Eid He E. set (lim := λ _ : string, Z.to_nat (tr_max_concurrent_runs row)).
    assert (HJ : J uuid (λ id, id = wc_triggerId context) (λ id, active_runs id a) lim a) by (split; [done|]; intros id _; lia).
    assert (Hl : ∀ row0, head (List.filter (λ r, bool_decide (tr_id r = wc_triggerId context) && bool_decide (tr_type r = trigger_webhook))
             (a_triggers a)) = Some row0 → lim (wc_triggerId context) = Z.to_nat (tr_max_concurrent_runs row0)).
    { intros row0 Hh. destruct (List.filter _ _) as [|x l] eqn:Ef; [done|]. simpl in Hh. injection Hh as ->.
      assert (Hin : In row0 (row0 :: l)) by by left. rewrite <- Ef in Hin. apply filter_In in Hin as [Hin Eb].
      apply andb_true_iff in Eb as [Eb _]. apply bool_decide_eq_true in Eb. apply list_elem_of_In in Hin.
      subst lim. simpl. do 2 f_equal. eapply row_unique; [done..|congruence]. }
    destruct (accept_hoare uuid Hinj (λ id, id = wc_triggerId context) (λ id, active_runs id a) lim tenantId timestamptz
      db_message context ref a eq_refl Hl (mkTxn a a env) t (Ok r) He (conj HJ eq_refl) E) as [_ [H1 H2]].
    split; [done|]. rewrite Eid. by apply (H2 (wc_triggerId context)).
Qed.
End Theorems.
