(* ===== verification/TriggerOutcome.v ===== *)
(** * The outcome of a due trigger

    What [processOneTriggerFire] does when nobody interferes: it always returns,
    enters the instant in the ledger and moves the schedule to the next instant of
    the cron expression, or pauses the trigger. *)

From stdpp Require Import base strings list gmap sets.
From Stdlib Require Import ZArith Lia.
From S2P Require Import Prelude StateMachine JsValue RuntimeStore JsText Schedule Database Leases ErrorCatalog ApiShared AuditLog ApiStore ApiRuns ApiCreate Triggers StmtLogic TriggerProps.

(** Nobody else acts. *)
Definition nobody (f : Api → Api) : Prop := False.
Lemma nobody_stable P : stable nobody P.
Proof. intros f a []. Qed.

(** A statement that returns, with its postcondition. *)
Definition total {A} (P : Api → Prop) (m : Stmt A) (Q : A → Api → Prop) : Prop :=
  hoare nobody P m Q ∧ ∀ t, tx_env t = [] → P (tx_mine t) → ∃ t' x, m t = (t', Ok x).

Lemma total_run {A} P (m : Stmt A) Q t : total P m Q → tx_env t = [] → P (tx_mine t) →
  ∃ t' x, m t = (t', Ok x) ∧ tx_env t' = [] ∧ Q x (tx_mine t').
Proof.
  intros [Hh Hr] Ht HP. destruct (Hr t Ht HP) as (t' & x & E). exists t', x. split; [done|].
  assert (He : Forall nobody (tx_env t)) by (rewrite Ht; constructor).
  destruct (Hh _ _ _ He HP E) as [(seen & Hs & _) HQ]. rewrite Ht in Hs. symmetry in Hs.
  by apply app_nil in Hs as [_ Hs].
Qed.

Lemma total_bind {A B} P (m : Stmt A) (f : A → Stmt B) Q R :
  total P m Q → (∀ x, total (Q x) (f x) R) → total P (m ≫= f) R.
Proof.
  intros Hm Hf. split; [eapply hoare_bind; [apply Hm|intros x; apply Hf]|].
  intros t Ht HP. destruct (total_run _ _ _ _ Hm Ht HP) as (t1 & x & E & He & HQ).
  destruct (proj2 (Hf x) t1 He HQ) as (t2 & y & E2). exists t2, y. unfold mbind, Stmt_bind. by rewrite E.
Qed.
Lemma total_pre {A} (P P' : Api → Prop) (m : Stmt A) Q : (∀ a, P' a → P a) → total P m Q → total P' m Q.
Proof. intros HP [H1 H2]. split; [by eapply hoare_pre|]. eauto. Qed.
Lemma total_ret {A} (x : A) (P : Api → Prop) : total P (mret x) (λ _, P).
Proof. split; [apply (hoare_ret _ x (λ _, P))|]. intros t _ _. by eexists _, _. Qed.
Lemma total_select {A} P (f : Api → A) : total P (api_select f) (λ x a, P a ∧ x = f a).
Proof. split; [apply hoare_select|]. intros t _ _. by eexists _, _. Qed.
Lemma total_update P f (Q : () → Api → Prop) : (∀ a, P a → Q tt (f a)) → total P (api_update f) Q.
Proof. intros Hf. split; [by apply hoare_update|]. intros t _ _. by eexists _, _. Qed.
Lemma total_uuid uuid P (Q : string → Api → Prop) : (∀ a, P a → Q (uuid (a_ids a)) (use_api_id a)) → total P (fresh_uuid uuid) Q.
Proof. intros HQ. split; [by apply hoare_uuid|]. intros t _ _. by eexists _, _. Qed.
Lemma total_interleave P : total P interleave (λ _, P).
Proof.
  split; [apply hoare_interleave, nobody_stable|]. intros t Ht _. unfold interleave. rewrite Ht. by eexists _, _.
Qed.
Lemma total_savepoint {A} P (body : Stmt A) recover Q :
  hoare nobody P body Q → (∀ e, total P (recover e) Q) → total P (savepoint body recover) Q.
Proof.
  intros Hb Hr. split; [apply hoare_savepoint; [apply nobody_stable|done|apply Hr]|].
  intros t Ht HP. unfold savepoint. destruct (body t) as [t1 [x|e]] eqn:E; [by eexists _, _|].
  assert (He : Forall nobody (tx_env t)) by (rewrite Ht; constructor).
  destruct (Hb _ _ _ He HP E) as [(seen & Hs & _) _]. rewrite Ht in Hs. symmetry in Hs. apply app_nil in Hs as [_ Hs].
  apply Hr; unfold rolled_back; simpl; [done|]. by rewrite Ht.
Qed.
Lemma total_pure {A} (φ : Prop) P (m : Stmt A) Q : (φ → total P m Q) → total (λ a, P a ∧ φ) m Q.
Proof.
  intros H. split; [apply hoare_pure; intros; by apply H|]. intros t Ht [HP Hφ]. by apply (proj2 (H Hφ)).
Qed.

Section Outcome.
Context (tenantId : string) (uuid : nat → string) (timestamptz : string → bool).
Context (zone : string → option (Z → option (Z * Z * Z * Z * Z))) (db_message : DbError → string).
Context (uuid_inj : ∀ m n, uuid m = uuid n → m = n).
Context (now : Z) (cid : string) (trigger : DueRunTriggerRow) (a0 : Api).

(** The time the next instant is counted from. *)
Definition catchup_base : Z :=
  match du_catchup_policy trigger with fire_once => du_next_fire_at trigger | skip_missed => now end.
Definition next_instant : cron Z := nextCronFireAfter zone (du_cron_expression trigger) (du_timezone trigger) (Some catchup_base).

(** The row of the trigger once it has fired. *)
Definition rescheduled (r : TriggerRow) : TriggerRow :=
  match next_instant with
  | Ok t => with_schedule (tr_status r) (Some (column_of_ms t)) (column_now a0) r
  | Err _ => with_schedule trigger_paused None (column_now a0) r
  end.
Definition rescheduled_table : list TriggerRow :=
  map (λ r, if scheduled_as trigger r then rescheduled r else r) (a_triggers a0).

Definition entry : string * string := (du_id trigger, iso_of_ms (du_next_fire_at trigger)).
Definition in_ledger (a : Api) : Prop := ∃ r, r ∈ a_fires a ∧ key_pair r = entry.

(** The tables before the schedule is moved, and after. *)
Definition before_move (a : Api) : Prop := in_ledger a ∧ a_triggers a = a_triggers a0 ∧ column_now a = column_now a0.
Definition after_move (a : Api) : Prop := in_ledger a ∧ a_triggers a = rescheduled_table.

Context (range : ∀ t, next_instant = Ok t → date_in_range t = true).

Lemma resolve_eq t : resolveNextFireAt zone now trigger t = (t, Ok (match next_instant with Ok x => Some x | Err _ => None end)).
Proof.
  unfold resolveNextFireAt. cbv zeta. fold catchup_base. fold next_instant. destruct next_instant as [x|e] eqn:E; [|done].
  by rewrite range.
Qed.

Lemma resolve_outcome P : total P (resolveNextFireAt zone now trigger)
  (λ x a, P a ∧ x = match next_instant with Ok x => Some x | Err _ => None end).
Proof.
  split; [|intros t _ _; rewrite resolve_eq; by eexists _, _].
  intros t t' r _ HP. rewrite resolve_eq. intros [= <- <-]. split; [by apply passed_refl|done].
Qed.

Lemma advance_outcome t : next_instant = Ok t → total before_move (advanceTriggerSchedule trigger t) (λ _, after_move).
Proof.
  intros E. apply total_update. intros a (H1 & H2 & H3). split; [done|]. simpl. unfold rescheduled_table, rescheduled.
  by rewrite E, H2, H3.
Qed.
Lemma pause_outcome e : next_instant = Err e → total before_move (pauseTriggerForInvalidSchedule trigger) (λ _, after_move).
Proof.
  intros E. apply total_update. intros a (H1 & H2 & H3). split; [done|]. simpl. unfold rescheduled_table, rescheduled.
  by rewrite E, H2, H3.
Qed.

Lemma mark_outcome fireId g : (∀ r, key_pair (g r) = key_pair r) →
  total before_move (update_fires (fire_is fireId) g) (λ _, before_move).
Proof.
  intros Hg. apply total_update. intros a ((r & Hr & E) & H2 & H3). split; [|done].
  exists (if fire_is fireId r then g r else r). split; [simpl; apply list_elem_of_fmap; by exists r|].
  destruct (fire_is fireId r); [by rewrite Hg|done].
Qed.

Lemma create_outcome i : hoare nobody before_move (createRunInTx tenantId uuid timestamptz i) (λ _, before_move).
Proof.
  eapply hoare_post; [apply (create_triple nobody tenantId uuid timestamptz before_move)|by intros x a [? _]].
  - apply nobody_stable.
  - intros a b (Hf1 & (Hf2 & Hf3) & _) ((r & Hr & E) & H2 & H3). split.
    + exists r. by rewrite Hf1.
    + rewrite Hf2. split; [done|]. unfold column_now in *. by rewrite Hf3.
Qed.

Lemma create_and_advance_outcome fireId t : next_instant = Ok t →
  hoare nobody before_move (create_and_advance tenantId uuid timestamptz trigger fireId cid t) (λ _, after_move).
Proof.
  intros E. unfold create_and_advance. apply hoare_bind with (Q := λ _, before_move).
  { apply hoare_uuid. intros a H. exact H. }
  intros runId. apply hoare_bind with (Q := λ _, before_move); [apply create_outcome|intros _].
  apply hoare_bind with (Q := λ _, before_move); [by apply mark_outcome|intros _].
  apply hoare_bind with (Q := λ _, after_move); [by apply advance_outcome|intros _]. apply total_ret.
Qed.

(** The start: the tables of [a0], with fresh ids. *)
Definition at_start (a : Api) : Prop := a_fires a = a_fires a0 ∧ a_triggers a = a_triggers a0 ∧ column_now a = column_now a0.

Lemma insert_outcome n (Hn : ∀ r, r ∈ a_fires a0 → fi_id r ≠ uuid n) :
  total at_start
    (insert_fire (uuid n) (du_id trigger) (iso_of_ms (du_next_fire_at trigger)) (column_of_ms (du_next_fire_at trigger)) cid)
    (λ _, before_move).
Proof.
  unfold insert_fire. split.
  - eapply hoare_bind; [apply hoare_select|intros a1].
    destruct (existsb (fire_at _ _) (a_fires a1)) eqn:E.
    + eapply hoare_pre; [|apply (hoare_ret _ false (λ _, before_move))]. intros a [(H1 & H2 & H3) Ea]. subst a1. split; [|done].
      apply existsb_exists in E as (r & Hr & Ek). exists r. split; [by apply list_elem_of_In|].
      apply andb_true_iff in Ek as [E1 E2]. apply bool_decide_eq_true in E1, E2. unfold key_pair, entry. congruence.
    + apply hoare_if; intros _; [apply hoare_throw|].
      apply hoare_bind with (Q := λ _, before_move); [|intros _; apply (hoare_ret _ true (λ _, before_move))].
      apply hoare_update. intros a [(H1 & H2 & H3) _]. split; [|done].
      eexists. split; [simpl; apply elem_of_app; right; by left|done].
  - intros t _ (H1 & _). unfold mbind, Stmt_bind, api_select. simpl.
    destruct (existsb (fire_at _ _) _); [by eexists _, _|].
    destruct (existsb (λ r, bool_decide (fi_id r = uuid n)) _) eqn:E; [|by eexists _, _].
    apply existsb_exists in E as (r & Hr & Ei). apply bool_decide_eq_true in Ei. rewrite H1 in Hr.
    apply list_elem_of_In in Hr. by destruct (Hn r Hr).
Qed.

(** A mark, the schedule, the statistics. *)
Lemma mark_then_outcome fireId g (m : Stmt ()) (st : RunTriggerSchedulerStats) : (∀ r, key_pair (g r) = key_pair r) →
  total before_move m (λ _, after_move) →
  total before_move (_ ← update_fires (fire_is fireId) g; _ ← m; mret st) (λ _, after_move).
Proof.
  intros Hg Hm. apply total_bind with (Q := λ _, before_move); [by apply mark_outcome|intros _].
  apply total_bind with (Q := λ _, after_move); [done|intros _; apply total_ret].
Qed.

Lemma process_outcome : (∀ r, r ∈ a_fires a0 → fi_id r ≠ uuid (a_ids a0)) →
  total (λ a, a = a0) (processOneTriggerFire tenantId uuid timestamptz zone db_message now (mret cid) trigger) (λ _, after_move).
Proof.
  intros Hf. unfold processOneTriggerFire. cbv zeta.
  apply total_bind with (Q := λ _ a, a = a0); [apply total_interleave|intros _].
  apply total_bind with (Q := λ x a, at_start a ∧ x = uuid (a_ids a0)).
  { apply total_uuid. by intros a ->. }
  intros x. apply total_pure. intros ->.
  apply total_bind with (Q := λ x a, at_start a ∧ x = cid).
  { split; [|intros t _ _; by eexists _, _]. eapply hoare_pre; [|apply hoare_ret]. done. }
  intros x. apply total_pure. intros ->.
  eapply total_bind; [apply insert_outcome, Hf|intros inserted]. destruct inserted; simpl.
  2:{ eapply total_bind; [apply resolve_outcome|intros next]. apply total_pure. intros ->.
      apply total_bind with (Q := λ _, after_move); [|intros _; apply total_ret].
      destruct next_instant eqn:E; [by apply advance_outcome|by eapply pause_outcome]. }
  eapply total_bind; [apply resolve_outcome|intros next]. apply total_pure. intros ->.
  destruct next_instant as [t|e] eqn:E; [|apply mark_then_outcome; [done|by eapply pause_outcome]].
  apply total_bind with (Q := λ _, before_move); [apply total_interleave|intros _].
  eapply total_bind; [apply total_select|intros active]. apply (total_pre before_move); [by intros a [? _]|].
  destruct (_ <=? _)%Z; [apply mark_then_outcome; [done|by apply advance_outcome]|].
  apply total_savepoint; [by apply create_and_advance_outcome|].
  intros err. apply mark_then_outcome; [done|by apply advance_outcome].
Qed.
End Outcome.

Section Theorems.
Context (tenantId : string) (uuid : nat → string) (timestamptz : string → bool).
Context (zone : string → option (Z → option (Z * Z * Z * Z * Z))) (db_message : DbError → string).
Notation fire := (processOneTriggerFire tenantId uuid timestamptz zone db_message).

Lemma due_row_fields row trigger : due_row row = Some trigger →
  du_id trigger = tr_id row ∧ tr_cron_expression row = Some (du_cron_expression trigger) ∧
  tr_timezone row = Some (du_timezone trigger) ∧ tr_catchup_policy row = du_catchup_policy trigger ∧
  ∃ us, tr_next_fire_at row = Some us ∧ du_next_fire_at trigger = js_date us.
Proof.
  unfold due_row. destruct (tr_cron_expression row); simpl; [|done]. destruct (tr_timezone row); simpl; [|done].
  destruct (tr_next_fire_at row); simpl; [|done]. intros [= <-]. simpl. eauto 10.
Qed.

Lemma js_date_column ms : js_date (column_of_ms ms) = ms.
Proof. unfold js_date, column_of_ms. by rewrite Z.div_mul. Qed.

Lemma in_range_next now trigger t : (-8640000000000000 <= catchup_base now trigger)%Z →
  (horizon_ms (catchup_base now trigger) <= 8640000000000000)%Z →
  (catchup_base now trigger < t <= horizon_ms (catchup_base now trigger))%Z → date_in_range t = true.
Proof. intros H1 H2 H3. unfold date_in_range. apply Z.leb_le. lia. Qed.


Lemma duplicate_fire now cid trigger b a : (∃ r, r ∈ a_fires a ∧ key_pair r = entry trigger) →
  (∀ t, next_instant zone now trigger = Ok t → date_in_range t = true) →
  ∃ t, fire now (mret cid) trigger (mkTxn b a []) = (t, Ok st_duplicate) ∧ a_fires (tx_mine t) = a_fires a ∧
    a_db (tx_mine t) = a_db a.
Proof.
  intros (r & Hr & Ek) Hrange. unfold processOneTriggerFire, insert_fire, mbind, Stmt_bind, interleave, fresh_uuid, api_select, mret, Stmt_ret.
  simpl. assert (Ex : existsb (fire_at (du_id trigger) (iso_of_ms (du_next_fire_at trigger))) (a_fires a) = true).
  { apply existsb_exists. exists r. split; [by apply list_elem_of_In|]. injection Ek as E1 E2. unfold fire_at.
    by rewrite !bool_decide_eq_true_2. }
  rewrite Ex. simpl. rewrite (resolve_eq zone now trigger Hrange).
  destruct (next_instant zone now trigger); by eexists.
Qed.

(** A trigger whose next fire is stored with a fraction of a millisecond stops:
    firing it enters the instant in the ledger but leaves every trigger as it was,
    since the update compares the column with the rounded time; and every later
    poll finds the same instant due, reports a duplicate and creates no run. *)
Theorem submillisecond_trigger_stuck now cid a b row trigger us :
  NoDup (map tr_id (a_triggers a)) → row ∈ a_triggers a → due_row row = Some trigger →
  tr_next_fire_at row = Some us → (us mod 1000 ≠ 0)%Z → (∀ r, r ∈ a_fires a → fi_id r ≠ uuid (a_ids a)) →
  (∀ now' t, next_instant zone now' trigger = Ok t → date_in_range t = true) →
  ∃ t st, fire now (mret cid) trigger (mkTxn b a []) = (t, Ok st) ∧ a_triggers (tx_mine t) = a_triggers a ∧
    ∀ now' cid' b', ∃ t', fire now' (mret cid') trigger (mkTxn b' (tx_mine t) []) = (t', Ok st_duplicate) ∧
      a_fires (tx_mine t') = a_fires (tx_mine t) ∧ a_db (tx_mine t') = a_db (tx_mine t).
Proof.
  intros Hn Hrow Hdue Hus Hmod Hf Hrange.
  destruct (due_row_fields _ _ Hdue) as (Eid & _ & _ & _ & us' & Eus & Edate). rewrite Hus in Eus. injection Eus as <-.
  destruct (total_run _ _ _ (mkTxn b a []) (process_outcome tenantId uuid timestamptz zone db_message now cid trigger a (Hrange now) Hf)
    eq_refl eq_refl) as (t & st & E & _ & Hledger & Ht).
  exists t, st. split; [done|]. split.
  - rewrite Ht. unfold rescheduled_table. rewrite <- (map_id (a_triggers a)) at 2. apply map_ext_in.
    intros x Hx%list_elem_of_In. assert (Hno : scheduled_as trigger x = false); [|by rewrite Hno].
    unfold scheduled_as. rewrite Eid, Edate. case_bool_decide as Ex; [|done]. simpl. apply bool_decide_eq_false_2. intros En.
    assert (x = row) as -> by (by eapply row_unique). rewrite Hus in En. injection En as En.
    apply Hmod. rewrite En. unfold column_of_ms. apply Z.mod_mul. done.
  - intros now' cid' b'. apply duplicate_fire; [exact Hledger|]. apply Hrange.
Qed.
End Theorems.
