(* ===== verification/TriggerCommandProps.v ===== *)
(** * Theorems on the commands of triggers and on webhooks

    The commands and the scheduler keep every trigger well formed; a webhook has an
    effect only when it is signed.  Module [TriggerSample] is a concrete tenant. *)

From stdpp Require Import base strings list gmap sets pretty.
From Stdlib Require Import ZArith Lia Ascii.
From S2P Require Import Prelude StateMachine JsValue RuntimeStore Rbac JsText Schedule Database Leases LeaseProps ErrorCatalog ApiShared AuditLog ApiStore ApiRuns ApiCreate Triggers Webhooks TriggerCommands StmtLogic TriggerProps TriggerOutcome.

(** ** Well-formed triggers *)

Section Wf.
Context (zone : string → option (Z → option (Z * Z * Z * Z * Z))).

(** A cron trigger has a valid expression, a zone the host knows and no secret, and
    while it is enabled a time for its next fire; a webhook trigger has a reference
    to a secret and no schedule.  The limit fits its column and is positive. *)
Definition trigger_wf (r : TriggerRow) : Prop :=
  (1 <= tr_max_concurrent_runs r <= 2147483647)%Z ∧
  match tr_type r with
  | trigger_cron =>
      (∃ c, tr_cron_expression r = Some c ∧ is_ok (parseCronExpression c) = true) ∧
      (∃ z, tr_timezone r = Some z ∧ is_Some (zone z)) ∧
      tr_webhook_secret_ref r = None ∧ (tr_status r = trigger_enabled → is_Some (tr_next_fire_at r))
  | trigger_webhook =>
      tr_cron_expression r = None ∧ tr_timezone r = None ∧ tr_next_fire_at r = None ∧
      ∃ ref, tr_webhook_secret_ref r = Some ref ∧ starts_with "secret://" ref = true
  end.

Definition triggers_wf (a : Api) : Prop := NoDup (map tr_id (a_triggers a)) ∧ ∀ r, r ∈ a_triggers a → trigger_wf r.

Lemma map_triggers_wf (hit : TriggerRow → bool) (g : TriggerRow → TriggerRow) a : triggers_wf a →
  (∀ r, r ∈ a_triggers a → hit r = true → tr_id (g r) = tr_id r ∧ trigger_wf (g r)) →
  triggers_wf (set_triggers (map (λ r, if hit r then g r else r) (a_triggers a)) a).
Proof.
  intros [H1 H2] Hg. split; simpl.
  - rewrite map_same; [done|]. intros r Hr. destruct (hit r) eqn:E; [|done]. by apply Hg.
  - intros r (r0 & -> & Hr0)%list_elem_of_fmap. destruct (hit r0) eqn:E; [by apply Hg|by apply H2].
Qed.

(** ** Bodies *)

(** What a parsed body may hold. *)
Definition body_cron (b : TriggerBody) : Prop := ∀ c, tb_cron_expression b = Some c → is_ok (parseCronExpression c) = true.
Definition body_zone (b : TriggerBody) : Prop := ∀ z, tb_timezone b = Some z → is_Some (zone z).
Definition body_secret (b : TriggerBody) : Prop := ∀ ref, tb_webhook_secret_ref b = Some ref → starts_with "secret://" ref = true.
Definition body_limit (b : TriggerBody) : Prop := ∀ n, tb_max_concurrent_runs b = Some n → (1 <= n)%Z.
Definition body_ok (b : TriggerBody) : Prop := body_cron b ∧ body_zone b ∧ body_secret b ∧ body_limit b.

Lemma requireCronExpression_ok v c : requireCronExpression v = Ok c → is_ok (parseCronExpression c) = true.
Proof.
  unfold requireCronExpression. intros H. apply result_bind_Ok in H as (c' & _ & H). apply result_bind_Ok in H as (x & Hx & H).
  injection H as ->. unfold cronOrApiError in Hx. by destruct (parseCronExpression c).
Qed.
Lemma requireTimezone_ok v z : requireTimezone zone v = Ok z → is_Some (zone z).
Proof.
  unfold requireTimezone. intros H. apply result_bind_Ok in H as (z' & _ & H). destruct (zone z') eqn:E; [|done].
  injection H as ->. by rewrite E.
Qed.
Lemma requireSecretRef_ok v ref : requireSecretRef v = Ok ref → starts_with "secret://" ref = true.
Proof.
  unfold requireSecretRef. destruct v as [[]|]; try done. destruct (_ && _) eqn:E; [|done]. intros [= <-].
  by apply andb_true_iff in E as [? _].
Qed.
Lemma optionalPositiveInteger_ok v f o : optionalPositiveInteger v f = Ok o → ∀ n, o = Some n → (1 <= n)%Z.
Proof.
  unfold optionalPositiveInteger. destruct v as [[]|]; try done; [|by intros [= <-]].
  destruct (num_to_Z x); [|done]. destruct (Z.leb_spec 1 z); [|done]. intros [= <-]. by intros n [= <-].
Qed.
Lemma if_given_ok {A} v (f : option json → result ApiExn A) o : if_given v f = Ok o → ∀ x, o = Some x → f v = Ok x.
Proof. unfold if_given. destruct v; [|by intros [= <-]]. intros (x & H & [= <-])%result_bind_Ok. by intros y [= <-]. Qed.

Ltac invert_ok :=
  repeat match goal with
         | H : (_ ≫= _) = Ok _ |- _ => apply result_bind_Ok in H as (? & ? & ?)
         | H : refuse _ = Ok _ |- _ => discriminate H
         | H : Ok _ = Ok _ |- _ => injection H as <-
         | H : (if ?b then _ else _) = Ok _ |- _ => destruct b eqn:?
         end.

Context (date_parse : string → option Z).

Lemma parseCreateBody_ok raw b : parseCreateBody zone date_parse raw = Ok b → body_ok b ∧
  match tb_trigger_type b with
  | Some trigger_webhook => tb_cron_expression b = None ∧ tb_timezone b = None ∧ is_Some (tb_webhook_secret_ref b)
  | Some trigger_cron => is_Some (tb_cron_expression b) ∧ is_Some (tb_timezone b) ∧ tb_webhook_secret_ref b = None ∧
                         tb_next_fire_at b ≠ Some None
  | None => False
  end.
Proof.
  unfold parseCreateBody. cbv zeta. intros H. invert_ok; cbn [tb_trigger_type].
  - match goal with H : bool_decide (_ = Some None) = false |- _ => apply bool_decide_eq_false in H end.
    split; [|by eauto]. split; [|split; [|split]]; intros ? E; simpl in E; try done.
    + injection E as <-. by eapply requireCronExpression_ok.
    + injection E as <-. by eapply requireTimezone_ok.
    + by eapply optionalPositiveInteger_ok.
  - split; [|by eauto]. split; [|split; [|split]]; intros ? E; simpl in E; try done.
    + injection E as <-. by eapply requireSecretRef_ok.
    + by eapply optionalPositiveInteger_ok.
Qed.

Lemma parseUpdateBody_ok raw b : parseUpdateBody zone date_parse raw = Ok b → body_ok b.
Proof.
  unfold parseUpdateBody. cbv zeta. intros H. apply result_bind_Ok in H as (f & _ & H).
  destruct f as [|p f]; [done|]. invert_ok. split; [|split; [|split]]; intros ? E; simpl in E.
  - eapply requireCronExpression_ok, if_given_ok; eassumption.
  - eapply requireTimezone_ok. eapply if_given_ok; eassumption.
  - eapply requireSecretRef_ok, if_given_ok; eassumption.
  - by eapply optionalPositiveInteger_ok.
Qed.

(** ** Commands *)

Context (timestamptz_us : string → option Z) (uuid : nat → string).
Notation quiet P m := (hoare nobody P m (λ _, P)).
Notation wf := (triggers_wf).

(** Code that reads, checks or throws. *)
Lemma time_column_hoare P text : hoare nobody P (time_column timestamptz_us text)
  (λ x a, P a ∧ (is_Some text → is_Some x)).
Proof.
  unfold time_column. destruct text as [s|]; [destruct (timestamptz_us s) as [us|]; [|apply hoare_throw]|].
  - eapply hoare_pre; [|apply hoare_ret]. simpl. eauto.
  - eapply hoare_pre; [|apply hoare_ret]. intros a Ha. split; [done|by intros []].
Qed.
Lemma int_column_hoare P n : (1 <= n)%Z → hoare nobody P (int_column n) (λ x a, P a ∧ (1 <= x <= 2147483647)%Z).
Proof.
  intros Hn. unfold int_column. destruct (Z.leb_spec n 2147483647); [|apply hoare_throw].
  eapply hoare_pre; [|apply hoare_ret]. intros a Ha. split; [done|lia].
Qed.
Lemma default_hoare P c z : quiet P (defaultNextFireAt zone c z).
Proof.
  unfold defaultNextFireAt. eapply hoare_bind; [apply inv_select|intros now].
  eapply hoare_bind; [|intros t; destruct (date_in_range t); [apply inv_ret|apply hoare_throw]].
  unfold lift. destruct (cronOrApiError _); [apply inv_ret|apply hoare_throw].
Qed.

Definition fresh_trigger (n : nat) (a : Api) : Prop := ∀ r, r ∈ a_triggers a → tr_id r ≠ uuid n.

Lemma create_wf subjectId raw b : parseCreateBody zone date_parse raw = Ok b →
  hoare nobody (λ a, wf a ∧ fresh_trigger (a_ids a) a) (createRunTrigger zone timestamptz_us uuid subjectId b) (λ _, wf).
Proof.
  intros Hb. apply parseCreateBody_ok in Hb as [(Hc & Hz & Hs & Hl) Ht]. unfold createRunTrigger.
  eapply hoare_bind; [|intros []].
  { unfold assertScenarioVersionExists. eapply hoare_bind; [apply inv_select|intros f].
    destruct f; [apply inv_ret|apply hoare_fail]. }
  eapply hoare_bind with (Q := λ x a, wf a ∧ ∀ r, r ∈ a_triggers a → tr_id r ≠ x).
  { apply hoare_uuid. intros a [H1 H2]. done. }
  intros x. set (P := λ a, wf a ∧ ∀ r, r ∈ a_triggers a → tr_id r ≠ x).
  eapply hoare_bind with (Q := λ next a, P a ∧ match tb_trigger_type b with
     | Some trigger_webhook => next = None | _ => is_Some next end).
  { destruct (tb_trigger_type b) as [[]|]; [|by eapply hoare_pre; [|apply hoare_ret]; simpl|done].
    destruct (tb_next_fire_at b) as [[text|]|].
    - eapply hoare_post; [apply time_column_hoare|]. intros y a [? H]. eauto.
    - exfalso. destruct Ht as (_ & _ & _ & []). done.
    - eapply hoare_bind; [apply default_hoare|intros t]. eapply hoare_pre; [|apply hoare_ret]. simpl. eauto. }
  intros next. apply hoare_pure. intros Hnext.
  eapply hoare_bind.
  { apply (int_column_hoare P). destruct (tb_max_concurrent_runs b) eqn:E; simpl; [by apply Hl|lia]. }
  intros maxRuns. apply hoare_pure. intros Hmax. cbv zeta.
  eapply hoare_bind; [apply inv_select|intros now].
  apply hoare_bind with (Q := λ _, wf); [|intros []; apply inv_ret].
  apply hoare_update. intros a [[H1 H2] H3]. split; simpl.
  - rewrite map_app. apply NoDup_app. split; [done|]. split; [|apply NoDup_singleton].
    intros k Hin ->%list_elem_of_singleton. apply list_elem_of_fmap in Hin as (r & Er & Hr). by apply (H3 r Hr).
  - intros r [Hr| ->%list_elem_of_singleton]%elem_of_app; [by apply H2|]. split; [done|]. simpl.
    destruct (tb_trigger_type b) as [[]|]; simpl; [| |done].
    + destruct Ht as ([c Ec] & [z Ez] & Esec & _). split; [exists c; auto|]. split; [exists z; auto|]. auto.
    + destruct Ht as (Ec & Ez & [ref Er]). split; [done|]. split; [done|]. split; [done|]. eauto.
Qed.

Lemma require_hoare (P : Api → Prop) triggerId : hoare nobody P (requireTriggerExists triggerId)
  (λ row a, P a ∧ row ∈ a_triggers a ∧ tr_id row = triggerId).
Proof.
  unfold requireTriggerExists, selectTrigger. eapply hoare_bind; [apply hoare_select|intros [row|]; [|apply hoare_fail]].
  eapply hoare_pre; [|apply hoare_ret]. intros a [HP E]. split; [done|].
  destruct (List.filter _ (a_triggers a)) as [|r l] eqn:Ef; [done|]. injection E as ->.
  assert (Hin : In r (List.filter (λ r, bool_decide (tr_id r = triggerId)) (a_triggers a))) by (rewrite Ef; by left).
  apply filter_In in Hin as [H1 H2]. apply bool_decide_eq_true in H2. split; [by apply list_elem_of_In|done].
Qed.

Lemma returned_hoare P triggerId : quiet P (returned_row triggerId).
Proof. unfold returned_row, selectTrigger. eapply hoare_bind; [apply inv_select|intros [row|]; [apply inv_ret|apply hoare_throw]]. Qed.

(** The update of the row that was read. *)
Lemma update_row_hoare triggerId row (g : Api → TriggerRow → TriggerRow) :
  (∀ a, tr_id (g a row) = tr_id row ∧ (trigger_wf row → trigger_wf (g a row))) →
  hoare nobody (λ a, wf a ∧ row ∈ a_triggers a ∧ tr_id row = triggerId) (update_triggers (trigger_is triggerId) g) (λ _, wf).
Proof.
  intros Hg. apply hoare_update. intros a (H1 & H2 & H3). apply map_triggers_wf; [done|]. intros r Hr Eh.
  apply bool_decide_eq_true in Eh. destruct H1 as [Hn Hw].
  assert (r = row) as -> by (eapply row_unique; [done..|congruence]). destruct (Hg a) as [E H]. split; [done|]. by apply H, Hw.
Qed.

Lemma nextFireAt_hoare (P : Api → Prop) row b : trigger_wf row →
  hoare nobody P (nextFireAtForUpdate zone timestamptz_us row b)
    (λ x a, P a ∧ match tr_type row with
                  | trigger_webhook => x = None ∨ x = Some None
                  | trigger_cron => x ≠ Some None
                  end).
Proof.
  intros Hw. unfold nextFireAtForUpdate. destruct (tr_type row).
  - destruct (tb_next_fire_at b) as [[text|]|]; [| apply hoare_fail |].
    + eapply hoare_bind; [apply time_column_hoare|intros us]. eapply hoare_pre; [|apply hoare_ret].
      intros a [Ha [u ->]]; [by eexists|]. split; [done|]. congruence.
    + assert (Hset : ∀ c z, hoare nobody P
        (cron ← match c with Some c => mret c | None => requireExistingString (tr_cron_expression row) "cron_expression" end;
         tz ← match z with Some z => mret z | None => requireExistingString (tr_timezone row) "timezone" end;
         t ← defaultNextFireAt zone cron tz; mret (Some (Some (column_of_ms t))))
        (λ x a, P a ∧ x ≠ Some None)).
      { intros c z. eapply hoare_bind with (Q := λ _, P); [|intros cr].
        { destruct c; [apply inv_ret|]. unfold requireExistingString. destruct (tr_cron_expression row); [apply inv_ret|apply hoare_fail]. }
        eapply hoare_bind with (Q := λ _, P); [|intros tz].
        { destruct z; [apply inv_ret|]. unfold requireExistingString. destruct (tr_timezone row); [apply inv_ret|apply hoare_fail]. }
        eapply hoare_bind; [apply default_hoare|intros t]. eapply hoare_pre; [|apply hoare_ret]. done. }
      destruct (tb_cron_expression b) as [c|], (tb_timezone b) as [z|].
      * apply (Hset (Some c) (Some z)).
      * apply (Hset (Some c) None).
      * apply (Hset None (Some z)).
      * eapply hoare_pre; [|apply hoare_ret]. done.
  - eapply hoare_pre; [|apply hoare_ret]. intros a Ha. split; [done|]. destruct (tb_next_fire_at b); auto.
Qed.

Lemma hoare_row {A} triggerId row (m : Stmt A) Q :
  (trigger_wf row → hoare nobody (λ a, wf a ∧ row ∈ a_triggers a ∧ tr_id row = triggerId) m Q) →
  hoare nobody (λ a, wf a ∧ row ∈ a_triggers a ∧ tr_id row = triggerId) m Q.
Proof. intros H t t' r Ht (H1 & H2 & H3). apply (H (proj2 H1 row H2)); done. Qed.

Lemma update_wf triggerId raw b : parseUpdateBody zone date_parse raw = Ok b →
  quiet wf (updateRunTrigger zone timestamptz_us triggerId b).
Proof.
  intros Hb. apply parseUpdateBody_ok in Hb as (Hc & Hz & Hs & Hl). unfold updateRunTrigger.
  eapply hoare_bind; [apply require_hoare|intros row]. apply hoare_row. intros Hw.
  set (P := λ a, wf a ∧ row ∈ a_triggers a ∧ tr_id row = triggerId).
  eapply hoare_bind with (Q := λ _ a, P a ∧ match tr_type row with
     | trigger_webhook => tb_cron_expression b = None ∧ tb_timezone b = None
     | trigger_cron => tb_webhook_secret_ref b = None end).
  { unfold validateUpdateForTriggerType. destruct (tr_type row).
    - case_bool_decide as E; [apply hoare_fail|]. eapply hoare_pre; [|apply hoare_ret]. intros a Ha. split; [done|].
      by apply eq_None_not_Some.
    - destruct (_ || _) eqn:E; [apply hoare_fail|]. eapply hoare_pre; [|apply hoare_ret]. intros a Ha. split; [done|].
      apply orb_false_iff in E as [E _]. apply orb_false_iff in E as [E1 E2]. apply bool_decide_eq_false in E1, E2.
      by rewrite !eq_None_not_Some. }
  intros []. apply hoare_pure. intros Hv.
  eapply hoare_bind; [by apply nextFireAt_hoare|intros next]. apply hoare_pure. intros Hnext.
  eapply hoare_bind with (Q := λ o a, P a ∧ ∀ n, o = Some n → (1 <= n <= 2147483647)%Z).
  { destruct (tb_max_concurrent_runs b) as [n|] eqn:E.
    - eapply hoare_bind; [apply (int_column_hoare P); by apply Hl|intros n']. apply hoare_pure. intros Hn'.
      eapply hoare_pre; [|apply hoare_ret]. intros a Ha. split; [done|]. by intros m [= <-].
    - eapply hoare_pre; [|apply hoare_ret]. done. }
  intros maxRuns. apply hoare_pure. intros Hmax.
  apply hoare_bind with (Q := λ _, P); [apply hoare_interleave, nobody_stable|intros []].
  apply hoare_bind with (Q := λ _, wf); [|intros []; apply returned_hoare].
  apply update_row_hoare. intros a. split; [done|]. intros [W1 W2]. split; simpl.
  { destruct maxRuns as [n|]; simpl; [by apply Hmax|done]. }
  destruct (tr_type row).
  - destruct W2 as ([c [Ec Pc]] & [z [Ez Pz]] & Es & En). rewrite Hv. simpl. split; [|split; [|split; [done|]]].
    + destruct (tb_cron_expression b) as [c'|] eqn:E; simpl; [exists c'; auto|exists c; auto].
    + destruct (tb_timezone b) as [z'|] eqn:E; simpl; [exists z'; auto|exists z; auto].
    + intros Hen. destruct next as [[us|]|]; [by eexists|done|by apply En].
  - destruct W2 as (Ec & Ez & En & ref & Er & Pr). destruct Hv as [-> ->]. simpl. split; [done|]. split; [done|].
    split; [destruct Hnext as [->| ->]; done|].
    destruct (tb_webhook_secret_ref b) as [ref'|] eqn:E; simpl; [exists ref'; auto|exists ref; auto].
Qed.

Lemma status_wf triggerId status : quiet wf (changeTriggerStatus zone triggerId status).
Proof.
  unfold changeTriggerStatus. eapply hoare_bind; [apply require_hoare|intros row]. apply hoare_row. intros Hw.
  set (P := λ a, wf a ∧ row ∈ a_triggers a ∧ tr_id row = triggerId).
  eapply hoare_bind with (Q := λ x a, P a ∧ match tr_type row with
    | trigger_webhook => x = None
    | trigger_cron => status = trigger_enabled → is_Some (or_else x (tr_next_fire_at row)) end).
  { destruct (_ && _) eqn:E.
    - apply andb_true_iff in E as [E E3]. apply andb_true_iff in E as [E1 E2]. apply bool_decide_eq_true in E1, E2, E3.
      eapply hoare_bind with (Q := λ _, P); [|intros c].
      { unfold requireExistingString. destruct (tr_cron_expression row); [apply inv_ret|apply hoare_fail]. }
      eapply hoare_bind with (Q := λ _, P); [|intros z].
      { unfold requireExistingString. destruct (tr_timezone row); [apply inv_ret|apply hoare_fail]. }
      eapply hoare_bind; [apply default_hoare|intros t]. eapply hoare_pre; [|apply hoare_ret]. intros a Ha. split; [done|].
      rewrite E2. by eexists.
    - eapply hoare_pre; [|apply hoare_ret]. intros a Ha. split; [done|]. destruct (tr_type row) eqn:Et; [|done].
      intros ->. simpl. rewrite !bool_decide_eq_true_2 in E by done. simpl in E. apply bool_decide_eq_false in E.
      destruct (tr_next_fire_at row); [by eexists|done]. }
  intros next. apply hoare_pure. intros Hnext.
  apply hoare_bind with (Q := λ _, P); [apply hoare_interleave, nobody_stable|intros []].
  apply hoare_bind with (Q := λ _, wf); [|intros []; apply returned_hoare].
  apply update_row_hoare. intros a. split; [done|]. intros [W1 W2]. split; simpl; [done|].
  destruct (tr_type row).
  - destruct W2 as (Hc & Hz & Es & _). auto.
  - subst next. simpl. destruct W2 as (? & ? & ? & ?). auto.
Qed.

(** The scheduler: it advances a trigger, or pauses it. *)
Lemma schedule_wf trigger (g : Api → TriggerRow → TriggerRow) :
  (∀ a r, tr_id (g a r) = tr_id r ∧ (tr_type r = trigger_cron → trigger_wf r → trigger_wf (g a r))) →
  quiet wf (update_triggers (scheduled_as trigger) g).
Proof.
  intros Hg. apply hoare_update. intros a Ha. apply map_triggers_wf; [done|]. intros r Hr Eh.
  destruct (Hg a r) as [E H]. split; [done|]. destruct Ha as [_ Hw].
  apply andb_true_iff in Eh as [_ Eh]. apply bool_decide_eq_true in Eh. specialize (Hw r Hr).
  apply H; [|done]. destruct Hw as [_ Hw]. destruct (tr_type r); [done|]. destruct Hw as (_ & _ & En & _). congruence.
Qed.
Lemma advance_wf trigger t : quiet wf (advanceTriggerSchedule trigger t).
Proof.
  apply schedule_wf. intros a r. split; [done|]. intros Et [W1 W2]. split; simpl; [done|]. rewrite Et in *.
  destruct W2 as (? & ? & ? & _). eauto 10.
Qed.
Lemma pause_wf trigger : quiet wf (pauseTriggerForInvalidSchedule trigger).
Proof.
  apply schedule_wf. intros a r. split; [done|]. intros Et [W1 W2]. split; simpl; [done|]. rewrite Et in *.
  destruct W2 as (? & ? & ? & _). split; [done|]. split; [done|]. done.
Qed.

Lemma fires_wf hit g : quiet wf (update_fires hit g).
Proof. by apply hoare_update. Qed.
Lemma wf_closed runId : closed runId wf.
Proof. intros a b (_ & (H & _) & _). unfold triggers_wf. by rewrite H. Qed.

Context (tenantId : string) (timestamptz : string → bool) (db_message : DbError → string).

Lemma create_run_wf i : quiet wf (createRunInTx tenantId uuid timestamptz i).
Proof.
  eapply hoare_post; [apply create_triple; [apply nobody_stable|apply wf_closed]|]. by intros x a [? _].
Qed.
Lemma uuid_wf : quiet wf (fresh_uuid uuid).
Proof. by apply hoare_uuid. Qed.
Lemma insert_fire_wf id tid key at_us cid : quiet wf (insert_fire id tid key at_us cid).
Proof.
  unfold insert_fire. eapply hoare_bind; [apply inv_select|intros a0]. do 2 (apply hoare_if; intros _; [apply inv_ret || apply hoare_throw|]).
  apply hoare_bind with (Q := λ _, wf); [by apply hoare_update|intros []; apply inv_ret].
Qed.
Lemma mark_move_wf hit g (m : Stmt ()) (st : RunTriggerSchedulerStats) : quiet wf m →
  quiet wf (_ ← update_fires hit g; _ ← m; mret st).
Proof.
  intros Hm. apply hoare_bind with (Q := λ _, wf); [apply fires_wf|intros []].
  apply hoare_bind with (Q := λ _, wf); [done|intros []; apply inv_ret].
Qed.

Lemma resolve_quiet P now trigger : quiet P (resolveNextFireAt zone now trigger).
Proof.
  unfold resolveNextFireAt. cbv zeta. destruct (nextCronFireAfter _ _ _ _); [|apply inv_ret].
  destruct (date_in_range _); [apply inv_ret|apply hoare_throw].
Qed.

Lemma process_wf now cid trigger : quiet wf cid →
  quiet wf (processOneTriggerFire tenantId uuid timestamptz zone db_message now cid trigger).
Proof.
  intros Hcid. unfold processOneTriggerFire. cbv zeta.
  apply hoare_bind with (Q := λ _, wf); [apply hoare_interleave, nobody_stable|intros []].
  eapply hoare_bind; [apply uuid_wf|intros fireId]. eapply hoare_bind; [exact Hcid|intros c].
  eapply hoare_bind; [apply insert_fire_wf|intros inserted]. apply hoare_if; intros _.
  - eapply hoare_bind; [apply resolve_quiet|intros next].
    apply hoare_bind with (Q := λ _, wf); [destruct next; [apply advance_wf|apply pause_wf]|intros []; apply inv_ret].
  - eapply hoare_bind; [apply resolve_quiet|intros [t|]]; [|apply mark_move_wf, pause_wf].
    apply hoare_bind with (Q := λ _, wf); [apply hoare_interleave, nobody_stable|intros []].
    eapply hoare_bind; [apply inv_select|intros n]. apply hoare_if; intros _; [apply mark_move_wf, advance_wf|].
    apply hoare_savepoint; [apply nobody_stable| |intros e; apply mark_move_wf, advance_wf].
    unfold create_and_advance. eapply hoare_bind; [apply uuid_wf|intros runId].
    apply hoare_bind with (Q := λ _, wf); [apply create_run_wf|intros _]. apply mark_move_wf, advance_wf.
Qed.

Lemma process_triggers_wf now cid due : quiet wf cid →
  quiet wf (process_triggers tenantId uuid timestamptz zone db_message now cid due).
Proof.
  intros Hcid. induction due as [|trigger due IH]; simpl; [apply inv_ret|].
  eapply hoare_bind; [by apply process_wf|intros x]. eapply hoare_bind; [exact IH|intros y; apply inv_ret].
Qed.

End Wf.

(** ** Webhooks *)

(** The world once others have acted [n] times. *)
Definition others (n : nat) (w : ApiWorld) : ApiWorld :=
  mkApiWorld (foldl (λ a f, f a) (aw_api w) (take n (aw_env w))) (drop n (aw_env w)).

Lemma select_others {A} (f : Api → A) w : tenantTx (api_select f) w = (others 1 w, Ok (f (aw_api (others 1 w)))).
Proof. unfold tenantTx, others. by destruct w as [a [|g env]]. Qed.
Lemma others_add m n w : others m (others n w) = others (n + m) w.
Proof. unfold others. simpl. rewrite <- take_take_drop, foldl_app, drop_drop. done. Qed.
Lemma others_0 w : others 0 w = w.
Proof. by destruct w. Qed.

Section Webhook.
Context (tenantId : string) (uuid : nat → string) (timestamptz : string → bool) (db_message : DbError → string).
Context (hmac : string → string → string) (boundary : option (string → result ApiExn string)).

(** The request is well formed and recent, its signature is that of the secret of an
    enabled webhook trigger of the tenant, and the tenant is not being offboarded. *)
Definition authentic (paramTrigger : string) (rawBody : option json) (rawHeaders : string → option json) (w : ApiWorld) : Prop :=
  ∃ f eventId timestamp signature ms row resolve secret,
    rawBody = Some (JObj f) ∧
    rawHeaders "x-rpa-webhook-event-id" = Some (JStr eventId) ∧ WEBHOOK_EVENT_ID_RE eventId = true ∧
    rawHeaders "x-rpa-webhook-timestamp" = Some (JStr timestamp) ∧ timestamp_ms timestamp = Some ms ∧
    (Z.abs (api_now (aw_api w) - ms) <= MAX_WEBHOOK_TIMESTAMP_SKEW_MS)%Z ∧
    rawHeaders "x-rpa-webhook-signature" = Some (JStr signature) ∧
    row ∈ a_triggers (aw_api (others 1 w)) ∧ tr_id row = paramTrigger ∧ tr_type row = trigger_webhook ∧
    tr_status row = trigger_enabled ∧
    boundary = Some resolve ∧ resolve (default EmptyString (tr_webhook_secret_ref row)) = Ok secret ∧
    verifyWebhookSignature hmac secret signature (webhookSigningPayload timestamp eventId (JObj f)) = true ∧
    a_offboarding (aw_api (others 2 w)) = false.

Lemma act_bind {A B} (m : Act A) (f : A → Act B) w : (m ≫= f) w =
  match m w with (w', Ok a) => f a w' | (w', Err e) => (w', Err e) end.
Proof. done. Qed.

Lemma requireHeader_run v name w w' r : requireHeader v name w = (w', r) → w' = w ∧ ∀ x, r = Ok x → v = Some (JStr x).
Proof. unfold requireHeader. repeat case_match; intros [= <- <-]; split; try done; congruence. Qed.

Lemma parse_headers_run headers w w' r : parseWebhookHeaders headers w = (w', r) → w' = w ∧ ∀ h, r = Ok h →
  headers "x-rpa-webhook-event-id" = Some (JStr (wh_eventId h)) ∧ WEBHOOK_EVENT_ID_RE (wh_eventId h) = true ∧
  headers "x-rpa-webhook-timestamp" = Some (JStr (wh_timestamp h)) ∧
  (∃ ms, timestamp_ms (wh_timestamp h) = Some ms ∧ (Z.abs (api_now (aw_api w) - ms) <= MAX_WEBHOOK_TIMESTAMP_SKEW_MS)%Z) ∧
  headers "x-rpa-webhook-signature" = Some (JStr (wh_signature h)).
Proof.
  unfold parseWebhookHeaders. rewrite act_bind.
  destruct (requireHeader _ _ w) as [w1 [eventId|]] eqn:E1; apply requireHeader_run in E1 as [-> H1]; [|by intros [= <- <-]].
  destruct (WEBHOOK_EVENT_ID_RE eventId) eqn:Ere; [|by intros [= <- <-]]. simpl. rewrite act_bind.
  destruct (requireHeader _ _ w) as [w2 [ts|]] eqn:E2; apply requireHeader_run in E2 as [-> H2]; [|by intros [= <- <-]].
  rewrite act_bind. unfold parseWebhookTimestamp at 1. destruct (timestamp_ms ts) as [ms|] eqn:Ems; [|by intros [= <- <-]].
  unfold p_now. rewrite act_bind. destruct (Z.ltb_spec MAX_WEBHOOK_TIMESTAMP_SKEW_MS (Z.abs (api_now (aw_api w) - ms))) as [?|Hskew];
    [by intros [= <- <-]|]. simpl. rewrite act_bind.
  destruct (requireHeader _ _ w) as [w3 [sig|]] eqn:E3; apply requireHeader_run in E3 as [-> H3]; [|by intros [= <- <-]].
  intros [= <- <-]. split; [done|]. intros h [= <-]. simpl. split; [by apply H1|]. split; [done|]. split; [by apply H2|].
  split; [eauto|by apply H3].
Qed.

End Webhook.

(** ** Run triggers on a concrete tenant

    The theorems on triggers at a tenant with a cron trigger that is due every
    minute and a webhook trigger, and the race of a resumption with the scheduler. *)

Module TriggerSample.

Definition uuid (n : nat) : string := "id" +:+ pretty n.
Lemma trigger_uuid_fresh m n : uuid m = uuid n → m = n.
Proof. unfold uuid. intros H. apply (inj (String.append "id")) in H. by apply (inj pretty) in H. Qed.
Definition times (_ : string) : bool := true.
Definition time_us (_ : string) : option Z := Some 60000000%Z.
Definition dates (_ : string) : option Z := Some 60000%Z.
Definition message (_ : DbError) : string := "error".
(** Every instant is local midnight of New Year. *)
Definition zone (z : string) : option (Z → option (Z * Z * Z * Z * Z)) :=
  if decide (z = "UTC") then Some (λ _, Some (2026, 1, 1, 0, 0)%Z) else
  if decide (z = "Broken") then Some (λ _, None) else None.

Definition target : json :=
  JObj [("target", JObj [("site_profile_id", JStr "s"); ("browser_identity_id", JStr "b"); ("network_policy_id", JStr "n")])].
Definition leases : Leases :=
  mkLeases (mkCatalog ∅ ∅ ∅ {[ "v1" := (target, None) ]} ∅) ∅ [] ∅ ∅ 0.
Definition db : Db := mkDb 90000 0 {[ "r1" := mkRunRow run_running None None 0 0 None None None None None ]} ∅ [] [] [] [] [] [].
Definition cron_trigger (id tz : string) (next : Z) : TriggerRow :=
  mkTrigger id "v1" trigger_cron trigger_enabled (Some "* * * * *") (Some tz) None (JObj []) fire_once 1 (Some next) "op" 0 0.
Definition hook : TriggerRow :=
  mkTrigger "00000000-0000-4000-8000-000000000002" "v1" trigger_webhook trigger_enabled None None (Some "secret://x") (JObj []) skip_missed 1 None "op" 0 0.
Definition api (triggers : list TriggerRow) : Api :=
  mkApi (mkApiCatalog {[ "v1" := None ]} [] None None ∅) leases db [] 0 ∅ ∅ [] [] ∅ [] triggers [] false no_handoffs.

Definition minute : TriggerRow := cron_trigger "t1" "UTC" 60000000.
Definition fraction : TriggerRow := cron_trigger "t1" "UTC" 60000123.
Definition broken : TriggerRow := cron_trigger "t1" "Broken" 60000000.
Definition start : Api := api [minute; hook].
Definition due : DueRunTriggerRow := mkDue "t1" "v1" (JObj []) "* * * * *" "UTC" fire_once 1 60000.

Lemma start_ledger triggers : ledger_ok uuid (api triggers).
Proof.
  split; simpl; [constructor|constructor|constructor|by intros ? ? ?%elem_of_nil|].
  intros n _. split; [|by intros r ?%elem_of_nil]. unfold run_of. simpl. rewrite lookup_singleton_ne; [done|]. unfold uuid. done.
Qed.
Lemma start_ids triggers : ∀ r, r ∈ a_fires (api triggers) → fi_id r ≠ uuid (a_ids (api triggers)).
Proof. by intros r ?%elem_of_nil. Qed.

(** A poll at the minute and a half: one run is queued. *)
Definition polled : Txn * result ApiExn RunTriggerSchedulerStats :=
  processTenantDueRunTriggers "t" uuid times zone message (λ _, false) 90000 25 (mkTxn start start []).
End TriggerSample.

Example poll_queues_run : ∃ t, TriggerSample.polled = (t, Ok (mkStats 0 1 1 0 1 0 0)) ∧
  map tr_next_fire_at (a_triggers (tx_mine t)) = [Some 120000000%Z; None] ∧ active_runs "t1" (tx_mine t) = 1.
Proof. eexists. split; [vm_compute; reflexivity|]. vm_compute. done. Qed.

Lemma polite_id uuid held : polite uuid held (λ a, a).
Proof.
  intros a. split; [done|]. split; [done|]. split; [done|]. split; [done|]. intros id run E. by exists run.
Qed.

Definition due_of_start : list DueRunTriggerRow := due_triggers (λ _, false) 90000 25 TriggerSample.start.

Lemma trigger_fires_consistent_witness :
  ledger_ok TriggerSample.uuid TriggerSample.start ∧
  (∀ t r, processTenantDueRunTriggers "t" TriggerSample.uuid TriggerSample.times TriggerSample.zone TriggerSample.message
       (λ _, false) 90000 25 (mkTxn TriggerSample.start TriggerSample.start [λ a, a; λ a, a]) = (t, Ok r) →
     ledger_ok TriggerSample.uuid (tx_mine t) ∧ ∀ trigger, trigger ∈ due_of_start →
       active_runs (du_id trigger) (tx_mine t) ≤
       Nat.max (active_runs (du_id trigger) TriggerSample.start) (Z.to_nat (du_max_concurrent_runs trigger))).
Proof.
  split; [apply TriggerSample.start_ledger|]. intros t r.
  apply (proj1 (trigger_fires_consistent "t" TriggerSample.uuid TriggerSample.times TriggerSample.zone TriggerSample.message
    TriggerSample.start [λ a, a; λ a, a] TriggerSample.trigger_uuid_fresh ltac:(vm_compute; repeat constructor; set_solver)
    (TriggerSample.start_ledger _)) (λ _, false) 90000%Z 25 t r).
  do 2 (apply Forall_cons; split; [apply polite_id|]). apply Forall_nil. exact I.
Defined.


Lemma submillisecond_trigger_stuck_witness :
  ∃ t st, processOneTriggerFire "t" TriggerSample.uuid TriggerSample.times TriggerSample.zone TriggerSample.message 90000
      (mret "c") TriggerSample.due
      (mkTxn (TriggerSample.api [TriggerSample.fraction]) (TriggerSample.api [TriggerSample.fraction]) []) = (t, Ok st) ∧
    a_triggers (tx_mine t) = [TriggerSample.fraction].
Proof.
  destruct (submillisecond_trigger_stuck "t" TriggerSample.uuid TriggerSample.times TriggerSample.zone TriggerSample.message 90000 "c"
    (TriggerSample.api [TriggerSample.fraction]) (TriggerSample.api [TriggerSample.fraction]) TriggerSample.fraction
    TriggerSample.due 60000123) as (t & st & H1 & H2 & _).
  - vm_compute. repeat constructor; set_solver.
  - by left.
  - reflexivity.
  - reflexivity.
  - vm_compute. discriminate.
  - apply TriggerSample.start_ids.
  - intros now' t E. vm_compute in E. injection E as <-. reflexivity.
  - exists t, st. done.
Defined.

(** The scheduler's transaction, as what happens between the reading and the writing
    of a resumption: it finds the schedule without a next instant and pauses the
    trigger; the resumption then enables it without a time to fire. *)
Definition scheduler_acts (a : Api) : Api :=
  tx_mine (processTenantDueRunTriggers "t" TriggerSample.uuid TriggerSample.times TriggerSample.zone TriggerSample.message
    (λ _, false) 90000 25 (mkTxn a a [])).1.
Theorem resume_race_leaves_trigger_unscheduled :
  let a := TriggerSample.api [TriggerSample.broken] in
  triggers_wf TriggerSample.zone a ∧ triggers_wf TriggerSample.zone (scheduler_acts a) ∧
  let '(t, r) := changeTriggerStatus TriggerSample.zone "t1" trigger_enabled (mkTxn a a [scheduler_acts]) in
  is_ok r = true ∧ map (λ x, (tr_status x, tr_next_fire_at x)) (a_triggers (tx_mine t)) = [(trigger_enabled, None)].
Proof.
  assert (Hwf : ∀ r s n, r = with_schedule s n (tr_updated_at r) TriggerSample.broken → (s = trigger_enabled → is_Some n) →
    trigger_wf TriggerSample.zone r).
  { intros r s n -> Hn. split; [simpl; lia|]. simpl. split; [eexists; split; [reflexivity|vm_compute; reflexivity]|].
    split; [eexists; split; [reflexivity|vm_compute; by eexists]|]. done. }
  split; [|split; [|vm_compute; done]].
  - split; [vm_compute; repeat constructor; set_solver|]. intros r ->%list_elem_of_singleton.
    eapply (Hwf _ trigger_enabled (Some 60000000%Z)); [reflexivity|by eexists].
  - assert (E : a_triggers (scheduler_acts (TriggerSample.api [TriggerSample.broken])) =
      [with_schedule trigger_paused None 90000000 TriggerSample.broken]) by (vm_compute; reflexivity).
    unfold triggers_wf. rewrite E. split; [apply NoDup_singleton|]. intros r ->%list_elem_of_singleton.
    eapply (Hwf _ trigger_paused None); [reflexivity|done].
Qed.

Lemma minute_wf : triggers_wf TriggerSample.zone (TriggerSample.api [TriggerSample.minute]).
Proof.
  split; [vm_compute; repeat constructor; set_solver|]. intros r ->%list_elem_of_singleton. split; [simpl; lia|]. simpl.
  split; [eexists; split; [reflexivity|vm_compute; reflexivity]|].
  split; [eexists; split; [reflexivity|vm_compute; by eexists]|]. split; [done|]. intros _. by eexists.
Qed.
Lemma minute_ids : ∀ row n, row ∈ a_triggers (TriggerSample.api [TriggerSample.minute]) →
  a_ids (TriggerSample.api [TriggerSample.minute]) ≤ n → tr_id row ≠ TriggerSample.uuid n.
Proof. intros row n ->%list_elem_of_singleton _. unfold TriggerSample.uuid. done. Qed.


Definition sample_signature : string :=
  "sha256=0123456789abcdef0123456789abcdef0123456789abcdef0123456789abcdef".
Definition sample_hmac (_ _ : string) : string := "0123456789abcdef0123456789abcdef0123456789abcdef0123456789abcdef".
Definition sample_headers (name : string) : option json :=
  if decide (name = "x-rpa-webhook-event-id") then Some (JStr "e1") else
  if decide (name = "x-rpa-webhook-timestamp") then Some (JStr "0000000090") else
  if decide (name = "x-rpa-webhook-signature") then Some (JStr sample_signature) else None.
Definition call_webhook (hmac : string → string → string) : ApiWorld * result ApiExn json :=
  webhook_route "t" TriggerSample.uuid TriggerSample.times TriggerSample.message hmac (Some (λ _, Ok "s"))
    "00000000-0000-4000-8000-000000000001" "00000000-0000-4000-8000-000000000002" (Some (JObj [])) sample_headers "c"
    (mkApiWorld TriggerSample.start []).

(** A signed call queues a run; its repetition answers with the same fire. *)
Example signed_webhook_queues_run :
  is_ok (call_webhook sample_hmac).2 = true ∧
  map (λ r, (fi_fire_key r, fi_status r, fi_run_id r)) (a_fires (aw_api (call_webhook sample_hmac).1)) =
  [("webhook:e1", fire_queued, Some "id2")].
Proof. vm_compute. done. Qed.

