(* ===== verification/HandoffParse.v ===== *)
(** * Requests about integration handoffs

    Models [app/src/api/integration-handoffs-parse.ts]: the bodies that create and
    dispatch a handoff, the callback of a provider and its headers.  Regular
    expressions are recognisers; texts are lower-cased where the flag [i] is set. *)

From stdpp Require Import base strings list.
From Stdlib Require Import Ascii ZArith.
From S2P Require Import Prelude StateMachine JsValue JsText ErrorCatalog ApiShared ApiStore Webhooks.

Record IntegrationHandoffCreateInput := mkCreateHandoff {
  hi_providerAlias : string;
  hi_jobRef : string;
  hi_payloadRef : string;
  hi_callbackUrlSecretRef : option string;
  hi_callbackSignatureSecretRef : option string;
  hi_legalHold : bool
}.
Record IntegrationHandoffCallbackInput := mkCallback {
  cb_externalJobId : string;
  cb_status : IntegrationHandoffStatus;
  cb_receiptId : string;
  cb_errorCode : option string;
  cb_legalHold : bool
}.
Record IntegrationHandoffDispatchInput := mkDispatch {
  di_endpointSecretRef : string;
  di_allowedHosts : list string;
  di_maxAttempts : Z;
  di_metadata : list (string * json);
  di_legalHold : bool
}.
Record IntegrationHandoffCallbackHeaders := mkCallbackHeaders { ch_eventId : string; ch_timestamp : string; ch_signature : string }.

(** ** Texts *)

(** [/https?:\/\//i] and [/hooks\.slack\.com/i]. *)
Definition raw_endpoint_url (value : string) : bool :=
  let lower := toLowerCase value in
  str_includes "http://" lower || str_includes "https://" lower || str_includes "hooks.slack.com" lower.

(** [/\bbearer\s+[a-z0-9._~+/=-]{8,}/i]. *)
Definition bearer_char (c : ascii) : bool :=
  is_lower_char c || is_digit_char c || str_includes (String c EmptyString) "._~+/=-".
Definition is_bearer (s : string) : bool :=
  starts_with "bearer" s &&
  match drop_chars 6 s with
  | String c _ as rest => is_space c && bool_decide (is_Some (skip_chars bearer_char 8 (trim_start rest)))
  | EmptyString => false
  end.
(** [/\b(token|password|secret)=/i]. *)
Definition is_secret_assignment (s : string) : bool :=
  starts_with "token=" s || starts_with "password=" s || starts_with "secret=" s.
Definition secret_material (value : string) : bool :=
  let lower := toLowerCase value in at_word is_bearer false lower || at_word is_secret_assignment false lower.

Definition assertSafeString (value field : string) : result ApiExn () :=
  if raw_endpoint_url value then refuse [("reason", JStr "raw_endpoint_url_forbidden"); ("field", JStr field)] else
  if secret_material value then refuse [("reason", JStr "secret_material_forbidden"); ("field", JStr field)] else
  Ok tt.

Definition parseSafeString (raw : option json) (field : string) (min max : nat) : result ApiExn string :=
  match raw with
  | Some (JStr s) =>
      let value := trim s in
      if (String.length value <? min) || (max <? String.length value) then refuse (error_reason ("invalid_" +:+ field)) else
      _ ← assertSafeString value field;
      Ok value
  | _ => refuse (error_reason ("invalid_" +:+ field))
  end.

Definition parseBoolean (raw : option json) (field : string) : result ApiExn bool :=
  match raw with Some (JBool b) => Ok b | _ => refuse (error_reason ("invalid_" +:+ field)) end.
(** [raw === undefined ? false : parseBoolean(raw)]. *)
Definition parse_legal_hold (raw : option json) : result ApiExn bool :=
  match raw with None => Ok false | Some _ => parseBoolean raw "legal_hold" end.

Definition parseInteger (raw : option json) (field : string) (min max : Z) : result ApiExn Z :=
  match raw with
  | Some (JNum x) =>
      match num_to_Z x with
      | Some n => if (n <? min)%Z || (max <? n)%Z then refuse (error_reason ("invalid_" +:+ field)) else Ok n
      | None => refuse (error_reason ("invalid_" +:+ field))
      end
  | _ => refuse (error_reason ("invalid_" +:+ field))
  end.

Definition parseSecretRef (raw : option json) (field : string) : result ApiExn string :=
  match raw with
  | Some (JStr s) =>
      if negb (starts_with "secret://" s) || (String.length s <=? 9) || (500 <? String.length s)
      then refuse (error_reason ("invalid_" +:+ field)) else
      _ ← assertSafeString s field;
      Ok s
  | _ => refuse (error_reason ("invalid_" +:+ field))
  end.
Definition parseNullableSecretRef (raw : option json) (field : string) : result ApiExn (option string) :=
  match raw with
  | None | Some JNull | Some (JStr EmptyString) => Ok None
  | _ => ref ← parseSecretRef raw field; Ok (Some ref)
  end.

(** ** Hosts *)

Definition ip_chars (host : string) : bool :=
  negb (bool_decide (host = EmptyString)) && string_forall (λ c, is_digit_char c || Ascii.eqb c ".") host.
Fixpoint ends_in (suffix s : string) : bool :=
  bool_decide (s = suffix) || match s with EmptyString => false | String _ s' => ends_in suffix s' end.
Definition host_char (c : ascii) : bool := is_lower_char c || is_digit_char c || Ascii.eqb c "." || Ascii.eqb c "-".

(** The disjunction of [parseAllowedHosts]. *)
Definition forbidden_host (host : string) : bool :=
  (String.length host =? 0) || (253 <? String.length host) || str_includes "/" host || str_includes ":" host ||
  str_includes "*" host || bool_decide (host = "localhost") || ends_in ".localhost" host || ip_chars host ||
  negb (string_forall host_char host) || starts_with "." host || ends_in "." host.

Fixpoint parse_hosts (raw : list json) (hosts : list string) : result ApiExn (list string) :=
  match raw with
  | [] => Ok hosts
  | JStr item :: rest =>
      let host := toLowerCase (trim item) in
      if forbidden_host host then refuse [("reason", JStr "invalid_allowed_host"); ("host", JStr item)] else
      parse_hosts rest (if string_in host hosts then hosts else hosts ++ [host])
  | _ :: _ => refuse (error_reason "invalid_allowed_host")
  end.
Definition parseAllowedHosts (raw : option json) : result ApiExn (list string) :=
  match raw with
  | Some (JArr l) =>
      if (length l <? 1) || (20 <? length l) then refuse (error_reason "invalid_allowed_hosts") else parse_hosts l []
  | _ => refuse (error_reason "invalid_allowed_hosts")
  end.

(** ** Metadata *)

Definition separator (c : ascii) : bool := Ascii.eqb c "_" || Ascii.eqb c "." || Ascii.eqb c "-".
(** The words of [forbiddenEvidenceKey]; [api[_-]?key] stands for three of them. *)
Definition FORBIDDEN_WORDS : list string :=
  ["api_key"; "api-key"; "apikey"; "access_key"; "access-key"; "accesskey"; "private_key"; "private-key"; "privatekey";
   "secret"; "token"; "password"; "credential"; "authorization"; "cookie"; "webhook_url"; "endpoint_url"; "url"; "dsn"; "smtp";
   "raw_payload"; "request_payload"; "response_payload"; "payload"; "body"; "raw_body"; "provider_response"; "provider_body"].
(** A word at the start of the text that ends there or before a separator. *)
Definition starts_forbidden (s : string) : bool :=
  existsb (λ w, starts_with w s &&
                match drop_chars (String.length w) s with String c _ => separator c | EmptyString => true end) FORBIDDEN_WORDS.
Fixpoint after_separator (s : string) : bool :=
  match s with EmptyString => false | String c s' => separator c && starts_forbidden s' || after_separator s' end.
Definition forbiddenEvidenceKey (key : string) : bool :=
  let lower := toLowerCase key in starts_forbidden lower || after_separator lower.

(** [/^[a-zA-Z0-9_.-]{1,80}$/]. *)
Definition metadata_key (key : string) : bool :=
  (1 <=? String.length key) && (String.length key <=? 80) &&
  string_forall (λ c, is_lower_char c || is_upper_char c || is_digit_char c || separator c) key.

Fixpoint assertSafeMetadata (value : json) (field : string) (depth : nat) : result ApiExn () :=
  if 4 <? depth then refuse [("reason", JStr "metadata_too_deep"); ("field", JStr field)] else
  match value with
  | JStr s => assertSafeString s field
  | JArr l =>
      if 50 <? length l then refuse [("reason", JStr "metadata_array_too_large"); ("field", JStr field)] else
      (fix each (index : nat) (l : list json) : result ApiExn () :=
         match l with
         | [] => Ok tt
         | item :: rest =>
             match assertSafeMetadata item (field +:+ "." +:+ dec (Z.of_nat index)) (S depth) with
             | Ok _ => each (S index) rest
             | Err e => Err e
             end
         end) O l
  | JObj f =>
      if 50 <? length f then refuse [("reason", JStr "metadata_object_too_large"); ("field", JStr field)] else
      (fix each (f : list (string * json)) : result ApiExn () :=
         match f with
         | [] => Ok tt
         | (key, child) :: rest =>
             if negb (metadata_key key) || forbiddenEvidenceKey key
             then refuse [("reason", JStr "metadata_secret_or_endpoint_key_forbidden"); ("field", JStr (field +:+ "." +:+ key))] else
             match assertSafeMetadata child (field +:+ "." +:+ key) (S depth) with
             | Ok _ => each rest
             | Err e => Err e
             end
         end) f
  | _ => Ok tt
  end.

Definition parseMetadata (raw : option json) : result ApiExn (list (string * json)) :=
  match raw with
  | None => Ok []
  | Some (JObj f) => _ ← assertSafeMetadata (JObj f) "metadata" 0; Ok f
  | Some _ => refuse (error_reason "invalid_metadata")
  end.

(** ** Bodies *)

Definition assertAllowedKeys (raw : list (string * json)) (allowed : list string) : result ApiExn () :=
  match List.filter (λ p, negb (string_in p.1 allowed)) raw with
  | p :: _ => refuse [("reason", JStr "integration_handoff_unknown_field"); ("field", JStr p.1)]
  | [] => Ok tt
  end.

Definition parseCreateRequest (raw : option json) : result ApiExn IntegrationHandoffCreateInput :=
  match raw with
  | Some (JObj f) =>
      _ ← assertAllowedKeys f ["provider_alias"; "job_ref"; "payload_ref"; "callback_url_secret_ref";
            "callback_signature_secret_ref"; "legal_hold"];
      providerAlias ← parseSafeString (alookup "provider_alias" f) "provider_alias" 1 120;
      jobRef ← parseSafeString (alookup "job_ref" f) "job_ref" 1 300;
      payloadRef ← parseSafeString (alookup "payload_ref" f) "payload_ref" 1 500;
      callbackUrl ← parseNullableSecretRef (alookup "callback_url_secret_ref" f) "callback_url_secret_ref";
      callbackSignature ← parseNullableSecretRef (alookup "callback_signature_secret_ref" f) "callback_signature_secret_ref";
      legalHold ← parse_legal_hold (alookup "legal_hold" f);
      Ok (mkCreateHandoff providerAlias jobRef payloadRef callbackUrl callbackSignature legalHold)
  | _ => refuse (error_reason "integration_handoff_body_expected_object")
  end.

Definition parseDispatchRequest (raw : option json) : result ApiExn IntegrationHandoffDispatchInput :=
  match raw with
  | Some (JObj f) =>
      _ ← assertAllowedKeys f ["endpoint_secret_ref"; "allowed_hosts"; "max_attempts"; "metadata"; "legal_hold"];
      endpoint ← parseSecretRef (alookup "endpoint_secret_ref" f) "endpoint_secret_ref";
      hosts ← parseAllowedHosts (alookup "allowed_hosts" f);
      maxAttempts ← match alookup "max_attempts" f with
                    | None => Ok 3%Z
                    | raw => parseInteger raw "max_attempts" 1 20
                    end;
      metadata ← parseMetadata (alookup "metadata" f);
      legalHold ← parse_legal_hold (alookup "legal_hold" f);
      Ok (mkDispatch endpoint hosts maxAttempts metadata legalHold)
  | _ => refuse (error_reason "integration_handoff_dispatch_body_expected_object")
  end.

Definition parseReceiptStatus (raw : option json) : result ApiExn IntegrationHandoffStatus :=
  match raw with
  | Some (JStr s) =>
      if decide (s = "accepted") then Ok handoff_accepted else
      if decide (s = "completed") then Ok handoff_completed else
      if decide (s = "failed") then Ok handoff_failed else
      if decide (s = "cancelled") then Ok handoff_cancelled else refuse (error_reason "invalid_integration_handoff_callback_status")
  | _ => refuse (error_reason "invalid_integration_handoff_callback_status")
  end.

Definition parseCallbackRequest (raw : option json) : result ApiExn IntegrationHandoffCallbackInput :=
  match raw with
  | Some (JObj f) =>
      _ ← assertAllowedKeys f ["external_job_id"; "status"; "receipt_id"; "error_code"; "legal_hold"];
      status ← parseReceiptStatus (alookup "status" f);
      errorCode ← match alookup "error_code" f with
                  | None | Some JNull | Some (JStr EmptyString) => Ok None
                  | raw => code ← parseSafeString raw "error_code" 1 120; Ok (Some code)
                  end;
      if bool_decide (status = handoff_failed) && bool_decide (errorCode = None)
      then refuse (error_reason "error_code_required_for_failed_handoff") else
      if (bool_decide (status = handoff_accepted) || bool_decide (status = handoff_completed)) && bool_decide (is_Some errorCode)
      then refuse (error_reason "error_code_for_successful_handoff_forbidden") else
      externalJobId ← parseSafeString (alookup "external_job_id" f) "external_job_id" 1 200;
      receiptId ← parseSafeString (alookup "receipt_id" f) "receipt_id" 1 200;
      legalHold ← parse_legal_hold (alookup "legal_hold" f);
      Ok (mkCallback externalJobId status receiptId errorCode legalHold)
  | _ => refuse (error_reason "integration_handoff_callback_body_expected_object")
  end.

(** ** Parameters and headers *)

Definition parseUuid (raw field : string) : result ApiExn string :=
  if UUID_RE raw then Ok raw else refuse (error_reason ("invalid_" +:+ field)).
Definition parseUuidNotFound (raw field : string) : result ApiExn string :=
  if UUID_RE raw then Ok raw else Err (AE_api RESOURCE_NOT_FOUND (Some (JObj (error_reason ("invalid_" +:+ field))))).

Definition MAX_PROVIDER_CALLBACK_TIMESTAMP_SKEW_MS : Z := 5 * 60 * 1000.
(** The regular expression is that of [WEBHOOK_EVENT_ID_RE]. *)
Definition PROVIDER_CALLBACK_EVENT_ID_RE (s : string) : bool := WEBHOOK_EVENT_ID_RE s.

Definition requireCallbackHeader (value : option json) (name : string) : result ApiExn string :=
  match value with
  | Some (JStr (String _ _ as v)) => Ok v
  | _ => refuse [("reason", JStr "missing_integration_handoff_header"); ("header", JStr name)]
  end.

Definition parseProviderCallbackTimestamp (now : Z) (value : string) : result ApiExn () :=
  match timestamp_ms value with
  | None => refuse (error_reason "invalid_integration_handoff_timestamp")
  | Some ms =>
      if (MAX_PROVIDER_CALLBACK_TIMESTAMP_SKEW_MS <? Z.abs (now - ms))%Z
      then Err (AE_api UNAUTHENTICATED (Some (JObj (error_reason "integration_handoff_timestamp_outside_window")))) else Ok tt
  end.

Definition parseProviderCallbackHeaders (now : Z) (headers : string → option json)
  : result ApiExn IntegrationHandoffCallbackHeaders :=
  eventId ← requireCallbackHeader (headers "x-rpa-integration-event-id") "x-rpa-integration-event-id";
  if negb (PROVIDER_CALLBACK_EVENT_ID_RE eventId) then refuse (error_reason "invalid_integration_handoff_event_id") else
  timestamp ← requireCallbackHeader (headers "x-rpa-integration-timestamp") "x-rpa-integration-timestamp";
  _ ← parseProviderCallbackTimestamp now timestamp;
  signature ← requireCallbackHeader (headers "x-rpa-integration-signature") "x-rpa-integration-signature";
  Ok (mkCallbackHeaders eventId timestamp signature).

Definition requireIdempotencyHeader (raw : option string) : result ApiExn string :=
  match raw with
  | Some (String _ _ as s) => Ok s
  | _ => refuse [("reason", JStr "missing_idempotency_key"); ("header", JStr "Idempotency-Key")]
  end.

Example secret_texts :
  map secret_material ["Bearer abcdefgh"; "bearer   abc"; "my token=x"; "mytoken=x"; "PASSWORD=1"; "a bearer x-y~z/=+12"] =
  [true; false; true; false; true; true] ∧
  map raw_endpoint_url ["see HTTPS://x"; "hooks.slack.com/a"; "http:/x"] = [true; true; false].
Proof. by vm_compute. Qed.
Example evidence_keys :
  map forbiddenEvidenceKey ["api-key"; "my.ApiKey"; "apikeys"; "url"; "curl"; "x_url_y"; "request_id"; "payload-ref"; "tokenized"] =
  [true; true; false; true; false; true; false; true; false].
Proof. by vm_compute. Qed.
Example host_texts :
  map forbidden_host ["api.example.com"; "LOCALHOST"; "localhost"; "a.localhost"; "10.0.0.1"; "a:1"; ".a"; "a."; ""] =
  [false; true; true; true; true; true; true; true; true].
Proof. by vm_compute. Qed.
