(* ===== verification/Handoffs.v ===== *)
(** * Integration handoffs

    Models [app/src/api/integration-handoffs-store.ts] and
    [integration-handoffs.ts] (the commands and callbacks on a handoff) and
    [app/src/runtime/integration-handoff-dispatch.ts] (the job that sends an attempt
    to the provider and records what came of it).  The tables are [a_handoffs] of
    [ApiStore]; the port that talks to the provider is an argument. *)

From stdpp Require Import base strings list gmap pretty.
From Stdlib Require Import Ascii ZArith.
From S2P Require Import Prelude StateMachine JsValue RuntimeStore Rbac JsText Database Leases ErrorCatalog ApiShared AuditLog ApiStore ApiRuns Webhooks HandoffParse.

Definition IntegrationHandoffStatus_str (s : IntegrationHandoffStatus) : string :=
  match s with
  | handoff_accepted => "accepted" | handoff_deferred => "deferred" | handoff_completed => "completed"
  | handoff_failed => "failed" | handoff_cancelled => "cancelled"
  end.
Definition AttemptStatus_str (s : AttemptStatus) : string :=
  match s with
  | attempt_pending => "pending" | attempt_sending => "sending" | attempt_accepted => "accepted"
  | attempt_failed => "failed" | attempt_dead_letter => "dead_letter"
  end.

(** ** Statements *)

Definition with_rows (h : list IntegrationHandoffRow) (t : HandoffTables) : HandoffTables :=
  mkHandoffTables h (hs_attempts t) (hs_receipts t) (hs_jobs t).
Definition with_attempts (x : list DispatchAttemptRow) (t : HandoffTables) : HandoffTables :=
  mkHandoffTables (hs_handoffs t) x (hs_receipts t) (hs_jobs t).
Definition push_receipt (x : HandoffReceiptRow) (t : HandoffTables) : HandoffTables :=
  mkHandoffTables (hs_handoffs t) (hs_attempts t) (hs_receipts t ++ [x]) (hs_jobs t).
Definition push_handoff_job (x : HandoffJob) (t : HandoffTables) : HandoffTables :=
  mkHandoffTables (hs_handoffs t) (hs_attempts t) (hs_receipts t) (hs_jobs t ++ [x]).

Definition handoff_rows (a : Api) : list IntegrationHandoffRow := hs_handoffs (a_handoffs a).
Definition attempt_rows (a : Api) : list DispatchAttemptRow := hs_attempts (a_handoffs a).
Definition on_handoffs (f : HandoffTables → HandoffTables) (a : Api) : Api := set_handoffs (f (a_handoffs a)) a.

(** [UPDATE ... RETURNING]: the rows as they are afterwards. *)
Definition update_handoff_rows (hit : IntegrationHandoffRow → bool) (f : Api → IntegrationHandoffRow → IntegrationHandoffRow)
  : Stmt (list IntegrationHandoffRow) :=
  a ← api_select (λ a, a);
  _ ← api_update (λ a, on_handoffs (with_rows (map (λ r, if hit r then f a r else r) (handoff_rows a))) a);
  mret (map (f a) (List.filter hit (handoff_rows a))).
Definition update_attempt_rows (hit : Api → DispatchAttemptRow → bool) (f : Api → DispatchAttemptRow → DispatchAttemptRow)
  : Stmt (list DispatchAttemptRow) :=
  a ← api_select (λ a, a);
  _ ← api_update (λ a, on_handoffs (with_attempts (map (λ r, if hit a r then f a r else r) (attempt_rows a))) a);
  mret (map (f a) (List.filter (hit a) (attempt_rows a))).

(** The CHECKs of the columns that the dispatcher writes, in the order of their
    names; a statement that violates one aborts its transaction, so that they may be
    made of the rows it returns. *)
Definition fits (n : nat) (text : option string) : bool :=
  match text with Some s => String.length s <=? n | None => true end.
Definition attempt_violation (r : DispatchAttemptRow) : option string :=
  if negb (fits 120 (da_error_code r)) then Some "error_code" else
  if negb (fits 200 (da_external_job_id r)) then Some "external_job_id" else
  if negb (match da_provider_status_code r with Some c => (100 <=? c)%Z && (c <=? 599)%Z | None => true end)
  then Some "provider_status_code" else
  if negb (fits 200 (da_receipt_id r)) then Some "receipt_id" else None.
Definition update_attempt_checked (hit : Api → DispatchAttemptRow → bool) (f : Api → DispatchAttemptRow → DispatchAttemptRow)
  : Stmt (list DispatchAttemptRow) :=
  rows ← update_attempt_rows hit f;
  match omap attempt_violation rows with
  | [] => mret rows
  | column :: _ => api_throw (AE_db (E_error ("violates check constraint integration_handoff_dispatch_attempts_" +:+ column +:+ "_check")))
  end.

(** An INSERT into the attempts: the primary key and
    [UNIQUE (tenant_id, handoff_id, request_idempotency_key, attempt_no)]. *)
Definition attempt_key (r : DispatchAttemptRow) : string * string * Z :=
  (da_handoff_id r, da_request_idempotency_key r, da_attempt_no r).
Definition insert_attempt (row : DispatchAttemptRow) : Stmt () :=
  rows ← api_select attempt_rows;
  if existsb (λ r, bool_decide (da_id r = da_id row)) rows
  then api_throw (AE_db (E_unique "integration_handoff_dispatch_attempts_pkey")) else
  if existsb (λ r, bool_decide (attempt_key r = attempt_key row)) rows
  then api_throw (AE_db (E_unique "integration_handoff_dispatch_attempts_tenant_id_handoff_id_request_key")) else
  api_update (λ a, on_handoffs (with_attempts (attempt_rows a ++ [row])) a).

(** [enqueueRuntimeJob] for a dispatch: [run_at] is the time of the transaction
    plus the delay, if that is positive. *)
Definition enqueueHandoffDispatch (attemptId correlationId : string) (delayMs : option Z) : Stmt () :=
  api_update (λ a, on_handoffs (push_handoff_job
    (mkHandoffJob attemptId correlationId
       (match delayMs with Some d => if (0 <? d)%Z then api_now a + d else api_now a | None => api_now a end)%Z)) a).

(** The column default of [retention_until]. *)
Definition RETENTION_365_DAYS_MS : Z := 365 * 24 * 60 * 60 * 1000.

(** ** Answers *)

Definition mapHandoff (row : IntegrationHandoffRow) : json :=
  JObj [("handoff_id", JStr (hf_id row)); ("provider_alias", JStr (hf_provider_alias row)); ("job_ref", JStr (hf_job_ref row));
        ("payload_ref", JStr (hf_payload_ref row)); ("callback_url_secret_ref", json_opt (hf_callback_url_secret_ref row));
        ("callback_signature_secret_ref", json_opt (hf_callback_signature_secret_ref row));
        ("external_job_id", json_opt (hf_external_job_id row));
        ("status", JStr (IntegrationHandoffStatus_str (hf_status row)));
        ("latest_receipt_id", json_opt (hf_latest_receipt_id row)); ("error_code", json_opt (hf_latest_error_code row));
        ("requested_by", JStr (hf_requested_by row)); ("request_idempotency_key", JStr (hf_request_idempotency_key row));
        ("requested_at", JStr (iso_of_ms (hf_created_at row))); ("updated_at", JStr (iso_of_ms (hf_updated_at row)));
        ("callback_received_at", json_opt (iso_of_ms <$> hf_callback_received_at row)); ("legal_hold", JBool (hf_legal_hold row))].

Definition mapDispatchAttempt (row : DispatchAttemptRow) : json :=
  JObj [("attempt_id", JStr (da_id row)); ("handoff_id", JStr (da_handoff_id row));
        ("provider_alias", JStr (da_provider_alias row)); ("status", JStr (AttemptStatus_str (da_status row)));
        ("endpoint_secret_ref", JStr (da_endpoint_secret_ref row)); ("allowed_hosts", JArr (map JStr (da_allowed_hosts row)));
        ("request_idempotency_key", JStr (da_request_idempotency_key row));
        ("attempt_no", JNum (num_of_Z (da_attempt_no row))); ("max_attempts", JNum (num_of_Z (da_max_attempts row)));
        ("external_job_id", json_opt (da_external_job_id row)); ("receipt_id", json_opt (da_receipt_id row));
        ("error_code", json_opt (da_error_code row)); ("requested_by", JStr (da_requested_by row));
        ("requested_at", JStr (iso_of_ms (da_created_at row))); ("updated_at", JStr (iso_of_ms (da_updated_at row)));
        ("legal_hold", JBool (da_legal_hold row))].

(** ** The commands *)

Section Handoffs.
(** The tenant, the digest, [randomUUID], the HMAC of a signature and the boundary
    that resolves its secret, if one is configured. *)
Context (tenantId : string) (sha256 : string → string) (uuid : nat → string).
Context (hmac : string → string → string) (boundary : option (string → result ApiExn string)).

Definition handoff_is (id : string) (r : IntegrationHandoffRow) : bool := bool_decide (hf_id r = uuid_text id).

Definition selectIntegrationHandoffRow (handoffId : string) : Stmt (option IntegrationHandoffRow) :=
  api_select (λ a, head (List.filter (handoff_is handoffId) (handoff_rows a))).

(** [ON CONFLICT (tenant_id, request_idempotency_key) DO UPDATE] of nothing: the
    row that is there is returned. *)
Definition insertIntegrationHandoff (requestedBy requestIdempotencyKey : string) (input : IntegrationHandoffCreateInput) : Stmt json :=
  id ← fresh_uuid uuid;
  existing ← api_select (λ a, head (List.filter
    (λ r, bool_decide (hf_request_idempotency_key r = requestIdempotencyKey)) (handoff_rows a)));
  match existing with
  | Some row => mret (mapHandoff row)
  | None =>
      now ← api_select api_now;
      let row := mkHandoff id (hi_providerAlias input) (hi_jobRef input) (hi_payloadRef input) (hi_callbackUrlSecretRef input)
                   (hi_callbackSignatureSecretRef input) requestIdempotencyKey handoff_deferred None None None requestedBy None
                   now now (hi_legalHold input) in
      _ ← api_update (λ a, on_handoffs (with_rows (handoff_rows a ++ [row])) a);
      mret (mapHandoff row)
  end.

Definition assertDispatchableHandoff (row : IntegrationHandoffRow) : Stmt () :=
  match hf_status row with
  | handoff_deferred | handoff_failed => mret tt
  | s => api_fail SCENARIO_VERSION_CONFLICT [("reason", JStr "integration_handoff_not_dispatchable");
                                             ("status", JStr (IntegrationHandoffStatus_str s))]
  end.

Definition buildDispatchPayload (handoff : IntegrationHandoffRow) (input : IntegrationHandoffDispatchInput) : json :=
  JObj [("handoff_id", JStr (hf_id handoff)); ("tenant_id", JStr tenantId); ("provider_alias", JStr (hf_provider_alias handoff));
        ("job_ref", JStr (hf_job_ref handoff)); ("payload_ref", JStr (hf_payload_ref handoff));
        ("callback", JObj [("url_path", JStr ("/v1/webhooks/integration-handoffs/" +:+ tenantId +:+ "/" +:+ hf_id handoff));
           ("callback_url_secret_ref", json_opt (hf_callback_url_secret_ref handoff));
           ("signature", JStr (match hf_callback_signature_secret_ref handoff with
                               | None => "not_configured" | Some _ => "hmac-sha256-secret-ref" end));
           ("event_id_header", JStr "X-RPA-Integration-Event-Id"); ("timestamp_header", JStr "X-RPA-Integration-Timestamp");
           ("signature_header", JStr "X-RPA-Integration-Signature")]);
        ("metadata", JObj (di_metadata input))].

(** The row an INSERT of a first attempt gives, with the column defaults. *)
Definition first_attempt (id : string) (handoff : IntegrationHandoffRow) (requestedBy requestIdempotencyKey : string)
    (input : IntegrationHandoffDispatchInput) (now : Z) : DispatchAttemptRow :=
  mkAttempt id (hf_id handoff) (hf_provider_alias handoff) attempt_pending (di_endpointSecretRef input) (di_allowedHosts input)
    requestIdempotencyKey 1 (di_maxAttempts input) now None (buildDispatchPayload handoff input) None None None None
    requestedBy now now (now + RETENTION_365_DAYS_MS)%Z (di_legalHold input) None.

Definition insertIntegrationHandoffDispatchAttempt (handoff : IntegrationHandoffRow) (requestedBy requestIdempotencyKey : string)
    (input : IntegrationHandoffDispatchInput) : Stmt DispatchAttemptRow :=
  id ← fresh_uuid uuid;
  existing ← api_select (λ a, head (List.filter
    (λ r, bool_decide (attempt_key r = (hf_id handoff, requestIdempotencyKey, 1%Z))) (attempt_rows a)));
  match existing with
  | Some row => mret row
  | None =>
      now ← api_select api_now;
      let row := first_attempt id handoff requestedBy requestIdempotencyKey input now in
      _ ← insert_attempt row;
      mret row
  end.

(** The transaction of a dispatch: what it reads, and, others having had the
    chance to commit, what it writes. *)
Definition dispatch_read (handoffId : string) : Stmt IntegrationHandoffRow :=
  handoff ← selectIntegrationHandoffRow handoffId;
  match handoff with
  | None => api_fail RESOURCE_NOT_FOUND (error_reason "integration_handoff_not_found")
  | Some handoff => _ ← assertDispatchableHandoff handoff; mret handoff
  end.
Definition dispatch_write (handoff : IntegrationHandoffRow) (requestedBy : string) (key : option string) (correlationId : string)
    (input : IntegrationHandoffDispatchInput) : Stmt CommandResponse :=
  requestIdempotencyKey ← lift (requireIdempotencyHeader key);
  attempt ← insertIntegrationHandoffDispatchAttempt handoff requestedBy requestIdempotencyKey input;
  _ ← enqueueHandoffDispatch (da_id attempt) correlationId None;
  mret (mkResponse 202 (mapDispatchAttempt attempt)).

Definition route_createHandoff (q : Request) : Act CommandResponse :=
  body ← lift_act (parseCreateRequest (qu_body q));
  runIdempotentCommand tenantId sha256 uuid q "createIntegrationHandoff" "/v1/integration-handoffs"
    (key ← lift (requireIdempotencyHeader (qu_key q));
     item ← insertIntegrationHandoff (pn_subjectId (qu_principal q)) key body;
     mret (mkResponse 202 item)).

Definition route_dispatchHandoff (q : Request) (paramHandoff : string) : Act CommandResponse :=
  handoffId ← lift_act (parseUuid paramHandoff "handoff_id");
  body ← lift_act (parseDispatchRequest (qu_body q));
  runIdempotentCommand tenantId sha256 uuid q "dispatchIntegrationHandoff"
    ("/v1/integration-handoffs/" +:+ handoffId +:+ "/dispatch")
    (handoff ← dispatch_read handoffId;
     _ ← interleave;
     dispatch_write handoff (pn_subjectId (qu_principal q)) (qu_key q) (qu_correlationId q) body).

(** ** Callbacks *)

Definition callback_receipt (handoffId receivedBy : string) (input : IntegrationHandoffCallbackInput) : HandoffReceiptRow :=
  mkReceipt (uuid_text handoffId) (cb_externalJobId input) (cb_status input) (cb_receiptId input) (cb_errorCode input)
    receivedBy (cb_legalHold input).
Definition receipt_at (handoffId receiptId : string) (r : HandoffReceiptRow) : bool :=
  bool_decide (hc_handoff_id r = uuid_text handoffId) && bool_decide (hc_receipt_id r = receiptId).

Definition assertReceiptReplayMatches (existing : HandoffReceiptRow) (input : IntegrationHandoffCallbackInput) : Stmt () :=
  if bool_decide (hc_external_job_id existing = cb_externalJobId input) && bool_decide (hc_status existing = cb_status input) &&
     bool_decide (hc_receipt_id existing = cb_receiptId input) && bool_decide (hc_error_code existing = cb_errorCode input) &&
     bool_decide (hc_legal_hold existing = cb_legalHold input)
  then mret tt
  else api_fail SCENARIO_VERSION_CONFLICT (error_reason "integration_handoff_receipt_replay_mismatch").

Definition called_back (input : IntegrationHandoffCallbackInput) (a : Api) (r : IntegrationHandoffRow) : IntegrationHandoffRow :=
  mkHandoff (hf_id r) (hf_provider_alias r) (hf_job_ref r) (hf_payload_ref r) (hf_callback_url_secret_ref r)
    (hf_callback_signature_secret_ref r) (hf_request_idempotency_key r) (cb_status input) (Some (cb_externalJobId input))
    (Some (cb_receiptId input)) (cb_errorCode input) (hf_requested_by r) (Some (api_now a)) (hf_created_at r) (api_now a)
    (hf_legal_hold r || cb_legalHold input).

Definition requireOne {A} (row : option A) (reason : string) : Stmt A :=
  match row with Some row => mret row | None => api_fail CONTROL_PLANE_INTERNAL_ERROR (error_reason reason) end.

Definition recordIntegrationHandoffReceipt (handoffId receivedBy : string) (input : IntegrationHandoffCallbackInput)
    (verifiedSignatureSecretRef : option string) : Stmt json :=
  locked ← selectIntegrationHandoffRow handoffId;
  match locked with
  | None => api_fail RESOURCE_NOT_FOUND (error_reason "integration_handoff_not_found")
  | Some locked =>
      if bool_decide (is_Some verifiedSignatureSecretRef) &&
         negb (bool_decide (hf_callback_signature_secret_ref locked = verifiedSignatureSecretRef))
      then api_fail UNAUTHENTICATED (error_reason "integration_handoff_signature_secret_rotated") else
      _ ← fresh_uuid uuid;
      existing ← api_select (λ a, head (List.filter (receipt_at handoffId (cb_receiptId input)) (hs_receipts (a_handoffs a))));
      match existing with
      | Some existing =>
          _ ← assertReceiptReplayMatches existing input;
          row ← selectIntegrationHandoffRow handoffId;
          row ← requireOne row "integration_handoff_missing_after_receipt_replay";
          mret (mapHandoff row)
      | None =>
          _ ← api_update (on_handoffs (push_receipt (callback_receipt handoffId receivedBy input)));
          updated ← update_handoff_rows (handoff_is handoffId) (called_back input);
          row ← requireOne (head updated) "integration_handoff_missing_after_update";
          mret (mapHandoff row)
      end
  end.

Definition route_handoffCallback (q : Request) (paramHandoff : string) : Act json :=
  handoffId ← lift_act (parseUuid paramHandoff "handoff_id");
  body ← lift_act (parseCallbackRequest (qu_body q));
  tenantTx (recordIntegrationHandoffReceipt handoffId (pn_subjectId (qu_principal q)) body None).

(** The unauthenticated route of a provider. *)
Definition route_handoffWebhook (paramTenant paramHandoff : string) (rawBody : option json) (rawHeaders : string → option json)
  : Act json :=
  _ ← lift_act (parseUuidNotFound paramTenant "tenant_id");
  handoffId ← lift_act (parseUuidNotFound paramHandoff "handoff_id");
  body ← lift_act (parseCallbackRequest rawBody);
  now ← p_now;
  headers ← lift_act (parseProviderCallbackHeaders now rawHeaders);
  if negb (bool_decide (ch_eventId headers = cb_receiptId body))
  then p_fail IR_SCHEMA_INVALID (error_reason "handoff_callback_event_id_must_match_receipt_id") else
  authRow ← tenantTx (selectIntegrationHandoffRow handoffId);
  match authRow with
  | None => p_fail RESOURCE_NOT_FOUND (error_reason "integration_handoff_not_found")
  | Some authRow =>
      match hf_callback_signature_secret_ref authRow with
      | None => p_fail UNAUTHENTICATED (error_reason "integration_handoff_callback_signature_not_configured")
      | Some secretRef =>
          match boundary with
          | None => p_fail CONTROL_PLANE_INTERNAL_ERROR (error_reason "integration_handoff_callback_secret_boundary_not_configured")
          | Some resolve =>
              secret ← lift_act (resolve secretRef);
              if negb (verifyWebhookSignature hmac secret (ch_signature headers)
                         (webhookSigningPayload (ch_timestamp headers) (ch_eventId headers) (default JNull rawBody)))
              then p_fail UNAUTHENTICATED (error_reason "invalid_integration_handoff_callback_signature") else
              tenantTx (recordIntegrationHandoffReceipt handoffId "api:integration-handoff-callback" body (Some secretRef))
          end
      end
  end.

(** ** The dispatcher *)

Inductive IntegrationHandoffDispatchDecision :=
| dd_accepted (receiptId : string) (providerStatusCode : Z) (externalJobId : option string)
| dd_transient_failed (reason : string) (providerStatusCode : option Z)
| dd_permanent_failed (reason : string) (providerStatusCode : option Z).

Record IntegrationHandoffDispatchRequest := mkDispatchRequest {
  dq_correlationId : string;
  dq_attemptId : string;
  dq_handoffId : string;
  dq_providerAlias : string;
  dq_endpointSecretRef : string;
  dq_allowedHosts : list string;
  dq_payload : json;
  dq_attemptNo : Z
}.

Inductive IntegrationHandoffDispatchOutcome :=
| out_accepted | out_failed (nextAttemptId : string) | out_dead_letter | out_already_completed.

(** [redactedErrorCode]: trimmed, each run of other characters one underscore,
    none at the ends, upper case, at most 120 characters. *)
Definition code_char (c : ascii) : bool :=
  is_lower_char c || is_upper_char c || is_digit_char c || Ascii.eqb c "_" || Ascii.eqb c "." || Ascii.eqb c ":" || Ascii.eqb c "-".
Fixpoint squeeze (in_run : bool) (s : string) : string :=
  match s with
  | EmptyString => EmptyString
  | String c s' =>
      if code_char c then String c (squeeze false s')
      else if in_run then squeeze true s' else String "_" (squeeze true s')
  end.
Fixpoint drop_underscores (s : string) : string :=
  match s with String c s' => if Ascii.eqb c "_" then drop_underscores s' else s | EmptyString => EmptyString end.
Fixpoint strip_underscores_end (s : string) : string :=
  match s with
  | EmptyString => EmptyString
  | String c s' =>
      match strip_underscores_end s' with
      | EmptyString => if Ascii.eqb c "_" then EmptyString else String c EmptyString
      | rest => String c rest
      end
  end.
Definition redactedErrorCode (reason fallback : string) : string :=
  let normalized := toUpperCase (strip_underscores_end (drop_underscores (squeeze false (trim reason)))) in
  String.substring 0 120 (if bool_decide (normalized = EmptyString) then fallback else normalized).

Definition claimable (attemptId : string) (a : Api) (r : DispatchAttemptRow) : bool :=
  bool_decide (da_id r = uuid_text attemptId) && bool_decide (da_status r = attempt_pending) &&
  (da_next_attempt_at r <=? api_now a)%Z && bool_decide (da_deleted_at r = None).
Definition claimed_attempt (leaseToken : string) (a : Api) (r : DispatchAttemptRow) : DispatchAttemptRow :=
  mkAttempt (da_id r) (da_handoff_id r) (da_provider_alias r) attempt_sending (da_endpoint_secret_ref r) (da_allowed_hosts r)
    (da_request_idempotency_key r) (da_attempt_no r) (da_max_attempts r) (da_next_attempt_at r) (Some leaseToken) (da_payload r)
    (da_provider_status_code r) (da_external_job_id r) (da_receipt_id r) (da_error_code r) (da_requested_by r) (da_created_at r)
    (api_now a) (da_retention_until r) (da_legal_hold r) (da_deleted_at r).
(** [LEAST(max_attempts, $4)] in the RETURNING list. *)
Definition capped (configuredMaxAttempts : Z) (r : DispatchAttemptRow) : DispatchAttemptRow :=
  mkAttempt (da_id r) (da_handoff_id r) (da_provider_alias r) (da_status r) (da_endpoint_secret_ref r) (da_allowed_hosts r)
    (da_request_idempotency_key r) (da_attempt_no r) (Z.min (da_max_attempts r) configuredMaxAttempts) (da_next_attempt_at r)
    (da_lease_token r) (da_payload r) (da_provider_status_code r) (da_external_job_id r) (da_receipt_id r) (da_error_code r)
    (da_requested_by r) (da_created_at r) (da_updated_at r) (da_retention_until r) (da_legal_hold r) (da_deleted_at r).

Definition claim_attempt (attemptId leaseToken : string) (configuredMaxAttempts : Z) : Stmt (option DispatchAttemptRow) :=
  rows ← update_attempt_rows (claimable attemptId) (claimed_attempt leaseToken);
  mret (capped configuredMaxAttempts <$> head rows).
Definition claimPendingAttempt (attemptId leaseToken : string) (configuredMaxAttempts : Z) : Act (option DispatchAttemptRow) :=
  tenantTx (claim_attempt attemptId leaseToken configuredMaxAttempts).

Definition held_attempt (attempt : DispatchAttemptRow) (leaseToken : string) (_ : Api) (r : DispatchAttemptRow) : bool :=
  bool_decide (da_id r = da_id attempt) && bool_decide (da_lease_token r = Some leaseToken) &&
  bool_decide (da_status r = attempt_sending).
Definition finished_attempt (status : AttemptStatus) (receiptId externalJobId : option string) (code : option Z)
    (errorCode : option string) (a : Api) (r : DispatchAttemptRow) : DispatchAttemptRow :=
  mkAttempt (da_id r) (da_handoff_id r) (da_provider_alias r) status (da_endpoint_secret_ref r) (da_allowed_hosts r)
    (da_request_idempotency_key r) (da_attempt_no r) (da_max_attempts r) (da_next_attempt_at r) (da_lease_token r) (da_payload r)
    code externalJobId receiptId errorCode (da_requested_by r) (da_created_at r) (api_now a) (da_retention_until r)
    (da_legal_hold r) (da_deleted_at r).
Definition rowid_is (id : string) (r : IntegrationHandoffRow) : bool := bool_decide (hf_id r = id).

Definition accepted_handoff (receiptId : string) (externalJobId : option string) (legalHold : bool) (a : Api)
    (r : IntegrationHandoffRow) : IntegrationHandoffRow :=
  mkHandoff (hf_id r) (hf_provider_alias r) (hf_job_ref r) (hf_payload_ref r) (hf_callback_url_secret_ref r)
    (hf_callback_signature_secret_ref r) (hf_request_idempotency_key r) handoff_accepted externalJobId (Some receiptId) None
    (hf_requested_by r) (hf_callback_received_at r) (hf_created_at r) (api_now a) (hf_legal_hold r || legalHold).
Definition failed_handoff (errorCode : string) (legalHold : bool) (a : Api) (r : IntegrationHandoffRow) : IntegrationHandoffRow :=
  mkHandoff (hf_id r) (hf_provider_alias r) (hf_job_ref r) (hf_payload_ref r) (hf_callback_url_secret_ref r)
    (hf_callback_signature_secret_ref r) (hf_request_idempotency_key r) handoff_failed (hf_external_job_id r)
    (hf_latest_receipt_id r) (Some errorCode) (hf_requested_by r) (hf_callback_received_at r) (hf_created_at r) (api_now a)
    (hf_legal_hold r || legalHold).

(** [if (updated.rowCount !== 1) throw]. *)
Definition expect_one {A} (rows : list A) (what : string) : Stmt () :=
  if decide (length rows = 1) then mret tt
  else api_throw (AE_error ("integration handoff " +:+ what +:+ " expected 1 row, got " +:+ pretty (length rows))).

Definition completeAcceptedAttempt (attempt : DispatchAttemptRow) (leaseToken receiptId : string) (providerStatusCode : Z)
    (externalJobId : option string) : Stmt () :=
  updatedAttempt ← update_attempt_checked (held_attempt attempt leaseToken)
    (finished_attempt attempt_accepted (Some receiptId) externalJobId (Some providerStatusCode) None);
  _ ← expect_one updatedAttempt "accepted CAS";
  updatedHandoff ← update_handoff_rows (rowid_is (da_handoff_id attempt))
    (accepted_handoff receiptId externalJobId (da_legal_hold attempt));
  expect_one updatedHandoff "accepted state update".

(** The UPDATE of a failed attempt leaves the receipt and the job id. *)
Definition failed_attempt (status : AttemptStatus) (code : option Z) (errorCode : string) (a : Api) (r : DispatchAttemptRow)
  : DispatchAttemptRow :=
  finished_attempt status (da_receipt_id r) (da_external_job_id r) code (Some errorCode) a r.

Definition next_attempt (id : string) (attempt : DispatchAttemptRow) (now retryAfterMs : Z) : DispatchAttemptRow :=
  mkAttempt id (da_handoff_id attempt) (da_provider_alias attempt) attempt_pending (da_endpoint_secret_ref attempt)
    (da_allowed_hosts attempt) (da_request_idempotency_key attempt) (da_attempt_no attempt + 1) (da_max_attempts attempt)
    (now + retryAfterMs) None (da_payload attempt) None None None None (da_requested_by attempt) now now
    (da_retention_until attempt) (da_legal_hold attempt) None.

Definition completeFailedAttempt (retryAfterMs : Z) (correlationId : string) (attempt : DispatchAttemptRow) (leaseToken reason : string)
    (providerStatusCode : option Z) (finalFailure : bool) : Stmt string :=
  let errorCode := redactedErrorCode reason "INTEGRATION_HANDOFF_DISPATCH_FAILED" in
  updatedAttempt ← update_attempt_checked (held_attempt attempt leaseToken)
    (failed_attempt (if finalFailure then attempt_dead_letter else attempt_failed) providerStatusCode errorCode);
  _ ← expect_one updatedAttempt "failure CAS";
  if finalFailure then
    updatedHandoff ← update_handoff_rows (rowid_is (da_handoff_id attempt)) (failed_handoff errorCode (da_legal_hold attempt));
    _ ← expect_one updatedHandoff "failed state update";
    mret (da_id attempt)
  else
    nextAttemptId ← fresh_uuid uuid;
    now ← api_select api_now;
    _ ← insert_attempt (next_attempt nextAttemptId attempt now retryAfterMs);
    _ ← enqueueHandoffDispatch nextAttemptId correlationId (Some retryAfterMs);
    mret nextAttemptId.

Definition dispatch_request (correlationId : string) (attempt : DispatchAttemptRow) : IntegrationHandoffDispatchRequest :=
  mkDispatchRequest correlationId (da_id attempt) (da_handoff_id attempt) (da_provider_alias attempt)
    (da_endpoint_secret_ref attempt) (da_allowed_hosts attempt) (da_payload attempt) (da_attempt_no attempt).

Definition sendable (payload : json) : bool := match payload with JObj _ => true | _ => false end.

(** What is recorded of a decision, in one transaction. *)
Definition settle_attempt (retryAfterMs : Z) (correlationId : string) (attempt : DispatchAttemptRow) (leaseToken : string)
    (decision : IntegrationHandoffDispatchDecision) : Stmt IntegrationHandoffDispatchOutcome :=
  match decision with
  | dd_accepted receiptId code externalJobId =>
      _ ← completeAcceptedAttempt attempt leaseToken receiptId code externalJobId; mret out_accepted
  | dd_permanent_failed reason code =>
      _ ← completeFailedAttempt retryAfterMs correlationId attempt leaseToken reason code true; mret out_dead_letter
  | dd_transient_failed reason code =>
      if (da_max_attempts attempt <=? da_attempt_no attempt)%Z then
        _ ← completeFailedAttempt retryAfterMs correlationId attempt leaseToken reason code true; mret out_dead_letter
      else
        next ← completeFailedAttempt retryAfterMs correlationId attempt leaseToken reason code false; mret (out_failed next)
  end.

(** [randomUUID()] of the lease token. *)
Definition draw_token : Act string := λ w, (mkApiWorld (use_api_id (aw_api w)) (aw_env w), Ok (uuid (a_ids (aw_api w)))).

Definition dispatchIntegrationHandoffAttempt
    (port : IntegrationHandoffDispatchRequest → result ApiExn IntegrationHandoffDispatchDecision)
    (maxAttempts retryAfterMs : Z) (attemptId correlationId : string) : Act IntegrationHandoffDispatchOutcome :=
  leaseToken ← draw_token;
  attempt ← claimPendingAttempt attemptId leaseToken maxAttempts;
  match attempt with
  | None => mret out_already_completed
  | Some attempt =>
      if negb (sendable (da_payload attempt)) then
        tenantTx (settle_attempt retryAfterMs correlationId attempt leaseToken (dd_permanent_failed "payload_not_object" None))
      else
        decision ← lift_act (port (dispatch_request correlationId attempt));
        tenantTx (settle_attempt retryAfterMs correlationId attempt leaseToken decision)
  end.
End Handoffs.

Example redacted_codes :
  map (λ r, redactedErrorCode r "F") ["handoff_http_503"; "  a/b//c "; "//"; "__x__"; ""] =
  ["HANDOFF_HTTP_503"; "A_B_C"; "F"; "X"; "F"].
Proof. by vm_compute. Qed.
