(* ===== verification/HandoffProps.v ===== *)
(** * Interleavings of the operations on handoffs

    [hstep] is every way the tables of [Handoffs] change: the commands, the
    callbacks of providers, and the dispatchers, which are threads between their two
    transactions.  A thread may be answered anything by its port, and may vanish (a
    crash, or a port that throws).  The theorems speak of all reachable states. *)

From stdpp Require Import base strings list gmap pretty sets.
From Stdlib Require Import ZArith Lia.
From S2P Require Import Prelude StateMachine JsValue JsText Database Leases ErrorCatalog ApiShared AuditLog ApiStore HandoffParse Handoffs.

(** ** Chains of attempts *)

(** The attempts of one dispatch share the handoff and the request key and are
    numbered from 1; all but the last have failed. *)
Definition same_chain (r q : DispatchAttemptRow) : Prop :=
  da_handoff_id r = da_handoff_id q ∧ da_request_idempotency_key r = da_request_idempotency_key q.
Definition after_attempt (r q : DispatchAttemptRow) : Prop := same_chain r q ∧ da_attempt_no q = (da_attempt_no r + 1)%Z.

Record chain_ok (l : list DispatchAttemptRow) : Prop := mkChainOk {
  ck_ids : NoDup (map da_id l);
  ck_keys : NoDup (map attempt_key l);
  ck_bounds : ∀ r, r ∈ l → (1 <= da_attempt_no r <= da_max_attempts r ∧ da_max_attempts r <= 20)%Z;
  ck_before : ∀ r, r ∈ l → (1 < da_attempt_no r)%Z →
    ∃ p, p ∈ l ∧ after_attempt p r ∧ da_status p = attempt_failed ∧ (da_max_attempts r <= da_max_attempts p)%Z;
  ck_after : ∀ r, r ∈ l → da_status r = attempt_failed → ∃ q, q ∈ l ∧ after_attempt r q
}.

(** What an update of an attempt leaves. *)
Definition same_attempt (r q : DispatchAttemptRow) : Prop :=
  da_id q = da_id r ∧ attempt_key q = attempt_key r ∧ da_max_attempts q = da_max_attempts r.

Lemma same_attempt_chain r q p : same_attempt r q → after_attempt p r → after_attempt p q.
Proof.
  intros (_ & E & _) ((H1 & H2) & H3). unfold attempt_key in E. injection E as E1 E2 E3.
  repeat split; congruence.
Qed.
Lemma same_attempt_chain' r q p : same_attempt r q → after_attempt r p → after_attempt q p.
Proof.
  intros (_ & E & _) ((H1 & H2) & H3). unfold attempt_key in E. injection E as E1 E2 E3.
  repeat split; congruence.
Qed.

Section Updated.
Context (l : list DispatchAttemptRow) (hit : DispatchAttemptRow → bool) (f : DispatchAttemptRow → DispatchAttemptRow).
Let upd (r : DispatchAttemptRow) : DispatchAttemptRow := if hit r then f r else r.
Context (Hf : ∀ r, same_attempt r (f r)).

Lemma upd_same r : same_attempt r (upd r).
Proof. unfold upd. destruct (hit r); [apply Hf|done]. Qed.

Lemma elem_of_upd q : q ∈ map upd l → ∃ r, r ∈ l ∧ q = upd r ∧ same_attempt r q.
Proof. intros (r & -> & Hr)%list_elem_of_fmap. exists r. split; [done|]. split; [done|apply upd_same]. Qed.

Lemma upd_elem r : r ∈ l → upd r ∈ map upd l.
Proof. apply list_elem_of_fmap_2. Qed.

Lemma map_ids : map da_id (map upd l) = map da_id l.
Proof. rewrite map_map. apply map_ext. intros r. apply upd_same. Qed.
Lemma map_keys : map attempt_key (map upd l) = map attempt_key l.
Proof. rewrite map_map. apply map_ext. intros r. apply upd_same. Qed.

(** Rows that are not failed, updated to rows that are not failed. *)
Lemma chain_update : chain_ok l →
  (∀ r, r ∈ l → hit r = true → da_status r ≠ attempt_failed ∧ da_status (f r) ≠ attempt_failed) → chain_ok (map upd l).
Proof.
  intros H Hhit. constructor.
  - rewrite map_ids. apply H.
  - rewrite map_keys. apply H.
  - intros q (r & Hr & _ & (_ & E & E'))%elem_of_upd. destruct (ck_bounds _ H r Hr) as [H1 H2].
    unfold attempt_key in E. injection E as E1 E2 E3. lia.
  - intros q (r & Hr & _ & Hs)%elem_of_upd Hno. assert (Hs' := Hs). destruct Hs' as (_ & E & E').
    unfold attempt_key in E. injection E as E1 E2 E3. rewrite E3 in Hno.
    destruct (ck_before _ H r Hr Hno) as (p & Hp & Ha & Hst & Hm). exists p.
    assert (Hu : upd p = p). { unfold upd. destruct (hit p) eqn:Eh; [|done]. by destruct (Hhit p Hp Eh). }
    split; [rewrite <- Hu; by apply upd_elem|]. split; [by eapply same_attempt_chain|]. split; [done|]. by rewrite E'.
  - intros q (r & Hr & -> & Hs)%elem_of_upd Hst. assert (Er : da_status r = attempt_failed).
    { unfold upd in Hst. destruct (hit r) eqn:Eh; [|done]. by destruct (Hhit r Hr Eh). }
    destruct (ck_after _ H r Hr Er) as (q & Hq & Ha). exists (upd q). split; [by apply upd_elem|].
    eapply same_attempt_chain; [apply upd_same|]. by eapply same_attempt_chain'.
Qed.

(** One row fails and its successor is inserted. *)
Lemma chain_retry r0 row : chain_ok l → r0 ∈ l → hit r0 = true → (∀ r, r ∈ l → hit r = true → r = r0) →
  da_status r0 ≠ attempt_failed → da_status (f r0) = attempt_failed →
  after_attempt r0 row → da_status row ≠ attempt_failed → (da_attempt_no row <= da_max_attempts row <= da_max_attempts r0)%Z →
  da_id row ∉ map da_id l → attempt_key row ∉ map attempt_key l → chain_ok (map upd l ++ [row]).
Proof.
  intros H Hr0 Hh Hone Hst0 Hst1 Hrow Hst2 Hmax Hid Hkey.
  assert (Hu0 : upd r0 = f r0) by (unfold upd; by rewrite Hh).
  assert (Hb0 := ck_bounds _ H r0 Hr0). assert (Eno := proj2 Hrow). constructor.
  - rewrite map_app. apply NoDup_app. rewrite map_ids. split; [apply H|]. split; [|apply NoDup_singleton].
    intros x Hx ->%list_elem_of_singleton. done.
  - rewrite map_app. apply NoDup_app. rewrite map_keys. split; [apply H|]. split; [|apply NoDup_singleton].
    intros x Hx ->%list_elem_of_singleton. done.
  - intros q [(r & Hr & _ & (_ & E & E'))%elem_of_upd| ->%list_elem_of_singleton]%elem_of_app; [|lia].
    destruct (ck_bounds _ H r Hr) as [H1 H2]. unfold attempt_key in E. injection E as E1 E2 E3. lia.
  - intros q [(r & Hr & _ & Hs)%elem_of_upd| ->%list_elem_of_singleton]%elem_of_app Hno.
    + assert (Hs' := Hs). destruct Hs' as (_ & E & E'). unfold attempt_key in E. injection E as E1 E2 E3. rewrite E3 in Hno.
      destruct (ck_before _ H r Hr Hno) as (p & Hp & Ha & Hst & Hm). exists p.
      assert (Hu : upd p = p). { unfold upd. destruct (hit p) eqn:Eh; [|done]. apply (Hone p Hp) in Eh as ->. congruence. }
      split; [apply elem_of_app; left; rewrite <- Hu; by apply upd_elem|].
      split; [by eapply same_attempt_chain|]. split; [done|]. by rewrite E'.
    + exists (f r0). rewrite <- Hu0 at 1. split; [apply elem_of_app; left; by apply upd_elem|].
      split; [by eapply same_attempt_chain'|]. split; [done|]. destruct (Hf r0) as (_ & _ & ->). lia.
  - intros q [(r & Hr & -> & Hs)%elem_of_upd| ->%list_elem_of_singleton]%elem_of_app Hst; [|done].
    destruct (hit r) eqn:Eh.
    { apply (Hone r Hr) in Eh as ->. exists row. split; [apply elem_of_app; right; by apply list_elem_of_singleton|].
      by eapply same_attempt_chain'. }
    assert (Hu : upd r = r) by (unfold upd; by rewrite Eh).
    rewrite Hu in *. destruct (ck_after _ H r Hr Hst) as (q & Hq & Ha). exists (upd q).
    split; [apply elem_of_app; left; by apply upd_elem|]. eapply same_attempt_chain; [apply upd_same|done].
Qed.
End Updated.

Lemma chain_first l row : chain_ok l → da_status row = attempt_pending → da_attempt_no row = 1%Z →
  (1 <= da_max_attempts row <= 20)%Z → da_id row ∉ map da_id l → attempt_key row ∉ map attempt_key l → chain_ok (l ++ [row]).
Proof.
  intros H Hst Hno Hmax Hid Hkey. constructor.
  - rewrite map_app. apply NoDup_app. split; [apply H|]. split; [|apply NoDup_singleton].
    intros x Hx ->%list_elem_of_singleton. done.
  - rewrite map_app. apply NoDup_app. split; [apply H|]. split; [|apply NoDup_singleton].
    intros x Hx ->%list_elem_of_singleton. done.
  - intros q [Hq| ->%list_elem_of_singleton]%elem_of_app; [by apply H|lia].
  - intros q [Hq| ->%list_elem_of_singleton]%elem_of_app Hq'; [|lia].
    destruct (ck_before _ H q Hq Hq') as (p & Hp & Hrest). exists p. split; [apply elem_of_app; by left|done].
  - intros q [Hq| ->%list_elem_of_singleton]%elem_of_app Hq'; [|congruence].
    destruct (ck_after _ H q Hq Hq') as (p & Hp & Hrest). exists p. split; [apply elem_of_app; by left|done].
Qed.

(** Keys identify rows. *)
Lemma attempt_unique {B} (g : DispatchAttemptRow → B) l r q : NoDup (map g l) → r ∈ l → q ∈ l → g r = g q → r = q.
Proof.
  intros Hn Hr Hq E. apply list_elem_of_lookup in Hr as [i Hi]. apply list_elem_of_lookup in Hq as [j Hj].
  assert (i = j) as ->; [|congruence]. eapply (NoDup_lookup (map g l)); [done| |].
  - change (map g l) with (g <$> l). by rewrite list_lookup_fmap, Hi.
  - change (map g l) with (g <$> l). rewrite list_lookup_fmap, Hj. simpl. by rewrite E.
Qed.

(** No attempt follows one that has not failed. *)
Lemma no_successor l r q : chain_ok l → r ∈ l → da_status r ≠ attempt_failed → q ∈ l → after_attempt r q → False.
Proof.
  intros H Hr Hst Hq ((E1 & E2) & E3).
  destruct (ck_before _ H q Hq) as (p & Hp & ((F1 & F2) & F3) & Hf & _).
  { destruct (ck_bounds _ H r Hr). lia. }
  assert (p = r) as ->; [|done]. eapply (attempt_unique attempt_key); [apply H|done..|]. unfold attempt_key.
  f_equal; [f_equal; congruence|lia].
Qed.

(** ** The system *)

(** A transaction that nobody disturbs. *)
Definition commit {A} (m : Stmt A) (a : Api) : Api * result ApiExn A :=
  match m (mkTxn a a []) with (t, Ok x) => (tx_mine t, Ok x) | (_, Err e) => (a, Err e) end.

(** A dispatcher that has claimed an attempt: what its port has decided, if it has. *)
Record Dispatcher := mkDispatcher {
  th_attempt : DispatchAttemptRow;
  th_token : string;
  th_correlationId : string;
  th_decision : option IntegrationHandoffDispatchDecision
}.
(** [hy_sent]: the attempts that were handed to a port, in order. *)
Record HandoffSys := mkHandoffSys { hy_api : Api; hy_threads : list Dispatcher; hy_sent : list string }.

Section System.
Context (tenantId : string) (uuid : nat → string).

(** The claim of an attempt, from the code before the port is called. *)
Definition claimed_by (attempt : DispatchAttemptRow) (token cid : string) (s : HandoffSys) (a : Api) : HandoffSys :=
  if sendable (da_payload attempt)
  then mkHandoffSys a (hy_threads s ++ [mkDispatcher attempt token cid None]) (hy_sent s ++ [da_id attempt])
  else mkHandoffSys a (hy_threads s ++ [mkDispatcher attempt token cid (Some (dd_permanent_failed "payload_not_object" None))])
         (hy_sent s).

(** [h_other]: everything that does not touch the handoffs, and time.
    [h_dispatch]: the handoff was read earlier, so its other columns are any. *)
Inductive hstep (s : HandoffSys) : HandoffSys → Prop :=
| h_other f : a_handoffs (f (hy_api s)) = a_handoffs (hy_api s) → a_ids (hy_api s) ≤ a_ids (f (hy_api s)) →
    hstep s (mkHandoffSys (f (hy_api s)) (hy_threads s) (hy_sent s))
| h_create requestedBy key input :
    hstep s (mkHandoffSys (commit (insertIntegrationHandoff uuid requestedBy key input) (hy_api s)).1 (hy_threads s) (hy_sent s))
| h_dispatch handoff requestedBy key cid raw input :
    (∃ h, h ∈ handoff_rows (hy_api s) ∧ hf_id h = hf_id handoff) → parseDispatchRequest raw = Ok input →
    hstep s (mkHandoffSys (commit (dispatch_write tenantId uuid handoff requestedBy key cid input) (hy_api s)).1
               (hy_threads s) (hy_sent s))
| h_callback handoffId receivedBy input ref :
    hstep s (mkHandoffSys (commit (recordIntegrationHandoffReceipt uuid handoffId receivedBy input ref) (hy_api s)).1
               (hy_threads s) (hy_sent s))
| h_claim attemptId max cid a r :
    commit (claim_attempt attemptId (uuid (a_ids (hy_api s))) max) (use_api_id (hy_api s)) = (a, Ok r) →
    hstep s (match r with
             | Some attempt => claimed_by attempt (uuid (a_ids (hy_api s))) cid s a
             | None => mkHandoffSys a (hy_threads s) (hy_sent s)
             end)
| h_answer l1 th l2 d : hy_threads s = l1 ++ th :: l2 → th_decision th = None →
    hstep s (mkHandoffSys (hy_api s) (l1 ++ mkDispatcher (th_attempt th) (th_token th) (th_correlationId th) (Some d) :: l2) (hy_sent s))
| h_settle l1 th l2 d retryAfterMs : hy_threads s = l1 ++ th :: l2 → th_decision th = Some d →
    hstep s (mkHandoffSys (commit (settle_attempt uuid retryAfterMs (th_correlationId th) (th_attempt th) (th_token th) d) (hy_api s)).1
               (l1 ++ l2) (hy_sent s))
| h_vanish l1 th l2 : hy_threads s = l1 ++ th :: l2 → hstep s (mkHandoffSys (hy_api s) (l1 ++ l2) (hy_sent s)).

Inductive hreach : HandoffSys → Prop :=
| hr_start a : a_handoffs a = no_handoffs → hreach (mkHandoffSys a [] [])
| hr_step s s' : hreach s → hstep s s' → hreach s'.

(** ** What the transactions do *)

Lemma update_attempts_eq hit f t : update_attempt_rows hit f t =
  (mkTxn (tx_base t) (on_handoffs (with_attempts (map (λ r, if hit (tx_mine t) r then f (tx_mine t) r else r)
     (attempt_rows (tx_mine t)))) (tx_mine t)) (tx_env t),
   Ok (map (f (tx_mine t)) (List.filter (hit (tx_mine t)) (attempt_rows (tx_mine t))))).
Proof. done. Qed.

Lemma update_checked_eq hit f t : update_attempt_checked hit f t =
  (mkTxn (tx_base t) (on_handoffs (with_attempts (map (λ r, if hit (tx_mine t) r then f (tx_mine t) r else r)
     (attempt_rows (tx_mine t)))) (tx_mine t)) (tx_env t),
   match omap attempt_violation (map (f (tx_mine t)) (List.filter (hit (tx_mine t)) (attempt_rows (tx_mine t)))) with
   | [] => Ok (map (f (tx_mine t)) (List.filter (hit (tx_mine t)) (attempt_rows (tx_mine t))))
   | column :: _ =>
       Err (AE_db (E_error ("violates check constraint integration_handoff_dispatch_attempts_" +:+ column +:+ "_check")))
   end).
Proof. unfold update_attempt_checked, mbind, Stmt_bind. rewrite update_attempts_eq. by destruct (omap _ _). Qed.

Lemma update_handoffs_eq hit f t : update_handoff_rows hit f t =
  (mkTxn (tx_base t) (on_handoffs (with_rows (map (λ r, if hit r then f (tx_mine t) r else r) (handoff_rows (tx_mine t)))) (tx_mine t))
     (tx_env t),
   Ok (map (f (tx_mine t)) (List.filter hit (handoff_rows (tx_mine t))))).
Proof. done. Qed.

Lemma expect_one_eq {A} (rows : list A) what t :
  expect_one rows what t = (t, if decide (length rows = 1) then Ok tt
    else Err (AE_error ("integration handoff " +:+ what +:+ " expected 1 row, got " +:+ pretty (length rows)))).
Proof. unfold expect_one. by destruct (decide _). Qed.

(** The end of a thread: the attempt it holds is finished, or it fails and the
    next attempt is inserted with its job. *)
Inductive settled (retryAfterMs : Z) (cid : string) (attempt : DispatchAttemptRow) (token : string) (a a' : Api) : Prop :=
| settled_final f g : length (List.filter (held_attempt attempt token a) (attempt_rows a)) = 1 →
    (∀ r, same_attempt r (f r) ∧ da_lease_token (f r) = da_lease_token r ∧ da_deleted_at (f r) = da_deleted_at r ∧
       (da_status (f r) = attempt_accepted ∨ da_status (f r) = attempt_dead_letter)) →
    (∀ h, hf_id (g h) = hf_id h) →
    a' = on_handoffs (λ t, mkHandoffTables (map g (hs_handoffs t))
           (map (λ r, if held_attempt attempt token a r then f r else r) (hs_attempts t)) (hs_receipts t) (hs_jobs t)) a →
    settled retryAfterMs cid attempt token a a'
| settled_retry f : length (List.filter (held_attempt attempt token a) (attempt_rows a)) = 1 →
    (∀ r, same_attempt r (f r) ∧ da_lease_token (f r) = da_lease_token r ∧ da_deleted_at (f r) = da_deleted_at r ∧
       da_status (f r) = attempt_failed) →
    (da_attempt_no attempt < da_max_attempts attempt)%Z →
    let row := next_attempt (uuid (a_ids a)) attempt (api_now a) retryAfterMs in
    da_id row ∉ map da_id (attempt_rows a) → attempt_key row ∉ map attempt_key (attempt_rows a) →
    a' = on_handoffs (λ t, mkHandoffTables (hs_handoffs t)
           (map (λ r, if held_attempt attempt token a r then f r else r) (hs_attempts t) ++ [row]) (hs_receipts t)
           (hs_jobs t ++ [mkHandoffJob (uuid (a_ids a)) cid (if (0 <? retryAfterMs)%Z then api_now a + retryAfterMs else api_now a)%Z]))
         (use_api_id a) →
    settled retryAfterMs cid attempt token a a'.

Lemma existsb_not_elem {A} (g : DispatchAttemptRow → A) `{EqDecision A} (x : A) l :
  existsb (λ r, bool_decide (g r = x)) l = false → x ∉ map g l.
Proof.
  intros E (r & -> & Hr)%list_elem_of_fmap. apply Bool.not_true_iff_false in E. apply E, existsb_exists. exists r.
  split; [by apply list_elem_of_In|]. by apply bool_decide_eq_true_2.
Qed.

Lemma insert_attempt_Ok row t t' x : insert_attempt row t = (t', Ok x) →
  da_id row ∉ map da_id (attempt_rows (tx_mine t)) ∧ attempt_key row ∉ map attempt_key (attempt_rows (tx_mine t)) ∧
  t' = mkTxn (tx_base t) (on_handoffs (with_attempts (attempt_rows (tx_mine t) ++ [row])) (tx_mine t)) (tx_env t).
Proof.
  unfold insert_attempt, mbind, Stmt_bind, api_select, api_throw, api_update.
  destruct (existsb (λ r, bool_decide (da_id r = da_id row)) _) eqn:E1; [done|].
  destruct (existsb (λ r, bool_decide (attempt_key r = attempt_key row)) _) eqn:E2; [done|]. intros [= <- <-].
  split; [by eapply existsb_not_elem|]. split; [by eapply existsb_not_elem|]. done.
Qed.

Lemma settle_run retryAfterMs cid attempt token d a a' out :
  commit (settle_attempt uuid retryAfterMs cid attempt token d) a = (a', Ok out) → settled retryAfterMs cid attempt token a a'.
Proof.
  unfold commit. destruct (settle_attempt _ _ _ _ _ _ _) as [t r] eqn:E. destruct r as [x|e]; intros [= <- <-]. revert E.
  assert (Hfail : ∀ reason code fin t r, completeFailedAttempt uuid retryAfterMs cid attempt token reason code fin (mkTxn a a []) = (t, Ok r) →
    (fin = false → da_attempt_no attempt < da_max_attempts attempt)%Z → settled retryAfterMs cid attempt token a (tx_mine t)).
  { intros reason code fin t1 r1. unfold completeFailedAttempt, mbind, Stmt_bind. rewrite update_checked_eq. cbv beta iota.
    destruct (omap _ _); [|done].
    rewrite expect_one_eq, length_map. destruct (decide _) as [Hone|]; [|done]. destruct fin.
    - rewrite update_handoffs_eq. cbv beta iota. rewrite expect_one_eq.
      destruct (decide _); [|done]. intros [= <- <-] _.
      apply (settled_final _ _ _ _ _ _
        (failed_attempt attempt_dead_letter code (redactedErrorCode reason "INTEGRATION_HANDOFF_DISPATCH_FAILED") a)
        (λ h, if rowid_is (da_handoff_id attempt) h
              then failed_handoff (redactedErrorCode reason "INTEGRATION_HANDOFF_DISPATCH_FAILED") (da_legal_hold attempt) a h
              else h)); [done| | |done].
      { intros r. repeat split; auto. }
      intros h. by destruct (rowid_is _ h).
    - unfold fresh_uuid, api_select. cbv beta iota.
      destruct (insert_attempt _ _) as [t2 [[]|e]] eqn:Ei; [|done]. apply insert_attempt_Ok in Ei as (H1 & H2 & ->).
      intros [= <- <-] Hno. simpl in H1, H2. unfold on_handoffs, with_attempts, attempt_rows in H1, H2. simpl in H1, H2.
      rewrite map_ids in H1 by done. rewrite map_keys in H2 by done.
      by apply (settled_retry _ _ _ _ _ _
        (failed_attempt attempt_failed code (redactedErrorCode reason "INTEGRATION_HANDOFF_DISPATCH_FAILED") a)); auto. }
  destruct d as [receiptId code ext|reason code|reason code]; simpl.
  - unfold completeAcceptedAttempt, mbind, Stmt_bind. rewrite update_checked_eq. cbv beta iota.
    destruct (omap _ _); [|done].
    rewrite expect_one_eq, length_map. destruct (decide _) as [Hone|]; [|done].
    rewrite update_handoffs_eq. cbv beta iota. rewrite expect_one_eq.
    destruct (decide _); [|done]. intros [= <- <-].
    apply (settled_final _ _ _ _ _ _ (finished_attempt attempt_accepted (Some receiptId) ext (Some code) None a)
      (λ h, if rowid_is (da_handoff_id attempt) h then accepted_handoff receiptId ext (da_legal_hold attempt) a h else h));
      [done| | |done].
    { intros r. repeat split; auto. }
    intros h. by destruct (rowid_is _ h).
  - destruct (Z.leb_spec (da_max_attempts attempt) (da_attempt_no attempt)) as [?|Hlt].
    + unfold mbind, Stmt_bind. destruct (completeFailedAttempt _ _ _ _ _ _ _ _ _) as [t1 [r|e]] eqn:E; [|done].
      intros [= <- <-]. by eapply Hfail.
    + unfold mbind, Stmt_bind. destruct (completeFailedAttempt _ _ _ _ _ _ _ _ _) as [t1 [r|e]] eqn:E; [|done].
      intros [= <- <-]. by eapply Hfail.
  - unfold mbind, Stmt_bind. destruct (completeFailedAttempt _ _ _ _ _ _ _ _ _) as [t1 [r|e]] eqn:E; [|done].
    intros [= <- <-]. by eapply Hfail.
Qed.

(** ** The invariant *)

Definition drawn_id (a : Api) (x : string) : Prop := ∃ n, n < a_ids a ∧ x = uuid n.

Definition job_queued (a : Api) (r : DispatchAttemptRow) : Prop :=
  ∃ j, j ∈ hs_jobs (a_handoffs a) ∧ hj_attemptId j = da_id r ∧ (da_next_attempt_at r <= hj_run_at j)%Z.

Record row_ok (a : Api) (r : DispatchAttemptRow) : Prop := mkRowOk {
  ro_id : drawn_id a (da_id r);
  ro_token : ∀ t, da_lease_token r = Some t → drawn_id a t;
  ro_kept : da_deleted_at r = None;
  ro_pending : da_status r = attempt_pending → da_lease_token r = None ∧ job_queued a r;
  ro_handoff : ∃ h, h ∈ handoff_rows a ∧ hf_id h = da_handoff_id r;
  ro_blank : da_status r = attempt_pending ∨ da_status r = attempt_sending → da_receipt_id r = None ∧ da_external_job_id r = None
}.

(** A thread holds the attempt it has claimed. *)
Definition holds_attempt (a : Api) (th : Dispatcher) : Prop :=
  ∃ r max, r ∈ attempt_rows a ∧ th_attempt th = capped max r ∧ da_status r = attempt_sending ∧ da_lease_token r = Some (th_token th).

Record hinv (s : HandoffSys) : Prop := mkHinv {
  hi_chain : chain_ok (attempt_rows (hy_api s));
  hi_rows : ∀ r, r ∈ attempt_rows (hy_api s) → row_ok (hy_api s) r;
  hi_handoffs : NoDup (map hf_id (handoff_rows (hy_api s))) ∧ ∀ h, h ∈ handoff_rows (hy_api s) → drawn_id (hy_api s) (hf_id h);
  hi_threads : NoDup (map th_token (hy_threads s)) ∧ ∀ th, th ∈ hy_threads s → holds_attempt (hy_api s) th;
  hi_sent : NoDup (hy_sent s) ∧
    ∀ id, id ∈ hy_sent s → ∃ r, r ∈ attempt_rows (hy_api s) ∧ da_id r = id ∧ da_status r ≠ attempt_pending
}.

(** What no step takes back. *)
Record grows (a a' : Api) : Prop := mkGrows {
  gr_ids : a_ids a ≤ a_ids a';
  gr_jobs : hs_jobs (a_handoffs a) ⊆ hs_jobs (a_handoffs a');
  gr_handoffs : ∀ h, h ∈ handoff_rows a → ∃ h', h' ∈ handoff_rows a' ∧ hf_id h' = hf_id h
}.

Lemma drawn_mono a a' x : a_ids a ≤ a_ids a' → drawn_id a x → drawn_id a' x.
Proof. intros H (n & Hn & ->). exists n. split; [lia|done]. Qed.

Lemma row_ok_mono a a' r : grows a a' → row_ok a r → row_ok a' r.
Proof.
  intros [H1 H2 H3] [R1 R2 R3 R4 (h & Hh & Eh) R6]. constructor; [by eapply drawn_mono| |done| | |done].
  - intros t Ht. eapply drawn_mono; eauto.
  - intros Hp. destruct (R4 Hp) as (E & j & Hj & Hj'). split; [done|]. exists j. split; [by apply H2|done].
  - destruct (H3 h Hh) as (h' & Hh' & E). exists h'. split; [done|congruence].
Qed.

Lemma fresh_not_drawn a : (∀ m n, uuid m = uuid n → m = n) → ¬ drawn_id a (uuid (a_ids a)).
Proof. intros Hinj (n & Hn & E). apply Hinj in E. lia. Qed.

(** Steps that leave the attempts. *)
Lemma inv_frame s a' : hinv s → attempt_rows a' = attempt_rows (hy_api s) → grows (hy_api s) a' →
  NoDup (map hf_id (handoff_rows a')) → (∀ h, h ∈ handoff_rows a' → drawn_id a' (hf_id h)) →
  hinv (mkHandoffSys a' (hy_threads s) (hy_sent s)).
Proof.
  intros [H1 H2 H3 [H4 H5] [H6 H7]] E Hg Hn Hd. constructor; simpl.
  - by rewrite E.
  - intros r Hr. rewrite E in Hr. eapply row_ok_mono; eauto.
  - done.
  - split; [done|]. intros th Hth. destruct (H5 th Hth) as (r & max & Hr & Hrest). exists r, max. by rewrite E.
  - split; [done|]. rewrite E. apply H7.
Qed.

(** Threads come and go without touching the tables. *)
Lemma inv_threads s ths : hinv s → NoDup (map th_token ths) →
  (∀ th, th ∈ ths → ∃ th', th' ∈ hy_threads s ∧ th_attempt th = th_attempt th' ∧ th_token th = th_token th') →
  hinv (mkHandoffSys (hy_api s) ths (hy_sent s)).
Proof.
  intros [H1 H2 H3 [H4 H5] H6] Hn Hths. constructor; simpl; [done|done|done| |done]. split; [done|].
  intros th Hth. destruct (Hths th Hth) as (th' & Hth' & E1 & E2). destruct (H5 th' Hth') as (r & max & Hr & Hc & Hs & Ht).
  exists r, max. rewrite E1, E2. done.
Qed.

Lemma holds_kept a a' th : holds_attempt a th →
  (∀ r, r ∈ attempt_rows a → da_status r = attempt_sending → da_lease_token r = Some (th_token th) → r ∈ attempt_rows a') →
  holds_attempt a' th.
Proof. intros (r & max & Hr & Ec & Es & Et) H. exists r, max. split; [by apply H|done]. Qed.

Lemma thread_token_drawn s th : hinv s → th ∈ hy_threads s → drawn_id (hy_api s) (th_token th).
Proof.
  intros H Hth. destruct (proj2 (hi_threads _ H) th Hth) as (r & max & Hr & _ & _ & Et).
  eapply ro_token; [by apply (hi_rows _ H)|done].
Qed.

(** ** The steps *)

Context (uuid_inj : ∀ m n, uuid m = uuid n → m = n).

Lemma claimable_unique s id r q a : hinv s → attempt_rows a = attempt_rows (hy_api s) → r ∈ attempt_rows a → q ∈ attempt_rows a →
  claimable id a r = true → claimable id a q = true → r = q.
Proof.
  intros H E Hr Hq Cr Cq. rewrite E in Hr, Hq. eapply (attempt_unique da_id); [apply H|done..|].
  unfold claimable in Cr, Cq. rewrite !andb_true_iff, !bool_decide_eq_true in Cr, Cq. destruct Cr as (((-> & _) & _) & _).
  by destruct Cq as (((-> & _) & _) & _).
Qed.

Lemma claimable_pending id a r : claimable id a r = true → da_status r = attempt_pending.
Proof. unfold claimable. rewrite !andb_true_iff, !bool_decide_eq_true. by intros (((_ & ?) & _) & _). Qed.

Definition claim_result (id : string) (a : Api) : Api :=
  on_handoffs (with_attempts (map (λ r, if claimable id a r then claimed_attempt (uuid (pred (a_ids a))) a r else r) (attempt_rows a))) a.

Lemma claim_run id max a : commit (claim_attempt id (uuid (a_ids a)) max) (use_api_id a) =
  (claim_result id (use_api_id a),
   Ok (capped max <$> head (map (claimed_attempt (uuid (a_ids a)) (use_api_id a)) (List.filter (claimable id (use_api_id a)) (attempt_rows a))))).
Proof. done. Qed.

Lemma map_unhit {A} (hit : A → bool) (f : A → A) l : List.filter hit l = [] → map (λ r, if hit r then f r else r) l = l.
Proof.
  induction l as [|x l IH]; simpl; [done|]. destruct (hit x) eqn:E; [done|]. intros H. by rewrite IH.
Qed.

Lemma claim_rows_ok s id r : hinv s → r ∈ attempt_rows (claim_result id (use_api_id (hy_api s))) →
  row_ok (claim_result id (use_api_id (hy_api s))) r.
Proof.
  intros H Hr. assert (Hg : grows (hy_api s) (claim_result id (use_api_id (hy_api s)))).
  { constructor; simpl; [lia|done|]. intros h Hh. by exists h. }
  unfold claim_result, attempt_rows, on_handoffs in Hr. simpl in Hr.
  apply list_elem_of_fmap in Hr as (q & -> & Hq). assert (Ho := row_ok_mono _ _ q Hg (hi_rows _ H q Hq)).
  destruct (claimable _ _ q) eqn:Ec; [|done]. apply claimable_pending in Ec.
  destruct Ho as [R1 R2 R3 R4 R5 R6]. constructor; simpl; [done| |done|done|done|intros _; apply R6; by left].
  intros t [= <-]. exists (a_ids (hy_api s)). split; [simpl; lia|done].
Qed.

Lemma claim_held s id th : hinv s → th ∈ hy_threads s → holds_attempt (claim_result id (use_api_id (hy_api s))) th.
Proof.
  intros H Hth. eapply holds_kept; [by apply (hi_threads _ H)|]. intros r Hr Es _. unfold claim_result, attempt_rows, on_handoffs. simpl.
  apply list_elem_of_fmap. exists r. split; [|done].
  destruct (claimable _ _ r) eqn:E; [|done]. apply claimable_pending in E. congruence.
Qed.

Lemma inv_claim s id max cid a r :
  hinv s → commit (claim_attempt id (uuid (a_ids (hy_api s))) max) (use_api_id (hy_api s)) = (a, Ok r) →
  hinv (match r with
        | Some attempt => claimed_by attempt (uuid (a_ids (hy_api s))) cid s a
        | None => mkHandoffSys a (hy_threads s) (hy_sent s)
        end).
Proof.
  intros H. rewrite claim_run. intros [= <- <-]. set (tok := uuid (a_ids (hy_api s))).
  set (b := use_api_id (hy_api s)). change (attempt_rows (hy_api s)) with (attempt_rows b).
  destruct (List.filter (claimable id b) (attempt_rows b)) as [|r0 rest] eqn:Ef; simpl.
  { apply inv_frame; [done| | |by apply H|].
    - unfold claim_result. fold b. unfold attempt_rows, on_handoffs at 1. simpl. by apply map_unhit.
    - constructor; simpl; [lia|done|]. intros h Hh. by exists h.
    - intros h Hh. eapply drawn_mono; [|by apply (proj2 (hi_handoffs _ H))]. simpl. lia. }
  assert (Hr0 : r0 ∈ attempt_rows b ∧ claimable id b r0 = true).
  { assert (Hin : In r0 (List.filter (claimable id b) (attempt_rows b))) by (rewrite Ef; by left).
    apply filter_In in Hin as [Hin ?]. split; [by apply list_elem_of_In|done]. }
  destruct Hr0 as [Hr0 Hc0]. assert (Hp0 := claimable_pending _ _ _ Hc0).
  set (att := capped max (claimed_attempt tok b r0)).
  assert (Hchain : chain_ok (attempt_rows (claim_result id b))).
  { apply (chain_update (attempt_rows b) (claimable id b) (claimed_attempt tok b)); [done|apply H|].
    intros r _ Hc. apply claimable_pending in Hc. split; [by rewrite Hc|done]. }
  assert (Hh : ∀ h, h ∈ handoff_rows (claim_result id b) → drawn_id (claim_result id b) (hf_id h)).
  { intros h Hh. eapply drawn_mono; [|by apply (proj2 (hi_handoffs _ H))]. simpl. lia. }
  assert (Hths : ∀ d, NoDup (map th_token (hy_threads s ++ [mkDispatcher att tok cid d])) ∧
    ∀ th, th ∈ hy_threads s ++ [mkDispatcher att tok cid d] → holds_attempt (claim_result id b) th).
  { intros d. split.
    - rewrite map_app. apply NoDup_app. split; [apply H|]. split; [|apply NoDup_singleton].
      intros t (th & -> & Hth)%list_elem_of_fmap Et%list_elem_of_singleton. simpl in Et.
      apply (fresh_not_drawn (hy_api s) uuid_inj). fold tok. rewrite <- Et. by apply thread_token_drawn.
    - intros th [Hth| ->%list_elem_of_singleton]%elem_of_app; [by apply claim_held|].
      exists (claimed_attempt tok b r0), max. split; [|done]. unfold claim_result, attempt_rows, on_handoffs. simpl.
      apply list_elem_of_fmap. exists r0. split; [|done]. by rewrite Hc0. }
  assert (Hold : ∀ x, x ∈ hy_sent s → ∃ q, q ∈ attempt_rows (claim_result id b) ∧ da_id q = x ∧ da_status q ≠ attempt_pending).
  { intros x Hx. destruct (proj2 (hi_sent _ H) x Hx) as (q & Hq & <- & Hst). exists q. split; [|done].
    unfold claim_result, attempt_rows, on_handoffs. simpl. apply list_elem_of_fmap. exists q. split; [|done].
    destruct (claimable id b q) eqn:E; [|done]. by apply claimable_pending in E. }
  unfold claimed_by. destruct (sendable _); constructor; simpl;
    [done|intros; by apply claim_rows_ok|split; [apply H|done]|apply Hths| |
     done|intros; by apply claim_rows_ok|split; [apply H|done]|apply Hths|split; [apply H|done]].
  split.
  - apply NoDup_app. split; [apply H|]. split; [|apply NoDup_singleton]. intros x Hx ->%list_elem_of_singleton.
    destruct (proj2 (hi_sent _ H) _ Hx) as (q & Hq & E & Hst).
    assert (q = r0) as -> by (eapply (attempt_unique da_id); [apply H|done..]). done.
  - intros x [Hx| ->%list_elem_of_singleton]%elem_of_app; [by apply Hold|].
    exists (claimed_attempt tok b r0). split; [|done]. unfold claim_result, attempt_rows, on_handoffs. simpl.
    apply list_elem_of_fmap. exists r0. split; [|done]. by rewrite Hc0.
Qed.

Lemma held_true attempt token a r : held_attempt attempt token a r = true ↔
  da_id r = da_id attempt ∧ da_lease_token r = Some token ∧ da_status r = attempt_sending.
Proof. unfold held_attempt. rewrite !andb_true_iff, !bool_decide_eq_true. tauto. Qed.

(** The row of the thread is the one its transactions hit. *)
Lemma held_row s th : hinv s → th ∈ hy_threads s → ∃ r0 max, r0 ∈ attempt_rows (hy_api s) ∧ th_attempt th = capped max r0 ∧
  held_attempt (th_attempt th) (th_token th) (hy_api s) r0 = true ∧
  ∀ r, r ∈ attempt_rows (hy_api s) → held_attempt (th_attempt th) (th_token th) (hy_api s) r = true → r = r0.
Proof.
  intros H Hth. destruct (proj2 (hi_threads _ H) th Hth) as (r0 & max & Hr & Ec & Es & Et). exists r0, max.
  split; [done|]. split; [done|]. split; [apply held_true; by rewrite Ec|]. intros r Hr' (E & _ & _)%held_true.
  eapply (attempt_unique da_id); [apply H|done..|]. by rewrite E, Ec.
Qed.

(** The other threads keep their attempts when the row of one thread changes. *)
Lemma other_threads s l1 th l2 a' : hinv s → hy_threads s = l1 ++ th :: l2 →
  (∀ r, r ∈ attempt_rows (hy_api s) → held_attempt (th_attempt th) (th_token th) (hy_api s) r = false → r ∈ attempt_rows a') →
  NoDup (map th_token (l1 ++ l2)) ∧ ∀ th', th' ∈ l1 ++ l2 → holds_attempt a' th'.
Proof.
  intros H E Hkeep. destruct (hi_threads _ H) as [Hn Hh]. rewrite E, map_app in Hn. simpl in Hn.
  apply NoDup_app in Hn as (N1 & N2 & N3). apply NoDup_cons in N3 as [N3 N4]. split.
  - rewrite map_app. apply NoDup_app. split; [done|]. split; [|done]. intros t H1 H2. by apply (N2 t H1), elem_of_cons; right.
  - intros th' Hth'. assert (Hne : th_token th' ≠ th_token th).
    { intros Et. apply elem_of_app in Hth' as [Hi|Hi].
      - apply (N2 (th_token th')); [by apply list_elem_of_fmap_2|]. rewrite Et. by left.
      - apply N3. rewrite <- Et. by apply list_elem_of_fmap_2. }
    eapply holds_kept; [apply Hh; rewrite E; apply elem_of_app in Hth' as [?|?]; apply elem_of_app; [by left|by right; right]|].
    intros r Hr _ Et. apply Hkeep; [done|]. apply Bool.not_true_iff_false. intros (_ & Et' & _)%held_true. congruence.
Qed.

Lemma sent_kept s a' : hinv s →
  (∀ r, r ∈ attempt_rows (hy_api s) → ∃ q, q ∈ attempt_rows a' ∧ da_id q = da_id r ∧
     (da_status r ≠ attempt_pending → da_status q ≠ attempt_pending)) →
  NoDup (hy_sent s) ∧ ∀ id, id ∈ hy_sent s → ∃ r, r ∈ attempt_rows a' ∧ da_id r = id ∧ da_status r ≠ attempt_pending.
Proof.
  intros H Hk. split; [apply H|]. intros id Hid. destruct (proj2 (hi_sent _ H) id Hid) as (r & Hr & <- & Hst).
  destruct (Hk r Hr) as (q & Hq & E & Hq'). exists q. auto.
Qed.

Lemma upd_row (hit : DispatchAttemptRow → bool) f l r : r ∈ l → hit r = false → r ∈ map (λ r, if hit r then f r else r) l.
Proof. intros Hr E. apply list_elem_of_fmap. exists r. by rewrite E. Qed.
Lemma upd_status (hit : DispatchAttemptRow → bool) f l r : r ∈ l → (∀ r, same_attempt r (f r) ∧ da_status (f r) ≠ attempt_pending) →
  ∃ q, q ∈ map (λ r, if hit r then f r else r) l ∧ da_id q = da_id r ∧ (da_status r ≠ attempt_pending → da_status q ≠ attempt_pending).
Proof.
  intros Hr Hf. exists (if hit r then f r else r). split; [apply list_elem_of_fmap; by exists r|].
  destruct (hit r); [|done]. destruct (Hf r) as [(E & _) Hst]. done.
Qed.

Lemma upd_row_ok a' r q : row_ok a' r → same_attempt r q → da_lease_token q = da_lease_token r →
  da_deleted_at q = da_deleted_at r → da_status q ≠ attempt_pending → da_status q ≠ attempt_sending → row_ok a' q.
Proof.
  intros [R1 R2 R3 R4 R5 R6] (E1 & E2 & _) E3 E4 Hst Hst'. unfold attempt_key in E2. injection E2 as E5 _ _.
  constructor; [by rewrite E1|by rewrite E3|by rewrite E4|done|by rewrite E5|by intros [?|?]].
Qed.

Lemma inv_settle s l1 th l2 d retryAfterMs : hinv s → hy_threads s = l1 ++ th :: l2 →
  hinv (mkHandoffSys (commit (settle_attempt uuid retryAfterMs (th_correlationId th) (th_attempt th) (th_token th) d) (hy_api s)).1
          (l1 ++ l2) (hy_sent s)).
Proof.
  intros H E. destruct (commit _ _) as [a' [out|e]] eqn:Ec; simpl.
  2:{ unfold commit in Ec. destruct (settle_attempt _ _ _ _ _ _ _) as [t [x|e']]; [done|]. injection Ec as <- <-.
      destruct (other_threads s l1 th l2 (hy_api s) H E ltac:(done)) as [Hn Hh].
      apply inv_threads; [done|done|]. intros th' Hth'. exists th'. split; [|done]. rewrite E.
      apply elem_of_app in Hth' as [?|?]; apply elem_of_app; [by left|by right; right]. }
  apply settle_run in Ec. assert (Hth : th ∈ hy_threads s) by (rewrite E; apply elem_of_app; right; by left).
  destruct (held_row s th H Hth) as (r0 & max & Hr0 & Eth & Hheld & Huniq).
  set (a := hy_api s) in *. set (hit := held_attempt (th_attempt th) (th_token th) a) in *.
  assert (Hst0 : da_status r0 = attempt_sending) by (by apply held_true in Hheld as (_ & _ & ?)).
  destruct Ec as [f g Hone Hf Hg Ea|f Hone Hf Hno row Hid Hkey Ea].
  - assert (Erows : attempt_rows a' = map (λ r, if hit r then f r else r) (attempt_rows a)) by (by rewrite Ea).
    assert (Egrow : grows a a').
    { rewrite Ea. constructor; simpl; [lia|done|]. intros h Hh. exists (g h). split; [by apply list_elem_of_fmap_2|apply Hg]. }
    constructor; simpl.
    + rewrite Erows. apply chain_update; [apply Hf|apply H|]. intros r Hr Eh. apply (Huniq r Hr) in Eh as ->.
      split; [by rewrite Hst0|]. by destruct (Hf r0) as (_ & _ & _ & [-> | ->]).
    + intros q Hq. rewrite Erows in Hq. apply list_elem_of_fmap in Hq as (r & -> & Hr).
      assert (Ho := row_ok_mono _ _ r Egrow (hi_rows _ H r Hr)). destruct (hit r); [|done].
      destruct (Hf r) as (F1 & F2 & F3 & F4). eapply upd_row_ok; eauto; by destruct F4 as [-> | ->].
    + assert (Eh : handoff_rows a' = map g (handoff_rows a)) by (by rewrite Ea). rewrite Eh. split.
      * rewrite map_map. rewrite (map_ext _ hf_id) by apply Hg. apply H.
      * intros h (h0 & -> & Hh)%list_elem_of_fmap. rewrite Hg. eapply drawn_mono; [|by apply (proj2 (hi_handoffs _ H))].
        apply Egrow.
    + apply (other_threads s l1 th); [done|done|]. intros r Hr Eh. rewrite Erows. by apply upd_row.
    + apply sent_kept; [done|]. intros r Hr. rewrite Erows. apply upd_status; [done|]. intros r'.
      destruct (Hf r') as (F1 & F2 & F3 & F4). split; [done|]. by destruct F4 as [-> | ->].
  - assert (Erows : attempt_rows a' = map (λ r, if hit r then f r else r) (attempt_rows a) ++ [row]) by (by rewrite Ea).
    assert (Egrow : grows a a').
    { rewrite Ea. constructor; simpl; [lia| |].
      - intros j Hj. apply elem_of_app. by left.
      - intros h Hh. by exists h. }
    assert (Hafter : after_attempt r0 row ∧ da_max_attempts row = Z.min (da_max_attempts r0) max).
    { unfold row. rewrite Eth. repeat split. }
    destruct Hafter as [Hafter Emax]. assert (Hb := ck_bounds _ (hi_chain _ H) r0 Hr0).
    constructor; simpl.
    + rewrite Erows. apply (chain_retry _ _ _ (λ r, proj1 (Hf r)) r0); [apply H|done|done|done| |apply Hf|done|done| |done|done].
      { by rewrite Hst0. }
      assert (En := proj2 Hafter). rewrite Eth in Hno. simpl in Hno. lia.
    + intros q Hq. rewrite Erows in Hq. apply elem_of_app in Hq as [(r & -> & Hr)%list_elem_of_fmap| ->%list_elem_of_singleton].
      * assert (Ho := row_ok_mono _ _ r Egrow (hi_rows _ H r Hr)). destruct (hit r); [|done].
        destruct (Hf r) as (F1 & F2 & F3 & F4). eapply upd_row_ok; eauto; by rewrite F4.
      * assert (Ho := row_ok_mono _ _ r0 Egrow (hi_rows _ H r0 Hr0)). constructor; simpl; [|done|done| | |done].
        -- exists (a_ids a). split; [rewrite Ea; simpl; lia|done].
        -- intros _. split; [done|]. eexists. split; [rewrite Ea; simpl; apply elem_of_app; right; by left|]. split; [done|].
           simpl. destruct (Z.ltb_spec 0 retryAfterMs); lia.
        -- rewrite Eth. apply Ho.
    + assert (Eh : handoff_rows a' = handoff_rows a) by (by rewrite Ea). rewrite Eh. split; [apply H|].
      intros h Hh. eapply drawn_mono; [|by apply (proj2 (hi_handoffs _ H))]. apply Egrow.
    + apply (other_threads s l1 th); [done|done|]. intros r Hr Eh. rewrite Erows. apply elem_of_app. left. by apply upd_row.
    + apply sent_kept; [done|]. intros r Hr. rewrite Erows.
      destruct (upd_status hit f (attempt_rows a) r Hr) as (q & Hq & Hrest).
      { intros r'. destruct (Hf r') as (F1 & F2 & F3 & ->). done. }
      exists q. split; [apply elem_of_app; by left|done].
Qed.

(** A commit that fails changes nothing. *)
Lemma commit_cases {A} (m : Stmt A) a (P : Api → Prop) :
  P a → (∀ t x, m (mkTxn a a []) = (t, Ok x) → P (tx_mine t)) → P (commit m a).1.
Proof. intros Ha Hm. unfold commit. destruct (m _) as [t [x|e]] eqn:E; simpl; [by eapply Hm|done]. Qed.

Lemma inv_create s requestedBy key input : hinv s →
  hinv (mkHandoffSys (commit (insertIntegrationHandoff uuid requestedBy key input) (hy_api s)).1 (hy_threads s) (hy_sent s)).
Proof.
  intros H. apply (commit_cases _ _ (λ a', hinv (mkHandoffSys a' (hy_threads s) (hy_sent s)))); [by destruct s|].
  intros t x. unfold insertIntegrationHandoff, mbind, Stmt_bind, fresh_uuid, api_select, api_update, mret, Stmt_ret.
  cbv beta iota. simpl. destruct (head _) as [row|]; intros [= <- <-]; simpl.
  - apply inv_frame; [done|done| |by apply H|].
    + constructor; simpl; [lia|done|]. intros h Hh. by exists h.
    + intros h Hh. eapply drawn_mono; [|by apply (proj2 (hi_handoffs _ H))]. simpl. lia.
  - apply inv_frame; [done|done| | |].
    + constructor; simpl; [lia|done|]. intros h Hh. exists h. split; [apply elem_of_app; by left|done].
    + unfold handoff_rows at 1. simpl. rewrite map_app. apply NoDup_app. split; [apply H|]. split; [|apply NoDup_singleton].
      intros x' (h & -> & Hh)%list_elem_of_fmap Ex%list_elem_of_singleton. simpl in Ex.
      apply (fresh_not_drawn (hy_api s) uuid_inj). rewrite <- Ex. by apply (proj2 (hi_handoffs _ H)).
    + intros h [Hh| ->%list_elem_of_singleton]%elem_of_app.
      * eapply drawn_mono; [|by apply (proj2 (hi_handoffs _ H))]. simpl. lia.
      * exists (a_ids (hy_api s)). split; [simpl; lia|done].
Qed.

Lemma called_back_id input a h : hf_id (called_back input a h) = hf_id h.
Proof. done. Qed.

Lemma inv_callback s handoffId receivedBy input ref : hinv s →
  hinv (mkHandoffSys (commit (recordIntegrationHandoffReceipt uuid handoffId receivedBy input ref) (hy_api s)).1
          (hy_threads s) (hy_sent s)).
Proof.
  intros H. apply (commit_cases _ _ (λ a', hinv (mkHandoffSys a' (hy_threads s) (hy_sent s)))); [by destruct s|].
  intros t x. assert (Hsame : hinv (mkHandoffSys (use_api_id (hy_api s)) (hy_threads s) (hy_sent s))).
  { apply inv_frame; [done|done| |by apply H|].
    - constructor; simpl; [lia|done|]. intros h Hh. by exists h.
    - intros h Hh. eapply drawn_mono; [|by apply (proj2 (hi_handoffs _ H))]. simpl. lia. }
  unfold recordIntegrationHandoffReceipt, selectIntegrationHandoffRow, mbind, Stmt_bind, fresh_uuid, api_select, mret, Stmt_ret.
  cbv beta iota. simpl. destruct (head _) as [locked|]; [|done]. destruct (_ && _); [done|].
  destruct (head (List.filter (receipt_at _ _) _)) as [existing|].
  - unfold assertReceiptReplayMatches, requireOne, mret, Stmt_ret. destruct (_ && _); [|done].
    simpl. destruct (head _); [|done]. intros [= <- <-]. exact Hsame.
  - unfold requireOne, mret, Stmt_ret. simpl. destruct (head _); [|done]. intros [= <- <-]. simpl.
    assert (Hg : ∀ h, hf_id (if handoff_is handoffId h then called_back input
      (on_handoffs (push_receipt (callback_receipt handoffId receivedBy input)) (use_api_id (hy_api s))) h else h) = hf_id h)
      by (intros h; by destruct (handoff_is _ _)).
    apply inv_frame; [done|done| | |].
    + constructor; simpl; [lia|done|]. intros h Hh. eexists. split; [apply list_elem_of_fmap; by exists h|]. apply Hg.
    + unfold handoff_rows at 1. simpl. rewrite map_map. rewrite (map_ext _ hf_id) by apply Hg. apply H.
    + intros h' (h & -> & Hh)%list_elem_of_fmap. rewrite Hg. eapply drawn_mono; [|by apply (proj2 (hi_handoffs _ H))]. simpl. lia.
Qed.

Lemma parse_max_attempts raw input : parseDispatchRequest raw = Ok input → (1 <= di_maxAttempts input <= 20)%Z.
Proof.
  unfold parseDispatchRequest. destruct raw as [[| | | | |f]|]; try done.
  destruct (assertAllowedKeys _ _) as [[]|]; simpl; [|done]. destruct (parseSecretRef _ _) as [e|]; simpl; [|done].
  destruct (parseAllowedHosts _) as [hosts|]; simpl; [|done].
  destruct (alookup "max_attempts" f) as [[| |x| | |]|]; try done.
  - simpl. destruct (num_to_Z x) as [n|]; [|done]. destruct (Z.ltb_spec n 1); [done|]. destruct (Z.ltb_spec 20 n); [done|].
    simpl. destruct (parseMetadata _); simpl; [|done]. destruct (parse_legal_hold _); simpl; [|done]. intros [= <-]. simpl. lia.
  - simpl. destruct (parseMetadata _); simpl; [|done]. destruct (parse_legal_hold _); simpl; [|done]. intros [= <-]. simpl. lia.
Qed.

Lemma inv_dispatch s handoff requestedBy key cid input : hinv s →
  (∃ h, h ∈ handoff_rows (hy_api s) ∧ hf_id h = hf_id handoff) → (1 <= di_maxAttempts input <= 20)%Z →
  hinv (mkHandoffSys (commit (dispatch_write tenantId uuid handoff requestedBy key cid input) (hy_api s)).1 (hy_threads s) (hy_sent s)).
Proof.
  intros H (h0 & Hh0 & Eh0) Hmax. apply (commit_cases _ _ (λ a', hinv (mkHandoffSys a' (hy_threads s) (hy_sent s)))); [by destruct s|].
  intros t x. unfold dispatch_write, insertIntegrationHandoffDispatchAttempt, enqueueHandoffDispatch, mbind, Stmt_bind, lift.
  destruct (requireIdempotencyHeader key) as [k|e]; [|done]. unfold mret, Stmt_ret, fresh_uuid, api_select, api_update.
  cbv beta iota. simpl. destruct (head _) as [row|].
  { intros [= <- <-]. simpl. apply inv_frame; [done|done| |by apply H|].
    - constructor; simpl; [lia| |].
      + intros j Hj. apply elem_of_app. by left.
      + intros h Hh. by exists h.
    - intros h Hh. eapply drawn_mono; [|by apply (proj2 (hi_handoffs _ H))]. simpl. lia. }
  destruct (insert_attempt _ _) as [t2 [[]|e]] eqn:Ei; [|done]. apply insert_attempt_Ok in Ei as (Hid & Hkey & ->).
  intros [= <- <-]. simpl in Hid, Hkey |- *. set (row := first_attempt _ _ _ _ _ _ _) in *.
  match goal with |- hinv (mkHandoffSys ?b _ _) => set (a' := b) end.
  assert (Egrow : grows (hy_api s) a').
  { constructor; simpl; [lia| |].
    - intros j Hj. apply elem_of_app. by left.
    - intros h Hh. by exists h. }
  assert (Erows : attempt_rows a' = attempt_rows (hy_api s) ++ [row]) by done.
  constructor; simpl.
  - rewrite Erows. by apply chain_first; [apply H|..].
  - intros r Hr. rewrite Erows in Hr. apply elem_of_app in Hr as [Hr| ->%list_elem_of_singleton].
    + eapply row_ok_mono; [done|by apply (hi_rows _ H)].
    + constructor; simpl; [|done|done| | |done].
      * exists (a_ids (hy_api s)). split; [simpl; lia|done].
      * intros _. split; [done|]. eexists. split; [apply elem_of_app; right; by left|]. simpl. split; [done|]. unfold api_now. simpl. lia.
      * by exists h0.
  - split; [apply H|]. intros h Hh. eapply drawn_mono; [|by apply (proj2 (hi_handoffs _ H))]. simpl. lia.
  - split; [apply H|]. intros th Hth. eapply holds_kept; [by apply (proj2 (hi_threads _ H))|]. intros r Hr _ _. rewrite Erows.
    apply elem_of_app. by left.
  - apply sent_kept; [done|]. intros r Hr. exists r. rewrite Erows. split; [apply elem_of_app; by left|done].
Qed.

Lemma hinv_step s s' : hinv s → hstep s s' → hinv s'.
Proof.
  intros H [f Ef Hf|requestedBy key input|handoff requestedBy key cid raw input Hex Hp|handoffId receivedBy input ref
    |attemptId max cid a r Ec|l1 th l2 d E Ed|l1 th l2 d retry E Ed|l1 th l2 E].
  - assert (Er : attempt_rows (f (hy_api s)) = attempt_rows (hy_api s)) by (unfold attempt_rows; by rewrite Ef).
    assert (Eh : handoff_rows (f (hy_api s)) = handoff_rows (hy_api s)) by (unfold handoff_rows; by rewrite Ef).
    apply inv_frame; [done|done| |by rewrite Eh; apply H|].
    + constructor; [done|by rewrite Ef|]. intros h Hh. exists h. by rewrite Eh.
    + intros h Hh. rewrite Eh in Hh. eapply drawn_mono; [done|by apply (proj2 (hi_handoffs _ H))].
  - by apply inv_create.
  - apply inv_dispatch; [done|done|by eapply parse_max_attempts].
  - by apply inv_callback.
  - by eapply inv_claim.
  - apply inv_threads; [done| |].
    + assert (Hn := proj1 (hi_threads _ H)). rewrite E, map_app in Hn. by rewrite map_app.
    + intros th' Hth'. rewrite E. apply elem_of_app in Hth' as [?|[-> | ?]%elem_of_cons].
      * exists th'. split; [apply elem_of_app; by left|done].
      * exists th. split; [apply elem_of_app; right; by left|done].
      * exists th'. split; [apply elem_of_app; right; by right|done].
  - by apply inv_settle.
  - destruct (other_threads s l1 th l2 (hy_api s) H E ltac:(done)) as [Hn Hh]. apply inv_threads; [done|done|].
    intros th' Hth'. exists th'. split; [|done]. rewrite E. apply elem_of_app in Hth' as [?|?]; apply elem_of_app; [by left|by right; right].
Qed.

Lemma hreach_inv s : hreach s → hinv s.
Proof.
  induction 1 as [a E|s s' _ IH Hs]; [|by eapply hinv_step].
  assert (E1 : attempt_rows a = []) by (unfold attempt_rows; by rewrite E).
  assert (E2 : handoff_rows a = []) by (unfold handoff_rows; by rewrite E). constructor; simpl; rewrite ?E1, ?E2.
  - constructor; try (by intros ? ?%elem_of_nil); by constructor.
  - by intros ? ?%elem_of_nil.
  - split; [constructor|]. by intros ? ?%elem_of_nil.
  - split; [constructor|]. by intros ? ?%elem_of_nil.
  - split; [constructor|]. by intros ? ?%elem_of_nil.
Qed.

(** ** How often a provider is called *)

Definition in_chain (r q : DispatchAttemptRow) : bool :=
  bool_decide (da_handoff_id q = da_handoff_id r) && bool_decide (da_request_idempotency_key q = da_request_idempotency_key r).
(** The attempts of the dispatch of [r] that were handed to a port. *)
Definition calls_of (r : DispatchAttemptRow) (s : HandoffSys) : nat :=
  length (List.filter (λ id, existsb (λ q, bool_decide (da_id q = id) && in_chain r q) (attempt_rows (hy_api s))) (hy_sent s)).

(** Later attempts of a dispatch never allow more attempts. *)
Lemma chain_max l r : chain_ok l → r ∈ l → da_attempt_no r = 1%Z →
  ∀ n q, q ∈ l → da_attempt_no q = (1 + Z.of_nat n)%Z → same_chain r q → (da_max_attempts q <= da_max_attempts r)%Z.
Proof.
  intros H Hr Hno. induction n as [|n IH]; intros q Hq En Hs.
  - assert (q = r) as ->; [|lia]. eapply (attempt_unique attempt_key); [apply H|done..|]. unfold attempt_key.
    destruct Hs as [E1 E2]. by rewrite E1, E2, En, Hno.
  - destruct (ck_before _ H q Hq) as (p & Hp & ((F1 & F2) & F3) & _ & Hm); [lia|]. destruct Hs as [E1 E2].
    assert (da_max_attempts p <= da_max_attempts r)%Z; [|lia]. apply IH; [done|lia|]. split; congruence.
Qed.

Lemma chain_numbers l r q : chain_ok l → r ∈ l → da_attempt_no r = 1%Z → q ∈ l → same_chain r q →
  (1 <= da_attempt_no q <= da_max_attempts r)%Z.
Proof.
  intros H Hr Hno Hq Hs. destruct (ck_bounds _ H q Hq) as [Hb _].
  assert (da_max_attempts q <= da_max_attempts r)%Z; [|lia].
  apply (chain_max l r H Hr Hno (Z.to_nat (da_attempt_no q - 1)) q Hq); [lia|done].
Qed.

(** A list without duplicates that is numbered injectively below a bound. *)
Lemma numbered_length {A} (l : list A) (num : A → Z → Prop) (m : Z) : (0 <= m)%Z → NoDup l →
  (∀ x, x ∈ l → ∃ n, num x n ∧ (1 <= n <= m)%Z) → (∀ x y n, num x n → num y n → x = y) → length l ≤ Z.to_nat m.
Proof.
  intros Hm Hl Hn Hinj.
  assert (H : ∃ ns, length ns = length l ∧ NoDup ns ∧ (∀ n, n ∈ ns → (1 <= n <= m)%Z) ∧ ∀ n, n ∈ ns → ∃ x, x ∈ l ∧ num x n).
  { induction l as [|x l IH].
    - exists []. split; [done|]. split; [constructor|]. split; by intros ? ?%elem_of_nil.
    - apply NoDup_cons in Hl as [Hx Hl]. destruct IH as (ns & E & N & B & S); [done|intros; apply Hn; by right|].
      destruct (Hn x ltac:(by left)) as (n & Nx & Bx). exists (n :: ns). split; [simpl; by rewrite E|]. split; [|split].
      + constructor; [|done]. intros Hin. destruct (S n Hin) as (y & Hy & Ny). apply Hx. by rewrite (Hinj x y n Nx Ny).
      + intros k [-> |Hk]%elem_of_cons; [done|by apply B].
      + intros k [-> |Hk]%elem_of_cons; [exists x; split; [by left|done]|].
        destruct (S k Hk) as (y & Hy & Ny). exists y. split; [by right|done]. }
  destruct H as (ns & <- & N & B & _). rewrite <- (length_seqZ 1 m). apply submseteq_length, NoDup_submseteq; [done|].
  intros n Hin. apply elem_of_seqZ. specialize (B n Hin). lia.
Qed.

Lemma calls_bounded s r : hinv s → r ∈ attempt_rows (hy_api s) → da_attempt_no r = 1%Z →
  calls_of r s ≤ Z.to_nat (da_max_attempts r).
Proof.
  intros H Hr Hno. assert (Hc := hi_chain _ H). destruct (ck_bounds _ Hc r Hr) as [Hb _]. unfold calls_of.
  apply (numbered_length _ (λ id n, ∃ q, q ∈ attempt_rows (hy_api s) ∧ da_id q = id ∧ in_chain r q = true ∧ da_attempt_no q = n)).
  - lia.
  - apply NoDup_ListNoDup, List.NoDup_filter, NoDup_ListNoDup, H.
  - intros id Hid%list_elem_of_In. apply filter_In in Hid as [_ (q & Hq & Eq)%existsb_exists].
    apply andb_true_iff in Eq as [Eq Ec]. apply bool_decide_eq_true in Eq. apply list_elem_of_In in Hq.
    exists (da_attempt_no q). split; [by exists q|]. apply (chain_numbers _ r q Hc Hr Hno Hq).
    unfold in_chain in Ec. rewrite andb_true_iff, !bool_decide_eq_true in Ec. destruct Ec. by split.
  - intros x y n (q & Hq & <- & Cq & <-) (p & Hp & <- & Cp & En). f_equal.
    apply (attempt_unique attempt_key _ q p (ck_keys _ Hc) Hq Hp). unfold in_chain in Cq, Cp.
    rewrite andb_true_iff, !bool_decide_eq_true in Cq, Cp. destruct Cq as [Q1 Q2], Cp as [P1 P2]. unfold attempt_key.
    by rewrite Q1, Q2, P1, P2, En.
Qed.

(** C12. Dispatching is orderly, whatever dispatchers, callbacks and commands do and
    whenever dispatchers vanish: no attempt is handed to a provider twice, a
    dispatch calls it at most [max_attempts] times, its attempts are numbered from 1
    without gaps, each but the last has failed, and an attempt that waits has a
    queued job that will run no earlier than the attempt is due. *)
Theorem handoff_dispatch_orderly s : hreach s →
  NoDup (hy_sent s) ∧ NoDup (map attempt_key (attempt_rows (hy_api s))) ∧
  ∀ r, r ∈ attempt_rows (hy_api s) →
    (1 <= da_attempt_no r <= da_max_attempts r ∧ da_max_attempts r <= 20)%Z ∧
    (da_attempt_no r = 1%Z → calls_of r s ≤ Z.to_nat (da_max_attempts r)) ∧
    (da_attempt_no r ≠ 1%Z → ∃ p, p ∈ attempt_rows (hy_api s) ∧ after_attempt p r ∧ da_status p = attempt_failed) ∧
    (da_status r = attempt_failed ↔ ∃ q, q ∈ attempt_rows (hy_api s) ∧ after_attempt r q) ∧
    (da_status r = attempt_pending → job_queued (hy_api s) r).
Proof.
  intros H%hreach_inv. assert (Hc := hi_chain _ H). split; [apply H|]. split; [apply Hc|]. intros r Hr.
  assert (Hb := ck_bounds _ Hc r Hr). split; [done|]. split; [by apply calls_bounded|]. split; [|split; [split|]].
  - intros Hno. destruct (ck_before _ Hc r Hr ltac:(lia)) as (p & ? & ? & ? & _). by exists p.
  - by apply (ck_after _ Hc).
  - intros (q & Hq & Ha). destruct (decide (da_status r = attempt_failed)) as [|Hn]; [done|]. by destruct (no_successor _ r q Hc Hr Hn Hq Ha).
  - intros Hp. by apply (ro_pending _ _ (hi_rows _ H r Hr)).
Qed.
End System.
