(* ===== verification/HandoffFate.v ===== *)
(** * What becomes of an attempt that was handed out

    A dispatcher that comes back records its decision, always; one that does not
    leaves its attempt [sending] in every later state ([HandoffProps] has the system
    and its invariant). *)

From stdpp Require Import base strings list gmap pretty sets.
From Stdlib Require Import ZArith Lia.
From S2P Require Import Prelude StateMachine JsValue JsText Database Leases ErrorCatalog ApiShared AuditLog ApiStore HandoffParse Handoffs HandoffProps.

(** One row that is hit is the only answer of its statement. *)
Lemma filter_one {A} (hit : A → bool) l x : NoDup l → x ∈ l → hit x = true → (∀ y, y ∈ l → hit y = true → y = x) →
  List.filter hit l = [x].
Proof.
  intros Hn Hx Ht Hu. induction Hn as [|y l Hy Hn IH]; [by apply elem_of_nil in Hx|]. simpl.
  apply elem_of_cons in Hx as [<- |Hx].
  - rewrite Ht. f_equal. destruct (List.filter hit l) as [|z rest] eqn:E; [done|].
    assert (Hz : In z (List.filter hit l)) by (rewrite E; by left). apply filter_In in Hz as [Hz Hz'].
    apply list_elem_of_In in Hz. assert (z = x) as -> by (apply Hu; [by right|done]). done.
  - destruct (hit y) eqn:Ey.
    + exfalso. apply Hy. assert (y = x) as -> by (apply Hu; [by left|done]). done.
    + apply IH; [done|]. intros z Hz. apply Hu. by right.
Qed.

Lemma map_NoDup {A B} (g : A → B) (l : list A) : NoDup (map g l) → NoDup l.
Proof. intros H%NoDup_ListNoDup. apply NoDup_ListNoDup. by eapply List.NoDup_map_inv. Qed.

Lemma decide_True_one {A B} (l : list A) {x} (H : l = [x]) (p q : B) : (if decide (length l = 1) then p else q) = p.
Proof. by rewrite H. Qed.

Section Fate.
Context (tenantId : string) (uuid : nat → string) (uuid_inj : ∀ m n, uuid m = uuid n → m = n).

(** ** Attempts whose dispatcher is gone *)

Lemma commit_keeps {A} (m : Stmt A) a r : r ∈ attempt_rows a →
  (∀ t x, m (mkTxn a a []) = (t, Ok x) → attempt_rows a `prefix_of` attempt_rows (tx_mine t)) →
  r ∈ attempt_rows (commit m a).1.
Proof.
  intros Hr H. apply (commit_cases m a (λ a', r ∈ attempt_rows a')); [done|]. intros t x [k ->]%H.
  apply elem_of_app. by left.
Qed.

Lemma create_keeps requestedBy key input a r : r ∈ attempt_rows a →
  r ∈ attempt_rows (commit (insertIntegrationHandoff uuid requestedBy key input) a).1.
Proof.
  intros Hr. apply commit_keeps; [done|]. intros t x.
  unfold insertIntegrationHandoff, mbind, Stmt_bind, fresh_uuid, api_select, api_update, mret, Stmt_ret. cbv beta iota. simpl.
  by destruct (head _) as [row|]; intros [= <- <-].
Qed.

Lemma callback_keeps handoffId receivedBy input ref a r : r ∈ attempt_rows a →
  r ∈ attempt_rows (commit (recordIntegrationHandoffReceipt uuid handoffId receivedBy input ref) a).1.
Proof.
  intros Hr. apply commit_keeps; [done|]. intros t x.
  unfold recordIntegrationHandoffReceipt, selectIntegrationHandoffRow, mbind, Stmt_bind, fresh_uuid, api_select, mret, Stmt_ret.
  cbv beta iota. simpl. destruct (head _) as [locked|]; [|done]. destruct (_ && _); [done|].
  destruct (head (List.filter (receipt_at _ _) _)) as [existing|].
  - unfold assertReceiptReplayMatches, requireOne, mret, Stmt_ret. destruct (_ && _); [|done].
    simpl. destruct (head _); [|done]. by intros [= <- <-].
  - unfold requireOne, mret, Stmt_ret. simpl. destruct (head _); [|done]. by intros [= <- <-].
Qed.

Lemma dispatch_keeps handoff requestedBy key cid input a r : r ∈ attempt_rows a →
  r ∈ attempt_rows (commit (dispatch_write tenantId uuid handoff requestedBy key cid input) a).1.
Proof.
  intros Hr. apply commit_keeps; [done|]. intros t x.
  unfold dispatch_write, insertIntegrationHandoffDispatchAttempt, enqueueHandoffDispatch, mbind, Stmt_bind, lift.
  destruct (requireIdempotencyHeader key) as [k|e]; [|done]. unfold mret, Stmt_ret, fresh_uuid, api_select, api_update.
  cbv beta iota. simpl. destruct (head _) as [row|]; [by intros [= <- <-]|].
  destruct (insert_attempt _ _) as [t2 [[]|e]] eqn:Ei; [|done]. apply insert_attempt_Ok in Ei as (_ & _ & ->).
  intros [= <- <-]. simpl. by eexists.
Qed.

Lemma settle_keeps s th l1 l2 d retryAfterMs r tok : hy_threads s = l1 ++ th :: l2 → r ∈ attempt_rows (hy_api s) →
  da_lease_token r = Some tok → th_token th ≠ tok →
  r ∈ attempt_rows (commit (settle_attempt uuid retryAfterMs (th_correlationId th) (th_attempt th) (th_token th) d) (hy_api s)).1.
Proof.
  intros E Hr Et Hne. destruct (commit _ _) as [a' [out|e]] eqn:Ec; simpl.
  2:{ unfold commit in Ec. destruct (settle_attempt _ _ _ _ _ _ _) as [t [x|e']]; [done|]. by injection Ec as <- <-. }
  apply settle_run in Ec.
  assert (Hh : held_attempt (th_attempt th) (th_token th) (hy_api s) r = false).
  { apply Bool.not_true_iff_false. intros (_ & Et' & _)%held_true. congruence. }
  destruct Ec as [f g _ _ _ Ea|f _ _ _ row _ _ Ea].
  - assert (Erows : attempt_rows a' = map (λ r, if held_attempt (th_attempt th) (th_token th) (hy_api s) r then f r else r)
      (attempt_rows (hy_api s))) by (by rewrite Ea).
    rewrite Erows. by apply upd_row.
  - assert (Erows : attempt_rows a' = map (λ r, if held_attempt (th_attempt th) (th_token th) (hy_api s) r then f r else r)
      (attempt_rows (hy_api s)) ++ [row]) by (by rewrite Ea).
    rewrite Erows. apply elem_of_app. left. by apply upd_row.
Qed.

(** The attempt [r] is being sent, by nobody. *)
Record stranded (r : DispatchAttemptRow) (tok : string) (s : HandoffSys) : Prop := mkStranded {
  sd_row : r ∈ attempt_rows (hy_api s);
  sd_status : da_status r = attempt_sending;
  sd_token : da_lease_token r = Some tok;
  sd_nobody : ∀ th, th ∈ hy_threads s → th_token th ≠ tok
}.

Lemma stranded_step r tok s s' : hinv uuid s → stranded r tok s → hstep tenantId uuid s s' →
  stranded r tok s' ∧ ∃ ext, hy_sent s' = hy_sent s ++ ext ∧ da_id r ∉ ext.
Proof.
  intros H [Hr Es Et Hn] Hs.
  assert (Hsame : ∀ l, ∃ ext, l = l ++ ext ∧ da_id r ∉ ext).
  { intros l. exists []. rewrite app_nil_r. split; [done|]. by intros ?%elem_of_nil. }
  destruct Hs as [f Ef Hf|requestedBy key input|handoff requestedBy key cid raw input Hex Hp|handoffId receivedBy input ref
    |attemptId max cid a r' Ec|l1 th l2 d E Ed|l1 th l2 d retry E Ed|l1 th l2 E]; simpl.
  - split; [|apply Hsame]. constructor; [|done..]. unfold attempt_rows. simpl. by rewrite Ef.
  - split; [|apply Hsame]. constructor; [by apply create_keeps|done..].
  - split; [|apply Hsame]. constructor; [by apply dispatch_keeps|done..].
  - split; [|apply Hsame]. constructor; [by apply callback_keeps|done..].
  - rewrite claim_run in Ec. injection Ec as <- <-. set (b := use_api_id (hy_api s)).
    assert (Hkeep : r ∈ attempt_rows (claim_result uuid attemptId b)).
    { unfold claim_result, attempt_rows, on_handoffs. simpl. apply list_elem_of_fmap. exists r. split; [|done].
      destruct (claimable _ _ r) eqn:E; [|done]. apply claimable_pending in E. congruence. }
    destruct (List.filter (claimable attemptId b) (attempt_rows (hy_api s))) as [|r0 rest] eqn:Ef; simpl.
    { split; [|apply Hsame]. by constructor. }
    assert (Hr0 : r0 ∈ attempt_rows (hy_api s) ∧ claimable attemptId b r0 = true).
    { assert (Hin : In r0 (List.filter (claimable attemptId b) (attempt_rows (hy_api s)))) by (rewrite Ef; by left).
      apply filter_In in Hin as [Hin ?]. split; [by apply list_elem_of_In|done]. }
    destruct Hr0 as [Hr0 Hc0%claimable_pending].
    assert (Hne : da_id r ≠ da_id r0).
    { intros E. assert (r = r0) as ->; [|congruence]. eapply (attempt_unique da_id); [apply H|done..]. }
    assert (Htok : uuid (a_ids (hy_api s)) ≠ tok).
    { intros E. apply (fresh_not_drawn uuid (hy_api s) uuid_inj). rewrite E. by apply (ro_token _ _ _ (hi_rows _ _ H r Hr)). }
    assert (Hth : ∀ att d th, th ∈ hy_threads s ++ [mkDispatcher att (uuid (a_ids (hy_api s))) cid d] → th_token th ≠ tok).
    { intros att d th [Hth| ->%list_elem_of_singleton]%elem_of_app; [by apply Hn|done]. }
    unfold claimed_by. destruct (sendable _); simpl.
    + split; [constructor; [done|done|done|apply Hth]|]. exists [da_id r0]. split; [done|]. by intros ?%list_elem_of_singleton.
    + split; [constructor; [done|done|done|apply Hth]|apply Hsame].
  - split; [|apply Hsame]. constructor; [done..|]. intros th' [Hth|[-> |Hth]%elem_of_cons]%elem_of_app.
    + apply Hn. rewrite E. apply elem_of_app. by left.
    + simpl. apply (Hn th). rewrite E. apply elem_of_app. right. by left.
    + apply Hn. rewrite E. apply elem_of_app. right. by right.
  - assert (Hth : th ∈ hy_threads s) by (rewrite E; apply elem_of_app; right; by left).
    split; [|apply Hsame]. constructor; [eapply settle_keeps; eauto|done..|].
    intros th' Hth'. apply Hn. rewrite E. apply elem_of_app in Hth' as [?|?]; apply elem_of_app; [by left|by right; right].
  - split; [|apply Hsame]. constructor; [done..|].
    intros th' Hth'. apply Hn. rewrite E. apply elem_of_app in Hth' as [?|?]; apply elem_of_app; [by left|by right; right].
Qed.

Lemma stranded_rtc r tok s s' : hinv uuid s → stranded r tok s → rtc (hstep tenantId uuid) s s' →
  hinv uuid s' ∧ stranded r tok s' ∧ ∃ ext, hy_sent s' = hy_sent s ++ ext ∧ da_id r ∉ ext.
Proof.
  intros H Hs Hrtc. induction Hrtc as [s|s s1 s2 H1 _ IH].
  - split; [done|]. split; [done|]. exists []. rewrite app_nil_r. split; [done|]. by intros ?%elem_of_nil.
  - destruct (stranded_step r tok s s1 H Hs H1) as (Hs1 & e1 & E1 & N1).
    destruct IH as (H2 & Hs2 & e2 & E2 & N2); [by eapply hinv_step|done|].
    split; [done|]. split; [done|]. exists (e1 ++ e2). rewrite E2, E1, (assoc_L (++)). split; [done|].
    by intros [?|?]%elem_of_app.
Qed.

(** An attempt whose dispatcher is lost between its two transactions (a crash, or a
    port that throws, which nothing catches) is lost with it: in every later state it
    is still [sending], it is not handed to a provider again, it has no successor, and
    every retry of its job finds nothing to claim and completes. *)
Theorem lost_dispatcher_strands_attempt s l1 th l2 s' :
  hreach tenantId uuid s → hy_threads s = l1 ++ th :: l2 →
  rtc (hstep tenantId uuid) (mkHandoffSys (hy_api s) (l1 ++ l2) (hy_sent s)) s' →
  ∃ r, r ∈ attempt_rows (hy_api s') ∧ da_id r = da_id (th_attempt th) ∧ da_status r = attempt_sending ∧
    (∃ ext, hy_sent s' = hy_sent s ++ ext ∧ da_id r ∉ ext) ∧
    (∀ q, q ∈ attempt_rows (hy_api s') → ¬ after_attempt r q) ∧
    ∀ id token max, uuid_text id = da_id r →
      (commit (claim_attempt id token max) (hy_api s')).2 = Ok None.
Proof.
  intros H%(hreach_inv tenantId uuid uuid_inj) E Hrtc. assert (Hth : th ∈ hy_threads s) by (rewrite E; apply elem_of_app; right; by left).
  destruct (proj2 (hi_threads _ _ H) th Hth) as (r & max & Hr & Ec & Es & Et).
  assert (H1 : hinv uuid (mkHandoffSys (hy_api s) (l1 ++ l2) (hy_sent s))).
  { eapply (hinv_step tenantId uuid uuid_inj); [exact H|]. by eapply h_vanish. }
  assert (Hs : stranded r (th_token th) (mkHandoffSys (hy_api s) (l1 ++ l2) (hy_sent s))).
  { constructor; [done..|]. simpl. intros th' Hth' Ett. assert (Hn := proj1 (hi_threads _ _ H)). rewrite E, map_app in Hn.
    apply NoDup_app in Hn as (_ & N2 & [N3 _]%NoDup_cons). apply elem_of_app in Hth' as [Hi|Hi].
    - apply (N2 (th_token th')); [by apply list_elem_of_fmap_2|]. rewrite Ett. by left.
    - apply N3. rewrite <- Ett. by apply list_elem_of_fmap_2. }
  destruct (stranded_rtc _ _ _ _ H1 Hs Hrtc) as (H2 & [Hr' _ _ _] & Hext). exists r.
  split; [done|]. split; [by rewrite Ec|]. split; [done|]. split; [done|]. split.
  - intros q Hq Ha. eapply (no_successor _ r q); [apply H2|done|by rewrite Es|done|done].
  - intros id token mx Eid. unfold commit, claim_attempt, mbind, Stmt_bind. rewrite update_attempts_eq. simpl.
    destruct (List.filter _ _) as [|q rest] eqn:Ef; [done|]. exfalso.
    assert (Hin : In q (List.filter (claimable id (hy_api s')) (attempt_rows (hy_api s')))) by (rewrite Ef; by left).
    apply filter_In in Hin as [Hq%list_elem_of_In Hc]. assert (Hp := claimable_pending _ _ _ Hc).
    unfold claimable in Hc. rewrite !andb_true_iff, !bool_decide_eq_true in Hc. destruct Hc as [[[Eq _] _] _].
    assert (q = r) as ->; [|congruence]. eapply (attempt_unique da_id); [apply H2|done..|congruence].
Qed.

(** ** Attempts that are decided *)

(** The status that a decision gives the attempt, and the one it gives the handoff. *)
Definition decided_status (attempt : DispatchAttemptRow) (d : IntegrationHandoffDispatchDecision)
  : AttemptStatus * option IntegrationHandoffStatus :=
  match d with
  | dd_accepted _ _ _ => (attempt_accepted, Some handoff_accepted)
  | dd_permanent_failed _ _ => (attempt_dead_letter, Some handoff_failed)
  | dd_transient_failed _ _ =>
      if (da_max_attempts attempt <=? da_attempt_no attempt)%Z then (attempt_dead_letter, Some handoff_failed)
      else (attempt_failed, None)
  end.

(** What the columns can hold. *)
Definition code_fits (code : option Z) : bool := match code with Some c => (100 <=? c)%Z && (c <=? 599)%Z | None => true end.
Definition decision_fits (d : IntegrationHandoffDispatchDecision) : bool :=
  match d with
  | dd_accepted receiptId code ext => fits 200 (Some receiptId) && code_fits (Some code) && fits 200 ext
  | dd_transient_failed _ code | dd_permanent_failed _ code => code_fits code
  end.

(** Error codes are cut to their column. *)
Lemma substring_length n m s : String.length (String.substring n m s) ≤ m.
Proof.
  revert n m. induction s as [|c s IH]; intros [|n] [|m]; simpl; try lia; [|apply (IH n 0)|apply (IH n (S m))].
  specialize (IH 0 m). lia.
Qed.
Lemma error_code_fits reason fallback : fits 120 (Some (redactedErrorCode reason fallback)) = true.
Proof. apply Nat.leb_le, substring_length. Qed.

(** What a row keeps of its receipt while it is being sent. *)
Lemma accepted_no_violation a r receiptId code ext : decision_fits (dd_accepted receiptId code ext) = true →
  attempt_violation (finished_attempt attempt_accepted (Some receiptId) ext (Some code) None a r) = None.
Proof.
  unfold decision_fits, code_fits. rewrite !andb_true_iff. intros [[H1 [H2 H3]] H4]. unfold attempt_violation. simpl da_error_code.
  simpl da_external_job_id. simpl da_provider_status_code. simpl da_receipt_id. rewrite H1, H4, H2, H3. done.
Qed.
Lemma failed_no_violation a r status code reason fallback : code_fits code = true →
  da_receipt_id r = None → da_external_job_id r = None →
  attempt_violation (failed_attempt status code (redactedErrorCode reason fallback) a r) = None.
Proof.
  intros H1 H2 H3. unfold attempt_violation. simpl da_error_code. simpl da_external_job_id. simpl da_provider_status_code.
  simpl da_receipt_id. rewrite error_code_fits, H2, H3. unfold code_fits in H1. by rewrite H1.
Qed.

(** The two statements of a thread find the rows they are meant for. *)
Lemma held_filter s th : hinv uuid s → th ∈ hy_threads s →
  ∃ r max, r ∈ attempt_rows (hy_api s) ∧ th_attempt th = capped max r ∧
    held_attempt (th_attempt th) (th_token th) (hy_api s) r = true ∧
    List.filter (held_attempt (th_attempt th) (th_token th) (hy_api s)) (attempt_rows (hy_api s)) = [r].
Proof.
  intros H Hth. destruct (held_row uuid s th H Hth) as (r & max & Hr & Ec & Eh & Hu). exists r, max.
  split; [done|]. split; [done|]. split; [done|]. apply filter_one; [|done..].
  eapply (map_NoDup da_id). apply H.
Qed.

Lemma handoff_filter s r : hinv uuid s → r ∈ attempt_rows (hy_api s) →
  ∃ h, h ∈ handoff_rows (hy_api s) ∧ hf_id h = da_handoff_id r ∧
    List.filter (rowid_is (da_handoff_id r)) (handoff_rows (hy_api s)) = [h].
Proof.
  intros H Hr. destruct (ro_handoff _ _ _ (hi_rows _ _ H r Hr)) as (h & Hh & Eh). exists h. split; [done|]. split; [done|].
  assert (Hn := proj1 (hi_handoffs _ _ H)). apply filter_one; [by eapply (map_NoDup hf_id)|done| |].
  - by apply bool_decide_eq_true_2.
  - intros y Hy Ey%bool_decide_eq_true. apply list_elem_of_lookup in Hh as [i Hi]. apply list_elem_of_lookup in Hy as [j Hj].
    assert (j = i) as ->; [|congruence]. apply (NoDup_lookup _ _ _ (hf_id h) Hn).
    + change (map hf_id) with (fmap (M := list) hf_id). rewrite list_lookup_fmap, Hj. simpl. congruence.
    + change (map hf_id) with (fmap (M := list) hf_id). by rewrite list_lookup_fmap, Hi.
Qed.

Lemma insert_attempt_ok row t : da_id row ∉ map da_id (attempt_rows (tx_mine t)) →
  attempt_key row ∉ map attempt_key (attempt_rows (tx_mine t)) →
  insert_attempt row t =
    (mkTxn (tx_base t) (on_handoffs (with_attempts (attempt_rows (tx_mine t) ++ [row])) (tx_mine t)) (tx_env t), Ok tt).
Proof.
  assert (Hnot : ∀ {A} (g : DispatchAttemptRow → A) `{EqDecision A} x l, x ∉ map g l → existsb (λ r, bool_decide (g r = x)) l = false).
  { intros A g ? x l H. apply Bool.not_true_iff_false. intros (r & Hr & E%bool_decide_eq_true)%existsb_exists. apply H.
    rewrite <- E. by apply list_elem_of_fmap_2, list_elem_of_In. }
  intros H1 H2. unfold insert_attempt, mbind, Stmt_bind, api_select, api_throw, api_update.
  by rewrite (Hnot _ da_id), (Hnot _ attempt_key).
Qed.

(** [completeFailedAttempt] and [completeAcceptedAttempt] when their statements hit. *)
Section Complete.
Context (retryAfterMs : Z) (cid : string) (attempt : DispatchAttemptRow) (token : string) (a : Api) (r : DispatchAttemptRow)
  (h : IntegrationHandoffRow).
Context (Hone : List.filter (held_attempt attempt token a) (attempt_rows a) = [r]).
Context (Hblank : da_receipt_id r = None ∧ da_external_job_id r = None).
Context (Hh : List.filter (rowid_is (da_handoff_id attempt)) (handoff_rows a) = [h]).

Lemma elem_of_hit {A} (hit : A → bool) (f : A → A) l x : List.filter hit l = [x] → f x ∈ map (λ y, if hit y then f y else y) l.
Proof.
  intros E. assert (Hin : In x (List.filter hit l)) by (rewrite E; by left). apply filter_In in Hin as [Hin Ht].
  apply list_elem_of_fmap. exists x. split; [by rewrite Ht|by apply list_elem_of_In].
Qed.

Lemma accepted_run receiptId code ext : decision_fits (dd_accepted receiptId code ext) = true → ∃ a',
  completeAcceptedAttempt attempt token receiptId code ext (mkTxn a a []) = (mkTxn a a' [], Ok tt) ∧
  finished_attempt attempt_accepted (Some receiptId) ext (Some code) None a r ∈ attempt_rows a' ∧
  accepted_handoff receiptId ext (da_legal_hold attempt) a h ∈ handoff_rows a'.
Proof.
  intros Hfits. unfold completeAcceptedAttempt, mbind, Stmt_bind. rewrite update_checked_eq. cbn [tx_mine tx_base tx_env]. rewrite Hone.
  cbn [map omap list_omap]. rewrite accepted_no_violation by done. cbv beta iota.
  rewrite expect_one_eq. rewrite decide_True by done. rewrite update_handoffs_eq. cbv beta iota.
  rewrite expect_one_eq, length_map. rewrite (decide_True_one _ Hh). cbv beta iota.
  eexists. split; [reflexivity|]. split.
  - unfold attempt_rows. simpl. by apply elem_of_hit.
  - simpl. by apply (elem_of_hit (rowid_is (da_handoff_id attempt))).
Qed.

Lemma final_run reason code : code_fits code = true → let e := redactedErrorCode reason "INTEGRATION_HANDOFF_DISPATCH_FAILED" in ∃ a',
  completeFailedAttempt uuid retryAfterMs cid attempt token reason code true (mkTxn a a []) = (mkTxn a a' [], Ok (da_id attempt)) ∧
  failed_attempt attempt_dead_letter code e a r ∈ attempt_rows a' ∧ failed_handoff e (da_legal_hold attempt) a h ∈ handoff_rows a'.
Proof.
  intros Hfits e. unfold completeFailedAttempt, mbind, Stmt_bind. rewrite update_checked_eq. cbn [tx_mine tx_base tx_env]. rewrite Hone.
  cbn [map omap list_omap]. rewrite failed_no_violation by (done || apply Hblank). cbv beta iota.
  rewrite expect_one_eq. rewrite decide_True by done. rewrite update_handoffs_eq. cbv beta iota.
  rewrite expect_one_eq, length_map. rewrite (decide_True_one _ Hh). cbv beta iota.
  eexists. split; [reflexivity|]. split.
  - unfold attempt_rows. simpl. by apply elem_of_hit.
  - simpl. by apply (elem_of_hit (rowid_is (da_handoff_id attempt))).
Qed.

Lemma retry_run reason code : code_fits code = true → let e := redactedErrorCode reason "INTEGRATION_HANDOFF_DISPATCH_FAILED" in
  let row := next_attempt (uuid (a_ids a)) attempt (api_now a) retryAfterMs in
  da_id row ∉ map da_id (attempt_rows a) → attempt_key row ∉ map attempt_key (attempt_rows a) → ∃ a',
  completeFailedAttempt uuid retryAfterMs cid attempt token reason code false (mkTxn a a []) = (mkTxn a a' [], Ok (da_id row)) ∧
  failed_attempt attempt_failed code e a r ∈ attempt_rows a' ∧ row ∈ attempt_rows a' ∧
  mkHandoffJob (da_id row) cid (if (0 <? retryAfterMs)%Z then api_now a + retryAfterMs else api_now a)%Z ∈ hs_jobs (a_handoffs a').
Proof.
  intros Hfits e row Hid Hkey. unfold completeFailedAttempt, mbind, Stmt_bind. rewrite update_checked_eq. cbn [tx_mine tx_base tx_env]. rewrite Hone.
  cbn [map omap list_omap]. rewrite failed_no_violation by (done || apply Hblank). cbv beta iota.
  rewrite expect_one_eq. rewrite decide_True by done. unfold fresh_uuid, api_select. cbv beta iota.
  rewrite insert_attempt_ok.
  2:{ unfold on_handoffs, with_attempts, attempt_rows. simpl. by rewrite map_ids. }
  2:{ unfold on_handoffs, with_attempts, attempt_rows. simpl. by rewrite map_keys. }
  eexists. split; [reflexivity|]. unfold attempt_rows, on_handoffs. simpl. split; [|split].
  - apply elem_of_app. left. by apply (elem_of_hit (held_attempt attempt token a)).
  - apply elem_of_app. right. by apply list_elem_of_singleton.
  - apply elem_of_app. right. by apply list_elem_of_singleton.
Qed.
End Complete.

(** The id and the key of the next attempt are free. *)
Lemma next_free s th retryAfterMs : hinv uuid s → th ∈ hy_threads s →
  let row := next_attempt (uuid (a_ids (hy_api s))) (th_attempt th) (api_now (hy_api s)) retryAfterMs in
  da_id row ∉ map da_id (attempt_rows (hy_api s)) ∧ attempt_key row ∉ map attempt_key (attempt_rows (hy_api s)).
Proof.
  intros H Hth row. destruct (proj2 (hi_threads _ _ H) th Hth) as (r & max & Hr & Ec & Es & Et). split.
  - intros (q & E & Hq)%list_elem_of_fmap. simpl in E. apply (fresh_not_drawn uuid (hy_api s) uuid_inj). rewrite E.
    by apply (ro_id _ _ _ (hi_rows _ _ H q Hq)).
  - intros (q & E & Hq)%list_elem_of_fmap. unfold attempt_key in E. simpl in E. rewrite Ec in E. simpl in E. injection E as E1 E2 E3.
    eapply (no_successor _ r q); [apply H|done|by rewrite Es|done|]. repeat split; congruence.
Qed.

(** A dispatcher that comes back with a decision that its columns can hold always
    commits it, whatever has
    happened to the handoff in the meantime: acceptance with the provider's receipt, a
    dead letter when the failure is permanent or the attempts are used up, and
    otherwise a failed attempt with a pending successor, due after the delay, that has
    its job; the handoff's status follows in the first two cases. *)
Lemma decided_attempt_settles s l1 th l2 d retryAfterMs : hreach tenantId uuid s → hy_threads s = l1 ++ th :: l2 →
  decision_fits d = true →
  ∃ a' out r max q, commit (settle_attempt uuid retryAfterMs (th_correlationId th) (th_attempt th) (th_token th) d) (hy_api s) = (a', Ok out) ∧
    r ∈ attempt_rows (hy_api s) ∧ th_attempt th = capped max r ∧
    q ∈ attempt_rows a' ∧ da_id q = da_id r ∧ attempt_key q = attempt_key r ∧
    da_status q = (decided_status (th_attempt th) d).1 ∧
    match d with
    | dd_accepted receiptId code ext => da_receipt_id q = Some receiptId ∧ da_external_job_id q = ext ∧ da_error_code q = None
    | dd_transient_failed reason code | dd_permanent_failed reason code =>
        da_provider_status_code q = code ∧ da_error_code q = Some (redactedErrorCode reason "INTEGRATION_HANDOFF_DISPATCH_FAILED")
    end ∧
    match (decided_status (th_attempt th) d).2 with
    | Some st => out = (if bool_decide (st = handoff_accepted) then out_accepted else out_dead_letter) ∧
        ∃ h, h ∈ handoff_rows a' ∧ hf_id h = da_handoff_id q ∧ hf_status h = st ∧ hf_latest_error_code h = da_error_code q
    | None => ∃ next, out = out_failed (da_id next) ∧ next ∈ attempt_rows a' ∧ after_attempt q next ∧
        da_status next = attempt_pending ∧ da_next_attempt_at next = (api_now (hy_api s) + retryAfterMs)%Z ∧
        job_queued a' next
    end.
Proof.
  intros H%(hreach_inv tenantId uuid uuid_inj) E Hfits. assert (Hth : th ∈ hy_threads s) by (rewrite E; apply elem_of_app; right; by left).
  destruct (held_filter s th H Hth) as (r & max & Hr & Ec & Eheld & Hone).
  assert (Hblank : da_receipt_id r = None ∧ da_external_job_id r = None).
  { apply held_true in Eheld as (_ & _ & Es). apply (ro_blank _ _ _ (hi_rows _ _ H r Hr)). by right. }
  destruct (handoff_filter s r H Hr) as (h & Hh & Eh & Hhone).
  assert (Hhone' : List.filter (rowid_is (da_handoff_id (th_attempt th))) (handoff_rows (hy_api s)) = [h]) by (by rewrite Ec).
  destruct (next_free s th retryAfterMs H Hth) as [Hid Hkey].
  assert (Hfinal := λ reason code, final_run retryAfterMs (th_correlationId th) (th_attempt th) (th_token th) (hy_api s) r h Hone Hblank Hhone' reason code).
  destruct d as [receiptId code ext|reason code|reason code]; unfold commit, settle_attempt, decided_status, mbind, Stmt_bind.
  - destruct (accepted_run _ _ _ r h Hone Hhone' receiptId code ext Hfits) as (a' & -> & Hq & Hh'). simpl.
    eexists a', _, r, max, _. split; [reflexivity|]. split; [done|]. split; [done|]. split; [exact Hq|]. do 3 (split; [done|]).
    split; [done|]. split; [done|]. eexists. split; [exact Hh'|]. done.
  - destruct (da_max_attempts _ <=? _)%Z.
    + destruct (Hfinal reason code Hfits) as (a' & -> & Hq & Hh'). simpl.
      eexists a', _, r, max, _. split; [reflexivity|]. split; [done|]. split; [done|]. split; [exact Hq|]. do 3 (split; [done|]).
      split; [done|]. split; [done|]. eexists. split; [exact Hh'|]. done.
    + destruct (retry_run retryAfterMs (th_correlationId th) _ _ _ r Hone Hblank reason code Hfits Hid Hkey) as (a' & -> & Hq & Hn & Hj). simpl.
      eexists a', _, r, max, _. split; [reflexivity|]. split; [done|]. split; [done|]. split; [exact Hq|]. do 3 (split; [done|]).
      split; [done|]. eexists (next_attempt _ _ _ _). split; [reflexivity|]. split; [exact Hn|]. split; [by rewrite Ec|]. split; [done|]. split; [done|].
      eexists. split; [exact Hj|]. split; [done|]. simpl. destruct (Z.ltb_spec 0 retryAfterMs); lia.
  - destruct (Hfinal reason code Hfits) as (a' & -> & Hq & Hh'). simpl.
    eexists a', _, r, max, _. split; [reflexivity|]. split; [done|]. split; [done|]. split; [exact Hq|]. do 3 (split; [done|]).
    split; [done|]. split; [done|]. eexists. split; [exact Hh'|]. done.
Qed.

(** ** The dispatcher of the code *)

(** Bodies that read and write in one go. *)
Definition calm_stmt {A} (m : Stmt A) : Prop := ∀ b x env,
  m (mkTxn b x env) = (mkTxn b (tx_mine (m (mkTxn x x [])).1) env, (m (mkTxn x x [])).2).

Lemma calm_stmt_bind {A B} (m : Stmt A) (k : A → Stmt B) : calm_stmt m → (∀ x, calm_stmt (k x)) → calm_stmt (m ≫= k).
Proof.
  intros Hm Hk b x env. unfold mbind, Stmt_bind. rewrite (Hm b), (Hm x x []).
  destruct (m (mkTxn x x [])) as [t [y|e]]; simpl; [|done]. rewrite (Hk y b), (Hk y x). done.
Qed.
Lemma calm_stmt_ret {A} (x : A) : calm_stmt (mret x).
Proof. by intros b a env. Qed.
Lemma calm_stmt_throw {A} e : calm_stmt (api_throw (A := A) e).
Proof. by intros b a env. Qed.
Lemma calm_stmt_select {A} (f : Api → A) : calm_stmt (api_select f).
Proof. by intros b a env. Qed.
Lemma calm_stmt_update f : calm_stmt (api_update f).
Proof. by intros b a env. Qed.
Lemma calm_stmt_fresh : calm_stmt (fresh_uuid uuid).
Proof. by intros b a env. Qed.
Lemma calm_stmt_expect {A} (l : list A) what : calm_stmt (expect_one l what).
Proof. intros b a env. unfold expect_one. by destruct (decide _). Qed.

Lemma calm_stmt_insert row : calm_stmt (insert_attempt row).
Proof.
  apply calm_stmt_bind; [apply calm_stmt_select|]. intros rows. destruct (existsb _ _); [apply calm_stmt_throw|].
  destruct (existsb _ _); [apply calm_stmt_throw|apply calm_stmt_update].
Qed.
Lemma calm_stmt_attempts hit f : calm_stmt (update_attempt_rows hit f).
Proof. by intros b a env. Qed.
Lemma calm_stmt_checked hit f : calm_stmt (update_attempt_checked hit f).
Proof. intros b a env. rewrite !update_checked_eq. done. Qed.
Lemma calm_stmt_handoffs hit f : calm_stmt (update_handoff_rows hit f).
Proof. by intros b a env. Qed.

#[local] Hint Resolve calm_stmt_ret calm_stmt_throw calm_stmt_select calm_stmt_update calm_stmt_fresh
  calm_stmt_expect calm_stmt_insert calm_stmt_attempts calm_stmt_checked calm_stmt_handoffs : calm_stmt.
#[local] Ltac calm_stmt := repeat first [solve [auto 1 with calm_stmt nocore] | apply calm_stmt_bind; [|intros ?] | case_match].

Lemma calm_stmt_claim id token max : calm_stmt (claim_attempt id token max).
Proof. unfold claim_attempt. calm_stmt. Qed.
Lemma calm_stmt_failed retry cid attempt token reason code fin :
  calm_stmt (completeFailedAttempt uuid retry cid attempt token reason code fin).
Proof. unfold completeFailedAttempt, enqueueHandoffDispatch. calm_stmt. Qed.
#[local] Hint Resolve calm_stmt_failed : calm_stmt.
Lemma calm_stmt_settle retry cid attempt token d : calm_stmt (settle_attempt uuid retry cid attempt token d).
Proof.
  unfold settle_attempt, completeAcceptedAttempt. destruct d; calm_stmt.
Qed.

Lemma calm_stmt_tx {A} (m : Stmt A) w : calm_stmt m →
  tenantTx m w = (mkApiWorld (commit m (match aw_env w with [] => aw_api w | f :: _ => f (aw_api w) end)).1 (tail (aw_env w)),
                  (commit m (match aw_env w with [] => aw_api w | f :: _ => f (aw_api w) end)).2).
Proof.
  intros Hm. unfold tenantTx, commit. set (a := match aw_env w with [] => _ | _ => _ end). rewrite (Hm a a).
  by destruct (m (mkTxn a a [])) as [t [x|e]].
Qed.

(** What others do between two transactions are steps of the system. *)
Definition by_steps (f : Api → Api) : Prop := ∀ s, hreach tenantId uuid s → ∃ s', rtc (hstep tenantId uuid) s s' ∧
  hy_api s' = f (hy_api s) ∧ hy_threads s ⊆ hy_threads s'.

Lemma hreach_rtc s s' : hreach tenantId uuid s → rtc (hstep tenantId uuid) s s' → hreach tenantId uuid s'.
Proof. intros H Hs. induction Hs; [done|]. apply IHHs. by eapply hr_step. Qed.

(** The three courses of a dispatcher. *)
Inductive course (port : IntegrationHandoffDispatchRequest → result ApiExn IntegrationHandoffDispatchDecision) (retryAfterMs : Z)
    (id cid token : string) (s0 : HandoffSys) (a' : Api) : result ApiExn IntegrationHandoffDispatchOutcome → Prop :=
| course_idle : hstep tenantId uuid s0 (mkHandoffSys a' (hy_threads s0) (hy_sent s0)) →
    course port retryAfterMs id cid token s0 a' (Ok out_already_completed)
| course_settled s1 l1 l2 attempt d : rtc (hstep tenantId uuid) s0 s1 →
    hy_threads s1 = l1 ++ mkDispatcher attempt token cid (Some d) :: l2 →
    da_id attempt = id → (d = dd_permanent_failed "payload_not_object" None ∨ port (dispatch_request cid attempt) = Ok d) →
    a' = (commit (settle_attempt uuid retryAfterMs cid attempt token d) (hy_api s1)).1 →
    course port retryAfterMs id cid token s0 a' (commit (settle_attempt uuid retryAfterMs cid attempt token d) (hy_api s1)).2
| course_thrown s1 attempt e : rtc (hstep tenantId uuid) s0 s1 → hy_api s1 = a' →
    mkDispatcher attempt token cid None ∈ hy_threads s1 → da_id attempt = id →
    port (dispatch_request cid attempt) = Err e → course port retryAfterMs id cid token s0 a' (Err e).

Lemma claimed_id id max a a1 attempt : commit (claim_attempt id (uuid (a_ids a)) max) (use_api_id a) = (a1, Ok (Some attempt)) →
  da_id attempt = uuid_text id.
Proof.
  rewrite claim_run. intros [= _ H]. destruct (List.filter _ _) as [|r rest] eqn:Ef; [done|]. simpl in H. injection H as <-.
  assert (Hin : In r (List.filter (claimable id (use_api_id a)) (attempt_rows a))) by (rewrite Ef; by left).
  apply filter_In in Hin as [_ Hc]. unfold claimable in Hc. rewrite !andb_true_iff, bool_decide_eq_true in Hc. by destruct Hc as [[[? _] _] _].
Qed.

Lemma dispatcher_course port maxAttempts retryAfterMs attemptId cid w w' out ths sent others :
  hreach tenantId uuid (mkHandoffSys (aw_api w) ths sent) → aw_env w = (λ a, a) :: others → Forall by_steps others →
  dispatchIntegrationHandoffAttempt uuid port maxAttempts retryAfterMs attemptId cid w = (w', out) →
  course port retryAfterMs (uuid_text attemptId) cid (uuid (a_ids (aw_api w))) (mkHandoffSys (aw_api w) ths sent) (aw_api w') out.
Proof.
  intros Hr Henv Hoth. destruct w as [a env]. simpl in Henv. subst env. simpl in Hr. simpl aw_api.
  unfold dispatchIntegrationHandoffAttempt, draw_token, claimPendingAttempt, mbind, Act_bind. cbv beta iota.
  rewrite (calm_stmt_tx _ _ (calm_stmt_claim _ _ _)). cbn [aw_api aw_env tail].
  destruct (commit (claim_attempt attemptId (uuid (a_ids a)) maxAttempts) (use_api_id a)) as [a1 [r|e]] eqn:Ec;
    [|by rewrite claim_run in Ec].
  assert (Hclaim := h_claim tenantId uuid (mkHandoffSys a ths sent) attemptId maxAttempts cid a1 r Ec). simpl in Hclaim.
  cbn [fst snd]. destruct r as [attempt|]; [|intros [= <- <-]; by apply course_idle].
  apply claimed_id in Ec. unfold claimed_by in Hclaim. simpl in Hclaim. set (tok := uuid (a_ids a)) in *.
  assert (Hsettle : ∀ sent1 d, rtc (hstep tenantId uuid) (mkHandoffSys a ths sent)
      (mkHandoffSys a1 (ths ++ [mkDispatcher attempt tok cid (Some d)]) sent1) →
      (d = dd_permanent_failed "payload_not_object" None ∨ port (dispatch_request cid attempt) = Ok d) →
      tenantTx (settle_attempt uuid retryAfterMs cid attempt tok d) (mkApiWorld a1 others) = (w', out) →
      course port retryAfterMs (uuid_text attemptId) cid tok (mkHandoffSys a ths sent) (aw_api w') out).
  { intros sent1 d Hs Hd. rewrite (calm_stmt_tx _ _ (calm_stmt_settle _ _ _ _ _)). cbn [aw_api aw_env].
    intros [= <- <-]. cbn [aw_api].
    assert (Hmid : ∃ s1, rtc (hstep tenantId uuid) (mkHandoffSys a ths sent) s1 ∧
      hy_api s1 = (match others with [] => a1 | f :: _ => f a1 end) ∧ mkDispatcher attempt tok cid (Some d) ∈ hy_threads s1).
    { destruct others as [|f others].
      - eexists. split; [exact Hs|]. split; [done|]. apply elem_of_app. right. by apply list_elem_of_singleton.
      - apply Forall_cons in Hoth as [Hf _]. destruct (Hf _ (hreach_rtc _ _ Hr Hs)) as (s1 & H1 & H2 & H3). exists s1.
        split; [by etrans|]. split; [done|]. apply H3, elem_of_app. right. by apply list_elem_of_singleton. }
    destruct Hmid as (s1 & H1 & <- & (l1 & l2 & H3)%list_elem_of_split).
    by apply (course_settled _ _ _ _ _ _ _ s1 l1 l2). }
  destruct (sendable _); cbn [negb].
  - destruct (port _) as [d|e] eqn:Ep; unfold lift_act; cbn [mret Act_ret p_throw].
    + apply (Hsettle (sent ++ [da_id attempt])); [|by right]. eapply rtc_l; [exact Hclaim|]. apply rtc_once.
      by apply (h_answer _ _ (mkHandoffSys a1 (ths ++ [mkDispatcher attempt tok cid None]) (sent ++ [da_id attempt])) ths
        (mkDispatcher attempt tok cid None) [] d).
    + intros [= <- <-]. eapply (course_thrown _ _ _ _ _ _ _ _ attempt); [by apply rtc_once|done| |done|done].
      apply elem_of_app. right. by apply list_elem_of_singleton.
  - apply (Hsettle sent); [by apply rtc_once|by left].
Qed.

End Fate.
