(* ===== verification/DeliveryPorts.v ===== *)
(** * Outgoing HTTP calls

    Models the three ports that call external endpoints:
    [app/src/runtime/integration-handoff-dispatch-port.ts],
    [ops-notification-webhook-port.ts] and [sink-delivery-port.ts].  They share their
    loop, [post_with_redirects], and differ in the rules it is given.  The URL parser,
    [fetch] and the secret store are parameters: an answer of [fetch] may depend on
    all requests before it. *)

From stdpp Require Import base strings list.
From Stdlib Require Import Ascii ZArith Lia.
From S2P Require Import Prelude StateMachine JsValue JsText Database Leases ErrorCatalog ApiShared AuditLog ApiStore HandoffParse Handoffs.

(** What the code reads of a [URL]; [url_href] is its [toString()]. *)
Record Url := mkUrl {
  url_protocol : string;
  url_username : string;
  url_password : string;
  url_search : string;
  url_hash : string;
  url_hostname : string;
  url_href : string
}.

(** The end of a [fetch]: an answer, the abort of the timer, or another error. *)
Inductive FetchEnd :=
| fetched (status : Z) (header : string → option string)
| fetch_aborted
| fetch_failed.

(** [init] of a [fetch] with its URL; the method is POST and redirects are manual. *)
Record PortRequest := mkPortRequest { rq_url : Url; rq_headers : list (string * string); rq_body : string }.

(** ** The endpoint *)

Section Ports.
(** [new URL(text)], [new URL(text, base)] ([None]: it throws), [fetch], and
    [SecretStoreBoundary.resolveAuthorized] of the port's principal. *)
Context (newURL : string → option Url) (newURL_from : string → Url → option Url).
Context (fetch : list PortRequest → PortRequest → FetchEnd).
Context (maxRedirects : nat).

(** The denials of the three ports but for the prefix of the reason; a sink may have
    a query. *)
Definition endpointUrlDenial (prefix : string) (query_allowed : bool) (url : Url) : option string :=
  if negb (bool_decide (url_protocol url = "https:")) then Some (prefix +:+ "_endpoint_requires_https") else
  if negb (bool_decide (url_username url = "")) || negb (bool_decide (url_password url = ""))
  then Some (prefix +:+ "_endpoint_credentials_forbidden") else
  if negb query_allowed && negb (bool_decide (url_search url = "")) then Some (prefix +:+ "_endpoint_query_forbidden") else
  if negb (bool_decide (url_hash url = "")) then Some (prefix +:+ "_endpoint_fragment_forbidden") else
  if String.length (url_hostname url) =? 0 then Some (prefix +:+ "_endpoint_host_required") else None.

Definition hostDenial (prefix : string) (allowedHosts : list string) (url : Url) : option string :=
  let host := toLowerCase (url_hostname url) in
  if negb (string_in host allowedHosts) then Some (prefix +:+ "_host_not_allowed") else
  if bool_decide (host = "localhost") || ends_in ".localhost" host then Some (prefix +:+ "_localhost_forbidden") else
  if ip_chars host || str_includes ":" host then Some (prefix +:+ "_ip_literal_forbidden") else None.

(** [/^[A-Za-z0-9._:-]{1,max}$/]. *)
Definition reference_text (max : nat) (s : string) : bool :=
  (1 <=? String.length s) && (String.length s <=? max) &&
  string_forall (λ c, is_lower_char c || is_upper_char c || is_digit_char c || Ascii.eqb c "." || Ascii.eqb c "_" ||
                      Ascii.eqb c ":" || Ascii.eqb c "-") s.
Definition safe_reference (max : nat) (raw : option string) : option string :=
  match raw with
  | Some raw => let trimmed := trim raw in if reference_text max trimmed then Some trimmed else None
  | None => None
  end.
(** [get(a) ?? get(b)]. *)
Definition header_or (header : string → option string) (a b : string) : option string :=
  match header a with Some v => Some v | None => header b end.

(** ** The loop *)

(** What the loop of a port decides: [denied] takes the status that was answered, if
    there was one. *)
Record PortRules (D : Type) := mkRules {
  ru_hostDenial : Url → option string;
  ru_redirect : Url → string → result string Url;
  ru_prefix : string;
  ru_success : Z → (string → option string) → D;
  ru_denied : string → option Z → D;
  ru_answered : Z → D;
  ru_transient : string → D
}.
Arguments ru_hostDenial {D}. Arguments ru_redirect {D}. Arguments ru_prefix {D}. Arguments ru_success {D}.
Arguments ru_denied {D}. Arguments ru_answered {D}. Arguments ru_transient {D}.

(** [left] is [maxRedirects - redirectCount]; the requests are returned in order. *)
Fixpoint post_with_redirects {D} (rules : PortRules D) (headers : list (string * string)) (body : string)
    (left : nat) (current : Url) (made : list PortRequest) : list PortRequest * D :=
  match ru_hostDenial rules current with
  | Some reason => (made, ru_denied rules reason None)
  | None =>
      let request := mkPortRequest current headers body in
      let made' := made ++ [request] in
      match fetch made request with
      | fetch_aborted => (made', ru_transient rules (ru_prefix rules +:+ "_timeout"))
      | fetch_failed => (made', ru_transient rules (ru_prefix rules +:+ "_network_error"))
      | fetched status header =>
          if (200 <=? status)%Z && (status <? 300)%Z then (made', ru_success rules status header) else
          if (300 <=? status)%Z && (status <? 400)%Z then
            match header "location" with
            | None | Some EmptyString => (made', ru_denied rules (ru_prefix rules +:+ "_redirect_missing_location") (Some status))
            | Some location =>
                match left with
                | O => (made', ru_denied rules (ru_prefix rules +:+ "_redirect_limit") (Some status))
                | S left' =>
                    match ru_redirect rules current location with
                    | Err reason => (made', ru_denied rules reason (Some status))
                    | Ok redirected => post_with_redirects rules headers body left' redirected made'
                    end
                end
            end
          else (made', ru_answered rules status)
      end
  end.

(** ** Integration handoffs *)

Definition parseProviderEndpoint (secret : string) : option Url :=
  match newURL secret with
  | None => None
  | Some url => match endpointUrlDenial "handoff" false url with Some _ => None | None => Some url end
  end.
(** [parseRedirectLocation] of the handoffs and the notifications. *)
Definition parseRedirectLocation (prefix : string) (current : Url) (location : string) : result string Url :=
  match newURL_from location current with
  | None => Err (prefix +:+ "_redirect_invalid")
  | Some url => match endpointUrlDenial prefix false url with Some _ => Err (prefix +:+ "_redirect_invalid") | None => Ok url end
  end.

Definition retryable (status : Z) : bool := (status =? 429)%Z || (500 <=? status)%Z.

Definition handoff_rules (allowedHosts : list string) (attemptId : string) : PortRules IntegrationHandoffDispatchDecision :=
  mkRules _ (hostDenial "handoff" allowedHosts) (parseRedirectLocation "handoff") "handoff"
    (λ status header, dd_accepted
       (default ("dispatch:" +:+ attemptId) (safe_reference 180 (header_or header "x-rpa-receipt-id" "x-request-id"))) status
       (safe_reference 200 (header_or header "x-rpa-external-job-id" "x-provider-job-id")))
    (λ reason status, dd_permanent_failed reason status)
    (λ status, (if retryable status then dd_transient_failed else dd_permanent_failed) ("handoff_http_" +:+ dec status) (Some status))
    (λ reason, dd_transient_failed reason None).

(** The requests made, and the decision or the exception of the secret store. *)
Definition handoff_dispatch (resolve : string → string → result ApiExn string) (input : IntegrationHandoffDispatchRequest)
  : list PortRequest * result ApiExn IntegrationHandoffDispatchDecision :=
  match resolve (dq_endpointSecretRef input) (dq_providerAlias input) with
  | Err e => ([], Err e)
  | Ok rawEndpoint =>
      match parseProviderEndpoint rawEndpoint with
      | None => ([], Ok (dd_permanent_failed "handoff_endpoint_invalid" None))
      | Some endpoint =>
          let allowedHosts := map toLowerCase (dq_allowedHosts input) in
          match hostDenial "handoff" allowedHosts endpoint with
          | Some reason => ([], Ok (dd_permanent_failed reason None))
          | None =>
              let headers := [("content-type", "application/json"); ("x-rpa-integration-handoff-id", dq_handoffId input);
                              ("x-rpa-integration-attempt-id", dq_attemptId input);
                              ("x-rpa-provider-alias", dq_providerAlias input)] in
              let '(made, decision) := post_with_redirects (handoff_rules allowedHosts (dq_attemptId input)) headers
                                         (json_text (dq_payload input)) maxRedirects endpoint [] in
              (made, Ok decision)
          end
      end
  end.

(** ** Notifications *)

Inductive OpsNotificationDeliveryDecision :=
| nd_sent (receiptId : string) (providerStatusCode : Z)
| nd_transient_failed (reason : string) (providerStatusCode : option Z)
| nd_permanent_failed (reason : string) (providerStatusCode : option Z).

Record OpsNotificationDeliveryRequest := mkNotificationRequest {
  nq_attemptId : string;
  nq_alertId : string;
  nq_endpointSecretRef : string;
  nq_routePolicyRef : string;
  nq_allowedHosts : list string;
  nq_payload : json
}.

Definition parseWebhookEndpoint (secret : string) : option Url :=
  match newURL secret with
  | None => None
  | Some url => match endpointUrlDenial "webhook" false url with Some _ => None | None => Some url end
  end.

Definition webhook_rules (allowedHosts : list string) (attemptId : string) : PortRules OpsNotificationDeliveryDecision :=
  mkRules _ (hostDenial "webhook" allowedHosts) (parseRedirectLocation "webhook") "webhook"
    (λ status header, nd_sent
       (default ("webhook:" +:+ attemptId) (safe_reference 180 (header_or header "x-rpa-receipt-id" "x-request-id"))) status)
    (λ reason status, nd_permanent_failed reason status)
    (λ status, (if retryable status then nd_transient_failed else nd_permanent_failed) ("webhook_http_" +:+ dec status) (Some status))
    (λ reason, nd_transient_failed reason None).

Definition webhook_deliver (resolve : string → string → result ApiExn string) (input : OpsNotificationDeliveryRequest)
  : list PortRequest * result ApiExn OpsNotificationDeliveryDecision :=
  match resolve (nq_endpointSecretRef input) (nq_routePolicyRef input) with
  | Err e => ([], Err e)
  | Ok rawEndpoint =>
      match parseWebhookEndpoint rawEndpoint with
      | None => ([], Ok (nd_permanent_failed "webhook_endpoint_invalid" None))
      | Some endpoint =>
          let allowedHosts := map toLowerCase (nq_allowedHosts input) in
          match hostDenial "webhook" allowedHosts endpoint with
          | Some reason => ([], Ok (nd_permanent_failed reason None))
          | None =>
              let headers := [("content-type", "application/json"); ("x-rpa-alert-id", nq_alertId input);
                              ("x-rpa-attempt-id", nq_attemptId input); ("x-rpa-route-policy-ref", nq_routePolicyRef input)] in
              let '(made, decision) := post_with_redirects (webhook_rules allowedHosts (nq_attemptId input)) headers
                                         (json_text (nq_payload input)) maxRedirects endpoint [] in
              (made, Ok decision)
          end
      end
  end.

(** ** Sinks *)

Inductive SinkDeliveryDecision :=
| sk_delivered (receiptRef : option string)
| sk_transient_failed (reason : string).

Record SinkDeliveryRequest := mkSinkRequest {
  sq_tenantId : string;
  sq_correlationId : string;
  sq_sinkConfigId : string;
  sq_sinkIdempotencyKey : string;
  sq_normalizedRecordId : string;
  sq_schemaRef : string;
  sq_naturalKey : string;
  sq_record : json;
  sq_attemptNo : Z
}.

Definition parseSinkEndpoint (secret : string) : result string Url :=
  match newURL secret with
  | None => Err "sink_endpoint_invalid"
  | Some url => match endpointUrlDenial "sink" true url with Some reason => Err reason | None => Ok url end
  end.
Definition sink_redirect (current : Url) (location : string) : result string Url :=
  match newURL_from location current with
  | None => Err "sink_redirect_invalid"
  | Some url => match endpointUrlDenial "sink" true url with Some reason => Err reason | None => Ok url end
  end.

Definition sink_rules (allowedHosts : list string) (normalizedRecordId : string) (attemptNo : Z) : PortRules SinkDeliveryDecision :=
  mkRules _ (hostDenial "sink" allowedHosts) sink_redirect "sink"
    (λ _ header, sk_delivered (Some (default ("sink:" +:+ normalizedRecordId +:+ ":" +:+ dec attemptNo)
       (safe_reference 180 (header_or header "x-rpa-receipt-id" "x-request-id")))))
    (λ reason _, sk_transient_failed reason)
    (λ status, sk_transient_failed ("sink_http_" +:+ dec status))
    sk_transient_failed.

(** [endpointSecretRef] and [allowedHosts] are options of the port. *)
Definition sink_deliver (resolve : string → string → result ApiExn string) (endpointSecretRef : string) (optionHosts : list string)
    (input : SinkDeliveryRequest) : list PortRequest * SinkDeliveryDecision :=
  match resolve endpointSecretRef (sq_sinkConfigId input) with
  | Err _ => ([], sk_transient_failed "sink_secret_resolve_failed")
  | Ok rawEndpoint =>
      match parseSinkEndpoint rawEndpoint with
      | Err reason => ([], sk_transient_failed reason)
      | Ok endpoint =>
          let allowedHosts := map toLowerCase optionHosts in
          match hostDenial "sink" allowedHosts endpoint with
          | Some reason => ([], sk_transient_failed reason)
          | None =>
              let body := JObj [("schema", JStr "sink-delivery@1"); ("tenant_id", JStr (sq_tenantId input));
                ("correlation_id", JStr (sq_correlationId input)); ("sink_config_id", JStr (sq_sinkConfigId input));
                ("normalized_record_id", JStr (sq_normalizedRecordId input)); ("schema_ref", JStr (sq_schemaRef input));
                ("natural_key", JStr (sq_naturalKey input)); ("record", sq_record input);
                ("attempt_no", JNum (num_of_Z (sq_attemptNo input)))] in
              let headers := [("content-type", "application/json"); ("idempotency-key", sq_sinkIdempotencyKey input);
                ("x-rpa-sink-config-id", sq_sinkConfigId input); ("x-rpa-normalized-record-id", sq_normalizedRecordId input);
                ("x-rpa-correlation-id", sq_correlationId input)] in
              post_with_redirects (sink_rules allowedHosts (sq_normalizedRecordId input) (sq_attemptNo input)) headers
                (json_text body) maxRedirects endpoint []
          end
      end
  end.

(** ** Where requests go *)

(** What holds of every URL that is requested, by what the endpoint's own text says
    and by the hosts that the caller allows. *)
Definition clean_url (query_allowed : bool) (url : Url) : Prop :=
  url_protocol url = "https:" ∧ url_username url = "" ∧ url_password url = "" ∧ url_hash url = "" ∧
  (query_allowed = false → url_search url = "").
Definition allowed_host (allowedHosts : list string) (url : Url) : Prop :=
  let host := toLowerCase (url_hostname url) in
  host ∈ map toLowerCase allowedHosts ∧ host ≠ "localhost" ∧ ends_in ".localhost" host = false ∧
  ip_chars host = false ∧ str_includes ":" host = false.

Lemma endpoint_clean prefix query url : endpointUrlDenial prefix query url = None → clean_url query url.
Proof.
  unfold endpointUrlDenial. destruct (bool_decide (url_protocol url = "https:")) eqn:E1; [|done].
  destruct (bool_decide (url_username url = "")) eqn:E2; [|done]. destruct (bool_decide (url_password url = "")) eqn:E3; [|done].
  simpl. destruct (negb query && _) eqn:E4; [done|]. destruct (bool_decide (url_hash url = "")) eqn:E5; [|done]. simpl.
  intros _. apply bool_decide_eq_true in E1, E2, E3, E5. repeat split; [done..|]. intros ->. simpl in E4.
  by apply negb_false_iff, bool_decide_eq_true in E4.
Qed.

Lemma host_allowed prefix hosts url : hostDenial prefix (map toLowerCase hosts) url = None → allowed_host hosts url.
Proof.
  unfold hostDenial, allowed_host. destruct (string_in _ _) eqn:E1; [|done]. simpl.
  destruct (_ || _) eqn:E2; [done|]. apply orb_false_iff in E2 as [E2 E3]. destruct (ip_chars _ || _) eqn:E4; [done|]. apply orb_false_iff in E4 as [E4 E5].
  intros _. split; [|by apply bool_decide_eq_false in E2].
  by apply bool_decide_eq_true in E1.
Qed.

Section Loop.
Context {D : Type} (rules : PortRules D) (hosts : list string) (query : bool) (headers : list (string * string)) (body : string).
Context (Hhost : ∀ url, ru_hostDenial rules url = None → allowed_host hosts url).
Context (Hredirect : ∀ current location url, ru_redirect rules current location = Ok url → clean_url query url).

Definition confined (r : PortRequest) : Prop :=
  clean_url query (rq_url r) ∧ allowed_host hosts (rq_url r) ∧ rq_headers r = headers ∧ rq_body r = body.

Lemma post_confined left current made : clean_url query current → Forall confined made →
  Forall confined (post_with_redirects rules headers body left current made).1 ∧
  length (post_with_redirects rules headers body left current made).1 ≤ length made + S left.
Proof.
  revert current made. induction left as [|left IH]; intros current made Hc Hm; simpl;
    destruct (ru_hostDenial rules current) as [reason|] eqn:Ed; simpl; [split; [done|lia]| |split; [done|lia]|].
  all: assert (Hm' : Forall confined (made ++ [mkPortRequest current headers body]))
         by (apply Forall_app; split; [done|]; apply Forall_singleton; split; [done|]; split; [by apply Hhost|done]).
  all: destruct (fetch _ _) as [status header| |]; [|split; [exact Hm'|simpl; rewrite length_app; simpl; lia]..].
  all: destruct (_ && _); [split; [exact Hm'|simpl; rewrite length_app; simpl; lia]|].
  all: destruct (_ && _); [|split; [exact Hm'|simpl; rewrite length_app; simpl; lia]].
  all: destruct (header "location") as [[|c location]|]; simpl; try (split; [exact Hm'|simpl; rewrite length_app; simpl; lia]).
  destruct (ru_redirect _ _ _) as [url|e] eqn:Er; simpl; [|split; [exact Hm'|rewrite length_app; simpl; lia]].
  destruct (IH url _ (Hredirect _ _ _ Er) Hm') as [H1 H2]. split; [done|]. rewrite length_app in H2. simpl in H2. lia.
Qed.

(** A property of decisions that every way out has. *)
Lemma post_decides (P : D → Prop) left current made :
  (∀ status header, (200 <= status < 300)%Z → P (ru_success rules status header)) →
  (∀ reason status, match status with Some c => 300 <= c < 400 | None => True end%Z → P (ru_denied rules reason status)) →
  (∀ made request status header, fetch made request = fetched status header → P (ru_answered rules status)) →
  (∀ reason, P (ru_transient rules reason)) →
  P (post_with_redirects rules headers body left current made).2.
Proof.
  intros H1 H2 H3 H4. revert current made. induction left as [|left IH]; intros current made; simpl;
    (destruct (ru_hostDenial rules current) as [reason|]; simpl; [by apply H2|]);
    (destruct (fetch _ _) as [status header| |] eqn:Ef; simpl; [|by apply H4..]);
    (destruct (Z.leb_spec 200 status), (Z.ltb_spec status 300); simpl; try (apply H1; lia));
    (destruct (Z.leb_spec 300 status), (Z.ltb_spec status 400); simpl; try lia; try (by eapply H3));
    (destruct (header "location") as [[|c location]|]; simpl; try (apply H2; lia)).
  destruct (ru_redirect _ _ _); simpl; [apply IH|apply H2; lia].
Qed.
End Loop.

Lemma redirect_clean prefix current location url : parseRedirectLocation prefix current location = Ok url → clean_url false url.
Proof.
  unfold parseRedirectLocation. destruct (newURL_from _ _) as [u|]; [|done]. destruct (endpointUrlDenial _ _ _) eqn:E; [done|].
  intros [= <-]. by eapply endpoint_clean.
Qed.
Lemma sink_redirect_clean current location url : sink_redirect current location = Ok url → clean_url true url.
Proof.
  unfold sink_redirect. destruct (newURL_from _ _) as [u|]; [|done]. destruct (endpointUrlDenial _ _ _) eqn:E; [done|].
  intros [= <-]. by eapply endpoint_clean.
Qed.

(** C13. None of the three ports ever sends a request anywhere but over https, without
    credentials in the URL, to a host that was allowed by name (never localhost, an
    address or a port-like host), redirects included; each sends at most one request
    more than the redirects it allows, every one with the same headers and body, and
    none when the secret does not resolve. *)
Theorem delivery_ports_confined resolve :
  (∀ input, Forall (λ r, clean_url false (rq_url r) ∧ allowed_host (dq_allowedHosts input) (rq_url r) ∧
                         rq_body r = json_text (dq_payload input)) (handoff_dispatch resolve input).1 ∧
     length (handoff_dispatch resolve input).1 ≤ S maxRedirects) ∧
  (∀ input, Forall (λ r, clean_url false (rq_url r) ∧ allowed_host (nq_allowedHosts input) (rq_url r) ∧
                         rq_body r = json_text (nq_payload input)) (webhook_deliver resolve input).1 ∧
     length (webhook_deliver resolve input).1 ≤ S maxRedirects) ∧
  (∀ ref hosts input, Forall (λ r, clean_url true (rq_url r) ∧ allowed_host hosts (rq_url r) ∧
                         alookup "idempotency-key" (rq_headers r) = Some (sq_sinkIdempotencyKey input))
       (sink_deliver resolve ref hosts input).1 ∧
     length (sink_deliver resolve ref hosts input).1 ≤ S maxRedirects).
Proof.
  assert (Hnone : ∀ P : PortRequest → Prop, Forall P [] ∧ length ([] : list PortRequest) ≤ S maxRedirects)
    by (intros P; split; [by apply Forall_nil|simpl; lia]).
  split; [|split].
  - intros input. unfold handoff_dispatch, parseProviderEndpoint. destruct (resolve _ _) as [raw|]; [|apply Hnone].
    destruct (newURL raw) as [url|]; [|apply Hnone]. destruct (endpointUrlDenial _ _ _) eqn:Ee; [apply Hnone|].
    destruct (hostDenial _ _ _); [apply Hnone|].
    match goal with |- context [post_with_redirects ?r ?h _ _ _ _] => set (rules := r); set (headers := h) end.
    destruct (post_confined rules (dq_allowedHosts input) false headers (json_text (dq_payload input))
      (host_allowed "handoff" (dq_allowedHosts input)) (redirect_clean "handoff") maxRedirects url []
      (endpoint_clean _ _ _ Ee) (Forall_nil_2 _)) as [H1 H2].
    destruct (post_with_redirects _ _ _ _ _ _) as [made d]. split; [|exact H2]. eapply Forall_impl; [exact H1|].
    intros r (? & ? & _ & ?). done.
  - intros input. unfold webhook_deliver, parseWebhookEndpoint. destruct (resolve _ _) as [raw|]; [|apply Hnone].
    destruct (newURL raw) as [url|]; [|apply Hnone]. destruct (endpointUrlDenial _ _ _) eqn:Ee; [apply Hnone|].
    destruct (hostDenial _ _ _); [apply Hnone|].
    match goal with |- context [post_with_redirects ?r ?h _ _ _ _] => set (rules := r); set (headers := h) end.
    destruct (post_confined rules (nq_allowedHosts input) false headers (json_text (nq_payload input))
      (host_allowed "webhook" (nq_allowedHosts input)) (redirect_clean "webhook") maxRedirects url []
      (endpoint_clean _ _ _ Ee) (Forall_nil_2 _)) as [H1 H2].
    destruct (post_with_redirects _ _ _ _ _ _) as [made d]. split; [|exact H2]. eapply Forall_impl; [exact H1|].
    intros r (? & ? & _ & ?). done.
  - intros ref hosts input. unfold sink_deliver, parseSinkEndpoint. destruct (resolve _ _) as [raw|]; [|apply Hnone].
    destruct (newURL raw) as [url|]; [|apply Hnone]. destruct (endpointUrlDenial _ _ _) eqn:Ee; [apply Hnone|].
    destruct (hostDenial _ _ _); [apply Hnone|].
    match goal with |- context [post_with_redirects ?r ?h ?b _ _ _] => set (rules := r); set (headers := h); set (body := b) end.
    destruct (post_confined rules hosts true headers body (host_allowed "sink" hosts) sink_redirect_clean maxRedirects url []
      (endpoint_clean _ _ _ Ee) (Forall_nil_2 _)) as [H1 H2].
    split; [|exact H2]. eapply Forall_impl; [exact H1|]. intros r (? & ? & E & _). split; [done|]. split; [done|]. by rewrite E.
Qed.
End Ports.
