(* ===== verification/HandoffJobs.v ===== *)
(** * The dispatch job, from the worker to the provider

    Models [handleIntegrationHandoffDispatch] of
    [app/src/worker/runtime-worker-delivery.ts] and composes [Handoffs] with the port
    of [DeliveryPorts]: what a job leaves when the secret resolves, and when it does
    not.  Module [HandoffSample] is a concrete tenant. *)

From stdpp Require Import base strings list gmap pretty sets.
From Stdlib Require Import ZArith Lia Ascii.
From S2P Require Import Prelude StateMachine JsValue RuntimeStore JsText Schedule Database Sweepers Leases ErrorCatalog ApiShared AuditLog ApiStore Webhooks TriggerCommandProps HandoffParse Handoffs HandoffProps HandoffFate DeliveryPorts.

(** ** The handler *)

(** The options of the worker that the handler reads; the port with the kind of its
    binding ([test_fake]). *)
Record HandoffWorkerOptions := mkHandoffOptions {
  ho_port : option (bool * (IntegrationHandoffDispatchRequest → result ApiExn IntegrationHandoffDispatchDecision));
  ho_allowTestPort : bool;
  ho_enqueuer : bool;
  ho_maxAttempts : option Z;
  ho_retryAfterMs : option Z
}.
Definition INTEGRATION_HANDOFF_DISPATCH_MAX_ATTEMPTS_DEFAULT : Z := 3.
Definition INTEGRATION_HANDOFF_DISPATCH_RETRY_AFTER_MS_DEFAULT : Z := 5000.

Definition required (value : option string) (label : string) : Act string :=
  match value with
  | Some s => if blank s then p_throw (AE_error ("RuntimeWorker: " +:+ label +:+ " is required")) else mret s
  | None => p_throw (AE_error ("RuntimeWorker: " +:+ label +:+ " is required"))
  end.

Definition handleIntegrationHandoffDispatch (uuid : nat → string) (options : HandoffWorkerOptions)
    (tenantId correlationId attemptId : option string) : Act JobResult :=
  _ ← required tenantId "integration_handoff_dispatch.tenantId";
  correlationId ← required correlationId "integration_handoff_dispatch.correlationId";
  attemptId ← required attemptId "integration_handoff_dispatch.integrationHandoff.attemptId";
  match ho_port options with
  | None => p_throw (AE_error "RuntimeWorker: integration_handoff_dispatch requires an injected IntegrationHandoffDispatchPort (fail-closed)")
  | Some (fake, port) =>
      if fake && negb (ho_allowTestPort options)
      then p_throw (AE_error "RuntimeWorker: test_fake integration handoff dispatch port requires explicit allowTestIntegrationHandoffDispatchPort opt-in") else
      if negb (ho_enqueuer options)
      then p_throw (AE_error "RuntimeWorker: integration_handoff_dispatch requires runtimeJobEnqueuer for retry scheduling") else
      _ ← dispatchIntegrationHandoffAttempt uuid port
            (default INTEGRATION_HANDOFF_DISPATCH_MAX_ATTEMPTS_DEFAULT (ho_maxAttempts options))
            (default INTEGRATION_HANDOFF_DISPATCH_RETRY_AFTER_MS_DEFAULT (ho_retryAfterMs options)) attemptId correlationId;
      mret (completed [])
  end.

(** ** The port's decisions fit *)

Section Jobs.
Context (newURL : string → option Url) (newURL_from : string → Url → option Url).
Context (fetch : list PortRequest → PortRequest → FetchEnd) (maxRedirects : nat).
(** A status is a number of HTTP. *)
Context (fetch_status : ∀ made request status header, fetch made request = fetched status header → (100 <= status <= 599)%Z).
Context (resolve : string → string → result ApiExn string).

Lemma reference_fits max n raw s : max ≤ n → safe_reference max raw = Some s → fits n (Some s) = true.
Proof.
  intros Hm. unfold safe_reference, reference_text. destruct raw as [r|]; [|done]. destruct (_ && _) eqn:E; [|done].
  intros [= <-]. rewrite !andb_true_iff in E. destruct E as [[_ E] _]. apply Nat.leb_le in E. apply Nat.leb_le. lia.
Qed.

Lemma string_length_app a b : String.length (a +:+ b) = String.length a + String.length b.
Proof. induction a as [|c a IH]; simpl; [done|]. by rewrite IH. Qed.

Lemma handoff_decision_fits input d : String.length (dq_attemptId input) ≤ 190 →
  (handoff_dispatch newURL newURL_from fetch maxRedirects resolve input).2 = Ok d → decision_fits d = true.
Proof.
  intros Hid. unfold handoff_dispatch. destruct (resolve _ _) as [raw|e]; [|done].
  destruct (parseProviderEndpoint _ _) as [url|]; [|by intros [= <-]]. destruct (hostDenial _ _ _); [by intros [= <-]|].
  match goal with |- context [post_with_redirects _ ?r ?h ?b ?m ?u ?l] => set (rules := r); set (headers := h); set (body := b) end.
  assert (H := post_decides fetch rules headers body (λ d, decision_fits d = true) maxRedirects url []).
  destruct (post_with_redirects _ _ _ _ _ _ _) as [made d']. intros [= <-]. apply H.
  - intros status header Hs. unfold rules, handoff_rules. simpl ru_success. unfold decision_fits. rewrite !andb_true_iff. split; [split|].
    + destruct (safe_reference 180 _) as [s|] eqn:Es; simpl default; [by eapply reference_fits; [|done]; lia|].
      apply Nat.leb_le. rewrite string_length_app. simpl. lia.
    + simpl. apply andb_true_iff. split; apply Z.leb_le; lia.
    + destruct (safe_reference 200 _) as [s|] eqn:Es; [by eapply reference_fits; [|done]; lia|done].
  - intros reason [c|] Hs; simpl; [|done]. apply andb_true_iff. split; apply Z.leb_le; lia.
  - intros made' request status header Hf%fetch_status. simpl. unfold code_fits.
    destruct (retryable status); simpl; apply andb_true_iff; split; apply Z.leb_le; lia.
  - done.
Qed.

(** ** A job *)

Context (tenantId : string) (uuid : nat → string) (uuid_inj : ∀ m n, uuid m = uuid n → m = n).

(** What a job leaves of the attempt [id]. *)
Definition job_outcome (id : string) (a : Api) (out : IntegrationHandoffDispatchOutcome) : Prop :=
  match out with
  | out_already_completed => True
  | out_accepted => ∃ q, q ∈ attempt_rows a ∧ da_id q = id ∧ da_status q = attempt_accepted
  | out_dead_letter => ∃ q, q ∈ attempt_rows a ∧ da_id q = id ∧ da_status q = attempt_dead_letter ∧
      ∃ h, h ∈ handoff_rows a ∧ hf_id h = da_handoff_id q ∧ hf_status h = handoff_failed
  | out_failed next => ∃ q n, q ∈ attempt_rows a ∧ da_id q = id ∧ da_status q = attempt_failed ∧
      n ∈ attempt_rows a ∧ da_id n = next ∧ after_attempt q n ∧ da_status n = attempt_pending ∧ job_queued a n
  end.

Lemma job_outcome_settled s1 l1 l2 th d retryAfterMs : hreach tenantId uuid s1 → hy_threads s1 = l1 ++ th :: l2 →
  decision_fits d = true →
  let c := commit (settle_attempt uuid retryAfterMs (th_correlationId th) (th_attempt th) (th_token th) d) (hy_api s1) in
  ∃ out, c.2 = Ok out ∧ job_outcome (da_id (th_attempt th)) c.1 out.
Proof.
  intros Hr E Hfits c.
  destruct (decided_attempt_settles tenantId uuid uuid_inj s1 l1 th l2 d retryAfterMs Hr E Hfits)
    as (a' & out & r & max & q & Ec & Hrr & Ect & Hq & Eq & Ek & Est & _ & Hrest).
  unfold c. rewrite Ec. exists out. split; [done|]. assert (Eid : da_id q = da_id (th_attempt th)) by (by rewrite Eq, Ect).
  unfold decided_status in Est, Hrest. destruct d as [rid code ext|reason code|reason code]; simpl in Est, Hrest.
  - destruct Hrest as [-> _]. by exists q.
  - destruct (da_max_attempts _ <=? _)%Z; simpl in Est, Hrest.
    + destruct Hrest as [-> (h & Hh & Eh & Esh & _)]. exists q. do 3 (split; [done|]). by exists h.
    + destruct Hrest as (n & -> & Hn & Ha & Hp & _ & Hj). by exists q, n.
  - destruct Hrest as [-> (h & Hh & Eh & Esh & _)]. exists q. do 3 (split; [done|]). by exists h.
Qed.

End Jobs.

(** ** Handoffs on a concrete tenant

    The theorems on handoffs at a tenant with one handoff whose first attempt has been
    claimed, and two courses of events in which the provider and the tables
    disagree. *)

Module HandoffSample.
Definition uuid : nat → string := TriggerSample.uuid.
Definition handoff_input : IntegrationHandoffCreateInput := mkCreateHandoff "erp" "job-1" "ref-1" None None false.
Definition dispatch_body : option json :=
  Some (JObj [("endpoint_secret_ref", JStr "secret://erp/endpoint"); ("allowed_hosts", JArr [JStr "erp.example.com"]);
              ("max_attempts", JNum (num_of_Z 2))]).
Definition dispatch_input : IntegrationHandoffDispatchInput := mkDispatch "secret://erp/endpoint" ["erp.example.com"] 2 [] false.
Definition empty : Api := TriggerSample.api [].
Definition created : Api := (commit (insertIntegrationHandoff uuid "op" "k0" handoff_input) empty).1.
Definition handoff : IntegrationHandoffRow :=
  default (mkHandoff "" "" "" "" None None "" handoff_deferred None None None "" None 0 0 false) (head (handoff_rows created)).
Definition dispatched : Api := (commit (dispatch_write "t" uuid handoff "op" (Some "k1") "c" dispatch_input) created).1.
Definition claimed : Api := (commit (claim_attempt "id1" (uuid (a_ids dispatched)) 3) (use_api_id dispatched)).1.
Definition attempt : DispatchAttemptRow :=
  default (first_attempt "t" "" handoff "" "" dispatch_input 0) (head (attempt_rows claimed)).
Definition thread : Dispatcher := mkDispatcher (capped 3 attempt) "id2" "c" None.
Definition sending : HandoffSys := mkHandoffSys claimed [thread] ["id1"].
(** A second attempt of the thread's job. *)
Definition second : HandoffSys :=
  mkHandoffSys (commit (settle_attempt uuid 1000 "c" (th_attempt thread) "id2" (dd_transient_failed "timeout" None)) claimed).1 [] ["id1"].

Lemma dispatched_reachable : hreach "t" uuid (mkHandoffSys dispatched [] []).
Proof.
  assert (H1 : hreach "t" uuid (mkHandoffSys created [] [])).
  { refine (hr_step _ _ _ _ (hr_start _ _ empty eq_refl) _). apply (h_create "t" uuid (mkHandoffSys empty [] []) "op" "k0" handoff_input). }
  refine (hr_step _ _ _ _ H1 _).
  apply (h_dispatch "t" uuid (mkHandoffSys created [] []) handoff "op" (Some "k1") "c" dispatch_body dispatch_input).
  - exists handoff. split; [|done]. vm_compute. by left.
  - vm_compute. reflexivity.
Qed.

Lemma sending_reachable : hreach "t" uuid sending.
Proof.
  refine (hr_step _ _ _ _ dispatched_reachable _).
  exact (h_claim "t" uuid (mkHandoffSys dispatched [] []) "id1" 3 "c" claimed (Some (th_attempt thread)) ltac:(vm_compute; reflexivity)).
Qed.

Lemma second_reachable : hreach "t" uuid second.
Proof.
  assert (H := h_answer "t" uuid sending [] thread [] (dd_transient_failed "timeout" None) eq_refl eq_refl).
  refine (hr_step _ _ _ _ (hr_step _ _ _ _ sending_reachable H) _).
  exact (h_settle "t" uuid (mkHandoffSys claimed [mkDispatcher (th_attempt thread) "id2" "c" (Some (dd_transient_failed "timeout" None))] ["id1"])
    [] _ [] (dd_transient_failed "timeout" None) 1000 eq_refl eq_refl).
Qed.

(** The provider calls back with the outcome before the dispatcher has recorded the
    acceptance. *)
Definition callback : IntegrationHandoffCallbackInput := mkCallback "ext-9" handoff_completed "receipt-9" None false.
Definition called_back_first : Api := (commit (recordIntegrationHandoffReceipt uuid "id0" "erp" callback None) claimed).1.

(** An endpoint that redirects once and then accepts, a URL parser that knows these
    two, and a store with the secret of the endpoint, or without it. *)
Definition endpoint (path : string) : Url := mkUrl "https:" "" "" "" "" "erp.example.com" ("https://erp.example.com" +:+ path).
Definition newURL (s : string) : option Url := if decide (s = "https://erp.example.com/in") then Some (endpoint "/in") else None.
Definition newURL_from (s : string) (_ : Url) : option Url :=
  if decide (s = "/v2") then Some (endpoint "/v2") else
  if decide (s = "http://10.0.0.1/") then Some (mkUrl "http:" "" "" "" "" "10.0.0.1" s) else None.
Definition fetch (made : list PortRequest) (_ : PortRequest) : FetchEnd :=
  match made with
  | [] => fetched 307 (λ h, if decide (h = "location") then Some "/v2" else None)
  | _ => fetched 202 (λ h, if decide (h = "x-rpa-external-job-id") then Some " job-77 " else None)
  end.
Definition resolve (_ _ : string) : result ApiExn string := Ok "https://erp.example.com/in".
Definition locked (_ _ : string) : result ApiExn string := Err (AE_error "secret store unavailable").
Definition port (resolve : string → string → result ApiExn string) (q : IntegrationHandoffDispatchRequest)
  : result ApiExn IntegrationHandoffDispatchDecision := (handoff_dispatch newURL newURL_from fetch 3 resolve q).2.

Lemma fetch_status made request status header : fetch made request = fetched status header → (100 <= status <= 599)%Z.
Proof. destruct made; intros [= <- _]; lia. Qed.
End HandoffSample.

(** The job of the first attempt, as the worker runs it. *)
Example job_accepted :
  let r := handleIntegrationHandoffDispatch HandoffSample.uuid
             (mkHandoffOptions (Some (false, HandoffSample.port HandoffSample.resolve)) false true None None)
             (Some "t") (Some "c") (Some "id1") (mkApiWorld HandoffSample.dispatched []) in
  r.2 = Ok (completed []) ∧
  map (λ h, (hf_status h, hf_external_job_id h, hf_latest_receipt_id h)) (handoff_rows (aw_api r.1)) =
    [(handoff_accepted, Some "job-77", Some "dispatch:id1")].
Proof. split; vm_compute; reflexivity. Qed.

(** A redirect to an address over http is not followed. *)
Example redirect_refused :
  let fetch := λ (made : list PortRequest) (_ : PortRequest),
    fetched 302 (λ h, if decide (h = "location") then Some "http://10.0.0.1/" else None) in
  let r := handoff_dispatch HandoffSample.newURL HandoffSample.newURL_from fetch 3 HandoffSample.resolve
             (dispatch_request "c" HandoffSample.attempt) in
  length r.1 = 1 ∧ r.2 = Ok (dd_permanent_failed "handoff_redirect_invalid" (Some 302%Z)).
Proof. split; vm_compute; reflexivity. Qed.

(** The secret store is down when the job runs: the job fails, its retry finds nothing
    to claim and completes, and the attempt is [sending] for good. *)
Theorem unresolved_secret_strands_attempt :
  let job port w := handleIntegrationHandoffDispatch HandoffSample.uuid (mkHandoffOptions (Some (false, port)) false true None None)
                      (Some "t") (Some "c") (Some "id1") w in
  let first := job (HandoffSample.port HandoffSample.locked) (mkApiWorld HandoffSample.dispatched []) in
  let retry := job (HandoffSample.port HandoffSample.resolve) first.1 in
  first.2 = Err (AE_error "secret store unavailable") ∧ retry.2 = Ok (completed []) ∧
  map da_status (attempt_rows (aw_api retry.1)) = [attempt_sending] ∧
  map hf_status (handoff_rows (aw_api retry.1)) = [handoff_deferred].
Proof. repeat split; vm_compute; reflexivity. Qed.

(** A callback that says [completed] and the acceptance of the call that it answers, in
    either order: the later one wins, so a handoff whose provider has finished is
    [accepted] for good, its job id lost. *)
Theorem acceptance_overwrites_callback :
  map (λ h, (hf_status h, hf_external_job_id h, hf_latest_receipt_id h)) (handoff_rows HandoffSample.called_back_first) =
    [(handoff_completed, Some "ext-9", Some "receipt-9")] ∧
  ∃ a, commit (settle_attempt HandoffSample.uuid 1000 "c" (th_attempt HandoffSample.thread) "id2" (dd_accepted "http-202" 202 None))
         HandoffSample.called_back_first = (a, Ok out_accepted) ∧
    map (λ h, (hf_status h, hf_external_job_id h, hf_latest_receipt_id h)) (handoff_rows a) =
      [(handoff_accepted, None, Some "http-202")].
Proof. split; [vm_compute; reflexivity|]. eexists. split; vm_compute; reflexivity. Qed.

(** A second dispatch of a handoff whose attempt is under way, under another
    idempotency key: the handoff is still [deferred], so that a second chain of
    attempts starts and the provider is called for both. *)
Theorem handoff_dispatched_twice :
  ∃ a r attempt, commit (h ← dispatch_read "id0"; dispatch_write "t" HandoffSample.uuid h "op" (Some "k2") "c" HandoffSample.dispatch_input)
      HandoffSample.claimed = (a, Ok r) ∧ cp_status r = 202%Z ∧
    commit (claim_attempt "id3" "id4" 3) (use_api_id a) = (attempt.1, Ok (Some attempt.2)) ∧
    map (λ r, (da_handoff_id r, da_status r)) (attempt_rows attempt.1) = [("id0", attempt_sending); ("id0", attempt_sending)].
Proof. eexists _, _, (_, _). split; [vm_compute; reflexivity|]. split; [done|]. split; vm_compute; reflexivity. Qed.

Lemma handoff_dispatch_orderly_witness :
  hy_sent HandoffSample.second = ["id1"] ∧
  ∀ r, r ∈ attempt_rows (hy_api HandoffSample.second) → da_status r = attempt_pending → job_queued (hy_api HandoffSample.second) r.
Proof.
  split; [reflexivity|]. intros r Hr.
  apply (proj2 (proj2 (handoff_dispatch_orderly "t" HandoffSample.uuid TriggerSample.trigger_uuid_fresh _ HandoffSample.second_reachable)) r Hr).
Defined.

Lemma lost_dispatcher_strands_attempt_witness :
  ∃ r, r ∈ attempt_rows HandoffSample.claimed ∧ da_id r = "id1" ∧ da_status r = attempt_sending ∧
    (commit (claim_attempt "id1" "id9" 3) HandoffSample.claimed).2 = Ok None.
Proof.
  destruct (lost_dispatcher_strands_attempt "t" HandoffSample.uuid TriggerSample.trigger_uuid_fresh HandoffSample.sending [] HandoffSample.thread []
    (mkHandoffSys HandoffSample.claimed [] ["id1"]) HandoffSample.sending_reachable eq_refl ltac:(apply rtc_refl)) as (r & H1 & H2 & H3 & _ & _ & H4).
  exists r. split; [done|]. split; [exact H2|]. split; [done|]. apply H4. rewrite H2. vm_compute. reflexivity.
Defined.

Lemma by_steps_id : by_steps "t" HandoffSample.uuid (λ a, a).
Proof. intros s Hs. exists s. split; [apply rtc_refl|]. split; [done|]. set_solver. Qed.


