(* ===== verification/SinkDelivery.v ===== *)
(** * Delivery of records to sinks

    Models [app/src/runtime/pipeline/sink-delivery.ts] and the handler of its job in
    [app/src/worker/runtime-worker-delivery.ts]: the statements on [sink_deliveries],
    the call of the port and the retries that the queue makes.  Each statement of the
    first transaction sees what others have committed before it. *)

From stdpp Require Import base strings list gmap pretty.
From Stdlib Require Import ZArith Lia.
From S2P Require Import Prelude StateMachine JsValue JsText HumanTask Database Sweepers Leases ErrorCatalog ApiShared AuditLog ApiStore HandoffParse Handoffs DeliveryPorts.

Inductive SinkStatus := sink_pending | sink_is_delivered | sink_failed | sink_dead_letter.
#[export] Instance SinkStatus_eq_dec : EqDecision SinkStatus.
Proof. solve_decision. Defined.

(** A row of [sink_deliveries]. *)
Record SinkAttempt := mkSinkAttempt {
  sa_id : string;
  sa_normalized_record_id : string;
  sa_sink_config_id : string;
  sa_attempt_no : Z;
  sa_sink_idempotency_key : string;
  sa_status : SinkStatus;
  sa_response_ref : option string
}.
Record NormalizedRecord := mkNormalized { nr_schema_ref : string; nr_natural_key : string; nr_record : json }.

(** The tables of a tenant that a delivery uses, and the identifiers drawn. *)
Record SinkDb := mkSinkDb {
  sb_db : Db;
  sb_records : gmap string NormalizedRecord;
  sb_rows : list SinkAttempt;
  sb_ids : nat
}.
Definition set_sink_rows (rows : list SinkAttempt) (d : SinkDb) : SinkDb := mkSinkDb (sb_db d) (sb_records d) rows (sb_ids d).
Definition set_sink_db (db : Db) (d : SinkDb) : SinkDb := mkSinkDb db (sb_records d) (sb_rows d) (sb_ids d).

Record DeliverInput := mkDeliver {
  de_normalizedRecordId : string;
  de_sinkConfigId : string;
  de_correlationId : string
}.
Inductive DeliverStatus := deliver_delivered | deliver_failed | deliver_dead_letter | deliver_already_delivered.
Record DeliverOutcome := mkDelivered {
  do_status : DeliverStatus;
  do_attemptNo : Z;
  do_sinkIdempotencyKey : string;
  do_sinkDeliveryId : option string;
  do_emitted : option OutboxEvent
}.

Definition sinkIdempotencyKey (tenantId sinkConfigId schemaRef naturalKey : string) : string :=
  tenantId +:+ ":" +:+ sinkConfigId +:+ ":" +:+ schemaRef +:+ ":" +:+ naturalKey.

(** ** Statements *)

Definition of_pair (input : DeliverInput) (r : SinkAttempt) : bool :=
  bool_decide (sa_normalized_record_id r = uuid_text (de_normalizedRecordId input)) &&
  bool_decide (sa_sink_config_id r = uuid_text (de_sinkConfigId input)).

Definition selectRecord (input : DeliverInput) (d : SinkDb) : option NormalizedRecord :=
  sb_records d !! uuid_text (de_normalizedRecordId input).
Definition isDelivered (input : DeliverInput) (d : SinkDb) : bool :=
  existsb (λ r, of_pair input r && bool_decide (sa_status r = sink_is_delivered)) (sb_rows d).
(** [COALESCE(MAX(attempt_no), 0) + 1]. *)
Definition nextAttemptNo (input : DeliverInput) (d : SinkDb) : Z :=
  (foldr (λ r m, Z.max (sa_attempt_no r) m) 0 (List.filter (of_pair input) (sb_rows d)) + 1)%Z.

Definition attempt_slot (r : SinkAttempt) : string * string * Z :=
  (sa_normalized_record_id r, sa_sink_config_id r, sa_attempt_no r).
(** The INSERT: its foreign key, its primary key and
    [UNIQUE (normalized_record_id, sink_config_id, attempt_no)]. *)
Definition insertPending (row : SinkAttempt) (d : SinkDb) : result DbError SinkDb :=
  if negb (bool_decide (is_Some (sb_records d !! sa_normalized_record_id row)))
  then Err (E_error "violates foreign key constraint sink_deliveries_normalized_record_id_fkey") else
  if existsb (λ r, bool_decide (sa_id r = sa_id row)) (sb_rows d) then Err (E_unique "sink_deliveries_pkey") else
  if existsb (λ r, bool_decide (attempt_slot r = attempt_slot row)) (sb_rows d)
  then Err (E_unique "sink_deliveries_normalized_record_id_sink_config_id_attempt_no_key") else
  Ok (set_sink_rows (sb_rows d ++ [row]) d).

Definition finalized (status : SinkStatus) (responseRef : option string) (r : SinkAttempt) : SinkAttempt :=
  mkSinkAttempt (sa_id r) (sa_normalized_record_id r) (sa_sink_config_id r) (sa_attempt_no r) (sa_sink_idempotency_key r)
    status responseRef.
Definition is_pending (id : string) (r : SinkAttempt) : bool :=
  bool_decide (sa_id r = id) && bool_decide (sa_status r = sink_pending).
Definition casFinalize (id : string) (status : SinkStatus) (responseRef : option string) (d : SinkDb) : result DbError SinkDb :=
  if decide (length (List.filter (is_pending id) (sb_rows d)) = 1)
  then Ok (set_sink_rows (map (λ r, if is_pending id r then finalized status responseRef r else r) (sb_rows d)) d)
  else Err (E_error ("sink finalize CAS expected pending row, updated " +:+ pretty (length (List.filter (is_pending id) (sb_rows d))))).

Definition emitSinkEvent (eventType : EventEnvelopeType) (input : DeliverInput) (sinkDeliveryId : string) (d : SinkDb)
  : result DbError (SinkDb * OutboxEvent) :=
  match emitOutboxEvent (mkEmit eventType (de_correlationId input) None None None None (outbox_key sinkDeliveryId eventType) None) (sb_db d) with
  | Ok (e, db) => Ok (set_sink_db db d, e)
  | Err e => Err e
  end.

(** The second transaction. *)
Definition finalizeAttempt (maxAttempts : Z) (input : DeliverInput) (id : string) (attemptNo : Z) (decision : SinkDeliveryDecision)
    (d : SinkDb) : result DbError (SinkDb * (DeliverStatus * option OutboxEvent)) :=
  match decision with
  | sk_delivered receiptRef =>
      d1 ← casFinalize id sink_is_delivered receiptRef d;
      '(d2, e) ← emitSinkEvent sink_delivered_e input id d1;
      Ok (d2, (deliver_delivered, Some e))
  | sk_transient_failed reason =>
      if (maxAttempts <=? attemptNo)%Z then
        d1 ← casFinalize id sink_dead_letter (Some reason) d;
        '(d2, e) ← emitSinkEvent sink_dead_lettered_e input id d1;
        Ok (d2, (deliver_dead_letter, Some e))
      else
        d1 ← casFinalize id sink_failed (Some reason) d;
        Ok (d1, (deliver_failed, None))
  end.

(** ** The delivery *)

(** Others act before each statement or transaction. *)
Record SinkWorld := mkSinkWorld { sw_db : SinkDb; sw_env : list (SinkDb → SinkDb) }.
Definition SinkAct (A : Type) : Type := SinkWorld → SinkWorld * result DbError A.
#[export] Instance SinkAct_ret : MRet SinkAct := λ A a w, (w, Ok a).
#[export] Instance SinkAct_bind : MBind SinkAct := λ A B f m w,
  match m w with (w', Ok a) => f a w' | (w', Err e) => (w', Err e) end.

Definition sink_stmt {A} (f : SinkDb → result DbError (SinkDb * A)) : SinkAct A := λ w,
  let d := match sw_env w with [] => sw_db w | g :: _ => g (sw_db w) end in
  match f d with
  | Ok (d', x) => (mkSinkWorld d' (tail (sw_env w)), Ok x)
  | Err e => (mkSinkWorld d (tail (sw_env w)), Err e)
  end.
Definition sink_read {A} (f : SinkDb → A) : SinkAct A := sink_stmt (λ d, Ok (d, f d)).
Definition sink_throw {A} (message : string) : SinkAct A := λ w, (w, Err (E_error message)).

Section Delivery.
Context (tenantId : string) (uuid : nat → string).

Definition pending_row (input : DeliverInput) (id key : string) (attemptNo : Z) : SinkAttempt :=
  mkSinkAttempt id (uuid_text (de_normalizedRecordId input)) (uuid_text (de_sinkConfigId input)) attemptNo key sink_pending None.

(** [randomUUID()] and the INSERT. *)
Definition claim_row (input : DeliverInput) (key : string) (attemptNo : Z) (d : SinkDb) : result DbError (SinkDb * string) :=
  let id := uuid (sb_ids d) in
  match insertPending (pending_row input id key attemptNo) (mkSinkDb (sb_db d) (sb_records d) (sb_rows d) (S (sb_ids d))) with
  | Ok d' => Ok (d', id)
  | Err e => Err e
  end.

Definition sink_request (input : DeliverInput) (key : string) (row : NormalizedRecord) (attemptNo : Z) : SinkDeliveryRequest :=
  mkSinkRequest tenantId (de_correlationId input) (de_sinkConfigId input) key (de_normalizedRecordId input) (nr_schema_ref row)
    (nr_natural_key row) (nr_record row) attemptNo.

(** [.catch(() => ...)]: an exception of the port is a failure. *)
Definition caught (answer : result DbError SinkDeliveryDecision) : SinkDeliveryDecision :=
  match answer with Ok d => d | Err _ => sk_transient_failed "sink_port_exception" end.

Definition record_key (input : DeliverInput) (row : NormalizedRecord) : string :=
  sinkIdempotencyKey tenantId (de_sinkConfigId input) (nr_schema_ref row) (nr_natural_key row).

Definition deliverNormalizedRecord (port : SinkDeliveryRequest → result DbError SinkDeliveryDecision) (maxAttempts : Z)
    (input : DeliverInput) : SinkAct DeliverOutcome :=
  row ← sink_read (selectRecord input);
  match row with
  | None => sink_throw "deliverNormalizedRecord: normalized_records row not found (tenant-scoped) — cannot derive sink_idempotency_key"
  | Some row =>
      let key := record_key input row in
      delivered ← sink_read (isDelivered input);
      if delivered : bool then mret (mkDelivered deliver_already_delivered 0 key None None) else
      attemptNo ← sink_read (nextAttemptNo input);
      id ← sink_stmt (claim_row input key attemptNo);
      let decision := caught (port (sink_request input key row attemptNo)) in
      outcome ← sink_stmt (finalizeAttempt maxAttempts input id attemptNo decision);
      mret (mkDelivered outcome.1 attemptNo key (Some id) outcome.2)
  end.

(** ** The job *)

Record SinkWorkerOptions := mkSinkOptions {
  so_port : option (bool * (SinkDeliveryRequest → result DbError SinkDeliveryDecision));
  so_allowTestPort : bool;
  so_maxAttempts : option Z;
  so_retryAfterMs : option Z
}.
Definition DEFAULT_SINK_DELIVERY_RETRY_AFTER_MS : Z := 5000.

Definition required_text (value : option string) (label : string) : SinkAct string :=
  match value with
  | Some s => if blank s then sink_throw ("RuntimeWorker: " +:+ label +:+ " is required") else mret s
  | None => sink_throw ("RuntimeWorker: " +:+ label +:+ " is required")
  end.

Definition handleSinkDeliver (options : SinkWorkerOptions) (tenant correlationId : option string)
    (target : option (string * string)) : SinkAct JobResult :=
  _ ← required_text tenant "sink_deliver.tenantId";
  correlationId ← required_text correlationId "sink_deliver.correlationId";
  match target with
  | None => sink_throw "RuntimeWorker: sink_deliver requires sinkDelivery payload (closed job input)"
  | Some (normalizedRecordId, sinkConfigId) =>
      let retry := deferred (default DEFAULT_SINK_DELIVERY_RETRY_AFTER_MS (so_retryAfterMs options)) (Some "SINK_DELIVERY_FAILED") in
      match so_port options with
      | None => mret retry
      | Some (fake, port) =>
          if fake && negb (so_allowTestPort options)
          then sink_throw "RuntimeWorker: test_fake sink port requires explicit allowTestSinkDeliveryPort opt-in" else
          match so_maxAttempts options with
          | None => sink_throw "RuntimeWorker: sink_deliver requires sinkDeliveryMaxAttempts (ops-defaults #sink.delivery)"
          | Some maxAttempts =>
              if (maxAttempts <? 1)%Z
              then sink_throw "RuntimeWorker: sink_deliver requires sinkDeliveryMaxAttempts (ops-defaults #sink.delivery)" else
              outcome ← deliverNormalizedRecord port maxAttempts (mkDeliver normalizedRecordId sinkConfigId correlationId);
              match do_status outcome with
              | deliver_failed => mret retry
              | _ => mret (completed (match do_emitted outcome with Some e => [e] | None => [] end))
              end
          end
      end
  end.
End Delivery.
