(* ===== verification/SinkDeliveryProps.v ===== *)
(** * Interleavings of deliveries to sinks

    [kstep] is every statement of [deliverNormalizedRecord] of any number of workers,
    with any decision of the port, any loss of a worker and whatever others do to the
    other tables.  The theorems speak of all reachable states; the Module
    [SinkSample] applies them to a concrete tenant. *)

From stdpp Require Import base strings list gmap pretty sets.
From Stdlib Require Import ZArith Lia Ascii.
From S2P Require Import Prelude StateMachine JsValue JsText Schedule Database Sweepers Leases AuditLog ApiStore TriggerCommandProps Handoffs HandoffProps HandoffFate DeliveryPorts SinkDelivery.

(** ** The system *)

(** Where a worker is in [deliverNormalizedRecord]. *)
Inductive SinkStage :=
| ss_found
| ss_fresh
| ss_numbered (attemptNo : Z)
| ss_sent (attemptNo : Z) (id : string)
| ss_decided (attemptNo : Z) (id : string) (decision : SinkDeliveryDecision).
Record SinkThread := mkSinkThread { sx_input : DeliverInput; sx_row : NormalizedRecord; sx_stage : SinkStage }.
(** [sy_sent]: the requests handed to a port, each with the attempt it is of. *)
Record SinkSys := mkSinkSys { sy_db : SinkDb; sy_threads : list SinkThread; sy_sent : list (string * SinkDeliveryRequest) }.

Definition sink_event (ev : EventEnvelopeType) : Prop := ev = sink_delivered_e ∨ ev = sink_dead_lettered_e.

(** What others may do: anything to the other tables, but the rows of
    [normalized_records] keep their schema and natural key. *)
Record others_do (f : SinkDb → SinkDb) (d : SinkDb) : Prop := mkOthersDo {
  od_rows : sb_rows (f d) = sb_rows d;
  od_ids : sb_ids d ≤ sb_ids (f d);
  od_records : ∀ id nr, sb_records d !! id = Some nr →
    ∃ nr', sb_records (f d) !! id = Some nr' ∧ nr_schema_ref nr' = nr_schema_ref nr ∧ nr_natural_key nr' = nr_natural_key nr;
  od_events : ∃ es, events_outbox (sb_db (f d)) = events_outbox (sb_db d) ++ es ∧
    ∀ e, e ∈ es → ∀ id ev, sink_event ev → o_idempotencyKey e ≠ outbox_key id ev
}.

Lemma string_length_app' a b : String.length (a +:+ b) = String.length a + String.length b.
Proof. induction a as [|c a IH]; simpl; [done|]. by rewrite IH. Qed.

Section Sinks.
Context (tenantId : string) (uuid : nat → string).

(** Jobs name rows by the text of their uuid columns. *)
Definition by_columns (input : DeliverInput) : Prop :=
  uuid_text (de_normalizedRecordId input) = de_normalizedRecordId input ∧ uuid_text (de_sinkConfigId input) = de_sinkConfigId input.

Inductive kstep (s : SinkSys) : SinkSys → Prop :=
| k_other f : others_do f (sy_db s) → kstep s (mkSinkSys (f (sy_db s)) (sy_threads s) (sy_sent s))
| k_start input nr : by_columns input → selectRecord input (sy_db s) = Some nr →
    kstep s (mkSinkSys (sy_db s) (sy_threads s ++ [mkSinkThread input nr ss_found]) (sy_sent s))
| k_check l1 input nr l2 : sy_threads s = l1 ++ mkSinkThread input nr ss_found :: l2 →
    kstep s (mkSinkSys (sy_db s)
      (l1 ++ (if isDelivered input (sy_db s) then [] else [mkSinkThread input nr ss_fresh]) ++ l2) (sy_sent s))
| k_number l1 input nr l2 : sy_threads s = l1 ++ mkSinkThread input nr ss_fresh :: l2 →
    kstep s (mkSinkSys (sy_db s) (l1 ++ [mkSinkThread input nr (ss_numbered (nextAttemptNo input (sy_db s)))] ++ l2) (sy_sent s))
| k_insert l1 input nr n l2 d' id : sy_threads s = l1 ++ mkSinkThread input nr (ss_numbered n) :: l2 →
    claim_row uuid input (record_key tenantId input nr) n (sy_db s) = Ok (d', id) →
    kstep s (mkSinkSys d' (l1 ++ [mkSinkThread input nr (ss_sent n id)] ++ l2)
      (sy_sent s ++ [(id, sink_request tenantId input (record_key tenantId input nr) nr n)]))
| k_answer l1 input nr n id l2 d : sy_threads s = l1 ++ mkSinkThread input nr (ss_sent n id) :: l2 →
    kstep s (mkSinkSys (sy_db s) (l1 ++ [mkSinkThread input nr (ss_decided n id d)] ++ l2) (sy_sent s))
| k_finalize l1 input nr n id d l2 maxAttempts d' r :
    sy_threads s = l1 ++ mkSinkThread input nr (ss_decided n id d) :: l2 →
    finalizeAttempt maxAttempts input id n d (sy_db s) = Ok (d', r) →
    kstep s (mkSinkSys d' (l1 ++ l2) (sy_sent s))
| k_vanish l1 th l2 : sy_threads s = l1 ++ th :: l2 → kstep s (mkSinkSys (sy_db s) (l1 ++ l2) (sy_sent s)).

Inductive kreach : SinkSys → Prop :=
| kr_start d : sb_rows d = [] → (∀ e, e ∈ events_outbox (sb_db d) → ∀ id ev, sink_event ev → o_idempotencyKey e ≠ outbox_key id ev) →
    kreach (mkSinkSys d [] [])
| kr_step s s' : kreach s → kstep s s' → kreach s'.

(** ** The invariant *)

Definition same_pair (r q : SinkAttempt) : Prop :=
  sa_normalized_record_id r = sa_normalized_record_id q ∧ sa_sink_config_id r = sa_sink_config_id q.
Definition before_attempt (p r : SinkAttempt) : Prop := same_pair p r ∧ sa_attempt_no p = (sa_attempt_no r - 1)%Z.
Definition of_input (input : DeliverInput) (r : SinkAttempt) : Prop :=
  sa_normalized_record_id r = de_normalizedRecordId input ∧ sa_sink_config_id r = de_sinkConfigId input.

(** The status that an event announces. *)
Definition announced (ev : EventEnvelopeType) : SinkStatus :=
  match ev with sink_delivered_e => sink_is_delivered | _ => sink_dead_letter end.
Definition event_emitted (d : SinkDb) (id : string) (ev : EventEnvelopeType) : Prop :=
  ∃ e, e ∈ events_outbox (sb_db d) ∧ o_idempotencyKey e = outbox_key id ev.

Definition sink_drawn (d : SinkDb) (x : string) : Prop := ∃ n, n < sb_ids d ∧ x = uuid n.

(** The attempt numbers that can come next. *)
Definition can_follow (d : SinkDb) (input : DeliverInput) (n : Z) : Prop :=
  (1 <= n)%Z ∧ ((1 < n)%Z → ∃ p, p ∈ sb_rows d ∧ of_input input p ∧ sa_attempt_no p = (n - 1)%Z).

Definition stage_ok (d : SinkDb) (input : DeliverInput) (nr : NormalizedRecord) (stage : SinkStage) : Prop :=
  match stage with
  | ss_found | ss_fresh => True
  | ss_numbered n => can_follow d input n
  | ss_sent n id | ss_decided n id _ =>
      pending_row input id (record_key tenantId input nr) n ∈ sb_rows d
  end.
Definition stage_id (th : SinkThread) : option string :=
  match sx_stage th with ss_sent _ id | ss_decided _ id _ => Some id | _ => None end.

Definition keyed (d : SinkDb) (record sink key : string) : Prop :=
  ∃ nr, sb_records d !! record = Some nr ∧ key = sinkIdempotencyKey tenantId sink (nr_schema_ref nr) (nr_natural_key nr).

Record sink_row_ok (d : SinkDb) (r : SinkAttempt) : Prop := mkSinkRowOk {
  sr_id : sink_drawn d (sa_id r);
  sr_before : (1 <= sa_attempt_no r)%Z ∧ ((1 < sa_attempt_no r)%Z → ∃ p, p ∈ sb_rows d ∧ before_attempt p r);
  sr_key : keyed d (sa_normalized_record_id r) (sa_sink_config_id r) (sa_sink_idempotency_key r);
  sr_event : ∀ ev, sink_event ev → sa_status r = announced ev → event_emitted d (sa_id r) ev
}.

Record sinv (s : SinkSys) : Prop := mkSinv {
  sv_ids : NoDup (map sa_id (sb_rows (sy_db s)));
  sv_slots : NoDup (map attempt_slot (sb_rows (sy_db s)));
  sv_rows : ∀ r, r ∈ sb_rows (sy_db s) → sink_row_ok (sy_db s) r;
  sv_events : ∀ id ev, sink_event ev → event_emitted (sy_db s) id ev →
    ∃ r, r ∈ sb_rows (sy_db s) ∧ sa_id r = id ∧ sa_status r = announced ev;
  sv_threads : ∀ th, th ∈ sy_threads s → by_columns (sx_input th) ∧ stage_ok (sy_db s) (sx_input th) (sx_row th) (sx_stage th) ∧
    keyed (sy_db s) (de_normalizedRecordId (sx_input th)) (de_sinkConfigId (sx_input th)) (record_key tenantId (sx_input th) (sx_row th));
  sv_owners : NoDup (omap stage_id (sy_threads s));
  sv_sent : NoDup (map fst (sy_sent s)) ∧ ∀ p, p ∈ sy_sent s → ∃ r, r ∈ sb_rows (sy_db s) ∧ sa_id r = p.1 ∧
    sq_normalizedRecordId p.2 = sa_normalized_record_id r ∧ sq_sinkConfigId p.2 = sa_sink_config_id r ∧
    sq_sinkIdempotencyKey p.2 = sa_sink_idempotency_key r ∧ sq_attemptNo p.2 = sa_attempt_no r
}.

Context (uuid_inj : ∀ m n, uuid m = uuid n → m = n).

(** ** What no step takes back *)

Record sink_grows (d d' : SinkDb) : Prop := mkSinkGrows {
  sg_ids : sb_ids d ≤ sb_ids d';
  sg_records : ∀ id nr, sb_records d !! id = Some nr →
    ∃ nr', sb_records d' !! id = Some nr' ∧ nr_schema_ref nr' = nr_schema_ref nr ∧ nr_natural_key nr' = nr_natural_key nr;
  sg_rows : ∀ r, r ∈ sb_rows d → ∃ q, q ∈ sb_rows d' ∧ sa_id q = sa_id r ∧ attempt_slot q = attempt_slot r ∧
    sa_sink_idempotency_key q = sa_sink_idempotency_key r;
  sg_events : events_outbox (sb_db d) ⊆ events_outbox (sb_db d')
}.

Lemma keyed_grows d d' record sink key : sink_grows d d' → keyed d record sink key → keyed d' record sink key.
Proof.
  intros H (nr & Hnr & ->). destruct (sg_records _ _ H _ _ Hnr) as (nr' & Hnr' & E1 & E2). exists nr'. split; [done|].
  by rewrite E1, E2.
Qed.
Lemma slot_eq r q : attempt_slot q = attempt_slot r ↔
  sa_normalized_record_id q = sa_normalized_record_id r ∧ sa_sink_config_id q = sa_sink_config_id r ∧ sa_attempt_no q = sa_attempt_no r.
Proof. unfold attempt_slot. split; [by intros [= -> -> ->]|by intros (-> & -> & ->)]. Qed.
Lemma follow_grows d d' input n : sink_grows d d' → can_follow d input n → can_follow d' input n.
Proof.
  intros H [H1 H2]. split; [done|]. intros Hn. destruct (H2 Hn) as (p & Hp & [Ho1 Ho2] & E).
  destruct (sg_rows _ _ H p Hp) as (q & Hq & _ & (E1 & E2 & E3)%slot_eq & _). exists q. split; [done|].
  split; [split; congruence|congruence].
Qed.
Lemma row_ok_grows d d' r : sink_grows d d' → sink_row_ok d r → sink_row_ok d' r.
Proof.
  intros H [(n & Hn & E) [R2 R3] R4 R5]. constructor.
  - exists n. split; [pose proof (sg_ids _ _ H); lia|done].
  - split; [done|]. intros Hno. destruct (R3 Hno) as (p & Hp & [Hs1 Hs2] & Ep).
    destruct (sg_rows _ _ H p Hp) as (q & Hq & _ & (E1 & E2 & E3)%slot_eq & _). exists q. split; [done|].
    split; [split; congruence|congruence].
  - by eapply keyed_grows.
  - intros ev Hev Hst. destruct (R5 ev Hev Hst) as (e & He & Ek). exists e. split; [by apply (sg_events _ _ H)|done].
Qed.

(** Threads that claim nothing new. *)
Lemma sinv_threads s ths : sinv s →
  (∀ th, th ∈ ths → by_columns (sx_input th) ∧ stage_ok (sy_db s) (sx_input th) (sx_row th) (sx_stage th) ∧
     keyed (sy_db s) (de_normalizedRecordId (sx_input th)) (de_sinkConfigId (sx_input th)) (record_key tenantId (sx_input th) (sx_row th))) →
  NoDup (omap stage_id ths) → sinv (mkSinkSys (sy_db s) ths (sy_sent s)).
Proof. intros [H1 H2 H3 H4 _ _ H7] Ht Hn. by constructor. Qed.

Lemma omap_split l1 th l2 : omap stage_id (l1 ++ th :: l2) = omap stage_id l1 ++ omap stage_id [th] ++ omap stage_id l2.
Proof. rewrite omap_app. f_equal. simpl. by destruct (stage_id th). Qed.

Lemma of_pair_columns input r : by_columns input → of_pair input r = true ↔ of_input input r.
Proof.
  intros [E1 E2]. unfold of_pair, of_input. rewrite E1, E2, andb_true_iff, !bool_decide_eq_true. done.
Qed.

(** [MAX(attempt_no) + 1]. *)
Lemma next_can_follow s input : sinv s → by_columns input → can_follow (sy_db s) input (nextAttemptNo input (sy_db s)).
Proof.
  intros H Hc. unfold can_follow, nextAttemptNo. set (l := List.filter (of_pair input) (sb_rows (sy_db s))).
  assert (Hl : ∀ r, In r l → r ∈ sb_rows (sy_db s) ∧ of_input input r ∧ (1 <= sa_attempt_no r)%Z).
  { intros r [Hr%list_elem_of_In Hp%(of_pair_columns _ _ Hc)]%filter_In. split; [done|]. split; [done|]. by apply (sv_rows _ H r Hr). }
  assert (Hm : (0 <= foldr (λ r m, Z.max (sa_attempt_no r) m) 0 l)%Z ∧ ((0 < foldr (λ r m, Z.max (sa_attempt_no r) m) 0 l)%Z →
    ∃ r, In r l ∧ sa_attempt_no r = foldr (λ r m, Z.max (sa_attempt_no r) m) 0%Z l)).
  { clearbody l. induction l as [|r l IH]; simpl; [split; [lia|lia]|]. destruct IH as [I1 I2]; [intros; apply Hl; by right|].
    specialize (Hl r (or_introl eq_refl)). split; [lia|]. intros _.
    destruct (Z.max_spec (sa_attempt_no r) (foldr (λ r m, Z.max (sa_attempt_no r) m) 0%Z l)) as [[Hlt E]|[Hle E]]; rewrite E.
    - destruct I2 as (q & Hq & Eq); [lia|]. exists q. split; [by right|done].
    - exists r. split; [by left|done]. }
  destruct Hm as [M1 M2]. split; [lia|]. intros Hn. destruct M2 as (r & Hr & E); [lia|].
  destruct (Hl r Hr) as (H1 & H2 & _). exists r. split; [done|]. split; [done|]. lia.
Qed.

Lemma sink_other s f : sinv s → others_do f (sy_db s) → sinv (mkSinkSys (f (sy_db s)) (sy_threads s) (sy_sent s)).
Proof.
  intros H Ho. destruct Ho as [O1 O2 O3 (es & O4 & O5)].
  assert (Hg : sink_grows (sy_db s) (f (sy_db s))).
  { constructor; [done|done| |rewrite O4; set_solver]. intros r Hr. exists r. by rewrite O1. }
  destruct H as [H1 H2 H3 H4 H5 H6 H7]. constructor; simpl; rewrite ?O1; [done|done| | | |done|done].
  - intros r Hr. eapply row_ok_grows; eauto.
  - intros id ev Hev (e & He & Ek). rewrite O4 in He. apply elem_of_app in He as [He|He]; [|by destruct (O5 e He id ev Hev)].
    apply H4; [done|]. by exists e.
  - intros th Hth. destruct (H5 th Hth) as (B1 & B2 & B3). split; [done|]. split; [|by eapply keyed_grows].
    destruct (sx_stage th); simpl in *; [done|done|by eapply follow_grows|by rewrite O1..].
Qed.

(** ** The insert *)

Lemma existsb_free {A B} (g : A → B) `{EqDecision B} (x : B) l : existsb (λ r, bool_decide (g r = x)) l = false ↔ x ∉ map g l.
Proof.
  split.
  - intros E (r & -> & Hr)%list_elem_of_fmap. apply Bool.not_true_iff_false in E. apply E, existsb_exists. exists r.
    split; [by apply list_elem_of_In|]. by apply bool_decide_eq_true_2.
  - intros Hx. apply Bool.not_true_iff_false. intros (r & Hr & E%bool_decide_eq_true)%existsb_exists. apply Hx.
    rewrite <- E. by apply list_elem_of_fmap_2, list_elem_of_In.
Qed.

Lemma claim_row_Ok input key n d d' id : claim_row uuid input key n d = Ok (d', id) →
  id = uuid (sb_ids d) ∧ id ∉ map sa_id (sb_rows d) ∧
  attempt_slot (pending_row input id key n) ∉ map attempt_slot (sb_rows d) ∧
  d' = mkSinkDb (sb_db d) (sb_records d) (sb_rows d ++ [pending_row input id key n]) (S (sb_ids d)).
Proof.
  unfold claim_row, insertPending. simpl. destruct (bool_decide _); [|done]. simpl.
  destruct (existsb (λ r, bool_decide (sa_id r = _)) _) eqn:E1; [done|].
  destruct (existsb (λ r, bool_decide (attempt_slot r = _)) _) eqn:E2; [done|]. intros [= <- <-].
  apply existsb_free in E1. apply existsb_free in E2. done.
Qed.

Lemma held_row_id s id : sinv s → id ∈ omap stage_id (sy_threads s) → id ∈ map sa_id (sb_rows (sy_db s)).
Proof.
  intros H (th & Hth & E)%list_elem_of_omap. destruct (sv_threads _ H th Hth) as (_ & Hs & _). unfold stage_id in E.
  destruct (sx_stage th) as [| | |n i|n i d]; try done; injection E as <-; by apply (list_elem_of_fmap_2' sa_id _ _ _ Hs).
Qed.

Lemma sink_insert s l1 input nr n l2 d' id : sinv s → sy_threads s = l1 ++ mkSinkThread input nr (ss_numbered n) :: l2 →
  claim_row uuid input (record_key tenantId input nr) n (sy_db s) = Ok (d', id) →
  sinv (mkSinkSys d' (l1 ++ [mkSinkThread input nr (ss_sent n id)] ++ l2)
    (sy_sent s ++ [(id, sink_request tenantId input (record_key tenantId input nr) nr n)])).
Proof.
  intros H E (-> & Hid & Hslot & ->)%claim_row_Ok. set (row := pending_row _ _ _ _) in *.
  destruct (sv_threads _ H (mkSinkThread input nr (ss_numbered n))) as (Hc & [Hn1 Hn2] & Hk);
    [rewrite E; apply elem_of_app; right; by left|]. simpl in Hc, Hn1, Hn2, Hk.
  match goal with |- sinv (mkSinkSys ?d _ _) => set (d' := d) end.
  assert (Hg : sink_grows (sy_db s) d').
  { constructor; simpl; [lia|intros i x Hx; by exists x| |done]. intros r Hr. exists r. split; [apply elem_of_app; by left|done]. }
  assert (Hthr : ∀ th, th ∈ sy_threads s → by_columns (sx_input th) ∧ stage_ok d' (sx_input th) (sx_row th) (sx_stage th) ∧
    keyed d' (de_normalizedRecordId (sx_input th)) (de_sinkConfigId (sx_input th)) (record_key tenantId (sx_input th) (sx_row th))).
  { intros th Hth. destruct (sv_threads _ H th Hth) as (B1 & B2 & B3). split; [done|]. split; [|by eapply keyed_grows].
    destruct (sx_stage th); simpl in *; [done|done|by eapply follow_grows|apply elem_of_app; by left..]. }
  assert (Hrow : sink_row_ok d' row).
  { constructor; simpl.
    - exists (sb_ids (sy_db s)). split; [simpl; lia|done].
    - split; [done|]. intros Hno. destruct (Hn2 Hno) as (p & Hp & [Ho1 Ho2] & Ep). destruct Hc as [C1 C2].
      exists p. split; [apply elem_of_app; by left|]. split; [split; simpl; congruence|done].
    - destruct Hc as [-> ->]. by eapply keyed_grows.
    - intros ev [-> | ->]; done. }
  constructor; simpl.
  - rewrite map_app. apply NoDup_app. split; [apply H|]. split; [|apply NoDup_singleton]. by intros x Hx ->%list_elem_of_singleton.
  - rewrite map_app. apply NoDup_app. split; [apply H|]. split; [|apply NoDup_singleton]. by intros x Hx ->%list_elem_of_singleton.
  - intros r [Hr| ->%list_elem_of_singleton]%elem_of_app; [|done]. eapply row_ok_grows; [done|by apply H].
  - intros i ev Hev He. destruct (sv_events _ H i ev Hev He) as (r & Hr & Hrest). exists r. split; [apply elem_of_app; by left|done].
  - intros th [Hth|[-> |Hth]%elem_of_cons]%elem_of_app.
    + apply Hthr. rewrite E. apply elem_of_app. by left.
    + simpl. split; [done|]. split; [apply elem_of_app; right; by apply list_elem_of_singleton|by eapply keyed_grows].
    + apply Hthr. rewrite E. apply elem_of_app. right. by right.
  - pose proof (sv_owners _ H) as Ho. rewrite E, omap_split in Ho. simpl in Ho.
    change (l1 ++ mkSinkThread input nr (ss_sent n (uuid (sb_ids (sy_db s)))) :: l2)
      with (l1 ++ mkSinkThread input nr (ss_sent n (uuid (sb_ids (sy_db s)))) :: l2). rewrite omap_split. simpl.
    apply NoDup_app in Ho as (N1 & N2 & N3).
    assert (Hfresh : ∀ i, i ∈ omap stage_id l1 ++ omap stage_id l2 → i ≠ uuid (sb_ids (sy_db s))).
    { intros i Hi ->. apply Hid, held_row_id; [done|]. rewrite E, omap_split. simpl. done. }
    apply NoDup_app. split; [done|]. split.
    + intros i Hi [-> |Hi2]%elem_of_cons; [|by apply (N2 i)]. eapply Hfresh; [|reflexivity]. apply elem_of_app. by left.
    + constructor; [|done]. intros Hi. eapply Hfresh; [|reflexivity]. apply elem_of_app. by right.
  - destruct (sv_sent _ H) as [S1 S2]. split.
    + rewrite map_app. apply NoDup_app. split; [done|]. split; [|apply NoDup_singleton].
      intros i (p & -> & Hp)%list_elem_of_fmap Ei%list_elem_of_singleton. destruct (S2 p Hp) as (r & Hr & Er & _). apply Hid.
      simpl in Ei. rewrite <- Ei, <- Er. by apply list_elem_of_fmap_2.
    + intros p [Hp| ->%list_elem_of_singleton]%elem_of_app.
      * destruct (S2 p Hp) as (r & Hr & Hrest). exists r. split; [apply elem_of_app; by left|done].
      * exists row. split; [apply elem_of_app; right; by apply list_elem_of_singleton|]. destruct Hc as [C1 C2]. simpl. by rewrite C1, C2.
Qed.

(** ** The end of an attempt *)

Lemma append_cancel_r (a b c : string) : a +:+ c = b +:+ c → a = b.
Proof.
  revert b. induction a as [|x a IH]; intros [|y b] H; simpl in H; [done| | |].
  - apply (f_equal String.length) in H. simpl in H. rewrite ?string_length_app' in H. simpl in H. lia.
  - apply (f_equal String.length) in H. simpl in H. rewrite ?string_length_app' in H. simpl in H. lia.
  - injection H as -> H. by rewrite (IH b H).
Qed.
Lemma outbox_key_id a b ev : outbox_key a ev = outbox_key b ev → a = b.
Proof. unfold outbox_key. intros H. by apply append_cancel_r in H. Qed.

(** What [finalizeAttempt] writes. *)
Inductive finalized_as (id : string) (d : SinkDb) : SinkDb → DeliverStatus * option OutboxEvent → Prop :=
| finalized_event status ref e ev st : sink_event ev → status = announced ev → o_idempotencyKey e = outbox_key id ev →
    st = match ev with sink_delivered_e => deliver_delivered | _ => deliver_dead_letter end →
    length (List.filter (is_pending id) (sb_rows d)) = 1 →
    finalized_as id d (mkSinkDb (add_outbox [e] (sb_db d)) (sb_records d)
      (map (λ r, if is_pending id r then finalized status ref r else r) (sb_rows d)) (sb_ids d)) (st, Some e)
| finalized_failed reason : length (List.filter (is_pending id) (sb_rows d)) = 1 →
    finalized_as id d (set_sink_rows (map (λ r, if is_pending id r then finalized sink_failed (Some reason) r else r) (sb_rows d)) d)
      (deliver_failed, None).

Lemma finalize_Ok max input id n decision d d' r : finalizeAttempt max input id n decision d = Ok (d', r) → finalized_as id d d' r.
Proof.
  assert (Hev : ∀ status ref ev st, sink_event ev → status = announced ev →
    st = match ev with sink_delivered_e => deliver_delivered | _ => deliver_dead_letter end →
    (d1 ← casFinalize id status ref d; '(d2, e) ← emitSinkEvent ev input id d1; Ok (d2, (st, Some e))) = Ok (d', r) →
    finalized_as id d d' r).
  { intros status ref ev st H1 H2 H3. unfold casFinalize. destruct (decide _) as [Hone|]; [|done]. simpl. unfold emitSinkEvent.
    destruct (emitOutboxEvent _ _) as [[e db]|] eqn:Ee; [|done]. simpl. intros [= <- <-].
    apply emitOutboxEvent_Ok in Ee as (-> & _ & Ek & _). by apply (finalized_event id d status ref e ev st). }
  unfold finalizeAttempt. destruct decision as [ref|reason].
  - apply Hev; [by left|done|done].
  - destruct (max <=? n)%Z; [apply Hev; [by right|done|done]|].
    unfold casFinalize. destruct (decide _) as [Hone|]; [|done]. simpl. intros [= <- <-]. by apply finalized_failed.
Qed.

Lemma pending_true id r : is_pending id r = true ↔ sa_id r = id ∧ sa_status r = sink_pending.
Proof. unfold is_pending. by rewrite andb_true_iff, !bool_decide_eq_true. Qed.

Section Finalized.
Context (id : string) (status : SinkStatus) (ref : option string).
Let upd (r : SinkAttempt) : SinkAttempt := if is_pending id r then finalized status ref r else r.

Lemma upd_same_row r : sa_id (upd r) = sa_id r ∧ attempt_slot (upd r) = attempt_slot r ∧
  sa_sink_idempotency_key (upd r) = sa_sink_idempotency_key r.
Proof. unfold upd. by destruct (is_pending id r). Qed.
Lemma map_sink_ids l : map sa_id (map upd l) = map sa_id l.
Proof. rewrite map_map. apply map_ext. intros r. apply upd_same_row. Qed.
Lemma map_sink_slots l : map attempt_slot (map upd l) = map attempt_slot l.
Proof. rewrite map_map. apply map_ext. intros r. apply upd_same_row. Qed.

(** The rows afterwards; [evs] are the events that were added. *)
Lemma sinv_finalized s ths evs : sinv s → (∃ r, r ∈ sb_rows (sy_db s) ∧ is_pending id r = true) →
  (∀ th, th ∈ ths → th ∈ sy_threads s ∧ stage_id th ≠ Some id) → NoDup (omap stage_id ths) → status ≠ sink_pending →
  (∀ ev, sink_event ev → status = announced ev ↔ ∃ e, e ∈ evs ∧ o_idempotencyKey e = outbox_key id ev) →
  (∀ e, e ∈ evs → ∃ ev, sink_event ev ∧ o_idempotencyKey e = outbox_key id ev) →
  sinv (mkSinkSys (mkSinkDb (add_outbox evs (sb_db (sy_db s))) (sb_records (sy_db s)) (map upd (sb_rows (sy_db s))) (sb_ids (sy_db s)))
    ths (sy_sent s)).
Proof.
  intros H Hrow Hths Hown Hst Hev Hevs. match goal with |- sinv (mkSinkSys ?d _ _) => set (d' := d) end.
  assert (Hg : sink_grows (sy_db s) d').
  { constructor; simpl; [lia|intros i x Hx; by exists x| |set_solver]. intros r Hr. exists (upd r). split; [by apply list_elem_of_fmap_2|].
    apply upd_same_row. }
  constructor; simpl.
  - rewrite map_sink_ids. apply H.
  - rewrite map_sink_slots. apply H.
  - intros q (r & -> & Hr)%list_elem_of_fmap. destruct (row_ok_grows _ _ r Hg (sv_rows _ H r Hr)) as [R1 R2 R3 R4].
    destruct (upd_same_row r) as (U1 & (U2 & U3 & U4)%slot_eq & U5). constructor.
    + by rewrite U1.
    + rewrite U4. destruct R2 as [R2 R2']. split; [done|]. intros Hno. destruct (R2' Hno) as (p & Hp & [Hs1 Hs2] & Ep).
      exists p. split; [done|]. split; [split; congruence|congruence].
    + by rewrite U2, U3, U5.
    + intros ev Hsink. rewrite U1. unfold upd. destruct (is_pending id r) eqn:Ep; [|by apply R4].
      apply pending_true in Ep as [-> _]. simpl. intros Ha. apply (Hev ev Hsink) in Ha as (e & He & Ek).
      exists e. split; [|done]. simpl. apply elem_of_app. by right.
  - intros i ev Hsink (e & He & Ek). simpl in He. apply elem_of_app in He as [He|He].
    + destruct (sv_events _ H i ev Hsink) as (r & Hr & Ei & Es); [by exists e|]. exists r. split; [|done].
      apply list_elem_of_fmap. exists r. split; [|done]. unfold upd. destruct (is_pending id r) eqn:Ep; [|done].
      apply pending_true in Ep as [_ Ep]. rewrite Ep in Es. by destruct Hsink as [-> | ->].
    + destruct (Hevs e He) as (ev' & Hsink' & Ek'). rewrite Ek' in Ek. assert (ev' = ev) as -> by (by eapply outbox_key_inj).
      apply outbox_key_id in Ek as <-. destruct Hrow as (r & Hr & Hp). exists (upd r). split; [by apply list_elem_of_fmap_2|].
      unfold upd. rewrite Hp. apply pending_true in Hp as [Hp _]. split; [done|]. simpl. apply Hev; [done|]. by exists e.
  - intros th Hth. destruct (Hths th Hth) as [Hin Hne]. destruct (sv_threads _ H th Hin) as (B1 & B2 & B3).
    split; [done|]. split; [|by eapply keyed_grows]. unfold stage_id in Hne. destruct (sx_stage th) as [| |n|n i|n i d]; simpl in *;
      [done|done|by eapply follow_grows| |];
      (apply list_elem_of_fmap; eexists; split; [|exact B2]; unfold upd; destruct (is_pending id _) eqn:Ep; [|done];
       apply pending_true in Ep as [Ep _]; simpl in Ep; congruence).
  - done.
  - destruct (sv_sent _ H) as [S1 S2]. split; [done|]. intros p Hp. destruct (S2 p Hp) as (r & Hr & E1 & E2 & E3 & E4 & E5).
    destruct (upd_same_row r) as (U1 & (U2 & U3 & U4)%slot_eq & U5). exists (upd r). split; [by apply list_elem_of_fmap_2|].
    by rewrite U1, U2, U3, U4, U5.
Qed.
End Finalized.

(** The thread that is about to finalize owns a pending row, and nobody else does. *)
Lemma decided_thread s l1 input nr n id d l2 : sinv s → sy_threads s = l1 ++ mkSinkThread input nr (ss_decided n id d) :: l2 →
  pending_row input id (record_key tenantId input nr) n ∈ sb_rows (sy_db s) ∧ NoDup (omap stage_id (l1 ++ l2)) ∧
  ∀ th, th ∈ l1 ++ l2 → th ∈ sy_threads s ∧ stage_id th ≠ Some id.
Proof.
  intros H E. destruct (sv_threads _ H (mkSinkThread input nr (ss_decided n id d))) as (_ & Hrow & _);
    [rewrite E; apply elem_of_app; right; by left|]. split; [exact Hrow|].
  pose proof (sv_owners _ H) as Ho. rewrite E, omap_split in Ho. simpl in Ho. apply NoDup_app in Ho as (N1 & N2 & N3).
  apply NoDup_cons in N3 as [N3 N4]. split.
  - rewrite omap_app. apply NoDup_app. split; [done|]. split; [|done]. intros i Hi Hi2. apply (N2 i Hi). by right.
  - intros th Hth. split; [rewrite E; apply elem_of_app in Hth as [?|?]; apply elem_of_app; [by left|by right; right]|].
    intros Eth. apply elem_of_app in Hth as [Hi|Hi].
    + apply (N2 id); [|by left]. apply list_elem_of_omap. by exists th.
    + apply N3. apply list_elem_of_omap. by exists th.
Qed.

Lemma sink_finalize s l1 input nr n id d l2 d' r : sinv s → sy_threads s = l1 ++ mkSinkThread input nr (ss_decided n id d) :: l2 →
  finalized_as id (sy_db s) d' r → sinv (mkSinkSys d' (l1 ++ l2) (sy_sent s)).
Proof.
  intros H E Hf. destruct (decided_thread s _ _ _ _ _ _ _ H E) as (Hrow & Hn & Hths).
  assert (Hp : ∃ r, r ∈ sb_rows (sy_db s) ∧ is_pending id r = true) by (eexists; split; [exact Hrow|by apply pending_true]).
  destruct Hf as [status ref e ev st Hev Hst Hk _ _|reason _].
  - apply sinv_finalized; [done|done|done|done|rewrite Hst; by destruct Hev as [-> | ->]| |].
    + intros ev' Hev'. split.
      * intros Ha. exists e. split; [by apply list_elem_of_singleton|]. rewrite Hk. f_equal.
        destruct Hev as [-> | ->], Hev' as [-> | ->]; simpl in *; congruence.
      * intros (e' & ->%list_elem_of_singleton & Ek). rewrite Hk in Ek. apply outbox_key_inj in Ek as <-. done.
    + intros e' ->%list_elem_of_singleton. by exists ev.
  - assert (Ed : set_sink_rows (map (λ r, if is_pending id r then finalized sink_failed (Some reason) r else r) (sb_rows (sy_db s))) (sy_db s) =
      mkSinkDb (add_outbox [] (sb_db (sy_db s))) (sb_records (sy_db s))
        (map (λ r, if is_pending id r then finalized sink_failed (Some reason) r else r) (sb_rows (sy_db s))) (sb_ids (sy_db s))).
    { unfold set_sink_rows. by rewrite add_outbox_nil. }
    rewrite Ed. apply sinv_finalized; [done|done|done|done|done| |].
    + intros ev Hev. split; [by destruct Hev as [-> | ->]|]. by intros (e & ?%elem_of_nil & _).
    + by intros e ?%elem_of_nil.
Qed.

Lemma sinv_step s s' : sinv s → kstep s s' → sinv s'.
Proof.
  intros H. assert (Hsub : ∀ l1 th l2 th', sy_threads s = l1 ++ th :: l2 → th' ∈ l1 ++ l2 → th' ∈ sy_threads s).
  { intros l1 th l2 th' E Hth. rewrite E. apply elem_of_app in Hth as [?|?]; apply elem_of_app; [by left|by right; right]. }
  assert (Hmove : ∀ l1 input nr st l2 new, sy_threads s = l1 ++ mkSinkThread input nr st :: l2 →
    (∀ st', st' ∈ new → stage_ok (sy_db s) input nr st') → omap (λ st, stage_id (mkSinkThread input nr st)) new = option_list (stage_id (mkSinkThread input nr st)) →
    sinv (mkSinkSys (sy_db s) (l1 ++ map (mkSinkThread input nr) new ++ l2) (sy_sent s))).
  { intros l1 input nr st l2 new E Hst Hid. apply sinv_threads; [done| |].
    - destruct (sv_threads _ H (mkSinkThread input nr st)) as (B1 & _ & B3); [rewrite E; apply elem_of_app; right; by left|].
      intros th [Hth|[(st' & -> & Hst')%list_elem_of_fmap|Hth]%elem_of_app]%elem_of_app.
      + apply (sv_threads _ H). apply (Hsub _ _ _ _ E), elem_of_app. by left.
      + split; [done|]. split; [|done]. by apply Hst.
      + apply (sv_threads _ H). apply (Hsub _ _ _ _ E), elem_of_app. by right.
    - pose proof (sv_owners _ H) as Ho. rewrite E, omap_split in Ho. rewrite !omap_app.
      assert (En : omap stage_id (map (mkSinkThread input nr) new) = omap stage_id [mkSinkThread input nr st]).
      { transitivity (option_list (stage_id (mkSinkThread input nr st))); [|simpl; by destruct (stage_id _)].
        rewrite <- Hid. clear. induction new as [|st' new IH]; simpl; [done|].
        destruct (stage_id _); [f_equal|]; exact IH. }
      by rewrite En. }
  intros [f Hf|input nr Hc Hr|l1 input nr l2 E|l1 input nr l2 E|l1 input nr n l2 d' id E Ei|l1 input nr n id l2 d E
    |l1 input nr n id d l2 max d' r E Ef|l1 th l2 E].
  - by apply sink_other.
  - apply sinv_threads; [done| |].
    + intros th [Hth| ->%list_elem_of_singleton]%elem_of_app; [by apply (sv_threads _ H)|]. split; [done|]. split; [done|].
      simpl. exists nr. unfold selectRecord in Hr. destruct Hc as [C1 C2]. rewrite C1 in Hr. done.
    + rewrite omap_app. simpl. rewrite app_nil_r. apply H.
  - destruct (isDelivered input (sy_db s)).
    + by apply (Hmove l1 input nr ss_found l2 [] E); [intros st ?%elem_of_nil|].
    + by apply (Hmove l1 input nr ss_found l2 [ss_fresh] E); [intros st ->%list_elem_of_singleton|].
  - apply (Hmove l1 input nr ss_fresh l2 [ss_numbered (nextAttemptNo input (sy_db s))] E); [|done].
    intros st ->%list_elem_of_singleton. apply next_can_follow; [done|].
    destruct (sv_threads _ H (mkSinkThread input nr ss_fresh)) as (B1 & _ & _); [rewrite E; apply elem_of_app; right; by left|done].
  - by eapply sink_insert.
  - apply (Hmove l1 input nr (ss_sent n id) l2 [ss_decided n id d] E); [|done]. intros st ->%list_elem_of_singleton.
    destruct (sv_threads _ H (mkSinkThread input nr (ss_sent n id))) as (_ & B2 & _); [rewrite E; apply elem_of_app; right; by left|done].
  - eapply sink_finalize; [done|exact E|by eapply finalize_Ok].
  - apply sinv_threads; [done| |].
    + intros th' Hth. apply (sv_threads _ H). by eapply Hsub.
    + pose proof (sv_owners _ H) as Ho. rewrite E, omap_split in Ho. rewrite omap_app. apply NoDup_app in Ho as (N1 & N2 & N3).
      apply NoDup_app in N3 as (_ & _ & N3). apply NoDup_app. split; [done|]. split; [|done]. intros i Hi Hi2. apply (N2 i Hi).
      apply elem_of_app. by right.
Qed.

Lemma kreach_inv s : kreach s → sinv s.
Proof.
  induction 1 as [d E He|s s' _ IH Hs]; [|by eapply sinv_step].
  constructor; simpl; rewrite ?E; try (by constructor); try (by intros ? ?%elem_of_nil).
  - intros id ev Hev (e & Hin & Ek). by destruct (He e Hin id ev Hev).
  - split; [constructor|]. by intros ? ?%elem_of_nil.
Qed.

(** ** The ledger *)

Lemma announced_inj ev ev' : sink_event ev → sink_event ev' → announced ev = announced ev' → ev = ev'.
Proof. intros [-> | ->] [-> | ->]; done. Qed.

Lemma sink_row_unique s r q : sinv s → r ∈ sb_rows (sy_db s) → q ∈ sb_rows (sy_db s) → sa_id r = sa_id q → r = q.
Proof.
  intros H Hr Hq E. apply list_elem_of_lookup in Hr as [i Hi]. apply list_elem_of_lookup in Hq as [j Hj].
  assert (i = j) as ->; [|congruence]. apply (NoDup_lookup _ _ _ (sa_id r) (sv_ids _ H)).
  - change (map sa_id) with (fmap (M := list) sa_id). by rewrite list_lookup_fmap, Hi.
  - change (map sa_id) with (fmap (M := list) sa_id). rewrite list_lookup_fmap, Hj. simpl. by rewrite E.
Qed.

(** C14. Whatever workers deliver, crash or lose races, whatever their ports answer and
    whatever others do: the attempts of a record at a sink are numbered from 1 without
    gaps or repetition; an attempt is delivered (or dead) exactly when its event is in
    the outbox; it is handed to a port at most once; and every request for a record
    and sink carries the same key, that of the record's schema and natural key. *)
Theorem sink_ledger_consistent s : kreach s →
  NoDup (map attempt_slot (sb_rows (sy_db s))) ∧ NoDup (map fst (sy_sent s)) ∧
  (∀ r, r ∈ sb_rows (sy_db s) →
     ((1 <= sa_attempt_no r)%Z ∧ ((1 < sa_attempt_no r)%Z → ∃ p, p ∈ sb_rows (sy_db s) ∧ before_attempt p r)) ∧
     ∀ ev, sink_event ev → sa_status r = announced ev ↔ event_emitted (sy_db s) (sa_id r) ev) ∧
  (∀ p, p ∈ sy_sent s → ∃ r nr, r ∈ sb_rows (sy_db s) ∧ sa_id r = p.1 ∧ sq_attemptNo p.2 = sa_attempt_no r ∧
     sb_records (sy_db s) !! sq_normalizedRecordId p.2 = Some nr ∧
     sq_sinkIdempotencyKey p.2 = sinkIdempotencyKey tenantId (sq_sinkConfigId p.2) (nr_schema_ref nr) (nr_natural_key nr)).
Proof.
  intros H%kreach_inv. split; [apply H|]. split; [apply H|]. split.
  - intros r Hr. destruct (sv_rows _ H r Hr) as [R1 R2 R3 R4]. split; [done|]. intros ev Hev. split; [by apply R4|].
    intros He. destruct (sv_events _ H _ ev Hev He) as (q & Hq & Eq & Es). by rewrite (sink_row_unique s r q).
  - intros p Hp. destruct (proj2 (sv_sent _ H) p Hp) as (r & Hr & E1 & E2 & E3 & E4 & E5).
    destruct (sr_key _ _ (sv_rows _ H r Hr)) as (nr & Hnr & Ek). exists r, nr. do 3 (split; [done|]). rewrite E2. split; [done|].
    by rewrite E4, E3.
Qed.

(** ** A worker that comes back *)

(** The status that a decision gives. *)
Definition sink_result (maxAttempts attemptNo : Z) (d : SinkDeliveryDecision) : SinkStatus * DeliverStatus * option string :=
  match d with
  | sk_delivered ref => (sink_is_delivered, deliver_delivered, ref)
  | sk_transient_failed reason =>
      if (maxAttempts <=? attemptNo)%Z then (sink_dead_letter, deliver_dead_letter, Some reason)
      else (sink_failed, deliver_failed, Some reason)
  end.

Lemma decided_settles s l1 input nr n id d l2 maxAttempts : sinv s → sy_threads s = l1 ++ mkSinkThread input nr (ss_decided n id d) :: l2 →
  let '(status, st, ref) := sink_result maxAttempts n d in
  ∃ d' e, finalizeAttempt maxAttempts input id n d (sy_db s) = Ok (d', (st, e)) ∧
    finalized status ref (pending_row input id (record_key tenantId input nr) n) ∈ sb_rows d' ∧
    (is_Some e ↔ status ≠ sink_failed).
Proof.
  intros H E. destruct (decided_thread s _ _ _ _ _ _ _ H E) as (Hrow & _ & _). set (row := pending_row _ _ _ _) in *.
  assert (Hp : is_pending id row = true) by (by apply pending_true).
  assert (Hone : List.filter (is_pending id) (sb_rows (sy_db s)) = [row]).
  { apply filter_one; [|done|done|].
    - eapply (map_NoDup sa_id), H.
    - intros y Hy [Ey _]%pending_true. by apply (sink_row_unique s). }
  assert (Hcas : ∀ status ref, casFinalize id status ref (sy_db s) =
    Ok (set_sink_rows (map (λ r, if is_pending id r then finalized status ref r else r) (sb_rows (sy_db s))) (sy_db s))).
  { intros status ref. unfold casFinalize. by rewrite Hone. }
  assert (Hin : ∀ status ref, finalized status ref row ∈ map (λ r, if is_pending id r then finalized status ref r else r) (sb_rows (sy_db s))).
  { intros status ref. by apply elem_of_hit. }
  assert (Hemit : ∀ ev rows, sink_event ev → ∃ e, emitSinkEvent ev input id (set_sink_rows rows (sy_db s)) =
    Ok (set_sink_db (add_outbox [e] (sb_db (sy_db s))) (set_sink_rows rows (sy_db s)), e)).
  { intros ev rows Hev. assert (Hfree : key_free (outbox_key id ev) (sb_db (sy_db s))).
    { intros e He Ek. destruct (sv_events _ H id ev Hev) as (r & Hr & Er & Es); [by exists e|].
      rewrite (sink_row_unique s r row H Hr Hrow Er) in Es. by destruct Hev as [-> | ->]. }
    assert (Hstep : starts_with "step." (EventEnvelopeType_str ev) = false) by (by destruct Hev as [-> | ->]).
    destruct (emitOutboxEvent_free ev (de_correlationId input) None None (outbox_key id ev) None _ Hstep Hfree) as (e & Ee & _).
    exists e. unfold emitSinkEvent. simpl. by rewrite Ee. }
  unfold sink_result, finalizeAttempt. destruct d as [ref|reason]; [|destruct (maxAttempts <=? n)%Z]; rewrite Hcas; simpl.
  - destruct (Hemit sink_delivered_e (map (λ r, if is_pending id r then finalized sink_is_delivered ref r else r) (sb_rows (sy_db s)))) as [e Ee];
      [by left|]. rewrite Ee. simpl. eexists _, _. split; [reflexivity|]. split; [apply Hin|]. by split.
  - destruct (Hemit sink_dead_lettered_e (map (λ r, if is_pending id r then finalized sink_dead_letter (Some reason) r else r) (sb_rows (sy_db s)))) as [e Ee];
      [by right|]. rewrite Ee. simpl. eexists _, _. split; [reflexivity|]. split; [apply Hin|]. by split.
  - eexists _, _. split; [reflexivity|]. split; [apply Hin|]. split; [by intros [? ?]|done].
Qed.

(** ** The delivery of the code *)

(** What others do before a statement are steps of the system. *)
Definition by_ksteps (f : SinkDb → SinkDb) : Prop := ∀ s, kreach s → ∃ s', rtc kstep s s' ∧
  sy_db s' = f (sy_db s) ∧ sy_threads s ⊆ sy_threads s'.

Definition seen (w : SinkWorld) : SinkDb := match sw_env w with [] => sw_db w | g :: _ => g (sw_db w) end.

Lemma kreach_rtc s s' : kreach s → rtc kstep s s' → kreach s'.
Proof. intros H Hs. induction Hs; [done|]. apply IHHs. by eapply kr_step. Qed.

Lemma seen_steps s w : kreach s → sy_db s = sw_db w → Forall by_ksteps (sw_env w) →
  ∃ s', rtc kstep s s' ∧ sy_db s' = seen w ∧ sy_threads s ⊆ sy_threads s' ∧ Forall by_ksteps (tail (sw_env w)).
Proof.
  intros H E Henv. unfold seen. destruct (sw_env w) as [|f env]; [by exists s|]. apply Forall_cons in Henv as [Hf Henv].
  destruct (Hf s H) as (s' & H1 & H2 & H3). exists s'. rewrite E in H2. done.
Qed.

(** The worker's next statement: others first, then the step [k] of its thread. *)
Lemma thread_step s w th (P : SinkSys → Prop) : kreach s → sy_db s = sw_db w → Forall by_ksteps (sw_env w) → th ∈ sy_threads s →
  (∀ s1 l1 l2, kreach s1 → sy_db s1 = seen w → sy_threads s1 = l1 ++ th :: l2 → ∃ s2, kstep s1 s2 ∧ P s2) →
  ∃ s2, rtc kstep s s2 ∧ kreach s2 ∧ P s2.
Proof.
  intros H E Henv Hth Hk. destruct (seen_steps s w H E Henv) as (s1 & H1 & H2 & H3 & _).
  apply H3, list_elem_of_split in Hth as (l1 & l2 & El). assert (Hr := kreach_rtc _ _ H H1).
  destruct (Hk s1 l1 l2 Hr H2 El) as (s2 & Hs & HP). exists s2. split; [by eapply rtc_r|]. split; [by eapply kr_step|done].
Qed.

Lemma tail_env w : Forall by_ksteps (sw_env w) → Forall by_ksteps (tail (sw_env w)).
Proof. intros H. destruct (sw_env w); [done|]. by apply Forall_cons in H as [_ H]. Qed.

(** What a delivery that reached its port leaves. *)
Definition delivery_recorded (port : SinkDeliveryRequest → result DbError SinkDeliveryDecision) (maxAttempts : Z) (input : DeliverInput)
    (d : SinkDb) (o : DeliverOutcome) : Prop :=
  match do_sinkDeliveryId o with
  | None => do_status o = deliver_already_delivered
  | Some id => ∃ nr, let n := do_attemptNo o in let key := record_key tenantId input nr in
      let '(status, st, ref) := sink_result maxAttempts n (caught (port (sink_request tenantId input key nr n))) in
      do_status o = st ∧ do_sinkIdempotencyKey o = key ∧ finalized status ref (pending_row input id key n) ∈ sb_rows d
  end.

End Sinks.

(** ** Deliveries on a concrete tenant

    The theorems on deliveries at a tenant with two records, the jobs of a record whose
    sink is down, and the idempotency keys of records with a colon in their schema. *)

Module SinkSample.
Definition uuid : nat → string := TriggerSample.uuid.
Definition records : gmap string NormalizedRecord :=
  {[ "r1" := mkNormalized "review@1" "p1+9" (JObj [("stars", JStr "5")]);
     "r2" := mkNormalized "a:b" "c" (JObj []); "r3" := mkNormalized "a" "b:c" (JObj []) ]}.
Definition start : SinkDb := mkSinkDb TriggerSample.db records [] 0.
Definition input : DeliverInput := mkDeliver "r1" "k1" "c".
Definition nr : NormalizedRecord := mkNormalized "review@1" "p1+9" (JObj [("stars", JStr "5")]).
Definition down (_ : SinkDeliveryRequest) : result DbError SinkDeliveryDecision := Err (E_error "socket").
Definition up (_ : SinkDeliveryRequest) : result DbError SinkDeliveryDecision := Ok (sk_delivered (Some "rcpt-1")).
Definition job (port : SinkDeliveryRequest → result DbError SinkDeliveryDecision) (w : SinkWorld) : SinkWorld * result DbError JobResult :=
  handleSinkDeliver "t" uuid (mkSinkOptions (Some (false, port)) false (Some 2%Z) None) (Some "t") (Some "c") (Some ("r1", "k1")) w.

Lemma columns : by_columns input.
Proof. by split. Qed.

(** One attempt after its end. *)
Definition inserted : SinkDb :=
  mkSinkDb TriggerSample.db records [pending_row input "id0" "t:k1:review@1:p1+9" 1] 1.
Definition ended : SinkDb :=
  match finalizeAttempt 2 input "id0" 1 (sk_delivered (Some "rcpt-1")) inserted with Ok (d, _) => d | Err _ => inserted end.
Definition sent : list (string * SinkDeliveryRequest) := [("id0", sink_request "t" input "t:k1:review@1:p1+9" nr 1)].

Lemma ended_reachable : kreach "t" uuid (mkSinkSys ended [] sent).
Proof.
  assert (H0 : kreach "t" uuid (mkSinkSys start [] [])) by (apply kr_start; [done|by intros e ?%elem_of_nil]).
  assert (H1 := kr_step _ _ _ _ H0 (k_start "t" uuid (mkSinkSys start [] []) input nr columns eq_refl)).
  assert (H2 := kr_step _ _ _ _ H1 (k_check "t" uuid (mkSinkSys start [mkSinkThread input nr ss_found] []) [] input nr [] eq_refl)).
  assert (H3 := kr_step _ _ _ _ H2 (k_number "t" uuid (mkSinkSys start [mkSinkThread input nr ss_fresh] []) [] input nr [] eq_refl)).
  assert (H4 := kr_step _ _ _ _ H3 (k_insert "t" uuid (mkSinkSys start [mkSinkThread input nr (ss_numbered 1)] []) [] input nr 1 [] inserted "id0" eq_refl
    ltac:(vm_compute; reflexivity))).
  assert (H5 := kr_step _ _ _ _ H4 (k_answer "t" uuid (mkSinkSys inserted [mkSinkThread input nr (ss_sent 1 "id0")] sent) [] input nr 1 "id0" []
    (sk_delivered (Some "rcpt-1")) eq_refl)).
  destruct (finalizeAttempt 2 input "id0" 1 (sk_delivered (Some "rcpt-1")) inserted) as [[d r]|e] eqn:E; [|by vm_compute in E].
  assert (Ed : ended = d) by (unfold ended; by rewrite E). rewrite Ed.
  exact (kr_step _ _ _ _ H5 (k_finalize "t" uuid (mkSinkSys inserted [mkSinkThread input nr (ss_decided 1 "id0" (sk_delivered (Some "rcpt-1")))] sent)
    [] input nr 1 "id0" (sk_delivered (Some "rcpt-1")) [] 2 d r eq_refl E)).
Qed.
End SinkSample.

(** The sink is down for the first two jobs: the first is tried again, the second ends in
    a dead letter with its event; a later job (a replay) has one attempt of its own. *)
Example sink_jobs :
  let w0 := mkSinkWorld SinkSample.start [] in
  let j1 := SinkSample.job SinkSample.down w0 in let j2 := SinkSample.job SinkSample.down j1.1 in
  let j3 := SinkSample.job SinkSample.up j2.1 in let j4 := SinkSample.job SinkSample.up j3.1 in
  j1.2 = Ok (deferred 5000 (Some "SINK_DELIVERY_FAILED")) ∧
  map (λ r, (sa_attempt_no r, sa_status r, sa_response_ref r)) (sb_rows (sw_db j4.1)) =
    [(1%Z, sink_failed, Some "sink_port_exception"); (2%Z, sink_dead_letter, Some "sink_port_exception");
     (3%Z, sink_is_delivered, Some "rcpt-1")] ∧
  map o_idempotencyKey (events_outbox (sb_db (sw_db j4.1))) = ["id1:sink.dead_lettered"; "id2:sink.delivered"] ∧
  j4.2 = Ok (completed []).
Proof. repeat split; vm_compute; reflexivity. Qed.

(** A worker that is lost after the call leaves its row pending, and the next job makes
    the next attempt. *)
Example pending_left_behind :
  map (λ r, (sa_attempt_no r, sa_status r))
    (sb_rows (sw_db (SinkSample.job SinkSample.up (mkSinkWorld SinkSample.inserted [])).1)) =
  [(1%Z, sink_pending); (2%Z, sink_is_delivered)].
Proof. vm_compute. reflexivity. Qed.

(** Two records whose schema and natural key differ have one key at a sink, so that the
    sink takes the second for a repetition of the first. *)
Theorem sink_keys_collide :
  let key id := match SinkSample.records !! id with Some nr => record_key "t" (mkDeliver id "k1" "c") nr | None => "" end in
  key "r2" = key "r3" ∧ SinkSample.records !! "r2" ≠ SinkSample.records !! "r3".
Proof. split; [vm_compute; reflexivity|]. vm_compute. discriminate. Qed.

Lemma sink_ledger_consistent_witness :
  event_emitted SinkSample.ended "id0" sink_delivered_e ∧
  NoDup (map attempt_slot (sb_rows SinkSample.ended)).
Proof.
  destruct (sink_ledger_consistent "t" SinkSample.uuid TriggerSample.trigger_uuid_fresh _ SinkSample.ended_reachable) as (H1 & _ & H2 & _).
  split; [|exact H1]. refine (proj1 (proj2 (H2 (finalized sink_is_delivered (Some "rcpt-1") (pending_row SinkSample.input "id0" "t:k1:review@1:p1+9" 1)) _)
    sink_delivered_e (or_introl eq_refl)) eq_refl). vm_compute. by left.
Defined.

